(* ===== verification/_CoqProject ===== *)
-Q . S2P
Prelude.v
OpenSSL.v
BigNum.v
Uint256.v
Serialize.v
Crypto.v
Script.v
Target.v
Text.v
PrimeTable.v
PrimeChain.v
Miner.v
Transaction.v
ScriptEval.v
ScriptStd.v
KeyStore.v
KeyPool.v
Base58.v
Coins.v
View.v
Merkle.v
Block.v
BlockFile.v
Chain.v
Supply.v
Connect.v
TxDB.v
Load.v
CheckQueue.v
Reads.v
Progress.v
Mempool.v
Wallet.v
CoinSelect.v
CreateTx.v
Send.v
Bloom.v
NetAddr.v
Limited.v
Local.v
Peer.v
NetMessage.v
AddrMan.v
PeerFile.v
Clock.v
Utxo.v
Best.v
Accept.v
OrphanTx.v
Net.v
Handlers.v
Protocol.v
Filtered.v
Reorg.v
Choice.v
