(* ===== verification/Prelude.v ===== *)
(** * Primecoin node: a verification library (root file)

    The program is the C++ node of Primecoin (src/src).  A block carries a proof of work made of primes, is checked in
    stages, is written to the block files, moves the tip of the chain over views of the unspent outputs, and its
    transactions run scripts; transactions on their own wait in a pool.  The library models these parts as the sources
    write them and proves what they promise each other.  File and function names below are those of src/src.

    ** How the model reads

    A C++ integer is the [Z] it denotes; every operation that can leave its type is followed by the truncation of the type
    ([u32], [s64] and so on below).  A [std::vector] is a list, a [std::map] a [gmap] or an association list where the order is
    used, a pointer into [mapBlockIndex] the hash it is stored under, [None] the null pointer.  A function that changes objects
    takes and returns them.  A result of type [option] is [None] when the code throws, fails an assertion, or runs out of the fuel
    of a loop; each file says which.  Hashes, elliptic curves, big numbers and LevelDB are libraries: they are operations
    of type classes ([OpenSSLBN], [Crypto], [LevelDB]) with their documented behaviour as laws in second classes, and each
    has an instance ([ZBN], [ToyCrypto], [ToyDB]) on which the witnesses of the theorems run.

    ** Files, bottom up

    - Prelude: machine integers, byte lists, options, the tactics and hints of the library.
    - OpenSSL, BigNum (bignum.h), Uint256 (uint256.h): big and fixed-width integers.  The classes compute what arithmetic says.
    - Serialize (serialize.h), Crypto (hash.h, key.h, key.cpp): the formats with the contract [Lawful] (what is written is read
      back, the size is the length), the stream, hashes and public keys.
    - Script (script.h), ScriptEval, ScriptStd (script.cpp): scripts as bytes, the interpreter with its limits, the signature
      hash and cache, standard scripts, verification, signing, the compressor.
    - Target, PrimeTable, PrimeChain, Miner (prime.h, prime.cpp): the target format and retargeting, the prime table, the
      chain tests of the proof of work, the sieve.
    - Transaction, Coins, View, Merkle, Block, BlockFile (main.h, main.cpp): transactions, unspent outputs and undo data,
      the views over them with the interface [CoinsView]/[CoinsViewSpec]/[CoinsViewWrite], Merkle trees, blocks, the block
      and undo files.
    - Chain (main.h, main.cpp): the block index.  Supply, Connect: [ConnectBlock] on the state of the node, and the money it
      creates.
    - TxDB (leveldb.h, txdb.cpp), Load (main.cpp, txdb.cpp): the databases and starting from them.
    - CheckQueue (checkqueue.h): the threads that run the script checks of a block.
    - Mempool (main.h, main.cpp): the pool of transactions.
    - Best, Accept (main.cpp): reorganisation, the choice of the best chain, new blocks and those that wait.
    - Text (util.cpp, util.h), Base58 (base58.h, primecoin_address.h, primecoin_secret.h): amounts, numbers, hexadecimal and base 64
      texts; addresses and secrets.
    - KeyStore (keystore.cpp, crypter.cpp, key.cpp), KeyPool, Wallet, CoinSelect, CreateTx, Send (wallet.cpp, wallet.h, main.cpp): keys in the clear
      and under a passphrase, reserved keys, the transactions of a wallet and its balances, the choice of coins, a new
      transaction, and sending it.
    - Limited (limitedmap.h, mruset.h, util.h), Bloom (bloom.cpp, hash.cpp), Clock (util.cpp): containers with a limit, filters, the time of the peers.
    - NetAddr (netbase.cpp, protocol.cpp, network_peer.cpp), Local (net.cpp), AddrMan (network_peer_manager.cpp), PeerFile (network_peer_manager.h,
      network_peer_database.cpp): addresses, those of this node, the tables of known ones, and the file they are kept in.
    - NetMessage (protocol.cpp, net.cpp, main.cpp): bytes from and to a socket, cut into messages.
    - OrphanTx (main.cpp): transactions that wait for others.
    - Peer (net.h, net.cpp), Net (net.cpp, main.cpp): what the node keeps of one peer, and of all of them; [SendMessages].
    - Handlers (main.cpp): [ProcessMessage] and [ProcessGetData].  Protocol, Filtered: theorems about them.
    - Reads, Progress, Utxo, Reorg, Choice: lemmas and theorems over the files above: what a cache does to its base, that no
      assertion fails, abstract unspent outputs, that coins follow the chain, that the choice ends.

    ** What is proved

    - Consensus: the proof-of-work check is sound and exact about Fermat chains; targets stay in bounds, but for the
      one spacing at which the retarget divides by zero; [CheckBlock] and
      [CheckTransaction] accept exactly what their rules say; a header commits to its block; median times never run back.
    - Money: a connected block creates no more than its reward; a transaction that passes [CheckInputs] spends available
      outputs and no more than it has; disconnecting inverts connecting; spending marks exactly one output.
    - State: a cache refines the map it stands for and the databases refine their tables; after a reorganisation the coins are
      those of the chain of the new tip, whatever branch was undone; nothing stored in the block files is lost as long as a
      file that is there can be opened for update; a node that starts again has the index it stopped with.
    - Control: the choice of the best chain ends at the valid candidate with the most work; the queue of waiting blocks is
      worked off, in order and only it; [ConnectBlock] always reaches a verdict; the check threads give the conjunction of the checks under every
      interleaving, and they finish.
    - Scripts: the interpreter respects its limits; the signature cache changes no verdict; standard scripts verify exactly
      when the signatures do; CHECKMULTISIG decides the matching problem; a signature commits to the transaction.
    - Pool: it never holds a double spend, and removing a transaction removes exactly its descendants.
    - Formats: round trips of numbers, coins, partial Merkle trees, texts, addresses and streams.
    - Wallet: a key store with encryption answers as one without; the key pool hands out no key twice, unless its last key
      is reserved while the wallet is locked; balances count spendable outputs
      once; the chosen coins reach the target and are not more than needed; a new transaction spends coins that are free and not locked, pays what was asked and its change, its fee is
      enough, and the search for the fee ends after 101 turns at most; sending either spends or says why not.
    - Network: what one node pushes the other receives, in order, whatever the pieces it arrives in; the tables of addresses stay consistent
      and survive a restart; no message
      of a peer makes the node fail when validation answers and the blocks asked for through a filter can be read, and each leaves it consistent; requests are answered in order and each once; what is queued for a
      peer is told to it; a filter misses no transaction of a block.

    ** Fuel and bounds

    A loop that is not structural takes fuel: the number of links of a prime chain, the height of an index, the number of
    waiting blocks, the number of files, the number of candidates.  For each such loop a theorem says that the fuel is enough
    (or that some fuel is, as for [FindBlockPos] and [choose_best]), so no result is about runs that stop short.  Two turns are enough
    for the orphans of a transaction.  The limits of the protocol (500 hashes, 2000 headers, 1000 items of a message) are structural.

    ** Not modelled

    - Vendored code (leveldb/), the graphical interface (qt/), tests: not part of the node's own logic.
    - Sockets, threads other than the check threads, signals, files other than the block and undo files and peers.dat, logging, the clock
      (an argument where it is read), random numbers (arguments), configuration (records of settings).
    - Floating point: difficulty for display, the estimate of the sieve, the rate limiter of free transactions, which is
      never reached in a way that matters (lemma [Mempool.rate_limiter_idle]), the estimates of the size of a new filter, and the chances
      by which addresses are selected.
    - The wallet file (writes succeed, and what is read back is what was written), the comments and the order of transactions in it,
      the grouping of addresses, sending transactions again after a while.
    - Calls between a wallet and the node's messages: Net lists them ([wallet_call]), Send makes the one by which the pool tells the wallet of a transaction; the announcement of a block inside [AcceptBlock] is
      left out.  A relayed transaction is kept instead of its bytes.  The requests that [SendMessages] sends do not fill the cache of the coins.
      What a block object holds after a read that failed is a parameter ([unread]).
    - A failed database write throws ([CLevelDB::WriteBatch]).  So it does in [ConnectBlock] and [AddToBlockIndex]; the writes of [CBlockFileInfo] in BlockFile give a
      false verdict instead, and those that mark an invalid block are taken to go through or to be lost unseen.  Synchronizing the database when the tip moves
      does not fail.  Reads of a damaged database throw and are not modelled.  Cache entries that [DisconnectBlock] reads for the message of an error are left out. *)

From Stdlib Require Export ZArith Lia Znumtheory.
From stdpp Require Export base numbers list.

Declare Scope bytes_scope.
Delimit Scope bytes_scope with bytes.

(** ** Machine integers

    A C++ integer is the [Z] it denotes; an operation that can leave the range
    of its type is followed by the truncation of that type. *)

Definition u8 (z : Z) : Z := (z mod 2 ^ 8)%Z.
Definition u16 (z : Z) : Z := (z mod 2 ^ 16)%Z.
Definition u32 (z : Z) : Z := (z mod 2 ^ 32)%Z.
Definition u64 (z : Z) : Z := (z mod 2 ^ 64)%Z.
Definition s32 (z : Z) : Z := ((z + 2 ^ 31) mod 2 ^ 32 - 2 ^ 31)%Z.
Definition s64 (z : Z) : Z := ((z + 2 ^ 63) mod 2 ^ 64 - 2 ^ 63)%Z.

(** [a / b] and [a % b] on signed C++ integers truncate toward zero. *)
Definition cdiv (a b : Z) : Z := Z.quot a b.
Definition crem (a b : Z) : Z := Z.rem a b.

(** A byte is a [Z] between 0 and 255; a [std::vector<unsigned char>] is a list
    of bytes. *)
Abbreviation bytes := (list Z) (only parsing).

Definition is_byte (b : Z) : Prop := (0 <= b < 256)%Z.
Definition is_byteb (b : Z) : bool := (0 <=? b)%Z && (b <? 256)%Z.
Definition all_bytes (l : bytes) : Prop := Forall is_byte l.
(** the string that starts at a pointer: the bytes before the first zero *)
Fixpoint c_str (l : list Z) : list Z := match l with [] => [] | b :: r => if (b =? 0)%Z then [] else b :: c_str r end.

(** Little-endian and big-endian readings of byte strings. *)
Fixpoint le_val (l : bytes) : Z :=
  match l with
  | [] => 0
  | b :: l' => b + 256 * le_val l'
  end%Z.

Fixpoint le_bytes (n : nat) (z : Z) : bytes :=
  match n with
  | O => []
  | S n' => (z mod 256)%Z :: le_bytes n' (z / 256)%Z
  end.

Definition be_val (l : bytes) : Z := le_val (rev l).
Definition be_bytes (n : nat) (z : Z) : bytes := rev (le_bytes n z).

(** ** Errors

    A computation that can throw or run out of fuel returns an [option]. *)

Declare Scope err_scope.
Delimit Scope err_scope with err.
Notation "'let?' x := c 'in' k" := (match c with Some x => k | None => None end)
  (at level 10, x pattern, c at level 200, k at level 200) : err_scope.
Global Open Scope err_scope.

(** ** Automation *)

Create HintDb prime discriminated.
Create Rewrite HintDb len.
Create Rewrite HintDb bn.

(** Turn the boolean tests of the code in the context and the goal into
    propositions [lia] can read. *)
Ltac b2p :=
  repeat match goal with
  | H : (_ && _) = true |- _ => apply andb_prop in H; destruct H
  | H : (_ || _) = false |- _ => apply orb_false_elim in H; destruct H
  | H : (_ || _) = true |- _ => apply orb_prop in H
  | H : (_ && _) = false |- _ => apply andb_false_iff in H
  | H : negb _ = true |- _ => apply negb_true_iff in H
  | H : negb _ = false |- _ => apply negb_false_iff in H
  | H : (_ =? _)%Z = true |- _ => apply Z.eqb_eq in H
  | H : (_ =? _)%Z = false |- _ => apply Z.eqb_neq in H
  | H : (_ <? _)%Z = true |- _ => apply Z.ltb_lt in H
  | H : (_ <? _)%Z = false |- _ => apply Z.ltb_ge in H
  | H : (_ <=? _)%Z = true |- _ => apply Z.leb_le in H
  | H : (_ <=? _)%Z = false |- _ => apply Z.leb_gt in H
  | H : (_ =? _)%nat = true |- _ => apply Nat.eqb_eq in H
  | H : (_ =? _)%nat = false |- _ => apply Nat.eqb_neq in H
  | H : (_ <? _)%nat = true |- _ => apply Nat.ltb_lt in H
  | H : (_ <? _)%nat = false |- _ => apply Nat.ltb_ge in H
  | H : (_ <=? _)%nat = true |- _ => apply Nat.leb_le in H
  | H : (_ <=? _)%nat = false |- _ => apply Nat.leb_gt in H
  | H : bool_decide _ = true |- _ => apply bool_decide_eq_true_1 in H
  | H : bool_decide _ = false |- _ => apply bool_decide_eq_false_1 in H
  end.

(** [lia] with division, remainder and powers of two expanded. *)
Ltac dlia := Z.to_euclidean_division_equations; lia.

(** Split on the condition of the first [if] of the goal. *)
Ltac case_if :=
  match goal with
  | |- context [if ?b then _ else _] => let E := fresh "E" in destruct b eqn:E
  end.
Ltac case_if_in H :=
  match type of H with
  | context [if ?b then _ else _] => let E := fresh "E" in destruct b eqn:E
  end.

Section Widths.
Local Open Scope Z_scope.

Lemma u8_small z : 0 <= z < 2 ^ 8 -> u8 z = z.
Proof. apply Z.mod_small. Qed.
Lemma u16_small z : 0 <= z < 2 ^ 16 -> u16 z = z.
Proof. apply Z.mod_small. Qed.
Lemma u32_small z : 0 <= z < 2 ^ 32 -> u32 z = z.
Proof. apply Z.mod_small. Qed.
Lemma u64_small z : 0 <= z < 2 ^ 64 -> u64 z = z.
Proof. apply Z.mod_small. Qed.
Lemma s32_small z : - 2 ^ 31 <= z < 2 ^ 31 -> s32 z = z.
Proof. intros. unfold s32. rewrite Z.mod_small; lia. Qed.
Lemma s64_small z : - 2 ^ 63 <= z < 2 ^ 63 -> s64 z = z.
Proof. intros. unfold s64. rewrite Z.mod_small; lia. Qed.

Lemma s64_add_l a b : s64 (s64 a + b) = s64 (a + b).
Proof. unfold s64. replace ((a + 2 ^ 63) mod 2 ^ 64 - 2 ^ 63 + b + 2 ^ 63) with ((a + 2 ^ 63) mod 2 ^ 64 + b) by lia.
  rewrite Zplus_mod_idemp_l. do 2 f_equal. lia. Qed.
Lemma s64_add_r a b : s64 (a + s64 b) = s64 (a + b).
Proof. rewrite Z.add_comm, s64_add_l. f_equal. lia. Qed.
Lemma s64_sub_l a b : s64 (s64 a - b) = s64 (a - b).
Proof. rewrite <- Z.add_opp_r, s64_add_l. done. Qed.
Lemma s64_sub_r a b : s64 (a - s64 b) = s64 (a - b).
Proof. unfold s64. replace (a - ((b + 2 ^ 63) mod 2 ^ 64 - 2 ^ 63) + 2 ^ 63) with (a + 2 ^ 64 - (b + 2 ^ 63) mod 2 ^ 64) by lia.
  rewrite Zminus_mod_idemp_r. replace (a + 2 ^ 64 - (b + 2 ^ 63)) with (a - b + 2 ^ 63) by lia. done. Qed.

Lemma u8_range z : 0 <= u8 z < 2 ^ 8.
Proof. apply Z.mod_pos_bound; lia. Qed.
Lemma u32_range z : 0 <= u32 z < 2 ^ 32.
Proof. apply Z.mod_pos_bound; lia. Qed.
Lemma u64_range z : 0 <= u64 z < 2 ^ 64.
Proof. apply Z.mod_pos_bound; lia. Qed.

Lemma is_byteb_spec b : is_byteb b = true <-> is_byte b.
Proof. unfold is_byteb, is_byte. rewrite andb_true_iff, Z.leb_le, Z.ltb_lt. lia. Qed.

Lemma all_bytes_dec l : forallb is_byteb l = true -> all_bytes l.
Proof.
  induction l as [|b l IH]; simpl; [constructor|].
  intros [Hb Hl]%andb_prop. constructor; [by apply is_byteb_spec|]. by apply IH.
Qed.

(** *** Masks and shifts as arithmetic *)

Lemma land_mask z n : 0 <= n -> Z.land z (2 ^ n - 1) = z mod 2 ^ n.
Proof. intros. rewrite <- Z.land_ones by lia. by rewrite Z.ones_equiv, Z.sub_1_r. Qed.

Lemma land_high z n w : 0 <= n <= w -> 0 <= z < 2 ^ w ->
  Z.land z (2 ^ w - 2 ^ n) = z - z mod 2 ^ n.
Proof.
  intros Hn Hz.
  assert (Hm : 2 ^ w - 2 ^ n = Z.shiftl (Z.ones (w - n)) n).
  { rewrite Z.shiftl_mul_pow2, Z.ones_equiv, <- Z.sub_1_r by lia.
    rewrite Z.mul_sub_distr_r, <- Z.pow_add_r by lia.
    replace (w - n + n) with w by lia. lia. }
  assert (Hs : z - z mod 2 ^ n = Z.shiftl (Z.shiftr z n) n).
  { rewrite Z.shiftl_mul_pow2, Z.shiftr_div_pow2 by lia.
    pose proof (Z.div_mod z (2 ^ n)) as Hd. specialize (Hd ltac:(apply Z.pow_nonzero; lia)). lia. }
  rewrite Hm, Hs. apply Z.bits_inj'. intros i Hi.
  rewrite Z.land_spec. destruct (decide (n <= i)).
  - rewrite !Z.shiftl_spec by lia. rewrite Z.shiftr_spec by lia.
    replace (i - n + n) with i by lia.
    destruct (decide (i < w)).
    + rewrite Z.ones_spec_low by lia. apply andb_true_r.
    + rewrite Z.ones_spec_high by lia. rewrite andb_false_r.
      rewrite <- (Z.mod_small z (2 ^ w)) by lia. by rewrite Z.mod_pow2_bits_high by lia.
  - rewrite !Z.shiftl_spec_low by lia. apply andb_false_r.
Qed.

Lemma lor_disjoint_add a b n : 0 <= n -> 0 <= b < 2 ^ n -> Z.lor (a * 2 ^ n) b = a * 2 ^ n + b.
Proof.
  intros Hn Hb. symmetry. rewrite <- Z.lxor_lor.
  - apply Z.add_nocarry_lxor. apply Z.bits_inj'. intros i Hi.
    rewrite Z.land_spec, Z.bits_0, <- Z.shiftl_mul_pow2 by lia.
    destruct (decide (i < n)).
    + by rewrite Z.shiftl_spec_low by lia.
    + rewrite <- (Z.mod_small b (2 ^ n)) by lia.
      rewrite Z.mod_pow2_bits_high by lia. apply andb_false_r.
  - apply Z.bits_inj'. intros i Hi.
    rewrite Z.land_spec, Z.bits_0, <- Z.shiftl_mul_pow2 by lia.
    destruct (decide (i < n)).
    + by rewrite Z.shiftl_spec_low by lia.
    + rewrite <- (Z.mod_small b (2 ^ n)) by lia.
      rewrite Z.mod_pow2_bits_high by lia. apply andb_false_r.
Qed.

End Widths.

(** *** Byte strings *)

Section Bytes.
Local Open Scope Z_scope.

Lemma length_le_bytes n z : length (le_bytes n z) = n.
Proof. revert z. induction n; simpl; intros; [done|by rewrite IHn]. Qed.

Lemma le_bytes_all n z : all_bytes (le_bytes n z).
Proof.
  revert z. induction n; simpl; intros; constructor; [|apply IHn].
  unfold is_byte. apply Z.mod_pos_bound; lia.
Qed.

Lemma pow256_succ n : 256 ^ Z.of_nat (S n) = 256 * 256 ^ Z.of_nat n.
Proof. rewrite Nat2Z.inj_succ, Z.pow_succ_r; lia. Qed.

Lemma pow256_pos n : 0 < 256 ^ Z.of_nat n.
Proof. apply Z.pow_pos_nonneg; lia. Qed.

Lemma le_val_bytes n z : le_val (le_bytes n z) = z mod 256 ^ Z.of_nat n.
Proof.
  revert z. induction n as [|n IH]; intros z.
  - simpl. by rewrite Z.mod_1_r.
  - cbn [le_bytes le_val]. rewrite IH, pow256_succ.
    rewrite Z.rem_mul_r; [lia|lia|apply pow256_pos].
Qed.

Lemma le_val_bound l : all_bytes l -> 0 <= le_val l < 256 ^ Z.of_nat (length l).
Proof.
  induction 1 as [|b l Hb Hl IH]; cbn [le_val length]; [simpl; lia|].
  rewrite pow256_succ. unfold is_byte in Hb. nia.
Qed.

Lemma le_bytes_val l : all_bytes l -> le_bytes (length l) (le_val l) = l.
Proof.
  induction 1 as [|b l Hb Hl IH]; cbn [le_bytes le_val length]; [done|].
  unfold is_byte in Hb. f_equal.
  - rewrite Z.mul_comm, Z.mod_add by lia. apply Z.mod_small; lia.
  - rewrite Z.mul_comm, Z.div_add, Z.div_small by lia. done.
Qed.

Lemma le_val_inj l1 l2 : all_bytes l1 -> all_bytes l2 -> length l1 = length l2 ->
  le_val l1 = le_val l2 -> l1 = l2.
Proof.
  intros H1 H2 Hl He. rewrite <- (le_bytes_val l1), <- (le_bytes_val l2) by done. by rewrite Hl, He.
Qed.

Lemma le_val_app l1 l2 : le_val (l1 ++ l2) = le_val l1 + 256 ^ Z.of_nat (length l1) * le_val l2.
Proof.
  induction l1 as [|b l1 IH]; cbn [app le_val length]; [simpl; lia|].
  rewrite IH, pow256_succ. lia.
Qed.

Lemma le_bytes_app n m z :
  le_bytes (n + m) z = le_bytes n z ++ le_bytes m (z / 256 ^ Z.of_nat n).
Proof.
  revert z. induction n as [|n IH]; intros z; cbn [le_bytes app Nat.add].
  - simpl. by rewrite Z.div_1_r.
  - rewrite IH, pow256_succ, Z.div_div; [done|lia|apply pow256_pos].
Qed.

Lemma le_val_take n l : all_bytes l -> le_val (take n l) = le_val l mod 256 ^ Z.of_nat n.
Proof.
  intros Hl. revert n. induction Hl as [|b l Hb Hl IH]; intros n.
  - rewrite take_nil. simpl. rewrite Z.mod_0_l; [done|]. pose proof (pow256_pos n). lia.
  - destruct n as [|n]; [simpl; by rewrite Z.mod_1_r|].
    cbn [take le_val]. rewrite IH, pow256_succ.
    rewrite Z.rem_mul_r by (try lia; apply pow256_pos). unfold is_byte in Hb.
    rewrite (Z.mul_comm 256 (le_val l)), Z.mod_add, Z.div_add by lia.
    rewrite (Z.mod_small b 256), (Z.div_small b 256) by lia. done.
Qed.

Lemma le_bytes_snoc n z : le_bytes (S n) z = le_bytes n z ++ [(z / 256 ^ Z.of_nat n) mod 256].
Proof. replace (S n) with (n + 1)%nat by lia. by rewrite le_bytes_app. Qed.

Lemma all_bytes_app l1 l2 : all_bytes (l1 ++ l2) <-> all_bytes l1 /\ all_bytes l2.
Proof. apply Forall_app. Qed.

Lemma all_bytes_concat ls : Forall all_bytes ls -> all_bytes (concat ls).
Proof. induction 1; cbn; [constructor|]. apply all_bytes_app. by split. Qed.

Lemma all_bytes_rev l : all_bytes (rev l) <-> all_bytes l.
Proof.
  unfold all_bytes. rewrite !Forall_forall. setoid_rewrite list_elem_of_In.
  setoid_rewrite <- in_rev. done.
Qed.

Lemma all_bytes_firstn n l : all_bytes l -> all_bytes (take n l).
Proof. apply Forall_take. Qed.
Lemma all_bytes_skipn n l : all_bytes l -> all_bytes (drop n l).
Proof. apply Forall_drop. Qed.

End Bytes.

#[export] Hint Resolve le_bytes_all all_bytes_firstn all_bytes_skipn : prime.
#[export] Hint Resolve Forall_nil Forall_cons : prime.
#[export] Hint Rewrite length_le_bytes length_app length_rev @length_take @length_drop : len.
