(* ===== verification/OpenSSL.v ===== *)
(** * What the node relies on from libcrypto

    The sources call OpenSSL for big integers (bignum.h, prime.cpp), for message
    digests and for ECDSA (script.cpp, key.cpp).  That code is not part of the
    repository, so it enters the model as the operations of a type class, and
    what its manual pages promise enters as the laws of a second class.  A
    [BIGNUM] is identified with the integer it stores; every function on
    [BIGNUM]s is still an operation of the class. *)

From Bignums Require BigZ.BigZ.
From S2P Require Import Prelude.
Local Open Scope Z_scope.

(** ** BN(3): arbitrary-precision integers *)

Class OpenSSLBN := {
  BN_add : Z -> Z -> Z;
  BN_sub : Z -> Z -> Z;
  BN_mul : Z -> Z -> Z;
  (** quotient and remainder; [None] is the failure return, which every caller
      turns into a [bignum_error] *)
  BN_div : Z -> Z -> option (Z * Z);
  BN_lshift : Z -> Z -> Z;
  BN_rshift : Z -> Z -> Z;
  BN_cmp : Z -> Z -> Z;
  BN_set_negative : Z -> bool -> Z;
  BN_is_negative : Z -> bool;
  BN_set_word : Z -> Z;
  BN_get_word : Z -> Z;
  BN_num_bytes : Z -> Z;
  BN_bn2mpi : Z -> bytes;
  BN_mpi2bn : bytes -> option Z;
  BN_mod_exp : Z -> Z -> Z -> Z;
  BN_mod_inverse : Z -> Z -> option Z;
}.

(** *** The formats the manual describes *)

(** BN_num_bytes: the number of bytes of the absolute value, 0 for 0. *)
Definition num_bytes (z : Z) : Z := if z =? 0 then 0 else Z.log2 (Z.abs z) / 8 + 1.

(** BN_bn2bin: the absolute value as a big-endian byte string. *)
Definition bn_bytes (z : Z) : bytes := be_bytes (Z.to_nat (num_bytes z)) (Z.abs z).

(** BN_bn2mpi: after the 4-byte length, the number in big-endian form with the
    most significant bit of the first byte used as the sign, padded with one
    byte when that bit is taken. *)
Definition mpi_body (z : Z) : bytes :=
  match bn_bytes z with
  | [] => []
  | b :: r =>
    let sign := if z <? 0 then 128 else 0 in
    if 128 <=? b then sign :: b :: r else (b + sign) :: r
  end.

Definition mpi_value (l : bytes) : Z :=
  match l with
  | [] => 0
  | b :: r => if 128 <=? b then - be_val ((b - 128) :: r) else be_val (b :: r)
  end.

Class OpenSSLBNLaws (B : OpenSSLBN) : Prop := {
  BN_add_spec a b : BN_add a b = a + b;
  BN_sub_spec a b : BN_sub a b = a - b;
  BN_mul_spec a b : BN_mul a b = a * b;
  BN_div_spec a b : b <> 0 -> BN_div a b = Some (Z.quot a b, Z.rem a b);
  BN_div_zero a : BN_div a 0 = None;
  BN_lshift_spec a n : 0 <= n -> BN_lshift a n = a * 2 ^ n;
  BN_rshift_spec a n : 0 <= n -> BN_rshift a n = Z.quot a (2 ^ n);
  BN_cmp_lt a b : BN_cmp a b < 0 <-> a < b;
  BN_cmp_gt a b : 0 < BN_cmp a b <-> b < a;
  BN_set_negative_spec a (n : bool) : BN_set_negative a n = if n then - Z.abs a else Z.abs a;
  BN_is_negative_spec a : BN_is_negative a = (a <? 0);
  BN_set_word_spec w : 0 <= w < 2 ^ 64 -> BN_set_word w = w;
  BN_get_word_spec a : BN_get_word a = if Z.abs a <? 2 ^ 64 then Z.abs a else 2 ^ 64 - 1;
  BN_num_bytes_spec a : BN_num_bytes a = num_bytes a;
  BN_bn2mpi_spec a : BN_bn2mpi a = be_bytes 4 (Z.of_nat (length (mpi_body a))) ++ mpi_body a;
  BN_mpi2bn_spec l : Z.of_nat (length l) < 2 ^ 32 -> all_bytes l ->
    BN_mpi2bn (be_bytes 4 (Z.of_nat (length l)) ++ l) = Some (mpi_value l);
  BN_mod_exp_spec a p m : 0 <= p -> 0 < m -> BN_mod_exp a p m = (a ^ p) mod m;
  BN_mod_inverse_spec a m : 1 < m -> Z.gcd a m = 1 ->
    exists r, BN_mod_inverse a m = Some r /\ 0 <= r < m /\ (a * r) mod m = 1;
  BN_mod_inverse_none a m : 1 < m -> Z.gcd a m <> 1 -> BN_mod_inverse a m = None;
}.

(** *** A reference implementation

    Executable functions with the documented behaviour: they show that the laws
    can hold and let concrete runs of the model be computed. *)

(** modular exponentiation by squaring on the binary digits of the exponent, on
    machine-word integers so that 256-bit exponents evaluate quickly *)
Fixpoint pow_mod_pos (a : BigZ.BigZ.t) (p : positive) (m : BigZ.BigZ.t) : BigZ.BigZ.t :=
  match p with
  | xH => BigZ.BigZ.modulo a m
  | xO q => let r := pow_mod_pos a q m in BigZ.BigZ.modulo (BigZ.BigZ.mul r r) m
  | xI q => let r := pow_mod_pos a q m in
            BigZ.BigZ.modulo (BigZ.BigZ.mul (BigZ.BigZ.modulo (BigZ.BigZ.mul r r) m) a) m
  end.
Definition pow_mod (a p m : Z) : Z :=
  match p with
  | Zpos q => BigZ.BigZ.to_Z (pow_mod_pos (BigZ.BigZ.of_Z a) q (BigZ.BigZ.of_Z m))
  | Z0 => 1 mod m
  | Zneg _ => 0
  end.

(** extended Euclid on the nonnegative remainders, with fuel *)
Fixpoint egcd (fuel : nat) (r0 r1 s0 s1 : Z) : Z * Z :=
  match fuel with
  | O => (r0, s0)
  | S f => if r1 =? 0 then (r0, s0) else egcd f r1 (r0 mod r1) s1 (s0 - (r0 / r1) * s1)
  end.
Definition inv_mod (a m : Z) : option Z :=
  let '(g, s) := egcd (S (Z.to_nat m)) m (a mod m) 0 1 in
  if g =? 1 then Some (s mod m) else None.

#[export] Instance ZBN : OpenSSLBN := {
  BN_add := Z.add;
  BN_sub := Z.sub;
  BN_mul := Z.mul;
  BN_div a b := if b =? 0 then None else Some (Z.quot a b, Z.rem a b);
  BN_lshift a n := a * 2 ^ n;
  BN_rshift a n := Z.quot a (2 ^ n);
  BN_cmp a b := Z.sgn (a - b);
  BN_set_negative a n := if n then - Z.abs a else Z.abs a;
  BN_is_negative a := a <? 0;
  BN_set_word w := w;
  BN_get_word a := if Z.abs a <? 2 ^ 64 then Z.abs a else 2 ^ 64 - 1;
  BN_num_bytes := num_bytes;
  BN_bn2mpi a := be_bytes 4 (Z.of_nat (length (mpi_body a))) ++ mpi_body a;
  BN_mpi2bn l := if be_val (take 4 l) =? Z.of_nat (length (drop 4 l))
                 then Some (mpi_value (drop 4 l)) else None;
  BN_mod_exp := pow_mod;
  BN_mod_inverse := inv_mod;
}.

(** ** Facts about the formats *)

Lemma be_val_cons b l : be_val (b :: l) = 256 ^ Z.of_nat (length l) * b + be_val l.
Proof. unfold be_val. simpl rev. rewrite le_val_app, length_rev. simpl. lia. Qed.

Lemma be_val_bytes n z : be_val (be_bytes n z) = z mod 256 ^ Z.of_nat n.
Proof. unfold be_val, be_bytes. rewrite rev_involutive. apply le_val_bytes. Qed.

Lemma length_be_bytes n z : length (be_bytes n z) = n.
Proof. unfold be_bytes. by rewrite length_rev, length_le_bytes. Qed.

Lemma be_bytes_all n z : all_bytes (be_bytes n z).
Proof. unfold be_bytes. apply all_bytes_rev, le_bytes_all. Qed.

Lemma be_val_bound l : all_bytes l -> 0 <= be_val l < 256 ^ Z.of_nat (length l).
Proof. intros H. unfold be_val. rewrite <- (length_rev l). by apply le_val_bound, all_bytes_rev. Qed.

Lemma be_val_inj l1 l2 : all_bytes l1 -> all_bytes l2 -> length l1 = length l2 ->
  be_val l1 = be_val l2 -> l1 = l2.
Proof.
  intros H1 H2 Hl Hv. rewrite <- (rev_involutive l1), <- (rev_involutive l2). f_equal.
  apply le_val_inj; [by apply all_bytes_rev|by apply all_bytes_rev|by rewrite !length_rev|done].
Qed.

Lemma num_bytes_nonneg z : 0 <= num_bytes z.
Proof.
  unfold num_bytes. case_if; [lia|]. pose proof (Z.log2_nonneg (Z.abs z)). dlia.
Qed.

Lemma num_bytes_bound z : Z.abs z < 256 ^ num_bytes z.
Proof.
  unfold num_bytes. case_if; b2p; [subst; simpl; lia|].
  replace 256 with (2 ^ 8) by done. rewrite <- Z.pow_mul_r.
  - apply Z.lt_le_trans with (2 ^ Z.succ (Z.log2 (Z.abs z))).
    + apply Z.log2_spec. lia.
    + apply Z.pow_le_mono_r; [lia|]. dlia.
  - lia.
  - pose proof (Z.log2_nonneg (Z.abs z)). dlia.
Qed.

Lemma bn_bytes_val z : be_val (bn_bytes z) = Z.abs z.
Proof.
  unfold bn_bytes. rewrite be_val_bytes, Z2Nat.id by apply num_bytes_nonneg.
  apply Z.mod_small. pose proof (num_bytes_bound z). lia.
Qed.

Lemma bn_bytes_all z : all_bytes (bn_bytes z).
Proof. apply be_bytes_all. Qed.

Lemma bn_bytes_nil z : bn_bytes z = [] -> z = 0.
Proof. intros H. pose proof (bn_bytes_val z) as Hv. rewrite H in Hv. cbn in Hv. lia. Qed.

Lemma mpi_value_body z : mpi_value (mpi_body z) = z.
Proof.
  unfold mpi_body. pose proof (bn_bytes_val z) as Hv. pose proof (bn_bytes_all z) as Hb.
  destruct (bn_bytes z) as [|b r] eqn:E; [by apply bn_bytes_nil in E|].
  assert (Hr : is_byte b) by (by inversion Hb). unfold is_byte in Hr.
  destruct (z <? 0) eqn:Ez, (128 <=? b) eqn:E1; b2p; cbn [mpi_value].
  - replace (128 <=? 128) with true by done. rewrite be_val_cons in Hv |- *.
    rewrite (be_val_cons b r). cbn [length]. lia.
  - replace (128 <=? b + 128) with true by (symmetry; apply Z.leb_le; lia).
    replace (b + 128 - 128) with b by lia. lia.
  - replace (128 <=? 0) with false by done. rewrite (be_val_cons 0). lia.
  - rewrite Z.add_0_r. replace (128 <=? b) with false by (symmetry; apply Z.leb_gt; lia). lia.
Qed.

Lemma mpi_body_all z : all_bytes (mpi_body z).
Proof.
  unfold mpi_body. pose proof (bn_bytes_all z) as Hb.
  destruct (bn_bytes z) as [|b r]; [constructor|].
  inversion Hb as [|? ? H1 H2]; subst. unfold is_byte in H1.
  destruct (z <? 0), (128 <=? b) eqn:E; b2p; repeat (constructor; auto); unfold is_byte; lia.
Qed.

Lemma length_mpi_body z : length (mpi_body z) = Z.to_nat (num_bytes z) \/
  length (mpi_body z) = S (Z.to_nat (num_bytes z)).
Proof.
  unfold mpi_body. assert (Hl : length (bn_bytes z) = Z.to_nat (num_bytes z)) by apply length_be_bytes.
  destruct (bn_bytes z); cbn in *; [by left|]. case_if; cbn; lia.
Qed.

(** ** The reference implementation meets the laws *)

Lemma pow_mod_pos_spec a p m : 0 < BigZ.BigZ.to_Z m ->
  BigZ.BigZ.to_Z (pow_mod_pos a p m) = (BigZ.BigZ.to_Z a ^ Zpos p) mod BigZ.BigZ.to_Z m.
Proof.
  intros Hm. induction p as [q IH|q IH|]; cbn [pow_mod_pos];
    rewrite ?BigZ.BigZ.spec_modulo, ?BigZ.BigZ.spec_mul, ?BigZ.BigZ.spec_modulo, ?BigZ.BigZ.spec_mul.
  - rewrite IH, Pos2Z.inj_xI, Z.pow_add_r, Z.pow_1_r by lia.
    replace (2 * Zpos q) with (Zpos q + Zpos q) by lia. rewrite Z.pow_add_r by lia.
    by rewrite <- Z.mul_mod, Z.mul_mod_idemp_l by lia.
  - rewrite IH, Pos2Z.inj_xO. replace (2 * Zpos q) with (Zpos q + Zpos q) by lia.
    rewrite Z.pow_add_r by lia. by rewrite <- Z.mul_mod by lia.
  - by rewrite Z.pow_1_r.
Qed.

Lemma egcd_spec a m fuel r0 r1 s0 s1 : 1 < m -> (Z.to_nat r1 < fuel)%nat -> 0 <= r1 -> 0 <= r0 ->
  Z.gcd r0 r1 = Z.gcd a m -> (a * s0 - r0) mod m = 0 -> (a * s1 - r1) mod m = 0 ->
  let '(g, s) := egcd fuel r0 r1 s0 s1 in g = Z.gcd a m /\ (a * s - g) mod m = 0.
Proof.
  intros Hm. revert r0 r1 s0 s1.
  induction fuel as [|f IH]; intros r0 r1 s0 s1 Hf H1 H0 Hg E0 E1; [lia|].
  cbn [egcd]. case_if; b2p.
  - subst r1. split; [|done]. rewrite <- Hg, Z.gcd_0_r. lia.
  - apply IH.
    + apply Nat.lt_le_trans with (Z.to_nat r1); [|lia].
      apply Z2Nat.inj_lt; pose proof (Z.mod_pos_bound r0 r1); lia.
    + apply Z.mod_pos_bound. lia.
    + lia.
    + rewrite <- Hg, Z.gcd_comm, Z.gcd_mod by lia. apply Z.gcd_comm.
    + done.
    + replace (a * (s0 - r0 / r1 * s1) - r0 mod r1)
        with ((a * s0 - r0) - (r0 / r1) * (a * s1 - r1)) by (rewrite Z.mod_eq by lia; ring).
      apply Z.mod_divide in E0, E1; [|lia|lia]. apply Z.mod_divide; [lia|].
      apply Z.divide_sub_r; [done|]. by apply Z.divide_mul_r.
Qed.

Lemma inv_mod_egcd a m : 1 < m ->
  exists s, inv_mod a m = (if Z.gcd a m =? 1 then Some (s mod m) else None) /\
    (a * s - Z.gcd a m) mod m = 0.
Proof.
  intros Hm. unfold inv_mod.
  pose proof (egcd_spec a m (S (Z.to_nat m)) m (a mod m) 0 1) as H.
  destruct (egcd _ _ _ _ _) as [g s]. destruct H as [Hg Hs]; [lia|..].
  - pose proof (Z.mod_pos_bound a m). lia.
  - apply Z.mod_pos_bound; lia.
  - lia.
  - rewrite Z.gcd_comm, Z.gcd_mod, Z.gcd_comm by lia. done.
  - rewrite Z.mul_0_r, Z.sub_0_l. apply Z.mod_divide; [lia|]. by apply Z.divide_opp_r.
  - rewrite Z.mul_1_r. replace (a - a mod m) with ((a / m) * m) by (rewrite (Z.mod_eq a m) by lia; ring).
    apply Z.mod_mul. lia.
  - exists s. rewrite Hg in Hs |- *. done.
Qed.

Lemma inv_mod_spec a m : 1 < m -> Z.gcd a m = 1 ->
  exists r, inv_mod a m = Some r /\ 0 <= r < m /\ (a * r) mod m = 1.
Proof.
  intros Hm Hg. destruct (inv_mod_egcd a m Hm) as (s & -> & Hs). rewrite Hg in Hs |- *.
  exists (s mod m). split; [done|]. split; [apply Z.mod_pos_bound; lia|].
  rewrite Z.mul_mod_idemp_r by lia.
  apply Z.mod_divide in Hs as [k Hk]; [|lia].
  replace (a * s) with (1 + k * m) by lia. rewrite Z.mod_add by lia. apply Z.mod_small. lia.
Qed.

#[export] Instance ZBN_laws : OpenSSLBNLaws ZBN.
Proof.
  split; cbn [BN_add BN_sub BN_mul BN_div BN_lshift BN_rshift BN_cmp BN_set_negative
    BN_is_negative BN_set_word BN_get_word BN_num_bytes BN_bn2mpi BN_mpi2bn BN_mod_exp BN_mod_inverse ZBN];
    intros; try done; try lia.
  - by rewrite (proj2 (Z.eqb_neq b 0)).
  - rewrite take_app_length', drop_app_length' by (by rewrite length_be_bytes).
    rewrite be_val_bytes, Z.mod_small, Z.eqb_refl by (simpl; lia). done.
  - destruct p; cbn [pow_mod]; [by rewrite Z.pow_0_r| |lia].
    by rewrite pow_mod_pos_spec, !BigZ.BigZ.spec_of_Z by (by rewrite BigZ.BigZ.spec_of_Z).
  - by apply inv_mod_spec.
  - destruct (inv_mod_egcd a m) as (s & -> & _); [done|].
    by rewrite (proj2 (Z.eqb_neq _ 1)).
Qed.
