(* ===== verification/BigNum.v ===== *)
(** * CBigNum (bignum.h)

    The C++ wrapper over OpenSSL's BIGNUM: conversions from and to machine
    integers, [uint256], byte vectors, the compact target format and hexadecimal
    text, and the arithmetic operators the rest of the node uses.  A [CBigNum]
    is the integer it holds; a [uint256] is its value; text is a list of
    character codes. *)

From S2P Require Import Prelude OpenSSL.
Local Open Scope Z_scope.

Section CBigNum.
Context {B : OpenSSLBN}.

(** ** Conversions *)

(** the four length bytes written in front of the magnitude *)
Definition mpi_header (nSize : Z) : bytes :=
  [Z.land (Z.shiftr nSize 24) 255; Z.land (Z.shiftr nSize 16) 255;
   Z.land (Z.shiftr nSize 8) 255; Z.land nSize 255].

(** [BN_mpi2bn(pch, p - pch, this)]: on failure [this] keeps its value *)
Definition load_mpi (this : Z) (body : bytes) : Z :=
  match BN_mpi2bn (mpi_header (u32 (Z.of_nat (length body))) ++ body) with
  | Some v => v
  | None => this
  end.

Definition setulong (n : Z) : Z := BN_set_word n.
Definition getulong (this : Z) : Z := BN_get_word this.
Definition getuint (this : Z) : Z := u32 (BN_get_word this).

Definition int_max : Z := 2 ^ 31 - 1.
Definition int_min : Z := - 2 ^ 31.
Definition getint (this : Z) : Z :=
  let n := BN_get_word this in
  if negb (BN_is_negative this)
  then (if int_max <? n then int_max else n)
  else (if int_max <? n then int_min else - n).

(** One round of the byte-emitting loops of [setint64], [setuint64] and
    [setuint256]: [c] is the current byte, [p] what has been written. *)
Definition emit_byte (fNegative : bool) (c : Z) (st : bool * bytes) : bool * bytes :=
  let '(fLeadingZeroes, p) := st in
  if fLeadingZeroes then
    if c =? 0 then (true, p)
    else if negb (Z.land c 128 =? 0)
         then (false, p ++ [if fNegative then 128 else 0] ++ [c])
         else (false, p ++ [if fNegative then Z.lor c 128 else c])
  else (false, p ++ [c]).

Fixpoint emit_loop (fuel : nat) (fNegative : bool) (n : Z) (st : bool * bytes) : bytes :=
  match fuel with
  | O => st.2
  | S f =>
    let c := Z.land (Z.shiftr n 56) 255 in
    emit_loop f fNegative (u64 (Z.shiftl n 8)) (emit_byte fNegative c st)
  end.

Definition setint64 (this sn : Z) : Z :=
  let fNegative := sn <? 0 in
  let n := if fNegative then u64 (u64 (- (sn + 1)) + 1) else u64 sn in
  load_mpi this (emit_loop 8 fNegative n (true, [])).

Definition setuint64 (this n : Z) : Z :=
  load_mpi this (emit_loop 8 false n (true, [])).

(** the bytes of [n] from the most significant one *)
Fixpoint emit_bytes (fNegative : bool) (l : bytes) (st : bool * bytes) : bytes :=
  match l with
  | [] => st.2
  | c :: l' => emit_bytes fNegative l' (emit_byte fNegative c st)
  end.

Definition setuint256 (this n : Z) : Z :=
  load_mpi this (emit_bytes false (rev (le_bytes 32 n)) (true, [])).

(** constructors from [int] (and the narrower types) and from [int64] *)
Definition of_int (n : Z) : Z := if 0 <=? n then setulong n else setint64 0 n.
Definition of_int64 (n : Z) : Z := setint64 0 n.

(** copies the low 32 bytes of the big-endian magnitude, lowest first *)
Definition getuint256 (this : Z) : Z :=
  let vch := BN_bn2mpi this in
  if (length vch <? 4)%nat then 0
  else
    let body := drop 4 vch in
    let body := match body with [] => [] | b :: r => Z.land b 127 :: r end in
    le_val (take 32 (rev body)).

Definition setvch (this : Z) (vch : bytes) : Z := load_mpi this (rev vch).

Definition of_vch (vch : bytes) : Z := setvch 0 vch.

Definition getvch (this : Z) : bytes :=
  let vch := BN_bn2mpi this in
  if (length vch <=? 4)%nat then [] else rev (drop 4 vch).

(** ** The compact format *)

Definition SetCompact (nCompact : Z) : Z :=
  let nSize := Z.shiftr nCompact 24 in
  let fNegative := negb (Z.land nCompact 8388608 =? 0) in
  let nWord := Z.land nCompact 8388607 in
  let this :=
    if nSize <=? 3
    then BN_set_word (Z.shiftr nWord (8 * (3 - nSize)))
    else BN_lshift (BN_set_word nWord) (8 * (nSize - 3)) in
  BN_set_negative this fNegative.

Definition GetCompact (this : Z) : Z :=
  let nSize := u32 (BN_num_bytes this) in
  let nCompact :=
    if nSize <=? 3
    then u32 (Z.shiftl (BN_get_word this) (8 * (3 - nSize)))
    else u32 (BN_get_word (BN_rshift this (8 * (nSize - 3)))) in
  let '(nCompact, nSize) :=
    if negb (Z.land nCompact 8388608 =? 0)
    then (Z.shiftr nCompact 8, u32 (nSize + 1)) else (nCompact, nSize) in
  let nCompact := Z.lor nCompact (u32 (Z.shiftl nSize 24)) in
  Z.lor nCompact (if BN_is_negative this then 8388608 else 0).

(** ** Operators *)

Definition bn_add (a b : Z) : Z := BN_add a b.
Definition bn_sub (a b : Z) : Z := BN_sub a b.
Definition bn_neg (a : Z) : Z := BN_set_negative a (negb (BN_is_negative a)).
Definition bn_mul (a b : Z) : Z := BN_mul a b.
(** [None] is the [bignum_error] thrown when [BN_div] fails *)
Definition bn_div (a b : Z) : option Z := fst <$> BN_div a b.
Definition bn_mod (a b : Z) : option Z := snd <$> BN_div a b.
Definition bn_shl (a shift : Z) : Z := BN_lshift a shift.

Definition bn_eqb (a b : Z) : bool := BN_cmp a b =? 0.
Definition bn_neb (a b : Z) : bool := negb (BN_cmp a b =? 0).
Definition bn_leb (a b : Z) : bool := BN_cmp a b <=? 0.
Definition bn_geb (a b : Z) : bool := 0 <=? BN_cmp a b.
Definition bn_ltb (a b : Z) : bool := BN_cmp a b <? 0.
Definition bn_gtb (a b : Z) : bool := 0 <? BN_cmp a b.

Definition bn_shr (this shift : Z) : Z :=
  let a := bn_shl (setulong 1) shift in
  if 0 <? BN_cmp a this then setulong 0 else BN_rshift this shift.

Definition bn_incr (this : Z) : Z := BN_add this (setulong 1).
Definition bn_decr (this : Z) : Z := BN_sub this (setulong 1).

(** ** Hexadecimal and decimal text *)

Definition isspace (c : Z) : bool := (c =? 32) || ((9 <=? c) && (c <=? 13)).
Definition isxdigit (c : Z) : bool :=
  ((48 <=? c) && (c <=? 57)) || ((65 <=? c) && (c <=? 70)) || ((97 <=? c) && (c <=? 102)).
Definition tolower (c : Z) : Z := if (65 <=? c) && (c <=? 90) then c + 32 else c.
Definition phexdigit (c : Z) : Z :=
  if (48 <=? c) && (c <=? 57) then c - 48
  else if (65 <=? c) && (c <=? 70) then c - 55
  else if (97 <=? c) && (c <=? 102) then c - 87 else 0.

Fixpoint skip_spaces (psz : bytes) : bytes :=
  match psz with
  | c :: r => if isspace c then skip_spaces r else psz
  | [] => []
  end.

Fixpoint hex_digits (this : Z) (psz : bytes) : Z :=
  match psz with
  | c :: r =>
    if isxdigit c
    then hex_digits (bn_add (bn_shl this 4) (of_int (phexdigit c))) r
    else this
  | [] => this
  end.

Definition SetHex (str : bytes) : Z :=
  let psz := skip_spaces str in
  let '(fNegative, psz) :=
    match psz with
    | c :: r => if c =? 45 then (true, r) else (false, psz)
    | [] => (false, psz)
    end in
  let psz :=
    match psz with
    | c0 :: c1 :: r => if (c0 =? 48) && (tolower c1 =? 120) then r else psz
    | _ => psz
    end in
  let psz := skip_spaces psz in
  let this := hex_digits (setulong 0) psz in
  if fNegative then bn_sub (setulong 0) this else this.

(** ["0123456789abcdef"[c]] *)
Definition digit_char (c : Z) : Z := if c <? 10 then 48 + c else 87 + c.

(** the digits are appended lowest first; [None]: [BN_div] failed or fuel ran out *)
Fixpoint ToString_loop (fuel : nat) (bn bnBase : Z) (str : bytes) : option bytes :=
  match fuel with
  | O => None
  | S f =>
    if bn_gtb bn (setulong 0) then
      match BN_div bn bnBase with
      | None => None
      | Some (dv, rem) => ToString_loop f dv bnBase (str ++ [digit_char (u32 (getulong rem))])
      end
    else Some str
  end.

(** the fuel: one round per bit of the number, and the exit test *)
Definition ToString (this nBase : Z) : option bytes :=
  let bn := BN_set_negative this false in
  if bn_eqb bn (setulong 0) then Some [48]
  else
    match ToString_loop (S (S (Z.to_nat (Z.log2 bn)))) bn (of_int nBase) [] with
    | None => None
    | Some str =>
      let str := if BN_is_negative this then str ++ [45] else str in
      Some (rev str)
    end.

Definition GetHex (this : Z) : option bytes := ToString this 16.

End CBigNum.

(** ** Laws of the operators *)

Section Laws.
Context {B : OpenSSLBN} {L : OpenSSLBNLaws B}.

Lemma BN_cmp_eq a b : BN_cmp a b = 0 <-> a = b.
Proof.
  pose proof (BN_cmp_lt a b). pose proof (BN_cmp_gt a b). lia.
Qed.

Lemma bn_add_eq a b : bn_add a b = a + b.
Proof. apply BN_add_spec. Qed.
Lemma bn_sub_eq a b : bn_sub a b = a - b.
Proof. apply BN_sub_spec. Qed.
Lemma bn_mul_eq a b : bn_mul a b = a * b.
Proof. apply BN_mul_spec. Qed.
Lemma bn_neg_eq a : bn_neg a = - a.
Proof.
  unfold bn_neg. rewrite BN_set_negative_spec, BN_is_negative_spec.
  destruct (a <? 0) eqn:E; b2p; simpl; lia.
Qed.
Lemma bn_div_eq a b : b <> 0 -> bn_div a b = Some (Z.quot a b).
Proof. intros. unfold bn_div. by rewrite BN_div_spec. Qed.
Lemma bn_mod_eq a b : b <> 0 -> bn_mod a b = Some (Z.rem a b).
Proof. intros. unfold bn_mod. by rewrite BN_div_spec. Qed.
Lemma bn_shl_eq a n : 0 <= n -> bn_shl a n = a * 2 ^ n.
Proof. apply BN_lshift_spec. Qed.
Lemma bn_eqb_eq a b : bn_eqb a b = (a =? b).
Proof. unfold bn_eqb. pose proof (BN_cmp_eq a b). lia. Qed.
Lemma bn_neb_eq a b : bn_neb a b = negb (a =? b).
Proof. unfold bn_neb. pose proof (BN_cmp_eq a b). lia. Qed.
Lemma bn_leb_eq a b : bn_leb a b = (a <=? b).
Proof. unfold bn_leb. pose proof (BN_cmp_gt a b). lia. Qed.
Lemma bn_geb_eq a b : bn_geb a b = (b <=? a).
Proof. unfold bn_geb. pose proof (BN_cmp_lt a b). lia. Qed.
Lemma bn_ltb_eq a b : bn_ltb a b = (a <? b).
Proof. unfold bn_ltb. pose proof (BN_cmp_lt a b). lia. Qed.
Lemma bn_gtb_eq a b : bn_gtb a b = (b <? a).
Proof. unfold bn_gtb. pose proof (BN_cmp_gt a b). lia. Qed.
Lemma setulong_eq n : 0 <= n < 2 ^ 64 -> setulong n = n.
Proof. apply BN_set_word_spec. Qed.

(** [>>] drops negative numbers to zero *)
Lemma bn_shr_eq a n : 0 <= n -> bn_shr a n = if a <? 0 then 0 else a / 2 ^ n.
Proof.
  intros Hn. unfold bn_shr. rewrite bn_shl_eq, !setulong_eq, Z.mul_1_l by lia.
  pose proof (BN_cmp_gt (2 ^ n) a) as Hc. pose proof (Z.pow_pos_nonneg 2 n).
  destruct (0 <? BN_cmp (2 ^ n) a) eqn:E, (a <? 0) eqn:Ea; b2p; try lia.
  - rewrite Z.div_small; lia.
  - rewrite BN_rshift_spec by lia. apply Z.quot_div_nonneg; lia.
Qed.

End Laws.

#[export] Hint Rewrite @bn_add_eq @bn_sub_eq @bn_mul_eq @bn_neg_eq @bn_eqb_eq @bn_neb_eq
  @bn_leb_eq @bn_geb_eq @bn_ltb_eq @bn_gtb_eq using typeclasses eauto : bn.
#[export] Hint Rewrite @bn_shl_eq @bn_shr_eq @setulong_eq using (first [typeclasses eauto | lia]) : bn.

(** ** Conversions are exact *)

Section Conversions.
Context {B : OpenSSLBN} {L : OpenSSLBNLaws B}.

Lemma land_255 z : Z.land z 255 = z mod 256.
Proof. apply (land_mask z 8). lia. Qed.

Lemma mpi_header_eq n : mpi_header n = be_bytes 4 n.
Proof.
  unfold mpi_header, be_bytes. cbn [le_bytes rev app].
  rewrite !land_255, !Z.shiftr_div_pow2 by lia.
  rewrite !Z.div_div by lia. done.
Qed.

Lemma load_mpi_eq this body : Z.of_nat (length body) < 2 ^ 32 -> all_bytes body ->
  load_mpi this body = mpi_value body.
Proof.
  intros Hl Hb. unfold load_mpi. rewrite u32_small, mpi_header_eq by lia.
  by rewrite BN_mpi2bn_spec.
Qed.

Lemma byte_high_bit c : is_byte c -> negb (Z.land c 128 =? 0) = (128 <=? c).
Proof.
  unfold is_byte. intros. pose proof (land_high c 7 8) as Hl.
  change (2 ^ 8 - 2 ^ 7) with 128 in Hl. change (2 ^ 7) with 128 in Hl. rewrite Hl by lia.
  destruct (128 <=? c) eqn:E; b2p.
  - apply negb_true_iff, Z.eqb_neq. dlia.
  - apply negb_false_iff, Z.eqb_eq. dlia.
Qed.

Lemma lor_128 c : 0 <= c < 128 -> Z.lor c 128 = c + 128.
Proof.
  intros. rewrite Z.lor_comm. pose proof (lor_disjoint_add 1 c 7 ltac:(lia) ltac:(lia)) as H'.
  change (1 * 2 ^ 7) with 128 in H'. lia.
Qed.

Lemma land_127 c : is_byte c -> Z.land c 127 = if 128 <=? c then c - 128 else c.
Proof.
  unfold is_byte. intros. replace 127 with (2 ^ 7 - 1) by done. rewrite land_mask by lia.
  destruct (128 <=? c) eqn:E; b2p; dlia.
Qed.

Lemma emit_bytes_false neg l p : emit_bytes neg l (false, p) = p ++ l.
Proof.
  revert p. induction l as [|c l IH]; intros p; cbn [emit_bytes].
  - cbn. by rewrite app_nil_r.
  - cbn [emit_byte]. rewrite IH. by rewrite <- app_assoc.
Qed.

Lemma emit_bytes_spec (neg : bool) l : all_bytes l ->
  let r := emit_bytes neg l (true, []) in
  mpi_value r = (if neg then - be_val l else be_val l) /\ all_bytes r /\ (length r <= S (length l))%nat.
Proof.
  induction 1 as [|c l Hc Hl IH]; cbn [emit_bytes].
  - cbn. split; [by destruct neg|]. split; [constructor|lia].
  - cbn [emit_byte]. rewrite byte_high_bit by done. unfold is_byte in Hc.
    destruct (c =? 0) eqn:E0; b2p.
    + subst c. rewrite be_val_cons, Z.mul_0_r, Z.add_0_l. destruct IH as (H1 & H2 & H3).
      cbn [length]. auto with lia.
    + destruct (128 <=? c) eqn:E1; rewrite emit_bytes_false; cbn [app]; b2p.
      * split; [|split].
        -- cbn [mpi_value]. destruct neg.
           ++ replace (128 <=? 128) with true by done. rewrite (be_val_cons (128 - 128)). lia.
           ++ replace (128 <=? 0) with false by done. rewrite (be_val_cons 0). lia.
        -- repeat constructor; unfold is_byte; try (destruct neg; lia); try lia; done.
        -- cbn. lia.
      * rewrite lor_128 by lia. split; [|split].
        -- cbn [mpi_value]. destruct neg.
           ++ replace (128 <=? c + 128) with true by (symmetry; apply Z.leb_le; lia).
              by replace (c + 128 - 128) with c by lia.
           ++ by replace (128 <=? c) with false by (symmetry; apply Z.leb_gt; lia).
        -- constructor; [unfold is_byte; destruct neg; lia|done].
        -- cbn. lia.
Qed.

Lemma emit_loop_spec f neg m st : (f <= 8)%nat ->
  emit_loop f neg (u64 (m * 256 ^ (8 - Z.of_nat f))) st = emit_bytes neg (be_bytes f m) st.
Proof.
  revert st. induction f as [|f IH]; intros st Hf; [done|].
  unfold be_bytes. rewrite le_bytes_snoc, rev_app_distr. cbn [rev app emit_bytes emit_loop].
  assert (Hk : 256 ^ (8 - Z.of_nat f) = 256 * 256 ^ (8 - Z.of_nat (S f))).
  { rewrite <- Z.pow_succ_r by lia. f_equal. lia. }
  rewrite land_255, Z.shiftr_div_pow2, Z.shiftl_mul_pow2 by lia.
  replace (u64 (u64 (m * 256 ^ (8 - Z.of_nat (S f))) * 2 ^ 8))
    with (u64 (m * 256 ^ (8 - Z.of_nat f))).
  2:{ unfold u64. rewrite Z.mul_mod_idemp_l by lia. f_equal. rewrite Hk. lia. }
  rewrite IH by lia. f_equal. f_equal.
  unfold u64. replace (2 ^ 64) with (2 ^ 56 * 256) by done.
  rewrite Z.rem_mul_r by lia. rewrite (Z.mul_comm (2 ^ 56)), Z.div_add by lia.
  rewrite (Z.div_small (_ mod 2 ^ 56)) by (apply Z.mod_pos_bound; lia).
  rewrite Z.add_0_l. rewrite Z.mod_mod by lia. f_equal.
  replace (2 ^ 56) with (256 ^ Z.of_nat f * 256 ^ (8 - Z.of_nat (S f))).
  2:{ rewrite <- Z.pow_add_r by lia. replace (Z.of_nat f + (8 - Z.of_nat (S f))) with 7 by lia. done. }
  apply Z.div_mul_cancel_r; pose proof (pow256_pos f); [lia|].
  apply Z.pow_nonzero; lia.
Qed.

Lemma emit_loop_value (neg : bool) n : 0 <= n < 2 ^ 64 -> forall this,
  load_mpi this (emit_loop 8 neg n (true, [])) = if neg then - n else n.
Proof.
  intros Hn this. replace n with (u64 (n * 256 ^ (8 - Z.of_nat 8))) at 1.
  2:{ simpl. rewrite Z.mul_1_r. by apply u64_small. }
  rewrite emit_loop_spec by lia.
  destruct (emit_bytes_spec neg (be_bytes 8 n)) as (H1 & H2 & H3); [apply be_bytes_all|].
  rewrite length_be_bytes in H3. rewrite load_mpi_eq by (done || lia).
  rewrite H1, be_val_bytes, Z.mod_small by (simpl; lia). done.
Qed.

Lemma setint64_eq this sn : - 2 ^ 63 <= sn < 2 ^ 63 -> setint64 this sn = sn.
Proof.
  intros H. unfold setint64. destruct (sn <? 0) eqn:E; b2p.
  - rewrite (u64_small (- (sn + 1))), u64_small by lia. rewrite emit_loop_value by lia. lia.
  - rewrite u64_small by lia. by rewrite emit_loop_value by lia.
Qed.

Lemma setuint64_eq this n : 0 <= n < 2 ^ 64 -> setuint64 this n = n.
Proof. intros. unfold setuint64. by rewrite emit_loop_value. Qed.

Lemma setuint256_eq this n : 0 <= n < 2 ^ 256 -> setuint256 this n = n.
Proof.
  intros Hn. unfold setuint256. change (rev (le_bytes 32 n)) with (be_bytes 32 n).
  destruct (emit_bytes_spec false (be_bytes 32 n)) as (H1 & H2 & H3); [apply be_bytes_all|].
  rewrite length_be_bytes in H3. rewrite load_mpi_eq by (done || lia).
  rewrite H1, be_val_bytes, Z.mod_small by (simpl; lia). done.
Qed.

Lemma of_int_eq n : - 2 ^ 31 <= n < 2 ^ 31 -> of_int n = n.
Proof.
  intros. unfold of_int. case_if; b2p; [apply setulong_eq; lia|apply setint64_eq; lia].
Qed.

Lemma drop_bn2mpi z : drop 4 (BN_bn2mpi z) = mpi_body z.
Proof. rewrite BN_bn2mpi_spec. apply drop_app_length'. by rewrite length_be_bytes. Qed.

Lemma length_bn2mpi z : length (BN_bn2mpi z) = (4 + length (mpi_body z))%nat.
Proof. rewrite BN_bn2mpi_spec. rewrite length_app, length_be_bytes. done. Qed.

Lemma getvch_eq z : getvch z = rev (mpi_body z).
Proof.
  unfold getvch. rewrite drop_bn2mpi, length_bn2mpi. case_if; b2p; [|done].
  destruct (mpi_body z); simpl in *; [done|lia].
Qed.

Lemma setvch_eq this v : Z.of_nat (length v) < 2 ^ 32 -> all_bytes v ->
  setvch this v = mpi_value (rev v).
Proof.
  intros. unfold setvch. apply load_mpi_eq; [by rewrite length_rev|by apply all_bytes_rev].
Qed.

Lemma getvch_all z : all_bytes (getvch z).
Proof. rewrite getvch_eq. apply all_bytes_rev, mpi_body_all. Qed.

Lemma setvch_getvch this z : Z.of_nat (length (getvch z)) < 2 ^ 32 -> setvch this (getvch z) = z.
Proof.
  intros Hl. rewrite setvch_eq by (done || apply getvch_all).
  rewrite getvch_eq, rev_involutive. apply mpi_value_body.
Qed.

Lemma getuint256_eq z : getuint256 z = Z.abs z mod 2 ^ 256.
Proof.
  unfold getuint256. rewrite drop_bn2mpi, length_bn2mpi. cbn [Nat.add Nat.ltb Nat.leb].
  pose proof (mpi_value_body z) as Hv. pose proof (mpi_body_all z) as Ha.
  destruct (mpi_body z) as [|b r]; cbn [mpi_value] in Hv; [by subst z|].
  inversion Ha as [|? ? Hb Hr]; subst x l. rewrite <- Hv. rewrite land_127 by done. unfold is_byte in Hb.
  rewrite le_val_take.
  - fold (be_val ((if 128 <=? b then b - 128 else b) :: r)). change (256 ^ Z.of_nat 32) with (2 ^ 256).
    f_equal. pose proof (be_val_bound r Hr) as Hp. pose proof (pow256_pos (length r)).
    destruct (128 <=? b) eqn:E; b2p; rewrite be_val_cons; nia.
  - apply all_bytes_rev. constructor; [|done]. unfold is_byte. destruct (128 <=? b) eqn:E; b2p; lia.
Qed.

End Conversions.

(** ** Byte-vector encoding: canonical form *)

(** A vector without redundant most significant byte: the only one [getvch] can
    produce for its value. *)
Definition minimal_mpi (l : bytes) : bool :=
  match l with
  | [] => true
  | b :: r =>
    if Z.land b 127 =? 0 then match r with [] => false | c :: _ => 128 <=? c end else true
  end.
Definition minimal_vch (v : bytes) : bool := minimal_mpi (rev v).

Section Canonical.
Context {B : OpenSSLBN} {L : OpenSSLBNLaws B}.

Lemma mpi_value_abs b r : all_bytes (b :: r) ->
  Z.abs (mpi_value (b :: r)) = be_val (Z.land b 127 :: r) /\
  0 <= Z.land b 127 < 128 /\ 0 <= be_val r < 256 ^ Z.of_nat (length r).
Proof.
  inversion 1 as [|? ? Hb Hr]; subst x l. rewrite land_127 by done. unfold is_byte in Hb.
  pose proof (be_val_bound r Hr) as Hp. pose proof (pow256_pos (length r)).
  cbn [mpi_value]. destruct (128 <=? b) eqn:E; b2p; rewrite be_val_cons; split; nia.
Qed.

Lemma minimal_bounds b r : all_bytes (b :: r) -> minimal_mpi (b :: r) = true ->
  let v := Z.abs (mpi_value (b :: r)) in
  2 * v < 256 ^ Z.of_nat (S (length r)) /\ 256 ^ Z.of_nat (length r) <= 2 * v.
Proof.
  intros Ha Hm. destruct (mpi_value_abs b r Ha) as (Hv & Hb & Hr). cbv zeta. rewrite Hv, be_val_cons.
  rewrite pow256_succ. pose proof (pow256_pos (length r)). split; [nia|].
  cbn [minimal_mpi] in Hm. destruct (Z.land b 127 =? 0) eqn:E; b2p; [|nia].
  destruct r as [|c r]; [done|]. b2p. rewrite be_val_cons in Hr |- *. cbn [length] in *.
  rewrite pow256_succ in *. inversion Ha as [|? ? _ Ha']; subst x l.
  inversion Ha' as [|? ? Hc Hr']; subst x l.
  pose proof (be_val_bound r Hr') as Hp.
  pose proof (pow256_pos (length r)). nia.
Qed.

Lemma minimal_length_le l1 l2 : all_bytes l1 -> all_bytes l2 -> minimal_mpi l1 = true ->
  minimal_mpi l2 = true -> mpi_value l1 = mpi_value l2 -> (length l2 <= length l1)%nat.
Proof.
  intros H1 H2 M1 M2 Hv. destruct l2 as [|b2 r2]; [simpl; lia|].
  pose proof (minimal_bounds b2 r2 H2 M2) as [_ Hlo]. pose proof (pow256_pos (length r2)).
  destruct l1 as [|b1 r1].
  - rewrite <- Hv in Hlo. cbn [mpi_value] in Hlo. lia.
  - pose proof (minimal_bounds b1 r1 H1 M1) as [Hhi _]. rewrite Hv in Hhi. cbn [length].
    assert (Z.of_nat (length r2) < Z.of_nat (S (length r1))); [|lia].
    apply (Z.pow_lt_mono_r_iff 256); lia.
Qed.

Lemma mpi_value_inj l1 l2 : all_bytes l1 -> all_bytes l2 -> minimal_mpi l1 = true ->
  minimal_mpi l2 = true -> mpi_value l1 = mpi_value l2 -> l1 = l2.
Proof.
  intros H1 H2 M1 M2 Hv.
  assert (Hl : length l1 = length l2) by (apply Nat.le_antisymm; eauto using minimal_length_le, eq_sym).
  destruct l1 as [|b1 r1], l2 as [|b2 r2]; try discriminate; [done|].
  assert (He : Z.land b1 127 :: r1 = Z.land b2 127 :: r2).
  { apply be_val_inj.
    - inversion H1; subst. constructor; [|done].
      destruct (mpi_value_abs _ _ H1) as (_ & ? & _). unfold is_byte. lia.
    - inversion H2; subst. constructor; [|done].
      destruct (mpi_value_abs _ _ H2) as (_ & ? & _). unfold is_byte. lia.
    - done.
    - rewrite <- (proj1 (mpi_value_abs _ _ H1)), <- (proj1 (mpi_value_abs _ _ H2)). by rewrite Hv. }
  injection He as He ->. f_equal.
  destruct (minimal_bounds _ _ H1 M1) as [_ Hnz]. pose proof (pow256_pos (length r2)).
  destruct (mpi_value_abs _ _ H1) as (Ha1 & Hb1 & Hr). destruct (mpi_value_abs _ _ H2) as (Ha2 & Hb2 & _).
  inversion H1; inversion H2; subst. rewrite !land_127 in He by done.
  rewrite !land_127 in Ha1, Ha2 by done. cbn [mpi_value] in *.
  destruct (128 <=? b1) eqn:E1, (128 <=? b2) eqn:E2; b2p; lia.
Qed.

Lemma bn_bytes_head z b r : bn_bytes z = b :: r -> 1 <= b.
Proof.
  intros H. pose proof (bn_bytes_val z) as Hv. pose proof (bn_bytes_all z) as Ha.
  assert (Hl : length (bn_bytes z) = Z.to_nat (num_bytes z)) by apply length_be_bytes.
  rewrite H in Hv, Ha, Hl. inversion Ha as [|? ? Hb Hr]; subst x l. unfold is_byte in Hb.
  destruct (decide (b = 0)) as [->|]; [exfalso|lia].
  rewrite be_val_cons in Hv.
  pose proof (be_val_bound r Hr) as Hp. cbn [length] in Hl. unfold num_bytes in Hl.
  destruct (z =? 0) eqn:E; b2p; [done|].
  pose proof (Z.log2_spec (Z.abs z)) as Hlog. pose proof (Z.log2_nonneg (Z.abs z)).
  assert (Hr' : Z.of_nat (length r) = Z.log2 (Z.abs z) / 8) by dlia.
  rewrite Hr' in Hp. replace 256 with (2 ^ 8) in Hp by done.
  rewrite <- Z.pow_mul_r in Hp by dlia.
  assert (2 ^ (8 * (Z.log2 (Z.abs z) / 8)) <= 2 ^ Z.log2 (Z.abs z)) by (apply Z.pow_le_mono_r; dlia).
  lia.
Qed.

Lemma mpi_body_minimal z : minimal_mpi (mpi_body z) = true.
Proof.
  unfold mpi_body. pose proof (bn_bytes_all z) as Ha.
  destruct (bn_bytes z) as [|b r] eqn:E; [done|]. pose proof (bn_bytes_head z b r E).
  inversion Ha as [|? ? Hb Hr]; subst x l. unfold is_byte in Hb.
  destruct (128 <=? b) eqn:E1; b2p; cbn [minimal_mpi].
  - destruct (z <? 0); cbn; by apply Z.leb_le.
  - rewrite land_127 by (unfold is_byte; destruct (z <? 0); lia).
    assert (Hnz : (if 128 <=? b + (if z <? 0 then 128 else 0)
      then b + (if z <? 0 then 128 else 0) - 128 else b + (if z <? 0 then 128 else 0)) = b).
    { destruct (z <? 0), (128 <=? _) eqn:E2; b2p; lia. }
    rewrite Hnz. by rewrite (proj2 (Z.eqb_neq b 0)) by lia.
Qed.

(** decoding and re-encoding normalises: it is the identity exactly on the
    minimal vectors *)
Lemma getvch_setvch this v : Z.of_nat (length v) < 2 ^ 32 -> all_bytes v ->
  getvch (setvch this v) = v <-> minimal_vch v = true.
Proof.
  intros Hl Ha. rewrite setvch_eq, getvch_eq by done. unfold minimal_vch. split.
  - intros <-. rewrite rev_involutive. apply mpi_body_minimal.
  - intros Hm. rewrite (mpi_value_inj (mpi_body (mpi_value (rev v))) (rev v)).
    + apply rev_involutive.
    + apply mpi_body_all.
    + by apply all_bytes_rev.
    + apply mpi_body_minimal.
    + done.
    + apply mpi_value_body.
Qed.

End Canonical.

(** ** The compact format loses only low-order bytes *)

Section Compact.
Context {B : OpenSSLBN} {L : OpenSSLBNLaws B}.

Lemma bit23 w : 0 <= w < 2 ^ 24 -> negb (Z.land w 8388608 =? 0) = (2 ^ 23 <=? w).
Proof.
  intros Hw. pose proof (land_high w 23 24) as Hl.
  change (2 ^ 24 - 2 ^ 23) with 8388608 in Hl. rewrite Hl by lia.
  destruct (2 ^ 23 <=? w) eqn:E; b2p.
  - apply negb_true_iff, Z.eqb_neq. dlia.
  - apply negb_false_iff, Z.eqb_eq. dlia.
Qed.

(** the encoder's mantissa and exponent, and how the decoder reads them *)
Definition compact_parts (z : Z) : Z * Z :=
  let n := num_bytes z in
  let w := if n <=? 3 then z * 256 ^ (3 - n) else z / 256 ^ (n - 3) in
  if 2 ^ 23 <=? w then (w / 256, n + 1) else (w, n).

Lemma SetCompact_parts w n : 0 <= w < 2 ^ 23 -> 0 <= n < 256 ->
  SetCompact (n * 2 ^ 24 + w) = if n <=? 3 then w / 256 ^ (3 - n) else w * 256 ^ (n - 3).
Proof.
  intros Hw Hn. unfold SetCompact.
  assert (E1 : Z.shiftr (n * 2 ^ 24 + w) 24 = n) by (rewrite Z.shiftr_div_pow2 by lia; dlia).
  assert (E2 : Z.land (n * 2 ^ 24 + w) 8388608 = 0).
  { rewrite <- lor_disjoint_add, Z.land_lor_distr_l by lia.
    replace (Z.land (n * 2 ^ 24) 8388608) with 0.
    - rewrite Z.lor_0_l. pose proof (bit23 w ltac:(lia)) as Hb.
      rewrite (proj2 (Z.leb_gt (2 ^ 23) w)) in Hb by lia. by b2p.
    - symmetry. rewrite <- Z.shiftl_mul_pow2 by lia. apply Z.bits_inj'. intros i Hi.
      rewrite Z.land_spec, Z.bits_0, Z.shiftl_spec by lia. destruct (decide (i < 24)).
      + by rewrite Z.testbit_neg_r by lia.
      + change 8388608 with (2 ^ 23). rewrite Z.pow2_bits_false by lia. apply andb_false_r. }
  assert (E3 : Z.land (n * 2 ^ 24 + w) 8388607 = w).
  { change 8388607 with (2 ^ 23 - 1). rewrite land_mask by lia. dlia. }
  rewrite E1, E2, E3. cbn [negb Z.eqb]. rewrite BN_set_negative_spec.
  destruct (n <=? 3) eqn:E; b2p.
  - rewrite Z.shiftr_div_pow2 by lia. replace (256 ^ (3 - n)) with (2 ^ (8 * (3 - n))).
    2:{ by rewrite Z.pow_mul_r by lia. }
    assert (0 <= w / 2 ^ (8 * (3 - n)) <= w).
    { split; [apply Z.div_pos; [lia|apply Z.pow_pos_nonneg; lia]|].
      apply Z.div_le_upper_bound; [apply Z.pow_pos_nonneg; lia|].
      pose proof (Z.pow_pos_nonneg 2 (8 * (3 - n))). nia. }
    rewrite BN_set_word_spec by lia. lia.
  - rewrite BN_set_word_spec, BN_lshift_spec, Z.pow_mul_r by lia.
    pose proof (Z.pow_pos_nonneg (2 ^ 8) (n - 3)). change (2 ^ 8) with 256 in *. nia.
Qed.

Lemma compact_mantissa z : 0 <= z ->
  let n := num_bytes z in
  0 <= (if n <=? 3 then z * 256 ^ (3 - n) else z / 256 ^ (n - 3)) < 2 ^ 24.
Proof.
  intros Hz n. pose proof (num_bytes_bound z) as Hb. pose proof (num_bytes_nonneg z). fold n in Hb, H.
  rewrite Z.abs_eq in Hb by lia. destruct (n <=? 3) eqn:E; b2p.
  - pose proof (Z.pow_pos_nonneg 256 (3 - n)). split; [nia|].
    change (2 ^ 24) with (256 ^ 3). replace 3 with (n + (3 - n)) at 2 by lia.
    rewrite Z.pow_add_r by lia. nia.
  - pose proof (Z.pow_pos_nonneg 256 (n - 3)). split; [apply Z.div_pos; lia|].
    apply Z.div_lt_upper_bound; [lia|]. change (2 ^ 24) with (256 ^ 3).
    rewrite <- Z.pow_add_r by lia. replace (n - 3 + 3) with n by lia. lia.
Qed.

Lemma GetCompact_parts z : 0 <= z -> num_bytes z < 255 ->
  GetCompact z = (compact_parts z).2 * 2 ^ 24 + (compact_parts z).1 /\
  0 <= (compact_parts z).1 < 2 ^ 23 /\ 0 <= (compact_parts z).2 < 256.
Proof.
  intros Hz Hn. pose proof (compact_mantissa z Hz) as Hw. unfold GetCompact, compact_parts.
  cbv zeta in Hw |- *. pose proof (num_bytes_nonneg z). rewrite BN_num_bytes_spec, u32_small by lia.
  set (n := num_bytes z) in *.
  set (w := if n <=? 3 then z * 256 ^ (3 - n) else z / 256 ^ (n - 3)) in *.
  assert (Hc : (if n <=? 3 then u32 (Z.shiftl (BN_get_word z) (8 * (3 - n)))
    else u32 (BN_get_word (BN_rshift z (8 * (n - 3))))) = w).
  { unfold w in *. destruct (n <=? 3) eqn:E; b2p; rewrite BN_get_word_spec.
    - pose proof (Z.pow_pos_nonneg 256 (3 - n)). rewrite Z.abs_eq by lia.
      rewrite (proj2 (Z.ltb_lt z (2 ^ 64))) by nia. rewrite Z.shiftl_mul_pow2, Z.pow_mul_r by lia.
      change (2 ^ 8) with 256. apply u32_small. lia.
    - rewrite BN_rshift_spec, Z.pow_mul_r by lia. change (2 ^ 8) with 256.
      pose proof (Z.pow_pos_nonneg 256 (n - 3)). rewrite Z.quot_div_nonneg, Z.abs_eq by lia.
      rewrite (proj2 (Z.ltb_lt _ (2 ^ 64))) by lia. apply u32_small. lia. }
  rewrite Hc, bit23, BN_is_negative_spec, (proj2 (Z.ltb_ge z 0)) by lia.
  destruct (2 ^ 23 <=? w) eqn:E; b2p; cbn [fst snd]; rewrite Z.lor_0_r.
  - rewrite Z.shiftr_div_pow2, (u32_small (n + 1)), Z.shiftl_mul_pow2, u32_small by lia.
    change (2 ^ 8) with 256. rewrite Z.lor_comm, lor_disjoint_add by dlia. dlia.
  - rewrite Z.shiftl_mul_pow2, u32_small by lia. rewrite Z.lor_comm, lor_disjoint_add by lia. lia.
Qed.

Lemma compact_roundtrip z : 0 <= z -> num_bytes z < 255 ->
  exists k, 0 <= k <= Z.max 0 (num_bytes z - 2) /\ SetCompact (GetCompact z) = z / 256 ^ k * 256 ^ k.
Proof.
  intros Hz Hn. destruct (GetCompact_parts z Hz Hn) as (-> & Hw & He).
  rewrite SetCompact_parts by done. pose proof (num_bytes_nonneg z).
  unfold compact_parts in *. cbv zeta in *. set (n := num_bytes z) in *.
  destruct (n <=? 3) eqn:E3; b2p.
  - pose proof (Z.pow_pos_nonneg 256 (3 - n)).
    destruct (2 ^ 23 <=? _) eqn:E; b2p; cbn [fst snd] in *.
    + destruct (n + 1 <=? 3) eqn:E4; b2p.
      * exists 0. split; [lia|]. rewrite Z.pow_0_r, Z.div_1_r, Z.mul_1_r.
        rewrite Z.div_div, <- Z.pow_succ_r by (try apply Z.pow_pos_nonneg; lia).
        replace (Z.succ (3 - (n + 1))) with (3 - n) by lia. apply Z.div_mul. lia.
      * exists 1. replace n with 3 by lia. split; [lia|]. by rewrite Z.mul_1_r.
    + exists 0. split; [lia|]. rewrite (proj2 (Z.leb_le n 3)) by lia.
      rewrite Z.div_mul, Z.pow_0_r, Z.div_1_r by lia. lia.
  - pose proof (Z.pow_pos_nonneg 256 (n - 3)).
    destruct (2 ^ 23 <=? _) eqn:E; b2p; cbn [fst snd] in *.
    + rewrite (proj2 (Z.leb_gt (n + 1) 3)) by lia. exists (n - 2). split; [lia|].
      rewrite Z.div_div, Z.mul_comm, <- (Z.mul_comm 256), <- Z.pow_succ_r by lia.
      replace (Z.succ (n - 3)) with (n - 2) by lia. replace (n + 1 - 3) with (n - 2) by lia. lia.
    + rewrite (proj2 (Z.leb_gt n 3)) by lia. exists (n - 3). split; [lia|done].
Qed.

End Compact.

(** ** Hexadecimal text *)

Section Hex.
Context {B : OpenSSLBN} {L : OpenSSLBNLaws B}.

(** the value of a list of base-16 digits, lowest first *)
Fixpoint digits_val (ds : list Z) : Z :=
  match ds with
  | [] => 0
  | d :: r => d + 16 * digits_val r
  end.

Lemma ToString_loop_S f bn base str : ToString_loop (S f) bn base str =
  if bn_gtb bn (setulong 0) then
    match BN_div bn base with
    | None => None
    | Some (dv, rem) => ToString_loop f dv base (str ++ [digit_char (u32 (getulong rem))])
    end
  else Some str.
Proof. done. Qed.

Lemma ToString_loop_spec f bn str : 0 <= bn < 2 ^ Z.of_nat f ->
  exists ds, ToString_loop (S f) bn 16 str = Some (str ++ map digit_char ds) /\
    Forall (fun d => 0 <= d < 16) ds /\ digits_val ds = bn /\ (bn <> 0 -> ds <> []).
Proof.
  revert bn str. induction f as [|f IH]; intros bn str Hb; rewrite ToString_loop_S;
    autorewrite with bn.
  - simpl in Hb. rewrite (proj2 (Z.ltb_ge 0 bn)) by lia. exists []. rewrite app_nil_r.
    split; [done|]. split; [constructor|]. simpl. split; lia.
  - destruct (0 <? bn) eqn:E; b2p.
    + rewrite BN_div_spec by lia. rewrite Z.quot_div_nonneg, Z.rem_mod_nonneg by lia.
      assert (Hd : 0 <= bn / 16 < 2 ^ Z.of_nat f).
      { rewrite Nat2Z.inj_succ, Z.pow_succ_r in Hb by lia. dlia. }
      unfold getulong. assert (Hm : 0 <= bn mod 16 < 16) by (apply Z.mod_pos_bound; lia).
      rewrite BN_get_word_spec, Z.abs_eq, (proj2 (Z.ltb_lt _ (2 ^ 64))), u32_small by lia.
      destruct (IH (bn / 16) (str ++ [digit_char (bn mod 16)]) Hd) as (ds & H1 & H2 & H3 & H4).
      exists (bn mod 16 :: ds). rewrite H1, <- app_assoc.
      split; [done|]. split; [by constructor|]. cbn [digits_val]. rewrite H3.
      split; [|done]. rewrite (Z.div_mod bn 16) at 3 by lia. lia.
    + exists []. rewrite app_nil_r. split; [done|]. split; [constructor|]. simpl. split; lia.
Qed.

Lemma digit_char_spec d : 0 <= d < 16 ->
  isxdigit (digit_char d) = true /\ phexdigit (digit_char d) = d /\ isspace (digit_char d) = false /\
  digit_char d <> 45 /\ tolower (digit_char d) <> 120.
Proof.
  intros H. assert (Hd : d = 0 \/ d = 1 \/ d = 2 \/ d = 3 \/ d = 4 \/ d = 5 \/ d = 6 \/ d = 7 \/
    d = 8 \/ d = 9 \/ d = 10 \/ d = 11 \/ d = 12 \/ d = 13 \/ d = 14 \/ d = 15) by lia.
  by destruct_or! Hd; subst d.
Qed.

Lemma hex_digits_spec this ds : Forall (fun d => 0 <= d < 16) ds ->
  hex_digits this (map digit_char ds) = this * 16 ^ Z.of_nat (length ds) + digits_val (rev ds).
Proof.
  intros H. revert this. induction H as [|d ds Hd Hds IH]; intros this; cbn [hex_digits map].
  - simpl. lia.
  - destruct (digit_char_spec d Hd) as (-> & -> & _). rewrite IH. autorewrite with bn.
    rewrite of_int_eq by lia. cbn [rev length].
    assert (Happ : forall l d, digits_val (l ++ [d]) = digits_val l + d * 16 ^ Z.of_nat (length l)).
    { clear. induction l as [|a l IHl]; intros d; [simpl; lia|].
      cbn [app digits_val length]. rewrite IHl, Nat2Z.inj_succ, Z.pow_succ_r by lia. lia. }
    rewrite Happ, length_rev, Nat2Z.inj_succ, Z.pow_succ_r by lia. change (2 ^ 4) with 16. lia.
Qed.

Lemma skip_spaces_digits d r : 0 <= d < 16 -> skip_spaces (digit_char d :: r) = digit_char d :: r.
Proof. intros H. cbn [skip_spaces]. by destruct (digit_char_spec d H) as (_ & _ & -> & _). Qed.

Lemma SetHex_digits (neg : bool) d r : Forall (fun d => 0 <= d < 16) (d :: r) ->
  SetHex ((if neg then [45] else []) ++ map digit_char (d :: r)) =
  (if neg then - 1 else 1) * digits_val (rev (d :: r)).
Proof.
  intros H. inversion H as [|? ? Hd Hr]; subst x l. unfold SetHex.
  assert (E : hex_digits (setulong 0) (skip_spaces (match map digit_char (d :: r) with
      | c0 :: c1 :: r' => if (c0 =? 48) && (tolower c1 =? 120) then r' else map digit_char (d :: r)
      | _ => map digit_char (d :: r) end)) = digits_val (rev (d :: r))).
  { destruct r as [|d2 r2]; cbn [map].
    - rewrite skip_spaces_digits by done. autorewrite with bn.
      etrans; [by apply (hex_digits_spec 0 [d])|]. simpl; lia.
    - inversion Hr as [|? ? Hd2 _]; subst x l.
      destruct (digit_char_spec d2 Hd2) as (_ & _ & _ & _ & H120).
      rewrite (proj2 (Z.eqb_neq _ 120) H120), andb_false_r. rewrite skip_spaces_digits by done.
      autorewrite with bn. etrans; [by apply (hex_digits_spec 0 (d :: d2 :: r2))|]. lia. }
  destruct neg; cbn [app].
  - cbn [skip_spaces isspace Z.eqb Z.leb orb andb Pos.eqb Z.compare Pos.compare Pos.compare_cont].
    rewrite E. autorewrite with bn. lia.
  - cbn [map]. rewrite skip_spaces_digits by done. destruct (digit_char_spec d Hd) as (_ & _ & _ & H45 & _).
    rewrite (proj2 (Z.eqb_neq _ 45) H45). cbn [map] in E. rewrite E. lia.
Qed.

Lemma SetHex_GetHex z : exists s, GetHex z = Some s /\ SetHex s = z.
Proof.
  unfold GetHex, ToString. rewrite BN_set_negative_spec, BN_is_negative_spec. autorewrite with bn.
  rewrite of_int_eq by lia. destruct (Z.abs z =? 0) eqn:E0; b2p.
  - exists [48]. split; [done|]. etrans; [apply (SetHex_digits false 0 [])|].
    + repeat constructor; lia.
    + simpl. lia.
  - pose proof (Z.log2_nonneg (Z.abs z)). pose proof (Z.log2_spec (Z.abs z)) as Hlog.
    destruct (ToString_loop_spec (S (Z.to_nat (Z.log2 (Z.abs z)))) (Z.abs z) []) as (ds & -> & Hds & Hv & Hne).
    { rewrite Nat2Z.inj_succ, Z2Nat.id by lia. lia. }
    eexists; split; [done|]. cbn [app].
    assert (Hr : Forall (fun d => 0 <= d < 16) (rev ds)) by (by apply Forall_rev).
    replace (rev (if z <? 0 then map digit_char ds ++ [45] else map digit_char ds))
      with ((if z <? 0 then [45] else []) ++ map digit_char (rev ds)).
    2:{ destruct (z <? 0); [rewrite rev_app_distr|]; by rewrite map_rev. }
    destruct (rev ds) as [|d r] eqn:Er.
    { apply (f_equal (@rev Z)) in Er. rewrite rev_involutive in Er. by specialize (Hne E0). }
    rewrite SetHex_digits by done. rewrite <- Er, rev_involutive, Hv. destruct (z <? 0) eqn:E; b2p; lia.
Qed.

End Hex.
