(* ===== verification/Uint256.v ===== *)
(** * Fixed-width unsigned integers (uint256.h)

    [base_uint<BITS>] as its array [pn] of 32-bit words, lowest first, every
    operator as the loop the header writes, and the proof that the class
    implements arithmetic modulo [2^BITS].  [uint160] and [uint256] are the
    instances with five and eight words; the other files use a [uint256] as the
    number [pn_val] gives. *)

From S2P Require Import Prelude OpenSSL BigNum.
Local Open Scope Z_scope.

Module BaseUint.

(** [uint32_t pn[WIDTH]]: a list of [WIDTH] words *)
Abbreviation words := (list Z) (only parsing).
Definition is_word (w : Z) : Prop := 0 <= w < 2 ^ 32.
Definition wf (WIDTH : nat) (pn : words) : Prop := length pn = WIDTH /\ Forall is_word pn.

(** the number the array stands for *)
Fixpoint pn_val (pn : words) : Z :=
  match pn with
  | [] => 0
  | w :: r => w + 2 ^ 32 * pn_val r
  end.

Definition modulus (WIDTH : nat) : Z := 2 ^ (32 * Z.of_nat WIDTH).

(** ** Operators *)

Definition op_not (pn : words) : bool := forallb (fun w => w =? 0) pn.

(** [~w] on [uint32_t] *)
Definition not32 (w : Z) : Z := u32 (Z.lnot w).
Definition op_compl (pn : words) : words := map not32 pn.

(** [while (++pn[i] == 0 && i < WIDTH-1) i++] *)
Fixpoint op_incr (pn : words) : words :=
  match pn with
  | [] => []
  | w :: r => let w := u32 (w + 1) in
              if (w =? 0) && negb (bool_decide (r = [])) then w :: op_incr r else w :: r
  end.

(** [while (--pn[i] == -1 && i < WIDTH-1) i++] *)
Fixpoint op_decr (pn : words) : words :=
  match pn with
  | [] => []
  | w :: r => let w := u32 (w - 1) in
              if (w =? u32 (-1)) && negb (bool_decide (r = [])) then w :: op_decr r else w :: r
  end.

Definition op_neg (pn : words) : words := op_incr (op_compl pn).

Definition assign64 (WIDTH : nat) (b : Z) : words :=
  u32 b :: u32 (Z.shiftr b 32) :: replicate (WIDTH - 2) 0.

Fixpoint zip_words (f : Z -> Z -> Z) (a b : words) : words :=
  match a, b with
  | x :: a, y :: b => f x y :: zip_words f a b
  | _, _ => []
  end.
Definition xor_assign : words -> words -> words := zip_words Z.lxor.
Definition and_assign : words -> words -> words := zip_words Z.land.
Definition or_assign : words -> words -> words := zip_words Z.lor.

Definition xor_assign64 (pn : words) (b : Z) : words :=
  match pn with
  | w0 :: w1 :: r => Z.lxor w0 (u32 b) :: Z.lxor w1 (u32 (Z.shiftr b 32)) :: r
  | _ => pn
  end.
Definition or_assign64 (pn : words) (b : Z) : words :=
  match pn with
  | w0 :: w1 :: r => Z.lor w0 (u32 b) :: Z.lor w1 (u32 (Z.shiftr b 32)) :: r
  | _ => pn
  end.

(** [pn[i] |= w]; every index is in range *)
Definition or_at (pn : words) (i : nat) (w : Z) : words := <[i := Z.lor (nth i pn 0) w]> pn.

Definition shl_step (a : words) (WIDTH k : nat) (shift : Z) (pn : words) (i : nat) : words :=
  let pn := if bool_decide (i + k + 1 < WIDTH)%nat && negb (shift =? 0)
            then or_at pn (i + k + 1) (Z.shiftr (nth i a 0) (32 - shift)) else pn in
  if bool_decide (i + k < WIDTH)%nat then or_at pn (i + k) (u32 (Z.shiftl (nth i a 0) shift)) else pn.
Definition shl_assign (a : words) (shift : Z) : words :=
  foldl (shl_step a (length a) (Z.to_nat (shift / 32)) (shift mod 32))
        (replicate (length a) 0) (seq 0 (length a)).

Definition shr_step (a : words) (k : nat) (shift : Z) (pn : words) (i : nat) : words :=
  let pn := if bool_decide (k + 1 <= i)%nat && negb (shift =? 0)
            then or_at pn (i - k - 1) (u32 (Z.shiftl (nth i a 0) (32 - shift))) else pn in
  if bool_decide (k <= i)%nat then or_at pn (i - k) (Z.shiftr (nth i a 0) shift) else pn.
Definition shr_assign (a : words) (shift : Z) : words :=
  foldl (shr_step a (Z.to_nat (shift / 32)) (shift mod 32))
        (replicate (length a) 0) (seq 0 (length a)).

Fixpoint add_loop (carry : Z) (pn b : words) : words :=
  match pn, b with
  | x :: pn, y :: b => let n := u64 (carry + x + y) in
                       Z.land n 0xffffffff :: add_loop (Z.shiftr n 32) pn b
  | _, _ => []
  end.
Definition add_assign : words -> words -> words := add_loop 0.
Definition sub_assign (pn b : words) : words := add_assign pn (op_neg b).
Definition add_assign64 (pn : words) (b64 : Z) : words := add_assign pn (assign64 (length pn) b64).
Definition sub_assign64 (pn : words) (b64 : Z) : words := add_assign pn (op_neg (assign64 (length pn) b64)).

(** ** Comparisons, from the highest word down *)

Fixpoint lt_loop (dflt : bool) (a b : words) : bool :=
  match a, b with
  | x :: a, y :: b => if x <? y then true else if y <? x then false else lt_loop dflt a b
  | _, _ => dflt
  end.
Definition op_lt (a b : words) : bool := lt_loop false (rev a) (rev b).
Definition op_le (a b : words) : bool := lt_loop true (rev a) (rev b).
Definition op_gt (a b : words) : bool := lt_loop false (rev b) (rev a).
Definition op_ge (a b : words) : bool := lt_loop true (rev b) (rev a).

Fixpoint op_eq (a b : words) : bool :=
  match a, b with
  | x :: a, y :: b => if negb (x =? y) then false else op_eq a b
  | _, _ => true
  end.
Definition op_eq64 (a : words) (b : Z) : bool :=
  match a with
  | w0 :: w1 :: r => if negb (w0 =? u32 b) then false
                     else if negb (w1 =? u32 (Z.shiftr b 32)) then false
                     else forallb (fun w => w =? 0) r
  | _ => false
  end.

(** ** Bytes and text *)

(** the object representation on a little-endian machine, and back *)
Definition pn_bytes (pn : words) : bytes := concat (map (le_bytes 4) pn).
Fixpoint words_of (WIDTH : nat) (bs : bytes) : words :=
  match WIDTH with
  | O => []
  | S n => le_val (take 4 bs) :: words_of n (drop 4 bs)
  end.

(** ["%02x"] *)
Definition hex2 (b : Z) : bytes := [digit_char (b / 16); digit_char (b mod 16)].
Definition GetHex (pn : words) : bytes := concat (map hex2 (rev (pn_bytes pn))).

(** [while (phexdigit[*psz] || *psz == '0') psz++]: the digits *)
Fixpoint hex_span (psz : bytes) : bytes :=
  match psz with
  | c :: r => if negb (phexdigit c =? 0) || (c =? 48) then c :: hex_span r else []
  | [] => []
  end.
(** the digits from the last one back, two to a byte, at most [n] bytes *)
Fixpoint hex_store (n : nat) (digits : bytes) : bytes :=
  match n, digits with
  | O, _ => []
  | S n, c0 :: c1 :: r => Z.lor (phexdigit c0) (Z.shiftl (phexdigit c1) 4) :: hex_store n r
  | S n, [c0] => phexdigit c0 :: replicate n 0
  | S n, [] => replicate (S n) 0
  end.
Definition SetHex (WIDTH : nat) (psz : bytes) : words :=
  let psz := skip_spaces psz in
  let psz := match psz with
             | c0 :: c1 :: r => if (c0 =? 48) && (tolower c1 =? 120) then r else psz
             | _ => psz
             end in
  words_of WIDTH (hex_store (WIDTH * 4) (rev (hex_span psz))).

Definition Get64 (pn : words) (n : nat) : Z :=
  Z.lor (nth (2 * n) pn 0) (u64 (Z.shiftl (nth (2 * n + 1) pn 0) 32)).

(** the constructor from a byte vector *)
Definition of_vch (WIDTH : nat) (vch : bytes) : words :=
  if bool_decide (length vch = 4 * WIDTH)%nat then words_of WIDTH vch else assign64 WIDTH 0.

(** ** The array as a number *)

Lemma modulus_S n : modulus (S n) = 2 ^ 32 * modulus n.
Proof. unfold modulus. rewrite <- Z.pow_add_r by lia. f_equal. lia. Qed.

Lemma modulus_pos n : 0 < modulus n.
Proof. apply Z.pow_pos_nonneg; lia. Qed.

Lemma pn_val_bound pn : Forall is_word pn -> 0 <= pn_val pn < modulus (length pn).
Proof.
  induction 1 as [|w r Hw Hr IH]; cbn [pn_val length]; [by split|].
  rewrite modulus_S. unfold is_word in Hw. nia.
Qed.

Lemma pn_val_inj a b : Forall is_word a -> Forall is_word b -> length a = length b ->
  pn_val a = pn_val b -> a = b.
Proof.
  intros Ha. revert b. induction Ha as [|x a Hx Ha IH]; intros [|y b] Hb Hl He; try done.
  inversion Hb as [|? ? Hy Hb']; subst x0 l. cbn [pn_val length] in *. unfold is_word in *.
  assert (x = y) as -> by dlia. f_equal. apply IH; [done|lia|lia].
Qed.

Lemma pn_val_app a b : pn_val (a ++ b) = pn_val a + modulus (length a) * pn_val b.
Proof.
  induction a as [|w a IH]; cbn [app pn_val length]; [change (modulus 0) with 1; lia|].
  rewrite IH, modulus_S. lia.
Qed.

Lemma nth_word pn i : Forall is_word pn -> is_word (nth i pn 0).
Proof.
  intros H. revert i. induction H as [|w r Hw Hr IH]; intros [|i]; cbn [nth]; try done; unfold is_word; lia.
Qed.

(** bit [32 q + r] of the number is bit [r] of word [q] *)
Lemma pn_val_testbit pn q r : Forall is_word pn -> 0 <= r < 32 ->
  Z.testbit (pn_val pn) (32 * Z.of_nat q + r) = Z.testbit (nth q pn 0) r.
Proof.
  intros H Hr. revert q. induction H as [|w l Hw Hl IH]; intros q.
  - cbn [pn_val]. destruct q; cbn [nth]; by rewrite !Z.bits_0.
  - cbn [pn_val]. unfold is_word in Hw. rewrite (Z.add_comm w), Z.mul_comm, <- lor_disjoint_add by lia.
    rewrite <- Z.shiftl_mul_pow2, Z.lor_spec, Z.shiftl_spec by lia. destruct q as [|q]; cbn [nth].
    + rewrite Z.testbit_neg_r by lia. simpl. done.
    + rewrite <- IH. replace (32 * Z.of_nat (S q) + r - 32) with (32 * Z.of_nat q + r) by lia.
      rewrite <- (Z.mod_small w (2 ^ 32)), Z.mod_pow2_bits_high by lia. apply orb_false_r.
Qed.

Lemma words_bits a z n : length a = n -> Forall is_word a -> 0 <= z < modulus n ->
  (forall q r, (q < n)%nat -> 0 <= r < 32 ->
     Z.testbit (nth q a 0) r = Z.testbit z (32 * Z.of_nat q + r)) ->
  pn_val a = z.
Proof.
  intros Hl Ha Hz Hb. apply Z.bits_inj'. intros i Hi.
  pose proof (pn_val_bound a Ha) as Hv. rewrite Hl in Hv.
  destruct (decide (i < 32 * Z.of_nat n)).
  - replace i with (32 * Z.of_nat (Z.to_nat (i / 32)) + i mod 32) by dlia.
    rewrite pn_val_testbit by (try done; dlia). apply Hb; dlia.
  - unfold modulus in *.
    rewrite <- (Z.mod_small (pn_val a) (2 ^ (32 * Z.of_nat n))), <- (Z.mod_small z (2 ^ (32 * Z.of_nat n))) by lia.
    by rewrite !Z.mod_pow2_bits_high by lia.
Qed.

(** ** Arithmetic *)

Lemma not32_eq w : is_word w -> not32 w = 2 ^ 32 - 1 - w.
Proof.
  unfold is_word, not32, u32. intros. rewrite <- (Z.mod_add _ 1) by lia.
  unfold Z.lnot. rewrite Z.mod_small; lia.
Qed.

Lemma op_compl_spec pn : Forall is_word pn ->
  Forall is_word (op_compl pn) /\ length (op_compl pn) = length pn /\
  pn_val (op_compl pn) = modulus (length pn) - 1 - pn_val pn.
Proof.
  intros H. unfold op_compl. rewrite length_map. induction H as [|w r Hw Hr IH]; cbn [map pn_val length].
  - repeat constructor.
  - destruct IH as (I1 & I2 & I3). rewrite modulus_S, I3, not32_eq by done.
    split; [|split; [done|lia]]. constructor; [unfold is_word in *; lia|done].
Qed.

Lemma op_incr_spec pn : Forall is_word pn -> pn <> [] ->
  Forall is_word (op_incr pn) /\ length (op_incr pn) = length pn /\
  pn_val (op_incr pn) = (pn_val pn + 1) mod modulus (length pn).
Proof.
  induction 1 as [|w r Hw Hr IH]; [done|]; intros _. cbn [op_incr].
  pose proof (pn_val_bound r Hr) as Hb. pose proof (u32_range (w + 1)) as Hu.
  cbn [length pn_val]. rewrite modulus_S. unfold is_word in Hw.
  destruct (decide (w = 2 ^ 32 - 1)) as [->|Hne].
  - change (u32 (2 ^ 32 - 1 + 1)) with 0. rewrite Z.eqb_refl, andb_true_l.
    destruct (bool_decide_reflect (r = [])) as [->|Hr0]; cbn [negb].
    + split; [by repeat constructor|]. split; [done|]. cbn [length pn_val]. by rewrite Z.mul_1_r.
    + destruct (IH Hr0) as (I1 & I2 & I3). split; [by repeat constructor|].
      cbn [length pn_val]. split; [lia|]. rewrite I3.
      replace (2 ^ 32 - 1 + 2 ^ 32 * pn_val r + 1) with (2 ^ 32 * (pn_val r + 1)) by lia.
      rewrite Z.mul_mod_distr_l; [lia|pose proof (modulus_pos (length r)); lia|lia].
  - rewrite u32_small by lia. rewrite (proj2 (Z.eqb_neq _ _)) by lia. cbn [andb].
    split; [constructor; [unfold is_word; lia|done]|]. split; [done|]. cbn [pn_val].
    rewrite Z.mod_small; nia.
Qed.

Lemma op_decr_spec pn : Forall is_word pn -> pn <> [] ->
  Forall is_word (op_decr pn) /\ length (op_decr pn) = length pn /\
  pn_val (op_decr pn) = (pn_val pn - 1) mod modulus (length pn).
Proof.
  induction 1 as [|w r Hw Hr IH]; [done|]; intros _. cbn [op_decr].
  pose proof (pn_val_bound r Hr) as Hb. cbn [length pn_val]. rewrite modulus_S. unfold is_word in Hw.
  change (u32 (-1)) with (2 ^ 32 - 1). destruct (decide (w = 0)) as [->|Hne].
  - change (u32 (0 - 1)) with (2 ^ 32 - 1). rewrite Z.eqb_refl, andb_true_l.
    destruct (bool_decide_reflect (r = [])) as [->|Hr0]; cbn [negb].
    + split; [by repeat constructor|]. split; [done|]. cbn [length pn_val]. by rewrite Z.mul_1_r.
    + destruct (IH Hr0) as (I1 & I2 & I3). split; [by repeat constructor|].
      cbn [length pn_val]. split; [lia|]. rewrite I3. pose proof (modulus_pos (length r)) as Hm.
      replace (0 + 2 ^ 32 * pn_val r - 1) with (2 ^ 32 - 1 + (pn_val r - 1) * 2 ^ 32) by lia.
      rewrite (Z.rem_mul_r _ (2 ^ 32)), Z.mod_add, Z.div_add by lia.
      rewrite (Z.mod_small (2 ^ 32 - 1) (2 ^ 32)), (Z.div_small (2 ^ 32 - 1)), Z.add_0_l by lia. lia.
  - rewrite u32_small by lia. rewrite (proj2 (Z.eqb_neq _ _)) by lia. cbn [andb].
    split; [constructor; [unfold is_word; lia|done]|]. split; [done|]. cbn [pn_val].
    rewrite Z.mod_small; nia.
Qed.

Lemma add_loop_spec c a b : 0 <= c <= 1 -> Forall is_word a -> Forall is_word b -> length a = length b ->
  Forall is_word (add_loop c a b) /\ length (add_loop c a b) = length a /\
  pn_val (add_loop c a b) = (c + pn_val a + pn_val b) mod modulus (length a).
Proof.
  intros Hc Ha. revert c b Hc. induction Ha as [|x a Hx Ha IH]; intros c [|y b] Hc Hb Hl; try done.
  - split; [constructor|]. split; [done|]. by rewrite Z.mod_1_r.
  - inversion Hb as [|? ? Hy Hb']; subst x0 l. cbn [add_loop length pn_val] in *. unfold is_word in Hx, Hy.
    rewrite u64_small by lia. change 0xffffffff with (2 ^ 32 - 1). rewrite land_mask, Z.shiftr_div_pow2 by lia.
    set (n := c + x + y).
    destruct (IH (n / 2 ^ 32) b ltac:(subst n; dlia) Hb' ltac:(lia)) as (I1 & I2 & I3).
    split; [constructor; [apply u32_range|done]|]. split; [lia|]. rewrite modulus_S, I3.
    pose proof (modulus_pos (length a)) as Hm.
    replace (c + (x + 2 ^ 32 * pn_val a) + (y + 2 ^ 32 * pn_val b))
      with (n + (pn_val a + pn_val b) * 2 ^ 32) by (subst n; lia).
    rewrite (Z.rem_mul_r _ (2 ^ 32)), Z.mod_add, Z.div_add by lia. do 3 f_equal. lia.
Qed.

Lemma op_neg_spec pn : Forall is_word pn -> pn <> [] ->
  Forall is_word (op_neg pn) /\ length (op_neg pn) = length pn /\
  pn_val (op_neg pn) = (- pn_val pn) mod modulus (length pn).
Proof.
  intros H Hne. destruct (op_compl_spec pn H) as (C1 & C2 & C3).
  destruct (op_incr_spec (op_compl pn) C1) as (I1 & I2 & I3); [by destruct pn|].
  unfold op_neg. split; [done|]. split; [lia|]. rewrite I3, C3, C2.
  pose proof (modulus_pos (length pn)). rewrite <- (Z.mod_add (- _) 1) by lia. f_equal. lia.
Qed.

Lemma assign64_spec W b : (2 <= W)%nat -> 0 <= b < 2 ^ 64 ->
  Forall is_word (assign64 W b) /\ length (assign64 W b) = W /\ pn_val (assign64 W b) = b.
Proof.
  intros HW Hb. assert (Hz : Forall is_word (replicate (W - 2) 0) /\ pn_val (replicate (W - 2) 0) = 0).
  { clear. induction (W - 2)%nat; cbn [replicate pn_val]; [by split|]. destruct IHn as [? ->].
    split; [|lia]. by constructor. }
  destruct Hz as [Hz1 Hz2]. unfold assign64. cbn [length pn_val]. rewrite length_replicate, Hz2.
  rewrite Z.shiftr_div_pow2 by lia. split; [|split; [lia|]].
  - repeat constructor; try apply u32_range. done.
  - rewrite (u32_small (b / 2 ^ 32)) by dlia. unfold u32. dlia.
Qed.

(** ** Bit operations and shifts *)

Lemma zip_words_nth f a b i : f 0 0 = 0 -> length a = length b ->
  nth i (zip_words f a b) 0 = f (nth i a 0) (nth i b 0).
Proof.
  intros Hf. revert b i. induction a as [|x a IH]; intros [|y b] i Hl; try done; destruct i; cbn; try done.
  apply IH. cbn in Hl. lia.
Qed.

Lemma word_bits w : (forall i, 32 <= i -> Z.testbit w i = false) -> 0 <= w -> is_word w.
Proof.
  intros Hb Hw. split; [done|]. destruct (decide (w < 2 ^ 32)); [done|exfalso].
  assert (Hl : 32 <= Z.log2 w) by (apply Z.log2_le_pow2; lia).
  pose proof (Z.bit_log2 w ltac:(lia)) as Hb'. rewrite Hb in Hb' by done. done.
Qed.

Lemma word_high w i : is_word w -> 32 <= i -> Z.testbit w i = false.
Proof.
  intros Hw Hi. rewrite <- (Z.mod_small w (2 ^ 32)) by apply Hw. by rewrite Z.mod_pow2_bits_high by lia.
Qed.

(** a bitwise operation on words, given by a function on bits *)
Lemma zip_words_spec f g a b : (forall x y i, Z.testbit (f x y) i = g (Z.testbit x i) (Z.testbit y i)) ->
  (forall x y, 0 <= x -> 0 <= y -> 0 <= f x y) -> g false false = false ->
  Forall is_word a -> Forall is_word b -> length a = length b ->
  Forall is_word (zip_words f a b) /\ length (zip_words f a b) = length a /\
  pn_val (zip_words f a b) = f (pn_val a) (pn_val b).
Proof.
  intros Hf Hp Hg Ha Hb Hl.
  assert (H0 : f 0 0 = 0) by (apply Z.bits_inj'; intros i _; by rewrite Hf, Z.bits_0).
  assert (Hw : Forall is_word (zip_words f a b) /\ length (zip_words f a b) = length a).
  { clear H0. revert b Hb Hl. induction Ha as [|x a Hx Ha IH]; intros [|y b] Hb Hl; try done.
    inversion Hb as [|? ? Hy Hb']; subst x0 l. destruct (IH b Hb' ltac:(cbn in Hl; lia)) as [I1 I2].
    cbn [zip_words length]. split; [|lia]. constructor; [|done].
    apply word_bits; [|apply Hp; unfold is_word in *; lia].
    intros i Hi. by rewrite Hf, !word_high by done. }
  destruct Hw as [Hw Hn]. split; [done|]. split; [done|].
  pose proof (pn_val_bound a Ha) as Hva. pose proof (pn_val_bound b Hb) as Hvb.
  apply Z.bits_inj'. intros i Hi. rewrite Hf.
  replace i with (32 * Z.of_nat (Z.to_nat (i / 32)) + i mod 32) by dlia.
  rewrite !pn_val_testbit by (try done; dlia). by rewrite zip_words_nth, Hf by done.
Qed.

Lemma length_or_at pn i w : length (or_at pn i w) = length pn.
Proof. apply length_insert. Qed.

Lemma nth_or_at pn i w j : (i < length pn)%nat ->
  nth j (or_at pn i w) 0 = if bool_decide (i = j) then Z.lor (nth j pn 0) w else nth j pn 0.
Proof.
  intros Hi. unfold or_at. rewrite !nth_lookup. case_bool_decide as E.
  - subst. by rewrite list_lookup_insert_eq.
  - by rewrite list_lookup_insert_ne.
Qed.

Lemma nth_replicate0 n j : nth j (replicate n 0) 0 = 0.
Proof. revert j. induction n; intros [|j]; cbn; auto. Qed.

(** what the first [m] rounds of the left shift have put in word [j] *)
Lemma shl_rounds a W k s m j : (j < W)%nat ->
  let pn := foldl (shl_step a W k s) (replicate W 0) (seq 0 m) in
  length pn = W /\
  nth j pn 0 =
    Z.lor (if bool_decide (k + 1 <= j < k + 1 + m)%nat && negb (s =? 0)
           then Z.shiftr (nth (j - k - 1) a 0) (32 - s) else 0)
          (if bool_decide (k <= j < k + m)%nat then u32 (Z.shiftl (nth (j - k) a 0) s) else 0).
Proof.
  intros Hj. induction m as [|m IH]; cbn zeta in *.
  - cbn [seq foldl]. rewrite length_replicate, nth_replicate0, !bool_decide_eq_false_2 by lia. done.
  - rewrite seq_S, foldl_app. cbn [foldl Nat.add]. destruct IH as [IHl IHn].
    set (pn := foldl _ _ _) in *. unfold shl_step.
    split; [repeat case_match; rewrite ?length_or_at; done|].
    destruct (bool_decide_reflect (m + k + 1 < W)%nat); destruct (Z.eqb_spec s 0); cbn [andb negb];
    destruct (bool_decide_reflect (m + k < W)%nat); rewrite ?nth_or_at by (rewrite ?length_or_at; lia);
      repeat (case_bool_decide; try lia); rewrite ?IHn; repeat (case_bool_decide; try lia); cbn [andb];
      rewrite ?Z.lor_0_l, ?Z.lor_0_r, ?andb_false_r, ?andb_true_r; try done; repeat f_equal; lia.
Qed.

Lemma shr_rounds a k s m j : (j < length a)%nat -> (m <= length a)%nat ->
  let pn := foldl (shr_step a k s) (replicate (length a) 0) (seq 0 m) in
  length pn = length a /\
  nth j pn 0 =
    Z.lor (if bool_decide (j + k < m)%nat then Z.shiftr (nth (j + k) a 0) s else 0)
          (if bool_decide (j + k + 1 < m)%nat && negb (s =? 0)
           then u32 (Z.shiftl (nth (j + k + 1) a 0) (32 - s)) else 0).
Proof.
  intros Hj. induction m as [|m IH]; intros Hm; cbn zeta in *.
  - cbn [seq foldl]. rewrite length_replicate, nth_replicate0, !bool_decide_eq_false_2 by lia. done.
  - rewrite seq_S, foldl_app. cbn [foldl Nat.add]. destruct (IH ltac:(lia)) as [IHl IHn].
    set (pn := foldl _ _ _) in *. unfold shr_step.
    split; [repeat case_match; rewrite ?length_or_at; done|].
    destruct (bool_decide_reflect (k + 1 <= m)%nat); destruct (Z.eqb_spec s 0); cbn [andb negb];
    destruct (bool_decide_reflect (k <= m)%nat); rewrite ?nth_or_at by (rewrite ?length_or_at; lia);
      repeat (case_bool_decide; try lia); rewrite ?IHn; repeat (case_bool_decide; try lia); cbn [andb];
      rewrite ?Z.lor_0_l, ?Z.lor_0_r, ?andb_false_r, ?andb_true_r; try done; repeat f_equal; lia.
Qed.

Lemma lor_word x y : is_word x -> is_word y -> is_word (Z.lor x y).
Proof.
  intros Hx Hy. apply word_bits; [|apply Z.lor_nonneg; unfold is_word in *; lia].
  intros i Hi. by rewrite Z.lor_spec, !word_high.
Qed.

Lemma shiftr_word x n : is_word x -> 0 <= n -> is_word (Z.shiftr x n).
Proof.
  intros Hx Hn. apply word_bits; [|apply Z.shiftr_nonneg; apply Hx].
  intros i Hi. rewrite Z.shiftr_spec by lia. apply word_high; [done|lia].
Qed.

Lemma words_nth l : (forall j, (j < length l)%nat -> is_word (nth j l 0)) -> Forall is_word l.
Proof.
  intros H. apply Forall_lookup. intros i x Hi.
  rewrite <- (nth_lookup_Some _ _ 0 _ Hi). apply H. by apply lookup_lt_Some in Hi.
Qed.

(** bits [i] of a word shifted left, within the word *)
Lemma shl_word_bit x s r : 0 <= s -> 0 <= r < 32 ->
  Z.testbit (u32 (Z.shiftl x s)) r = if r <? s then false else Z.testbit x (r - s).
Proof.
  intros Hs Hr. unfold u32. rewrite Z.mod_pow2_bits_low by lia. rewrite Z.shiftl_spec by lia.
  destruct (r <? s) eqn:E; b2p; [|done]. by rewrite Z.testbit_neg_r by lia.
Qed.

Lemma shift_split shift : 0 <= shift ->
  exists k s, shift = 32 * Z.of_nat k + s /\ 0 <= s < 32 /\ Z.to_nat (shift / 32) = k /\ shift mod 32 = s.
Proof. intros. exists (Z.to_nat (shift / 32)), (shift mod 32). dlia. Qed.

Lemma shl_assign_spec a shift : Forall is_word a -> 0 <= shift ->
  Forall is_word (shl_assign a shift) /\ length (shl_assign a shift) = length a /\
  pn_val (shl_assign a shift) = (pn_val a * 2 ^ shift) mod modulus (length a).
Proof.
  intros Ha H0. destruct (shift_split shift H0) as (k & s & -> & Hs & Hk & Hm).
  unfold shl_assign. rewrite Hk, Hm. clear Hk Hm. set (r := foldl _ _ _).
  assert (Hlen : length r = length a).
  { destruct a as [|x a']; [done|]. by apply (shl_rounds (x :: a') _ k s _ 0); cbn; lia. }
  pose proof (fun (j : nat) (Hj : (j < length a)%nat) => proj2 (shl_rounds a (length a) k s (length a) j Hj)) as Hr.
  cbn zeta in Hr. fold r in Hr. assert (Hw : Forall is_word r).
  { apply words_nth. intros j Hj. rewrite Hr by lia. pose proof (fun i : nat => nth_word a i Ha) as Hn.
    apply lor_word; case_match; try (unfold is_word; lia).
    - apply shiftr_word; [apply Hn|lia].
    - apply u32_range. }
  split; [done|]. split; [done|]. apply (words_bits r _ (length a) Hlen Hw).
  { apply Z.mod_pos_bound, modulus_pos. }
  intros q t Hq Ht. unfold modulus. rewrite Z.mod_pow2_bits_low by lia.
  rewrite <- Z.shiftl_mul_pow2, Z.shiftl_spec, Hr, Z.lor_spec by lia.
  assert (Hlow : Z.testbit (if bool_decide (k <= q < k + length a)%nat then u32 (nth (q - k) a 0 ≪ s) else 0) t
    = if bool_decide (k <= q)%nat && (s <=? t) then Z.testbit (nth (q - k) a 0) (t - s) else false).
  { repeat (case_bool_decide; try lia); cbn [andb]; [|by rewrite Z.bits_0].
    rewrite shl_word_bit by lia. destruct (Z.ltb_spec t s), (Z.leb_spec s t); try lia; done. }
  rewrite Hlow. clear Hlow. destruct (Z.leb_spec s t) as [Hst|Hst].
  - rewrite andb_true_r. assert (Hhi : Z.testbit (if bool_decide (k + 1 <= q < k + 1 + length a)%nat && negb (s =? 0)
      then nth (q - k - 1) a 0 ≫ (32 - s) else 0) t = false).
    { case_match; [|by rewrite Z.bits_0]. rewrite Z.shiftr_spec by lia.
      apply word_high; [by apply nth_word|lia]. }
    rewrite Hhi. clear Hhi. cbn [orb]. case_bool_decide.
    + rewrite <- pn_val_testbit by (done || lia). f_equal. lia.
    + symmetry. apply Z.testbit_neg_r. lia.
  - rewrite andb_false_r, orb_false_r. repeat (case_bool_decide; try lia); cbn [andb].
    + rewrite (proj2 (Z.eqb_neq s 0)) by lia. cbn [negb]. rewrite Z.shiftr_spec by lia.
      rewrite <- pn_val_testbit by (done || lia). f_equal. lia.
    + rewrite Z.bits_0. symmetry. apply Z.testbit_neg_r. lia.
Qed.

Lemma pn_val_beyond pn q r : Forall is_word pn -> (length pn <= q)%nat -> 0 <= r < 32 ->
  Z.testbit (pn_val pn) (32 * Z.of_nat q + r) = false.
Proof. intros H Hq Hr. rewrite pn_val_testbit by done. by rewrite nth_overflow, Z.bits_0. Qed.

Lemma shr_assign_spec a shift : Forall is_word a -> 0 <= shift ->
  Forall is_word (shr_assign a shift) /\ length (shr_assign a shift) = length a /\
  pn_val (shr_assign a shift) = pn_val a / 2 ^ shift.
Proof.
  intros Ha H0. destruct (shift_split shift H0) as (k & s & -> & Hs & Hk & Hm).
  unfold shr_assign. rewrite Hk, Hm. clear Hk Hm. set (r := foldl _ _ _).
  assert (Hlen : length r = length a).
  { destruct a as [|x a']; [done|]. by apply (shr_rounds (x :: a') k s _ 0); cbn; lia. }
  pose proof (fun (j : nat) (Hj : (j < length a)%nat) => proj2 (shr_rounds a k s (length a) j Hj (Nat.le_refl _))) as Hr.
  cbn zeta in Hr. fold r in Hr. assert (Hw : Forall is_word r).
  { apply words_nth. intros j Hj. rewrite Hr by lia. pose proof (fun i : nat => nth_word a i Ha) as Hn.
    apply lor_word; case_match; try (unfold is_word; lia).
    - apply shiftr_word; [apply Hn|lia].
    - apply u32_range. }
  split; [done|]. split; [done|]. apply (words_bits r _ (length a) Hlen Hw).
  { pose proof (pn_val_bound a Ha). assert (0 < 2 ^ (32 * Z.of_nat k + s)) by (apply Z.pow_pos_nonneg; lia).
    split; [apply Z.div_pos; lia|]. apply Z.div_lt_upper_bound; nia. }
  intros q t Hq Ht. rewrite <- Z.shiftr_div_pow2, Z.shiftr_spec, Hr, Z.lor_spec by lia.
  assert (Hhi : Z.testbit (if bool_decide (q + k + 1 < length a)%nat && negb (s =? 0)
      then u32 (nth (q + k + 1) a 0 ≪ (32 - s)) else 0) t
    = if 32 - s <=? t then Z.testbit (nth (q + k + 1) a 0) (t - (32 - s)) else false).
  { case_bool_decide; cbn [andb].
    - destruct (Z.eqb_spec s 0); cbn [negb].
      + rewrite Z.bits_0. destruct (Z.leb_spec (32 - s) t); [lia|done].
      + rewrite shl_word_bit by lia. destruct (Z.ltb_spec t (32 - s)), (Z.leb_spec (32 - s) t); try lia; done.
    - rewrite nth_overflow, !Z.bits_0 by lia. by destruct (32 - s <=? t). }
  assert (Hlo : Z.testbit (if bool_decide (q + k < length a)%nat then nth (q + k) a 0 ≫ s else 0) t
    = Z.testbit (nth (q + k) a 0) (t + s)).
  { clear Hhi. case_bool_decide; [by rewrite Z.shiftr_spec by lia|]. by rewrite nth_overflow, !Z.bits_0 by lia. }
  rewrite Hhi, Hlo. destruct (Z.leb_spec (32 - s) t) as [Hst|Hst].
  - rewrite word_high by (lia || by apply nth_word). cbn [orb].
    rewrite <- pn_val_testbit by (done || lia). f_equal. lia.
  - rewrite orb_false_r, <- pn_val_testbit by (done || lia). f_equal. lia.
Qed.

(** ** Order *)

Lemma lt_loop_spec d a b : Forall is_word a -> Forall is_word b -> length a = length b ->
  lt_loop d (rev a) (rev b) =
    if pn_val a <? pn_val b then true else if pn_val b <? pn_val a then false else d.
Proof.
  intros Ha. revert b. induction a as [|x a IH] using rev_ind; intros b Hb Hl.
  - destruct b; [|done]. done.
  - destruct b as [|y b _] using rev_ind; [rewrite length_app in Hl; cbn in Hl; lia|].
    rewrite !length_app in Hl. cbn in Hl. apply Forall_app in Ha as [Ha Hx], Hb as [Hb Hy].
    rewrite !rev_app_distr. cbn [rev app lt_loop]. rewrite IH by (done || lia).
    rewrite !pn_val_app. replace (length b) with (length a) by lia. cbn [pn_val].
    pose proof (pn_val_bound a Ha) as Hva. pose proof (pn_val_bound b Hb) as Hvb.
    replace (length b) with (length a) in Hvb by lia. set (M := modulus (length a)) in *.
    destruct (Z.ltb_spec x y); [rewrite (proj2 (Z.ltb_lt _ _)) by nia; done|].
    destruct (Z.ltb_spec y x).
    + rewrite (proj2 (Z.ltb_ge _ _)), (proj2 (Z.ltb_lt _ _)) by nia. done.
    + assert (x = y) as -> by lia.
      assert (E : forall u v c, (u + M * c <? v + M * c) = (u <? v)).
      { intros u v c. apply eq_bool_prop_intro. rewrite !Is_true_true, !Z.ltb_lt. lia. }
      by rewrite !E.
Qed.

Lemma op_eq_spec a b : Forall is_word a -> Forall is_word b -> length a = length b ->
  op_eq a b = (pn_val a =? pn_val b).
Proof.
  intros Ha Hb Hl. apply eq_bool_prop_intro. rewrite !Is_true_true, Z.eqb_eq.
  trans (a = b); [|split; [by intros ->|by apply pn_val_inj]].
  clear Ha Hb. revert b Hl. induction a as [|x a IH]; intros [|y b] Hl; try done.
  cbn [op_eq]. destruct (Z.eqb_spec x y) as [->|Hne]; cbn [negb].
  - rewrite IH by (cbn in Hl; lia). split; [by intros ->|by intros [= ->]].
  - split; [done|]. by intros [= ? ?].
Qed.

(** ** Hexadecimal text *)

Lemma words_of_bytes pn : Forall is_word pn -> words_of (length pn) (pn_bytes pn) = pn.
Proof.
  unfold pn_bytes. induction 1 as [|w r Hw Hr IH]; cbn [map concat words_of length]; [done|].
  rewrite take_app_length' by done. rewrite drop_app_length' by done.
  rewrite IH, le_val_bytes. f_equal. apply Z.mod_small. apply Hw.
Qed.

Lemma length_pn_bytes pn : length (pn_bytes pn) = (length pn * 4)%nat.
Proof. unfold pn_bytes. induction pn; cbn [map concat length]; [done|]. rewrite length_app, length_le_bytes. lia. Qed.

Lemma pn_bytes_all pn : all_bytes (pn_bytes pn).
Proof.
  unfold pn_bytes. induction pn; cbn [map concat]; [constructor|]. apply all_bytes_app.
  split; [apply le_bytes_all|done].
Qed.

Lemma nibbles b : is_byte b -> 0 <= b / 16 < 16 /\ 0 <= b mod 16 < 16.
Proof. unfold is_byte. intros. dlia. Qed.

Lemma hex_span_all l : Forall (fun c => isxdigit c = true) l -> hex_span l = l.
Proof.
  induction 1 as [|c l Hc Hl IH]; cbn [hex_span]; [done|]. rewrite IH.
  replace (negb (phexdigit c =? 0) || (c =? 48)) with true; [done|].
  unfold isxdigit, phexdigit in *. symmetry.
  destruct (Z.eqb_spec c 48); [by rewrite orb_true_r|]. rewrite orb_false_r.
  apply negb_true_iff, Z.eqb_neq. repeat case_match; b2p; lia || done.
Qed.

Lemma hex_store_bytes bs : all_bytes bs ->
  hex_store (length bs) (concat (map (fun b => rev (hex2 b)) bs)) = bs.
Proof.
  induction 1 as [|b bs Hb Hbs IH]; cbn [map concat length]; [done|].
  unfold hex2 at 1. cbn [rev app hex_store]. destruct (nibbles b Hb) as [Hh Hlo].
  destruct (digit_char_spec _ Hh) as (_ & -> & _). destruct (digit_char_spec _ Hlo) as (_ & -> & _).
  rewrite IH. f_equal. rewrite Z.lor_comm, Z.shiftl_mul_pow2, lor_disjoint_add by lia.
  dlia.
Qed.

Lemma rev_concat_hex bs : rev (concat (map hex2 (rev bs))) = concat (map (fun b => rev (hex2 b)) bs).
Proof.
  induction bs as [|b bs IH]; [done|]. cbn [rev map concat].
  rewrite map_app, concat_app, rev_app_distr, IH. cbn [map concat]. by rewrite app_nil_r.
Qed.

Lemma GetHex_digits pn : Forall (fun c => isxdigit c = true) (GetHex pn).
Proof.
  unfold GetHex. assert (H : all_bytes (rev (pn_bytes pn))) by apply all_bytes_rev, pn_bytes_all.
  induction H as [|b l Hb Hl IH]; cbn [map concat]; [constructor|].
  destruct (nibbles b Hb). apply Forall_app. split; [|done].
  repeat constructor; by apply digit_char_spec.
Qed.

Lemma SetHex_skip W pn : pn <> [] ->
  SetHex W (GetHex pn) = words_of W (hex_store (W * 4) (rev (GetHex pn))).
Proof.
  intros Hne. pose proof (GetHex_digits pn) as Hd. revert Hd. unfold SetHex.
  assert (H : all_bytes (rev (pn_bytes pn))) by apply all_bytes_rev, pn_bytes_all.
  unfold GetHex. destruct (rev (pn_bytes pn)) as [|b l] eqn:E.
  - apply (f_equal length) in E. rewrite length_rev, length_pn_bytes in E. destruct pn; cbn in E; [done|lia].
  - inversion H as [|? ? Hb _]; subst. destruct (nibbles b Hb) as [Hh Hlo]. cbn [map concat hex2 app].
    destruct (digit_char_spec _ Hh) as (_ & _ & Hs & _). destruct (digit_char_spec _ Hlo) as (_ & _ & _ & _ & Hx).
    intros Hd. cbn [skip_spaces]. rewrite Hs, (proj2 (Z.eqb_neq _ 120) Hx), andb_false_r.
    by rewrite hex_span_all.
Qed.

End BaseUint.

(** ** The class implements arithmetic modulo [2^BITS] *)

Import BaseUint.

(** [base_uint]'s word arrays implement arithmetic modulo [2^(32 WIDTH)]: on well-formed arrays,
    [+=], [-=], [++], [--], unary minus, complement and the mixed 64-bit forms keep the array
    well-formed (every word below [2^32], the width unchanged) and compute the sum, difference,
    successor, predecessor, negation and complement of the numbers, wrapping around. *)
Theorem base_uint_arithmetic W a b b64 (HW : (2 <= W)%nat) (Ha : wf W a) (Hb : wf W b) (H64 : 0 <= b64 < 2 ^ 64) :
  let ok r z := wf W r /\ pn_val r = z mod modulus W in
  ok (add_assign a b) (pn_val a + pn_val b) /\ ok (sub_assign a b) (pn_val a - pn_val b) /\
  ok (op_incr a) (pn_val a + 1) /\ ok (op_decr a) (pn_val a - 1) /\
  ok (op_neg a) (- pn_val a) /\ ok (op_compl a) (- 1 - pn_val a) /\
  ok (add_assign64 a b64) (pn_val a + b64) /\ ok (sub_assign64 a b64) (pn_val a - b64) /\
  ok (assign64 W b64) b64.
Proof.
  destruct Ha as [La Fa], Hb as [Lb Fb]. intros ok.
  assert (Na : a <> []) by (intros ->; cbn in La; lia). assert (Nb : b <> []) by (intros ->; cbn in Lb; lia).
  destruct (assign64_spec W b64 HW H64) as (F64 & L64 & V64).
  assert (N64 : assign64 W b64 <> []) by done. pose proof (modulus_pos W) as HM.
  assert (Hadd : forall x z, wf W x -> pn_val x mod modulus W = z mod modulus W ->
            ok (add_assign a x) (pn_val a + z)).
  { intros x z [Lx Fx] Hz. destruct (add_loop_spec 0 a x ltac:(lia) Fa Fx ltac:(lia)) as (I1 & I2 & I3).
    split; [split; [unfold add_assign; lia|done]|]. unfold add_assign. rewrite I3, La, Z.add_0_l.
    by rewrite <- (Zplus_mod_idemp_r (pn_val x)), Hz, Zplus_mod_idemp_r. }
  assert (Hneg : forall x, wf W x -> x <> [] -> wf W (op_neg x) /\ pn_val (op_neg x) = (- pn_val x) mod modulus W).
  { intros x [Lx Fx] Nx. destruct (op_neg_spec x Fx Nx) as (I1 & I2 & I3). rewrite I3, Lx. split; [split; [lia|done]|done]. }
  repeat match goal with |- _ /\ _ => split end.
  - apply (Hadd b); [split; done|done].
  - unfold sub_assign. destruct (Hneg b) as [I1 I2]; [done..|]. apply (Hadd _ (- pn_val b)); [done|].
    by rewrite I2, Z.mod_mod by lia.
  - destruct (op_incr_spec a Fa Na) as (I1 & I2 & I3). rewrite La in *. by split.
  - destruct (op_decr_spec a Fa Na) as (I1 & I2 & I3). rewrite La in *. by split.
  - by apply Hneg.
  - destruct (op_compl_spec a Fa) as (I1 & I2 & I3). rewrite La in *. split; [by split|].
    rewrite I3, <- (Z.mod_add (- 1 - pn_val a) 1) by lia. pose proof (pn_val_bound a Fa) as Hv.
    rewrite La in Hv. rewrite Z.mod_small; lia.
  - unfold add_assign64. rewrite La. apply Hadd; [done|by rewrite V64].
  - unfold sub_assign64. rewrite La. destruct (Hneg (assign64 W b64)) as [I1 I2]; [done..|].
    apply (Hadd _ (- b64)); [done|]. by rewrite I2, V64, Z.mod_mod by lia.
  - split; [done|]. rewrite V64. symmetry. apply Z.mod_small.
    pose proof (pn_val_bound _ F64) as Hv. rewrite V64, L64 in Hv. lia.
Qed.

(** The comparison loops of [base_uint] decide the order of the numbers: [<], [<=], [>], [>=] and
    [==] on two arrays of one width answer exactly as the integers they stand for compare, and an array
    is determined by its number. *)
Theorem base_uint_order W a b (Ha : wf W a) (Hb : wf W b) :
  op_lt a b = (pn_val a <? pn_val b) /\ op_le a b = (pn_val a <=? pn_val b) /\
  op_gt a b = (pn_val b <? pn_val a) /\ op_ge a b = (pn_val b <=? pn_val a) /\
  op_eq a b = (pn_val a =? pn_val b) /\ (op_eq a b = true <-> a = b).
Proof.
  destruct Ha as [La Fa], Hb as [Lb Fb]. assert (Hl : length a = length b) by lia.
  unfold op_lt, op_le, op_gt, op_ge. rewrite !lt_loop_spec, op_eq_spec by done.
  repeat split; try (destruct (Z.ltb_spec (pn_val a) (pn_val b)), (Z.ltb_spec (pn_val b) (pn_val a)),
    (Z.leb_spec (pn_val a) (pn_val b)), (Z.leb_spec (pn_val b) (pn_val a)); lia || done).
  - intros H%Z.eqb_eq. by apply pn_val_inj.
  - intros ->. apply Z.eqb_refl.
Qed.

(** The bitwise and shift operators of [base_uint] are those of the numbers: [^=], [&=], [|=] act on
    the bits, [<<= s] multiplies by [2^s] modulo [2^(32 WIDTH)] and [>>= s] divides by [2^s] rounding
    down, for every shift count, word boundaries and counts beyond the width included. *)
Theorem base_uint_bits W a b s (Ha : wf W a) (Hb : wf W b) (Hs : 0 <= s < 2 ^ 32) :
  let ok r z := wf W r /\ pn_val r = z in
  ok (xor_assign a b) (Z.lxor (pn_val a) (pn_val b)) /\ ok (and_assign a b) (Z.land (pn_val a) (pn_val b)) /\
  ok (or_assign a b) (Z.lor (pn_val a) (pn_val b)) /\
  ok (shl_assign a s) ((pn_val a * 2 ^ s) mod modulus W) /\ ok (shr_assign a s) (pn_val a / 2 ^ s).
Proof.
  destruct Ha as [La Fa], Hb as [Lb Fb]. intros ok. rewrite <- La. unfold wf in ok. subst ok. cbn beta.
  destruct (zip_words_spec Z.lxor xorb a b) as (X1 & X2 & X3); try done; try lia.
  { apply Z.lxor_spec. } { intros. apply Z.lxor_nonneg. lia. }
  destruct (zip_words_spec Z.land andb a b) as (Y1 & Y2 & Y3); try done; try lia.
  { apply Z.land_spec. } { intros. apply Z.land_nonneg. lia. }
  destruct (zip_words_spec Z.lor orb a b) as (O1 & O2 & O3); try done; try lia.
  { apply Z.lor_spec. } { intros. apply Z.lor_nonneg. lia. }
  destruct (shl_assign_spec a s Fa) as (L1 & L2 & L3); [lia|].
  destruct (shr_assign_spec a s Fa) as (R1 & R2 & R3); [lia|].
  unfold xor_assign, and_assign, or_assign. repeat split; done || lia.
Qed.

(** [GetHex] prints [8 WIDTH] lower-case hexadecimal digits and [SetHex] reads them back to the same
    number. *)
Theorem base_uint_hex_roundtrip W a (HW : (1 <= W)%nat) (Ha : wf W a) :
  SetHex W (GetHex a) = a /\ length (GetHex a) = (8 * W)%nat.
Proof.
  destruct Ha as [La Fa]. split.
  - rewrite SetHex_skip by (intros ->; cbn in La; lia). unfold GetHex. rewrite rev_concat_hex.
    rewrite <- La, <- length_pn_bytes, hex_store_bytes by apply pn_bytes_all. by apply words_of_bytes.
  - unfold GetHex. rewrite <- La. replace (8 * length a)%nat with (2 * length (rev (pn_bytes a)))%nat
      by (rewrite length_rev, length_pn_bytes; lia).
    generalize (rev (pn_bytes a)). intros l. induction l as [|b l IH]; [done|].
    cbn [map concat]. rewrite length_app, IH. cbn [length hex2]. lia.
Qed.

(** *** At concrete values *)

Definition sample_uint : list Z := [4294967295; 4294967295; 7; 0; 0; 0; 0; 2147483648].

Lemma sample_uint_wf : wf 8 sample_uint.
Proof. split; [done|]. repeat constructor; done. Qed.

Lemma base_uint_arithmetic_witness :
  pn_val (add_assign sample_uint sample_uint) = (2 * pn_val sample_uint) mod 2 ^ 256 /\
  op_incr [4294967295; 4294967295] = [0; 0].
Proof.
  split; [|reflexivity]. etransitivity.
  - exact (proj2 (proj1 (base_uint_arithmetic 8 sample_uint sample_uint 5 ltac:(lia) sample_uint_wf sample_uint_wf ltac:(lia)))).
  - vm_compute. reflexivity.
Defined.

Lemma base_uint_order_witness : op_lt [1; 0] [0; 1] = (1 <? 2 ^ 32).
Proof.
  etransitivity; [apply (base_uint_order 2 [1; 0] [0; 1]); split; try done; repeat constructor; done|].
  reflexivity.
Defined.

Lemma base_uint_bits_witness : pn_val (shr_assign sample_uint 97) = pn_val sample_uint / 2 ^ 97.
Proof.
  destruct (base_uint_bits 8 sample_uint sample_uint 97 sample_uint_wf sample_uint_wf ltac:(lia)) as (_ & _ & _ & _ & _ & H).
  exact H.
Defined.

Lemma base_uint_hex_roundtrip_witness : SetHex 8 (GetHex sample_uint) = sample_uint.
Proof. exact (proj1 (base_uint_hex_roundtrip 8 sample_uint ltac:(lia) sample_uint_wf)). Defined.
