(* ===== verification/Serialize.v ===== *)
(** * Serialization (serialize.h)

    The templates [Serialize]/[Unserialize]/[GetSerializeSize] as a record of
    operations per type, the compact size and variable-length integer formats,
    strings, vectors, pairs and tuples, and the stream
    [CDataStream].  [Lawful] is the contract the rest of the node relies on: what
    was written is read back, whatever follows it in the stream, and
    [GetSerializeSize] is its length.  Composite types inherit the contract from
    their parts. *)

From S2P Require Import Prelude.
Local Open Scope Z_scope.

Definition MAX_SIZE : Z := 0x02000000.

(** a stream that is read is the list of the bytes left in it; [None]: the read
    throws *)
Definition read (nSize : nat) (s : bytes) : option (bytes * bytes) :=
  if bool_decide (nSize <= length s)%nat then Some (take nSize s, drop nSize s) else None.

Record codec (T : Type) := Codec {
  Serialize : T -> bytes;
  Unserialize : bytes -> option (T * bytes);
  GetSerializeSize : T -> Z;
}.
Arguments Codec {T}.
Arguments Serialize {T}.
Arguments Unserialize {T}.
Arguments GetSerializeSize {T}.

Class Lawful {T : Type} (c : codec T) (valid : T -> Prop) : Prop := {
  ser_roundtrip : forall x rest, valid x -> Unserialize c (Serialize c x ++ rest) = Some (x, rest);
  ser_size : forall x, valid x -> GetSerializeSize c x = u32 (Z.of_nat (length (Serialize c x)));
  ser_bytes : forall x, valid x -> all_bytes (Serialize c x);
}.

(** ** Basic types: [WRITEDATA] and [READDATA] of a little-endian object *)

Definition ser_uint (size : nat) : codec Z :=
  {| Serialize := le_bytes size;
     Unserialize s := let? (b, r) := read size s in Some (le_val b, r);
     GetSerializeSize _ := Z.of_nat size |}.

(** two'is complement of [size] bytes *)
Definition ser_sint (size : nat) : codec Z :=
  let m := 256 ^ Z.of_nat size in
  {| Serialize z := le_bytes size (z mod m);
     Unserialize s := let? (b, r) := read size s in
                       let v := le_val b in Some (if v <? m / 2 then v else v - m, r);
     GetSerializeSize _ := Z.of_nat size |}.

Definition ser_bool : codec bool :=
  {| Serialize (a : bool) := [if a then 1 else 0];
     Unserialize s := let? (b, r) := read 1 s in Some (negb (le_val b =? 0), r);
     GetSerializeSize _ := 1 |}.

(** ** Compact sizes *)

Definition GetSizeOfCompactSize (nSize : Z) : Z :=
  if nSize <? 253 then 1 else if nSize <=? 0xffff then 3 else if nSize <=? 0xffffffff then 5 else 9.

Definition WriteCompactSize (nSize : Z) : bytes :=
  if nSize <? 253 then le_bytes 1 nSize
  else if nSize <=? 0xffff then le_bytes 1 253 ++ le_bytes 2 nSize
  else if nSize <=? 0xffffffff then le_bytes 1 254 ++ le_bytes 4 nSize
  else le_bytes 1 255 ++ le_bytes 8 nSize.

Definition ReadCompactSize (s : bytes) : option (Z * bytes) :=
  let? (b, s) := read 1 s in
  let chSize := le_val b in
  let? (nSizeRet, s) :=
    if chSize <? 253 then Some (chSize, s)
    else
      let? (x, s) := read (if chSize =? 253 then 2 else if chSize =? 254 then 4 else 8) s in
      Some (le_val x, s) in
  if MAX_SIZE <? nSizeRet then None else Some (nSizeRet, s).

(** ** Variable-length integers of a [w]-bit unsigned type *)

Section VarInt.
Context (w : Z).

(** the digits in the order the loop stores them in [tmp]; one per seven bits, so [w] is fuel enough *)
Fixpoint varint_tmp (fuel : nat) (n : Z) (len : nat) : bytes :=
  match fuel with
  | O => []
  | S f =>
    let b := Z.lor (Z.land n 0x7F) (if bool_decide (len = 0)%nat then 0 else 0x80) in
    if n <=? 0x7F then [b] else b :: varint_tmp f ((Z.shiftr n 7 - 1) mod 2 ^ w) (S len)
  end.
Definition WriteVarInt (n : Z) : bytes := rev (varint_tmp (Z.to_nat w) n 0).

Fixpoint GetSizeOfVarInt_loop (fuel : nat) (n nRet : Z) : Z :=
  match fuel with
  | O => nRet
  | S f => let nRet := nRet + 1 in
           if n <=? 0x7F then nRet else GetSizeOfVarInt_loop f ((Z.shiftr n 7 - 1) mod 2 ^ w) nRet
  end.
Definition GetSizeOfVarInt (n : Z) : Z := GetSizeOfVarInt_loop (Z.to_nat w) n 0.

Fixpoint ReadVarInt_loop (n : Z) (s : bytes) : option (Z * bytes) :=
  match s with
  | [] => None
  | chData :: s =>
    let n := Z.lor (Z.shiftl n 7 mod 2 ^ w) (Z.land chData 0x7F) in
    if Z.land chData 0x80 =? 0 then Some (n, s) else ReadVarInt_loop ((n + 1) mod 2 ^ w) s
  end.
Definition ReadVarInt : bytes -> option (Z * bytes) := ReadVarInt_loop 0.

Definition ser_varint : codec Z :=
  {| Serialize := WriteVarInt; Unserialize := ReadVarInt; GetSerializeSize := GetSizeOfVarInt |}.
End VarInt.

(** ** Strings and vectors *)

(** [nSize * sizeof(char)] bytes in one read *)
Definition ser_string : codec bytes :=
  {| Serialize str := WriteCompactSize (Z.of_nat (length str)) ++ str;
     Unserialize s :=
       let? (nSize, s) := ReadCompactSize s in
       if negb (nSize =? 0) then read (Z.to_nat nSize) s else Some ([], s);
     GetSerializeSize str := u32 (GetSizeOfCompactSize (Z.of_nat (length str)) + Z.of_nat (length str)) |}.

(** [vector<unsigned char>]: read in blocks of at most five million bytes *)
Fixpoint unserialize_blocks (fuel : nat) (nSize i : Z) (v s : bytes) : option (bytes * bytes) :=
  match fuel with
  | O => None
  | S f =>
    if i <? nSize then
      let blk := Z.min (nSize - i) (1 + 4999999) in
      let? (b, s) := read (Z.to_nat blk) s in
      unserialize_blocks f nSize (u32 (i + blk)) (v ++ b) s
    else Some (v, s)
  end.

Definition vch_size (v : bytes) : Z := u32 (GetSizeOfCompactSize (Z.of_nat (length v)) + Z.of_nat (length v)).

Definition ser_vch : codec bytes :=
  {| Serialize v := WriteCompactSize (Z.of_nat (length v)) ++ v;
     Unserialize s :=
       let? (nSize, s) := ReadCompactSize s in
       unserialize_blocks (S (Z.to_nat nSize)) nSize 0 [] s;
     GetSerializeSize := vch_size |}.

Section Containers.
Context {A B C D : Type} (ca : codec A) (cb : codec B) (cc : codec C) (cd : codec D).

(** the elements one after the other; the resizes in steps of [nMid] do not change what is read *)
Fixpoint unserialize_items (n : nat) (s : bytes) : option (list A * bytes) :=
  match n with
  | O => Some ([], s)
  | S n => let? (x, s) := Unserialize ca s in
           let? (v, s) := unserialize_items n s in Some (x :: v, s)
  end.

Definition vector_size (v : list A) : Z :=
  foldl (fun nSize x => u32 (nSize + GetSerializeSize ca x)) (GetSizeOfCompactSize (Z.of_nat (length v))) v.

Definition ser_vector : codec (list A) :=
  {| Serialize v := WriteCompactSize (Z.of_nat (length v)) ++ concat (map (Serialize ca) v);
     Unserialize s := let? (nSize, s) := ReadCompactSize s in unserialize_items (Z.to_nat nSize) s;
     GetSerializeSize := vector_size |}.

Definition ser_pair : codec (A * B) :=
  {| Serialize '(a, b) := Serialize ca a ++ Serialize cb b;
     Unserialize s := let? (a, s) := Unserialize ca s in
                       let? (b, s) := Unserialize cb s in Some ((a, b), s);
     GetSerializeSize '(a, b) := u32 (GetSerializeSize ca a + GetSerializeSize cb b) |}.

Definition ser_tuple3 : codec (A * B * C) :=
  {| Serialize '(a, b, c) := Serialize ca a ++ Serialize cb b ++ Serialize cc c;
     Unserialize s := let? (a, s) := Unserialize ca s in
                       let? (b, s) := Unserialize cb s in
                       let? (c, s) := Unserialize cc s in Some ((a, b, c), s);
     GetSerializeSize '(a, b, c) :=
       u32 (u32 (u32 (GetSerializeSize ca a) + GetSerializeSize cb b) + GetSerializeSize cc c) |}.

Definition ser_tuple4 : codec (A * B * C * D) :=
  {| Serialize '(a, b, c, d) := Serialize ca a ++ Serialize cb b ++ Serialize cc c ++ Serialize cd d;
     Unserialize s := let? (a, s) := Unserialize ca s in
                       let? (b, s) := Unserialize cb s in
                       let? (c, s) := Unserialize cc s in
                       let? (d, s) := Unserialize cd s in Some ((a, b, c, d), s);
     GetSerializeSize '(a, b, c, d) :=
       u32 (u32 (u32 (u32 (GetSerializeSize ca a) + GetSerializeSize cb b) + GetSerializeSize cc c)
            + GetSerializeSize cd d) |}.
End Containers.

(** a class whose [IMPLEMENT_SERIALIZE] reads and writes the fields of [B] in order *)
Definition ser_iso {A B : Type} (cb : codec B) (to : A -> B) (from : B -> A) : codec A :=
  {| Serialize a := Serialize cb (to a);
     Unserialize s := let? (b, s) := Unserialize cb s in Some (from b, s);
     GetSerializeSize a := GetSerializeSize cb (to a) |}.

(** instance search compares codecs by name *)
#[export] Typeclasses Opaque ser_uint ser_sint ser_bool ser_varint ser_string ser_vch ser_vector ser_pair ser_tuple3
  ser_tuple4 ser_iso.

(** ** Reading back what was written *)

Lemma read_app n b s : length b = n -> read n (b ++ s) = Some (b, s).
Proof.
  intros <-. unfold read. rewrite bool_decide_eq_true_2 by (rewrite length_app; lia).
  by rewrite take_app_length, drop_app_length.
Qed.

Lemma read_Some n s b r : read n s = Some (b, r) -> s = b ++ r /\ length b = n.
Proof.
  unfold read. case_bool_decide; [|done]. intros [= <- <-].
  rewrite take_drop, length_take. split; [done|lia].
Qed.

Lemma read_le_bytes n z s : 0 <= z < 256 ^ Z.of_nat n -> read n (le_bytes n z ++ s) = Some (le_bytes n z, s).
Proof. intros. apply read_app, length_le_bytes. Qed.

Lemma le_val_le_bytes n z : 0 <= z < 256 ^ Z.of_nat n -> le_val (le_bytes n z) = z.
Proof. intros. rewrite le_val_bytes. by apply Z.mod_small. Qed.

Lemma ser_uint_lawful n : (n <= 1000)%nat -> Lawful (ser_uint n) (fun z => 0 <= z < 256 ^ Z.of_nat n).
Proof.
  intros Hn. split; cbn [Serialize Unserialize GetSerializeSize ser_uint].
  - intros z s Hz. rewrite read_le_bytes, le_val_le_bytes by done. done.
  - intros z Hz. rewrite length_le_bytes, u32_small by lia. done.
  - intros. apply le_bytes_all.
Qed.

Lemma ser_sint_lawful n : (0 < n <= 1000)%nat ->
  Lawful (ser_sint n) (fun z => - (256 ^ Z.of_nat n / 2) <= z < 256 ^ Z.of_nat n / 2).
Proof.
  intros Hn. assert (He : 256 ^ Z.of_nat n = 2 * (256 ^ Z.of_nat n / 2)).
  { replace n with (S (n - 1)) by lia. rewrite pow256_succ.
    replace (256 * 256 ^ Z.of_nat (n - 1)) with (2 * (128 * 256 ^ Z.of_nat (n - 1))) by lia.
    rewrite (Z.mul_comm 2), Z.div_mul by lia. lia. }
  pose proof (pow256_pos n) as Hp. split; cbn [Serialize Unserialize GetSerializeSize ser_sint].
  - intros z s Hz. rewrite read_app by apply length_le_bytes.
    rewrite le_val_bytes, Z.mod_mod by lia. f_equal. f_equal.
    set (m := 256 ^ Z.of_nat n) in *. destruct (decide (0 <= z)).
    + rewrite Z.mod_small by lia. by rewrite (proj2 (Z.ltb_lt _ _)) by lia.
    + rewrite <- (Z.mod_add z 1), Z.mod_small by lia. rewrite (proj2 (Z.ltb_ge _ _)) by lia. lia.
  - intros z Hz. rewrite length_le_bytes, u32_small by lia. done.
  - intros. apply le_bytes_all.
Qed.

Lemma CompactSize_roundtrip n s : 0 <= n <= MAX_SIZE -> ReadCompactSize (WriteCompactSize n ++ s) = Some (n, s).
Proof.
  unfold MAX_SIZE, ReadCompactSize, WriteCompactSize. intros Hn.
  repeat case_if; b2p; try lia; rewrite <- ?app_assoc, read_le_bytes, le_val_le_bytes by (simpl; lia);
    cbn [Z.ltb Z.compare Pos.compare Pos.compare_cont Z.eqb Pos.eqb].
  - rewrite (proj2 (Z.ltb_lt n 253)) by lia. rewrite (proj2 (Z.ltb_ge _ n)) by (unfold MAX_SIZE; lia). done.
  - rewrite read_le_bytes, le_val_le_bytes by (simpl; lia). by rewrite (proj2 (Z.ltb_ge _ n)) by (unfold MAX_SIZE; lia).
  - rewrite read_le_bytes, le_val_le_bytes by (simpl; lia). by rewrite (proj2 (Z.ltb_ge _ n)) by (unfold MAX_SIZE; lia).
Qed.

Lemma CompactSize_size n : 0 <= n < 2 ^ 64 -> Z.of_nat (length (WriteCompactSize n)) = GetSizeOfCompactSize n.
Proof. intros. unfold WriteCompactSize, GetSizeOfCompactSize. by repeat case_if. Qed.

Lemma CompactSize_bytes n : all_bytes (WriteCompactSize n).
Proof. unfold WriteCompactSize. repeat case_if; rewrite ?all_bytes_app; auto using le_bytes_all. Qed.

(** *** Variable-length integers *)

Section VarIntSpec.
Context (w : Z) (Hw : 8 <= w).

(** the number of the digits [d_k .. d_1] that precede the last one, lowest first, and of all digits:
    [d_0 + sum (i >= 1) 128^i (d_i + 1)] *)
Fixpoint prefix_value (l : bytes) : Z :=
  match l with
  | [] => 0
  | b :: r => Z.land b 0x7F + 1 + 128 * prefix_value r
  end.
Definition varint_value (a : bytes) : Z :=
  match rev a with
  | [] => 0
  | b :: r => Z.land b 0x7F + 128 * prefix_value r
  end.

Definition continues (b : Z) : Prop := 128 <= b < 256.

(** the digits lowest first: bytes, the high bit set on all but the last digit *)
Definition tmp_ok (len : nat) (l : bytes) : Prop :=
  match l with
  | [] => False
  | b :: r => (if bool_decide (len = 0)%nat then 0 <= b < 128 else continues b) /\ Forall continues r
  end.
Definition tmp_value (l : bytes) : Z :=
  match l with
  | [] => 0
  | b :: r => Z.land b 0x7F + 128 * prefix_value r
  end.

Lemma land7F b : Z.land b 0x7F = b mod 128.
Proof. change 0x7F with (2 ^ 7 - 1). by rewrite land_mask by lia. Qed.

Lemma low7_range b : 0 <= Z.land b 0x7F < 128.
Proof. rewrite land7F. apply Z.mod_pos_bound. lia. Qed.

Lemma digit_eq n (len : nat) :
  Z.lor (Z.land n 0x7F) (if bool_decide (len = 0)%nat then 0 else 0x80) =
  n mod 128 + if bool_decide (len = 0)%nat then 0 else 128.
Proof.
  rewrite land7F. case_bool_decide; [by rewrite Z.lor_0_r, Z.add_0_r|].
  rewrite Z.lor_comm. change 0x80 with (1 * 2 ^ 7). rewrite lor_disjoint_add; [lia|lia|].
  apply Z.mod_pos_bound; lia.
Qed.

Lemma continues_high b : continues b -> Z.land b 0x80 <> 0.
Proof.
  unfold continues. intros Hb. change 0x80 with (2 ^ 8 - 2 ^ 7). rewrite land_high by lia.
  change (2 ^ 7) with 128. dlia.
Qed.
Lemma last_high b : 0 <= b < 128 -> Z.land b 0x80 = 0.
Proof.
  intros Hb. change 0x80 with (2 ^ 8 - 2 ^ 7). rewrite land_high by lia. rewrite Z.mod_small; lia.
Qed.

Lemma prefix_value_nonneg l : 0 <= prefix_value l.
Proof. induction l as [|b r IH]; cbn [prefix_value]; [lia|]. pose proof (low7_range b). lia. Qed.

Lemma prefix_value_low l : l <> [] -> 128 ^ (Z.of_nat (length l) - 1) <= prefix_value l.
Proof.
  induction l as [|b r IH]; [done|]; intros _. cbn [prefix_value length]. pose proof (low7_range b).
  destruct r as [|c r]; [simpl; lia|]. specialize (IH ltac:(done)).
  replace (Z.of_nat (S (length (c :: r))) - 1) with (Z.succ (Z.of_nat (length (c :: r)) - 1)) by lia.
  rewrite Z.pow_succ_r by (cbn [length]; lia). lia.
Qed.

Lemma varint_tmp_spec fuel n len : 0 <= n < 2 ^ w -> n + 1 < 128 ^ Z.of_nat fuel ->
  tmp_ok len (varint_tmp w fuel n len) /\ tmp_value (varint_tmp w fuel n len) = n.
Proof.
  revert n len. induction fuel as [|f IH]; intros n len Hn Hf; [simpl in Hf; lia|].
  cbn [varint_tmp]. rewrite digit_eq. assert (Hm : 0 <= n mod 128 < 128) by (apply Z.mod_pos_bound; lia).
  assert (Hlow : Z.land (n mod 128 + (if bool_decide (len = 0)%nat then 0 else 128)) 0x7F = n mod 128).
  { rewrite land7F. case_bool_decide; dlia. }
  assert (Hd : if bool_decide (len = 0)%nat then 0 <= n mod 128 + (if bool_decide (len = 0)%nat then 0 else 128) < 128
               else continues (n mod 128 + (if bool_decide (len = 0)%nat then 0 else 128))).
  { unfold continues. case_bool_decide; lia. }
  case_if; b2p.
  - cbn [tmp_ok tmp_value prefix_value]. rewrite Hlow. split; [by split|]. rewrite Z.mod_small; lia.
  - rewrite Nat2Z.inj_succ, Z.pow_succ_r in Hf by lia. rewrite Z.shiftr_div_pow2 by lia. change (2 ^ 7) with 128.
    assert (Hn' : 0 <= n / 128 - 1 < 2 ^ w) by dlia. rewrite (Z.mod_small (n / 128 - 1)) by done.
    destruct (IH (n / 128 - 1) (S len) Hn' ltac:(dlia)) as [I1 I2].
    destruct (varint_tmp w f (n / 128 - 1) (S len)) as [|c r]; [done|].
    cbn [tmp_ok] in I1. rewrite bool_decide_eq_false_2 in I1 by lia. destruct I1 as [Hc Hr].
    cbn [tmp_ok tmp_value prefix_value] in *. rewrite Hlow.
    split; [split; [done|by constructor]|]. dlia.
Qed.

Lemma varint_tmp_unique fuel l len : tmp_ok len l -> (length l <= fuel)%nat -> tmp_value l < 2 ^ w ->
  varint_tmp w fuel (tmp_value l) len = l.
Proof.
  revert l len. induction fuel as [|f IH]; intros [|b r] len Hl Hf Hv; try done; [cbn in Hf; lia|].
  cbn [varint_tmp]. rewrite digit_eq. destruct Hl as [Hb Hr]. cbn [tmp_value length] in *.
  pose proof (low7_range b) as Hlow. pose proof (prefix_value_nonneg r) as Hp.
  assert (Eb : (Z.land b 0x7F + 128 * prefix_value r) mod 128 +
               (if bool_decide (len = 0)%nat then 0 else 128) = b).
  { rewrite Z.mul_comm, Z.mod_add, (Z.mod_small (Z.land b 0x7F)), land7F by lia.
    unfold continues in Hb. case_bool_decide; dlia. }
  rewrite Eb. destruct r as [|c r].
  - cbn [prefix_value]. rewrite (proj2 (Z.leb_le _ _)) by lia. done.
  - assert (1 <= prefix_value (c :: r)).
    { cbn [prefix_value]. pose proof (low7_range c). pose proof (prefix_value_nonneg r). lia. }
    rewrite (proj2 (Z.leb_gt _ _)) by lia. f_equal. rewrite Z.shiftr_div_pow2 by lia.
    replace ((Z.land b 127 + 128 * prefix_value (c :: r)) / 2 ^ 7 - 1) with (tmp_value (c :: r)).
    2:{ change (2 ^ 7) with 128. rewrite (Z.mul_comm 128), Z.div_add, Z.div_small by lia.
        cbn [tmp_value prefix_value]. lia. }
    assert (tmp_value (c :: r) = prefix_value (c :: r) - 1) by (cbn [tmp_value prefix_value]; lia).
    rewrite Z.mod_small by lia. inversion Hr; subst. apply IH; [|lia|lia].
    cbn [tmp_ok]. by rewrite bool_decide_eq_false_2 by lia.
Qed.

(** reading continuing digits accumulates [prefix_value] *)
Lemma ReadVarInt_prefix l s : Forall continues l -> prefix_value l < 2 ^ w ->
  ReadVarInt_loop w 0 (rev l ++ s) = ReadVarInt_loop w (prefix_value l) s.
Proof.
  intros Hl. revert s. induction Hl as [|b r Hb Hr IH]; intros s Hv; [done|].
  cbn [rev prefix_value] in *. pose proof (low7_range b). pose proof (prefix_value_nonneg r).
  rewrite <- app_assoc, IH by lia. cbn [app ReadVarInt_loop].
  rewrite Z.shiftl_mul_pow2, (Z.mod_small (prefix_value r * 2 ^ 7)), lor_disjoint_add by lia.
  rewrite (proj2 (Z.eqb_neq _ 0)) by by apply continues_high. rewrite Z.mod_small by lia.
  f_equal. lia.
Qed.

Lemma ReadVarInt_digits b r s : 0 <= b < 128 -> Forall continues r -> tmp_value (b :: r) < 2 ^ w ->
  ReadVarInt w (rev (b :: r) ++ s) = Some (tmp_value (b :: r), s).
Proof.
  intros Hb Hr Hv. unfold ReadVarInt. cbn [rev tmp_value] in *. rewrite <- app_assoc.
  pose proof (low7_range b). pose proof (prefix_value_nonneg r).
  rewrite ReadVarInt_prefix by (done || lia). cbn [app ReadVarInt_loop].
  rewrite Z.shiftl_mul_pow2, (Z.mod_small (prefix_value r * 2 ^ 7)), lor_disjoint_add by lia.
  rewrite last_high, Z.eqb_refl by done. do 2 f_equal. lia.
Qed.

Lemma fuel_enough n : n < 2 ^ w -> n + 1 < 128 ^ Z.of_nat (Z.to_nat w).
Proof.
  intros. rewrite Z2Nat.id by lia. change 128 with (2 ^ 7). rewrite <- Z.pow_mul_r by lia.
  apply Z.le_lt_trans with (2 ^ w); [lia|]. apply Z.pow_lt_mono_r; lia.
Qed.

Lemma tmp_length len l : tmp_ok len l -> tmp_value l < 2 ^ w -> Z.of_nat (length l) <= (w + 6) / 7.
Proof.
  destruct l as [|b [|c r]]; [done|intros; cbn [length]; dlia|]. intros _ Hv.
  cbn [tmp_value] in Hv. pose proof (low7_range b). pose proof (prefix_value_low (c :: r) ltac:(done)) as Hp.
  set (k := Z.of_nat (length (c :: r))) in *. cbn [length]. change (Z.of_nat (S (S (length r)))) with (Z.of_nat (S (length (c :: r)))).
  rewrite Nat2Z.inj_succ. fold k. assert (1 <= k) by (subst k; cbn [length]; lia).
  assert (H2 : 2 ^ (7 * k) < 2 ^ w).
  { replace (7 * k) with (7 * (k - 1) + 7) by lia. rewrite Z.pow_add_r, Z.pow_mul_r by lia.
    change (2 ^ 7) with 128. lia. }
  apply Z.pow_lt_mono_r_iff in H2; [|lia|lia]. dlia.
Qed.

Lemma WriteVarInt_ok n : 0 <= n < 2 ^ w -> exists b r, WriteVarInt w n = rev (b :: r) /\
  0 <= b < 128 /\ Forall continues r /\ tmp_value (b :: r) = n.
Proof.
  intros Hn. destruct (varint_tmp_spec (Z.to_nat w) n 0 Hn) as [H1 H2]; [apply fuel_enough; lia|].
  unfold WriteVarInt. destruct (varint_tmp _ _ _ _) as [|b r]; [done|]. destruct H1 as [Hb Hr].
  exists b, r. done.
Qed.

Lemma GetSizeOfVarInt_spec fuel n len k :
  GetSizeOfVarInt_loop w fuel n k = k + Z.of_nat (length (varint_tmp w fuel n len)).
Proof.
  revert n len k. induction fuel as [|f IH]; intros n len k; cbn [GetSizeOfVarInt_loop varint_tmp]; [cbn; lia|].
  case_if; [cbn; lia|]. rewrite (IH _ (S len)). cbn [length]. lia.
Qed.
End VarIntSpec.

(** *** The contract for composite types *)

Lemma u32_add_l a b : u32 (u32 a + b) = u32 (a + b).
Proof. unfold u32. by rewrite Zplus_mod_idemp_l. Qed.
Lemma u32_add_r a b : u32 (a + u32 b) = u32 (a + b).
Proof. unfold u32. by rewrite Zplus_mod_idemp_r. Qed.
Lemma u32_idem a : u32 (u32 a) = u32 a.
Proof. unfold u32. by rewrite Z.mod_mod by lia. Qed.
#[export] Hint Rewrite u32_add_l u32_add_r u32_idem Nat2Z.inj_add : len.

Lemma varint_lawful w : 8 <= w <= 64 -> Lawful (ser_varint w) (fun n => 0 <= n < 2 ^ w).
Proof.
  intros Hw. split; cbn [Serialize Unserialize GetSerializeSize ser_varint].
  - intros n s Hn. destruct (WriteVarInt_ok w ltac:(lia) n Hn) as (b & r & -> & Hb & Hr & <-).
    apply ReadVarInt_digits; [lia|done|done|lia].
  - intros n Hn. unfold GetSizeOfVarInt. rewrite (GetSizeOfVarInt_spec w _ n 0), Z.add_0_l.
    unfold WriteVarInt. rewrite length_rev. symmetry. apply u32_small.
    destruct (varint_tmp_spec w ltac:(lia) (Z.to_nat w) n 0 Hn) as [H1 H2]; [apply fuel_enough; lia|].
    apply tmp_length with (w := w) in H1; [dlia|lia|lia].
  - intros n Hn. destruct (WriteVarInt_ok w ltac:(lia) n Hn) as (b & r & -> & Hb & Hr & _).
    apply all_bytes_rev. constructor; [unfold is_byte; lia|].
    eapply Forall_impl; [exact Hr|]. unfold continues, is_byte. lia.
Qed.

Instance ser_uint8_lawful : Lawful (ser_uint 1) (fun z => 0 <= z < 2 ^ 8).
Proof. apply (ser_uint_lawful 1). lia. Qed.
Instance ser_uint16_lawful : Lawful (ser_uint 2) (fun z => 0 <= z < 2 ^ 16).
Proof. apply (ser_uint_lawful 2). lia. Qed.
Instance ser_uint32_lawful : Lawful (ser_uint 4) (fun z => 0 <= z < 2 ^ 32).
Proof. apply (ser_uint_lawful 4). lia. Qed.
Instance ser_uint64_lawful : Lawful (ser_uint 8) (fun z => 0 <= z < 2 ^ 64).
Proof. apply (ser_uint_lawful 8). lia. Qed.
Instance ser_uint256_lawful : Lawful (ser_uint 32) (fun z => 0 <= z < 2 ^ 256).
Proof. apply (ser_uint_lawful 32). lia. Qed.
Instance ser_int32_lawful : Lawful (ser_sint 4) (fun z => - 2 ^ 31 <= z < 2 ^ 31).
Proof. apply (ser_sint_lawful 4). lia. Qed.
Instance ser_int64_lawful : Lawful (ser_sint 8) (fun z => - 2 ^ 63 <= z < 2 ^ 63).
Proof. apply (ser_sint_lawful 8). lia. Qed.
Instance ser_varint32_lawful : Lawful (ser_varint 32) (fun z => 0 <= z < 2 ^ 32).
Proof. apply varint_lawful. lia. Qed.
Instance ser_varint64_lawful : Lawful (ser_varint 64) (fun z => 0 <= z < 2 ^ 64).
Proof. apply varint_lawful. lia. Qed.

Instance ser_bool_lawful : Lawful ser_bool (fun _ => True).
Proof.
  split; cbn [Serialize Unserialize GetSerializeSize ser_bool]; [|done|].
  - intros [] s _; by rewrite read_app by done.
  - intros [] _; by repeat constructor.
Qed.

Lemma unserialize_blocks_spec fuel nSize i v b s : 0 <= i -> Z.of_nat (length b) = nSize - i ->
  nSize - i < Z.of_nat fuel -> nSize < 2 ^ 32 ->
  unserialize_blocks fuel nSize i v (b ++ s) = Some (v ++ b, s).
Proof.
  revert i v b. induction fuel as [|f IH]; intros i v b Hi Hb Hf Hn; [lia|]. cbn [unserialize_blocks].
  case_if; b2p.
  - set (blk := Z.min (nSize - i) (1 + 4999999)).
    rewrite <- (take_drop (Z.to_nat blk) b) at 1. rewrite <- app_assoc, read_app by (rewrite length_take; lia).
    rewrite IH by (rewrite ?length_drop, ?u32_small; lia). by rewrite <- app_assoc, take_drop.
  - destruct b; [by rewrite app_nil_r|]. cbn [length] in Hb. lia.
Qed.

Definition sized {A} (P : A -> Prop) (v : list A) : Prop := Forall P v /\ Z.of_nat (length v) <= MAX_SIZE.

Instance ser_vch_lawful : Lawful ser_vch (sized is_byte).
Proof.
  split; cbn [Serialize Unserialize GetSerializeSize ser_vch]; unfold vch_size, sized, MAX_SIZE.
  - intros v s [Hv Hl]. rewrite <- app_assoc, CompactSize_roundtrip by (unfold MAX_SIZE; lia).
    apply (unserialize_blocks_spec _ _ 0 [] v s); lia.
  - intros v [Hv Hl]. rewrite length_app, Nat2Z.inj_add, CompactSize_size by lia. done.
  - intros v [Hv Hl]. apply all_bytes_app. split; [apply CompactSize_bytes|done].
Qed.

Instance ser_string_lawful : Lawful ser_string (sized is_byte).
Proof.
  split; cbn [Serialize Unserialize GetSerializeSize ser_string]; unfold sized, MAX_SIZE.
  - intros v s [Hv Hl]. rewrite <- app_assoc, CompactSize_roundtrip by (unfold MAX_SIZE; lia).
    destruct v as [|b v]; [done|]. rewrite (proj2 (Z.eqb_neq _ 0)) by (cbn [length]; lia). cbn [negb].
    apply read_app. lia.
  - intros v [Hv Hl]. rewrite length_app, Nat2Z.inj_add, CompactSize_size by lia. done.
  - intros v [Hv Hl]. apply all_bytes_app. split; [apply CompactSize_bytes|done].
Qed.

Section LawfulContainers.
Context {A B C D : Type} (ca : codec A) (cb : codec B) (cc : codec C) (cd : codec D).
Context {VA : A -> Prop} {VB : B -> Prop} {VC : C -> Prop} {VD : D -> Prop}.
Context {LA : Lawful ca VA} {LB : Lawful cb VB} {LC : Lawful cc VC} {LD : Lawful cd VD}.

Lemma unserialize_items_spec v s : Forall VA v ->
  unserialize_items ca (length v) (concat (map (Serialize ca) v) ++ s) = Some (v, s).
Proof.
  induction 1 as [|x v Hx Hv IH]; [done|]. cbn [length map concat unserialize_items].
  by rewrite <- app_assoc, ser_roundtrip, IH by done.
Qed.

Lemma foldl_size k v : Forall VA v -> foldl (fun n x => u32 (n + GetSerializeSize ca x)) (u32 k) v
  = u32 (k + Z.of_nat (length (concat (map (Serialize ca) v)))).
Proof.
  intros Hv. revert k. induction Hv as [|x v Hx Hv IH]; intros k; cbn [foldl map concat].
  - by rewrite Z.add_0_r.
  - rewrite u32_add_l, (ser_size (c := ca)), u32_add_r, IH, length_app by done. f_equal. lia.
Qed.

#[global] Instance ser_vector_lawful : Lawful (ser_vector ca) (sized VA).
Proof.
  split; cbn [Serialize Unserialize GetSerializeSize ser_vector]; unfold vector_size, sized, MAX_SIZE.
  - intros v s [Hv Hl]. rewrite <- app_assoc, CompactSize_roundtrip by (unfold MAX_SIZE; lia).
    rewrite Nat2Z.id. by apply unserialize_items_spec.
  - intros v [Hv Hl]. rewrite length_app, Nat2Z.inj_add, CompactSize_size by lia.
    rewrite <- foldl_size by done. rewrite (u32_small (GetSizeOfCompactSize _)); [done|].
    unfold GetSizeOfCompactSize. repeat case_if; lia.
  - intros v [Hv Hl]. apply all_bytes_app. split; [apply CompactSize_bytes|].
    clear Hl. induction Hv; cbn [map concat]; [constructor|]. apply all_bytes_app.
    split; [by apply ser_bytes|done].
Qed.

#[global] Instance ser_pair_lawful : Lawful (ser_pair ca cb) (fun p => VA p.1 /\ VB p.2).
Proof.
  split.
  - intros [a b] s [Ha Hb]. cbn. by rewrite <- app_assoc, !ser_roundtrip by done.
  - intros [a b] [Ha Hb]. cbn. rewrite length_app, !ser_size by done. by autorewrite with len.
  - intros [a b] [Ha Hb]. cbn. apply all_bytes_app. split; by apply ser_bytes.
Qed.

#[global] Instance ser_tuple3_lawful :
  Lawful (ser_tuple3 ca cb cc) (fun '(a, b, c) => VA a /\ VB b /\ VC c).
Proof.
  split; intros [[a b] c]; cbn.
  - intros s (Ha & Hb & Hc). by rewrite <- !app_assoc, !ser_roundtrip by done.
  - intros (Ha & Hb & Hc). rewrite !length_app, !ser_size by done. autorewrite with len. by repeat first [rewrite <- Z.add_assoc | rewrite u32_add_l].
  - intros (Ha & Hb & Hc). rewrite !all_bytes_app. split_and!; by apply ser_bytes.
Qed.

#[global] Instance ser_tuple4_lawful :
  Lawful (ser_tuple4 ca cb cc cd) (fun '(a, b, c, d) => VA a /\ VB b /\ VC c /\ VD d).
Proof.
  split; intros [[[a b] c] d]; cbn.
  - intros s (Ha & Hb & Hc & Hd). by rewrite <- !app_assoc, !ser_roundtrip by done.
  - intros (Ha & Hb & Hc & Hd). rewrite !length_app, !ser_size by done. autorewrite with len. by repeat first [rewrite <- Z.add_assoc | rewrite u32_add_l].
  - intros (Ha & Hb & Hc & Hd). rewrite !all_bytes_app. split_and!; by apply ser_bytes.
Qed.

Lemma ser_iso_lawful (to : D -> B) (from : B -> D) (V : D -> Prop) :
  (forall x, V x -> VB (to x) /\ from (to x) = x) -> Lawful (ser_iso cb to from) V.
Proof.
  intros H. split; cbn.
  - intros x s Hx. destruct (H x Hx) as [Hv He]. by rewrite ser_roundtrip, He by done.
  - intros x Hx. apply ser_size. by apply H.
  - intros x Hx. apply ser_bytes. by apply H.
Qed.
End LawfulContainers.

(** ** CDataStream

    A buffer with a read position.  The exception mask is the default one, so a
    failing read throws ([None]); an iterator is its offset in [vch]. *)

Module DataStream.

Record CDataStream := { vch : bytes; nReadPos : Z }.

Definition new_stream (v : bytes) : CDataStream := {| vch := v; nReadPos := 0 |}.
Definition vsize (s : CDataStream) : Z := Z.of_nat (length (vch s)).
Definition size (s : CDataStream) : Z := vsize s - nReadPos s.
Definition empty (s : CDataStream) : bool := vsize s =? nReadPos s.
Definition resize (n : Z) (c : Z) (s : CDataStream) : CDataStream :=
  let m := Z.to_nat (n + nReadPos s) in
  {| vch := take m (vch s) ++ replicate (m - length (vch s)) c; nReadPos := nReadPos s |}.
Definition clear (s : CDataStream) : CDataStream := new_stream [].

Definition read_op (nSize : Z) (s : CDataStream) : option (bytes * CDataStream) :=
  let nReadPosNext := u32 (nReadPos s + nSize) in
  let pch := take (Z.to_nat nSize) (drop (Z.to_nat (nReadPos s)) (vch s)) in
  if vsize s <=? nReadPosNext then
    if vsize s <? nReadPosNext then None
    else Some (pch, new_stream [])
  else Some (pch, {| vch := vch s; nReadPos := nReadPosNext |}).

Definition ignore (nSize : Z) (s : CDataStream) : option CDataStream :=
  let nReadPosNext := u32 (nReadPos s + nSize) in
  if vsize s <=? nReadPosNext then
    if vsize s <? nReadPosNext then None
    else Some (new_stream [])
  else Some {| vch := vch s; nReadPos := nReadPosNext |}.

Definition write (pch : bytes) (s : CDataStream) : CDataStream :=
  {| vch := vch s ++ pch; nReadPos := nReadPos s |}.

(** [vch.insert(it, first, last)] and [vch.erase(first, last)] *)
Definition vec_insert (v : bytes) (pos : Z) (x : bytes) : bytes := take (Z.to_nat pos) v ++ x ++ drop (Z.to_nat pos) v.
Definition vec_erase (v : bytes) (first last : Z) : bytes := take (Z.to_nat first) v ++ drop (Z.to_nat last) v.

Definition insert (pos : Z) (x : bytes) (s : CDataStream) : CDataStream :=
  let n := Z.of_nat (length x) in
  if (pos =? nReadPos s) && (n <=? nReadPos s) then
    let p := nReadPos s - n in
    {| vch := take (Z.to_nat p) (vch s) ++ x ++ drop (Z.to_nat (p + n)) (vch s); nReadPos := p |}
  else {| vch := vec_insert (vch s) pos x; nReadPos := nReadPos s |}.

Definition erase1 (pos : Z) (s : CDataStream) : CDataStream :=
  if pos =? nReadPos s then
    let p := u32 (nReadPos s + 1) in
    if vsize s <=? p then new_stream [] else {| vch := vch s; nReadPos := p |}
  else {| vch := vec_erase (vch s) pos (pos + 1); nReadPos := nReadPos s |}.

Definition erase (first last : Z) (s : CDataStream) : CDataStream :=
  if first =? nReadPos s then
    if last =? vsize s then new_stream [] else {| vch := vch s; nReadPos := u32 last |}
  else {| vch := vec_erase (vch s) first last; nReadPos := nReadPos s |}.

Definition Compact (s : CDataStream) : CDataStream :=
  {| vch := vec_erase (vch s) 0 (nReadPos s); nReadPos := 0 |}.

Definition Rewind (n : Z) (s : CDataStream) : bool * CDataStream :=
  if nReadPos s <? n then (false, s) else (true, {| vch := vch s; nReadPos := nReadPos s - n |}).

Definition append (b s : CDataStream) : CDataStream :=
  {| vch := vch s ++ drop (Z.to_nat (nReadPos b)) (vch b); nReadPos := nReadPos s |}.

(** [*this << obj] and [*this >> obj] *)
Definition shl {T} (c : codec T) (obj : T) (s : CDataStream) : CDataStream := write (Serialize c obj) s.

(** *** The abstract stream: the bytes from the read position on *)

Definition contents (s : CDataStream) : bytes := drop (Z.to_nat (nReadPos s)) (vch s).
Definition wf (s : CDataStream) : Prop := 0 <= nReadPos s <= vsize s /\ vsize s < 2 ^ 31.

Lemma read_op_refines nSize s : wf s -> 0 <= nSize < 2 ^ 31 ->
  match read (Z.to_nat nSize) (contents s) with
  | Some (b, r) => exists s', read_op nSize s = Some (b, s') /\ contents s' = r /\ wf s'
  | None => read_op nSize s = None
  end.
Proof.
  unfold wf, read, read_op, contents, vsize. intros [Hp Hs] Hn. rewrite length_drop, u32_small by lia.
  case_bool_decide as E.
  - destruct (Z.leb_spec (Z.of_nat (length (vch s))) (nReadPos s + nSize)).
    + rewrite (proj2 (Z.ltb_ge _ _)) by lia. eexists. split; [done|]. cbn. split; [|lia].
      symmetry. rewrite drop_drop. apply drop_ge. lia.
    + eexists. split; [done|]. cbn. split; [|lia]. rewrite drop_drop. f_equal. lia.
  - rewrite (proj2 (Z.leb_le _ _)), (proj2 (Z.ltb_lt _ _)) by lia. done.
Qed.

Lemma ignore_read nSize s : ignore nSize s = option_map snd (read_op nSize s).
Proof. unfold ignore, read_op. by repeat case_if. Qed.

Lemma insert_front x s : wf s -> Z.of_nat (length x) + vsize s < 2 ^ 31 ->
  contents (insert (nReadPos s) x s) = x ++ contents s /\ wf (insert (nReadPos s) x s).
Proof.
  unfold wf, vsize. intros [Hp Hs] Hl. unfold insert. rewrite Z.eqb_refl. cbn [andb]. case_if; b2p; unfold contents, vec_insert, vsize; cbn.
  - rewrite drop_app_length' by (rewrite length_take; lia). split; [|rewrite !length_app, length_take, length_drop; lia].
    do 2 f_equal. lia.
  - rewrite drop_app_length' by (rewrite length_take; lia). split; [done|].
    rewrite !length_app, length_take, length_drop; lia.
Qed.

Lemma erase_front last s : wf s -> nReadPos s <= last <= vsize s ->
  contents (erase (nReadPos s) last s) = drop (Z.to_nat (last - nReadPos s)) (contents s) /\
  wf (erase (nReadPos s) last s).
Proof.
  unfold wf, vsize. intros [Hp Hs] Hl. unfold erase, vsize. rewrite Z.eqb_refl. case_if; b2p; unfold contents; cbn; rewrite drop_drop.
  - split; [|lia]. symmetry. apply drop_ge. lia.
  - rewrite u32_small by lia. split; [f_equal; lia|lia].
Qed.

End DataStream.

Import DataStream.

(** ** Properties *)

(** The variable-length integer format is a bijection, as its comment claims: a [w]-bit number is
    written as digits whose documented value is the number, the [tmp] buffer of [(w+6)/7] bytes is never
    overrun, reading gives the number back and leaves the rest of the stream; and every digit string
    (high bit set on all bytes but the last) whose value fits is the encoding of its value, so there is
    exactly one encoding. *)
Theorem VarInt_bijective w (Hw : 8 <= w <= 64) :
  (forall n s, 0 <= n < 2 ^ w ->
     ReadVarInt w (WriteVarInt w n ++ s) = Some (n, s) /\ varint_value (WriteVarInt w n) = n /\
     Z.of_nat (length (WriteVarInt w n)) = GetSizeOfVarInt w n /\ GetSizeOfVarInt w n <= (w + 6) / 7) /\
  (forall a b, Forall continues a -> 0 <= b < 128 -> varint_value (a ++ [b]) < 2 ^ w ->
     WriteVarInt w (varint_value (a ++ [b])) = a ++ [b]).
Proof.
  split.
  - intros n s Hn. destruct (WriteVarInt_ok w ltac:(lia) n Hn) as (b & r & E & Hb & Hr & Hv).
    assert (Hlen : Z.of_nat (length (WriteVarInt w n)) = GetSizeOfVarInt w n).
    { unfold GetSizeOfVarInt, WriteVarInt. rewrite (GetSizeOfVarInt_spec w _ n 0), length_rev. lia. }
    rewrite <- Hlen, E. split_and!.
    + rewrite <- Hv. apply ReadVarInt_digits; [lia|done|done|lia].
    + unfold varint_value. by rewrite rev_involutive.
    + done.
    + rewrite length_rev. apply tmp_length with (len := 0%nat); [lia|by split|lia].
  - intros a b Ha Hb Hv. unfold varint_value in *. rewrite rev_app_distr in *. cbn [rev app] in *.
    change (tmp_value (b :: rev a) < 2 ^ w) in Hv. unfold WriteVarInt. fold (tmp_value (b :: rev a)).
    assert (Ht : tmp_ok 0 (b :: rev a)).
    { split; [done|]. apply Forall_rev. done. }
    rewrite (varint_tmp_unique w ltac:(lia) _ (b :: rev a) 0); [by cbn [rev]; rewrite rev_involutive|done| |done].
    apply tmp_length with (w := w) in Ht; [|lia|done]. apply Nat2Z.inj_le. rewrite Z2Nat.id by lia. dlia.
Qed.

(** [ReadCompactSize] reads back every size up to [MAX_SIZE] that [WriteCompactSize] writes, in the
    number of bytes [GetSizeOfCompactSize] announces, and never returns a size above [MAX_SIZE]: a length
    prefix cannot make a reader allocate more. *)
Theorem CompactSize_safe :
  (forall n s, 0 <= n <= MAX_SIZE -> ReadCompactSize (WriteCompactSize n ++ s) = Some (n, s)) /\
  (forall n, 0 <= n < 2 ^ 64 -> Z.of_nat (length (WriteCompactSize n)) = GetSizeOfCompactSize n) /\
  (forall s n r, all_bytes s -> ReadCompactSize s = Some (n, r) -> 0 <= n <= MAX_SIZE /\ exists p, s = p ++ r /\ p <> []).
Proof.
  split_and!; [exact CompactSize_roundtrip|exact CompactSize_size|].
  intros s n r Hs. unfold ReadCompactSize. destruct (read 1 s) as [[b s1]|] eqn:E1; [|done].
  apply read_Some in E1 as [-> Hb]. apply all_bytes_app in Hs as [Hb' Hs1]. pose proof (le_val_bound b Hb').
  case_if.
  - case_if; [done|]. intros [= <- <-]. b2p. split; [lia|]. exists b. split; [done|]. by destruct b.
  - destruct (read _ s1) as [[x s2]|] eqn:E2; [|done]. apply read_Some in E2 as [-> Hx].
    apply all_bytes_app in Hs1 as [Hx' _]. pose proof (le_val_bound x Hx').
    case_if; [done|]. intros [= <- <-]. b2p. split; [lia|]. exists (b ++ x). rewrite app_assoc. split; [done|].
    by destruct b.
Qed.

(** [CDataStream] implements a byte stream: with the bytes from the read position on as its abstract
    contents, [write] appends, [read] and [ignore] take the first [nSize] bytes and fail exactly when
    fewer are left, inserting and erasing at the front act on the contents, [Compact] changes nothing
    observable, a successful [Rewind] undoes a read that did not empty the buffer, and the position stays
    inside the buffer. *)
Theorem CDataStream_refines s (Hs : wf s) :
  (forall pch, contents (write pch s) = contents s ++ pch) /\
  (forall n, 0 <= n < 2 ^ 31 ->
     match read (Z.to_nat n) (contents s) with
     | Some (b, r) => exists s', read_op n s = Some (b, s') /\ ignore n s = Some s' /\ contents s' = r /\ wf s'
     | None => read_op n s = None /\ ignore n s = None
     end) /\
  (forall x, Z.of_nat (length x) + vsize s < 2 ^ 31 ->
     contents (insert (nReadPos s) x s) = x ++ contents s /\ wf (insert (nReadPos s) x s)) /\
  (forall last, nReadPos s <= last <= vsize s ->
     contents (erase (nReadPos s) last s) = drop (Z.to_nat (last - nReadPos s)) (contents s) /\
     wf (erase (nReadPos s) last s)) /\
  contents (Compact s) = contents s /\ wf (Compact s) /\
  (forall n b s', 0 <= n < size s -> read_op n s = Some (b, s') -> Rewind n s' = (true, s)).
Proof.
  destruct Hs as [Hp Hl]. repeat match goal with |- _ /\ _ => split end.
  - intros pch. unfold contents, write; cbn. apply drop_app_le. unfold vsize in Hp. lia.
  - intros n Hn. pose proof (read_op_refines n s (conj Hp Hl) Hn) as H. rewrite ignore_read.
    destruct (read _ _) as [[b r]|]; [|by rewrite H]. destruct H as (s' & -> & ? & ?). by exists s'.
  - intros. by apply insert_front.
  - intros. by apply erase_front.
  - done.
  - unfold wf, vsize, Compact, vec_erase in *; cbn [vch nReadPos]. rewrite length_app, length_take, length_drop. lia.
  - unfold size. intros n b s' Hn. unfold read_op. rewrite u32_small by lia.
    rewrite (proj2 (Z.leb_gt _ _)) by lia. intros [= <- <-]. unfold Rewind; cbn.
    rewrite (proj2 (Z.ltb_ge _ _)) by lia. destruct s as [v p]; cbn. do 2 f_equal. lia.
Qed.

Lemma VarInt_bijective_witness :
  ReadVarInt 64 (WriteVarInt 64 (2 ^ 32) ++ [7]) = Some (2 ^ 32, [7]) /\
  WriteVarInt 64 (2 ^ 32) = [0x8E; 0xFE; 0xFE; 0xFF; 0x00].
Proof.
  split; [|vm_compute; reflexivity].
  exact (proj1 (proj1 (VarInt_bijective 64 ltac:(lia)) (2 ^ 32) [7] ltac:(lia))).
Defined.

(** the encodings of 16511 and 65535 *)
Lemma VarInt_16511 : WriteVarInt 32 16511 = [0xFF; 0x7F] /\ WriteVarInt 32 65535 = [0x82; 0xFE; 0x7F].
Proof. split; vm_compute; reflexivity. Qed.

Lemma CDataStream_refines_witness :
  contents (write [4; 5] {| vch := [1; 2; 3]; nReadPos := 1 |}) = [2; 3; 4; 5].
Proof.
  exact (proj1 (CDataStream_refines {| vch := [1; 2; 3]; nReadPos := 1 |} ltac:(unfold wf, vsize; simpl; lia)) [4; 5]).
Defined.
