(* ===== verification/Crypto.v ===== *)
(** * Hashes and elliptic-curve keys (OpenSSL, hash.h, key.h, key.cpp)

    The digest and ECDSA functions of OpenSSL are parameters ([Crypto]) with
    their documented behaviour as laws ([CryptoLaws]); [ToyCrypto] is an instance
    for witnesses.  On top of them, the hash combinators of hash.h and the public
    key operations of key.h and key.cpp.  A [uint256] or [uint160] is the number
    its bytes give in little-endian order. *)

From S2P Require Import Prelude Serialize.
Local Open Scope Z_scope.

Class Crypto := {
  SHA256 : bytes -> bytes;
  RIPEMD160 : bytes -> bytes;
  SHA1 : bytes -> bytes;
  (** points of secp256k1 and their octet encoding, compressed or not *)
  EC_POINT : Type;
  o2i_ECPublicKey : bytes -> option EC_POINT;
  i2o_ECPublicKey : EC_POINT -> bool -> bytes;
  (** the public point of a secret *)
  EC_POINT_mul : Z -> EC_POINT;
  ECDSA_sign : bytes -> Z -> option bytes;
  ECDSA_verify : bytes -> bytes -> EC_POINT -> bool;
}.

Class CryptoLaws (K : Crypto) : Prop := {
  SHA256_len : forall l, length (SHA256 l) = 32%nat;
  SHA256_bytes : forall l, all_bytes (SHA256 l);
  RIPEMD160_len : forall l, length (RIPEMD160 l) = 20%nat;
  RIPEMD160_bytes : forall l, all_bytes (RIPEMD160 l);
  SHA1_len : forall l, length (SHA1 l) = 20%nat;
  SHA1_bytes : forall l, all_bytes (SHA1 l);
  i2o_bytes : forall p c, all_bytes (i2o_ECPublicKey p c);
  i2o_len : forall p c, length (i2o_ECPublicKey p c) = if c then 33%nat else 65%nat;
  o2i_i2o : forall p c, o2i_ECPublicKey (i2o_ECPublicKey p c) = Some p;
  (** an uncompressed encoding that is accepted is the encoding of its point *)
  i2o_o2i : forall b p, o2i_ECPublicKey b = Some p -> length b = 65%nat -> hd 0 b = 4 -> all_bytes b ->
    i2o_ECPublicKey p false = b;
  (** the uncompressed encoding is 4, x, y; the compressed one 2 or 3 by the parity of y, then x *)
  i2o_head : forall p, hd 0 (i2o_ECPublicKey p false) = 4;
  i2o_forms : forall p, i2o_ECPublicKey p true =
    (2 + nth 64 (i2o_ECPublicKey p false) 0 mod 2) :: take 32 (drop 1 (i2o_ECPublicKey p false));
  ECDSA_correct : forall hash secret sig, ECDSA_sign hash secret = Some sig ->
    ECDSA_verify hash sig (EC_POINT_mul secret) = true;
}.

Section Hashes.
Context {K : Crypto}.

Definition Hash_bytes (l : bytes) : bytes := SHA256 (SHA256 l).
Definition Hash (l : bytes) : Z := le_val (Hash_bytes l).
Definition Hash160 (l : bytes) : Z := le_val (RIPEMD160 (SHA256 l)).
Definition SerializeHash {T} (c : codec T) (obj : T) : Z := Hash (Serialize c obj).

Definition uint160_bytes (h : Z) : bytes := le_bytes 20 h.
Definition uint256_bytes (h : Z) : bytes := le_bytes 32 h.
(** [uint160(vch)]: zero unless the size is right *)
Definition uint160_of (vch : bytes) : Z := if bool_decide (length vch = 20)%nat then le_val vch else 0.

(** ** Public keys *)

Definition GetID (vchPubKey : bytes) : Z := Hash160 vchPubKey.
Definition IsValid (vchPubKey : bytes) : bool :=
  bool_decide (length vchPubKey = 33)%nat || bool_decide (length vchPubKey = 65)%nat.
Definition IsCompressed (vchPubKey : bytes) : bool := bool_decide (length vchPubKey = 33)%nat.

(** a [CKey] holding a public key: its point and the conversion form *)
Record CKey := { key_point : EC_POINT; key_form : bool }.

Definition SetPubKey (vchPubKey : bytes) : option CKey :=
  let? p := o2i_ECPublicKey vchPubKey in
  Some {| key_point := p; key_form := bool_decide (length vchPubKey = 33)%nat |}.
Definition SetCompressedPubKey (k : CKey) (fCompressed : bool) : CKey :=
  {| key_point := key_point k; key_form := fCompressed |}.
Definition GetPubKey (k : CKey) : bytes := i2o_ECPublicKey (key_point k) (key_form k).
Definition Verify (k : CKey) (hash : Z) (vchSig : bytes) : bool :=
  ECDSA_verify (uint256_bytes hash) vchSig (key_point k).

(** a key with its secret *)
Record CSecretKey := { secret : Z; sec_compressed : bool }.
Definition secret_pubkey (k : CSecretKey) : bytes := i2o_ECPublicKey (EC_POINT_mul (secret k)) (sec_compressed k).
Definition Sign (k : CSecretKey) (hash : Z) : option bytes := ECDSA_sign (uint256_bytes hash) (secret k).

End Hashes.

Section HashLemmas.
Context {K : Crypto} {KL : CryptoLaws K}.

Lemma Hash_range l : 0 <= Hash l < 2 ^ 256.
Proof.
  unfold Hash, Hash_bytes. pose proof (le_val_bound _ (SHA256_bytes (SHA256 l))) as H.
  rewrite SHA256_len in H. exact H.
Qed.

Lemma Hash160_range l : 0 <= Hash160 l < 2 ^ 160.
Proof.
  unfold Hash160. pose proof (le_val_bound _ (RIPEMD160_bytes (SHA256 l))) as H.
  rewrite RIPEMD160_len in H. exact H.
Qed.

Lemma Hash160_uint160 l : uint160_bytes (Hash160 l) = RIPEMD160 (SHA256 l).
Proof.
  unfold uint160_bytes, Hash160. rewrite <- (RIPEMD160_len (SHA256 l)). apply le_bytes_val, RIPEMD160_bytes.
Qed.

Lemma Hash_uint256 l : uint256_bytes (Hash l) = Hash_bytes l.
Proof.
  unfold uint256_bytes, Hash. rewrite <- (SHA256_len (SHA256 l)) at 1. apply le_bytes_val, SHA256_bytes.
Qed.

Lemma uint160_of_bytes h : 0 <= h < 2 ^ 160 -> uint160_of (uint160_bytes h) = h.
Proof.
  intros. unfold uint160_of, uint160_bytes. rewrite bool_decide_eq_true_2 by apply length_le_bytes.
  by apply le_val_le_bytes.
Qed.

End HashLemmas.

(** ** An instance

    Not a secure one: digests keep the low bytes, a point is a number below
    [2^256], its own secret, and a signature names the point. *)

Definition toy_point : Type := dsig (fun p : Z => 0 <= p < 2 ^ 256).
Definition toy_reduce (z : Z) : toy_point := dexist (z mod 2 ^ 256) (Z.mod_pos_bound z (2 ^ 256) eq_refl).

Definition toy_i2o (p : Z) (c : bool) : bytes :=
  let x := le_bytes 32 p in
  if c then (2 + (p / 256 ^ 31) mod 256 mod 2) :: x else 4 :: x ++ x.
Definition toy_o2i (b : bytes) : option toy_point :=
  match b with
  | h :: r =>
    let p := toy_reduce (le_val (take 32 r)) in
    if bool_decide (b = toy_i2o (`p) true) || bool_decide (b = toy_i2o (`p) false) then Some p else None
  | [] => None
  end.
(** a DER signature whose S is [1 + (p + hash) mod 100] *)
Definition toy_sig (hash : bytes) (p : toy_point) : bytes :=
  [0x30; 6; 2; 1; 1; 2; 1; 1 + (`p + le_val hash) mod 100].

#[export] Instance ToyCrypto : Crypto := {|
  SHA256 l := le_bytes 32 (le_val l + 1);
  RIPEMD160 l := le_bytes 20 (le_val l + 2);
  SHA1 l := le_bytes 20 (le_val l + 3);
  EC_POINT := toy_point;
  o2i_ECPublicKey := toy_o2i;
  i2o_ECPublicKey p c := toy_i2o (`p) c;
  EC_POINT_mul := toy_reduce;
  ECDSA_sign hash s := Some (toy_sig hash (toy_reduce s));
  ECDSA_verify hash sig p := bool_decide (sig = toy_sig hash p);
|}.

Lemma toy_i2o_len p c : length (toy_i2o p c) = if c then 33%nat else 65%nat.
Proof. destruct c; cbn [toy_i2o length]; rewrite ?length_app, !length_le_bytes; done. Qed.

Lemma toy_o2i_i2o (p : toy_point) c : toy_o2i (toy_i2o (`p) c) = Some p.
Proof.
  destruct p as [z Hz]. apply bool_decide_unpack in Hz as Hr.
  assert (E : toy_reduce (le_val (le_bytes 32 z)) = z ↾ Hz).
  { apply dsig_eq. unfold toy_reduce, dexist. cbn [proj1_sig]. rewrite le_val_le_bytes by (simpl; lia). apply Z.mod_small. lia. }
  unfold toy_o2i. destruct c; cbn [toy_i2o proj1_sig].
  - rewrite take_ge by (rewrite length_le_bytes; lia). rewrite E. cbn [proj1_sig].
    by rewrite bool_decide_eq_true_2.
  - rewrite take_app_length' by by rewrite length_le_bytes. rewrite E. cbn [proj1_sig].
    by rewrite (bool_decide_eq_true_2 (_ = toy_i2o z false)), orb_true_r by done.
Qed.

#[export] Instance ToyCrypto_laws : CryptoLaws ToyCrypto.
Proof.
  split; cbn [SHA256 RIPEMD160 SHA1 i2o_ECPublicKey o2i_ECPublicKey ECDSA_sign ECDSA_verify EC_POINT_mul ToyCrypto];
    try (intros; first [apply length_le_bytes | apply le_bytes_all]).
  - intros [z Hz] []; cbn [toy_i2o proj1_sig]; constructor; try apply all_bytes_app; try split;
      try apply le_bytes_all; unfold is_byte; try lia;
      pose proof (Z.mod_pos_bound ((z / 256 ^ 31) mod 256) 2); lia.
  - intros [z Hz] c. apply toy_i2o_len.
  - apply toy_o2i_i2o.
  - intros b p Hb Hl Hh Ha. unfold toy_o2i in Hb. destruct b as [|h r]; [done|].
    case_if_in Hb; [|done]. injection Hb as <-. b2p. destruct E as [E|E]; b2p; [|done].
    rewrite E, toy_i2o_len in Hl. done.
  - done.
  - intros [z Hz]. cbn [toy_i2o proj1_sig]. change (nth 64 (4 :: le_bytes 32 z ++ le_bytes 32 z) 0)
      with ((z / 256 / 256 / 256 / 256 / 256 / 256 / 256 / 256 / 256 / 256 / 256 / 256 / 256 / 256 / 256 / 256 /
             256 / 256 / 256 / 256 / 256 / 256 / 256 / 256 / 256 / 256 / 256 / 256 / 256 / 256 / 256) mod 256).
    change (drop 1 (4 :: ?l)) with l. rewrite take_app_length' by by rewrite length_le_bytes.
    do 4 f_equal. rewrite !Z.div_div by lia. done.
  - intros hash s sig [= <-]. by rewrite bool_decide_eq_true_2.
Qed.
