(* ===== verification/Script.v ===== *)
(** * Scripts (script.h)

    [CScript]: the opcodes, the encoding and decoding of instructions, and the
    operations on scripts that only look at their instructions.  A script is its
    byte vector; an iterator into it is the suffix it points at. *)

From Stdlib Require Import String.
From S2P Require Import Prelude OpenSSL BigNum Serialize Crypto.
Local Open Scope Z_scope.

Definition MAX_SCRIPT_ELEMENT_SIZE : Z := 520.

(** ** Opcodes *)

Definition OP_0 : Z := 0x00.
Definition OP_FALSE : Z := OP_0.
Definition OP_PUSHDATA1 : Z := 0x4c.
Definition OP_PUSHDATA2 : Z := 0x4d.
Definition OP_PUSHDATA4 : Z := 0x4e.
Definition OP_1NEGATE : Z := 0x4f.
Definition OP_RESERVED : Z := 0x50.
Definition OP_1 : Z := 0x51.
Definition OP_TRUE : Z := OP_1.
Definition OP_2 : Z := 0x52.
Definition OP_3 : Z := 0x53.
Definition OP_4 : Z := 0x54.
Definition OP_5 : Z := 0x55.
Definition OP_6 : Z := 0x56.
Definition OP_7 : Z := 0x57.
Definition OP_8 : Z := 0x58.
Definition OP_9 : Z := 0x59.
Definition OP_10 : Z := 0x5a.
Definition OP_11 : Z := 0x5b.
Definition OP_12 : Z := 0x5c.
Definition OP_13 : Z := 0x5d.
Definition OP_14 : Z := 0x5e.
Definition OP_15 : Z := 0x5f.
Definition OP_16 : Z := 0x60.
Definition OP_NOP : Z := 0x61.
Definition OP_VER : Z := 0x62.
Definition OP_IF : Z := 0x63.
Definition OP_NOTIF : Z := 0x64.
Definition OP_VERIF : Z := 0x65.
Definition OP_VERNOTIF : Z := 0x66.
Definition OP_ELSE : Z := 0x67.
Definition OP_ENDIF : Z := 0x68.
Definition OP_VERIFY : Z := 0x69.
Definition OP_RETURN : Z := 0x6a.
Definition OP_TOALTSTACK : Z := 0x6b.
Definition OP_FROMALTSTACK : Z := 0x6c.
Definition OP_2DROP : Z := 0x6d.
Definition OP_2DUP : Z := 0x6e.
Definition OP_3DUP : Z := 0x6f.
Definition OP_2OVER : Z := 0x70.
Definition OP_2ROT : Z := 0x71.
Definition OP_2SWAP : Z := 0x72.
Definition OP_IFDUP : Z := 0x73.
Definition OP_DEPTH : Z := 0x74.
Definition OP_DROP : Z := 0x75.
Definition OP_DUP : Z := 0x76.
Definition OP_NIP : Z := 0x77.
Definition OP_OVER : Z := 0x78.
Definition OP_PICK : Z := 0x79.
Definition OP_ROLL : Z := 0x7a.
Definition OP_ROT : Z := 0x7b.
Definition OP_SWAP : Z := 0x7c.
Definition OP_TUCK : Z := 0x7d.
Definition OP_CAT : Z := 0x7e.
Definition OP_SUBSTR : Z := 0x7f.
Definition OP_LEFT : Z := 0x80.
Definition OP_RIGHT : Z := 0x81.
Definition OP_SIZE : Z := 0x82.
Definition OP_INVERT : Z := 0x83.
Definition OP_AND : Z := 0x84.
Definition OP_OR : Z := 0x85.
Definition OP_XOR : Z := 0x86.
Definition OP_EQUAL : Z := 0x87.
Definition OP_EQUALVERIFY : Z := 0x88.
Definition OP_RESERVED1 : Z := 0x89.
Definition OP_RESERVED2 : Z := 0x8a.
Definition OP_1ADD : Z := 0x8b.
Definition OP_1SUB : Z := 0x8c.
Definition OP_2MUL : Z := 0x8d.
Definition OP_2DIV : Z := 0x8e.
Definition OP_NEGATE : Z := 0x8f.
Definition OP_ABS : Z := 0x90.
Definition OP_NOT : Z := 0x91.
Definition OP_0NOTEQUAL : Z := 0x92.
Definition OP_ADD : Z := 0x93.
Definition OP_SUB : Z := 0x94.
Definition OP_MUL : Z := 0x95.
Definition OP_DIV : Z := 0x96.
Definition OP_MOD : Z := 0x97.
Definition OP_LSHIFT : Z := 0x98.
Definition OP_RSHIFT : Z := 0x99.
Definition OP_BOOLAND : Z := 0x9a.
Definition OP_BOOLOR : Z := 0x9b.
Definition OP_NUMEQUAL : Z := 0x9c.
Definition OP_NUMEQUALVERIFY : Z := 0x9d.
Definition OP_NUMNOTEQUAL : Z := 0x9e.
Definition OP_LESSTHAN : Z := 0x9f.
Definition OP_GREATERTHAN : Z := 0xa0.
Definition OP_LESSTHANOREQUAL : Z := 0xa1.
Definition OP_GREATERTHANOREQUAL : Z := 0xa2.
Definition OP_MIN : Z := 0xa3.
Definition OP_MAX : Z := 0xa4.
Definition OP_WITHIN : Z := 0xa5.
Definition OP_RIPEMD160 : Z := 0xa6.
Definition OP_SHA1 : Z := 0xa7.
Definition OP_SHA256 : Z := 0xa8.
Definition OP_HASH160 : Z := 0xa9.
Definition OP_HASH256 : Z := 0xaa.
Definition OP_CODESEPARATOR : Z := 0xab.
Definition OP_CHECKSIG : Z := 0xac.
Definition OP_CHECKSIGVERIFY : Z := 0xad.
Definition OP_CHECKMULTISIG : Z := 0xae.
Definition OP_CHECKMULTISIGVERIFY : Z := 0xaf.
Definition OP_NOP1 : Z := 0xb0.
Definition OP_NOP2 : Z := 0xb1.
Definition OP_NOP3 : Z := 0xb2.
Definition OP_NOP4 : Z := 0xb3.
Definition OP_NOP5 : Z := 0xb4.
Definition OP_NOP6 : Z := 0xb5.
Definition OP_NOP7 : Z := 0xb6.
Definition OP_NOP8 : Z := 0xb7.
Definition OP_NOP9 : Z := 0xb8.
Definition OP_NOP10 : Z := 0xb9.
Definition OP_SMALLINTEGER : Z := 0xfa.
Definition OP_PUBKEYS : Z := 0xfb.
Definition OP_PUBKEYHASH : Z := 0xfd.
Definition OP_PUBKEY : Z := 0xfe.
Definition OP_INVALIDOPCODE : Z := 0xff.

Definition op_names : list (Z * string) := [
  (OP_0, "0"%string);
  (OP_PUSHDATA1, "OP_PUSHDATA1"%string);
  (OP_PUSHDATA2, "OP_PUSHDATA2"%string);
  (OP_PUSHDATA4, "OP_PUSHDATA4"%string);
  (OP_1NEGATE, "-1"%string);
  (OP_RESERVED, "OP_RESERVED"%string);
  (OP_1, "1"%string);
  (OP_2, "2"%string);
  (OP_3, "3"%string);
  (OP_4, "4"%string);
  (OP_5, "5"%string);
  (OP_6, "6"%string);
  (OP_7, "7"%string);
  (OP_8, "8"%string);
  (OP_9, "9"%string);
  (OP_10, "10"%string);
  (OP_11, "11"%string);
  (OP_12, "12"%string);
  (OP_13, "13"%string);
  (OP_14, "14"%string);
  (OP_15, "15"%string);
  (OP_16, "16"%string);
  (OP_NOP, "OP_NOP"%string);
  (OP_VER, "OP_VER"%string);
  (OP_IF, "OP_IF"%string);
  (OP_NOTIF, "OP_NOTIF"%string);
  (OP_VERIF, "OP_VERIF"%string);
  (OP_VERNOTIF, "OP_VERNOTIF"%string);
  (OP_ELSE, "OP_ELSE"%string);
  (OP_ENDIF, "OP_ENDIF"%string);
  (OP_VERIFY, "OP_VERIFY"%string);
  (OP_RETURN, "OP_RETURN"%string);
  (OP_TOALTSTACK, "OP_TOALTSTACK"%string);
  (OP_FROMALTSTACK, "OP_FROMALTSTACK"%string);
  (OP_2DROP, "OP_2DROP"%string);
  (OP_2DUP, "OP_2DUP"%string);
  (OP_3DUP, "OP_3DUP"%string);
  (OP_2OVER, "OP_2OVER"%string);
  (OP_2ROT, "OP_2ROT"%string);
  (OP_2SWAP, "OP_2SWAP"%string);
  (OP_IFDUP, "OP_IFDUP"%string);
  (OP_DEPTH, "OP_DEPTH"%string);
  (OP_DROP, "OP_DROP"%string);
  (OP_DUP, "OP_DUP"%string);
  (OP_NIP, "OP_NIP"%string);
  (OP_OVER, "OP_OVER"%string);
  (OP_PICK, "OP_PICK"%string);
  (OP_ROLL, "OP_ROLL"%string);
  (OP_ROT, "OP_ROT"%string);
  (OP_SWAP, "OP_SWAP"%string);
  (OP_TUCK, "OP_TUCK"%string);
  (OP_CAT, "OP_CAT"%string);
  (OP_SUBSTR, "OP_SUBSTR"%string);
  (OP_LEFT, "OP_LEFT"%string);
  (OP_RIGHT, "OP_RIGHT"%string);
  (OP_SIZE, "OP_SIZE"%string);
  (OP_INVERT, "OP_INVERT"%string);
  (OP_AND, "OP_AND"%string);
  (OP_OR, "OP_OR"%string);
  (OP_XOR, "OP_XOR"%string);
  (OP_EQUAL, "OP_EQUAL"%string);
  (OP_EQUALVERIFY, "OP_EQUALVERIFY"%string);
  (OP_RESERVED1, "OP_RESERVED1"%string);
  (OP_RESERVED2, "OP_RESERVED2"%string);
  (OP_1ADD, "OP_1ADD"%string);
  (OP_1SUB, "OP_1SUB"%string);
  (OP_2MUL, "OP_2MUL"%string);
  (OP_2DIV, "OP_2DIV"%string);
  (OP_NEGATE, "OP_NEGATE"%string);
  (OP_ABS, "OP_ABS"%string);
  (OP_NOT, "OP_NOT"%string);
  (OP_0NOTEQUAL, "OP_0NOTEQUAL"%string);
  (OP_ADD, "OP_ADD"%string);
  (OP_SUB, "OP_SUB"%string);
  (OP_MUL, "OP_MUL"%string);
  (OP_DIV, "OP_DIV"%string);
  (OP_MOD, "OP_MOD"%string);
  (OP_LSHIFT, "OP_LSHIFT"%string);
  (OP_RSHIFT, "OP_RSHIFT"%string);
  (OP_BOOLAND, "OP_BOOLAND"%string);
  (OP_BOOLOR, "OP_BOOLOR"%string);
  (OP_NUMEQUAL, "OP_NUMEQUAL"%string);
  (OP_NUMEQUALVERIFY, "OP_NUMEQUALVERIFY"%string);
  (OP_NUMNOTEQUAL, "OP_NUMNOTEQUAL"%string);
  (OP_LESSTHAN, "OP_LESSTHAN"%string);
  (OP_GREATERTHAN, "OP_GREATERTHAN"%string);
  (OP_LESSTHANOREQUAL, "OP_LESSTHANOREQUAL"%string);
  (OP_GREATERTHANOREQUAL, "OP_GREATERTHANOREQUAL"%string);
  (OP_MIN, "OP_MIN"%string);
  (OP_MAX, "OP_MAX"%string);
  (OP_WITHIN, "OP_WITHIN"%string);
  (OP_RIPEMD160, "OP_RIPEMD160"%string);
  (OP_SHA1, "OP_SHA1"%string);
  (OP_SHA256, "OP_SHA256"%string);
  (OP_HASH160, "OP_HASH160"%string);
  (OP_HASH256, "OP_HASH256"%string);
  (OP_CODESEPARATOR, "OP_CODESEPARATOR"%string);
  (OP_CHECKSIG, "OP_CHECKSIG"%string);
  (OP_CHECKSIGVERIFY, "OP_CHECKSIGVERIFY"%string);
  (OP_CHECKMULTISIG, "OP_CHECKMULTISIG"%string);
  (OP_CHECKMULTISIGVERIFY, "OP_CHECKMULTISIGVERIFY"%string);
  (OP_NOP1, "OP_NOP1"%string);
  (OP_NOP2, "OP_NOP2"%string);
  (OP_NOP3, "OP_NOP3"%string);
  (OP_NOP4, "OP_NOP4"%string);
  (OP_NOP5, "OP_NOP5"%string);
  (OP_NOP6, "OP_NOP6"%string);
  (OP_NOP7, "OP_NOP7"%string);
  (OP_NOP8, "OP_NOP8"%string);
  (OP_NOP9, "OP_NOP9"%string);
  (OP_NOP10, "OP_NOP10"%string);
  (OP_PUBKEYHASH, "OP_PUBKEYHASH"%string);
  (OP_PUBKEY, "OP_PUBKEY"%string);
  (OP_INVALIDOPCODE, "OP_INVALIDOPCODE"%string)].

Fixpoint assoc (k : Z) (l : list (Z * string)) : option string :=
  match l with
  | [] => None
  | (k', v) :: r => if k =? k' then Some v else assoc k r
  end.
Definition GetOpName (opcode : Z) : string := default "OP_UNKNOWN"%string (assoc opcode op_names).

(** ** Building scripts *)

Section Build.
Context {B : OpenSSLBN}.

(** [*this << b] for a byte vector *)
Definition push_data (b : bytes) : bytes :=
  let size := Z.of_nat (length b) in
  (if size <? OP_PUSHDATA1 then [u8 size]
   else if size <=? 0xff then [OP_PUSHDATA1; u8 size]
   else if size <=? 0xffff then OP_PUSHDATA2 :: le_bytes 2 size
   else OP_PUSHDATA4 :: le_bytes 4 size) ++ b.

Definition push_int64 (n : Z) : bytes :=
  if (n =? -1) || ((1 <=? n) && (n <=? 16)) then [u8 (n + (OP_1 - 1))]
  else push_data (getvch (of_int64 n)).
Definition push_uint64 (n : Z) : bytes :=
  if (1 <=? n) && (n <=? 16) then [u8 (n + (OP_1 - 1))]
  else push_data (getvch (setuint64 0 n)).

(** [*this << opcode]; [None]: the opcode is out of range *)
Definition push_opcode (opcode : Z) : option bytes :=
  if (opcode <? 0) || (0xff <? opcode) then None else Some [opcode].

Definition push_uint160 (b : Z) : bytes := 20 :: uint160_bytes b.
Definition push_uint256 (b : Z) : bytes := 32 :: uint256_bytes b.
Definition push_bignum (b : Z) : bytes := push_data (getvch b).

End Build.

(** ** Reading instructions *)

(** [GetOp2]: the opcode, its immediate operand and the script after it; [None]: the end of the script
    or a truncated operand *)
Definition GetOp2 (pc : bytes) : option (Z * bytes * bytes) :=
  match pc with
  | [] => None
  | opcode :: pc =>
    if opcode <=? OP_PUSHDATA4 then
      let? (nSize, pc) :=
        if opcode <? OP_PUSHDATA1 then Some (opcode, pc)
        else
          let n := if opcode =? OP_PUSHDATA1 then 1%nat else if opcode =? OP_PUSHDATA2 then 2%nat else 4%nat in
          if bool_decide (length pc < n)%nat then None else Some (le_val (take n pc), drop n pc) in
      if Z.of_nat (length pc) <? nSize then None
      else Some (opcode, take (Z.to_nat nSize) pc, drop (Z.to_nat nSize) pc)
    else Some (opcode, [], pc)
  end.

(** [None]: the assertion fails *)
Definition DecodeOP_N (opcode : Z) : option Z :=
  if opcode =? OP_0 then Some 0
  else if (OP_1 <=? opcode) && (opcode <=? OP_16) then Some (opcode - (OP_1 - 1)) else None.
Definition EncodeOP_N (n : Z) : option Z :=
  if (0 <=? n) && (n <=? 16) then Some (if n =? 0 then OP_0 else OP_1 + n - 1) else None.

(** [while (end() - pc >= b.size() && memcmp(&pc[0], &b[0], b.size()) == 0) erase(pc, pc + b.size())] *)
Fixpoint erase_prefixes (fuel : nat) (b pc : bytes) (nFound : Z) : Z * bytes :=
  match fuel with
  | O => (nFound, pc)
  | S f => if bool_decide (length b <= length pc)%nat && bool_decide (take (length b) pc = b)
           then erase_prefixes f b (drop (length b) pc) (nFound + 1) else (nFound, pc)
  end.

(** the bytes the iterator has passed are kept *)
Fixpoint FindAndDelete_loop (fuel : nat) (b pc : bytes) (nFound : Z) (kept : bytes) : Z * bytes :=
  match fuel with
  | O => (nFound, kept ++ pc)
  | S f =>
    let '(nFound, pc) := erase_prefixes (length pc) b pc nFound in
    match GetOp2 pc with
    | Some (_, _, pc') => FindAndDelete_loop f b pc' nFound (kept ++ take (length pc - length pc') pc)
    | None => (nFound, kept ++ pc)
    end
  end.
Definition FindAndDelete (script b : bytes) : Z * bytes :=
  if bool_decide (b = []) then (0, script) else FindAndDelete_loop (S (length script)) b script 0 [].

Fixpoint Find_loop (fuel : nat) (op : Z) (pc : bytes) (nFound : Z) : Z :=
  match fuel with
  | O => nFound
  | S f => match GetOp2 pc with
           | Some (opcode, _, pc) => Find_loop f op pc (if opcode =? op then nFound + 1 else nFound)
           | None => nFound
           end
  end.
Definition Find (script : bytes) (op : Z) : Z := Find_loop (length script) op script 0.

Fixpoint IsPushOnly_loop (fuel : nat) (pc : bytes) : bool :=
  match fuel, pc with
  | _, [] => true
  | O, _ => true
  | S f, _ => match GetOp2 pc with
              | Some (opcode, _, pc) => if OP_16 <? opcode then false else IsPushOnly_loop f pc
              | None => false
              end
  end.
Definition IsPushOnly (script : bytes) : bool := IsPushOnly_loop (length script) script.

Fixpoint GetSigOpCount_loop (fuel : nat) (fAccurate : bool) (pc : bytes) (lastOpcode n : Z) : Z :=
  match fuel with
  | O => n
  | S f =>
    match GetOp2 pc with
    | None => n
    | Some (opcode, _, pc) =>
      let n :=
        if (opcode =? OP_CHECKSIG) || (opcode =? OP_CHECKSIGVERIFY) then u32 (n + 1)
        else if (opcode =? OP_CHECKMULTISIG) || (opcode =? OP_CHECKMULTISIGVERIFY) then
          if fAccurate && (OP_1 <=? lastOpcode) && (lastOpcode <=? OP_16)
          then u32 (n + default 0 (DecodeOP_N lastOpcode)) else u32 (n + 20)
        else n in
      GetSigOpCount_loop f fAccurate pc opcode n
    end
  end.
Definition GetSigOpCount (fAccurate : bool) (script : bytes) : Z :=
  GetSigOpCount_loop (length script) fAccurate script OP_INVALIDOPCODE 0.

Definition IsPayToScriptHash (script : bytes) : bool :=
  bool_decide (length script = 23)%nat && (nth 0 script 0 =? OP_HASH160) && (nth 1 script 0 =? 0x14) &&
  (nth 22 script 0 =? OP_EQUAL).

(** the operand of the last instruction, if all instructions are pushes *)
Fixpoint last_push (fuel : nat) (pc data : bytes) : option bytes :=
  match fuel, pc with
  | _, [] => Some data
  | O, _ => Some data
  | S f, _ => match GetOp2 pc with
              | Some (opcode, data, pc) => if OP_16 <? opcode then None else last_push f pc data
              | None => None
              end
  end.
(** the overload that looks through pay-to-script-hash *)
Definition GetSigOpCount_p2sh (script scriptSig : bytes) : Z :=
  if negb (IsPayToScriptHash script) then GetSigOpCount true script
  else match last_push (length scriptSig) scriptSig [] with
       | Some data => GetSigOpCount true data
       | None => 0
       end.

Definition GetScriptID {K : Crypto} (script : bytes) : Z := Hash160 script.

(** ** Instructions *)

(** an instruction is a non-empty prefix of the script, read the same way whatever follows it *)
Lemma GetOp2_prefix pc op v pc' : GetOp2 pc = Some (op, v, pc') ->
  exists enc, pc = enc ++ pc' /\ enc <> [] /\ forall t, GetOp2 (enc ++ t) = Some (op, v, t).
Proof.
  destruct pc as [|o pc]; [done|]. cbn [GetOp2]. destruct (o <=? OP_PUSHDATA4) eqn:E4.
  2:{ intros [= <- <- <-]. exists [o]. split; [done|]. split; [done|]. intros t. cbn [app GetOp2]. by rewrite E4. }
  destruct (o <? OP_PUSHDATA1) eqn:E1.
  - case_if; [done|]. intros [= <- <- <-]. apply Z.ltb_ge in E. exists (o :: take (Z.to_nat o) pc).
    cbn [app]. rewrite take_drop. split; [done|]. split; [done|]. intros t. cbn [GetOp2].
    rewrite E4, E1. rewrite (proj2 (Z.ltb_ge _ _)) by (rewrite length_app, length_take; lia).
    by rewrite take_app_length', drop_app_length' by (rewrite length_take; lia).
  - set (n := if o =? OP_PUSHDATA1 then 1%nat else if o =? OP_PUSHDATA2 then 2%nat else 4%nat).
    case_bool_decide as En; [done|]. case_if; [done|]. intros [= <- <- <-]. apply Z.ltb_ge in E. rewrite length_drop in *.
    set (k := le_val (take n pc)) in *. exists (o :: take n pc ++ take (Z.to_nat k) (drop n pc)).
    cbn [app]. rewrite <- app_assoc, !take_drop. split; [done|]. split; [done|].
    intros t. cbn [GetOp2]. rewrite E4, E1. fold n.
    rewrite bool_decide_eq_false_2 by (rewrite !length_app, length_take; lia).
    rewrite <- app_assoc, take_app_length', drop_app_length' by (rewrite length_take; lia). fold k.
    rewrite (proj2 (Z.ltb_ge _ _)) by (rewrite length_app, length_take, length_drop; lia).
    by rewrite take_app_length', drop_app_length' by (rewrite length_take, length_drop; lia).
Qed.

Lemma GetOp2_shorter pc op v pc' : GetOp2 pc = Some (op, v, pc') -> (length pc' < length pc)%nat.
Proof.
  intros (enc & -> & Hne & _)%GetOp2_prefix. rewrite length_app. destruct enc; [done|cbn; lia].
Qed.

Lemma GetOp2_push b s : Z.of_nat (length b) < 2 ^ 32 ->
  exists op, GetOp2 (push_data b ++ s) = Some (op, b, s) /\ 0 <= op <= OP_PUSHDATA4.
Proof.
  intros Hl. unfold push_data.
  assert (Hend : forall op (n : nat) (pre : bytes), le_val pre = Z.of_nat (length b) -> length pre = n ->
    (n = if op =? OP_PUSHDATA1 then 1%nat else if op =? OP_PUSHDATA2 then 2%nat else 4%nat) ->
    OP_PUSHDATA1 <= op <= OP_PUSHDATA4 ->
    GetOp2 (op :: (pre ++ b ++ s)) = Some (op, b, s)).
  { intros op n pre Hv Hn -> Ho. cbn [GetOp2]. rewrite (proj2 (Z.leb_le op _)), (proj2 (Z.ltb_ge op _)) by lia.
    rewrite bool_decide_eq_false_2 by (rewrite length_app; lia). rewrite <- Hn.
    rewrite take_app_length, drop_app_length, Hv.
    rewrite (proj2 (Z.ltb_ge _ _)) by (rewrite length_app; lia). rewrite Nat2Z.id.
    by rewrite take_app_length, drop_app_length. }
  unfold OP_PUSHDATA1, OP_PUSHDATA2, OP_PUSHDATA4 in *. repeat case_if; b2p.
  - exists (Z.of_nat (length b)). rewrite u8_small by lia. cbn [app GetOp2].
    unfold OP_PUSHDATA1, OP_PUSHDATA4. rewrite (proj2 (Z.leb_le _ 78)), (proj2 (Z.ltb_lt _ 76)) by lia.
    rewrite (proj2 (Z.ltb_ge _ _)) by (rewrite length_app; lia). rewrite Nat2Z.id.
    rewrite take_app_length, drop_app_length. split; [done|lia].
  - exists 0x4c. split; [|lia]. apply (Hend _ 1%nat [u8 (Z.of_nat (length b))]); try done.
    cbn [le_val]. rewrite u8_small; lia.
  - exists 0x4d. split; [|lia]. cbn [app]. rewrite <- app_assoc. apply (Hend _ 2%nat); try done.
    apply le_val_le_bytes. simpl; lia.
  - exists 0x4e. split; [|lia]. cbn [app]. rewrite <- app_assoc. apply (Hend _ 4%nat); try done.
    apply le_val_le_bytes. simpl; lia.
Qed.

(** the instructions of a script and the tail that does not parse *)
Fixpoint instructions_fuel (fuel : nat) (pc : bytes) : list bytes * bytes :=
  match fuel with
  | O => ([], pc)
  | S f => match GetOp2 pc with
           | Some (_, _, pc') => let '(cs, t) := instructions_fuel f pc' in (take (length pc - length pc') pc :: cs, t)
           | None => ([], pc)
           end
  end.
Definition instructions (pc : bytes) : list bytes * bytes := instructions_fuel (length pc) pc.

Lemma instructions_more f1 f2 pc : (length pc <= f1)%nat -> (length pc <= f2)%nat ->
  instructions_fuel f1 pc = instructions_fuel f2 pc.
Proof.
  revert f2 pc. induction f1 as [|f1 IH]; intros f2 pc H1 H2.
  - destruct pc; [|cbn in H1; lia]. by destruct f2.
  - destruct f2 as [|f2]; [destruct pc; [done|cbn in H2; lia]|]. cbn [instructions_fuel].
    destruct (GetOp2 pc) as [[[op v] pc']|] eqn:E; [|done]. apply GetOp2_shorter in E.
    by rewrite (IH f2 pc') by lia.
Qed.

Lemma instructions_step pc op v pc' : GetOp2 pc = Some (op, v, pc') ->
  instructions pc = (take (length pc - length pc') pc :: (instructions pc').1, (instructions pc').2).
Proof.
  intros E. pose proof (GetOp2_shorter _ _ _ _ E). unfold instructions.
  destruct pc as [|o pc]; [done|]. cbn [length]. cbn [instructions_fuel]. rewrite E.
  rewrite (instructions_more (length pc) (length pc') pc') by (cbn in *; lia). by destruct (instructions_fuel _ _).
Qed.

Lemma instructions_stop pc : GetOp2 pc = None -> instructions pc = ([], pc).
Proof. intros E. unfold instructions. destruct pc; [done|]. cbn [length instructions_fuel]. by rewrite E. Qed.

Lemma instructions_concat pc : concat (instructions pc).1 ++ (instructions pc).2 = pc.
Proof.
  unfold instructions. remember (length pc) as f eqn:Ef. assert (Hf : (length pc <= f)%nat) by lia. clear Ef.
  revert pc Hf. induction f as [|f IH]; intros pc Hf; [done|]. cbn [instructions_fuel].
  destruct (GetOp2 pc) as [[[op v] pc']|] eqn:E; [|done]. pose proof (GetOp2_shorter _ _ _ _ E).
  specialize (IH pc' ltac:(lia)). destruct (instructions_fuel f pc') as [cs t] eqn:Ef. cbn [fst snd concat] in *.
  apply GetOp2_prefix in E as (enc & -> & _). rewrite length_app, Nat.add_sub.
  by rewrite take_app_length, <- app_assoc, IH.
Qed.

(** [b] is the encoding of one instruction *)
Definition one_op (b : bytes) : Prop := exists op v, GetOp2 b = Some (op, v, []).

Lemma one_op_nonempty b : one_op b -> b <> [].
Proof. by intros (op & v & H) ->. Qed.

Lemma one_op_read b t : one_op b -> exists op v, GetOp2 (b ++ t) = Some (op, v, t).
Proof.
  intros (op & v & H). apply GetOp2_prefix in H as (enc & E & _ & Ht). rewrite app_nil_r in E. subst b.
  exists op, v. apply Ht.
Qed.

Lemma instructions_app b t : one_op b ->
  instructions (b ++ t) = (b :: (instructions t).1, (instructions t).2).
Proof.
  intros Hb. destruct (one_op_read b t Hb) as (op & v & E). rewrite (instructions_step _ _ _ _ E).
  by rewrite length_app, Nat.add_sub, take_app_length.
Qed.

Lemma push_one_op b : Z.of_nat (length b) < 2 ^ 32 -> one_op (push_data b).
Proof. intros H. destruct (GetOp2_push b [] H) as (op & E & _). rewrite app_nil_r in E. by exists op, b. Qed.

(** ** Deleting an instruction *)

Definition count_op (b : bytes) (cs : list bytes) : Z := Z.of_nat (length (filter (fun c => c = b) cs)).
Definition without_op (b : bytes) (cs : list bytes) : list bytes := filter (fun c => c <> b) cs.

Lemma erase_prefixes_spec f b pc n : one_op b -> (length pc <= f)%nat ->
  exists k pc', erase_prefixes f b pc n = (n + Z.of_nat k, pc') /\
    take (length b) pc' <> b /\ (length pc' <= length pc)%nat /\
    instructions pc = (replicate k b ++ (instructions pc').1, (instructions pc').2).
Proof.
  intros Hb. pose proof (one_op_nonempty b Hb) as Hne. revert pc n. induction f as [|f IH]; intros pc n Hf.
  - exists 0%nat, pc. cbn [erase_prefixes]. split; [f_equal; lia|]. destruct pc; [|cbn in Hf; lia].
    rewrite take_nil. split; [done|]. by destruct (instructions []).
  - cbn [erase_prefixes]. case_if.
    + apply andb_prop in E as [E1 E2]. b2p.
      assert (Hpc : pc = b ++ drop (length b) pc) by (rewrite <- E2 at 1; by rewrite take_drop).
      destruct (IH (drop (length b) pc) (n + 1)) as (k & pc' & I1 & I2 & I3 & I4).
      { rewrite length_drop. destruct b; [done|cbn in *; lia]. }
      exists (S k), pc'. rewrite I1. split; [f_equal; lia|]. split; [done|]. rewrite length_drop in I3.
      split; [lia|]. rewrite Hpc, instructions_app by done. by rewrite I4.
    + exists 0%nat, pc. split; [f_equal; lia|]. split; [|split; [lia|by destruct (instructions pc)]].
      intros Ht. b2p. destruct E as [E|E]; b2p; [|done]. apply (f_equal length) in Ht. rewrite length_take in Ht. lia.
Qed.

Lemma filter_replicate_eq (b : bytes) k : filter (fun c => c = b) (replicate k b) = replicate k b.
Proof. induction k; [done|]. cbn [replicate]. rewrite filter_cons_True by done. by rewrite IHk. Qed.
Lemma filter_replicate_ne (b : bytes) k : filter (fun c => c <> b) (replicate k b) = [].
Proof. induction k; [done|]. cbn [replicate]. rewrite filter_cons_False by auto. done. Qed.

Lemma FindAndDelete_loop_spec f b pc n kept : one_op b -> (length pc < f)%nat ->
  FindAndDelete_loop f b pc n kept =
    (n + count_op b (instructions pc).1,
     kept ++ concat (without_op b (instructions pc).1) ++ (instructions pc).2).
Proof.
  intros Hb. revert pc n kept. induction f as [|f IH]; intros pc n kept Hf; [lia|]. cbn [FindAndDelete_loop].
  destruct (erase_prefixes_spec (length pc) b pc n Hb (Nat.le_refl _)) as (k & pc' & -> & Hno & Hlen & Hins).
  rewrite Hins. cbn [fst snd]. unfold count_op, without_op.
  rewrite !filter_app, filter_replicate_eq, filter_replicate_ne, length_app, length_replicate. cbn [app].
  destruct (GetOp2 pc') as [[[op v] pc'']|] eqn:E.
  - rewrite (instructions_step _ _ _ _ E). cbn [fst snd]. pose proof (GetOp2_shorter _ _ _ _ E).
    rewrite IH by lia. unfold count_op, without_op.
    assert (Hx : take (length pc' - length pc'') pc' <> b).
    { intros Hx. apply Hno. apply GetOp2_prefix in E as (enc & -> & _). rewrite length_app, Nat.add_sub, take_app_length in Hx.
      subst enc. by rewrite take_app_length. }
    rewrite filter_cons_False, filter_cons_True by done. cbn [concat]. rewrite <- !app_assoc. f_equal. lia.
  - rewrite (instructions_stop _ E). cbn [fst snd filter length concat app]. f_equal. cbn; lia.
Qed.

(** ** Pay to script hash *)

Lemma IsPayToScriptHash_iff s : IsPayToScriptHash s = true <->
  exists h, length h = 20%nat /\ s = OP_HASH160 :: 20 :: h ++ [OP_EQUAL].
Proof.
  unfold IsPayToScriptHash. rewrite !andb_true_iff, bool_decide_eq_true, !Z.eqb_eq. split.
  - intros [[[Hl H0] H1] H22]. destruct s as [|a [|b s]]; try done. cbn [nth] in *. subst a b.
    exists (take 20 s). cbn [length] in Hl. rewrite length_take. split; [lia|]. do 2 f_equal.
    rewrite <- (take_drop 20 s) at 1. f_equal. change (nth 22 (OP_HASH160 :: 20 :: s) 0) with (nth 20 s 0) in H22.
    assert (Hd : length (drop 20 s) = 1%nat) by (rewrite length_drop; lia).
    destruct (drop 20 s) as [|x [|? ?]] eqn:Ed; cbn in Hd; try lia. f_equal.
    rewrite <- H22, <- (take_drop 20 s), Ed. rewrite app_nth2; rewrite length_take; [|lia].
    replace (20 - 20 `min` length s)%nat with 0%nat by lia. done.
  - intros (h & Hh & ->). cbn [length]. rewrite length_app, Hh. cbn [nth]. repeat split.
    change (nth 22 (OP_HASH160 :: 20 :: h ++ [OP_EQUAL]) 0) with (nth 20 (h ++ [OP_EQUAL]) 0).
    rewrite app_nth2 by lia. by rewrite Hh.
Qed.

(** ** Properties *)

(** Instruction decoding inverts encoding and stays inside the script: a byte vector pushed with
    [operator<<] is read back by [GetOp2] as one push instruction with that operand, in front of any
    suffix; and whatever [GetOp2] accepts is a non-empty prefix of the script whose reading does not
    depend on what follows. *)
Theorem GetOp2_push_roundtrip :
  (forall b s, Z.of_nat (length b) < 2 ^ 32 ->
     exists op, GetOp2 (push_data b ++ s) = Some (op, b, s) /\ 0 <= op <= OP_PUSHDATA4) /\
  (forall pc op v pc', GetOp2 pc = Some (op, v, pc') ->
     exists enc, pc = enc ++ pc' /\ enc <> [] /\ forall t, GetOp2 (enc ++ t) = Some (op, v, t)).
Proof. split; [exact GetOp2_push|exact GetOp2_prefix]. Qed.

(** [FindAndDelete] deletes an instruction from a script: when the pattern is the encoding of one
    instruction (a pushed signature, an OP_CODESEPARATOR), the result is the script without exactly the
    instructions equal to it, in order, with the unparsable tail untouched, and the count is their
    number; bytes inside operands never match. *)
Theorem FindAndDelete_removes script b (Hb : one_op b) :
  FindAndDelete script b =
    (count_op b (instructions script).1,
     concat (without_op b (instructions script).1) ++ (instructions script).2).
Proof.
  unfold FindAndDelete. rewrite bool_decide_eq_false_2 by by apply one_op_nonempty.
  by rewrite FindAndDelete_loop_spec by (done || lia).
Qed.

Lemma FindAndDelete_removes_witness :
  FindAndDelete [2; 0xab; 1; 0xab; 0x51; 0xab; 5; 1] [0xab] = (2, [2; 0xab; 1; 0x51; 5; 1]).
Proof.
  etransitivity; [apply (FindAndDelete_removes [2; 0xab; 1; 0xab; 0x51; 0xab; 5; 1] [0xab]); by exists 0xab, []|].
  vm_compute. reflexivity.
Defined.
