(* ===== verification/Target.v ===== *)
(** * Prime chain targets (prime.h, prime.cpp)

    The 32-bit target format (8 bits of chain length, 24 bits of fractional
    length), its conversion to and from fractional difficulty, the continuous
    retarget [TargetGetNext], the mint schedule [TargetGetMint] and the work
    transition estimate.  A function that returns [bool] and fills a reference
    parameter returns the pair; [None] is a thrown [bignum_error], which [TargetGetNext]
    has for one spacing of the last two blocks. *)

From S2P Require Import Prelude OpenSSL BigNum.
Local Open Scope Z_scope.

(** The two chain length globals of prime.cpp; LoadBlockIndex (main.cpp)
    replaces them on testnet. *)
Record TargetParams := {
  nTargetInitialLength : Z;
  nTargetMinLength : Z;
}.
Definition mainnet_target : TargetParams := {| nTargetInitialLength := 7; nTargetMinLength := 6 |}.
Definition testnet_target : TargetParams := {| nTargetInitialLength := 5; nTargetMinLength := 2 |}.

Definition nFractionalBits : Z := 24.
Definition TARGET_FRACTIONAL_MASK : Z := u32 (u32 (Z.shiftl 1 nFractionalBits) - 1).
Definition TARGET_LENGTH_MASK : Z := u32 (Z.lnot TARGET_FRACTIONAL_MASK).
Definition nFractionalDifficultyMax : Z := u64 (Z.shiftl 1 (nFractionalBits + 32)).
Definition nFractionalDifficultyMin : Z := u64 (Z.shiftl 1 32).
Definition nFractionalDifficultyThreshold : Z := u64 (Z.shiftl 1 (8 + 32)).

Definition COIN : Z := 100000000.
Definition CENT : Z := 1000000.

Definition TargetGetLimit (tp : TargetParams) : Z :=
  u32 (Z.shiftl (nTargetMinLength tp) nFractionalBits).
Definition TargetGetInitial (tp : TargetParams) : Z :=
  u32 (Z.shiftl (nTargetInitialLength tp) nFractionalBits).

Definition TargetGetLength (nBits : Z) : Z :=
  Z.shiftr (Z.land nBits TARGET_LENGTH_MASK) nFractionalBits.

Definition TargetSetLength (nLength nBits : Z) : bool * Z :=
  if 255 <=? nLength then (false, nBits)
  else (true, Z.lor (Z.land nBits TARGET_FRACTIONAL_MASK) (u32 (Z.shiftl nLength nFractionalBits))).

Definition TargetIncrementLength (nBits : Z) : Z := u32 (nBits + Z.shiftl 1 nFractionalBits).
Definition TargetDecrementLength (tp : TargetParams) (nBits : Z) : Z :=
  if nTargetMinLength tp <? TargetGetLength nBits
  then u32 (nBits - Z.shiftl 1 nFractionalBits) else nBits.

Definition TargetGetFractional (nBits : Z) : Z := Z.land nBits TARGET_FRACTIONAL_MASK.

Definition TargetGetFractionalDifficulty (nBits : Z) : Z :=
  nFractionalDifficultyMax / u64 (Z.shiftl 1 nFractionalBits - TargetGetFractional nBits).

Definition TargetSetFractionalDifficulty (nFractionalDifficulty nBits : Z) : bool * Z :=
  if nFractionalDifficulty <? nFractionalDifficultyMin then (false, nBits)
  else
    let nFractional := nFractionalDifficultyMax / nFractionalDifficulty in
    if u32 (Z.shiftl 1 nFractionalBits) <? nFractional then (false, nBits)
    else
      let nFractional := u64 (u32 (Z.shiftl 1 nFractionalBits) - nFractional) in
      (true, Z.lor (Z.land nBits TARGET_LENGTH_MASK) (u32 nFractional)).

Definition TargetFromInt (nLength : Z) : Z := u32 (Z.shiftl nLength nFractionalBits).

(** ["%02x.%06x"] : lower-case hexadecimal, zero padded to a minimum width *)
Fixpoint hex_chars (fuel : nat) (n : Z) (acc : bytes) : bytes :=
  match fuel with
  | O => acc
  | S f => if n =? 0 then acc else hex_chars f (n / 16) (digit_char (n mod 16) :: acc)
  end.
Definition printf_hex (width : nat) (n : Z) : bytes :=
  let s := hex_chars 8 n [] in
  let s := if n =? 0 then [48] else s in
  replicate (width - length s) 48 ++ s.
Definition TargetToString (nBits : Z) : bytes :=
  printf_hex 2 (TargetGetLength nBits) ++ [46] ++ printf_hex 6 (TargetGetFractional nBits).

(** chain types *)
Definition PRIME_CHAIN_CUNNINGHAM1 : Z := 1.
Definition PRIME_CHAIN_CUNNINGHAM2 : Z := 2.
Definition PRIME_CHAIN_BI_TWIN : Z := 3.

(** ["1CC"], ["2CC"], ["TWN"] followed by the length *)
Definition GetPrimeChainName (nChainType nChainLength : Z) : bytes :=
  (if nChainType =? PRIME_CHAIN_CUNNINGHAM1 then [49; 67; 67]
   else if nChainType =? PRIME_CHAIN_CUNNINGHAM2 then [50; 67; 67] else [84; 87; 78])
  ++ TargetToString nChainLength.

(** Get64: the low 64 bits of a [uint256] *)
Definition Get64 (n : Z) : Z := n mod 2 ^ 64.

Section Target.
Context {B : OpenSSLBN}.

Definition nMintLimit : Z := 999 * COIN.

Definition TargetGetMint (tp : TargetParams) (nBits : Z) : option (bool * Z) :=
  let bnMint := setuint64 0 nMintLimit in
  if TargetGetLength nBits <? nTargetMinLength tp then Some (false, 0)
  else
    let? bnMint := bn_div (bn_shl bnMint nFractionalBits) (setulong nBits) in
    let? bnMint := bn_div (bn_shl bnMint nFractionalBits) (setulong nBits) in
    let? bnQ := bn_div bnMint (of_int64 CENT) in
    let bnMint := bn_mul bnQ (of_int64 CENT) in
    let nMint := Get64 (getuint256 bnMint) in
    if nMintLimit <? nMint then Some (false, 0) else Some (true, nMint).

Definition TargetGetNext (tp : TargetParams) (nBits nInterval nTargetSpacing nActualSpacing : Z)
  : option (bool * Z) :=
  let nBitsNext := nBits in
  let nFractionalDifficulty := TargetGetFractionalDifficulty nBits in
  let bn := setuint64 0 nFractionalDifficulty in
  let bn := bn_mul bn (of_int64 (s64 ((nInterval + 1) * nTargetSpacing))) in
  let? bn := bn_div bn
    (of_int64 (s64 ((nInterval - 1) * nTargetSpacing + nActualSpacing + nActualSpacing))) in
  let bn := if bn_gtb bn (setuint64 0 nFractionalDifficultyMax)
            then setuint64 0 nFractionalDifficultyMax else bn in
  let bn := if bn_ltb bn (setuint64 0 nFractionalDifficultyMin)
            then setuint64 0 nFractionalDifficultyMin else bn in
  let nNew := Get64 (getuint256 bn) in
  let '(nNew, nBitsNext) :=
    if nFractionalDifficultyThreshold <? nNew
    then (nFractionalDifficultyMin, TargetIncrementLength nBitsNext)
    else if (nNew =? nFractionalDifficultyMin) && (nTargetMinLength tp <? TargetGetLength nBitsNext)
    then (nFractionalDifficultyThreshold, TargetDecrementLength tp nBitsNext)
    else (nNew, nBitsNext) in
  Some (TargetSetFractionalDifficulty nNew nBitsNext).

Definition EstimateWorkTransition (nPrevWorkTransition nBits nChainLength : Z) : Z :=
  let nInterval := 500 in
  let nWorkTransition := nPrevWorkTransition in
  let nBitsCeiling := (TargetSetLength (TargetGetLength nBits + 1) 0).2 in
  let nBitsFloor := (TargetSetLength (TargetGetLength nBits) 0).2 in
  let nFractionalDifficulty := TargetGetFractionalDifficulty nBits in
  let fLonger := TargetGetLength nBits <? TargetGetLength nChainLength in
  let w := Z.shiftr (u64 ((nInterval - 1) * nFractionalDifficulty)) 32 in
  let nWorkTransition :=
    if fLonger
    then s64 (u64 (u64 (nWorkTransition * w) + u64 (2 * nBitsFloor)) / u64 (w + 2))
    else s64 (u64 (s64 ((nInterval - 1) * nWorkTransition) + u64 (2 * nBitsCeiling)) / u64 (nInterval + 1)) in
  u32 nWorkTransition.

End Target.

(** ** The bit layout as arithmetic *)

Definition nbits_ok (nBits : Z) : Prop := 0 <= nBits < 2 ^ 32.

Lemma TargetGetLength_eq nBits : nbits_ok nBits -> TargetGetLength nBits = nBits / 2 ^ 24.
Proof.
  intros H. unfold TargetGetLength. change TARGET_LENGTH_MASK with (2 ^ 32 - 2 ^ 24).
  rewrite land_high by (done || lia). unfold nFractionalBits. rewrite Z.shiftr_div_pow2 by lia. dlia.
Qed.

Lemma TargetGetFractional_eq nBits : TargetGetFractional nBits = nBits mod 2 ^ 24.
Proof. apply (land_mask nBits 24). lia. Qed.

Lemma length_part nBits : nbits_ok nBits ->
  Z.land nBits TARGET_LENGTH_MASK = TargetGetLength nBits * 2 ^ 24.
Proof.
  intros H. rewrite TargetGetLength_eq by done. change TARGET_LENGTH_MASK with (2 ^ 32 - 2 ^ 24).
  rewrite land_high by (done || lia). dlia.
Qed.

Lemma nbits_split nBits : nbits_ok nBits ->
  nBits = TargetGetLength nBits * 2 ^ 24 + TargetGetFractional nBits /\
  0 <= TargetGetLength nBits < 256 /\ 0 <= TargetGetFractional nBits < 2 ^ 24.
Proof.
  unfold nbits_ok. intros H. rewrite TargetGetFractional_eq, TargetGetLength_eq by done. dlia.
Qed.

Lemma TargetGetLength_mk l f : 0 <= l < 256 -> 0 <= f < 2 ^ 24 -> TargetGetLength (l * 2 ^ 24 + f) = l.
Proof. intros. rewrite TargetGetLength_eq by (unfold nbits_ok; lia). dlia. Qed.

Lemma TargetGetFractional_mk l f : 0 <= f < 2 ^ 24 -> TargetGetFractional (l * 2 ^ 24 + f) = f.
Proof. intros. rewrite TargetGetFractional_eq. dlia. Qed.

Lemma TargetSetLength_zero l : 0 <= l < 255 -> TargetSetLength l 0 = (true, l * 2 ^ 24).
Proof.
  intros. unfold TargetSetLength. rewrite (proj2 (Z.leb_gt 255 l)) by lia.
  rewrite Z.land_0_l, Z.lor_0_l. unfold nFractionalBits.
  rewrite Z.shiftl_mul_pow2, u32_small by lia. done.
Qed.

(** ** Fractional difficulty *)

Definition FD_max : nFractionalDifficultyMax = 2 ^ 56 := eq_refl.
Definition FD_min : nFractionalDifficultyMin = 2 ^ 32 := eq_refl.
Definition FD_thr : nFractionalDifficultyThreshold = 2 ^ 40 := eq_refl.

Lemma TargetGetFractionalDifficulty_eq nBits : nbits_ok nBits ->
  TargetGetFractionalDifficulty nBits = 2 ^ 56 / (2 ^ 24 - TargetGetFractional nBits).
Proof.
  intros H. unfold TargetGetFractionalDifficulty. rewrite FD_max.
  pose proof (nbits_split nBits H). change (Z.shiftl 1 nFractionalBits) with (2 ^ 24).
  by rewrite u64_small by lia.
Qed.

Lemma FD_range x : 1 <= x <= 2 ^ 24 -> 2 ^ 32 <= 2 ^ 56 / x <= 2 ^ 56.
Proof.
  intros H. split; [apply Z.div_le_lower_bound; lia|].
  apply Z.div_le_upper_bound; nia.
Qed.

Lemma TargetSetFractionalDifficulty_eq d nBits : nbits_ok nBits -> 2 ^ 32 <= d ->
  TargetSetFractionalDifficulty d nBits =
    (true, TargetGetLength nBits * 2 ^ 24 + (2 ^ 24 - 2 ^ 56 / d)) \/
  (2 ^ 56 < d /\ TargetSetFractionalDifficulty d nBits = (true, Z.lor (TargetGetLength nBits * 2 ^ 24) (2 ^ 24))).
Proof.
  intros H Hd. unfold TargetSetFractionalDifficulty. rewrite FD_min, FD_max, length_part by done.
  change (u32 (Z.shiftl 1 nFractionalBits)) with (2 ^ 24).
  rewrite (proj2 (Z.ltb_ge d (2 ^ 32))) by lia.
  assert (Hq : 2 ^ 56 / d <= 2 ^ 24) by (apply Z.div_le_upper_bound; lia).
  assert (Hq0 : 0 <= 2 ^ 56 / d) by (apply Z.div_pos; lia).
  rewrite (proj2 (Z.ltb_ge (2 ^ 24) (2 ^ 56 / d))) by lia.
  rewrite u64_small, u32_small by lia.
  destruct (decide (d <= 2 ^ 56)) as [Hle|Hgt].
  - left. f_equal. assert (1 <= 2 ^ 56 / d) by (apply Z.div_le_lower_bound; lia).
    rewrite lor_disjoint_add by lia. lia.
  - right. split; [lia|]. rewrite (Z.div_small (2 ^ 56) d) by lia. done.
Qed.

Lemma TargetSetFractionalDifficulty_small d nBits : nbits_ok nBits -> 2 ^ 32 <= d <= 2 ^ 56 ->
  TargetSetFractionalDifficulty d nBits =
    (true, TargetGetLength nBits * 2 ^ 24 + (2 ^ 24 - 2 ^ 56 / d)).
Proof.
  intros H Hd. destruct (TargetSetFractionalDifficulty_eq d nBits H) as [?|[? _]]; [lia|done|lia].
Qed.

(** dividing [2^56] twice gives the divisor back *)
Lemma FD_div_div x : 1 <= x <= 2 ^ 24 -> 2 ^ 56 / (2 ^ 56 / x) = x.
Proof.
  intros H. pose proof (FD_range x H).
  pose proof (Z.div_mod (2 ^ 56) x ltac:(lia)) as Hd. pose proof (Z.mod_pos_bound (2 ^ 56) x ltac:(lia)).
  set (q := 2 ^ 56 / x) in *. symmetry. apply (Z.div_unique _ _ _ (2 ^ 56 mod x)); [left; lia|lia].
Qed.

(** ** Retargeting *)

(** what the difficulty is divided by *)
Definition retarget_divisor (nInterval nTargetSpacing nActualSpacing : Z) : Z :=
  (nInterval - 1) * nTargetSpacing + 2 * nActualSpacing.

(** what [TargetGetNext] computes, written on integers: the clamped new
    difficulty, and the target it is encoded into *)
Definition next_difficulty (nBits nInterval nTargetSpacing nActualSpacing : Z) : Z :=
  let d := TargetGetFractionalDifficulty nBits * ((nInterval + 1) * nTargetSpacing) /
           retarget_divisor nInterval nTargetSpacing nActualSpacing in
  Z.max (2 ^ 32) (Z.min (2 ^ 56) d).

Definition retarget (tp : TargetParams) (nBits d : Z) : Z :=
  let len := TargetGetLength nBits in
  if 2 ^ 40 <? d then (len + 1) * 2 ^ 24
  else if (d =? 2 ^ 32) && (nTargetMinLength tp <? len)
  then (len - 1) * 2 ^ 24 + (2 ^ 24 - 2 ^ 16)
  else len * 2 ^ 24 + (2 ^ 24 - 2 ^ 56 / d).

(** The arguments for which no 64-bit computation of [TargetGetNext] overflows;
    block times are 32-bit numbers, and spacings their differences, of either sign. *)
Definition retarget_range (nInterval nTargetSpacing nActualSpacing : Z) : Prop :=
  1 <= nInterval < 2 ^ 31 /\ 1 <= nTargetSpacing < 2 ^ 20 /\ - 2 ^ 50 < nActualSpacing < 2 ^ 50.
(** with a divisor that is positive *)
Definition retarget_args (nInterval nTargetSpacing nActualSpacing : Z) : Prop :=
  retarget_range nInterval nTargetSpacing nActualSpacing /\ 0 < retarget_divisor nInterval nTargetSpacing nActualSpacing.

Section Retarget.
Context {B : OpenSSLBN} {L : OpenSSLBNLaws B}.

Lemma getuint256_u64 z : 0 <= z < 2 ^ 64 -> Get64 (getuint256 z) = z.
Proof.
  intros. unfold Get64. rewrite getuint256_eq, Z.abs_eq by lia.
  rewrite (Z.mod_small z (2 ^ 256)), Z.mod_small by lia. done.
Qed.

Lemma TargetIncrementLength_eq nBits : nbits_ok nBits -> TargetGetLength nBits < 255 ->
  TargetIncrementLength nBits = nBits + 2 ^ 24.
Proof.
  intros H Hl. pose proof (nbits_split nBits H). unfold TargetIncrementLength.
  change (Z.shiftl 1 nFractionalBits) with (2 ^ 24). apply u32_small. lia.
Qed.

Lemma FD_nbits nBits : nbits_ok nBits -> 2 ^ 32 <= TargetGetFractionalDifficulty nBits <= 2 ^ 56.
Proof.
  intros H. rewrite TargetGetFractionalDifficulty_eq by done. apply FD_range.
  pose proof (nbits_split nBits H). lia.
Qed.

Lemma FD_below_threshold nBits : nbits_ok nBits -> TargetGetFractional nBits <= 2 ^ 24 - 2 ^ 16 ->
  2 ^ 32 <= TargetGetFractionalDifficulty nBits <= 2 ^ 40.
Proof.
  intros H Hf. split; [by apply FD_nbits|]. rewrite TargetGetFractionalDifficulty_eq by done.
  change (2 ^ 40) with (2 ^ 56 / 2 ^ 16). apply Z.div_le_compat_l; lia.
Qed.

Lemma next_difficulty_range nBits i s a : 2 ^ 32 <= next_difficulty nBits i s a <= 2 ^ 56.
Proof. unfold next_difficulty. lia. Qed.

Lemma div_nonneg_neg n d : 0 <= n -> d < 0 -> n / d <= 0.
Proof. intros Hn Hd. rewrite <- Z.div_opp_opp by lia. apply Z.div_le_upper_bound; lia. Qed.
(** a quotient rounded toward zero differs from one rounded down only below the minimum *)
Lemma clamped_quotient n d lo hi : 0 <= n -> 0 < lo -> d <> 0 -> Z.max lo (Z.min hi (n ÷ d)) = Z.max lo (Z.min hi (n / d)).
Proof.
  intros Hn Hlo Hd. destruct (Z_lt_le_dec d 0) as [Hneg|Hpos]; [|by rewrite Z.quot_div_nonneg by lia].
  pose proof (div_nonneg_neg n d Hn Hneg).
  assert (n ÷ d <= 0); [|lia]. rewrite <- (Z.opp_involutive d), Z.quot_opp_r by lia. pose proof (Z.quot_pos n (- d)). lia.
Qed.

Lemma TargetGetNext_eq tp nBits i s a : nbits_ok nBits -> TargetGetLength nBits < 255 ->
  0 <= nTargetMinLength tp -> retarget_range i s a -> retarget_divisor i s a <> 0 ->
  TargetGetNext tp nBits i s a = Some (true, retarget tp nBits (next_difficulty nBits i s a)).
Proof.
  intros Hb Hl Hm (Hi & Hs & Ha) Hd. pose proof (FD_nbits nBits Hb) as Hfd.
  pose proof (nbits_split nBits Hb) as (Hsplit & Hlen & Hfrac).
  unfold TargetGetNext, of_int64. rewrite !FD_max, FD_min, FD_thr.
  rewrite !(setuint64_eq 0) by lia.
  rewrite (s64_small ((i + 1) * s)), (s64_small ((i - 1) * s + a + a)) by nia.
  rewrite !setint64_eq by nia. autorewrite with bn.
  replace ((i - 1) * s + a + a) with (retarget_divisor i s a) by (unfold retarget_divisor; lia).
  rewrite bn_div_eq by done. cbn [mbind option_bind].
  set (d0 := TargetGetFractionalDifficulty nBits * ((i + 1) * s) ÷ retarget_divisor i s a).
  autorewrite with bn.
  assert (Hc : (if (if 2 ^ 56 <? d0 then 2 ^ 56 else d0) <? 2 ^ 32 then 2 ^ 32
    else if 2 ^ 56 <? d0 then 2 ^ 56 else d0) = next_difficulty nBits i s a).
  { assert (Hq : Z.max (2 ^ 32) (Z.min (2 ^ 56) d0) = next_difficulty nBits i s a) by (apply clamped_quotient; [nia|lia|done]). rewrite <- Hq.
    destruct (2 ^ 56 <? d0) eqn:E1, (_ <? 2 ^ 32) eqn:E2; b2p; lia. }
  rewrite Hc. pose proof (next_difficulty_range nBits i s a) as Hr.
  set (d := next_difficulty nBits i s a) in *. rewrite getuint256_u64 by lia.
  unfold retarget. destruct (2 ^ 40 <? d) eqn:E1; b2p.
  - rewrite TargetIncrementLength_eq by done.
    replace (nBits + 2 ^ 24) with ((TargetGetLength nBits + 1) * 2 ^ 24 + TargetGetFractional nBits) by lia.
    rewrite TargetSetFractionalDifficulty_small by (unfold nbits_ok; lia).
    rewrite TargetGetLength_mk by lia.
    change (2 ^ 56 / 2 ^ 32) with (2 ^ 24). do 2 f_equal. lia.
  - destruct (d =? 2 ^ 32) eqn:E2, (nTargetMinLength tp <? TargetGetLength nBits) eqn:E3; b2p; cbn [andb].
    + unfold TargetDecrementLength. rewrite (proj2 (Z.ltb_lt _ _)) by lia.
      change (Z.shiftl 1 nFractionalBits) with (2 ^ 24). rewrite u32_small by lia.
      replace (nBits - 2 ^ 24) with ((TargetGetLength nBits - 1) * 2 ^ 24 + TargetGetFractional nBits) by lia.
      rewrite TargetSetFractionalDifficulty_small by (unfold nbits_ok; lia).
      rewrite TargetGetLength_mk by lia. by change (2 ^ 56 / 2 ^ 40) with (2 ^ 16).
    + rewrite TargetSetFractionalDifficulty_small by (done || lia). done.
    + rewrite TargetSetFractionalDifficulty_small by (done || lia). done.
    + rewrite TargetSetFractionalDifficulty_small by (done || lia). done.
Qed.

Lemma TargetGetNext_throws tp nBits i s a : retarget_range i s a -> retarget_divisor i s a = 0 -> TargetGetNext tp nBits i s a = None.
Proof.
  intros (Hi & Hs & Ha) Hd. unfold TargetGetNext, of_int64. replace ((i - 1) * s + a + a) with 0 by (unfold retarget_divisor in Hd; lia). change (s64 0) with 0.
  rewrite (setint64_eq _ 0) by lia. unfold bn_div. by rewrite BN_div_zero.
Qed.

Lemma retarget_frac d : 2 ^ 32 <= d <= 2 ^ 40 -> 2 ^ 16 <= 2 ^ 56 / d <= 2 ^ 24.
Proof.
  intros. split; [apply Z.div_le_lower_bound; lia|apply Z.div_le_upper_bound; lia].
Qed.

Lemma retarget_bounds tp nBits d : nbits_ok nBits -> TargetGetLength nBits < 255 ->
  0 <= nTargetMinLength tp <= TargetGetLength nBits -> 2 ^ 32 <= d <= 2 ^ 56 ->
  let r := retarget tp nBits d in
  nbits_ok r /\ nTargetMinLength tp <= TargetGetLength r /\
  Z.abs (TargetGetLength r - TargetGetLength nBits) <= 1 /\
  TargetGetFractional r <= 2 ^ 24 - 2 ^ 16.
Proof.
  intros Hb Hl Hm Hd. pose proof (nbits_split nBits Hb) as (Hs & Hlen & Hf). cbv zeta. unfold retarget.
  destruct (2 ^ 40 <? d) eqn:E1; b2p.
  - rewrite <- (Z.add_0_r ((TargetGetLength nBits + 1) * 2 ^ 24)).
    rewrite TargetGetLength_mk, TargetGetFractional_mk by lia. unfold nbits_ok. lia.
  - pose proof (retarget_frac d).
    destruct (d =? 2 ^ 32) eqn:E2, (nTargetMinLength tp <? TargetGetLength nBits) eqn:E3; b2p; cbn [andb].
    + rewrite TargetGetLength_mk, TargetGetFractional_mk by lia. unfold nbits_ok. lia.
    + subst d. change (2 ^ 56 / 2 ^ 32) with (2 ^ 24). rewrite TargetGetLength_mk, TargetGetFractional_mk by lia.
      unfold nbits_ok. lia.
    + assert (2 ^ 56 / d < 2 ^ 24) by (apply Z.div_lt_upper_bound; lia).
      rewrite TargetGetLength_mk, TargetGetFractional_mk by lia. unfold nbits_ok. lia.
    + assert (2 ^ 56 / d < 2 ^ 24) by (apply Z.div_lt_upper_bound; lia).
      rewrite TargetGetLength_mk, TargetGetFractional_mk by lia. unfold nbits_ok. lia.
Qed.

Lemma retarget_mono tp nBits d1 d2 : nbits_ok nBits -> 2 ^ 32 <= d1 -> d1 <= d2 ->
  retarget tp nBits d1 <= retarget tp nBits d2.
Proof.
  intros Hb H1 H12. unfold retarget.
  pose proof (retarget_frac d1) as Hf1. pose proof (retarget_frac d2) as Hf2.
  assert (Hq : 2 ^ 56 / d2 <= 2 ^ 56 / d1) by (apply Z.div_le_compat_l; lia).
  destruct (2 ^ 40 <? d1) eqn:E1, (2 ^ 40 <? d2) eqn:E2; b2p; try lia;
    destruct (d1 =? 2 ^ 32) eqn:E3, (nTargetMinLength tp <? TargetGetLength nBits) eqn:E4;
    try destruct (d2 =? 2 ^ 32) eqn:E5; b2p; cbn [andb]; lia.
Qed.

Lemma next_difficulty_anti nBits i s a1 a2 : nbits_ok nBits -> retarget_args i s a1 -> a1 <= a2 ->
  next_difficulty nBits i s a2 <= next_difficulty nBits i s a1.
Proof.
  intros Hb ((Hi & Hs & Ha) & Hd) H12. pose proof (FD_nbits nBits Hb). unfold next_difficulty. cbv zeta. unfold retarget_divisor in *.
  apply Z.max_le_compat_l, Z.min_le_compat_l. apply Z.div_le_compat_l; [nia|lia].
Qed.

(** too fast for the formula: the minimum *)
Lemma next_difficulty_negative nBits i s a : nbits_ok nBits -> 1 <= i < 2 ^ 31 -> 1 <= s < 2 ^ 20 -> retarget_divisor i s a < 0 -> next_difficulty nBits i s a = 2 ^ 32.
Proof.
  intros Hb Hi Hs Hd. pose proof (FD_nbits nBits Hb). unfold next_difficulty. cbv zeta. set (d := retarget_divisor i s a) in *.
  assert (TargetGetFractionalDifficulty nBits * ((i + 1) * s) / d <= 0); [|lia]. apply div_nonneg_neg; nia.
Qed.
Lemma retarget_lowest tp nBits : nbits_ok nBits -> retarget tp nBits (2 ^ 32) <= nBits.
Proof.
  intros Hb. pose proof (nbits_split nBits Hb) as (Hs & Hlen & Hf). unfold retarget. change (2 ^ 40 <? 2 ^ 32) with false. cbv iota zeta.
  change (2 ^ 56 / 2 ^ 32) with (2 ^ 24). destruct (_ && _); lia.
Qed.

Lemma next_difficulty_stationary nBits i s : nbits_ok nBits -> 1 <= i -> 1 <= s ->
  next_difficulty nBits i s s = TargetGetFractionalDifficulty nBits.
Proof.
  intros Hb Hi Hs. pose proof (FD_nbits nBits Hb). unfold next_difficulty, retarget_divisor. cbv zeta.
  replace ((i - 1) * s + 2 * s) with ((i + 1) * s) by lia. rewrite Z.div_mul by nia. lia.
Qed.

End Retarget.

(** ** Minting *)

(** [999 / target^2] coins, rounded down to a cent *)
Definition mint_value (nBits : Z) : Z :=
  nMintLimit * 2 ^ 24 / nBits * 2 ^ 24 / nBits / CENT * CENT.

Section Mint.
Context {B : OpenSSLBN} {L : OpenSSLBNLaws B}.

Lemma mint_value_range nBits : 2 ^ 24 <= nBits -> 0 <= mint_value nBits <= nMintLimit.
Proof.
  intros H. unfold mint_value.
  assert (H1 : 0 <= nMintLimit * 2 ^ 24 / nBits <= nMintLimit).
  { split; [apply Z.div_pos; [done|lia]|].
    apply Z.div_le_upper_bound; [lia|]. change nMintLimit with 99900000000 in *. lia. }
  set (x := nMintLimit * 2 ^ 24 / nBits) in *.
  assert (H2 : 0 <= x * 2 ^ 24 / nBits <= nMintLimit).
  { split; [apply Z.div_pos; lia|]. apply Z.div_le_upper_bound; nia. }
  unfold CENT. dlia.
Qed.

Lemma TargetGetMint_eq tp nBits : nbits_ok nBits -> 0 < nTargetMinLength tp <= TargetGetLength nBits ->
  TargetGetMint tp nBits = Some (true, mint_value nBits).
Proof.
  intros Hb Hm. pose proof (nbits_split nBits Hb). unfold nbits_ok in Hb.
  pose proof (mint_value_range nBits ltac:(lia)) as Hr.
  unfold TargetGetMint. rewrite (proj2 (Z.ltb_ge _ _)) by lia.
  rewrite setuint64_eq by done. unfold nFractionalBits. autorewrite with bn.
  assert (0 <= nMintLimit * 2 ^ 24) by done.
  assert (0 <= nMintLimit * 2 ^ 24 / nBits) by (apply Z.div_pos; lia).
  rewrite bn_div_eq, Z.quot_div_nonneg by lia. cbn [mbind option_bind]. autorewrite with bn.
  rewrite bn_div_eq, Z.quot_div_nonneg by lia. cbn [mbind option_bind].
  assert (0 <= nMintLimit * 2 ^ 24 / nBits * 2 ^ 24 / nBits) by (apply Z.div_pos; lia).
  unfold of_int64. rewrite setint64_eq by done. rewrite bn_div_eq, Z.quot_div_nonneg by done.
  cbn [mbind option_bind]. autorewrite with bn. fold (mint_value nBits).
  change nMintLimit with 99900000000 in *. rewrite getuint256_u64 by lia.
  by rewrite (proj2 (Z.ltb_ge _ _)) by lia.
Qed.

Lemma mint_value_anti n1 n2 : 0 < n1 -> n1 <= n2 -> mint_value n2 <= mint_value n1.
Proof.
  intros H1 H2. unfold mint_value. apply Z.mul_le_mono_nonneg_r; [done|].
  apply Z.div_le_mono; [done|].
  assert (H3 : nMintLimit * 2 ^ 24 / n2 <= nMintLimit * 2 ^ 24 / n1) by (apply Z.div_le_compat_l; [done|lia]).
  assert (H4 : 0 <= nMintLimit * 2 ^ 24 / n2) by (apply Z.div_pos; [done|lia]).
  etrans; [apply Z.div_le_mono; [lia|apply Z.mul_le_mono_nonneg_r; [lia|exact H3]]|].
  apply Z.div_le_compat_l; lia.
Qed.

End Mint.

(** ** Properties *)

Section Properties.
Context {B : OpenSSLBN} {L : OpenSSLBNLaws B}.

(** C17: the retarget keeps a valid target valid: whatever the spacing of the
    last two blocks, which may be negative, the result is a 32-bit target whose
    length is at least the network minimum and differs from the previous one by
    at most 1, and whose fractional part stays below the step-up threshold; but
    for one spacing, that at which the divisor is zero: there, and only there,
    the division throws.  A divisor below zero lowers the target as far as one
    block can, although it comes from blocks that were too fast. *)
Theorem TargetGetNext_in_bounds tp nBits nInterval nTargetSpacing nActualSpacing
  (Hb : nbits_ok nBits) (Hl : TargetGetLength nBits < 255)
  (Hm : 0 <= nTargetMinLength tp <= TargetGetLength nBits)
  (Ha : retarget_range nInterval nTargetSpacing nActualSpacing) :
  (TargetGetNext tp nBits nInterval nTargetSpacing nActualSpacing = None <-> retarget_divisor nInterval nTargetSpacing nActualSpacing = 0) /\
  (retarget_divisor nInterval nTargetSpacing nActualSpacing <> 0 ->
   exists nBitsNext, TargetGetNext tp nBits nInterval nTargetSpacing nActualSpacing = Some (true, nBitsNext) /\
    nbits_ok nBitsNext /\ nTargetMinLength tp <= TargetGetLength nBitsNext /\
    Z.abs (TargetGetLength nBitsNext - TargetGetLength nBits) <= 1 /\
    TargetGetFractional nBitsNext <= 2 ^ 24 - 2 ^ 16 /\
    (retarget_divisor nInterval nTargetSpacing nActualSpacing < 0 -> nBitsNext = retarget tp nBits (2 ^ 32) /\ nBitsNext <= nBits)).
Proof.
  pose proof (TargetGetNext_eq tp nBits nInterval nTargetSpacing nActualSpacing Hb Hl ltac:(lia) Ha) as Heq. split.
  - split; [|by apply TargetGetNext_throws]. intros Hn. destruct (decide (retarget_divisor nInterval nTargetSpacing nActualSpacing = 0)) as [|Hd]; [done|].
    rewrite (Heq Hd) in Hn. done.
  - intros Hd. eexists. split; [by apply Heq|]. destruct (retarget_bounds tp nBits _ Hb Hl Hm (next_difficulty_range nBits nInterval nTargetSpacing nActualSpacing)) as (H1 & H2 & H3 & H4).
    split_and!; [done..|]. intros Hneg. rewrite next_difficulty_negative by (done || apply Ha). split; [done|]. by apply retarget_lowest.
Qed.

(** the retarget is monotone: with everything else equal, a longer observed
    block spacing never gives a higher target. *)
Theorem TargetGetNext_monotone tp nBits nInterval nTargetSpacing a1 a2
  (Hb : nbits_ok nBits) (Hl : TargetGetLength nBits < 255) (Hm : 0 <= nTargetMinLength tp)
  (H1 : retarget_args nInterval nTargetSpacing a1) (H2 : retarget_args nInterval nTargetSpacing a2)
  (H12 : a1 <= a2) :
  exists b1 b2, TargetGetNext tp nBits nInterval nTargetSpacing a1 = Some (true, b1) /\
    TargetGetNext tp nBits nInterval nTargetSpacing a2 = Some (true, b2) /\ b2 <= b1.
Proof.
  destruct H1 as [H1 D1], H2 as [H2 D2]. do 2 eexists. split; [apply TargetGetNext_eq; (done || lia)|]. split; [apply TargetGetNext_eq; (done || lia)|].
  apply retarget_mono; [done|apply next_difficulty_range|by apply next_difficulty_anti].
Qed.

(** a chain whose last block took exactly the target spacing keeps its
    target, when the target has a nonzero fractional part below the step-up
    threshold. *)
Theorem TargetGetNext_stationary tp nBits nInterval nTargetSpacing
  (Hb : nbits_ok nBits) (Hl : TargetGetLength nBits < 255) (Hm : 0 <= nTargetMinLength tp)
  (Hf : 1 <= TargetGetFractional nBits <= 2 ^ 24 - 2 ^ 16)
  (Ha : retarget_args nInterval nTargetSpacing nTargetSpacing) :
  TargetGetNext tp nBits nInterval nTargetSpacing nTargetSpacing = Some (true, nBits).
Proof.
  destruct Ha as [Ha Hd]. rewrite TargetGetNext_eq by (done || lia). destruct Ha as (? & ? & _).
  rewrite next_difficulty_stationary by (done || lia). do 2 f_equal.
  pose proof (nbits_split nBits Hb) as (Hs & _). unfold retarget.
  rewrite TargetGetFractionalDifficulty_eq by done. rewrite FD_div_div by lia.
  rewrite (proj2 (Z.ltb_ge (2 ^ 40) _)).
  - rewrite (proj2 (Z.eqb_neq _ (2 ^ 32))); [cbn [andb]; lia|].
    assert (2 ^ 32 < 2 ^ 56 / (2 ^ 24 - TargetGetFractional nBits)); [|lia].
    apply Z.lt_le_trans with (2 ^ 56 / (2 ^ 24 - 1)); [done|apply Z.div_le_compat_l; lia].
  - rewrite <- TargetGetFractionalDifficulty_eq by done. apply FD_below_threshold; [done|lia].
Qed.

(** encoding a difficulty and decoding it again is the identity on targets:
    writing back the fractional difficulty read from a target leaves the target
    unchanged. *)
Theorem fractional_difficulty_roundtrip nBits (Hb : nbits_ok nBits) :
  TargetSetFractionalDifficulty (TargetGetFractionalDifficulty nBits) nBits = (true, nBits).
Proof.
  pose proof (nbits_split nBits Hb) as (Hs & _ & Hf). pose proof (FD_nbits nBits Hb).
  rewrite TargetSetFractionalDifficulty_small by done.
  rewrite TargetGetFractionalDifficulty_eq, FD_div_div by (done || lia). f_equal. lia.
Qed.

(** the mint of a valid target is exactly 999 coins divided twice by the
    target, rounded down to a cent; it never exceeds the 999 coin limit, and a
    higher target never mints more. *)
Theorem TargetGetMint_schedule tp nBits1 nBits2
  (Hb1 : nbits_ok nBits1) (Hb2 : nbits_ok nBits2) (H12 : nBits1 <= nBits2)
  (Hm : 0 < nTargetMinLength tp <= TargetGetLength nBits1) :
  exists m1 m2, TargetGetMint tp nBits1 = Some (true, m1) /\ TargetGetMint tp nBits2 = Some (true, m2) /\
    m1 = nMintLimit * 2 ^ 24 / nBits1 * 2 ^ 24 / nBits1 / CENT * CENT /\
    0 <= m2 <= m1 /\ m1 <= nMintLimit.
Proof.
  pose proof (nbits_split _ Hb1). pose proof (nbits_split _ Hb2).
  exists (mint_value nBits1), (mint_value nBits2).
  rewrite !TargetGetMint_eq by (done || lia). split; [done|]. split; [done|]. split; [done|].
  pose proof (mint_value_range nBits1). pose proof (mint_value_range nBits2).
  pose proof (mint_value_anti nBits1 nBits2). lia.
Qed.

(** Below the minimum chain length no value is minted and the function
    reports failure. *)
Theorem TargetGetMint_below_minimum tp nBits (Hl : TargetGetLength nBits < nTargetMinLength tp) :
  TargetGetMint tp nBits = Some (false, 0).
Proof. unfold TargetGetMint. by rewrite (proj2 (Z.ltb_lt _ _)). Qed.

(** the work transition estimate is an average: it stays between the
    previous estimate and the target bounds it is pulled toward.  The fractional
    part is assumed below the step-up threshold, which the retarget guarantees;
    beyond it the 64-bit product of the code can overflow. *)
Theorem EstimateWorkTransition_between nPrev nBits nChainLength
  (Hp : nbits_ok nPrev) (Hb : nbits_ok nBits) (Hc : nbits_ok nChainLength)
  (Hl : TargetGetLength nBits < 254) (Hf : TargetGetFractional nBits <= 2 ^ 24 - 2 ^ 16) :
  let w := EstimateWorkTransition nPrev nBits nChainLength in
  Z.min nPrev (TargetGetLength nBits * 2 ^ 24) <= w <= Z.max nPrev ((TargetGetLength nBits + 1) * 2 ^ 24).
Proof.
  unfold EstimateWorkTransition. cbv zeta.
  pose proof (nbits_split nBits Hb) as (_ & Hlen & _). unfold nbits_ok in *.
  rewrite !TargetSetLength_zero by lia. cbn [snd].
  pose proof (FD_below_threshold nBits Hb Hf) as Hfd.
  rewrite (u64_small ((500 - 1) * _)) by lia. rewrite Z.shiftr_div_pow2 by lia.
  set (w := (500 - 1) * TargetGetFractionalDifficulty nBits / 2 ^ 32).
  assert (Hw : 499 <= w <= 499 * 2 ^ 8).
  { unfold w. split; [apply Z.div_le_lower_bound; lia|apply Z.div_le_upper_bound; lia]. }
  destruct (TargetGetLength nBits <? TargetGetLength nChainLength).
  - rewrite (u64_small (nPrev * w)), (u64_small (2 * _)), u64_small, u64_small by nia.
    assert (Hq : Z.min nPrev (TargetGetLength nBits * 2 ^ 24) <=
      (nPrev * w + 2 * (TargetGetLength nBits * 2 ^ 24)) / (w + 2) <=
      Z.max nPrev (TargetGetLength nBits * 2 ^ 24)).
    { split; [apply Z.div_le_lower_bound; nia|apply Z.div_le_upper_bound; nia]. }
    rewrite s64_small, u32_small by lia. lia.
  - rewrite (s64_small ((500 - 1) * nPrev)), (u64_small (2 * _)), u64_small, u64_small by nia.
    assert (Hq : Z.min nPrev ((TargetGetLength nBits + 1) * 2 ^ 24) <=
      ((500 - 1) * nPrev + 2 * ((TargetGetLength nBits + 1) * 2 ^ 24)) / (500 + 1) <=
      Z.max nPrev ((TargetGetLength nBits + 1) * 2 ^ 24)).
    { split; [apply Z.div_le_lower_bound; nia|apply Z.div_le_upper_bound; nia]. }
    rewrite s64_small, u32_small by lia. lia.
Qed.

End Properties.

(** *** Witnesses: mainnet, target length 7 and one minute spacing *)

Definition week_interval : Z := 7 * 24 * 60 * 60 / 60.

Ltac arith_closed := cbv; repeat split; (discriminate || reflexivity || (intros; discriminate)).

(** the last block 302370 seconds before the one before it *)
Lemma TargetGetNext_in_bounds_witness :
  (exists nBitsNext, TargetGetNext mainnet_target (7 * 2 ^ 24 + 5) week_interval 60 45 = Some (true, nBitsNext) /\
    nbits_ok nBitsNext /\ 6 <= TargetGetLength nBitsNext /\
    Z.abs (TargetGetLength nBitsNext - 7) <= 1 /\ TargetGetFractional nBitsNext <= 2 ^ 24 - 2 ^ 16) /\
  TargetGetNext mainnet_target (7 * 2 ^ 24 + 5) week_interval 60 (-302370) = None /\
  exists nBitsNext, TargetGetNext mainnet_target (7 * 2 ^ 24 + 5) week_interval 60 (-302371) = Some (true, nBitsNext) /\ nBitsNext <= 7 * 2 ^ 24 + 5.
Proof.
  split; [|split].
  - destruct (proj2 (TargetGetNext_in_bounds mainnet_target (7 * 2 ^ 24 + 5) week_interval 60 45 ltac:(arith_closed) ltac:(arith_closed) ltac:(arith_closed) ltac:(arith_closed))) as (b & H1 & H2 & H3 & H4 & H5 & _);
      [discriminate|]. exists b. exact (conj H1 (conj H2 (conj H3 (conj H4 H5)))).
  - apply (proj1 (TargetGetNext_in_bounds mainnet_target (7 * 2 ^ 24 + 5) week_interval 60 (-302370) ltac:(arith_closed) ltac:(arith_closed) ltac:(arith_closed) ltac:(arith_closed))). reflexivity.
  - destruct (proj2 (TargetGetNext_in_bounds mainnet_target (7 * 2 ^ 24 + 5) week_interval 60 (-302371) ltac:(arith_closed) ltac:(arith_closed) ltac:(arith_closed) ltac:(arith_closed))) as (b & H1 & _ & _ & _ & _ & H2);
      [discriminate|]. exists b. split; [exact H1|]. apply H2. reflexivity.
Defined.

Lemma TargetGetNext_monotone_witness :
  exists b1 b2, TargetGetNext mainnet_target (7 * 2 ^ 24 + 5) week_interval 60 45 = Some (true, b1) /\
    TargetGetNext mainnet_target (7 * 2 ^ 24 + 5) week_interval 60 75 = Some (true, b2) /\ b2 <= b1.
Proof. apply (TargetGetNext_monotone mainnet_target (7 * 2 ^ 24 + 5) week_interval 60 45 75); arith_closed. Defined.

Lemma TargetGetNext_stationary_witness :
  TargetGetNext mainnet_target (7 * 2 ^ 24 + 5) week_interval 60 60 = Some (true, 7 * 2 ^ 24 + 5).
Proof. apply (TargetGetNext_stationary mainnet_target (7 * 2 ^ 24 + 5) week_interval 60); arith_closed. Defined.

Lemma fractional_difficulty_roundtrip_witness :
  TargetSetFractionalDifficulty (TargetGetFractionalDifficulty (7 * 2 ^ 24 + 5)) (7 * 2 ^ 24 + 5)
  = (true, 7 * 2 ^ 24 + 5).
Proof. apply (fractional_difficulty_roundtrip (7 * 2 ^ 24 + 5)); arith_closed. Defined.

Lemma TargetGetMint_schedule_witness :
  exists m1 m2, TargetGetMint mainnet_target (7 * 2 ^ 24) = Some (true, m1) /\
    TargetGetMint mainnet_target (8 * 2 ^ 24) = Some (true, m2) /\
    m1 = nMintLimit * 2 ^ 24 / (7 * 2 ^ 24) * 2 ^ 24 / (7 * 2 ^ 24) / CENT * CENT /\
    0 <= m2 <= m1 /\ m1 <= nMintLimit.
Proof. apply (TargetGetMint_schedule mainnet_target (7 * 2 ^ 24) (8 * 2 ^ 24)); arith_closed. Defined.

Lemma TargetGetMint_below_minimum_witness : TargetGetMint mainnet_target (5 * 2 ^ 24) = Some (false, 0).
Proof. apply (TargetGetMint_below_minimum mainnet_target (5 * 2 ^ 24)); arith_closed. Defined.

Lemma EstimateWorkTransition_between_witness :
  Z.min (7 * 2 ^ 24) (7 * 2 ^ 24) <= EstimateWorkTransition (7 * 2 ^ 24) (7 * 2 ^ 24 + 9) (8 * 2 ^ 24)
  <= Z.max (7 * 2 ^ 24) (8 * 2 ^ 24).
Proof. apply (EstimateWorkTransition_between (7 * 2 ^ 24) (7 * 2 ^ 24 + 9) (8 * 2 ^ 24)); arith_closed. Defined.

(** Seven-chain targets mint 20.38 coins, and five minutes of delay lower the
    fractional part. *)
Example mint_at_7 : TargetGetMint mainnet_target (7 * 2 ^ 24) = Some (true, 2038000000).
Proof. vm_compute. reflexivity. Qed.
Example target_string : TargetToString (7 * 2 ^ 24 + 255) = [48; 55; 46; 48; 48; 48; 48; 102; 102].
Proof. vm_compute. reflexivity. Qed.
