(* ===== verification/Text.v ===== *)
(** * Text formats (util.cpp, util.h)

    Amounts ([FormatMoney], [ParseMoney]), hexadecimal dumps ([HexStr], [IsHex], [ParseHex]), base 64 and base 32, wildcard patterns,
    the splitting of a string.  A string is a list of bytes; a function of the source that takes a [const char*] reads up
    to the first zero byte, so that its argument here is the list before it, and reading the terminator is reading at the end of the list. *)

From S2P Require Import Prelude BigNum Target.
Local Open Scope Z_scope.

Definition isdigit (c : Z) : bool := (48 <=? c) && (c <=? 57).

(** ** Decimal numbers: the C library's [%lld], [%08lld] and [strtoll] *)

Fixpoint decimal (fuel : nat) (z : Z) : bytes :=
  match fuel with O => [] | S k => (if z <? 10 then [] else decimal k (z / 10)) ++ [48 + z mod 10] end.
Definition printf_d (z : Z) : bytes := if z <? 0 then 45 :: decimal 19 (- z) else decimal 19 z.
Definition printf_08d (z : Z) : bytes :=
  let '(sign, digits) := if z <? 0 then ([45], decimal 19 (- z)) else ([], decimal 19 z) in
  sign ++ repeat 48 (8 - length sign - length digits)%nat ++ digits.

Fixpoint strtoll_digits (acc : Z) (p : bytes) : Z :=
  match p with c :: r => if isdigit c then strtoll_digits (acc * 10 + (c - 48)) r else acc | [] => acc end.
(** out of range: the nearest value *)
Definition atoi64 (psz : bytes) : Z :=
  let psz := skip_spaces psz in
  let z := match psz with
    | c :: r => if c =? 45 then - strtoll_digits 0 r else if c =? 43 then strtoll_digits 0 r else strtoll_digits 0 psz
    | [] => 0 end in
  Z.max (- 2 ^ 63) (Z.min (2 ^ 63 - 1) z).

(** ** Amounts *)

(** the loop over the string from its end: [None] if it reads before the beginning *)
Fixpoint count_zeros (rstr : bytes) : option nat :=
  match rstr with
  | [] => None
  | c :: r => if c =? 48 then match r with _ :: c2 :: _ => if isdigit c2 then S <$> count_zeros r else Some 0%nat | _ => None end else Some 0%nat
  end.
(** [None]: [-n] overflows *)
Definition FormatMoney (n : Z) (fPlus : bool) : option bytes :=
  if n =? - 2 ^ 63 then None
  else
    let n_abs := if 0 <? n then n else - n in
    let quotient := cdiv n_abs COIN in
    let remainder := crem n_abs COIN in
    let str := printf_d quotient ++ [46] ++ printf_08d remainder in
    let? nTrim := count_zeros (rev str) in
    let str := take (length str - nTrim) str in
    Some (if n <? 0 then 45 :: str else if fPlus && (0 <? n) then 43 :: str else str).

Fixpoint parse_units (nMult nUnits : Z) (p : bytes) : Z * bytes :=
  match p with
  | c :: r => if isdigit c && (0 <? nMult) then parse_units (cdiv nMult 10) (s64 (nUnits + nMult * (c - 48))) r else (nUnits, p)
  | [] => (nUnits, [])
  end.
(** the whole part, the units, what is left; [None]: return false *)
Fixpoint parse_whole (strWhole : bytes) (p : bytes) : option (bytes * Z * bytes) :=
  match p with
  | [] => Some (strWhole, 0, [])
  | c :: r =>
    if c =? 46 then let '(nUnits, p) := parse_units (CENT * 10) 0 r in Some (strWhole, nUnits, p)
    else if isspace c then Some (strWhole, 0, p)
    else if negb (isdigit c) then None
    else parse_whole (strWhole ++ [c]) r
  end.
Definition ParseMoney (pszIn : bytes) : option Z :=
  let? (strWhole, nUnits, p) := parse_whole [] (skip_spaces pszIn) in
  if negb (forallb isspace p) then None
  else if bool_decide (10 < length strWhole)%nat then None
  else if (nUnits <? 0) || (COIN <? nUnits) then None
  else
    let nWhole := atoi64 strWhole in
    Some (s64 (nWhole * COIN + nUnits)).

(** ** Hexadecimal *)

Definition phexdigit (c : Z) : Z :=
  if (48 <=? c) && (c <=? 57) then c - 48
  else if (65 <=? c) && (c <=? 70) then c - 55
  else if (97 <=? c) && (c <=? 102) then c - 87 else -1.
Definition hexmap (d : Z) : Z := if d <? 10 then 48 + d else 87 + d.
Fixpoint hex_bytes (fSpaces fFirst : bool) (l : bytes) : bytes :=
  match l with
  | [] => []
  | val :: r => (if fSpaces && negb fFirst then [32] else []) ++ hexmap (Z.shiftr val 4) :: hexmap (Z.land val 15) :: hex_bytes fSpaces false r
  end.
Definition HexStr (vch : bytes) (fSpaces : bool) : bytes := hex_bytes fSpaces true vch.
Definition IsHex (str : bytes) : bool :=
  forallb (fun c => 0 <=? phexdigit c) str && bool_decide (0 < length str)%nat && (length str mod 2 =? 0)%nat.
Fixpoint ParseHex (psz : bytes) : bytes :=
  match psz with
  | [] => []
  | a :: r =>
    if isspace a then ParseHex r
    else if phexdigit a =? -1 then []
    else match r with
      | [] => []
      | b :: r => if phexdigit b =? -1 then [] else Z.lor (u8 (Z.shiftl (phexdigit a) 4)) (phexdigit b) :: ParseHex r
      end
  end.

(** ** Base 64 and base 32 *)

Definition pbase64 (d : Z) : Z := if d <? 26 then 65 + d else if d <? 52 then 71 + d else if d <? 62 then d - 4 else if d =? 62 then 43 else 47.
Definition decode64_table (c : Z) : Z :=
  if (65 <=? c) && (c <=? 90) then c - 65 else if (97 <=? c) && (c <=? 122) then c - 71
  else if (48 <=? c) && (c <=? 57) then c + 4 else if c =? 43 then 62 else if c =? 47 then 63 else -1.
Definition pbase32 (d : Z) : Z := if d <? 26 then 97 + d else 24 + d.
Definition decode32_table (c : Z) : Z :=
  if (65 <=? c) && (c <=? 90) then c - 65 else if (97 <=? c) && (c <=? 122) then c - 97 else if (50 <=? c) && (c <=? 55) then c - 24 else -1.

Fixpoint encode64 (mode : nat) (left : Z) (pch : bytes) : bytes :=
  match pch with
  | [] => match mode with O => [] | S O => [pbase64 left; 61; 61] | _ => [pbase64 left; 61] end
  | enc :: r =>
    match mode with
    | 0%nat => pbase64 (Z.shiftr enc 2) :: encode64 1 (Z.shiftl (Z.land enc 3) 4) r
    | 1%nat => pbase64 (Z.lor left (Z.shiftr enc 4)) :: encode64 2 (Z.shiftl (Z.land enc 15) 2) r
    | _ => pbase64 (Z.lor left (Z.shiftr enc 6)) :: pbase64 (Z.land enc 63) :: encode64 0 left r
    end
  end.
Definition EncodeBase64 (pch : bytes) : bytes := encode64 0 0 pch.

(** the bytes, the mode, the bits left, what is left of the text *)
Definition decoded : Type := bytes * nat * Z * bytes.
Definition push_back (b : Z) (d : decoded) : decoded := let '(vchRet, mode, bits, p) := d in (u8 b :: vchRet, mode, bits, p).
Fixpoint decode64 (mode : nat) (left : Z) (p : bytes) : decoded :=
  match p with
  | [] => ([], mode, left, [])
  | c :: r =>
    let dec := decode64_table c in
    if dec =? -1 then ([], mode, left, p)
    else match mode with
      | 0%nat => decode64 1 dec r
      | 1%nat => push_back (Z.lor (Z.shiftl left 2) (Z.shiftr dec 4)) (decode64 2 (Z.land dec 15) r)
      | 2%nat => push_back (Z.lor (Z.shiftl left 4) (Z.shiftr dec 2)) (decode64 3 (Z.land dec 3) r)
      | _ => push_back (Z.lor (Z.shiftl left 6) dec) (decode64 0 left r)
      end
  end.
(** [p] begins with [n] signs [=], and then no digit *)
Fixpoint padded (table : Z -> Z) (n : nat) (p : bytes) : bool :=
  match n with
  | O => table (hd 0 p) =? -1
  | S n => match p with c :: r => (c =? 61) && padded table n r | [] => false end
  end.
(** what [pfInvalid] says about the end of the text *)
Definition invalid64 (mode : nat) (bits : Z) (p : bytes) : bool :=
  match mode with
  | 0%nat => false
  | 1%nat => true
  | 2%nat => negb (bits =? 0) || negb (padded decode64_table 2 p)
  | _ => negb (bits =? 0) || negb (padded decode64_table 1 p)
  end.
(** the bytes and [pfInvalid] *)
Definition DecodeBase64 (p : bytes) : bytes * bool :=
  let '(vchRet, mode, bits, p) := decode64 0 0 p in (vchRet, invalid64 mode bits p).

Fixpoint encode32 (mode : nat) (left : Z) (pch : bytes) : bytes :=
  match pch with
  | [] => match mode with O => [] | _ => pbase32 left :: repeat 61 (nth mode [0; 6; 4; 3; 1] 0)%nat end
  | enc :: r =>
    match mode with
    | 0%nat => pbase32 (Z.shiftr enc 3) :: encode32 1 (Z.shiftl (Z.land enc 7) 2) r
    | 1%nat => pbase32 (Z.lor left (Z.shiftr enc 6)) :: pbase32 (Z.land (Z.shiftr enc 1) 31) :: encode32 2 (Z.shiftl (Z.land enc 1) 4) r
    | 2%nat => pbase32 (Z.lor left (Z.shiftr enc 4)) :: encode32 3 (Z.shiftl (Z.land enc 15) 1) r
    | 3%nat => pbase32 (Z.lor left (Z.shiftr enc 7)) :: pbase32 (Z.land (Z.shiftr enc 2) 31) :: encode32 4 (Z.shiftl (Z.land enc 3) 3) r
    | _ => pbase32 (Z.lor left (Z.shiftr enc 5)) :: pbase32 (Z.land enc 31) :: encode32 0 left r
    end
  end.
Definition EncodeBase32 (pch : bytes) : bytes := encode32 0 0 pch.

Fixpoint decode32 (mode : nat) (left : Z) (p : bytes) : decoded :=
  match p with
  | [] => ([], mode, left, [])
  | c :: r =>
    let dec := decode32_table c in
    if dec =? -1 then ([], mode, left, p)
    else match mode with
      | 0%nat => decode32 1 dec r
      | 1%nat => push_back (Z.lor (Z.shiftl left 3) (Z.shiftr dec 2)) (decode32 2 (Z.land dec 3) r)
      | 2%nat => decode32 3 (Z.lor (Z.shiftl left 5) dec) r
      | 3%nat => push_back (Z.lor (Z.shiftl left 1) (Z.shiftr dec 4)) (decode32 4 (Z.land dec 15) r)
      | 4%nat => push_back (Z.lor (Z.shiftl left 4) (Z.shiftr dec 1)) (decode32 5 (Z.land dec 1) r)
      | 5%nat => decode32 6 (Z.lor (Z.shiftl left 5) dec) r
      | 6%nat => push_back (Z.lor (Z.shiftl left 2) (Z.shiftr dec 3)) (decode32 7 (Z.land dec 7) r)
      | _ => push_back (Z.lor (Z.shiftl left 5) dec) (decode32 0 left r)
      end
  end.
Definition invalid32 (mode : nat) (bits : Z) (p : bytes) : bool :=
  match mode with
  | 0%nat => false
  | 1%nat | 3%nat | 6%nat => true
  | 2%nat => negb (bits =? 0) || negb (padded decode32_table 6 p)
  | 4%nat => negb (bits =? 0) || negb (padded decode32_table 4 p)
  | 5%nat => negb (bits =? 0) || negb (padded decode32_table 3 p)
  | _ => negb (bits =? 0) || negb (padded decode32_table 1 p)
  end.
Definition DecodeBase32 (p : bytes) : bytes * bool :=
  let '(vchRet, mode, bits, p) := decode32 0 0 p in (vchRet, invalid32 mode bits p).

(** ** Patterns and pieces *)

Fixpoint WildcardMatch (mask psz : bytes) : bool :=
  match mask with
  | [] => match psz with [] => true | _ => false end
  | m :: mask' =>
    if m =? 42 then (fix star (psz : bytes) : bool := WildcardMatch mask' psz || match psz with [] => false | _ :: r => star r end) psz
    else match psz with [] => false | c :: r => ((m =? 63) || (c =? m)) && WildcardMatch mask' r end
  end.

(** [str.find(c)]: what is before the first [c], and what is after it *)
Fixpoint str_find (c : Z) (str : bytes) : option (bytes * bytes) :=
  match str with
  | [] => None
  | a :: r => if a =? c then Some ([], r) else (fun '(x, y) => (a :: x, y)) <$> str_find c r
  end.
(** one piece for a turn of the loop; a turn that is not the last consumes a byte *)
Fixpoint pieces (fuel : nat) (c : Z) (str : bytes) : list bytes :=
  match fuel with
  | O => []
  | S k => match str_find c str with None => [str] | Some (piece, rest) => piece :: pieces k c rest end
  end.
Definition ParseString (str : bytes) (c : Z) : list bytes := match str with [] => [] | _ => pieces (S (length str)) c str end.

(** letters, digits and the signs [ .,;_/:?@-()] *)
Definition safeChars (c : Z) : bool :=
  ((97 <=? c) && (c <=? 122)) || ((65 <=? c) && (c <=? 90)) || isdigit c || existsb (Z.eqb c) [32; 46; 44; 59; 95; 47; 58; 63; 64; 45; 40; 41].
Definition SanitizeString (str : bytes) : bytes := List.filter safeChars str.

(** comparison in a time that depends on the length of the first argument only *)
Definition TimingResistantEqual (a b : bytes) : bool :=
  if (length b =? 0)%nat then (length a =? 0)%nat
  else Z.eqb 0 (foldl Z.lor (Z.lxor (Z.of_nat (length a)) (Z.of_nat (length b)))
    (imap (fun i x => Z.lxor x (nth (i mod length b) b 0)) a)).

Example money_text : FormatMoney 123456789000 false = Some [49; 50; 51; 52; 46; 53; 54; 55; 56; 57] /\ ParseMoney [49; 50; 51; 52; 46; 53; 54; 55; 56; 57] = Some 123456789000.
Proof. vm_compute. done. Qed.
Example base64_text : EncodeBase64 [102; 111; 111; 98] = [90; 109; 57; 118; 89; 103; 61; 61] /\ DecodeBase64 [90; 109; 57; 118; 89; 103; 61; 61] = ([102; 111; 111; 98], false).
Proof. vm_compute. done. Qed.
Example base32_text : EncodeBase32 [102; 111; 111; 98] = [109; 122; 120; 119; 54; 121; 113; 61] /\ DecodeBase32 [109; 122; 120; 119; 54; 121; 113; 61] = ([102; 111; 111; 98], false).
Proof. vm_compute. done. Qed.

(** ** Base 64 and base 32: decoding after encoding *)

Lemma masks z : Z.land z 1 = z mod 2 /\ Z.land z 3 = z mod 4 /\ Z.land z 7 = z mod 8 /\ Z.land z 15 = z mod 16 /\ Z.land z 31 = z mod 32 /\ Z.land z 63 = z mod 64.
Proof. split_and!; apply (Z.land_ones z 1) || apply (Z.land_ones z 2) || apply (Z.land_ones z 3) || apply (Z.land_ones z 4) || apply (Z.land_ones z 5) || apply (Z.land_ones z 6); lia. Qed.
Lemma lor_scaled a b n k : k = 2 ^ n -> 0 <= n -> 0 <= b < k -> Z.lor (a * k) b = a * k + b.
Proof. intros -> Hn Hb. by apply lor_disjoint_add. Qed.
(** shifts and masks as arithmetic *)
Ltac arith_bits :=
  unfold is_byte, u8 in *; rewrite ?Z.shiftl_mul_pow2, ?Z.shiftr_div_pow2 by lia;
  repeat match goal with |- context [Z.land ?z ?m] => first [rewrite (proj1 (masks z)) | rewrite (proj1 (proj2 (masks z))) | rewrite (proj1 (proj2 (proj2 (masks z))))
    | rewrite (proj1 (proj2 (proj2 (proj2 (masks z))))) | rewrite (proj1 (proj2 (proj2 (proj2 (proj2 (masks z)))))) | rewrite (proj2 (proj2 (proj2 (proj2 (proj2 (masks z))))))] end;
  change (2 ^ 1) with 2; change (2 ^ 2) with 4; change (2 ^ 3) with 8; change (2 ^ 4) with 16; change (2 ^ 5) with 32; change (2 ^ 6) with 64; change (2 ^ 7) with 128; change (2 ^ 8) with 256;
  repeat match goal with
  | |- context [Z.lor (?a * 2) ?b] => rewrite (lor_scaled a b 1 2) by (reflexivity || dlia)
  | |- context [Z.lor (?a * 4) ?b] => rewrite (lor_scaled a b 2 4) by (reflexivity || dlia)
  | |- context [Z.lor (?a * 8) ?b] => rewrite (lor_scaled a b 3 8) by (reflexivity || dlia)
  | |- context [Z.lor (?a * 16) ?b] => rewrite (lor_scaled a b 4 16) by (reflexivity || dlia)
  | |- context [Z.lor (?a * 32) ?b] => rewrite (lor_scaled a b 5 32) by (reflexivity || dlia)
  | |- context [Z.lor (?a * 64) ?b] => rewrite (lor_scaled a b 6 64) by (reflexivity || dlia)
  end; dlia.

Lemma decode64_digit d : 0 <= d < 64 -> decode64_table (pbase64 d) = d.
Proof. intros H. unfold pbase64, decode64_table. repeat case_match; b2p; lia. Qed.
Lemma decode32_digit d : 0 <= d < 32 -> decode32_table (pbase32 d) = d.
Proof. intros H. unfold pbase32, decode32_table. repeat case_match; b2p; lia. Qed.
Lemma decode64_step mode left d r : 0 <= d < 64 -> decode64 mode left (pbase64 d :: r) =
  match mode with
  | 0%nat => decode64 1 d r
  | 1%nat => push_back (Z.lor (Z.shiftl left 2) (Z.shiftr d 4)) (decode64 2 (Z.land d 15) r)
  | 2%nat => push_back (Z.lor (Z.shiftl left 4) (Z.shiftr d 2)) (decode64 3 (Z.land d 3) r)
  | _ => push_back (Z.lor (Z.shiftl left 6) d) (decode64 0 left r)
  end.
Proof. intros H. cbn [decode64]. rewrite decode64_digit by done. by rewrite (proj2 (Z.eqb_neq d (-1))) by lia. Qed.

(** the decoder is done with the bytes of [l], and takes the text for a valid one *)
Definition yields (invalid : nat -> Z -> bytes -> bool) (d : decoded) (l : bytes) : Prop :=
  let '(vchRet, mode, bits, p) := d in vchRet = l /\ invalid mode bits p = false.
Lemma yields_push inv b d l e : u8 b = e -> yields inv d l -> yields inv (push_back b d) (e :: l).
Proof. intros <-. destruct d as [[[v m] c] p]. cbn. intros [-> ?]. done. Qed.
Lemma yields_end inv mode bits p : inv mode bits p = false -> yields inv ([], mode, bits, p) [].
Proof. done. Qed.

Ltac digit_step step := rewrite step by arith_bits; cbv iota.
Ltac push_byte := apply yields_push; [arith_bits|].
Lemma base64_modes l : all_bytes l -> (forall x y, yields invalid64 (decode64 0 x (encode64 0 y l)) l) /\
  (forall e b c, is_byte e -> b = e / 4 -> c = e mod 4 * 16 -> yields invalid64 (decode64 1 b (encode64 1 c l)) (e :: l)) /\
  (forall e b c, is_byte e -> b = e / 16 -> c = e mod 16 * 4 -> yields invalid64 (decode64 2 b (encode64 2 c l)) (e :: l)).
Proof.
  induction 1 as [|a l Ha Hl (IH0 & IH1 & IH2)]; cbn [encode64].
  - split; [done|]. split; intros e b c He -> ->; digit_step decode64_step; push_byte; apply yields_end; cbn [invalid64 padded]; rewrite orb_false_r; apply negb_false_iff, Z.eqb_eq; arith_bits.
  - split_and!.
    + intros x y. digit_step decode64_step. apply IH1; [done|arith_bits..].
    + intros e b c He -> ->. digit_step decode64_step. push_byte. apply IH2; [done|arith_bits..].
    + intros e b c He -> ->. do 2 (digit_step decode64_step; push_byte). apply IH0.
Qed.
Lemma decode32_step mode left d r : 0 <= d < 32 -> decode32 mode left (pbase32 d :: r) =
  match mode with
  | 0%nat => decode32 1 d r
  | 1%nat => push_back (Z.lor (Z.shiftl left 3) (Z.shiftr d 2)) (decode32 2 (Z.land d 3) r)
  | 2%nat => decode32 3 (Z.lor (Z.shiftl left 5) d) r
  | 3%nat => push_back (Z.lor (Z.shiftl left 1) (Z.shiftr d 4)) (decode32 4 (Z.land d 15) r)
  | 4%nat => push_back (Z.lor (Z.shiftl left 4) (Z.shiftr d 1)) (decode32 5 (Z.land d 1) r)
  | 5%nat => decode32 6 (Z.lor (Z.shiftl left 5) d) r
  | 6%nat => push_back (Z.lor (Z.shiftl left 2) (Z.shiftr d 3)) (decode32 7 (Z.land d 7) r)
  | _ => push_back (Z.lor (Z.shiftl left 5) d) (decode32 0 left r)
  end.
Proof. intros H. cbn [decode32]. rewrite decode32_digit by done. by rewrite (proj2 (Z.eqb_neq d (-1))) by lia. Qed.
Lemma base32_modes l : all_bytes l -> (forall x y, yields invalid32 (decode32 0 x (encode32 0 y l)) l) /\
  (forall e b c, is_byte e -> b = e / 8 -> c = e mod 8 * 4 -> yields invalid32 (decode32 1 b (encode32 1 c l)) (e :: l)) /\
  (forall e b c, is_byte e -> b = e / 2 -> c = e mod 2 * 16 -> yields invalid32 (decode32 3 b (encode32 2 c l)) (e :: l)) /\
  (forall e b c, is_byte e -> b = e / 16 -> c = e mod 16 * 2 -> yields invalid32 (decode32 4 b (encode32 3 c l)) (e :: l)) /\
  (forall e b c, is_byte e -> b = e / 4 -> c = e mod 4 * 8 -> yields invalid32 (decode32 6 b (encode32 4 c l)) (e :: l)).
Proof.
  induction 1 as [|a l Ha Hl (IH0 & IH1 & IH2 & IH3 & IH4)]; cbn [encode32].
  - split; [done|]. split_and!; intros e b c He -> ->; digit_step decode32_step; push_byte; apply yields_end; cbn [invalid32 padded]; rewrite orb_false_r; apply negb_false_iff, Z.eqb_eq; arith_bits.
  - split_and!.
    + intros x y. digit_step decode32_step. apply IH1; [done|arith_bits..].
    + intros e b c He -> ->. digit_step decode32_step. push_byte. digit_step decode32_step. apply IH2; [done|arith_bits..].
    + intros e b c He -> ->. digit_step decode32_step. push_byte. apply IH3; [done|arith_bits..].
    + intros e b c He -> ->. digit_step decode32_step. push_byte. digit_step decode32_step. apply IH4; [done|arith_bits..].
    + intros e b c He -> ->. do 2 (digit_step decode32_step; push_byte). apply IH0.
Qed.

(** ** Hexadecimal *)

Lemma phexdigit_hexmap d : 0 <= d < 16 -> phexdigit (hexmap d) = d /\ isspace (hexmap d) = false.
Proof. intros H. unfold phexdigit, hexmap, isspace. split; repeat case_match; b2p; try lia. Qed.
Lemma phexdigit_range c : -1 <= phexdigit c < 16.
Proof. unfold phexdigit. repeat case_match; b2p; lia. Qed.
Lemma phexdigit_not_space c : 0 <= phexdigit c -> isspace c = false /\ hexmap (phexdigit c) = tolower c.
Proof. unfold phexdigit, isspace, hexmap, tolower. intros H. split; repeat case_match; b2p; lia. Qed.
Lemma ParseHex_digits a b r : 0 <= phexdigit a -> 0 <= phexdigit b ->
  ParseHex (a :: b :: r) = (phexdigit a * 16 + phexdigit b) :: ParseHex r.
Proof.
  intros Ha Hb. cbn [ParseHex]. rewrite (proj1 (phexdigit_not_space a Ha)). rewrite !(proj2 (Z.eqb_neq (phexdigit _) (-1))) by lia.
  pose proof (phexdigit_range a). pose proof (phexdigit_range b). f_equal. unfold u8. rewrite Z.mod_small by (rewrite Z.shiftl_mul_pow2; lia). arith_bits.
Qed.
Lemma ParseHex_HexStr fSpaces l : all_bytes l -> forall fFirst, ParseHex (hex_bytes fSpaces fFirst l) = l.
Proof.
  induction 1 as [|e l He _ IH]; intros fFirst; [done|]. cbn [hex_bytes].
  assert (H : ParseHex (hexmap (Z.shiftr e 4) :: hexmap (Z.land e 15) :: hex_bytes fSpaces false l) = e :: l).
  { destruct (phexdigit_hexmap (Z.shiftr e 4) ltac:(arith_bits)) as [E1 _]. destruct (phexdigit_hexmap (Z.land e 15) ltac:(arith_bits)) as [E2 _].
    rewrite ParseHex_digits by (rewrite ?E1, ?E2; arith_bits). rewrite E1, E2, IH. f_equal. arith_bits. }
  destruct (fSpaces && negb fFirst); [|done]. cbn [app]. change (isspace 32) with true in *. by cbn [ParseHex isspace].
Qed.
Lemma HexStr_ParseHex n : forall str, length str = (n * 2)%nat -> Forall (fun c => 0 <= phexdigit c) str ->
  forall fFirst, hex_bytes false fFirst (ParseHex str) = map tolower str.
Proof.
  induction n as [|n IH]; intros [|a [|b r]] Hlen H fFirst; try (cbn in Hlen; lia); [done|]. inversion H as [|? ? Ha H']. inversion H' as [|? ? Hb Hr]. subst.
  rewrite ParseHex_digits by done. cbn [hex_bytes map andb app]. rewrite (IH r) by (done || (cbn in Hlen; lia)). pose proof (phexdigit_range a). pose proof (phexdigit_range b).
  rewrite <- (proj2 (phexdigit_not_space a Ha)), <- (proj2 (phexdigit_not_space b Hb)). f_equal; [|f_equal]; f_equal; arith_bits.
Qed.

(** ** Patterns *)

(** what a pattern stands for: [*] any text, [?] any byte, another byte itself *)
Inductive matches : bytes -> bytes -> Prop :=
| matches_end : matches [] []
| matches_any x mask psz : matches mask psz -> matches (42 :: mask) (x ++ psz)
| matches_one c mask psz : matches mask psz -> matches (63 :: mask) (c :: psz)
| matches_char c mask psz : c <> 42 -> matches mask psz -> matches (c :: mask) (c :: psz).

Lemma star_spec (f : bytes -> bool) psz :
  (fix star (psz : bytes) : bool := f psz || match psz with [] => false | _ :: r => star r end) psz = true <-> exists x y, psz = x ++ y /\ f y = true.
Proof.
  induction psz as [|c psz IH].
  - rewrite orb_false_r. split; [by exists [], []|]. intros (x & y & E & H). symmetry in E. by apply app_eq_nil in E as [_ ->].
  - rewrite orb_true_iff, IH. split.
    + intros [H|(x & y & -> & H)]; [by exists [], (c :: psz)|by exists (c :: x), y].
    + intros ([|d x] & y & E & H); [by left; cbn in E; subst|]. right. injection E as -> ->. eauto.
Qed.
Lemma WildcardMatch_matches mask : forall psz, WildcardMatch mask psz = true <-> matches mask psz.
Proof.
  induction mask as [|m mask IH]; intros psz.
  - destruct psz; cbn; (split; [try done; intros _; constructor|by inversion 1]).
  - cbn [WildcardMatch]. destruct (Z.eqb_spec m 42) as [->|Hm].
    + rewrite star_spec. split.
      * intros (x & y & -> & H). constructor. by apply IH.
      * inversion 1; subst; [|done]. eexists _, _. split; [done|]. by apply IH.
    + destruct psz as [|c psz]; [split; [done|inversion 1; congruence]|]. rewrite andb_true_iff, orb_true_iff, !Z.eqb_eq, IH. split.
      * intros [[->| ->] H]; by constructor.
      * inversion 1; subst; [done|by split; [left|]|by split; [right|]].
Qed.

(** ** Pieces of a string *)

Fixpoint joined (c : Z) (l : list bytes) : bytes :=
  match l with [] => [] | [x] => x | x :: r => x ++ c :: joined c r end.
Lemma str_find_spec c str : match str_find c str with None => c ∉ str | Some (x, y) => str = x ++ c :: y /\ c ∉ x end.
Proof.
  induction str as [|a str IH]; cbn [str_find]; [by intros ?%elem_of_nil|]. destruct (Z.eqb_spec a c) as [->|Ha].
  - split; [done|by intros ?%elem_of_nil].
  - destruct (str_find c str) as [[x y]|]; cbn; [destruct IH as [-> IH]; split; [done|]|]; intros [?|?]%elem_of_cons; congruence || done.
Qed.
Lemma pieces_spec c fuel : forall str, (length str < fuel)%nat -> joined c (pieces fuel c str) = str /\ Forall (fun x => c ∉ x) (pieces fuel c str) /\ pieces fuel c str <> [].
Proof.
  induction fuel as [|fuel IH]; intros str Hf; [lia|]. cbn [pieces]. pose proof (str_find_spec c str) as H. destruct (str_find c str) as [[x y]|].
  - destruct H as [-> H]. rewrite length_app in Hf. cbn in Hf. destruct (IH y ltac:(lia)) as (E & Hy & Hn). split; [|split; [by constructor|done]].
    cbn [joined]. destruct (pieces fuel c y); [done|]. by rewrite E.
  - split; [done|]. split; [by constructor|done].
Qed.

(** ** The comparison in constant time *)

Lemma foldl_lor_zero l : forall a, foldl Z.lor a l = 0 <-> a = 0 /\ Forall (fun x => x = 0) l.
Proof.
  induction l as [|x l IH]; intros a; cbn [foldl]; [by split; [intros ->|intros [? _]]|].
  rewrite IH, Z.lor_eq_0_iff, Forall_cons. naive_solver.
Qed.
Lemma xor_all_zero a b : length a = length b ->
  Forall (fun x => x = 0) (imap (fun i x => Z.lxor x (nth (i mod length b) b 0)) a) <-> a = b.
Proof.
  intros Hl. rewrite Forall_lookup. split.
  - intros H. apply list_eq. intros i. destruct (a !! i) as [x|] eqn:Ha.
    + pose proof (lookup_lt_Some _ _ _ Ha) as Hi. destruct (lookup_lt_is_Some_2 b i ltac:(lia)) as [y Hb]. specialize (H i (Z.lxor x y)).
      rewrite list_lookup_imap, Ha in H. cbn in H. rewrite Nat.mod_small, (nth_lookup_Some _ _ _ _ Hb) in H by lia. rewrite Hb. f_equal. apply Z.lxor_eq, H. done.
    + symmetry. apply lookup_ge_None. apply lookup_ge_None in Ha. lia.
  - intros -> i x. rewrite list_lookup_imap. intros (y & Hy & ->)%fmap_Some. pose proof (lookup_lt_Some _ _ _ Hy).
    rewrite Nat.mod_small, (nth_lookup_Some _ _ _ _ Hy) by lia. apply Z.lxor_nilpotent.
Qed.
Lemma TimingResistantEqual_spec a b : TimingResistantEqual a b = true <-> a = b.
Proof.
  unfold TimingResistantEqual. destruct b as [|y b].
  - cbn [length Nat.eqb]. destruct a; cbn; split; done.
  - set (b' := y :: b). change (length b' =? 0)%nat with false. cbv iota. rewrite Z.eqb_sym, Z.eqb_eq, foldl_lor_zero, Z.lxor_eq_0_iff. split.
    + intros [Hl H]. by apply xor_all_zero in H; [|lia].
    + intros ->. split; [done|]. by apply xor_all_zero.
Qed.

(** ** Amounts *)

Definition digits (l : bytes) : Prop := Forall (fun c => isdigit c = true) l.
Fixpoint value (acc : Z) (l : bytes) : Z := match l with [] => acc | c :: r => value (acc * 10 + (c - 48)) r end.
Lemma isdigit_spec c : isdigit c = true <-> 48 <= c <= 57.
Proof. unfold isdigit. rewrite andb_true_iff, !Z.leb_le. lia. Qed.
Lemma value_app l1 : forall acc l2, value acc (l1 ++ l2) = value (value acc l1) l2.
Proof. induction l1 as [|c l1 IH]; intros acc l2; cbn; [done|apply IH]. Qed.
Lemma value_acc l : forall acc, value acc l = acc * 10 ^ Z.of_nat (length l) + value 0 l.
Proof.
  induction l as [|c l IH]; intros acc; cbn [value length]; [cbn; lia|]. rewrite IH, (IH (0 * 10 + (c - 48))), Nat2Z.inj_succ, Z.pow_succ_r by lia. lia.
Qed.
Lemma value_bound l : digits l -> 0 <= value 0 l < 10 ^ Z.of_nat (length l).
Proof.
  induction 1 as [|c l Hc _ IH]; cbn [value length]; [cbn; lia|]. apply isdigit_spec in Hc. rewrite value_acc, Nat2Z.inj_succ, Z.pow_succ_r by lia. nia.
Qed.
Lemma strtoll_digits_value l : digits l -> forall acc, strtoll_digits acc l = value acc l.
Proof. induction 1 as [|c l Hc _ IH]; intros acc; cbn; [done|]. rewrite Hc. apply IH. Qed.
Lemma decimal_spec fuel : forall z, 0 <= z < 10 ^ Z.of_nat fuel -> digits (decimal fuel z) /\ value 0 (decimal fuel z) = z /\ (length (decimal fuel z) <= fuel)%nat.
Proof.
  induction fuel as [|fuel IH]; intros z Hz; cbn [decimal]; [cbn in *; split_and!; [constructor|lia|lia]|].
  rewrite Nat2Z.inj_succ, Z.pow_succ_r in Hz by lia. assert (Hd : isdigit (48 + z mod 10) = true) by (apply isdigit_spec; dlia).
  destruct (Z.ltb_spec z 10) as [Hs|Hs].
  - cbn. split_and!; [by repeat constructor|dlia|lia].
  - destruct (IH (z / 10)) as (H1 & H2 & H3); [dlia|]. split_and!; [apply Forall_app; by repeat constructor| |rewrite length_app; cbn; lia].
    rewrite value_app, H2. cbn. dlia.
Qed.
(** [k] digits are enough below [10^k] *)
Lemma decimal_length fuel k : forall z, 0 <= z < 10 ^ Z.of_nat k -> (0 < k)%nat -> (length (decimal fuel z) <= k)%nat.
Proof.
  revert k. induction fuel as [|fuel IH]; intros k z Hz Hk; cbn [decimal]; [cbn; lia|]. rewrite length_app. cbn [length].
  destruct (Z.ltb_spec z 10) as [Hs|Hs]; [cbn; lia|]. destruct k as [|[|k]]; [lia|cbn in Hz; lia|].
  specialize (IH (S k) (z / 10)). rewrite Nat2Z.inj_succ, Z.pow_succ_r in Hz by lia. specialize (IH ltac:(dlia) ltac:(lia)). lia.
Qed.
Lemma decimal_nonempty fuel z : decimal (S fuel) z <> [].
Proof. cbn. by destruct (if z <? 10 then _ else _). Qed.
Lemma printf_d_spec q : 0 <= q < 10 ^ 11 -> digits (printf_d q) /\ value 0 (printf_d q) = q /\ printf_d q <> [] /\ (q < 10 ^ 10 -> (length (printf_d q) <= 10)%nat).
Proof.
  intros H. unfold printf_d. rewrite (proj2 (Z.ltb_ge q 0)) by lia. destruct (decimal_spec 19 q) as (H1 & H2 & _); [lia|].
  split_and!; [done|done|apply decimal_nonempty|]. intros Hq. apply (decimal_length 19 10 q); lia.
Qed.
Lemma printf_08d_spec r : 0 <= r < COIN -> digits (printf_08d r) /\ value 0 (printf_08d r) = r /\ length (printf_08d r) = 8%nat.
Proof.
  intros H. unfold printf_08d. rewrite (proj2 (Z.ltb_ge r 0)) by lia. cbn [app length]. unfold COIN in H. destruct (decimal_spec 19 r) as (H1 & H2 & _); [lia|].
  pose proof (decimal_length 19 8 r ltac:(lia) ltac:(lia)) as Hl. split_and!.
  - apply Forall_app. split; [|done]. apply Forall_forall. intros x Hx. apply list_elem_of_In, repeat_spec in Hx. by subst.
  - rewrite value_app. etrans; [|exact H2]. f_equal. generalize (8 - 0 - length (decimal 19 r))%nat. induction n as [|n IH]; [done|exact IH].
  - rewrite length_app, repeat_length. lia.
Qed.
(** the loop ends at the second digit after the point at the latest *)
Lemma count_zeros_spec w : forall g, digits g -> (2 <= length g)%nat -> exists k, count_zeros (g ++ 46 :: w) = Some k /\ (k <= length g - 2)%nat /\ take k g = repeat 48 k.
Proof.
  induction g as [|c g IH]; intros Hg Hl; [cbn in Hl; lia|]. inversion Hg as [|? ? Hc Hg']. subst. cbn [app count_zeros]. destruct (Z.eqb_spec c 48) as [->|Hn].
  - destruct g as [|c1 [|c2 g]]; [cbn in Hl; lia|exists 0%nat; cbn; split_and!; [done|lia|done]|]. cbn [app]. inversion Hg' as [|? ? _ Hg2]. inversion Hg2 as [|? ? Hc2 _]. subst. rewrite Hc2.
    destruct (IH Hg' ltac:(cbn; lia)) as (k & E & Hk & Ht). exists (S k). cbn [app] in E. rewrite E. cbn in *. split_and!; [done|lia|by f_equal].
  - exists 0%nat. split_and!; [done|lia|done].
Qed.
Lemma parse_units_spec f : digits f -> forall j u, (length f <= j)%nat -> (j <= 8)%nat -> 0 <= u -> u + 10 ^ Z.of_nat j <= 2 ^ 62 ->
  parse_units (10 ^ Z.of_nat j / 10) u f = (u + value 0 f * 10 ^ Z.of_nat (j - length f), []).
Proof.
  induction 1 as [|c f Hc Hf IH]; intros j u Hl Hj Hu Hb; cbn [parse_units]; [by rewrite Z.mul_0_l, Z.add_0_r|].
  destruct j as [|j]; [cbn in Hl; lia|]. cbn [length] in *. rewrite Nat2Z.inj_succ, Z.pow_succ_r in * by lia. rewrite (Z.mul_comm 10), Z.div_mul by lia.
  pose proof (Z.pow_pos_nonneg 10 (Z.of_nat j) ltac:(lia) ltac:(lia)). rewrite Hc. rewrite (proj2 (Z.ltb_lt 0 _)) by lia. cbn [andb]. apply isdigit_spec in Hc.
  unfold cdiv. rewrite Z.quot_div_nonneg by lia. rewrite s64_small by nia. rewrite IH by nia. cbn [value Nat.sub]. rewrite (value_acc f (0 * 10 + (c - 48))).
  replace (10 ^ Z.of_nat j) with (10 ^ Z.of_nat (length f) * 10 ^ Z.of_nat (j - length f)) by (rewrite <- Z.pow_add_r by lia; f_equal; lia). f_equal. lia.
Qed.
Lemma parse_whole_spec w f : digits w -> forall acc,
  parse_whole acc (w ++ 46 :: f) = let '(nUnits, p) := parse_units (CENT * 10) 0 f in Some (acc ++ w, nUnits, p).
Proof.
  induction 1 as [|c w Hc _ IH]; intros acc; cbn [app parse_whole]; [by rewrite app_nil_r|]. pose proof (proj1 (isdigit_spec c) Hc).
  rewrite (proj2 (Z.eqb_neq c 46)) by lia. assert (isspace c = false) as -> by (unfold isspace; apply orb_false_iff; split; [apply Z.eqb_neq|apply andb_false_iff; right; apply Z.leb_gt]; lia).
  rewrite Hc. cbn [negb]. rewrite IH. by rewrite <- app_assoc.
Qed.
Lemma skip_spaces_digit l : digits l -> l <> [] -> forall r, skip_spaces (l ++ r) = l ++ r.
Proof. intros H. destruct H as [|c l' Hc _]; [done|]. intros _ r. cbn. apply isdigit_spec in Hc. unfold isspace. rewrite (proj2 (Z.eqb_neq c 32)), (proj2 (Z.leb_gt c 13)) by lia. by rewrite andb_false_r. Qed.
Lemma atoi64_digits l : digits l -> l <> [] -> value 0 l < 2 ^ 63 -> atoi64 l = value 0 l.
Proof.
  intros H Hn Hv. unfold atoi64. rewrite <- (app_nil_r l), (skip_spaces_digit l H Hn), app_nil_r. pose proof (value_bound l H).
  destruct H as [|c l Hc Hl]; [done|]. pose proof (proj1 (isdigit_spec c) Hc). rewrite !(proj2 (Z.eqb_neq c _)) by lia. rewrite strtoll_digits_value by by constructor. lia.
Qed.
(** the text of an amount: the whole part, a point, the eight decimals less some zeros at the end *)
Lemma FormatMoney_text n fPlus : - 2 ^ 63 < n < 2 ^ 63 -> exists k, (k <= 6)%nat /\ take k (rev (printf_08d (Z.abs n mod COIN))) = repeat 48 k /\
  FormatMoney n fPlus = Some ((if n <? 0 then [45] else if fPlus && (0 <? n) then [43] else []) ++
    printf_d (Z.abs n / COIN) ++ 46 :: take (8 - k) (printf_08d (Z.abs n mod COIN))).
Proof.
  intros Hn. unfold FormatMoney. rewrite (proj2 (Z.eqb_neq n (- 2 ^ 63))) by lia. assert ((if 0 <? n then n else - n) = Z.abs n) as -> by (destruct (Z.ltb_spec 0 n); lia). cbv zeta.
  unfold cdiv, crem. rewrite Z.quot_div_nonneg, Z.rem_mod_nonneg by (unfold COIN; lia). set (W := printf_d _). set (F := printf_08d _).
  destruct (printf_08d_spec (Z.abs n mod COIN)) as (HF & _ & Hl); [unfold COIN; dlia|]. fold F in HF, Hl.
  destruct (count_zeros_spec (rev W) (rev F)) as (k & E & Hk & Ht); [by apply Forall_rev|rewrite length_rev; lia|]. rewrite length_rev, Hl in Hk.
  exists k. split; [lia|]. split; [done|]. replace (rev (W ++ [46] ++ F)) with (rev F ++ 46 :: rev W) by (rewrite !rev_app_distr; cbn; by rewrite <- app_assoc).
  rewrite E. cbn [mbind option_bind]. f_equal. assert ((length (W ++ [46] ++ F)%Z - k)%nat = (length W + S (8 - k))%nat) as -> by (rewrite !length_app, Hl; cbn [length]; lia). cbn [app].
  rewrite (take_app_add' W (46 :: F) (length W) (S (8 - k)) eq_refl). cbn [take]. destruct (n <? 0); [done|]. by destruct (fPlus && (0 <? n)).
Qed.
Lemma take_rev_zeros k f : take k (rev f) = repeat 48 k -> (k <= length f)%nat -> f = take (length f - k) f ++ repeat 48 k.
Proof.
  intros H Hk. rewrite firstn_rev in H. rewrite <- (take_drop (length f - k) f) at 1. f_equal.
  rewrite <- (rev_involutive (drop _ f)), H. apply rev_repeat.
Qed.

(** what a parsed amount is made of, whatever the text *)
Lemma parse_units_bound p : forall j u, (j <= 8)%nat -> 0 <= u -> u + 10 ^ Z.of_nat j <= 2 ^ 62 -> 0 <= fst (parse_units (10 ^ Z.of_nat j / 10) u p) < u + 10 ^ Z.of_nat j.
Proof.
  induction p as [|c p IH]; intros j u Hj Hu Hb; cbn [parse_units]; pose proof (Z.pow_pos_nonneg 10 (Z.of_nat j) ltac:(lia) ltac:(lia)); [cbn; lia|].
  destruct (isdigit c) eqn:Hc; [|cbn; lia]. cbn [andb]. destruct j as [|j]; [change (10 ^ Z.of_nat 0 / 10) with 0; cbn [Z.ltb Z.compare fst]; lia|].
  rewrite Nat2Z.inj_succ, Z.pow_succ_r in * by lia. rewrite (Z.mul_comm 10), Z.div_mul in * by lia.
  rewrite (proj2 (Z.ltb_lt 0 _)) by lia. apply isdigit_spec in Hc. unfold cdiv. rewrite Z.quot_div_nonneg by lia. rewrite s64_small by nia.
  assert (Hm : 0 <= 10 ^ Z.of_nat j * (c - 48) <= 10 ^ Z.of_nat j * 9) by nia. destruct (IH j (u + 10 ^ Z.of_nat j * (c - 48))); lia.
Qed.
Lemma parse_whole_bound p : forall acc w u q, parse_whole acc p = Some (w, u, q) -> digits acc -> digits w /\ 0 <= u < COIN.
Proof.
  induction p as [|c p IH]; intros acc w u q H Ha; cbn [parse_whole] in H; [by injection H as <- <- _|].
  destruct (c =? 46).
  - pose proof (parse_units_bound p 8 0 ltac:(lia) ltac:(lia) ltac:(done)) as Hu. change (CENT * 10) with (10 ^ Z.of_nat 8 / 10) in H. destruct (parse_units _ 0 p) as [u' q']. by injection H as <- <- _.
  - destruct (isspace c); [by injection H as <- <- _|]. destruct (isdigit c) eqn:Hc; [|done]. cbn [negb] in H. apply (IH _ _ _ _ H), Forall_app. split; [done|by constructor].
Qed.

(** Whatever the text, ParseMoney does not overflow: an amount it returns is the whole part, of at most ten digits, times COIN, plus the units,
    less than COIN, as integers; so it is not negative and less than 10^18, and the test for more than COIN units never fires. *)
Theorem ParseMoney_exact s v : ParseMoney s = Some v -> exists w u q, parse_whole [] (skip_spaces s) = Some (w, u, q) /\
  digits w /\ (length w <= 10)%nat /\ 0 <= u < COIN /\ v = value 0 w * COIN + u /\ 0 <= v < 10 ^ 18.
Proof.
  unfold ParseMoney. destruct (parse_whole [] (skip_spaces s)) as [[[w u] q]|] eqn:E; [|done]. cbn [mbind option_bind]. case_match; [done|]. case_bool_decide as Hl; [done|].
  case_match; [done|]. intros [= <-]. destruct (parse_whole_bound _ _ _ _ _ E) as [Hw Hu]; [constructor|]. exists w, u, q. split; [done|].
  assert (Hb : 0 <= value 0 w < 10 ^ 10) by (pose proof (value_bound w Hw); pose proof (Z.pow_le_mono_r 10 (Z.of_nat (length w)) 10 ltac:(lia) ltac:(lia)); lia).
  assert (atoi64 w = value 0 w) as -> by (destruct w; [done|apply atoi64_digits; done || lia]). unfold COIN in *. rewrite s64_small by lia. split_and!; done || lia.
Qed.
Lemma ParseMoney_exact_witness : exists w u q, parse_whole [] [48; 46; 53] = Some (w, u, q) /\
  digits w /\ (length w <= 10)%nat /\ 0 <= u < COIN /\ 50000000 = value 0 w * COIN + u /\ 0 <= 50000000 < 10 ^ 18.
Proof. exact (ParseMoney_exact [48; 46; 53] 50000000 eq_refl). Defined.

(** An amount of 0 to 10^18 units (ten thousand million coins) that is shown with FormatMoney is read back by
    ParseMoney as the same amount; the text of a negative amount, and of a positive one with its sign, is refused. *)
Theorem money_roundtrip n fPlus : - 2 ^ 63 < n < 10 ^ 10 * COIN -> exists s, FormatMoney n fPlus = Some s /\
  ParseMoney s = if (n <? 0) || fPlus && (0 <? n) then None else Some n.
Proof.
  intros Hn. destruct (FormatMoney_text n fPlus) as (k & Hk & Ht & ->); [unfold COIN in Hn; lia|]. eexists. split; [done|].
  destruct (Z.ltb_spec n 0) as [Hneg|Hpos]; [done|]. cbn [orb]. destruct (fPlus && (0 <? n)); [done|]. cbn [app]. rewrite Z.abs_eq in * by lia.
  assert (Hq : 0 <= n / COIN < 10 ^ 10) by (unfold COIN in *; dlia). assert (Hr : 0 <= n mod COIN < COIN) by (unfold COIN; dlia).
  destruct (printf_d_spec (n / COIN)) as (HW & VW & NW & LW); [lia|]. destruct (printf_08d_spec (n mod COIN) Hr) as (HF & VF & LF).
  apply take_rev_zeros in Ht; [|lia]. rewrite LF in Ht. set (W := printf_d _) in *. set (F := printf_08d _) in *.
  unfold ParseMoney. rewrite (skip_spaces_digit W HW NW), parse_whole_spec by done. change (CENT * 10) with (10 ^ Z.of_nat 8 / 10).
  rewrite parse_units_spec; [|by apply Forall_take|rewrite length_take; lia|done|done|done]. cbn [mbind option_bind app forallb negb].
  assert (VU : 0 + value 0 (take (8 - k) F) * 10 ^ Z.of_nat (8 - length (take (8 - k) F)) = n mod COIN).
  { rewrite Ht, value_app, (value_acc (repeat 48 k)), repeat_length in VF. rewrite length_take, LF, Nat.min_l by lia. replace (8 - (8 - k))%nat with k by lia.
    assert (Z0 : value 0 (repeat 48 k) = 0) by (clear; induction k; [done|exact IHk]). lia. }
  rewrite VU. rewrite bool_decide_eq_false_2 by lia. rewrite (proj2 (Z.ltb_ge (n mod COIN) 0)), (proj2 (Z.ltb_ge COIN (n mod COIN))) by lia. cbn [orb].
  rewrite atoi64_digits by (done || lia). rewrite VW, s64_small by (unfold COIN in *; dlia). f_equal. unfold COIN. dlia.
Qed.
Lemma money_roundtrip_witness : exists s, FormatMoney 123456789000 false = Some s /\ ParseMoney s = Some 123456789000.
Proof. exact (money_roundtrip 123456789000 false (conj eq_refl eq_refl)). Defined.

(** Every text form of a list of bytes is read back as those bytes: base 64 and base 32, which the reader moreover takes for valid, and the
    hexadecimal dump, with or without spaces. *)
Theorem bytes_roundtrip l (fSpaces : bool) : all_bytes l ->
  DecodeBase64 (EncodeBase64 l) = (l, false) /\ DecodeBase32 (EncodeBase32 l) = (l, false) /\ ParseHex (HexStr l fSpaces) = l.
Proof.
  intros H. split_and!; [| |by apply ParseHex_HexStr].
  - pose proof (proj1 (base64_modes l H) 0 0) as Hy. unfold DecodeBase64, EncodeBase64. destruct (decode64 0 0 _) as [[[v m] b] p]. by destruct Hy as [-> ->].
  - pose proof (proj1 (base32_modes l H) 0 0) as Hy. unfold DecodeBase32, EncodeBase32. destruct (decode32 0 0 _) as [[[v m] b] p]. by destruct Hy as [-> ->].
Qed.
Lemma bytes_roundtrip_witness : DecodeBase64 (EncodeBase64 [102; 111]) = ([102; 111], false) /\
  DecodeBase32 (EncodeBase32 [102; 111]) = ([102; 111], false) /\ ParseHex (HexStr [102; 111] true) = [102; 111].
Proof. apply (bytes_roundtrip [102; 111] true). apply all_bytes_dec. reflexivity. Defined.

(** A text that IsHex accepts is read by ParseHex to its end: half as many bytes, whose dump is the text in lower case. *)
Theorem IsHex_ParseHex str : IsHex str = true -> (length (ParseHex str) * 2)%nat = length str /\ HexStr (ParseHex str) false = map tolower str.
Proof.
  unfold IsHex. intros [[H _]%andb_prop Hl]%andb_prop. apply Nat.eqb_eq in Hl. apply Nat.Div0.mod_divides in Hl as [n Hn]. rewrite Nat.mul_comm in Hn.
  assert (Hd : Forall (fun c => 0 <= phexdigit c) str) by (apply Forall_forall; intros c Hc; apply list_elem_of_In in Hc; rewrite forallb_forall in H; specialize (H c Hc); cbn in H; lia).
  assert (E : HexStr (ParseHex str) false = map tolower str) by by apply (HexStr_ParseHex n). split; [|done].
  apply (f_equal length) in E. rewrite length_map in E. rewrite <- E. unfold HexStr. generalize true. clear. induction (ParseHex str) as [|e l IH]; intros f; cbn in *; [done|]. by rewrite <- (IH false).
Qed.
Lemma IsHex_ParseHex_witness : (length (ParseHex [97; 70]%Z) * 2 = 2)%nat /\ HexStr (ParseHex [97; 70]) false = [97; 102].
Proof. exact (IsHex_ParseHex [97; 70] eq_refl). Defined.

(** WildcardMatch is the matching of patterns: it accepts a text exactly if the pattern stands for it, where a star stands for any text and a
    question mark for any one byte; so the search through the places where a star can end misses none. *)
Theorem WildcardMatch_correct mask psz : WildcardMatch mask psz = true <-> matches mask psz.
Proof. apply WildcardMatch_matches. Qed.

(** ParseString cuts a text at every separator and nowhere else: no piece contains the separator, and the pieces joined by it are the text. *)
Theorem ParseString_correct str c : joined c (ParseString str c) = str /\ Forall (fun piece => c ∉ piece) (ParseString str c).
Proof. unfold ParseString. destruct str as [|a str]; [done|]. destruct (pieces_spec c (S (length (a :: str))) (a :: str)) as (H1 & H2 & _); [lia|done]. Qed.
(** The comparison in constant time, is equality; it compares every byte of the first argument
    with some byte of the second. *)
Theorem TimingResistantEqual_correct a b : TimingResistantEqual a b = true <-> a = b.
Proof. apply TimingResistantEqual_spec. Qed.
