(* ===== verification/PrimeTable.v ===== *)
(** * The small prime table (prime.cpp)

    [GeneratePrimeTable] (sieve of Eratosthenes over a [vector<bool>]), the
    table searches and the primorials.  The global [vPrimes] is the list the
    generator returns and the other functions take; the table limit is a
    parameter, [nPrimeTableLimit] in the program. *)

From Stdlib Require Import Sorted.
From S2P Require Import Prelude OpenSSL BigNum.
Local Open Scope Z_scope.

Definition nMaxSieveSize : Z := 1000000.
Definition nPrimeTableLimit : Z := nMaxSieveSize.

(** [vector<bool>] reads and writes; every index below is in range *)
Definition vget (v : list bool) (i : Z) : bool := default false (v !! Z.to_nat i).
Definition vset (v : list bool) (i : Z) : list bool := <[Z.to_nat i := true]> v.

(** ** Generation *)

(** [for (n = start; n < limit; n += step) v[n] = true] *)
Fixpoint mark_from (fuel : nat) (limit step n : Z) (v : list bool) : list bool :=
  match fuel with
  | O => v
  | S f => if n <? limit then mark_from f limit step (u32 (n + step)) (vset v n) else v
  end.

Fixpoint sieve_loop (fuel : nat) (limit nFactor : Z) (vfComposite : list bool) : list bool :=
  match fuel with
  | O => vfComposite
  | S f =>
    if u32 (nFactor * nFactor) <? limit then
      let vfComposite :=
        if vget vfComposite nFactor then vfComposite
        else mark_from (Z.to_nat limit) limit nFactor (u32 (nFactor * nFactor)) vfComposite in
      sieve_loop f limit (u32 (nFactor + 1)) vfComposite
    else vfComposite
  end.

Fixpoint collect_primes (fuel : nat) (limit n : Z) (vfComposite : list bool) (vPrimes : list Z) : list Z :=
  match fuel with
  | O => vPrimes
  | S f =>
    if n <? limit
    then collect_primes f limit (u32 (n + 1)) vfComposite
           (if vget vfComposite n then vPrimes else vPrimes ++ [n])
    else vPrimes
  end.

(** each loop makes at most [limit] rounds *)
Definition GeneratePrimeTable (limit : Z) : list Z :=
  let vfComposite := replicate (Z.to_nat limit) false in
  let vfComposite := sieve_loop (Z.to_nat limit) limit 2 vfComposite in
  collect_primes (Z.to_nat limit) limit 2 vfComposite [].

(** ** Searches and primorials *)

Fixpoint PrimeTableGetNextPrime (vPrimes : list Z) (p : Z) : bool * Z :=
  match vPrimes with
  | [] => (false, p)
  | nPrime :: r => if p <? nPrime then (true, nPrime) else PrimeTableGetNextPrime r p
  end.

Fixpoint previous_loop (vPrimes : list Z) (p nPrevPrime : Z) : Z :=
  match vPrimes with
  | [] => nPrevPrime
  | nPrime :: r => if p <=? nPrime then nPrevPrime else previous_loop r p nPrime
  end.
Definition PrimeTableGetPreviousPrime (vPrimes : list Z) (p : Z) : bool * Z :=
  let nPrevPrime := previous_loop vPrimes p 0 in
  if nPrevPrime =? 0 then (false, p) else (true, nPrevPrime).

Section Primorials.
Context {B : OpenSSLBN}.

Fixpoint primorial_loop (vPrimes : list Z) (p bnPrimorial : Z) : Z :=
  match vPrimes with
  | [] => bnPrimorial
  | nPrime :: r => if p <? nPrime then bnPrimorial
                   else primorial_loop r p (bn_mul bnPrimorial (setulong nPrime))
  end.
Definition Primorial (vPrimes : list Z) (p : Z) : Z := primorial_loop vPrimes p (setulong 1).

Fixpoint primorial_at_loop (vPrimes : list Z) (bn bnPrimorial : Z) : Z :=
  match vPrimes with
  | [] => bnPrimorial
  | nPrime :: r =>
    let bnPrimorial := bn_mul bnPrimorial (setulong nPrime) in
    if bn_geb bnPrimorial bn then bnPrimorial else primorial_at_loop r bn bnPrimorial
  end.
Definition PrimorialAt (vPrimes : list Z) (bn : Z) : Z := primorial_at_loop vPrimes bn (setulong 1).

End Primorials.

(** ** Correctness of the sieve *)

Lemma length_vset v i : length (vset v i) = length v.
Proof. apply length_insert. Qed.

Lemma vget_vset v i j : 0 <= i < Z.of_nat (length v) -> 0 <= j ->
  vget (vset v i) j = (i =? j) || vget v j.
Proof.
  intros Hi Hj. unfold vget, vset. destruct (Z.eqb_spec i j) as [->|Hne].
  - by rewrite list_lookup_insert_eq by lia.
  - by rewrite list_lookup_insert_ne by lia.
Qed.

Lemma mark_from_length fuel limit step n v : length (mark_from fuel limit step n v) = length v.
Proof.
  revert n v. induction fuel as [|f IH]; intros n v; cbn [mark_from]; [done|].
  case_if; [|done]. by rewrite IH, length_vset.
Qed.

(** marking from [n] with step [s] marks exactly the [n + k s] below the limit *)
Lemma mark_from_spec fuel limit s n v j : 1 <= s < 2 ^ 31 -> 0 <= n < 2 ^ 32 -> limit <= 2 ^ 31 ->
  limit <= Z.of_nat (length v) -> limit <= n + Z.of_nat fuel -> 0 <= j < limit ->
  vget (mark_from fuel limit s n v) j = true <->
  vget v j = true \/ (n <= j /\ (s | j - n)).
Proof.
  intros Hs Hn Hlim Hv Hf Hj. revert n v Hn Hv Hf.
  induction fuel as [|f IH]; intros n v Hn Hv Hf; cbn [mark_from].
  - split; [by left|]. intros [?|[? _]]; [done|lia].
  - destruct (n <? limit) eqn:E; b2p.
    + rewrite u32_small by lia. rewrite IH by (try rewrite length_vset; lia).
      rewrite vget_vset by lia. rewrite orb_true_iff, Z.eqb_eq. split.
      * intros [[->|?]|[? Hd]]; [right|by left|right].
        -- split; [lia|]. rewrite Z.sub_diag. apply Z.divide_0_r.
        -- split; [lia|]. replace (j - n) with ((j - (n + s)) + s) by lia.
           apply Z.divide_add_r; [done|apply Z.divide_refl].
      * intros [?|[Hle Hd]]; [by left; right|].
        destruct (decide (n = j)) as [->|]; [by left; left|]. right.
        destruct Hd as [k Hk]. assert (1 <= k) by nia. split; [nia|].
        exists (k - 1). lia.
    + split; [by left|]. intros [?|[? _]]; [done|lia].
Qed.

Definition has_factor_below (f n : Z) : Prop := exists d, 2 <= d < f /\ d * d <= n /\ (d | n).

Lemma sieve_loop_length fuel limit f v : length (sieve_loop fuel limit f v) = length v.
Proof.
  revert f v. induction fuel as [|k IH]; intros f v; cbn [sieve_loop]; [done|].
  case_if; [|done]. rewrite IH. case_if; [done|]. apply mark_from_length.
Qed.

Lemma has_factor_step f n : has_factor_below (f + 1) n <->
  has_factor_below f n \/ (2 <= f /\ f * f <= n /\ (f | n)).
Proof.
  split.
  - intros (d & Hd & ? & ?). destruct (decide (d = f)) as [->|]; [right; split_and!; [lia|done..]|].
    left. exists d. split_and!; [lia|lia|done..].
  - intros [(d & Hd & ? & ?)|(Hf & ? & ?)]; [exists d|exists f]; split_and!; done || lia.
Qed.

(** the multiples of a composite factor are already marked *)
Lemma has_factor_composite f n : has_factor_below f f -> f * f <= n -> (f | n) -> 2 <= f ->
  has_factor_below f n.
Proof.
  intros (d & Hd & Hdd & Hdiv) Hn Hfn Hf. exists d. split; [lia|]. split; [nia|].
  by apply Z.divide_trans with f.
Qed.

Lemma sieve_loop_spec fuel limit f v : limit <= 2 ^ 31 -> Z.of_nat (length v) = limit ->
  2 <= f < 2 ^ 16 -> limit <= (f + Z.of_nat fuel) * (f + Z.of_nat fuel) ->
  (forall j, 2 <= j < limit -> vget v j = true <-> has_factor_below f j) ->
  forall j, 2 <= j < limit ->
    vget (sieve_loop fuel limit f v) j = true <-> exists d, 2 <= d /\ d * d <= j /\ (d | j).
Proof.
  intros Hlim. revert f v. induction fuel as [|k IH]; intros f v Hv Hf Hk Hinv j Hj.
  - cbn [sieve_loop]. rewrite Hinv by done. unfold has_factor_below. split.
    + intros (d & ? & ? & ?). exists d. split_and!; [lia|done..].
    + intros (d & ? & ? & ?). exists d. split_and!; [lia|nia|done..].
  - cbn [sieve_loop]. rewrite (u32_small (f * f)) by nia. destruct (f * f <? limit) eqn:E; b2p.
    + rewrite (u32_small (f + 1)) by lia. assert (f < 2 ^ 16 - 1) by nia.
      apply IH; [case_if; [done|by rewrite mark_from_length]|lia|nia| |done].
      intros i Hi. rewrite has_factor_step.
      destruct (vget v f) eqn:Ef.
      * rewrite Hinv by done. split; [by left|]. intros [?|(? & ? & ?)]; [done|].
        apply has_factor_composite; [apply Hinv; [nia|done]|done|done|lia].
      * rewrite mark_from_spec by nia. rewrite Hinv by done. split.
        -- intros [?|[? Hd]]; [by left|right]. split_and!; [lia|done|].
           replace i with ((i - f * f) + f * f) by lia. apply Z.divide_add_r; [done|].
           apply Z.divide_factor_l.
        -- intros [?|(? & ? & Hd)]; [by left|right]. split; [done|].
           apply Z.divide_sub_r; [done|apply Z.divide_factor_l].
    + rewrite Hinv by done. unfold has_factor_below. split.
      * intros (d & ? & ? & ?). exists d. split_and!; [lia|done..].
      * intros (d & ? & ? & ?). exists d. split_and!; [lia|nia|done..].
Qed.

Lemma composite_iff j : 2 <= j -> (exists d, 2 <= d /\ d * d <= j /\ (d | j)) <-> ~ prime j.
Proof.
  intros Hj. split.
  - intros (d & Hd & Hdd & Hdiv) Hp. apply prime_alt in Hp as [_ Hp]. apply (Hp d); [nia|done].
  - intros Hnp. destruct (not_prime_divide j ltac:(lia) Hnp) as (d & Hd & [k Hk]).
    destruct (decide (d * d <= j)).
    + exists d. split_and!; [lia|done|]. by exists k.
    + exists k. split_and!; [nia|nia|]. exists d. lia.
Qed.

(** the list is the ascending enumeration of the unmarked numbers from [n] *)
Lemma collect_primes_spec fuel limit n v acc : limit <= 2 ^ 31 -> 2 <= n -> limit <= n + Z.of_nat fuel ->
  exists l, collect_primes fuel limit n v acc = acc ++ l /\
    (forall j, j ∈ l <-> n <= j < limit /\ vget v j = false) /\ StronglySorted Z.lt l /\ Forall (Z.le n) l.
Proof.
  intros Hlim. revert n acc. induction fuel as [|k IH]; intros n acc Hn Hf; cbn [collect_primes].
  - exists []. rewrite app_nil_r. split_and!; [done| |constructor|constructor].
    intros j. split; [by intros ?%not_elem_of_nil|lia].
  - destruct (n <? limit) eqn:E; b2p.
    + rewrite u32_small by lia.
      destruct (IH (n + 1) (if vget v n then acc else acc ++ [n])) as (l & -> & Hl & Hs & Hb); [lia|lia|].
      assert (Hb' : Forall (Z.le n) l) by (eapply Forall_impl; [exact Hb|intros; lia]).
      destruct (vget v n) eqn:Ev.
      * exists l. split_and!; [done| |done|done]. intros j. rewrite Hl.
        split; intros [? ?]; (split; [|done]); [lia|]. destruct (decide (j = n)); [congruence|lia].
      * exists (n :: l). rewrite <- app_assoc. split_and!; [done| | |].
        -- intros j. rewrite elem_of_cons, Hl. split.
           ++ intros [->|[? ?]]; (split; [lia|done]).
           ++ intros [? ?]. destruct (decide (j = n)); [by left|right; split; [lia|done]].
        -- constructor; [done|]. eapply Forall_impl; [exact Hb|intros; lia].
        -- constructor; [lia|done].
    + exists []. rewrite app_nil_r. split_and!; [done| |constructor|constructor].
      intros j. split; [by intros ?%not_elem_of_nil|lia].
Qed.

Lemma vget_replicate n j : vget (replicate n false) j = false.
Proof. unfold vget. destruct (replicate n false !! Z.to_nat j) eqn:E; [|done]. by apply lookup_replicate in E as [-> _]. Qed.

Lemma GeneratePrimeTable_sieved limit : 2 <= limit <= 2 ^ 31 ->
  (forall j, j ∈ GeneratePrimeTable limit <-> 2 <= j < limit /\ prime j) /\
  StronglySorted Z.lt (GeneratePrimeTable limit).
Proof.
  intros Hl. unfold GeneratePrimeTable.
  destruct (collect_primes_spec (Z.to_nat limit) limit 2
    (sieve_loop (Z.to_nat limit) limit 2 (replicate (Z.to_nat limit) false)) []) as (l & -> & Hj & Hs & _);
    [lia..|].
  split; [|done]. cbn [app]. intros j. rewrite Hj.
  assert (Hspec : 2 <= j < limit -> vget (sieve_loop (Z.to_nat limit) limit 2
    (replicate (Z.to_nat limit) false)) j = true <-> ~ prime j).
  { intros Hr. rewrite <- composite_iff by lia.
    apply sieve_loop_spec; [lia|rewrite length_replicate; lia|lia|nia| |done].
    intros i Hi. rewrite vget_replicate. split; [done|]. intros (d & ? & _). lia. }
  destruct (prime_dec j) as [Hp|Hp]; split; intros [Hr Hx]; split; try done.
  - specialize (Hspec Hr). destruct (vget _ j); [|done]. by destruct (proj1 Hspec eq_refl).
  - specialize (Hspec Hr). apply Hspec in Hp. congruence.
Qed.

(** ** Searches on an ascending table *)

Lemma next_prime_spec l p : StronglySorted Z.lt l ->
  match PrimeTableGetNextPrime l p with
  | (true, q) => q ∈ l /\ p < q /\ forall r, r ∈ l -> p < r -> q <= r
  | (false, q) => q = p /\ forall r, r ∈ l -> r <= p
  end.
Proof.
  induction 1 as [|x l Hs IH Hx]; cbn [PrimeTableGetNextPrime].
  - split; [done|]. by intros r ?%not_elem_of_nil.
  - rewrite Forall_forall in Hx. destruct (p <? x) eqn:E; b2p.
    + split; [apply list_elem_of_here|]. split; [done|]. intros r Hr _.
      apply elem_of_cons in Hr as [->|Hr]; [lia|]. apply Hx in Hr. lia.
    + destruct (PrimeTableGetNextPrime l p) as [[] q].
      * destruct IH as (Hq & Hpq & Hmin). split; [by apply list_elem_of_further|]. split; [done|].
        intros r [->|Hr]%elem_of_cons ?; [lia|auto].
      * destruct IH as (-> & Hr). split; [done|]. intros r [->|?]%elem_of_cons; [lia|auto].
Qed.

Lemma previous_loop_spec l p prev : StronglySorted Z.lt l -> Forall (Z.lt prev) l ->
  let q := previous_loop l p prev in
  (q = prev /\ forall r, r ∈ l -> p <= r) \/
  (q ∈ l /\ q < p /\ forall r, r ∈ l -> r < p -> r <= q).
Proof.
  intros Hs. revert prev. induction Hs as [|x l Hs IH Hx]; intros prev Hp; cbn [previous_loop].
  - left. split; [done|]. by intros r ?%not_elem_of_nil.
  - rewrite Forall_forall in Hx. destruct (p <=? x) eqn:E; b2p.
    + left. split; [done|]. intros r [->|Hr]%elem_of_cons; [lia|]. apply Hx in Hr. lia.
    + right. destruct (IH x) as [[Hq Hr]|(Hq & Hlt & Hr)]; [by apply Forall_forall| |].
      * rewrite Hq. split; [apply list_elem_of_here|]. split; [lia|].
        intros r [->|Hin]%elem_of_cons ?; [lia|]. specialize (Hr r Hin). lia.
      * split; [by apply list_elem_of_further|]. split; [done|].
        intros r [->|Hin]%elem_of_cons ?; [|auto]. apply Hx in Hq. lia.
Qed.

(** ** Primorials *)

Definition prodZ (l : list Z) : Z := foldr Z.mul 1 l.
Definition small_nats (l : list Z) : Prop := Forall (fun x => 0 <= x < 2 ^ 32) l.

Section PrimorialSpec.
Context {B : OpenSSLBN} {L : OpenSSLBNLaws B}.

Lemma primorial_loop_spec l p acc : StronglySorted Z.lt l -> small_nats l ->
  primorial_loop l p acc = acc * prodZ (filter (fun x => x <= p) l).
Proof.
  intros Hs Hn. revert acc. induction Hs as [|x l Hs IH Hx]; intros acc; cbn [primorial_loop].
  - simpl. lia.
  - inversion Hn as [|? ? Hx0 Hn']; subst. destruct (p <? x) eqn:E; b2p.
    + assert (Hnil : filter (fun y => y <= p) (x :: l) = []).
      { rewrite filter_cons_False by lia.
        clear -Hx E. induction l as [|y l IHl]; [done|]. inversion Hx; subst.
        rewrite filter_cons_False by lia. auto. }
      rewrite Hnil. simpl. lia.
    + rewrite filter_cons_True by lia. cbn [prodZ foldr]. rewrite IH by done.
      autorewrite with bn. unfold prodZ. lia.
Qed.

End PrimorialSpec.

Lemma prodZ_divide l x : x ∈ l -> (x | prodZ l).
Proof.
  induction 1 as [x l|x y l _ IH]; cbn [prodZ foldr].
  - apply Z.divide_factor_l.
  - by apply Z.divide_mul_r.
Qed.

Lemma table_small limit : 2 <= limit <= 2 ^ 31 -> small_nats (GeneratePrimeTable limit).
Proof.
  intros Hl. apply Forall_forall. intros x Hx.
  apply (proj1 (GeneratePrimeTable_sieved limit Hl)) in Hx. lia.
Qed.

(** ** Properties *)

(** [GeneratePrimeTable] produces exactly the primes below the table limit,
    in increasing order, for every limit up to [2^31] (the program uses one
    million): the sieve loops terminate within their fuel, mark every composite
    and no prime. *)
Theorem GeneratePrimeTable_correct limit (Hl : 2 <= limit <= 2 ^ 31) :
  (forall n, n ∈ GeneratePrimeTable limit <-> 2 <= n < limit /\ prime n) /\
  StronglySorted Z.lt (GeneratePrimeTable limit).
Proof. by apply GeneratePrimeTable_sieved. Qed.

Lemma GeneratePrimeTable_correct_witness :
  (forall n, n ∈ GeneratePrimeTable 30 <-> 2 <= n < 30 /\ prime n) /\
  StronglySorted Z.lt (GeneratePrimeTable 30).
Proof. apply (GeneratePrimeTable_correct 30). split; discriminate. Defined.

Example table_30 : GeneratePrimeTable 30 = [2; 3; 5; 7; 11; 13; 17; 19; 23; 29].
Proof. vm_compute. reflexivity. Qed.

(** the neighbour searches return the adjacent primes: the next search finds
    the smallest table prime above its argument and the previous search the
    largest below it, and each reports failure (leaving its argument unchanged)
    exactly when the table has no such prime. *)
Theorem prime_neighbours limit p (Hl : 2 <= limit <= 2 ^ 31) :
  match PrimeTableGetNextPrime (GeneratePrimeTable limit) p with
  | (true, q) => prime q /\ p < q < limit /\ forall r, prime r -> p < r -> q <= r
  | (false, q) => q = p /\ forall r, prime r -> p < r -> limit <= r
  end /\
  match PrimeTableGetPreviousPrime (GeneratePrimeTable limit) p with
  | (true, q) => prime q /\ q < p /\ q < limit /\ forall r, prime r -> r < p -> r < limit -> r <= q
  | (false, q) => q = p /\ forall r, prime r -> r < limit -> p <= r
  end.
Proof.
  destruct (GeneratePrimeTable_sieved limit Hl) as [Hin Hs].
  assert (Hge2 : forall r, prime r -> 2 <= r) by (intros r [? _]; lia). split.
  - pose proof (next_prime_spec _ p Hs) as H. destruct (PrimeTableGetNextPrime _ p) as [[] q].
    + destruct H as (Hq & Hpq & Hmin). apply Hin in Hq as [? ?]. split_and!; [done|lia|lia|].
      intros r Hr Hpr. destruct (decide (r < limit)); [|lia]. apply Hmin; [|done]. apply Hin.
      specialize (Hge2 r Hr). split; [lia|done].
    + destruct H as [-> H]. split; [done|]. intros r Hr Hpr.
      destruct (decide (r < limit)); [|lia]. specialize (Hge2 r Hr).
      assert (r <= p); [|lia]. apply H, Hin. split; [lia|done].
  - unfold PrimeTableGetPreviousPrime.
    assert (Hpos : Forall (Z.lt 0) (GeneratePrimeTable limit)).
    { apply Forall_forall. intros x Hx%Hin. lia. }
    destruct (previous_loop_spec _ p 0 Hs Hpos) as [[-> H]|(Hq & Hlt & Hmax)].
    + simpl. split; [done|]. intros r Hr Hrl. apply H, Hin. specialize (Hge2 r Hr). split; [lia|done].
    + apply Hin in Hq as [? ?]. rewrite (proj2 (Z.eqb_neq _ 0)) by lia.
      split_and!; [done|lia|lia|]. intros r Hr Hrp Hrl. apply Hmax; [|done].
      apply Hin. specialize (Hge2 r Hr). split; [lia|done].
Qed.

Lemma prime_neighbours_witness :
  match PrimeTableGetNextPrime (GeneratePrimeTable 30) 13 with
  | (true, q) => prime q /\ 13 < q < 30 /\ forall r, prime r -> 13 < r -> q <= r
  | (false, q) => q = 13 /\ forall r, prime r -> 13 < r -> 30 <= r
  end /\
  match PrimeTableGetPreviousPrime (GeneratePrimeTable 30) 13 with
  | (true, q) => prime q /\ q < 13 /\ q < 30 /\ forall r, prime r -> r < 13 -> r < 30 -> r <= q
  | (false, q) => q = 13 /\ forall r, prime r -> r < 30 -> 13 <= r
  end.
Proof. apply (prime_neighbours 30 13). split; discriminate. Defined.

(** [Primorial p] is the product of the table primes up to [p], so every
    prime up to [p] below the table limit divides it. *)
Theorem Primorial_product {B : OpenSSLBN} {L : OpenSSLBNLaws B} limit p (Hl : 2 <= limit <= 2 ^ 31) :
  Primorial (GeneratePrimeTable limit) p = prodZ (filter (fun x => x <= p) (GeneratePrimeTable limit)) /\
  forall q, prime q -> q <= p -> q < limit -> (q | Primorial (GeneratePrimeTable limit) p).
Proof.
  destruct (GeneratePrimeTable_sieved limit Hl) as [Hin Hs].
  assert (E : Primorial (GeneratePrimeTable limit) p =
    prodZ (filter (fun x => x <= p) (GeneratePrimeTable limit))).
  { unfold Primorial. rewrite primorial_loop_spec by auto using table_small. autorewrite with bn. lia. }
  split; [done|]. intros q Hq Hqp Hql. rewrite E. apply prodZ_divide, list_elem_of_filter.
  split; [done|]. apply Hin. destruct Hq as [? ?]. split; [lia|done].
Qed.

Lemma Primorial_product_witness :
  Primorial (GeneratePrimeTable 30) 7 = prodZ (filter (fun x => x <= 7) (GeneratePrimeTable 30)) /\
  forall q, prime q -> q <= 7 -> q < 30 -> (q | Primorial (GeneratePrimeTable 30) 7).
Proof. apply (Primorial_product 30 7). split; discriminate. Defined.

Example primorial_7 : Primorial (GeneratePrimeTable 30) 7 = 210.
Proof. vm_compute. reflexivity. Qed.
