(* ===== verification/PrimeChain.v ===== *)
(** * Prime chain proof of work (prime.cpp)

    The Fermat and Euler-Lagrange-Lifchitz tests, the Cunningham and bi-twin
    chain tests and [CheckPrimeProofOfWork].  A test that returns [bool] and
    updates [nLength] returns the pair; [None] is a thrown [bignum_error], or the
    chain loop running out of fuel. *)

From S2P Require Import Prelude OpenSSL BigNum Target PrimeTable.
Local Open Scope Z_scope.

Definition hashBlockHeaderLimit : Z := 2 ^ 255.

Section PrimeChain.
Context {B : OpenSSLBN}.

Definition bnOne : Z := of_int 1.
Definition bnPrimeMax : Z := bn_sub (bn_shl bnOne 2000) (of_int 1).
Definition bnPrimeMin : Z := bn_shl bnOne 255.

(** the fractional length of a failed test, from the Fermat remainder [r] *)
Definition set_fractional (n r nLength : Z) : option (bool * Z) :=
  let? q := bn_div (bn_shl (bn_sub n r) nFractionalBits) n in
  let nFractionalLength := getuint q in
  if Z.shiftl 1 nFractionalBits <=? nFractionalLength then Some (false, nLength)
  else Some (false, Z.lor (Z.land nLength TARGET_LENGTH_MASK) nFractionalLength).

Definition FermatProbablePrimalityTest (n nLength : Z) : option (bool * Z) :=
  let a := of_int 2 in
  let e := bn_sub n (of_int 1) in
  let r := BN_mod_exp a e n in
  if bn_eqb r (of_int 1) then Some (true, nLength)
  else set_fractional n r nLength.

Definition EulerLagrangeLifchitzPrimalityTest (n : Z) (fSophieGermain : bool) (nLength : Z)
  : option (bool * Z) :=
  let a := of_int 2 in
  let e := bn_shr (bn_sub n (of_int 1)) 1 in
  let r := BN_mod_exp a e n in
  let? nMod8 := bn_mod n (of_int 8) in
  let test (fPassedTest : bool) :=
    if fPassedTest then Some (true, nLength)
    else
      let? r2 := bn_mod (bn_mul r r) n in
      set_fractional n r2 nLength in
  if fSophieGermain && bn_eqb nMod8 (of_int 7) then test (bn_eqb r (of_int 1))
  else if fSophieGermain && bn_eqb nMod8 (of_int 3) then test (bn_eqb (bn_add r (of_int 1)) n)
  else if negb fSophieGermain && bn_eqb nMod8 (of_int 5) then test (bn_eqb (bn_add r (of_int 1)) n)
  else if negb fSophieGermain && bn_eqb nMod8 (of_int 1) then test (bn_eqb r (of_int 1))
  else Some (false, nLength).

Fixpoint cunningham_loop (fuel : nat) (N : Z) (fSophieGermain fFermatTest : bool)
  (nProbableChainLength : Z) : option Z :=
  match fuel with
  | O => None
  | S f =>
    let nProbableChainLength := TargetIncrementLength nProbableChainLength in
    let N := bn_add (bn_add N N) (of_int (if fSophieGermain then 1 else -1)) in
    let? (passed, nProbableChainLength) := (if fFermatTest then FermatProbablePrimalityTest N nProbableChainLength
         else EulerLagrangeLifchitzPrimalityTest N fSophieGermain nProbableChainLength) in
    if passed then cunningham_loop f N fSophieGermain fFermatTest nProbableChainLength
    else Some nProbableChainLength
  end.

Definition ProbableCunninghamChainTest (fuel : nat) (n : Z) (fSophieGermain fFermatTest : bool)
  : option (bool * Z) :=
  let? (passed, nProbableChainLength) := FermatProbablePrimalityTest n 0 in
  if negb passed then Some (false, nProbableChainLength)
  else
    let? nProbableChainLength := cunningham_loop fuel n fSophieGermain fFermatTest nProbableChainLength in
    Some (2 <=? TargetGetLength nProbableChainLength, nProbableChainLength).

(** bi-twin length: a single prime at the end is allowed *)
Definition bitwin_length (l1 l2 : Z) : Z :=
  if TargetGetLength l2 <? TargetGetLength l1
  then u32 (l2 + TargetFromInt (TargetGetLength l2 + 1))
  else u32 (l1 + TargetFromInt (TargetGetLength l1)).

Record ChainLengths := {
  nChainLengthCunningham1 : Z;
  nChainLengthCunningham2 : Z;
  nChainLengthBiTwin : Z;
}.

Definition meets_target (c : ChainLengths) (nBits : Z) : bool :=
  (nBits <=? nChainLengthCunningham1 c) || (nBits <=? nChainLengthCunningham2 c) ||
  (nBits <=? nChainLengthBiTwin c).

Definition ProbablePrimeChainTest (fuel : nat) (bnPrimeChainOrigin nBits : Z) (fFermatTest : bool)
  : option (bool * ChainLengths) :=
  let? r1 := ProbableCunninghamChainTest fuel (bn_sub bnPrimeChainOrigin (of_int 1)) true fFermatTest in
  let? r2 := ProbableCunninghamChainTest fuel (bn_add bnPrimeChainOrigin (of_int 1)) false fFermatTest in
  let c := {| nChainLengthCunningham1 := r1.2; nChainLengthCunningham2 := r2.2;
              nChainLengthBiTwin := bitwin_length r1.2 r2.2 |} in
  Some (meets_target c nBits, c).

(** the longest chain and its type; later types win only when strictly longer *)
Definition select_chain (c : ChainLengths) : Z * Z :=
  let '(t, l) := (PRIME_CHAIN_CUNNINGHAM1, nChainLengthCunningham1 c) in
  let '(t, l) := if l <? nChainLengthCunningham2 c
                 then (PRIME_CHAIN_CUNNINGHAM2, nChainLengthCunningham2 c) else (t, l) in
  if l <? nChainLengthBiTwin c then (PRIME_CHAIN_BI_TWIN, nChainLengthBiTwin c) else (t, l).

Definition same_lengths (c1 c2 : ChainLengths) : bool :=
  (nChainLengthCunningham1 c1 =? nChainLengthCunningham1 c2) &&
  (nChainLengthCunningham2 c1 =? nChainLengthCunningham2 c2) &&
  (nChainLengthBiTwin c1 =? nChainLengthBiTwin c2).

(** returns the verdict and the outputs [nChainType], [nChainLength], whose
    incoming values are [t0] and [l0] *)
Definition CheckPrimeProofOfWork (tp : TargetParams) (fuel : nat) (hashBlockHeader nBits bnPrimeChainMultiplier : Z)
  (t0 l0 : Z) : option (bool * (Z * Z)) :=
  if (TargetGetLength nBits <? nTargetMinLength tp) || (99 <? TargetGetLength nBits)
  then Some (false, (t0, l0))
  else if hashBlockHeader <? hashBlockHeaderLimit then Some (false, (t0, l0))
  else
    let bnPrimeChainOrigin := bn_mul (setuint256 0 hashBlockHeader) bnPrimeChainMultiplier in
    if bn_ltb bnPrimeChainOrigin bnPrimeMin then Some (false, (t0, l0))
    else if bn_gtb bnPrimeChainOrigin bnPrimeMax then Some (false, (t0, l0))
    else
      let? (ok, c) := ProbablePrimeChainTest fuel bnPrimeChainOrigin nBits false in
      if negb ok then Some (false, (t0, l0))
      else if (nChainLengthCunningham1 c <? nBits) && (nChainLengthCunningham2 c <? nBits) &&
              (nChainLengthBiTwin c <? nBits)
      then Some (false, (t0, l0))
      else
        let? rf := ProbablePrimeChainTest fuel bnPrimeChainOrigin nBits true in
        let '(okf, cf) := rf in
        if negb okf then Some (false, (t0, l0))
        else if negb (same_lengths c cf) then Some (false, (t0, l0))
        else
          let '(nChainType, nChainLength) := select_chain c in
          let? m2 := bn_mod bnPrimeChainMultiplier (of_int 2) in
          let? even := (if bn_eqb m2 (of_int 0)
                  then let? o4 := bn_mod bnPrimeChainOrigin (of_int 4) in Some (bn_eqb o4 (of_int 0))
                  else Some false) in
          if even : bool then
            let? half := bn_div bnPrimeChainOrigin (of_int 2) in
            let? re := ProbablePrimeChainTest fuel half nBits false in
            let '(oke, ce) := re in
            if oke && ((nChainLength <? nChainLengthCunningham1 ce) ||
                       (nChainLength <? nChainLengthCunningham2 ce) ||
                       (nChainLength <? nChainLengthBiTwin ce))
            then Some (false, (nChainType, nChainLength))
            else Some (true, (nChainType, nChainLength))
          else Some (true, (nChainType, nChainLength)).

Definition CheckPrimeProofOfWorkV02Compatibility (hashBlockHeader : Z) : option bool :=
  fst <$> FermatProbablePrimalityTest (setuint256 0 hashBlockHeader) 0.

(** ** Miner versions *)

Definition ProbablePrimeChainTestForMiner (fuel : nat) (bnPrimeChainOrigin nBits nCandidateType : Z)
  : option (bool * Z) :=
  nChainLength ←
    (if nCandidateType =? PRIME_CHAIN_CUNNINGHAM1
     then snd <$> ProbableCunninghamChainTest fuel (bn_sub bnPrimeChainOrigin (of_int 1)) true false
     else if nCandidateType =? PRIME_CHAIN_CUNNINGHAM2
     then snd <$> ProbableCunninghamChainTest fuel (bn_add bnPrimeChainOrigin (of_int 1)) false false
     else
       let? r1 := ProbableCunninghamChainTest fuel (bn_sub bnPrimeChainOrigin (of_int 1)) true false in
       if r1.1 : bool then
         let? r2 := ProbableCunninghamChainTest fuel (bn_add bnPrimeChainOrigin (of_int 1)) false false in
         Some (bitwin_length r1.2 r2.2)
       else Some 0);
  Some (nBits <=? nChainLength, nChainLength).

Fixpoint trial_division (vPrimes : list Z) (bnCandidate nTrialDivisionLimit : Z) : option bool :=
  match vPrimes with
  | [] => Some true
  | nPrime :: r =>
    if nTrialDivisionLimit <=? nPrime then Some true
    else
      let? m := bn_mod bnCandidate (setulong nPrime) in
      if bn_eqb m (of_int 0) then Some false else trial_division r bnCandidate nTrialDivisionLimit
  end.
Definition ProbablePrimalityTestWithTrialDivision (vPrimes : list Z) (bnCandidate nTrialDivisionLimit : Z)
  : option bool :=
  let? ok := trial_division vPrimes bnCandidate nTrialDivisionLimit in
  if ok : bool then fst <$> FermatProbablePrimalityTest bnCandidate 0 else Some false.

(** decimal digits of an unsigned number, for ["%u"] *)
Fixpoint printf_u (fuel : nat) (n : Z) (acc : bytes) : bytes :=
  match fuel with
  | O => acc
  | S f => let acc := digit_char (n mod 10) :: acc in
           if n <? 10 then acc else printf_u f (n / 10) acc
  end.

Fixpoint strip_primorial (vPrimes : list Z) (bn last : Z) : option (Z * Z) :=
  match vPrimes with
  | [] => Some (bn, last)
  | p :: r =>
    let? m := bn_mod bn (setulong p) in
    if bn_eqb m (of_int 0)
    then let? q := bn_div bn (setulong p) in strip_primorial r q p
    else Some (bn, last)
  end.
(** ["%s*%u#"] *)
Definition GetPrimeOriginPrimorialForm (vPrimes : list Z) (bnPrimeChainOrigin : Z) : option bytes :=
  let? r := strip_primorial vPrimes bnPrimeChainOrigin 0 in
  let? s := ToString r.1 10 in
  Some (s ++ [42] ++ printf_u 10 r.2 [] ++ [35]).

End PrimeChain.

(** ** What the tests compute *)

(** the Fermat remainder to base 2, and being a 2-probable prime *)
Definition fermat_rem (n : Z) : Z := 2 ^ (n - 1) mod n.
Definition fermat (n : Z) : Prop := fermat_rem n = 1.

(** [nLength] after a failed test on [n]; a zero remainder (a power of two) hits
    the "fractional assert" and leaves it alone *)
Definition fail_length (nLength n : Z) : Z :=
  if fermat_rem n =? 0 then nLength
  else Z.lor (Z.land nLength TARGET_LENGTH_MASK) ((n - fermat_rem n) * 2 ^ 24 / n).

(** the [i]-th number of the chain of first ([true]) or second kind from [n] *)
Definition chain_elem (fSophieGermain : bool) (n i : Z) : Z :=
  if fSophieGermain then 2 ^ i * (n + 1) - 1 else 2 ^ i * (n - 1) + 1.

Lemma fermat_rem_range n : 0 < n -> 0 <= fermat_rem n < n.
Proof. intros. apply Z.mod_pos_bound. lia. Qed.

Lemma frac_range n r : 0 < n -> 0 < r < n -> 0 <= (n - r) * 2 ^ 24 / n < 2 ^ 24.
Proof. intros. split; [apply Z.div_pos; lia|apply Z.div_lt_upper_bound; nia]. Qed.

Lemma fail_length_spec k n : 0 <= k -> 0 < n ->
  nbits_ok (fail_length (k mod 256 * 2 ^ 24) n) /\ TargetGetLength (fail_length (k mod 256 * 2 ^ 24) n) = k mod 256.
Proof.
  intros Hk Hn. pose proof (Z.mod_pos_bound k 256 ltac:(lia)). pose proof (fermat_rem_range n Hn).
  assert (Hok : nbits_ok (k mod 256 * 2 ^ 24)) by (unfold nbits_ok; lia).
  assert (Hl : TargetGetLength (k mod 256 * 2 ^ 24) = k mod 256).
  { rewrite <- (Z.add_0_r (k mod 256 * 2 ^ 24)). by apply TargetGetLength_mk. }
  unfold fail_length. case_if; b2p; [done|].
  pose proof (frac_range n (fermat_rem n)). rewrite length_part, Hl, lor_disjoint_add by (done || lia).
  split; [unfold nbits_ok; lia|]. apply TargetGetLength_mk; lia.
Qed.

Lemma chain_elem_step s n i : 0 <= i ->
  chain_elem s n i + chain_elem s n i + (if s then 1 else -1) = chain_elem s n (i + 1).
Proof. intros. unfold chain_elem. rewrite Z.pow_add_r by lia. destruct s; lia. Qed.

Lemma chain_elem_ge2 s n i : 2 <= n -> 0 <= i -> 2 <= chain_elem s n i.
Proof. intros. unfold chain_elem. pose proof (Z.pow_pos_nonneg 2 i). destruct s; nia. Qed.

Lemma chain_elem_0 s n : chain_elem s n 0 = n.
Proof. unfold chain_elem. destruct s; simpl; lia. Qed.

Section Spec.
Context {B : OpenSSLBN} {L : OpenSSLBNLaws B}.

Ltac ints := rewrite ?of_int_eq by lia; autorewrite with bn.

Lemma set_fractional_eq n r nLength : 0 < n -> 0 <= r < n ->
  set_fractional n r nLength = Some (false,
    if r =? 0 then nLength else Z.lor (Z.land nLength TARGET_LENGTH_MASK) ((n - r) * 2 ^ 24 / n)).
Proof.
  intros Hn Hr. unfold set_fractional. unfold nFractionalBits. ints.
  rewrite bn_div_eq, Z.quot_div_nonneg by lia.
  assert (Hq : 0 <= (n - r) * 2 ^ 24 / n <= 2 ^ 24).
  { split; [apply Z.div_pos; lia|apply Z.div_le_upper_bound; nia]. }
  unfold getuint. rewrite BN_get_word_spec, Z.abs_eq, (proj2 (Z.ltb_lt _ (2 ^ 64))), u32_small by lia.
  change (Z.shiftl 1 24) with (2 ^ 24). destruct (r =? 0) eqn:E; b2p.
  - subst r. rewrite Z.sub_0_r, Z.mul_comm, Z.div_mul by lia. done.
  - pose proof (frac_range n r). by rewrite (proj2 (Z.leb_gt _ _)) by lia.
Qed.

Lemma FermatTest_eq n nLength : 0 < n ->
  FermatProbablePrimalityTest n nLength =
  Some (if fermat_rem n =? 1 then (true, nLength) else (false, fail_length nLength n)).
Proof.
  intros Hn. unfold FermatProbablePrimalityTest. ints. rewrite BN_mod_exp_spec by lia.
  fold (fermat_rem n). case_if; [done|]. rewrite set_fractional_eq; [done|lia|by apply fermat_rem_range].
Qed.

(** squaring the Euler remainder of an odd number gives the Fermat remainder *)
Lemma euler_square n : 0 < n -> n mod 2 = 1 ->
  (2 ^ ((n - 1) / 2) mod n * (2 ^ ((n - 1) / 2) mod n)) mod n = fermat_rem n.
Proof.
  intros Hn Ho. rewrite <- Z.mul_mod, <- Z.pow_add_r by dlia. unfold fermat_rem. do 2 f_equal. dlia.
Qed.

Lemma square_one n r : 1 < n -> r = 1 \/ r + 1 = n -> (r * r) mod n = 1.
Proof.
  intros Hn [->|Hr]; [apply Z.mod_small; lia|].
  replace (r * r) with (1 + (n - 2) * n) by nia. rewrite Z.mod_add by lia. apply Z.mod_small. lia.
Qed.

Lemma ELL_spec n s nLength : 1 < n ->
  exists b l, EulerLagrangeLifchitzPrimalityTest n s nLength = Some (b, l) /\
    match b with
    | true => l = nLength /\ fermat n
    | false => l = nLength \/ (l = fail_length nLength n)
    end.
Proof.
  intros Hn. unfold EulerLagrangeLifchitzPrimalityTest. ints.
  rewrite bn_mod_eq, Z.rem_mod_nonneg by lia. rewrite (proj2 (Z.ltb_ge (n - 1) 0)) by lia.
  change (2 ^ 1) with 2. rewrite BN_mod_exp_spec by dlia. cbv zeta. ints.
  set (r := 2 ^ ((n - 1) / 2) mod n).
  assert (Htest : forall passed, n mod 2 = 1 -> (passed = true -> r = 1 \/ r + 1 = n) ->
    exists b l, (if passed : bool then Some (true, nLength)
      else let? r2 := bn_mod (r * r) n in set_fractional n r2 nLength) = Some (b, l) /\
    match b with true => l = nLength /\ fermat n | false => l = nLength \/ l = fail_length nLength n end).
  { intros passed Ho Hp. pose proof (euler_square n ltac:(lia) Ho) as Hsq. fold r in Hsq.
    assert (Hr0 : 0 <= r < n) by (apply Z.mod_pos_bound; lia). destruct passed.
    - exists true, nLength. split; [done|]. split; [done|]. unfold fermat. rewrite <- Hsq.
      apply square_one; [lia|auto].
    - rewrite bn_mod_eq, Z.rem_mod_nonneg by nia. rewrite Hsq.
      rewrite set_fractional_eq by (try apply fermat_rem_range; lia).
      eexists false, _. split; [done|]. right. done. }
  destruct s; cbn [negb andb].
  - destruct (n mod 8 =? 7) eqn:E7; b2p; [apply Htest; [dlia|intros; b2p; auto]|].
    destruct (n mod 8 =? 3) eqn:E3; b2p; [apply Htest; [dlia|intros; b2p; auto]|].
    exists false, nLength. auto.
  - destruct (n mod 8 =? 5) eqn:E5; b2p; [apply Htest; [dlia|intros; b2p; auto]|].
    destruct (n mod 8 =? 1) eqn:E1; b2p; [apply Htest; [dlia|intros; b2p; auto]|].
    exists false, nLength. auto.
Qed.

Lemma TargetIncrementLength_mod k : 0 <= k ->
  TargetIncrementLength (k mod 256 * 2 ^ 24) = (k + 1) mod 256 * 2 ^ 24.
Proof.
  intros. unfold TargetIncrementLength, u32. change (Z.shiftl 1 nFractionalBits) with (2 ^ 24).
  change (2 ^ 32) with (256 * 2 ^ 24). rewrite <- (Z.mul_1_l (2 ^ 24)) at 2.
  rewrite <- Z.mul_add_distr_r, Z.mul_mod_distr_r by lia.
  by rewrite Z.add_mod_idemp_l by lia.
Qed.

(** one round of the loop *)
Lemma chain_test_spec (f s : bool) N k : 1 < N -> 0 <= k ->
  exists b l, (if f then FermatProbablePrimalityTest N (k mod 256 * 2 ^ 24)
    else EulerLagrangeLifchitzPrimalityTest N s (k mod 256 * 2 ^ 24)) = Some (b, l) /\
    if b : bool then l = k mod 256 * 2 ^ 24 /\ fermat N
    else nbits_ok l /\ TargetGetLength l = k mod 256 /\
         (f = true -> ~ fermat N /\ l = fail_length (k mod 256 * 2 ^ 24) N).
Proof.
  intros HN Hk. destruct (fail_length_spec k N Hk ltac:(lia)) as [H1 H2]. destruct f.
  - rewrite FermatTest_eq by lia. unfold fermat. destruct (fermat_rem N =? 1) eqn:E; b2p.
    + eexists true, _. done.
    + eexists false, _. done.
  - destruct (ELL_spec N s (k mod 256 * 2 ^ 24) HN) as (b & l & -> & Hb).
    exists b, l. split; [done|]. destruct b; [done|]. destruct Hb as [->| ->]; [|done].
    pose proof (Z.mod_pos_bound k 256 ltac:(lia)). split; [unfold nbits_ok; lia|]. split; [|done].
    rewrite <- (Z.add_0_r (k mod 256 * 2 ^ 24)). by apply TargetGetLength_mk.
Qed.

Lemma cunningham_loop_spec fuel n s f i l : 2 <= n -> 0 <= i ->
  cunningham_loop fuel (chain_elem s n i) s f (i mod 256 * 2 ^ 24) = Some l ->
  exists k, i < k /\ (forall j, i < j < k -> fermat (chain_elem s n j)) /\
    nbits_ok l /\ TargetGetLength l = k mod 256 /\
    (f = true -> ~ fermat (chain_elem s n k) /\ l = fail_length (k mod 256 * 2 ^ 24) (chain_elem s n k)).
Proof.
  intros Hn. revert i. induction fuel as [|fuel IH]; intros i Hi; cbn [cunningham_loop]; [done|].
  rewrite of_int_eq by (destruct s; lia). ints.
  rewrite chain_elem_step, TargetIncrementLength_mod by lia.
  destruct (chain_test_spec f s (chain_elem s n (i + 1)) (i + 1)) as (b & l' & -> & Hb).
  { pose proof (chain_elem_ge2 s n (i + 1)). lia. } { lia. }
  destruct b.
  - destruct Hb as [-> Hf]. intros H. destruct (IH (i + 1) ltac:(lia) H) as (k & Hk & Hall & Hrest).
    exists k. split; [lia|]. split; [|done]. intros j Hj. destruct (decide (j = i + 1)) as [->|]; [done|].
    apply Hall. lia.
  - intros [= <-]. exists (i + 1). split; [lia|]. split; [intros; lia|]. done.
Qed.

Lemma Cunningham_spec fuel n s f b l : 2 <= n ->
  ProbableCunninghamChainTest fuel n s f = Some (b, l) ->
  exists k, 0 <= k /\ (forall j, 0 <= j < k -> fermat (chain_elem s n j)) /\
    nbits_ok l /\ TargetGetLength l = k mod 256 /\
    (f = true -> ~ fermat (chain_elem s n k) /\ l = fail_length (k mod 256 * 2 ^ 24) (chain_elem s n k)).
Proof.
  intros Hn. unfold ProbableCunninghamChainTest.
  destruct (chain_test_spec true s n 0) as (b0 & l0 & E0 & H0); [lia|lia|].
  change (0 mod 256 * 2 ^ 24) with 0 in *. rewrite E0. destruct b0; cbn [negb].
  - destruct H0 as [-> Hf].
    destruct (cunningham_loop fuel n s f 0) as [l1|] eqn:El; [|done]. intros [= <- <-].
    rewrite <- (chain_elem_0 s n) in El at 1. change 0 with (0 mod 256 * 2 ^ 24) in El at 2.
    destruct (cunningham_loop_spec fuel n s f 0 l1 Hn ltac:(lia) El) as (k & Hk & Hall & Hrest).
    exists k. split; [lia|]. split; [|done]. intros j Hj.
    destruct (decide (j = 0)) as [->|]; [by rewrite chain_elem_0|apply Hall; lia].
  - intros [= <- <-]. exists 0. destruct H0 as (Hok & Hl & Hf). split; [lia|]. split; [intros; lia|].
    split; [done|]. split; [done|]. rewrite chain_elem_0. intros _. by apply Hf.
Qed.

(** enough fuel: a Fermat chain of [k] numbers is measured exactly *)
Lemma cunningham_loop_complete fuel n s i k : 2 <= n -> 0 <= i -> i < k <= i + Z.of_nat fuel ->
  (forall j, i < j < k -> fermat (chain_elem s n j)) -> ~ fermat (chain_elem s n k) ->
  cunningham_loop fuel (chain_elem s n i) s true (i mod 256 * 2 ^ 24)
    = Some (fail_length (k mod 256 * 2 ^ 24) (chain_elem s n k)).
Proof.
  intros Hn. revert i. induction fuel as [|fuel IH]; intros i Hi Hk Hall Hfail; [lia|].
  cbn [cunningham_loop]. rewrite of_int_eq by (destruct s; lia). ints.
  rewrite chain_elem_step, TargetIncrementLength_mod by lia.
  pose proof (chain_elem_ge2 s n (i + 1) Hn ltac:(lia)). rewrite FermatTest_eq by lia.
  destruct (decide (k = i + 1)) as [->|].
  - unfold fermat in Hfail. by rewrite (proj2 (Z.eqb_neq _ _) Hfail).
  - assert (Hf : fermat (chain_elem s n (i + 1))) by (apply Hall; lia).
    unfold fermat in Hf. rewrite Hf, Z.eqb_refl. apply IH; [lia|lia|intros; apply Hall; lia|done].
Qed.

End Spec.

(** ** Proof of work *)

Section ProofOfWork.
Context {B : OpenSSLBN} {L : OpenSSLBNLaws B}.

Lemma bitwin_length_eq l1 l2 : nbits_ok l1 -> nbits_ok l2 ->
  TargetGetLength (bitwin_length l1 l2) =
  (if TargetGetLength l2 <? TargetGetLength l1
   then 2 * TargetGetLength l2 + 1 else 2 * TargetGetLength l1) mod 256.
Proof.
  intros H1 H2. pose proof (nbits_split l1 H1) as (E1 & ? & ?). pose proof (nbits_split l2 H2) as (E2 & ? & ?).
  assert (Hgen : forall a f, 0 <= f < 2 ^ 24 -> 0 <= a ->
    TargetGetLength (u32 (a * 2 ^ 24 + f)) = a mod 256).
  { intros a f Hf Ha. rewrite TargetGetLength_eq by apply u32_range. unfold u32. dlia. }
  assert (Hint : forall a, 0 <= a < 256 -> TargetFromInt a = a * 2 ^ 24).
  { intros. unfold TargetFromInt, nFractionalBits. rewrite Z.shiftl_mul_pow2, u32_small by lia. done. }
  unfold bitwin_length. destruct (TargetGetLength l2 <? TargetGetLength l1) eqn:E; b2p.
  - rewrite Hint by lia. rewrite <- (Hgen _ (TargetGetFractional l2)) by lia. do 2 f_equal. lia.
  - rewrite Hint by lia. rewrite <- (Hgen _ (TargetGetFractional l1)) by lia. do 2 f_equal. lia.
Qed.

Lemma select_chain_spec c : let '(t, l) := select_chain c in
  ((t = PRIME_CHAIN_CUNNINGHAM1 /\ l = nChainLengthCunningham1 c) \/
   (t = PRIME_CHAIN_CUNNINGHAM2 /\ l = nChainLengthCunningham2 c) \/
   (t = PRIME_CHAIN_BI_TWIN /\ l = nChainLengthBiTwin c)) /\
  nChainLengthCunningham1 c <= l /\ nChainLengthCunningham2 c <= l /\ nChainLengthBiTwin c <= l.
Proof.
  unfold select_chain. destruct (nChainLengthCunningham1 c <? _) eqn:E1;
    destruct (_ <? nChainLengthBiTwin c) eqn:E2; b2p; (split; [tauto|lia]).
Qed.

(** the numbers a chain type of (integer) length [k] vouches for *)
Definition chain_of (org : Z) (plus : bool) (k : Z) : Prop :=
  forall i, 0 <= i < k -> fermat (2 ^ i * org + (if plus then 1 else -1)).

(** the chain claim of an accepted certificate with origin [org]: a Cunningham chain has [k] numbers, no more and no less, and its length
    is reported in a byte, so that [k] is at least the reported one *)
Definition certified_chain (org nChainType nChainLength : Z) : Prop :=
  let n := TargetGetLength nChainLength in
  (nChainType = PRIME_CHAIN_CUNNINGHAM1 /\
    exists k, 0 <= k /\ k mod 256 = n /\ chain_of org false k /\ ~ fermat (2 ^ k * org - 1)) \/
  (nChainType = PRIME_CHAIN_CUNNINGHAM2 /\
    exists k, 0 <= k /\ k mod 256 = n /\ chain_of org true k /\ ~ fermat (2 ^ k * org + 1)) \/
  (nChainType = PRIME_CHAIN_BI_TWIN /\
    forall i, 0 <= i -> (2 * i < n -> fermat (2 ^ i * org - 1)) /\ (2 * i + 1 < n -> fermat (2 ^ i * org + 1))).

Lemma chain_elem_minus org i : chain_elem true (org - 1) i = 2 ^ i * org - 1.
Proof. unfold chain_elem. do 2 f_equal. lia. Qed.
Lemma chain_elem_plus org i : chain_elem false (org + 1) i = 2 ^ i * org + 1.
Proof. unfold chain_elem. do 2 f_equal. lia. Qed.

Lemma ProbablePrimeChainTest_spec fuel org nBits f ok c : 3 <= org ->
  ProbablePrimeChainTest fuel org nBits f = Some (ok, c) ->
  ok = meets_target c nBits /\
  nChainLengthBiTwin c = bitwin_length (nChainLengthCunningham1 c) (nChainLengthCunningham2 c) /\
  nbits_ok (nChainLengthCunningham1 c) /\ nbits_ok (nChainLengthCunningham2 c) /\
  exists k1 k2, 0 <= k1 /\ 0 <= k2 /\ chain_of org false k1 /\ chain_of org true k2 /\
    TargetGetLength (nChainLengthCunningham1 c) = k1 mod 256 /\
    TargetGetLength (nChainLengthCunningham2 c) = k2 mod 256 /\
    (f = true -> ~ fermat (2 ^ k1 * org - 1) /\ ~ fermat (2 ^ k2 * org + 1)).
Proof.
  intros Ho. unfold ProbablePrimeChainTest. rewrite !of_int_eq by lia. autorewrite with bn.
  destruct (ProbableCunninghamChainTest fuel (org - 1) true f) as [[b1 l1]|] eqn:E1; [|done].
  destruct (ProbableCunninghamChainTest fuel (org + 1) false f) as [[b2 l2]|] eqn:E2; [|done].
  intros [= <- <-]. cbn [nChainLengthCunningham1 nChainLengthCunningham2 nChainLengthBiTwin fst snd].
  apply Cunningham_spec in E1 as (k1 & ? & A1 & N1 & L1 & F1); [|lia].
  apply Cunningham_spec in E2 as (k2 & ? & A2 & N2 & L2 & F2); [|lia].
  split; [done|]. split; [done|]. split; [done|]. split; [done|]. exists k1, k2. split_and!; try done.
  - intros i Hi. specialize (A1 i Hi). by rewrite chain_elem_minus in A1.
  - intros i Hi. specialize (A2 i Hi). by rewrite chain_elem_plus in A2.
  - intros Hf. rewrite <- chain_elem_minus, <- chain_elem_plus. by split; [apply F1|apply F2].
Qed.

Lemma certified_of_test fuel org nBits ok c : 3 <= org ->
  ProbablePrimeChainTest fuel org nBits true = Some (ok, c) ->
  let '(t, l) := select_chain c in certified_chain org t l.
Proof.
  intros Ho H. pose proof (select_chain_spec c) as Hs. destruct (select_chain c) as [t l].
  apply ProbablePrimeChainTest_spec in H as (_ & Hbt & N1 & N2 & k1 & k2 & ? & ? & A1 & A2 & L1 & L2 & F); [|done].
  destruct (F eq_refl) as [F1 F2]. destruct Hs as [[[-> ->]|[[-> ->]|[-> ->]]] _].
  - left. split; [done|]. by exists k1.
  - right; left. split; [done|]. by exists k2.
  - right; right. split; [done|]. rewrite Hbt, bitwin_length_eq by done.
    pose proof (Z.mod_le k1 256). pose proof (Z.mod_le k2 256).
    pose proof (Z.mod_pos_bound k1 256). pose proof (Z.mod_pos_bound k2 256).
    destruct (TargetGetLength _ <? TargetGetLength _) eqn:E; b2p; rewrite L1, L2 in E;
      rewrite ?L1, ?L2; intros i Hi.
    + pose proof (Z.mod_le (2 * (k2 mod 256) + 1) 256).
      split; intros; [apply (A1 i); lia|apply (A2 i); lia].
    + pose proof (Z.mod_le (2 * (k1 mod 256)) 256).
      split; intros; [apply (A1 i); lia|apply (A2 i); lia].
Qed.

Lemma same_lengths_eq c1 c2 : same_lengths c1 c2 = true -> c1 = c2.
Proof.
  destruct c1, c2. unfold same_lengths. cbn [nChainLengthCunningham1 nChainLengthCunningham2 nChainLengthBiTwin].
  intros. b2p. by subst.
Qed.

Lemma prime_bounds : bnPrimeMin = 2 ^ 255 /\ bnPrimeMax = 2 ^ 2000 - 1.
Proof. unfold bnPrimeMin, bnPrimeMax, bnOne. rewrite of_int_eq by lia. autorewrite with bn. lia. Qed.

(** C1: soundness of the proof-of-work check.  When [CheckPrimeProofOfWork]
    accepts a certificate, the target is in range, the header hash and the chain
    origin (their product) meet their bounds, the reported length meets the
    target, and the reported chain exists: every number of the Cunningham or
    bi-twin chain, up to the reported length, is a 2-probable prime, and a
    Cunningham chain stops exactly there (its length is reported modulo 256). *)
Theorem CheckPrimeProofOfWork_sound tp fuel hash nBits mult t0 l0 t l
  (Hh : 0 <= hash < 2 ^ 256)
  (Hc : CheckPrimeProofOfWork tp fuel hash nBits mult t0 l0 = Some (true, (t, l))) :
  nTargetMinLength tp <= TargetGetLength nBits <= 99 /\ 2 ^ 255 <= hash /\
  2 ^ 255 <= hash * mult < 2 ^ 2000 /\ nBits <= l /\ certified_chain (hash * mult) t l.
Proof.
  revert Hc. unfold CheckPrimeProofOfWork, hashBlockHeaderLimit.
  destruct (_ || _) eqn:E1; [done|]. destruct (hash <? _) eqn:E2; [done|]. b2p.
  destruct prime_bounds as [-> ->]. rewrite setuint256_eq by lia. autorewrite with bn.
  destruct (_ <? 2 ^ 255) eqn:E3; [done|]. destruct (2 ^ 2000 - 1 <? _) eqn:E4; [done|]. b2p.
  set (org := hash * mult) in *.
  destruct (ProbablePrimeChainTest fuel org nBits false) as [[ok c]|] eqn:T1; [|done].
  destruct ok; cbn [negb]; [|done]. destruct (_ && _) eqn:E5; [done|].
  destruct (ProbablePrimeChainTest fuel org nBits true) as [[okf cf]|] eqn:T2; [|done].
  destruct okf; cbn [negb]; [|done]. destruct (same_lengths c cf) eqn:E6; cbn [negb]; [|done].
  apply same_lengths_eq in E6 as <-. pose proof (certified_of_test fuel org nBits true c) as Hcert.
  pose proof (select_chain_spec c) as Hsel. destruct (select_chain c) as [t1 l1] eqn:Es.
  assert (Hmeet : nBits <= l1).
  { destruct Hsel as [_ (? & ? & ?)].
    apply andb_false_iff in E5 as [[?|?]%andb_false_iff|?]; b2p; lia. }
  intros Hres. assert (t = t1 /\ l = l1) as [-> ->].
  { repeat case_match; simplify_eq/=; done. }
  split_and!; [lia..| |]; [lia|]. apply Hcert; [lia|done].
Qed.

End ProofOfWork.

(** A header hash just above the limit whose chain of first kind has length 2. *)
Definition sample_hash : Z := 2 ^ 255 + 115096.

Lemma CheckPrimeProofOfWork_sound_witness :
  2 <= TargetGetLength (2 * 2 ^ 24) <= 99 /\ 2 ^ 255 <= sample_hash /\
  2 ^ 255 <= sample_hash * 1 < 2 ^ 2000 /\ 2 * 2 ^ 24 <= 39023831 /\
  certified_chain (sample_hash * 1) PRIME_CHAIN_CUNNINGHAM1 39023831.
Proof.
  apply (CheckPrimeProofOfWork_sound testnet_target 10 sample_hash (2 * 2 ^ 24) 1 0 0).
  - split; [discriminate|reflexivity].
  - vm_compute. reflexivity.
Defined.

Section ChainProperties.
Context {B : OpenSSLBN} {L : OpenSSLBNLaws B}.

(** C16: the Cunningham chain test measures Fermat chains exactly and
    terminates on them: if the first [k] numbers of the chain from [n] are
    2-probable primes and the next one is not, then [k] rounds of the loop are
    enough, the integer part of the reported length is [k], the fractional part
    is computed from the first failing number, and the verdict is [2 <= k]. *)
Theorem ProbableCunninghamChainTest_exact fuel n fSophieGermain k
  (Hn : 2 <= n) (Hk : 0 <= k < 256) (Hf : k <= Z.of_nat fuel)
  (Hpass : forall j, 0 <= j < k -> fermat (chain_elem fSophieGermain n j))
  (Hfail : ~ fermat (chain_elem fSophieGermain n k)) :
  exists l, ProbableCunninghamChainTest fuel n fSophieGermain true = Some (2 <=? k, l) /\
    TargetGetLength l = k /\ l = fail_length (k * 2 ^ 24) (chain_elem fSophieGermain n k).
Proof.
  pose proof (chain_elem_ge2 fSophieGermain n k Hn ltac:(lia)).
  assert (Hm : k mod 256 = k) by (apply Z.mod_small; lia).
  destruct (fail_length_spec k (chain_elem fSophieGermain n k)) as [_ Hl]; [lia|lia|].
  rewrite Hm in Hl. exists (fail_length (k * 2 ^ 24) (chain_elem fSophieGermain n k)).
  split; [|done]. unfold ProbableCunninghamChainTest. rewrite FermatTest_eq by lia.
  destruct (decide (k = 0)) as [->|].
  - rewrite chain_elem_0 in *. unfold fermat in Hfail. by rewrite (proj2 (Z.eqb_neq _ _) Hfail).
  - assert (Hf0 : fermat n) by (rewrite <- (chain_elem_0 fSophieGermain n); apply Hpass; lia).
    unfold fermat in Hf0. rewrite Hf0, Z.eqb_refl. cbn [negb].
    pose proof (cunningham_loop_complete fuel n fSophieGermain 0 k Hn) as Hc.
    rewrite chain_elem_0, Hm in Hc. change (0 mod 256 * 2 ^ 24) with 0 in Hc.
    rewrite Hc; [|lia|lia|intros; apply Hpass; lia|done]. by rewrite Hl.
Qed.

(** the Euler-Lagrange-Lifchitz test is consistent with the Fermat test it
    replaces: it always returns, a number it passes is a 2-probable prime, and
    when both tests fail and it records a fractional length, it is the one the
    Fermat test records. *)
Theorem ELL_consistent_with_Fermat n fSophieGermain nLength (Hn : 1 < n) :
  exists b l, EulerLagrangeLifchitzPrimalityTest n fSophieGermain nLength = Some (b, l) /\
    (b = true -> l = nLength /\ FermatProbablePrimalityTest n nLength = Some (true, nLength)) /\
    (b = false -> l <> nLength -> ~ fermat n ->
      FermatProbablePrimalityTest n nLength = Some (false, l)).
Proof.
  destruct (ELL_spec n fSophieGermain nLength Hn) as (b & l & E & Hb). exists b, l. split; [done|].
  rewrite FermatTest_eq by lia. unfold fermat in *. split.
  - intros ->. destruct Hb as [-> Hf]. by rewrite Hf.
  - intros -> Hne Hnf. rewrite (proj2 (Z.eqb_neq _ _) Hnf). by destruct Hb as [->| ->].
Qed.

End ChainProperties.

(** 89, 179, 359, 719, 1439, 2879 is the smallest chain of first kind of length 6. *)
Lemma ProbableCunninghamChainTest_exact_witness :
  exists l, ProbableCunninghamChainTest 10 89 true true = Some (2 <=? 6, l) /\
    TargetGetLength l = 6 /\ l = fail_length (6 * 2 ^ 24) (chain_elem true 89 6).
Proof.
  apply (ProbableCunninghamChainTest_exact 10 89 true 6); [lia|lia|lia| |].
  - intros j Hj. unfold fermat, fermat_rem. rewrite <- (BN_mod_exp_spec (B := ZBN) 2).
    + assert (Hcase : j = 0 \/ j = 1 \/ j = 2 \/ j = 3 \/ j = 4 \/ j = 5) by lia.
      destruct_or! Hcase; subst j; vm_compute; reflexivity.
    + pose proof (chain_elem_ge2 true 89 j). lia.
    + pose proof (chain_elem_ge2 true 89 j). lia.
  - unfold fermat, fermat_rem. rewrite <- (BN_mod_exp_spec (B := ZBN) 2) by (vm_compute; discriminate || reflexivity).
    vm_compute. discriminate.
Defined.

Lemma ELL_consistent_with_Fermat_witness :
  exists b l, EulerLagrangeLifchitzPrimalityTest 5759 true (6 * 2 ^ 24) = Some (b, l) /\
    (b = true -> l = 6 * 2 ^ 24 /\ FermatProbablePrimalityTest 5759 (6 * 2 ^ 24) = Some (true, 6 * 2 ^ 24)) /\
    (b = false -> l <> 6 * 2 ^ 24 -> ~ fermat 5759 ->
      FermatProbablePrimalityTest 5759 (6 * 2 ^ 24) = Some (false, l)).
Proof. apply (ELL_consistent_with_Fermat 5759 true (6 * 2 ^ 24)). reflexivity. Defined.
