(* ===== verification/Miner.v ===== *)
(** * The mining sieve (prime.h, prime.cpp)

    [CSieveOfEratosthenes]: three bitmaps over the variable multiplier, woven one
    table prime at a time, and the scan for candidates; [CPrimeMiner]: the sieve
    weave count it tunes.  The size of the bitmaps ([nMaxSieveSize] in the
    program) is a parameter of the constructor. *)

From S2P Require Import Prelude OpenSSL BigNum Target PrimeTable PrimeChain.
Local Open Scope Z_scope.

Record CSieveOfEratosthenes := {
  nSieveSize : Z;
  sv_nBits : Z;
  hashBlockHeader : Z;
  bnFixedFactor : Z;
  vfCompositeCunningham1 : list bool;
  vfCompositeCunningham2 : list bool;
  vfCompositeBiTwin : list bool;
  nPrimeSeq : Z;
  nCandidateMultiplier : Z;
}.

Definition set_bitmaps (s : CSieveOfEratosthenes) (c1 c2 bt : list bool) : CSieveOfEratosthenes :=
  {| nSieveSize := nSieveSize s; sv_nBits := sv_nBits s; hashBlockHeader := hashBlockHeader s;
     bnFixedFactor := bnFixedFactor s; vfCompositeCunningham1 := c1; vfCompositeCunningham2 := c2;
     vfCompositeBiTwin := bt; nPrimeSeq := nPrimeSeq s; nCandidateMultiplier := nCandidateMultiplier s |}.
Definition set_nPrimeSeq (s : CSieveOfEratosthenes) (n : Z) : CSieveOfEratosthenes :=
  {| nSieveSize := nSieveSize s; sv_nBits := sv_nBits s; hashBlockHeader := hashBlockHeader s;
     bnFixedFactor := bnFixedFactor s; vfCompositeCunningham1 := vfCompositeCunningham1 s;
     vfCompositeCunningham2 := vfCompositeCunningham2 s; vfCompositeBiTwin := vfCompositeBiTwin s;
     nPrimeSeq := n; nCandidateMultiplier := nCandidateMultiplier s |}.
Definition set_nCandidateMultiplier (s : CSieveOfEratosthenes) (n : Z) : CSieveOfEratosthenes :=
  {| nSieveSize := nSieveSize s; sv_nBits := sv_nBits s; hashBlockHeader := hashBlockHeader s;
     bnFixedFactor := bnFixedFactor s; vfCompositeCunningham1 := vfCompositeCunningham1 s;
     vfCompositeCunningham2 := vfCompositeCunningham2 s; vfCompositeBiTwin := vfCompositeBiTwin s;
     nPrimeSeq := nPrimeSeq s; nCandidateMultiplier := n |}.

(** ** Candidates *)

Fixpoint count_candidates (fuel : nat) (s : CSieveOfEratosthenes) (nMultiplier nCandidates : Z) : Z :=
  match fuel with
  | O => nCandidates
  | S f =>
    if nMultiplier <? nSieveSize s then
      let live := negb (vget (vfCompositeCunningham1 s) nMultiplier) ||
                  negb (vget (vfCompositeCunningham2 s) nMultiplier) ||
                  negb (vget (vfCompositeBiTwin s) nMultiplier) in
      count_candidates f s (u32 (nMultiplier + 1)) (if live then u32 (nCandidates + 1) else nCandidates)
    else nCandidates
  end.
Definition GetCandidateCount (s : CSieveOfEratosthenes) : Z :=
  count_candidates (Z.to_nat (nSieveSize s)) s 0 0.

(** returns the candidate and its type, or [None] when the scan is complete *)
Fixpoint next_candidate (fuel : nat) (s : CSieveOfEratosthenes) : option (Z * Z) * CSieveOfEratosthenes :=
  match fuel with
  | O => (None, s)
  | S f =>
    let n := u32 (nCandidateMultiplier s + 1) in
    let s := set_nCandidateMultiplier s n in
    if nSieveSize s <=? n then (None, set_nCandidateMultiplier s 0)
    else if negb (vget (vfCompositeBiTwin s) n) then (Some (n, PRIME_CHAIN_BI_TWIN), s)
    else if negb (vget (vfCompositeCunningham1 s) n) then (Some (n, PRIME_CHAIN_CUNNINGHAM1), s)
    else if negb (vget (vfCompositeCunningham2 s) n) then (Some (n, PRIME_CHAIN_CUNNINGHAM2), s)
    else next_candidate f s
  end.
Definition GetNextCandidateMultiplier (s : CSieveOfEratosthenes) : option (Z * Z) * CSieveOfEratosthenes :=
  next_candidate (S (Z.to_nat (nSieveSize s))) s.

Section Sieve.
Context {B : OpenSSLBN}.

Definition new_sieve (vecsize nSieveSizeIn nBitsIn hash bnFixedMultiplier : Z) : CSieveOfEratosthenes :=
  let v := replicate (Z.to_nat vecsize) false in
  {| nSieveSize := nSieveSizeIn; sv_nBits := nBitsIn; hashBlockHeader := hash;
     bnFixedFactor := bn_mul bnFixedMultiplier (setuint256 0 hash);
     vfCompositeCunningham1 := v; vfCompositeCunningham2 := v; vfCompositeBiTwin := v;
     nPrimeSeq := 0; nCandidateMultiplier := 0 |}.

(** one value of [nBiTwinSeq]: solve for the multiplier and mark the bitmaps *)
Definition weave_marks (size nPrime nChainLength nBiTwinSeq nSolvedMultiplier : Z)
  (maps : list bool * list bool * list bool) : list bool * list bool * list bool :=
  let '(c1, c2, bt) := maps in
  let mark v := mark_from (Z.to_nat size) size nPrime nSolvedMultiplier v in
  let bt := if nBiTwinSeq <? nChainLength then mark bt else bt in
  let c1 := if Z.land nBiTwinSeq 1 =? 0 then mark c1 else c1 in
  let c2 := if Z.land nBiTwinSeq 1 =? 1 then mark c2 else c2 in
  (c1, c2, bt).

Fixpoint weave_loop (fuel : nat) (size nPrime nChainLength p bnTwoInverse nBiTwinSeq bnFixedInverse : Z)
  (maps : list bool * list bool * list bool) : option (list bool * list bool * list bool) :=
  match fuel with
  | O => Some maps
  | S f =>
    if nBiTwinSeq <? u32 (2 * nChainLength) then
      let nDelta := if nBiTwinSeq mod 2 =? 0 then -1 else 1 in
      let? m := bn_mod (bn_mul bnFixedInverse (bn_sub p (of_int nDelta))) p in
      let nSolvedMultiplier := getuint m in
      let bnFixedInverse :=
        if nBiTwinSeq mod 2 =? 1 then bn_mul bnFixedInverse bnTwoInverse else bnFixedInverse in
      let maps := weave_marks size nPrime nChainLength nBiTwinSeq nSolvedMultiplier maps in
      weave_loop f size nPrime nChainLength p bnTwoInverse (u32 (nBiTwinSeq + 1)) bnFixedInverse maps
    else Some maps
  end.

(** [None] is a thrown [bignum_error] *)
Definition Weave (vPrimes : list Z) (s : CSieveOfEratosthenes) : option (bool * CSieveOfEratosthenes) :=
  match vPrimes !! Z.to_nat (nPrimeSeq s) with
  | None => Some (false, s)
  | Some nPrime =>
    if nSieveSize s <=? nPrime then Some (false, s)
    else
      let p := setulong nPrime in
      let? m := bn_mod (bnFixedFactor s) p in
      if bn_eqb m (of_int 0) then Some (true, set_nPrimeSeq s (u32 (nPrimeSeq s + 1)))
      else
        match BN_mod_inverse (bnFixedFactor s) p with
        | None => Some (false, s)
        | Some bnFixedInverse =>
          match BN_mod_inverse (of_int 2) p with
          | None => Some (false, s)
          | Some bnTwoInverse =>
            let nChainLength := TargetGetLength (sv_nBits s) in
            let? maps := weave_loop (Z.to_nat (2 * nChainLength)) (nSieveSize s) nPrime nChainLength p
                           bnTwoInverse 0 bnFixedInverse
                           (vfCompositeCunningham1 s, vfCompositeCunningham2 s, vfCompositeBiTwin s) in
            let '(c1, c2, bt) := maps in
            Some (true, set_nPrimeSeq (set_bitmaps s c1 c2 bt) (u32 (nPrimeSeq s + 1)))
          end
        end
  end.

End Sieve.

(** ** CPrimeMiner *)

Definition nPrimorialMultiplierMin : Z := 7.
Definition nSieveWeaveInitial : Z := 1000.

Record CPrimeMiner := {
  fSieveRoundShrink : bool;
  nSieveCandidateCount : Z;
  nTimeSieveReady : Z;
  nPrimalityTestCost : Z;
  nPrimorialMultiplier : Z;
  nSieveWeaveOptimal : Z;
}.

Definition new_miner : CPrimeMiner :=
  {| fSieveRoundShrink := true; nSieveCandidateCount := 0; nTimeSieveReady := 0; nPrimalityTestCost := 0;
     nPrimorialMultiplier := nPrimorialMultiplierMin; nSieveWeaveOptimal := nSieveWeaveInitial |}.

Definition GetSieveWeaveOptimalPrime (vPrimes : list Z) (m : CPrimeMiner) : Z :=
  match vPrimes !! Z.to_nat (nSieveWeaveOptimal m) with
  | Some p => p
  | None => nPrimeTableLimit
  end.

Definition set_nSieveWeaveOptimal (m : CPrimeMiner) (n : Z) : CPrimeMiner :=
  {| fSieveRoundShrink := fSieveRoundShrink m; nSieveCandidateCount := nSieveCandidateCount m;
     nTimeSieveReady := nTimeSieveReady m; nPrimalityTestCost := nPrimalityTestCost m;
     nPrimorialMultiplier := nPrimorialMultiplier m; nSieveWeaveOptimal := n |}.

Definition SetSieveWeaveCost (nSieveWeaveCost nSieveWeaveComposites : Z) (m : CPrimeMiner) : CPrimeMiner :=
  {| fSieveRoundShrink := s64 (nSieveWeaveComposites * nPrimalityTestCost m) <? nSieveWeaveCost;
     nSieveCandidateCount := nSieveCandidateCount m; nTimeSieveReady := nTimeSieveReady m;
     nPrimalityTestCost := nPrimalityTestCost m; nPrimorialMultiplier := nPrimorialMultiplier m;
     nSieveWeaveOptimal := nSieveWeaveOptimal m |}.

Definition SetSieveWeaveCount (nSieveWeaveCount : Z) (m : CPrimeMiner) : CPrimeMiner :=
  if nSieveWeaveCount <? nSieveWeaveOptimal m
  then set_nSieveWeaveOptimal m (Z.max nSieveWeaveCount nSieveWeaveInitial) else m.

Definition AdjustSieveWeaveOptimal (vPrimes : list Z) (m : CPrimeMiner) : CPrimeMiner :=
  set_nSieveWeaveOptimal m
    (if fSieveRoundShrink m
     then Z.max (u32 (u32 (nSieveWeaveOptimal m * 95) / 100 + 1)) nSieveWeaveInitial
     else Z.min (u32 (nSieveWeaveOptimal m * 100) / 95) (u32 (Z.of_nat (length vPrimes)))).

Definition TimerSetSieveReady (nCandidateCount nTimestampMicro : Z) (m : CPrimeMiner) : CPrimeMiner :=
  {| fSieveRoundShrink := fSieveRoundShrink m; nSieveCandidateCount := nCandidateCount;
     nTimeSieveReady := nTimestampMicro; nPrimalityTestCost := nPrimalityTestCost m;
     nPrimorialMultiplier := nPrimorialMultiplier m; nSieveWeaveOptimal := nSieveWeaveOptimal m |}.

Definition TimerSetPrimalityDone (nTimestampMicro : Z) (m : CPrimeMiner) : CPrimeMiner :=
  if (nTimeSieveReady m <? nTimestampMicro) && (0 <? nSieveCandidateCount m)
  then {| fSieveRoundShrink := fSieveRoundShrink m; nSieveCandidateCount := nSieveCandidateCount m;
          nTimeSieveReady := nTimeSieveReady m;
          nPrimalityTestCost := cdiv (s64 (nTimestampMicro - nTimeSieveReady m)) (nSieveCandidateCount m);
          nPrimorialMultiplier := nPrimorialMultiplier m; nSieveWeaveOptimal := nSieveWeaveOptimal m |}
  else m.

(** ** Weaving is exact *)

(** the sign of the chain number a sequence position solves for *)
Definition seq_delta (s : Z) : Z := if s mod 2 =? 0 then -1 else 1.

(** prime [p] divides chain number [s] of multiplier [m] *)
Definition hits (F p s m : Z) : Prop := (p | 2 ^ (s / 2) * F * m + seq_delta s).

Lemma solved_iff p a inv delta m : 0 < p -> 0 <= m -> (p | a * inv - 1) ->
  let solved := (inv * (p - delta)) mod p in
  solved <= m /\ (p | m - solved) <-> (p | a * m + delta).
Proof.
  intros Hp Hm [e He] solved. assert (Ha : a * inv = 1 + p * e) by lia.
  pose proof (Z.mod_pos_bound (inv * (p - delta)) p Hp) as Hs. fold solved in Hs.
  assert (Hq : solved = inv * (p - delta) - p * (inv * (p - delta) / p)) by (unfold solved; rewrite Z.mod_eq; lia).
  set (q := inv * (p - delta) / p) in *. split.
  - intros [_ [k Hk]]. exists (1 + e * (p - delta) - a * q + a * k).
    replace m with (inv * (p - delta) - p * q + k * p) by lia.
    replace (a * (inv * (p - delta) - p * q + k * p)) with ((a * inv) * (p - delta) - a * p * q + a * k * p) by ring.
    rewrite Ha. ring.
  - intros [c Hc]. assert (Hd : m - solved = (inv * c - e * m - inv + q) * p).
    { assert (Hmm : m = (a * inv) * m - p * e * m) by (rewrite Ha; ring).
      replace (a * inv * m) with (inv * (a * m)) in Hmm by ring.
      replace (a * m) with (c * p - delta) in Hmm by lia. rewrite Hq. rewrite Hmm at 1. ring. }
    split; [|by exists (inv * c - e * m - inv + q)].
    destruct (Z.le_gt_cases solved m) as [|Hlt]; [done|]. exfalso.
    set (k := inv * c - e * m - inv + q) in *. assert (k < 0 \/ 0 <= k) as [|] by lia; nia.
Qed.

Section WeaveSpec.
Context {B : OpenSSLBN} {L : OpenSSLBNLaws B}.

(** what one round adds to the bitmaps *)
Definition maps_spec (F p n size lo hi : Z) (old new : list bool * list bool * list bool) : Prop :=
  length new.1.1 = length old.1.1 /\ length new.1.2 = length old.1.2 /\ length new.2 = length old.2 /\
  forall m, 0 <= m < size ->
    (vget new.1.1 m = true <-> vget old.1.1 m = true \/
      exists s, lo <= s < hi /\ s mod 2 = 0 /\ hits F p s m) /\
    (vget new.1.2 m = true <-> vget old.1.2 m = true \/
      exists s, lo <= s < hi /\ s mod 2 = 1 /\ hits F p s m) /\
    (vget new.2 m = true <-> vget old.2 m = true \/
      exists s, lo <= s < hi /\ s < n /\ hits F p s m).

Lemma land_1 s : Z.land s 1 = s mod 2.
Proof. apply (land_mask s 1). lia. Qed.

Lemma weave_marks_spec F p n size s inv maps : 1 < p < 2 ^ 31 -> 0 <= size <= 2 ^ 31 -> 0 <= s ->
  (p | 2 ^ (s / 2) * F * inv - 1) ->
  size <= Z.of_nat (length maps.1.1) -> size <= Z.of_nat (length maps.1.2) -> size <= Z.of_nat (length maps.2) ->
  maps_spec F p n size s (s + 1) maps
    (weave_marks size p n s ((inv * (p - seq_delta s)) mod p) maps).
Proof.
  intros Hp Hsz Hs Hinv H1 H2 H3. destruct maps as [[c1 c2] bt]. cbn [fst snd] in *.
  pose proof (Z.mod_pos_bound (inv * (p - seq_delta s)) p ltac:(lia)) as Hr.
  unfold maps_spec, weave_marks. cbv zeta. rewrite land_1. cbn [fst snd].
  split; [case_if; [apply mark_from_length|done]|].
  split; [case_if; [apply mark_from_length|done]|].
  split; [case_if; [apply mark_from_length|done]|].
  intros m Hm.
  assert (Hmark : forall v, size <= Z.of_nat (length v) ->
    vget (mark_from (Z.to_nat size) size p ((inv * (p - seq_delta s)) mod p) v) m = true <->
    vget v m = true \/ hits F p s m).
  { intros v Hv. rewrite mark_from_spec by lia. unfold hits. rewrite <- solved_iff by (try apply Hinv; lia). done. }
  assert (Hone : forall P : Z -> Prop, (exists x, s <= x < s + 1 /\ P x) <-> P s).
  { intros P. split; [intros (x & Hx & HP); by replace s with x by lia|]. intros; exists s. split; [lia|done]. }
  split; [|split]; rewrite Hone.
  - destruct (s mod 2 =? 0) eqn:E; b2p; [rewrite Hmark by done; tauto|tauto].
  - destruct (s mod 2 =? 1) eqn:E; b2p; [rewrite Hmark by done; tauto|tauto].
  - destruct (s <? n) eqn:E; b2p; [rewrite Hmark by done; tauto|].
    split; [by left|]. intros [?|[? _]]; [done|lia].
Qed.

Lemma maps_spec_refl F p n size lo maps : maps_spec F p n size lo lo maps maps.
Proof.
  unfold maps_spec. do 3 (split; [done|]). intros m Hm.
  split_and!; (split; [by left|intros [?|(s & ? & _)]; [done|lia]]).
Qed.

Lemma maps_spec_trans F p n size a b c m1 m2 m3 : a <= b <= c ->
  maps_spec F p n size a b m1 m2 -> maps_spec F p n size b c m2 m3 -> maps_spec F p n size a c m1 m3.
Proof.
  intros Habc (A1 & A2 & A3 & A) (B1 & B2 & B3 & C). unfold maps_spec.
  split; [congruence|]. split; [congruence|]. split; [congruence|]. intros m Hm.
  destruct (A m Hm) as (X1 & X2 & X3). destruct (C m Hm) as (Y1 & Y2 & Y3).
  assert (Hun : forall P : Z -> Prop, (exists s, a <= s < c /\ P s) <->
    (exists s, a <= s < b /\ P s) \/ (exists s, b <= s < c /\ P s)).
  { intros P. split.
    - intros (s & ? & ?). destruct (decide (s < b)); [left|right]; exists s; (split; [lia|done]).
    - intros [(s & ? & ?)|(s & ? & ?)]; exists s; (split; [lia|done]). }
  rewrite Y1, Y2, Y3, X1, X2, X3, !Hun. tauto.
Qed.

Lemma seq_delta_int s : seq_delta s = -1 \/ seq_delta s = 1.
Proof. unfold seq_delta. case_if; auto. Qed.

Lemma weave_loop_spec fuel F p n size two s inv maps : 1 < p < 2 ^ 31 -> 0 <= size <= 2 ^ 31 ->
  0 <= n < 256 -> 0 <= two -> (p | 2 * two - 1) -> 0 <= s <= 2 * n -> 2 * n <= s + Z.of_nat fuel ->
  0 <= inv -> (p | 2 ^ (s / 2) * F * inv - 1) ->
  size <= Z.of_nat (length maps.1.1) -> size <= Z.of_nat (length maps.1.2) -> size <= Z.of_nat (length maps.2) ->
  exists maps', weave_loop fuel size p n p two s inv maps = Some maps' /\
    maps_spec F p n size s (2 * n) maps maps'.
Proof.
  intros Hp Hsz Hn Htwo [t Ht]. revert s inv maps.
  induction fuel as [|fuel IH]; intros s inv maps Hs Hf Hinv0 Hinv H1 H2 H3; cbn [weave_loop].
  - exists maps. split; [done|]. replace s with (2 * n) by lia. apply maps_spec_refl.
  - rewrite (u32_small (2 * n)) by lia. destruct (s <? 2 * n) eqn:E; b2p.
    2:{ exists maps. split; [done|]. replace s with (2 * n) by lia. apply maps_spec_refl. }
    fold (seq_delta s). pose proof (seq_delta_int s) as Hd.
    rewrite of_int_eq by lia. autorewrite with bn. rewrite bn_mod_eq, Z.rem_mod_nonneg by nia.
    unfold getuint. rewrite BN_get_word_spec.
    pose proof (Z.mod_pos_bound (inv * (p - seq_delta s)) p ltac:(lia)) as Hr.
    rewrite Z.abs_eq, (proj2 (Z.ltb_lt _ (2 ^ 64))), (u32_small (_ mod p)), (u32_small (s + 1)) by lia.
    pose proof (weave_marks_spec F p n size s inv maps Hp Hsz ltac:(lia) Hinv H1 H2 H3) as Hstep.
    set (maps1 := weave_marks _ _ _ _ _ _) in *.
    destruct (Hstep) as (L1 & L2 & L3 & _).
    destruct Hd as [Hd|Hd].
    + assert (Es : s mod 2 = 0) by (unfold seq_delta in Hd; case_if_in Hd; b2p; lia).
      rewrite (proj2 (Z.eqb_neq (s mod 2) 1)) by lia.
      destruct (IH (s + 1) inv maps1) as (maps' & Hw & Hm); [lia|lia|lia| |rewrite L1; lia|rewrite L2; lia|rewrite L3; lia|].
      { by replace ((s + 1) / 2) with (s / 2) by dlia. }
      exists maps'. split; [done|]. eapply maps_spec_trans; [|done|done]. lia.
    + assert (Es : s mod 2 = 1) by (unfold seq_delta in Hd; case_if_in Hd; b2p; dlia).
      rewrite (proj2 (Z.eqb_eq (s mod 2) 1)) by lia.
      destruct (IH (s + 1) (inv * two) maps1) as (maps' & Hw & Hm); [lia|lia|nia| |rewrite L1; lia|rewrite L2; lia|rewrite L3; lia|].
      { destruct Hinv as [e He]. replace ((s + 1) / 2) with (s / 2 + 1) by dlia.
        rewrite Z.pow_add_r by dlia. exists (e + t + p * e * t).
        replace (2 ^ (s / 2) * 2 ^ 1 * F * (inv * two)) with ((2 ^ (s / 2) * F * inv) * (2 * two)) by ring.
        replace (2 ^ (s / 2) * F * inv) with (1 + e * p) by lia. replace (2 * two) with (1 + t * p) by lia. ring. }
      exists maps'. split; [done|]. eapply maps_spec_trans; [|done|done]. lia.
Qed.

Lemma inverse_divides a m r : 1 < m -> (a * r) mod m = 1 -> (m | a * r - 1).
Proof.
  intros Hm H. apply Z.mod_divide; [lia|]. rewrite Zminus_mod, H, Z.mod_small, Z.mod_small by (try rewrite Z.mod_small; lia). done.
Qed.

End WeaveSpec.

(** ** Scanning *)

(** all three bitmaps rule the multiplier out *)
Definition ruled_out (s : CSieveOfEratosthenes) (m : Z) : Prop :=
  vget (vfCompositeBiTwin s) m = true /\ vget (vfCompositeCunningham1 s) m = true /\
  vget (vfCompositeCunningham2 s) m = true.

Definition bitmap_of (s : CSieveOfEratosthenes) (nCandidateType : Z) : list bool :=
  if nCandidateType =? PRIME_CHAIN_BI_TWIN then vfCompositeBiTwin s
  else if nCandidateType =? PRIME_CHAIN_CUNNINGHAM1 then vfCompositeCunningham1 s
  else vfCompositeCunningham2 s.

Lemma next_candidate_spec fuel s : 0 <= nCandidateMultiplier s -> nSieveSize s < 2 ^ 32 - 1 ->
  nSieveSize s <= nCandidateMultiplier s + Z.of_nat fuel -> (0 < fuel)%nat ->
  nCandidateMultiplier s < 2 ^ 32 - 1 ->
  match next_candidate fuel s with
  | (Some (n, t), s') => nCandidateMultiplier s < n < nSieveSize s /\
      s' = set_nCandidateMultiplier s n /\ vget (bitmap_of s t) n = false /\
      forall m, nCandidateMultiplier s < m < n -> ruled_out s m
  | (None, s') => s' = set_nCandidateMultiplier s 0 /\
      forall m, nCandidateMultiplier s < m < nSieveSize s -> ruled_out s m
  end.
Proof.
  revert s. induction fuel as [|fuel IH]; intros s H0 Hsz Hf Hpos Hc; [lia|].
  cbn [next_candidate]. rewrite u32_small by lia.
  set (n := nCandidateMultiplier s + 1). cbn [set_nCandidateMultiplier nSieveSize vfCompositeBiTwin
    vfCompositeCunningham1 vfCompositeCunningham2].
  destruct (nSieveSize s <=? n) eqn:E; b2p.
  { split; [done|]. intros; lia. }
  destruct (vget (vfCompositeBiTwin s) n) eqn:E1; cbn [negb].
  2:{ split_and!; [lia|lia|done|done|intros; lia]. }
  destruct (vget (vfCompositeCunningham1 s) n) eqn:E2; cbn [negb].
  2:{ split_and!; [lia|lia|done|done|intros; lia]. }
  destruct (vget (vfCompositeCunningham2 s) n) eqn:E3; cbn [negb].
  2:{ split_and!; [lia|lia|done|done|intros; lia]. }
  specialize (IH (set_nCandidateMultiplier s n)). cbn [set_nCandidateMultiplier nCandidateMultiplier nSieveSize] in IH.
  specialize (IH ltac:(lia) ltac:(lia) ltac:(lia) ltac:(lia) ltac:(lia)).
  assert (Hn : ruled_out s n) by done.
  destruct (next_candidate fuel _) as [[[n' t]|] s'].
  - destruct IH as (Hr & -> & Hb & Hall). split_and!; [lia|lia|done|done|].
    intros m Hm. destruct (decide (m = n)) as [->|]; [done|]. apply Hall. lia.
  - destruct IH as (-> & Hall). split; [done|]. intros m Hm. destruct (decide (m = n)) as [->|]; [done|].
    apply Hall. lia.
Qed.

(** ** Properties *)

Section MinerProperties.
Context {B : OpenSSLBN} {L : OpenSSLBNLaws B}.

(** weaving an odd table prime [p] that does not divide the fixed factor
    marks exactly the multipliers it rules out, and nothing else: in the
    Cunningham bitmaps those for which [p] divides one of the first [n] chain
    numbers of that kind ([n] the target length), and in the bi-twin bitmap
    those for which it divides one of the [n] numbers a bi-twin chain needs. *)
Theorem Weave_exact vPrimes s p
  (Hp : vPrimes !! Z.to_nat (nPrimeSeq s) = Some p) (Hprime : prime p) (Hodd : 2 < p)
  (Hsize : p < nSieveSize s <= 2 ^ 31) (Hseq : 0 <= nPrimeSeq s < 2 ^ 32 - 1) (Hbits : nbits_ok (sv_nBits s))
  (HF : 0 <= bnFixedFactor s) (Hdiv : ~ (p | bnFixedFactor s))
  (H1 : nSieveSize s <= Z.of_nat (length (vfCompositeCunningham1 s)))
  (H2 : nSieveSize s <= Z.of_nat (length (vfCompositeCunningham2 s)))
  (H3 : nSieveSize s <= Z.of_nat (length (vfCompositeBiTwin s))) :
  let F := bnFixedFactor s in let n := TargetGetLength (sv_nBits s) in
  exists s', Weave vPrimes s = Some (true, s') /\ nPrimeSeq s' = nPrimeSeq s + 1 /\
    forall m, 0 <= m < nSieveSize s ->
      (vget (vfCompositeCunningham1 s') m = true <-> vget (vfCompositeCunningham1 s) m = true \/
        exists i, 0 <= i < n /\ (p | 2 ^ i * F * m - 1)) /\
      (vget (vfCompositeCunningham2 s') m = true <-> vget (vfCompositeCunningham2 s) m = true \/
        exists i, 0 <= i < n /\ (p | 2 ^ i * F * m + 1)) /\
      (vget (vfCompositeBiTwin s') m = true <-> vget (vfCompositeBiTwin s) m = true \/
        exists i, 0 <= i /\ ((2 * i < n /\ (p | 2 ^ i * F * m - 1)) \/
                             (2 * i + 1 < n /\ (p | 2 ^ i * F * m + 1)))).
Proof.
  cbv zeta. set (F := bnFixedFactor s) in *. set (n := TargetGetLength (sv_nBits s)).
  assert (Hn : 0 <= n < 256) by apply (nbits_split _ Hbits).
  unfold Weave. rewrite Hp, (proj2 (Z.leb_gt _ _)) by lia. fold F.
  rewrite !of_int_eq by lia. autorewrite with bn. rewrite bn_mod_eq, Z.rem_mod_nonneg by lia.
  autorewrite with bn. rewrite (proj2 (Z.eqb_neq _ 0)) by (by rewrite Z.mod_divide by lia).
  assert (Hg : forall a, ~ (p | a) -> Z.gcd a p = 1).
  { intros a Ha. apply Zgcd_1_rel_prime, rel_prime_sym. by apply prime_rel_prime. }
  destruct (BN_mod_inverse_spec F p ltac:(lia) (Hg F Hdiv)) as (inv & -> & Hinv & Hi).
  destruct (BN_mod_inverse_spec 2 p ltac:(lia)) as (two & -> & Htwo & Ht).
  { apply Hg. intros Hd%Z.divide_pos_le; lia. }
  destruct (weave_loop_spec (Z.to_nat (2 * n)) F p n (nSieveSize s) two 0 inv
    (vfCompositeCunningham1 s, vfCompositeCunningham2 s, vfCompositeBiTwin s))
    as ([[c1 c2] bt] & Hw & Hm); try done; try lia.
  { apply inverse_divides; [lia|done]. }
  { rewrite Z.mul_1_l. apply inverse_divides; [lia|done]. }
  fold n. rewrite Hw. eexists. split; [done|]. cbn [set_nPrimeSeq nPrimeSeq set_bitmaps
    vfCompositeCunningham1 vfCompositeCunningham2 vfCompositeBiTwin].
  split; [rewrite u32_small; lia|]. intros m Hmr. destruct Hm as (_ & _ & _ & Hm).
  destruct (Hm m Hmr) as (C1 & C2 & C3). cbn [fst snd] in *. rewrite C1, C2, C3. clear C1 C2 C3 Hm.
  assert (Heven : forall i, 0 <= i -> hits F p (2 * i) m <-> (p | 2 ^ i * F * m - 1)).
  { intros i Hi0. unfold hits, seq_delta. rewrite (Z.mul_comm 2 i), Z.mod_mul, Z.div_mul by lia. done. }
  assert (Hodd' : forall i, 0 <= i -> hits F p (2 * i + 1) m <-> (p | 2 ^ i * F * m + 1)).
  { intros i Hi0. unfold hits, seq_delta. replace ((2 * i + 1) mod 2) with 1 by dlia.
    by replace ((2 * i + 1) / 2) with i by dlia. }
  split_and!; apply or_iff_compat_l.
  - split.
    + intros (x & Hx & Hx2 & Hh). exists (x / 2). split; [dlia|]. apply Heven; [dlia|].
      by replace (2 * (x / 2)) with x by dlia.
    + intros (i & Hi0 & Hh). exists (2 * i). split; [lia|]. split; [dlia|]. apply Heven; [lia|done].
  - split.
    + intros (x & Hx & Hx2 & Hh). exists (x / 2). split; [dlia|]. apply Hodd'; [dlia|].
      by replace (2 * (x / 2) + 1) with x by dlia.
    + intros (i & Hi0 & Hh). exists (2 * i + 1). split; [lia|]. split; [dlia|]. apply Hodd'; [lia|done].
  - split.
    + intros (x & Hx & Hx2 & Hh). exists (x / 2). split; [dlia|].
      destruct (decide (x mod 2 = 0)) as [E|E]; [left|right].
      * split; [dlia|]. apply Heven; [dlia|]. by replace (2 * (x / 2)) with x by dlia.
      * split; [dlia|]. apply Hodd'; [dlia|]. by replace (2 * (x / 2) + 1) with x by dlia.
    + intros (i & Hi0 & [[Hlt Hh]|[Hlt Hh]]).
      * exists (2 * i). split; [lia|]. split; [lia|]. apply Heven; [lia|done].
      * exists (2 * i + 1). split; [lia|]. split; [lia|]. apply Hodd'; [lia|done].
Qed.

End MinerProperties.

(** the candidate scan is complete and terminates: it returns the next
    multiplier that some bitmap leaves open, with the type of such a bitmap, and
    skips only multipliers all three bitmaps rule out; when none is left it
    reports so and rewinds to zero. *)
Theorem GetNextCandidateMultiplier_complete s
  (H0 : 0 <= nCandidateMultiplier s < 2 ^ 32 - 1) (Hsz : 0 <= nSieveSize s < 2 ^ 32 - 1) :
  match GetNextCandidateMultiplier s with
  | (Some (n, t), s') => nCandidateMultiplier s < n < nSieveSize s /\
      s' = set_nCandidateMultiplier s n /\ vget (bitmap_of s t) n = false /\
      forall m, nCandidateMultiplier s < m < n -> ruled_out s m
  | (None, s') => s' = set_nCandidateMultiplier s 0 /\
      forall m, nCandidateMultiplier s < m < nSieveSize s -> ruled_out s m
  end.
Proof. apply next_candidate_spec; lia. Qed.

(** *** Witnesses: a sieve of 40 multipliers for target length 2 *)

Definition sample_sieve : CSieveOfEratosthenes := set_nPrimeSeq (new_sieve 40 40 (2 * 2 ^ 24) 4 3) 2.

Lemma Weave_exact_witness :
  exists s', Weave (GeneratePrimeTable 40) sample_sieve = Some (true, s') /\ nPrimeSeq s' = 3 /\
    forall m, 0 <= m < 40 ->
      (vget (vfCompositeCunningham1 s') m = true <-> vget (vfCompositeCunningham1 sample_sieve) m = true \/
        exists i, 0 <= i < 2 /\ (5 | 2 ^ i * 12 * m - 1)) /\
      (vget (vfCompositeCunningham2 s') m = true <-> vget (vfCompositeCunningham2 sample_sieve) m = true \/
        exists i, 0 <= i < 2 /\ (5 | 2 ^ i * 12 * m + 1)) /\
      (vget (vfCompositeBiTwin s') m = true <-> vget (vfCompositeBiTwin sample_sieve) m = true \/
        exists i, 0 <= i /\ ((2 * i < 2 /\ (5 | 2 ^ i * 12 * m - 1)) \/
                             (2 * i + 1 < 2 /\ (5 | 2 ^ i * 12 * m + 1)))).
Proof.
  apply (Weave_exact (GeneratePrimeTable 40) sample_sieve 5); try (vm_compute; done).
  - destruct (prime_dec 5) as [H|H]; [exact H|]. exfalso. apply H, prime_alt. split; [lia|].
    intros n Hn Hd. assert (Hc : n = 2 \/ n = 3 \/ n = 4) by lia.
    destruct_or! Hc; subst n; apply Z.mod_divide in Hd; vm_compute in Hd; discriminate.
  - change (bnFixedFactor sample_sieve) with 12. intros Hd. apply Z.mod_divide in Hd; vm_compute in Hd; discriminate.
Defined.

Lemma GetNextCandidateMultiplier_complete_witness :
  match GetNextCandidateMultiplier sample_sieve with
  | (Some (n, t), s') => nCandidateMultiplier sample_sieve < n < nSieveSize sample_sieve /\
      s' = set_nCandidateMultiplier sample_sieve n /\ vget (bitmap_of sample_sieve t) n = false /\
      forall m, nCandidateMultiplier sample_sieve < m < n -> ruled_out sample_sieve m
  | (None, s') => s' = set_nCandidateMultiplier sample_sieve 0 /\
      forall m, nCandidateMultiplier sample_sieve < m < nSieveSize sample_sieve -> ruled_out sample_sieve m
  end.
Proof. apply (GetNextCandidateMultiplier_complete sample_sieve); vm_compute; split; (discriminate || reflexivity). Defined.

(** The tuned weave count never drops below its initial value, and the growing
    branch never exceeds the table. *)
Lemma miner_weave_bounds vPrimes m :
  nSieveWeaveInitial <= Z.of_nat (length vPrimes) < 2 ^ 24 ->
  nSieveWeaveInitial <= nSieveWeaveOptimal m <= Z.of_nat (length vPrimes) ->
  nSieveWeaveInitial <= nSieveWeaveOptimal (AdjustSieveWeaveOptimal vPrimes m) <= Z.of_nat (length vPrimes).
Proof.
  unfold nSieveWeaveInitial. intros Hl Ho. unfold AdjustSieveWeaveOptimal, set_nSieveWeaveOptimal.
  cbn [nSieveWeaveOptimal]. destruct (fSieveRoundShrink m).
  - rewrite (u32_small (_ * 95)), u32_small by dlia. unfold nSieveWeaveInitial. dlia.
  - rewrite (u32_small (_ * 100)), u32_small by lia. dlia.
Qed.
