(* ===== verification/Transaction.v ===== *)
(** * Transactions (main.h, main.cpp)

    [COutPoint], [CTxIn], [CTxOut] and [CTransaction]: data, serialization,
    hashes, and the checks that need no chain state.  The clock and the best
    height the code reads from globals are arguments. *)

From S2P Require Import Prelude OpenSSL BigNum Target Serialize Crypto Script.
Local Open Scope Z_scope.

(** ** Consensus and policy constants *)

Definition MAX_BLOCK_SIZE : Z := 1000000.
Definition MAX_BLOCK_SIZE_GEN : Z := MAX_BLOCK_SIZE / 2.
Definition DEFAULT_BLOCK_PRIORITY_SIZE : Z := 30000.
Definition MAX_STANDARD_TX_SIZE : Z := 100000.
Definition MAX_BLOCK_SIGOPS : Z := MAX_BLOCK_SIZE / 50.
Definition MAX_MONEY : Z := 2000000000 * COIN.
Definition MIN_TX_FEE : Z := CENT.
Definition MIN_TXOUT_AMOUNT : Z := MIN_TX_FEE.
Definition COINBASE_MATURITY : Z := 3000.
Definition LOCKTIME_THRESHOLD : Z := 500000000.
Definition MoneyRange (nValue : Z) : bool := (0 <=? nValue) && (nValue <=? MAX_MONEY).

(** ** Data *)

Record COutPoint := { o_hash : Z; o_n : Z }.
Record CTxIn := { prevout : COutPoint; scriptSig : bytes; nSequence : Z }.
Record CTxOut := { nValue : Z; scriptPubKey : bytes }.
Record CTransaction := { nVersion : Z; vin : list CTxIn; vout : list CTxOut; nLockTime : Z }.

#[export] Instance COutPoint_eq_dec : EqDecision COutPoint.
Proof. solve_decision. Defined.
#[export] Instance CTxIn_eq_dec : EqDecision CTxIn.
Proof. solve_decision. Defined.
#[export] Instance CTxOut_eq_dec : EqDecision CTxOut.
Proof. solve_decision. Defined.
#[export] Instance CTransaction_eq_dec : EqDecision CTransaction.
Proof. solve_decision. Defined.

Definition uint_max : Z := 2 ^ 32 - 1.
Definition null_outpoint : COutPoint := {| o_hash := 0; o_n := uint_max |}.
Definition outpoint_IsNull (o : COutPoint) : bool := (o_hash o =? 0) && (o_n o =? uint_max).
Definition outpoint_lt (a b : COutPoint) : bool :=
  (o_hash a <? o_hash b) || ((o_hash a =? o_hash b) && (o_n a <? o_n b)).
Definition txin_IsFinal (txin : CTxIn) : bool := nSequence txin =? uint_max.
Definition null_txout : CTxOut := {| nValue := -1; scriptPubKey := [] |}.
Definition txout_IsNull (o : CTxOut) : bool := nValue o =? -1.
Definition null_tx : CTransaction := {| nVersion := 1; vin := []; vout := []; nLockTime := 0 |}.
Definition tx_IsNull (tx : CTransaction) : bool := bool_decide (vin tx = []) && bool_decide (vout tx = []).

(** ** Serialization *)

Definition ser_COutPoint : codec COutPoint :=
  ser_iso (ser_pair (ser_uint 32) (ser_uint 4)) (fun o => (o_hash o, o_n o))
    (fun '(h, n) => {| o_hash := h; o_n := n |}).
Definition ser_CTxIn : codec CTxIn :=
  ser_iso (ser_tuple3 ser_COutPoint ser_vch (ser_uint 4)) (fun t => (prevout t, scriptSig t, nSequence t))
    (fun '(p, s, n) => {| prevout := p; scriptSig := s; nSequence := n |}).
Definition ser_CTxOut : codec CTxOut :=
  ser_iso (ser_pair (ser_sint 8) ser_vch) (fun o => (nValue o, scriptPubKey o))
    (fun '(v, s) => {| nValue := v; scriptPubKey := s |}).
Definition ser_CTransaction : codec CTransaction :=
  ser_iso (ser_tuple4 (ser_sint 4) (ser_vector ser_CTxIn) (ser_vector ser_CTxOut) (ser_uint 4))
    (fun t => (nVersion t, vin t, vout t, nLockTime t))
    (fun '(v, i, o, l) => {| nVersion := v; vin := i; vout := o; nLockTime := l |}).

Section Hash.
Context {K : Crypto}.
Definition GetHash (tx : CTransaction) : Z := SerializeHash ser_CTransaction tx.
Definition txout_GetHash (o : CTxOut) : Z := SerializeHash ser_CTxOut o.
End Hash.

(** ** Checks *)

Definition IsFinal (tx : CTransaction) (nBlockHeight nBlockTime nBestHeight nAdjustedTime : Z) : bool :=
  if nLockTime tx =? 0 then true
  else
    let nBlockHeight := if nBlockHeight =? 0 then nBestHeight else nBlockHeight in
    let nBlockTime := if nBlockTime =? 0 then nAdjustedTime else nBlockTime in
    if nLockTime tx <? (if nLockTime tx <? LOCKTIME_THRESHOLD then nBlockHeight else nBlockTime) then true
    else forallb txin_IsFinal (vin tx).

(** the loop over the inputs whose sequence numbers differ *)
Fixpoint newer_loop (vin old : list CTxIn) (fNewer : bool) (nLowest : Z) : bool :=
  match vin, old with
  | a :: vin, b :: old =>
    if negb (nSequence a =? nSequence b) then
      let '(fNewer, nLowest) :=
        if nSequence a <=? nLowest then (false, nSequence a) else (fNewer, nLowest) in
      let '(fNewer, nLowest) :=
        if nSequence b <? nLowest then (true, nSequence b) else (fNewer, nLowest) in
      newer_loop vin old fNewer nLowest
    else newer_loop vin old fNewer nLowest
  | _, _ => fNewer
  end.
Definition IsNewerThan (tx old : CTransaction) : bool :=
  if negb (bool_decide (length (vin tx) = length (vin old))) then false
  else if negb (bool_decide (map prevout (vin tx) = map prevout (vin old))) then false
  else newer_loop (vin tx) (vin old) false uint_max.

Definition IsCoinBase (tx : CTransaction) : bool :=
  match vin tx with
  | [i] => outpoint_IsNull (prevout i)
  | _ => false
  end.

(** [None]: the sum throws *)
Fixpoint value_out_loop (vout : list CTxOut) (nValueOut : Z) : option Z :=
  match vout with
  | [] => Some nValueOut
  | txout :: r =>
    let nValueOut := s64 (nValueOut + nValue txout) in
    if negb (MoneyRange (nValue txout)) || negb (MoneyRange nValueOut) then None
    else value_out_loop r nValueOut
  end.
Definition GetValueOut (tx : CTransaction) : option Z := value_out_loop (vout tx) 0.

Definition GetLegacySigOpCount (tx : CTransaction) : Z :=
  let nSigOps := foldl (fun n i => u32 (n + GetSigOpCount false (scriptSig i))) 0 (vin tx) in
  foldl (fun n o => u32 (n + GetSigOpCount false (scriptPubKey o))) nSigOps (vout tx).

Definition IsDust (nMinRelayTxFee : Z) (o : CTxOut) : bool :=
  cdiv (s64 (nValue o * 1000)) (s32 (3 * s32 (s32 (GetSerializeSize ser_CTxOut o) + 148))) <? nMinRelayTxFee.

(** the verdict of a validity check and the misbehaviour score of a failure *)
Inductive verdict := Valid | DoS (level : Z).

Fixpoint check_outputs (vout : list CTxOut) (nValueOut : Z) : verdict :=
  match vout with
  | [] => Valid
  | txout :: r =>
    if nValue txout <? MIN_TXOUT_AMOUNT then DoS 100
    else if MAX_MONEY <? nValue txout then DoS 100
    else
      let nValueOut := s64 (nValueOut + nValue txout) in
      if negb (MoneyRange nValueOut) then DoS 100 else check_outputs r nValueOut
  end.
(** the set of outpoints seen so far *)
Fixpoint check_duplicates (vin : list CTxIn) (vInOutPoints : list COutPoint) : verdict :=
  match vin with
  | [] => Valid
  | txin :: r => if bool_decide (prevout txin ∈ vInOutPoints) then DoS 100
                 else check_duplicates r (prevout txin :: vInOutPoints)
  end.

Definition CheckTransaction (tx : CTransaction) : verdict :=
  if bool_decide (vin tx = []) then DoS 10
  else if bool_decide (vout tx = []) then DoS 10
  else if MAX_BLOCK_SIZE <? GetSerializeSize ser_CTransaction tx then DoS 100
  else
    match check_outputs (vout tx) 0 with
    | DoS n => DoS n
    | Valid =>
      match check_duplicates (vin tx) [] with
      | DoS n => DoS n
      | Valid =>
        if IsCoinBase tx then
          match vin tx with
          | i :: _ => let n := Z.of_nat (length (scriptSig i)) in
                      if (n <? 2) || (100 <? n) then DoS 100 else Valid
          | [] => Valid
          end
        else if existsb (fun i => outpoint_IsNull (prevout i)) (vin tx) then DoS 10 else Valid
      end
    end.

Inductive GetMinFee_mode := GMF_BLOCK | GMF_RELAY | GMF_SEND.

Definition GetMinFee (nMinTxFee nMinRelayTxFee : Z) (tx : CTransaction) (nBlockSize : Z) (fAllowFree : bool)
    (mode : GetMinFee_mode) : Z :=
  let nBaseFee := match mode with GMF_RELAY => nMinRelayTxFee | _ => nMinTxFee end in
  let nBytes := GetSerializeSize ser_CTransaction tx in
  let nNewBlockSize := u32 (nBlockSize + nBytes) in
  let nMinFee := s64 ((1 + nBytes / 1000) * nBaseFee) in
  let nMinFee :=
    if fAllowFree &&
       (nBytes <? match mode with GMF_SEND => 1000 | _ => DEFAULT_BLOCK_PRIORITY_SIZE - 1000 end)
    then 0 else nMinFee in
  let nMinFee :=
    if (nMinFee <? nBaseFee) && match mode with GMF_SEND => true | _ => false end &&
       existsb (fun o => nValue o <? CENT) (vout tx)
    then nBaseFee else nMinFee in
  let raised :=
    if negb (nBlockSize =? 1) && (MAX_BLOCK_SIZE_GEN / 2 <=? nNewBlockSize) then
      if MAX_BLOCK_SIZE_GEN <=? nNewBlockSize then None
      else Some (s64 (nMinFee * (MAX_BLOCK_SIZE_GEN / (MAX_BLOCK_SIZE_GEN - nNewBlockSize))))
    else Some nMinFee in
  match raised with
  | None => MAX_MONEY
  | Some nMinFee => if negb (MoneyRange nMinFee) then MAX_MONEY else nMinFee
  end.

(** ** The serialization contract *)

Definition valid_outpoint (o : COutPoint) : Prop := 0 <= o_hash o < 2 ^ 256 /\ 0 <= o_n o < 2 ^ 32.
Definition valid_txin (i : CTxIn) : Prop :=
  valid_outpoint (prevout i) /\ sized is_byte (scriptSig i) /\ 0 <= nSequence i < 2 ^ 32.
Definition valid_txout (o : CTxOut) : Prop := - 2 ^ 63 <= nValue o < 2 ^ 63 /\ sized is_byte (scriptPubKey o).
Definition valid_tx (tx : CTransaction) : Prop :=
  - 2 ^ 31 <= nVersion tx < 2 ^ 31 /\ sized valid_txin (vin tx) /\ sized valid_txout (vout tx) /\
  0 <= nLockTime tx < 2 ^ 32.

#[export] Instance ser_COutPoint_lawful : Lawful ser_COutPoint valid_outpoint.
Proof. refine (ser_iso_lawful _ _ _ _ _). by intros [] []. Qed.
#[export] Instance ser_CTxIn_lawful : Lawful ser_CTxIn valid_txin.
Proof. refine (ser_iso_lawful _ _ _ _ _). by intros [] (? & ? & ?). Qed.
#[export] Instance ser_CTxOut_lawful : Lawful ser_CTxOut valid_txout.
Proof. refine (ser_iso_lawful _ _ _ _ _). by intros [] []. Qed.
#[export] Instance ser_CTransaction_lawful : Lawful ser_CTransaction valid_tx.
Proof. refine (ser_iso_lawful _ _ _ _ _). by intros [] (? & ? & ? & ?). Qed.

(** ** Amounts *)

Definition sumZ (l : list Z) : Z := foldr Z.add 0 l.
Definition value_of (vout : list CTxOut) : Z := sumZ (map nValue vout).

Lemma MoneyRange_iff v : MoneyRange v = true <-> 0 <= v <= MAX_MONEY.
Proof. unfold MoneyRange. rewrite andb_true_iff, Z.leb_le, Z.leb_le. done. Qed.

Lemma sumZ_nonneg l : Forall (Z.le 0) l -> 0 <= sumZ l.
Proof. unfold sumZ. induction 1; cbn; lia. Qed.

Lemma value_of_nonneg vout : Forall (fun o => 0 <= nValue o <= MAX_MONEY) vout -> 0 <= value_of vout.
Proof. intros H. apply sumZ_nonneg. apply Forall_map. eapply Forall_impl; [exact H|]. intros o Ho; cbn in *. lia. Qed.

(** no intermediate sum leaves [int64] *)
Lemma value_out_loop_iff l acc s : 0 <= acc <= MAX_MONEY ->
  value_out_loop l acc = Some s <->
  Forall (fun o => 0 <= nValue o <= MAX_MONEY) l /\ acc + value_of l <= MAX_MONEY /\ s = acc + value_of l.
Proof.
  unfold MAX_MONEY, COIN. revert acc. induction l as [|o l IH]; intros acc Ha; cbn [value_out_loop].
  - unfold value_of; cbn. split; [intros [= <-]; repeat split; [constructor|lia|lia]|intros (_ & _ & ->); f_equal; lia].
  - unfold value_of in *. cbn [map sumZ foldr]. fold (sumZ (map nValue l)). destruct (MoneyRange (nValue o)) eqn:Eo; cbn [negb orb].
    + apply MoneyRange_iff in Eo. unfold MAX_MONEY, COIN in Eo. rewrite s64_small by lia.
      destruct (MoneyRange (acc + nValue o)) eqn:Es; cbn [negb].
      * apply MoneyRange_iff in Es. unfold MAX_MONEY, COIN in Es. rewrite IH by lia. rewrite Forall_cons.
        split; [intros (? & ? & ->)|intros ([? ?] & ? & ->)]; repeat split; try done; lia.
      * split; [done|]. intros ([_ Hl]%Forall_cons & Hs & _). exfalso.
        assert (0 <= sumZ (map nValue l)) by by apply value_of_nonneg.
        assert (MoneyRange (acc + nValue o) = true) by (apply MoneyRange_iff; unfold MAX_MONEY, COIN; lia). congruence.
    + split; [done|]. intros ([Ho _]%Forall_cons & _ & _). exfalso.
      assert (MoneyRange (nValue o) = true) by (apply MoneyRange_iff; unfold MAX_MONEY, COIN; lia). congruence.
Qed.

Lemma check_outputs_iff l acc : 0 <= acc <= MAX_MONEY ->
  check_outputs l acc = Valid <->
  Forall (fun o => MIN_TXOUT_AMOUNT <= nValue o <= MAX_MONEY) l /\ acc + value_of l <= MAX_MONEY.
Proof.
  unfold MIN_TXOUT_AMOUNT, MIN_TX_FEE, MAX_MONEY, COIN, CENT. revert acc.
  induction l as [|o l IH]; intros acc Ha; cbn [check_outputs].
  - unfold value_of; cbn. split; [repeat split; [constructor|lia]|done].
  - unfold value_of in *. cbn [map sumZ foldr]. fold (sumZ (map nValue l)).
    assert (Hn : Forall (fun o => 1000000 <= nValue o <= 2000000000 * 100000000) l -> 0 <= sumZ (map nValue l)).
    { intros H. apply value_of_nonneg. eapply Forall_impl; [exact H|]. intros x Hx; cbn in *. unfold MAX_MONEY, COIN. lia. }
    unfold MIN_TXOUT_AMOUNT, MIN_TX_FEE, CENT, MAX_MONEY, COIN. rewrite Forall_cons.
    case_if; b2p; [split; [done|intros [[? _] _]; lia]|]. case_if; b2p; [split; [done|intros [[? _] _]; lia]|].
    rewrite s64_small by lia. destruct (MoneyRange (acc + nValue o)) eqn:Es; cbn [negb].
    + apply MoneyRange_iff in Es. unfold MAX_MONEY, COIN in Es. rewrite IH by lia.
      split; [intros (? & ?)|intros ([? ?] & ?)]; repeat split; try done; lia.
    + split; [done|]. intros ([_ Hl] & Hs). exfalso. specialize (Hn Hl).
      assert (MoneyRange (acc + nValue o) = true) by (apply MoneyRange_iff; unfold MAX_MONEY, COIN; lia). congruence.
Qed.

Lemma check_duplicates_iff l seen :
  check_duplicates l seen = Valid <-> NoDup (map prevout l) /\ Forall (fun i => prevout i ∉ seen) l.
Proof.
  revert seen. induction l as [|i l IH]; intros seen; cbn [check_duplicates map].
  - split; [|done]. intros _. split; constructor.
  - rewrite NoDup_cons, Forall_cons. case_bool_decide as E; [split; [done|by intros (_ & ? & _)]|].
    rewrite IH. split.
    + intros [Hd Hf]. split_and!; try done.
      * intros (j & Hj & Hin)%list_elem_of_fmap. rewrite Forall_forall in Hf. specialize (Hf j Hin).
        rewrite <- Hj in Hf. apply Hf. left.
      * eapply Forall_impl; [exact Hf|]. intros j Hj Hin. apply Hj. by right.
    + intros ((Hn & Hd) & _ & Hf). split; [done|]. apply Forall_forall. intros j Hj.
      rewrite not_elem_of_cons. rewrite Forall_forall in Hf. split; [|by apply Hf].
      intros He. apply Hn. rewrite <- He. by apply list_elem_of_fmap_2.
Qed.

(** ** Properties *)

(** Transactions survive serialization: writing a transaction whose fields fit their C++ types and
    reading it back from a stream gives the same transaction and leaves what followed, and
    [GetSerializeSize] is the number of bytes written. *)
Theorem CTransaction_roundtrip tx rest (Htx : valid_tx tx) :
  Unserialize ser_CTransaction (Serialize ser_CTransaction tx ++ rest) = Some (tx, rest) /\
  GetSerializeSize ser_CTransaction tx = u32 (Z.of_nat (length (Serialize ser_CTransaction tx))).
Proof. split; [by apply ser_roundtrip|by apply ser_size]. Qed.

(** the rules a transaction has to satisfy by itself *)
Lemma CheckTransaction_rules tx :
  CheckTransaction tx = Valid <->
   vin tx <> [] /\ vout tx <> [] /\ GetSerializeSize ser_CTransaction tx <= MAX_BLOCK_SIZE /\
   Forall (fun o => MIN_TXOUT_AMOUNT <= nValue o <= MAX_MONEY) (vout tx) /\ value_of (vout tx) <= MAX_MONEY /\
   NoDup (map prevout (vin tx)) /\
   (IsCoinBase tx = true -> forall i, vin tx = [i] -> 2 <= Z.of_nat (length (scriptSig i)) <= 100) /\
   (IsCoinBase tx = false -> Forall (fun i => outpoint_IsNull (prevout i) = false) (vin tx)).
Proof.
  assert (Hout : forall l, check_outputs l 0 = Valid <->
    Forall (fun o => MIN_TXOUT_AMOUNT <= nValue o <= MAX_MONEY) l /\ value_of l <= MAX_MONEY).
  { intros l. rewrite check_outputs_iff by done. by rewrite Z.add_0_l. }
  assert (Hdup : check_duplicates (vin tx) [] = Valid <-> NoDup (map prevout (vin tx))).
  { rewrite check_duplicates_iff. split; [by intros []|]. intros H. split; [done|].
    apply Forall_forall. intros x _ Hx. inversion Hx. }
  unfold CheckTransaction. case_bool_decide; [split; [done|tauto]|]. case_bool_decide; [split; [done|tauto]|].
    case_if; b2p; [split; [done|intros (_ & _ & ? & _); lia]|].
    rewrite <- Hdup. destruct (check_outputs (vout tx) 0) eqn:Eo.
    2:{ split; [done|]. intros (_ & _ & _ & H1 & H2 & _). by rewrite (proj2 (Hout _)) in Eo. }
    apply Hout in Eo as [Ho1 Ho2].
    destruct (check_duplicates (vin tx) []); [|split; [done|tauto]].
    destruct (IsCoinBase tx) eqn:Ec.
    - unfold IsCoinBase in Ec. destruct (vin tx) as [|i [|? ?]]; try done. case_if; b2p.
      + split; [done|]. intros (_ & _ & _ & _ & _ & _ & H1 & _). specialize (H1 eq_refl i eq_refl). lia.
      + split; [|done]. intros _. split_and!; try done; try lia. by intros _ j [= <-].
    - case_if.
      + split; [done|]. intros (_ & _ & _ & _ & _ & _ & _ & H2). specialize (H2 eq_refl).
        apply existsb_exists in E0 as (i & Hi & En). rewrite Forall_forall in H2.
        rewrite H2 in En by by apply list_elem_of_In. done.
      + split; [|done]. intros _. split_and!; try done; try lia. intros _. apply Forall_forall. intros i Hi.
        destruct (outpoint_IsNull (prevout i)) eqn:En; [|done]. exfalso.
        assert (existsb (fun i => outpoint_IsNull (prevout i)) (vin tx) = true); [|congruence].
        apply existsb_exists. exists i. split; [by apply list_elem_of_In|done].
Qed.

(** [CheckTransaction] accepts exactly the transactions that satisfy the context-free rules: inputs
    and outputs present, size within the block limit, every output between the minimum amount and
    [MAX_MONEY] and their exact sum within [MAX_MONEY] (no 64-bit overflow can hide an inflation), no
    outpoint spent twice, a coinbase script of 2 to 100 bytes, and no null outpoint elsewhere; and then
    [GetValueOut] returns that sum. *)
Theorem CheckTransaction_iff tx :
  (CheckTransaction tx = Valid <->
   vin tx <> [] /\ vout tx <> [] /\ GetSerializeSize ser_CTransaction tx <= MAX_BLOCK_SIZE /\
   Forall (fun o => MIN_TXOUT_AMOUNT <= nValue o <= MAX_MONEY) (vout tx) /\ value_of (vout tx) <= MAX_MONEY /\
   NoDup (map prevout (vin tx)) /\
   (IsCoinBase tx = true -> forall i, vin tx = [i] -> 2 <= Z.of_nat (length (scriptSig i)) <= 100) /\
   (IsCoinBase tx = false -> Forall (fun i => outpoint_IsNull (prevout i) = false) (vin tx))) /\
  (CheckTransaction tx = Valid -> GetValueOut tx = Some (value_of (vout tx))).
Proof.
  split; [exact (CheckTransaction_rules tx)|]. intros Hv. apply CheckTransaction_rules in Hv as (_ & _ & _ & Ho & Hs & _).
  unfold GetValueOut. apply value_out_loop_iff; [done|]. split_and!; [|lia|lia].
  eapply Forall_impl; [exact Ho|]. unfold MIN_TXOUT_AMOUNT, MIN_TX_FEE, CENT. intros x Hx; cbn in *. lia.
Qed.

(** with the default relay fee an output of the usual size is dust below 546000 units *)
Lemma IsDust_threshold :
  let o v := {| nValue := v; scriptPubKey := replicate 25 0 |} in
  IsDust MIN_TX_FEE (o 545999) = true /\ IsDust MIN_TX_FEE (o 546000) = false.
Proof. split; vm_compute; reflexivity. Qed.

Definition sample_tx : CTransaction :=
  {| nVersion := 1;
     vin := [{| prevout := {| o_hash := 77; o_n := 0 |}; scriptSig := [1; 2]; nSequence := uint_max |}];
     vout := [{| nValue := 5 * COIN; scriptPubKey := [0x51] |}];
     nLockTime := 0 |}.

Lemma sample_tx_valid : valid_tx sample_tx.
Proof.
  unfold valid_tx, sized, valid_txin, valid_txout, valid_outpoint, sized, MAX_SIZE, COIN, uint_max; cbn.
  repeat split; try lia; repeat constructor; cbn; unfold is_byte, uint_max, COIN; try lia.
Qed.

Lemma CTransaction_roundtrip_witness :
  Unserialize ser_CTransaction (Serialize ser_CTransaction sample_tx ++ [9; 9]) = Some (sample_tx, [9; 9]).
Proof. exact (proj1 (CTransaction_roundtrip sample_tx [9; 9] sample_tx_valid)). Defined.
