(* ===== verification/ScriptEval.v ===== *)
(** * The script interpreter (script.cpp)

    [EvalScript] with its stacks, conditionals and limits, the signature hash,
    the signature cache and [CheckSig].  Stacks are lists with the top first.
    The interpreter returns its stack with the verdict, also on failure, because
    [CombineSignatures] reads the stack of a script that may have failed; an
    exception thrown in the loop is a failure with the stack as it is then. *)

From S2P Require Import Prelude OpenSSL BigNum Serialize Crypto Script Transaction.
Local Open Scope Z_scope.

(** ** Signature hash types and verification flags *)

Definition SIGHASH_ALL : Z := 1.
Definition SIGHASH_NONE : Z := 2.
Definition SIGHASH_SINGLE : Z := 3.
Definition SIGHASH_ANYONECANPAY : Z := 0x80.
Definition SCRIPT_VERIFY_NONE : Z := 0.
Definition SCRIPT_VERIFY_P2SH : Z := 1.
Definition SCRIPT_VERIFY_STRICTENC : Z := 2.
Definition SCRIPT_VERIFY_NOCACHE : Z := 4.

Definition has_flag (flags f : Z) : bool := negb (Z.land flags f =? 0).

(** ** Values *)

Definition vchFalse : bytes := [].
Definition vchTrue : bytes := [1].
Definition nMaxNumSize : nat := 4.
Definition vchBool (b : bool) : bytes := if b then vchTrue else vchFalse.

Section Values.
Context {B : OpenSSLBN}.

(** [None]: the operand is too long and the cast throws *)
Definition CastToBigNum (vch : bytes) : option Z :=
  if bool_decide (nMaxNumSize < length vch)%nat then None else Some (of_vch (getvch (of_vch vch))).
End Values.

(** true unless all bytes are zero, the last one possibly the sign bit alone *)
Fixpoint CastToBool (vch : bytes) : bool :=
  match vch with
  | [] => false
  | b :: r => if negb (b =? 0) then negb (bool_decide (r = []) && (b =? 0x80)) else CastToBool r
  end.

(** ** Canonical encodings *)

Definition IsCanonicalPubKey (vchPubKey : bytes) : bool :=
  if bool_decide (length vchPubKey < 33)%nat then false
  else
    let b := nth 0 vchPubKey 0 in
    if b =? 0x04 then bool_decide (length vchPubKey = 65)%nat
    else if (b =? 0x02) || (b =? 0x03) then bool_decide (length vchPubKey = 33)%nat
    else false.

(** R or S: at [pos], [len] bytes *)
Definition canonical_int (vchSig : bytes) (pos : nat) (len : Z) : bool :=
  let at_ i := nth (pos + i) vchSig 0 in
  if negb (nth (pos - 2) vchSig 0 =? 0x02) then false
  else if len =? 0 then false
  else if negb (Z.land (at_ 0%nat) 0x80 =? 0) then false
  else if (1 <? len) && (at_ 0%nat =? 0) && (Z.land (at_ 1%nat) 0x80 =? 0) then false
  else true.

Definition IsCanonicalSignature (vchSig : bytes) : bool :=
  let size := Z.of_nat (length vchSig) in
  if size <? 9 then false
  else if 73 <? size then false
  else
    let nHashType := Z.land (nth (length vchSig - 1) vchSig 0) (u8 (Z.lnot SIGHASH_ANYONECANPAY)) in
    if (nHashType <? SIGHASH_ALL) || (SIGHASH_SINGLE <? nHashType) then false
    else if negb (nth 0 vchSig 0 =? 0x30) then false
    else if negb (nth 1 vchSig 0 =? size - 3) then false
    else
      let nLenR := nth 3 vchSig 0 in
      if size <=? 5 + nLenR then false
      else
        let nLenS := nth (Z.to_nat (5 + nLenR)) vchSig 0 in
        if negb (nLenR + nLenS + 7 =? size) then false
        else if negb (canonical_int vchSig 4 nLenR) then false
        else canonical_int vchSig (Z.to_nat (6 + nLenR)) nLenS.

(** ** The signature hash *)

Definition set_scriptSig (s : bytes) (i : CTxIn) : CTxIn :=
  {| prevout := prevout i; scriptSig := s; nSequence := nSequence i |}.
Definition set_nSequence (n : Z) (i : CTxIn) : CTxIn :=
  {| prevout := prevout i; scriptSig := scriptSig i; nSequence := n |}.

(** [f] on every input but number [nIn] *)
Definition map_others (nIn : nat) (f : CTxIn -> CTxIn) (vin : list CTxIn) : list CTxIn :=
  imap (fun i x => if bool_decide (i = nIn) then x else f x) vin.

(** the transaction that is hashed; [None]: an index is out of range *)
Definition signature_tx (scriptCode : bytes) (txTo : CTransaction) (nIn nHashType : Z) : option CTransaction :=
  let nIn := Z.to_nat nIn in
  if bool_decide (length (vin txTo) <= nIn)%nat then None
  else
    let scriptCode := (FindAndDelete scriptCode [OP_CODESEPARATOR]).2 in
    let vin0 := map (set_scriptSig []) (vin txTo) in
    let vin0 := alter (set_scriptSig scriptCode) nIn vin0 in
    let base := Z.land nHashType 0x1f in
    let? (vin1, vout1) :=
      if base =? SIGHASH_NONE then Some (map_others nIn (set_nSequence 0) vin0, [])
      else if base =? SIGHASH_SINGLE then
        if bool_decide (length (vout txTo) <= nIn)%nat then None
        else Some (map_others nIn (set_nSequence 0) vin0,
                   replicate nIn null_txout ++ take 1 (drop nIn (vout txTo)))
      else Some (vin0, vout txTo) in
    let vin2 := if has_flag nHashType SIGHASH_ANYONECANPAY then take 1 (drop nIn vin1) else vin1 in
    Some {| nVersion := nVersion txTo; vin := vin2; vout := vout1; nLockTime := nLockTime txTo |}.

Section SigHash.
Context {K : Crypto}.

Definition SignatureHash (scriptCode : bytes) (txTo : CTransaction) (nIn nHashType : Z) : Z :=
  match signature_tx scriptCode txTo nIn nHashType with
  | None => 1
  | Some txTmp => Hash (Serialize ser_CTransaction txTmp ++ Serialize (ser_sint 4) nHashType)
  end.
End SigHash.

(** ** The signature cache

    [std::set] as a list in the order of the keys; the random hashes are the
    values of [GetRandHash] in the order of the calls. *)

Module SigCache.

Definition sigdata_type : Type := Z * bytes * bytes.

(** lexicographic order of byte vectors and of the tuples *)
Fixpoint vch_lt (a b : bytes) : bool :=
  match a, b with
  | _, [] => false
  | [], _ :: _ => true
  | x :: a, y :: b => if x <? y then true else if y <? x then false else vch_lt a b
  end.
Definition sigdata_lt (a b : sigdata_type) : bool :=
  let '(h1, s1, p1) := a in
  let '(h2, s2, p2) := b in
  if h1 <? h2 then true else if h2 <? h1 then false
  else if vch_lt s1 s2 then true else if vch_lt s2 s1 then false else vch_lt p1 p2.

Record CSignatureCache := { setValid : list sigdata_type; nCalls : nat }.
Definition empty_cache : CSignatureCache := {| setValid := []; nCalls := 0 |}.

Definition Get (c : CSignatureCache) (hash : Z) (vchSig pubKey : bytes) : bool :=
  bool_decide ((hash, vchSig, pubKey) ∈ setValid c).

Fixpoint set_insert (k : sigdata_type) (l : list sigdata_type) : list sigdata_type :=
  match l with
  | [] => [k]
  | x :: r => if sigdata_lt k x then k :: l else if sigdata_lt x k then x :: set_insert k r else l
  end.

(** the first element not below [k], or the first of all, is erased *)
Fixpoint erase_lower_bound (k : sigdata_type) (l : list sigdata_type) : option (list sigdata_type) :=
  match l with
  | [] => None
  | x :: r => if sigdata_lt x k then option_map (cons x) (erase_lower_bound k r) else Some r
  end.
Definition evict_one (randomHash : Z) (l : list sigdata_type) : list sigdata_type :=
  default (tail l) (erase_lower_bound (randomHash, [], []) l).

Section Set_.
Context (GetRandHash : nat -> Z) (nMaxCacheSize : Z).

Fixpoint evict_loop (fuel : nat) (l : list sigdata_type) (calls : nat) : list sigdata_type * nat :=
  match fuel with
  | O => (l, calls)
  | S f => if nMaxCacheSize <? Z.of_nat (length l)
           then evict_loop f (evict_one (GetRandHash calls) l) (S calls) else (l, calls)
  end.

Definition Set_ (c : CSignatureCache) (hash : Z) (vchSig pubKey : bytes) : CSignatureCache :=
  if nMaxCacheSize <=? 0 then c
  else
    let '(l, calls) := evict_loop (length (setValid c)) (setValid c) (nCalls c) in
    {| setValid := set_insert (hash, vchSig, pubKey) l; nCalls := calls |}.
End Set_.

End SigCache.
Import SigCache.

(** what the node provides to signature checking: the random source and the [-maxsigcachesize] option *)
Class CacheEnv := { GetRandHash : nat -> Z; maxsigcachesize : Z }.

Section CheckSig.
Context {K : Crypto} {E : CacheEnv}.

Definition CheckSig (cache : CSignatureCache) (vchSig vchPubKey scriptCode : bytes) (txTo : CTransaction)
    (nIn nHashType flags : Z) : bool * CSignatureCache :=
  match last vchSig with
  | None => (false, cache)
  | Some back =>
    if negb (nHashType =? 0) && negb (nHashType =? back) then (false, cache)
    else
      let nHashType := back in
      let vchSig := take (length vchSig - 1) vchSig in
      let sighash := SignatureHash scriptCode txTo nIn nHashType in
      if Get cache sighash vchSig vchPubKey then (true, cache)
      else
        match SetPubKey vchPubKey with
        | None => (false, cache)
        | Some key =>
          if negb (Verify key sighash vchSig) then (false, cache)
          else (true, if has_flag flags SCRIPT_VERIFY_NOCACHE then cache
                      else Set_ GetRandHash maxsigcachesize cache sighash vchSig vchPubKey)
        end
  end.
End CheckSig.

(** ** The operations

    [Fail s]: the script fails, leaving the stack [s]. *)

Inductive outcome (A : Type) := Next (a : A) | Fail (s : list bytes).
Arguments Next {A}.
Arguments Fail {A}.

Section Ops.
Context {B : OpenSSLBN} {K : Crypto}.

Abbreviation stack := (list (list Z)).

(** small integers: OP_1NEGATE, OP_1 .. OP_16 *)
Definition op_push_value (opcode : Z) (s : stack) : outcome stack :=
  Next (getvch (of_int (opcode - (OP_1 - 1))) :: s).

(** OP_IF, OP_NOTIF, OP_ELSE, OP_ENDIF on the stack and the nesting of conditionals, innermost first *)
Definition op_conditional (opcode : Z) (fExec : bool) (s : stack) (vfExec : list bool)
    : outcome (stack * list bool) :=
  if (opcode =? OP_IF) || (opcode =? OP_NOTIF) then
    if fExec then
      match s with
      | vch :: r =>
        let fValue := CastToBool vch in
        let fValue := if opcode =? OP_NOTIF then negb fValue else fValue in
        Next (r, fValue :: vfExec)
      | [] => Fail s
      end
    else Next (s, false :: vfExec)
  else if opcode =? OP_ELSE then
    match vfExec with
    | b :: r => Next (s, negb b :: r)
    | [] => Fail s
    end
  else if opcode =? OP_ENDIF then
    match vfExec with
    | _ :: r => Next (s, r)
    | [] => Fail s
    end
  else Fail s.

Definition op_verify (s : stack) : outcome stack :=
  match s with
  | vch :: r => if CastToBool vch then Next r else Fail s
  | [] => Fail s
  end.

(** the operations that move stack elements *)
Definition op_stack1 (opcode : Z) (s : stack) : outcome stack :=
  if opcode =? OP_2DROP then match s with _ :: _ :: r => Next r | _ => Fail s end
  else if opcode =? OP_2DUP then match s with x2 :: x1 :: r => Next (x2 :: x1 :: x2 :: x1 :: r) | _ => Fail s end
  else if opcode =? OP_3DUP then
    match s with x3 :: x2 :: x1 :: r => Next (x3 :: x2 :: x1 :: x3 :: x2 :: x1 :: r) | _ => Fail s end
  else if opcode =? OP_2OVER then
    match s with x4 :: x3 :: x2 :: x1 :: r => Next (x2 :: x1 :: x4 :: x3 :: x2 :: x1 :: r) | _ => Fail s end
  else if opcode =? OP_2ROT then
    match s with
    | x6 :: x5 :: x4 :: x3 :: x2 :: x1 :: r => Next (x2 :: x1 :: x6 :: x5 :: x4 :: x3 :: r)
    | _ => Fail s
    end
  else if opcode =? OP_2SWAP then
    match s with x4 :: x3 :: x2 :: x1 :: r => Next (x2 :: x1 :: x4 :: x3 :: r) | _ => Fail s end
  else if opcode =? OP_IFDUP then
    match s with vch :: r => Next (if CastToBool vch then vch :: vch :: r else s) | _ => Fail s end
  else if opcode =? OP_DEPTH then Next (getvch (setulong (Z.of_nat (length s))) :: s)
  else if opcode =? OP_DROP then match s with _ :: r => Next r | _ => Fail s end
  else if opcode =? OP_DUP then match s with x :: r => Next (x :: x :: r) | _ => Fail s end
  else Fail s.

(** OP_PICK and OP_ROLL; the cast throws on a long operand *)
Definition op_pick_roll (opcode : Z) (s : stack) : outcome stack :=
  match s with
  | vch :: ((_ :: _) as r) =>
    match CastToBigNum vch with
    | None => Fail s
    | Some bn =>
      let n := getint bn in
      if (n <? 0) || (Z.of_nat (length r) <=? n) then Fail r
      else
        let x := nth (Z.to_nat n) r [] in
        Next (x :: if opcode =? OP_ROLL then take (Z.to_nat n) r ++ drop (S (Z.to_nat n)) r else r)
    end
  | _ => Fail s
  end.

Definition op_stack2 (opcode : Z) (s : stack) : outcome stack :=
  if opcode =? OP_NIP then match s with x2 :: x1 :: r => Next (x2 :: r) | _ => Fail s end
  else if opcode =? OP_OVER then match s with x2 :: x1 :: r => Next (x1 :: x2 :: x1 :: r) | _ => Fail s end
  else if (opcode =? OP_PICK) || (opcode =? OP_ROLL) then op_pick_roll opcode s
  else if opcode =? OP_ROT then match s with x3 :: x2 :: x1 :: r => Next (x1 :: x3 :: x2 :: r) | _ => Fail s end
  else if opcode =? OP_SWAP then match s with x2 :: x1 :: r => Next (x1 :: x2 :: r) | _ => Fail s end
  else if opcode =? OP_TUCK then match s with x2 :: x1 :: r => Next (x2 :: x1 :: x2 :: r) | _ => Fail s end
  else if opcode =? OP_SIZE then
    match s with x :: r => Next (getvch (setulong (Z.of_nat (length x))) :: s) | _ => Fail s end
  else Fail s.

(** the boolean result of a comparison; the VERIFY forms drop a true one and fail on a false one *)
Definition push_result (verify : bool) (fValue : bool) (s : stack) : outcome stack :=
  if verify then (if fValue then Next s else Fail (vchFalse :: s)) else Next (vchBool fValue :: s).

Definition op_equal (opcode : Z) (s : stack) : outcome stack :=
  match s with
  | vch2 :: vch1 :: r => push_result (opcode =? OP_EQUALVERIFY) (bool_decide (vch1 = vch2)) r
  | _ => Fail s
  end.

Definition bnBool (b : bool) : Z := of_int (if b then 1 else 0).
Definition bnZero : Z := of_int 0.

Definition op_unary (opcode : Z) (s : stack) : outcome stack :=
  match s with
  | vch :: r =>
    match CastToBigNum vch with
    | None => Fail s
    | Some bn =>
      let bn :=
        if opcode =? OP_1ADD then bn_add bn (of_int 1)
        else if opcode =? OP_1SUB then bn_sub bn (of_int 1)
        else if opcode =? OP_NEGATE then bn_neg bn
        else if opcode =? OP_ABS then (if bn_ltb bn bnZero then bn_neg bn else bn)
        else if opcode =? OP_NOT then bnBool (bn_eqb bn bnZero)
        else bnBool (bn_neb bn bnZero) in
      Next (getvch bn :: r)
    end
  | [] => Fail s
  end.

Definition binary_value (opcode bn1 bn2 : Z) : Z :=
  if opcode =? OP_ADD then bn_add bn1 bn2
  else if opcode =? OP_SUB then bn_sub bn1 bn2
  else if opcode =? OP_BOOLAND then bnBool (bn_neb bn1 bnZero && bn_neb bn2 bnZero)
  else if opcode =? OP_BOOLOR then bnBool (bn_neb bn1 bnZero || bn_neb bn2 bnZero)
  else if opcode =? OP_NUMEQUAL then bnBool (bn_eqb bn1 bn2)
  else if opcode =? OP_NUMEQUALVERIFY then bnBool (bn_eqb bn1 bn2)
  else if opcode =? OP_NUMNOTEQUAL then bnBool (bn_neb bn1 bn2)
  else if opcode =? OP_LESSTHAN then bnBool (bn_ltb bn1 bn2)
  else if opcode =? OP_GREATERTHAN then bnBool (bn_gtb bn1 bn2)
  else if opcode =? OP_LESSTHANOREQUAL then bnBool (bn_leb bn1 bn2)
  else if opcode =? OP_GREATERTHANOREQUAL then bnBool (bn_geb bn1 bn2)
  else if opcode =? OP_MIN then (if bn_ltb bn1 bn2 then bn1 else bn2)
  else (if bn_gtb bn1 bn2 then bn1 else bn2).

Definition op_binary (opcode : Z) (s : stack) : outcome stack :=
  match s with
  | vch2 :: vch1 :: r =>
    match CastToBigNum vch1 with
    | None => Fail s
    | Some bn1 =>
      match CastToBigNum vch2 with
      | None => Fail s
      | Some bn2 =>
        let v := getvch (binary_value opcode bn1 bn2) in
        if opcode =? OP_NUMEQUALVERIFY then (if CastToBool v then Next r else Fail (v :: r))
        else Next (v :: r)
      end
    end
  | _ => Fail s
  end.

Definition op_within (s : stack) : outcome stack :=
  match s with
  | vch3 :: vch2 :: vch1 :: r =>
    match CastToBigNum vch1, CastToBigNum vch2, CastToBigNum vch3 with
    | Some bn1, Some bn2, Some bn3 => Next (vchBool (bn_leb bn2 bn1 && bn_ltb bn1 bn3) :: r)
    | _, _, _ => Fail s
    end
  | _ => Fail s
  end.

Definition op_hash (opcode : Z) (s : stack) : outcome stack :=
  match s with
  | vch :: r =>
    let vchHash :=
      if opcode =? OP_RIPEMD160 then RIPEMD160 vch
      else if opcode =? OP_SHA1 then SHA1 vch
      else if opcode =? OP_SHA256 then SHA256 vch
      else if opcode =? OP_HASH160 then uint160_bytes (Hash160 vch)
      else uint256_bytes (Hash vch) in
    Next (vchHash :: r)
  | [] => Fail s
  end.

End Ops.

(** ** Signature operations and the interpreter loop *)

(** [stack], [altstack], [vfExec] (innermost first), [pbegincodehash] as the script from there on, [nOpCount] *)
Record vm := {
  vm_stack : list bytes;
  vm_altstack : list bytes;
  vm_vfExec : list bool;
  vm_codehash : bytes;
  vm_nOpCount : Z;
}.
Definition set_stack (st : vm) (s : list bytes) : vm :=
  {| vm_stack := s; vm_altstack := vm_altstack st; vm_vfExec := vm_vfExec st; vm_codehash := vm_codehash st;
     vm_nOpCount := vm_nOpCount st |}.
Definition set_altstack (st : vm) (s a : list bytes) : vm :=
  {| vm_stack := s; vm_altstack := a; vm_vfExec := vm_vfExec st; vm_codehash := vm_codehash st;
     vm_nOpCount := vm_nOpCount st |}.
Definition set_vfExec (st : vm) (s : list bytes) (v : list bool) : vm :=
  {| vm_stack := s; vm_altstack := vm_altstack st; vm_vfExec := v; vm_codehash := vm_codehash st;
     vm_nOpCount := vm_nOpCount st |}.
Definition set_codehash (st : vm) (c : bytes) : vm :=
  {| vm_stack := vm_stack st; vm_altstack := vm_altstack st; vm_vfExec := vm_vfExec st; vm_codehash := c;
     vm_nOpCount := vm_nOpCount st |}.
Definition set_nOpCount (st : vm) (n : Z) : vm :=
  {| vm_stack := vm_stack st; vm_altstack := vm_altstack st; vm_vfExec := vm_vfExec st;
     vm_codehash := vm_codehash st; vm_nOpCount := n |}.

(** a stack operation lifted to the machine *)
Definition lift (st : vm) (o : outcome (list bytes)) : outcome vm :=
  match o with
  | Next s => Next (set_stack st s)
  | Fail s => Fail s
  end.

Section Eval.
Context {B : OpenSSLBN} {K : Crypto} {E : CacheEnv}.
Context (txTo : CTransaction) (nIn flags nHashType : Z).

Definition fStrictEncodings : bool := has_flag flags SCRIPT_VERIFY_STRICTENC.

(** the encoding checks and the signature check of one signature against one key *)
Definition check_one (cache : CSignatureCache) (vchSig vchPubKey scriptCode : bytes) : bool * CSignatureCache :=
  if negb fStrictEncodings || (IsCanonicalSignature vchSig && IsCanonicalPubKey vchPubKey)
  then CheckSig cache vchSig vchPubKey scriptCode txTo nIn nHashType flags
  else (false, cache).

(** OP_CHECKSIG and OP_CHECKSIGVERIFY *)
Definition op_checksig (opcode : Z) (codehash : bytes) (cache : CSignatureCache) (s : list bytes)
    : outcome (list bytes) * CSignatureCache :=
  match s with
  | vchPubKey :: vchSig :: r =>
    let scriptCode := (FindAndDelete codehash (push_data vchSig)).2 in
    let '(fSuccess, cache) := check_one cache vchSig vchPubKey scriptCode in
    (push_result (opcode =? OP_CHECKSIGVERIFY) fSuccess r, cache)
  | _ => (Fail s, cache)
  end.

(** the loop of OP_CHECKMULTISIG: a failing key is dropped, too few keys left is a failure *)
Fixpoint multisig_loop (cache : CSignatureCache) (keys sigs : list bytes) (scriptCode : bytes)
    : bool * CSignatureCache :=
  match sigs, keys with
  | [], _ => (true, cache)
  | _ :: _, [] => (false, cache)
  | vchSig :: sigs', vchPubKey :: keys' =>
    let '(fOk, cache) := check_one cache vchSig vchPubKey scriptCode in
    let rest := if fOk then sigs' else sigs in
    if bool_decide (length keys' < length rest)%nat then (false, cache)
    else multisig_loop cache keys' rest scriptCode
  end.

Definition delete_sigs (scriptCode : bytes) (sigs : list bytes) : bytes :=
  foldl (fun code vchSig => (FindAndDelete code (push_data vchSig)).2) scriptCode sigs.

(** OP_CHECKMULTISIG and OP_CHECKMULTISIGVERIFY; the dummy element below the signatures is popped too *)
Definition op_checkmultisig (opcode : Z) (st : vm) (cache : CSignatureCache) : outcome vm * CSignatureCache :=
  let s := vm_stack st in
  match s with
  | [] => (Fail s, cache)
  | vchKeys :: s1 =>
    match CastToBigNum vchKeys with
    | None => (Fail s, cache)
    | Some bn =>
      let nKeysCount := getint bn in
      if (nKeysCount <? 0) || (20 <? nKeysCount) then (Fail s, cache)
      else
        let st := set_nOpCount st (vm_nOpCount st + nKeysCount) in
        if 201 <? vm_nOpCount st then (Fail s, cache)
        else
          let nKeys := Z.to_nat nKeysCount in
          let keys := take nKeys s1 in
          match drop nKeys s1 with
          | [] => (Fail s, cache)
          | vchSigs :: s2 =>
            match CastToBigNum vchSigs with
            | None => (Fail s, cache)
            | Some bn =>
              let nSigsCount := getint bn in
              if (nSigsCount <? 0) || (nKeysCount <? nSigsCount) then (Fail s, cache)
              else
                let nSigs := Z.to_nat nSigsCount in
                let sigs := take nSigs s2 in
                match drop nSigs s2 with
                | [] => (Fail s, cache)
                | _ :: r =>
                  let scriptCode := delete_sigs (vm_codehash st) sigs in
                  let '(fSuccess, cache) := multisig_loop cache keys sigs scriptCode in
                  (lift st (push_result (opcode =? OP_CHECKMULTISIGVERIFY) fSuccess r), cache)
                end
            end
          end
    end
  end.

(** the disabled opcodes *)
Definition is_disabled (opcode : Z) : bool :=
  bool_decide (opcode ∈ [OP_CAT; OP_SUBSTR; OP_LEFT; OP_RIGHT; OP_INVERT; OP_AND; OP_OR; OP_XOR; OP_2MUL; OP_2DIV;
                         OP_MUL; OP_DIV; OP_MOD; OP_LSHIFT; OP_RSHIFT]).

Definition is_nop (opcode : Z) : bool := (opcode =? OP_NOP) || ((OP_NOP1 <=? opcode) && (opcode <=? OP_NOP10)).

(** the switch; [pc] is the script after the instruction *)
Definition exec_op (opcode : Z) (fExec : bool) (pc : bytes) (st : vm) (cache : CSignatureCache)
    : outcome vm * CSignatureCache :=
  let s := vm_stack st in
  let pure o := (lift st o, cache) in
  if (opcode =? OP_1NEGATE) || ((OP_1 <=? opcode) && (opcode <=? OP_16)) then pure (op_push_value opcode s)
  else if is_nop opcode then (Next st, cache)
  else if (OP_IF <=? opcode) && (opcode <=? OP_ENDIF) then
    (match op_conditional opcode fExec s (vm_vfExec st) with
     | Next (s, v) => Next (set_vfExec st s v)
     | Fail s => Fail s
     end, cache)
  else if opcode =? OP_VERIFY then pure (op_verify s)
  else if opcode =? OP_RETURN then (Fail s, cache)
  else if opcode =? OP_TOALTSTACK then
    (match s with x :: r => Next (set_altstack st r (x :: vm_altstack st)) | [] => Fail s end, cache)
  else if opcode =? OP_FROMALTSTACK then
    (match vm_altstack st with x :: r => Next (set_altstack st (x :: s) r) | [] => Fail s end, cache)
  else if (OP_2DROP <=? opcode) && (opcode <=? OP_DUP) then pure (op_stack1 opcode s)
  else if (OP_NIP <=? opcode) && (opcode <=? OP_SIZE) then pure (op_stack2 opcode s)
  else if (opcode =? OP_EQUAL) || (opcode =? OP_EQUALVERIFY) then pure (op_equal opcode s)
  else if (OP_1ADD <=? opcode) && (opcode <=? OP_0NOTEQUAL) then pure (op_unary opcode s)
  else if (OP_ADD <=? opcode) && (opcode <=? OP_MAX) then pure (op_binary opcode s)
  else if opcode =? OP_WITHIN then pure (op_within s)
  else if (OP_RIPEMD160 <=? opcode) && (opcode <=? OP_HASH256) then pure (op_hash opcode s)
  else if opcode =? OP_CODESEPARATOR then (Next (set_codehash st pc), cache)
  else if (opcode =? OP_CHECKSIG) || (opcode =? OP_CHECKSIGVERIFY) then
    let '(o, cache) := op_checksig opcode (vm_codehash st) cache s in (lift st o, cache)
  else if (opcode =? OP_CHECKMULTISIG) || (opcode =? OP_CHECKMULTISIGVERIFY) then op_checkmultisig opcode st cache
  else (Fail s, cache).

(** one round of the loop *)
Definition eval_step (pc : bytes) (st : vm) (cache : CSignatureCache) : outcome (bytes * vm) * CSignatureCache :=
  let fExec := forallb id (vm_vfExec st) in
  let s := vm_stack st in
  match GetOp2 pc with
  | None => (Fail s, cache)
  | Some (opcode, vchPushValue, pc) =>
    if MAX_SCRIPT_ELEMENT_SIZE <? Z.of_nat (length vchPushValue) then (Fail s, cache)
    else
      let st := if OP_16 <? opcode then set_nOpCount st (vm_nOpCount st + 1) else st in
      if (OP_16 <? opcode) && (201 <? vm_nOpCount st) then (Fail s, cache)
      else if is_disabled opcode then (Fail s, cache)
      else
        let '(o, cache) :=
          if fExec && (0 <=? opcode) && (opcode <=? OP_PUSHDATA4) then (Next (set_stack st (vchPushValue :: s)), cache)
          else if fExec || ((OP_IF <=? opcode) && (opcode <=? OP_ENDIF)) then exec_op opcode fExec pc st cache
          else (Next st, cache) in
        match o with
        | Fail s => (Fail s, cache)
        | Next st =>
          if 1000 <? Z.of_nat (length (vm_stack st)) + Z.of_nat (length (vm_altstack st))
          then (Fail (vm_stack st), cache) else (Next (pc, st), cache)
        end
  end.

Fixpoint eval_loop (fuel : nat) (pc : bytes) (st : vm) (cache : CSignatureCache)
    : bool * list bytes * CSignatureCache :=
  match pc with
  | [] => (bool_decide (vm_vfExec st = []), vm_stack st, cache)
  | _ =>
    match fuel with
    | O => (false, vm_stack st, cache)
    | S f =>
      match eval_step pc st cache with
      | (Fail s, cache) => (false, s, cache)
      | (Next (pc, st), cache) => eval_loop f pc st cache
      end
    end
  end.

(** every round reads at least one byte of the script *)
Definition EvalScript (s : list bytes) (script : bytes) (cache : CSignatureCache)
    : bool * list bytes * CSignatureCache :=
  if 10000 <? Z.of_nat (length script) then (false, s, cache)
  else eval_loop (length script) script
         {| vm_stack := s; vm_altstack := []; vm_vfExec := []; vm_codehash := script; vm_nOpCount := 0 |} cache.

End Eval.

(** ** The signature cache only holds valid signatures *)

Section CacheSpec.
Context {B : OpenSSLBN} {K : Crypto} {E : CacheEnv}.

Definition entry_valid (e : sigdata_type) : Prop :=
  let '(h, s, p) := e in exists key, SetPubKey p = Some key /\ Verify key h s = true.
Definition cache_sound (c : CSignatureCache) : Prop := Forall entry_valid (setValid c).

(** signature checking without a cache *)
Definition sig_valid (vchSig vchPubKey scriptCode : bytes) (txTo : CTransaction) (nIn nHashType : Z) : bool :=
  match last vchSig with
  | None => false
  | Some back =>
    if negb (nHashType =? 0) && negb (nHashType =? back) then false
    else match SetPubKey vchPubKey with
         | None => false
         | Some key => Verify key (SignatureHash scriptCode txTo nIn back) (take (length vchSig - 1) vchSig)
         end
  end.

Lemma set_insert_Forall (P : sigdata_type -> Prop) k l : P k -> Forall P l -> Forall P (set_insert k l).
Proof.
  intros Hk. induction 1 as [|x l Hx Hl IH]; cbn [set_insert]; [by constructor|].
  repeat case_if; repeat constructor; auto.
Qed.

Lemma erase_lower_bound_Forall (P : sigdata_type -> Prop) k l l' :
  erase_lower_bound k l = Some l' -> Forall P l -> Forall P l'.
Proof.
  revert l'. induction l as [|x l IH]; intros l'; cbn [erase_lower_bound]; [done|]. case_if.
  - destruct (erase_lower_bound k l) as [r|]; [|done]. intros [= <-] H. inversion H; subst. constructor; auto.
  - intros [= <-] H. by inversion H.
Qed.

Lemma evict_one_Forall (P : sigdata_type -> Prop) h l : Forall P l -> Forall P (evict_one h l).
Proof.
  intros H. unfold evict_one. destruct (erase_lower_bound _ l) as [r|] eqn:Er; cbn.
  - by eapply erase_lower_bound_Forall.
  - destruct H; cbn; auto.
Qed.

Lemma evict_one_length h l : l <> [] -> length (evict_one h l) = pred (length l).
Proof.
  intros Hne. unfold evict_one. destruct (erase_lower_bound _ l) as [r|] eqn:Er; cbn; [|by destruct l].
  clear Hne. revert r Er. induction l as [|x l IH]; intros r; cbn [erase_lower_bound]; [done|]. case_if.
  - destruct (erase_lower_bound _ l) as [r'|] eqn:E2; [|done]. intros [= <-]. cbn [length].
    rewrite (IH r' eq_refl). destruct l; [done|cbn; lia].
  - by intros [= <-].
Qed.

Lemma evict_loop_spec (P : sigdata_type -> Prop) f l n : Forall P l ->
  Forall P (evict_loop GetRandHash maxsigcachesize f l n).1.
Proof.
  revert l n. induction f as [|f IH]; intros l n H; cbn [evict_loop]; [done|]. case_if; [|done].
  by apply IH, evict_one_Forall.
Qed.

(** eviction ends with the cache at or below its limit *)
Lemma evict_loop_small f l n : (length l <= f)%nat -> 0 <= maxsigcachesize ->
  Z.of_nat (length (evict_loop GetRandHash maxsigcachesize f l n).1) <= maxsigcachesize.
Proof.
  revert l n. induction f as [|f IH]; intros l n Hf Hm; cbn [evict_loop].
  - destruct l; cbn in *; lia.
  - case_if; b2p; [|cbn; lia]. apply IH; [|done]. rewrite evict_one_length by (destruct l; [cbn in *; lia|done]). lia.
Qed.

Lemma set_insert_length k l : (length (set_insert k l) <= S (length l))%nat.
Proof. induction l; cbn [set_insert]; [done|]. repeat case_if; cbn [length]; lia. Qed.

Lemma Set_sound c h s p : cache_sound c -> entry_valid (h, s, p) ->
  cache_sound (Set_ GetRandHash maxsigcachesize c h s p).
Proof.
  intros Hc He. unfold Set_. case_if; [done|].
  pose proof (evict_loop_spec entry_valid (length (setValid c)) (setValid c) (nCalls c) Hc) as Hl.
  destruct (evict_loop _ _ _ _ _) as [l n]. by apply set_insert_Forall.
Qed.

Lemma Set_bounded c h s p : 0 <= maxsigcachesize ->
  Z.of_nat (length (setValid c)) <= maxsigcachesize + 1 ->
  Z.of_nat (length (setValid (Set_ GetRandHash maxsigcachesize c h s p))) <= maxsigcachesize + 1.
Proof.
  intros Hm Hc. unfold Set_. case_if; [done|].
  pose proof (evict_loop_small (length (setValid c)) (setValid c) (nCalls c) (Nat.le_refl _) Hm) as Hl.
  destruct (evict_loop _ _ _ _ _) as [l n]. cbn in *. pose proof (set_insert_length (h, s, p) l). lia.
Qed.

Lemma CheckSig_eq c sig key code tx nIn ht flags : cache_sound c ->
  (CheckSig c sig key code tx nIn ht flags).1 = sig_valid sig key code tx nIn ht /\
  cache_sound (CheckSig c sig key code tx nIn ht flags).2.
Proof.
  intros Hc. unfold CheckSig, sig_valid. destruct (last sig) as [back|]; [|done]. case_if; [done|].
  unfold Get. case_bool_decide as Hg.
  - unfold cache_sound in Hc. rewrite Forall_forall in Hc. destruct (Hc _ Hg) as (k & -> & ->). split; [done|].
    by apply Forall_forall.
  - destruct (SetPubKey key) as [k|] eqn:Ek; [|done]. destruct (Verify k _ _) eqn:Ev; cbn [negb]; [|done].
    split; [done|]. cbn. case_if; [done|]. apply Set_sound; [done|]. by exists k.
Qed.

(** *** Interpretation does not depend on the cache *)

Section Same.
Context (tx : CTransaction) (nIn flags ht : Z).

Definition same {A : Type} (x y : A * CSignatureCache) : Prop := x.1 = y.1 /\ cache_sound x.2 /\ cache_sound y.2.

Definition check_pure (sig key code : bytes) : bool :=
  (negb (fStrictEncodings flags) || (IsCanonicalSignature sig && IsCanonicalPubKey key)) &&
  sig_valid sig key code tx nIn ht.

Lemma check_one_eq c sig key code : cache_sound c ->
  (check_one tx nIn flags ht c sig key code).1 = check_pure sig key code /\
  cache_sound (check_one tx nIn flags ht c sig key code).2.
Proof. intros Hc. unfold check_one, check_pure. case_if; cbn [andb]; [by apply CheckSig_eq|done]. Qed.

Lemma multisig_loop_same c1 c2 keys sigs code : cache_sound c1 -> cache_sound c2 ->
  same (multisig_loop tx nIn flags ht c1 keys sigs code) (multisig_loop tx nIn flags ht c2 keys sigs code).
Proof.
  revert c1 c2 sigs. induction keys as [|key keys IH]; intros c1 c2 [|sig sigs] H1 H2; try done.
  cbn [multisig_loop]. destruct (check_one_eq c1 sig key code H1) as [E1 S1], (check_one_eq c2 sig key code H2) as [E2 S2].
  destruct (check_one _ _ _ _ c1 _ _ _) as [o1 c1'], (check_one _ _ _ _ c2 _ _ _) as [o2 c2']. cbn in *. subst o1 o2.
  case_if; [done|]. by apply IH.
Qed.

Lemma op_checksig_same op code c1 c2 s : cache_sound c1 -> cache_sound c2 ->
  same (op_checksig tx nIn flags ht op code c1 s) (op_checksig tx nIn flags ht op code c2 s).
Proof.
  intros H1 H2. unfold op_checksig. destruct s as [|key [|sig r]]; try done.
  set (sc := (FindAndDelete _ _).2).
  destruct (check_one_eq c1 sig key sc H1) as [E1 S1], (check_one_eq c2 sig key sc H2) as [E2 S2].
  destruct (check_one _ _ _ _ c1 _ _ _) as [o1 c1'], (check_one _ _ _ _ c2 _ _ _) as [o2 c2']. cbn in *. by subst o1 o2.
Qed.

Lemma op_checkmultisig_same op st c1 c2 : cache_sound c1 -> cache_sound c2 ->
  same (op_checkmultisig tx nIn flags ht op st c1) (op_checkmultisig tx nIn flags ht op st c2).
Proof.
  intros H1 H2. unfold op_checkmultisig. destruct (vm_stack st) as [|vk s1]; [done|].
  destruct (CastToBigNum vk); [|done]. case_if; [done|]. case_if; [done|]. destruct (drop _ s1) as [|vs s2]; [done|].
  destruct (CastToBigNum vs); [|done]. case_if; [done|]. destruct (drop _ s2) as [|? r]; [done|].
  set (keys := take _ s1). set (sigs := take _ s2). set (code := delete_sigs _ _).
  destruct (multisig_loop_same c1 c2 keys sigs code H1 H2) as (Eq1 & S1 & S2).
  destruct (multisig_loop _ _ _ _ c1 _ _ _) as [o1 c1'], (multisig_loop _ _ _ _ c2 _ _ _) as [o2 c2']. cbn in *. by subst o1.
Qed.

Lemma exec_op_same op fExec pc st c1 c2 : cache_sound c1 -> cache_sound c2 ->
  same (exec_op tx nIn flags ht op fExec pc st c1) (exec_op tx nIn flags ht op fExec pc st c2).
Proof.
  intros H1 H2. unfold exec_op. repeat (case_if; [first [done | idtac]|]).
  - destruct (op_checksig_same op (vm_codehash st) c1 c2 (vm_stack st) H1 H2) as (Eq1 & S1 & S2).
    destruct (op_checksig _ _ _ _ _ _ c1 _) as [o1 c1'], (op_checksig _ _ _ _ _ _ c2 _) as [o2 c2']. cbn in *. by subst o1.
  - by apply op_checkmultisig_same.
  - done.
Qed.

Lemma eval_step_same pc st c1 c2 : cache_sound c1 -> cache_sound c2 ->
  same (eval_step tx nIn flags ht pc st c1) (eval_step tx nIn flags ht pc st c2).
Proof.
  intros H1 H2. unfold eval_step. destruct (GetOp2 pc) as [[[op v] pc']|]; [|done].
  do 3 (case_if; [done|]). set (st' := if OP_16 <? op then _ else _). case_if.
  - cbn beta iota. case_if; done.
  - case_if.
    + destruct (exec_op_same op (forallb id (vm_vfExec st)) pc' st' c1 c2 H1 H2) as (Eq1 & S1 & S2).
      destruct (exec_op _ _ _ _ _ _ _ _ c1) as [o1 c1'], (exec_op _ _ _ _ _ _ _ _ c2) as [o2 c2']. cbn in *. subst o1.
      destruct o2; [|done]. case_if; done.
    + cbn beta iota. case_if; done.
Qed.

Lemma eval_loop_same f pc st c1 c2 : cache_sound c1 -> cache_sound c2 ->
  same (eval_loop tx nIn flags ht f pc st c1) (eval_loop tx nIn flags ht f pc st c2).
Proof.
  revert pc st c1 c2. induction f as [|f IH]; intros pc st c1 c2 H1 H2; destruct pc as [|b pc]; cbn [eval_loop]; try done.
  destruct (eval_step_same (b :: pc) st c1 c2 H1 H2) as (Eq1 & S1 & S2).
  destruct (eval_step _ _ _ _ _ _ c1) as [o1 c1'], (eval_step _ _ _ _ _ _ c2) as [o2 c2']. cbn in *. subst o1.
  destruct o2 as [[pc' st']|]; [by apply IH|done].
Qed.

Lemma EvalScript_same s script c1 c2 : cache_sound c1 -> cache_sound c2 ->
  same (EvalScript tx nIn flags ht s script c1) (EvalScript tx nIn flags ht s script c2).
Proof. intros H1 H2. unfold EvalScript. case_if; [done|]. by apply eval_loop_same. Qed.

(** *** Multiple signatures *)

(** the signatures match a subsequence of the keys, in order *)
Inductive matching (code : bytes) : list bytes -> list bytes -> Prop :=
| matching_nil keys : matching code [] keys
| matching_take sig sigs key keys : check_pure sig key code = true -> matching code sigs keys ->
    matching code (sig :: sigs) (key :: keys)
| matching_skip sigs key keys : matching code sigs keys -> matching code sigs (key :: keys).

Lemma matching_length code sigs keys : matching code sigs keys -> (length sigs <= length keys)%nat.
Proof. induction 1; cbn in *; lia. Qed.

Lemma matching_tail code sig sigs keys : matching code (sig :: sigs) keys -> matching code sigs keys.
Proof.
  intros H. remember (sig :: sigs) as l eqn:El. revert sig sigs El.
  induction H; intros ? ? El; simplify_eq; [by constructor|]. constructor. by eapply IHmatching.
Qed.

Lemma matching_head code sig sigs key keys : check_pure sig key code = true ->
  matching code (sig :: sigs) (key :: keys) -> matching code sigs keys.
Proof. intros Hc H. inversion H; subst; [done|]. by eapply matching_tail. Qed.

Lemma multisig_loop_matching c keys sigs code : cache_sound c ->
  (multisig_loop tx nIn flags ht c keys sigs code).1 = true <-> matching code sigs keys.
Proof.
  revert c sigs. induction keys as [|key keys IH]; intros c [|sig sigs] Hc; cbn [multisig_loop].
  - split; [constructor|done].
  - split; [done|]. intros H. by inversion H.
  - split; [constructor|done].
  - destruct (check_one_eq c sig key code Hc) as [E1 S1].
    destruct (check_one _ _ _ _ c _ _ _) as [o c']. cbn in E1, S1. subst o.
    destruct (check_pure sig key code) eqn:Ec; case_bool_decide as El.
    + split; [done|]. intros H%matching_length. cbn in *. lia.
    + rewrite IH by done. split; [by constructor|]. by apply matching_head.
    + split; [done|]. intros H. inversion H; subst; [congruence|].
      match goal with H : matching _ _ keys |- _ => apply matching_length in H end. lia.
    + rewrite IH by done. split; [by constructor|]. intros H. inversion H; subst; [congruence|done].
Qed.

End Same.
End CacheSpec.

(** ** Resource limits *)

Section Limits.
Context {B : OpenSSLBN} {L : OpenSSLBNLaws B} {K : Crypto} {KL : CryptoLaws K} {E : CacheEnv}.
Context (tx : CTransaction) (nIn flags ht : Z).

Definition elem_ok (x : bytes) : Prop := all_bytes x /\ Z.of_nat (length x) <= MAX_SCRIPT_ELEMENT_SIZE.
Definition elems_ok (st : vm) : Prop := Forall elem_ok (vm_stack st) /\ Forall elem_ok (vm_altstack st).
Definition vm_inv (st : vm) : Prop :=
  elems_ok st /\ Z.of_nat (length (vm_stack st)) + Z.of_nat (length (vm_altstack st)) <= 1000 /\
  0 <= vm_nOpCount st <= 201.

Lemma getvch_ok z : Z.abs z < 2 ^ 64 -> elem_ok (getvch z).
Proof.
  intros Hz. split; [apply getvch_all|]. rewrite getvch_eq, length_rev. unfold MAX_SCRIPT_ELEMENT_SIZE.
  assert (Hn : num_bytes z <= 8).
  { unfold num_bytes. case_if; b2p; [lia|]. assert (Z.log2 (Z.abs z) < 64) by (apply Z.log2_lt_pow2; lia). dlia. }
  pose proof (num_bytes_nonneg z). destruct (length_mpi_body z) as [-> | ->]; lia.
Qed.

Lemma mpi_value_small l : all_bytes l -> Z.abs (mpi_value l) < 256 ^ Z.of_nat (length l).
Proof.
  destruct l as [|b r]; [by cbn|]. intros H. destruct (mpi_value_abs b r H) as (-> & Hb & Hr).
  rewrite be_val_cons. cbn [length]. rewrite pow256_succ. nia.
Qed.

Lemma CastToBigNum_small v z : elem_ok v -> CastToBigNum v = Some z -> Z.abs z < 2 ^ 32.
Proof.
  intros [Ha _]. unfold CastToBigNum, nMaxNumSize. case_bool_decide as El; [done|]. intros [= <-].
  unfold of_vch. assert (Hv : setvch 0 v = mpi_value (rev v)) by (apply setvch_eq; [lia|done]).
  pose proof (mpi_value_small (rev v) (proj2 (all_bytes_rev v) Ha)) as Hs. rewrite length_rev in Hs.
  assert (Hp : 256 ^ Z.of_nat (length v) <= 2 ^ 32).
  { change (2 ^ 32) with (256 ^ 4). apply Z.pow_le_mono_r; lia. }
  rewrite setvch_getvch; [rewrite Hv; lia|]. rewrite Hv.
  assert (Hok : elem_ok (getvch (mpi_value (rev v)))) by (apply getvch_ok; lia).
  destruct Hok as [_ Hok]. unfold MAX_SCRIPT_ELEMENT_SIZE in Hok. lia.
Qed.

Lemma elem_true : elem_ok vchTrue.
Proof. split; [by repeat constructor|done]. Qed.
Lemma elem_false : elem_ok vchFalse.
Proof. split; [constructor|done]. Qed.
Lemma elem_bool b : elem_ok (vchBool b).
Proof. destruct b; [apply elem_true|apply elem_false]. Qed.
Lemma bnBool_small b : Z.abs (bnBool b) < 2 ^ 32.
Proof. unfold bnBool. destruct b; rewrite of_int_eq; lia. Qed.

Lemma sum_small a b : Z.abs a < 2 ^ 32 -> Z.abs b < 2 ^ 32 -> Z.abs (a + b) < 2 ^ 64 /\ Z.abs (a - b) < 2 ^ 64.
Proof. lia. Qed.

Ltac inv_stack :=
  repeat match goal with
  | H : Forall _ (_ :: _) |- _ => apply Forall_cons in H; destruct H
  | H : Next _ = Next _ |- _ => injection H as <-
  | H : Fail _ = Next _ |- _ => discriminate H
  end.
Ltac ok_list := repeat (apply Forall_cons; split); auto using elem_bool, elem_true, elem_false.

Lemma op_stack1_ok op s s' : Forall elem_ok s -> Z.of_nat (length s) <= 1000 ->
  op_stack1 op s = Next s' -> Forall elem_ok s'.
Proof.
  intros Hs Hl H. unfold op_stack1 in H.
  repeat (case_if_in H; [repeat case_match; inv_stack; ok_list|]); try discriminate.
  all: apply getvch_ok; rewrite setulong_eq; lia.
Qed.

Lemma nth_ok n s : Forall elem_ok s -> elem_ok (nth n s []).
Proof.
  intros H. revert n. induction H as [|x s Hx Hs IH]; intros [|n]; cbn [nth]; auto using elem_false.
Qed.

Lemma op_pick_roll_ok op s s' : Forall elem_ok s -> op_pick_roll op s = Next s' -> Forall elem_ok s'.
Proof.
  intros Hs H. unfold op_pick_roll in H. destruct s as [|vch [|y r]]; try discriminate.
  destruct (CastToBigNum vch); [|discriminate]. case_if_in H; [discriminate|]. injection H as <-.
  apply Forall_cons in Hs as [_ Hr]. apply Forall_cons. split; [exact (nth_ok _ (y :: r) Hr)|].
  case_if; [|done]. apply Forall_app. split; [exact (Forall_take _ _ _ Hr)|exact (Forall_drop _ (S _) _ Hr)].
Qed.

Lemma op_stack2_ok op s s' : Forall elem_ok s -> op_stack2 op s = Next s' -> Forall elem_ok s'.
Proof.
  intros Hs H. unfold op_stack2 in H.
  do 2 (case_if_in H; [repeat case_match; inv_stack; ok_list|]).
  case_if_in H; [by eapply op_pick_roll_ok|].
  repeat (case_if_in H; [repeat case_match; inv_stack; ok_list|]); try discriminate.
  match goal with H : elem_ok ?x |- elem_ok (getvch (setulong (Z.of_nat (length ?x)))) =>
    destruct H as [_ H]; unfold MAX_SCRIPT_ELEMENT_SIZE in H; apply getvch_ok; rewrite setulong_eq; lia end.
Qed.

Lemma push_result_ok v f s s' : Forall elem_ok s -> push_result v f s = Next s' -> Forall elem_ok s'.
Proof. intros Hs H. unfold push_result in H. repeat case_if_in H; inv_stack; ok_list. Qed.

Lemma op_equal_ok op s s' : Forall elem_ok s -> op_equal op s = Next s' -> Forall elem_ok s'.
Proof.
  intros Hs H. unfold op_equal in H. destruct s as [|x [|y r]]; try discriminate. inv_stack. by eapply push_result_ok.
Qed.

Lemma op_unary_ok op s s' : Forall elem_ok s -> op_unary op s = Next s' -> Forall elem_ok s'.
Proof.
  intros Hs H. unfold op_unary in H. destruct s as [|x r]; [discriminate|]. inv_stack.
  destruct (CastToBigNum x) as [bn|] eqn:Ec; [|discriminate]. injection H as <-.
  apply CastToBigNum_small in Ec; [|done]. ok_list. apply getvch_ok. unfold bnBool, bnZero.
  autorewrite with bn. rewrite ?of_int_eq by lia. repeat case_if; rewrite ?of_int_eq by lia; lia.
Qed.

Lemma binary_value_small op a b : Z.abs a < 2 ^ 32 -> Z.abs b < 2 ^ 32 -> Z.abs (binary_value op a b) < 2 ^ 64.
Proof.
  intros Ha Hb. unfold binary_value. autorewrite with bn.
  repeat (case_if; [first [lia | match goal with |- Z.abs (bnBool ?c) < _ => pose proof (bnBool_small c); lia end | idtac]|]).
  all: repeat case_if; lia.
Qed.

Lemma op_binary_ok op s s' : Forall elem_ok s -> op_binary op s = Next s' -> Forall elem_ok s'.
Proof.
  intros Hs H. unfold op_binary in H. destruct s as [|x [|y r]]; try discriminate. inv_stack.
  destruct (CastToBigNum y) as [a|] eqn:Ea; [|discriminate].
  destruct (CastToBigNum x) as [b|] eqn:Eb; [|discriminate].
  apply CastToBigNum_small in Ea, Eb; [|done..].
  repeat case_if_in H; inv_stack; ok_list. apply getvch_ok. by apply binary_value_small.
Qed.

Lemma op_within_ok s s' : Forall elem_ok s -> op_within s = Next s' -> Forall elem_ok s'.
Proof.
  intros Hs H. unfold op_within in H. destruct s as [|x [|y [|z r]]]; try discriminate.
  repeat case_match; try discriminate. inv_stack. ok_list.
Qed.

Lemma digest_ok l n : length l = n -> (n <= 32)%nat -> all_bytes l -> elem_ok l.
Proof. intros <- Hn Ha. split; [done|]. unfold MAX_SCRIPT_ELEMENT_SIZE. lia. Qed.

Lemma op_hash_ok op s s' : Forall elem_ok s -> op_hash op s = Next s' -> Forall elem_ok s'.
Proof.
  intros Hs H. unfold op_hash in H. destruct s as [|x r]; [discriminate|]. inv_stack. ok_list.
  repeat case_if; eapply digest_ok; try apply SHA256_bytes; try apply RIPEMD160_bytes; try apply SHA1_bytes;
    try apply le_bytes_all; try apply SHA256_len; try apply RIPEMD160_len; try apply SHA1_len;
    try apply length_le_bytes; lia.
Qed.

Lemma op_checksig_ok op code c s s' : Forall elem_ok s ->
  (op_checksig tx nIn flags ht op code c s).1 = Next s' -> Forall elem_ok s'.
Proof.
  intros Hs H. unfold op_checksig in H. destruct s as [|x [|y r]]; try discriminate. inv_stack.
  destruct (check_one _ _ _ _ _ _ _ _). by eapply push_result_ok.
Qed.

Lemma op_checkmultisig_ok op st c st' : elems_ok st -> 0 <= vm_nOpCount st <= 201 ->
  (op_checkmultisig tx nIn flags ht op st c).1 = Next st' -> elems_ok st' /\ 0 <= vm_nOpCount st' <= 201.
Proof.
  intros [Hs Ha] Hn H. unfold op_checkmultisig in H. destruct (vm_stack st) as [|vk s1] eqn:Es; [discriminate|].
  destruct (CastToBigNum vk); [|discriminate]. case_if_in H; [discriminate|]. case_if_in H; [discriminate|].
  destruct (drop _ s1) as [|vs s2] eqn:Ed1; [discriminate|].
  destruct (CastToBigNum vs); [|discriminate]. case_if_in H; [discriminate|].
  destruct (drop _ s2) as [|x r] eqn:Ed2; [discriminate|].
  destruct (multisig_loop _ _ _ _ _ _ _ _) as [f c']. cbn [fst] in H.
  assert (Hr : Forall elem_ok r).
  { apply Forall_cons in Hs as [_ Hs1]. apply (Forall_drop _ (Z.to_nat (getint z))) in Hs1. rewrite Ed1 in Hs1.
    apply Forall_cons in Hs1 as [_ Hs2]. apply (Forall_drop _ (Z.to_nat (getint z0))) in Hs2. rewrite Ed2 in Hs2.
    by apply Forall_cons in Hs2 as [_ Hr]. }
  destruct (push_result _ f r) as [s'|] eqn:Ep; [|discriminate]. injection H as <-. cbn in *. b2p.
  split; [|lia]. split; [|done]. by eapply push_result_ok.
Qed.

Lemma op_conditional_ok op f s v s' v' : Forall elem_ok s -> op_conditional op f s v = Next (s', v') ->
  Forall elem_ok s'.
Proof.
  intros Hs H. unfold op_conditional in H. repeat case_if_in H; repeat case_match; simplify_eq; inv_stack; done.
Qed.

Lemma lift_ok st o st' : (forall s', o = Next s' -> Forall elem_ok s') -> elems_ok st ->
  lift st o = Next st' -> elems_ok st' /\ vm_nOpCount st' = vm_nOpCount st.
Proof. intros Ho [Hs Ha] H. destruct o; [|discriminate]. injection H as <-. split; [split; [by apply Ho|done]|done]. Qed.

Lemma exec_op_ok op fExec pc st c st' : elems_ok st -> Z.of_nat (length (vm_stack st)) <= 1000 ->
  0 <= vm_nOpCount st <= 201 -> 0 <= op < 256 ->
  (exec_op tx nIn flags ht op fExec pc st c).1 = Next st' -> elems_ok st' /\ 0 <= vm_nOpCount st' <= 201.
Proof.
  intros He Hl Hn Hop H. destruct (He) as [Hs Ha]. unfold exec_op in H.
  assert (Hpure : forall o, (forall s', o = Next s' -> Forall elem_ok s') -> lift st o = Next st' ->
            elems_ok st' /\ 0 <= vm_nOpCount st' <= 201).
  { intros o Ho Hl'. destruct (lift_ok st o st' Ho He Hl') as [? ->]. done. }
  repeat (case_if_in H; [first [discriminate H | apply Hpure in H; [exact H|]; intros s' Hs' | idtac]|]).
  - injection Hs' as <-. ok_list. apply getvch_ok. rewrite of_int_eq; unfold OP_1 in *; lia.
  - by injection H as <-.
  - cbn [fst] in H. destruct (op_conditional _ _ _ _) as [[s' v']|] eqn:Eo; [|discriminate]. injection H as <-.
    split; [|done]. split; cbn; [exact (op_conditional_ok _ _ _ _ _ _ Hs Eo)|done].
  - unfold op_verify in Hs'. destruct (vm_stack st); [discriminate|]. inv_stack. case_if_in Hs'; inv_stack. done.
  - cbn [fst] in H. destruct (vm_stack st) as [|x r]; [discriminate|]. injection H as <-. inv_stack.
    split; [|done]. split; cbn; ok_list.
  - cbn [fst] in H. destruct (vm_altstack st) as [|x r]; [discriminate|]. injection H as <-. inv_stack.
    split; [|done]. split; cbn; ok_list.
  - eapply op_stack1_ok; [exact Hs|exact Hl|exact Hs'].
  - eapply op_stack2_ok; [exact Hs|exact Hs'].
  - eapply op_equal_ok; [exact Hs|exact Hs'].
  - eapply op_unary_ok; [exact Hs|exact Hs'].
  - eapply op_binary_ok; [exact Hs|exact Hs'].
  - eapply op_within_ok; [exact Hs|exact Hs'].
  - eapply op_hash_ok; [exact Hs|exact Hs'].
  - by injection H as <-.
  - pose proof (op_checksig_ok op (vm_codehash st) c (vm_stack st)) as Hc.
    destruct (op_checksig _ _ _ _ _ _ _ _) as [o c']. cbn in H, Hc. apply Hpure in H; [done|]. intros s' Ho. by apply Hc.
  - eapply op_checkmultisig_ok; [exact He|exact Hn|exact H].
  - discriminate.
Qed.

Lemma GetOp2_bytes pc op v pc' : all_bytes pc -> GetOp2 pc = Some (op, v, pc') ->
  0 <= op < 256 /\ all_bytes v /\ all_bytes pc'.
Proof.
  intros Ha H. unfold GetOp2 in H. destruct pc as [|o pc]; [discriminate|].
  apply Forall_cons in Ha as [Ho Ha]. unfold is_byte in Ho.
  repeat case_if_in H; simplify_eq; repeat case_bool_decide; simplify_eq; try (split; [done|split; [constructor|done]]);
    split; try done; split; auto using all_bytes_firstn, all_bytes_skipn.
Qed.

Lemma eval_step_inv pc st c pc' st' c' : all_bytes pc -> vm_inv st ->
  eval_step tx nIn flags ht pc st c = (Next (pc', st'), c') ->
  vm_inv st' /\ all_bytes pc' /\ (length pc' < length pc)%nat.
Proof.
  intros Hpc ([Hs Ha] & Hl & Hn) H. unfold eval_step in H.
  destruct (GetOp2 pc) as [[[op v] pc1]|] eqn:Eg; [|discriminate].
  pose proof (GetOp2_bytes _ _ _ _ Hpc Eg) as (Hop & Hv & Hpc1). apply GetOp2_shorter in Eg as Hsh.
  case_if_in H; [discriminate|]. set (st1 := if OP_16 <? op then set_nOpCount st (vm_nOpCount st + 1) else st) in *.
  case_if_in H; [discriminate|]. case_if_in H; [discriminate|].
  assert (H1 : vm_stack st1 = vm_stack st /\ vm_altstack st1 = vm_altstack st /\ 0 <= vm_nOpCount st1 <= 201).
  { subst st1. destruct (OP_16 <? op); cbn in *; b2p; split_and!; try done; lia. }
  destruct H1 as (Es & Ealt & Hn1).
  assert (Hstep : forall o c1, (forall st2, o = Next st2 -> elems_ok st2 /\ 0 <= vm_nOpCount st2 <= 201) ->
    match o with
    | Next st2 => if 1000 <? Z.of_nat (length (vm_stack st2)) + Z.of_nat (length (vm_altstack st2))
                  then (Fail (vm_stack st2), c1) else (Next (pc1, st2), c1)
    | Fail s => (Fail s, c1)
    end = (Next (pc', st'), c') -> vm_inv st' /\ all_bytes pc' /\ (length pc' < length pc)%nat).
  { intros [st2|s2] c1 Ho Hm; [|discriminate]. case_if_in Hm; [discriminate|]. injection Hm as <- <- <-. b2p.
    destruct (Ho st2 eq_refl) as [He2 Hn2]. split; [|done]. split; [done|]. split; [lia|done]. }
  assert (Hel : elems_ok st1) by (unfold elems_ok; by rewrite Es, Ealt).
  case_if_in H.
  - apply (Hstep (Next (set_stack st1 (v :: vm_stack st))) c); [|exact H]. intros st2 [= <-]. split; [|done].
    split; cbn; [|by rewrite Ealt]. apply Forall_cons. split; [split; [done|b2p; lia]|done].
  - case_if_in H.
    + destruct (exec_op _ _ _ _ _ _ _ _ _) as [o c1] eqn:Ex. apply (Hstep o c1); [|exact H]. intros st2 ->.
      eapply exec_op_ok; [exact Hel|rewrite Es; lia|exact Hn1|exact Hop|by rewrite Ex].
    + apply (Hstep (Next st1) c); [|exact H]. by intros st2 [= <-].
Qed.

Lemma eval_loop_limits f pc st c s' c' : all_bytes pc -> vm_inv st ->
  eval_loop tx nIn flags ht f pc st c = (true, s', c') ->
  Forall elem_ok s' /\ Z.of_nat (length s') <= 1000.
Proof.
  revert pc st c. induction f as [|f IH]; intros pc st c Hpc Hi H; destruct pc as [|b pc]; cbn [eval_loop] in H.
  1,3: injection H as _ <- <-; destruct Hi as ([? ?] & ? & ?); split; [done|lia].
  - discriminate.
  - destruct (eval_step _ _ _ _ _ _ _) as [[[pc1 st1]|s1] c1] eqn:Ee; [|discriminate].
    destruct (eval_step_inv _ _ _ _ _ _ Hpc Hi Ee) as (? & ? & ?). by eapply IH.
Qed.
End Limits.

(** the length of the script is fuel enough *)
Lemma eval_loop_fuel {B : OpenSSLBN} {K : Crypto} {E : CacheEnv} tx nIn flags ht f1 f2 pc st c :
  (length pc <= f1)%nat -> (length pc <= f2)%nat ->
  eval_loop tx nIn flags ht f1 pc st c = eval_loop tx nIn flags ht f2 pc st c.
Proof.
  revert f2 pc st c. induction f1 as [|f1 IH]; intros f2 pc st c H1 H2.
  - destruct pc; [|cbn in H1; lia]. by destruct f2.
  - destruct f2 as [|f2]; [destruct pc; [done|cbn in H2; lia]|]. destruct pc as [|b pc]; [done|]. cbn [eval_loop].
    destruct (eval_step _ _ _ _ _ _ _) as [[[pc1 st1]|s1] c1] eqn:Ee; [|done].
    assert ((length pc1 < length (b :: pc))%nat).
    { unfold eval_step in Ee. destruct (GetOp2 (b :: pc)) as [[[op v] pc2]|] eqn:Eg; [|discriminate].
      apply GetOp2_shorter in Eg. repeat case_if_in Ee; try discriminate;
        repeat case_match; simplify_eq; done. }
    apply IH; cbn in *; lia.
Qed.

(** ** Properties *)

Section EvalProperties.
Context {B : OpenSSLBN} {K : Crypto} {E : CacheEnv}.
Context (tx : CTransaction) (nIn flags nHashType : Z).

(** C15: The signature cache is transparent: starting from caches that hold only valid signatures,
    [EvalScript] gives the same verdict and the same stack whatever the cache contains, and leaves a cache
    that holds only valid signatures; in particular the verdict is the one without a cache. *)
Theorem EvalScript_cache_transparent s script c1 c2 (H1 : cache_sound c1) (H2 : cache_sound c2) :
  (EvalScript tx nIn flags nHashType s script c1).1 = (EvalScript tx nIn flags nHashType s script c2).1 /\
  cache_sound (EvalScript tx nIn flags nHashType s script c1).2.
Proof. destruct (EvalScript_same tx nIn flags nHashType s script c1 c2 H1 H2) as (? & ? & ?). done. Qed.

(** The greedy loop of OP_CHECKMULTISIG decides the matching problem: it succeeds exactly when the
    signatures, in order, are valid for a subsequence of the public keys. *)
Theorem multisig_loop_complete cache keys sigs scriptCode (Hc : cache_sound cache) :
  (multisig_loop tx nIn flags nHashType cache keys sigs scriptCode).1 = true <->
  matching tx nIn flags nHashType scriptCode sigs keys.
Proof. by apply multisig_loop_matching. Qed.

End EvalProperties.

(** The interpreter respects its limits and terminates: every state it steps to has at most 1000
    elements on the two stacks together, none longer than 520 bytes, and at most 201 counted operations;
    the stack of a successful run obeys the same bounds; and the script's length bounds the number of
    rounds, so the run never stops for lack of fuel. *)
Theorem EvalScript_limits {B : OpenSSLBN} {L : OpenSSLBNLaws B} {K : Crypto} {KL : CryptoLaws K} {E : CacheEnv}
    tx nIn flags nHashType :
  (forall pc st c pc' st' c', all_bytes pc -> vm_inv st ->
     eval_step tx nIn flags nHashType pc st c = (Next (pc', st'), c') ->
     vm_inv st' /\ all_bytes pc' /\ (length pc' < length pc)%nat) /\
  (forall s script c s' c', all_bytes script -> Forall elem_ok s -> Z.of_nat (length s) <= 1000 ->
     EvalScript tx nIn flags nHashType s script c = (true, s', c') ->
     Forall elem_ok s' /\ Z.of_nat (length s') <= 1000) /\
  (forall pc st c f, (length pc <= f)%nat ->
     eval_loop tx nIn flags nHashType f pc st c = eval_loop tx nIn flags nHashType (length pc) pc st c).
Proof.
  split_and!.
  - apply eval_step_inv.
  - intros s script c s' c' Hs He Hl. unfold EvalScript. case_if; [discriminate|].
    apply eval_loop_limits; [done|]. split; [by split|]. cbn. lia.
  - intros. by apply eval_loop_fuel.
Qed.

(** ** What is hashed *)

Lemma lookup_map_others n f l i : map_others n f l !! i = (fun x => if bool_decide (i = n) then x else f x) <$> l !! i.
Proof. unfold map_others. apply list_lookup_imap. Qed.

Lemma take1_drop {A} (l : list A) n x : l !! n = Some x -> take 1 (drop n l) = [x].
Proof.
  intros H. rewrite <- (take_drop_middle l n x H). apply lookup_lt_Some in H.
  rewrite drop_app_length' by (rewrite length_take; lia). by cbn.
Qed.

(** the inputs after the script signatures are replaced *)
Definition blanked (n : nat) (code : bytes) (vin : list CTxIn) : list CTxIn :=
  alter (set_scriptSig code) n (map (set_scriptSig []) vin).

Lemma lookup_blanked n code vin i : blanked n code vin !! i =
  (fun x => if bool_decide (i = n) then set_scriptSig code x else set_scriptSig [] x) <$> vin !! i.
Proof.
  unfold blanked. case_bool_decide as E.
  - subst. rewrite list_lookup_alter_eq, list_lookup_fmap. by destruct (vin !! n).
  - rewrite list_lookup_alter_ne by done. by rewrite list_lookup_fmap.
Qed.

Lemma others_eq n code vin vin' : map prevout vin' = map prevout vin ->
  nSequence <$> (vin' !! n) = nSequence <$> (vin !! n) ->
  map_others n (set_nSequence 0) (blanked n code vin') = map_others n (set_nSequence 0) (blanked n code vin).
Proof.
  intros Hp Hs. apply list_eq. intros i. rewrite !lookup_map_others, !lookup_blanked.
  assert (Hpi : prevout <$> vin' !! i = prevout <$> vin !! i).
  { change (map prevout vin') with (prevout <$> vin') in Hp. change (map prevout vin) with (prevout <$> vin) in Hp.
    by rewrite <- !list_lookup_fmap, Hp. }
  case_bool_decide as En; [subst i|].
  - destruct (vin' !! n) as [[p s q]|], (vin !! n) as [[p' s' q']|]; cbn in *; simplify_eq; done.
  - destruct (vin' !! i) as [[p s q]|], (vin !! i) as [[p' s' q']|]; cbn in *; simplify_eq; done.
Qed.

Section Commits.
Context {K : Crypto}.

(** What a signature commits to: the signature hash never depends on the script signatures; with
    SIGHASH_NONE it does not depend on the outputs or on the sequence numbers of the other inputs; with
    ANYONECANPAY it depends on no other input at all. *)
Theorem SignatureHash_commits scriptCode tx nIn nHashType (tx' : CTransaction)
    (Hi : 0 <= nIn) (Hv : nVersion tx' = nVersion tx) (Hl : nLockTime tx' = nLockTime tx) :
  (vout tx' = vout tx -> map (set_scriptSig []) (vin tx') = map (set_scriptSig []) (vin tx) ->
   SignatureHash scriptCode tx' nIn nHashType = SignatureHash scriptCode tx nIn nHashType) /\
  (Z.land nHashType 0x1f = SIGHASH_NONE -> map prevout (vin tx') = map prevout (vin tx) ->
   nSequence <$> (vin tx' !! Z.to_nat nIn) = nSequence <$> (vin tx !! Z.to_nat nIn) ->
   SignatureHash scriptCode tx' nIn nHashType = SignatureHash scriptCode tx nIn nHashType) /\
  (has_flag nHashType SIGHASH_ANYONECANPAY = true -> vout tx' = vout tx -> is_Some (vin tx !! Z.to_nat nIn) ->
   vin tx' !! Z.to_nat nIn = vin tx !! Z.to_nat nIn ->
   SignatureHash scriptCode tx' nIn nHashType = SignatureHash scriptCode tx nIn nHashType).
Proof.
  unfold SignatureHash. set (n := Z.to_nat nIn). split_and!.
  - intros Ho Hm. assert (Et : signature_tx scriptCode tx' nIn nHashType = signature_tx scriptCode tx nIn nHashType); [|by rewrite Et].
    assert (Hlen : length (vin tx') = length (vin tx)) by (apply (f_equal length) in Hm; by rewrite !length_map in Hm).
    unfold signature_tx. by rewrite Hm, Ho, Hv, Hl, Hlen.
  - intros Hb Hp Hs. assert (Et : signature_tx scriptCode tx' nIn nHashType = signature_tx scriptCode tx nIn nHashType); [|by rewrite Et].
    assert (Hlen : length (vin tx') = length (vin tx)) by (apply (f_equal length) in Hp; by rewrite !length_map in Hp).
    unfold signature_tx. rewrite Hb, Hv, Hl, Hlen. cbn [Z.eqb Pos.eqb SIGHASH_NONE]. fold n. case_bool_decide; [done|].
    fold (blanked n (FindAndDelete scriptCode [OP_CODESEPARATOR]).2 (vin tx')).
    fold (blanked n (FindAndDelete scriptCode [OP_CODESEPARATOR]).2 (vin tx)).
    by rewrite (others_eq n _ (vin tx) (vin tx') Hp Hs).
  - intros Ha Ho [x Hx] Hin.
    assert (Et : signature_tx scriptCode tx' nIn nHashType = signature_tx scriptCode tx nIn nHashType); [|by rewrite Et].
    assert (Hx' : vin tx' !! n = Some x) by by rewrite Hin. unfold signature_tx. rewrite Ha, Ho, Hv, Hl. fold n.
    pose proof (lookup_lt_Some _ _ _ Hx). pose proof (lookup_lt_Some _ _ _ Hx').
    rewrite !bool_decide_eq_false_2 by lia. set (code := (FindAndDelete _ _).2).
    fold (blanked n code (vin tx')). fold (blanked n code (vin tx)).
    assert (Hb : forall v, v !! n = Some x -> blanked n code v !! n = Some (set_scriptSig code x)).
    { intros v Hv'. rewrite lookup_blanked, Hv'. cbn. by rewrite bool_decide_eq_true_2. }
    assert (Hm : forall v, v !! n = Some x -> map_others n (set_nSequence 0) (blanked n code v) !! n = Some (set_scriptSig code x)).
    { intros v Hv'. rewrite lookup_map_others, Hb by done. cbn. by rewrite bool_decide_eq_true_2. }
    repeat case_if; rewrite ?(take1_drop _ _ _ (Hb _ Hx)), ?(take1_drop _ _ _ (Hb _ Hx')),
      ?(take1_drop _ _ _ (Hm _ Hx)), ?(take1_drop _ _ _ (Hm _ Hx')); (done || (b2p; lia)).
Qed.

End Commits.

(** *** At concrete values *)

#[export] Instance sample_env : CacheEnv := {| GetRandHash n := Z.of_nat n; maxsigcachesize := 50000 |}.

Lemma empty_cache_sound {K : Crypto} : cache_sound empty_cache.
Proof. constructor. Qed.

Definition sample_key (n : Z) : bytes := i2o_ECPublicKey (Crypto := ToyCrypto) (toy_reduce n) true.
(** a signature with hash type ALL of the sample transaction under [code] *)
Definition sample_sig (n : Z) (code : bytes) : bytes :=
  toy_sig (uint256_bytes (SignatureHash (K := ToyCrypto) code sample_tx 0 SIGHASH_ALL)) (toy_reduce n) ++ [SIGHASH_ALL].

Lemma EvalScript_cache_transparent_witness :
  (EvalScript (B := ZBN) (K := ToyCrypto) sample_tx 0 0 0 [] [0x52; 0x53; 0x93] empty_cache).1 = (true, [[5]]).
Proof.
  etransitivity.
  - exact (proj1 (EvalScript_cache_transparent (B := ZBN) (K := ToyCrypto) sample_tx 0 0 0 [] [0x52; 0x53; 0x93]
      empty_cache empty_cache empty_cache_sound empty_cache_sound)).
  - vm_compute. reflexivity.
Defined.

Lemma multisig_loop_complete_witness :
  let code := [0x51] in
  let sigs := [sample_sig 7 code; sample_sig 9 code] in
  let keys := [sample_key 7; sample_key 8; sample_key 9] in
  matching (K := ToyCrypto) sample_tx 0 SCRIPT_VERIFY_STRICTENC 0 code sigs keys.
Proof.
  cbv zeta. apply (multisig_loop_complete (K := ToyCrypto) sample_tx 0 SCRIPT_VERIFY_STRICTENC 0 empty_cache _ _ _ empty_cache_sound).
  vm_compute. reflexivity.
Defined.

Lemma EvalScript_limits_witness :
  eval_loop (B := ZBN) (K := ToyCrypto) sample_tx 0 0 0 10 [0x52; 0x53; 0x93]
    {| vm_stack := []; vm_altstack := []; vm_vfExec := []; vm_codehash := []; vm_nOpCount := 0 |} empty_cache
  = (true, [[5]], empty_cache).
Proof.
  etransitivity.
  - apply (proj2 (proj2 (EvalScript_limits (B := ZBN) (K := ToyCrypto) sample_tx 0 0 0))). cbn; lia.
  - vm_compute. reflexivity.
Defined.

(** the sample with another script signature *)
Definition resigned_tx : CTransaction := 
  {| nVersion := 1; vin := alter (set_scriptSig [0x51]) 0%nat (vin sample_tx); vout := vout sample_tx; nLockTime := 0 |}.

Lemma SignatureHash_commits_witness :
  SignatureHash (K := ToyCrypto) [0x51] resigned_tx 0 SIGHASH_ALL = SignatureHash (K := ToyCrypto) [0x51] sample_tx 0 SIGHASH_ALL.
Proof.
  apply (proj1 (SignatureHash_commits (K := ToyCrypto) [0x51] sample_tx 0 SIGHASH_ALL resigned_tx ltac:(lia) eq_refl eq_refl));
    reflexivity.
Defined.
