(* ===== verification/ScriptStd.v ===== *)
(** * Standard scripts, verification and signing (script.cpp)

    Template matching ([Solver]), destinations, [VerifyScript] with
    pay-to-script-hash, signing and the combination of signatures, and the script
    compressor.  The key store is an interface here ([CKeyStore]). *)

From S2P Require Import Prelude OpenSSL BigNum Serialize Crypto Script Transaction ScriptEval.
Import SigCache.
Local Open Scope Z_scope.

Inductive txnouttype := TX_NONSTANDARD | TX_PUBKEY | TX_PUBKEYHASH | TX_SCRIPTHASH | TX_MULTISIG.
Inductive CTxDestination := CNoDestination | CKeyID (id : Z) | CScriptID (id : Z).

#[export] Instance txnouttype_eq_dec : EqDecision txnouttype.
Proof. solve_decision. Defined.
#[export] Instance CTxDestination_eq_dec : EqDecision CTxDestination.
Proof. solve_decision. Defined.

(** what signing and ownership tests ask of a key store *)
Record CKeyStore := {
  HaveKey : Z -> bool;
  GetKey : Z -> option CSecretKey;
  ks_GetPubKey : Z -> option bytes;
  HaveCScript : Z -> bool;
  GetCScript : Z -> option bytes;
}.

(** ** Templates *)

Definition mTemplates : list (txnouttype * bytes) := [
  (TX_PUBKEY, [OP_PUBKEY; OP_CHECKSIG]);
  (TX_PUBKEYHASH, [OP_DUP; OP_HASH160; OP_PUBKEYHASH; OP_EQUALVERIFY; OP_CHECKSIG]);
  (TX_MULTISIG, [OP_SMALLINTEGER; OP_PUBKEYS; OP_SMALLINTEGER; OP_CHECKMULTISIG])].

Definition pubkey_size (vch : bytes) : bool := bool_decide (33 <= length vch)%nat && bool_decide (length vch <= 120)%nat.

(** the loop under OP_PUBKEYS: the operands that look like keys are collected; a failing read leaves the
    invalid opcode and an empty operand *)
Fixpoint collect_pubkeys (fuel : nat) (pc1 : bytes) (opcode1 : Z) (vch1 : bytes) (vSolutions : list bytes)
    : bytes * Z * bytes * list bytes :=
  match fuel with
  | O => (pc1, opcode1, vch1, vSolutions)
  | S f =>
    if pubkey_size vch1 then
      match GetOp2 pc1 with
      | Some (opcode1, vch1', pc1) => collect_pubkeys f pc1 opcode1 vch1' (vSolutions ++ [vch1])
      | None => ([], OP_INVALIDOPCODE, [], vSolutions ++ [vch1])
      end
    else (pc1, opcode1, vch1, vSolutions)
  end.

(** the comparison of a script with a template; [None]: no match *)
Fixpoint match_template (fuel : nat) (pc1 pc2 : bytes) (vSolutions : list bytes) : option (list bytes) :=
  match fuel with
  | O => None
  | S f =>
    if bool_decide (pc1 = []) && bool_decide (pc2 = []) then Some vSolutions
    else
      let? (opcode1, vch1, pc1) := GetOp2 pc1 in
      let? (opcode2, vch2, pc2) := GetOp2 pc2 in
      let? (pc1, opcode1, vch1, vSolutions, opcode2, vch2, pc2) :=
        if opcode2 =? OP_PUBKEYS then
          let '(pc1, opcode1, vch1, vSolutions) := collect_pubkeys (S (length pc1)) pc1 opcode1 vch1 vSolutions in
          let? (opcode2, vch2, pc2) := GetOp2 pc2 in
          Some (pc1, opcode1, vch1, vSolutions, opcode2, vch2, pc2)
        else Some (pc1, opcode1, vch1, vSolutions, opcode2, vch2, pc2) in
      if opcode2 =? OP_PUBKEY then
        if pubkey_size vch1 then match_template f pc1 pc2 (vSolutions ++ [vch1]) else None
      else if opcode2 =? OP_PUBKEYHASH then
        if bool_decide (length vch1 = 20)%nat then match_template f pc1 pc2 (vSolutions ++ [vch1]) else None
      else if opcode2 =? OP_SMALLINTEGER then
        if (opcode1 =? OP_0) || ((OP_1 <=? opcode1) && (opcode1 <=? OP_16)) then
          let? n := DecodeOP_N opcode1 in match_template f pc1 pc2 (vSolutions ++ [[n]])
        else None
      else if negb (opcode1 =? opcode2) || negb (bool_decide (vch1 = vch2)) then None
      else match_template f pc1 pc2 vSolutions
  end.

Definition front0 (v : list bytes) : Z := nth 0 (nth 0 v []) 0.
Definition back0 (v : list bytes) : Z := nth 0 (List.last v []) 0.

(** the templates in order; the extra condition of a multisig match decides the search *)
Fixpoint scan_templates (ts : list (txnouttype * bytes)) (script1 : bytes) : bool * txnouttype * list bytes :=
  match ts with
  | [] => (false, TX_NONSTANDARD, [])
  | (t, script2) :: ts =>
    match match_template (S (length script1 + length script2)) script1 script2 [] with
    | None => scan_templates ts script1
    | Some v =>
      if bool_decide (t = TX_MULTISIG) then
        let m := front0 v in
        let n := back0 v in
        (negb ((m <? 1) || (n <? 1) || (n <? m) || negb (Z.of_nat (length v) - 2 =? n)), t, v)
      else (true, t, v)
    end
  end.

Definition Solver (scriptPubKey : bytes) : bool * txnouttype * list bytes :=
  if IsPayToScriptHash scriptPubKey then (true, TX_SCRIPTHASH, [take 20 (drop 2 scriptPubKey)])
  else scan_templates mTemplates scriptPubKey.

Definition ScriptSigArgsExpected (t : txnouttype) (vSolutions : list bytes) : Z :=
  match t with
  | TX_NONSTANDARD => -1
  | TX_PUBKEY => 1
  | TX_PUBKEYHASH => 2
  | TX_MULTISIG => match vSolutions with
                   | (b :: _) :: _ => b + 1
                   | _ => -1
                   end
  | TX_SCRIPTHASH => 1
  end.

Definition IsStandard (scriptPubKey : bytes) : bool :=
  let '(ok, whichType, vSolutions) := Solver scriptPubKey in
  if negb ok then false
  else if bool_decide (whichType = TX_MULTISIG) then
    let m := front0 vSolutions in
    let n := back0 vSolutions in
    if (n <? 1) || (3 <? n) then false
    else if (m <? 1) || (n <? m) then false
    else true
  else negb (bool_decide (whichType = TX_NONSTANDARD)).

(** the elements between the first and the last *)
Definition inner (v : list bytes) : list bytes := drop 1 (take (length v - 1) v).

Section Destinations.
Context {K : Crypto}.

Definition HaveKeys (pubkeys : list bytes) (keystore : CKeyStore) : Z :=
  foldl (fun n pubkey => if HaveKey keystore (GetID pubkey) then u32 (n + 1) else n) 0 pubkeys.

Definition IsMine_dest (keystore : CKeyStore) (dest : CTxDestination) : bool :=
  match dest with
  | CNoDestination => false
  | CKeyID keyID => HaveKey keystore keyID
  | CScriptID scriptID => HaveCScript keystore scriptID
  end.

(** one level of recursion per script of the store that pays to another one; [None]: out of fuel *)
Fixpoint IsMine (fuel : nat) (keystore : CKeyStore) (scriptPubKey : bytes) : option bool :=
  match fuel with
  | O => None
  | S f =>
    let '(ok, whichType, vSolutions) := Solver scriptPubKey in
    if negb ok then Some false
    else
      match whichType with
      | TX_NONSTANDARD => Some false
      | TX_PUBKEY => Some (HaveKey keystore (GetID (nth 0 vSolutions [])))
      | TX_PUBKEYHASH => Some (HaveKey keystore (uint160_of (nth 0 vSolutions [])))
      | TX_SCRIPTHASH =>
        match GetCScript keystore (uint160_of (nth 0 vSolutions [])) with
        | None => Some false
        | Some subscript => IsMine f keystore subscript
        end
      | TX_MULTISIG =>
        let keys := inner vSolutions in
        Some (HaveKeys keys keystore =? Z.of_nat (length keys))
      end
  end.

Definition ExtractDestination (scriptPubKey : bytes) : option CTxDestination :=
  let '(ok, whichType, vSolutions) := Solver scriptPubKey in
  if negb ok then None
  else
    match whichType with
    | TX_PUBKEY => Some (CKeyID (GetID (nth 0 vSolutions [])))
    | TX_PUBKEYHASH => Some (CKeyID (uint160_of (nth 0 vSolutions [])))
    | TX_SCRIPTHASH => Some (CScriptID (uint160_of (nth 0 vSolutions [])))
    | _ => None
    end.

(** the verdict, the type, the addresses and the number of signatures required, if it was set *)
Definition ExtractDestinations (scriptPubKey : bytes) : bool * txnouttype * list CTxDestination * option Z :=
  let '(ok, typeRet, vSolutions) := Solver scriptPubKey in
  if negb ok then (false, typeRet, [], None)
  else if bool_decide (typeRet = TX_MULTISIG) then
    (true, typeRet, map (fun k => CKeyID (GetID k)) (inner vSolutions), Some (front0 vSolutions))
  else
    match ExtractDestination scriptPubKey with
    | None => (false, typeRet, [], Some 1)
    | Some address => (true, typeRet, [address], Some 1)
    end.

End Destinations.

Definition SetDestination (dest : CTxDestination) : bytes :=
  match dest with
  | CNoDestination => []
  | CKeyID keyID => [OP_DUP; OP_HASH160] ++ push_uint160 keyID ++ [OP_EQUALVERIFY; OP_CHECKSIG]
  | CScriptID scriptID => [OP_HASH160] ++ push_uint160 scriptID ++ [OP_EQUAL]
  end.

(** [None]: an assertion of [EncodeOP_N] fails *)
Definition SetMultisig (nRequired : Z) (keys : list bytes) : option bytes :=
  let? m := EncodeOP_N nRequired in
  let? n := EncodeOP_N (Z.of_nat (length keys)) in
  Some ([m] ++ concat (map push_data keys) ++ [n; OP_CHECKMULTISIG]).

(** ** Verification *)

Section Verify.
Context {B : OpenSSLBN} {K : Crypto} {E : CacheEnv}.

(** [None]: the assertion on the copied stack fails *)
Definition VerifyScript (scriptSig scriptPubKey : bytes) (txTo : CTransaction) (nIn flags nHashType : Z)
    (cache : CSignatureCache) : option bool * CSignatureCache :=
  let eval := EvalScript txTo nIn flags nHashType in
  let '(ok, stack, cache) := eval [] scriptSig cache in
  if negb ok then (Some false, cache)
  else
    let stackCopy := if has_flag flags SCRIPT_VERIFY_P2SH then stack else [] in
    let '(ok, stack, cache) := eval stack scriptPubKey cache in
    if negb ok then (Some false, cache)
    else
      match stack with
      | [] => (Some false, cache)
      | top :: _ =>
        if negb (CastToBool top) then (Some false, cache)
        else if has_flag flags SCRIPT_VERIFY_P2SH && IsPayToScriptHash scriptPubKey then
          if negb (IsPushOnly scriptSig) then (Some false, cache)
          else
            match stackCopy with
            | [] => (None, cache)
            | pubKey2 :: stackCopy =>
              let '(ok, stackCopy, cache) := eval stackCopy pubKey2 cache in
              if negb ok then (Some false, cache)
              else match stackCopy with
                   | [] => (Some false, cache)
                   | top :: _ => (Some (CastToBool top), cache)
                   end
            end
        else (Some true, cache)
      end.
End Verify.

(** ** Signing *)

Section Sign.
Context {B : OpenSSLBN} {K : Crypto} {E : CacheEnv}.

(** the script signature with one more signature, if the key is there and signs *)
Definition Sign1 (address : Z) (keystore : CKeyStore) (hash nHashType : Z) (scriptSigRet : bytes) : bool * bytes :=
  match GetKey keystore address with
  | None => (false, scriptSigRet)
  | Some key =>
    match Sign key hash with
    | None => (false, scriptSigRet)
    | Some vchSig => (true, scriptSigRet ++ push_data (vchSig ++ [u8 nHashType]))
    end
  end.

Fixpoint SignN_loop (pubkeys : list bytes) (keystore : CKeyStore) (hash nHashType nRequired nSigned : Z)
    (scriptSigRet : bytes) : Z * bytes :=
  match pubkeys with
  | [] => (nSigned, scriptSigRet)
  | pubkey :: r =>
    if nSigned <? nRequired then
      let '(ok, scriptSigRet) := Sign1 (GetID pubkey) keystore hash nHashType scriptSigRet in
      SignN_loop r keystore hash nHashType nRequired (if ok then nSigned + 1 else nSigned) scriptSigRet
    else (nSigned, scriptSigRet)
  end.
Definition SignN (multisigdata : list bytes) (keystore : CKeyStore) (hash nHashType : Z) (scriptSigRet : bytes)
    : bool * bytes :=
  let nRequired := front0 multisigdata in
  let '(nSigned, scriptSigRet) := SignN_loop (inner multisigdata) keystore hash nHashType nRequired 0 scriptSigRet in
  (nSigned =? nRequired, scriptSigRet).

(** the overload of [Solver] that signs: the verdict, the script signature and the type *)
Definition SolverSign (keystore : CKeyStore) (scriptPubKey : bytes) (hash nHashType : Z)
    : bool * bytes * txnouttype :=
  let '(ok, whichType, vSolutions) := Solver scriptPubKey in
  if negb ok then (false, [], whichType)
  else
    match whichType with
    | TX_NONSTANDARD => (false, [], whichType)
    | TX_PUBKEY => (Sign1 (GetID (nth 0 vSolutions [])) keystore hash nHashType [], whichType)
    | TX_PUBKEYHASH =>
      let keyID := uint160_of (nth 0 vSolutions []) in
      let '(ok, scriptSigRet) := Sign1 keyID keystore hash nHashType [] in
      if negb ok then (false, scriptSigRet, whichType)
      else (true, scriptSigRet ++ push_data (default [] (ks_GetPubKey keystore keyID)), whichType)
    | TX_SCRIPTHASH =>
      match GetCScript keystore (uint160_of (nth 0 vSolutions [])) with
      | None => (false, [], whichType)
      | Some s => (true, s, whichType)
      end
    | TX_MULTISIG => (SignN vSolutions keystore hash nHashType [OP_0], whichType)
    end.

Definition set_vin_script (txTo : CTransaction) (nIn : nat) (s : bytes) : CTransaction :=
  {| nVersion := nVersion txTo; vin := alter (set_scriptSig s) nIn (vin txTo); vout := vout txTo;
     nLockTime := nLockTime txTo |}.

(** the verdict and the transaction with its input signed as far as possible; [None]: the index assertion
    fails, or the one of [VerifyScript] *)
Definition SignSignature (keystore : CKeyStore) (fromPubKey : bytes) (txTo : CTransaction) (nIn nHashType : Z)
    (cache : CSignatureCache) : option (bool * CTransaction) * CSignatureCache :=
  let n := Z.to_nat nIn in
  if bool_decide (length (vin txTo) <= n)%nat then (None, cache)
  else
    let hash := SignatureHash fromPubKey txTo nIn nHashType in
    let '(ok, sig, whichType) := SolverSign keystore fromPubKey hash nHashType in
    if negb ok then (Some (false, set_vin_script txTo n sig), cache)
    else
      let '(fSolved, sig) :=
        if bool_decide (whichType = TX_SCRIPTHASH) then
          let subscript := sig in
          let txSub := set_vin_script txTo n subscript in
          let hash2 := SignatureHash subscript txSub nIn nHashType in
          let '(ok, sig2, subType) := SolverSign keystore subscript hash2 nHashType in
          (ok && negb (bool_decide (subType = TX_SCRIPTHASH)), sig2 ++ push_data subscript)
        else (true, sig) in
      let txTo := set_vin_script txTo n sig in
      if negb fSolved then (Some (false, txTo), cache)
      else
        let '(r, cache) := VerifyScript sig fromPubKey txTo nIn
                             (Z.lor SCRIPT_VERIFY_P2SH SCRIPT_VERIFY_STRICTENC) 0 cache in
        (match r with None => None | Some b => Some (b, txTo) end, cache).

(** the overload that takes the previous transaction *)
Definition SignSignature_tx (keystore : CKeyStore) (txFrom txTo : CTransaction) (nIn nHashType : Z)
    (cache : CSignatureCache) : option (bool * CTransaction) * CSignatureCache :=
  match vin txTo !! Z.to_nat nIn with
  | None => (None, cache)
  | Some txin =>
    match vout txFrom !! Z.to_nat (o_n (prevout txin)) with
    | None => (None, cache)
    | Some txout => SignSignature keystore (scriptPubKey txout) txTo nIn nHashType cache
    end
  end.

(** ** Combining signatures *)

Definition PushAll (values : list bytes) : bytes := concat (map push_data values).

(** [std::set<valtype>] in the order of its keys *)
Fixpoint vch_insert (v : bytes) (l : list bytes) : list bytes :=
  match l with
  | [] => [v]
  | x :: r => if vch_lt v x then v :: l else if vch_lt x v then x :: vch_insert v r else l
  end.
Definition insert_sigs (allsigs sigs : list bytes) : list bytes :=
  foldl (fun s v => if bool_decide (v = []) then s else vch_insert v s) allsigs sigs.

Fixpoint sig_of (sigs : list (bytes * bytes)) (pubkey : bytes) : option bytes :=
  match sigs with
  | [] => None
  | (k, v) :: r => if bool_decide (k = pubkey) then Some v else sig_of r pubkey
  end.

(** the first key without a signature that [sig] is valid for *)
Fixpoint assign_sig (sig scriptPubKey : bytes) (txTo : CTransaction) (nIn : Z) (pubkeys : list bytes)
    (sigs : list (bytes * bytes)) (cache : CSignatureCache) : list (bytes * bytes) * CSignatureCache :=
  match pubkeys with
  | [] => (sigs, cache)
  | pubkey :: r =>
    match sig_of sigs pubkey with
    | Some _ => assign_sig sig scriptPubKey txTo nIn r sigs cache
    | None =>
      let '(ok, cache) := CheckSig cache sig pubkey scriptPubKey txTo nIn 0 0 in
      if ok then ((pubkey, sig) :: sigs, cache) else assign_sig sig scriptPubKey txTo nIn r sigs cache
    end
  end.
Fixpoint assign_all (allsigs : list bytes) (scriptPubKey : bytes) (txTo : CTransaction) (nIn : Z)
    (pubkeys : list bytes) (sigs : list (bytes * bytes)) (cache : CSignatureCache)
    : list (bytes * bytes) * CSignatureCache :=
  match allsigs with
  | [] => (sigs, cache)
  | sig :: r =>
    let '(sigs, cache) := assign_sig sig scriptPubKey txTo nIn pubkeys sigs cache in
    assign_all r scriptPubKey txTo nIn pubkeys sigs cache
  end.

(** the signatures we have in the order of the keys, at most [nSigsRequired] *)
Fixpoint merge_sigs (pubkeys : list bytes) (sigs : list (bytes * bytes)) (nSigsHave nSigsRequired : Z)
    (result : bytes) : Z * bytes :=
  match pubkeys with
  | [] => (nSigsHave, result)
  | pubkey :: r =>
    if nSigsHave <? nSigsRequired then
      match sig_of sigs pubkey with
      | Some sig => merge_sigs r sigs (nSigsHave + 1) nSigsRequired (result ++ push_data sig)
      | None => merge_sigs r sigs nSigsHave nSigsRequired result
      end
    else (nSigsHave, result)
  end.

(** [None]: the assertion on the number of solutions fails *)
Definition CombineMultisig (scriptPubKey : bytes) (txTo : CTransaction) (nIn : Z) (vSolutions sigs1 sigs2 : list bytes)
    (cache : CSignatureCache) : option bytes * CSignatureCache :=
  let allsigs := insert_sigs (insert_sigs [] sigs1) sigs2 in
  if bool_decide (length vSolutions <= 1)%nat then (None, cache)
  else
    let nSigsRequired := front0 vSolutions in
    let pubkeys := inner vSolutions in
    let '(sigs, cache) := assign_all allsigs scriptPubKey txTo nIn pubkeys [] cache in
    let '(nSigsHave, result) := merge_sigs pubkeys sigs 0 nSigsRequired [OP_0] in
    (Some (result ++ replicate (Z.to_nat (nSigsRequired - nSigsHave)) OP_0), cache).

(** the stacks are given top first; each round of the recursion pops them *)
Fixpoint CombineStacks (fuel : nat) (scriptPubKey : bytes) (txTo : CTransaction) (nIn : Z) (txType : txnouttype)
    (vSolutions stack1 stack2 : list bytes) (cache : CSignatureCache) : option bytes * CSignatureCache :=
  match fuel with
  | O => (None, cache)
  | S f =>
    let sigs1 := rev stack1 in
    let sigs2 := rev stack2 in
    match txType with
    | TX_NONSTANDARD =>
      (Some (if bool_decide (length sigs2 <= length sigs1)%nat then PushAll sigs1 else PushAll sigs2), cache)
    | TX_PUBKEY | TX_PUBKEYHASH =>
      (Some (match sigs1 with
             | [] => PushAll sigs2
             | [] :: _ => PushAll sigs2
             | _ => PushAll sigs1
             end), cache)
    | TX_SCRIPTHASH =>
      match stack1, stack2 with
      | [], _ => (Some (PushAll sigs2), cache)
      | [] :: _, _ => (Some (PushAll sigs2), cache)
      | _, [] => (Some (PushAll sigs1), cache)
      | _, [] :: _ => (Some (PushAll sigs1), cache)
      | spk :: rest1, _ :: rest2 =>
        let '(_, txType2, vSolutions2) := Solver spk in
        let '(result, cache) := CombineStacks f spk txTo nIn txType2 vSolutions2 rest1 rest2 cache in
        (let? r := result in Some (r ++ push_data spk), cache)
      end
    | TX_MULTISIG => CombineMultisig scriptPubKey txTo nIn vSolutions sigs1 sigs2 cache
    end
  end.

Definition CombineSignatures (scriptPubKey : bytes) (txTo : CTransaction) (nIn : Z) (scriptSig1 scriptSig2 : bytes)
    (cache : CSignatureCache) : option bytes * CSignatureCache :=
  let '(_, txType, vSolutions) := Solver scriptPubKey in
  let '(_, stack1, cache) := EvalScript null_tx 0 SCRIPT_VERIFY_STRICTENC 0 [] scriptSig1 cache in
  let '(_, stack2, cache) := EvalScript null_tx 0 SCRIPT_VERIFY_STRICTENC 0 [] scriptSig2 cache in
  CombineStacks (S (length stack1)) scriptPubKey txTo nIn txType vSolutions stack1 stack2 cache.

End Sign.

(** ** The script compressor *)

Definition nSpecialScripts : Z := 6.

Definition IsToKeyID (script : bytes) : option bytes :=
  if bool_decide (length script = 25)%nat && (nth 0 script 0 =? OP_DUP) && (nth 1 script 0 =? OP_HASH160) &&
     (nth 2 script 0 =? 20) && (nth 23 script 0 =? OP_EQUALVERIFY) && (nth 24 script 0 =? OP_CHECKSIG)
  then Some (take 20 (drop 3 script)) else None.
Definition IsToScriptID (script : bytes) : option bytes :=
  if bool_decide (length script = 23)%nat && (nth 0 script 0 =? OP_HASH160) && (nth 1 script 0 =? 20) &&
     (nth 22 script 0 =? OP_EQUAL)
  then Some (take 20 (drop 2 script)) else None.

Section Compressor.
Context {K : Crypto}.

Definition IsToPubKey (script : bytes) : option bytes :=
  if bool_decide (length script = 35)%nat && (nth 0 script 0 =? 33) && (nth 34 script 0 =? OP_CHECKSIG) &&
     ((nth 1 script 0 =? 0x02) || (nth 1 script 0 =? 0x03))
  then Some (take 33 (drop 1 script))
  else if bool_decide (length script = 67)%nat && (nth 0 script 0 =? 65) && (nth 66 script 0 =? OP_CHECKSIG) &&
          (nth 1 script 0 =? 0x04)
  then let pubkey := take 65 (drop 1 script) in
       match SetPubKey pubkey with Some _ => Some pubkey | None => None end
  else None.

Definition Compress (script : bytes) : option bytes :=
  match IsToKeyID script with
  | Some keyID => Some (0x00 :: keyID)
  | None =>
    match IsToScriptID script with
    | Some scriptID => Some (0x01 :: scriptID)
    | None =>
      match IsToPubKey script with
      | Some pubkey =>
        let out := take 32 (drop 1 pubkey) in
        let b := nth 0 pubkey 0 in
        if (b =? 0x02) || (b =? 0x03) then Some (b :: out)
        else if b =? 0x04 then Some (Z.lor 0x04 (Z.land (nth 64 pubkey 0) 0x01) :: out)
        else None
      | None => None
      end
    end
  end.

Definition GetSpecialSize (nSize : Z) : Z :=
  if (nSize =? 0) || (nSize =? 1) then 20
  else if (nSize =? 2) || (nSize =? 3) || (nSize =? 4) || (nSize =? 5) then 32 else 0.

(** [None]: the script is left as it was *)
Definition Decompress (nSize : Z) (inp : bytes) : option bytes :=
  if nSize =? 0x00 then Some ([OP_DUP; OP_HASH160; 20] ++ take 20 inp ++ [OP_EQUALVERIFY; OP_CHECKSIG])
  else if nSize =? 0x01 then Some ([OP_HASH160; 20] ++ take 20 inp ++ [OP_EQUAL])
  else if (nSize =? 0x02) || (nSize =? 0x03) then Some ([33; nSize] ++ take 32 inp ++ [OP_CHECKSIG])
  else if (nSize =? 0x04) || (nSize =? 0x05) then
    let? key := SetPubKey ((nSize - 2) :: take 32 inp) in
    Some ([65] ++ take 65 (GetPubKey (SetCompressedPubKey key false)) ++ [OP_CHECKSIG])
  else None.

Definition compressor_size (script : bytes) : Z :=
  match Compress script with
  | Some compr => Z.of_nat (length compr)
  | None => let nSize := u32 (Z.of_nat (length script) + nSpecialScripts) in
            u32 (Z.of_nat (length script) + GetSizeOfVarInt 32 nSize)
  end.
Definition compressor_write (script : bytes) : bytes :=
  match Compress script with
  | Some compr => compr
  | None => WriteVarInt 32 (u32 (Z.of_nat (length script) + nSpecialScripts)) ++ script
  end.
(** [old]: the script before; it stays when a special encoding does not decompress *)
Definition compressor_read (old s : bytes) : option (bytes * bytes) :=
  let? (nSize, s) := ReadVarInt 32 s in
  if nSize <? nSpecialScripts then
    let? (vch, s) := read (Z.to_nat (GetSpecialSize nSize)) s in
    Some (default old (Decompress nSize vch), s)
  else read (Z.to_nat (nSize - nSpecialScripts)) s.

Definition ser_CScriptCompressor : codec bytes :=
  {| Serialize := compressor_write; Unserialize := compressor_read []; GetSerializeSize := compressor_size |}.
End Compressor.
#[export] Typeclasses Opaque ser_CScriptCompressor.

(** ** Reading the standard scripts *)

Lemma GetOp2_direct n h t : length h = n -> (0 < n < 76)%nat ->
  GetOp2 (Z.of_nat n :: h ++ t) = Some (Z.of_nat n, h, t).
Proof.
  intros Hl Hn. cbn [GetOp2]. unfold OP_PUSHDATA4, OP_PUSHDATA1.
  rewrite (proj2 (Z.leb_le _ 78)), (proj2 (Z.ltb_lt _ 76)) by lia.
  rewrite (proj2 (Z.ltb_ge _ _)) by (rewrite length_app; lia). rewrite Nat2Z.id.
  by rewrite take_app_length', drop_app_length'.
Qed.

Lemma GetOp2_op o t : OP_PUSHDATA4 < o -> GetOp2 (o :: t) = Some (o, [], t).
Proof. intros Ho. cbn [GetOp2]. by rewrite (proj2 (Z.leb_gt _ _)). Qed.

Definition p2pkh (h : bytes) : bytes := [OP_DUP; OP_HASH160; 20] ++ h ++ [OP_EQUALVERIFY; OP_CHECKSIG].
Definition p2sh (h : bytes) : bytes := [OP_HASH160; 20] ++ h ++ [OP_EQUAL].

Lemma SetDestination_forms id : SetDestination (CKeyID id) = p2pkh (uint160_bytes id) /\
  SetDestination (CScriptID id) = p2sh (uint160_bytes id).
Proof. done. Qed.

(** one round of the comparison on the cases the templates produce *)
Lemma match_end f v : match_template (S f) [] [] v = Some v.
Proof. done. Qed.

Lemma match_literal f o t1 t2 v : OP_PUSHDATA4 < o < OP_SMALLINTEGER ->
  match_template (S f) (o :: t1) (o :: t2) v = match_template f t1 t2 v.
Proof.
  intros Ho. cbn [match_template]. rewrite !GetOp2_op by lia.
  rewrite bool_decide_eq_false_2 by done. cbn [andb].
  unfold OP_PUBKEYS, OP_PUBKEY, OP_PUBKEYHASH, OP_SMALLINTEGER in *.
  rewrite !(proj2 (Z.eqb_neq o _)) by lia. by rewrite Z.eqb_refl, bool_decide_eq_true_2.
Qed.

Lemma match_pubkeyhash f h t1 t2 v : length h = 20%nat ->
  match_template (S f) (20 :: h ++ t1) (OP_PUBKEYHASH :: t2) v = match_template f t1 t2 (v ++ [h]).
Proof.
  intros Hh. cbn [match_template]. change 20 with (Z.of_nat 20). rewrite GetOp2_direct by (done || lia).
  rewrite GetOp2_op by done. rewrite bool_decide_eq_false_2 by done. cbn [andb].
  change (OP_PUBKEYHASH =? OP_PUBKEYS) with false. change (OP_PUBKEYHASH =? OP_PUBKEY) with false.
  change (OP_PUBKEYHASH =? OP_PUBKEYHASH) with true. cbn beta iota. by rewrite bool_decide_eq_true_2.
Qed.

(** the first instruction is an operation: the key template does not match *)
Lemma match_pubkey_op f o t1 t2 v : OP_PUSHDATA4 < o -> match_template (S f) (o :: t1) (OP_PUBKEY :: t2) v = None.
Proof.
  intros Ho. cbn [match_template]. rewrite !GetOp2_op by done. by rewrite bool_decide_eq_false_2.
Qed.

Lemma Solver_p2sh h : length h = 20%nat -> Solver (p2sh h) = (true, TX_SCRIPTHASH, [h]).
Proof.
  intros Hh. unfold Solver. rewrite (proj2 (IsPayToScriptHash_iff (p2sh h))) by (exists h; done).
  unfold p2sh. cbn [app]. change (drop 2 (OP_HASH160 :: 20 :: h ++ [OP_EQUAL])) with (h ++ [OP_EQUAL]).
  by rewrite take_app_length'.
Qed.

Lemma p2pkh_not_p2sh h : IsPayToScriptHash (p2pkh h) = false.
Proof.
  destruct (IsPayToScriptHash (p2pkh h)) eqn:E; [|done]. apply IsPayToScriptHash_iff in E as (h' & _ & E). discriminate E.
Qed.

Lemma Solver_p2pkh h : length h = 20%nat -> Solver (p2pkh h) = (true, TX_PUBKEYHASH, [h]).
Proof.
  intros Hh. unfold Solver. rewrite p2pkh_not_p2sh. unfold mTemplates, p2pkh. cbn [app scan_templates].
  rewrite match_pubkey_op by done.
  rewrite !length_cons, length_app. cbn [length Nat.add]. replace (length h + 2)%nat with (2 + length h)%nat by lia.
  cbn [Nat.add]. rewrite !match_literal, match_pubkeyhash, !match_literal by done. by rewrite match_end.
Qed.

(** ** Script signatures of pushes *)

Section Push.
Context {B : OpenSSLBN} {K : Crypto} {E : CacheEnv}.
Context (tx : CTransaction) (nIn flags ht : Z).

(** a machine outside conditionals *)
Definition running (s : list bytes) (code : bytes) (n : Z) : vm :=
  {| vm_stack := s; vm_altstack := []; vm_vfExec := []; vm_codehash := code; vm_nOpCount := n |}.

Lemma eval_loop_next f pc st c pc' st' c' : pc <> [] -> eval_step tx nIn flags ht pc st c = (Next (pc', st'), c') ->
  eval_loop tx nIn flags ht (S f) pc st c = eval_loop tx nIn flags ht f pc' st' c'.
Proof. intros Hp H. destruct pc; [done|]. cbn [eval_loop]. by rewrite H. Qed.

Lemma eval_loop_fail f pc st c s c' : pc <> [] -> eval_step tx nIn flags ht pc st c = (Fail s, c') ->
  eval_loop tx nIn flags ht (S f) pc st c = (false, s, c').
Proof. intros Hp H. destruct pc; [done|]. cbn [eval_loop]. by rewrite H. Qed.

Lemma not_disabled op : op <= 0x7d -> is_disabled op = false.
Proof.
  intros Hop. apply bool_decide_eq_false_2. intros H.
  assert (HF : Forall (Z.lt 0x7d) [OP_CAT; OP_SUBSTR; OP_LEFT; OP_RIGHT; OP_INVERT; OP_AND; OP_OR; OP_XOR; OP_2MUL;
    OP_2DIV; OP_MUL; OP_DIV; OP_MOD; OP_LSHIFT; OP_RSHIFT]) by (repeat constructor).
  rewrite Forall_forall in HF. apply HF in H. lia.
Qed.

Lemma eval_step_push b t s code n c : Z.of_nat (length b) <= MAX_SCRIPT_ELEMENT_SIZE ->
  (length s < 1000)%nat ->
  eval_step tx nIn flags ht (push_data b ++ t) (running s code n) c = (Next (t, running (b :: s) code n), c).
Proof.
  intros Hb Hs. destruct (GetOp2_push b t) as (op & Hop & Hr); [unfold MAX_SCRIPT_ELEMENT_SIZE in Hb; lia|].
  unfold eval_step. rewrite Hop. unfold OP_PUSHDATA4 in Hr.
  rewrite (proj2 (Z.ltb_ge _ _)) by lia. rewrite (proj2 (Z.ltb_ge OP_16 op)) by (unfold OP_16; lia). cbn [andb].
  assert (Hd : is_disabled op = false).
  { apply not_disabled. lia. }
  rewrite Hd. cbn [running vm_vfExec forallb andb vm_stack set_stack vm_altstack].
  rewrite (proj2 (Z.leb_le 0 op)), (proj2 (Z.leb_le op OP_PUSHDATA4)) by (unfold OP_PUSHDATA4; lia). cbn [andb].
  unfold set_stack, running. cbn [vm_stack vm_altstack vm_vfExec vm_codehash vm_nOpCount length].
  by rewrite (proj2 (Z.ltb_ge _ _)) by lia.
Qed.

(** running a script to its end *)
Definition run (pc : bytes) (st : vm) (c : CSignatureCache) : bool * list bytes * CSignatureCache :=
  eval_loop tx nIn flags ht (length pc) pc st c.

Lemma run_next pc st c pc' st' c' : eval_step tx nIn flags ht pc st c = (Next (pc', st'), c') ->
  run pc st c = run pc' st' c'.
Proof.
  intros H. unfold run. assert (Hne : pc <> []) by (intros ->; discriminate H). assert (Hl : (length pc' < length pc)%nat).
  { unfold eval_step in H. destruct (GetOp2 pc) as [[[op v] pc2]|] eqn:Eg; [|discriminate].
    apply GetOp2_shorter in Eg. repeat case_if_in H; try discriminate; repeat case_match; simplify_eq; done. }
  destruct pc as [|b pc]; [done|]. cbn [length]. rewrite (eval_loop_next _ _ _ _ _ _ _ Hne H).
  apply eval_loop_fuel; cbn in *; lia.
Qed.

Lemma run_fail pc st c s c' : eval_step tx nIn flags ht pc st c = (Fail s, c') -> pc <> [] -> run pc st c = (false, s, c').
Proof. intros H Hne. unfold run. destruct pc as [|b pc]; [done|]. by apply eval_loop_fail. Qed.

Lemma run_pushes l t s code n c : Forall (fun b => Z.of_nat (length b) <= MAX_SCRIPT_ELEMENT_SIZE) l ->
  (length l + length s <= 1000)%nat ->
  run (PushAll l ++ t) (running s code n) c = run t (running (rev l ++ s) code n) c.
Proof.
  intros Hl. revert s. induction Hl as [|b l Hb Hl IH]; intros s Hs; [done|].
  unfold PushAll in *. cbn [map concat]. rewrite <- app_assoc. cbn [length] in Hs.
  rewrite (run_next _ _ _ _ _ _ (eval_step_push b _ s code n c Hb ltac:(lia))).
  rewrite IH by (cbn [length]; lia). cbn [rev]. by rewrite <- app_assoc.
Qed.

(** an operation outside conditionals *)
Lemma run_op op t s code n c st' c' : OP_16 < op -> n < 201 -> is_disabled op = false ->
  exec_op tx nIn flags ht op true t (running s code (n + 1)) c = (Next st', c') ->
  Z.of_nat (length (vm_stack st')) + Z.of_nat (length (vm_altstack st')) <= 1000 ->
  run (op :: t) (running s code n) c = run t st' c'.
Proof.
  intros Ho Hn Hd Hx Hl. apply run_next. unfold OP_16 in *. unfold eval_step. rewrite GetOp2_op by (unfold OP_PUSHDATA4; lia).
  cbn [length]. change (MAX_SCRIPT_ELEMENT_SIZE <? Z.of_nat 0) with false. unfold OP_16. rewrite (proj2 (Z.ltb_lt _ op)) by lia.
  change (set_nOpCount (running s code n) (vm_nOpCount (running s code n) + 1)) with (running s code (n + 1)).
  rewrite (proj2 (Z.ltb_ge 201 _)) by (cbn; lia). cbn [andb]. rewrite Hd.
  change (forallb id (vm_vfExec (running s code n))) with true.
  rewrite (proj2 (Z.leb_gt op OP_PUSHDATA4)) by (unfold OP_PUSHDATA4; lia). rewrite andb_false_r. cbn [orb].
  rewrite Hx. by rewrite (proj2 (Z.ltb_ge _ _)) by lia.
Qed.

Lemma run_op_fail op t s code n c s' c' : OP_16 < op -> n < 201 -> is_disabled op = false ->
  exec_op tx nIn flags ht op true t (running s code (n + 1)) c = (Fail s', c') ->
  run (op :: t) (running s code n) c = (false, s', c').
Proof.
  intros Ho Hn Hd Hx. apply run_fail; [|done]. unfold OP_16 in *. unfold eval_step. rewrite GetOp2_op by (unfold OP_PUSHDATA4; lia).
  cbn [length]. change (MAX_SCRIPT_ELEMENT_SIZE <? Z.of_nat 0) with false. unfold OP_16. rewrite (proj2 (Z.ltb_lt _ op)) by lia.
  change (set_nOpCount (running s code n) (vm_nOpCount (running s code n) + 1)) with (running s code (n + 1)).
  rewrite (proj2 (Z.ltb_ge 201 _)) by (cbn; lia). cbn [andb]. rewrite Hd.
  change (forallb id (vm_vfExec (running s code n))) with true.
  rewrite (proj2 (Z.leb_gt op OP_PUSHDATA4)) by (unfold OP_PUSHDATA4; lia). rewrite andb_false_r. cbn [orb].
  by rewrite Hx.
Qed.

Lemma run_end s code n c : run [] (running s code n) c = (true, s, c).
Proof. done. Qed.

Lemma push_data_length b : (length (push_data b) <= length b + 5)%nat.
Proof. unfold push_data. rewrite length_app. repeat case_if; cbn [length]; rewrite ?length_le_bytes; lia. Qed.

Lemma EvalScript_run s script c : Z.of_nat (length script) <= 10000 ->
  EvalScript tx nIn flags ht s script c = run script (running s script 0) c.
Proof. intros H. unfold EvalScript. by rewrite (proj2 (Z.ltb_ge _ _)) by lia. Qed.

Lemma EvalScript_pushes l s c : Forall (fun b => Z.of_nat (length b) <= MAX_SCRIPT_ELEMENT_SIZE) l ->
  (length l + length s <= 1000)%nat -> Z.of_nat (length (PushAll l)) <= 10000 ->
  EvalScript tx nIn flags ht s (PushAll l) c = (true, rev l ++ s, c).
Proof.
  intros Hl Hs Hlen. rewrite EvalScript_run by done. rewrite <- (app_nil_r (PushAll l)) at 1.
  by rewrite run_pushes by done.
Qed.

End Push.

(** ** The two standard evaluations *)

Section StandardEval.
Context {B : OpenSSLBN} {K : Crypto} {KL : CryptoLaws K} {E : CacheEnv}.
Context (tx : CTransaction) (nIn flags ht : Z).

Definition hash160 (v : bytes) : bytes := RIPEMD160 (SHA256 v).

Lemma push20 h : length h = 20%nat -> push_data h = 20 :: h.
Proof. intros Hh. unfold push_data. rewrite Hh. done. Qed.

Lemma run_hash160_push x h t s code c n : length h = 20%nat -> (length s < 900)%nat -> n < 201 ->
  run tx nIn flags ht (OP_HASH160 :: 20 :: h ++ t) (running (x :: s) code n) c =
  run tx nIn flags ht t (running (h :: hash160 x :: s) code (n + 1)) c.
Proof.
  intros Hh Hs Hn. rewrite (run_op _ _ _ _ OP_HASH160 _ _ _ _ _ (running (hash160 x :: s) code (n + 1)) c);
    [|done|done|done| |cbn; lia].
  - replace (20 :: h ++ t) with (PushAll [h] ++ t) by (unfold PushAll; cbn [map concat]; by rewrite push20, app_nil_r).
    rewrite run_pushes; [done| |cbn; lia]. constructor; [|constructor]. unfold MAX_SCRIPT_ELEMENT_SIZE. lia.
  - change (exec_op tx nIn flags ht OP_HASH160 true (20 :: h ++ t) (running (x :: s) code (n + 1)) c)
      with (lift (running (x :: s) code (n + 1)) (Next (uint160_bytes (Hash160 x) :: s)), c).
    unfold hash160. by rewrite Hash160_uint160.
Qed.

Lemma eval_p2pkh h pubkey sig c : length h = 20%nat ->
  let code := (FindAndDelete (p2pkh h) (push_data sig)).2 in
  let o := check_one tx nIn flags ht c sig pubkey code in
  EvalScript tx nIn flags ht [pubkey; sig] (p2pkh h) c =
    if bool_decide (hash160 pubkey = h) then (true, [vchBool o.1], o.2) else (false, [vchFalse; pubkey; sig], c).
Proof.
  intros Hh code o. assert (Hlen : Z.of_nat (length (p2pkh h)) <= 10000).
  { unfold p2pkh. rewrite !length_app, Hh. cbn. lia. }
  rewrite EvalScript_run by done. set (script := p2pkh h) at 2. unfold p2pkh. cbn [app].
  rewrite (run_op _ _ _ _ OP_DUP _ _ _ _ _ (running [pubkey; pubkey; sig] script 1) c); [|done|done|done|done|cbn; lia].
  rewrite run_hash160_push by (done || (cbn; lia)). change (1 + 1) with 2.
  case_bool_decide as Eh.
  - rewrite (run_op _ _ _ _ OP_EQUALVERIFY _ _ _ _ _ (running [pubkey; sig] script 3) c); [|done|done|done| |cbn; lia].
    2:{ change (exec_op tx nIn flags ht OP_EQUALVERIFY true [OP_CHECKSIG] (running [h; hash160 pubkey; pubkey; sig] script (2 + 1)) c)
          with (lift (running [h; hash160 pubkey; pubkey; sig] script 3)
                  (push_result true (bool_decide (hash160 pubkey = h)) [pubkey; sig]), c).
        by rewrite bool_decide_eq_true_2. }
    rewrite (run_op _ _ _ _ OP_CHECKSIG _ _ _ _ _ (running [vchBool o.1] script 4) o.2); [|done|done|done| |cbn; lia].
    2:{ change (exec_op tx nIn flags ht OP_CHECKSIG true [] (running [pubkey; sig] script (3 + 1)) c)
          with (let '(r, c') := (let '(f, c') := check_one tx nIn flags ht c sig pubkey code in (push_result false f [], c'))
                in (lift (running [pubkey; sig] script 4) r, c')).
        subst o. by destruct (check_one _ _ _ _ _ _ _ _). }
    apply run_end.
  - apply run_op_fail; try done.
    change (exec_op tx nIn flags ht OP_EQUALVERIFY true [OP_CHECKSIG] (running [h; hash160 pubkey; pubkey; sig] script (2 + 1)) c)
      with (lift (running [h; hash160 pubkey; pubkey; sig] script 3)
              (push_result true (bool_decide (hash160 pubkey = h)) [pubkey; sig]), c).
    by rewrite bool_decide_eq_false_2.
Qed.

Lemma eval_p2sh h x s c : length h = 20%nat -> (length s < 900)%nat ->
  EvalScript tx nIn flags ht (x :: s) (p2sh h) c = (true, vchBool (bool_decide (hash160 x = h)) :: s, c).
Proof.
  intros Hh Hs. rewrite EvalScript_run by (unfold p2sh; rewrite !length_app, Hh; cbn; lia).
  set (script := p2sh h) at 2. unfold p2sh. cbn [app]. rewrite run_hash160_push by (done || lia).
  rewrite (run_op _ _ _ _ OP_EQUAL _ _ _ _ _ (running (vchBool (bool_decide (hash160 x = h)) :: s) script 2) c);
    [by rewrite run_end|done|done|done|done|cbn; lia].
Qed.

Lemma eval_p2sh_empty h c : length h = 20%nat -> (EvalScript tx nIn flags ht [] (p2sh h) c).1.1 = false.
Proof.
  intros Hh. rewrite EvalScript_run by (unfold p2sh; rewrite !length_app, Hh; cbn; lia).
  unfold p2sh at 1. cbn [app]. by rewrite (run_op_fail _ _ _ _ OP_HASH160 _ _ _ _ _ [] c).
Qed.

Lemma IsPushOnly_PushAll l : Forall (fun b => Z.of_nat (length b) < 2 ^ 32) l -> IsPushOnly (PushAll l) = true.
Proof.
  intros Hl. unfold IsPushOnly. assert (H : forall f, (length (PushAll l) <= f)%nat -> IsPushOnly_loop f (PushAll l) = true); [|by apply H].
  induction Hl as [|b l Hb Hl IH]; intros f Hf; [by destruct f|].
  unfold PushAll in *. cbn [map concat] in *. rewrite length_app in Hf.
  destruct (GetOp2_push b (concat (map push_data l)) Hb) as (op & Hop & Hr).
  destruct (push_data b ++ concat (map push_data l)) as [|o pc] eqn:Ep.
  { by destruct f. }
  assert (Hne : (0 < length (push_data b))%nat).
  { pose proof (one_op_nonempty _ (push_one_op b Hb)). destruct (push_data b); [done|cbn; lia]. }
  destruct f as [|f]; [lia|]. cbn [IsPushOnly_loop]. rewrite Hop. unfold OP_16, OP_PUSHDATA4 in *.
  rewrite (proj2 (Z.ltb_ge _ _)) by lia. apply IH. lia.
Qed.

End StandardEval.

(** ** The compressor *)

Lemma snoc_nth n (s : bytes) : length s = S n -> s = take n s ++ [nth n s 0].
Proof.
  revert s. induction n as [|n IH]; intros [|x s] Hs; try done; cbn in *.
  - by destruct s.
  - f_equal. apply IH. lia.
Qed.

Lemma ends_nth n (s : bytes) : length s = S (S n) -> s = nth 0 s 0 :: take n (drop 1 s) ++ [nth (S n) s 0].
Proof. intros Hs. destruct s as [|x s]; [done|]. cbn [nth drop]. f_equal. apply snoc_nth. cbn in Hs. lia. Qed.

Tactic Notation "cut_list" hyp(s) integer(n) :=
  do n (destruct s as [|? s]; [cbn in *; lia|]); destruct s; [|cbn in *; lia].

Lemma IsToKeyID_Some s h : IsToKeyID s = Some h -> s = p2pkh h /\ length h = 20%nat.
Proof.
  unfold IsToKeyID. intros H. case_if_in H; [|done]. injection H as <-. b2p.
  cut_list s 25. cbn in *. by simplify_eq.
Qed.

Lemma IsToScriptID_Some s h : IsToScriptID s = Some h -> s = p2sh h /\ length h = 20%nat.
Proof.
  unfold IsToScriptID. intros H. case_if_in H; [|done]. injection H as <-. b2p.
  cut_list s 23. cbn in *. by simplify_eq.
Qed.

Section CompressorLaws.
Context {K : Crypto} {KL : CryptoLaws K}.

(** the two forms of a script that pays to a public key *)
Definition p2pk (k : bytes) : bytes := Z.of_nat (length k) :: k ++ [OP_CHECKSIG].

Lemma ends_p2pk n s : length s = (n + 3)%nat -> nth 0 s 0 = Z.of_nat (S n) -> nth (S (S n)) s 0 = OP_CHECKSIG ->
  let k := take (S n) (drop 1 s) in
  s = p2pk k /\ length k = S n /\ nth 0 k 0 = nth 1 s 0.
Proof.
  intros Hl H0 H1 k. assert (Hk : length k = S n) by (unfold k; rewrite length_take, length_drop; lia).
  split_and!; [|done|].
  - rewrite (ends_nth (S n) s) at 1 by lia. unfold p2pk. by rewrite Hk, H0, H1.
  - unfold k. destruct s as [|x [|y s]]; done.
Qed.

Lemma IsToPubKey_Some s k : IsToPubKey s = Some k -> s = p2pk k /\
  (length k = 33%nat /\ (nth 0 k 0 = 2 \/ nth 0 k 0 = 3) \/
   length k = 65%nat /\ nth 0 k 0 = 4 /\ is_Some (o2i_ECPublicKey k)).
Proof.
  unfold IsToPubKey. intros H. case_if_in H; [|case_if_in H; [|done]].
  - injection H as <-. b2p. destruct (ends_p2pk 32 s) as (Hs & Hk & Hn); [done..|].
    split; [exact Hs|]. left. rewrite Hn. destruct H0; b2p; auto.
  - destruct (SetPubKey (take 65 (drop 1 s))) as [key|] eqn:Ek; [|discriminate H].
    clear E. b2p. destruct (ends_p2pk 64 s) as (Hs & Hk & Hn); [done..|].
    assert (Hkk : k = take 65 (drop 1 s)) by (unfold SetPubKey in *; congruence). subst k.
    split; [exact Hs|]. right. rewrite Hn. split_and!; [done..|].
    unfold SetPubKey in Ek. destruct (o2i_ECPublicKey _); [eauto|discriminate Ek].
Qed.

Lemma Decompress_uncompressed k : length k = 65%nat -> nth 0 k 0 = 4 -> all_bytes k -> is_Some (o2i_ECPublicKey k) ->
  let b := Z.lor 0x04 (Z.land (nth 64 k 0) 0x01) in
  (b = 4 \/ b = 5) /\ Decompress b (take 32 (drop 1 k)) = Some (p2pk k).
Proof.
  intros Hl H4 Hk [p Hp] b. assert (Hi : i2o_ECPublicKey p false = k).
  { apply i2o_o2i; [done..| |done]. by destruct k. }
  pose proof (i2o_forms p) as Hf. rewrite Hi in Hf.
  assert (Hb : b = 4 + nth 64 k 0 mod 2).
  { unfold b. change 1 with (2 ^ 1 - 1) at 1. rewrite land_mask by lia. change (2 ^ 1) with 2.
    pose proof (Z.mod_pos_bound (nth 64 k 0) 2). assert (Hc : nth 64 k 0 mod 2 = 0 \/ nth 64 k 0 mod 2 = 1) by lia.
    by destruct Hc as [-> | ->]. }
  pose proof (Z.mod_pos_bound (nth 64 k 0) 2). split; [lia|].
  unfold Decompress. rewrite !(proj2 (Z.eqb_neq b _)) by lia. cbn [orb].
  assert (Hor : (b =? 4) || (b =? 5) = true).
  { apply orb_true_iff. rewrite !Z.eqb_eq. lia. }
  change (b =? 0x04) with (b =? 4) in *. change (b =? 0x05) with (b =? 5) in *.
  rewrite Hor. rewrite take_take, Nat.min_id. replace (b - 2) with (2 + nth 64 k 0 mod 2) by lia.
  unfold SetPubKey. rewrite <- Hf, o2i_i2o.
  unfold GetPubKey, SetCompressedPubKey. cbn [key_point key_form]. rewrite Hi.
  rewrite take_ge by lia. unfold p2pk. by rewrite Hl.
Qed.

(** a special encoding is a head below 6 and as many bytes as [GetSpecialSize] says, and decompresses *)
Lemma Compress_Some s c : all_bytes s -> Compress s = Some c -> exists b r, c = b :: r /\ 0 <= b < nSpecialScripts /\
  length r = Z.to_nat (GetSpecialSize b) /\ Decompress b r = Some s /\ all_bytes r.
Proof.
  intros Ha H. unfold Compress in H. destruct (IsToKeyID s) as [h|] eqn:E1.
  { apply IsToKeyID_Some in E1 as [-> Hh]. injection H as <-. exists 0, h.
    unfold p2pkh in Ha. rewrite !all_bytes_app in Ha. split_and!; [done..| |by apply Ha].
    unfold Decompress. by rewrite take_ge by lia. }
  destruct (IsToScriptID s) as [h|] eqn:E2.
  { apply IsToScriptID_Some in E2 as [-> Hh]. injection H as <-. exists 1, h.
    unfold p2sh in Ha. rewrite !all_bytes_app in Ha. split_and!; [done..| |by apply Ha].
    unfold Decompress. by rewrite take_ge by lia. }
  destruct (IsToPubKey s) as [k|] eqn:E3; [|discriminate H]. apply IsToPubKey_Some in E3 as [-> Hk].
  assert (Hb : all_bytes k).
  { unfold p2pk in Ha. apply Forall_cons in Ha as [_ Ha]. apply (all_bytes_app k) in Ha as [Ha _]. exact Ha. }
  destruct Hk as [[Hl Hn]|(Hl & Hn & Hp)].
  - assert (Hcase : (nth 0 k 0 =? 2) || (nth 0 k 0 =? 3) = true) by (rewrite orb_true_iff, !Z.eqb_eq; lia).
    change 0x02 with 2 in H. change 0x03 with 3 in H. rewrite Hcase in H. injection H as <-.
    exists (nth 0 k 0), (take 32 (drop 1 k)).
    split_and!; [done|destruct Hn as [-> | ->]; done..| | |eauto with prime].
    + rewrite length_take, length_drop, Hl. by destruct Hn as [-> | ->].
    + destruct k as [|x t]; [done|]. cbn [nth drop] in *. unfold Decompress, p2pk. cbn [length] in *.
      rewrite drop_0. destruct Hn as [-> | ->]; cbn [Z.eqb Pos.eqb orb]; rewrite !take_ge by (rewrite ?length_take; lia);
        replace (length t) with 32%nat by lia; done.
  - rewrite Hn in H. injection H as <-. destruct (Decompress_uncompressed k) as [Hc Hd]; [done..|].
    eexists _, _. split; [reflexivity|]. split_and!; [unfold nSpecialScripts; lia..| |exact Hd|eauto with prime].
    rewrite length_take, length_drop, Hl. by destruct Hc as [-> | ->].
Qed.

Lemma ReadVarInt_small n s : 0 <= n < 128 -> ReadVarInt 32 (n :: s) = Some (n, s).
Proof.
  intros Hn. pose proof (ReadVarInt_digits 32 ltac:(lia) n [] s Hn (List.Forall_nil _)) as H.
  cbn [rev app tmp_value prefix_value] in H. change 0x7F with (2 ^ 7 - 1) in H. rewrite land_mask, Z.mod_small in H by lia.
  rewrite H by lia. do 2 f_equal. lia.
Qed.

Lemma Compress_hash h : length h = 20%nat -> Compress (p2pkh h) = Some (0 :: h) /\ Compress (p2sh h) = Some (1 :: h).
Proof. intros Hh. cut_list h 20. done. Qed.

Lemma varint_size_bound n : (length (WriteVarInt 32 n) <= 32)%nat.
Proof.
  unfold WriteVarInt. rewrite length_rev. assert (H : forall fuel n len, (length (varint_tmp 32 fuel n len) <= fuel)%nat).
  { induction fuel as [|f IH]; intros m len; [done|]. cbn [varint_tmp]. case_if; cbn [length]; [lia|].
    apply le_n_S, IH. }
  apply H.
Qed.

#[export] Instance ser_CScriptCompressor_lawful : Lawful ser_CScriptCompressor (sized is_byte).
Proof.
  assert (Hv : Lawful (ser_varint 32) (fun n => 0 <= n < 2 ^ 32)) by (apply varint_lawful; lia).
  split; cbn [Serialize Unserialize GetSerializeSize ser_CScriptCompressor];
    unfold compressor_write, compressor_read, compressor_size; [intros x rest|intros x|intros x];
    intros [Hx Hl]; unfold MAX_SIZE in Hl; destruct (Compress x) as [c|] eqn:Ec.
  all: try (apply Compress_Some in Ec as (b & r & -> & Hb & Hr & Hd & Hra); [|done]; unfold nSpecialScripts in Hb).
  all: try rewrite (u32_small (_ + nSpecialScripts)) by (unfold nSpecialScripts; lia).
  - cbn [app]. rewrite ReadVarInt_small by lia. rewrite (proj2 (Z.ltb_lt _ _)) by (unfold nSpecialScripts; lia).
    by rewrite read_app, Hd by done.
  - unfold nSpecialScripts. pose proof (ser_roundtrip (c := ser_varint 32) (Z.of_nat (length x) + 6) (x ++ rest)) as Hs.
    cbn [Serialize Unserialize ser_varint] in Hs. rewrite <- app_assoc, Hs by lia.
    rewrite (proj2 (Z.ltb_ge _ _)) by lia. apply read_app. lia.
  - symmetry. apply u32_small. cbn [length]. rewrite Hr. assert (GetSpecialSize b <= 32) by (unfold GetSpecialSize; repeat case_if; lia).
    lia.
  - unfold nSpecialScripts. pose proof (ser_size (c := ser_varint 32) (Z.of_nat (length x) + 6)) as Hs.
    cbn [Serialize GetSerializeSize ser_varint] in Hs. rewrite Hs, length_app by lia.
    rewrite u32_add_r. f_equal. lia.
  - constructor; [unfold is_byte; lia|done].
  - apply all_bytes_app. split; [|done]. apply (ser_bytes (c := ser_varint 32)). unfold nSpecialScripts. lia.
Qed.

End CompressorLaws.

(** ** Properties *)

Section StdProperties.
Context {B : OpenSSLBN} {K : Crypto} {KL : CryptoLaws K} {E : CacheEnv}.

Definition push_sizes (l : list bytes) : Prop :=
  Forall (fun b => Z.of_nat (length b) <= MAX_SCRIPT_ELEMENT_SIZE) l /\ (length l <= 100)%nat /\
  Z.of_nat (length (PushAll l)) <= 10000.

(** C13: Paying to a public key hash: a script signature that pushes a signature and a public key unlocks
    the standard script for hash [h] exactly when the key hashes to [h] and the signature, canonically
    encoded if the flags ask for it, is valid under that key for the transaction with the script (less
    any copy of the signature) as script code. *)
Theorem VerifyScript_p2pkh sig pubkey h tx nIn flags nHashType cache
    (Hs : push_sizes [sig; pubkey]) (Hh : length h = 20%nat) (Hc : cache_sound cache) :
  (VerifyScript (PushAll [sig; pubkey]) (p2pkh h) tx nIn flags nHashType cache).1 =
  Some (bool_decide (hash160 pubkey = h) &&
        check_pure tx nIn flags nHashType sig pubkey (FindAndDelete (p2pkh h) (push_data sig)).2).
Proof.
  destruct Hs as (H1 & H2 & H3). unfold VerifyScript.
  rewrite EvalScript_pushes by (done || (cbn; lia)). cbn [negb rev app].
  rewrite eval_p2pkh by done. case_bool_decide; [|done]. cbn [negb andb].
  set (code := (FindAndDelete _ _).2).
  destruct (check_one_eq tx nIn flags nHashType cache sig pubkey code Hc) as [-> _].
  rewrite p2pkh_not_p2sh, andb_false_r. by destruct (check_pure _ _ _ _ _ _ _).
Qed.

(** C14: Paying to a script hash: with the P2SH flag, a script signature of pushes whose last element is
    [sub] unlocks the script for hash [h] exactly when [sub] hashes to [h] and, run as a script on the
    other pushed elements, succeeds with a true value on top. *)
Theorem VerifyScript_p2sh l sub h tx nIn flags nHashType cache
    (Hs : push_sizes (l ++ [sub])) (Hh : length h = 20%nat) (Hf : has_flag flags SCRIPT_VERIFY_P2SH = true) :
  (VerifyScript (PushAll (l ++ [sub])) (p2sh h) tx nIn flags nHashType cache).1 =
  Some (bool_decide (hash160 sub = h) &&
        match EvalScript tx nIn flags nHashType (rev l) sub cache with
        | (true, top :: _, _) => CastToBool top
        | _ => false
        end).
Proof.
  destruct Hs as (H1 & H2 & H3). unfold VerifyScript. rewrite Hf.
  rewrite EvalScript_pushes by (done || (cbn; lia)). rewrite rev_app_distr, app_nil_r. cbn [negb rev app].
  rewrite eval_p2sh by (done || (rewrite length_rev; rewrite length_app in H2; cbn in H2; lia)). cbn [negb].
  case_bool_decide; cbn [vchBool andb]; [|done]. change (CastToBool vchTrue) with true. cbn [negb].
  rewrite (proj2 (IsPayToScriptHash_iff (p2sh h))) by (exists h; done). cbn [andb].
  rewrite IsPushOnly_PushAll.
  2:{ eapply Forall_impl; [exact H1|]. intros b Hb; cbn in *. unfold MAX_SCRIPT_ELEMENT_SIZE in Hb. lia. }
  cbn [negb]. destruct (EvalScript _ _ _ _ (rev l) sub cache) as [[[] [|top ?]] ?]; done.
Qed.

(** there is always a verdict *)
Lemma VerifyScript_total scriptSig scriptPubKey tx nIn flags nHashType cache :
  exists b, (VerifyScript scriptSig scriptPubKey tx nIn flags nHashType cache).1 = Some b.
Proof.
  unfold VerifyScript. destruct (EvalScript _ _ _ _ [] scriptSig cache) as [[ok stack] c1].
  destruct ok; cbn [negb]; [|by exists false].
  destruct (EvalScript _ _ _ _ stack scriptPubKey c1) as [[ok2 stack2] c2] eqn:E2.
  destruct ok2; cbn [negb]; [|by exists false]. destruct stack2 as [|top ?]; [by exists false|].
  destruct (CastToBool top); cbn [negb]; [|by exists false].
  destruct (has_flag flags SCRIPT_VERIFY_P2SH); cbn [andb]; [|by exists true].
  destruct (IsPayToScriptHash scriptPubKey) eqn:Ep; [|by exists true].
  destruct (IsPushOnly scriptSig); cbn [negb]; [|by exists false].
  destruct stack as [|x stack].
  - apply IsPayToScriptHash_iff in Ep as (h & Hh & ->).
    pose proof (eval_p2sh_empty tx nIn flags nHashType h c1 Hh) as Hf. unfold p2sh in Hf. cbn [app] in Hf.
    rewrite E2 in Hf. discriminate Hf.
  - destruct (EvalScript _ _ _ _ stack x c2) as [[[] [|y ?]] c3]; eexists; reflexivity.
Qed.

(** The assertion of [VerifyScript] that the copied stack is not empty never fails: for every script
    signature, script, flags and cache there is a verdict. *)
Theorem VerifyScript_assert scriptSig scriptPubKey tx nIn flags nHashType cache :
  exists b, (VerifyScript scriptSig scriptPubKey tx nIn flags nHashType cache).1 = Some b.
Proof. apply VerifyScript_total. Qed.

(** Destinations round trip through scripts: the script that [SetDestination] writes for a key or
    script identifier is recognised by [Solver], and [ExtractDestination] and [ExtractDestinations] give
    the identifier back. *)
Theorem ExtractDestination_SetDestination id (Hid : 0 <= id < 2 ^ 160) :
  ExtractDestination (SetDestination (CKeyID id)) = Some (CKeyID id) /\
  ExtractDestination (SetDestination (CScriptID id)) = Some (CScriptID id) /\
  ExtractDestinations (SetDestination (CKeyID id)) = (true, TX_PUBKEYHASH, [CKeyID id], Some 1) /\
  ExtractDestinations (SetDestination (CScriptID id)) = (true, TX_SCRIPTHASH, [CScriptID id], Some 1) /\
  IsStandard (SetDestination (CKeyID id)) = true /\ IsStandard (SetDestination (CScriptID id)) = true.
Proof.
  destruct (SetDestination_forms id) as [-> ->].
  assert (Hl : length (uint160_bytes id) = 20%nat) by apply length_le_bytes.
  assert (E1 : ExtractDestination (p2pkh (uint160_bytes id)) = Some (CKeyID id)).
  { unfold ExtractDestination. rewrite Solver_p2pkh by done. cbn [negb nth]. by rewrite uint160_of_bytes. }
  assert (E2 : ExtractDestination (p2sh (uint160_bytes id)) = Some (CScriptID id)).
  { unfold ExtractDestination. rewrite Solver_p2sh by done. cbn [negb nth]. by rewrite uint160_of_bytes. }
  unfold ExtractDestinations, IsStandard. rewrite E1, E2, Solver_p2pkh, Solver_p2sh by done. done.
Qed.

(** The script compressor loses nothing: every byte script below the size limit is read back, with the
    size announced; payments to a key hash, a script hash or a valid public key take 21, 21 and 33 bytes;
    what decompresses from a special encoding is restored exactly, public key bytes included. *)
Theorem CScriptCompressor_roundtrip script rest (Hs : sized is_byte script) :
  Unserialize ser_CScriptCompressor (Serialize ser_CScriptCompressor script ++ rest) = Some (script, rest) /\
  GetSerializeSize ser_CScriptCompressor script = Z.of_nat (length (Serialize ser_CScriptCompressor script)) /\
  (forall h, length h = 20%nat -> script = p2pkh h \/ script = p2sh h ->
     length (Serialize ser_CScriptCompressor script) = 21%nat) /\
  (forall c, Compress script = Some c -> exists nSize vch, c = nSize :: vch /\ 0 <= nSize < nSpecialScripts /\
     length vch = Z.to_nat (GetSpecialSize nSize) /\ Decompress nSize vch = Some script).
Proof.
  split_and!.
  - by apply ser_roundtrip.
  - rewrite ser_size by done. cbn [Serialize ser_CScriptCompressor]. unfold compressor_write. destruct Hs as [Ha Hl].
    unfold MAX_SIZE in Hl. destruct (Compress script) as [c|] eqn:Ec.
    + apply Compress_Some in Ec as (b & r & -> & _ & Hr & _); [|done]. apply u32_small. cbn [length].
      assert (GetSpecialSize b <= 32) by (unfold GetSpecialSize; repeat case_if; lia). lia.
    + apply u32_small. rewrite length_app. pose proof (varint_size_bound (u32 (Z.of_nat (length script) + nSpecialScripts))). lia.
  - intros h Hh Hsc. cbn [Serialize ser_CScriptCompressor]. unfold compressor_write.
    destruct (Compress_hash h Hh) as [E1 E2]. destruct Hsc as [-> | ->]; rewrite ?E1, ?E2; cbn [length]; lia.
  - intros c Hc. apply Compress_Some in Hc as (b & r & -> & Hb & Hr & Hd & _); [eauto 6|apply Hs].
Qed.

End StdProperties.

(** ** Witnesses *)

(** a two-byte signature and a one-byte key, and the hash of the key *)
Definition small_hash : bytes := hash160 (K := ToyCrypto) [3].

Lemma small_push_sizes : push_sizes [[1; 2]; [3]].
Proof. unfold push_sizes. apply (bool_decide_unpack _). vm_compute. exact I. Qed.

Lemma VerifyScript_p2pkh_witness :
  (VerifyScript (B := ZBN) (K := ToyCrypto) (PushAll [[1; 2]; [3]]) (p2pkh small_hash) sample_tx 0 0 0 empty_cache).1 =
  Some (bool_decide (hash160 (K := ToyCrypto) [3] = small_hash) &&
        check_pure (K := ToyCrypto) sample_tx 0 0 0 [1; 2] [3] (FindAndDelete (p2pkh small_hash) (push_data [1; 2])).2).
Proof.
  apply (VerifyScript_p2pkh (B := ZBN) (K := ToyCrypto)); [apply small_push_sizes|reflexivity|apply empty_cache_sound].
Defined.

Lemma VerifyScript_p2sh_witness :
  (VerifyScript (B := ZBN) (K := ToyCrypto) (PushAll ([] ++ [[0x51]])) (p2sh (hash160 (K := ToyCrypto) [0x51]))
     sample_tx 0 SCRIPT_VERIFY_P2SH 0 empty_cache).1 = Some true.
Proof.
  rewrite (VerifyScript_p2sh (B := ZBN) (K := ToyCrypto)).
  - rewrite bool_decide_eq_true_2 by reflexivity. vm_compute. reflexivity.
  - unfold push_sizes. apply (bool_decide_unpack _). vm_compute. exact I.
  - reflexivity.
  - reflexivity.
Defined.

Lemma VerifyScript_assert_witness : exists b,
  (VerifyScript (B := ZBN) (K := ToyCrypto) [] (p2sh small_hash) sample_tx 0 SCRIPT_VERIFY_P2SH 0 empty_cache).1 = Some b.
Proof. apply (VerifyScript_assert (B := ZBN) (K := ToyCrypto)). Defined.

Lemma ExtractDestination_SetDestination_witness : ExtractDestination (K := ToyCrypto) (SetDestination (CKeyID 7)) = Some (CKeyID 7).
Proof. apply (ExtractDestination_SetDestination (K := ToyCrypto) 7). lia. Defined.

Lemma CScriptCompressor_roundtrip_witness :
  Unserialize (ser_CScriptCompressor (K := ToyCrypto))
    (Serialize (ser_CScriptCompressor (K := ToyCrypto)) (p2sh (replicate 20 7)) ++ [5]) = Some (p2sh (replicate 20 7), [5]).
Proof.
  refine (proj1 (CScriptCompressor_roundtrip (K := ToyCrypto) (p2sh (replicate 20 7)) [5] _)). split.
  - apply all_bytes_dec. reflexivity.
  - vm_compute. discriminate.
Defined.
