(* ===== verification/KeyStore.v ===== *)
(** * Key stores and their encryption (crypter.cpp, keystore.cpp, wallet.cpp)

    [CCrypter] over the AES and key derivation functions of OpenSSL (the class [Cipher]), [CBasicKeyStore] and [CCryptoKeyStore] as one record, and
    the operations of [CWallet] on the passphrase.  Secrets of 32 bytes and flags are as the maps hold them; a key that the caller gets is a
    [CSecretKey].  The listeners, the locks of memory pages and the database are left out; the number of rounds that the timing of the key
    derivation gives is an argument.  The properties: the store, encrypted or not, stands for one map from key names to keys, which locking hides
    and unlocking shows again; so the encrypted wallet signs as the plain one did. *)

From stdpp Require Import gmap sorting.
From S2P Require Import Prelude OpenSSL BigNum Serialize Crypto Script Transaction ScriptEval ScriptStd.
Import SigCache.
Local Open Scope Z_scope.

(** ** The cipher (crypter.cpp) *)

Definition WALLET_CRYPTO_KEY_SIZE : nat := 32.
Definition WALLET_CRYPTO_SALT_SIZE : nat := 8.

(** EVP(3): AES-256 in CBC mode with padding, and the derivation of a key and an initialization vector from a passphrase with SHA-512 *)
Class Cipher := {
  EVP_Encrypt : bytes -> bytes -> bytes -> option bytes;
  EVP_Decrypt : bytes -> bytes -> bytes -> option bytes;
  EVP_BytesToKey : bytes -> bytes -> Z -> option (bytes * bytes);
}.
Class CipherLaws (C : Cipher) : Prop := {
  EVP_Encrypt_total key iv p : length key = 32%nat -> length iv = 16%nat -> is_Some (EVP_Encrypt key iv p);
  EVP_Decrypt_Encrypt key iv p c : EVP_Encrypt key iv p = Some c -> EVP_Decrypt key iv c = Some p;
  EVP_BytesToKey_total pass salt n : length salt = 8%nat -> 1 <= n -> is_Some (EVP_BytesToKey pass salt n);
  EVP_BytesToKey_len pass salt n key iv : EVP_BytesToKey pass salt n = Some (key, iv) -> length key = 32%nat /\ length iv = 16%nat;
}.

Record CCrypter := { chKey : bytes; chIV : bytes; fKeySet : bool }.
Definition new_crypter : CCrypter := {| chKey := repeat 0 32; chIV := repeat 0 32; fKeySet := false |}.

(** A [CMasterKey] *)
Record CMasterKey := { vchCryptedKey : bytes; vchSalt : bytes; nDerivationMethod : Z; nDeriveIterations : Z }.

(** what the maps of a key store hold *)
Record CCryptoKeyStore := {
  mapKeys : gmap Z (bytes * bool); mapScripts : gmap Z bytes; mapCryptedKeys : gmap Z (bytes * bytes); vMasterKey : bytes; fUseCrypto : bool }.
Definition new_store : CCryptoKeyStore := {| mapKeys := ∅; mapScripts := ∅; mapCryptedKeys := ∅; vMasterKey := []; fUseCrypto := false |}.

Section Crypter.
Context {C : Cipher}.

(** the vector has 32 bytes, of which OpenSSL writes and reads 16 *)
Definition SetKeyFromPassphrase (c : CCrypter) (strKeyData chSalt : bytes) (nRounds nDerivationMethod : Z) : bool * CCrypter :=
  if (nRounds <? 1) || negb (bool_decide (length chSalt = WALLET_CRYPTO_SALT_SIZE)) then (false, c)
  else
    match (if nDerivationMethod =? 0 then EVP_BytesToKey strKeyData chSalt nRounds else None) with
    | None => (false, {| chKey := repeat 0 32; chIV := repeat 0 32; fKeySet := fKeySet c |})
    | Some (key, iv) => (true, {| chKey := key; chIV := iv ++ drop 16 (chIV c); fKeySet := true |})
    end.
Definition SetKey (c : CCrypter) (chNewKey chNewIV : bytes) : bool * CCrypter :=
  if negb (bool_decide (length chNewKey = WALLET_CRYPTO_KEY_SIZE)) || negb (bool_decide (length chNewIV = WALLET_CRYPTO_KEY_SIZE)) then (false, c)
  else (true, {| chKey := chNewKey; chIV := chNewIV; fKeySet := true |}).
Definition Encrypt (c : CCrypter) (vchPlaintext : bytes) : option bytes :=
  if negb (fKeySet c) then None else EVP_Encrypt (chKey c) (take 16 (chIV c)) vchPlaintext.
Definition Decrypt (c : CCrypter) (vchCiphertext : bytes) : option bytes :=
  if negb (fKeySet c) then None else EVP_Decrypt (chKey c) (take 16 (chIV c)) vchCiphertext.

Definition EncryptSecret (vMasterKey vchPlaintext : bytes) (nIV : Z) : option bytes :=
  let '(ok, cKeyCrypter) := SetKey new_crypter vMasterKey (uint256_bytes nIV) in
  if negb ok then None else Encrypt cKeyCrypter vchPlaintext.
Definition DecryptSecret (vMasterKey vchCiphertext : bytes) (nIV : Z) : option bytes :=
  let '(ok, cKeyCrypter) := SetKey new_crypter vMasterKey (uint256_bytes nIV) in
  if negb ok then None else Decrypt cKeyCrypter vchCiphertext.
End Crypter.

(** ** Keys with a secret (key.cpp) *)

Section Keys.
Context {K : Crypto}.
(** [fWas]: the flag of the object before; [None]: an exception *)
Definition SetSecret (fWas : bool) (vchSecret : bytes) (fCompressed : bool) : option CSecretKey :=
  if negb (bool_decide (length vchSecret = 32%nat)) then None else Some {| secret := be_val vchSecret; sec_compressed := fCompressed || fWas |}.
Definition GetSecret (k : CSecretKey) : bytes := be_bytes 32 (secret k).
(** the flag after [SetPubKey], which [Reset]s the object if the octets are no point *)
Definition SetPubKey_flag (fWas : bool) (vchPubKey : bytes) : bool :=
  match o2i_ECPublicKey vchPubKey with Some _ => if bool_decide (length vchPubKey = 33%nat) then true else fWas | None => false end.
End Keys.

(** ** The store (keystore.cpp) *)

(** the entry of a map with the least key *)
Definition first_entry {A} (m : gmap Z A) : option A := let? k := head (merge_sort Z.le (map fst (map_to_list m))) in m !! k.

Inductive found (A : Type) := Found (a : A) | Missing | Throws.
Arguments Found {A} a. Arguments Missing {A}. Arguments Throws {A}.

Section Store.
Context {K : Crypto} {C : Cipher}.
Implicit Types s : CCryptoKeyStore.

Definition with_keys s m := {| mapKeys := m; mapScripts := mapScripts s; mapCryptedKeys := mapCryptedKeys s; vMasterKey := vMasterKey s; fUseCrypto := fUseCrypto s |}.
Definition with_crypted s m := {| mapKeys := mapKeys s; mapScripts := mapScripts s; mapCryptedKeys := m; vMasterKey := vMasterKey s; fUseCrypto := fUseCrypto s |}.
Definition with_master s k := {| mapKeys := mapKeys s; mapScripts := mapScripts s; mapCryptedKeys := mapCryptedKeys s; vMasterKey := k; fUseCrypto := fUseCrypto s |}.
Definition use_crypto s := {| mapKeys := mapKeys s; mapScripts := mapScripts s; mapCryptedKeys := mapCryptedKeys s; vMasterKey := vMasterKey s; fUseCrypto := true |}.

Definition IsCrypted s : bool := fUseCrypto s.
Definition IsLocked s : bool := if negb (IsCrypted s) then false else bool_decide (vMasterKey s = []).

Definition basic_AddKey s (key : CSecretKey) : CCryptoKeyStore := with_keys s (<[GetID (secret_pubkey key) := (GetSecret key, sec_compressed key)]> (mapKeys s)).
Definition AddCScript s (redeemScript : bytes) : CCryptoKeyStore :=
  {| mapKeys := mapKeys s; mapScripts := <[Hash160 redeemScript := redeemScript]> (mapScripts s); mapCryptedKeys := mapCryptedKeys s; vMasterKey := vMasterKey s; fUseCrypto := fUseCrypto s |}.
Definition HaveCScript s (hash : Z) : bool := bool_decide (is_Some (mapScripts s !! hash)).
Definition GetCScript s (hash : Z) : option bytes := mapScripts s !! hash.
Definition basic_GetKey s (address : Z) : found CSecretKey :=
  match mapKeys s !! address with
  | Some (vchSecret, fCompressed) => match SetSecret false vchSecret fCompressed with Some key => Found key | None => Throws end
  | None => Missing
  end.

Definition SetCrypted s : bool * CCryptoKeyStore :=
  if fUseCrypto s then (true, s) else if negb (bool_decide (mapKeys s = ∅)) then (false, s) else (true, use_crypto s).
Definition Lock s : bool * CCryptoKeyStore :=
  let '(ok, s) := SetCrypted s in if negb ok then (false, s) else (true, with_master s []).
(** whether the first encrypted key, if there is one, is decrypted by the master key *)
Definition master_key_fits s (vMasterKeyIn : bytes) : bool :=
  match first_entry (mapCryptedKeys s) with
  | None => true
  | Some (vchPubKey, vchCryptedSecret) =>
    match DecryptSecret vMasterKeyIn vchCryptedSecret (Hash vchPubKey) with
    | None => false
    | Some vchSecret =>
      match SetSecret (SetPubKey_flag false vchPubKey) vchSecret false with
      | None => false
      | Some key => bool_decide (secret_pubkey key = vchPubKey)
      end
    end
  end.
Definition Unlock s (vMasterKeyIn : bytes) : bool * CCryptoKeyStore :=
  let '(ok, s) := SetCrypted s in
  if negb ok then (false, s) else if negb (master_key_fits s vMasterKeyIn) then (false, s) else (true, with_master s vMasterKeyIn).
Definition AddCryptedKey s (vchPubKey vchCryptedSecret : bytes) : bool * CCryptoKeyStore :=
  let '(ok, s) := SetCrypted s in
  if negb ok then (false, s) else (true, with_crypted s (<[GetID vchPubKey := (vchPubKey, vchCryptedSecret)]> (mapCryptedKeys s))).
Definition AddKey s (key : CSecretKey) : bool * CCryptoKeyStore :=
  if negb (IsCrypted s) then (true, basic_AddKey s key)
  else if IsLocked s then (false, s)
  else
    match EncryptSecret (vMasterKey s) (GetSecret key) (Hash (secret_pubkey key)) with
    | None => (false, s)
    | Some vchCryptedSecret => AddCryptedKey s (secret_pubkey key) vchCryptedSecret
    end.
(** [fWas]: the flag of the object that receives the key *)
Definition GetKey s (fWas : bool) (address : Z) : found CSecretKey :=
  if negb (IsCrypted s) then basic_GetKey s address
  else
    match mapCryptedKeys s !! address with
    | None => Missing
    | Some (vchPubKey, vchCryptedSecret) =>
      match DecryptSecret (vMasterKey s) vchCryptedSecret (Hash vchPubKey) with
      | None => Missing
      | Some vchSecret =>
        if negb (bool_decide (length vchSecret = 32%nat)) then Missing
        else match SetSecret (SetPubKey_flag fWas vchPubKey) vchSecret false with Some key => Found key | None => Throws end
      end
    end.
Definition HaveKey s (address : Z) : bool :=
  if negb (IsCrypted s) then bool_decide (is_Some (mapKeys s !! address)) else bool_decide (is_Some (mapCryptedKeys s !! address)).
Definition GetKeys s : gset Z := if negb (IsCrypted s) then dom (mapKeys s) else dom (mapCryptedKeys s).
Definition GetPubKey s (address : Z) : found bytes :=
  if negb (IsCrypted s)
  then match GetKey s false address with Found key => Found (secret_pubkey key) | Missing => Missing | Throws => Throws end
  else match mapCryptedKeys s !! address with Some (vchPubKey, _) => Found vchPubKey | None => Missing end.

(** the loop over the keys, in the order of their names; [None]: an exception *)
Fixpoint encrypt_each (vMasterKeyIn : bytes) (l : list Z) s : option (bool * CCryptoKeyStore) :=
  match l with
  | [] => Some (true, s)
  | a :: r =>
    let? (vchSecret, fCompressed) := mapKeys s !! a in
    let? key := SetSecret false vchSecret fCompressed in
    let vchPubKey := secret_pubkey key in
    match EncryptSecret vMasterKeyIn (GetSecret key) (Hash vchPubKey) with
    | None => Some (false, s)
    | Some vchCryptedSecret =>
      let '(ok, s) := AddCryptedKey s vchPubKey vchCryptedSecret in
      if negb ok then Some (false, s) else encrypt_each vMasterKeyIn r s
    end
  end.
Definition EncryptKeys s (vMasterKeyIn : bytes) : option (bool * CCryptoKeyStore) :=
  if negb (bool_decide (mapCryptedKeys s = ∅)) || IsCrypted s then Some (false, s)
  else
    let s := use_crypto s in
    let? (ok, s) := encrypt_each vMasterKeyIn (merge_sort Z.le (map fst (map_to_list (mapKeys s)))) s in
    Some (if ok then (true, with_keys s ∅) else (false, s)).

(** what the scripts' signing code sees of it *)
Definition as_keystore s : ScriptStd.CKeyStore := {|
  ScriptStd.HaveKey := HaveKey s;
  ScriptStd.GetKey a := match GetKey s false a with Found k => Some k | _ => None end;
  ks_GetPubKey a := match GetPubKey s a with Found p => Some p | _ => None end;
  ScriptStd.HaveCScript := HaveCScript s;
  ScriptStd.GetCScript := GetCScript s |}.
End Store.

(** ** The passphrase (wallet.cpp) *)

(** the part of a [CWallet] that has to do with it *)
Record wallet_keys := { w_store : CCryptoKeyStore; mapMasterKeys : gmap Z CMasterKey; nMasterKeyMaxID : Z }.
Definition new_wallet_keys : wallet_keys := {| w_store := new_store; mapMasterKeys := ∅; nMasterKeyMaxID := 0 |}.

Section Passphrase.
Context {K : Crypto} {C : Cipher}.
Definition with_store (w : wallet_keys) (s : CCryptoKeyStore) : wallet_keys := {| w_store := s; mapMasterKeys := mapMasterKeys w; nMasterKeyMaxID := nMasterKeyMaxID w |}.
Definition SetKeyFrom (c : CCrypter) (pass : bytes) (m : CMasterKey) : bool * CCrypter := SetKeyFromPassphrase c pass (vchSalt m) (nDeriveIterations m) (nDerivationMethod m).
Definition with_iterations (m : CMasterKey) (n : Z) : CMasterKey := {| vchCryptedKey := vchCryptedKey m; vchSalt := vchSalt m; nDerivationMethod := nDerivationMethod m; nDeriveIterations := n |}.
Definition with_cryptedkey (m : CMasterKey) (c : bytes) : CMasterKey := {| vchCryptedKey := c; vchSalt := vchSalt m; nDerivationMethod := nDerivationMethod m; nDeriveIterations := nDeriveIterations m |}.
Definition master_ids (w : wallet_keys) : list Z := merge_sort Z.le (map fst (map_to_list (mapMasterKeys w))).

(** the loop over the master keys: the first that opens the store, its number and the crypter; a key that is not derived or not decrypted ends it *)
Fixpoint try_masters (w : wallet_keys) (pass : bytes) (ids : list Z) (crypter : CCrypter) (s : CCryptoKeyStore) : option (Z * CMasterKey * bytes * CCrypter) * CCryptoKeyStore :=
  match ids with
  | [] => (None, s)
  | i :: r =>
    match mapMasterKeys w !! i with
    | None => (None, s)
    | Some m =>
      let '(ok, crypter) := SetKeyFrom crypter pass m in
      if negb ok then (None, s)
      else match Decrypt crypter (vchCryptedKey m) with
        | None => (None, s)
        | Some vMasterKey =>
          let '(ok, s) := Unlock s vMasterKey in
          if ok then (Some (i, m, vMasterKey, crypter), s) else try_masters w pass r crypter s
        end
    end
  end.
Definition wallet_Unlock (w : wallet_keys) (strWalletPassphrase : bytes) : bool * wallet_keys :=
  if negb (IsLocked (w_store w)) then (false, w)
  else let '(r, s) := try_masters w strWalletPassphrase (master_ids w) new_crypter (w_store w) in (bool_decide (is_Some r), with_store w s).
(** [n1], [n2]: the number of rounds after the first and the second measurement *)
Definition ChangeWalletPassphrase (w : wallet_keys) (strOld strNew : bytes) (n1 n2 : Z) : bool * wallet_keys :=
  let fWasLocked := IsLocked (w_store w) in
  let '(_, s) := Lock (w_store w) in
  let '(r, s) := try_masters w strOld (master_ids w) new_crypter s in
  let w := with_store w s in
  match r with
  | None => (false, w)
  | Some (i, m, vMasterKey, crypter) =>
    let '(_, crypter) := SetKeyFrom crypter strNew m in
    let '(_, crypter) := SetKeyFrom crypter strNew (with_iterations m n1) in
    let m := with_iterations m (Z.max 25000 n2) in
    let put m w := {| w_store := w_store w; mapMasterKeys := <[i := m]> (mapMasterKeys w); nMasterKeyMaxID := nMasterKeyMaxID w |} in
    let '(ok, crypter) := SetKeyFrom crypter strNew m in
    if negb ok then (false, put m w)
    else match Encrypt crypter vMasterKey with
      | None => (false, put m w)
      | Some c => (true, put (with_cryptedkey m c) (if fWasLocked then with_store w (snd (Lock (w_store w))) else w))
      end
  end.
Fixpoint add_keys (keys : list CSecretKey) (s : CCryptoKeyStore) : option CCryptoKeyStore :=
  match keys with [] => Some s | k :: r => let '(ok, s) := AddKey s k in if ok then add_keys r s else None end.
(** [vMasterKey], [salt]: random bytes; [pool]: the keys that [NewKeyPool] generates; [None]: the program ends, or an exception *)
Definition EncryptWallet (w : wallet_keys) (strWalletPassphrase vMasterKey salt : bytes) (n1 n2 : Z) (pool : list CSecretKey) : option (bool * wallet_keys) :=
  if IsCrypted (w_store w) then Some (false, w)
  else
    let kMasterKey := {| vchCryptedKey := []; vchSalt := salt; nDerivationMethod := 0; nDeriveIterations := 25000 |} in
    let '(_, crypter) := SetKeyFrom new_crypter strWalletPassphrase kMasterKey in
    let '(_, crypter) := SetKeyFrom crypter strWalletPassphrase (with_iterations kMasterKey n1) in
    let kMasterKey := with_iterations kMasterKey (Z.max 25000 n2) in
    let '(ok, crypter) := SetKeyFrom crypter strWalletPassphrase kMasterKey in
    if negb ok then Some (false, w)
    else match Encrypt crypter vMasterKey with
      | None => Some (false, w)
      | Some c =>
        let id := u32 (nMasterKeyMaxID w + 1) in
        let? (ok, s) := EncryptKeys (w_store w) vMasterKey in
        if negb ok then None
        else
          let '(_, s) := Lock s in
          let w := {| w_store := s; mapMasterKeys := <[id := with_cryptedkey kMasterKey c]> (mapMasterKeys w); nMasterKeyMaxID := id |} in
          let '(_, w) := wallet_Unlock w strWalletPassphrase in
          let? s := if IsLocked (w_store w) then Some (w_store w) else add_keys pool (w_store w) in
          let '(_, s) := Lock s in
          Some (true, with_store w s)
      end.
End Passphrase.

(** ** What a store stands for *)

Record keyring := { kr_keys : gmap Z CSecretKey; kr_scripts : gmap Z bytes; kr_crypted : bool; kr_locked : bool }.
Definition new_keyring : keyring := {| kr_keys := ∅; kr_scripts := ∅; kr_crypted := false; kr_locked := false |}.

Inductive operation := OAddKey (key : CSecretKey) | OAddCScript (redeemScript : bytes) | OLock | OUnlock | OEncryptKeys.
Definition fits (o : operation) : Prop := match o with OAddKey key => 0 <= secret key < 2 ^ 256 | _ => True end.

Section Spec.
Context {K : Crypto} {C : Cipher}.

(** the operations on key rings *)
Definition spec_step (r : keyring) (o : operation) : bool * keyring :=
  match o with
  | OAddKey key => if kr_locked r then (false, r) else (true, {| kr_keys := <[GetID (secret_pubkey key) := key]> (kr_keys r); kr_scripts := kr_scripts r; kr_crypted := kr_crypted r; kr_locked := false |})
  | OAddCScript redeemScript => (true, {| kr_keys := kr_keys r; kr_scripts := <[Hash160 redeemScript := redeemScript]> (kr_scripts r); kr_crypted := kr_crypted r; kr_locked := kr_locked r |})
  | OLock => if kr_crypted r || bool_decide (kr_keys r = ∅) then (true, {| kr_keys := kr_keys r; kr_scripts := kr_scripts r; kr_crypted := true; kr_locked := true |}) else (false, r)
  | OUnlock => if kr_crypted r || bool_decide (kr_keys r = ∅) then (true, {| kr_keys := kr_keys r; kr_scripts := kr_scripts r; kr_crypted := true; kr_locked := false |}) else (false, r)
  | OEncryptKeys => if kr_crypted r then (false, r) else (true, {| kr_keys := kr_keys r; kr_scripts := kr_scripts r; kr_crypted := true; kr_locked := true |})
  end.
(** the operations of the store, with the master key [M] *)
Definition store_step (M : bytes) (s : CCryptoKeyStore) (o : operation) : option (bool * CCryptoKeyStore) :=
  match o with
  | OAddKey key => Some (AddKey s key)
  | OAddCScript redeemScript => Some (true, AddCScript s redeemScript)
  | OLock => Some (Lock s)
  | OUnlock => Some (Unlock s M)
  | OEncryptKeys => EncryptKeys s M
  end.
Fixpoint spec_run (ops : list operation) (r : keyring) : list bool * keyring :=
  match ops with [] => ([], r) | o :: ops => let '(b, r) := spec_step r o in let '(bs, r) := spec_run ops r in (b :: bs, r) end.
Fixpoint store_run (M : bytes) (ops : list operation) (s : CCryptoKeyStore) : option (list bool * CCryptoKeyStore) :=
  match ops with [] => Some ([], s) | o :: ops => let? (b, s) := store_step M s o in let? (bs, s) := store_run M ops s in Some (b :: bs, s) end.

(** what a store answers: the keys while it is not locked, their names and public keys always *)
Record answers (s : CCryptoKeyStore) (r : keyring) : Prop := {
  ans_crypted : IsCrypted s = kr_crypted r;
  ans_locked : IsLocked s = kr_locked r;
  ans_HaveKey a : HaveKey s a = bool_decide (is_Some (kr_keys r !! a));
  ans_GetKeys : GetKeys s = dom (kr_keys r);
  ans_GetPubKey a : GetPubKey s a = match kr_keys r !! a with Some key => Found (secret_pubkey key) | None => Missing end;
  ans_GetKey a : GetKey s false a = match kr_keys r !! a with Some key => if kr_locked r then Missing else Found key | None => Missing end;
  ans_HaveCScript h : HaveCScript s h = bool_decide (is_Some (kr_scripts r !! h));
  ans_GetCScript h : GetCScript s h = kr_scripts r !! h;
}.

(** the keys with those of a new pool *)
Definition with_pool (keys : gmap Z CSecretKey) (pool : list CSecretKey) : gmap Z CSecretKey := foldl (fun m k => <[GetID (secret_pubkey k) := k]> m) keys pool.
(** the encrypted form of a key *)
Definition sealed (M : bytes) (key : CSecretKey) : bytes * bytes := (secret_pubkey key, default [] (EncryptSecret M (GetSecret key) (Hash (secret_pubkey key)))).
Definition plain (key : CSecretKey) : bytes * bool := (GetSecret key, sec_compressed key).
Definition named (a : Z) (key : CSecretKey) : Prop := a = GetID (secret_pubkey key) /\ 0 <= secret key < 2 ^ 256.
Record represents (M : bytes) (s : CCryptoKeyStore) (r : keyring) : Prop := {
  rep_named : map_Forall named (kr_keys r);
  rep_scripts : mapScripts s = kr_scripts r;
  rep_crypted : fUseCrypto s = kr_crypted r;
  rep_unlocked : kr_crypted r = false -> kr_locked r = false;
  rep_master : vMasterKey s = if kr_crypted r && negb (kr_locked r) then M else [];
  rep_plain : mapKeys s = if kr_crypted r then ∅ else plain <$> kr_keys r;
  rep_sealed : mapCryptedKeys s = if kr_crypted r then sealed M <$> kr_keys r else ∅;
}.
End Spec.

(** ** Properties *)

Section Lemmas.
Context {K : Crypto} {KL : CryptoLaws K} {C : Cipher} {CL : CipherLaws C}.
Variable M : bytes.
Hypothesis HM : length M = 32%nat.

Lemma master_nonempty : bool_decide (M = []) = false.
Proof. apply bool_decide_eq_false_2. intros ->. discriminate HM. Qed.
Lemma length_GetSecret key : length (GetSecret key) = 32%nat.
Proof. unfold GetSecret, be_bytes. by rewrite length_rev, length_le_bytes. Qed.
Lemma SetSecret_GetSecret fWas key f : 0 <= secret key < 2 ^ 256 -> f || fWas = sec_compressed key -> SetSecret fWas (GetSecret key) f = Some key.
Proof.
  intros Hs Hf. unfold SetSecret. rewrite bool_decide_eq_true_2 by apply length_GetSecret. cbn [negb]. rewrite Hf.
  assert (be_val (GetSecret key) = secret key) as -> by (unfold be_val, GetSecret, be_bytes; rewrite rev_involutive; by apply le_val_le_bytes). by destruct key.
Qed.
Lemma SetPubKey_flag_pubkey fWas key : SetPubKey_flag fWas (secret_pubkey key) = sec_compressed key || fWas.
Proof. unfold SetPubKey_flag, secret_pubkey. rewrite o2i_i2o, i2o_len. destruct (sec_compressed key); by cbn. Qed.

Lemma SetKey_Hash vch : SetKey new_crypter M (uint256_bytes (Hash vch)) = (true, {| chKey := M; chIV := uint256_bytes (Hash vch); fKeySet := true |}).
Proof. unfold SetKey. rewrite (bool_decide_eq_true_2 (length M = _)), bool_decide_eq_true_2; [done|apply length_le_bytes|done]. Qed.
Lemma EncryptSecret_total p vch : exists c, EncryptSecret M p (Hash vch) = Some c /\ DecryptSecret M c (Hash vch) = Some p.
Proof.
  unfold EncryptSecret, DecryptSecret. rewrite SetKey_Hash. cbn [negb]. unfold Encrypt, Decrypt. cbn [fKeySet negb chKey chIV].
  destruct (EVP_Encrypt_total M (take 16 (uint256_bytes (Hash vch))) p) as [c Hc]; [done|by rewrite length_take; unfold uint256_bytes; rewrite length_le_bytes|].
  exists c. split; [done|]. by apply EVP_Decrypt_Encrypt.
Qed.
Lemma DecryptSecret_locked c n : DecryptSecret [] c n = None.
Proof. done. Qed.
Lemma sealed_opens key : exists c, sealed M key = (secret_pubkey key, c) /\ EncryptSecret M (GetSecret key) (Hash (secret_pubkey key)) = Some c /\ DecryptSecret M c (Hash (secret_pubkey key)) = Some (GetSecret key).
Proof. destruct (EncryptSecret_total (GetSecret key) (secret_pubkey key)) as (c & H1 & H2). exists c. unfold sealed. by rewrite H1. Qed.

(** *** Answers *)
Lemma lookup_when {A} (b : bool) (m : gmap Z A) a : (if b then ∅ else m) !! a = if b then None else m !! a.
Proof. destruct b; [apply lookup_empty|done]. Qed.

Lemma represents_locked s r : represents M s r -> IsLocked s = kr_locked r.
Proof.
  intros [_ _ Hc Hu Hm _ _]. unfold IsLocked, IsCrypted. rewrite Hc, Hm. destruct (kr_crypted r); cbn [negb andb]; [|by rewrite Hu].
  destruct (kr_locked r); cbn [negb]; [done|]. apply master_nonempty.
Qed.
Lemma represents_GetKey s r fWas a : represents M s r -> GetKey s fWas a =
  match kr_keys r !! a with
  | Some key => if kr_locked r then Missing else Found {| secret := secret key; sec_compressed := sec_compressed key || (fWas && kr_crypted r) |}
  | None => Missing
  end.
Proof.
  intros [Hn _ Hc Hu Hm Hp Hs]. unfold GetKey, IsCrypted, basic_GetKey. rewrite Hc, Hm, Hp, Hs. destruct (kr_crypted r) eqn:E; cbn [negb andb].
  - rewrite lookup_fmap. destruct (kr_keys r !! a) as [key|] eqn:Ha; [|done]. cbn [fmap option_fmap option_map]. destruct (sealed_opens key) as (c & -> & _ & Hd).
    destruct (kr_locked r); cbn [negb]; [by rewrite DecryptSecret_locked|]. rewrite Hd. rewrite bool_decide_eq_true_2 by apply length_GetSecret. cbn [negb].
    destruct (Hn _ _ Ha) as [_ Hsec]. rewrite SetPubKey_flag_pubkey, andb_true_r.
    pose proof (SetSecret_GetSecret (sec_compressed key || fWas) {| secret := secret key; sec_compressed := sec_compressed key || fWas |} false Hsec eq_refl) as E2.
    change (GetSecret {| secret := secret key; sec_compressed := _ |}) with (GetSecret key) in E2. by rewrite E2.
  - rewrite (Hu eq_refl), lookup_fmap. destruct (kr_keys r !! a) as [key|] eqn:Ha; [|done]. cbn [fmap option_fmap option_map plain]. destruct (Hn _ _ Ha) as [_ Hsec].
    rewrite SetSecret_GetSecret by (done || apply orb_false_r). rewrite andb_false_r, orb_false_r. by destruct key.
Qed.
Lemma fmap_is_Some_decide {A B} (f : A -> B) (x : option A) : bool_decide (is_Some (f <$> x)) = bool_decide (is_Some x).
Proof. apply bool_decide_ext, fmap_is_Some. Qed.
Lemma represents_answers s r : represents M s r -> answers s r.
Proof.
  intros Hr. pose proof (represents_GetKey s r) as HG. pose proof Hr as [Hn Hsc Hc Hu Hm Hp Hs]. split.
  - done.
  - by apply represents_locked.
  - intros a. unfold HaveKey, IsCrypted. rewrite Hc, Hp, Hs. destruct (kr_crypted r); cbn [negb]; by rewrite lookup_fmap, fmap_is_Some_decide.
  - unfold GetKeys, IsCrypted. rewrite Hc, Hp, Hs. destruct (kr_crypted r); cbn [negb]; by rewrite dom_fmap_L.
  - intros a. unfold GetPubKey. rewrite (HG false a Hr). unfold IsCrypted. rewrite Hc, Hs. destruct (kr_crypted r); cbn [negb].
    + rewrite lookup_fmap. by destruct (kr_keys r !! a).
    + rewrite (Hu eq_refl), andb_false_r. destruct (kr_keys r !! a) as [key|]; [|done]. rewrite orb_false_r. by destruct key.
  - intros a. rewrite (HG false a Hr). cbn [andb]. destruct (kr_keys r !! a) as [key|]; [|done]. rewrite orb_false_r. by destruct key.
  - intros h. unfold HaveCScript. by rewrite Hsc.
  - intros h. unfold GetCScript. by rewrite Hsc.
Qed.

(** *** Steps *)
Lemma first_entry_lookup {A} (m : gmap Z A) x : first_entry m = Some x -> exists a, m !! a = Some x.
Proof. unfold first_entry. destruct (head _) as [k|]; [eauto|done]. Qed.
Lemma first_entry_None {A} (m : gmap Z A) : first_entry m = None -> m = ∅.
Proof.
  unfold first_entry. intros H. destruct (head (merge_sort Z.le (map fst (map_to_list m)))) as [k|] eqn:E.
  - exfalso. assert (Hk : k ∈ merge_sort Z.le (map fst (map_to_list m))) by (destruct (merge_sort _ _); [done|injection E as ->; by left]).
    rewrite merge_sort_Permutation in Hk. apply list_elem_of_fmap in Hk as ([k' x] & -> & Hk). apply elem_of_map_to_list in Hk. cbn in H. congruence.
  - apply map_to_list_empty_iff. pose proof (merge_sort_Permutation Z.le (map fst (map_to_list m))) as Hp. destruct (merge_sort _ _); [|done].
    apply Permutation_nil_l in Hp. by destruct (map_to_list m).
Qed.
Lemma sealed_fits key : 0 <= secret key < 2 ^ 256 -> forall s, first_entry (mapCryptedKeys s) = Some (sealed M key) -> master_key_fits s M = true.
Proof.
  intros Hsec s Hf. unfold master_key_fits. rewrite Hf. destruct (sealed_opens key) as (c & -> & _ & ->). rewrite SetPubKey_flag_pubkey, orb_false_r.
  rewrite SetSecret_GetSecret by done. by apply bool_decide_eq_true_2.
Qed.
Lemma represents_fits s r : represents M s r -> master_key_fits s M = true.
Proof.
  intros [Hn _ _ _ _ _ Hs]. destruct (first_entry (mapCryptedKeys s)) as [x|] eqn:E; [|unfold master_key_fits; by rewrite E].
  destruct (first_entry_lookup _ _ E) as [a Ha]. rewrite Hs in Ha.
  destruct (kr_crypted r); [|by rewrite lookup_empty in Ha]. rewrite lookup_fmap in Ha. apply fmap_Some in Ha as (key & Hk & ->). destruct (Hn _ _ Hk) as [_ Hsec]. by apply (sealed_fits key).
Qed.
(** an empty plain store may become an encrypted one *)
Lemma represents_SetCrypted s r : represents M s r -> let b := kr_crypted r || bool_decide (kr_keys r = ∅) in
  SetCrypted s = (b, if b then use_crypto s else s) /\
  (b = true -> represents M (use_crypto s) {| kr_keys := kr_keys r; kr_scripts := kr_scripts r; kr_crypted := true; kr_locked := negb (kr_crypted r) || kr_locked r |}).
Proof.
  intros [Hn Hsc Hc Hu Hm Hp Hs]. cbv zeta. unfold SetCrypted. rewrite Hc, Hp. destruct (kr_crypted r) eqn:E; cbn [orb negb andb] in *.
  - split; [by destruct s; cbn in *; subst|]. intros _. by split.
  - replace (bool_decide (plain <$> kr_keys r = ∅)) with (bool_decide (kr_keys r = ∅)) by (apply bool_decide_ext; by rewrite fmap_empty_iff). case_bool_decide as He; cbn [negb]; [|done]. split; [done|]. intros _. rewrite He, fmap_empty in *. by split; cbn; rewrite ?fmap_empty.
Qed.

Lemma represents_insert s r key : represents M s r -> fits (OAddKey key) -> kr_locked r = false -> exists s', AddKey s key = (true, s') /\
  represents M s' {| kr_keys := <[GetID (secret_pubkey key) := key]> (kr_keys r); kr_scripts := kr_scripts r; kr_crypted := kr_crypted r; kr_locked := false |}.
Proof.
  intros Hr Hsec Hl. pose proof (represents_locked s r Hr) as HL. destruct Hr as [Hn Hsc Hc Hu Hm Hp Hs]. unfold AddKey, IsCrypted. rewrite HL, Hl, Hc, Hm in *. rewrite andb_true_r in *.
  assert (Hn' : map_Forall named (<[GetID (secret_pubkey key) := key]> (kr_keys r))) by (by apply map_Forall_insert_2).
  destruct (kr_crypted r) eqn:E; cbn [negb].
  - destruct (sealed_opens key) as (c & Es & -> & _). unfold AddCryptedKey, SetCrypted. rewrite Hc. cbn [negb]. eexists. split; [done|]. split; cbn; try done. by rewrite Hs, fmap_insert, Es.
  - eexists. split; [done|]. split; cbn; try done. by rewrite Hp, fmap_insert.
Qed.

(** *** Encrypting the keys *)
Lemma encrypt_each_spec (keys : gmap Z CSecretKey) : map_Forall named keys -> forall l s, (forall a, a ∈ l -> is_Some (keys !! a)) -> fUseCrypto s = true -> mapKeys s = plain <$> keys ->
  exists m, encrypt_each M l s = Some (true, with_crypted s m) /\ forall a, m !! a = if bool_decide (a ∈ l) then sealed M <$> keys !! a else mapCryptedKeys s !! a.
Proof.
  intros Hn. induction l as [|a l IH]; intros s Hl Hu Hp; cbn [encrypt_each].
  - exists (mapCryptedKeys s). split; [by destruct s|]. intros a. rewrite bool_decide_eq_false_2; [done|by intros ?%elem_of_nil].
  - destruct (Hl a ltac:(by left)) as [key Hk]. destruct (Hn _ _ Hk) as [Ha Hsec]. rewrite Hp, lookup_fmap, Hk. cbn [fmap option_fmap option_map plain].
    rewrite SetSecret_GetSecret by (done || apply orb_false_r). destruct (sealed_opens key) as (c & Es & -> & _). unfold AddCryptedKey, SetCrypted. rewrite Hu. cbn [negb].
    rewrite <- Ha. set (s' := with_crypted s _). destruct (IH s') as (m & -> & Hm); [intros b Hb; apply Hl; by right|done|done|]. exists m. split; [done|].
    intros b. rewrite Hm. subst s'. cbn [mapCryptedKeys with_crypted]. destruct (decide (b = a)) as [->|Hba].
    + rewrite (bool_decide_eq_true_2 (a ∈ a :: l)) by by left. rewrite lookup_insert_eq, Hk, <- Es. by case_bool_decide.
    + rewrite lookup_insert_ne by done. replace (bool_decide (b ∈ a :: l)) with (bool_decide (b ∈ l)); [done|]. apply bool_decide_ext. rewrite elem_of_cons. naive_solver.
Qed.
Lemma represents_EncryptKeys s r : represents M s r -> kr_crypted r = false -> exists s', EncryptKeys s M = Some (true, s') /\
  represents M s' {| kr_keys := kr_keys r; kr_scripts := kr_scripts r; kr_crypted := true; kr_locked := true |}.
Proof.
  intros [Hn Hsc Hc Hu Hm Hp Hs] E. rewrite E in *. cbn [andb] in *. unfold EncryptKeys, IsCrypted. rewrite Hs, Hc. cbn [bool_decide negb orb].
  rewrite bool_decide_eq_true_2 by done. cbn [negb orb].
  destruct (encrypt_each_spec (kr_keys r) Hn (merge_sort Z.le (map fst (map_to_list (mapKeys (use_crypto s))))) (use_crypto s)) as (m & -> & Hmm); [|done|done|].
  - intros a Ha. rewrite merge_sort_Permutation in Ha. apply list_elem_of_fmap in Ha as ([a' x] & -> & Ha). apply elem_of_map_to_list in Ha. cbn [mapKeys use_crypto] in Ha.
    rewrite Hp, lookup_fmap in Ha. apply fmap_Some in Ha as (key & Hk & _). by exists key.
  - eexists. split; [done|]. split; cbn; try done. apply map_eq. intros a. rewrite Hmm, lookup_fmap. case_bool_decide as Ha; [done|]. cbn [mapCryptedKeys use_crypto]. rewrite Hs, lookup_empty.
    destruct (kr_keys r !! a) as [key|] eqn:Hk; [|done]. exfalso. apply Ha. rewrite merge_sort_Permutation. apply list_elem_of_fmap. exists (a, plain key). split; [done|].
    apply elem_of_map_to_list. cbn [mapKeys use_crypto]. by rewrite Hp, lookup_fmap, Hk.
Qed.

Lemma represents_step s r o : represents M s r -> fits o -> exists s', store_step M s o = Some ((spec_step r o).1, s') /\ represents M s' (spec_step r o).2.
Proof.
  intros Hr Hf. destruct o as [key|redeemScript| | |]; cbn [store_step spec_step].
  - destruct (kr_locked r) eqn:El.
    + pose proof (represents_locked s r Hr) as HL. exists s. split; [|done]. unfold AddKey. rewrite HL, El. unfold IsCrypted. rewrite (rep_crypted _ _ _ Hr). destruct (kr_crypted r) eqn:E; [done|].
      by rewrite (rep_unlocked _ _ _ Hr E) in El.
    + destruct (represents_insert s r key Hr Hf El) as (s' & -> & H). by exists s'.
  - exists (AddCScript s redeemScript). split; [done|]. destruct Hr as [Hn Hsc Hc Hu Hm Hp Hs]. split; cbn; try done. by rewrite Hsc.
  - destruct (represents_SetCrypted s r Hr) as [E H]. unfold Lock. rewrite E. destruct (kr_crypted r || _); cbn [negb]; [|by exists s].
    exists (with_master (use_crypto s) []). split; [done|]. destruct (H eq_refl) as [Hn Hsc Hc Hu Hm Hp Hs]. by split.
  - destruct (represents_SetCrypted s r Hr) as [E H]. unfold Unlock. rewrite E. destruct (kr_crypted r || _); cbn [negb]; [|by exists s].
    rewrite (represents_fits (use_crypto s) _ (H eq_refl)). cbn [negb]. exists (with_master (use_crypto s) M). split; [done|]. destruct (H eq_refl) as [Hn Hsc Hc Hu Hm Hp Hs]. by split.
  - destruct (kr_crypted r) eqn:E.
    + exists s. split; [|done]. unfold EncryptKeys, IsCrypted. by rewrite (rep_crypted _ _ _ Hr), E, orb_true_r.
    + destruct (represents_EncryptKeys s r Hr E) as (s' & -> & H). by exists s'.
Qed.
Lemma represents_run ops : forall s r, represents M s r -> Forall fits ops -> exists s', store_run M ops s = Some ((spec_run ops r).1, s') /\ represents M s' (spec_run ops r).2.
Proof.
  induction ops as [|o ops IH]; intros s r Hr Hf; cbn [store_run spec_run]; [by exists s|]. inversion Hf as [|? ? Ho Hops]. subst.
  destruct (represents_step s r o Hr Ho) as (s1 & -> & H1). destruct (spec_step r o) as [b r1]. cbn [fst snd] in *. destruct (IH s1 r1 H1 Hops) as (s2 & -> & H2).
  destruct (spec_run ops r1) as [bs r2]. cbn [fst snd] in *. by exists s2.
Qed.
Lemma represents_new : represents M new_store new_keyring.
Proof. split; try done; cbn; by rewrite ?fmap_empty. Qed.
End Lemmas.

(** ** Signing with a store *)

Section Signing.
Context {B : OpenSSLBN} {K : Crypto} {E : CacheEnv}.
Variables ks1 ks2 : ScriptStd.CKeyStore.
(** the same answers, however they are computed *)
Hypothesis same_keys : forall a, ScriptStd.GetKey ks1 a = ScriptStd.GetKey ks2 a.
Hypothesis same_pubkeys : forall a, ks_GetPubKey ks1 a = ks_GetPubKey ks2 a.
Hypothesis same_scripts : forall h, ScriptStd.GetCScript ks1 h = ScriptStd.GetCScript ks2 h.
Lemma Sign1_same a h t sig : Sign1 a ks1 h t sig = Sign1 a ks2 h t sig.
Proof using same_keys. unfold Sign1. by rewrite same_keys. Qed.
Lemma SignN_loop_same l h t req : forall n sig, SignN_loop l ks1 h t req n sig = SignN_loop l ks2 h t req n sig.
Proof using same_keys. induction l as [|p l IH]; intros n sig; cbn [SignN_loop]; [done|]. destruct (n <? req); [|done]. rewrite Sign1_same. destruct (Sign1 _ _ _ _ _). apply IH. Qed.
Lemma SolverSign_same s h t : SolverSign ks1 s h t = SolverSign ks2 s h t.
Proof using same_keys same_pubkeys same_scripts.
  unfold SolverSign, SignN. destruct (Solver s) as [[ok []] sol]; destruct (negb ok); try done; rewrite ?Sign1_same, ?SignN_loop_same, ?same_pubkeys, ?same_scripts; done.
Qed.
Lemma SignSignature_same s tx n t c : SignSignature ks1 s tx n t c = SignSignature ks2 s tx n t c.
Proof using same_keys same_pubkeys same_scripts.
  unfold SignSignature. destruct (bool_decide _); [done|]. cbv zeta. rewrite SolverSign_same. destruct (SolverSign ks2 s _ t) as [[ok sig] w]. destruct (negb ok); [done|].
  rewrite SolverSign_same. done.
Qed.
End Signing.

Section Passphrases.
Context {K : Crypto} {KL : CryptoLaws K} {C : Cipher} {CL : CipherLaws C}.

(** the passphrase opens the only master key, which is [M] *)
Definition opened_by (pass M : bytes) (m : CMasterKey) : Prop :=
  length (vchSalt m) = 8%nat /\ 1 <= nDeriveIterations m /\ nDerivationMethod m = 0 /\
  forall key iv, EVP_BytesToKey pass (vchSalt m) (nDeriveIterations m) = Some (key, iv) -> EVP_Decrypt key iv (vchCryptedKey m) = Some M.
Record opens (pass M : bytes) (w : wallet_keys) (r : keyring) : Prop := {
  op_masters : exists i m, mapMasterKeys w = {[i := m]} /\ opened_by pass M m;
  op_store : represents M (w_store w) r;
  op_crypted : kr_crypted r = true;
}.

Lemma SetKeyFrom_ok c pass m : length (vchSalt m) = 8%nat -> 1 <= nDeriveIterations m -> nDerivationMethod m = 0 ->
  exists key iv, EVP_BytesToKey pass (vchSalt m) (nDeriveIterations m) = Some (key, iv) /\ length key = 32%nat /\ length iv = 16%nat /\
    SetKeyFrom c pass m = (true, {| chKey := key; chIV := iv ++ drop 16 (chIV c); fKeySet := true |}).
Proof.
  intros Hs Hn Hm. destruct (EVP_BytesToKey_total pass (vchSalt m) (nDeriveIterations m) Hs Hn) as [[key iv] Hk]. destruct (EVP_BytesToKey_len _ _ _ _ _ Hk) as [H1 H2].
  exists key, iv. split_and!; try done. unfold SetKeyFrom, SetKeyFromPassphrase. rewrite (proj2 (Z.ltb_ge _ _)) by done. rewrite bool_decide_eq_true_2 by done. cbn [orb negb].
  rewrite Hm. cbn [Z.eqb]. by rewrite Hk.
Qed.
Lemma master_ids_one w i m : mapMasterKeys w = {[i := m]} -> master_ids w = [i].
Proof. intros H. unfold master_ids. by rewrite H, map_to_list_singleton. Qed.
Lemma try_masters_opens pass M w r i m c s : length M = 32%nat -> mapMasterKeys w = {[i := m]} -> opened_by pass M m -> represents M s r -> kr_crypted r = true ->
  exists c', try_masters w pass (master_ids w) c s = (Some (i, m, M, c'), (Unlock s M).2) /\ (Unlock s M).1 = true.
Proof.
  intros HM Hi (Hs & Hn & Hm & Ho) Hr Hc. rewrite (master_ids_one w i m Hi). cbn [try_masters]. rewrite Hi, lookup_singleton_eq.
  destruct (SetKeyFrom_ok c pass m Hs Hn Hm) as (key & iv & Hk & Hl1 & Hl2 & ->). cbn [negb]. unfold Decrypt. cbn [fKeySet negb chKey chIV].
  rewrite take_app_length' by done. rewrite (Ho _ _ Hk).
  destruct (represents_step M HM s r OUnlock Hr I) as (s' & E & _). cbn [store_step] in E. injection E as E. cbn [spec_step] in E. rewrite Hc in E. cbn [orb fst] in E.
  destruct (Unlock s M) as [ok s2]. cbn [fst snd]. injection E as -> ->. eauto.
Qed.
Lemma unlocked_store M s r : length M = 32%nat -> represents M s r -> kr_crypted r = true ->
  represents M (Unlock s M).2 {| kr_keys := kr_keys r; kr_scripts := kr_scripts r; kr_crypted := true; kr_locked := false |}.
Proof.
  intros HM Hr Hc. destruct (represents_step M HM s r OUnlock Hr I) as (s' & E & H). cbn [store_step] in E. injection E as E. cbn [spec_step] in *. rewrite Hc in *. by rewrite E.
Qed.
Lemma locked_store M s r : length M = 32%nat -> represents M s r -> kr_crypted r = true ->
  represents M (Lock s).2 {| kr_keys := kr_keys r; kr_scripts := kr_scripts r; kr_crypted := true; kr_locked := true |}.
Proof.
  intros HM Hr Hc. destruct (represents_step M HM s r OLock Hr I) as (s' & E & H). cbn [store_step] in E. injection E as E. cbn [spec_step] in *. rewrite Hc in *. by rewrite E.
Qed.
Lemma wallet_Unlock_opens pass M w r : length M = 32%nat -> opens pass M w r -> kr_locked r = true -> exists w', wallet_Unlock w pass = (true, w') /\
  opens pass M w' {| kr_keys := kr_keys r; kr_scripts := kr_scripts r; kr_crypted := true; kr_locked := false |}.
Proof.
  intros HM [(i & m & Hi & Ho) Hr Hc] Hl. unfold wallet_Unlock. rewrite (represents_locked M HM _ _ Hr), Hl. cbn [negb].
  destruct (try_masters_opens pass M w r i m new_crypter (w_store w) HM Hi Ho Hr Hc) as (c & -> & _). eexists. split; [done|]. split; [by exists i, m|by apply unlocked_store|done].
Qed.
(** the master key, encrypted with the new passphrase *)
Lemma Encrypt_opened pass M m c : length M = 32%nat -> length (vchSalt m) = 8%nat -> 1 <= nDeriveIterations m -> nDerivationMethod m = 0 ->
  exists crypter ct, SetKeyFrom c pass m = (true, crypter) /\ Encrypt crypter M = Some ct /\ opened_by pass M (with_cryptedkey m ct).
Proof.
  intros HM Hs Hn Hm. destruct (SetKeyFrom_ok c pass m Hs Hn Hm) as (key & iv & Hk & Hl1 & Hl2 & ->). destruct (EVP_Encrypt_total key iv M Hl1 Hl2) as [ct Hct].
  eexists _, ct. split; [done|]. split; [unfold Encrypt; cbn [fKeySet negb chKey chIV]; by rewrite take_app_length' by done|].
  split_and!; try done. cbn [with_cryptedkey vchSalt nDeriveIterations vchCryptedKey]. intros key' iv' H. rewrite Hk in H. injection H as <- <-. by apply EVP_Decrypt_Encrypt.
Qed.
Lemma ChangeWalletPassphrase_opens old new M w r n1 n2 : length M = 32%nat -> opens old M w r -> exists w', ChangeWalletPassphrase w old new n1 n2 = (true, w') /\ opens new M w' r.
Proof.
  intros HM [(i & m & Hi & Ho) Hr Hc]. unfold ChangeWalletPassphrase. pose proof (represents_locked M HM _ _ Hr) as Hl. rewrite Hl.
  pose proof (locked_store M _ r HM Hr Hc) as HL. destruct (Lock (w_store w)) as [okl s]. cbn [snd] in HL.
  destruct (try_masters_opens old M w _ i m new_crypter s HM Hi Ho HL eq_refl) as (c & -> & _). pose proof (unlocked_store M s _ HM HL eq_refl) as HU. cbn [kr_keys kr_scripts] in HU.
  destruct Ho as (Hs & Hn & Hm & _). destruct (SetKeyFrom c new m) as [b1 c1]. destruct (SetKeyFrom c1 new _) as [b2 c2].
  destruct (Encrypt_opened new M (with_iterations m (Z.max 25000 n2)) c2 HM Hs ltac:(cbn; lia) Hm) as (c3 & ct & -> & -> & Hop). cbn [negb]. eexists. split; [done|].
  assert (Hput : forall x : wallet_keys, mapMasterKeys x = {[i := m]} -> <[i := with_cryptedkey (with_iterations m (Z.max 25000 n2)) ct]> (mapMasterKeys x) = {[i := with_cryptedkey (with_iterations m (Z.max 25000 n2)) ct]})
    by (intros x ->; apply insert_singleton_eq).
  pose proof (locked_store M _ _ HM HU eq_refl) as HLL. cbn [kr_keys kr_scripts] in HLL. destruct r as [ks sc cr lo]. cbn in *. subst cr.
  destruct lo; (split; [eexists i, _; split; [by apply Hput|done]|done|done]).
Qed.

Lemma add_keys_represents M pool : length M = 32%nat -> forall s r, represents M s r -> kr_locked r = false -> Forall (fun k => 0 <= secret k < 2 ^ 256) pool ->
  exists s', add_keys pool s = Some s' /\ represents M s' {| kr_keys := with_pool (kr_keys r) pool; kr_scripts := kr_scripts r; kr_crypted := kr_crypted r; kr_locked := false |}.
Proof.
  intros HM. induction pool as [|k pool IH]; intros s r Hr Hl Hp; cbn [add_keys with_pool foldl]; [exists s; split; [done|]; destruct r; cbn in *; by subst|].
  inversion Hp as [|? ? Hk Hp']. subst. destruct (represents_insert M HM s r k Hr Hk Hl) as (s1 & -> & H1). destruct (IH s1 _ H1 eq_refl Hp') as (s2 & -> & H2). by exists s2.
Qed.
Lemma EncryptWallet_opens w r pass M salt n1 n2 pool : length M = 32%nat -> length salt = 8%nat -> represents M (w_store w) r -> kr_crypted r = false -> mapMasterKeys w = ∅ ->
  Forall (fun k => 0 <= secret k < 2 ^ 256) pool -> exists w', EncryptWallet w pass M salt n1 n2 pool = Some (true, w') /\
  opens pass M w' {| kr_keys := with_pool (kr_keys r) pool; kr_scripts := kr_scripts r; kr_crypted := true; kr_locked := true |}.
Proof.
  intros HM Hs Hr Hc Hm Hp. unfold EncryptWallet, IsCrypted. rewrite (rep_crypted _ _ _ Hr), Hc. set (k0 := {| vchCryptedKey := []; vchSalt := salt; nDerivationMethod := 0; nDeriveIterations := 25000 |}).
  destruct (SetKeyFrom new_crypter pass k0) as [b1 c1]. destruct (SetKeyFrom c1 pass _) as [b2 c2].
  destruct (Encrypt_opened pass M (with_iterations k0 (Z.max 25000 n2)) c2 HM Hs ltac:(cbn; lia) eq_refl) as (c3 & ct & -> & -> & Hop). cbn [negb].
  destruct (represents_EncryptKeys M HM _ _ Hr Hc) as (s1 & -> & H1). cbn [negb]. pose proof (locked_store M _ _ HM H1 eq_refl) as H2. destruct (Lock s1) as [b s2]. cbn [snd kr_keys kr_scripts] in H2.
  rewrite Hm, insert_empty. set (w2 := {| w_store := s2; mapMasterKeys := _; nMasterKeyMaxID := _ |}).
  assert (Hw2 : opens pass M w2 {| kr_keys := kr_keys r; kr_scripts := kr_scripts r; kr_crypted := true; kr_locked := true |}) by (split; [by eexists _, _|done|done]).
  destruct (wallet_Unlock_opens pass M w2 _ HM Hw2 eq_refl) as (w3 & -> & [Hm3 Hr3 _]). cbn [kr_keys kr_scripts] in Hr3. rewrite (represents_locked M HM _ _ Hr3). cbn [kr_locked].
  destruct (add_keys_represents M pool HM _ _ Hr3 eq_refl Hp) as (s4 & -> & H4). cbn [kr_keys kr_scripts kr_crypted] in H4. pose proof (locked_store M _ _ HM H4 eq_refl) as H5. destruct (Lock s4) as [b5 s5].
  eexists. split; [done|]. by split.
Qed.

(** C38: An encrypted key store is the map from names to keys it was before: whatever keys and scripts are added, whenever the keys are encrypted and
    however often the store is locked and unlocked with its master key, each operation answers as on that map, and so do the queries: the names and
    the public keys are there at any time, the keys themselves, unchanged, exactly while the store is not locked. *)
Theorem keystore_refines M ops : length M = 32%nat -> Forall fits ops ->
  exists s, store_run M ops new_store = Some ((spec_run ops new_keyring).1, s) /\ answers s (spec_run ops new_keyring).2.
Proof.
  intros HM Hf. destruct (represents_run M HM ops new_store new_keyring (represents_new M) Hf) as (s & H1 & H2). exists s. split; [done|]. by apply (represents_answers M HM).
Qed.

(** A wallet that is encrypted and unlocked signs as before: if its keys are encrypted and the store is unlocked with the master key, SignSignature
    gives the same signatures, transactions and verdicts as it gave on the plain store. *)
Theorem encryption_keeps_signatures {B : OpenSSLBN} {E : CacheEnv} M ops : length M = 32%nat -> Forall fits ops -> kr_crypted (spec_run ops new_keyring).2 = false ->
  exists bs s s1 s2, store_run M ops new_store = Some (bs, s) /\ EncryptKeys s M = Some (true, s1) /\ Unlock s1 M = (true, s2) /\ IsCrypted s2 = true /\ mapKeys s2 = ∅ /\
    forall fromPubKey txTo nIn nHashType cache, SignSignature (as_keystore s2) fromPubKey txTo nIn nHashType cache = SignSignature (as_keystore s) fromPubKey txTo nIn nHashType cache.
Proof.
  intros HM Hf Hc. destruct (represents_run M HM ops new_store new_keyring (represents_new M) Hf) as (s & H1 & H2). set (r := (spec_run ops new_keyring).2) in *.
  destruct (represents_EncryptKeys M HM s r H2 Hc) as (s1 & He & H3). destruct (represents_step M HM s1 _ OUnlock H3 I) as (s2 & Hu & H4). cbn [spec_step kr_crypted orb fst snd store_step kr_keys kr_scripts] in Hu, H4. injection Hu as Hu.
  exists (spec_run ops new_keyring).1, s, s1, s2. split_and!; [done|done|done|by rewrite (ans_crypted _ _ (represents_answers M HM _ _ H4))|by rewrite (rep_plain _ _ _ H4)|].
  pose proof (represents_answers M HM _ _ H2) as A. pose proof (represents_answers M HM _ _ H4) as A2. intros. apply SignSignature_same; intros x; cbn.
  - by rewrite (ans_GetKey _ _ A), (ans_GetKey _ _ A2), (rep_unlocked _ _ _ H2 Hc).
  - by rewrite (ans_GetPubKey _ _ A), (ans_GetPubKey _ _ A2).
  - by rewrite (ans_GetCScript _ _ A), (ans_GetCScript _ _ A2).
Qed.

(** A wrong master key: a store that holds keys is only unlocked by a master key that decrypts one of them to the secret of the public key stored
    with it; otherwise the master key in memory stays as it was. *)
Theorem Unlock_checks s M' s' ok : Unlock s M' = (ok, s') -> mapCryptedKeys s <> ∅ ->
  if ok then exists a vchPubKey c vchSecret key, mapCryptedKeys s !! a = Some (vchPubKey, c) /\ DecryptSecret M' c (Hash vchPubKey) = Some vchSecret /\
    secret key = be_val vchSecret /\ secret_pubkey key = vchPubKey /\ vMasterKey s' = M'
  else vMasterKey s' = vMasterKey s /\ mapCryptedKeys s' = mapCryptedKeys s.
Proof.
  intros H Hne. unfold Unlock, SetCrypted in H. assert (Hc : forall b s0, (if fUseCrypto s then (true, s) else if negb (bool_decide (mapKeys s = ∅)) then (false, s) else (true, use_crypto s)) = (b, s0) ->
    mapCryptedKeys s0 = mapCryptedKeys s /\ vMasterKey s0 = vMasterKey s) by (intros b s0; destruct (fUseCrypto s); [|destruct (negb _)]; intros [= <- <-]; split; reflexivity).
  destruct (if fUseCrypto s then _ else _) as [b s0]. destruct (Hc _ _ eq_refl) as [Hc1 Hc2]. destruct b; cbn [negb] in H; [|by injection H as <- <-].
  destruct (master_key_fits s0 M') eqn:Hf; cbn [negb] in H; injection H as <- <-; [|done]. unfold master_key_fits in Hf. rewrite Hc1 in Hf.
  destruct (first_entry (mapCryptedKeys s)) as [[vchPubKey c]|] eqn:Ef; [|by apply first_entry_None in Ef]. destruct (first_entry_lookup _ _ Ef) as [a Ha].
  destruct (DecryptSecret M' c (Hash vchPubKey)) as [vs|] eqn:Ed; [|done]. unfold SetSecret in Hf. destruct (negb _); [done|]. apply bool_decide_eq_true_1 in Hf.
  by exists a, vchPubKey, c, vs, {| secret := be_val vs; sec_compressed := false || SetPubKey_flag false vchPubKey |}.
Qed.

(** The passphrase: EncryptWallet leaves the wallet locked with the keys it had and those of the new pool; the passphrase unlocks it; after
    ChangeWalletPassphrase, whatever the measured number of rounds, the new passphrase unlocks it, and still to the same keys. *)
Theorem passphrase_opens w r pass pass2 M salt n1 n2 n3 n4 pool : length M = 32%nat -> length salt = 8%nat ->
  represents M (w_store w) r -> kr_crypted r = false -> mapMasterKeys w = ∅ -> Forall (fun k => 0 <= secret k < 2 ^ 256) pool ->
  let keys lo := {| kr_keys := with_pool (kr_keys r) pool; kr_scripts := kr_scripts r; kr_crypted := true; kr_locked := lo |} in
  exists w1 w2 w3 w4, EncryptWallet w pass M salt n1 n2 pool = Some (true, w1) /\ answers (w_store w1) (keys true) /\
    wallet_Unlock w1 pass = (true, w2) /\ answers (w_store w2) (keys false) /\
    ChangeWalletPassphrase w1 pass pass2 n3 n4 = (true, w3) /\ answers (w_store w3) (keys true) /\
    wallet_Unlock w3 pass2 = (true, w4) /\ answers (w_store w4) (keys false).
Proof.
  intros HM Hs Hr Hc Hm Hp keys. destruct (EncryptWallet_opens w r pass M salt n1 n2 pool HM Hs Hr Hc Hm Hp) as (w1 & E1 & H1).
  destruct (wallet_Unlock_opens pass M w1 _ HM H1 eq_refl) as (w2 & E2 & H2). destruct (ChangeWalletPassphrase_opens pass pass2 M w1 _ n3 n4 HM H1) as (w3 & E3 & H3).
  destruct (wallet_Unlock_opens pass2 M w3 _ HM H3 eq_refl) as (w4 & E4 & H4). exists w1, w2, w3, w4.
  split_and!; try done; apply (represents_answers M HM); by apply op_store with (pass := _) || (eapply op_store; eauto).
Qed.

(** [GetKey] of an encrypted store does not reset the object it fills: an object that held a compressed key before gets an uncompressed key with the flag of a compressed one, so
    another public key. *)
Theorem GetKey_stale_flag M s r a key : length M = 32%nat -> represents M s r -> kr_crypted r = true -> kr_locked r = false -> kr_keys r !! a = Some key -> sec_compressed key = false ->
  GetKey s true a = Found {| secret := secret key; sec_compressed := true |} /\ secret_pubkey {| secret := secret key; sec_compressed := true |} <> secret_pubkey key.
Proof.
  intros HM Hr Hc Hl Hk Hf. rewrite (represents_GetKey M HM s r true a Hr), Hk, Hl, Hc, Hf. split; [done|]. unfold secret_pubkey. rewrite Hf. cbn [sec_compressed secret]. intros H.
  apply (f_equal length) in H. by rewrite !i2o_len in H.
Qed.
End Passphrases.

(** ** An instance

    Not a secure one: the ciphertext is the key and the plaintext, so that a wrong key is noticed; the key is the passphrase, padded. *)

#[export] Instance ToyCipher : Cipher := {|
  EVP_Encrypt key iv p := Some (take 32 (key ++ repeat 0 32) ++ p);
  EVP_Decrypt key iv c := if bool_decide (take 32 c = take 32 (key ++ repeat 0 32)) then Some (drop 32 c) else None;
  EVP_BytesToKey pass salt n := Some (take 32 (pass ++ repeat 0 32), repeat 0 16) |}.
#[export] Instance ToyCipher_laws : CipherLaws ToyCipher.
Proof.
  assert (H32 : forall l : bytes, length (take 32 (l ++ repeat 0 32)) = 32%nat) by (intros l; rewrite length_take, length_app, repeat_length; lia). split; cbn [EVP_Encrypt EVP_Decrypt EVP_BytesToKey ToyCipher].
  - by eauto.
  - intros key iv p c [= <-]. rewrite take_app_length', drop_app_length' by by rewrite H32. by rewrite bool_decide_eq_true_2.
  - by eauto.
  - intros pass salt n key iv [= <- <-]. by rewrite H32.
Qed.

Definition demo_master : bytes := repeat 7 32.
Definition demo_key : CSecretKey := {| secret := 5; sec_compressed := true |}.
Definition demo_ops : list operation := [OAddKey demo_key; OEncryptKeys; OAddKey demo_key; OUnlock; OAddKey demo_key; OLock].
Example demo_run : (spec_run (K := ToyCrypto) demo_ops new_keyring).1 = [true; true; false; true; true; true].
Proof. vm_compute. done. Qed.

Lemma keystore_refines_witness : exists s, store_run (K := ToyCrypto) (C := ToyCipher) demo_master demo_ops new_store = Some ((spec_run demo_ops new_keyring).1, s) /\
  answers s (spec_run demo_ops new_keyring).2.
Proof.
  apply (keystore_refines (K := ToyCrypto) (C := ToyCipher) demo_master demo_ops); [reflexivity|]. unfold demo_ops. repeat constructor; cbn; lia.
Defined.
Lemma encryption_keeps_signatures_witness : exists bs s s1 s2, store_run (K := ToyCrypto) (C := ToyCipher) demo_master [OAddKey demo_key] new_store = Some (bs, s) /\
  EncryptKeys s demo_master = Some (true, s1) /\ Unlock s1 demo_master = (true, s2) /\ IsCrypted s2 = true /\ mapKeys s2 = ∅ /\
    forall fromPubKey txTo nIn nHashType cache, SignSignature (B := ZBN) (as_keystore s2) fromPubKey txTo nIn nHashType cache = SignSignature (as_keystore s) fromPubKey txTo nIn nHashType cache.
Proof.
  apply (encryption_keeps_signatures (K := ToyCrypto) (C := ToyCipher) (B := ZBN) demo_master [OAddKey demo_key]); [reflexivity| |reflexivity].
  repeat constructor; cbn; lia.
Defined.

(** a wallet with one key, not encrypted, and one that was *)
Definition demo_ring : keyring := {| kr_keys := <[GetID (K := ToyCrypto) (secret_pubkey (K := ToyCrypto) demo_key) := demo_key]> ∅; kr_scripts := ∅; kr_crypted := false; kr_locked := false |}.
Definition demo_wallet : wallet_keys := {| w_store := basic_AddKey (K := ToyCrypto) new_store demo_key; mapMasterKeys := ∅; nMasterKeyMaxID := 0 |}.
Lemma demo_represents : represents (K := ToyCrypto) (C := ToyCipher) demo_master (w_store demo_wallet) demo_ring.
Proof.
  destruct (represents_insert (K := ToyCrypto) (C := ToyCipher) demo_master eq_refl new_store new_keyring demo_key (represents_new demo_master)) as (s & E & H); [cbn; lia|reflexivity|].
  unfold AddKey in E. cbn [IsCrypted new_store fUseCrypto negb] in E. injection E as <-. exact H.
Qed.
Lemma passphrase_opens_witness : let keys lo := {| kr_keys := with_pool (K := ToyCrypto) (kr_keys demo_ring) [{| secret := 6; sec_compressed := false |}]; kr_scripts := ∅; kr_crypted := true; kr_locked := lo |} in
  exists w1 w2 w3 w4, EncryptWallet (K := ToyCrypto) (C := ToyCipher) demo_wallet [1; 2] demo_master (repeat 0 8) 0 0 [{| secret := 6; sec_compressed := false |}] = Some (true, w1) /\ answers (w_store w1) (keys true) /\
    wallet_Unlock w1 [1; 2] = (true, w2) /\ answers (w_store w2) (keys false) /\
    ChangeWalletPassphrase w1 [1; 2] [3] 0 0 = (true, w3) /\ answers (w_store w3) (keys true) /\
    wallet_Unlock w3 [3] = (true, w4) /\ answers (w_store w4) (keys false).
Proof.
  apply (passphrase_opens (K := ToyCrypto) (C := ToyCipher) demo_wallet demo_ring [1; 2] [3] demo_master (repeat 0 8) 0 0 0 0 [{| secret := 6; sec_compressed := false |}]);
    [reflexivity|reflexivity|exact demo_represents|reflexivity|reflexivity|repeat constructor; cbn; lia].
Defined.
(** an encrypted store with the key 5 under the key 7..., and an attempt with it *)
Definition demo_sealed : CCryptoKeyStore := {| mapKeys := ∅; mapScripts := ∅; mapCryptedKeys := {[GetID (K := ToyCrypto) (secret_pubkey (K := ToyCrypto) demo_key) := sealed (K := ToyCrypto) (C := ToyCipher) demo_master demo_key]}; vMasterKey := []; fUseCrypto := true |}.
Lemma Unlock_checks_witness : exists a vchPubKey c vchSecret key, mapCryptedKeys demo_sealed !! a = Some (vchPubKey, c) /\
  DecryptSecret (C := ToyCipher) demo_master c (Hash (K := ToyCrypto) vchPubKey) = Some vchSecret /\ secret key = be_val vchSecret /\ secret_pubkey (K := ToyCrypto) key = vchPubKey /\ vMasterKey (with_master demo_sealed demo_master) = demo_master.
Proof.
  refine (Unlock_checks (K := ToyCrypto) (C := ToyCipher) demo_sealed demo_master (with_master demo_sealed demo_master) true _ _); [vm_compute; reflexivity|].
  cbn [mapCryptedKeys demo_sealed]. apply map_non_empty_singleton.
Defined.
Definition demo_uncompressed : CSecretKey := {| secret := 6; sec_compressed := false |}.
Lemma GetKey_stale_flag_witness : exists s, GetKey (K := ToyCrypto) (C := ToyCipher) s true (GetID (K := ToyCrypto) (secret_pubkey (K := ToyCrypto) demo_uncompressed)) = Found {| secret := 6; sec_compressed := true |} /\
  secret_pubkey (K := ToyCrypto) {| secret := 6; sec_compressed := true |} <> secret_pubkey (K := ToyCrypto) demo_uncompressed.
Proof.
  destruct (represents_run (K := ToyCrypto) (C := ToyCipher) demo_master eq_refl [OAddKey demo_uncompressed; OEncryptKeys; OUnlock] new_store new_keyring (represents_new demo_master)) as (s & _ & Hr);
    [repeat constructor; cbn; lia|]. exists s.
  refine (GetKey_stale_flag (K := ToyCrypto) (C := ToyCipher) demo_master s _ _ demo_uncompressed eq_refl Hr eq_refl eq_refl _ eq_refl). cbn [spec_run spec_step new_keyring kr_locked kr_crypted fst snd kr_keys]. apply lookup_insert_eq.
Defined.
