(* ===== verification/KeyPool.v ===== *)
(** * The key pool (wallet.h, wallet.cpp)

    Keys generated ahead of their use: the set of their indices, their records in the wallet file, and the operations that reserve, keep and return
    one.  The source of random keys is a function of a counter; the wallet file accepts every write; the time is an argument.  The properties: as long as
    the last key of the pool is not reserved while the wallet is locked, a key that was kept or is reserved is not handed out again ([drained_pool_repeats] is what
    happens otherwise); every key handed out is one of the key store; and while the wallet is not locked there is always one. *)

From stdpp Require Import gmap sorting.
From S2P Require Import Prelude OpenSSL BigNum Serialize Crypto Script Transaction ScriptEval ScriptStd KeyStore.
Local Open Scope Z_scope.

Definition FEATURE_WALLETCRYPT : Z := 40000.
Definition FEATURE_COMPRPUBKEY : Z := 60000.
Definition FEATURE_LATEST : Z := 60000.

Record CKeyPool := { kp_nTime : Z; kp_vchPubKey : bytes }.
(** [pool_file]: the pool records of the wallet file; [generated]: how many keys were drawn *)
Record key_pool := {
  pool_keys : CCryptoKeyStore; setKeyPool : gset Z; pool_file : gmap Z CKeyPool; vchDefaultKey : bytes; nWalletVersion : Z; nWalletMaxVersion : Z; generated : nat }.

(** the first and the last element *)
Definition pool_first (s : gset Z) : option Z := head (merge_sort Z.le (elements s)).
Definition pool_last (s : gset Z) : option Z := last (merge_sort Z.le (elements s)).

(** A [CReserveKey]; -1: none *)
Record CReserveKey := { rk_nIndex : Z; rk_vchPubKey : bytes }.
Definition new_reserve : CReserveKey := {| rk_nIndex := -1; rk_vchPubKey := [] |}.

Section KeyPool.
Context {K : Crypto} {C : Cipher}.
(** the secrets that [EC_KEY_generate_key] draws, one after the other *)
Variable draw : nat -> Z.

Definition with_store (p : key_pool) s := {| pool_keys := s; setKeyPool := setKeyPool p; pool_file := pool_file p; vchDefaultKey := vchDefaultKey p; nWalletVersion := nWalletVersion p; nWalletMaxVersion := nWalletMaxVersion p; generated := generated p |}.
Definition with_pool (p : key_pool) s f := {| pool_keys := pool_keys p; setKeyPool := s; pool_file := f; vchDefaultKey := vchDefaultKey p; nWalletVersion := nWalletVersion p; nWalletMaxVersion := nWalletMaxVersion p; generated := generated p |}.
Definition with_version (p : key_pool) v m := {| pool_keys := pool_keys p; setKeyPool := setKeyPool p; pool_file := pool_file p; vchDefaultKey := vchDefaultKey p; nWalletVersion := v; nWalletMaxVersion := m; generated := generated p |}.
Definition drawn (p : key_pool) := {| pool_keys := pool_keys p; setKeyPool := setKeyPool p; pool_file := pool_file p; vchDefaultKey := vchDefaultKey p; nWalletVersion := nWalletVersion p; nWalletMaxVersion := nWalletMaxVersion p; generated := S (generated p) |}.
Definition SetDefaultKey (p : key_pool) vchPubKey := {| pool_keys := pool_keys p; setKeyPool := setKeyPool p; pool_file := pool_file p; vchDefaultKey := vchPubKey; nWalletVersion := nWalletVersion p; nWalletMaxVersion := nWalletMaxVersion p; generated := generated p |}.

Definition CanSupportFeature (p : key_pool) (wf : Z) : bool := wf <=? nWalletMaxVersion p.
Definition SetMinVersion (p : key_pool) (nVersion : Z) (fExplicit : bool) : key_pool :=
  if nVersion <=? nWalletVersion p then p
  else
    let nVersion := if fExplicit && (nWalletMaxVersion p <? nVersion) then FEATURE_LATEST else nVersion in
    with_version p nVersion (Z.max (nWalletMaxVersion p) nVersion).
Definition SetMaxVersion (p : key_pool) (nVersion : Z) : bool * key_pool :=
  if nVersion <? nWalletVersion p then (false, p) else (true, with_version p (nWalletVersion p) nVersion).
Definition LoadMinVersion (p : key_pool) (nVersion : Z) : key_pool := with_version p nVersion (Z.max (nWalletMaxVersion p) nVersion).

(** [None]: an exception *)
Definition GenerateNewKey (p : key_pool) : option (bytes * key_pool) :=
  let fCompressed := CanSupportFeature p FEATURE_COMPRPUBKEY in
  let key := {| secret := draw (generated p); sec_compressed := fCompressed |} in
  let p := drawn p in
  let p := if fCompressed then SetMinVersion p FEATURE_COMPRPUBKEY false else p in
  let '(ok, s) := AddKey (pool_keys p) key in
  if negb ok then None else Some (secret_pubkey key, with_store p s).

(** one more key under the index after the last; [nEnd] *)
Definition add_pool_key (now nEnd : Z) (p : key_pool) : option key_pool :=
  let? (vchPubKey, p) := GenerateNewKey p in
  Some (with_pool p ({[nEnd]} ∪ setKeyPool p) (<[nEnd := {| kp_nTime := now; kp_vchPubKey := vchPubKey |}]> (pool_file p))).
(** as long as the pool is not full, at most [fuel] keys *)
Fixpoint top_up (fuel : nat) (now : Z) (nTargetSize : nat) (p : key_pool) : option key_pool :=
  if bool_decide (size (setKeyPool p) < nTargetSize + 1)%nat then
    match fuel with
    | O => None
    | S fuel =>
      let? p := add_pool_key now (match pool_last (setKeyPool p) with Some n => n + 1 | None => 1 end) p in
      top_up fuel now nTargetSize p
    end
  else Some p.
Definition TopUpKeyPool (now nTarget : Z) (p : key_pool) : option (bool * key_pool) :=
  if IsLocked (pool_keys p) then Some (false, p)
  else let nTargetSize := Z.to_nat (Z.max nTarget 0) in let? p := top_up (nTargetSize + 1) now nTargetSize p in Some (true, p).

Fixpoint new_pool_keys (n : nat) (i : Z) (now : Z) (p : key_pool) : option key_pool :=
  match n with O => Some p | S n => let? p := add_pool_key now i p in new_pool_keys n (i + 1) now p end.
Definition NewKeyPool (now nTarget : Z) (p : key_pool) : option (bool * key_pool) :=
  let p := with_pool p ∅ (filter (fun x => x.1 ∉ setKeyPool p) (pool_file p)) in
  if IsLocked (pool_keys p) then Some (false, p)
  else let? p := new_pool_keys (Z.to_nat (Z.max nTarget 0)) 1 now p in Some (true, p).

(** the index, -1 for none, and the record; [None]: an exception or a failed assertion *)
Definition ReserveKeyFromKeyPool (now nTarget : Z) (p : key_pool) : option (Z * CKeyPool * key_pool) :=
  let none := {| kp_nTime := now; kp_vchPubKey := [] |} in
  let? p := if negb (IsLocked (pool_keys p)) then let? (_, p) := TopUpKeyPool now nTarget p in Some p else Some p in
  match pool_first (setKeyPool p) with
  | None => Some (-1, none, p)
  | Some nIndex =>
    let p := with_pool p (setKeyPool p ∖ {[nIndex]}) (pool_file p) in
    let? keypool := pool_file p !! nIndex in
    if negb (HaveKey (pool_keys p) (GetID (kp_vchPubKey keypool))) then None
    else if negb (Crypto.IsValid (kp_vchPubKey keypool)) then None
    else Some (nIndex, keypool, p)
  end.
Definition AddReserveKey (keypool : CKeyPool) (p : key_pool) : option (Z * key_pool) :=
  let? n := pool_last (setKeyPool p) in
  let nIndex := n + 1 in
  Some (nIndex, with_pool p ({[nIndex]} ∪ setKeyPool p) (<[nIndex := keypool]> (pool_file p))).
Definition pool_KeepKey (nIndex : Z) (p : key_pool) : key_pool := with_pool p (setKeyPool p) (delete nIndex (pool_file p)).
Definition pool_ReturnKey (nIndex : Z) (p : key_pool) : key_pool := with_pool p ({[nIndex]} ∪ setKeyPool p) (pool_file p).
(** the verdict and the key *)
Definition GetKeyFromPool (now nTarget : Z) (fAllowReuse : bool) (p : key_pool) : option (option bytes * key_pool) :=
  let? (nIndex, keypool, p) := ReserveKeyFromKeyPool now nTarget p in
  if nIndex =? -1 then
    if fAllowReuse && Crypto.IsValid (vchDefaultKey p) then Some (Some (vchDefaultKey p), p)
    else if IsLocked (pool_keys p) then Some (None, p)
    else let? (result, p) := GenerateNewKey p in Some (Some result, p)
  else Some (Some (kp_vchPubKey keypool), pool_KeepKey nIndex p).
Definition GetOldestKeyPoolTime (now nTarget : Z) (p : key_pool) : option (Z * key_pool) :=
  let? (nIndex, keypool, p) := ReserveKeyFromKeyPool now nTarget p in
  if nIndex =? -1 then Some (now, p) else Some (kp_nTime keypool, pool_ReturnKey nIndex p).
Fixpoint reserve_ids (l : list Z) (p : key_pool) : option (gset Z) :=
  match l with
  | [] => Some ∅
  | id :: r =>
    let? keypool := pool_file p !! id in
    if negb (Crypto.IsValid (kp_vchPubKey keypool)) then None
    else if negb (HaveKey (pool_keys p) (GetID (kp_vchPubKey keypool))) then None
    else let? s := reserve_ids r p in Some ({[GetID (kp_vchPubKey keypool)]} ∪ s)
  end.
Definition GetAllReserveKeys (p : key_pool) : option (gset Z) := reserve_ids (merge_sort Z.le (elements (setKeyPool p))) p.

(** [None]: an exception; the verdict with the key *)
Definition GetReservedKey (now nTarget : Z) (r : CReserveKey) (p : key_pool) : option (option bytes * CReserveKey * key_pool) :=
  let? (ok, r, p) :=
    if rk_nIndex r =? -1 then
      let? (nIndex, keypool, p) := ReserveKeyFromKeyPool now nTarget p in
      if negb (nIndex =? -1) then Some (true, {| rk_nIndex := nIndex; rk_vchPubKey := kp_vchPubKey keypool |}, p)
      else if Crypto.IsValid (vchDefaultKey p) then Some (true, {| rk_nIndex := -1; rk_vchPubKey := vchDefaultKey p |}, p)
      else Some (false, {| rk_nIndex := -1; rk_vchPubKey := rk_vchPubKey r |}, p)
    else Some (true, r, p) in
  if negb ok then Some (None, r, p)
  else if negb (Crypto.IsValid (rk_vchPubKey r)) then None
  else Some (Some (rk_vchPubKey r), r, p).
Definition KeepKey (r : CReserveKey) (p : key_pool) : CReserveKey * key_pool := (new_reserve, if negb (rk_nIndex r =? -1) then pool_KeepKey (rk_nIndex r) p else p).
Definition ReturnKey (r : CReserveKey) (p : key_pool) : CReserveKey * key_pool := (new_reserve, if negb (rk_nIndex r =? -1) then pool_ReturnKey (rk_nIndex r) p else p).
End KeyPool.

(** ** Reserving, keeping and returning *)

(** the pool, the keys that are reserved, and those that were kept *)
Record pool_world := { w_pool : key_pool; w_held : list (Z * bytes); w_kept : list bytes }.

Section Steps.
Context {K : Crypto} {C : Cipher}.
Variables (draw : nat -> Z) (now nTarget : Z).

Inductive pool_step (M : bytes) : pool_world -> pool_world -> Prop :=
| step_top_up p held kept b p' : TopUpKeyPool draw now nTarget p = Some (b, p') ->
    pool_step M {| w_pool := p; w_held := held; w_kept := kept |} {| w_pool := p'; w_held := held; w_kept := kept |}
| step_reserve p held kept i k p' : ReserveKeyFromKeyPool draw now nTarget p = Some (i, k, p') -> i <> -1 ->
    pool_step M {| w_pool := p; w_held := held; w_kept := kept |} {| w_pool := p'; w_held := (i, kp_vchPubKey k) :: held; w_kept := kept |}
| step_keep p held1 i b held2 kept :
    pool_step M {| w_pool := p; w_held := held1 ++ (i, b) :: held2; w_kept := kept |} {| w_pool := pool_KeepKey i p; w_held := held1 ++ held2; w_kept := b :: kept |}
| step_return p held1 i b held2 kept :
    pool_step M {| w_pool := p; w_held := held1 ++ (i, b) :: held2; w_kept := kept |} {| w_pool := pool_ReturnKey i p; w_held := held1 ++ held2; w_kept := kept |}
| step_generate p held kept b p' : GenerateNewKey draw p = Some (b, p') ->
    pool_step M {| w_pool := p; w_held := held; w_kept := kept |} {| w_pool := p'; w_held := held; w_kept := b :: kept |}
| step_lock p held kept : pool_step M {| w_pool := p; w_held := held; w_kept := kept |} {| w_pool := with_store p (Lock (pool_keys p)).2; w_held := held; w_kept := kept |}
| step_unlock p held kept : pool_step M {| w_pool := p; w_held := held; w_kept := kept |} {| w_pool := with_store p (Unlock (pool_keys p) M).2; w_held := held; w_kept := kept |}.

(** A locked wallet does not fill its pool.  Here its last key is not reserved: the indices start again at 1 in a pool that was emptied, those
    of the keys that are still reserved included ([drained_pool_repeats]). *)
Definition careful_step (M : bytes) (w w' : pool_world) : Prop := pool_step M w w' /\
  (IsLocked (pool_keys (w_pool w)) = true -> setKeyPool (w_pool w) ≠ ∅ -> setKeyPool (w_pool w') ≠ ∅).

(** a key of the source of random keys *)
Definition made (p : key_pool) (b : bytes) : Prop := exists j f, (j < generated p)%nat /\ b = secret_pubkey {| secret := draw j; sec_compressed := f |}.
Definition have (p : key_pool) (b : bytes) : Prop := HaveKey (pool_keys p) (GetID b) = true.
(** a master key, when there is one, has 32 bytes; a plain store has none *)
Definition master_ok (s : CCryptoKeyStore) : Prop := (fUseCrypto s = false -> vMasterKey s = []) /\ (vMasterKey s = [] \/ length (vMasterKey s) = 32%nat).
Record pool_ok (p : key_pool) (held : list (Z * bytes)) (kept : list bytes) : Prop := {
  ok_entry i : i ∈ setKeyPool p -> 1 <= i /\ is_Some (pool_file p !! i);
  ok_file i k : pool_file p !! i = Some k -> made p (kp_vchPubKey k) /\ have p (kp_vchPubKey k);
  ok_distinct i j ki kj : pool_file p !! i = Some ki -> pool_file p !! j = Some kj -> kp_vchPubKey ki = kp_vchPubKey kj -> i = j;
  ok_held i b : (i, b) ∈ held -> i ∉ setKeyPool p /\ (exists k, pool_file p !! i = Some k /\ kp_vchPubKey k = b) /\ exists n, n ∈ setKeyPool p /\ 1 <= i < n;
  ok_nodup : NoDup held.*1;
  ok_kept b : b ∈ kept -> made p b /\ have p b /\ forall i k, pool_file p !! i = Some k -> kp_vchPubKey k <> b;
  ok_kept_nodup : NoDup kept;
  ok_master : master_ok (pool_keys p);
}.
End Steps.

Section PoolLemmas.
Context {K : Crypto} {KL : CryptoLaws K} {C : Cipher} {CL : CipherLaws C}.
Variables (draw : nat -> Z) (now nTarget : Z).
Variable N : nat.
(** the first [N] keys are distinct *)
Hypothesis draw_fresh : forall i j f g, (i < N)%nat -> (j < N)%nat -> secret_pubkey {| secret := draw i; sec_compressed := f |} = secret_pubkey {| secret := draw j; sec_compressed := g |} -> i = j.

Lemma made_valid p b : made draw p b -> Crypto.IsValid b = true.
Proof. intros (j & f & _ & ->). unfold Crypto.IsValid, secret_pubkey. rewrite i2o_len. by destruct f. Qed.
Lemma sorted_elements s x : x ∈ merge_sort Z.le (elements s) <-> x ∈ (s : gset Z).
Proof. by rewrite merge_sort_Permutation, elem_of_elements. Qed.
Lemma set_begin_spec s : match pool_first s with None => s = ∅ | Some n => n ∈ s /\ forall m, m ∈ s -> n <= m end.
Proof.
  unfold pool_first. pose proof (StronglySorted_merge_sort Z.le (elements s)) as Hs. pose proof (sorted_elements s) as Hm. destruct (merge_sort Z.le (elements s)) as [|n l]; cbn.
  - apply set_eq. intros x. rewrite <- Hm. set_solver.
  - split; [apply Hm; by left|]. intros m Hx. apply Hm in Hx. apply StronglySorted_inv in Hs as [_ Hs]. rewrite Forall_forall in Hs. apply elem_of_cons in Hx as [->|Hx]; [lia|by apply Hs].
Qed.
Lemma set_last_spec s : match pool_last s with None => s = ∅ | Some n => n ∈ s /\ forall m, m ∈ s -> m <= n end.
Proof.
  unfold pool_last. pose proof (StronglySorted_merge_sort Z.le (elements s)) as Hs. pose proof (sorted_elements s) as Hm.
  destruct (merge_sort Z.le (elements s)) as [|n l _] using rev_ind; cbn.
  - apply set_eq. intros x. rewrite <- Hm. set_solver.
  - rewrite last_snoc. split; [apply Hm; set_solver|]. intros m Hx. apply Hm in Hx. apply StronglySorted_app in Hs as (Hs & _ & _). apply elem_of_app in Hx as [Hx|Hx%list_elem_of_singleton]; [|lia].
    apply Hs; [done|by left].
Qed.

Lemma HaveKey_AddKey s key s' : AddKey s key = (true, s') -> IsLocked s' = IsLocked s /\ fUseCrypto s' = fUseCrypto s /\ vMasterKey s' = vMasterKey s /\
  forall a, HaveKey s' a = true <-> HaveKey s a = true \/ a = GetID (secret_pubkey key).
Proof.
  unfold AddKey. destruct (IsCrypted s) eqn:Hc; cbn [negb].
  - destruct (IsLocked s) eqn:Hl; [done|]. destruct (EncryptSecret _ _ _); [|done]. unfold AddCryptedKey, SetCrypted. unfold IsCrypted in Hc. rewrite Hc. cbn [negb]. intros [= <-].
    split_and!; try done. intros a. unfold HaveKey, IsCrypted. cbn. rewrite Hc. cbn [negb]. rewrite !bool_decide_eq_true, lookup_insert_is_Some. destruct (decide (a = GetID (secret_pubkey key))); naive_solver.
  - intros [= <-]. split_and!; try done. intros a. unfold HaveKey, IsCrypted in *. cbn. rewrite Hc. cbn [negb]. rewrite !bool_decide_eq_true, lookup_insert_is_Some. destruct (decide (a = GetID (secret_pubkey key))); naive_solver.
Qed.
Lemma SetMinVersion_fields p v f : pool_keys (SetMinVersion p v f) = pool_keys p /\ setKeyPool (SetMinVersion p v f) = setKeyPool p /\ pool_file (SetMinVersion p v f) = pool_file p /\ generated (SetMinVersion p v f) = generated p.
Proof. unfold SetMinVersion. by destruct (_ <=? _). Qed.

(** a new key: nothing else changes *)
Record extends (p p' : key_pool) (b : bytes) : Prop := {
  ext_set : setKeyPool p' = setKeyPool p; ext_file : pool_file p' = pool_file p; ext_locked : IsLocked (pool_keys p') = IsLocked (pool_keys p);
  ext_crypto : fUseCrypto (pool_keys p') = fUseCrypto (pool_keys p); ext_master : vMasterKey (pool_keys p') = vMasterKey (pool_keys p);
  ext_generated : generated p' = S (generated p); ext_key : exists f, b = secret_pubkey {| secret := draw (generated p); sec_compressed := f |};
  ext_have a : HaveKey (pool_keys p') a = true <-> HaveKey (pool_keys p) a = true \/ a = GetID b }.
Lemma GenerateNewKey_extends p b p' : GenerateNewKey draw p = Some (b, p') -> extends p p' b.
Proof.
  unfold GenerateNewKey. set (c := CanSupportFeature p FEATURE_COMPRPUBKEY). set (q := if c then SetMinVersion (drawn p) FEATURE_COMPRPUBKEY false else drawn p).
  assert (Hq : pool_keys q = pool_keys p /\ setKeyPool q = setKeyPool p /\ pool_file q = pool_file p /\ generated q = S (generated p)) by (unfold q; destruct c; [exact (SetMinVersion_fields (drawn p) _ _)|done]).
  destruct Hq as (Q1 & Q2 & Q3 & Q4). destruct (AddKey (pool_keys q) _) as [ok s] eqn:E. destruct ok; [|done]. cbn [negb]. intros [= <- <-].
  destruct (HaveKey_AddKey _ _ _ E) as (H1 & H2 & H3 & H4). rewrite Q1 in *. split; cbn; try done. by exists c.
Qed.
Lemma GenerateNewKey_unlocked p : IsLocked (pool_keys p) = false -> master_ok (pool_keys p) -> exists b p', GenerateNewKey draw p = Some (b, p').
Proof.
  intros Hl [_ Hmk]. assert (Hm : IsCrypted (pool_keys p) = true -> length (vMasterKey (pool_keys p)) = 32%nat).
  { intros Hc. unfold IsLocked in Hl. rewrite Hc in Hl. cbn [negb] in Hl. by destruct Hmk as [Hn|Hn]; [rewrite Hn in Hl|]. } unfold GenerateNewKey. set (c := CanSupportFeature p FEATURE_COMPRPUBKEY). set (q := if c then SetMinVersion (drawn p) FEATURE_COMPRPUBKEY false else drawn p).
  assert (Hq : pool_keys q = pool_keys p) by (unfold q; destruct c; [exact (proj1 (SetMinVersion_fields (drawn p) _ _))|done]). rewrite Hq.
  assert (exists s, AddKey (pool_keys p) {| secret := draw (generated p); sec_compressed := c |} = (true, s)) as [s ->]; [|cbn; eauto].
  unfold AddKey. rewrite Hl. destruct (IsCrypted (pool_keys p)) eqn:Hc; cbn [negb]; [|eauto].
  destruct (EncryptSecret_total (vMasterKey (pool_keys p)) (Hm eq_refl) (GetSecret {| secret := draw (generated p); sec_compressed := c |}) (secret_pubkey {| secret := draw (generated p); sec_compressed := c |})) as (ct & -> & _).
  unfold AddCryptedKey, SetCrypted. unfold IsCrypted in Hc. rewrite Hc. cbn [negb]. eauto.
Qed.
Lemma made_extends p p' b c : extends p p' b -> made draw p c -> made draw p' c.
Proof. intros H (j & f & Hj & ->). exists j, f. rewrite (ext_generated _ _ _ H). split; [lia|done]. Qed.
Lemma extends_fresh p p' b : extends p p' b -> (generated p' <= N)%nat -> made draw p' b /\ have p' b /\ ~ made draw p b.
Proof.
  intros H HN. rewrite (ext_generated _ _ _ H) in HN. destruct (ext_key _ _ _ H) as [f Hb]. split_and!.
  - exists (generated p), f. rewrite (ext_generated _ _ _ H). split; [lia|done].
  - apply (ext_have _ _ _ H). by right.
  - intros (j & g & Hj & E). rewrite Hb in E. apply draw_fresh in E; lia.
Qed.
Lemma extends_ok p p' b held kept : extends p p' b -> pool_ok draw p held kept -> pool_ok draw p' held kept.
Proof.
  intros He [H1 H2 H3 H4 H5 H6 H7 H8]. destruct He as [Eset Efile El Ec Em Eg Ek Eh] eqn:E. split; unfold master_ok; rewrite ?Eset, ?Efile, ?El, ?Ec, ?Em; try done.
  - intros i k Hk. destruct (H2 i k Hk) as [Hm Hh]. split; [by apply (made_extends _ _ _ _ He)|]. apply Eh. by left.
  - intros c Hc. destruct (H6 c Hc) as (Hm & Hh & Hf). split_and!; [by apply (made_extends _ _ _ _ He)| |done]. apply Eh. by left.
Qed.
Lemma add_pool_key_ok p held kept nEnd : pool_ok draw p held kept -> IsLocked (pool_keys p) = false -> 1 <= nEnd -> (forall m, m ∈ setKeyPool p -> m < nEnd) -> (S (generated p) <= N)%nat ->
  exists p', add_pool_key draw now nEnd p = Some p' /\ pool_ok draw p' held kept /\ setKeyPool p' = {[nEnd]} ∪ setKeyPool p /\ IsLocked (pool_keys p') = false /\ generated p' = S (generated p).
Proof.
  intros Hok Hl H1 Hmax HN. destruct (GenerateNewKey_unlocked p Hl (ok_master _ _ _ _ Hok)) as (b & q & E). pose proof (GenerateNewKey_extends _ _ _ E) as He. unfold add_pool_key. rewrite E.
  eexists. split; [done|]. pose proof (extends_ok _ _ _ _ _ He Hok) as Hq. destruct (extends_fresh _ _ _ He) as (Hm & Hh & Hnm); [by rewrite (ext_generated _ _ _ He)|]. pose proof (ext_set _ _ _ He) as Eset.
  split; [|split; [cbn; by rewrite Eset|split; [cbn; by rewrite (ext_locked _ _ _ He)|apply (ext_generated _ _ _ He)]]].
  assert (Hfresh : forall i k, pool_file q !! i = Some k -> kp_vchPubKey k <> b).
  { intros i k Hk Eb. apply Hnm. rewrite <- Eb. rewrite (ext_file _ _ _ He) in Hk. apply (ok_file _ _ _ _ Hok _ _ Hk). }
  destruct Hq as [Q1 Q2 Q3 Q4 Q5 Q6 Q7 Q8]. split; cbn [with_pool pool_file setKeyPool pool_keys generated]; try done.
  - intros i Hi. rewrite lookup_insert_is_Some. destruct (decide (nEnd = i)) as [->|Hn]; [by split; [|left]|]. destruct (Q1 i ltac:(set_solver)). split; [done|by right].
  - intros i k. rewrite lookup_insert_Some. intros [[<- <-]|[_ Hk]]; [by split|]. by apply Q2 in Hk.
  - intros i j ki kj. rewrite !lookup_insert_Some. intros [[<- <-]|[Hi Hki]] [[<- <-]|[Hj Hkj]] Eb; [done| | |by eapply Q3]; exfalso; [by eapply (Hfresh j)|by eapply (Hfresh i)].
  - intros i c Hic. destruct (Q4 i c Hic) as (A & (k & Hk & Hkb) & n & Hn & Hin). rewrite Eset in *. assert (i <> nEnd) by (specialize (Hmax n Hn); lia). split; [set_solver|]. split.
    + exists k. by rewrite lookup_insert_ne.
    + exists n. split; [set_solver|done].
  - intros c Hc. destruct (Q6 c Hc) as (A & B' & D). split_and!; [done|done|]. intros i k. rewrite lookup_insert_Some. intros [[_ <-]|[_ Hk]]; [|by eapply D].
    cbn. intros ->. destruct (ok_kept _ _ _ _ Hok _ Hc) as (Hmc & _). by apply Hnm.
Qed.
Lemma next_index p : let n := match pool_last (setKeyPool p) with Some n => n + 1 | None => 1 end in
  (forall i, i ∈ setKeyPool p -> 1 <= i) -> 1 <= n /\ forall m, m ∈ setKeyPool p -> m < n.
Proof.
  intros n Hp. pose proof (set_last_spec (setKeyPool p)) as H. subst n. destruct (pool_last (setKeyPool p)) as [n|].
  - destruct H as [H1 H2]. specialize (Hp n H1). split; [lia|]. intros m Hm. specialize (H2 m Hm). lia.
  - rewrite H. split; [lia|]. intros m Hm. set_solver.
Qed.
Lemma add_pool_key_count p nEnd q : add_pool_key draw now nEnd p = Some q -> setKeyPool q = {[nEnd]} ∪ setKeyPool p /\ generated q = S (generated p).
Proof.
  unfold add_pool_key. destruct (GenerateNewKey draw p) as [[b r]|] eqn:E; [|done]. intros [= <-]. pose proof (GenerateNewKey_extends _ _ _ E) as He. cbn. by rewrite (ext_set _ _ _ He), (ext_generated _ _ _ He).
Qed.
Lemma size_next p n : (forall m, m ∈ setKeyPool p -> m < n) -> size ({[n]} ∪ setKeyPool p) = S (size (setKeyPool p)).
Proof. intros H. rewrite size_union, size_singleton; [done|]. intros m Hm%elem_of_singleton Hm2. specialize (H m Hm2). lia. Qed.
(** how many keys are drawn *)
Lemma top_up_count n fuel : forall p p', (forall i, i ∈ setKeyPool p -> 1 <= i) -> top_up draw fuel now n p = Some p' -> generated p' = (generated p + (n + 1 - size (setKeyPool p)))%nat.
Proof.
  induction fuel as [|fuel IH]; intros p p' Hp; cbn [top_up]; case_bool_decide as Hs; [done|intros [= <-]; lia| |intros [= <-]; lia].
  destruct (next_index p Hp) as [H1 H2]. set (nEnd := match pool_last _ with Some n => n + 1 | None => 1 end) in *. destruct (add_pool_key draw now nEnd p) as [q|] eqn:E; [|done].
  destruct (add_pool_key_count _ _ _ E) as [Eq Eg]. intros Ht. apply IH in Ht.
  - rewrite Ht, Eg, Eq, (size_next p nEnd H2). lia.
  - rewrite Eq. intros i [->%elem_of_singleton|Hi]%elem_of_union; [done|by apply Hp].
Qed.
Lemma top_up_ok n fuel : forall p held kept, pool_ok draw p held kept -> IsLocked (pool_keys p) = false -> (n + 1 <= fuel + size (setKeyPool p))%nat ->
  (generated p + (n + 1 - size (setKeyPool p)) <= N)%nat ->
  exists p', top_up draw fuel now n p = Some p' /\ pool_ok draw p' held kept /\ IsLocked (pool_keys p') = false /\ (n + 1 <= size (setKeyPool p'))%nat.
Proof.
  induction fuel as [|fuel IH]; intros p held kept Hok Hl Hf HN; cbn [top_up]; case_bool_decide as Hs; [lia|by exists p; split_and!; try done; lia| |by exists p; split_and!; try done; lia].
  destruct (next_index p ltac:(intros i Hi; apply (ok_entry _ _ _ _ Hok i Hi))) as [H1 H2].
  destruct (add_pool_key_ok p held kept _ Hok Hl H1 H2 ltac:(lia)) as (q & -> & Hq & Eq & Hql & Eg).
  apply (IH q held kept Hq Hql); rewrite ?Eg, Eq, (size_next p _ H2); lia.
Qed.
Definition room (p : key_pool) : Prop := (generated p + (Z.to_nat (Z.max nTarget 0) + 1 - size (setKeyPool p)) <= N)%nat.
Lemma TopUpKeyPool_ok p held kept : pool_ok draw p held kept -> (IsLocked (pool_keys p) = false -> room p) -> exists b p', TopUpKeyPool draw now nTarget p = Some (b, p') /\ pool_ok draw p' held kept /\
  IsLocked (pool_keys p') = IsLocked (pool_keys p) /\ (IsLocked (pool_keys p) = false -> (Z.to_nat (Z.max nTarget 0) + 1 <= size (setKeyPool p'))%nat) /\ (IsLocked (pool_keys p) = true -> p' = p).
Proof.
  intros Hok HN. unfold TopUpKeyPool. destruct (IsLocked (pool_keys p)) eqn:Hl; [exists false, p; by split_and!|].
  destruct (top_up_ok (Z.to_nat (Z.max nTarget 0)) (Z.to_nat (Z.max nTarget 0) + 1) p held kept Hok Hl ltac:(lia) (HN eq_refl)) as (q & -> & Hq & Hql & Hs). exists true, q. by split_and!.
Qed.
Lemma TopUpKeyPool_room p held kept b p' : pool_ok draw p held kept -> TopUpKeyPool draw now nTarget p = Some (b, p') -> (generated p' <= N)%nat -> IsLocked (pool_keys p) = false -> room p.
Proof.
  intros Hok E HN Hl. unfold TopUpKeyPool in E. rewrite Hl in E. destruct (top_up _ _ _ _ p) as [q|] eqn:Et; [|done]. injection E as _ ->.
  apply top_up_count in Et; [unfold room; lia|]. intros i Hi. by apply (ok_entry _ _ _ _ Hok).
Qed.

(** reserving the first of at least two *)
Lemma reserve_ok p held kept : pool_ok draw p held kept -> (1 < size (setKeyPool p))%nat -> exists i k, pool_first (setKeyPool p) = Some i /\ pool_file p !! i = Some k /\
  HaveKey (pool_keys p) (GetID (kp_vchPubKey k)) = true /\ Crypto.IsValid (kp_vchPubKey k) = true /\ 1 <= i /\
  pool_ok draw (with_pool p (setKeyPool p ∖ {[i]}) (pool_file p)) ((i, kp_vchPubKey k) :: held) kept.
Proof.
  intros Hok Hs. pose proof (set_begin_spec (setKeyPool p)) as Hb. destruct (pool_first (setKeyPool p)) as [i|]; [|rewrite Hb, size_empty in Hs; lia]. destruct Hb as [Hi Hmin].
  destruct (ok_entry _ _ _ _ Hok i Hi) as [Hi1 [k Hk]]. destruct (ok_file _ _ _ _ Hok i k Hk) as [Hm Hh]. exists i, k. split_and!; try done; [by apply (made_valid p)|].
  assert (Hbig : exists n, n ∈ setKeyPool p ∖ {[i]} /\ i < n).
  { destruct (set_choose_or_empty (setKeyPool p ∖ {[i]})) as [[n Hn]|He].
    - exists n. split; [done|]. assert (n ∈ setKeyPool p /\ n <> i) as [Hn1 Hn2] by set_solver. specialize (Hmin n Hn1). lia.
    - exfalso. assert (setKeyPool p ⊆ {[i]}) as Hsub by (clear -He; intros x Hx; destruct (decide (x = i)) as [->|Hx2]; [by apply elem_of_singleton|]; destruct (He x) as [He2 _]; exfalso; specialize (He2 ltac:(apply elem_of_difference; rewrite elem_of_singleton; done)); by apply elem_of_empty in He2). apply subseteq_size in Hsub. rewrite size_singleton in Hsub. lia. }
  destruct Hok as [Q1 Q2 Q3 Q4 Q5 Q6 Q7 Q8]. split; cbn [with_pool pool_file setKeyPool pool_keys generated]; try done.
  - intros j Hj. apply Q1. set_solver.
  - intros j b [[= -> ->]|Hj]%elem_of_cons.
    + split; [set_solver|]. split; [by exists k|]. destruct Hbig as (n & Hn & Hin). exists n. split; [done|lia].
    + destruct (Q4 j b Hj) as (A & B' & n & Hn & Hjn). split; [set_solver|]. split; [done|]. destruct (decide (n = i)) as [->|Hni]; [|exists n; split; [set_solver|done]].
      destruct Hbig as (n & Hn' & Hin). exists n. split; [done|lia].
  - cbn. constructor; [|done]. intros Hin. apply list_elem_of_fmap in Hin as ([j b] & -> & Hj). destruct (Q4 j b Hj) as (A & _). by apply A.
Qed.
Lemma ReserveKeyFromKeyPool_ok p held kept : 1 <= nTarget -> pool_ok draw p held kept -> (IsLocked (pool_keys p) = false -> room p) -> (IsLocked (pool_keys p) = true -> (1 < size (setKeyPool p))%nat) ->
  exists i k p', ReserveKeyFromKeyPool draw now nTarget p = Some (i, k, p') /\ 1 <= i /\ pool_ok draw p' ((i, kp_vchPubKey k) :: held) kept.
Proof.
  intros Ht Hok HN Hs. unfold ReserveKeyFromKeyPool.
  assert (exists q, (if negb (IsLocked (pool_keys p)) then let? (_, p) := TopUpKeyPool draw now nTarget p in Some p else Some p) = Some q /\ pool_ok draw q held kept /\ (1 < size (setKeyPool q))%nat) as (q & -> & Hq & Hsq).
  { destruct (IsLocked (pool_keys p)) eqn:Hl; cbn [negb]; [exists p; by split_and!; auto|]. destruct (TopUpKeyPool_ok p held kept Hok) as (b & q & -> & Hq & _ & Hsz & _); [by intros _; apply HN|]. exists q. split_and!; try done.
    specialize (Hsz Hl). lia. }
  destruct (reserve_ok q held kept Hq Hsq) as (i & k & -> & Hk & Hh & Hv & Hi & Hq'). cbn [with_pool pool_file pool_keys]. rewrite Hk, Hh, Hv. cbn [negb]. eauto 10.
Qed.
(** *** The other steps *)
Lemma pool_ok_held p held held' kept : Permutation held held' -> pool_ok draw p held kept -> pool_ok draw p held' kept.
Proof.
  intros Hp [Q1 Q2 Q3 Q4 Q5 Q6 Q7 Q8]. split; try done; [|by rewrite <- Hp]. intros i b Hi. apply Q4. by rewrite Hp.
Qed.
Lemma KeepKey_ok p i b held kept : pool_ok draw p ((i, b) :: held) kept -> pool_ok draw (pool_KeepKey i p) held (b :: kept).
Proof.
  intros [Q1 Q2 Q3 Q4 Q5 Q6 Q7 Q8]. destruct (Q4 i b ltac:(by left)) as (Hi & (k & Hk & Hkb) & n & Hn & Hin). apply NoDup_cons in Q5 as [Hnd Q5].
  split; cbn [pool_KeepKey with_pool pool_file setKeyPool pool_keys]; try done.
  - intros j Hj. destruct (Q1 j Hj). split; [done|]. rewrite lookup_delete_ne; [done|]. intros <-. by apply Hi.
  - intros j kj [_ Hj]%lookup_delete_Some. by apply Q2 in Hj.
  - intros j j' kj kj' [_ Hj]%lookup_delete_Some [_ Hj']%lookup_delete_Some. by eapply Q3.
  - intros j c Hj. destruct (Q4 j c ltac:(by right)) as (A & (kj & Hkj & Hkc) & D). split; [done|]. split; [|done]. exists kj. split; [|done]. rewrite lookup_delete_ne; [done|].
    intros ->. apply Hnd. apply list_elem_of_fmap. by exists (j, c).
  - intros c [->|Hc]%elem_of_cons.
    + destruct (Q2 i k Hk) as [Hm Hh]. rewrite Hkb in *. split_and!; [done|done|]. intros j kj [Hji Hj]%lookup_delete_Some Ec. apply Hji. eapply Q3; [done|done|]. by rewrite Hkb.
    + destruct (Q6 c Hc) as (A & B' & D). split_and!; [done|done|]. intros j kj [_ Hj]%lookup_delete_Some. by apply (D j).
  - constructor; [|done]. intros Hc. destruct (Q6 b Hc) as (_ & _ & D). by apply (D i k).
Qed.
Lemma ReturnKey_ok p i b held kept : pool_ok draw p ((i, b) :: held) kept -> pool_ok draw (pool_ReturnKey i p) held kept.
Proof.
  intros [Q1 Q2 Q3 Q4 Q5 Q6 Q7 Q8]. destruct (Q4 i b ltac:(by left)) as (Hi & (k & Hk & Hkb) & n & Hn & Hin). apply NoDup_cons in Q5 as [Hnd Q5].
  split; cbn [pool_ReturnKey with_pool pool_file setKeyPool pool_keys]; try done.
  - intros j [->%elem_of_singleton|Hj]%elem_of_union; [split; [lia|by exists k]|by apply Q1].
  - intros j c Hj. destruct (Q4 j c ltac:(by right)) as (A & D & m & Hm & Hjm). split; [|split; [done|exists m; split; [apply elem_of_union; by right|done]]].
    intros [->%elem_of_singleton|Hj']%elem_of_union; [|done]. apply Hnd. apply list_elem_of_fmap. by exists (i, c).
Qed.
Lemma GenerateNewKey_ok p held kept b p' : pool_ok draw p held kept -> GenerateNewKey draw p = Some (b, p') -> (generated p' <= N)%nat -> pool_ok draw p' held (b :: kept).
Proof.
  intros Hok E HN. pose proof (GenerateNewKey_extends _ _ _ E) as He. destruct (extends_fresh _ _ _ He HN) as (Hm & Hh & Hnm). pose proof (extends_ok _ _ _ _ _ He Hok) as [Q1 Q2 Q3 Q4 Q5 Q6 Q7 Q8].
  split; try done.
  - intros c [->|Hc]%elem_of_cons; [|by apply Q6]. split_and!; [done|done|]. intros i k Hk Eb. apply Hnm. rewrite <- Eb. rewrite (ext_file _ _ _ He) in Hk. by apply (ok_file _ _ _ _ Hok i).
  - constructor; [|done]. intros Hb. apply Hnm. by apply (ok_kept _ _ _ _ Hok).
Qed.
(** locking and unlocking: no key is lost *)
Lemma store_ok p s held kept : pool_ok draw p held kept -> (forall a, HaveKey (pool_keys p) a = true -> HaveKey s a = true) -> master_ok s -> pool_ok draw (with_store p s) held kept.
Proof.
  intros [Q1 Q2 Q3 Q4 Q5 Q6 Q7 Q8] Hh Hm. split; cbn [with_store pool_file setKeyPool pool_keys]; try done.
  - intros i k Hk. destruct (Q2 i k Hk). split; [done|]. by apply Hh.
  - intros c Hc. destruct (Q6 c Hc) as (A & B' & D). split_and!; [done| |done]. by apply Hh.
Qed.
Lemma SetCrypted_keeps s ok s' : SetCrypted s = (ok, s') -> (forall a, HaveKey s a = true -> HaveKey s' a = true) /\ vMasterKey s' = vMasterKey s /\ (master_ok s -> master_ok s') /\ (ok = true -> fUseCrypto s' = true).
Proof.
  unfold SetCrypted. destruct (fUseCrypto s) eqn:Hc; [intros [= <- <-]; by split_and!|]. case_bool_decide as He; cbn [negb]; intros [= <- <-]; split_and!; try done.
  - intros a. unfold HaveKey, IsCrypted. rewrite Hc. cbn [negb]. rewrite He, lookup_empty, bool_decide_eq_true. by intros [].
  - intros [H1 H2]. by split; [|exact H2].
Qed.
Lemma with_master_ok s k : fUseCrypto s = true -> k = [] \/ length k = 32%nat -> master_ok (with_master s k).
Proof. intros Hc Hk. split; cbn; [by rewrite Hc|done]. Qed.
Lemma Lock_keeps s : master_ok s -> (forall a, HaveKey s a = true -> HaveKey (Lock s).2 a = true) /\ master_ok (Lock s).2.
Proof.
  intros Hm. unfold Lock. destruct (SetCrypted s) as [ok s'] eqn:E. destruct (SetCrypted_keeps _ _ _ E) as (H1 & H2 & H3 & H4). destruct ok; cbn [negb snd]; [|by auto].
  split; [exact H1|]. apply with_master_ok; [by apply H4|by left].
Qed.
Lemma Unlock_keeps s M : length M = 32%nat -> master_ok s -> (forall a, HaveKey s a = true -> HaveKey (Unlock s M).2 a = true) /\ master_ok (Unlock s M).2.
Proof.
  intros HM Hm. unfold Unlock. destruct (SetCrypted s) as [ok s'] eqn:E. destruct (SetCrypted_keeps _ _ _ E) as (H1 & H2 & H3 & H4). destruct ok; cbn [negb snd]; [|by auto].
  destruct (master_key_fits s' M); cbn [negb snd]; [|by auto]. split; [exact H1|]. apply with_master_ok; [by apply H4|by right].
Qed.
Lemma Reserve_room p held kept r : pool_ok draw p held kept -> ReserveKeyFromKeyPool draw now nTarget p = Some r -> (generated r.2 <= N)%nat -> IsLocked (pool_keys p) = false -> room p.
Proof.
  intros Hok E HN Hl. unfold ReserveKeyFromKeyPool in E. rewrite Hl in E. cbn [negb] in E. destruct (TopUpKeyPool draw now nTarget p) as [[b q]|] eqn:Et; [|done].
  eapply TopUpKeyPool_room; [exact Hok|exact Et| |exact Hl]. cbn iota in E. destruct (pool_first (setKeyPool q)); [|by injection E as <-]. destruct (pool_file _ !! _); [|done].
  destruct (negb _); [done|]. destruct (negb _); [done|]. by injection E as <-.
Qed.
(** what is left after a careful reservation *)
Lemma careful_size p i k p' : ReserveKeyFromKeyPool draw now nTarget p = Some (i, k, p') -> i <> -1 -> IsLocked (pool_keys p) = true ->
  (IsLocked (pool_keys p) = true -> setKeyPool p ≠ ∅ -> setKeyPool p' ≠ ∅) -> (1 < size (setKeyPool p))%nat.
Proof.
  intros E Hi Hl Hc. unfold ReserveKeyFromKeyPool in E. rewrite Hl in E. cbn [negb] in E. pose proof (set_begin_spec (setKeyPool p)) as Hb.
  destruct (pool_first (setKeyPool p)) as [n|]; [|by injection E as <- _ _]. destruct Hb as [Hn _].
  destruct (pool_file _ !! _); [|done]. destruct (negb _); [done|]. destruct (negb _); [done|]. injection E as _ _ <-. cbn [with_pool setKeyPool] in Hc.
  assert (Hne : setKeyPool p ≠ ∅) by (intros He; rewrite He in Hn; by apply elem_of_empty in Hn). specialize (Hc Hl Hne).
  apply set_choose_L in Hc as [m Hm]. rewrite (union_difference_L {[n]} (setKeyPool p)) by (apply singleton_subseteq_l; exact Hn).
  rewrite size_union by set_solver. rewrite size_singleton. assert (Hs : size (setKeyPool p ∖ {[n]}) <> 0%nat); [|lia].
  intros Hz. apply size_empty_inv in Hz. by apply Hz, elem_of_empty in Hm.
Qed.
Lemma pool_step_ok M w w' : 1 <= nTarget -> length M = 32%nat -> careful_step draw now nTarget M w w' -> (generated (w_pool w') <= N)%nat -> pool_ok draw (w_pool w) (w_held w) (w_kept w) -> pool_ok draw (w_pool w') (w_held w') (w_kept w').
Proof.
  intros Ht HM [[p held kept b p' E|p held kept i k p' E Hi|p h1 i b h2 kept|p h1 i b h2 kept|p held kept b p' E|p held kept|p held kept] Hc]; cbn [w_pool w_held w_kept] in *; intros HN Hok.
  - destruct (TopUpKeyPool_ok p held kept Hok) as (b' & q & E' & Hq & _); [by eapply TopUpKeyPool_room|]. congruence.
  - destruct (ReserveKeyFromKeyPool_ok p held kept Ht Hok) as (i' & k' & q & E' & _ & Hq); [by eapply Reserve_room|intros Hl; by eapply careful_size|]. congruence.
  - apply KeepKey_ok. eapply pool_ok_held; [|exact Hok]. symmetry. apply Permutation_middle.
  - eapply ReturnKey_ok. eapply pool_ok_held; [|exact Hok]. symmetry. apply Permutation_middle.
  - by eapply GenerateNewKey_ok.
  - destruct (Lock_keeps _ (ok_master _ _ _ _ Hok)). by apply store_ok.
  - destruct (Unlock_keeps _ M HM (ok_master _ _ _ _ Hok)). by apply store_ok.
Qed.
(** keys are only ever drawn *)
Lemma top_up_generated n fuel : forall p p', top_up draw fuel now n p = Some p' -> (generated p <= generated p')%nat.
Proof.
  induction fuel as [|fuel IH]; intros p p'; cbn [top_up]; case_bool_decide; try done; try by intros [= <-].
  destruct (add_pool_key draw now _ p) as [q|] eqn:E; [|done]. destruct (add_pool_key_count _ _ _ E) as [_ Eg]. intros H1%IH. lia.
Qed.
Lemma TopUpKeyPool_generated p b p' : TopUpKeyPool draw now nTarget p = Some (b, p') -> (generated p <= generated p')%nat.
Proof. unfold TopUpKeyPool. destruct (IsLocked _); [by intros [= _ <-]|]. destruct (top_up _ _ _ _ _) eqn:E; [|done]. intros [= _ <-]. by eapply top_up_generated. Qed.
Lemma pool_step_generated M w w' : pool_step draw now nTarget M w w' -> (generated (w_pool w) <= generated (w_pool w'))%nat.
Proof.
  intros [p held kept b p' E|p held kept i k p' E Hi|p h1 i b h2 kept|p h1 i b h2 kept|p held kept b p' E|p held kept|p held kept]; cbn; try done.
  - by eapply TopUpKeyPool_generated.
  - unfold ReserveKeyFromKeyPool in E. destruct (negb _); [destruct (TopUpKeyPool _ _ _ _) as [[b q]|] eqn:Et; [apply TopUpKeyPool_generated in Et|done]|];
      (destruct (pool_first _); [|by injection E as _ _ <-]); (destruct (pool_file _ !! _); [|done]); (destruct (negb _); [done|]); (destruct (negb _); [done|]); by injection E as _ _ <-.
  - rewrite (ext_generated _ _ _ (GenerateNewKey_extends _ _ _ E)). lia.
Qed.
End PoolLemmas.

(** ** What the operations of the pool add to the key store *)

Section Drawn.
Context {K : Crypto} {C : Cipher}.
Variables (draw : nat -> Z) (now nTarget : Z).

(** the key store of [p'] is that of [p] with keys that were drawn in between, and no other *)
Record drawn_since (p p' : key_pool) : Prop := {
  ds_generated : (generated p <= generated p')%nat;
  ds_scripts : mapScripts (pool_keys p') = mapScripts (pool_keys p);
  ds_kept a : HaveKey (pool_keys p) a = true -> HaveKey (pool_keys p') a = true;
  ds_new a : HaveKey (pool_keys p') a = true -> HaveKey (pool_keys p) a = true \/
    exists i f, (generated p <= i < generated p')%nat /\ a = GetID (secret_pubkey {| secret := draw i; sec_compressed := f |});
}.
#[export] Instance drawn_since_pre : PreOrder drawn_since.
Proof.
  split; [intros p; constructor; auto|]. intros p1 p2 p3 [G1 S1 H1 N1] [G2 S2 H2 N2]. constructor; [lia|congruence|auto|].
  intros a [Ha|(i & f & ? & ?)]%N2; [apply N1 in Ha as [?|(i & f & ? & ?)]; [by left|]|]; right; exists i, f; (split; [lia|done]).
Qed.
Lemma drawn_same p p' : pool_keys p' = pool_keys p -> generated p' = generated p -> drawn_since p p'.
Proof. intros E1 E2. constructor; [lia|by rewrite E1|by rewrite E1|]. intros a. rewrite E1. by left. Qed.

Lemma AddKey_scripts s key s' : AddKey s key = (true, s') -> mapScripts s' = mapScripts s.
Proof.
  unfold AddKey. destruct (IsCrypted s) eqn:Hc; cbn [negb]; [|by intros [= <-]]. destruct (IsLocked s); [done|]. destruct (EncryptSecret _ _ _); [|done].
  unfold AddCryptedKey, SetCrypted. unfold IsCrypted in Hc. rewrite Hc. cbn [negb]. by intros [= <-].
Qed.
Lemma GenerateNewKey_drawn p b p' : GenerateNewKey draw p = Some (b, p') -> drawn_since p p'.
Proof.
  intros H. pose proof (GenerateNewKey_extends draw _ _ _ H) as He. constructor.
  - rewrite (ext_generated _ _ _ _ He). lia.
  - revert H. unfold GenerateNewKey. set (c := CanSupportFeature p FEATURE_COMPRPUBKEY). set (q := if c then SetMinVersion (drawn p) FEATURE_COMPRPUBKEY false else drawn p).
    assert (Hq : pool_keys q = pool_keys p) by (unfold q; destruct c; [exact (proj1 (SetMinVersion_fields (drawn p) _ _))|done]). rewrite Hq.
    destruct (AddKey (pool_keys p) _) as [ok s] eqn:Ea. destruct ok; [|done]. cbn [negb]. intros [= <- <-]. by apply AddKey_scripts in Ea.
  - intros a Ha. apply (ext_have _ _ _ _ He). by left.
  - intros a [?| ->]%(ext_have _ _ _ _ He); [by left|right]. destruct (ext_key _ _ _ _ He) as [f ->]. exists (generated p), f.
    rewrite (ext_generated _ _ _ _ He). split; [lia|done].
Qed.
Lemma top_up_drawn n fuel : forall p p', top_up draw fuel now n p = Some p' -> drawn_since p p'.
Proof.
  induction fuel as [|fuel IH]; intros p p'; cbn [top_up]; case_bool_decide; try done; try by intros [= <-].
  unfold add_pool_key. destruct (GenerateNewKey draw p) as [[b q]|] eqn:E; [|done]. apply GenerateNewKey_drawn in E. intros H2%IH.
  etransitivity; [exact E|]. etransitivity; [|exact H2]. by apply drawn_same.
Qed.
Lemma TopUpKeyPool_drawn p b p' : TopUpKeyPool draw now nTarget p = Some (b, p') -> drawn_since p p'.
Proof. unfold TopUpKeyPool. destruct (IsLocked _); [by intros [= _ <-]|]. destruct (top_up _ _ _ _ _) eqn:E; [|done]. intros [= _ <-]. by eapply top_up_drawn. Qed.
Lemma ReserveKeyFromKeyPool_drawn p i k p' : ReserveKeyFromKeyPool draw now nTarget p = Some (i, k, p') -> drawn_since p p'.
Proof.
  unfold ReserveKeyFromKeyPool. assert (Hq : forall q, (if negb (IsLocked (pool_keys p)) then let? (_, p) := TopUpKeyPool draw now nTarget p in Some p else Some p) = Some q -> drawn_since p q).
  { intros q. destruct (negb _); [|by intros [= <-]]. destruct (TopUpKeyPool _ _ _ _) as [[b r]|] eqn:E; [|done]. intros [= <-]. by eapply TopUpKeyPool_drawn. }
  destruct (if negb _ then _ else _) as [q|]; [|done]. specialize (Hq q eq_refl). destruct (pool_first _); [|by intros [= _ _ <-]].
  destruct (pool_file _ !! _); [|done]. destruct (negb _); [done|]. destruct (negb _); [done|]. intros [= _ _ <-]. etransitivity; [exact Hq|by apply drawn_same].
Qed.
Lemma GetReservedKey_drawn r p key r' p' : GetReservedKey draw now nTarget r p = Some (key, r', p') -> drawn_since p p'.
Proof.
  unfold GetReservedKey. assert (Hx : forall ok r1 p1, (if rk_nIndex r =? -1 then
      let? (nIndex, keypool, p) := ReserveKeyFromKeyPool draw now nTarget p in
      if negb (nIndex =? -1) then Some (true, {| rk_nIndex := nIndex; rk_vchPubKey := kp_vchPubKey keypool |}, p)
      else if Crypto.IsValid (vchDefaultKey p) then Some (true, {| rk_nIndex := -1; rk_vchPubKey := vchDefaultKey p |}, p)
      else Some (false, {| rk_nIndex := -1; rk_vchPubKey := rk_vchPubKey r |}, p)
    else Some (true, r, p)) = Some (ok, r1, p1) -> drawn_since p p1).
  { intros ok r1 p1. case_if; [|by intros [= _ _ <-]]. destruct (ReserveKeyFromKeyPool _ _ _ _) as [[[i k] q]|] eqn:Er; [|done]. apply ReserveKeyFromKeyPool_drawn in Er.
    case_if; [by intros [= _ _ <-]|]. case_if; by intros [= _ _ <-]. }
  destruct (if rk_nIndex r =? -1 then _ else _) as [[[ok r1] p1]|]; [|done]. specialize (Hx ok r1 p1 eq_refl). case_if; [by intros [= _ _ <-]|]. case_if; [done|]. by intros [= _ _ <-].
Qed.
Lemma ReturnKey_drawn r p : drawn_since p (ReturnKey r p).2.
Proof. unfold ReturnKey. cbn [snd]. destruct (negb _); [by apply drawn_same|reflexivity]. Qed.
End Drawn.

Section PoolProperties.
Context {K : Crypto} {KL : CryptoLaws K} {C : Cipher} {CL : CipherLaws C}.
Variables (draw : nat -> Z) (now nTarget : Z).

Definition empty_pool (s : CCryptoKeyStore) (b : bytes) (v m : Z) : key_pool :=
  {| pool_keys := s; setKeyPool := ∅; pool_file := ∅; vchDefaultKey := b; nWalletVersion := v; nWalletMaxVersion := m; generated := 0 |}.
Definition new_world (s : CCryptoKeyStore) (b : bytes) (v m : Z) : pool_world := {| w_pool := empty_pool s b v m; w_held := []; w_kept := [] |}.

Lemma pool_ok_new s b v m : master_ok s -> pool_ok draw (empty_pool s b v m) [] [].
Proof.
  intros Hm. split; cbn; try done; first [apply NoDup_nil_2 | intros i c Hc; by apply elem_of_nil in Hc | intros c Hc; by apply elem_of_nil in Hc].
Qed.
Lemma pool_ok_fresh p i b held kept : pool_ok draw p ((i, b) :: held) kept -> NoDup (b :: kept ++ held.*2).
Proof.
  intros [Q1 Q2 Q3 Q4 Q5 Q6 Q7 Q8].
  assert (Hd : forall l, (forall i b, (i, b) ∈ l -> exists k, pool_file p !! i = Some k /\ kp_vchPubKey k = b) -> NoDup l.*1 -> NoDup l.*2).
  { induction l as [|[j c] l IH]; intros Hl Hn; cbn in *; [constructor|]. apply NoDup_cons in Hn as [Hj Hn]. constructor; [|apply IH; [intros ? ? ?; apply Hl; by right|done]].
    intros Hc. apply list_elem_of_fmap in Hc as ([j' c'] & -> & Hc). destruct (Hl j c' ltac:(by left)) as (k & Hk & Ek). destruct (Hl j' c' ltac:(by right)) as (k' & Hk' & Ek').
    assert (j = j') as -> by (eapply Q3; [done|done|congruence]). apply Hj, list_elem_of_fmap. by exists (j', c'). }
  assert (Hn : NoDup ((i, b) :: held).*2) by (apply Hd; [intros j c Hj; apply (Q4 j c Hj)|done]). cbn in Hn. apply NoDup_cons in Hn as [Hb Hn].
  assert (Hx : forall c, c ∈ b :: held.*2 -> c ∉ kept).
  { intros c Hc Hk. assert (exists j, (j, c) ∈ (i, b) :: held) as (j & Hj).
    { apply elem_of_cons in Hc as [->|Hc]; [exists i; by left|]. apply list_elem_of_fmap in Hc as ([j c'] & -> & Hc). exists j. by right. }
    destruct (Q4 j c Hj) as (_ & (k & Hk' & Ek) & _). destruct (Q6 c Hk) as (_ & _ & D). by apply (D j k). }
  constructor; [|apply NoDup_app; split_and!; [done| |done]].
  - intros [Hk|Hk]%elem_of_app; [by apply (Hx b ltac:(by left))|by apply Hb].
  - intros c Hk Hc. by apply (Hx c ltac:(by right)).
Qed.

(** C39: The key pool never hands out a key twice, as long as the random keys are distinct: in a wallet that starts with an empty pool of a positive target size, whatever keys are reserved, kept,
    returned or generated, and however the wallet is locked and unlocked, provided the last key of the pool is not reserved while the wallet is locked, the kept and the reserved keys are pairwise distinct and in the key store,
    and while the wallet is not locked another key can be had, which was not handed out before. *)
Theorem pool_hands_out_once M s b v m w (N : nat) : (forall i j f g, (i < N)%nat -> (j < N)%nat -> secret_pubkey {| secret := draw i; sec_compressed := f |} = secret_pubkey {| secret := draw j; sec_compressed := g |} -> i = j) ->
  1 <= nTarget -> length M = 32%nat -> master_ok s -> rtc (careful_step draw now nTarget M) (new_world s b v m) w -> (generated (w_pool w) + Z.to_nat nTarget + 1 <= N)%nat ->
  NoDup (w_kept w ++ (w_held w).*2) /\ (forall c, c ∈ w_kept w ++ (w_held w).*2 -> HaveKey (pool_keys (w_pool w)) (GetID c) = true) /\
  (IsLocked (pool_keys (w_pool w)) = false -> exists c p', GetKeyFromPool draw now nTarget false (w_pool w) = Some (Some c, p') /\ c ∉ w_kept w ++ (w_held w).*2 /\ HaveKey (pool_keys p') (GetID c) = true).
Proof.
  intros Hf Ht HM Hs Hr HN. assert (Hok : pool_ok draw (w_pool w) (w_held w) (w_kept w)).
  { assert (H0 : pool_ok draw (w_pool (new_world s b v m)) (w_held (new_world s b v m)) (w_kept (new_world s b v m))) by by apply pool_ok_new.
    assert (HN2 : (generated (w_pool w) <= N)%nat) by lia. clear HN. revert H0 HN2. induction Hr as [|x y z Hxy Hyz IH]; intros H0 HN2; [done|]. apply IH; [|done]. apply (pool_step_ok draw now nTarget N Hf M x y); try done.
    etrans; [|exact HN2]. clear -Hyz. induction Hyz as [|x y z Hxy _ IH]; [done|]. etrans; [eapply pool_step_generated; apply Hxy|exact IH]. }
  split_and!.
  - pose proof Hok as [Q1 Q2 Q3 Q4 Q5 Q6 Q7 Q8]. destruct (w_held w) as [|[i c] held] eqn:E; cbn [fmap list_fmap]; [by rewrite app_nil_r|].
    rewrite <- Permutation_middle. by apply (pool_ok_fresh _ _ _ _ _ Hok).
  - intros c [Hc|Hc]%elem_of_app; [by apply (ok_kept _ _ _ _ Hok)|]. apply list_elem_of_fmap in Hc as ([i c'] & -> & Hc). destruct (ok_held _ _ _ _ Hok i c' Hc) as (_ & (k & Hk & <-) & _).
    apply (ok_file _ _ _ _ Hok i k Hk).
  - intros Hl. destruct (ReserveKeyFromKeyPool_ok draw now nTarget N Hf (w_pool w) _ _ Ht Hok ltac:(intros _; unfold room; lia) ltac:(congruence)) as (i & k & p' & E & Hi & Hp'). unfold GetKeyFromPool. rewrite E. cbn.
    rewrite (proj2 (Z.eqb_neq i (-1))) by lia. eexists _, _. split; [done|]. split; [by apply NoDup_cons in Hp' as []|] || (split; [apply (proj1 (proj1 (NoDup_cons _ _) (pool_ok_fresh _ _ _ _ _ Hp')))|]).
    destruct (ok_held _ _ _ _ Hp' i (kp_vchPubKey k) ltac:(by left)) as (_ & (k' & Hk' & Ek') & _). rewrite <- Ek'. by apply (ok_file _ _ _ _ Hp' i k').
Qed.
End PoolProperties.

(** ** Runs *)

Definition demo_draw (n : nat) : Z := Z.of_nat n + 1.
Definition demo_pool (nTarget : Z) : key_pool := empty_pool new_store [] 60000 60000.
(** the pool after an operation that succeeds *)
Definition reserve (nTarget : Z) (p : key_pool) : option (Z * key_pool) := let? (i, _, p) := ReserveKeyFromKeyPool (K := ToyCrypto) (C := ToyCipher) demo_draw 0 nTarget p in Some (i, p).

(** two keys are reserved, the first is kept and the second returned, and a key is reserved again: the indices *)
Definition reserve_twice : option (Z * Z * option Z) :=
  let? (i, p1) := reserve 0 (demo_pool 0) in let? (j, p2) := reserve 0 p1 in Some (i, j, fst <$> reserve 0 (pool_ReturnKey j (pool_KeepKey i p2))).
(** a key is reserved, a new pool made, the reserved key kept, and a key reserved again *)
Definition reserve_across : option (Z * option Z) :=
  let? (i, p1) := reserve 2 (demo_pool 2) in
  let? (_, p2) := NewKeyPool (K := ToyCrypto) (C := ToyCipher) demo_draw 0 2 p1 in Some (i, fst <$> reserve 2 (pool_KeepKey i p2)).

(** With a pool of target size 0 the index of a reserved key is given to the next one: after the first is kept and the second returned, the pool has an index without a record, and the next
    reservation throws. *)
Theorem pool_index_reused : reserve_twice = Some (1, 1, None).
Proof. vm_compute. reflexivity. Qed.
(** [NewKeyPool] gives the index of a reserved key to a new one: when the reserved one is kept, the record of the new one is erased, and the pool throws when it gets there. *)
Theorem new_pool_breaks_reserved : reserve_across = Some (1, None).
Proof. vm_compute. reflexivity. Qed.

(** the pool of an unlocked wallet is filled; the wallet is locked and all keys are reserved; it is unlocked, a key reserved, the first of the
    other keys returned, and a key reserved again: the last two keys *)
Definition drained_run : option (bytes * bytes) :=
  let reserve p := ReserveKeyFromKeyPool (K := ToyCrypto) (C := ToyCipher) demo_draw 0 1 p in
  let p := with_store (demo_pool 1) (Unlock (K := ToyCrypto) (C := ToyCipher) new_store demo_master).2 in
  let? (_, p) := TopUpKeyPool (K := ToyCrypto) (C := ToyCipher) demo_draw 0 1 p in
  let? (i, _, p) := reserve (with_store p (Lock (pool_keys p)).2) in
  let? (_, _, p) := reserve p in
  let? (_, k, p) := reserve (with_store p (Unlock (K := ToyCrypto) (C := ToyCipher) (pool_keys p) demo_master).2) in
  let? (_, k', _) := reserve (pool_ReturnKey i p) in
  Some (kp_vchPubKey k, kp_vchPubKey k').
(** The indices of a pool start again at 1 once it was emptied: with a pool that was emptied while the wallet was locked, a key is handed out that is
    reserved already. *)
Theorem drained_pool_repeats : exists k, k <> [] /\ drained_run = Some (k, k).
Proof. eexists. split; [|vm_compute; reflexivity]. discriminate. Qed.

Lemma demo_draw_fresh i j f g : (i < 50)%nat -> (j < 50)%nat -> secret_pubkey (K := ToyCrypto) {| secret := demo_draw i; sec_compressed := f |} = secret_pubkey (K := ToyCrypto) {| secret := demo_draw j; sec_compressed := g |} -> i = j.
Proof.
  intros Hi Hj E. apply (f_equal (o2i_ECPublicKey (Crypto := ToyCrypto))) in E. unfold secret_pubkey in E. rewrite !o2i_i2o in E. injection E as E. unfold demo_draw in E. rewrite !Z.mod_small in E by lia. lia.
Qed.
Lemma pool_hands_out_once_witness : exists w, w_kept w <> [] /\ NoDup (w_kept w ++ (w_held w).*2) /\
  (forall c, c ∈ w_kept w ++ (w_held w).*2 -> HaveKey (pool_keys (w_pool w)) (GetID (K := ToyCrypto) c) = true) /\
  (IsLocked (pool_keys (w_pool w)) = false -> exists c p', GetKeyFromPool (K := ToyCrypto) (C := ToyCipher) demo_draw 0 2 false (w_pool w) = Some (Some c, p') /\ c ∉ w_kept w ++ (w_held w).*2 /\
    HaveKey (pool_keys p') (GetID (K := ToyCrypto) c) = true).
Proof.
  assert (Hm : master_ok new_store) by (split; [reflexivity|by left]).
  destruct (GenerateNewKey_unlocked (K := ToyCrypto) (C := ToyCipher) demo_draw (demo_pool 2) eq_refl Hm) as (b & p' & E).
  pose proof (ext_generated _ _ _ _ (GenerateNewKey_extends (K := ToyCrypto) (C := ToyCipher) _ _ _ _ E)) as Hg.
  exists {| w_pool := p'; w_held := []; w_kept := [b] |}. split; [discriminate|].
  refine (pool_hands_out_once (K := ToyCrypto) (C := ToyCipher) demo_draw 0 2 demo_master new_store [] 60000 60000 _ 50 demo_draw_fresh _ eq_refl Hm (rtc_once _ _ (conj (step_generate _ _ _ _ _ _ _ _ _ E) _)) _); [lia|discriminate|].
  cbn [w_pool]. rewrite Hg. cbn. lia.
Defined.
