(* ===== verification/Base58.v ===== *)
(** * Addresses and secret keys as text (base58.h, primecoin_address.h, primecoin_secret.h)

    [EncodeBase58] and [DecodeBase58] over big integers, the variants with a checksum, [CBase58Data], and the addresses and secret keys
    that are encoded with it.  A string is the list of its bytes; [None] of an encoder stands for an exception, [None] of a decoder for
    the result false.  [pctx] and the wiping of memory are left out.  The properties: an address names its destination, a secret key is read back, and every
    sequence of bytes has one spelling. *)

From S2P Require Import Prelude OpenSSL BigNum Crypto Script ScriptEval ScriptStd.
Local Open Scope Z_scope.

(** "123456789ABCDEFGHJKLMNPQRSTUVWXYZabcdefghijkmnopqrstuvwxyz" *)
Definition pszBase58 : bytes :=
  [49; 50; 51; 52; 53; 54; 55; 56; 57; 65; 66; 67; 68; 69; 70; 71; 72; 74; 75; 76; 77; 78; 80; 81; 82; 83; 84; 85; 86; 87; 88; 89; 90;
   97; 98; 99; 100; 101; 102; 103; 104; 105; 106; 107; 109; 110; 111; 112; 113; 114; 115; 116; 117; 118; 119; 120; 121; 122].
Definition b58_char (c : Z) : Z := nth (Z.to_nat c) pszBase58 0.
(** [strchr(pszBase58, c) - pszBase58] *)
Fixpoint index_in (l : bytes) (i c : Z) : option Z := match l with [] => None | b :: r => if b =? c then Some i else index_in r (i + 1) c end.
Definition b58_index (c : Z) : option Z := index_in pszBase58 0 c.
(** how often the first characters are [x] *)
Fixpoint leading (x : Z) (l : bytes) : nat := match l with [] => 0 | b :: r => if b =? x then S (leading x r) else 0 end.

Section Base58.
Context {B : OpenSSLBN}.

(** a turn of the loop takes five bits off the number *)
Fixpoint encode_loop (fuel : nat) (bn : Z) (str : bytes) : option bytes :=
  match fuel with
  | O => None
  | S f =>
    if bn_gtb bn (of_int 0) then
      match BN_div bn (of_int 58) with
      | None => None
      | Some (dv, rem) => encode_loop f dv (str ++ [b58_char (u32 (getulong rem))])
      end
    else Some str
  end.
Definition EncodeBase58 (vch : bytes) : option bytes :=
  let vchTmp := rev vch ++ [0] in
  let bn := setvch 0 vchTmp in
  let? str := encode_loop (S (8 * length vch)) bn [] in
  Some (rev (str ++ replicate (leading 0 vch) (b58_char 0))).

Fixpoint decode_loop (p : bytes) (bn : Z) : option Z :=
  match p with
  | [] => Some bn
  | c :: r =>
    match b58_index c with
    | None => if bool_decide (skip_spaces (c :: r) = []) then Some bn else None
    | Some i => decode_loop r (bn_add (bn_mul bn (of_int 58)) (setulong i))
    end
  end.
Definition trim_sign (vchTmp : bytes) : bytes :=
  let n := length vchTmp in
  if bool_decide (2 <= n)%nat && (nth (n - 1) vchTmp 0 =? 0) && (0x80 <=? nth (n - 2) vchTmp 0) then removelast vchTmp else vchTmp.
Definition DecodeBase58 (str : bytes) : option bytes :=
  let psz := skip_spaces (c_str str) in
  let? bn := decode_loop psz (of_int 0) in
  let vchTmp := trim_sign (getvch bn) in
  Some (replicate (leading (b58_char 0) psz) 0 ++ rev vchTmp).

Context {K : Crypto}.
Definition hash_check (vch : bytes) : bytes := take 4 (uint256_bytes (Hash vch)).
Definition EncodeBase58Check (vchIn : bytes) : option bytes := EncodeBase58 (vchIn ++ hash_check vchIn).
Definition DecodeBase58Check (str : bytes) : option bytes :=
  let? vchRet := DecodeBase58 str in
  if bool_decide (length vchRet < 4)%nat then None
  else
    let data := take (length vchRet - 4) vchRet in
    if negb (bool_decide (hash_check data = drop (length vchRet - 4) vchRet)) then None else Some data.

(** ** CBase58Data *)

Record CBase58Data := { b58_nVersion : Z; vchData : bytes }.
Definition new_CBase58Data : CBase58Data := {| b58_nVersion := 0; vchData := [] |}.
Definition SetData (nVersionIn : Z) (data : bytes) : CBase58Data := {| b58_nVersion := u8 nVersionIn; vchData := data |}.
Definition SetString (str : bytes) : bool * CBase58Data :=
  match DecodeBase58Check str with
  | None | Some [] => (false, new_CBase58Data)
  | Some (v :: data) => (true, {| b58_nVersion := v; vchData := data |})
  end.
Definition b58_ToString (d : CBase58Data) : option bytes := EncodeBase58Check (b58_nVersion d :: vchData d).

(** ** Addresses *)

Definition PUBKEY_ADDRESS : Z := 23.
Definition SCRIPT_ADDRESS : Z := 83.
Definition PUBKEY_ADDRESS_TEST : Z := 111.
Definition SCRIPT_ADDRESS_TEST : Z := 196.
(** [Set] and what it returns; an address that is not set keeps its contents *)
Definition SetAddress (fTestNet : bool) (dest : CTxDestination) (a : CBase58Data) : bool * CBase58Data :=
  match dest with
  | CKeyID id => (true, SetData (if fTestNet then PUBKEY_ADDRESS_TEST else PUBKEY_ADDRESS) (uint160_bytes id))
  | CScriptID id => (true, SetData (if fTestNet then SCRIPT_ADDRESS_TEST else SCRIPT_ADDRESS) (uint160_bytes id))
  | CNoDestination => (false, a)
  end.
Definition address_IsValid (fTestNet : bool) (a : CBase58Data) : bool :=
  if (b58_nVersion a =? PUBKEY_ADDRESS) || (b58_nVersion a =? SCRIPT_ADDRESS) then bool_decide (false = fTestNet) && bool_decide (length (vchData a) = 20%nat)
  else if (b58_nVersion a =? PUBKEY_ADDRESS_TEST) || (b58_nVersion a =? SCRIPT_ADDRESS_TEST) then bool_decide (true = fTestNet) && bool_decide (length (vchData a) = 20%nat)
  else false.
Definition address_Get (fTestNet : bool) (a : CBase58Data) : CTxDestination :=
  if negb (address_IsValid fTestNet a) then CNoDestination
  else if (b58_nVersion a =? PUBKEY_ADDRESS) || (b58_nVersion a =? PUBKEY_ADDRESS_TEST) then CKeyID (le_val (take 20 (vchData a)))
  else if (b58_nVersion a =? SCRIPT_ADDRESS) || (b58_nVersion a =? SCRIPT_ADDRESS_TEST) then CScriptID (le_val (take 20 (vchData a)))
  else CNoDestination.
Definition GetKeyID (fTestNet : bool) (a : CBase58Data) : option Z :=
  if negb (address_IsValid fTestNet a) then None else if b58_nVersion a =? PUBKEY_ADDRESS then Some (le_val (take 20 (vchData a))) else None.
Definition IsScript (fTestNet : bool) (a : CBase58Data) : bool :=
  if negb (address_IsValid fTestNet a) then false else b58_nVersion a =? SCRIPT_ADDRESS.

(** ** Secret keys *)

Definition PRIVATE_KEY : Z := 151.
Definition PRIVATE_KEY_TEST : Z := 239.
(** [None]: the assertion fails *)
Definition SetSecret (fTestNet : bool) (vchSecret : bytes) (fCompressed : bool) : option CBase58Data :=
  if negb (bool_decide (length vchSecret = 32%nat)) then None
  else
    let d := SetData (if fTestNet then PRIVATE_KEY_TEST else PRIVATE_KEY) vchSecret in
    Some {| b58_nVersion := b58_nVersion d; vchData := if fCompressed then vchData d ++ [1] else vchData d |}.
Definition GetSecret (d : CBase58Data) : bytes * bool := (take 32 (vchData d), bool_decide (length (vchData d) = 33%nat)).
Definition secret_IsValid (fTestNet : bool) (d : CBase58Data) : bool :=
  let ok := bool_decide (length (vchData d) = 32%nat) || (bool_decide (length (vchData d) = 33%nat) && (nth 32 (vchData d) 0 =? 1)) in
  if b58_nVersion d =? PRIVATE_KEY then bool_decide (false = fTestNet) && ok
  else if b58_nVersion d =? PRIVATE_KEY_TEST then bool_decide (true = fTestNet) && ok
  else false.
Definition secret_SetString (fTestNet : bool) (str : bytes) : bool * CBase58Data :=
  let '(r, d) := SetString str in (r && secret_IsValid fTestNet d, d).
End Base58.

(** ** Digits *)

(** the value of digits to the base 58, highest first *)
Definition digits58 (ds : list Z) : Z := foldl (fun n d => n * 58 + d) 0 ds.
Definition digit (d : Z) : Prop := 0 <= d < 58.
Lemma digits58_from ds : forall n, foldl (fun n d => n * 58 + d) n ds = n * 58 ^ Z.of_nat (length ds) + digits58 ds.
Proof.
  unfold digits58. induction ds as [|d ds IH]; intros n; [cbn; lia|]. cbn [foldl length]. rewrite (IH (n * 58 + d)), (IH (0 * 58 + d)).
  rewrite Nat2Z.inj_succ, Z.pow_succ_r by lia. lia.
Qed.
Lemma digits58_cons d ds : digits58 (d :: ds) = d * 58 ^ Z.of_nat (length ds) + digits58 ds.
Proof. unfold digits58 at 1. cbn [foldl]. by rewrite digits58_from. Qed.
Lemma digits58_snoc ds d : digits58 (ds ++ [d]) = digits58 ds * 58 + d.
Proof. unfold digits58. by rewrite foldl_app. Qed.
Lemma digits58_bound ds : Forall digit ds -> 0 <= digits58 ds < 58 ^ Z.of_nat (length ds).
Proof.
  induction 1 as [|d ds Hd _ IH]; [done|]. rewrite digits58_cons. cbn [length]. rewrite Nat2Z.inj_succ, Z.pow_succ_r by lia. unfold digit in Hd. nia.
Qed.
(** digits without leading zeros *)
Definition canonical (ds : list Z) : Prop := Forall digit ds /\ match ds with [] => True | d :: _ => d <> 0 end.
Lemma canonical_low ds : canonical ds -> ds <> [] -> 58 ^ (Z.of_nat (length ds) - 1) <= digits58 ds.
Proof.
  intros [Hd Hn] Hne. destruct ds as [|d ds]; [done|]. apply Forall_cons in Hd as [Hd Hds]. pose proof (digits58_bound ds Hds). rewrite digits58_cons.
  cbn [length]. rewrite Nat2Z.inj_succ. replace (Z.succ (Z.of_nat (length ds)) - 1) with (Z.of_nat (length ds)) by lia. unfold digit in Hd. nia.
Qed.
Lemma digits58_inj_length a b : Forall digit a -> Forall digit b -> length a = length b -> digits58 a = digits58 b -> a = b.
Proof.
  revert b. induction a as [|x a IH]; intros [|y b] Ha Hb Hl He; try done. apply Forall_cons in Ha as [Hx Ha]. apply Forall_cons in Hb as [Hy Hb].
  rewrite !digits58_cons in He. injection Hl as Hl. rewrite Hl in He. pose proof (digits58_bound a Ha) as H1. pose proof (digits58_bound b Hb) as H2. rewrite Hl in H1.
  assert (x = y) as -> by nia. f_equal. apply IH; try done. lia.
Qed.
Lemma digits58_inj a b : canonical a -> canonical b -> digits58 a = digits58 b -> a = b.
Proof.
  intros Ha Hb He. apply digits58_inj_length; [apply Ha|apply Hb| |done].
  assert (Hlt : forall a b, canonical a -> canonical b -> (length a < length b)%nat -> digits58 a < digits58 b).
  { intros u v Hu Hv Hl. pose proof (digits58_bound u (proj1 Hu)). pose proof (canonical_low v Hv ltac:(intros ->; cbn in Hl; lia)).
    assert (58 ^ Z.of_nat (length u) <= 58 ^ (Z.of_nat (length v) - 1)) by (apply Z.pow_le_mono_r; lia). lia. }
  destruct (lt_eq_lt_dec (length a) (length b)) as [[H|H]|H]; [specialize (Hlt a b Ha Hb H); lia|done|specialize (Hlt b a Hb Ha H); lia].
Qed.

Definition b58_alphabet : list Z := map Z.of_nat (seq 0 58).
Lemma digit_alphabet d : digit d -> d ∈ b58_alphabet.
Proof. intros Hd. apply list_elem_of_fmap. exists (Z.to_nat d). unfold digit in Hd. split; [lia|]. apply elem_of_seq. lia. Qed.
Lemma b58_table : forallb (fun d => match b58_index (b58_char d) with Some i => (i =? d) && negb (isspace (b58_char d)) && is_byteb (b58_char d) && negb (b58_char d =? 0) && (negb (b58_char d =? b58_char 0) || (d =? 0)) | None => false end) b58_alphabet = true.
Proof. vm_compute. reflexivity. Qed.
Lemma b58_char_ok d : digit d -> b58_index (b58_char d) = Some d /\ isspace (b58_char d) = false /\ b58_char d <> 0 /\ (d <> 0 -> b58_char d <> b58_char 0).
Proof.
  intros Hd. pose proof b58_table as H. rewrite forallb_forall in H. specialize (H d (proj1 (list_elem_of_In _ _) (digit_alphabet d Hd))). cbn beta in H.
  destruct (b58_index (b58_char d)) as [i|]; [|done]. rewrite !andb_true_iff in H. destruct H as ((((H1 & H2) & H3) & H4) & H5). apply Z.eqb_eq in H1 as ->.
  apply negb_true_iff in H2, H4. apply Z.eqb_neq in H4. split_and!; try done. intros Hnz He. rewrite He, Z.eqb_refl in H5. apply Z.eqb_neq in Hnz. by rewrite Hnz in H5.
Qed.
Lemma index_in_spec l : forall i c k, index_in l i c = Some k -> i <= k < i + Z.of_nat (length l) /\ nth (Z.to_nat (k - i)) l 0 = c.
Proof.
  induction l as [|b l IH]; intros i c k; [done|]. cbn [index_in length]. destruct (Z.eqb_spec b c) as [->|Hne].
  - intros [= <-]. rewrite Z.sub_diag. cbn. split; [lia|done].
  - intros H. apply IH in H as [H1 H2]. split; [lia|]. replace (Z.to_nat (k - i)) with (S (Z.to_nat (k - (i + 1)))) by lia. done.
Qed.
Lemma b58_index_Some c d : b58_index c = Some d -> digit d /\ b58_char d = c.
Proof. intros H. apply index_in_spec in H as [H1 H2]. rewrite Z.sub_0_r in H2. split; [exact H1|done]. Qed.

(** ** Encoding and decoding *)

Section Laws.
Context {B : OpenSSLBN} {L : OpenSSLBNLaws B}.

Lemma of_int_58 : of_int 58 = 58 /\ of_int 0 = 0.
Proof. unfold of_int, setulong. cbn. by rewrite !BN_set_word_spec by lia. Qed.
Lemma encode_loop_S f bn str : encode_loop (S f) bn str =
  if bn_gtb bn (of_int 0) then
    match BN_div bn (of_int 58) with None => None | Some (dv, rem) => encode_loop f dv (str ++ [b58_char (u32 (getulong rem))]) end
  else Some str.
Proof. done. Qed.
Lemma encode_loop_spec f : forall n str, 0 <= n < 2 ^ Z.of_nat f ->
  exists ds, encode_loop (S f) n str = Some (str ++ map b58_char (rev ds)) /\ canonical ds /\ digits58 ds = n.
Proof.
  destruct of_int_58 as [H58 H00]. induction f as [|f IH]; intros n str Hn; rewrite encode_loop_S, H58, H00, bn_gtb_eq.
  - rewrite (proj2 (Z.ltb_ge 0 n)) by (cbn in Hn; lia). exists []. rewrite app_nil_r. split_and!; [done|by split|cbn in *; lia].
  - destruct (Z.ltb_spec 0 n) as [Hp|Hp]; [|exists []; rewrite app_nil_r; split_and!; [done|by split|cbn; lia]].
    rewrite BN_div_spec, Z.quot_div_nonneg, Z.rem_mod_nonneg by lia. pose proof (Z.mod_pos_bound n 58 ltac:(lia)) as Hm.
    unfold getulong. rewrite BN_get_word_spec, Z.abs_eq, (proj2 (Z.ltb_lt _ (2 ^ 64))), u32_small by lia.
    assert (Hd : 0 <= n / 58 < 2 ^ Z.of_nat f) by (rewrite Nat2Z.inj_succ, Z.pow_succ_r in Hn by lia; dlia).
    destruct (IH (n / 58) (str ++ [b58_char (n mod 58)]) Hd) as (ds & H1 & [H2 H2'] & H3). exists (ds ++ [n mod 58]). split_and!.
    + rewrite rev_app_distr. cbn [rev app map]. rewrite H1, <- app_assoc. done.
    + split; [apply Forall_app; split; [done|by apply list.Forall_singleton]|]. destruct ds as [|d ds]; [|done]. cbn in H3. cbn. intros He. rewrite (Z.div_mod n 58) in Hp by lia. lia.
    + rewrite digits58_snoc, H3. rewrite (Z.div_mod n 58) at 3 by lia. lia.
Qed.
Lemma decode_loop_spec ds : forall n rest, Forall digit ds -> decode_loop (map b58_char ds ++ rest) n = decode_loop rest (foldl (fun n d => n * 58 + d) n ds).
Proof.
  destruct of_int_58 as [H58 _]. induction ds as [|d ds IH]; intros n rest Hd; [done|]. apply Forall_cons in Hd as [Hd Hds]. cbn [map app decode_loop foldl].
  destruct (b58_char_ok d Hd) as (-> & _). rewrite H58. autorewrite with bn. unfold setulong. rewrite BN_set_word_spec by (unfold digit in Hd; lia). by apply IH.
Qed.

(** bytes, highest first, without leading zeros *)
Definition minimal_be (q : bytes) : Prop := all_bytes q /\ Z.of_nat (length q) < 2 ^ 31 /\ match q with [] => True | b :: _ => b <> 0 end.
Lemma be_val_zeros n q : be_val (replicate n 0 ++ q) = be_val q.
Proof. induction n as [|n IH]; [done|]. cbn [replicate app]. by rewrite be_val_cons, IH, Z.mul_0_r. Qed.
(** the vector of a number: with a sign byte when the highest bit is taken *)
Definition signed_vch (q : bytes) : bytes := match q with b :: _ => if 128 <=? b then rev q ++ [0] else rev q | [] => [] end.
Lemma signed_vch_spec q : minimal_be q -> all_bytes (signed_vch q) /\ Z.of_nat (length (signed_vch q)) < 2 ^ 32 /\ minimal_vch (signed_vch q) = true /\ setvch 0 (signed_vch q) = be_val q /\
  trim_sign (signed_vch q) = rev q.
Proof.
  intros (Hb & Hl & Hn). destruct q as [|b q]; [split_and!; [done|cbn; lia|done|rewrite setvch_eq by (done || (cbn; lia)); done|done]|].
  pose proof (Forall_inv Hb) as Hb0. assert (Hlen : length (rev (b :: q)) = S (length q)) by by rewrite length_rev. cbn [length] in Hl. unfold signed_vch, minimal_vch. destruct (Z.leb_spec 128 b) as [Hh|Hh].
  - assert (Ha : all_bytes (rev (b :: q) ++ [0])) by (apply all_bytes_app; split; [by apply all_bytes_rev|by apply all_bytes_dec]).
    assert (Hl2 : Z.of_nat (length (rev (b :: q) ++ [0])) < 2 ^ 32) by (rewrite length_app, Hlen; cbn; lia).
    assert (Hr : rev (rev (b :: q) ++ [0]) = 0 :: b :: q) by by rewrite rev_app_distr, rev_involutive. split_and!; [done|done| | |].
    + rewrite Hr. cbn. by apply Z.leb_le.
    + rewrite setvch_eq, Hr by done. cbn [mpi_value]. change (128 <=? 0) with false. cbv iota. by rewrite be_val_cons, Z.mul_0_r.
    + unfold trim_sign. rewrite length_app, Hlen. cbn [length]. replace (S (length q) + 1 - 1)%nat with (S (length q)) by lia. replace (S (length q) + 1 - 2)%nat with (length q) by lia.
      rewrite bool_decide_eq_true_2 by lia. rewrite app_nth2 by lia. rewrite Hlen, Nat.sub_diag. cbn [nth andb Z.eqb].
      cbn [rev]. rewrite <- app_assoc. rewrite app_nth2 by (rewrite length_rev; lia). rewrite length_rev, Nat.sub_diag. cbn [app nth]. rewrite (proj2 (Z.leb_le 0x80 b)) by lia.
      change [b; 0] with ([b] ++ [0]). rewrite app_assoc. apply removelast_last.
  - assert (Ha : all_bytes (rev (b :: q))) by by apply all_bytes_rev. assert (Hl2 : Z.of_nat (length (rev (b :: q))) < 2 ^ 32) by (rewrite Hlen; lia). split_and!; [done|done| | |].
    + rewrite rev_involutive. cbn [minimal_mpi]. rewrite land_127 by done. by rewrite (proj2 (Z.leb_gt 128 b)), (proj2 (Z.eqb_neq b 0)) by done.
    + rewrite setvch_eq, rev_involutive by done. cbn [mpi_value]. by rewrite (proj2 (Z.leb_gt 128 b)).
    + unfold trim_sign. rewrite Hlen. cbn [rev]. replace (S (length q) - 1)%nat with (length q) by lia. rewrite app_nth2 by (rewrite length_rev; lia).
      rewrite length_rev, Nat.sub_diag. cbn [nth]. rewrite (proj2 (Z.eqb_neq b 0)), andb_false_r by done. done.
Qed.
Lemma getvch_minimal q : minimal_be q -> trim_sign (getvch (be_val q)) = rev q.
Proof.
  intros Hq. destruct (signed_vch_spec q Hq) as (H1 & H2 & H3 & H4 & H5). rewrite <- H4. by rewrite (proj2 (getvch_setvch 0 (signed_vch q) H2 H1) H3).
Qed.
Lemma split_zeros vch : vch = replicate (leading 0 vch) 0 ++ drop (leading 0 vch) vch /\ match drop (leading 0 vch) vch with [] => True | b :: _ => b <> 0 end.
Proof.
  induction vch as [|b r [IH1 IH2]]; [done|]. cbn [leading]. destruct (Z.eqb_spec b 0) as [->|Hne]; [|done]. cbn [replicate app drop]. by rewrite <- IH1.
Qed.
Lemma leading_replicate x n l : match l with [] => True | b :: _ => b <> x end -> leading x (replicate n x ++ l) = n.
Proof.
  intros Hl. induction n as [|n IH]; cbn [replicate app leading]; [|by rewrite Z.eqb_refl, IH]. destruct l as [|b r]; [done|]. cbn. by rewrite (proj2 (Z.eqb_neq b x)).
Qed.
Lemma no_nul l : Forall (fun c => c <> 0) l -> c_str l = l.
Proof. induction 1 as [|c r Hc _ IH]; [done|]. cbn. by rewrite (proj2 (Z.eqb_neq c 0)), IH. Qed.
Lemma all_bytes_be_val_bound l : all_bytes l -> 0 <= be_val l < 2 ^ Z.of_nat (8 * length l).
Proof. intros H. pose proof (be_val_bound l H) as Hb. change 256 with (2 ^ 8) in Hb. rewrite <- Z.pow_mul_r in Hb by lia. by replace (8 * Z.of_nat (length l)) with (Z.of_nat (8 * length l)) in Hb by lia. Qed.
Lemma setvch_bytes vch : all_bytes vch -> Z.of_nat (length vch) < 2 ^ 31 -> setvch 0 (rev vch ++ [0]) = be_val vch.
Proof.
  intros Ha Hl. rewrite setvch_eq.
  - rewrite rev_app_distr, rev_involutive. cbn [rev app mpi_value]. change (128 <=? 0) with false. cbv iota. by rewrite be_val_cons, Z.mul_0_r.
  - rewrite length_app, length_rev. cbn [length]. lia.
  - apply all_bytes_app. split; [by apply all_bytes_rev|by apply all_bytes_dec].
Qed.

(** the text of bytes: as many "1" as there are leading zeros, then the digits of the number *)
Lemma EncodeBase58_spec vch : all_bytes vch -> Z.of_nat (length vch) < 2 ^ 31 ->
  exists ds, EncodeBase58 vch = Some (map b58_char (replicate (leading 0 vch) 0 ++ ds)) /\ canonical ds /\ digits58 ds = be_val (drop (leading 0 vch) vch).
Proof.
  intros Ha Hl. unfold EncodeBase58. rewrite setvch_bytes by done. destruct (encode_loop_spec (8 * length vch) (be_val vch) []) as (ds & -> & Hc & Hd); [by apply all_bytes_be_val_bound|].
  cbn [option_bind mbind app]. exists ds. split_and!; [|done|].
  - rewrite rev_app_distr, map_app, map_rev, rev_involutive. do 2 f_equal. generalize (leading 0 vch). induction n as [|n IH]; [done|]. rewrite replicate_S_end at 1. rewrite rev_app_distr. cbn [rev app replicate map]. by rewrite IH.
  - rewrite Hd. destruct (split_zeros vch) as [Hv _]. rewrite Hv at 1. apply be_val_zeros.
Qed.
Lemma DecodeBase58_digits z ds : Forall digit ds -> match ds with [] => True | d :: _ => d <> 0 end -> forall q, minimal_be q -> digits58 ds = be_val q ->
  DecodeBase58 (map b58_char (replicate z 0 ++ ds)) = Some (replicate z 0 ++ q).
Proof.
  intros Hd Hn q Hq He. assert (Hall : Forall digit (replicate z 0 ++ ds)) by (apply Forall_app; split; [apply Forall_replicate; unfold digit; lia|done]).
  unfold DecodeBase58. rewrite no_nul by (apply Forall_map; eapply Forall_impl; [exact Hall|]; intros d Hd'; by apply b58_char_ok).
  assert (Hsp : skip_spaces (map b58_char (replicate z 0 ++ ds)) = map b58_char (replicate z 0 ++ ds)).
  { destruct (replicate z 0 ++ ds) as [|d l]; [done|]. apply Forall_cons in Hall as [Hd' _]. cbn [map skip_spaces]. by destruct (b58_char_ok d Hd') as (_ & -> & _). }
  rewrite Hsp. rewrite <- (app_nil_r (map b58_char _)). rewrite decode_loop_spec by done. cbn [decode_loop option_bind mbind]. destruct of_int_58 as [_ ->].
  assert (Hz : digits58 (replicate z 0 ++ ds) = be_val q).
  { rewrite <- He. clear. induction z as [|z IH]; [done|]. cbn [replicate app]. by rewrite digits58_cons. }
  change (foldl (fun n d => n * 58 + d) 0 (replicate z 0 ++ ds)) with (digits58 (replicate z 0 ++ ds)). rewrite Hz, getvch_minimal, rev_involutive by done. rewrite app_nil_r, map_app.
  replace (map b58_char (replicate z 0)) with (replicate z (b58_char 0)) by (clear; induction z as [|z IH]; [done|]; cbn [replicate map]; by rewrite <- IH).
  rewrite leading_replicate; [done|]. destruct ds as [|d ds]; [done|]. cbn [map]. apply Forall_cons in Hd as [Hd _]. by apply b58_char_ok.
Qed.
Lemma base58_roundtrip vch : all_bytes vch -> Z.of_nat (length vch) < 2 ^ 31 -> exists str, EncodeBase58 vch = Some str /\ DecodeBase58 str = Some vch.
Proof.
  intros Ha Hl. destruct (EncodeBase58_spec vch Ha Hl) as (ds & -> & [Hd Hn] & He). eexists. split; [done|]. destruct (split_zeros vch) as [Hv Hq].
  rewrite (DecodeBase58_digits _ ds Hd Hn (drop (leading 0 vch) vch)); [by rewrite <- Hv| |done]. split_and!; [by apply Forall_drop|rewrite length_drop; lia|done].
Qed.
End Laws.

(** ** What the texts promise *)

Section Texts.
Context {B : OpenSSLBN} {L : OpenSSLBNLaws B} {K : Crypto}.

Lemma minimal_exists n len : 0 <= n < 256 ^ Z.of_nat len -> Z.of_nat len < 2 ^ 31 -> exists q, minimal_be q /\ be_val q = n /\ (length q <= len)%nat.
Proof.
  intros Hn Hl. destruct (split_zeros (be_bytes len n)) as [Hv Hq]. exists (drop (leading 0 (be_bytes len n)) (be_bytes len n)).
  assert (Hlen : (length (drop (leading 0 (be_bytes len n)) (be_bytes len n)) <= len)%nat) by (rewrite length_drop; unfold be_bytes; rewrite length_rev, length_le_bytes; lia).
  split; [split; [by apply Forall_drop, be_bytes_all|split; [lia|done]]|]. split; [|done].
  rewrite <- (be_val_zeros (leading 0 (be_bytes len n))), <- Hv, be_val_bytes. by apply Z.mod_small.
Qed.
Lemma decode_loop_plain p : forall n m, Forall (fun c => isspace c = false) p -> decode_loop p n = Some m -> exists ds, p = map b58_char ds /\ Forall digit ds.
Proof.
  induction p as [|c r IH]; intros n m Hs; [by exists []|]. apply Forall_cons in Hs as [Hc Hr]. cbn [decode_loop]. destruct (b58_index c) as [i|] eqn:Hi.
  - intros H. destruct (IH _ _ Hr H) as (ds & -> & Hd). apply b58_index_Some in Hi as [Hi <-]. exists (i :: ds). split; [done|by constructor].
  - cbn [skip_spaces]. rewrite Hc. done.
Qed.

(** One text for every sequence of bytes and one sequence of bytes for every text: what [EncodeBase58] writes is read back, leading zeros included, and a
    text without spaces that can be read is the one that is written for its bytes. *)
Theorem base58_bijective :
  (forall vch, all_bytes vch -> Z.of_nat (length vch) < 2 ^ 31 -> exists str, EncodeBase58 vch = Some str /\ DecodeBase58 str = Some vch) /\
  (forall str vch, Forall (fun c => isspace c = false /\ c <> 0) str -> Z.of_nat (length str) < 2 ^ 30 -> DecodeBase58 str = Some vch -> EncodeBase58 vch = Some str).
Proof.
  split; [by apply base58_roundtrip|]. intros str vch Hp Hl Hd.
  assert (Hsp : skip_spaces str = str) by (destruct Hp as [|c r [Hc _] _]; [done|]; cbn; by rewrite Hc).
  assert (Hnul : c_str str = str) by (apply no_nul; eapply Forall_impl; [exact Hp|]; by intros c [_ ?]).
  pose proof Hd as Hd0. unfold DecodeBase58 in Hd0. rewrite Hnul, Hsp in Hd0. destruct (decode_loop str (of_int 0)) as [n|] eqn:E; [|done].
  destruct (decode_loop_plain str (of_int 0) n) as (ds0 & -> & Hds0); [eapply Forall_impl; [exact Hp|]; by intros c [? _]|done|]. clear Hd0 E Hsp Hnul.
  destruct (split_zeros ds0) as [Hz Hn]. set (z := leading 0 ds0) in *. set (ds := drop z ds0) in *. assert (Hds : Forall digit ds) by by apply Forall_drop.
  rewrite length_map in Hl. assert (Hlen : (length ds <= length ds0)%nat) by (unfold ds; rewrite length_drop; lia).
  destruct (minimal_exists (digits58 ds) (length ds)) as (q & Hq & Hqv & Hql); [|lia|].
  { pose proof (digits58_bound ds Hds) as [H1 H2]. split; [done|]. assert (58 ^ Z.of_nat (length ds) <= 256 ^ Z.of_nat (length ds)) by (apply Z.pow_le_mono_l; lia). lia. }
  rewrite Hz in Hd. rewrite (DecodeBase58_digits z ds Hds Hn q Hq (eq_sym Hqv)) in Hd. injection Hd as <-.
  assert (Hzl : (z <= length ds0)%nat) by (pose proof (f_equal length Hz) as H; rewrite length_app, length_replicate in H; lia).
  destruct (EncodeBase58_spec (replicate z 0 ++ q)) as (ds' & -> & Hc' & Hv').
  - apply all_bytes_app. split; [apply Forall_replicate; unfold is_byte; lia|apply Hq].
  - rewrite length_app, length_replicate. lia.
  - assert (Hlead : leading 0 (replicate z 0 ++ q) = z) by (apply leading_replicate; destruct Hq as (_ & _ & Hq); by destruct q).
    rewrite Hlead in *. rewrite drop_app_length' in Hv' by (by rewrite length_replicate). rewrite (digits58_inj ds' ds Hc' (conj Hds Hn)) by congruence. by rewrite <- Hz.
Qed.

Lemma hash_check_bytes data : all_bytes (hash_check data) /\ length (hash_check data) = 4%nat.
Proof. unfold hash_check. split; [apply Forall_take, le_bytes_all|]. rewrite length_take. unfold uint256_bytes. rewrite length_le_bytes. done. Qed.
Lemma base58check_roundtrip data : all_bytes data -> Z.of_nat (length data) < 2 ^ 30 -> exists str, EncodeBase58Check data = Some str /\ DecodeBase58Check str = Some data.
Proof.
  intros Ha Hl. destruct (hash_check_bytes data) as [Hb Hc]. destruct (base58_roundtrip (data ++ hash_check data)) as (str & H1 & H2).
  - apply all_bytes_app. by split.
  - rewrite length_app. lia.
  - exists str. split; [done|]. unfold DecodeBase58Check. rewrite H2. cbn [option_bind mbind]. rewrite length_app, Hc, Nat.add_sub. rewrite bool_decide_eq_false_2 by lia.
    rewrite take_app_length, drop_app_length. by rewrite bool_decide_eq_true_2.
Qed.
Lemma CBase58Data_roundtrip v data : is_byte v -> all_bytes data -> Z.of_nat (length data) < 2 ^ 29 ->
  exists str, b58_ToString {| b58_nVersion := v; vchData := data |} = Some str /\ SetString str = (true, {| b58_nVersion := v; vchData := data |}).
Proof.
  intros Hv Ha Hl. destruct (base58check_roundtrip (v :: data)) as (str & H1 & H2); [by constructor|cbn [length]; lia|]. exists str. split; [done|]. unfold SetString. by rewrite H2.
Qed.

(** the identifier of a destination is a 160-bit number *)
Definition valid_dest (dest : CTxDestination) : Prop := match dest with CKeyID id | CScriptID id => 0 <= id < 2 ^ 160 | CNoDestination => False end.
Lemma uint160_ok id : 0 <= id < 2 ^ 160 -> length (uint160_bytes id) = 20%nat /\ all_bytes (uint160_bytes id) /\ le_val (take 20 (uint160_bytes id)) = id.
Proof.
  intros H. unfold uint160_bytes. rewrite length_le_bytes, take_ge by (by rewrite length_le_bytes). split_and!; [done|apply le_bytes_all|]. rewrite le_val_bytes. by apply Z.mod_small.
Qed.

(** An address names its destination: the text of the address of a key or a script is accepted by a node of the same network, which gets the same
    destination from it, and refused by a node of the other network. *)
Theorem address_roundtrip fTestNet dest : valid_dest dest ->
  exists str a, b58_ToString (SetAddress fTestNet dest new_CBase58Data).2 = Some str /\ SetString str = (true, a) /\
    address_IsValid fTestNet a = true /\ address_Get fTestNet a = dest /\ address_Get (negb fTestNet) a = CNoDestination.
Proof.
  intros Hd.
  assert (Htext : forall v id, is_byte (u8 v) -> 0 <= id < 2 ^ 160 -> exists str, b58_ToString (SetData v (uint160_bytes id)) = Some str /\ SetString str = (true, SetData v (uint160_bytes id))).
  { intros v id Hv Hid. destruct (uint160_ok id Hid) as (Hl & Ha & _). apply CBase58Data_roundtrip; [done|done|]. rewrite Hl. lia. }
  destruct dest as [|id|id]; [done|..]; destruct (uint160_ok id Hd) as (Hl & Ha & Hv); cbn [SetAddress snd]; destruct fTestNet; cbv iota;
    match goal with |- context [SetData ?v (uint160_bytes id)] => destruct (Htext v id ltac:(by vm_compute) Hd) as (str & H1 & H2) end;
    eexists str, _; (split; [exact H1|]); (split; [exact H2|]); unfold address_Get, address_IsValid, SetData; cbn -[uint160_bytes take]; rewrite Hl; cbn -[uint160_bytes take]; by rewrite ?Hv.
Qed.

(** A secret key is read back: the 32 bytes and whether the public key is compressed. *)
Theorem secret_roundtrip fTestNet vchSecret fCompressed : length vchSecret = 32%nat -> all_bytes vchSecret ->
  exists d str, SetSecret fTestNet vchSecret fCompressed = Some d /\ b58_ToString d = Some str /\ secret_SetString fTestNet str = (true, d) /\
    GetSecret d = (vchSecret, fCompressed) /\ (secret_SetString (negb fTestNet) str).1 = false.
Proof.
  intros Hl Ha. unfold SetSecret. rewrite bool_decide_eq_true_2 by done. cbn [negb]. set (d := {| b58_nVersion := _; vchData := _ |}).
  set (data := if fCompressed then vchSecret ++ [1] else vchSecret). assert (Hdata : length data = if fCompressed then 33%nat else 32%nat) by (unfold data; destruct fCompressed; rewrite ?length_app, Hl; done).
  assert (Hb : all_bytes data) by (unfold data; destruct fCompressed; [apply all_bytes_app; split; [done|by apply all_bytes_dec]|done]).
  assert (Hok : bool_decide (length data = 32%nat) || (bool_decide (length data = 33%nat) && (nth 32 data 0 =? 1)) = true).
  { rewrite Hdata. unfold data. destruct fCompressed; [|done]. rewrite app_nth2 by lia. by rewrite Hl. }
  destruct (CBase58Data_roundtrip (b58_nVersion d) data) as (str & H1 & H2); [destruct fTestNet; by vm_compute|done|rewrite Hdata; destruct fCompressed; lia|].
  exists d, str. split; [done|]. split; [exact H1|]. unfold secret_SetString. rewrite H2. cbn [fst]. split_and!.
  - f_equal. unfold secret_IsValid. cbn [vchData]. rewrite Hok. by destruct fTestNet.
  - unfold GetSecret. cbn [vchData d SetData]. fold data. rewrite Hdata. f_equal; [|by destruct fCompressed]. unfold data. destruct fCompressed; [by apply take_app_length'|by apply take_ge; lia].
  - unfold secret_IsValid. cbn [vchData]. rewrite Hok. by destruct fTestNet.
Qed.

(** On the test network no address has a key: [GetKeyID] and [IsScript] only know the versions of the main network, which [IsValid] refuses there. *)
Theorem testnet_addresses_unknown a : GetKeyID true a = None /\ IsScript true a = false.
Proof.
  unfold GetKeyID, IsScript, address_IsValid. destruct (Z.eqb_spec (b58_nVersion a) PUBKEY_ADDRESS) as [->|H1]; [done|]. destruct (Z.eqb_spec (b58_nVersion a) SCRIPT_ADDRESS) as [->|H2]; [done|].
  by destruct (negb _).
Qed.
End Texts.

(** ** Examples *)

Definition demo_dest : CTxDestination := CKeyID (le_val (map Z.of_nat (seq 1 20))).
Lemma address_roundtrip_witness : exists str a, b58_ToString (B := ZBN) (K := ToyCrypto) (SetAddress false demo_dest new_CBase58Data).2 = Some str /\ SetString (B := ZBN) (K := ToyCrypto) str = (true, a) /\
    address_IsValid false a = true /\ address_Get false a = demo_dest /\ address_Get true a = CNoDestination.
Proof. apply (address_roundtrip (B := ZBN) (K := ToyCrypto) false demo_dest). vm_compute. split; congruence. Defined.
Lemma secret_roundtrip_witness : exists d str, SetSecret true (map Z.of_nat (seq 1 32)) true = Some d /\ b58_ToString (B := ZBN) (K := ToyCrypto) d = Some str /\
    secret_SetString (B := ZBN) (K := ToyCrypto) true str = (true, d) /\ GetSecret d = (map Z.of_nat (seq 1 32), true) /\ (secret_SetString (B := ZBN) (K := ToyCrypto) false str).1 = false.
Proof. apply (secret_roundtrip (B := ZBN) (K := ToyCrypto) true (map Z.of_nat (seq 1 32)) true); [reflexivity|]. apply all_bytes_dec. reflexivity. Defined.
(** "11233QC4": two zeros and 0x287fb4cd *)
Example demo_base58 : EncodeBase58 (B := ZBN) [0; 0; 0x28; 0x7f; 0xb4; 0xcd] = Some [49; 49; 50; 51; 51; 81; 67; 52] /\
  DecodeBase58 (B := ZBN) [32; 49; 49; 50; 51; 51; 81; 67; 52; 32; 10] = Some [0; 0; 0x28; 0x7f; 0xb4; 0xcd] /\ DecodeBase58 (B := ZBN) [49; 48] = None.
Proof. vm_compute. auto. Qed.
Lemma base58_bijective_witness : EncodeBase58 (B := ZBN) [0; 0; 0x28; 0x7f; 0xb4; 0xcd] = Some [49; 49; 50; 51; 51; 81; 67; 52].
Proof. apply (proj2 (base58_bijective (B := ZBN))); [apply Forall_forall; intros c Hc; repeat (apply elem_of_cons in Hc as [->|Hc]; [done|]); by apply not_elem_of_nil in Hc|done|vm_compute; reflexivity]. Defined.
