(* ===== verification/Coins.v ===== *)
(** * Unspent outputs and undo data (main.h, main.cpp)

    The compact encoding of amounts and outputs ([CTxOutCompressor]), the undo
    records ([CTxInUndo], [CTxUndo], [CBlockUndo]) and the unspent outputs of a
    transaction ([CCoins]) with their serialization and the operation that spends
    one of them. *)

From S2P Require Import Prelude Serialize Crypto Script Transaction ScriptStd.
Local Open Scope Z_scope.

(** ** Amounts *)

(** the loop that drops zeros; it stops at exponent 9, so 10 rounds are enough *)
Fixpoint strip_zeros (fuel : nat) (n e : Z) : Z * Z :=
  match fuel with
  | O => (n, e)
  | S f => if (n mod 10 =? 0) && (e <? 9) then strip_zeros f (n / 10) (e + 1) else (n, e)
  end.

(** [None]: the assertion on the last digit fails *)
Definition CompressAmount (n : Z) : option Z :=
  if n =? 0 then Some 0
  else
    let '(n, e) := strip_zeros 10 n 0 in
    if e <? 9 then
      let d := n mod 10 in
      if (1 <=? d) && (d <=? 9) then Some (u64 (1 + (n / 10 * 9 + d - 1) * 10 + e)) else None
    else Some (u64 (1 + (n - 1) * 10 + 9)).

Fixpoint mul10 (e : nat) (n : Z) : Z :=
  match e with O => n | S e => mul10 e (u64 (n * 10)) end.

Definition DecompressAmount (x : Z) : Z :=
  if x =? 0 then 0
  else
    let x := x - 1 in
    let e := x mod 10 in
    let x := x / 10 in
    let n := if e <? 9 then u64 (x / 9 * 10 + (x mod 9 + 1)) else u64 (x + 1) in
    mul10 (Z.to_nat e) n.

Lemma strip_zeros_spec fuel n e : 0 < n -> 0 <= e <= 9 -> (10 <= fuel + Z.to_nat e)%nat ->
  let '(m, e') := strip_zeros fuel n e in
  0 < m /\ e <= e' <= 9 /\ n = m * 10 ^ (e' - e) /\ (e' < 9 -> m mod 10 <> 0).
Proof.
  revert n e. induction fuel as [|f IH]; intros n e Hn He Hf; [lia|]. cbn [strip_zeros].
  destruct ((n mod 10 =? 0) && (e <? 9)) eqn:Ec.
  - b2p. specialize (IH (n / 10) (e + 1) ltac:(dlia) ltac:(lia) ltac:(lia)).
    destruct (strip_zeros f (n / 10) (e + 1)) as [m e']. destruct IH as (Hm & He' & Hd & Hx).
    split_and!; [done|lia..| |done]. replace (e' - e) with (1 + (e' - (e + 1))) by lia.
    rewrite Z.pow_add_r, Z.pow_1_r by lia. dlia.
  - rewrite Z.sub_diag. split_and!; [done|lia..| ]. intros Hlt. b2p. destruct Ec; b2p; lia.
Qed.

Lemma mul10_spec e n : 0 <= n -> n * 10 ^ Z.of_nat e < 2 ^ 64 -> mul10 e n = n * 10 ^ Z.of_nat e.
Proof.
  revert n. induction e as [|e IH]; intros n Hn Hb; [cbn; lia|]. cbn [mul10].
  rewrite Nat2Z.inj_succ, Z.pow_succ_r in * by lia. pose proof (Z.pow_pos_nonneg 10 (Z.of_nat e)).
  rewrite u64_small by nia. rewrite IH by nia. lia.
Qed.

Definition max_amount : Z := 2 ^ 60.

Lemma CompressAmount_bound n : 0 <= n <= max_amount ->
  exists x, CompressAmount n = Some x /\ 0 <= x < 2 ^ 64 /\ DecompressAmount x = n.
Proof.
  unfold max_amount. intros Hn. unfold CompressAmount. destruct (Z.eqb_spec n 0) as [->|Hz]; [by exists 0|].
  pose proof (strip_zeros_spec 10 n 0 ltac:(lia) ltac:(lia) ltac:(lia)) as H.
  destruct (strip_zeros 10 n 0) as [m e]. destruct H as (Hm & He & Hnm & Hd). rewrite Z.sub_0_r in Hnm.
  assert (Hmn : m <= n) by (pose proof (Z.pow_pos_nonneg 10 e); nia).
  assert (Hpe : m * 10 ^ Z.of_nat (Z.to_nat e) < 2 ^ 64) by (rewrite Z2Nat.id; lia).
  destruct (Z.ltb_spec e 9).
  - specialize (Hd ltac:(lia)). pose proof (Z.mod_pos_bound m 10).
    rewrite (proj2 (Z.leb_le 1 _)), (proj2 (Z.leb_le _ 9)) by lia. cbn [andb].
    rewrite u64_small by dlia. eexists. split; [reflexivity|]. split; [dlia|].
    unfold DecompressAmount. rewrite (proj2 (Z.eqb_neq _ 0)) by dlia.
    replace (1 + (m / 10 * 9 + m mod 10 - 1) * 10 + e - 1) with ((m / 10 * 9 + m mod 10 - 1) * 10 + e) by lia.
    rewrite Z.div_add_l, (Z.div_small e) by lia. rewrite Z.add_comm, Z_mod_plus_full, (Z.mod_small e) by lia.
    rewrite (proj2 (Z.ltb_lt e 9)), Z.add_0_r by lia.
    replace (m / 10 * 9 + m mod 10 - 1) with (m / 10 * 9 + (m mod 10 - 1)) by lia.
    rewrite Z.div_add_l, (Z.div_small (m mod 10 - 1)), Z.add_0_r by lia.
    rewrite (Z.add_comm _ (m mod 10 - 1)), Z_mod_plus_full, (Z.mod_small (m mod 10 - 1)) by lia.
    replace (m / 10 * 10 + (m mod 10 - 1 + 1)) with m by dlia. rewrite u64_small by lia.
    rewrite mul10_spec by lia. by rewrite Z2Nat.id by lia.
  - assert (e = 9) as -> by lia. rewrite u64_small by lia. eexists. split; [reflexivity|]. split; [lia|].
    unfold DecompressAmount. rewrite (proj2 (Z.eqb_neq _ 0)) by lia.
    replace (1 + (m - 1) * 10 + 9 - 1) with ((m - 1) * 10 + 9) by lia.
    rewrite Z.div_add_l, (Z.div_small 9) by lia. rewrite Z.add_comm, Z_mod_plus_full, (Z.mod_small 9) by lia.
    cbn [Z.ltb Z.compare Pos.compare Pos.compare_cont]. rewrite Z.add_0_r, Z.sub_add, u64_small by lia.
    rewrite mul10_spec by lia. by rewrite Z2Nat.id by lia.
Qed.

Lemma strip_zeros_pow m e fuel k : 0 < m -> (e <= 9)%nat -> Z.of_nat e + k <= 9 ->
  (e < fuel)%nat -> k + Z.of_nat e = 9 \/ m mod 10 <> 0 ->
  strip_zeros fuel (m * 10 ^ Z.of_nat e) k = (m, k + Z.of_nat e).
Proof.
  intros Hm He. revert fuel k. induction e as [|e IH]; intros fuel k Hk Hf Hx; (destruct fuel as [|f]; [lia|]); cbn [strip_zeros].
  - rewrite Z.pow_0_r, Z.mul_1_r, Z.add_0_r. destruct Hx as [Hx|Hx].
    + rewrite (proj2 (Z.ltb_ge _ _)) by lia. by rewrite andb_false_r.
    + by rewrite (proj2 (Z.eqb_neq _ _)) by done.
  - rewrite Nat2Z.inj_succ, Z.pow_succ_r by lia.
    replace (m * (10 * 10 ^ Z.of_nat e)) with (m * 10 ^ Z.of_nat e * 10) by lia.
    rewrite Z.mod_mul, Z.div_mul by lia. rewrite (proj2 (Z.ltb_lt _ _)) by lia. cbn [Z.eqb andb].
    rewrite IH by lia. f_equal. lia.
Qed.

Lemma DecompressAmount_bound x : 0 <= x < 2 ^ 32 -> 0 <= DecompressAmount x <= max_amount /\
  CompressAmount (DecompressAmount x) = Some x.
Proof.
  intros Hx. unfold DecompressAmount, max_amount. destruct (Z.eqb_spec x 0) as [->|Hz]; [done|].
  pose proof (Z.mod_pos_bound (x - 1) 10) as He. set (e := (x - 1) mod 10) in *. set (y := (x - 1) / 10) in *.
  assert (Hxe : x = 1 + 10 * y + e) by (unfold e, y; dlia).
  assert (Hy : 0 <= y < 2 ^ 29) by (unfold y; dlia).
  clearbody e y.
  destruct (Z.ltb_spec e 9).
  - pose proof (Z.mod_pos_bound y 9). rewrite u64_small by dlia. set (n := y / 9 * 10 + (y mod 9 + 1)).
    assert (Hn : 0 < n <= 2 ^ 30) by (unfold n; dlia).
    assert (Hpow : 10 ^ e <= 10 ^ 8) by (apply Z.pow_le_mono_r; lia).
    assert (Hpos : 0 < 10 ^ e) by (apply Z.pow_pos_nonneg; lia).
    assert (Hd : n / 10 = y / 9 /\ n mod 10 = y mod 9 + 1) by (unfold n; dlia). destruct Hd as [Hd1 Hd2].
    rewrite mul10_spec by (rewrite ?Z2Nat.id by lia; nia). split; [rewrite Z2Nat.id by lia; nia|].
    unfold CompressAmount. rewrite (proj2 (Z.eqb_neq _ 0)) by (rewrite Z2Nat.id by lia; nia).
    rewrite (strip_zeros_pow n (Z.to_nat e)) by lia. rewrite Z2Nat.id, Z.add_0_l by lia.
    rewrite (proj2 (Z.ltb_lt e 9)) by lia. rewrite Hd1, Hd2.
    rewrite (proj2 (Z.leb_le 1 _)), (proj2 (Z.leb_le _ 9)) by lia. cbn [andb]. rewrite u64_small by dlia.
    f_equal. dlia.
  - assert (e = 9) as -> by lia. change (Z.to_nat 9) with 9%nat.
    rewrite u64_small, mul10_spec by (change (Z.of_nat 9) with 9; lia). change (Z.of_nat 9) with 9. split; [lia|].
    unfold CompressAmount. rewrite (proj2 (Z.eqb_neq _ 0)) by lia.
    pose proof (strip_zeros_pow (y + 1) 9 10 0 ltac:(lia) ltac:(lia) ltac:(lia) ltac:(lia) ltac:(lia)) as Hs.
    change (Z.of_nat 9) with 9 in Hs. rewrite Hs. change (0 + 9 <? 9) with false. cbn iota.
    rewrite u64_small by (change (2 ^ 29) with 536870912 in Hy; lia). f_equal. lia.
Qed.

(** ** Outputs and undo data *)

(** [VARINT] of an [int]: a negative number is one byte, its low seven bits *)
Definition ser_varint_int : codec Z :=
  {| Serialize := WriteVarInt 32;
     Unserialize s := let? (n, s) := ReadVarInt 32 s in Some (s32 n, s);
     GetSerializeSize := GetSizeOfVarInt 32 |}.

(** the undo data of an input *)
Record CTxInUndo := { u_txout : CTxOut; u_fCoinBase : bool; u_nHeight : Z; u_nVersion : Z }.
Definition CTxUndo : Type := list CTxInUndo.
Definition CBlockUndo : Type := list CTxUndo.

#[export] Instance CTxInUndo_eq_dec : EqDecision CTxInUndo.
Proof. solve_decision. Defined.

Definition b2z (b : bool) : Z := if b then 1 else 0.

Section Compressed.
Context {K : Crypto}.

(** the amount is compressed before the codec of the two fields runs; 0 stands for a failed assertion,
    which [CompressAmount_total] excludes *)
Definition ser_CTxOutCompressor : codec CTxOut :=
  ser_iso (ser_pair (ser_varint 64) ser_CScriptCompressor)
    (fun o => (default 0 (CompressAmount (u64 (nValue o))), scriptPubKey o))
    (fun '(nVal, s) => {| nValue := s64 (DecompressAmount nVal); scriptPubKey := s |}).

Definition undo_code (u : CTxInUndo) : Z := u32 (u_nHeight u * 2 + b2z (u_fCoinBase u)).

Definition ser_CTxInUndo : codec CTxInUndo :=
  {| Serialize u :=
       WriteVarInt 32 (undo_code u) ++
       (if 0 <? u_nHeight u then Serialize ser_varint_int (u_nVersion u) else []) ++
       Serialize ser_CTxOutCompressor (u_txout u);
     Unserialize s :=
       let? (nCode, s) := ReadVarInt 32 s in
       let nHeight := nCode / 2 in
       let fCoinBase := negb (Z.land nCode 1 =? 0) in
       let? (nVersion, s) := if 0 <? nHeight then Unserialize ser_varint_int s else Some (0, s) in
       let? (txout, s) := Unserialize ser_CTxOutCompressor s in
       Some ({| u_txout := txout; u_fCoinBase := fCoinBase; u_nHeight := nHeight; u_nVersion := nVersion |}, s);
     GetSerializeSize u :=
       u32 (GetSizeOfVarInt 32 (undo_code u) +
            (if 0 <? u_nHeight u then GetSerializeSize ser_varint_int (u_nVersion u) else 0) +
            GetSerializeSize ser_CTxOutCompressor (u_txout u)) |}.

Definition ser_CTxUndo : codec CTxUndo := ser_vector ser_CTxInUndo.
Definition ser_CBlockUndo : codec CBlockUndo := ser_vector ser_CTxUndo.
End Compressed.
#[export] Typeclasses Opaque ser_varint_int ser_CTxOutCompressor ser_CTxInUndo ser_CTxUndo ser_CBlockUndo.

Lemma CompressAmount_total n : 0 <= n -> is_Some (CompressAmount n).
Proof.
  intros Hn. unfold CompressAmount. destruct (Z.eqb_spec n 0); [eauto|].
  pose proof (strip_zeros_spec 10 n 0 ltac:(lia) ltac:(lia) ltac:(lia)) as H.
  destruct (strip_zeros 10 n 0) as [m e]. destruct H as (Hm & He & _ & Hd).
  destruct (Z.ltb_spec e 9); [|eauto]. specialize (Hd ltac:(lia)). pose proof (Z.mod_pos_bound m 10).
  rewrite (proj2 (Z.leb_le 1 _)), (proj2 (Z.leb_le _ 9)) by lia. eauto.
Qed.

Definition valid_out (o : CTxOut) : Prop := 0 <= nValue o <= max_amount /\ sized is_byte (scriptPubKey o).
(** undo data as [Spend] writes it: without a height there is nothing else *)
Definition valid_undo (u : CTxInUndo) : Prop :=
  valid_out (u_txout u) /\ 0 <= u_nHeight u < 2 ^ 31 /\ 0 <= u_nVersion u < 2 ^ 31 /\
  (u_nHeight u = 0 -> u_nVersion u = 0).

#[export] Instance ser_varint_int_lawful : Lawful ser_varint_int (fun n => 0 <= n < 2 ^ 31).
Proof.
  split; cbn [Serialize Unserialize GetSerializeSize ser_varint_int].
  - intros n s Hn. pose proof (ser_roundtrip (c := ser_varint 32) n s) as H. cbn [Serialize Unserialize ser_varint] in H. rewrite H by lia.
    by rewrite s32_small by lia.
  - intros n Hn. apply (ser_size (c := ser_varint 32)). lia.
  - intros n Hn. apply (ser_bytes (c := ser_varint 32)). lia.
Qed.

Section CompressedLaws.
Context {K : Crypto} {KL : CryptoLaws K}.

#[export] Instance ser_CTxOutCompressor_lawful : Lawful ser_CTxOutCompressor valid_out.
Proof.
  refine (ser_iso_lawful _ _ _ _ _). intros [v s] [Hv Hs]. cbn [nValue scriptPubKey] in *.
  destruct (CompressAmount_bound v Hv) as (x & Hc & Hx & Hd). unfold max_amount in Hv.
  rewrite u64_small by lia. rewrite Hc. cbn [default from_option id].
  split; [done|]. cbn. by rewrite Hd, s64_small by lia.
Qed.

Lemma undo_code_split u : valid_undo u -> undo_code u = u_nHeight u * 2 + b2z (u_fCoinBase u) /\
  undo_code u / 2 = u_nHeight u /\ negb (Z.land (undo_code u) 1 =? 0) = u_fCoinBase u.
Proof.
  intros (_ & Hh & _). unfold undo_code. rewrite u32_small by (unfold b2z; destruct (u_fCoinBase u); lia).
  assert (Hb : 0 <= b2z (u_fCoinBase u) < 2) by (unfold b2z; destruct (u_fCoinBase u); lia).
  change 1 with (2 ^ 1 - 1) at 1. rewrite land_mask by lia. split_and!; [done| |].
  - rewrite Z.div_add_l, (Z.div_small (b2z _)) by lia. lia.
  - change (2 ^ 1) with 2. rewrite Z.add_comm, Z_mod_plus_full, Z.mod_small by lia. by destruct (u_fCoinBase u).
Qed.

#[export] Instance ser_CTxInUndo_lawful : Lawful ser_CTxInUndo valid_undo.
Proof.
  split; cbn [Serialize Unserialize GetSerializeSize ser_CTxInUndo].
  - intros u s Hu. destruct (undo_code_split u Hu) as (Hc & Hh & Hb). destruct Hu as (Ho & Hr & Hv & H0).
    pose proof (ser_roundtrip (c := ser_varint 32) (undo_code u)) as H. cbn [Serialize Unserialize ser_varint] in H.
    assert (0 <= b2z (u_fCoinBase u) < 2) by (unfold b2z; destruct (u_fCoinBase u); lia).
    rewrite <- !app_assoc, H by lia. rewrite Hh, Hb. destruct u as [o cb h v]. cbn [u_txout u_fCoinBase u_nHeight u_nVersion] in *.
    destruct (Z.ltb_spec 0 h).
    + rewrite (ser_roundtrip (c := ser_varint_int)) by done. by rewrite ser_roundtrip by done.
    + cbn [app]. rewrite ser_roundtrip by done. rewrite H0 by lia. done.
  - intros u Hu. destruct (undo_code_split u Hu) as (Hc & _ & _). destruct Hu as (Ho & Hr & Hv & H0).
    assert (0 <= b2z (u_fCoinBase u) < 2) by (unfold b2z; destruct (u_fCoinBase u); lia).
    pose proof (ser_size (c := ser_varint 32) (undo_code u)) as Hsz. cbn [Serialize GetSerializeSize ser_varint] in Hsz.
    rewrite Hsz by lia. rewrite (ser_size (c := ser_CTxOutCompressor)) by done. rewrite !length_app.
    rewrite u32_add_r, <- Z.add_assoc, u32_add_l.
    destruct (0 <? u_nHeight u); [rewrite (ser_size (c := ser_varint_int)) by done|cbn [length]; f_equal; lia].
    rewrite Z.add_comm, <- Z.add_assoc, u32_add_l. f_equal. lia.
  - intros u Hu. destruct (undo_code_split u Hu) as (Hc & _ & _). destruct Hu as (Ho & Hr & Hv & H0).
    assert (0 <= b2z (u_fCoinBase u) < 2) by (unfold b2z; destruct (u_fCoinBase u); lia).
    rewrite !all_bytes_app. split_and!; [apply (ser_bytes (c := ser_varint 32)); lia| |by apply ser_bytes].
    destruct (0 <? u_nHeight u); [by apply ser_bytes|constructor].
Qed.

#[export] Instance ser_CBlockUndo_lawful : Lawful ser_CBlockUndo (sized (sized valid_undo)).
Proof. unfold ser_CBlockUndo, ser_CTxUndo. apply _. Qed.
End CompressedLaws.

(** ** The unspent outputs of a transaction *)

Record CCoins := { c_fCoinBase : bool; c_vout : list CTxOut; c_nHeight : Z; c_nVersion : Z }.

#[export] Instance CCoins_eq_dec : EqDecision CCoins.
Proof. solve_decision. Defined.

Definition empty_coins : CCoins := {| c_fCoinBase := false; c_vout := []; c_nHeight := 0; c_nVersion := 0 |}.
Definition coins_of (tx : CTransaction) (nHeight : Z) : CCoins :=
  {| c_fCoinBase := IsCoinBase tx; c_vout := vout tx; c_nHeight := nHeight; c_nVersion := nVersion tx |}.
Definition set_vout (c : CCoins) (v : list CTxOut) : CCoins :=
  {| c_fCoinBase := c_fCoinBase c; c_vout := v; c_nHeight := c_nHeight c; c_nVersion := c_nVersion c |}.

(** [pop_back] while the last output is spent; the list is reversed *)
Fixpoint pop_nulls (l : list CTxOut) : list CTxOut :=
  match l with
  | [] => []
  | o :: r => if txout_IsNull o then pop_nulls r else l
  end.
Definition cleanup_vout (v : list CTxOut) : list CTxOut := rev (pop_nulls (rev v)).
Definition Cleanup (c : CCoins) : CCoins := set_vout c (cleanup_vout (c_vout c)).

(** whether an output is unspent *)
Definition unspent (o : CTxOut) : bool := negb (txout_IsNull o).

(** [l] is [vout] from [2 + b * 8] on *)
Fixpoint mask_loop (fuel : nat) (b : Z) (l : list CTxOut) (nLastUsedByte nNonzeroBytes : Z) : Z * Z :=
  match fuel with
  | O => (nLastUsedByte, nNonzeroBytes)
  | S f =>
    if bool_decide (l = []) then (nLastUsedByte, nNonzeroBytes)
    else
      let fZero := forallb txout_IsNull (take 8 l) in
      if fZero then mask_loop f (b + 1) (drop 8 l) nLastUsedByte nNonzeroBytes
      else mask_loop f (b + 1) (drop 8 l) (b + 1) (nNonzeroBytes + 1)
  end.
Definition CalcMaskSize (c : CCoins) : Z * Z :=
  mask_loop (length (c_vout c)) 0 (drop 2 (c_vout c)) 0 0.

(** the bit of output [i] of the byte and the following ones *)
Fixpoint chAvail (i : Z) (l : list bool) : Z :=
  match l with
  | [] => 0
  | a :: l => Z.lor (if a then Z.shiftl 1 i else 0) (chAvail (i + 1) l)
  end.
Fixpoint mask_bytes (nMaskSize : nat) (l : list CTxOut) : bytes :=
  match nMaskSize with
  | O => []
  | S n => chAvail 0 (map unspent (take 8 l)) :: mask_bytes n (drop 8 l)
  end.

Definition avail (v : list CTxOut) (i : nat) : bool := match v !! i with Some o => unspent o | None => false end.

(** the header code; [None]: nothing is unspent *)
Definition header_code (c : CCoins) : option Z :=
  let '(_, nMaskCode) := CalcMaskSize c in
  let fFirst := avail (c_vout c) 0 in
  let fSecond := avail (c_vout c) 1 in
  if fFirst || fSecond || negb (nMaskCode =? 0) then
    Some (u32 (8 * (nMaskCode - (if fFirst || fSecond then 0 else 1)) +
               b2z (c_fCoinBase c) + (if fFirst then 2 else 0) + (if fSecond then 4 else 0)))
  else None.

Definition bits (ch : Z) : list bool := map (fun p => negb (Z.land ch (Z.shiftl 1 p) =? 0)) [0; 1; 2; 3; 4; 5; 6; 7].
(** the spentness mask: bytes until [nMaskCode] of them were not zero *)
Fixpoint read_mask (nMaskCode : Z) (vAvail : list bool) (s : bytes) : option (list bool * bytes) :=
  if 0 <? nMaskCode then
    match s with
    | [] => None
    | ch :: s => read_mask (if negb (ch =? 0) then nMaskCode - 1 else nMaskCode) (vAvail ++ bits ch) s
    end
  else Some (vAvail, s).

Section CoinsSerialization.
Context {K : Crypto}.

Definition unspent_outs (v : list CTxOut) : list CTxOut := filter (fun o => unspent o = true) v.

Definition coins_size (c : CCoins) : option Z :=
  let? nCode := header_code c in
  let nSize := u32 (GetSerializeSize ser_varint_int (c_nVersion c) + GetSizeOfVarInt 32 nCode + (CalcMaskSize c).1) in
  let nSize := foldl (fun n o => u32 (n + GetSerializeSize ser_CTxOutCompressor o)) nSize (unspent_outs (c_vout c)) in
  Some (u32 (nSize + GetSerializeSize ser_varint_int (c_nHeight c))).

Definition coins_write (c : CCoins) : option bytes :=
  let? nCode := header_code c in
  Some (Serialize ser_varint_int (c_nVersion c) ++ WriteVarInt 32 nCode ++
        mask_bytes (Z.to_nat (CalcMaskSize c).1) (drop 2 (c_vout c)) ++
        concat (map (Serialize ser_CTxOutCompressor) (unspent_outs (c_vout c))) ++
        Serialize ser_varint_int (c_nHeight c)).

Fixpoint read_outs (vAvail : list bool) (s : bytes) : option (list CTxOut * bytes) :=
  match vAvail with
  | [] => Some ([], s)
  | a :: r =>
    let? (o, s) := if a then Unserialize ser_CTxOutCompressor s else Some (null_txout, s) in
    let? (v, s) := read_outs r s in
    Some (o :: v, s)
  end.

Definition coins_read (s : bytes) : option (CCoins * bytes) :=
  let? (nVersion, s) := Unserialize ser_varint_int s in
  let? (nCode, s) := ReadVarInt 32 s in
  let fCoinBase := negb (Z.land nCode 1 =? 0) in
  let vAvail := [negb (Z.land nCode 2 =? 0); negb (Z.land nCode 4 =? 0)] in
  let nMaskCode := u32 (nCode / 8 + (if negb (Z.land nCode 6 =? 0) then 0 else 1)) in
  let? (vAvail, s) := read_mask nMaskCode vAvail s in
  let? (vout, s) := read_outs vAvail s in
  let? (nHeight, s) := Unserialize ser_varint_int s in
  Some (Cleanup {| c_fCoinBase := fCoinBase; c_vout := vout; c_nHeight := nHeight; c_nVersion := nVersion |}, s).
End CoinsSerialization.

(** an output is marked spent; [None]: it is not there *)
Definition Spend (c : CCoins) (out : COutPoint) : option (CCoins * CTxInUndo) :=
  let n := Z.to_nat (o_n out) in
  match c_vout c !! n with
  | None => None
  | Some txout =>
    if txout_IsNull txout then None
    else
      let c := Cleanup (set_vout c (<[n := null_txout]> (c_vout c))) in
      let undo :=
        if bool_decide (c_vout c = []) then
          {| u_txout := txout; u_fCoinBase := c_fCoinBase c; u_nHeight := u32 (c_nHeight c); u_nVersion := c_nVersion c |}
        else {| u_txout := txout; u_fCoinBase := false; u_nHeight := 0; u_nVersion := 0 |} in
      Some (c, undo)
  end.
Definition Spend_pos (c : CCoins) (nPos : Z) : option CCoins :=
  option_map fst (Spend c {| o_hash := 0; o_n := u32 nPos |}).

Definition IsAvailable (c : CCoins) (nPos : Z) : bool :=
  match c_vout c !! Z.to_nat nPos with Some o => unspent o | None => false end.
Definition IsPruned (c : CCoins) : bool := forallb txout_IsNull (c_vout c).

(** ** The serialization of [CCoins] read back *)

Lemma pop_nulls_replicate k l : pop_nulls (replicate k null_txout ++ l) = pop_nulls l.
Proof. induction k as [|k IH]; [done|]. cbn. exact IH. Qed.

Lemma cleanup_nulls v k : cleanup_vout (v ++ replicate k null_txout) = cleanup_vout v.
Proof.
  unfold cleanup_vout. rewrite rev_app_distr.
  assert (Hr : rev (replicate k null_txout) = replicate k null_txout).
  { rewrite rev_alt. apply reverse_replicate. }
  by rewrite Hr, pop_nulls_replicate.
Qed.

Definition cleaned (v : list CTxOut) : Prop := cleanup_vout v = v.
(** a spent output has no script left, an unspent one is valid *)
Definition out_ok (o : CTxOut) : Prop := o = null_txout \/ (unspent o = true /\ valid_out o).

Definition pad (n : nat) (v : list CTxOut) : list CTxOut := take n v ++ replicate (n - length v) null_txout.

Lemma length_pad n v : length (pad n v) = n.
Proof. unfold pad. rewrite length_app, length_take, length_replicate. lia. Qed.

Lemma pad_add n m v : pad (n + m) v = pad n v ++ pad m (drop n v).
Proof.
  unfold pad. rewrite length_drop. destruct (decide (n <= length v)%nat) as [Hn|Hn].
  - replace (n - length v)%nat with 0%nat by lia. cbn [replicate]. rewrite app_nil_r.
    rewrite app_assoc, take_take_drop. do 2 f_equal. lia.
  - rewrite (take_ge v (n + m)), (take_ge v n), (drop_ge v n) by lia. rewrite take_nil. cbn [app].
    rewrite <- app_assoc, <- replicate_add. do 2 f_equal. lia.
Qed.

Lemma nulls_replicate v : Forall (fun o => o = null_txout) v -> v = replicate (length v) null_txout.
Proof. induction 1 as [|o v -> _ IH]; [done|]. cbn. by f_equal. Qed.

Lemma cleanup_pad n v : Forall (fun o => o = null_txout) (drop n v) -> cleanup_vout (pad n v) = cleanup_vout v.
Proof.
  intros H. unfold pad. rewrite cleanup_nulls. rewrite <- (take_drop n v) at 2.
  by rewrite (nulls_replicate _ H), cleanup_nulls.
Qed.

Lemma byte_bits bl : (length bl <= 8)%nat ->
  bits (chAvail 0 bl) = bl ++ replicate (8 - length bl) false /\
  (chAvail 0 bl =? 0) = forallb negb bl /\ is_byteb (chAvail 0 bl) = true.
Proof.
  intros Hl. do 8 (destruct bl as [|[] bl]; [split_and!; reflexivity| |]; cbn [length] in Hl).
  all: destruct bl as [|? bl]; [split_and!; reflexivity|cbn [length] in Hl; lia].
Qed.

Definition nzcount (bs : bytes) : Z := Z.of_nat (length (filter (fun b => b <> 0) bs)).
Definition ends_nonzero (bs : bytes) : Prop := bs = [] \/ List.last bs 0 <> 0.

Lemma ends_nonzero_tail b bs : ends_nonzero (b :: bs) -> ends_nonzero bs.
Proof. intros [|H]; [done|]. destruct bs as [|x r]; [by left|]. right. exact H. Qed.

Lemma nzcount_cons b bs : nzcount (b :: bs) = (if b =? 0 then 0 else 1) + nzcount bs.
Proof.
  unfold nzcount. rewrite filter_cons. destruct (Z.eqb_spec b 0).
  - by rewrite decide_False by (intros Hc; by apply Hc).
  - rewrite decide_True by done. cbn [length]. lia.
Qed.

Lemma nzcount_pos bs : ends_nonzero bs -> bs <> [] -> 0 < nzcount bs.
Proof.
  intros H Hne. induction bs as [|b bs IH]; [done|]. rewrite nzcount_cons.
  destruct bs as [|x r].
  - destruct H as [|H]; [done|]. cbn in H. by rewrite (proj2 (Z.eqb_neq _ _)).
  - specialize (IH (ends_nonzero_tail _ _ H) ltac:(done)). destruct (b =? 0); lia.
Qed.

Lemma read_mask_bytes bs acc s : ends_nonzero bs ->
  read_mask (nzcount bs) acc (bs ++ s) = Some (acc ++ concat (map bits bs), s).
Proof.
  revert acc. induction bs as [|b bs IH]; intros acc H.
  - cbn. destruct s; cbn; by rewrite app_nil_r.
  - pose proof (nzcount_pos _ H ltac:(done)) as Hp. cbn [app read_mask map concat].
    rewrite (proj2 (Z.ltb_lt _ _)) by lia. rewrite app_assoc, <- IH by by eapply ends_nonzero_tail.
    f_equal. rewrite nzcount_cons. destruct (b =? 0); cbn [negb]; lia.
Qed.

Lemma spent_ok o : out_ok o -> unspent o = false -> o = null_txout.
Proof. intros [|[H _]] Hu; [done|congruence]. Qed.

Lemma forallb_spent v : Forall out_ok v -> forallb txout_IsNull v = true -> Forall (fun o => o = null_txout) v.
Proof.
  induction 1 as [|o v Ho Hv IH]; [constructor|]. cbn. intros H. apply andb_prop in H as [H1 H2].
  constructor; [|auto]. apply spent_ok; [done|]. unfold unspent. by rewrite H1.
Qed.

Lemma chAvail_zero v : (length v <= 8)%nat -> (chAvail 0 (map unspent v) =? 0) = forallb txout_IsNull v.
Proof.
  intros Hl. destruct (byte_bits (map unspent v)) as (_ & -> & _); [by rewrite length_map|].
  induction v as [|o v IH]; [done|]. cbn [map forallb]. unfold unspent at 1. rewrite negb_involutive.
  f_equal. apply IH. cbn in Hl. lia.
Qed.

Lemma length_take8 {A} (l : list A) : (length (take 8 l) <= 8)%nat.
Proof. rewrite length_take. lia. Qed.

(** what [CalcMaskSize] computes: the mask up to its last non-zero byte *)
Lemma mask_loop_spec fuel b l nl nz : Forall out_ok l -> (length l <= fuel)%nat ->
  exists m, mask_loop fuel b l nl nz =
              (if bool_decide (m = 0)%nat then nl else b + Z.of_nat m, nz + nzcount (mask_bytes m l)) /\
            (m <= length l)%nat /\ ends_nonzero (mask_bytes m l) /\
            Forall (fun o => o = null_txout) (drop (8 * m) l).
Proof.
  revert b l nl nz. induction fuel as [|f IH]; intros b l nl nz Hok Hf.
  { destruct l; [|cbn in Hf; lia]. exists 0%nat. split_and!; [f_equal; change (nzcount (mask_bytes 0 [])) with 0; lia|cbn; lia|by left|constructor]. }
  cbn [mask_loop]. destruct l as [|o l]; cbn [bool_decide decide_rel].
  { exists 0%nat. split_and!; [f_equal; change (nzcount (mask_bytes 0 [])) with 0; lia|cbn; lia|by left|constructor]. }
  rewrite (bool_decide_eq_false_2 (o :: l = [])) by done. set (w := o :: l) in *.
  assert (Hd : Forall out_ok (drop 8 w)) by by apply Forall_drop.
  assert (Hlw : (length (drop 8 w) <= f)%nat) by (rewrite length_drop; cbn in *; lia).
  assert (Hz := chAvail_zero (take 8 w) (length_take8 w)).
  destruct (forallb txout_IsNull (take 8 w)) eqn:Ez.
  - destruct (IH (b + 1) (drop 8 w) nl nz Hd Hlw) as (m & -> & Hm & He & Hn). rewrite length_drop in Hm.
    destruct m as [|m].
    + exists 0%nat. split_and!; [done|lia|by left|]. rewrite <- (take_drop 8 w). cbn [drop Nat.mul].
      apply Forall_app. split; [|exact Hn]. apply forallb_spent; [by apply Forall_take|done].
    + exists (S (S m)). rewrite !bool_decide_eq_false_2 by done. split_and!.
      * f_equal; [lia|]. f_equal. change (mask_bytes (S (S m)) w) with (chAvail 0 (map unspent (take 8 w)) :: mask_bytes (S m) (drop 8 w)).
        by rewrite nzcount_cons, Hz.
      * lia.
      * right. destruct He as [He|He]; [by destruct (drop 8 w)|]. cbn [mask_bytes] in *. exact He.
      * rewrite drop_drop in Hn. replace (8 * S (S m))%nat with (8 + 8 * S m)%nat by lia. exact Hn.
  - destruct (IH (b + 1) (drop 8 w) (b + 1) (nz + 1) Hd Hlw) as (m & -> & Hm & He & Hn). rewrite length_drop in Hm.
    apply Z.eqb_neq in Hz. exists (S m). rewrite (bool_decide_eq_false_2 (S m = 0)%nat) by done. split_and!.
    + f_equal; [case_bool_decide; subst; lia|]. cbn [mask_bytes]. rewrite nzcount_cons, (proj2 (Z.eqb_neq _ _)) by done. lia.
    + cbn in *. lia.
    + right. cbn [mask_bytes]. destruct (mask_bytes m (drop 8 w)) as [|x r] eqn:Em; [done|].
      destruct He as [|He]; [done|]. exact He.
    + rewrite drop_drop in Hn. replace (8 * S m)%nat with (8 + 8 * m)%nat by lia. exact Hn.
Qed.

Lemma unspent_pad8 l : bits (chAvail 0 (map unspent (take 8 l))) = map unspent (pad 8 l).
Proof.
  destruct (byte_bits (map unspent (take 8 l))) as [-> _]; [rewrite length_map; apply length_take8|].
  unfold pad. rewrite map_app, length_map, length_take. f_equal.
  replace (8 - length l)%nat with (8 - 8 `min` length l)%nat by lia.
  induction (8 - _)%nat as [|k IH]; [done|]. cbn. by f_equal.
Qed.

Lemma mask_bits m l : concat (map bits (mask_bytes m l)) = map unspent (pad (8 * m) l).
Proof.
  revert l. induction m as [|m IH]; intros l; [done|]. cbn [mask_bytes map concat].
  rewrite unspent_pad8, IH. replace (8 * S m)%nat with (8 + 8 * m)%nat by lia. by rewrite pad_add, map_app.
Qed.

Lemma avail_pad2 v : map unspent (pad 2 v) = [avail v 0; avail v 1].
Proof. by destruct v as [|a [|b v]]. Qed.

Lemma length_mask_bytes m l : length (mask_bytes m l) = m.
Proof. revert l. induction m as [|m IH]; intros l; [done|]. cbn. by rewrite IH. Qed.

Lemma mask_bytes_all m l : all_bytes (mask_bytes m l).
Proof.
  revert l. induction m as [|m IH]; intros l; cbn [mask_bytes]; constructor; [|apply IH].
  apply is_byteb_spec. apply byte_bits. rewrite length_map. apply length_take8.
Qed.

Lemma land_low8 k c m : 0 <= c < 8 -> 0 <= m < 8 -> Z.land (8 * k + c) m = Z.land c m.
Proof.
  intros Hc Hm. assert (E : forall x, Z.land x m = Z.land (x mod 2 ^ 3) m).
  { intros x. rewrite <- land_mask, <- Z.land_assoc by lia. f_equal. rewrite Z.land_comm, land_mask by lia.
    symmetry. apply Z.mod_small. lia. }
  rewrite (E (8 * k + c)), (E c). f_equal. change (2 ^ 3) with 8.
  by rewrite Z.add_comm, (Z.mul_comm 8), Z_mod_plus_full.
Qed.

(** the fields of the header code *)
Lemma header_split k (cb f g : bool) : 0 <= k < 2 ^ 28 ->
  let n := 8 * k + b2z cb + (if f then 2 else 0) + (if g then 4 else 0) in
  u32 n = n /\ negb (Z.land n 1 =? 0) = cb /\ negb (Z.land n 2 =? 0) = f /\ negb (Z.land n 4 =? 0) = g /\
  negb (Z.land n 6 =? 0) = f || g /\ n / 8 = k.
Proof.
  intros Hk n. set (c := b2z cb + (if f then 2 else 0) + (if g then 4 else 0)).
  assert (Hn : n = 8 * k + c) by (unfold n, c; lia).
  assert (Hc : 0 <= c < 8) by (unfold c; destruct cb, f, g; cbn; lia).
  rewrite Hn, !land_low8 by lia. split_and!; [apply u32_small; lia|..]; try (unfold c; by destruct cb, f, g).
  rewrite (Z.mul_comm 8), Z.div_add_l, (Z.div_small c) by lia. lia.
Qed.

Section CoinsRoundtrip.
Context {K : Crypto} {KL : CryptoLaws K}.

Lemma read_outs_spec w s : Forall out_ok w ->
  read_outs (map unspent w) (concat (map (Serialize ser_CTxOutCompressor) (unspent_outs w)) ++ s) = Some (w, s).
Proof.
  induction 1 as [|o w Ho Hw IH]; [done|]. cbn [map read_outs]. unfold unspent_outs in *. rewrite filter_cons.
  destruct Ho as [-> | [Hu Hv]].
  - change (unspent null_txout) with false. rewrite decide_False by done. by rewrite IH.
  - rewrite Hu, decide_True by done. cbn [map concat]. by rewrite <- app_assoc, ser_roundtrip, IH by done.
Qed.

Lemma unspent_outs_pad n v : Forall (fun o => o = null_txout) (drop n v) -> unspent_outs (pad n v) = unspent_outs v.
Proof.
  assert (Hr : forall k, unspent_outs (replicate k null_txout) = []).
  { induction k as [|k IH]; [done|]. exact IH. }
  intros H. rewrite <- (take_drop n v) at 2. rewrite (nulls_replicate _ H). unfold pad, unspent_outs in *.
  by rewrite !filter_app, !Hr.
Qed.

(** coins as the database holds them *)
Definition valid_coins (c : CCoins) : Prop :=
  cleaned (c_vout c) /\ c_vout c <> [] /\ Forall out_ok (c_vout c) /\ Z.of_nat (length (c_vout c)) < 2 ^ 24 /\
  0 <= c_nHeight c < 2 ^ 31 /\ 0 <= c_nVersion c < 2 ^ 31.

Lemma valid_unspent v : Forall out_ok v -> Forall valid_out (unspent_outs v).
Proof.
  induction 1 as [|o v Ho Hv IH]; [constructor|]. unfold unspent_outs in *. rewrite filter_cons.
  destruct Ho as [-> | [Hu Hx]]; [by rewrite decide_False|]. rewrite decide_True by done. by constructor.
Qed.

Lemma cleaned_last v : cleaned v -> v <> [] -> exists w o, v = w ++ [o] /\ unspent o = true.
Proof.
  unfold cleaned, cleanup_vout. intros H Hne. destruct v as [|o w _] using rev_ind; [done|].
  rewrite rev_app_distr in H. cbn [rev app pop_nulls] in H. exists w, o. split; [done|].
  unfold unspent. destruct (txout_IsNull o) eqn:E; [|done].
  assert (Hp : forall l, (length (pop_nulls l) <= length l)%nat).
  { induction l as [|x l IH]; [done|]. cbn. destruct (txout_IsNull x); cbn; lia. }
  apply (f_equal length) in H. rewrite length_rev, length_app in H. specialize (Hp (rev w)).
  rewrite length_rev in Hp. cbn in H. lia.
Qed.

(** the header, the mask and their sizes *)
Lemma coins_header c : valid_coins c -> exists m,
  CalcMaskSize c = (Z.of_nat m, nzcount (mask_bytes m (drop 2 (c_vout c)))) /\ Z.of_nat m < 2 ^ 24 /\
  ends_nonzero (mask_bytes m (drop 2 (c_vout c))) /\
  Forall (fun o => o = null_txout) (drop (2 + 8 * m) (c_vout c)) /\
  (avail (c_vout c) 0 || avail (c_vout c) 1 = true \/ (0 < m)%nat).
Proof.
  intros (Hc & Hne & Hok & Hl & _). unfold CalcMaskSize.
  destruct (mask_loop_spec (length (c_vout c)) 0 (drop 2 (c_vout c)) 0 0) as (m & -> & Hm & He & Hn).
  { by apply Forall_drop. } { rewrite length_drop. lia. }
  rewrite length_drop in Hm. rewrite drop_drop in Hn. exists m. split_and!; [|lia|done|done|].
  - by destruct m.
  - destruct m as [|m]; [left|right; lia]. destruct (cleaned_last _ Hc Hne) as (w & o & Hv & Hu).
    rewrite Hv in Hn |- *. rewrite drop_app in Hn. apply Forall_app in Hn as [_ Hn].
    destruct w as [|a [|b w]]; cbn [length Nat.sub drop app] in *.
    + unfold avail. cbn. by rewrite Hu.
    + unfold avail. cbn. rewrite Hu. apply orb_true_r.
    + apply Forall_cons in Hn as [-> _]. done.
Qed.
(** the counts that go into the header code are small *)
Lemma mask_counts c m : valid_coins c -> Z.of_nat m < 2 ^ 24 ->
  ends_nonzero (mask_bytes m (drop 2 (c_vout c))) ->
  avail (c_vout c) 0 || avail (c_vout c) 1 = true \/ (0 < m)%nat ->
  let nz := nzcount (mask_bytes m (drop 2 (c_vout c))) in
  let fs := avail (c_vout c) 0 || avail (c_vout c) 1 in
  0 <= nz - (if fs then 0 else 1) < 2 ^ 28 /\ fs || negb (nz =? 0) = true.
Proof.
  intros Hc Hm He Hf nz fs. assert (Hle : 0 <= nz < 2 ^ 28).
  { unfold nz, nzcount. pose proof (length_filter (fun b => b <> 0) (mask_bytes m (drop 2 (c_vout c)))) as H.
    rewrite length_mask_bytes in H. lia. }
  fold fs in Hf. destruct fs; [split; [lia|done]|]. destruct Hf as [|Hf]; [done|].
  assert (0 < nz).
  { apply nzcount_pos; [done|]. intros E. apply (f_equal length) in E. rewrite length_mask_bytes in E. cbn in E. lia. }
  split; [lia|]. rewrite (proj2 (Z.eqb_neq _ _)) by lia. done.
Qed.

Lemma coins_write_read c rest : valid_coins c -> exists data,
  coins_write c = Some data /\ coins_read (data ++ rest) = Some (c, rest) /\
  coins_size c = Some (u32 (Z.of_nat (length data))) /\ all_bytes data.
Proof.
  intros Hc. destruct (coins_header c Hc) as (m & Hmask & Hm & He & Hn & Hf).
  destruct (mask_counts c m Hc Hm He Hf) as [Hk Hx].
  unfold coins_write, coins_size, header_code. rewrite Hmask. cbn [fst snd].
  set (bs := mask_bytes m (drop 2 (c_vout c))) in *. set (f := avail (c_vout c) 0) in *.
  set (g := avail (c_vout c) 1) in *. rewrite Hx.
  destruct (header_split _ (c_fCoinBase c) f g Hk) as (Hu & H1 & H2 & H4 & H6 & H8).
  set (n := 8 * _ + _ + _ + _) in *. assert (Hn32 : 0 <= n < 2 ^ 32) by (rewrite <- Hu; apply u32_range).
  destruct Hc as (Hcl & Hne & Hok & Hl & Hh & Hv). rewrite Hu, Nat2Z.id. fold bs.
  pose proof (ser_roundtrip (c := ser_varint 32) n) as HR. cbn [Serialize Unserialize ser_varint] in HR.
  pose proof (ser_size (c := ser_varint 32) n) as HS. cbn [Serialize GetSerializeSize ser_varint] in HS.
  pose proof (valid_unspent _ Hok) as Hvu.
  eexists. split; [reflexivity|]. split_and!.
  - unfold coins_read. rewrite <- !app_assoc, (ser_roundtrip (c := ser_varint_int)) by done.
    rewrite HR by lia. rewrite H1, H2, H4, H6, H8, u32_small by (destruct (f || g); lia).
    replace (nzcount bs - _ + _) with (nzcount bs) by (destruct (f || g); lia).
    rewrite read_mask_bytes by done. unfold bs. rewrite mask_bits. unfold f, g. rewrite <- avail_pad2.
    rewrite <- map_app, <- pad_add, <- (unspent_outs_pad (2 + 8 * m)) by done.
    rewrite read_outs_spec.
    2:{ unfold pad. apply Forall_app. split; [by apply Forall_take|]. apply Forall_replicate. by left. }
    rewrite (ser_roundtrip (c := ser_varint_int)) by done. unfold Cleanup, set_vout.
    cbn [c_vout c_fCoinBase c_nHeight c_nVersion]. rewrite cleanup_pad, Hcl by done. by destruct c.
  - rewrite (ser_size (c := ser_varint_int)), HS by done.
    rewrite (foldl_size ser_CTxOutCompressor (VA := valid_out)) by done. rewrite (ser_size (c := ser_varint_int)) by done.
    rewrite u32_add_l, u32_add_r, <- !Z.add_assoc, u32_add_l, (Z.add_comm _ (u32 _ + _)), <- !Z.add_assoc, u32_add_l.
    rewrite !length_app. unfold bs. rewrite length_mask_bytes. do 2 f_equal. lia.
  - rewrite !all_bytes_app. split_and!; [by apply ser_bytes|by apply (ser_bytes (c := ser_varint 32))
      |apply mask_bytes_all| |by apply ser_bytes].
    apply all_bytes_concat. apply Forall_map. eapply Forall_impl; [exact Hvu|]. intros o Ho. by apply ser_bytes.
Qed.
End CoinsRoundtrip.

(** ** Spending and restoring an output *)

(** a spent output keeps nothing *)
Definition nullok (v : list CTxOut) : Prop := Forall (fun o => unspent o = false -> o = null_txout) v.
Definition coins_ok (c : CCoins) : Prop := cleaned (c_vout c) /\ nullok (c_vout c) /\ 0 < c_nHeight c < 2 ^ 31.

Lemma pop_nulls_split l : nullok l -> exists k, l = replicate k null_txout ++ pop_nulls l.
Proof.
  induction 1 as [|o l Ho Hl [k IH]]; [by exists 0%nat|]. cbn [pop_nulls]. destruct (txout_IsNull o) eqn:E; [|by exists 0%nat].
  exists (S k). cbn. rewrite <- IH. f_equal. apply Ho. unfold unspent. by rewrite E.
Qed.

Lemma cleanup_split v : nullok v -> exists k, v = cleanup_vout v ++ replicate k null_txout.
Proof.
  intros H. destruct (pop_nulls_split (rev v)) as [k Hk]; [by apply Forall_rev|]. exists k.
  rewrite <- (rev_involutive v) at 1. rewrite Hk, rev_app_distr. unfold cleanup_vout. f_equal.
  rewrite rev_alt. apply reverse_replicate.
Qed.

Lemma cleaned_cleanup v : cleaned (cleanup_vout v).
Proof.
  unfold cleaned, cleanup_vout. rewrite rev_involutive. f_equal. induction (rev v) as [|o l IH]; [done|].
  cbn [pop_nulls]. destruct (txout_IsNull o) eqn:E; [done|]. cbn [pop_nulls]. by rewrite E.
Qed.

Lemma nullok_prefix v w : nullok (v ++ w) -> nullok v.
Proof. intros H. by apply Forall_app in H as [H _]. Qed.

Lemma pruned_nil c : cleaned (c_vout c) -> IsPruned c = true -> c_vout c = [].
Proof.
  intros Hc Hp. destruct (c_vout c) as [|o v] eqn:Ev; [done|].
  destruct (cleaned_last (o :: v)) as (w & x & Hw & Hx); [done..|]. unfold IsPruned in Hp.
  rewrite Ev, Hw, forallb_app in Hp. apply andb_prop in Hp as [_ Hp]. cbn in Hp. unfold unspent in Hx.
  destruct (txout_IsNull x); done.
Qed.

(** resizing up to the position that was spent gives the list before [Cleanup] *)
Lemma cleanup_resize v n o : cleaned v -> nullok v -> v !! n = Some o -> unspent o = true ->
  let w := <[n := null_txout]> v in
  cleanup_vout w ++ replicate (S n - length (cleanup_vout w)) null_txout = w /\ nullok w.
Proof.
  intros Hc Hok Hn Ho w. pose proof (lookup_lt_Some _ _ _ Hn) as Hlt.
  assert (Hw : nullok w) by (apply Forall_insert; [done|done]). split; [|done].
  destruct (cleanup_split w Hw) as [k Hk]. set (cl := cleanup_vout w) in *.
  assert (Hlen : length v = (length cl + k)%nat).
  { rewrite <- (length_insert v n null_txout). fold w. rewrite Hk, length_app, length_replicate. done. }
  assert (HS : (S n - length cl = k)%nat); [|rewrite HS; symmetry; exact Hk].
  clearbody cl.
  destruct k as [|k]; [lia|].
  destruct (cleaned_last v Hc) as (v' & x & Hv & Hx); [by intros ->|].
  assert (Hlast : v !! (length cl + k)%nat = Some x).
  { rewrite Hv. rewrite Hv, length_app in Hlen. cbn in Hlen. rewrite lookup_app_r by lia.
    replace (length cl + k - length v')%nat with 0%nat by lia. done. }
  destruct (decide (n = length cl + k)%nat) as [->|Hne]; [lia|].
  assert (Hwx : w !! (length cl + k)%nat = Some x) by (unfold w; by rewrite list_lookup_insert_ne).
  rewrite Hk, lookup_app_r in Hwx by lia. apply lookup_replicate in Hwx as [-> _]. done.
Qed.

Lemma Spend_Some c out c' undo : Spend c out = Some (c', undo) -> exists o,
  c_vout c !! Z.to_nat (o_n out) = Some o /\ unspent o = true /\
  c' = set_vout c (cleanup_vout (<[Z.to_nat (o_n out) := null_txout]> (c_vout c))) /\ u_txout undo = o /\
  (c_vout c' = [] -> u_fCoinBase undo = c_fCoinBase c /\ u_nHeight undo = u32 (c_nHeight c) /\ u_nVersion undo = c_nVersion c) /\
  (c_vout c' <> [] -> u_nHeight undo = 0).
Proof.
  unfold Spend. destruct (c_vout c !! _) as [o|]; [|done]. unfold unspent.
  destruct (txout_IsNull o) eqn:E; [done|]. cbn zeta. intros [= <- <-]. exists o.
  cbn [Cleanup c_vout set_vout c_fCoinBase c_nHeight c_nVersion].
  split; [done|split; [by rewrite E|split; [done|]]].
  case_bool_decide as Hv; cbn [u_txout u_fCoinBase u_nHeight u_nVersion]; by split_and!.
Qed.

Lemma Spend_ok c out c' undo : coins_ok c -> Spend c out = Some (c', undo) ->
  coins_ok c' /\ IsPruned c = false /\ (IsPruned c' = bool_decide (c_vout c' = [])).
Proof.
  intros (Hc & Hok & Hh) H. destruct (Spend_Some _ _ _ _ H) as (o & Hn & Ho & -> & _).
  assert (Hcl : cleaned (cleanup_vout (<[Z.to_nat (o_n out) := null_txout]> (c_vout c)))) by apply cleaned_cleanup.
  destruct (cleanup_resize _ _ _ Hc Hok Hn Ho) as [Hr Hw]. cbn zeta in Hr. unfold coins_ok. split_and!; cbn.
  - done.
  - rewrite <- Hr in Hw. by apply nullok_prefix in Hw.
  - lia.
  - lia.
  - destruct (IsPruned c) eqn:Ep; [|done]. rewrite (pruned_nil c Hc Ep) in Hn. done.
  - case_bool_decide as Hv; [unfold IsPruned; cbn; by rewrite Hv|].
    apply not_true_is_false. intros Ep. apply Hv. exact (pruned_nil (set_vout c _) Hcl Ep).
Qed.

(** ** Properties *)

(** The compact amounts are decodable: every amount up to 2^60 units, so every amount of money, is
    compressed without failing the assertion on the digit and decompressed to itself; and every code below
    2^32 is the code of the amount it decompresses to, so the encoding has no redundancy. *)
Theorem CompressAmount_bijective :
  (forall n, 0 <= n <= max_amount -> exists x, CompressAmount n = Some x /\ 0 <= x < 2 ^ 64 /\ DecompressAmount x = n) /\
  (forall x, 0 <= x < 2 ^ 32 -> 0 <= DecompressAmount x <= max_amount /\ CompressAmount (DecompressAmount x) = Some x) /\
  MAX_MONEY <= max_amount.
Proof. split_and!; [exact CompressAmount_bound|exact DecompressAmount_bound|]. vm_compute. discriminate. Qed.

Section CoinsProperties.
Context {K : Crypto} {KL : CryptoLaws K}.

(** The chain state database loses nothing: coins with an unspent output, in the trimmed form the node
    keeps, are written, announced with their exact size, and read back identical from the front of any
    stream, whatever outputs are spent in between; and so is the undo data of a block. *)
Theorem CCoins_roundtrip c rest (Hc : valid_coins c) :
  (exists data, coins_write c = Some data /\ coins_read (data ++ rest) = Some (c, rest) /\
     coins_size c = Some (u32 (Z.of_nat (length data))) /\ all_bytes data) /\
  (forall u, sized (sized valid_undo) u ->
     Unserialize ser_CBlockUndo (Serialize ser_CBlockUndo u ++ rest) = Some (u, rest)).
Proof. split; [by apply coins_write_read|]. intros u Hu. by apply ser_roundtrip. Qed.

End CoinsProperties.

(** Spending marks exactly one output: [Spend] succeeds exactly when the output is available, afterwards
    that output is not available and every other one is as before, the trimmed form is kept, and the undo
    data records the output, and the metadata exactly when nothing is left. *)
Theorem Spend_exact c out (Hok : coins_ok c) (Hn : 0 <= o_n out) :
  (is_Some (Spend c out) <-> IsAvailable c (o_n out) = true) /\
  (forall c' undo, Spend c out = Some (c', undo) ->
     coins_ok c' /\ IsAvailable c' (o_n out) = false /\
     (forall n, 0 <= n -> n <> o_n out -> IsAvailable c' n = IsAvailable c n /\
        (IsAvailable c n = true -> c_vout c' !! Z.to_nat n = c_vout c !! Z.to_nat n)) /\
     c_vout c !! Z.to_nat (o_n out) = Some (u_txout undo) /\
     (IsPruned c' = true <-> u_nHeight undo <> 0)).
Proof.
  split.
  - unfold Spend, IsAvailable, unspent. destruct (c_vout c !! _) as [o|]; [|by split; [intros []|]].
    destruct (txout_IsNull o); cbn zeta; [by split; [intros []|]|]. by split.
  - intros c' undo H. destruct (Spend_ok _ _ _ _ Hok H) as (Hok' & _ & Hp).
    destruct (Spend_Some _ _ _ _ H) as (o & Ho & Hu & Hc' & Hundo & Hlast & Hmore). destruct Hok as (Hc & Hnull & Hh).
    destruct (cleanup_resize _ _ _ Hc Hnull Ho Hu) as [Hr _]. cbn zeta in Hr.
    assert (Hv : c_vout c' = cleanup_vout (<[Z.to_nat (o_n out) := null_txout]> (c_vout c))) by by rewrite Hc'.
    rewrite <- Hv in Hr. set (m := Z.to_nat (o_n out)) in *.
    assert (Hat : forall n o', c_vout c' !! n = Some o' -> <[m := null_txout]> (c_vout c) !! n = Some o').
    { intros n o' Hx. rewrite <- Hr. by apply lookup_app_l_Some. }
    assert (Hto : forall n o', <[m := null_txout]> (c_vout c) !! n = Some o' -> unspent o' = true -> c_vout c' !! n = Some o').
    { intros n o' Hx Hun. rewrite <- Hr in Hx. apply lookup_app_Some in Hx as [Hx|[_ Hx]]; [done|].
      apply lookup_replicate in Hx as [-> _]. done. }
    split_and!; [done| | |by rewrite Hundo|].
    + unfold IsAvailable. fold m. destruct (c_vout c' !! m) as [x|] eqn:Ex; [|done]. apply Hat in Ex.
      rewrite list_lookup_insert_eq in Ex by by eapply lookup_lt_Some. by injection Ex as <-.
    + intros n Hn0 Hne. assert (Hm : m <> Z.to_nat n) by (unfold m; lia). unfold IsAvailable.
      destruct (c_vout c' !! Z.to_nat n) as [x|] eqn:Ex.
      * apply Hat in Ex. rewrite list_lookup_insert_ne in Ex by done. by rewrite Ex.
      * destruct (c_vout c !! Z.to_nat n) as [y|] eqn:Ey; [|done]. destruct (unspent y) eqn:Euy; [|done].
        rewrite (Hto _ y) in Ex; [done| |done]. by rewrite list_lookup_insert_ne.
    + rewrite Hp, bool_decide_eq_true. split; [intros Hnil; destruct (Hlast Hnil) as (_ & -> & _); rewrite u32_small; lia|].
      intros Hx. destruct (c_vout c') eqn:Ev; [done|]. by rewrite Hmore in Hx.
Qed.

(** ** Witnesses *)

(** outputs 0 and 2 are spent, 1 and 3 are not *)
Definition sample_out (v : Z) : CTxOut := {| nValue := v; scriptPubKey := [0x51] |}.
Definition sample_coins : CCoins :=
  {| c_fCoinBase := true; c_vout := [null_txout; sample_out 50000000; null_txout; sample_out 7]; c_nHeight := 120891; c_nVersion := 1 |}.

Lemma sample_coins_valid : valid_coins sample_coins /\ coins_ok sample_coins.
Proof.
  assert (H : forall v, 0 <= v <= max_amount -> out_ok (sample_out v)).
  { intros v Hv. right. split; [unfold unspent, txout_IsNull; cbn; by rewrite (proj2 (Z.eqb_neq v (-1))) by lia|].
    split; [done|]. split; [repeat constructor; unfold is_byte; cbn; lia|cbn; unfold MAX_SIZE; lia]. }
  split; split_and!; try done; try (cbn; lia).
  - cbn. repeat (apply Forall_cons; split; [first [by left|apply H; unfold max_amount; lia]|]). constructor.
  - repeat (apply Forall_cons; split; [done|]). constructor.
Qed.

Lemma CCoins_roundtrip_witness : exists data, coins_write (K := ToyCrypto) sample_coins = Some data /\
  coins_read (K := ToyCrypto) (data ++ [9]) = Some (sample_coins, [9]).
Proof.
  destruct (proj1 (CCoins_roundtrip (K := ToyCrypto) sample_coins [9] (proj1 sample_coins_valid))) as (d & H1 & H2 & _).
  exists d. split; [exact H1|exact H2].
Defined.

Lemma Spend_exact_witness : is_Some (Spend sample_coins {| o_hash := 5; o_n := 3 |}).
Proof.
  apply (proj1 (Spend_exact sample_coins {| o_hash := 5; o_n := 3 |} (proj2 sample_coins_valid) ltac:(cbn; lia))).
  reflexivity.
Defined.
