(* ===== verification/View.v ===== *)
(** * Views of the unspent outputs (main.h, main.cpp)

    [CCoinsViewCache] over an interface of views ([CoinsView] with its laws
    [CoinsViewSpec]), the operations of transactions on a view ([HaveInputs],
    [GetValueIn], [CheckInputs], [UpdateCoins]) and the loops of [ConnectBlock] and
    [DisconnectBlock] over the transactions of a block. *)

From stdpp Require Import gmap.
From S2P Require Import Prelude OpenSSL Serialize Crypto Script Transaction Target ScriptEval ScriptStd Coins.
Local Open Scope Z_scope.

(** a block index a view points to: its hash and height *)
Record block_ref := { b_hash : Z; b_height : Z }.
#[export] Instance block_ref_eq_dec : EqDecision block_ref.
Proof. solve_decision. Defined.

(** the operations of a [CCoinsView] that a cache on top of it calls *)
Class CoinsView (V : Type) := {
  view_GetCoins : V -> Z -> option CCoins * V;
  view_GetBestBlock : V -> option block_ref * V;
  view_BatchWrite : V -> gmap Z CCoins -> option block_ref -> bool * V;
}.

(** coins that are all spent count as absent *)
Definition live (o : option CCoins) : option CCoins :=
  match o with Some c => if IsPruned c then None else Some c | None => None end.

(** what a view promises to a reader: it is a map with a best block *)
Class CoinsViewSpec (V : Type) {CV : CoinsView V} := {
  cmap : V -> Z -> option CCoins;
  ctip : V -> option block_ref;
  view_GetCoins_spec : forall v h, let '(r, v') := view_GetCoins v h in
    r = cmap v h /\ (forall k, cmap v' k = cmap v k) /\ ctip v' = ctip v;
  view_GetBestBlock_spec : forall v, let '(r, v') := view_GetBestBlock v in
    r = ctip v /\ (forall k, cmap v' k = cmap v k) /\ ctip v' = ctip v;
}.
(** and to a writer: a batch of coins it can store replaces the entries, but entries all spent may be dropped, and a block it can
    store becomes the best one *)
Class CoinsViewWrite (V : Type) {CV : CoinsView V} {CS : CoinsViewSpec V} := {
  writable : Z -> CCoins -> Prop;
  writable_tip : block_ref -> Prop;
  view_BatchWrite_spec : forall v m t, map_Forall writable m -> (forall r, t = Some r -> writable_tip r) -> let '(ok, v') := view_BatchWrite v m t in
    ok = true -> (forall k, live (cmap v' k) = live (match m !! k with Some c => Some c | None => cmap v k end)) /\
                 (is_Some t -> ctip v' = t);
}.

(** ** The cache *)

Section Cache.
Context {V : Type} {CV : CoinsView V}.

Record CCoinsViewCache := { base : V; cacheCoins : gmap Z CCoins; pindexTip : option block_ref }.
Definition new_cache (baseIn : V) : CCoinsViewCache := {| base := baseIn; cacheCoins := ∅; pindexTip := None |}.

Definition SetCoins (v : CCoinsViewCache) (txid : Z) (coins : CCoins) : CCoinsViewCache :=
  {| base := base v; cacheCoins := <[txid := coins]> (cacheCoins v); pindexTip := pindexTip v |}.

(** the entry of the cache, fetched from the base if it is not there *)
Definition FetchCoins (v : CCoinsViewCache) (txid : Z) : option CCoins * CCoinsViewCache :=
  match cacheCoins v !! txid with
  | Some c => (Some c, v)
  | None =>
    let '(r, b) := view_GetCoins (base v) txid in
    match r with
    | None => (None, {| base := b; cacheCoins := cacheCoins v; pindexTip := pindexTip v |})
    | Some c => (Some c, {| base := b; cacheCoins := <[txid := c]> (cacheCoins v); pindexTip := pindexTip v |})
    end
  end.
Definition GetCoins (v : CCoinsViewCache) (txid : Z) : option CCoins * CCoinsViewCache := FetchCoins v txid.
(** the overload that returns a reference; [None]: its assertion fails *)
Definition GetCoinsRef (v : CCoinsViewCache) (txid : Z) : option (CCoins * CCoinsViewCache) :=
  match FetchCoins v txid with (Some c, v) => Some (c, v) | (None, _) => None end.
Definition HaveCoins (v : CCoinsViewCache) (txid : Z) : bool * CCoinsViewCache :=
  let '(r, v) := FetchCoins v txid in (bool_decide (is_Some r), v).

Definition GetBestBlock (v : CCoinsViewCache) : option block_ref * CCoinsViewCache :=
  match pindexTip v with
  | Some t => (Some t, v)
  | None => let '(t, b) := view_GetBestBlock (base v) in
            (t, {| base := b; cacheCoins := cacheCoins v; pindexTip := t |})
  end.
Definition SetBestBlock (v : CCoinsViewCache) (pindex : option block_ref) : CCoinsViewCache :=
  {| base := base v; cacheCoins := cacheCoins v; pindexTip := pindex |}.
Definition BatchWrite (v : CCoinsViewCache) (mapCoins : gmap Z CCoins) (pindex : option block_ref) : bool * CCoinsViewCache :=
  (true, {| base := base v; cacheCoins := mapCoins ∪ cacheCoins v; pindexTip := pindex |}).
Definition Flush (v : CCoinsViewCache) : bool * CCoinsViewCache :=
  let '(fOk, b) := view_BatchWrite (base v) (cacheCoins v) (pindexTip v) in
  (fOk, {| base := b; cacheCoins := if fOk then ∅ else cacheCoins v; pindexTip := pindexTip v |}).
Definition GetCacheSize (v : CCoinsViewCache) : Z := Z.of_nat (size (cacheCoins v)).

#[export] Instance CCoinsViewCache_view : CoinsView CCoinsViewCache :=
  {| view_GetCoins := GetCoins; view_GetBestBlock := GetBestBlock; view_BatchWrite := BatchWrite |}.
End Cache.
Arguments CCoinsViewCache V : clear implicits.

Section CacheSpec.
Context {V : Type} {CV : CoinsView V} {CS : CoinsViewSpec V}.

(** the map and the best block a cache stands for *)
Definition Vm (v : CCoinsViewCache V) (h : Z) : option CCoins :=
  match cacheCoins v !! h with Some c => Some c | None => cmap (base v) h end.
Definition Vt (v : CCoinsViewCache V) : option block_ref :=
  match pindexTip v with Some t => Some t | None => ctip (base v) end.

Definition same_view (v w : CCoinsViewCache V) : Prop := (forall k, Vm w k = Vm v k) /\ Vt w = Vt v.

#[export] Instance same_view_equivalence : Equivalence same_view.
Proof.
  split.
  - by intros v.
  - intros v w [H1 H2]. by split; [intros k; rewrite H1|].
  - intros u v w [H1 H2] [H3 H4]. split; [intros k; by rewrite H3, H1|congruence].
Qed.

Lemma FetchCoins_spec v h : let '(r, v') := FetchCoins v h in
  r = Vm v h /\ same_view v v' /\ (is_Some r -> cacheCoins v' !! h = r).
Proof.
  unfold FetchCoins, same_view, Vm, Vt. destruct (cacheCoins v !! h) as [c|] eqn:Ec.
  - split_and!; try done.
  - pose proof (view_GetCoins_spec (base v) h) as H. destruct (view_GetCoins (base v) h) as [r b].
    destruct H as (Hr & Hm & Ht). destruct r as [c|]; cbn [cacheCoins base pindexTip].
    + split_and!; [done| |by rewrite Ht|by rewrite lookup_insert_eq].
      intros k. destruct (decide (k = h)) as [->|Hk]; [rewrite lookup_insert_eq, Ec; congruence|].
      rewrite lookup_insert_ne by done. by rewrite Hm.
    + split_and!; [done| |by rewrite Ht|by intros []]. intros k. by rewrite Hm.
Qed.

Lemma GetCoinsRef_Some v h c v' : GetCoinsRef v h = Some (c, v') -> Vm v h = Some c /\ same_view v v'.
Proof.
  unfold GetCoinsRef. pose proof (FetchCoins_spec v h) as H. destruct (FetchCoins v h) as [[x|] w]; [|done].
  intros [= -> ->]. destruct H as (H1 & H2 & _). done.
Qed.

Lemma GetCoinsRef_total v h c : Vm v h = Some c -> exists v', GetCoinsRef v h = Some (c, v') /\ same_view v v'.
Proof.
  unfold GetCoinsRef. pose proof (FetchCoins_spec v h) as H. destruct (FetchCoins v h) as [r w].
  destruct H as (-> & H2 & _). intros ->. eauto.
Qed.

Lemma HaveCoins_spec v h : let '(b, v') := HaveCoins v h in b = bool_decide (is_Some (Vm v h)) /\ same_view v v'.
Proof.
  unfold HaveCoins. pose proof (FetchCoins_spec v h) as H. destruct (FetchCoins v h) as [r w].
  by destruct H as (-> & H2 & _).
Qed.

Lemma SetCoins_spec v h c k : Vm (SetCoins v h c) k = if bool_decide (k = h) then Some c else Vm v k.
Proof.
  unfold Vm. cbn. case_bool_decide as Hk; [subst; by rewrite lookup_insert_eq|by rewrite lookup_insert_ne].
Qed.

Lemma GetBestBlock_spec v : let '(t, v') := GetBestBlock v in t = Vt v /\ same_view v v'.
Proof.
  unfold GetBestBlock, same_view, Vm, Vt. destruct (pindexTip v) as [t|] eqn:Et.
  - by rewrite Et.
  - pose proof (view_GetBestBlock_spec (base v)) as H. destruct (view_GetBestBlock (base v)) as [t b].
    destruct H as (-> & Hm & Ht). cbn. split_and!; [done|intros k; by rewrite Hm|]. rewrite Ht. by destruct (ctip (base v)).
Qed.

(** a cache is a view: caches stack *)
#[export] Instance CCoinsViewCache_spec : CoinsViewSpec (CCoinsViewCache V).
Proof.
  refine {| cmap := Vm; ctip := Vt |}.
  - intros v h. cbn. unfold GetCoins. pose proof (FetchCoins_spec v h) as H. destruct (FetchCoins v h) as [r w].
    by destruct H as (H1 & [H2 H3] & _).
  - intros v. cbn. pose proof (GetBestBlock_spec v) as H. destruct (GetBestBlock v) as [r w]. by destruct H as (H1 & H2 & H3).
Defined.

(** writing into a cache does not reach its base *)
#[export] Instance CCoinsViewCache_write : CoinsViewWrite (CCoinsViewCache V).
Proof.
  refine {| writable _ _ := True; writable_tip _ := True |}. intros v m t _ _. cbn. intros _. split.
  - intros k. unfold Vm. cbn. rewrite lookup_union. destruct (m !! k) as [c|]; [by rewrite union_Some_l|].
    by rewrite (left_id_L None _).
  - intros [x ->]. done.
Defined.

End CacheSpec.

(** ** Transactions on a view *)

(** a verdict of the consensus code: accepted, invalid, or a misbehaviour of some level *)
Inductive result := Accepted | Invalid | Rejected (level : Z).

(** the closure of one script check: the script to satisfy, the transaction and the input *)
Record CScriptCheck := { k_scriptPubKey : bytes; k_ptxTo : CTransaction; k_nIn : Z; k_nFlags : Z; k_nHashType : Z }.

Definition txout_at (c : CCoins) (n : Z) : option CTxOut := c_vout c !! Z.to_nat n.

Section TxOps.
Context {V : Type} {CV : CoinsView V} {B : OpenSSLBN} {K : Crypto} {E : CacheEnv}.
Abbreviation view := (CCoinsViewCache V).

(** [None]: an assertion fails *)
Definition GetOutputFor (txin : CTxIn) (v : view) : option (CTxOut * view) :=
  let? (coins, v) := GetCoinsRef v (o_hash (prevout txin)) in
  if IsAvailable coins (o_n (prevout txin)) then
    let? o := txout_at coins (o_n (prevout txin)) in Some (o, v)
  else None.

Fixpoint value_in_loop (vin : list CTxIn) (nResult : Z) (v : view) : option (Z * view) :=
  match vin with
  | [] => Some (nResult, v)
  | txin :: r => let? (o, v) := GetOutputFor txin v in value_in_loop r (s64 (nResult + nValue o)) v
  end.
Definition GetValueIn (tx : CTransaction) (v : view) : option (Z * view) :=
  if IsCoinBase tx then Some (0, v) else value_in_loop (vin tx) 0 v.

Fixpoint p2sh_sigops_loop (vin : list CTxIn) (nSigOps : Z) (v : view) : option (Z * view) :=
  match vin with
  | [] => Some (nSigOps, v)
  | txin :: r =>
    let? (o, v) := GetOutputFor txin v in
    let nSigOps :=
      if IsPayToScriptHash (scriptPubKey o) then u32 (nSigOps + GetSigOpCount_p2sh (scriptPubKey o) (scriptSig txin))
      else nSigOps in
    p2sh_sigops_loop r nSigOps v
  end.
Definition GetP2SHSigOpCount (tx : CTransaction) (v : view) : option (Z * view) :=
  if IsCoinBase tx then Some (0, v) else p2sh_sigops_loop (vin tx) 0 v.

Fixpoint have_hashes (vin : list CTxIn) (v : view) : bool * view :=
  match vin with
  | [] => (true, v)
  | txin :: r => let '(b, v) := HaveCoins v (o_hash (prevout txin)) in
                 if b then have_hashes r v else (false, v)
  end.
Fixpoint have_outputs (vin : list CTxIn) (v : view) : option (bool * view) :=
  match vin with
  | [] => Some (true, v)
  | txin :: r => let? (coins, v) := GetCoinsRef v (o_hash (prevout txin)) in
                 if IsAvailable coins (o_n (prevout txin)) then have_outputs r v else Some (false, v)
  end.
Definition HaveInputs (tx : CTransaction) (v : view) : option (bool * view) :=
  if IsCoinBase tx then Some (true, v)
  else let '(b, v) := have_hashes (vin tx) v in
       if b then have_outputs (vin tx) v else Some (false, v).

(** inputs are spent one by one, the undo data collected; [None]: an assertion fails *)
Fixpoint spend_inputs (vin : list CTxIn) (vprevout : CTxUndo) (v : view) : option (CTxUndo * view) :=
  match vin with
  | [] => Some (vprevout, v)
  | txin :: r =>
    let? (coins, v) := GetCoinsRef v (o_hash (prevout txin)) in
    let? (coins, undo) := Spend coins (prevout txin) in
    spend_inputs r (vprevout ++ [undo]) (SetCoins v (o_hash (prevout txin)) coins)
  end.
Definition UpdateCoins (tx : CTransaction) (v : view) (nHeight txhash : Z) : option (CTxUndo * view) :=
  let? (txundo, v) := if IsCoinBase tx then Some ([], v) else spend_inputs (vin tx) [] v in
  Some (txundo, SetCoins v txhash (coins_of tx nHeight)).

(** ** CheckInputs *)

(** running a check; [None]: the assertion of [VerifyScript] fails *)
Definition run_check (k : CScriptCheck) (cache : SigCache.CSignatureCache) : option bool * SigCache.CSignatureCache :=
  let scriptSig := match vin (k_ptxTo k) !! Z.to_nat (k_nIn k) with Some i => scriptSig i | None => [] end in
  VerifyScript scriptSig (k_scriptPubKey k) (k_ptxTo k) (k_nIn k) (k_nFlags k) (k_nHashType k) cache.

Definition script_check (coins : CCoins) (tx : CTransaction) (i : Z) (txin : CTxIn) (flags : Z) : CScriptCheck :=
  {| k_scriptPubKey := match txout_at coins (o_n (prevout txin)) with Some o => scriptPubKey o | None => [] end;
     k_ptxTo := tx; k_nIn := i; k_nFlags := flags; k_nHashType := 0 |}.

(** the values of the inputs; a sum, or the verdict that ends the check *)
Fixpoint tally_inputs (vin : list CTxIn) (nSpendHeight nValueIn : Z) (v : view) : option ((Z + result) * view) :=
  match vin with
  | [] => Some (inl nValueIn, v)
  | txin :: r =>
    let? (coins, v) := GetCoinsRef v (o_hash (prevout txin)) in
    let? o := txout_at coins (o_n (prevout txin)) in
    if c_fCoinBase coins && (s32 (nSpendHeight - c_nHeight coins) <? COINBASE_MATURITY) then Some (inr Invalid, v)
    else
      let nValueIn := s64 (nValueIn + nValue o) in
      if negb (MoneyRange (nValue o)) || negb (MoneyRange nValueIn) then Some (inr (Rejected 100), v)
      else tally_inputs r nSpendHeight nValueIn v
  end.

(** the script checks: run one after the other ([fThreads] false), or collected *)
Fixpoint check_scripts (fThreads : bool) (tx : CTransaction) (vin : list CTxIn) (i flags : Z) (pvChecks : list CScriptCheck)
    (v : view) (cache : SigCache.CSignatureCache)
    : option (result * list CScriptCheck * view * SigCache.CSignatureCache) :=
  match vin with
  | [] => Some (Accepted, pvChecks, v, cache)
  | txin :: r =>
    let? (coins, v) := GetCoinsRef v (o_hash (prevout txin)) in
    let check := script_check coins tx i txin flags in
    if fThreads then check_scripts fThreads tx r (i + 1) flags (pvChecks ++ [check]) v cache
    else
      let '(ok, cache) := run_check check cache in
      let? ok := ok in
      if ok then check_scripts fThreads tx r (i + 1) flags pvChecks v cache
      else if has_flag flags SCRIPT_VERIFY_STRICTENC then
        let check := script_check coins tx i txin (Z.land flags (Z.lnot SCRIPT_VERIFY_STRICTENC)) in
        let '(ok, cache) := run_check check cache in
        let? ok := ok in
        if ok then Some (Invalid, pvChecks, v, cache) else Some (Rejected 100, pvChecks, v, cache)
      else Some (Rejected 100, pvChecks, v, cache)
  end.

(** [nMinTxFee] and [nMinRelayTxFee] are the fee settings; [None]: an assertion fails or [GetValueOut] throws,
    or the view has no best block *)
Definition CheckInputs (nMinTxFee nMinRelayTxFee : Z) (fThreads : bool) (tx : CTransaction) (flags : Z) (v : view)
    (cache : SigCache.CSignatureCache) : option (result * list CScriptCheck * view * SigCache.CSignatureCache) :=
  if IsCoinBase tx then Some (Accepted, [], v, cache)
  else
    let? (have, v) := HaveInputs tx v in
    if negb have then Some (Invalid, [], v, cache)
    else
      let '(t, v) := GetBestBlock v in
      let? t := t in
      let nSpendHeight := b_height t + 1 in
      let? (r, v) := tally_inputs (vin tx) nSpendHeight 0 v in
      match r with
      | inr e => Some (e, [], v, cache)
      | inl nValueIn =>
        let? nValueOut := GetValueOut tx in
        if nValueIn <? nValueOut then Some (Rejected 100, [], v, cache)
        else
          let nTxFee := nValueIn - nValueOut in
          if nTxFee <? 0 then Some (Rejected 100, [], v, cache)
          else if nTxFee <? GetMinFee nMinTxFee nMinRelayTxFee tx 1 false GMF_BLOCK then Some (Rejected 100, [], v, cache)
          else if negb (MoneyRange nTxFee) then Some (Rejected 100, [], v, cache)
          else check_scripts fThreads tx (vin tx) 0 flags [] v cache
      end.

(** ** The loops of ConnectBlock and DisconnectBlock *)

(** what the loop of [ConnectBlock] accumulates *)
Record connecting := {
  n_nSigOps : Z; n_nFees : Z; n_nValueIn : Z; n_nValueOut : Z;
  n_vtxundo : CBlockUndo; n_checks : list CScriptCheck;
  n_view : view; n_cache : SigCache.CSignatureCache;
}.

(** a transaction that is not accepted ends the loop *)
Record refused := { rf_result : result; rf_view : view; rf_cache : SigCache.CSignatureCache }.

(** [None]: an assertion or an exception *)
Definition connect_tx (nMinTxFee nMinRelayTxFee : Z) (fThreads fStrictPayToScriptHash : bool) (flags nHeight : Z)
    (tx : CTransaction) (txhash : Z) (s : connecting) : option (connecting + refused) :=
  let nSigOps := u32 (n_nSigOps s + GetLegacySigOpCount tx) in
  let refuse e v cache := Some (inr {| rf_result := e; rf_view := v; rf_cache := cache |}) in
  if MAX_BLOCK_SIGOPS <? nSigOps then refuse (Rejected 100) (n_view s) (n_cache s)
  else if IsCoinBase tx then
    let? nTxValueOut := GetValueOut tx in
    let? (txundo, v) := UpdateCoins tx (n_view s) nHeight txhash in
    Some (inl {| n_nSigOps := nSigOps; n_nFees := n_nFees s; n_nValueIn := n_nValueIn s;
                 n_nValueOut := s64 (n_nValueOut s + nTxValueOut); n_vtxundo := n_vtxundo s;
                 n_checks := n_checks s; n_view := v; n_cache := n_cache s |})
  else
    let? (have, v) := HaveInputs tx (n_view s) in
    if negb have then refuse (Rejected 100) v (n_cache s)
    else
      let? (p2sh, v) := if fStrictPayToScriptHash then GetP2SHSigOpCount tx v else Some (0, v) in
      let nSigOps := if fStrictPayToScriptHash then u32 (nSigOps + p2sh) else nSigOps in
      if fStrictPayToScriptHash && (MAX_BLOCK_SIGOPS <? nSigOps) then refuse (Rejected 100) v (n_cache s)
      else
        let? (nTxValueIn, v) := GetValueIn tx v in
        let? nTxValueOut := GetValueOut tx in
        let? (r, vChecks, v, cache) := CheckInputs nMinTxFee nMinRelayTxFee fThreads tx flags v (n_cache s) in
        match r with
        | Accepted =>
          let? (txundo, v) := UpdateCoins tx v nHeight txhash in
          Some (inl {| n_nSigOps := nSigOps; n_nFees := s64 (n_nFees s + s64 (nTxValueIn - nTxValueOut));
                       n_nValueIn := s64 (n_nValueIn s + nTxValueIn);
                       n_nValueOut := s64 (n_nValueOut s + nTxValueOut);
                       n_vtxundo := n_vtxundo s ++ [txundo]; n_checks := n_checks s ++ vChecks;
                       n_view := v; n_cache := cache |})
        | e => refuse e v cache
        end.

Fixpoint connect_txs (nMinTxFee nMinRelayTxFee : Z) (fThreads fStrictPayToScriptHash : bool) (flags nHeight : Z)
    (vtx : list (CTransaction * Z)) (s : connecting) : option (connecting + refused) :=
  match vtx with
  | [] => Some (inl s)
  | (tx, txhash) :: r =>
    let? st := connect_tx nMinTxFee nMinRelayTxFee fThreads fStrictPayToScriptHash flags nHeight tx txhash s in
    match st with
    | inl s => connect_txs nMinTxFee nMinRelayTxFee fThreads fStrictPayToScriptHash flags nHeight r s
    | inr e => Some (inr e)
    end
  end.

(** no transaction of the block may overwrite one that is not completely spent; [false]: one does *)
Fixpoint bip30_loop (hashes : list Z) (v : view) : option (bool * view) :=
  match hashes with
  | [] => Some (true, v)
  | hash :: r =>
    let '(b, v) := HaveCoins v hash in
    if b then
      let? (coins, v) := GetCoinsRef v hash in
      if negb (IsPruned coins) then Some (false, v) else bip30_loop r v
    else bip30_loop r v
  end.

(** an output is restored: the new coins and whether nothing was inconsistent *)
Definition undo_coins (coins : CCoins) (out : COutPoint) (undo : CTxInUndo) : CCoins * bool :=
  let n := Z.to_nat (o_n out) in
  let '(coins, clean1) :=
    if negb (u_nHeight undo =? 0) then
      ({| c_fCoinBase := u_fCoinBase undo; c_vout := []; c_nHeight := s32 (u_nHeight undo); c_nVersion := u_nVersion undo |},
       IsPruned coins)
    else (coins, negb (IsPruned coins)) in
  let clean2 := negb (IsAvailable coins (o_n out)) in
  let vout := c_vout coins ++ replicate (S n - length (c_vout coins)) null_txout in
  (set_vout coins (<[n := u_txout undo]> vout), clean1 && clean2).

Definition undo_input (out : COutPoint) (undo : CTxInUndo) (v : view) : bool * view :=
  let '(coins, v) := GetCoins v (o_hash out) in
  let '(coins, clean) := undo_coins (default empty_coins coins) out undo in
  (clean, SetCoins v (o_hash out) coins).

(** the inputs from the last to the first: the lists are given reversed *)
Fixpoint undo_inputs (rins : list (CTxIn * CTxInUndo)) (fClean : bool) (v : view) : bool * view :=
  match rins with
  | [] => (fClean, v)
  | (txin, undo) :: r =>
    let '(clean, v) := undo_input (prevout txin) undo v in undo_inputs r (fClean && clean) v
  end.

(** the outputs of a transaction are removed; whether they were as expected *)
Definition remove_outputs (tx : CTransaction) (hash nHeight : Z) (v : view) : option (bool * view) :=
  let '(have, v) := HaveCoins v hash in
  let v := if have then v else SetCoins v hash empty_coins in
  let? (outs, v) := GetCoinsRef v hash in
  let outsBlock := coins_of tx nHeight in
  let outs :=
    if c_nVersion outsBlock <? 0 then
      {| c_fCoinBase := c_fCoinBase outs; c_vout := c_vout outs; c_nHeight := c_nHeight outs; c_nVersion := c_nVersion outsBlock |}
    else outs in
  Some (have && bool_decide (outs = outsBlock), SetCoins v hash empty_coins).

(** [vtx] is the block's list reversed, with the undo data of every transaction but the coinbase at its
    end; [None]: an assertion fails or the undo data does not fit *)
Fixpoint disconnect_txs (nHeight : Z) (rtx : list (CTransaction * Z)) (rundo : list CTxUndo) (fClean : bool) (v : view)
    : option (bool * view) :=
  match rtx with
  | [] => Some (fClean, v)
  | (tx, hash) :: r =>
    let? (clean, v) := remove_outputs tx hash nHeight v in
    let fClean := fClean && clean in
    match r, rundo with
    | [], _ => Some (fClean, v)
    | _, txundo :: rundo =>
      if negb (bool_decide (length txundo = length (vin tx))) then None
      else
        let '(fClean, v) := undo_inputs (rev (zip (vin tx) txundo)) fClean v in
        disconnect_txs nHeight r rundo fClean v
    | _, [] => None
    end
  end.

(** the verdict and the view; [None] an assertion, or the error of undo data that does not fit *)
Definition DisconnectBlock (pindex : block_ref) (pprev : option block_ref) (vtx : list (CTransaction * Z))
    (blockUndo : CBlockUndo) (v : view) : option (bool * view) :=
  let '(t, v) := GetBestBlock v in
  if negb (bool_decide (t = Some pindex)) then None
  else if negb (bool_decide (S (length blockUndo) = length vtx)) then None
  else
    let? (fClean, v) := disconnect_txs (b_height pindex) (rev vtx) (rev blockUndo) true v in
    Some (fClean, SetBestBlock v pprev).
End TxOps.

(** ** Restoring what was spent *)

Lemma undo_coins_Spend c d out c' undo : coins_ok c -> Spend c out = Some (c', undo) ->
  (if IsPruned c' then IsPruned d = true else d = c') -> undo_coins d out undo = (c, true).
Proof.
  intros Hok Hs Hd. destruct (Spend_ok _ _ _ _ Hok Hs) as (_ & _ & Hp). rewrite Hp in Hd.
  destruct (Spend_Some _ _ _ _ Hs) as (o & Hn & Ho & Hc' & Hu & Hlast & Hmore). destruct Hok as (Hc & Hnull & Hh).
  destruct (cleanup_resize _ _ _ Hc Hnull Hn Ho) as [Hr _]. cbn zeta in Hr.
  assert (Hv : c_vout c' = cleanup_vout (<[Z.to_nat (o_n out) := null_txout]> (c_vout c))) by by rewrite Hc'.
  rewrite <- Hv in Hr. set (n := Z.to_nat (o_n out)) in *.
  assert (Hback : <[n := o]> (c_vout c' ++ replicate (S n - length (c_vout c')) null_txout) = c_vout c).
  { rewrite Hr, list_insert_insert_eq. by apply list_insert_id. }
  unfold undo_coins. fold n. rewrite Hu. case_bool_decide as Hnil.
  - destruct (Hlast Hnil) as (H1 & H2 & H3). rewrite H1, H2, H3, u32_small by lia.
    rewrite (proj2 (Z.eqb_neq _ _)) by lia. cbn [negb c_vout]. rewrite s32_small by lia.
    rewrite Hnil in Hback. rewrite Hd. unfold IsAvailable, set_vout. cbn [c_vout c_fCoinBase c_nHeight c_nVersion andb].
    rewrite lookup_nil. cbn [length] in Hback |- *. rewrite Hback. by destruct c.
  - rewrite (Hmore Hnil). cbn [Z.eqb negb]. subst d. rewrite Hp. cbn [negb andb].
    unfold set_vout. rewrite Hback. f_equal; [rewrite Hc'; by destruct c|].
    unfold IsAvailable. fold n. destruct (c_vout c' !! n) as [x|] eqn:Ex; [|done].
    assert (Hx : <[n := null_txout]> (c_vout c) !! n = Some x) by (rewrite <- Hr; by apply lookup_app_l_Some).
    rewrite list_lookup_insert_eq in Hx by by eapply lookup_lt_Some. by injection Hx as <-.
Qed.

Section Undo.
Context {V : Type} {CV : CoinsView V} {CS : CoinsViewSpec V}.
Abbreviation view := (CCoinsViewCache V).

(** two views with the same unspent outputs *)
Definition live_eq (v w : view) : Prop := forall k, live (Vm w k) = live (Vm v k).
#[export] Instance live_eq_equivalence : Equivalence live_eq.
Proof. split; [by intros v k|by intros v w H k|intros u v w H1 H2 k; by rewrite H2, H1]. Qed.

Lemma same_live v w : same_view v w -> live_eq v w.
Proof. intros [H _] k. by rewrite H. Qed.

Definition view_ok (v : view) : Prop := forall k c, live (Vm v k) = Some c -> coins_ok c.

#[export] Instance view_ok_proper : Proper (live_eq ==> iff) view_ok.
Proof. intros v w H. unfold view_ok. split; intros Hv k c; [rewrite H|rewrite <- H]; apply Hv. Qed.

Lemma live_Set v h c k : live (Vm (SetCoins v h c) k) = if bool_decide (k = h) then live (Some c) else live (Vm v k).
Proof. rewrite SetCoins_spec. by case_bool_decide. Qed.

#[export] Instance SetCoins_proper : Proper (live_eq ==> eq ==> eq ==> live_eq) SetCoins.
Proof. intros v w H h _ <- c _ <- k. rewrite !live_Set. by case_bool_decide. Qed.

Lemma Set_Set v h c c' : live_eq (SetCoins v h c') (SetCoins (SetCoins v h c) h c').
Proof. intros k. rewrite !live_Set. by case_bool_decide. Qed.

Lemma Set_same v h c : live (Vm v h) = live (Some c) -> live_eq v (SetCoins v h c).
Proof. intros H k. rewrite live_Set. case_bool_decide; by subst. Qed.

Lemma live_Some o c : live o = Some c -> o = Some c /\ IsPruned c = false.
Proof. destruct o as [x|]; [|done]. cbn. destruct (IsPruned x) eqn:E; [done|]. by intros [= <-]. Qed.

(** one input: restoring it gives back the view before *)
Lemma undo_input_spend v w h c c' out undo : h = o_hash out -> Vm v h = Some c -> coins_ok c ->
  Spend c out = Some (c', undo) -> live_eq (SetCoins v h c') w ->
  let '(clean, w') := undo_input out undo w in clean = true /\ live_eq v w'.
Proof.
  intros -> Hv Hok Hs Hw. unfold undo_input, GetCoins. set (h := o_hash out) in *.
  pose proof (FetchCoins_spec w h) as HF. destruct (FetchCoins w h) as [r w1]. destruct HF as (-> & H1 & _).
  destruct (Spend_ok _ _ _ _ Hok Hs) as (_ & Hpc & _).
  rewrite (undo_coins_Spend c _ out c' undo Hok Hs).
  - split; [done|]. rewrite <- (same_live _ _ H1), <- Hw, <- Set_Set. apply Set_same.
    by rewrite Hv.
  - specialize (Hw h). rewrite live_Set, bool_decide_eq_true_2 in Hw by done. cbn [live] in Hw.
    destruct (IsPruned c') eqn:Ep; [|by apply live_Some in Hw as [-> _]].
    destruct (Vm w h) as [d|]; [|done]. cbn in Hw |- *. by destruct (IsPruned d).
Qed.

Lemma undo_inputs_app l1 l2 b (v : view) : undo_inputs (l1 ++ l2) b v =
  let '(b, v) := undo_inputs l1 b v in undo_inputs l2 b v.
Proof.
  revert b v. induction l1 as [|[i u] l1 IH]; intros b v; [done|]. cbn [app undo_inputs].
  destruct (undo_input _ _ _) as [cl w]. apply IH.
Qed.

(** all the inputs of a transaction *)
Lemma undo_inputs_spend ins v acc us v' : view_ok v -> spend_inputs ins acc v = Some (us, v') -> exists us',
  us = acc ++ us' /\ length us' = length ins /\ view_ok v' /\
  (forall k, live (Vm v k) = None -> live (Vm v' k) = None) /\ Vt v' = Vt v /\
  forall w b, live_eq v' w -> let '(b', w') := undo_inputs (rev (zip ins us')) b w in b' = b /\ live_eq v w'.
Proof.
  revert v acc. induction ins as [|i ins IH]; intros v acc Hok H; cbn [spend_inputs] in H.
  { injection H as <- <-. exists []. split_and!; try done; by rewrite ?app_nil_r. }
  destruct (GetCoinsRef v (o_hash (prevout i))) as [[c v1]|] eqn:Eg; [|done].
  apply GetCoinsRef_Some in Eg as [Hc Hs]. destruct (Spend c (prevout i)) as [[c' u]|] eqn:Es; [|done].
  assert (Hpc : IsPruned c = false).
  { destruct (Spend_Some _ _ _ _ Es) as (o & Hn & Ho & _). unfold IsPruned. apply not_true_is_false.
    intros Hp. rewrite forallb_forall in Hp. apply list_elem_of_lookup_2, list_elem_of_In, Hp in Hn.
    unfold unspent in Ho. by rewrite Hn in Ho. }
  assert (Hcok : coins_ok c) by (apply (Hok (o_hash (prevout i))); by rewrite Hc; cbn; rewrite Hpc).
  destruct (Spend_ok _ _ _ _ Hcok Es) as (Hok' & _ & _).
  set (v2 := SetCoins v1 (o_hash (prevout i)) c') in *.
  assert (Hok2 : view_ok v2).
  { intros k x. unfold v2. rewrite live_Set. case_bool_decide.
    - intros Hx. apply live_Some in Hx as [Hx _]. by injection Hx as <-.
    - rewrite (same_live _ _ Hs). apply Hok. }
  destruct (IH v2 _ Hok2 H) as (us' & -> & Hl & Hvo & Hfr & Ht & Hun).
  exists (u :: us'). split_and!; [by rewrite <- app_assoc|cbn; lia|done| | |].
  - intros k Hk. apply Hfr. unfold v2. rewrite live_Set. case_bool_decide as Ek; [|by rewrite (same_live _ _ Hs)].
    subst k. rewrite Hc in Hk. cbn in Hk. by rewrite Hpc in Hk.
  - rewrite Ht. apply Hs.
  - intros w b Hw. cbn [zip zip_with rev]. rewrite undo_inputs_app. specialize (Hun w b Hw).
    destruct (undo_inputs _ b w) as [b1 w1]. destruct Hun as [-> Hw1]. cbn [undo_inputs].
    assert (Hc1 : Vm v1 (o_hash (prevout i)) = Some c) by (destruct Hs as [Hs _]; by rewrite Hs).
    pose proof (undo_input_spend v1 w1 _ c c' (prevout i) u eq_refl Hc1 Hcok Es Hw1) as Hui.
    destruct (undo_input _ _ _) as [cl w']. destruct Hui as [-> Hui]. rewrite andb_true_r. split; [done|].
    by rewrite <- Hui, (same_live _ _ Hs).
Qed.
End Undo.

(** ** The reading operations do not change what a view stands for *)

(** the last component of what an operation returns *)
Definition keeps {V} {CV : CoinsView V} {CS : CoinsViewSpec V} {A} (v : CCoinsViewCache V)
    (o : option (A * CCoinsViewCache V)) : Prop :=
  match o with Some (_, w) => same_view v w | None => True end.

Section Reading.
Context {V : Type} {CV : CoinsView V} {CS : CoinsViewSpec V} {B : OpenSSLBN} {K : Crypto} {E : CacheEnv}.
Abbreviation view := (CCoinsViewCache V).

Lemma keeps_bind {A C} v (o : option (A * view)) (f : A -> view -> option (C * view)) :
  keeps v o -> (forall a w, same_view v w -> keeps v (f a w)) -> keeps v (let? (a, w) := o in f a w).
Proof. destruct o as [[a w]|]; [|done]. intros H Hf. by apply Hf. Qed.

Lemma keeps_trans {A} (v w : view) (o : option (A * view)) : same_view v w -> keeps w o -> keeps v o.
Proof. destruct o as [[a u]|]; [|done]. cbn. apply transitivity. Qed.

Lemma GetCoinsRef_keeps h (v : view) : keeps v (GetCoinsRef v h).
Proof.
  destruct (GetCoinsRef v h) as [[c w]|] eqn:Eg; [|done]. apply GetCoinsRef_Some in Eg as [_ H]. exact H.
Qed.

Lemma GetOutputFor_keeps i (v : view) : keeps v (GetOutputFor i v).
Proof.
  apply keeps_bind; [apply GetCoinsRef_keeps|]. intros c w H. case_if; [|done].
  by destruct (txout_at _ _).
Qed.

Lemma value_in_loop_keeps ins n (v : view) : keeps v (value_in_loop ins n v).
Proof.
  revert n v. induction ins as [|i ins IH]; intros n v; [done|].
  apply keeps_bind; [apply GetOutputFor_keeps|]. intros o w H. eapply keeps_trans; [exact H|apply IH].
Qed.

Lemma GetValueIn_keeps tx (v : view) : keeps v (GetValueIn tx v).
Proof. unfold GetValueIn. case_if; [done|apply value_in_loop_keeps]. Qed.

Lemma p2sh_sigops_loop_keeps ins n (v : view) : keeps v (p2sh_sigops_loop ins n v).
Proof.
  revert n v. induction ins as [|i ins IH]; intros n v; [done|].
  apply keeps_bind; [apply GetOutputFor_keeps|]. intros o w H. eapply keeps_trans; [exact H|apply IH].
Qed.

Lemma GetP2SHSigOpCount_keeps tx (v : view) : keeps v (GetP2SHSigOpCount tx v).
Proof. unfold GetP2SHSigOpCount. case_if; [done|apply p2sh_sigops_loop_keeps]. Qed.

(** what [HaveInputs] decides *)
Definition input_there (v : view) (i : CTxIn) : bool :=
  match Vm v (o_hash (prevout i)) with Some c => IsAvailable c (o_n (prevout i)) | None => false end.

Lemma input_there_same v w i : same_view v w -> input_there w i = input_there v i.
Proof. intros [H _]. unfold input_there. by rewrite H. Qed.

Lemma have_hashes_spec ins (v : view) : let '(b, w) := have_hashes ins v in
  same_view v w /\ (b = true <-> Forall (fun i => is_Some (Vm v (o_hash (prevout i)))) ins).
Proof.
  revert v. induction ins as [|i ins IH]; intros v; [by split|]. cbn [have_hashes].
  pose proof (HaveCoins_spec v (o_hash (prevout i))) as H. destruct (HaveCoins v (o_hash (prevout i))) as [b w].
  destruct H as [-> Hs]. case_bool_decide as Hi.
  - specialize (IH w). destruct (have_hashes ins w) as [b w']. destruct IH as [Hs' Hb].
    split; [by rewrite Hs|]. rewrite Hb, Forall_cons. destruct Hs as [Hs _].
    split; [intros Hf; split; [done|]|intros [_ Hf]]; (eapply Forall_impl; [exact Hf|]; intros j; cbn; by rewrite Hs).
  - split; [done|]. split; [done|]. intros Hf. by apply Forall_cons in Hf as [Hf _].
Qed.

Lemma have_outputs_spec ins (v : view) : Forall (fun i => is_Some (Vm v (o_hash (prevout i)))) ins ->
  exists b w, have_outputs ins v = Some (b, w) /\ same_view v w /\
              (b = true <-> Forall (fun i => input_there v i = true) ins).
Proof.
  revert v. induction ins as [|i ins IH]; intros v Hf; [by exists true, v|]. cbn [have_outputs].
  apply Forall_cons in Hf as [[c Hc] Hf]. destruct (GetCoinsRef_total v _ c Hc) as (w & -> & Hs).
  assert (Hi : input_there v i = IsAvailable c (o_n (prevout i))) by (unfold input_there; by rewrite Hc).
  destruct (IsAvailable c (o_n (prevout i))) eqn:Ea.
  - destruct (IH w) as (b & w' & -> & Hs' & Hb).
    { eapply Forall_impl; [exact Hf|]. intros j Hj. destruct Hs as [Hs _]. cbn. by rewrite Hs. }
    exists b, w'. split_and!; [done|by rewrite Hs|]. rewrite Hb, Forall_cons.
    split; [intros Hg; split; [done|]|intros [_ Hg]]; (eapply Forall_impl; [exact Hg|]; intros j; cbn; by rewrite (input_there_same v w j Hs)).
  - exists false, w. split_and!; [done|done|]. split; [done|]. intros Hg. apply Forall_cons in Hg as [Hg _]. congruence.
Qed.

Lemma HaveInputs_spec tx (v : view) : exists b w, HaveInputs tx v = Some (b, w) /\ same_view v w /\
  (b = true <-> IsCoinBase tx = true \/ Forall (fun i => input_there v i = true) (vin tx)).
Proof.
  unfold HaveInputs. destruct (IsCoinBase tx); [exists true, v; split_and!; [done|done|by split; auto]|].
  pose proof (have_hashes_spec (vin tx) v) as H. destruct (have_hashes (vin tx) v) as [b w]. destruct H as [Hs Hb].
  destruct b.
  - destruct (have_outputs_spec (vin tx) w) as (b & w' & -> & Hs' & Hb').
    { destruct Hs as [Hs _]. eapply Forall_impl; [exact (proj1 Hb eq_refl)|]. intros j; cbn. by rewrite Hs. }
    exists b, w'. split_and!; [done|by rewrite Hs|]. rewrite Hb'.
    split; [intros Hg; right|intros [|Hg]; [done|]]; (eapply Forall_impl; [exact Hg|]; intros j; cbn; by rewrite (input_there_same v w j Hs)).
  - exists false, w. split_and!; [done|done|]. split; [done|]. intros [|Hg]; [done|]. apply Hb.
    eapply Forall_impl; [exact Hg|]. intros j Hj. cbn in *. unfold input_there in Hj. by destruct (Vm v _).
Qed.

Lemma tally_inputs_keeps ins h n (v : view) : keeps v (tally_inputs ins h n v).
Proof.
  revert n v. induction ins as [|i ins IH]; intros n v; [done|]. cbn [tally_inputs].
  apply keeps_bind; [apply GetCoinsRef_keeps|]. intros c w H. destruct (txout_at _ _); [|done].
  repeat case_if; [done|done|]. eapply keeps_trans; [exact H|apply IH].
Qed.

Lemma check_scripts_keeps th tx ins i fl ch (v : view) c r ch' w c' :
  check_scripts th tx ins i fl ch v c = Some (r, ch', w, c') -> same_view v w.
Proof.
  revert i ch v c. induction ins as [|j ins IH]; intros i ch v c H; cbn [check_scripts] in H; [by simplify_eq|].
  pose proof (GetCoinsRef_keeps (o_hash (prevout j)) v) as Hk. destruct (GetCoinsRef _ _) as [[x u]|]; [|done].
  cbn in Hk. repeat (case_match; simplify_eq; try done); rewrite Hk; eauto.
Qed.

Lemma CheckInputs_keeps f1 f2 th tx fl (v : view) c r ch w c' :
  CheckInputs f1 f2 th tx fl v c = Some (r, ch, w, c') -> same_view v w.
Proof.
  unfold CheckInputs. destruct (IsCoinBase tx); [by intros; simplify_eq|].
  destruct (HaveInputs_spec tx v) as (b & w1 & -> & H1 & _). destruct b; cbn [negb]; [|by intros; simplify_eq].
  pose proof (GetBestBlock_spec w1) as H2. destruct (GetBestBlock w1) as [t w2]. destruct H2 as [_ H2].
  destruct t as [t|]; [|done]. pose proof (tally_inputs_keeps (vin tx) (b_height t + 1) 0 w2) as H3.
  destruct (tally_inputs _ _ _ _) as [[[n|e] w3]|]; [| |done]; cbn in H3; rewrite H1, H2, H3.
  - destruct (GetValueOut tx); [|done]. repeat case_if; try (by intros; simplify_eq). apply check_scripts_keeps.
  - by intros; simplify_eq.
Qed.
End Reading.

(** ** Connecting and disconnecting *)

Section ConnectDisconnect.
Context {V : Type} {CV : CoinsView V} {CS : CoinsViewSpec V} {B : OpenSSLBN} {K : Crypto} {E : CacheEnv}.
Abbreviation view := (CCoinsViewCache V).
Context (f1 f2 : Z) (th strict : bool) (flags nHeight : Z).

(** what [CheckTransaction] gives: there are outputs, and their values are not negative *)
Definition outputs_ok (tx : CTransaction) : Prop := vout tx <> [] /\ Forall (fun o => 0 <= nValue o) (vout tx).

Lemma coins_of_ok tx : outputs_ok tx -> 0 < nHeight < 2 ^ 31 ->
  coins_ok (coins_of tx nHeight) /\ IsPruned (coins_of tx nHeight) = false.
Proof.
  intros [Hne Hv] Hh. assert (Hu : Forall (fun o => unspent o = true) (vout tx)).
  { eapply Forall_impl; [exact Hv|]. intros o Ho. unfold unspent, txout_IsNull. cbn in Ho.
    by rewrite (proj2 (Z.eqb_neq _ _)) by lia. }
  unfold coins_ok, coins_of, IsPruned. cbn [c_vout c_nHeight]. split_and!; try lia.
  - unfold cleaned, cleanup_vout. destruct (vout tx) as [|o l _] using rev_ind; [done|].
    apply Forall_app in Hu as [_ Ho]. apply Forall_cons in Ho as [Ho _]. rewrite rev_app_distr. cbn [rev app pop_nulls].
    unfold unspent in Ho. destruct (txout_IsNull o); [done|]. cbn [rev]. by rewrite rev_involutive.
  - eapply Forall_impl; [exact Hu|]. intros o Ho. cbn in *. congruence.
  - destruct (vout tx) as [|o l]; [done|]. apply Forall_cons in Hu as [Ho _]. unfold unspent in Ho. cbn.
    by destruct (txout_IsNull o).
Qed.

(** the pieces of an accepted transaction *)
Lemma connect_tx_accepted tx h s s' : connect_tx f1 f2 th strict flags nHeight tx h s = Some (inl s') ->
  exists nOut, GetValueOut tx = Some nOut /\ n_nValueOut s' = s64 (n_nValueOut s + nOut) /\
  if IsCoinBase tx
  then n_view s' = SetCoins (n_view s) h (coins_of tx nHeight) /\ n_vtxundo s' = n_vtxundo s /\ n_nValueIn s' = n_nValueIn s /\
       n_nFees s' = n_nFees s /\ n_checks s' = n_checks s /\ n_cache s' = n_cache s
  else exists w1 nIn w2 ch w3 us v2, same_view (n_view s) w1 /\ GetValueIn tx w1 = Some (nIn, w2) /\ same_view w1 w2 /\
       CheckInputs f1 f2 th tx flags w2 (n_cache s) = Some (Accepted, ch, w3, n_cache s') /\
       spend_inputs (vin tx) [] w3 = Some (us, v2) /\ n_view s' = SetCoins v2 h (coins_of tx nHeight) /\
       n_vtxundo s' = n_vtxundo s ++ [us] /\ n_nValueIn s' = s64 (n_nValueIn s + nIn) /\
       n_nFees s' = s64 (n_nFees s + s64 (nIn - nOut)) /\ n_checks s' = n_checks s ++ ch.
Proof.
  unfold connect_tx, UpdateCoins. case_if; [done|]. destruct (IsCoinBase tx) eqn:Ecb.
  - destruct (GetValueOut tx) as [o|]; [|done]. intros [= <-]. by exists o.
  - destruct (HaveInputs_spec tx (n_view s)) as (b & w & -> & Hw & _). destruct b; [|done]. cbn [negb].
    intros H. assert (Hp : exists p w1, (if strict then GetP2SHSigOpCount tx w else Some (0, w)) = Some (p, w1) /\ same_view w w1).
    { destruct strict; [|by eexists _, _]. pose proof (GetP2SHSigOpCount_keeps tx w) as Hk.
      destruct (GetP2SHSigOpCount tx w) as [[p w1]|]; [by eexists _, _|done]. }
    destruct Hp as (p & w1 & Hp & Hw1). rewrite Hp in H. case_if_in H; [done|].
    pose proof (GetValueIn_keeps tx w1) as Hk. destruct (GetValueIn tx w1) as [[n w2]|] eqn:Ei; [|done]. cbn in Hk.
    destruct (GetValueOut tx) as [o|]; [|done].
    destruct (CheckInputs _ _ _ _ _ _ _) as [[[[r ch] w3] c]|] eqn:Ec; [|done].
    destruct r; try done. destruct (spend_inputs (vin tx) [] w3) as [[us v2]|] eqn:Es; [|done].
    injection H as <-. exists o. split_and!; [done|done|]. exists w1, n, w2, ch, w3, us, v2. cbn. split_and!; try done. by rewrite Hw.
Qed.

Lemma connect_tx_inv tx h s s' : connect_tx f1 f2 th strict flags nHeight tx h s = Some (inl s') ->
  exists v1 us v2, same_view (n_view s) v1 /\ n_view s' = SetCoins v2 h (coins_of tx nHeight) /\
    if IsCoinBase tx then v2 = v1 /\ n_vtxundo s' = n_vtxundo s
    else spend_inputs (vin tx) [] v1 = Some (us, v2) /\ n_vtxundo s' = n_vtxundo s ++ [us].
Proof.
  intros H. destruct (connect_tx_accepted _ _ _ _ H) as (o & _ & _ & Hx). destruct (IsCoinBase tx).
  - destruct Hx as (Hv & Hu & _). by exists (n_view s), [], (n_view s).
  - destruct Hx as (w1 & n & w2 & ch & w3 & us & v2 & H1 & _ & H2 & Hc & Hs & Hv & Hu & _). apply CheckInputs_keeps in Hc.
    exists w3, us, v2. split_and!; try done. by rewrite H1, H2, Hc.
Qed.

(** one transaction: what stays true of the view, and how it is undone *)
Lemma connect_tx_undo tx h s s' : connect_tx f1 f2 th strict flags nHeight tx h s = Some (inl s') ->
  view_ok (n_view s) -> outputs_ok tx -> 0 < nHeight < 2 ^ 31 -> live (Vm (n_view s) h) = None ->
  view_ok (n_view s') /\ (forall k, k <> h -> live (Vm (n_view s) k) = None -> live (Vm (n_view s') k) = None) /\
  forall w, live_eq (n_view s') w -> exists w1, remove_outputs tx h nHeight w = Some (true, w1) /\
    if IsCoinBase tx then n_vtxundo s' = n_vtxundo s /\ live_eq (n_view s) w1
    else exists us, n_vtxundo s' = n_vtxundo s ++ [us] /\ length us = length (vin tx) /\
      forall b, let '(b', w') := undo_inputs (rev (zip (vin tx) us)) b w1 in b' = b /\ live_eq (n_view s) w'.
Proof.
  intros Hc Hok Ho Hh Hfresh. destruct (connect_tx_inv _ _ _ _ Hc) as (v1 & us & v2 & Hs & Hv' & Hrest).
  destruct (coins_of_ok tx Ho Hh) as [Hcok Hcp]. rewrite Hv'.
  assert (Hok1 : view_ok v1) by by rewrite <- (same_live _ _ Hs).
  assert (H2 : view_ok v2 /\ (forall k, live (Vm v1 k) = None -> live (Vm v2 k) = None) /\
    forall w, live_eq v2 w ->
      if IsCoinBase tx then n_vtxundo s' = n_vtxundo s /\ live_eq v1 w
      else exists us, n_vtxundo s' = n_vtxundo s ++ [us] /\ length us = length (vin tx) /\
        forall b, let '(b', w') := undo_inputs (rev (zip (vin tx) us)) b w in b' = b /\ live_eq v1 w').
  { destruct (IsCoinBase tx); [destruct Hrest as [-> Hu]; by split_and!|]. destruct Hrest as [Hsp Hu].
    destruct (undo_inputs_spend _ _ _ _ _ Hok1 Hsp) as (us' & -> & Hl & Hok2 & Hfr & _ & Hun). cbn [app] in *.
    split_and!; [done|done|]. intros w Hw. exists us'. split_and!; [done|done|]. intros b. by apply Hun. }
  destruct H2 as (Hok2 & Hfr & Hun). split_and!.
  - intros k c. rewrite live_Set. case_bool_decide; [|apply Hok2]. intros Hx. apply live_Some in Hx as [Hx _]. by injection Hx as <-.
  - intros k Hk Hl. rewrite live_Set, bool_decide_eq_false_2 by done. apply Hfr. by rewrite (same_live _ _ Hs).
  - intros w Hw. unfold remove_outputs. pose proof (HaveCoins_spec w h) as HH. destruct (HaveCoins w h) as [b w0].
    destruct HH as [-> Hw0]. pose proof (Hw h) as Hwh. rewrite live_Set, bool_decide_eq_true_2 in Hwh by done.
    cbn [live] in Hwh. rewrite Hcp in Hwh. apply live_Some in Hwh as [Hwh _].
    rewrite bool_decide_eq_true_2 by by rewrite Hwh.
    destruct (GetCoinsRef_total w0 h (coins_of tx nHeight)) as (w1 & -> & Hw1); [destruct Hw0 as [Hw0 _]; by rewrite Hw0|].
    exists (SetCoins w1 h empty_coins). split.
    { do 2 f_equal. cbn. apply bool_decide_eq_true_2. by case_if. }
    assert (Hback : live_eq v2 (SetCoins w1 h empty_coins)).
    { rewrite <- (same_live _ _ Hw1), <- (same_live _ _ Hw0), <- Hw, <- Set_Set. apply Set_same.
      cbn. apply Hfr. by rewrite (same_live _ _ Hs). }
    specialize (Hun _ Hback). destruct (IsCoinBase tx); [by rewrite (same_live _ _ Hs)|].
    destruct Hun as (us' & Hu & Hl & Hun). exists us'. split_and!; [done|done|]. intros b. specialize (Hun b).
    destruct (undo_inputs _ _ _) as [b' w']. by rewrite (same_live _ _ Hs).
Qed.

Lemma connect_txs_snoc l x s : connect_txs f1 f2 th strict flags nHeight (l ++ [x]) s =
  match connect_txs f1 f2 th strict flags nHeight l s with
  | Some (inl s1) => connect_tx f1 f2 th strict flags nHeight x.1 x.2 s1
  | r => r
  end.
Proof.
  revert s. induction l as [|[tx h] l IH]; intros s; cbn [app connect_txs].
  - destruct x as [tx h]. cbn. by destruct (connect_tx _ _ _ _ _ _ _ _ _) as [[]|].
  - destruct (connect_tx _ _ _ _ _ _ tx h s) as [[s1|e]|]; [apply IH|done|done].
Qed.

(** the whole block *)
Lemma disconnect_connect cb rest s0 s1 :
  connect_txs f1 f2 th strict flags nHeight (cb :: rest) s0 = Some (inl s1) ->
  n_vtxundo s0 = [] -> view_ok (n_view s0) -> 0 < nHeight < 2 ^ 31 ->
  IsCoinBase cb.1 = true -> Forall (fun x => IsCoinBase x.1 = false) rest ->
  Forall (fun x => outputs_ok x.1 /\ live (Vm (n_view s0) x.2) = None) (cb :: rest) -> NoDup (map snd (cb :: rest)) ->
  view_ok (n_view s1) /\ (forall k, k ∉ map snd (cb :: rest) -> live (Vm (n_view s0) k) = None -> live (Vm (n_view s1) k) = None) /\
  length (n_vtxundo s1) = length rest /\
  forall w, live_eq (n_view s1) w -> exists w',
    disconnect_txs nHeight (rev (cb :: rest)) (rev (n_vtxundo s1)) true w = Some (true, w') /\ live_eq (n_view s0) w'.
Proof.
  intros Hc Hu0 Hok Hh Hcb. revert s1 Hc. induction rest as [|x rest IH] using rev_ind; intros s1 Hc Hncb Hf Hnd.
  - destruct cb as [tx h]. cbn [connect_txs fst snd] in *. apply Forall_cons in Hf as [[Ho Hfr] _]. cbn in Ho, Hfr.
    destruct (connect_tx _ _ _ _ _ _ tx h s0) as [[s|]|] eqn:Et; [|done|done]. injection Hc as <-.
    destruct (connect_tx_undo _ _ _ _ Et Hok Ho Hh Hfr) as (H1 & H2 & H3). rewrite Hcb in H3. split_and!.
    + done.
    + intros k Hk. apply H2. intros ->. apply Hk. cbn. by left.
    + destruct (connect_tx_inv _ _ _ _ Et) as (? & ? & ? & _ & _ & Hx). rewrite Hcb in Hx. by destruct Hx as [_ ->]; rewrite Hu0.
    + intros w Hw. destruct (H3 w Hw) as (w1 & Hr & Hn & Hl). cbn [rev app disconnect_txs]. rewrite Hr. eauto.
  - destruct x as [tx h]. rewrite app_comm_cons, connect_txs_snoc in Hc.
    destruct (connect_txs _ _ _ _ _ _ (cb :: rest) s0) as [[s|]|] eqn:El; [|done|done]. cbn [fst snd] in Hc.
    apply Forall_app in Hncb as [Hncb Hx]. apply Forall_cons in Hx as [Hx _]. cbn in Hx.
    rewrite app_comm_cons in Hf, Hnd. apply Forall_app in Hf as [Hf Hfx]. apply Forall_cons in Hfx as [[Ho Hfr] _]. cbn in Ho, Hfr.
    rewrite map_app in Hnd. apply NoDup_app in Hnd as (Hnd & Hnin & _).
    destruct (IH s eq_refl Hncb Hf Hnd) as (Hok1 & Hfr1 & Hl1 & Hun1).
    assert (Hnh : h ∉ map snd (cb :: rest)) by (intros Hin; apply (Hnin h Hin); cbn; by left).
    destruct (connect_tx_undo _ _ _ _ Hc Hok1 Ho Hh (Hfr1 h Hnh Hfr)) as (H1 & H2 & H3). rewrite Hx in H3. split_and!.
    + done.
    + intros k Hk Hlk. rewrite app_comm_cons, map_app in Hk. apply not_elem_of_app in Hk as [Hk1 Hk2].
      apply H2; [intros ->; apply Hk2; cbn; by left|]. by apply Hfr1.
    + destruct (connect_tx_inv _ _ _ _ Hc) as (? & ? & ? & _ & _ & Hy). rewrite Hx in Hy. destruct Hy as [_ ->].
      rewrite !length_app, Hl1. done.
    + intros w Hw. destruct (H3 w Hw) as (w1 & Hr & us & Hus & Hlu & Hun). rewrite app_comm_cons, rev_app_distr, Hus, rev_app_distr.
      cbn [rev app]. cbn [disconnect_txs]. rewrite Hr. cbn [andb].
      destruct (rev rest ++ [cb]) as [|y r] eqn:Er; [by destruct (rev rest)|].
      rewrite bool_decide_eq_true_2 by done. cbn [negb]. specialize (Hun true).
      destruct (undo_inputs _ true w1) as [b' w']. destruct Hun as [-> Hw']. rewrite <- Er. apply Hun1. done.
Qed.
End ConnectDisconnect.

(** ** What CheckInputs accepts *)

Section Checking.
Context {V : Type} {CV : CoinsView V} {CS : CoinsViewSpec V} {B : OpenSSLBN} {K : Crypto} {E : CacheEnv}.
Abbreviation view := (CCoinsViewCache V).

(** the unspent output an input names, with the coins it is in *)
Definition names (v : view) (i : CTxIn) (c : CCoins) (o : CTxOut) : Prop :=
  Vm v (o_hash (prevout i)) = Some c /\ txout_at c (o_n (prevout i)) = Some o.

Lemma names_same v w i c o : same_view v w -> names w i c o <-> names v i c o.
Proof. intros [H _]. unfold names. by rewrite H. Qed.

(** an input that may be spent at height [h] *)
Definition spendable (v : view) (h : Z) (i : CTxIn) (o : CTxOut) : Prop := exists c, names v i c o /\
  MoneyRange (nValue o) = true /\ (c_fCoinBase c = true -> COINBASE_MATURITY <= s32 (h - c_nHeight c)).

Lemma tally_inputs_inl ins h n (v : view) m w : tally_inputs ins h n v = Some (inl m, w) -> MoneyRange n = true ->
  exists outs, Forall2 (spendable v h) ins outs /\ m = n + value_of outs /\ MoneyRange m = true.
Proof.
  revert n v. induction ins as [|i ins IH]; intros n v H Hn; cbn [tally_inputs] in H.
  { injection H as <- <-. exists []. split_and!; [constructor|unfold value_of; cbn; lia|done]. }
  destruct (GetCoinsRef v _) as [[c v1]|] eqn:Eg; [|done]. apply GetCoinsRef_Some in Eg as [Hc Hs].
  destruct (txout_at c _) as [o|] eqn:Eo; [|done]. case_if_in H; [done|]. case_if_in H; [done|].
  apply orb_false_elim in E1 as [Hr1 Hr2]. apply negb_false_iff in Hr1, Hr2.
  destruct (IH _ _ H Hr2) as (outs & Hf & -> & Hm). exists (o :: outs). split_and!; [|cbn|done].
  - constructor.
    + exists c. split_and!; [done|done|]. intros Hcb. rewrite Hcb in E0. cbn [andb] in E0. b2p. lia.
    + eapply Forall2_impl; [exact Hf|]. intros j x (d & Hd & Hx). exists d. split; [|done]. by apply (names_same v v1).
  - apply MoneyRange_iff in Hr1, Hn. unfold MAX_MONEY, COIN in *. rewrite s64_small by lia. unfold value_of, sumZ. cbn. lia.
Qed.

(** the checks of all the inputs, in order *)
Fixpoint checks_from (v : view) (tx : CTransaction) (flags i : Z) (ins : list CTxIn) (ks : list CScriptCheck) : Prop :=
  match ins, ks with
  | [], [] => True
  | j :: ins, k :: ks =>
    (exists c, Vm v (o_hash (prevout j)) = Some c /\ k = script_check c tx i j flags) /\ checks_from v tx flags (i + 1) ins ks
  | _, _ => False
  end.

Lemma checks_from_same v w tx flags i ins ks : same_view v w ->
  checks_from w tx flags i ins ks -> checks_from v tx flags i ins ks.
Proof.
  intros [Hs _]. revert i ks. induction ins as [|j ins IH]; intros i [|k ks]; try done. cbn [checks_from].
  intros [(c & Hc & Hk) Hr]. split; [exists c; by rewrite <- Hs|by apply IH].
Qed.

Lemma run_check_same k c1 c2 : cache_sound c1 -> cache_sound c2 -> same (run_check k c1) (run_check k c2).
Proof.
  intros H1 H2. unfold run_check, VerifyScript. set (sg := match _ with Some i => scriptSig i | None => [] end).
  pose proof (EvalScript_same (k_ptxTo k) (k_nIn k) (k_nFlags k) (k_nHashType k) [] sg c1 c2 H1 H2) as S1.
  destruct (EvalScript _ _ _ _ [] sg c1) as [[ok st] d1], (EvalScript _ _ _ _ [] sg c2) as [[ok' st'] d2].
  destruct S1 as (Heq & Hd1 & Hd2). cbn in Heq, Hd1, Hd2. simplify_eq. destruct ok'; cbn [negb]; [|by split_and!].
  pose proof (EvalScript_same (k_ptxTo k) (k_nIn k) (k_nFlags k) (k_nHashType k) st' (k_scriptPubKey k) d1 d2 Hd1 Hd2) as S2.
  destruct (EvalScript _ _ _ _ st' (k_scriptPubKey k) d1) as [[ok st] e1],
    (EvalScript _ _ _ _ st' (k_scriptPubKey k) d2) as [[ok' st2] e2].
  destruct S2 as (Heq & He1 & He2). cbn in Heq, He1, He2. simplify_eq. destruct ok'; cbn [negb]; [|by split_and!].
  destruct st2 as [|top st2]; [by split_and!|]. destruct (CastToBool top); cbn [negb]; [|by split_and!].
  case_if; [|by split_and!]. destruct (IsPushOnly sg); cbn [negb]; [|by split_and!].
  destruct (if has_flag _ _ then st' else []) as [|x r]; [by split_and!|].
  pose proof (EvalScript_same (k_ptxTo k) (k_nIn k) (k_nFlags k) (k_nHashType k) r x e1 e2 He1 He2) as S3.
  destruct (EvalScript _ _ _ _ r x e1) as [[ok st] g1], (EvalScript _ _ _ _ r x e2) as [[ok' st3] g2].
  destruct S3 as (Heq & Hg1 & Hg2). cbn in Heq, Hg1, Hg2. simplify_eq. destruct ok'; cbn [negb]; [|by split_and!].
  by destruct st3.
Qed.

Lemma check_scripts_ok th tx ins i fl ch (v : view) c ch' w c' : cache_sound c ->
  check_scripts th tx ins i fl ch v c = Some (Accepted, ch', w, c') ->
  cache_sound c' /\ exists ks, checks_from v tx fl i ins ks /\
    if th then ch' = ch ++ ks
    else Forall (fun k => (run_check k SigCache.empty_cache).1 = Some true) ks.
Proof.
  revert i ch v c. induction ins as [|j ins IH]; intros i ch v c Hc H; cbn [check_scripts] in H.
  { injection H as <- <- <-. split; [done|]. exists []. split; [done|]. destruct th; [by rewrite app_nil_r|constructor]. }
  destruct (GetCoinsRef v _) as [[x u]|] eqn:Eg; [|done]. apply GetCoinsRef_Some in Eg as [Hx Hs]. destruct th.
  - destruct (IH _ _ _ _ Hc H) as (Hc' & ks & Hk & ->). split; [done|]. eexists (_ :: ks). split; [split; [eauto|by eapply checks_from_same]|]. by rewrite <- app_assoc.
  - pose proof (run_check_same (script_check x tx i j fl) c SigCache.empty_cache Hc empty_cache_sound) as Hsame.
    destruct (run_check _ c) as [[ok|] c1]; [|done]. destruct Hsame as (Heq & Hc1 & _). cbn in Heq, Hc1.
    destruct ok.
    + destruct (IH _ _ _ _ Hc1 H) as (Hc' & ks & Hk & Hf). split; [done|]. eexists (_ :: ks). split; [split; [eauto|by eapply checks_from_same]|]. constructor; [by rewrite <- Heq|done].
    + case_if_in H; [|done]. destruct (run_check _ c1) as [[[]|] ?]; done.
Qed.
(** the whole check *)
Lemma CheckInputs_amounts f1 f2 th tx flags v cache checks w cache' (Hcb : IsCoinBase tx = false)
    (H : CheckInputs f1 f2 th tx flags v cache = Some (Accepted, checks, w, cache')) :
  Forall (fun i => input_there v i = true) (vin tx) /\
  exists t outs w3, Vt v = Some t /\ Forall2 (spendable v (b_height t + 1)) (vin tx) outs /\
    MoneyRange (value_of outs) = true /\ GetValueOut tx = Some (value_of (vout tx)) /\
    Z.max 0 (GetMinFee f1 f2 tx 1 false GMF_BLOCK) <= value_of outs - value_of (vout tx) /\
    same_view v w3 /\ check_scripts th tx (vin tx) 0 flags [] w3 cache = Some (Accepted, checks, w, cache').
Proof.
  unfold CheckInputs in H. rewrite Hcb in H.
  destruct (HaveInputs_spec tx v) as (b & w1 & Hhi & Hs1 & Hb). rewrite Hhi in H. destruct b; [|done]. cbn [negb] in H.
  destruct (proj1 Hb eq_refl) as [|Hin]; [congruence|]. split; [done|].
  pose proof (GetBestBlock_spec w1) as Hg. destruct (GetBestBlock w1) as [t w2]. destruct Hg as [-> Hs2].
  destruct (Vt w1) as [t|] eqn:Et; [|done].
  pose proof (tally_inputs_keeps (vin tx) (b_height t + 1) 0 w2) as Hs3.
  destruct (tally_inputs _ _ _ _) as [[[n|e] w3]|] eqn:Eta; [| |done]; [|injection H as -> <- <- <-].
  2:{ exfalso. clear -Eta. revert Eta. generalize 0 as n. revert w2. induction (vin tx) as [|i ins IH]; intros w2 n Eta; [done|].
      cbn [tally_inputs] in Eta. destruct (GetCoinsRef _ _) as [[c u]|]; [|done]. destruct (txout_at _ _); [|done].
      repeat (case_if_in Eta; [done|]). by eapply IH. }
  destruct (tally_inputs_inl _ _ _ _ _ _ Eta eq_refl) as (outs & Hf & -> & Hm). cbn in Hs3.
  destruct (GetValueOut tx) as [o|] eqn:Eo; [|done].
  assert (Ho : o = value_of (vout tx)).
  { unfold GetValueOut in Eo. apply value_out_loop_iff in Eo; [lia|unfold MAX_MONEY, COIN; lia]. }
  repeat (case_if_in H; [done|]). b2p. exists t, outs, w3. split_and!; try done.
  - destruct Hs1 as [_ Hs1]. congruence.
  - eapply Forall2_impl; [exact Hf|]. intros j x (d & Hd & Hx). exists d. split; [|done].
    apply (names_same v w2); [by rewrite Hs1|done].
  - by rewrite Ho.
  - subst o. lia.
  - by rewrite Hs1, Hs2.
Qed.

Lemma CheckInputs_accepted f1 f2 th tx flags v cache checks w cache' (Hc : cache_sound cache) (Hcb : IsCoinBase tx = false)
    (H : CheckInputs f1 f2 th tx flags v cache = Some (Accepted, checks, w, cache')) :
  same_view v w /\ cache_sound cache' /\ Forall (fun i => input_there v i = true) (vin tx) /\
  exists t outs ks, Vt v = Some t /\ Forall2 (spendable v (b_height t + 1)) (vin tx) outs /\
    MoneyRange (value_of outs) = true /\ GetValueOut tx = Some (value_of (vout tx)) /\
    Z.max 0 (GetMinFee f1 f2 tx 1 false GMF_BLOCK) <= value_of outs - value_of (vout tx) /\
    checks_from v tx flags 0 (vin tx) ks /\
    if th then checks = ks else Forall (fun k => (run_check k SigCache.empty_cache).1 = Some true) ks.
Proof.
  destruct (CheckInputs_amounts _ _ _ _ _ _ _ _ _ _ Hcb H) as (Hin & t & outs & w3 & Ht & Hf & Hm & Hvo & Hfee & Hs & Hsc).
  apply CheckInputs_keeps in H. destruct (check_scripts_ok _ _ _ _ _ _ _ _ _ _ _ Hc Hsc) as (Hc' & ks & Hk & Hks).
  split_and!; [done|done|done|]. exists t, outs, ks. split_and!; try done. by eapply checks_from_same.
Qed.
End Checking.

(** ** Properties *)

Section ViewProperties.
Context {V : Type} {CV : CoinsView V} {CS : CoinsViewSpec V} {B : OpenSSLBN} {K : Crypto} {E : CacheEnv}.
Abbreviation view := (CCoinsViewCache V).

(** C8: A cache implements the map it stands for, over any base that keeps the contract of a view: reading
    gives the map's entry and changes nothing, writing changes one entry, a batch written into the cache
    replaces its entries, the best block is the last one set; and after a successful [Flush] of coins and a best block the base can store the base alone
    has the same unspent outputs and best block, so nothing is lost when the cache is dropped. *)
Theorem CCoinsViewCache_refines {CW : CoinsViewWrite V} (v : view) :
  (forall h, let '(r, w) := GetCoins v h in r = Vm v h /\ same_view v w) /\
  (forall h, let '(b, w) := HaveCoins v h in b = bool_decide (is_Some (Vm v h)) /\ same_view v w) /\
  (let '(t, w) := GetBestBlock v in t = Vt v /\ same_view v w) /\
  (forall h c k, Vm (SetCoins v h c) k = if bool_decide (k = h) then Some c else Vm v k) /\
  (forall t, Vt (SetBestBlock v (Some t)) = Some t /\ forall k, Vm (SetBestBlock v (Some t)) k = Vm v k) /\
  (forall m t k, Vm (BatchWrite v m t).2 k = match m !! k with Some c => Some c | None => Vm v k end) /\
  (let '(fOk, w) := Flush v in fOk = true -> map_Forall writable (cacheCoins v) -> (forall r, pindexTip v = Some r -> writable_tip r) ->
     (forall k, live (cmap (base w) k) = live (Vm v k)) /\ live_eq v w /\
     (is_Some (pindexTip v) -> ctip (base w) = Vt v) /\ GetCacheSize w = 0).
Proof.
  split_and!.
  - intros h. unfold GetCoins. pose proof (FetchCoins_spec v h) as H. destruct (FetchCoins v h). by destruct H as (H1 & H2 & _).
  - apply HaveCoins_spec.
  - apply GetBestBlock_spec.
  - apply SetCoins_spec.
  - done.
  - intros m t k. unfold Vm. cbn. rewrite lookup_union. destruct (m !! k) as [c|]; [by rewrite union_Some_l|].
    by rewrite (left_id_L None _).
  - unfold Flush. pose proof (view_BatchWrite_spec (base v) (cacheCoins v) (pindexTip v)) as H.
    destruct (view_BatchWrite _ _ _) as [ok b]. intros -> Hw Hwt. destruct (H Hw Hwt eq_refl) as [Hm Ht]. cbn [base].
    assert (Hl : forall k, live (cmap b k) = live (Vm v k)) by exact Hm. split_and!; [done| | |done].
    + intros k. unfold Vm at 1. cbn. by rewrite lookup_empty, Hl.
    + intros [t Hx]. rewrite Ht by eauto. unfold Vt. by rewrite Hx.
Qed.

(** C6: Disconnecting a block undoes connecting it: if the loop of [ConnectBlock] accepts a block (first
    transaction a coinbase, the others not; transaction hashes distinct and, as the overwrite check ensures,
    with no unspent outputs before; outputs as [CheckTransaction] wants them), then [DisconnectBlock] with the
    undo data the loop collected, on any view with the same unspent outputs and this block as the best one,
    meets every assertion, reports no inconsistency, restores all unspent outputs of the view before, with
    their heights, versions and coinbase marks, and the best block. *)
Theorem DisconnectBlock_inverts f1 f2 th strict flags pindex pprev cb rest (s0 s1 : connecting) w
    (Hc : connect_txs f1 f2 th strict flags (b_height pindex) (cb :: rest) s0 = Some (inl s1))
    (Hundo : n_vtxundo s0 = []) (Hok : view_ok (n_view s0)) (Hh : 0 < b_height pindex < 2 ^ 31)
    (Hcb : IsCoinBase cb.1 = true) (Hncb : Forall (fun x => IsCoinBase x.1 = false) rest)
    (Hout : Forall (fun x => outputs_ok x.1 /\ live (Vm (n_view s0) x.2) = None) (cb :: rest))
    (Hnd : NoDup (map snd (cb :: rest))) (Hw : live_eq (n_view s1) w) (Ht : Vt w = Some pindex) :
  exists w', DisconnectBlock pindex (Some pprev) (cb :: rest) (n_vtxundo s1) w = Some (true, w') /\
    live_eq (n_view s0) w' /\ Vt w' = Some pprev.
Proof.
  destruct (disconnect_connect f1 f2 th strict flags (b_height pindex) cb rest s0 s1 Hc Hundo Hok Hh Hcb Hncb Hout Hnd)
    as (_ & _ & Hlen & Hun).
  unfold DisconnectBlock. pose proof (GetBestBlock_spec w) as Hg. destruct (GetBestBlock w) as [t w1].
  destruct Hg as [-> Hs]. rewrite Ht, bool_decide_eq_true_2 by done. cbn [negb].
  rewrite bool_decide_eq_true_2 by (cbn; by rewrite Hlen). cbn [negb].
  destruct (Hun w1) as (w' & -> & Hw'); [by rewrite <- (same_live _ _ Hs)|].
  exists (SetBestBlock w' (Some pprev)). split_and!; [done| |done]. rewrite Hw'. by intros k.
Qed.

(** C7: What [CheckInputs] lets through, when the signature cache is sound, that is, when every entry is of a signature that verifies (the empty cache is
    sound, and a cache that [CheckInputs] leaves is again): a transaction that is accepted and is no coinbase names available,
    mature outputs; their values and the sum of them are amounts of money and exceed the outputs by at least
    the fee required; and every input's script check succeeds without the cache, or is
    in the list handed to the checking threads, in order. *)
Theorem CheckInputs_sound f1 f2 th tx flags v cache checks w cache' (Hc : cache_sound cache) (Hcb : IsCoinBase tx = false)
    (H : CheckInputs f1 f2 th tx flags v cache = Some (Accepted, checks, w, cache')) :
  same_view v w /\ cache_sound cache' /\ Forall (fun i => input_there v i = true) (vin tx) /\
  exists t outs ks, Vt v = Some t /\ Forall2 (spendable v (b_height t + 1)) (vin tx) outs /\
    MoneyRange (value_of outs) = true /\ GetValueOut tx = Some (value_of (vout tx)) /\
    Z.max 0 (GetMinFee f1 f2 tx 1 false GMF_BLOCK) <= value_of outs - value_of (vout tx) /\
    checks_from v tx flags 0 (vin tx) ks /\
    if th then checks = ks else Forall (fun k => (run_check k SigCache.empty_cache).1 = Some true) ks.
Proof. exact (CheckInputs_accepted f1 f2 th tx flags v cache checks w cache' Hc Hcb H). Qed.
End ViewProperties.

(** ** Witnesses *)

(** a base view in memory *)
Definition memory_view : Type := gmap Z CCoins * option block_ref.
#[export] Instance memory_view_ops : CoinsView memory_view :=
  {| view_GetCoins v h := (v.1 !! h, v); view_GetBestBlock v := (v.2, v);
     view_BatchWrite v m t := (true, (m ∪ v.1, match t with Some _ => t | None => v.2 end)) |}.
#[export] Instance memory_view_spec : CoinsViewSpec memory_view.
Proof. by refine {| cmap v h := v.1 !! h; ctip v := v.2 |}. Defined.
#[export] Instance memory_view_write : CoinsViewWrite memory_view.
Proof.
  refine {| writable _ _ := True; writable_tip _ := True |}. intros v m t _ _ _. split; [|by intros [x ->]]. intros k. cbn. rewrite lookup_union.
  destruct (m !! k) as [c|]; [by rewrite union_Some_l|]. by rewrite (left_id_L None _).
Defined.

Definition paid_coins : CCoins := {| c_fCoinBase := false; c_vout := [sample_out (10 * COIN)]; c_nHeight := 7; c_nVersion := 1 |}.
Definition sample_view : CCoinsViewCache memory_view :=
  new_cache ({[ 5 := paid_coins ]}, Some {| b_hash := 1; b_height := 9 |}).
Definition spend_tx : CTransaction :=
  {| nVersion := 1; vin := [{| prevout := {| o_hash := 5; o_n := 0 |}; scriptSig := []; nSequence := uint_max |}];
     vout := [sample_out (9 * COIN)]; nLockTime := 0 |}.
Definition coinbase_tx : CTransaction :=
  {| nVersion := 1; vin := [{| prevout := null_outpoint; scriptSig := [0x51; 0x51]; nSequence := uint_max |}];
     vout := [sample_out 1]; nLockTime := 0 |}.
Definition sample_start : connecting (V := memory_view) :=
  {| n_nSigOps := 0; n_nFees := 0; n_nValueIn := 0; n_nValueOut := 0; n_vtxundo := []; n_checks := [];
     n_view := sample_view; n_cache := SigCache.empty_cache |}.
Definition sample_pindex : block_ref := {| b_hash := 2; b_height := 10 |}.
Definition sample_connect : option (connecting (V := memory_view) + refused (V := memory_view)) :=
  connect_txs (B := ZBN) (K := ToyCrypto) CENT CENT false true SCRIPT_VERIFY_P2SH 10 [(coinbase_tx, 100); (spend_tx, 101)] sample_start.

Lemma CCoinsViewCache_refines_witness :
  let '(fOk, w) := Flush (SetCoins sample_view 5 empty_coins) in fOk = true /\ live (cmap (base w) 5) = None.
Proof.
  destruct (CCoinsViewCache_refines (SetCoins sample_view 5 empty_coins)) as (_ & _ & _ & _ & _ & _ & H).
  exact (conj eq_refl (proj1 (H eq_refl (fun _ _ _ => I) (fun _ _ => I)) 5)).
Defined.

Lemma sample_paid_ok : view_ok sample_view.
Proof.
  intros k c H. unfold Vm in H. cbn in H. rewrite lookup_empty in H. destruct (decide (k = 5)) as [->|Hk].
  - rewrite lookup_singleton_eq in H. injection H as <-.
    split; [done|split; [repeat constructor; done|cbn; lia]].
  - by rewrite lookup_singleton_ne in H.
Qed.

Lemma DisconnectBlock_inverts_witness : exists s1 w',
  sample_connect = Some (inl s1) /\
  DisconnectBlock (V := memory_view) sample_pindex (Some {| b_hash := 1; b_height := 9 |}) [(coinbase_tx, 100); (spend_tx, 101)]
    (n_vtxundo s1) (SetBestBlock (n_view s1) (Some sample_pindex)) = Some (true, w') /\ live_eq sample_view w'.
Proof.
  assert (Hc : match sample_connect with Some (inl _) => true | _ => false end = true) by (vm_compute; reflexivity).
  destruct sample_connect as [[s1|]|] eqn:Es; [|discriminate Hc|discriminate Hc].
  exists s1. destruct (DisconnectBlock_inverts (B := ZBN) (K := ToyCrypto) CENT CENT false true SCRIPT_VERIFY_P2SH sample_pindex
    {| b_hash := 1; b_height := 9 |} (coinbase_tx, 100) [(spend_tx, 101)] sample_start s1
    (SetBestBlock (n_view s1) (Some sample_pindex)) Es) as (w' & Hd & Hl & _).
  - reflexivity.
  - exact sample_paid_ok.
  - cbn; lia.
  - reflexivity.
  - repeat constructor.
  - repeat (apply Forall_cons; split; [split; [split; [discriminate|repeat constructor; cbn; unfold COIN; lia]|reflexivity]|]).
    constructor.
  - apply (bool_decide_unpack _). vm_compute. exact I.
  - intros k. reflexivity.
  - reflexivity.
  - exists w'. split; [reflexivity|]. split; [exact Hd|exact Hl].
Defined.

Lemma CheckInputs_sound_witness : exists ks w c, CheckInputs (B := ZBN) (K := ToyCrypto) CENT CENT false spend_tx SCRIPT_VERIFY_P2SH sample_view SigCache.empty_cache = Some (Accepted, ks, w, c) /\
  same_view sample_view w /\ cache_sound (K := ToyCrypto) c /\ Forall (fun i => input_there sample_view i = true) (vin spend_tx) /\
  exists t outs ks, Vt sample_view = Some t /\ Forall2 (spendable sample_view (b_height t + 1)) (vin spend_tx) outs /\ MoneyRange (value_of outs) = true /\
    GetValueOut spend_tx = Some (value_of (vout spend_tx)) /\ Z.max 0 (GetMinFee CENT CENT spend_tx 1 false GMF_BLOCK) <= value_of outs - value_of (vout spend_tx) /\
    checks_from sample_view spend_tx SCRIPT_VERIFY_P2SH 0 (vin spend_tx) ks /\ Forall (fun k => (run_check (B := ZBN) (K := ToyCrypto) k SigCache.empty_cache).1 = Some true) ks.
Proof.
  set (r := CheckInputs (B := ZBN) (K := ToyCrypto) CENT CENT false spend_tx SCRIPT_VERIFY_P2SH sample_view SigCache.empty_cache).
  assert (Hc : match r with Some (Accepted, _, _, _) => true | _ => false end = true) by (vm_compute; reflexivity).
  destruct r as [[[[[] ks] w] c]|] eqn:Er; try discriminate Hc. exists ks, w, c. split; [reflexivity|].
  exact (CheckInputs_sound (B := ZBN) (K := ToyCrypto) CENT CENT false spend_tx SCRIPT_VERIFY_P2SH sample_view SigCache.empty_cache ks w c empty_cache_sound eq_refl Er).
Defined.
