(* ===== verification/Merkle.v ===== *)
(** * Merkle trees (main.h, main.cpp)

    The tree of a block ([BuildMerkleTree]), the branch of a transaction
    ([GetMerkleBranch], [CheckMerkleBranch]) and the partial trees sent to filtering
    peers ([CPartialMerkleTree]).  Positions, heights and sizes are [nat]: a block has
    at most a million bytes, so the C++ integers do not wrap.  The tree of a list of no hashes reads
    past its end: [CalcHash], [TraverseAndBuild] and [new_partial_tree] are [None] then. *)

From S2P Require Import Prelude Serialize Crypto Transaction Coins.
Local Open Scope Z_scope.

Section Merkle.
Context {K : Crypto}.

(** the hash of two concatenated hashes *)
Definition Hash2 (left right : Z) : Z := Hash (uint256_bytes left ++ uint256_bytes right).

(** ** The tree of a block *)

(** one pass over the row of [nSize] hashes at [j] *)
Fixpoint merkle_row (fuel : nat) (vMerkleTree : list Z) (j nSize i : nat) : list Z :=
  match fuel with
  | O => vMerkleTree
  | S f =>
    if bool_decide (i < nSize)%nat then
      let i2 := Nat.min (i + 1) (nSize - 1) in
      merkle_row f (vMerkleTree ++ [Hash2 (nth (j + i) vMerkleTree 0) (nth (j + i2) vMerkleTree 0)]) j nSize (i + 2)
    else vMerkleTree
  end.
Fixpoint merkle_rows (fuel : nat) (vMerkleTree : list Z) (j nSize : nat) : list Z :=
  match fuel with
  | O => vMerkleTree
  | S f =>
    if bool_decide (1 < nSize)%nat then
      merkle_rows f (merkle_row nSize vMerkleTree j nSize 0) (j + nSize) ((nSize + 1) / 2)
    else vMerkleTree
  end.

(** the tree; each row is shorter, so the number of transactions is enough fuel *)
Definition merkle_tree (vtxid : list Z) : list Z := merkle_rows (length vtxid) vtxid 0 (length vtxid).
Definition BuildMerkleTree (vtxid : list Z) : Z := List.last (merkle_tree vtxid) 0.
Definition GetTxHash (vMerkleTree : list Z) (nIndex : nat) : Z := nth nIndex vMerkleTree 0.

Fixpoint branch_loop (fuel : nat) (vMerkleTree : list Z) (j nSize nIndex : nat) : list Z :=
  match fuel with
  | O => []
  | S f =>
    if bool_decide (1 < nSize)%nat then
      let i := Nat.min (Nat.lxor nIndex 1) (nSize - 1) in
      nth (j + i) vMerkleTree 0 :: branch_loop f vMerkleTree (j + nSize) ((nSize + 1) / 2) (nIndex / 2)
    else []
  end.
Definition GetMerkleBranch (vtxid : list Z) (nIndex : nat) : list Z :=
  branch_loop (length vtxid) (merkle_tree vtxid) 0 (length vtxid) nIndex.

Fixpoint branch_fold (hash : Z) (vMerkleBranch : list Z) (nIndex : Z) : Z :=
  match vMerkleBranch with
  | [] => hash
  | otherside :: r =>
    branch_fold (if negb (Z.land nIndex 1 =? 0) then Hash2 otherside hash else Hash2 hash otherside) r (Z.shiftr nIndex 1)
  end.
Definition CheckMerkleBranch (hash : Z) (vMerkleBranch : list Z) (nIndex : Z) : Z :=
  if nIndex =? -1 then 0 else branch_fold hash vMerkleBranch nIndex.

(** ** Partial trees *)

Record CPartialMerkleTree := { nTransactions : nat; vBits : list bool; vHash : list Z; fBad : bool }.

Definition CalcTreeWidth (n height : nat) : nat := (n + 2 ^ height - 1) / 2 ^ height.

(** [vTxid[pos]] at height 0: a read out of bounds, which is undefined, is [None] *)
Fixpoint CalcHash (n height pos : nat) (vTxid : list Z) : option Z :=
  match height with
  | O => vTxid !! pos
  | S h =>
    let? hl := CalcHash n h (pos * 2) vTxid in
    let? hr := if bool_decide (pos * 2 + 1 < CalcTreeWidth n h)%nat then CalcHash n h (pos * 2 + 1) vTxid else Some hl in
    Some (Hash2 hl hr)
  end.

(** the leaves under a node *)
Definition leaves (n height pos : nat) : list nat :=
  filter (fun p => (p < n)%nat) (seq (pos * 2 ^ height) (2 ^ height)).
Definition parent_of_match (n height pos : nat) (vMatch : list bool) : bool :=
  existsb (fun p => nth p vMatch false) (leaves n height pos).

(** what [TraverseAndBuild] appends to the bits and the hashes *)
Fixpoint TraverseAndBuild (n height pos : nat) (vTxid : list Z) (vMatch : list bool) : option (list bool * list Z) :=
  let fParentOfMatch := parent_of_match n height pos vMatch in
  match height with
  | O => let? hash := CalcHash n height pos vTxid in Some ([fParentOfMatch], [hash])
  | S h =>
    if negb fParentOfMatch then let? hash := CalcHash n height pos vTxid in Some ([fParentOfMatch], [hash])
    else
      let? (b1, h1) := TraverseAndBuild n h (pos * 2) vTxid vMatch in
      let? (b2, h2) := if bool_decide (pos * 2 + 1 < CalcTreeWidth n h)%nat
                       then TraverseAndBuild n h (pos * 2 + 1) vTxid vMatch else Some ([], []) in
      Some (fParentOfMatch :: b1 ++ b2, h1 ++ h2)
  end.

(** the height of the tree; a 32-bit count needs at most 32 rounds *)
Fixpoint tree_height (fuel n nHeight : nat) : nat :=
  match fuel with
  | O => nHeight
  | S f => if bool_decide (1 < CalcTreeWidth n nHeight)%nat then tree_height f n (S nHeight) else nHeight
  end.

(** the constructor from a block: an empty one makes [CalcHash] read past the end *)
Definition new_partial_tree (vTxid : list Z) (vMatch : list bool) : option CPartialMerkleTree :=
  let n := length vTxid in
  let? (b, h) := TraverseAndBuild n (tree_height 32 n 0) 0 vTxid vMatch in
  Some {| nTransactions := n; vBits := b; vHash := h; fBad := false |}.
Definition empty_partial_tree : CPartialMerkleTree := {| nTransactions := 0; vBits := []; vHash := []; fBad := true |}.

(** the state of [TraverseAndExtract] *)
Record extracting := { x_nBitsUsed : nat; x_nHashUsed : nat; x_vMatch : list Z; x_fBad : bool }.

(** at height 0, or with nothing interesting below: a stored hash *)
Definition extract_hash (t : CPartialMerkleTree) (matched : bool) (s : extracting) : Z * extracting :=
  match vHash t !! x_nHashUsed s with
  | None => (0, {| x_nBitsUsed := x_nBitsUsed s; x_nHashUsed := x_nHashUsed s; x_vMatch := x_vMatch s; x_fBad := true |})
  | Some hash =>
    (hash, {| x_nBitsUsed := x_nBitsUsed s; x_nHashUsed := S (x_nHashUsed s);
              x_vMatch := if matched then x_vMatch s ++ [hash] else x_vMatch s; x_fBad := x_fBad s |})
  end.

Fixpoint TraverseAndExtract (t : CPartialMerkleTree) (height pos : nat) (s : extracting) : Z * extracting :=
  match vBits t !! x_nBitsUsed s with
  | None => (0, {| x_nBitsUsed := x_nBitsUsed s; x_nHashUsed := x_nHashUsed s; x_vMatch := x_vMatch s; x_fBad := true |})
  | Some fParentOfMatch =>
    let s := {| x_nBitsUsed := S (x_nBitsUsed s); x_nHashUsed := x_nHashUsed s; x_vMatch := x_vMatch s; x_fBad := x_fBad s |} in
    match height with
    | O => extract_hash t fParentOfMatch s
    | S h =>
      if negb fParentOfMatch then extract_hash t false s
      else
        let '(hl, s) := TraverseAndExtract t h (pos * 2) s in
        let '(hr, s) := if bool_decide (pos * 2 + 1 < CalcTreeWidth (nTransactions t) h)%nat
                           then TraverseAndExtract t h (pos * 2 + 1) s else (hl, s) in
        (Hash2 hl hr, s)
    end
  end.

(** the merkle root, 0 on failure, and the matched transactions *)
Definition ExtractMatches (t : CPartialMerkleTree) : Z * list Z :=
  let n := nTransactions t in
  if bool_decide (n = 0)%nat then (0, [])
  else if MAX_BLOCK_SIZE / 60 <? Z.of_nat n then (0, [])
  else if bool_decide (n < length (vHash t))%nat then (0, [])
  else if bool_decide (length (vBits t) < length (vHash t))%nat then (0, [])
  else
    let '(hashMerkleRoot, s) :=
      TraverseAndExtract t (tree_height 32 n 0) 0 {| x_nBitsUsed := 0; x_nHashUsed := 0; x_vMatch := []; x_fBad := fBad t |} in
    if x_fBad s then (0, x_vMatch s)
    else if negb (bool_decide ((x_nBitsUsed s + 7) / 8 = (length (vBits t) + 7) / 8)%nat) then (0, x_vMatch s)
    else if negb (bool_decide (x_nHashUsed s = length (vHash t))) then (0, x_vMatch s)
    else (hashMerkleRoot, x_vMatch s).

(** the bits in bytes, the first one lowest *)
Fixpoint pack_bits (fuel : nat) (l : list bool) : bytes :=
  match fuel with
  | O => []
  | S f => if bool_decide (l = []) then [] else chAvail 0 (take 8 l) :: pack_bits f (drop 8 l)
  end.

Definition ser_CPartialMerkleTree : codec CPartialMerkleTree :=
  ser_iso (ser_tuple3 (ser_uint 4) (ser_vector (ser_uint 32)) ser_vch)
    (fun t => (Z.of_nat (nTransactions t), vHash t, pack_bits (length (vBits t)) (vBits t)))
    (fun '(n, h, b) => {| nTransactions := Z.to_nat n; vBits := concat (map bits b); vHash := h; fBad := false |}).

End Merkle.

(** ** Rows *)

Section Rows.
Context {K : Crypto}.

Fixpoint next_level (l : list Z) : list Z :=
  match l with
  | [] => []
  | [a] => [Hash2 a a]
  | a :: b :: r => Hash2 a b :: next_level r
  end.
Definition level (h : nat) (l : list Z) : list Z := Nat.iter h next_level l.

(** induction two elements at a time *)
Lemma pair_ind (P : list Z -> Prop) : P [] -> (forall a, P [a]) -> (forall a b l, P l -> P (a :: b :: l)) -> forall l, P l.
Proof.
  intros H0 H1 H2 l. assert (H : P l /\ forall a, P (a :: l)); [|apply H].
  induction l as [|x l [IH1 IH2]]; [by split|]. split; [apply IH2|]. intros a. by apply H2.
Qed.

Lemma length_next l : length (next_level l) = ((length l + 1) / 2)%nat.
Proof.
  induction l as [|a|a b l IH] using pair_ind; [done|done|]. cbn [next_level length]. rewrite IH.
  replace (S (S (length l)) + 1)%nat with (length l + 1 + 1 * 2)%nat by lia. rewrite Nat.div_add by done. lia.
Qed.

Lemma nth_next i l : (i < length (next_level l))%nat ->
  nth i (next_level l) 0 = Hash2 (nth (2 * i) l 0) (nth (Nat.min (2 * i + 1) (length l - 1)) l 0).
Proof.
  revert i. induction l as [|a|a b l IH] using pair_ind; intros i Hi.
  - cbn in Hi. lia.
  - cbn in Hi. assert (i = 0)%nat as -> by lia. done.
  - destruct i as [|i]; [done|]. cbn [next_level nth length] in *. rewrite IH by lia.
    replace (2 * S i)%nat with (S (S (2 * i))) by lia.
    assert (Hl : (0 < length l)%nat) by (destruct l; cbn in *; lia).
    replace (Nat.min (S (S (2 * i)) + 1) (S (S (length l)) - 1))%nat with (S (S (Nat.min (2 * i + 1) (length l - 1)))) by lia.
    done.
Qed.

Lemma take_S_nth (l : list Z) k : (k < length l)%nat -> take (S k) l = take k l ++ [nth k l 0].
Proof.
  revert k. induction l as [|x l IH]; intros k Hk; [cbn in Hk; lia|]. destruct k as [|k]; [done|].
  cbn in *. f_equal. apply IH. lia.
Qed.

Lemma nth_app_mid (a b c : list Z) i : (i < length b)%nat -> nth (length a + i) (a ++ b ++ c) 0 = nth i b 0.
Proof. intros Hi. rewrite app_nth2_plus. by apply app_nth1. Qed.

Lemma merkle_row_spec fuel pre cur k : (length cur <= 2 * fuel + 2 * k)%nat -> (k <= length (next_level cur))%nat ->
  merkle_row fuel (pre ++ cur ++ take k (next_level cur)) (length pre) (length cur) (2 * k) = pre ++ cur ++ next_level cur.
Proof.
  revert k. induction fuel as [|f IH]; intros k Hf Hk; cbn [merkle_row].
  - rewrite take_ge; [done|]. rewrite length_next. pose proof (Nat.div_mod_eq (length cur + 1) 2).
    pose proof (Nat.mod_upper_bound (length cur + 1) 2). lia.
  - rewrite length_next in Hk. pose proof (Nat.div_mod_eq (length cur + 1) 2).
    pose proof (Nat.mod_upper_bound (length cur + 1) 2 ltac:(done)). case_bool_decide as Hi.
    + assert (Hkl : (k < length (next_level cur))%nat) by (rewrite length_next; lia).
      rewrite !nth_app_mid by lia. replace (2 * k + 2)%nat with (2 * S k)%nat by lia.
      rewrite <- (nth_next k cur Hkl), <- !app_assoc, <- take_S_nth by done. apply IH; [lia|rewrite length_next; lia].
    + rewrite take_ge; [done|]. rewrite length_next. lia.
Qed.

(** the rows one after the other *)
Fixpoint tree_from (fuel : nat) (cur : list Z) : list Z :=
  match fuel with
  | O => cur
  | S f => if bool_decide (1 < length cur)%nat then cur ++ tree_from f (next_level cur) else cur
  end.
Fixpoint root_of (fuel : nat) (cur : list Z) : Z :=
  match fuel with
  | O => nth 0 cur 0
  | S f => if bool_decide (1 < length cur)%nat then root_of f (next_level cur) else nth 0 cur 0
  end.
Fixpoint branch_of (fuel : nat) (cur : list Z) (idx : nat) : list Z :=
  match fuel with
  | O => []
  | S f => if bool_decide (1 < length cur)%nat
           then nth (Nat.min (Nat.lxor idx 1) (length cur - 1)) cur 0 :: branch_of f (next_level cur) (idx / 2) else []
  end.

Lemma merkle_rows_spec fuel pre cur : merkle_rows fuel (pre ++ cur) (length pre) (length cur) = pre ++ tree_from fuel cur.
Proof.
  revert pre cur. induction fuel as [|f IH]; intros pre cur; [done|]. cbn [merkle_rows tree_from].
  case_bool_decide; [|done]. pose proof (merkle_row_spec (length cur) pre cur 0 ltac:(lia) ltac:(lia)) as Hr.
  change (2 * 0)%nat with 0%nat in Hr. rewrite take_0, app_nil_r in Hr. rewrite Hr, !app_assoc, <- length_app, <- length_next.
  apply IH.
Qed.

Lemma merkle_tree_eq l : merkle_tree l = tree_from (length l) l.
Proof. apply (merkle_rows_spec (length l) [] l). Qed.

Lemma next_nonempty l : l <> [] -> next_level l <> [].
Proof. by destruct l as [|a [|b l]]. Qed.

Lemma tree_from_nonempty f l : l <> [] -> tree_from f l <> [].
Proof. destruct f; [done|]. intros Hl. cbn. case_bool_decide; [|done]. by destruct l. Qed.

Lemma last_app_ne (a b : list Z) : b <> [] -> List.last (a ++ b) 0 = List.last b 0.
Proof.
  intros Hb. induction a as [|x a IH]; [done|]. cbn [app]. destruct (a ++ b) eqn:E; [by destruct a, b|]. exact IH.
Qed.

Lemma next_shorter l : (1 < length l)%nat -> (length (next_level l) < length l)%nat.
Proof.
  intros Hl. rewrite length_next. pose proof (Nat.div_mod_eq (length l + 1) 2).
  pose proof (Nat.mod_upper_bound (length l + 1) 2 ltac:(done)). lia.
Qed.

Lemma root_of_last f l : l <> [] -> (length l <= S f)%nat -> List.last (tree_from f l) 0 = root_of f l.
Proof.
  revert l. induction f as [|f IH]; intros l Hne Hl; cbn [tree_from root_of].
  - destruct l as [|a [|b l]]; cbn in *; [done|done|lia].
  - case_bool_decide as Hlt.
    + rewrite last_app_ne by by apply tree_from_nonempty, next_nonempty.
      apply IH; [by apply next_nonempty|]. apply next_shorter in Hlt. lia.
    + destruct l as [|a [|b l]]; cbn in *; [done|done|lia].
Qed.

Lemma BuildMerkleTree_root l : l <> [] -> BuildMerkleTree l = root_of (length l) l.
Proof. intros Hl. unfold BuildMerkleTree. rewrite merkle_tree_eq. apply root_of_last; [done|lia]. Qed.

Lemma branch_loop_spec fuel pre cur idx :
  branch_loop fuel (pre ++ tree_from fuel cur) (length pre) (length cur) idx = branch_of fuel cur idx.
Proof.
  revert pre cur idx. induction fuel as [|f IH]; intros pre cur idx; [done|]. cbn [branch_loop branch_of tree_from].
  case_bool_decide as Hlt; [|done]. f_equal; [apply nth_app_mid; lia|].
  rewrite app_assoc, <- length_app, <- length_next. apply IH.
Qed.

Lemma GetMerkleBranch_eq l idx : GetMerkleBranch l idx = branch_of (length l) l idx.
Proof. unfold GetMerkleBranch. rewrite merkle_tree_eq. apply (branch_loop_spec _ []). Qed.

(** ** Branches *)

Lemma lxor_bit q (b : bool) : Nat.lxor (2 * q + Nat.b2n b) 1 = (2 * q + Nat.b2n (negb b))%nat.
Proof.
  apply Nat.bits_inj. intros n. rewrite Nat.lxor_spec. change 1%nat with (2 * 0 + Nat.b2n true)%nat.
  destruct n as [|n]; [rewrite !Nat.testbit_0_r; by destruct b|].
  rewrite !Nat.testbit_succ_r by lia. by rewrite Nat.bits_0, xorb_false_r.
Qed.

(** a position is [2 * q + b]: its sibling has the other bit *)
Lemma position_split i : exists q b, i = (2 * q + Nat.b2n b)%nat.
Proof.
  exists (i / 2)%nat, (Nat.odd i). rewrite <- Nat.bit0_odd, Nat.bit0_mod. apply Nat.div_mod_eq.
Qed.
End Rows.

Section Branches.
Context {K : Crypto} {KL : CryptoLaws K}.

Lemma idx_land q (b : bool) : negb (Z.land (Z.of_nat (2 * q + Nat.b2n b)) 1 =? 0) = b.
Proof.
  change 1 with (2 ^ 1 - 1) at 1. rewrite land_mask by lia. change (2 ^ 1) with 2.
  replace (Z.of_nat (2 * q + Nat.b2n b)) with (Z.b2z b + Z.of_nat q * 2) by (destruct b; cbn; lia).
  rewrite Z_mod_plus_full. by destruct b.
Qed.

Lemma idx_shift q (b : bool) : Z.shiftr (Z.of_nat (2 * q + Nat.b2n b)) 1 = Z.of_nat q.
Proof.
  rewrite Z.shiftr_div_pow2 by lia. change (2 ^ 1) with 2.
  replace (Z.of_nat (2 * q + Nat.b2n b)) with (Z.of_nat q * 2 + Z.b2z b) by (destruct b; cbn; lia).
  rewrite Z.div_add_l by lia. rewrite Z.div_small by (destruct b; cbn; lia). lia.
Qed.

Lemma idx_half q (b : bool) : ((2 * q + Nat.b2n b) / 2 = q)%nat.
Proof. rewrite (Nat.mul_comm 2), Nat.div_add_l by done. rewrite Nat.div_small by (destruct b; cbn; lia). lia. Qed.

Lemma half_lt q (b : bool) n : (2 * q + Nat.b2n b < n)%nat -> (q < (n + 1) / 2)%nat.
Proof.
  intros H. pose proof (Nat.div_mod_eq (n + 1) 2). pose proof (Nat.mod_upper_bound (n + 1) 2 ltac:(done)).
  destruct b; cbn in H; lia.
Qed.

(** the parent of a position, computed from its sibling as the branch gives it *)
Lemma parent_hash (cur : list Z) q b : (2 * q + Nat.b2n b < length cur)%nat ->
  let h := nth (2 * q + Nat.b2n b) cur 0 in
  let other := nth (Nat.min (2 * q + Nat.b2n (negb b)) (length cur - 1)) cur 0 in
  (if b then Hash2 other h else Hash2 h other) = nth q (next_level cur) 0.
Proof.
  intros Hl h other. rewrite nth_next by (rewrite length_next; by eapply half_lt). subst h other. destruct b; cbn [Nat.b2n negb] in *.
  - by rewrite !Nat.min_l, Nat.add_0_r by lia.
  - by rewrite Nat.add_0_r.
Qed.

Lemma branch_complete fuel cur idx : (idx < length cur)%nat -> (length cur <= S fuel)%nat ->
  branch_fold (nth idx cur 0) (branch_of fuel cur idx) (Z.of_nat idx) = root_of fuel cur.
Proof.
  revert cur idx. induction fuel as [|f IH]; intros cur idx Hi Hl.
  - cbn. destruct cur as [|a [|b l]]; cbn in *; try lia. by assert (idx = 0)%nat as -> by lia.
  - cbn [branch_of root_of]. case_bool_decide as Hlt.
    + destruct (position_split idx) as (q & b & ->). cbn [branch_fold].
      rewrite idx_land, idx_shift, idx_half, lxor_bit, parent_hash by done.
      apply next_shorter in Hlt as Hs. apply IH; [|lia]. rewrite length_next. by eapply half_lt.
    + cbn. by assert (idx = 0)%nat as -> by lia.
Qed.

(** two different byte strings with the same double hash *)
Definition collision : Prop := exists a b : bytes, a <> b /\ Hash_bytes a = Hash_bytes b.

Definition is_hash (h : Z) : Prop := 0 <= h < 2 ^ 256.

Lemma uint256_bytes_inj x y : is_hash x -> is_hash y -> uint256_bytes x = uint256_bytes y -> x = y.
Proof.
  intros Hx Hy H. apply (f_equal le_val) in H. unfold uint256_bytes, is_hash in *.
  rewrite !le_val_le_bytes in H by exact Hx || exact Hy. done.
Qed.

Lemma Hash2_inj x y x' y' : is_hash x -> is_hash y -> is_hash x' -> is_hash y' ->
  Hash2 x y = Hash2 x' y' -> (x = x' /\ y = y') \/ collision.
Proof.
  intros Hx Hy Hx' Hy' H. unfold Hash2 in H. apply (f_equal uint256_bytes) in H. rewrite !Hash_uint256 in H.
  destruct (decide (uint256_bytes x ++ uint256_bytes y = uint256_bytes x' ++ uint256_bytes y')) as [E|E].
  - left. apply app_inj_1 in E as [E1 E2]; [|by unfold uint256_bytes; rewrite !length_le_bytes].
    split; by apply uint256_bytes_inj.
  - right. by eexists _, _.
Qed.

Lemma Hash2_range x y : is_hash (Hash2 x y).
Proof. apply Hash_range. Qed.

Lemma next_level_range cur : Forall is_hash cur -> Forall is_hash (next_level cur).
Proof.
  induction cur as [|a|a b l IH] using pair_ind; intros H; [constructor|repeat constructor; apply Hash2_range|].
  cbn [next_level]. constructor; [apply Hash2_range|]. apply IH. by do 2 apply Forall_inv_tail in H.
Qed.

Lemma nth_range cur i : Forall is_hash cur -> (i < length cur)%nat -> is_hash (nth i cur 0).
Proof. intros H Hi. rewrite Forall_forall in H. apply H, list_elem_of_In, nth_In, Hi. Qed.

Lemma branch_sound fuel cur idx h br : (idx < length cur)%nat -> (length cur <= S fuel)%nat ->
  Forall is_hash cur -> is_hash h -> Forall is_hash br -> length br = length (branch_of fuel cur idx) ->
  branch_fold h br (Z.of_nat idx) = root_of fuel cur -> h = nth idx cur 0 \/ collision.
Proof.
  revert cur idx h br. induction fuel as [|f IH]; intros cur idx h br Hi Hl Hc Hh Hb Hlen H.
  - destruct br; [|done]. left. cbn in *. destruct cur as [|a [|b l]]; cbn in *; try lia. by assert (idx = 0)%nat as -> by lia.
  - cbn [branch_of root_of] in *. case_bool_decide as Hlt.
    + destruct (position_split idx) as (q & b & ->). destruct br as [|o br]; [done|]. apply Forall_cons in Hb as [Ho Hb].
      cbn [branch_fold] in H. rewrite idx_land, idx_shift in H. rewrite idx_half in Hlen. cbn [length] in Hlen. injection Hlen as Hlen.
      apply next_shorter in Hlt as Hs. assert (Hq : (q < length (next_level cur))%nat) by (rewrite length_next; by eapply half_lt).
      apply IH in H as [H|H]; [|by right|done|lia|by apply next_level_range|destruct b; apply Hash2_range|done|done].
      rewrite <- (parent_hash cur q b) in H by done. cbn zeta in H.
      assert (Hn : forall i, (i < length cur)%nat -> is_hash (nth i cur 0)) by (intros; by apply nth_range).
      destruct b; apply Hash2_inj in H as [[H1 H2]|H]; auto; apply Hn; cbn in *; lia.
    + destruct br; [|done]. left. cbn in *. by assert (idx = 0)%nat as -> by lia.
Qed.
End Branches.

(** ** Nodes *)

Section Nodes.
Context {K : Crypto}.

(** the same of a list that has every position *)
Fixpoint node_hash (n height pos : nat) (vTxid : list Z) : Z :=
  match height with
  | O => nth pos vTxid 0
  | S h =>
    let left := node_hash n h (pos * 2) vTxid in
    let right := if bool_decide (pos * 2 + 1 < CalcTreeWidth n h)%nat then node_hash n h (pos * 2 + 1) vTxid else left in
    Hash2 left right
  end.

(** and the traversal *)
Fixpoint build_tree (n height pos : nat) (vTxid : list Z) (vMatch : list bool) : list bool * list Z :=
  let fParentOfMatch := parent_of_match n height pos vMatch in
  match height with
  | O => ([fParentOfMatch], [node_hash n height pos vTxid])
  | S h =>
    if negb fParentOfMatch then ([fParentOfMatch], [node_hash n height pos vTxid])
    else
      let '(b1, h1) := build_tree n h (pos * 2) vTxid vMatch in
      let '(b2, h2) := if bool_decide (pos * 2 + 1 < CalcTreeWidth n h)%nat
                       then build_tree n h (pos * 2 + 1) vTxid vMatch else ([], []) in
      (fParentOfMatch :: b1 ++ b2, h1 ++ h2)
  end.

Definition partial_tree (vTxid : list Z) (vMatch : list bool) : CPartialMerkleTree :=
  let n := length vTxid in
  let '(b, h) := build_tree n (tree_height 32 n 0) 0 vTxid vMatch in
  {| nTransactions := n; vBits := b; vHash := h; fBad := false |}.

Lemma width_succ n h : CalcTreeWidth n (S h) = ((CalcTreeWidth n h + 1) / 2)%nat.
Proof.
  unfold CalcTreeWidth. rewrite Nat.pow_succ_r'. pose proof (Nat.pow_nonzero 2 h ltac:(done)) as Hp. set (p := (2 ^ h)%nat) in *.
  rewrite (Nat.mul_comm 2 p), <- Nat.Div0.div_div. f_equal.
  replace (n + p * 2 - 1)%nat with (n + p - 1 + 1 * p)%nat by lia. by rewrite Nat.div_add.
Qed.

Lemma width_0 n : CalcTreeWidth n 0 = n.
Proof. unfold CalcTreeWidth. cbn [Nat.pow]. rewrite Nat.div_1_r. lia. Qed.

Lemma width_pos n h : (0 < n)%nat -> (0 < CalcTreeWidth n h)%nat.
Proof.
  intros Hn. unfold CalcTreeWidth. pose proof (Nat.pow_nonzero 2 h ltac:(done)). apply Nat.div_str_pos. lia.
Qed.

(** every position under a node of the tree is read within bounds *)
Lemma CalcHash_reads l h pos : (pos < CalcTreeWidth (length l) h)%nat ->
  CalcHash (length l) h pos l = Some (node_hash (length l) h pos l).
Proof.
  revert pos. induction h as [|h IH]; intros pos Hp; cbn [CalcHash node_hash].
  - rewrite width_0 in Hp. destruct (nth_lookup_or_length l pos 0) as [->|]; [done|lia].
  - rewrite width_succ in Hp. pose proof (Nat.div_mod_eq (CalcTreeWidth (length l) h + 1) 2).
    pose proof (Nat.mod_upper_bound (CalcTreeWidth (length l) h + 1) 2 ltac:(done)).
    rewrite IH by lia. case_bool_decide; [by rewrite IH|done].
Qed.

Lemma TraverseAndBuild_reads l m h pos : (pos < CalcTreeWidth (length l) h)%nat ->
  TraverseAndBuild (length l) h pos l m = Some (build_tree (length l) h pos l m).
Proof.
  revert pos. induction h as [|h IH]; intros pos Hp; cbn [TraverseAndBuild build_tree]; [by rewrite CalcHash_reads|].
  rewrite CalcHash_reads by done. destruct (negb _); [done|].
  rewrite width_succ in Hp. pose proof (Nat.div_mod_eq (CalcTreeWidth (length l) h + 1) 2).
  pose proof (Nat.mod_upper_bound (CalcTreeWidth (length l) h + 1) 2 ltac:(done)).
  rewrite IH by lia. destruct (build_tree (length l) h (pos * 2) l m) as [b1 h1].
  case_bool_decide; [|done]. rewrite IH by done. by destruct (build_tree _ _ _ _ _).
Qed.

(** the tree of a block that has a transaction is built, and that of an empty one is undefined *)
Lemma new_partial_tree_reads l m : (0 < length l)%nat -> new_partial_tree l m = Some (partial_tree l m).
Proof.
  intros Hl. unfold new_partial_tree, partial_tree. rewrite TraverseAndBuild_reads by by apply width_pos.
  by destruct (build_tree _ _ _ _ _).
Qed.

Lemma new_partial_tree_empty m : new_partial_tree [] m = None.
Proof. reflexivity. Qed.

Lemma length_level h l : length (level h l) = CalcTreeWidth (length l) h.
Proof.
  induction h as [|h IH]; [by rewrite width_0|]. change (level (S h) l) with (next_level (level h l)).
  by rewrite length_next, IH, width_succ.
Qed.

Lemma node_hash_level h pos l : (pos < CalcTreeWidth (length l) h)%nat -> node_hash (length l) h pos l = nth pos (level h l) 0.
Proof.
  revert pos. induction h as [|h IH]; intros pos Hp; [done|]. cbn [node_hash]. rewrite width_succ in Hp.
  pose proof (Nat.div_mod_eq (CalcTreeWidth (length l) h + 1) 2). pose proof (Nat.mod_upper_bound (CalcTreeWidth (length l) h + 1) 2 ltac:(done)).
  change (level (S h) l) with (next_level (level h l)).
  rewrite nth_next by (rewrite length_next, length_level; done). rewrite length_level, (Nat.mul_comm 2).
  rewrite IH by lia. case_bool_decide.
  - rewrite IH, Nat.min_l by lia. done.
  - rewrite Nat.min_r by lia. do 2 f_equal. lia.
Qed.

Lemma root_level fuel cur f h l : cur = level h l -> (length cur <= S fuel)%nat -> (length cur <= 2 ^ f)%nat ->
  root_of fuel cur = nth 0 (level (tree_height f (length l) h) l) 0.
Proof.
  revert cur h fuel. induction f as [|f IH]; intros cur h fuel -> Hf H2; cbn [tree_height].
  - cbn in H2. destruct fuel; [done|]. cbn [root_of]. by rewrite bool_decide_eq_false_2 by lia.
  - rewrite <- length_level. case_bool_decide as Hlt.
    + destruct fuel as [|fuel]; [lia|]. cbn [root_of]. rewrite bool_decide_eq_true_2 by done.
      apply IH; [done|apply next_shorter in Hlt; lia|]. rewrite length_next. rewrite Nat.pow_succ_r' in H2.
      pose proof (Nat.div_mod_eq (length (level h l) + 1) 2). pose proof (Nat.mod_upper_bound (length (level h l) + 1) 2 ltac:(done)). lia.
    + destruct fuel as [|fuel]; [done|]. cbn [root_of]. by rewrite bool_decide_eq_false_2.
Qed.

(** the height found is the first one with a single node *)
Lemma tree_height_width f n h : (CalcTreeWidth n h <= 2 ^ f)%nat -> (0 < n)%nat -> CalcTreeWidth n (tree_height f n h) = 1%nat.
Proof.
  revert h. induction f as [|f IH]; intros h Hw Hn; cbn [tree_height].
  - pose proof (width_pos n h). cbn in Hw. lia.
  - case_bool_decide.
    + apply IH; [|done]. rewrite width_succ. rewrite Nat.pow_succ_r' in Hw.
      pose proof (Nat.div_mod_eq (CalcTreeWidth n h + 1) 2). pose proof (Nat.mod_upper_bound (CalcTreeWidth n h + 1) 2 ltac:(done)). lia.
    + pose proof (width_pos n h). lia.
Qed.
End Nodes.

(** ** Building and extracting *)

Section Partial.
Context {K : Crypto}.

Lemma leaves_split n h pos : leaves n (S h) pos = leaves n h (pos * 2) ++ leaves n h (pos * 2 + 1).
Proof.
  unfold leaves. rewrite <- filter_app. f_equal. rewrite Nat.pow_succ_r'.
  replace (2 * 2 ^ h)%nat with (2 ^ h + 2 ^ h)%nat by lia. rewrite seq_app. f_equal; f_equal; lia.
Qed.

Lemma leaves_beyond n h pos : (CalcTreeWidth n h <= pos)%nat -> leaves n h pos = [].
Proof.
  intros Hw. unfold leaves, CalcTreeWidth in *. pose proof (Nat.pow_nonzero 2 h ltac:(done)) as Hp. set (p := (2 ^ h)%nat) in *.
  pose proof (Nat.mul_succ_div_gt (n + p - 1) p Hp). assert (Hn : (n <= pos * p)%nat) by nia.
  assert (Hseq : forall k a, (n <= a)%nat -> filter (fun q => (q < n)%nat) (seq a k) = []).
  { induction k as [|k IH]; intros a Ha; [done|]. cbn [seq]. rewrite filter_cons, decide_False by lia. apply IH. lia. }
  by apply Hseq.
Qed.

Lemma leaves_nonempty n h pos : (pos < CalcTreeWidth n h)%nat -> (0 < length (leaves n h pos))%nat.
Proof.
  intros Hw. unfold leaves, CalcTreeWidth in *. pose proof (Nat.pow_nonzero 2 h ltac:(done)) as Hp. set (p := (2 ^ h)%nat) in *.
  pose proof (Nat.Div0.mul_div_le (n + p - 1) p). destruct p as [|p']; [done|]. cbn [seq].
  rewrite filter_cons, decide_True by nia. cbn. lia.
Qed.

(** the transactions selected under a node *)
Definition picked (n h pos : nat) (l : list Z) (m : list bool) : list Z :=
  map (fun p => nth p l 0) (filter (fun p => nth p m false = true) (leaves n h pos)).

Lemma picked_split n h pos l m : picked n (S h) pos l m = picked n h (pos * 2) l m ++ picked n h (pos * 2 + 1) l m.
Proof. unfold picked. by rewrite leaves_split, filter_app, map_app. Qed.

Lemma picked_none n h pos l m : parent_of_match n h pos m = false -> picked n h pos l m = [].
Proof.
  unfold parent_of_match, picked. induction (leaves n h pos) as [|p ps IH]; [done|]. cbn [existsb]. intros H.
  apply orb_false_elim in H as [H1 H2]. rewrite filter_cons, decide_False by congruence. by apply IH.
Qed.

Lemma leaves_0 n pos : (pos < n)%nat -> leaves n 0 pos = [pos].
Proof. intros Hp. unfold leaves. rewrite Nat.mul_1_r. cbn [Nat.pow seq]. by rewrite filter_cons, decide_True. Qed.

Lemma picked_leaf n pos l m : (pos < n)%nat -> picked n 0 pos l m = if parent_of_match n 0 pos m then [nth pos l 0] else [].
Proof.
  intros Hp. unfold picked, parent_of_match. rewrite leaves_0 by done. cbn [existsb]. rewrite orb_false_r, filter_cons.
  destruct (nth pos m false); [by rewrite decide_True|by rewrite decide_False].
Qed.

(** every hash stored has a bit and a leaf of its own *)
Lemma build_counts n h pos l m : (pos < CalcTreeWidth n h)%nat ->
  let '(b, hs) := build_tree n h pos l m in
  (length hs <= length b)%nat /\ (length hs <= length (leaves n h pos))%nat.
Proof.
  revert pos. induction h as [|h IH]; intros pos Hp; cbn [build_tree].
  - pose proof (leaves_nonempty n 0 pos Hp). cbn [length]. lia.
  - pose proof (leaves_nonempty n (S h) pos Hp). destruct (parent_of_match n (S h) pos m); cbn [negb]; [|cbn [length]; lia].
    rewrite width_succ in Hp. pose proof (Nat.div_mod_eq (CalcTreeWidth n h + 1) 2).
    pose proof (Nat.mod_upper_bound (CalcTreeWidth n h + 1) 2 ltac:(done)).
    specialize (IH (pos * 2)%nat ltac:(lia)) as Hleft. destruct (build_tree n h (pos * 2) l m) as [b1 h1].
    rewrite leaves_split, length_app. case_bool_decide as Hr.
    + specialize (IH (pos * 2 + 1)%nat Hr). destruct (build_tree n h (pos * 2 + 1) l m) as [b2 h2].
      cbn [length]. rewrite !length_app. lia.
    + cbn [length]. rewrite !app_nil_r. lia.
Qed.

Definition at_pos (pb : list bool) (ph : list Z) (m : list Z) : extracting :=
  {| x_nBitsUsed := length pb; x_nHashUsed := length ph; x_vMatch := m; x_fBad := false |}.

Lemma lookup_mid {A} (a c : list A) x : (a ++ x :: c) !! length a = Some x.
Proof. by rewrite lookup_app_r, Nat.sub_diag by lia. Qed.

Lemma extract_build t h pos l m pb qb ph qh acc : nTransactions t = length l -> (pos < CalcTreeWidth (length l) h)%nat ->
  let '(b, hs) := build_tree (length l) h pos l m in
  vBits t = pb ++ b ++ qb -> vHash t = ph ++ hs ++ qh ->
  TraverseAndExtract t h pos (at_pos pb ph acc) =
    (node_hash (length l) h pos l, at_pos (pb ++ b) (ph ++ hs) (acc ++ picked (length l) h pos l m)).
Proof.
  intros Hn. revert pos pb qb ph qh acc.
  assert (Hstop : forall pb qb ph qh acc matched x, vBits t = pb ++ matched :: qb -> vHash t = ph ++ x :: qh ->
    extract_hash t matched (at_pos (pb ++ [matched]) ph acc) =
      (x, at_pos (pb ++ [matched]) (ph ++ [x]) (if matched then acc ++ [x] else acc))).
  { intros pb qb ph qh acc matched x _ Hh. unfold extract_hash, at_pos. cbn [x_nHashUsed x_nBitsUsed x_vMatch x_fBad].
    rewrite Hh, lookup_mid. by rewrite (length_app ph), Nat.add_1_r. }
  assert (Hnext : forall pb (x : bool) (ph acc : list Z), {| x_nBitsUsed := S (length pb); x_nHashUsed := length ph; x_vMatch := acc; x_fBad := false |}
    = at_pos (pb ++ [x]) ph acc) by (intros; unfold at_pos; by rewrite length_app, Nat.add_1_r).
  induction h as [|h IH]; intros pos pb qb ph qh acc Hp; cbn [build_tree].
  - intros Hb Hh. cbn [TraverseAndExtract at_pos x_nBitsUsed x_nHashUsed x_vMatch x_fBad]. cbn [app] in Hb, Hh.
    rewrite Hb, lookup_mid, (Hnext pb (parent_of_match (length l) 0 pos m)), (Hstop _ _ _ _ _ _ _ Hb Hh).
    rewrite width_0 in Hp. rewrite picked_leaf by done. do 2 f_equal. destruct (parent_of_match _ _ _ _); [done|by rewrite app_nil_r].
  - destruct (parent_of_match (length l) (S h) pos m) eqn:Em; cbn [negb].
    + rewrite width_succ in Hp. pose proof (Nat.div_mod_eq (CalcTreeWidth (length l) h + 1) 2).
      pose proof (Nat.mod_upper_bound (CalcTreeWidth (length l) h + 1) 2 ltac:(done)).
      pose proof (fun pb qb ph qh acc => IH (pos * 2)%nat pb qb ph qh acc ltac:(lia)) as IH1.
      pose proof (fun pb qb ph qh acc => IH (pos * 2 + 1)%nat pb qb ph qh acc) as IH2.
      destruct (build_tree (length l) h (pos * 2) l m) as [b1 h1]. rewrite picked_split.
      case_bool_decide as Hr.
      * destruct (build_tree (length l) h (pos * 2 + 1) l m) as [b2 h2]. intros Hb Hh.
        cbn [TraverseAndExtract at_pos x_nBitsUsed x_nHashUsed x_vMatch x_fBad node_hash]. cbn [app] in Hb.
        rewrite Hb, lookup_mid. cbn [negb]. rewrite (Hnext pb true), Hn.
        rewrite (IH1 _ (b2 ++ qb) _ (h2 ++ qh)).
        2:{ rewrite Hb, <- !app_assoc. done. } 2:{ rewrite Hh, <- !app_assoc. done. }
        rewrite bool_decide_eq_true_2 by done.
        rewrite (IH2 _ qb _ qh) by (done || (rewrite ?Hb, ?Hh, <- !app_assoc; done)).
        do 2 f_equal; by rewrite <- ?app_assoc.
      * intros Hb Hh. cbn [TraverseAndExtract at_pos x_nBitsUsed x_nHashUsed x_vMatch x_fBad node_hash]. cbn [app] in Hb.
        rewrite !app_nil_r in *. rewrite Hb, lookup_mid. cbn [negb]. rewrite (Hnext pb true), Hn.
        rewrite (IH1 _ qb _ qh) by (done || (rewrite ?Hb, <- !app_assoc; done)).
        rewrite bool_decide_eq_false_2 by done. unfold picked at 3. rewrite leaves_beyond by lia. cbn.
        rewrite app_nil_r. do 2 f_equal. by rewrite <- app_assoc.
    + intros Hb Hh. cbn [TraverseAndExtract at_pos x_nBitsUsed x_nHashUsed x_vMatch x_fBad]. cbn [app] in Hb, Hh.
      rewrite Hb, lookup_mid. cbn [negb]. rewrite (Hnext pb false), (Hstop _ _ _ _ _ _ _ Hb Hh).
      by rewrite picked_none, app_nil_r.
Qed.

Lemma filter_all {A} (P : A -> Prop) `{forall x, Decision (P x)} (l : list A) : (forall x, x ∈ l -> P x) -> filter P l = l.
Proof.
  induction l as [|x l IH]; intros Hl; [done|]. rewrite filter_cons_True by (apply Hl; by left).
  f_equal. apply IH. intros y Hy. apply Hl. by right.
Qed.

Lemma filter_none {A} (P : A -> Prop) `{forall x, Decision (P x)} (l : list A) : (forall x, x ∈ l -> ~ P x) -> filter P l = [].
Proof.
  induction l as [|x l IH]; intros Hl; [done|]. rewrite filter_cons_False by (apply Hl; by left).
  apply IH. intros y Hy. apply Hl. by right.
Qed.

Lemma leaves_root n h : leaves n h 0 = seq 0 (Nat.min (2 ^ h) n).
Proof.
  unfold leaves. cbn [Nat.mul]. set (k := (2 ^ h)%nat). replace k with (Nat.min k n + (k - Nat.min k n))%nat at 1 by lia.
  rewrite seq_app, filter_app, (filter_all _ (seq 0 _)), filter_none, app_nil_r; [done| |]; intros q Hq%elem_of_seq; lia.
Qed.

(** bits and hashes of the whole tree, the bits padded to whole bytes *)
Lemma extract_whole l m pad : 0 < Z.of_nat (length l) <= MAX_BLOCK_SIZE / 60 ->
  let '(b, hs) := build_tree (length l) (tree_height 32 (length l) 0) 0 l m in
  ((length b + 7) / 8 = (length (b ++ pad) + 7) / 8)%nat ->
  ExtractMatches {| nTransactions := length l; vBits := b ++ pad; vHash := hs; fBad := false |} =
    (BuildMerkleTree l, map (fun p => nth p l 0) (filter (fun p => nth p m false = true) (seq 0 (length l)))).
Proof.
  unfold MAX_BLOCK_SIZE. change (1000000 / 60) with 16666.
  intros Hl. assert (Hw : (CalcTreeWidth (length l) 0 <= 2 ^ 32)%nat).
  { rewrite width_0. apply Nat2Z.inj_le. rewrite Nat2Z.inj_pow. change (Z.of_nat 2 ^ Z.of_nat 32) with (2 ^ 32). lia. }
  pose proof (tree_height_width 32 (length l) 0 Hw ltac:(lia)) as Htop.
  pose proof (root_level (length l) l 32 0 l eq_refl ltac:(lia)) as Hroot. rewrite width_0 in Hw. specialize (Hroot Hw).
  clear Hw. set (h := tree_height 32 (length l) 0) in *.
  pose proof (build_counts (length l) h 0 l m ltac:(lia)) as Hc.
  pose proof (fun t => extract_build t h 0 l m [] pad [] [] []) as Hx.
  destruct (build_tree (length l) h 0 l m) as [b hs]. intros Hpad. destruct Hc as [Hc1 Hc2].
  unfold ExtractMatches. cbn [nTransactions vBits vHash fBad]. fold h.
  assert (Hs : leaves (length l) h 0 = seq 0 (length l)).
  { unfold CalcTreeWidth in Htop. pose proof (Nat.pow_nonzero 2 h ltac:(done)) as Hp. set (p := (2 ^ h)%nat) in *.
    pose proof (Nat.mul_succ_div_gt (length l + p - 1) p Hp) as Hgt. rewrite Htop in Hgt.
    rewrite leaves_root. fold p. f_equal. lia. }
  rewrite Hs, length_seq in Hc2. unfold MAX_BLOCK_SIZE. change (1000000 / 60) with 16666.
  rewrite bool_decide_eq_false_2 by lia. rewrite (proj2 (Z.ltb_ge _ _)) by lia.
  rewrite !bool_decide_eq_false_2 by (rewrite ?length_app; lia).
  change {| x_nBitsUsed := 0; x_nHashUsed := 0; x_vMatch := []; x_fBad := false |} with (at_pos [] [] []).
  rewrite Hx by (rewrite ?app_nil_r; done || lia). unfold at_pos. cbn [x_fBad x_nBitsUsed x_nHashUsed x_vMatch app].
  rewrite !bool_decide_eq_true_2 by done. cbn [negb]. f_equal.
  - rewrite node_hash_level by lia. rewrite <- Hroot. symmetry. apply BuildMerkleTree_root. by destruct l; [cbn in Hl; lia|].
  - unfold picked. by rewrite Hs.
Qed.
End Partial.

(** ** Serialization of partial trees *)

Section PartialStream.
Context {K : Crypto} {KL : CryptoLaws K}.

(** the bytes give the bits back, padded to a whole byte *)
Lemma pack_unpack fuel l : (length l <= fuel)%nat ->
  exists k, concat (map bits (pack_bits fuel l)) = l ++ replicate k false /\
    ((length l + 7) / 8 = (length (l ++ replicate k false) + 7) / 8)%nat /\
    Forall is_byte (pack_bits fuel l) /\ (length (pack_bits fuel l) <= fuel)%nat.
Proof.
  revert l. induction fuel as [|f IH]; intros l Hl.
  - exists 0%nat. destruct l; [|cbn in Hl; lia]. by repeat constructor.
  - cbn [pack_bits]. case_bool_decide as Hnil; [exists 0%nat; subst; split_and!; done || (cbn; lia)|].
    destruct (byte_bits (take 8 l) (length_take8 l)) as (Hb & _ & Hbyte). apply is_byteb_spec in Hbyte.
    destruct (IH (drop 8 l)) as (k & H1 & H2 & H3 & H4); [rewrite length_drop; destruct l; cbn in *; done || lia|].
    cbn [map concat]. rewrite Hb, H1. destruct (le_gt_dec 8 (length l)) as [Hge|Hlt].
    + exists k. rewrite length_take, Nat.min_l, Nat.sub_diag by lia. cbn [replicate]. rewrite app_nil_r, app_assoc, take_drop.
      split_and!; [done| |by constructor|cbn; lia]. rewrite !length_app, length_drop in *.
      replace (length l + 7)%nat with (length l - 8 + 7 + 1 * 8)%nat by lia.
      replace (length l + length (replicate k false) + 7)%nat with (length l - 8 + length (replicate k false) + 7 + 1 * 8)%nat by lia.
      by rewrite !Nat.div_add, H2 by done.
    + exists (8 - length l)%nat. rewrite drop_ge in * by lia. rewrite take_ge in * by lia. cbn [app length] in H2.
      assert (k = 0)%nat as ->.
      { rewrite length_replicate in H2. destruct k as [|k]; [done|].
        replace (S k + 7)%nat with (k + 1 * 8)%nat in H2 by lia. rewrite Nat.div_add in H2 by done. cbn in H2. lia. }
      cbn [replicate app]. rewrite app_nil_r. split_and!; [done| |by constructor|cbn; lia].
      rewrite length_app, length_replicate. destruct l; [done|]. cbn [length] in *.
      transitivity 1%nat; [symmetry; apply (Nat.div_unique _ 8 1 (length l)); lia|apply (Nat.div_unique _ 8 1 7); lia].
Qed.

Lemma tree_height_fuel f n h : (tree_height f n h <= f + h)%nat.
Proof. revert h. induction f as [|f IH]; intros h; cbn [tree_height]; [lia|]. case_bool_decide; [specialize (IH (S h)); lia|lia]. Qed.

Lemma build_bits_bound n h pos l m : (pos < CalcTreeWidth n h)%nat ->
  (length (build_tree n h pos l m).1 <= S h * length (leaves n h pos))%nat.
Proof.
  revert pos. induction h as [|h IH]; intros pos Hp; cbn [build_tree].
  - pose proof (leaves_nonempty n 0 pos Hp). cbn [fst length]. lia.
  - pose proof (leaves_nonempty n (S h) pos Hp) as Hne. destruct (parent_of_match n (S h) pos m); cbn [negb]; [|cbn [fst length]; lia].
    rewrite width_succ in Hp. pose proof (Nat.div_mod_eq (CalcTreeWidth n h + 1) 2).
    pose proof (Nat.mod_upper_bound (CalcTreeWidth n h + 1) 2 ltac:(done)).
    specialize (IH (pos * 2)%nat ltac:(lia)) as Hl. rewrite leaves_split, length_app in *.
    destruct (build_tree n h (pos * 2) l m) as [b1 h1]. case_bool_decide as Hr.
    + specialize (IH (pos * 2 + 1)%nat Hr). destruct (build_tree n h (pos * 2 + 1) l m) as [b2 h2].
      cbn [fst length] in *. rewrite length_app. nia.
    + cbn [fst length] in *. rewrite app_nil_r. nia.
Qed.

Lemma build_hashes_range n h pos l m : n = length l -> Forall is_hash l -> (pos < CalcTreeWidth n h)%nat ->
  Forall is_hash (build_tree n h pos l m).2.
Proof.
  intros -> Hl. assert (Hc : forall h pos, (pos < CalcTreeWidth (length l) h)%nat -> is_hash (node_hash (length l) h pos l)).
  { intros [|h'] pos' Hp; [|apply Hash2_range]. rewrite width_0 in Hp. by apply nth_range. }
  revert pos. induction h as [|h IH]; intros pos Hp; cbn [build_tree].
  - by constructor; [apply (Hc 0%nat)|].
  - destruct (parent_of_match (length l) (S h) pos m); cbn [negb]; [|by constructor; [apply (Hc (S h))|]].
    rewrite width_succ in Hp. pose proof (Nat.div_mod_eq (CalcTreeWidth (length l) h + 1) 2).
    pose proof (Nat.mod_upper_bound (CalcTreeWidth (length l) h + 1) 2 ltac:(done)).
    specialize (IH (pos * 2)%nat ltac:(lia)) as Hl1. destruct (build_tree (length l) h (pos * 2) l m) as [b1 h1].
    case_bool_decide as Hr; cbn [snd] in *; [|by rewrite app_nil_r].
    specialize (IH (pos * 2 + 1)%nat Hr). destruct (build_tree (length l) h (pos * 2 + 1) l m) as [b2 h2].
    by apply Forall_app.
Qed.

(** sizes a message allows *)
Definition partial_ok (t : CPartialMerkleTree) : Prop :=
  Z.of_nat (nTransactions t) < 2 ^ 32 /\ sized is_hash (vHash t) /\ Z.of_nat (length (vBits t)) <= MAX_SIZE.

Lemma partial_stream t s : partial_ok t -> exists k,
  Unserialize ser_CPartialMerkleTree (Serialize ser_CPartialMerkleTree t ++ s) =
    Some ({| nTransactions := nTransactions t; vBits := vBits t ++ replicate k false; vHash := vHash t; fBad := false |}, s) /\
  ((length (vBits t) + 7) / 8 = (length (vBits t ++ replicate k false) + 7) / 8)%nat.
Proof.
  intros (Hn & Hh & Hb). destruct (pack_unpack (length (vBits t)) (vBits t) (le_n _)) as (k & H1 & H2 & H3 & H4).
  exists k. split; [|done]. unfold ser_CPartialMerkleTree, ser_iso. cbn [Serialize Unserialize].
  rewrite (ser_roundtrip (valid := fun '(a, b, c) => 0 <= a < 2 ^ 32 /\ sized is_hash b /\ sized is_byte c)).
  - cbn. by rewrite Nat2Z.id, H1.
  - split; [lia|]. split; [exact Hh|]. split; [done|lia].
Qed.
End PartialStream.

(** ** The root commits to the list *)

Section Commitment.
Context {K : Crypto} {KL : CryptoLaws K}.

(** the leaves of a node, a missing right child standing for its left sibling *)
Fixpoint padded (l : list Z) (h pos : nat) : list Z :=
  match h with
  | O => [nth pos l 0]
  | S h => padded l h (pos * 2) ++
           padded l h (if bool_decide (pos * 2 + 1 < CalcTreeWidth (length l) h)%nat then pos * 2 + 1 else pos * 2)%nat
  end.

Lemma length_padded l h pos : length (padded l h pos) = (2 ^ h)%nat.
Proof. revert pos. induction h as [|h IH]; intros pos; [done|]. cbn [padded]. rewrite length_app, !IH, Nat.pow_succ_r'. lia. Qed.

Lemma node_hash_S n h pos l : node_hash n (S h) pos l =
  Hash2 (node_hash n h (pos * 2) l) (node_hash n h (if bool_decide (pos * 2 + 1 < CalcTreeWidth n h)%nat then pos * 2 + 1 else pos * 2)%nat l).
Proof. cbn [node_hash]. by case_bool_decide. Qed.

Lemma node_hash_range l h pos : Forall is_hash l -> (pos < CalcTreeWidth (length l) h)%nat -> is_hash (node_hash (length l) h pos l).
Proof.
  intros Hl Hp. destruct h as [|h]; [|apply Hash2_range]. rewrite width_0 in Hp. by apply nth_range.
Qed.

Lemma right_pos n h pos : (pos < CalcTreeWidth n (S h))%nat -> (pos * 2 < CalcTreeWidth n h)%nat /\
  ((if bool_decide (pos * 2 + 1 < CalcTreeWidth n h)%nat then pos * 2 + 1 else pos * 2) < CalcTreeWidth n h)%nat.
Proof.
  rewrite width_succ. intros Hp. pose proof (Nat.div_mod_eq (CalcTreeWidth n h + 1) 2).
  pose proof (Nat.mod_upper_bound (CalcTreeWidth n h + 1) 2 ltac:(done)). case_bool_decide; lia.
Qed.

(** equal nodes of the same height have the same padded leaves *)
Lemma same_padded l1 l2 h p1 p2 : Forall is_hash l1 -> Forall is_hash l2 ->
  (p1 < CalcTreeWidth (length l1) h)%nat -> (p2 < CalcTreeWidth (length l2) h)%nat ->
  node_hash (length l1) h p1 l1 = node_hash (length l2) h p2 l2 -> padded l1 h p1 = padded l2 h p2 \/ collision.
Proof.
  intros H1 H2. revert p1 p2. induction h as [|h IH]; intros p1 p2 Hp1 Hp2 He.
  - left. cbn in *. by rewrite He.
  - rewrite !node_hash_S in He. apply right_pos in Hp1 as [Ha1 Hb1]. apply right_pos in Hp2 as [Ha2 Hb2].
    apply Hash2_inj in He as [[Hl Hr]|Hc]; [|by right|by apply node_hash_range..].
    apply IH in Hl as [Hl|?]; [|by right|done|done]. apply IH in Hr as [Hr|?]; [|by right|done|done].
    left. cbn [padded]. by rewrite Hl, Hr.
Qed.

(** the padded leaves are the leaves, then copies of some of them *)
Lemma padded_leaves l h pos : (pos < CalcTreeWidth (length l) h)%nat -> exists extra,
  padded l h pos = map (fun p => nth p l 0) (leaves (length l) h pos) ++ extra /\
  Forall (fun x => x ∈ map (fun p => nth p l 0) (leaves (length l) h pos)) extra.
Proof.
  revert pos. induction h as [|h IH]; intros pos Hp.
  - exists []. rewrite width_0 in Hp. by rewrite leaves_0.
  - destruct (right_pos _ _ _ Hp) as [Hl Hr]. destruct (IH _ Hl) as (e1 & E1 & F1). cbn [padded]. rewrite leaves_split, map_app.
    case_bool_decide as Hd.
    + destruct (IH _ Hd) as (e2 & E2 & F2). assert (e1 = []) as ->.
      { pose proof (f_equal length E1) as Hlen. rewrite length_padded, length_app, length_map in Hlen.
        enough (length (leaves (length l) h (pos * 2)) = (2 ^ h)%nat) by (destruct e1; [done|cbn in *; lia]).
        unfold leaves. rewrite filter_all, length_seq; [done|]. intros q Hq%elem_of_seq.
        unfold CalcTreeWidth in Hd. pose proof (Nat.pow_nonzero 2 h ltac:(done)) as Hnz. set (k := (2 ^ h)%nat) in *.
        pose proof (Nat.Div0.mul_div_le (length l + k - 1) k). nia. }
      exists e2. rewrite E1, E2, app_nil_r, app_assoc. split; [done|]. eapply Forall_impl; [exact F2|].
      intros x Hx. apply elem_of_app. by right.
    + exists (e1 ++ padded l h (pos * 2)). rewrite (leaves_beyond _ _ (pos * 2 + 1)), E1 by lia.
      cbn [map]. rewrite app_nil_r, <- app_assoc. split; [done|]. apply Forall_app. split; [done|].
      apply Forall_app. split; [|done]. by apply Forall_forall.
Qed.

Lemma nodup_prefix (l1 l2 e1 e2 : list Z) : l1 ++ e1 = l2 ++ e2 -> Forall (fun x => x ∈ l1) e1 -> NoDup l2 ->
  (length l1 <= length l2)%nat -> l1 = l2.
Proof.
  intros He Hf Hnd Hlen. assert (l2 = l1 ++ take (length l2 - length l1) e1) as Hl2.
  { transitivity (take (length l2) (l2 ++ e2)); [by rewrite take_app_length|]. rewrite <- He, take_app. by rewrite take_ge. }
  destruct (take (length l2 - length l1) e1) as [|x r] eqn:Et; [by rewrite app_nil_r in Hl2|]. exfalso.
  rewrite Hl2 in Hnd. apply NoDup_app in Hnd as (_ & Hd & _). apply (Hd x); [|by left].
  rewrite Forall_forall in Hf. apply Hf. eapply (elem_of_prefix (take _ e1)); [rewrite Et; by left|apply prefix_take].
Qed.

(** the leftmost leaf of one tree against a taller tree *)
Lemma taller l1 l2 h k p : Forall is_hash l1 -> Forall is_hash l2 -> l1 <> [] -> (p < CalcTreeWidth (length l2) (h + S k))%nat ->
  node_hash (length l1) h 0 l1 = node_hash (length l2) (h + S k) p l2 ->
  collision \/ exists x y, nth 0 l1 0 = Hash2 x y /\ is_hash x /\ is_hash y.
Proof.
  intros H1 H2 Hne. revert p. assert (Hpos : (0 < length l1)%nat) by (destruct l1; [done|cbn; lia]).
  induction h as [|h IH]; intros p Hp He.
  - right. cbn [Nat.add] in *. rewrite node_hash_S in He. destruct (right_pos _ _ _ Hp) as [Ha Hb].
    eexists _, _. split; [exact He|]. by split; apply node_hash_range.
  - cbn [Nat.add] in *. rewrite !node_hash_S in He. destruct (right_pos _ _ _ Hp) as [Ha Hb].
    assert (Hw : (0 < CalcTreeWidth (length l1) (S h))%nat) by by apply width_pos. destruct (right_pos _ _ _ Hw) as [Hc Hd].
    apply Hash2_inj in He as [[Hl _]|]; [|by left|by apply node_hash_range..]. by apply IH in Hl.
Qed.

(** lists without duplicates and with the same root are the same, unless the hash collides or the first
    element of one of them is an inner node of the other *)
Lemma BuildMerkleTree_commits l1 l2 : l1 <> [] -> l2 <> [] -> NoDup l1 -> NoDup l2 -> Forall is_hash l1 -> Forall is_hash l2 ->
  Z.of_nat (length l1) < 2 ^ 32 -> Z.of_nat (length l2) < 2 ^ 32 -> BuildMerkleTree l1 = BuildMerkleTree l2 ->
  l1 = l2 \/ collision \/ exists a x y, a ∈ l1 ++ l2 /\ a = Hash2 x y /\ is_hash x /\ is_hash y.
Proof.
  intros Hn1 Hn2 Hd1 Hd2 Hh1 Hh2 Hl1 Hl2 He.
  assert (Htop : forall l, l <> [] -> Z.of_nat (length l) < 2 ^ 32 -> exists h, CalcTreeWidth (length l) h = 1%nat /\
    BuildMerkleTree l = node_hash (length l) h 0 l /\ (length l <= 2 ^ h)%nat).
  { intros l Hn Hl. assert (Hw : (CalcTreeWidth (length l) 0 <= 2 ^ 32)%nat).
    { rewrite width_0. apply Nat2Z.inj_le. rewrite Nat2Z.inj_pow. change (Z.of_nat 2 ^ Z.of_nat 32) with (2 ^ 32). lia. }
    assert (Hp : (0 < length l)%nat) by (destruct l; [done|cbn; lia]).
    pose proof (tree_height_width 32 (length l) 0 Hw Hp) as Hone.
    exists (tree_height 32 (length l) 0). split_and!; [done| |].
    - rewrite BuildMerkleTree_root, node_hash_level by (done || lia). rewrite width_0 in Hw.
      apply (root_level (length l) l 32 0 l eq_refl); [lia|exact Hw].
    - revert Hone. generalize (tree_height 32 (length l) 0) as h. intros h Hone. unfold CalcTreeWidth in Hone.
      pose proof (Nat.pow_nonzero 2 h ltac:(done)) as Hnz. set (k := (2 ^ h)%nat) in *.
      pose proof (Nat.mul_succ_div_gt (length l + k - 1) k Hnz). lia. }
  destruct (Htop l1 Hn1 Hl1) as (h1 & W1 & R1 & S1). destruct (Htop l2 Hn2 Hl2) as (h2 & W2 & R2 & S2).
  rewrite R1, R2 in He. assert (Hin : forall l : list Z, l <> [] -> nth 0 l 0 ∈ l) by (intros [|x l] Hl; [done|by left]).
  destruct (lt_eq_lt_dec h1 h2) as [[Hlt|<-]|Hgt].
  - replace h2 with (h1 + S (h2 - S h1))%nat in * by lia. right.
    apply taller in He as [?|(x & y & Hx)]; [by left| |done|done|done|lia]. right. exists (nth 0 l1 0), x, y.
    split; [|done]. apply elem_of_app. left. by apply Hin.
  - apply same_padded in He as [He|?]; [|by right; left|done|done|lia|lia]. left.
    destruct (padded_leaves l1 h1 0 ltac:(lia)) as (e1 & E1 & F1). destruct (padded_leaves l2 h1 0 ltac:(lia)) as (e2 & E2 & F2).
    rewrite leaves_root, Nat.min_r in E1, F1 by lia. rewrite leaves_root, Nat.min_r in E2, F2 by lia.
    assert (Hid : forall l : list Z, map (fun p => nth p l 0) (seq 0 (length l)) = l).
    { intros l. clear. induction l as [|x l IH]; [done|]. cbn [length seq map nth]. f_equal.
      rewrite <- seq_shift, map_map. exact IH. }
    rewrite Hid in E1, F1, E2, F2. rewrite E1, E2 in He. destruct (le_ge_dec (length l1) (length l2)).
    + by eapply nodup_prefix.
    + symmetry. by eapply nodup_prefix.
  - replace h1 with (h2 + S (h1 - S h2))%nat in * by lia. right. symmetry in He.
    apply taller in He as [?|(x & y & Hx)]; [by left| |done|done|done|lia]. right. exists (nth 0 l2 0), x, y.
    split; [|done]. apply elem_of_app. right. by apply Hin.
Qed.
End Commitment.

(** ** Properties *)

Section Properties.
Context {K : Crypto} {KL : CryptoLaws K}.

(** The branch that [GetMerkleBranch] extracts for any transaction of a block checks, under [CheckMerkleBranch],
    to the root that [BuildMerkleTree] computed: every leaf position, rows of odd length included. *)
Theorem CheckMerkleBranch_complete vtxid i (Hi : (i < length vtxid)%nat) :
  CheckMerkleBranch (nth i vtxid 0) (GetMerkleBranch vtxid i) (Z.of_nat i) = BuildMerkleTree vtxid.
Proof.
  unfold CheckMerkleBranch. rewrite (proj2 (Z.eqb_neq _ _)) by lia. rewrite GetMerkleBranch_eq, branch_complete by lia.
  symmetry. apply BuildMerkleTree_root. by destruct vtxid; [cbn in Hi; lia|].
Qed.

(** A branch cannot lie: if [CheckMerkleBranch] takes a hash at position i to the root of the block along a
    branch of the right length, then the hash is that of transaction i, or the branch and the tree exhibit two different
    strings with the same double SHA-256. *)
Theorem CheckMerkleBranch_sound vtxid i h branch (Hi : (i < length vtxid)%nat) (Htx : Forall is_hash vtxid)
  (Hh : is_hash h) (Hb : Forall is_hash branch) (Hlen : length branch = length (GetMerkleBranch vtxid i))
  (Hroot : CheckMerkleBranch h branch (Z.of_nat i) = BuildMerkleTree vtxid) :
  h = nth i vtxid 0 \/ collision.
Proof.
  unfold CheckMerkleBranch in Hroot. rewrite (proj2 (Z.eqb_neq _ _)) in Hroot by lia.
  rewrite BuildMerkleTree_root in Hroot by (by destruct vtxid; [cbn in Hi; lia|]). rewrite GetMerkleBranch_eq in Hlen.
  by apply (branch_sound (length vtxid) vtxid i h branch ltac:(done) ltac:(lia)) in Hroot.
Qed.

(** what a peer reads from a partial tree *)
Lemma partial_tree_read vTxid vMatch s (Hn : 0 < Z.of_nat (length vTxid) <= MAX_BLOCK_SIZE / 60)
  (Hm : length vMatch = length vTxid) (Htx : Forall is_hash vTxid) :
  let selected := map (fun p => nth p vTxid 0) (filter (fun p => nth p vMatch false = true) (seq 0 (length vTxid))) in
  exists t, new_partial_tree vTxid vMatch = Some t /\ ExtractMatches t = (BuildMerkleTree vTxid, selected) /\
  exists t', Unserialize ser_CPartialMerkleTree (Serialize ser_CPartialMerkleTree t ++ s) = Some (t', s) /\
    ExtractMatches t' = (BuildMerkleTree vTxid, selected).
Proof.
  intros selected. exists (partial_tree vTxid vMatch). split; [apply new_partial_tree_reads; lia|].
  set (t := partial_tree vTxid vMatch). set (n := length vTxid) in *. set (h := tree_height 32 n 0).
  assert (Hw : (0 < CalcTreeWidth n h)%nat) by (apply width_pos; lia).
  pose proof (fun pad => extract_whole vTxid vMatch pad Hn) as Hx.
  pose proof (build_bits_bound n h 0 vTxid vMatch Hw) as Hbits. pose proof (build_counts n h 0 vTxid vMatch Hw) as Hc.
  pose proof (build_hashes_range n h 0 vTxid vMatch eq_refl Htx Hw) as Hr.
  assert (Hlv : (length (leaves n h 0) <= n)%nat) by (rewrite leaves_root, length_seq; lia).
  pose proof (tree_height_fuel 32 n 0) as Hh. fold h in Hh. unfold MAX_BLOCK_SIZE in Hn. change (1000000 / 60) with 16666 in Hn.
  assert (Ht : t = let '(b, hs) := build_tree n h 0 vTxid vMatch in
    {| nTransactions := n; vBits := b; vHash := hs; fBad := false |}) by done.
  destruct (build_tree n h 0 vTxid vMatch) as [b hs] eqn:Eb. cbn [fst snd] in *. unfold h in Eb.
  fold n in Hx. rewrite Eb in Hx. split.
  - rewrite Ht. specialize (Hx []). rewrite app_nil_r in Hx. by apply Hx.
  - assert (Hok : partial_ok t) by (rewrite Ht; unfold partial_ok, sized, MAX_SIZE; cbn [nTransactions vBits vHash]; split_and!; [lia|done|lia|nia]).
    destruct (partial_stream t s Hok) as (k & H1 & H2). eexists. split; [exact H1|]. rewrite Ht in *. by apply Hx.
Qed.

(** A partial Merkle tree is built from the transactions of a block and any selection of them, no read of
    the transactions going out of bounds, and gives back, from
    [ExtractMatches], the Merkle root of the block and exactly the selected transactions in order; and so does the tree a
    peer reads from the serialized bytes, whatever follows them. *)
Theorem CPartialMerkleTree_roundtrip vTxid vMatch s (Hn : 0 < Z.of_nat (length vTxid) <= MAX_BLOCK_SIZE / 60)
  (Hm : length vMatch = length vTxid) (Htx : Forall is_hash vTxid) :
  let selected := map (fun p => nth p vTxid 0) (filter (fun p => nth p vMatch false = true) (seq 0 (length vTxid))) in
  exists t, new_partial_tree vTxid vMatch = Some t /\ ExtractMatches t = (BuildMerkleTree vTxid, selected) /\
  exists t', Unserialize ser_CPartialMerkleTree (Serialize ser_CPartialMerkleTree t ++ s) = Some (t', s) /\
    ExtractMatches t' = (BuildMerkleTree vTxid, selected).
Proof. by apply partial_tree_read. Qed.
End Properties.

(** ** Witnesses *)

(** five transactions: every row but the last has odd length or a lone right node *)
Definition sample_txids : list Z := [3; 1; 4; 1; 5].

Lemma sample_txids_hash : Forall is_hash sample_txids.
Proof. unfold is_hash. repeat (apply Forall_cons; split; [lia|]). constructor. Qed.

Lemma CheckMerkleBranch_complete_witness :
  CheckMerkleBranch (K := ToyCrypto) 5 (GetMerkleBranch (K := ToyCrypto) sample_txids 4) 4 = BuildMerkleTree (K := ToyCrypto) sample_txids.
Proof. apply (CheckMerkleBranch_complete (K := ToyCrypto) sample_txids 4). cbn. lia. Defined.

Lemma CheckMerkleBranch_sound_witness : 5 = nth 4 sample_txids 0 \/ collision (K := ToyCrypto).
Proof.
  apply (CheckMerkleBranch_sound (K := ToyCrypto) sample_txids 4 5 (GetMerkleBranch (K := ToyCrypto) sample_txids 4)).
  - cbn. lia.
  - apply sample_txids_hash.
  - done.
  - apply (bool_decide_unpack _). vm_compute. exact I.
  - reflexivity.
  - vm_compute. reflexivity.
Defined.

Lemma CPartialMerkleTree_roundtrip_witness : exists t,
  new_partial_tree (K := ToyCrypto) sample_txids [false; true; false; false; true] = Some t /\
  ExtractMatches (K := ToyCrypto) t = (BuildMerkleTree (K := ToyCrypto) sample_txids, [1; 5]) /\
  exists t', Unserialize ser_CPartialMerkleTree (Serialize ser_CPartialMerkleTree t ++ []) = Some (t', []) /\
    ExtractMatches (K := ToyCrypto) t' = (BuildMerkleTree (K := ToyCrypto) sample_txids, [1; 5]).
Proof.
  apply (CPartialMerkleTree_roundtrip (K := ToyCrypto) sample_txids [false; true; false; false; true] []).
  - vm_compute. split; done.
  - reflexivity.
  - apply sample_txids_hash.
Defined.
