(* ===== verification/Block.v ===== *)
(** * Blocks (main.h, main.cpp)

    Block headers with the prime certificate, blocks, their serialization and hashes, the
    validation state, the checks of a block that need no chain ([CheckBlock]), the reward
    ([GetBlockValue]) and the statistics of the block files.  The adjusted time is an argument. *)

From stdpp Require Import gmap.
From S2P Require Import Prelude OpenSSL BigNum Target Serialize Crypto Script Transaction Coins Merkle.
Local Open Scope Z_scope.

(** ** Headers and blocks *)

Record CBlockHeader := {
  h_nVersion : Z; hashPrevBlock : Z; hashMerkleRoot : Z; h_nTime : Z; h_nBits : Z; h_nNonce : Z;
  bnPrimeChainMultiplier : Z;
}.
Definition CURRENT_VERSION : Z := 2.
Definition null_header : CBlockHeader :=
  {| h_nVersion := CURRENT_VERSION; hashPrevBlock := 0; hashMerkleRoot := 0; h_nTime := 0; h_nBits := 0; h_nNonce := 0;
     bnPrimeChainMultiplier := 0 |}.
Definition header_IsNull (h : CBlockHeader) : bool := h_nBits h =? 0.
Definition GetBlockTime (h : CBlockHeader) : Z := h_nTime h.

(** [nPrimeChainType] and [nPrimeChainLength] live in memory only *)
Record CBlock := { blk_header : CBlockHeader; vtx : list CTransaction; nPrimeChainType : Z; nPrimeChainLength : Z }.
Definition block_of_header (h : CBlockHeader) : CBlock :=
  {| blk_header := h; vtx := []; nPrimeChainType := 0; nPrimeChainLength := 0 |}.
Definition null_block : CBlock := block_of_header null_header.
(** the certificate is not copied: the multiplier is the null header's *)
Definition GetBlockHeader (b : CBlock) : CBlockHeader :=
  let h := blk_header b in
  {| h_nVersion := h_nVersion h; hashPrevBlock := hashPrevBlock h; hashMerkleRoot := hashMerkleRoot h;
     h_nTime := h_nTime h; h_nBits := h_nBits h; h_nNonce := h_nNonce h;
     bnPrimeChainMultiplier := bnPrimeChainMultiplier null_header |}.

Section Serialization.
Context {B : OpenSSLBN}.

Definition ser_CBigNum : codec Z := ser_iso ser_vch getvch of_vch.

(** the fields without the certificate: what lies between [nVersion] and [nNonce] in memory *)
Definition ser_header_fields : codec (Z * Z * Z * (Z * Z * Z)) :=
  ser_pair (ser_tuple3 (ser_sint 4) (ser_uint 32) (ser_uint 32)) (ser_tuple3 (ser_uint 4) (ser_uint 4) (ser_uint 4)).
Definition header_fields (h : CBlockHeader) : Z * Z * Z * (Z * Z * Z) :=
  (h_nVersion h, hashPrevBlock h, hashMerkleRoot h, (h_nTime h, h_nBits h, h_nNonce h)).
Definition ser_CBlockHeader : codec CBlockHeader :=
  ser_iso (ser_pair ser_header_fields ser_CBigNum) (fun h => (header_fields h, bnPrimeChainMultiplier h))
    (fun '((v, p, m, (t, b, n)), c) =>
       {| h_nVersion := v; hashPrevBlock := p; hashMerkleRoot := m; h_nTime := t; h_nBits := b; h_nNonce := n;
          bnPrimeChainMultiplier := c |}).
Definition ser_CBlock : codec CBlock :=
  ser_iso (ser_pair ser_CBlockHeader (ser_vector ser_CTransaction)) (fun b => (blk_header b, vtx b))
    (fun '(h, l) => {| blk_header := h; vtx := l; nPrimeChainType := 0; nPrimeChainLength := 0 |}).
End Serialization.
#[export] Typeclasses Opaque ser_CBigNum ser_header_fields ser_CBlockHeader ser_CBlock.

(** ** The outcome of a validation *)

Inductive mode_state := MODE_VALID | MODE_INVALID | MODE_ERROR.
Record CValidationState := { mode : mode_state; nDoS : Z; corruptionPossible : bool }.
Definition new_state : CValidationState := {| mode := MODE_VALID; nDoS := 0; corruptionPossible := false |}.

(** each returns the verdict the caller passes on, and the new state *)
Definition state_DoS (level : Z) (ret corruptionIn : bool) (s : CValidationState) : bool * CValidationState :=
  match mode s with
  | MODE_ERROR => (ret, s)
  | _ => (ret, {| mode := MODE_INVALID; nDoS := s32 (nDoS s + level); corruptionPossible := corruptionIn |})
  end.
Definition state_Invalid (ret : bool) (s : CValidationState) : bool * CValidationState := state_DoS 0 ret false s.
Definition state_Error (s : CValidationState) : bool * CValidationState :=
  (false, {| mode := MODE_ERROR; nDoS := nDoS s; corruptionPossible := corruptionPossible s |}).
Definition state_IsValid (s : CValidationState) : bool := match mode s with MODE_VALID => true | _ => false end.
Definition state_IsInvalid (s : CValidationState) : bool := match mode s with MODE_INVALID => true | _ => false end.
Definition state_IsError (s : CValidationState) : bool := match mode s with MODE_ERROR => true | _ => false end.

(** ** CheckBlock *)

Section Checking.
Context {B : OpenSSLBN} {K : Crypto}.

Definition GetHeaderHash (h : CBlockHeader) : Z := Hash (Serialize ser_header_fields (header_fields h)).
Definition header_GetHash (h : CBlockHeader) : Z := SerializeHash ser_CBlockHeader h.
Definition block_GetHash (b : CBlock) : Z := header_GetHash (blk_header b).

(** the transaction ids [BuildMerkleTree] starts from *)
Definition txids (b : CBlock) : list Z := map GetHash (vtx b).

(** the 2013 limit on the transaction ids a block refers to *)
Definition txids_referenced (b : CBlock) : gset Z :=
  list_to_set (txids b) ∪ list_to_set (map (fun i => o_hash (prevout i)) (concat (map vin (tail (vtx b))))).
Definition maxlocks_violated (b : CBlock) : bool :=
  let t := GetBlockTime (blk_header b) in
  (1363867200 <=? t) && (t <? 1368576000) && (4500 <? Z.of_nat (size (txids_referenced b))).

Fixpoint check_txs (l : list CTransaction) (state : CValidationState) : bool * CValidationState :=
  match l with
  | [] => (true, state)
  | tx :: r =>
    match CheckTransaction tx with
    | Valid => check_txs r state
    | DoS level => state_DoS level false false state
    end
  end.

Definition block_sigops (b : CBlock) : Z := foldl (fun n tx => u32 (n + GetLegacySigOpCount tx)) 0 (vtx b).

Definition CheckBlock (nAdjustedTime : Z) (b : CBlock) (fCheckPOW fCheckMerkleRoot : bool) (state : CValidationState)
    : bool * CValidationState :=
  let Reject := state_DoS 100 false in
  if bool_decide (vtx b = []) || (MAX_BLOCK_SIZE <? Z.of_nat (length (vtx b))) ||
     (MAX_BLOCK_SIZE <? GetSerializeSize ser_CBlock b)
  then Reject false state
  else if maxlocks_violated b then (false, state)
  else if nAdjustedTime + 2 * 60 * 60 <? GetBlockTime (blk_header b) then state_Invalid false state
  else if negb (match vtx b with tx :: _ => IsCoinBase tx | [] => false end) then Reject false state
  else if existsb IsCoinBase (tail (vtx b)) then Reject false state
  else
    let '(ok, state) := check_txs (vtx b) state in
    if negb ok then (false, state)
    else if negb (bool_decide (size (list_to_set (txids b) : gset Z) = length (vtx b))) then Reject true state
    else if MAX_BLOCK_SIGOPS <? block_sigops b then Reject false state
    else if fCheckMerkleRoot && negb (hashMerkleRoot (blk_header b) =? BuildMerkleTree (txids b)) then Reject false state
    else (true, state).

(** ** Reward and work limits *)

(** [None]: a big-number division throws *)
Definition GetBlockValue (tp : TargetParams) (nBits nFees : Z) : option Z :=
  let? (ok, nSubsidy) := TargetGetMint tp nBits in Some (s64 (s64 nSubsidy + nFees)).
Definition ComputeMinWork (tp : TargetParams) (nBase nTime : Z) : Z := (TargetSetLength (nTargetMinLength tp) nBase).2.
End Checking.

(** ** Block files *)

Record CBlockFileInfo := {
  f_nBlocks : Z; f_nSize : Z; f_nUndoSize : Z; f_nHeightFirst : Z; f_nHeightLast : Z; f_nTimeFirst : Z; f_nTimeLast : Z;
}.
Definition null_file_info : CBlockFileInfo :=
  {| f_nBlocks := 0; f_nSize := 0; f_nUndoSize := 0; f_nHeightFirst := 0; f_nHeightLast := 0; f_nTimeFirst := 0; f_nTimeLast := 0 |}.
Definition AddBlock (f : CBlockFileInfo) (nHeightIn nTimeIn : Z) : CBlockFileInfo :=
  let first := if (f_nBlocks f =? 0) || (nHeightIn <? f_nHeightFirst f) then nHeightIn else f_nHeightFirst f in
  {| f_nBlocks := u32 (f_nBlocks f + 1); f_nSize := f_nSize f; f_nUndoSize := f_nUndoSize f;
     f_nHeightFirst := first;
     f_nHeightLast := if first <? nHeightIn then nHeightIn else f_nHeightLast f;
     f_nTimeFirst := if (f_nBlocks f =? 0) || (nTimeIn <? f_nTimeFirst f) then nTimeIn else f_nTimeFirst f;
     f_nTimeLast := if f_nTimeLast f <? nTimeIn then nTimeIn else f_nTimeLast f |}.

(** the highest height of a file is wrong when blocks come out of order *)
Lemma AddBlock_height_last :
  f_nHeightLast (AddBlock (AddBlock (AddBlock null_file_info 5 10) 9 12) 7 14) = 7.
Proof. reflexivity. Qed.

(** ** The serialization contract *)

Definition valid_header (h : CBlockHeader) : Prop :=
  - 2 ^ 31 <= h_nVersion h < 2 ^ 31 /\ 0 <= hashPrevBlock h < 2 ^ 256 /\ 0 <= hashMerkleRoot h < 2 ^ 256 /\
  0 <= h_nTime h < 2 ^ 32 /\ 0 <= h_nBits h < 2 ^ 32 /\ 0 <= h_nNonce h < 2 ^ 32.

Section Lawful.
Context {B : OpenSSLBN} {L : OpenSSLBNLaws B}.

#[export] Instance ser_CBigNum_lawful : Lawful ser_CBigNum (fun z => Z.of_nat (length (getvch z)) <= MAX_SIZE).
Proof.
  refine (ser_iso_lawful _ _ _ _ _). intros z Hz. unfold MAX_SIZE in *. split.
  - split; [apply getvch_all|done].
  - apply setvch_getvch. lia.
Qed.

Definition ser_header_fields_lawful : Lawful ser_header_fields _ := ltac:(unfold ser_header_fields; typeclasses eauto).
#[export] Existing Instance ser_header_fields_lawful.

#[export] Instance ser_CBlockHeader_lawful :
  Lawful ser_CBlockHeader (fun h => valid_header h /\ Z.of_nat (length (getvch (bnPrimeChainMultiplier h))) <= MAX_SIZE).
Proof. refine (ser_iso_lawful _ _ _ _ _). by intros [] [(? & ? & ? & ? & ? & ?) ?]. Qed.

(** what is stored of a block *)
Definition stored (b : CBlock) : CBlock :=
  {| blk_header := blk_header b; vtx := vtx b; nPrimeChainType := 0; nPrimeChainLength := 0 |}.
Definition valid_block (b : CBlock) : Prop :=
  (valid_header (blk_header b) /\ Z.of_nat (length (getvch (bnPrimeChainMultiplier (blk_header b)))) <= MAX_SIZE) /\
  sized valid_tx (vtx b).

#[export] Instance ser_CBlock_lawful : Lawful ser_CBlock (fun b => valid_block b /\ stored b = b).
Proof. refine (ser_iso_lawful _ _ _ _ _). by intros [] [[? ?] ?]. Qed.

Lemma ser_stored b : Serialize ser_CBlock (stored b) = Serialize ser_CBlock b.
Proof. done. Qed.

Lemma valid_stored b : valid_block b -> valid_block (stored b) /\ stored (stored b) = stored b.
Proof. done. Qed.
End Lawful.

(** ** What CheckBlock guarantees *)

Section CheckLemmas.
Context {B : OpenSSLBN} {K : Crypto}.

Lemma check_txs_iff l s : check_txs l s = (true, s) <-> Forall (fun tx => CheckTransaction tx = Valid) l.
Proof.
  induction l as [|tx l IH]; cbn [check_txs]; [done|]. rewrite Forall_cons, <- IH.
  destruct (CheckTransaction tx); [split; [done|by intros []]|].
  split; [|by intros []]. unfold state_DoS. by destruct (mode s).
Qed.

Lemma check_txs_false l s s' : check_txs l s = (false, s') -> state_IsValid s' = false.
Proof.
  induction l as [|tx l IH]; cbn [check_txs]; [done|]. destruct (CheckTransaction tx); [done|].
  unfold state_DoS, state_IsValid. destruct (mode s) eqn:E; intros [= <-]; cbn; by rewrite ?E.
Qed.

Lemma check_txs_state l s s' : check_txs l s = (true, s') -> s' = s.
Proof.
  induction l as [|tx l IH]; cbn [check_txs]; [by intros [= <-]|]. destruct (CheckTransaction tx); [done|].
  unfold state_DoS. by destruct (mode s).
Qed.

Lemma list_set_size_le (l : list Z) : (size (list_to_set l : gset Z) <= length l)%nat.
Proof.
  induction l as [|x l IH]; [done|]. cbn [list_to_set length]. rewrite size_union_alt, size_singleton.
  pose proof (subseteq_size (list_to_set l ∖ {[x]} : gset Z) (list_to_set l) ltac:(set_solver)). lia.
Qed.

Lemma distinct_iff (l : list Z) : size (list_to_set l : gset Z) = length l <-> NoDup l.
Proof.
  induction l as [|x l IH]; cbn [list_to_set length]; [by split; [constructor|]|].
  rewrite NoDup_cons. destruct (decide (x ∈ l)) as [Hx|Hx].
  - replace ({[x]} ∪ list_to_set l : gset Z) with (list_to_set l : gset Z) by set_solver.
    split; [|by intros []]. intros Hs. exfalso. pose proof (list_set_size_le l). lia.
  - rewrite size_union, size_singleton by set_solver. rewrite <- IH. split; [split; [done|lia]|intros []; lia].
Qed.
End CheckLemmas.

(** ** Properties *)

Section BlockProperties.
Context {B : OpenSSLBN} {K : Crypto} {KL : CryptoLaws K}.

(** the context-free rules of a block *)
Record block_rules (nAdjustedTime : Z) (fCheckMerkleRoot : bool) (b : CBlock) : Prop := {
  br_size : vtx b <> [] /\ Z.of_nat (length (vtx b)) <= MAX_BLOCK_SIZE /\ GetSerializeSize ser_CBlock b <= MAX_BLOCK_SIZE;
  br_locks : maxlocks_violated b = false;
  br_time : GetBlockTime (blk_header b) <= nAdjustedTime + 7200;
  br_coinbase : exists cb rest, vtx b = cb :: rest /\ IsCoinBase cb = true /\ Forall (fun tx => IsCoinBase tx = false) rest;
  br_txs : Forall (fun tx => CheckTransaction tx = Valid) (vtx b);
  br_unique : NoDup (txids b);
  br_sigops : block_sigops b <= MAX_BLOCK_SIGOPS;
  br_root : fCheckMerkleRoot = true -> hashMerkleRoot (blk_header b) = BuildMerkleTree (txids b);
}.

Lemma CheckBlock_rules t b pow root s s' : CheckBlock t b pow root s = (true, s') -> s' = s /\ block_rules t root b.
Proof.
  intros H. unfold CheckBlock in H. assert (Hno : forall l f, state_DoS l false f s <> (true, s')) by (intros; unfold state_DoS; by destruct (mode s)).
  case_if_in H; [by apply Hno in H|]. case_if_in H; [done|]. case_if_in H; [by apply Hno in H|].
  case_if_in H; [by apply Hno in H|]. case_if_in H; [by apply Hno in H|].
  destruct (check_txs (vtx b) s) as [ok s1] eqn:Et. destruct ok; cbn [negb] in H; [|done].
  apply check_txs_state in Et as Hs. subst s1. do 2 (case_if_in H; [by apply Hno in H|]). case_if_in H; [by apply Hno in H|].
  injection H as <-. split; [done|]. apply check_txs_iff in Et. b2p. destruct (vtx b) as [|cb rest] eqn:Ev; [done|].
  cbn [tail] in *. split; rewrite ?Ev; try done; try lia.
  - exists cb, rest. split_and!; [done|done|]. apply Forall_forall. intros x Hx. destruct (IsCoinBase x) eqn:Ex; [|done]. exfalso.
    enough (existsb IsCoinBase rest = true) by congruence. apply existsb_exists. exists x. by rewrite <- list_elem_of_In.
  - apply distinct_iff. unfold txids at 2. by rewrite length_map, Ev.
  - intros ->. destruct (hashMerkleRoot _ =? _) eqn:Eq; b2p; [done|]. by destruct E6.
Qed.

Lemma rules_CheckBlock t b pow root s : block_rules t root b -> CheckBlock t b pow root s = (true, s).
Proof.
  intros [(Hne & Hl & Hs) Hlocks Ht (cb & rest & Hv & Hcb & Hrest) Htx Hu Hsig Hroot]. unfold CheckBlock.
  rewrite bool_decide_eq_false_2, !(proj2 (Z.ltb_ge _ _)) by (done || lia). cbn [orb]. rewrite Hlocks, Hv. cbn [tail]. rewrite Hcb.
  cbn [negb]. destruct (existsb IsCoinBase rest) eqn:Ee.
  { apply existsb_exists in Ee as (x & Hx & Ex). rewrite Forall_forall in Hrest. rewrite Hrest in Ex by by apply list_elem_of_In. done. }
  rewrite <- Hv. apply (check_txs_iff _ s) in Htx. rewrite Htx. cbn [negb].
  rewrite bool_decide_eq_true_2 by (apply distinct_iff in Hu; unfold txids at 2 in Hu; by rewrite length_map in Hu). cbn [negb].
  destruct root; [|done]. by rewrite (Hroot eq_refl), Z.eqb_refl.
Qed.

(** a refusal marks the state, but for the lock limit *)
Lemma CheckBlock_refuses t b pow root state s' : CheckBlock t b pow root state = (false, s') ->
  maxlocks_violated b = true \/ state_IsValid s' = false.
Proof.
  intros E.
  assert (Hd : forall l f s1, state_DoS l false f state = (false, s1) -> state_IsValid s1 = false).
  { intros l f s1. unfold state_DoS, state_IsValid. destruct (mode state) eqn:Em; intros [= <-]; cbn; by rewrite ?Em. }
  unfold CheckBlock in E. case_if_in E; [right; by eapply Hd|]. case_if_in E; [by left|]. right. case_if_in E; [by eapply Hd|].
  do 2 (case_if_in E; [by eapply Hd|]). destruct (check_txs (vtx b) state) as [ok s1] eqn:Et. destruct ok; cbn [negb] in E.
  + apply check_txs_state in Et as ->. do 3 (case_if_in E; [by eapply Hd|]). done.
  + injection E as <-. by eapply check_txs_false.
Qed.

(** [CheckBlock] accepts exactly the blocks that satisfy the context-free rules (sizes, the 2013 lock limit,
    timestamp at most two hours ahead, one coinbase and that one first, valid transactions with distinct ids, bounded
    signature operations, Merkle root) and then leaves the validation state alone; every rejection other than that
    of the lock limit marks the state, so no invalid block is dropped without a verdict. *)
Theorem CheckBlock_iff t b fCheckPOW fCheckMerkleRoot state :
  ((CheckBlock t b fCheckPOW fCheckMerkleRoot state).1 = true <-> block_rules t fCheckMerkleRoot b) /\
  let '(ok, state') := CheckBlock t b fCheckPOW fCheckMerkleRoot state in
  if ok then state' = state else maxlocks_violated b = true \/ state_IsValid state' = false.
Proof.
  split.
  - split.
    + destruct (CheckBlock _ _ _ _ _) as [ok s'] eqn:E. cbn. intros ->. by destruct (CheckBlock_rules _ _ _ _ _ _ E).
    + intros H. by rewrite rules_CheckBlock.
  - destruct (CheckBlock _ _ _ _ _) as [[] s'] eqn:E; [by destruct (CheckBlock_rules _ _ _ _ _ _ E)|].
    by apply CheckBlock_refuses in E.
Qed.

(** equal ids, equal transactions *)
Lemma same_ids l1 l2 : map GetHash l1 = map GetHash l2 -> Forall valid_tx l1 -> Forall valid_tx l2 -> l1 = l2 \/ collision.
Proof.
  revert l2. induction l1 as [|a l1 IH]; intros [|b l2] He Hv1 Hv2; try done; [by left|]. cbn [map] in He. injection He as Hh Ht.
  apply Forall_cons in Hv1 as [Ha Hv1], Hv2 as [Hb Hv2].
  destruct (decide (Serialize ser_CTransaction a = Serialize ser_CTransaction b)) as [Es|Es].
  - assert (a = b) as ->.
    { pose proof (ser_roundtrip (c := ser_CTransaction) a [] Ha) as Ra. rewrite Es, ser_roundtrip in Ra by done. congruence. }
    by destruct (IH l2 Ht Hv1 Hv2) as [->|?]; [left|right].
  - right. exists (Serialize ser_CTransaction a), (Serialize ser_CTransaction b). split; [done|].
    rewrite <- !Hash_uint256. by apply (f_equal uint256_bytes) in Hh.
Qed.

(** The header commits to the block: two blocks that pass [CheckBlock] with the same Merkle root have the same
    transactions (CVE-2012-2459, where a repeated tail of the list leaves the root unchanged, is stopped by the check
    for distinct ids), unless double SHA-256 collides or some transaction is 64 bytes long and so doubles as an inner
    node of a Merkle tree. *)
Theorem CheckBlock_commits t1 t2 b1 b2 pow1 pow2 s1 s2
    (H1 : (CheckBlock t1 b1 pow1 true s1).1 = true) (H2 : (CheckBlock t2 b2 pow2 true s2).1 = true)
    (Hv1 : Forall valid_tx (vtx b1)) (Hv2 : Forall valid_tx (vtx b2))
    (Hroot : hashMerkleRoot (blk_header b1) = hashMerkleRoot (blk_header b2)) :
  vtx b1 = vtx b2 \/ collision \/
  exists tx, tx ∈ vtx b1 ++ vtx b2 /\ length (Serialize ser_CTransaction tx) = 64%nat.
Proof.
  destruct (CheckBlock t1 b1 pow1 true s1) as [ok1 ?] eqn:E1, (CheckBlock t2 b2 pow2 true s2) as [ok2 ?] eqn:E2. cbn in H1, H2. subst.
  apply CheckBlock_rules in E1 as [_ R1]. apply CheckBlock_rules in E2 as [_ R2].
  assert (Hr : forall t b, block_rules t true b -> txids b <> [] /\ Z.of_nat (length (txids b)) < 2 ^ 32 /\ Forall is_hash (txids b)).
  { intros t b R. destruct (br_size _ _ _ R) as (Hne & Hl & _). unfold MAX_BLOCK_SIZE in Hl. unfold txids. split_and!.
    - by destruct (vtx b).
    - rewrite length_map. lia.
    - apply Forall_map, Forall_forall. intros x _. apply Hash_range. }
  destruct (Hr _ _ R1) as (N1 & L1 & F1), (Hr _ _ R2) as (N2 & L2 & F2).
  pose proof (br_root _ _ _ R1 eq_refl) as M1. pose proof (br_root _ _ _ R2 eq_refl) as M2.
  destruct (BuildMerkleTree_commits (txids b1) (txids b2)) as [He|[Hc|(a & x & y & Ha & Hxy & Hx & Hy)]];
    try done; try (by eapply br_unique); [congruence| |by right; left|].
  - by destruct (same_ids _ _ He Hv1 Hv2); [left|right; left].
  - right. apply elem_of_app in Ha. assert (Hin : exists tx, tx ∈ vtx b1 ++ vtx b2 /\ GetHash tx = a).
    { unfold txids in Ha. destruct Ha as [Ha|Ha]; apply list_elem_of_fmap in Ha as (tx & -> & Hin); exists tx; by rewrite elem_of_app; auto. }
    destruct Hin as (tx & Hin & Ht). destruct (decide (length (Serialize ser_CTransaction tx) = 64%nat)) as [?|Hn]; [right; by exists tx|].
    left. exists (Serialize ser_CTransaction tx), (uint256_bytes x ++ uint256_bytes y). split.
    + intros Heq. apply Hn. rewrite Heq, length_app. unfold uint256_bytes. by rewrite !length_le_bytes.
    + rewrite <- !Hash_uint256. f_equal. rewrite <- Ht in Hxy. exact Hxy.
Qed.
End BlockProperties.

(** ** Witnesses *)

Definition sample_coinbase : CTransaction :=
  {| nVersion := 1; vin := [{| prevout := null_outpoint; scriptSig := [0x51; 0x51]; nSequence := uint_max |}];
     vout := [{| nValue := 10 * COIN; scriptPubKey := [0x51] |}]; nLockTime := 0 |}.
Definition spend_more : CTransaction :=
  {| nVersion := 1; vin := [{| prevout := {| o_hash := 78; o_n := 1 |}; scriptSig := []; nSequence := uint_max |}];
     vout := [{| nValue := 3 * COIN; scriptPubKey := [0x51] |}]; nLockTime := 0 |}.
Definition sample_block (txs : list CTransaction) : CBlock :=
  {| blk_header := {| h_nVersion := 2; hashPrevBlock := 1; hashMerkleRoot := BuildMerkleTree (K := ToyCrypto) (map (GetHash (K := ToyCrypto)) txs);
                      h_nTime := 1400000000; h_nBits := 0x07000000; h_nNonce := 5; bnPrimeChainMultiplier := 210 |};
     vtx := txs; nPrimeChainType := 0; nPrimeChainLength := 0 |}.

Lemma CheckBlock_commits_witness :
  let b := sample_block [sample_coinbase; sample_tx] in
  vtx b = vtx b \/ collision (K := ToyCrypto) \/ exists tx, tx ∈ vtx b ++ vtx b /\ length (Serialize ser_CTransaction tx) = 64%nat.
Proof.
  set (b := sample_block [sample_coinbase; sample_tx]).
  apply (CheckBlock_commits (B := ZBN) (K := ToyCrypto) 1400000000 1400000000 b b true true new_state new_state).
  - vm_compute. reflexivity.
  - vm_compute. reflexivity.
  - repeat constructor; cbn; unfold is_byte, uint_max, MAX_SIZE, COIN; lia.
  - repeat constructor; cbn; unfold is_byte, uint_max, MAX_SIZE, COIN; lia.
  - reflexivity.
Defined.

(** repeating the last transaction keeps the root; the check for distinct ids rejects the block *)
Lemma duplicate_tail_rejected :
  let b := sample_block [sample_coinbase; sample_tx; spend_more] in
  let b' := sample_block [sample_coinbase; sample_tx; spend_more; spend_more] in
  hashMerkleRoot (blk_header b) = hashMerkleRoot (blk_header b') /\
  (CheckBlock (B := ZBN) (K := ToyCrypto) 1400000000 b true true new_state).1 = true /\
  (CheckBlock (B := ZBN) (K := ToyCrypto) 1400000000 b' true true new_state).1 = false.
Proof. vm_compute. split_and!; reflexivity. Qed.
