(* ===== verification/BlockFile.v ===== *)
(** * Block and undo files (main.h, main.cpp)

    The files blk?????.dat and rev?????.dat as byte lists, the allocation of positions in them
    ([FindBlockPos], [FindUndoPos]) and reading and writing blocks and undo data.  An input or output
    operation that can fail takes the next entry of the script [faults]: [false] is a failure; a failed write leaves
    the file as it was.  A file that cannot be opened for update is created anew, which empties it when it is there: whether the first of the two attempts
    fails although the file is there is told by a script of its own, [reopens].  The records of the block tree database that these functions use are fields of the storage. *)

From stdpp Require Import gmap.
From S2P Require Import Prelude OpenSSL BigNum Target Serialize Crypto Script Transaction Coins Merkle Block.
Local Open Scope Z_scope.

Definition MAX_BLOCKFILE_SIZE : Z := 0x8000000.
Definition BLOCKFILE_CHUNK_SIZE : Z := 0x1000000.
Definition UNDOFILE_CHUNK_SIZE : Z := 0x100000.
Definition nMinDiskSpace : Z := 52428800.

(** ** Positions *)

Record CDiskBlockPos := { d_nFile : Z; d_nPos : Z }.
Definition null_pos : CDiskBlockPos := {| d_nFile := -1; d_nPos := 0 |}.
Definition pos_IsNull (p : CDiskBlockPos) : bool := d_nFile p =? -1.
#[export] Instance CDiskBlockPos_eq_dec : EqDecision CDiskBlockPos.
Proof. solve_decision. Defined.
Definition ser_CDiskBlockPos : codec CDiskBlockPos :=
  ser_iso (ser_pair ser_varint_int (ser_varint 32)) (fun p => (d_nFile p, d_nPos p)) (fun '(f, n) => {| d_nFile := f; d_nPos := n |}).
Record CDiskTxPos := { t_pos : CDiskBlockPos; t_nTxOffset : Z }.
Definition ser_CDiskTxPos : codec CDiskTxPos :=
  ser_iso (ser_pair ser_CDiskBlockPos (ser_varint 32)) (fun p => (t_pos p, t_nTxOffset p)) (fun '(d, o) => {| t_pos := d; t_nTxOffset := o |}).
Definition ser_CBlockFileInfo : codec CBlockFileInfo :=
  ser_iso (ser_pair (ser_tuple3 (ser_varint 32) (ser_varint 32) (ser_varint 32))
                    (ser_tuple4 (ser_varint 32) (ser_varint 32) (ser_varint 64) (ser_varint 64)))
    (fun f => ((f_nBlocks f, f_nSize f, f_nUndoSize f), (f_nHeightFirst f, f_nHeightLast f, f_nTimeFirst f, f_nTimeLast f)))
    (fun '((b, s, u), (h1, h2, t1, t2)) =>
       {| f_nBlocks := b; f_nSize := s; f_nUndoSize := u; f_nHeightFirst := h1; f_nHeightLast := h2; f_nTimeFirst := t1; f_nTimeLast := t2 |}).

(** ** Storage *)

Record storage := {
  blk_files : gmap Z bytes;
  rev_files : gmap Z bytes;
  t_fileinfo : gmap Z CBlockFileInfo;  (** the database's record of each file *)
  t_lastfile : option Z;
  nLastBlockFile : Z;
  infoLastBlockFile : CBlockFileInfo;
  free_space : Z;
  faults : list bool;    (** outcomes of the operations of the system; past the end they succeed *)
  reopens : list bool;   (** whether a file that is there, but could not be opened for update, could be created anew; past the end it could not *)
}.

Definition set_faults (s : storage) (l : list bool) : storage :=
  {| blk_files := blk_files s; rev_files := rev_files s; t_fileinfo := t_fileinfo s; t_lastfile := t_lastfile s;
     nLastBlockFile := nLastBlockFile s; infoLastBlockFile := infoLastBlockFile s; free_space := free_space s; faults := l; reopens := reopens s |}.
Definition set_reopens (s : storage) (l : list bool) : storage :=
  {| blk_files := blk_files s; rev_files := rev_files s; t_fileinfo := t_fileinfo s; t_lastfile := t_lastfile s;
     nLastBlockFile := nLastBlockFile s; infoLastBlockFile := infoLastBlockFile s; free_space := free_space s; faults := faults s; reopens := l |}.
Definition set_last (s : storage) (n : Z) (info : CBlockFileInfo) : storage :=
  {| blk_files := blk_files s; rev_files := rev_files s; t_fileinfo := t_fileinfo s; t_lastfile := t_lastfile s;
     nLastBlockFile := n; infoLastBlockFile := info; free_space := free_space s; faults := faults s; reopens := reopens s |}.
Definition set_db (s : storage) (infos : gmap Z CBlockFileInfo) (l : option Z) : storage :=
  {| blk_files := blk_files s; rev_files := rev_files s; t_fileinfo := infos; t_lastfile := l;
     nLastBlockFile := nLastBlockFile s; infoLastBlockFile := infoLastBlockFile s; free_space := free_space s; faults := faults s; reopens := reopens s |}.
(** the files of one prefix: [blk] or [rev] *)
Inductive prefix := Blk | Rev.
Definition files (x : prefix) (s : storage) : gmap Z bytes := match x with Blk => blk_files s | Rev => rev_files s end.
Definition set_files (x : prefix) (s : storage) (m : gmap Z bytes) : storage :=
  {| blk_files := match x with Blk => m | Rev => blk_files s end; rev_files := match x with Rev => m | Blk => rev_files s end;
     t_fileinfo := t_fileinfo s; t_lastfile := t_lastfile s; nLastBlockFile := nLastBlockFile s;
     infoLastBlockFile := infoLastBlockFile s; free_space := free_space s; faults := faults s; reopens := reopens s |}.

(** the outcome of the next operation of the system *)
Definition io (s : storage) : bool * storage :=
  match faults s with [] => (true, s) | ok :: r => (ok, set_faults s r) end.
(** and that of creating anew a file that is there *)
Definition reopen (s : storage) : bool * storage :=
  match reopens s with [] => (false, s) | ok :: r => (ok, set_reopens s r) end.

Definition put_info (s : storage) (n : Z) (info : CBlockFileInfo) : bool * storage :=
  let '(ok, s) := io s in if ok then (true, set_db s (<[n := info]> (t_fileinfo s)) (t_lastfile s)) else (false, s).

(** ** Files *)

Definition zeros (n : Z) : bytes := replicate (Z.to_nat n) 0.
(** bytes written at an offset, past the end after a hole of zeros *)
Definition write_at (f : bytes) (pos : Z) (data : bytes) : bytes :=
  take (Z.to_nat pos) f ++ zeros (pos - Z.of_nat (length f)) ++ data ++ drop (Z.to_nat pos + length data) f.
Definition TruncateFile (f : bytes) (length_ : Z) : bytes :=
  take (Z.to_nat length_) f ++ zeros (length_ - Z.of_nat (length f)).
Definition AllocateFileRange (f : bytes) (offset length_ : Z) : bytes :=
  f ++ zeros (offset + length_ - Z.of_nat (length f)).

(** whether the file could be opened at the position: for update ("rb+") if it is there; otherwise, unless it is only to be
    read, it is created ("wb+"), which empties a file that is there but could not be opened for update *)
Definition OpenDiskFile (x : prefix) (pos : CDiskBlockPos) (fReadOnly : bool) (s : storage) : bool * storage :=
  let create s := (true, set_files x s (<[d_nFile pos := []]> (files x s))) in
  if pos_IsNull pos then (false, s)
  else
    let '(ok, s) := io s in
    match files x s !! d_nFile pos with
    | Some _ =>
      if ok then (true, s)
      else if fReadOnly then (false, s)
      else let '(created, s) := reopen s in if created then create s else (false, s)
    | None => if fReadOnly || negb ok then (false, s) else create s
    end.
Definition file_at (x : prefix) (n : Z) (s : storage) : bytes := default [] (files x s !! n).
Definition set_file (x : prefix) (n : Z) (f : bytes) (s : storage) : storage := set_files x s (<[n := f]> (files x s)).

Definition CheckDiskSpace (nAdditionalBytes : Z) (s : storage) : bool :=
  negb (free_space s <? u64 (nMinDiskSpace + nAdditionalBytes)).

Definition flush_one (x : prefix) (fFinalize : bool) (n size : Z) (s : storage) : storage :=
  let '(ok, s) := OpenDiskFile x {| d_nFile := n; d_nPos := 0 |} false s in
  if ok && fFinalize then set_file x n (TruncateFile (file_at x n s) size) s else s.
Definition FlushBlockFile (fFinalize : bool) (s : storage) : storage :=
  let n := nLastBlockFile s in
  let s := flush_one Blk fFinalize n (f_nSize (infoLastBlockFile s)) s in
  flush_one Rev fFinalize n (f_nUndoSize (infoLastBlockFile s)) s.

(** ** Positions for new data *)

Definition add_size (f : CBlockFileInfo) (nAddSize : Z) : CBlockFileInfo :=
  {| f_nBlocks := f_nBlocks f; f_nSize := u32 (f_nSize f + nAddSize); f_nUndoSize := f_nUndoSize f;
     f_nHeightFirst := f_nHeightFirst f; f_nHeightLast := f_nHeightLast f; f_nTimeFirst := f_nTimeFirst f; f_nTimeLast := f_nTimeLast f |}.
Definition add_undo_size (f : CBlockFileInfo) (nAddSize : Z) : CBlockFileInfo :=
  {| f_nBlocks := f_nBlocks f; f_nSize := f_nSize f; f_nUndoSize := u32 (f_nUndoSize f + nAddSize);
     f_nHeightFirst := f_nHeightFirst f; f_nHeightLast := f_nHeightLast f; f_nTimeFirst := f_nTimeFirst f; f_nTimeLast := f_nTimeLast f |}.

(** the next file with room; [None]: the fuel ran out *)
Fixpoint next_file (fuel : nat) (nAddSize : Z) (fUpdatedLast : bool) (s : storage) : option (bool * storage) :=
  if MAX_BLOCKFILE_SIZE <=? u32 (f_nSize (infoLastBlockFile s) + nAddSize) then
    match fuel with
    | O => None
    | S f =>
      let s := FlushBlockFile true s in
      let n := nLastBlockFile s + 1 in
      next_file f nAddSize true (set_last s n (default null_file_info (t_fileinfo s !! n)))
    end
  else Some (fUpdatedLast, s).

(** room for the chunks a file grows into; whether there is space *)
Definition preallocate (x : prefix) (chunk : Z) (pos : CDiskBlockPos) (newsize : Z) (s : storage) : bool * storage :=
  let nOldChunks := u32 (d_nPos pos + chunk - 1) / chunk in
  let nNewChunks := u32 (newsize + chunk - 1) / chunk in
  if nOldChunks <? nNewChunks then
    if CheckDiskSpace (u32 (u32 (nNewChunks * chunk) - d_nPos pos)) s then
      let '(ok, s) := OpenDiskFile x pos false s in
      if ok then (true, set_file x (d_nFile pos) (AllocateFileRange (file_at x (d_nFile pos) s) (d_nPos pos) (u32 (u32 (nNewChunks * chunk) - d_nPos pos))) s)
      else (true, s)
    else (false, s)
  else (true, s).

(** an upper bound on the files to skip: those the database knows *)
Definition skip_fuel (s : storage) : nat := S (size (t_fileinfo s)).

(** [None]: the fuel ran out; the position asked for when [fKnown] *)
Definition FindBlockPos (state : CValidationState) (pos : CDiskBlockPos) (nAddSize nHeight nTime : Z) (fKnown : bool) (s : storage)
    : option (bool * CDiskBlockPos * CValidationState * storage) :=
  let? (fUpdatedLast, pos, s) :=
    (if fKnown then
       if negb (nLastBlockFile s =? d_nFile pos)
       then Some (true, pos, set_last s (d_nFile pos) (default null_file_info (t_fileinfo s !! d_nFile pos)))
       else Some (false, pos, s)
     else
       let? (fUpdatedLast, s) := next_file (skip_fuel s) nAddSize false s in
       Some (fUpdatedLast, {| d_nFile := nLastBlockFile s; d_nPos := f_nSize (infoLastBlockFile s) |}, s)) in
  let s := set_last s (nLastBlockFile s) (AddBlock (add_size (infoLastBlockFile s) nAddSize) nHeight nTime) in
  let '(ok, s) := if fKnown then (true, s) else preallocate Blk BLOCKFILE_CHUNK_SIZE pos (f_nSize (infoLastBlockFile s)) s in
  if negb ok then let '(r, state) := state_Error state in Some (r, pos, state, s)
  else
    let '(ok, s) := put_info s (nLastBlockFile s) (infoLastBlockFile s) in
    if negb ok then let '(r, state) := state_Error state in Some (r, pos, state, s)
    else
      let s := if fUpdatedLast then
                 let '(ok, s) := io s in if ok then set_db s (t_fileinfo s) (Some (nLastBlockFile s)) else s
               else s in
      Some (true, pos, state, s).

Definition FindUndoPos (state : CValidationState) (nFile nAddSize : Z) (s : storage)
    : bool * CDiskBlockPos * CValidationState * storage :=
  let fail pos s := let '(r, state) := state_Error state in (r, pos, state, s) in
  let finish pos nNewSize s :=
    let '(ok, s) := preallocate Rev UNDOFILE_CHUNK_SIZE pos nNewSize s in
    if ok then (true, pos, state, s) else fail pos s in
  if nFile =? nLastBlockFile s then
    let pos := {| d_nFile := nFile; d_nPos := f_nUndoSize (infoLastBlockFile s) |} in
    let info := add_undo_size (infoLastBlockFile s) nAddSize in
    let s := set_last s nFile info in
    let '(ok, s) := put_info s (nLastBlockFile s) info in
    if ok then finish pos (f_nUndoSize info) s else fail pos s
  else
    match t_fileinfo s !! nFile with
    | None => fail {| d_nFile := nFile; d_nPos := 0 |} s
    | Some info =>
      let pos := {| d_nFile := nFile; d_nPos := f_nUndoSize info |} in
      let info := add_undo_size info nAddSize in
      let '(ok, s) := put_info s nFile info in
      if ok then finish pos (f_nUndoSize info) s else fail pos s
    end.

(** ** Reading and writing *)

Section Files.
Context {B : OpenSSLBN} {K : Crypto} (pchMessageStart : bytes).

(** what [fileout <<] does at the current offset: [None] is the exception of a failed write *)
Definition append_at (x : prefix) (n pos : Z) (data : bytes) (s : storage) : option storage * storage :=
  let '(ok, s) := io s in
  if ok then (Some (set_file x n (write_at (file_at x n s) pos data) s), s) else (None, s).

Inductive io_result := IoDone (pos : CDiskBlockPos) | IoError | IoThrow.

Definition block_WriteToDisk (b : CBlock) (pos : CDiskBlockPos) (s : storage) : io_result * storage :=
  let '(ok, s) := OpenDiskFile Blk pos false s in
  if negb ok then (IoError, s)
  else
    let nSize := GetSerializeSize ser_CBlock b in
    match append_at Blk (d_nFile pos) (d_nPos pos) (pchMessageStart ++ le_bytes 4 nSize) s with
    | (None, s) => (IoThrow, s)
    | (Some s, _) =>
      let fileOutPos := u32 (d_nPos pos + 8) in
      match append_at Blk (d_nFile pos) fileOutPos (Serialize ser_CBlock b) s with
      | (None, s) => (IoThrow, s)
      | (Some s, _) => (IoDone {| d_nFile := d_nFile pos; d_nPos := fileOutPos |}, s)
      end
    end.

(** [None]: the file cannot be opened or the data does not parse *)
Definition block_ReadFromDisk (pos : CDiskBlockPos) (s : storage) : option CBlock * storage :=
  let '(ok, s) := OpenDiskFile Blk pos true s in
  if negb ok then (None, s)
  else (fst <$> Unserialize ser_CBlock (drop (Z.to_nat (d_nPos pos)) (file_at Blk (d_nFile pos) s)), s).

(** the block an index points to must have the hash of the index *)
Definition ReadFromDisk_index (hash : Z) (pos : CDiskBlockPos) (s : storage) : option CBlock * storage :=
  let '(r, s) := block_ReadFromDisk pos s in
  (match r with Some b => if block_GetHash b =? hash then Some b else None | None => None end, s).

Definition undo_checksum (hashBlock : Z) (u : CBlockUndo) : Z := Hash (uint256_bytes hashBlock ++ Serialize ser_CBlockUndo u).

Definition undo_WriteToDisk (u : CBlockUndo) (pos : CDiskBlockPos) (hashBlock : Z) (s : storage) : io_result * storage :=
  let '(ok, s) := OpenDiskFile Rev pos false s in
  if negb ok then (IoError, s)
  else
    let nSize := GetSerializeSize ser_CBlockUndo u in
    match append_at Rev (d_nFile pos) (d_nPos pos) (pchMessageStart ++ le_bytes 4 nSize) s with
    | (None, s) => (IoThrow, s)
    | (Some s, _) =>
      let fileOutPos := u32 (d_nPos pos + 8) in
      match append_at Rev (d_nFile pos) fileOutPos (Serialize ser_CBlockUndo u ++ uint256_bytes (undo_checksum hashBlock u)) s with
      | (None, s) => (IoThrow, s)
      | (Some s, _) => (IoDone {| d_nFile := d_nFile pos; d_nPos := fileOutPos |}, s)
      end
    end.

Definition undo_ReadFromDisk (pos : CDiskBlockPos) (hashBlock : Z) (s : storage) : option CBlockUndo * storage :=
  let '(ok, s) := OpenDiskFile Rev pos true s in
  if negb ok then (None, s)
  else
    (let? (u, r) := Unserialize ser_CBlockUndo (drop (Z.to_nat (d_nPos pos)) (file_at Rev (d_nFile pos) s)) in
     let? (hashChecksum, r) := Unserialize (ser_uint 32) r in
     if hashChecksum =? undo_checksum hashBlock u then Some u else None, s).

(** storing a new block, as [AcceptBlock] does; [None]: the fuel ran out *)
Definition store_block (b : CBlock) (nHeight : Z) (state : CValidationState) (s : storage)
    : option (io_result * CValidationState * storage) :=
  let? (ok, pos, state, s) :=
    FindBlockPos state null_pos (u32 (GetSerializeSize ser_CBlock b + 8)) nHeight (h_nTime (blk_header b)) false s in
  if ok : bool then let '(r, s) := block_WriteToDisk b pos s in Some (r, state, s) else Some (IoError, state, s).

(** storing undo data, as [ConnectBlock] does *)
Definition store_undo (u : CBlockUndo) (nFile hashPrev : Z) (state : CValidationState) (s : storage)
    : io_result * CValidationState * storage :=
  let '(ok, pos, state, s) := FindUndoPos state nFile (u32 (GetSerializeSize ser_CBlockUndo u + 40)) s in
  if ok : bool then let '(r, s) := undo_WriteToDisk u pos hashPrev s in (r, state, s) else (IoError, state, s).
End Files.

(** ** The allocated part of the files only grows *)

Definition dbinfo (s : storage) (n : Z) : CBlockFileInfo := default null_file_info (t_fileinfo s !! n).
Definition size_in (x : prefix) (f : CBlockFileInfo) : Z := match x with Blk => f_nSize f | Rev => f_nUndoSize f end.

Definition grows (s s' : storage) : Prop := forall x n,
  (is_Some (files x s !! n) -> is_Some (files x s' !! n)) /\ size_in x (dbinfo s n) <= size_in x (dbinfo s' n) /\
  forall i b, Z.of_nat i < size_in x (dbinfo s n) -> file_at x n s !! i = Some b -> file_at x n s' !! i = Some b.

#[export] Instance grows_preorder : PreOrder grows.
Proof.
  split; [intros s x n; split_and!; auto; lia|].
  intros s1 s2 s3 H1 H2 x n. destruct (H1 x n) as (A1 & B1 & C1), (H2 x n) as (A2 & B2 & C2).
  split_and!; [auto|lia|]. intros i b Hi Hb. apply C2; [lia|]. by apply C1.
Qed.

(** a file that cannot be opened for update cannot be created anew either *)
Definition steady (s : storage) : Prop := Forall (fun created => created = false) (reopens s).

(** the recorded sizes fit, the record of the last file is in the database, and no file is emptied *)
Definition storage_inv (s : storage) : Prop :=
  (forall x, size_in x (dbinfo s (nLastBlockFile s)) = size_in x (infoLastBlockFile s)) /\
  (forall n, 0 <= f_nSize (dbinfo s n) <= MAX_BLOCKFILE_SIZE) /\ (forall n, 0 <= f_nUndoSize (dbinfo s n) < 2 ^ 32) /\ steady s.

(** operations on files that leave the records alone, and empty no file *)
Definition same_records (s s' : storage) : Prop :=
  t_fileinfo s' = t_fileinfo s /\ nLastBlockFile s' = nLastBlockFile s /\ infoLastBlockFile s' = infoLastBlockFile s /\
  (steady s -> steady s').

#[export] Instance same_records_preorder : PreOrder same_records.
Proof.
  split; [by intros s; split_and!|]. intros s1 s2 s3 (? & ? & ? & ?) (? & ? & ? & ?). unfold same_records. split_and!; [congruence..|auto].
Qed.

Lemma same_records_inv s s' : same_records s s' -> storage_inv s -> storage_inv s'.
Proof.
  intros (H1 & H2 & H3 & H4) (I1 & I2 & I3 & I4). unfold storage_inv, dbinfo in *. rewrite H1, H2, H3. split_and!; auto.
Qed.

Lemma files_set_files x y m s : files y (set_files x s m) = match x, y with Blk, Blk | Rev, Rev => m | _, _ => files y s end.
Proof. by destruct x, y. Qed.

Lemma file_at_set_file x y n k f s : file_at y k (set_file x n f s) =
  match x, y with Blk, Blk | Rev, Rev => if bool_decide (k = n) then f else file_at y k s | _, _ => file_at y k s end.
Proof.
  unfold file_at, set_file. rewrite files_set_files. destruct x, y; try done;
    (case_bool_decide as Hk; [subst; by rewrite lookup_insert_eq|by rewrite lookup_insert_ne]).
Qed.

Lemma set_file_exists x y n k f s : is_Some (files y s !! k) -> is_Some (files y (set_file x n f s) !! k).
Proof.
  unfold set_file. rewrite files_set_files. destruct x, y; try done;
    (destruct (decide (k = n)) as [->|Hk]; [rewrite lookup_insert_eq; eauto|by rewrite lookup_insert_ne]).
Qed.

(** a file whose allocated part is kept *)
Lemma set_file_grows x n f s : (forall i b, Z.of_nat i < size_in x (dbinfo s n) -> file_at x n s !! i = Some b -> f !! i = Some b) ->
  grows s (set_file x n f s) /\ same_records s (set_file x n f s).
Proof.
  intros H. split; [|by destruct x]. intros y k. split_and!; [apply set_file_exists|by destruct x|].
  intros i b Hi Hb. rewrite file_at_set_file. destruct x, y; try done; (case_bool_decide as Hk; [subst; by apply H|done]).
Qed.

Lemma io_grows s : let '(_, s') := io s in grows s s' /\ same_records s s'.
Proof. unfold io. destruct (faults s); by split. Qed.

(** while nothing is emptied, a file that is opened keeps what it holds, and reading creates nothing *)
Lemma reopen_steady s : steady s -> let '(created, s') := reopen s in created = false /\ grows s s' /\ same_records s s'.
Proof.
  unfold reopen, steady. destruct (reopens s) as [|c r] eqn:Er; intros H; [by split_and!|]. apply Forall_cons in H as [-> H].
  by split_and!.
Qed.

Lemma OpenDiskFile_grows x pos ro s : steady s \/ ro = true -> let '(ok, s') := OpenDiskFile x pos ro s in grows s s' /\ same_records s s' /\
  (ok = true -> is_Some (files x s' !! d_nFile pos)).
Proof.
  intros Hro. unfold OpenDiskFile. case_if; [by split_and!|]. pose proof (io_grows s) as Hi. destruct (io s) as [ok s1].
  destruct Hi as [Hg Hr]. destruct (files x s1 !! d_nFile pos) as [f|] eqn:Ef.
  - destruct ok; [by split_and!|]. destruct ro; [by split_and!|]. destruct Hro as [Hs|]; [|done].
    pose proof (reopen_steady s1 (proj2 (proj2 (proj2 Hr)) Hs)) as H1. destruct (reopen s1) as [c s2]. destruct H1 as (-> & G & Rr).
    split_and!; [by rewrite Hg|by etrans|done].
  - destruct (ro || negb ok); [by split_and!|].
    change (set_files x s1 (<[d_nFile pos:=[]]> (files x s1))) with (set_file x (d_nFile pos) [] s1).
    destruct (set_file_grows x (d_nFile pos) [] s1) as [Hg2 Hr2].
    + intros i b _. unfold file_at. by rewrite Ef.
    + split_and!; [by rewrite Hg|by etrans|]. intros _. unfold set_file. rewrite files_set_files. destruct x; rewrite lookup_insert_eq; eauto.
Qed.

Lemma lookup_write_at f pos data i : 0 <= pos ->
  write_at f pos data !! i =
    if bool_decide (Z.of_nat i < pos) then (if bool_decide (i < length f)%nat then f !! i else Some 0)
    else if bool_decide (Z.of_nat i < pos + Z.of_nat (length data)) then data !! (i - Z.to_nat pos)%nat else f !! i.
Proof.
  intros Hp. unfold write_at, zeros. case_bool_decide as H1.
  - case_bool_decide as H2.
    + rewrite lookup_app_l by (rewrite length_take; lia). by rewrite lookup_take_lt by lia.
    + rewrite lookup_app_r, length_take by (rewrite length_take; lia). rewrite lookup_app_l by (rewrite length_replicate; lia).
      by rewrite lookup_replicate_2 by lia.
  - assert (Hl : length (take (Z.to_nat pos) f ++ replicate (Z.to_nat (pos - Z.of_nat (length f))) 0) = Z.to_nat pos).
    { rewrite length_app, length_take, length_replicate. lia. }
    rewrite app_assoc, lookup_app_r, Hl by lia. case_bool_decide as H2.
    + by rewrite lookup_app_l by lia.
    + rewrite lookup_app_r, lookup_drop by lia. f_equal. lia.
Qed.

Lemma write_at_kept f pos data i b : 0 <= pos -> Z.of_nat i < pos -> f !! i = Some b -> write_at f pos data !! i = Some b.
Proof.
  intros Hp Hi Hb. rewrite lookup_write_at by done. rewrite !bool_decide_eq_true_2; [done| |lia]. by eapply lookup_lt_Some.
Qed.

Lemma TruncateFile_kept f n i b : Z.of_nat i < n -> f !! i = Some b -> TruncateFile f n !! i = Some b.
Proof.
  intros Hi Hb. unfold TruncateFile. apply lookup_lt_Some in Hb as Hl. rewrite lookup_app_l by (rewrite length_take; lia).
  by rewrite lookup_take_lt by lia.
Qed.

Lemma flush_one_grows x fin n size s : steady s -> size_in x (dbinfo s n) = size ->
  grows s (flush_one x fin n size s) /\ same_records s (flush_one x fin n size s).
Proof.
  intros Hst Hs. unfold flush_one. pose proof (OpenDiskFile_grows x {| d_nFile := n; d_nPos := 0 |} false s (or_introl Hst)) as Ho.
  destruct (OpenDiskFile _ _ _ _) as [ok s1]. destruct Ho as (Hg & Hr & _). case_if; [|by split].
  destruct (set_file_grows x n (TruncateFile (file_at x n s1) size) s1) as [Hg2 Hr2].
  - intros i b Hi Hb. apply TruncateFile_kept; [|done]. unfold dbinfo in *. destruct Hr as (Hr & _). rewrite Hr in Hi. lia.
  - split; by etrans.
Qed.

Lemma FlushBlockFile_grows fin s : storage_inv s -> grows s (FlushBlockFile fin s) /\ same_records s (FlushBlockFile fin s).
Proof.
  intros Hi. unfold FlushBlockFile. destruct (flush_one_grows Blk fin (nLastBlockFile s) (f_nSize (infoLastBlockFile s)) s) as [Hg Hr].
  { apply Hi. }
  { apply (proj1 Hi Blk). }
  set (s1 := flush_one Blk _ _ _ s) in *. pose proof Hr as (Hr1 & Hr2 & Hr3 & Hr4). rewrite Hr3.
  destruct (flush_one_grows Rev fin (nLastBlockFile s) (f_nUndoSize (infoLastBlockFile s)) s1) as [Hg2 Hr'].
  { apply Hr4, Hi. }
  { unfold dbinfo. rewrite Hr1. apply (proj1 Hi Rev). }
  split; etrans; eassumption.
Qed.

Lemma preallocate_grows x chunk pos ns s : steady s -> let '(_, s') := preallocate x chunk pos ns s in grows s s' /\ same_records s s'.
Proof.
  intros Hst. unfold preallocate. cbv zeta. case_if; [|by split]. case_if; [|by split].
  pose proof (OpenDiskFile_grows x pos false s (or_introl Hst)) as Ho. destruct (OpenDiskFile _ _ _ _) as [ok s1]. destruct Ho as (Hg & Hr & _).
  destruct ok; [|by split]. edestruct (set_file_grows x (d_nFile pos)) as [Hg2 Hr2].
  2:{ split; [etrans; [exact Hg|exact Hg2]|etrans; [exact Hr|exact Hr2]]. }
  intros i b _ Hb. unfold AllocateFileRange. by apply lookup_app_l_Some.
Qed.

(** ** Choosing a file *)

Lemma set_last_grows s n info : grows s (set_last s n info).
Proof. intros x k. split_and!; [by destruct x|by destruct x|]. intros i b _ H. by destruct x. Qed.

(** the files the database knows beyond the last one *)
Definition later_files (s : storage) : gset Z := filter (fun k => nLastBlockFile s < k) (dom (t_fileinfo s)).

Lemma later_files_next s info : is_Some (t_fileinfo s !! (nLastBlockFile s + 1)) ->
  (size (later_files (set_last s (nLastBlockFile s + 1) info)) < size (later_files s))%nat.
Proof.
  intros H. apply subset_size. split.
  - intros k. unfold later_files. rewrite !elem_of_filter. cbn. intros [? ?]. split; [lia|done].
  - intros Hsub. specialize (Hsub (nLastBlockFile s + 1)). unfold later_files in Hsub. rewrite !elem_of_filter in Hsub. cbn in Hsub.
    rewrite elem_of_dom in Hsub. destruct Hsub as [Hlt _]; [split; [lia|done]|lia].
Qed.

Lemma next_file_spec fuel nAdd u s : storage_inv s -> 0 <= nAdd < MAX_BLOCKFILE_SIZE -> (size (later_files s) < fuel)%nat ->
  exists u' s', next_file fuel nAdd u s = Some (u', s') /\ grows s s' /\ storage_inv s' /\ t_fileinfo s' = t_fileinfo s /\
    nLastBlockFile s <= nLastBlockFile s' /\ 0 <= f_nSize (infoLastBlockFile s') /\
    f_nSize (infoLastBlockFile s') + nAdd < MAX_BLOCKFILE_SIZE.
Proof.
  unfold MAX_BLOCKFILE_SIZE. revert u s. induction fuel as [|f IH]; intros u s Hi Ha Hf; [lia|].
  assert (Hsz : 0 <= f_nSize (infoLastBlockFile s) <= 0x8000000).
  { destruct Hi as (Hl & Hs & _ & _). specialize (Hs (nLastBlockFile s)). pose proof (Hl Blk) as Hb. cbn in Hb. rewrite Hb in Hs. exact Hs. }
  cbn [next_file]. unfold MAX_BLOCKFILE_SIZE. rewrite u32_small by lia. case_if; b2p.
  2:{ exists u, s. split_and!; done || lia. }
  destruct (FlushBlockFile_grows true s Hi) as [Hg Hr]. set (s1 := FlushBlockFile true s) in *. pose proof Hr as (Hr1 & Hr2 & Hr3 & _).
  set (s2 := set_last s1 (nLastBlockFile s1 + 1) (default null_file_info (t_fileinfo s1 !! (nLastBlockFile s1 + 1)))).
  assert (Hg2 : grows s s2) by (etrans; [exact Hg|apply set_last_grows]).
  assert (Hi2 : storage_inv s2).
  { pose proof (same_records_inv _ _ Hr Hi) as (_ & H2 & H3 & H4). split_and!; [|exact H2|exact H3|exact H4]. intros x. done. }
  destruct (t_fileinfo s1 !! (nLastBlockFile s1 + 1)) as [info|] eqn:Ei.
  - destruct (IH true s2 Hi2 Ha) as (u' & s' & H1 & H2 & H3 & H4 & H5 & H6).
    + pose proof (later_files_next s1 (default null_file_info (Some info)) ltac:(by rewrite Ei)) as Hlt.
      assert (Hsame : later_files s1 = later_files s) by (unfold later_files; by rewrite Hr1, Hr2).
      rewrite Hsame in Hlt. subst s2. cbn [default] in Hlt |- *. lia.
    + exists u', s'. split_and!; try done; try lia; [by etrans|by rewrite H4|subst s2; cbn in H5; lia].
  - exists true, s2. subst s2. cbn [default] in *. split_and!; try done; cbn; try lia.
    destruct f as [|f']; cbn [next_file]; cbn [infoLastBlockFile set_last f_nSize null_file_info];
      unfold MAX_BLOCKFILE_SIZE; rewrite Z.add_0_l, u32_small, (proj2 (Z.leb_gt _ _)) by lia; done.
Qed.

Lemma later_files_fuel s : (size (later_files s) < skip_fuel s)%nat.
Proof.
  unfold skip_fuel, later_files. rewrite <- size_dom. apply Nat.lt_succ_r, subseteq_size. intros k [_ Hk]%elem_of_filter. exact Hk.
Qed.

Lemma AddBlock_sizes x f h t : size_in x (AddBlock f h t) = size_in x f.
Proof. by destruct x. Qed.

Lemma put_info_spec s n info : let '(ok, s') := put_info s n info in
  files Blk s' = files Blk s /\ files Rev s' = files Rev s /\ nLastBlockFile s' = nLastBlockFile s /\
  infoLastBlockFile s' = infoLastBlockFile s /\ reopens s' = reopens s /\ t_fileinfo s' = if ok then <[n := info]> (t_fileinfo s) else t_fileinfo s.
Proof. unfold put_info, io. destruct (faults s) as [|[] r]; done. Qed.

Lemma dbinfo_insert s s' n info k : t_fileinfo s' = <[n := info]> (t_fileinfo s) ->
  dbinfo s' k = if bool_decide (k = n) then info else dbinfo s k.
Proof.
  intros H. unfold dbinfo. rewrite H. case_bool_decide as Hk; [subst; by rewrite lookup_insert_eq|by rewrite lookup_insert_ne].
Qed.

(** a record of larger sizes *)
Lemma put_grows s s' n info : files Blk s' = files Blk s -> files Rev s' = files Rev s -> t_fileinfo s' = <[n := info]> (t_fileinfo s) ->
  (forall x, size_in x (dbinfo s n) <= size_in x info) -> grows s s'.
Proof.
  intros H1 H2 H3 Hs x k. assert (Hf : files x s' = files x s) by by destruct x. unfold file_at. rewrite Hf, (dbinfo_insert _ _ _ _ k H3).
  split_and!; [done| |done]. case_bool_decide; [subst; apply Hs|lia].
Qed.

(** a new position: the end of the last file, which has room *)
Lemma FindBlockPos_spec state nAdd h t s : storage_inv s -> 0 <= nAdd < MAX_BLOCKFILE_SIZE ->
  exists ok pos state' s', FindBlockPos state null_pos nAdd h t false s = Some (ok, pos, state', s') /\
    (ok = false -> state_IsError state' = true) /\
    (ok = true -> state' = state /\ grows s s' /\ storage_inv s' /\ d_nFile pos = nLastBlockFile s' /\
       nLastBlockFile s <= nLastBlockFile s' /\ 0 <= d_nPos pos /\ size_in Blk (dbinfo s (d_nFile pos)) = d_nPos pos /\
       size_in Blk (dbinfo s' (d_nFile pos)) = d_nPos pos + nAdd).
Proof.
  intros Hi Ha. unfold FindBlockPos. destruct (next_file_spec (skip_fuel s) nAdd false s Hi Ha (later_files_fuel s))
    as (u & s1 & -> & Hg1 & Hi1 & Hd1 & Hl1 & Hz1 & Hm1). cbn [negb].
  set (n := nLastBlockFile s1) in *. set (info := infoLastBlockFile s1) in *. set (pos := {| d_nFile := n; d_nPos := f_nSize info |}).
  set (info2 := AddBlock (add_size info nAdd) h t). set (s2 := set_last s1 n info2).
  change (nLastBlockFile s2) with n. change (infoLastBlockFile s2) with info2.
  pose proof (preallocate_grows Blk BLOCKFILE_CHUNK_SIZE pos (f_nSize info2) s2 (proj2 (proj2 (proj2 Hi1)))) as Hp.
  destruct (preallocate _ _ _ _ _) as [ok s3]. destruct Hp as [Hg3 Hr3]. destruct ok; cbn [negb].
  2:{ unfold state_Error. do 4 eexists. split; [done|]. by split. }
  destruct Hr3 as (R1 & R2 & R3 & R4). cbn in R2, R3. rewrite R2, R3. pose proof (put_info_spec s3 n info2) as Hq.
  destruct (put_info s3 n info2) as [ok s4]. destruct Hq as (Q1 & Q2 & Q3 & Q4 & Q6 & Q5). destruct ok; cbn [negb].
  2:{ unfold state_Error. do 4 eexists. split; [done|]. by split. }
  set (s5 := if u then _ else s4). assert (H5 : files Blk s5 = files Blk s4 /\ files Rev s5 = files Rev s4 /\ same_records s4 s5).
  { subst s5. destruct u; [|by split_and!]. unfold io. destruct (faults s4) as [|[] r]; by split_and!. }
  destruct H5 as (F1 & F2 & R5). pose proof R5 as (S1 & S2 & S3 & S4).
  assert (Hdb : forall k, dbinfo s5 k = if bool_decide (k = n) then info2 else dbinfo s k).
  { intros k. rewrite (dbinfo_insert s3 s5 n info2 k) by (rewrite S1; exact Q5). unfold dbinfo. rewrite R1. cbn. by rewrite Hd1. }
  assert (Hsz : forall x, size_in x (dbinfo s n) = size_in x info).
  { intros x. pose proof (proj1 Hi1 x) as Hx. unfold dbinfo in *. by rewrite Hd1 in Hx. }
  assert (Hadd : f_nSize info2 = f_nSize info + nAdd).
  { unfold info2. cbn. unfold MAX_BLOCKFILE_SIZE in *. apply u32_small. fold info. lia. }
  assert (Hundo : f_nUndoSize info2 = f_nUndoSize info) by done.
  exists true, pos, state, s5. split; [done|]. split; [done|]. intros _. split; [done|]. split_and!.
  - transitivity s1; [done|]. transitivity s2; [apply set_last_grows|]. transitivity s3; [done|].
    apply (put_grows s3 s5 n info2); [by rewrite F1|by rewrite F2|by rewrite S1|]. intros x.
    unfold dbinfo. rewrite R1. cbn. rewrite Hd1. fold (dbinfo s n). rewrite Hsz. destruct x; cbn [size_in]; lia.
  - destruct Hi as (_ & Hi2 & Hi3 & _). split_and!.
    + intros x. by rewrite Hdb, S2, S3, Q3, Q4, R2, R3, bool_decide_eq_true_2.
    + intros k. rewrite Hdb. case_bool_decide; [lia|apply Hi2].
    + intros k. rewrite Hdb. case_bool_decide; [|apply Hi3]. rewrite Hundo. pose proof (Hsz Rev) as Hr. cbn in Hr. rewrite <- Hr. apply Hi3.
    + apply S4. unfold steady. rewrite Q6. apply R4, Hi1.
  - cbn. by rewrite S2, Q3, R2.
  - by rewrite S2, Q3, R2.
  - cbn. lia.
  - cbn [d_nFile d_nPos pos]. by rewrite Hsz.
  - cbn [d_nFile d_nPos pos]. rewrite Hdb, bool_decide_eq_true_2 by done. exact Hadd.
Qed.

Lemma FindUndoPos_spec state nFile nAdd s : storage_inv s -> 0 <= nAdd -> f_nUndoSize (dbinfo s nFile) + nAdd < 2 ^ 32 ->
  let '(ok, pos, state', s') := FindUndoPos state nFile nAdd s in
  (ok = false -> state_IsError state' = true) /\
  (ok = true -> state' = state /\ grows s s' /\ storage_inv s' /\ d_nFile pos = nFile /\ 0 <= d_nPos pos /\
     size_in Rev (dbinfo s nFile) = d_nPos pos /\ size_in Rev (dbinfo s' nFile) = d_nPos pos + nAdd /\
     forall k, k <> nFile -> size_in Rev (dbinfo s' k) = size_in Rev (dbinfo s k)).
Proof.
  intros Hi Ha Hu. destruct Hi as (Hlast & Hblk & Hrev & Hst). pose proof (Hrev nFile) as Hn.
  assert (Hmain : forall info s1, (forall x, size_in x (dbinfo s nFile) = size_in x info) ->
    files Blk s1 = files Blk s -> files Rev s1 = files Rev s -> nLastBlockFile s1 = nLastBlockFile s ->
    infoLastBlockFile s1 = (if bool_decide (nFile = nLastBlockFile s) then add_undo_size info nAdd else infoLastBlockFile s) ->
    reopens s1 = reopens s -> t_fileinfo s1 = <[nFile := add_undo_size info nAdd]> (t_fileinfo s) ->
    let pos := {| d_nFile := nFile; d_nPos := f_nUndoSize info |} in
    let '(_, s') := preallocate Rev UNDOFILE_CHUNK_SIZE pos (f_nUndoSize (add_undo_size info nAdd)) s1 in
    grows s s' /\ storage_inv s' /\ 0 <= d_nPos pos /\ size_in Rev (dbinfo s nFile) = d_nPos pos /\
    size_in Rev (dbinfo s' nFile) = d_nPos pos + nAdd /\ forall k, k <> nFile -> size_in Rev (dbinfo s' k) = size_in Rev (dbinfo s k)).
  { intros info s1 Hsz F1 F2 Hnl Hil Hre Hdb pos. assert (Hst1 : steady s1) by (unfold steady; by rewrite Hre). pose proof (Hsz Rev) as HR. pose proof (Hsz Blk) as HB. cbn in HR, HB.
    pose proof (preallocate_grows Rev UNDOFILE_CHUNK_SIZE pos (f_nUndoSize (add_undo_size info nAdd)) s1 Hst1) as Hp.
    destruct (preallocate _ _ _ _ _) as [ok s2]. destruct Hp as (Hg & R1 & R2 & R3 & R4).
    assert (Hadd : u32 (f_nUndoSize info + nAdd) = f_nUndoSize info + nAdd) by (apply u32_small; lia).
    assert (Hd : forall k, dbinfo s2 k = if bool_decide (k = nFile) then add_undo_size info nAdd else dbinfo s k).
    { intros k. apply dbinfo_insert. by rewrite R1, Hdb. }
    split_and!.
    - transitivity s1; [|done]. apply (put_grows s s1 nFile (add_undo_size info nAdd)); try done. intros x. rewrite Hsz.
      destruct x; cbn; lia.
    - split_and!.
      + intros x. rewrite Hd, R2, R3, Hnl, Hil. destruct (decide (nFile = nLastBlockFile s)) as [Hk|Hk].
        * by rewrite !bool_decide_eq_true_2.
        * rewrite !bool_decide_eq_false_2 by congruence. apply Hlast.
      + intros k. rewrite Hd. destruct (bool_decide (k = nFile)); [|apply Hblk].
        change (0 <= f_nSize info <= MAX_BLOCKFILE_SIZE). rewrite <- HB. apply Hblk.
      + intros k. rewrite Hd. destruct (bool_decide (k = nFile)); [cbn; lia|apply Hrev].
      + auto.
    - cbn. lia.
    - done.
    - rewrite Hd, bool_decide_eq_true_2 by done. cbn. lia.
    - intros k Hk. by rewrite Hd, bool_decide_eq_false_2. }
  unfold FindUndoPos. cbv zeta. destruct (nFile =? nLastBlockFile s) eqn:En; b2p.
  - subst nFile. set (info := infoLastBlockFile s) in *. set (s0 := set_last s (nLastBlockFile s) (add_undo_size info nAdd)).
    pose proof (put_info_spec s0 (nLastBlockFile s0) (add_undo_size info nAdd)) as Hq. change (nLastBlockFile s0) with (nLastBlockFile s) in *.
    destruct (put_info s0 _ _) as [ok s1]. destruct Hq as (Q1 & Q2 & Q3 & Q4 & Q6 & Q5).
    destruct ok; [|unfold state_Error; by split].
    specialize (Hmain info s1 Hlast Q1 Q2 Q3). rewrite bool_decide_eq_true_2 in Hmain by done. specialize (Hmain Q4 Q6 Q5). cbv zeta in Hmain.
    destruct (preallocate _ _ _ _ _) as [ok s2]. destruct ok; [|unfold state_Error; by split]. split; [done|]. intros _.
    destruct Hmain as (? & ? & ? & ? & ? & ?). by split_and!.
  - destruct (t_fileinfo s !! nFile) as [info|] eqn:Ei; [|unfold state_Error; by split].
    pose proof (put_info_spec s nFile (add_undo_size info nAdd)) as Hq.
    destruct (put_info s nFile _) as [ok s1]. destruct Hq as (Q1 & Q2 & Q3 & Q4 & Q6 & Q5).
    destruct ok; [|unfold state_Error; by split].
    specialize (Hmain info s1 ltac:(intros x; unfold dbinfo; by rewrite Ei) Q1 Q2 Q3). rewrite bool_decide_eq_false_2 in Hmain by done.
    specialize (Hmain Q4 Q6 Q5). cbv zeta in Hmain.
    destruct (preallocate _ _ _ _ _) as [ok s2]. destruct ok; [|unfold state_Error; by split]. split; [done|]. intros _.
    destruct Hmain as (? & ? & ? & ? & ? & ?). by split_and!.
Qed.

(** ** Stored data stays *)

(** a file holds the data at an offset, within its recorded size *)
Definition intact (s : storage) (x : prefix) (pos : CDiskBlockPos) (d : bytes) : Prop :=
  0 <= d_nPos pos /\ pos_IsNull pos = false /\ is_Some (files x s !! d_nFile pos) /\
  d_nPos pos + Z.of_nat (length d) <= size_in x (dbinfo s (d_nFile pos)) /\
  forall j b, d !! j = Some b -> file_at x (d_nFile pos) s !! (Z.to_nat (d_nPos pos) + j)%nat = Some b.

Lemma intact_grows s s' x pos d : grows s s' -> intact s x pos d -> intact s' x pos d.
Proof.
  intros Hg (Hp & Hn & He & Hb & Hd). destruct (Hg x (d_nFile pos)) as (G1 & G2 & G3). split_and!; [done|done|by apply G1|lia|].
  intros j b Hj. apply G3; [|by apply Hd]. apply lookup_lt_Some in Hj. lia.
Qed.

Lemma intact_drop s x pos d : intact s x pos d -> exists r, drop (Z.to_nat (d_nPos pos)) (file_at x (d_nFile pos) s) = d ++ r.
Proof.
  intros (_ & _ & _ & _ & Hd). exists (drop (Z.to_nat (d_nPos pos) + length d) (file_at x (d_nFile pos) s)). apply list_eq. intros i.
  rewrite lookup_drop. destruct (decide (i < length d)%nat) as [Hi|Hi].
  - rewrite lookup_app_l by done. destruct (lookup_lt_is_Some_2 d i Hi) as [b Hb]. rewrite Hb. by apply Hd.
  - rewrite lookup_app_r, lookup_drop by lia. f_equal. lia.
Qed.

(** writing past what was allocated before *)
Lemma write_grows s0 s x n p data : grows s0 s -> size_in x (dbinfo s0 n) <= p -> 0 <= p ->
  grows s0 (set_file x n (write_at (file_at x n s) p data) s).
Proof.
  intros Hg Hp H0 y k. destruct (Hg y k) as (G1 & G2 & G3). split_and!; [|by destruct x|].
  - intros He. by apply set_file_exists, G1.
  - intros i b Hi Hb. rewrite file_at_set_file. specialize (G3 i b Hi Hb).
    destruct x, y; try exact G3; (case_bool_decide as Hk; [|exact G3]); subst k; apply write_at_kept; (done || lia).
Qed.

Lemma append_at_spec s0 s x n p data : grows s0 s -> size_in x (dbinfo s0 n) <= p -> 0 <= p ->
  let '(r, s') := append_at x n p data s in grows s0 s' /\ same_records s s' /\
  forall s2, r = Some s2 -> grows s0 s2 /\ same_records s s2 /\ is_Some (files x s2 !! n) /\ file_at x n s2 = write_at (file_at x n s) p data.
Proof.
  intros Hg Hp H0. unfold append_at. assert (Hf : let '(_, s1) := io s in files x s1 = files x s) by (unfold io; by destruct (faults s), x).
  pose proof (io_grows s) as Hi. destruct (io s) as [ok s1]. destruct Hi as [Hg1 Hr1].
  assert (Hg2 : grows s0 s1) by by etrans. destruct ok; [|by split_and!]. split_and!; [done|done|]. intros s2 [= <-]. split_and!.
  - by apply write_grows.
  - etrans; [exact Hr1|]. by destruct x.
  - unfold set_file. rewrite files_set_files. destruct x; rewrite lookup_insert_eq; eauto.
  - rewrite file_at_set_file. destruct x; rewrite bool_decide_eq_true_2 by done; unfold file_at; by rewrite Hf.
Qed.

(** a header of eight bytes, then the data *)
Lemma two_writes s0 s x pos hdr data : grows s0 s -> size_in x (dbinfo s0 (d_nFile pos)) <= d_nPos pos -> 0 <= d_nPos pos ->
  length hdr = 8%nat -> pos_IsNull pos = false ->
  d_nPos pos + 8 + Z.of_nat (length data) <= size_in x (dbinfo s (d_nFile pos)) ->
  match append_at x (d_nFile pos) (d_nPos pos) hdr s with
  | (None, s1) => grows s0 s1 /\ same_records s s1
  | (Some s1, _) =>
    match append_at x (d_nFile pos) (d_nPos pos + 8) data s1 with
    | (None, s2) => grows s0 s2 /\ same_records s s2
    | (Some s2, _) => grows s0 s2 /\ same_records s s2 /\ intact s2 x {| d_nFile := d_nFile pos; d_nPos := d_nPos pos + 8 |} data
    end
  end.
Proof.
  intros Hg Hp H0 Hh Hn Hsz. pose proof (append_at_spec s0 s x (d_nFile pos) (d_nPos pos) hdr Hg Hp H0) as H1.
  destruct (append_at _ _ _ _ s) as [[s1|] s1']; [|by destruct H1 as (? & ? & _)]. destruct H1 as (_ & _ & H1).
  destruct (H1 s1 eq_refl) as (G1 & R1 & E1 & F1).
  pose proof (append_at_spec s0 s1 x (d_nFile pos) (d_nPos pos + 8) data G1 ltac:(lia) ltac:(lia)) as H2.
  destruct (append_at _ _ _ _ s1) as [[s2|] s2'].
  - destruct H2 as (_ & _ & H2). destruct (H2 s2 eq_refl) as (G2 & R2 & E2 & F2). assert (R : same_records s s2) by by etrans.
    split_and!; [done|done|]. split_and!; cbn [d_nPos d_nFile]; [lia|exact Hn|done| |].
    + unfold dbinfo in *. destruct R as (R & _). rewrite R. lia.
    + intros j b Hj. rewrite F2, lookup_write_at by lia. rewrite bool_decide_eq_false_2 by lia. apply lookup_lt_Some in Hj as Hjl.
      rewrite bool_decide_eq_true_2 by lia. rewrite <- Hj. f_equal. lia.
  - destruct H2 as (? & ? & _). split; [done|by etrans].
Qed.

Section Storing.
Context {B : OpenSSLBN} {L : OpenSSLBNLaws B} {K : Crypto} {KL : CryptoLaws K}.
Context (pchMessageStart : bytes) (Hmagic : length pchMessageStart = 4%nat).

(** blocks and undo data that fit: what [CheckBlock] and the limits of the files ensure *)
Definition block_fits (b : CBlock) : Prop :=
  valid_block b /\ Z.of_nat (length (Serialize ser_CBlock b)) + 8 < MAX_BLOCKFILE_SIZE.
Definition undo_fits (u : CBlockUndo) (nFile : Z) (s : storage) : Prop :=
  sized (sized valid_undo) u /\
  f_nUndoSize (dbinfo s nFile) + Z.of_nat (length (Serialize ser_CBlockUndo u)) + 40 < 2 ^ 32.

Lemma store_block_spec b h st s : storage_inv s -> block_fits b -> exists r st' s',
  store_block pchMessageStart b h st s = Some (r, st', s') /\
  (state_IsError st' = true \/
   grows s s' /\ storage_inv s' /\ forall pos, r = IoDone pos -> intact s' Blk pos (Serialize ser_CBlock b)).
Proof.
  intros Hi [Hv Hl]. unfold MAX_BLOCKFILE_SIZE in Hl. unfold store_block.
  assert (Hsz : GetSerializeSize ser_CBlock b = Z.of_nat (length (Serialize ser_CBlock b))).
  { rewrite <- (ser_stored b). etrans; [apply (ser_size (c := ser_CBlock) (stored b) (valid_stored b Hv))|]. apply u32_small. rewrite ser_stored. lia. }
  rewrite Hsz, u32_small by lia.
  assert (Ha : 0 <= Z.of_nat (length (Serialize ser_CBlock b)) + 8 < MAX_BLOCKFILE_SIZE) by (unfold MAX_BLOCKFILE_SIZE; lia).
  destruct (FindBlockPos_spec st _ h (h_nTime (blk_header b)) s Hi Ha)
    as (ok & pos & st1 & s1 & -> & Hf & Ht).
  destruct ok; [|do 3 eexists; split; [done|]; left; by apply Hf]. destruct (Ht eq_refl) as (-> & Hg & Hi1 & Hn & _ & Hp & Hs0 & Hs1). clear Hf Ht.
  unfold block_WriteToDisk. pose proof (OpenDiskFile_grows Blk pos false s1 (or_introl (proj2 (proj2 (proj2 Hi1))))) as Ho.
  assert (Hnull : (OpenDiskFile Blk pos false s1).1 = true -> pos_IsNull pos = false) by (unfold OpenDiskFile; by destruct (pos_IsNull pos)).
  destruct (OpenDiskFile Blk pos false s1) as [ok s2]. destruct Ho as (Hg2 & Hr2 & _). destruct ok; cbn [negb].
  2:{ do 3 eexists. split; [done|]. right. split_and!; [by etrans|by eapply same_records_inv|done]. }
  pose proof (proj1 (proj2 Hi1) (d_nFile pos)) as Hmax. cbn [size_in] in Hs1. rewrite Hs1 in Hmax. unfold MAX_BLOCKFILE_SIZE in Hmax.
  assert (G : grows s s2) by by etrans. assert (Hd2 : dbinfo s2 (d_nFile pos) = dbinfo s1 (d_nFile pos)) by (unfold dbinfo; by rewrite (proj1 Hr2)).
  pose proof (two_writes s s2 Blk pos (pchMessageStart ++ le_bytes 4 (GetSerializeSize ser_CBlock b)) (Serialize ser_CBlock b) G ltac:(lia) Hp
    ltac:(by rewrite length_app, length_le_bytes, Hmagic) (Hnull eq_refl) ltac:(rewrite Hd2; cbn [size_in]; lia)) as H2.
  rewrite u32_small by lia. assert (Hi2 : storage_inv s2) by by eapply same_records_inv.
  destruct (append_at _ _ _ _ s2) as [[s3|] s3'].
  - destruct (append_at _ _ _ _ s3) as [[s4|] s4'].
    + destruct H2 as (G4 & R4 & E4). do 3 eexists. split; [done|]. right. split_and!; [done|by eapply same_records_inv|]. by intros p [= <-].
    + destruct H2 as (G4 & R4). do 3 eexists. split; [done|]. right. split_and!; [done|by eapply same_records_inv|done].
  - destruct H2 as (G3 & R3). do 3 eexists. split; [done|]. right. split_and!; [done|by eapply same_records_inv|done].
Qed.

Definition undo_bytes (u : CBlockUndo) (hashPrev : Z) : bytes := Serialize ser_CBlockUndo u ++ uint256_bytes (undo_checksum hashPrev u).

Lemma store_undo_spec u n hp st s : storage_inv s -> undo_fits u n s ->
  let '(r, st', s') := store_undo pchMessageStart u n hp st s in
  state_IsError st' = true \/
  grows s s' /\ storage_inv s' /\
  (forall k, size_in Rev (dbinfo s' k) <= size_in Rev (dbinfo s k) + Z.of_nat (length (Serialize ser_CBlockUndo u)) + 40) /\
  forall pos, r = IoDone pos -> d_nFile pos = n /\ intact s' Rev pos (undo_bytes u hp).
Proof.
  intros Hi [Hv Hl]. unfold store_undo. pose proof (proj1 (proj2 (proj2 Hi)) n) as Hn0.
  assert (Hsz : GetSerializeSize ser_CBlockUndo u = Z.of_nat (length (Serialize ser_CBlockUndo u))).
  { etrans; [apply (ser_size (c := ser_CBlockUndo) u Hv)|]. apply u32_small. lia. }
  assert (Hlen : length (undo_bytes u hp) = (length (Serialize ser_CBlockUndo u) + 32)%nat).
  { unfold undo_bytes, uint256_bytes. by rewrite length_app, length_le_bytes. }
  rewrite Hsz, u32_small by lia.
  assert (Ha : 0 <= Z.of_nat (length (Serialize ser_CBlockUndo u)) + 40) by lia.
  pose proof (FindUndoPos_spec st n _ s Hi Ha ltac:(lia)) as Hf.
  destruct (FindUndoPos _ _ _ _) as [[[ok pos] st1] s1]. destruct Hf as [Hf Ht].
  destruct ok; [|left; by apply Hf]. destruct (Ht eq_refl) as (-> & Hg & Hi1 & Hn & Hp & Hs0 & Hs1 & Hsk). clear Hf Ht.
  assert (Hroom : forall s', same_records s1 s' -> forall k,
    size_in Rev (dbinfo s' k) <= size_in Rev (dbinfo s k) + Z.of_nat (length (Serialize ser_CBlockUndo u)) + 40).
  { intros s' (Hr & _) k. unfold dbinfo at 1. rewrite Hr. change (size_in Rev (dbinfo s1 k) <= size_in Rev (dbinfo s k) + Z.of_nat (length (Serialize ser_CBlockUndo u)) + 40).
    destruct (decide (k = n)) as [->|Hk]; [lia|]. rewrite Hsk by done. lia. }
  unfold undo_WriteToDisk. pose proof (OpenDiskFile_grows Rev pos false s1 (or_introl (proj2 (proj2 (proj2 Hi1))))) as Ho.
  assert (Hnull : (OpenDiskFile Rev pos false s1).1 = true -> pos_IsNull pos = false) by (unfold OpenDiskFile; by destruct (pos_IsNull pos)).
  destruct (OpenDiskFile Rev pos false s1) as [ok s2]. destruct Ho as (Hg2 & Hr2 & _). destruct ok; cbn [negb].
  2:{ right. split_and!; [by etrans|by eapply same_records_inv|by apply Hroom|done]. }
  pose proof (proj1 (proj2 (proj2 Hi1)) n) as Hmax. cbn [size_in] in Hs0, Hs1. rewrite Hs1 in Hmax.
  assert (G : grows s s2) by by etrans. assert (Hd2 : dbinfo s2 n = dbinfo s1 n) by (unfold dbinfo; by rewrite (proj1 Hr2)).
  pose proof (two_writes s s2 Rev pos (pchMessageStart ++ le_bytes 4 (GetSerializeSize ser_CBlockUndo u)) (undo_bytes u hp) G
    ltac:(rewrite Hn; cbn [size_in]; lia) Hp ltac:(by rewrite length_app, length_le_bytes, Hmagic) (Hnull eq_refl)
    ltac:(rewrite Hn, Hd2; cbn [size_in]; lia)) as H2.
  rewrite u32_small by lia. assert (Hi2 : storage_inv s2) by by eapply same_records_inv. fold (undo_bytes u hp).
  destruct (append_at _ _ _ _ s2) as [[s3|] s3'].
  - destruct (append_at _ _ _ _ s3) as [[s4|] s4'].
    + destruct H2 as (G4 & R4 & E4). right. split_and!; [done|by eapply same_records_inv|apply Hroom; by etrans|]. by intros p [= <-].
    + destruct H2 as (G4 & R4). right. split_and!; [done|by eapply same_records_inv|apply Hroom; by etrans|done].
  - destruct H2 as (G3 & R3). right. split_and!; [done|by eapply same_records_inv|apply Hroom; by etrans|done].
Qed.

Lemma intact_open x pos d s : intact s x pos d -> (io s).1 = true -> exists s', OpenDiskFile x pos true s = (true, s') /\
  file_at x (d_nFile pos) s' = file_at x (d_nFile pos) s.
Proof.
  intros (_ & Hn & He & _ & _) Hio. unfold OpenDiskFile. rewrite Hn.
  assert (Hf : files x (io s).2 = files x s) by (unfold io; by destruct (faults s), x). destruct (io s) as [ok s1]. cbn in *. subst ok.
  rewrite Hf. destruct He as [f ->]. exists s1. split; [done|]. unfold file_at. by rewrite Hf.
Qed.

Lemma block_read_back s pos b : valid_block b -> intact s Blk pos (Serialize ser_CBlock b) -> (io s).1 = true ->
  (block_ReadFromDisk pos s).1 = Some (stored b).
Proof.
  intros Hv Hi Hio. destruct (intact_open _ _ _ _ Hi Hio) as (s' & Ho & Hf). unfold block_ReadFromDisk. rewrite Ho. cbn [negb fst].
  rewrite Hf. destruct (intact_drop _ _ _ _ Hi) as [r ->]. rewrite <- ser_stored.
  by rewrite (ser_roundtrip (c := ser_CBlock) (stored b) r (valid_stored b Hv)).
Qed.

Lemma undo_read_back s pos u hp : sized (sized valid_undo) u -> intact s Rev pos (undo_bytes u hp) -> (io s).1 = true ->
  (undo_ReadFromDisk pos hp s).1 = Some u.
Proof.
  intros Hv Hi Hio. destruct (intact_open _ _ _ _ Hi Hio) as (s' & Ho & Hf). unfold undo_ReadFromDisk. rewrite Ho. cbn [negb fst].
  rewrite Hf. destruct (intact_drop _ _ _ _ Hi) as [r ->]. unfold undo_bytes. rewrite <- app_assoc, ser_roundtrip by done.
  change (uint256_bytes ?h ++ r) with (Serialize (ser_uint 32) h ++ r). rewrite ser_roundtrip by apply Hash_range. by rewrite Z.eqb_refl.
Qed.
End Storing.

(** ** Properties *)

(** what was stored, and where *)
Inductive stored_data := DBlock (b : CBlock) | DUndo (u : CBlockUndo) (hashPrev : Z).

Section FileProperties.
Context {B : OpenSSLBN} {L : OpenSSLBNLaws B} {K : Crypto} {KL : CryptoLaws K}.
Context (pchMessageStart : bytes).

(** runs of the storage with a log of what was stored; a database error ends the run: the node shuts down *)
Inductive storage_step : storage * list (CDiskBlockPos * stored_data) -> storage * list (CDiskBlockPos * stored_data) -> Prop :=
| step_block b h st r st' s s' l : block_fits b -> store_block pchMessageStart b h st s = Some (r, st', s') -> state_IsError st' = false ->
    storage_step (s, l) (s', match r with IoDone pos => (pos, DBlock b) :: l | _ => l end)
| step_undo u n hp st r st' s s' l : undo_fits u n s -> store_undo pchMessageStart u n hp st s = (r, st', s') -> state_IsError st' = false ->
    storage_step (s, l) (s', match r with IoDone pos => (pos, DUndo u hp) :: l | _ => l end)
| step_flush fin s l : storage_step (s, l) (FlushBlockFile fin s, l).

Definition log_ok (s : storage) (e : CDiskBlockPos * stored_data) : Prop :=
  match e.2 with
  | DBlock b => valid_block b /\ intact s Blk e.1 (Serialize ser_CBlock b)
  | DUndo u hp => sized (sized valid_undo) u /\ intact s Rev e.1 (undo_bytes u hp)
  end.

Lemma log_ok_grows s s' l : grows s s' -> Forall (log_ok s) l -> Forall (log_ok s') l.
Proof.
  intros Hg Hl. eapply Forall_impl; [exact Hl|]. intros [pos [b|u hp]] [H1 H2]; (split; [done|]); by eapply intact_grows.
Qed.

Lemma storage_step_inv c c' : length pchMessageStart = 4%nat -> storage_step c c' ->
  storage_inv c.1 /\ Forall (log_ok c.1) c.2 -> storage_inv c'.1 /\ Forall (log_ok c'.1) c'.2.
Proof.
  intros Hmagic [b h st r st' s s' l Hb Hs Hst|u n hp st r st' s s' l Hb Hs Hst|fin s l] [Hi Hl]; cbn [fst snd] in *.
  - destruct (store_block_spec pchMessageStart Hmagic b h st s Hi Hb) as (r2 & st2 & s2 & Hs2 & H). rewrite Hs in Hs2. simplify_eq.
    destruct H as [H|(Hg & Hi' & Hp)]; [congruence|]. split; [done|]. apply (log_ok_grows _ _ _ Hg) in Hl. destruct r2 as [pos| |]; try done.
    constructor; [|done]. split; [apply Hb|by apply Hp].
  - pose proof (store_undo_spec pchMessageStart Hmagic u n hp st s Hi Hb) as H. rewrite Hs in H.
    destruct H as [H|(Hg & Hi' & _ & Hp)]; [congruence|]. split; [done|]. apply (log_ok_grows _ _ _ Hg) in Hl. destruct r as [pos| |]; try done.
    constructor; [|done]. split; [apply Hb|by apply Hp].
  - destruct (FlushBlockFile_grows fin s Hi) as [Hg Hr]. split; [by eapply same_records_inv|by eapply log_ok_grows].
Qed.

Lemma storage_run_inv c c' : length pchMessageStart = 4%nat -> rtc storage_step c c' ->
  storage_inv c.1 /\ Forall (log_ok c.1) c.2 -> storage_inv c'.1 /\ Forall (log_ok c'.1) c'.2.
Proof. intros Hm. induction 1 as [|x y z Hxy _ IH]; [done|]. intros Hx. by apply IH, (storage_step_inv x y). Qed.


(** Storing a block always ends: whatever files the database lists, full or not, the search for a file with room
    stops within the fuel, and unless the database or the disk fails the position is the end of a file that has room. *)
Theorem FindBlockPos_terminates state nAddSize nHeight nTime s (Hi : storage_inv s) (Ha : 0 <= nAddSize < MAX_BLOCKFILE_SIZE) :
  exists ok pos state' s', FindBlockPos state null_pos nAddSize nHeight nTime false s = Some (ok, pos, state', s') /\
    if ok then state' = state /\ storage_inv s' /\ nLastBlockFile s <= d_nFile pos /\
               d_nPos pos = f_nSize (dbinfo s (d_nFile pos)) /\ f_nSize (dbinfo s' (d_nFile pos)) = d_nPos pos + nAddSize
    else state_IsError state' = true.
Proof.
  destruct (FindBlockPos_spec state nAddSize nHeight nTime s Hi Ha) as (ok & pos & st & s1 & H & Hf & Ht).
  exists ok, pos, st, s1. split; [done|]. destruct ok; [|by apply Hf]. destruct (Ht eq_refl) as (-> & _ & Hi1 & Hn & Hl & _ & Hs0 & Hs1).
  split_and!; [done|done|lia|by rewrite <- Hs0|exact Hs1].
Qed.
End FileProperties.

(** ** Witnesses *)

Definition sample_magic : bytes := [0xe4; 0xe7; 0xe5; 0xe7].
(** an empty storage; the file cannot be opened the first time, so nothing is preallocated *)
Definition sample_storage : storage :=
  {| blk_files := ∅; rev_files := ∅; t_fileinfo := ∅; t_lastfile := None; nLastBlockFile := 0; infoLastBlockFile := null_file_info;
     free_space := 2 ^ 40; faults := [false]; reopens := [] |}.
(** file 0 is full and so is file 1; files cannot be opened *)
Definition full_info : CBlockFileInfo :=
  {| f_nBlocks := 9; f_nSize := MAX_BLOCKFILE_SIZE - 5; f_nUndoSize := 0; f_nHeightFirst := 1; f_nHeightLast := 9; f_nTimeFirst := 1; f_nTimeLast := 2 |}.
Definition full_storage : storage :=
  {| blk_files := ∅; rev_files := ∅; t_fileinfo := <[0 := full_info]> {[1 := full_info]}; t_lastfile := Some 0; nLastBlockFile := 0;
     infoLastBlockFile := full_info; free_space := 2 ^ 40; faults := replicate 8 false; reopens := replicate 8 false |}.

Lemma sample_storage_inv : storage_inv sample_storage.
Proof. unfold storage_inv, dbinfo. cbn. split_and!; [done| | |by constructor]; intros n; rewrite lookup_empty; cbn; unfold MAX_BLOCKFILE_SIZE; lia. Qed.

Lemma full_storage_inv : storage_inv full_storage.
Proof.
  unfold storage_inv, dbinfo. cbn [t_fileinfo full_storage nLastBlockFile infoLastBlockFile]. split_and!; [by intros []| | |by apply Forall_replicate]; intros n;
    (destruct (decide (n = 0)) as [->|?]; [rewrite lookup_insert_eq|rewrite lookup_insert_ne by done;
      destruct (decide (n = 1)) as [->|?]; [rewrite lookup_singleton_eq|rewrite lookup_singleton_ne by done]]); cbn; unfold MAX_BLOCKFILE_SIZE; lia.
Qed.

Lemma sample_block_valid : valid_block (B := ZBN) (sample_block [sample_coinbase; sample_tx]).
Proof.
  split; [split|].
  - unfold valid_header. cbn [blk_header sample_block h_nVersion hashPrevBlock hashMerkleRoot h_nTime h_nBits h_nNonce].
    pose proof (Hash_range (K := ToyCrypto) []). split_and!; try lia; vm_compute; discriminate || reflexivity.
  - vm_compute. discriminate.
  - split; [|cbn; unfold MAX_SIZE; lia]. constructor; [|constructor; [apply sample_tx_valid|constructor]].
    unfold valid_tx, sized, valid_txin, valid_txout, valid_outpoint, sized, MAX_SIZE, COIN, uint_max; cbn.
    repeat split; try lia; repeat constructor; cbn; unfold is_byte, uint_max, COIN; try lia.
Qed.


(** the stored block is lost as soon as its file cannot be opened for update and is created anew: here at the flush *)
Lemma reopening_loses : exists pos state s,
  store_block (B := ZBN) sample_magic (sample_block [sample_coinbase; sample_tx]) 1 new_state sample_storage = Some (IoDone pos, state, s) /\
  is_Some (block_ReadFromDisk (B := ZBN) pos s).1 /\
  (block_ReadFromDisk (B := ZBN) pos (FlushBlockFile false (set_reopens (set_faults s [false]) [true]))).1 = None.
Proof.
  set (x := store_block (B := ZBN) sample_magic (sample_block [sample_coinbase; sample_tx]) 1 new_state sample_storage).
  assert (Hc : match x with
    | Some (IoDone pos, _, s) => bool_decide (is_Some (block_ReadFromDisk (B := ZBN) pos s).1) &&
        bool_decide (~ is_Some (block_ReadFromDisk (B := ZBN) pos (FlushBlockFile false (set_reopens (set_faults s [false]) [true]))).1)
    | _ => false end = true) by (vm_compute; reflexivity).
  destruct x as [[[[pos| |] st] s]|]; [|discriminate Hc..]. apply andb_prop in Hc as [H1 H2].
  apply bool_decide_eq_true in H1. apply bool_decide_eq_true in H2. exists pos, st, s. split; [exact eq_refl|]. split; [exact H1|].
  by apply eq_None_not_Some.
Qed.

Lemma FindBlockPos_terminates_witness : exists ok pos state s',
  FindBlockPos new_state null_pos 300 7 1400000000 false full_storage = Some (ok, pos, state, s').
Proof.
  destruct (FindBlockPos_terminates new_state 300 7 1400000000 full_storage full_storage_inv ltac:(unfold MAX_BLOCKFILE_SIZE; lia))
    as (ok & pos & st & s & H & _).
  exists ok, pos, st, s. exact H.
Defined.
