(* ===== verification/Chain.v ===== *)
(** * The block index (main.h, main.cpp)

    [mapBlockIndex] is a finite map from block hashes to [CBlockIndex] records; a pointer to an index is the
    hash of its block, [None] the null pointer.  On top of it: median time, version majority, work, the next
    target, locators and the search by height. *)

From stdpp Require Import gmap sorting.
From S2P Require Import Prelude OpenSSL BigNum Target Serialize Crypto Script Transaction Block.
Local Open Scope Z_scope.

(** ** Data *)

Definition BLOCK_VALID_UNKNOWN : Z := 0.
Definition BLOCK_VALID_HEADER : Z := 1.
Definition BLOCK_VALID_TREE : Z := 2.
Definition BLOCK_VALID_TRANSACTIONS : Z := 3.
Definition BLOCK_VALID_CHAIN : Z := 4.
Definition BLOCK_VALID_SCRIPTS : Z := 5.
Definition BLOCK_VALID_MASK : Z := 7.
Definition BLOCK_HAVE_DATA : Z := 8.
Definition BLOCK_HAVE_UNDO : Z := 16.
Definition BLOCK_HAVE_MASK : Z := 24.
Definition BLOCK_FAILED_VALID : Z := 32.
Definition BLOCK_FAILED_CHILD : Z := 64.
Definition BLOCK_FAILED_MASK : Z := 96.

Abbreviation pindex := (option Z) (only parsing).

Record CBlockIndex := {
  pprev : pindex; pnext : pindex; nHeight : Z; nFile : Z; nDataPos : Z; nUndoPos : Z;
  nChainWork : Z; nWorkTransition : Z; i_nPrimeChainType : Z; i_nPrimeChainLength : Z; nMoneySupply : Z;
  nTx : Z; nChainTx : Z; nStatus : Z;
  i_nVersion : Z; i_hashMerkleRoot : Z; i_nTime : Z; i_nBits : Z; i_nNonce : Z;
}.

Definition index_of_header (h : CBlockHeader) : CBlockIndex :=
  {| pprev := None; pnext := None; nHeight := 0; nFile := 0; nDataPos := 0; nUndoPos := 0;
     nChainWork := 0; nWorkTransition := 0; i_nPrimeChainType := 0; i_nPrimeChainLength := 0; nMoneySupply := 0;
     nTx := 0; nChainTx := 0; nStatus := 0;
     i_nVersion := h_nVersion h; i_hashMerkleRoot := hashMerkleRoot h; i_nTime := h_nTime h; i_nBits := h_nBits h;
     i_nNonce := h_nNonce h |}.

Abbreviation block_map := (gmap Z CBlockIndex) (only parsing).

(** [p->pprev] and [p->pnext], null when the pointer itself is *)
Definition prev_of (idx : block_map) (p : pindex) : pindex := let? h := p in let? b := idx !! h in pprev b.
Definition next_of (idx : block_map) (p : pindex) : pindex := let? h := p in let? b := idx !! h in pnext b.
Definition index_GetBlockTime (b : CBlockIndex) : Z := i_nTime b.
Definition IsInMainChain (idx : block_map) (pindexBest : pindex) (h : Z) : bool :=
  bool_decide (is_Some (next_of idx (Some h))) || bool_decide (Some h = pindexBest).
Definition index_GetBlockHeader (idx : block_map) (b : CBlockIndex) : CBlockHeader :=
  {| h_nVersion := i_nVersion b; hashPrevBlock := default 0 (pprev b); hashMerkleRoot := i_hashMerkleRoot b;
     h_nTime := i_nTime b; h_nBits := i_nBits b; h_nNonce := i_nNonce b; bnPrimeChainMultiplier := 0 |}.

(** ** Median time *)

Definition nMedianTimeSpan : nat := 99.

(** the times of the block and of its predecessors, at most [n] *)
Fixpoint past_times (n : nat) (idx : block_map) (p : pindex) : list Z :=
  match n with
  | O => []
  | S n => match p with
           | None => []
           | Some h => match idx !! h with
                       | None => []
                       | Some b => index_GetBlockTime b :: past_times n idx (pprev b)
                       end
           end
  end.
Definition GetMedianTimePast (idx : block_map) (p : Z) : Z :=
  let pmedian := merge_sort Z.le (past_times nMedianTimeSpan idx (Some p)) in
  nth (length pmedian / 2) pmedian 0.

Fixpoint median_time_loop (n : nat) (idx : block_map) (this q : Z) : Z :=
  match n with
  | O => GetMedianTimePast idx q
  | S n => match next_of idx (Some q) with
           | None => match idx !! this with Some b => index_GetBlockTime b | None => 0 end
           | Some q' => median_time_loop n idx this q'
           end
  end.
Definition GetMedianTime (idx : block_map) (p : Z) : Z := median_time_loop (nMedianTimeSpan / 2) idx p p.
Definition UpdateTime (idx : block_map) (pindexPrev nAdjustedTime : Z) : Z :=
  u32 (Z.max (GetMedianTimePast idx pindexPrev + 1) nAdjustedTime).

(** ** Versions *)

Fixpoint majority_loop (nToCheck : nat) (idx : block_map) (minVersion nRequired nFound : Z) (pstart : pindex) : Z :=
  match nToCheck with
  | O => nFound
  | S n =>
    if nFound <? nRequired then
      match pstart with
      | None => nFound
      | Some h => match idx !! h with
                  | None => nFound
                  | Some b => majority_loop n idx minVersion nRequired (if minVersion <=? i_nVersion b then nFound + 1 else nFound) (pprev b)
                  end
      end
    else nFound
  end.
Definition IsSuperMajority (idx : block_map) (minVersion : Z) (pstart : pindex) (nRequired : Z) (nToCheck : nat) : bool :=
  nRequired <=? majority_loop nToCheck idx minVersion nRequired 0 pstart.

(** ** Work and the next target *)

Definition nWorkTransitionRatio : Z := 32.
Definition nTargetTimespan : Z := 7 * 24 * 60 * 60.
Definition nTargetSpacing : Z := 60.

Section Work.
Context {B : OpenSSLBN}.

Definition GetBlockWork (tp : TargetParams) (nBits : Z) : option Z :=
  let nFractionalDifficulty := TargetGetFractionalDifficulty nBits in
  let bnWork := of_int 256 in
  let bnWork := Nat.iter (Z.to_nat (TargetGetLength nBits - nTargetMinLength tp)) (fun w => bn_mul w (setulong nWorkTransitionRatio)) bnWork in
  let bnWork := bn_mul bnWork (setuint64 0 (u64 (nWorkTransitionRatio * nFractionalDifficulty))) in
  bn_div bnWork (setuint64 0 (u64 (u64 ((nWorkTransitionRatio - 1) * nFractionalDifficultyMin) + nFractionalDifficulty))).

(** [None]: a big-number division throws *)
Definition GetNextWorkRequired (tp : TargetParams) (idx : block_map) (pindexLast : pindex) : option Z :=
  let? prev := match pindexLast with None => Some None | Some h => let? b := idx !! h in Some (Some b) end in
  match prev with
  | None => Some (TargetGetLimit tp)
  | Some pindexPrev =>
    match pprev pindexPrev with
    | None => Some (TargetGetInitial tp)
    | Some h =>
      let? pindexPrevPrev := idx !! h in
      match pprev pindexPrevPrev with
      | None => Some (TargetGetInitial tp)
      | Some _ =>
        let nInterval := cdiv nTargetTimespan nTargetSpacing in
        let nActualSpacing := index_GetBlockTime pindexPrev - index_GetBlockTime pindexPrevPrev in
        let? (ok, nBits) := TargetGetNext tp (i_nBits pindexPrev) nInterval nTargetSpacing nActualSpacing in
        Some (if ok : bool then nBits else 0)
      end
    end
  end.
End Work.

(** ** Locators *)

Fixpoint step_back (idx : block_map) (nStep : nat) (p : pindex) : pindex :=
  match nStep with
  | O => p
  | S n => match p with None => None | Some _ => step_back idx n (prev_of idx p) end
  end.

(** from every block at least one step back: its height bounds the rounds *)
Fixpoint locator_loop (fuel : nat) (idx : block_map) (p : pindex) (nStep : nat) (vHave : list Z) : list Z :=
  match fuel with
  | O => vHave
  | S f =>
    match p with
    | None => vHave
    | Some h =>
      let vHave := vHave ++ [h] in
      let p := step_back idx nStep p in
      let nStep := if bool_decide (10 < length vHave)%nat then (nStep * 2)%nat else nStep in
      locator_loop f idx p nStep vHave
    end
  end.
Definition height_of (idx : block_map) (p : pindex) : Z :=
  match p with Some h => match idx !! h with Some b => nHeight b | None => -1 end | None => -1 end.
Definition locator_Set (idx : block_map) (hashGenesisBlock : Z) (p : pindex) : list Z :=
  locator_loop (Z.to_nat (height_of idx p + 1)) idx p 1 [] ++ [hashGenesisBlock].

(** the first entry that is a block of the main chain *)
Fixpoint locator_find (idx : block_map) (pindexBest : pindex) (vHave : list Z) : option Z :=
  match vHave with
  | [] => None
  | hash :: r =>
    if bool_decide (is_Some (idx !! hash)) && IsInMainChain idx pindexBest hash then Some hash
    else locator_find idx pindexBest r
  end.
Definition locator_GetBlockIndex (idx : block_map) (pindexBest pindexGenesisBlock : pindex) (vHave : list Z) : pindex :=
  match locator_find idx pindexBest vHave with Some h => Some h | None => pindexGenesisBlock end.
Definition locator_GetBlockHash (idx : block_map) (pindexBest : pindex) (hashGenesisBlock : Z) (vHave : list Z) : Z :=
  default hashGenesisBlock (locator_find idx pindexBest vHave).
Definition locator_GetHeight (idx : block_map) (pindexBest pindexGenesisBlock : pindex) (vHave : list Z) : Z :=
  match locator_GetBlockIndex idx pindexBest pindexGenesisBlock vHave with
  | None => 0
  | Some h => height_of idx (Some h)
  end.
Fixpoint distance_loop (idx : block_map) (pindexBest : pindex) (vHave : list Z) (nDistance nStep : Z) : Z :=
  match vHave with
  | [] => nDistance
  | hash :: r =>
    if bool_decide (is_Some (idx !! hash)) && IsInMainChain idx pindexBest hash then nDistance
    else
      let nDistance := s32 (nDistance + nStep) in
      distance_loop idx pindexBest r nDistance (if 10 <? nDistance then s32 (nStep * 2) else nStep)
  end.
Definition GetDistanceBack (idx : block_map) (pindexBest : pindex) (vHave : list Z) : Z := distance_loop idx pindexBest vHave 0 1.

(** ** The block at a height of the main chain *)

Fixpoint walk_back (fuel : nat) (idx : block_map) (p : Z) (nHeightIn : Z) : option Z :=
  let? b := idx !! p in
  if nHeightIn <? nHeight b then
    match fuel with O => None | S f => let? q := pprev b in walk_back f idx q nHeightIn end
  else Some p.
Fixpoint walk_forward (fuel : nat) (idx : block_map) (p : Z) (nHeightIn : Z) : option Z :=
  let? b := idx !! p in
  if nHeight b <? nHeightIn then
    match fuel with O => None | S f => let? q := pnext b in walk_forward f idx q nHeightIn end
  else Some p.

(** the search starts at the genesis block, the best block or the block found last, whichever is near;
    [None]: a null pointer is followed *)
Definition FindBlockByHeight (idx : block_map) (pindexBest pindexGenesisBlock pblockindexFBBHLast : pindex)
    (nBestHeight nHeightIn : Z) : option Z :=
  let? start := (if nHeightIn <? cdiv nBestHeight 2 then pindexGenesisBlock else pindexBest) in
  let start :=
    match pblockindexFBBHLast with
    | Some last => if Z.abs (nHeightIn - height_of idx (Some last)) <? Z.abs (nHeightIn - height_of idx (Some start)) then last else start
    | None => start
    end in
  let fuel := Z.to_nat (Z.abs (nHeightIn - height_of idx (Some start))) in
  let? p := walk_back fuel idx start nHeightIn in
  walk_forward fuel idx p nHeightIn.

(** ** The median *)

Section Median.
Context (m : Z).

Definition at_least (l : list Z) : nat := length (filter (fun x => m <= x) l).

Lemma at_least_cons x l : at_least (x :: l) = ((if bool_decide (m <= x)%Z then 1 else 0) + at_least l)%nat.
Proof. unfold at_least. rewrite filter_cons. case_bool_decide; [by rewrite decide_True|by rewrite decide_False]. Qed.

Lemma at_least_app l1 l2 : at_least (l1 ++ l2) = (at_least l1 + at_least l2)%nat.
Proof. unfold at_least. by rewrite filter_app, length_app. Qed.

Lemma at_least_all l : Forall (fun x => m <= x) l -> at_least l = length l.
Proof. unfold at_least. induction 1 as [|x l Hx Hl IH]; [done|]. rewrite filter_cons_True by done. cbn. by rewrite IH. Qed.

Lemma at_least_none l : Forall (fun x => x < m) l -> at_least l = 0%nat.
Proof. unfold at_least. induction 1 as [|x l Hx Hl IH]; [done|]. rewrite filter_cons_False by lia. exact IH. Qed.

Lemma at_least_le l : (at_least l <= length l)%nat.
Proof. unfold at_least. apply length_filter. Qed.

Lemma at_least_perm l1 l2 : l1 ≡ₚ l2 -> at_least l1 = at_least l2.
Proof. intros H. unfold at_least. by rewrite H. Qed.

(** an element of a sorted list against a bound, by counting *)
Lemma sorted_at_least s k : StronglySorted Z.le s -> (k < length s)%nat ->
  m <= nth k s 0 <-> (length s - k <= at_least s)%nat.
Proof.
  intros Hs Hk. assert (Hle : forall i, (i <= k)%nat -> nth i s 0 <= nth k s 0).
  { intros i Hi. revert k Hk i Hi. clear m. induction Hs as [|a s Hs IH Ha]; intros k Hk i Hi; [cbn in Hk; lia|].
    destruct k as [|k]; [by assert (i = 0)%nat as -> by lia|]. destruct i as [|i].
    - cbn. rewrite Forall_forall in Ha. apply Ha, list_elem_of_In, nth_In. cbn in Hk. lia.
    - cbn. apply IH; cbn in Hk; lia. }
  assert (Hge : forall i, (k <= i < length s)%nat -> nth k s 0 <= nth i s 0).
  { clear Hle. revert k Hk. clear m.
    induction Hs as [|a s Hs IH Ha]; intros k Hk i Hi; [cbn in Hk; lia|].
    destruct k as [|k], i as [|i]; cbn in *; try lia; [|apply IH; lia].
    rewrite Forall_forall in Ha. apply Ha, list_elem_of_In, nth_In. lia. }
  split.
  - intros Hm. rewrite <- (take_drop k s) at 2. rewrite at_least_app, (at_least_all (drop k s)), length_drop; [lia|].
    apply Forall_forall. intros x Hx. apply list_elem_of_In, (In_nth _ _ 0) in Hx as (j & Hj & <-). rewrite length_drop in Hj.
    assert (nth j (drop k s) 0 = nth (k + j) s 0) as ->; [|specialize (Hge (k + j)%nat); lia].
    rewrite !nth_lookup, lookup_drop. done.
  - intros Hc. destruct (Z_lt_le_dec (nth k s 0) m) as [Hlt|]; [|done]. exfalso.
    rewrite <- (take_drop (S k) s) in Hc at 2. rewrite at_least_app, (at_least_none (take _ s)) in Hc.
    + pose proof (at_least_le (drop (S k) s)) as Hd. rewrite length_drop in Hd. lia.
    + apply Forall_forall. intros x Hx. apply list_elem_of_In, (In_nth _ _ 0) in Hx as (j & Hj & <-). rewrite length_take in Hj.
      assert (nth j (take (S k) s) 0 = nth j s 0) as ->; [|specialize (Hle j); lia].
      rewrite !nth_lookup, lookup_take_lt by lia. done.
Qed.

Definition median_of (l : list Z) : Z := let s := merge_sort Z.le l in nth (length s / 2) s 0.

Lemma median_at_least l : l <> [] -> m <= median_of l <-> (length l - length l / 2 <= at_least l)%nat.
Proof.
  intros Hl. unfold median_of. pose proof (merge_sort_Permutation Z.le l) as Hp. cbn zeta.
  rewrite <- (at_least_perm _ _ Hp), <- (Permutation_length Hp). apply sorted_at_least.
  - apply (StronglySorted_merge_sort Z.le).
  - rewrite (Permutation_length Hp). apply Nat.div_lt; [|lia]. destruct l; [done|cbn; lia].
Qed.
End Median.

Lemma past_times_S n idx h b : idx !! h = Some b -> past_times (S n) idx (Some h) = index_GetBlockTime b :: past_times n idx (pprev b).
Proof. intros H. cbn [past_times]. by rewrite H. Qed.

Lemma past_times_take n k idx p : (k <= n)%nat -> past_times k idx p = take k (past_times n idx p).
Proof.
  revert k p. induction n as [|n IH]; intros k p Hk; [by assert (k = 0)%nat as -> by lia|]. destruct k as [|k]; [done|].
  cbn [past_times]. destruct p as [h|]; [|done]. destruct (idx !! h); [|done]. cbn [take]. f_equal. apply IH. lia.
Qed.

Lemma length_past_times n idx p : (length (past_times n idx p) <= n)%nat.
Proof. revert p. induction n as [|n IH]; intros p; [done|]. cbn. destruct p as [h|]; [|cbn; lia]. destruct (idx !! h); cbn; [specialize (IH (pprev c))|]; lia. Qed.

(** ** Work *)

Section WorkLemmas.
Context {B : OpenSSLBN} {L : OpenSSLBNLaws B}.

(** the expected number of tests, from the extra length [k] and the fractional difficulty *)
Definition work_value (k F : Z) : Z := 256 * 32 ^ k * (32 * F) / (31 * 2 ^ 32 + F).

Lemma GetBlockWork_eq tp nBits : nbits_ok nBits -> nTargetMinLength tp <= TargetGetLength nBits ->
  GetBlockWork tp nBits = Some (work_value (TargetGetLength nBits - nTargetMinLength tp) (TargetGetFractionalDifficulty nBits)).
Proof.
  intros Hb Hm. pose proof (FD_nbits _ Hb) as HF. unfold GetBlockWork. cbv zeta. set (F := TargetGetFractionalDifficulty nBits) in *.
  change nFractionalDifficultyMin with (2 ^ 32). unfold nWorkTransitionRatio.
  rewrite (u64_small (_ * 2 ^ 32)), !u64_small by lia. rewrite !setuint64_eq, of_int_eq by lia.
  assert (Hi : forall n w, Nat.iter n (fun w => bn_mul w (setulong 32)) w = w * 32 ^ Z.of_nat n).
  { intros n w. induction n as [|n IH]; cbn [Nat.iter nat_rect]; [by rewrite Z.mul_1_r|]. fold (Nat.iter n (fun w => bn_mul w (setulong 32)) w).
    rewrite IH, bn_mul_eq, setulong_eq, Nat2Z.inj_succ, Z.pow_succ_r by lia. lia. }
  rewrite Hi, bn_mul_eq, bn_div_eq by lia. rewrite Z2Nat.id by lia. f_equal. unfold work_value.
  rewrite Z.quot_div_nonneg; [done| |lia]. apply Z.mul_nonneg_nonneg; [|lia]. apply Z.mul_nonneg_nonneg; [lia|]. apply Z.pow_nonneg. lia.
Qed.

Lemma work_value_mono k F1 F2 : 0 <= k -> 0 <= F1 <= F2 -> work_value k F1 <= work_value k F2.
Proof.
  intros Hk HF. unfold work_value. set (c := 256 * 32 ^ k). assert (Hc : 0 < c) by (pose proof (Z.pow_pos_nonneg 32 k); lia).
  apply Z.div_le_lower_bound; [lia|]. pose proof (Z.mul_div_le (c * (32 * F1)) (31 * 2 ^ 32 + F1) ltac:(lia)) as Hq.
  set (q := c * (32 * F1) / (31 * 2 ^ 32 + F1)) in *. set (d := 31 * 2 ^ 32) in *. assert (0 < d) by (unfold d; lia).
  apply (Z.mul_le_mono_pos_l _ _ (d + F1)); [lia|].
  transitivity ((d + F2) * (c * (32 * F1))); [nia|]. enough (c * (d + F2) * F1 <= c * (d + F1) * F2) by nia.
  enough ((d + F2) * F1 <= (d + F1) * F2) by nia. nia.
Qed.

Lemma work_value_low k F : 0 <= k -> 2 ^ 32 <= F -> 256 * 32 ^ k <= work_value k F.
Proof.
  intros Hk HF. unfold work_value. apply Z.div_le_lower_bound; [lia|]. pose proof (Z.pow_pos_nonneg 32 k ltac:(lia) Hk). nia.
Qed.

Lemma work_value_high k F : 0 <= k -> 0 <= F -> work_value k F <= 256 * 32 ^ (k + 1).
Proof.
  intros Hk HF. unfold work_value. rewrite Z.pow_add_r by lia. pose proof (Z.pow_pos_nonneg 32 k ltac:(lia) Hk).
  apply Z.div_le_upper_bound; [lia|]. nia.
Qed.

Lemma work_mono tp n1 n2 : nbits_ok n1 -> nbits_ok n2 -> nTargetMinLength tp <= TargetGetLength n1 -> n1 <= n2 ->
  exists w1 w2, GetBlockWork tp n1 = Some w1 /\ GetBlockWork tp n2 = Some w2 /\ 256 <= w1 <= w2.
Proof.
  intros H1 H2 Hm Hle. assert (Hlen : TargetGetLength n1 <= TargetGetLength n2).
  { rewrite !TargetGetLength_eq by done. apply Z.div_le_mono; lia. }
  exists (work_value (TargetGetLength n1 - nTargetMinLength tp) (TargetGetFractionalDifficulty n1)),
         (work_value (TargetGetLength n2 - nTargetMinLength tp) (TargetGetFractionalDifficulty n2)).
  rewrite !GetBlockWork_eq by (done || lia). pose proof (FD_nbits _ H1). pose proof (FD_nbits _ H2).
  split_and!; [done|done| |].
  - etrans; [|apply work_value_low; lia]. pose proof (Z.pow_pos_nonneg 32 (TargetGetLength n1 - nTargetMinLength tp)). lia.
  - destruct (Z.eq_dec (TargetGetLength n1) (TargetGetLength n2)) as [He|Hne].
    + rewrite <- He. apply work_value_mono; [lia|]. split; [lia|]. rewrite !TargetGetFractionalDifficulty_eq by done.
      rewrite !TargetGetLength_eq in He by done. pose proof (Z.mod_pos_bound n2 (2 ^ 24)). apply Z.div_le_compat_l; [lia|].
      rewrite !TargetGetFractional_eq. dlia.
    + etrans; [apply work_value_high; lia|]. etrans; [|apply work_value_low; lia].
      apply Z.mul_le_mono_nonneg_l; [lia|]. apply Z.pow_le_mono_r; lia.
Qed.
End WorkLemmas.

(** ** Chains in the index *)

(** every block but the genesis block has its predecessor in the map, one height below *)
Record index_ok (idx : block_map) (genesis : Z) : Prop := {
  ok_prev : forall h b, idx !! h = Some b ->
    match pprev b with
    | None => h = genesis /\ nHeight b = 0
    | Some q => exists bq, idx !! q = Some bq /\ nHeight b = nHeight bq + 1
    end;
  ok_height : forall h b, idx !! h = Some b -> 0 <= nHeight b;
}.

Section Ancestors.
Context (idx : block_map) (genesis : Z) (Hok : index_ok idx genesis).

Lemma step_back_None n : step_back idx n None = None.
Proof. by destruct n. Qed.

Lemma step_back_add n k p : step_back idx (n + k) p = step_back idx k (step_back idx n p).
Proof.
  revert p. induction n as [|n IH]; intros p; [done|]. cbn [Nat.add step_back].
  destruct p as [h|]; [apply IH|by rewrite step_back_None].
Qed.

Lemma prev_of_Some p b : idx !! p = Some b -> prev_of idx (Some p) = pprev b.
Proof. intros H. cbn. by rewrite H. Qed.

(** the ancestor [k] blocks back *)
Lemma step_back_height k p b : idx !! p = Some b ->
  if bool_decide (Z.of_nat k <= nHeight b)
  then exists q bq, step_back idx k (Some p) = Some q /\ idx !! q = Some bq /\ nHeight bq = nHeight b - Z.of_nat k /\
                    (Z.of_nat k = nHeight b -> q = genesis)
  else step_back idx k (Some p) = None.
Proof.
  revert p b. induction k as [|k IH]; intros p b Hp; pose proof (ok_height _ _ Hok p b Hp) as Hh; pose proof (ok_prev _ _ Hok p b Hp) as Hpv.
  - rewrite bool_decide_eq_true_2 by lia. exists p, b. split_and!; [done|done|lia|]. intros Hz.
    destruct (pprev b) as [q|]; [|by destruct Hpv]. destruct Hpv as (bq & Hq & Hqh). pose proof (ok_height _ _ Hok q bq Hq). lia.
  - cbn [step_back]. rewrite (prev_of_Some _ _ Hp). destruct (pprev b) as [q|].
    + destruct Hpv as (bq & Hq & Hqh). case_bool_decide as Hd; specialize (IH q bq Hq).
      * rewrite bool_decide_eq_true_2 in IH by lia. destruct IH as (r & br & H1 & H2 & H3 & H4). exists r, br. split_and!; [done|done|lia|].
        intros Hz. apply H4. lia.
      * by rewrite bool_decide_eq_false_2 in IH by lia.
    + destruct Hpv as [_ Hz]. rewrite bool_decide_eq_false_2 by lia. apply step_back_None.
Qed.
End Ancestors.

(** ** Finding a fork *)

Section Locator.
Context (idx : block_map) (genesis : Z) (Hok : index_ok idx genesis) (best : pindex).

Lemma locator_find_app l1 l2 : locator_find idx best l1 = None -> locator_find idx best (l1 ++ l2) = locator_find idx best l2.
Proof. induction l1 as [|x l1 IH]; [done|]. cbn. case_match; [done|]. exact IH. Qed.

Lemma locator_find_first l1 x l2 : locator_find idx best l1 = None -> is_Some (idx !! x) -> IsInMainChain idx best x = true ->
  locator_find idx best (l1 ++ x :: l2) = Some x.
Proof. intros H1 Hx Hm. rewrite locator_find_app by done. cbn. by rewrite bool_decide_eq_true_2, Hm. Qed.

Lemma locator_loop_prefix f p s acc : exists r, locator_loop f idx p s acc = acc ++ r.
Proof.
  revert p s acc. induction f as [|f IH]; intros p s acc; cbn [locator_loop]; [exists []; by rewrite app_nil_r|].
  destruct p as [h|]; [|exists []; by rewrite app_nil_r]. edestruct IH as [r ->]. rewrite <- app_assoc. by eexists.
Qed.

(** the step and the distance of a round, from the number of entries so far *)
Definition round_ok (c d s : nat) : Prop := (c <= 10 /\ d = c /\ s = 1)%nat \/ (11 <= c /\ d = 9 + s /\ 2 <= s)%nat.

Context (p : Z) (b : CBlockIndex) (Hp : idx !! p = Some b) (a : nat) (Ha : Z.of_nat a <= nHeight b).
Context (Hmain : forall k q, step_back idx k (Some p) = Some q -> IsInMainChain idx best q = true <-> (a <= k)%nat).

Lemma locator_search f d s acc : nHeight b + 1 - Z.of_nat d <= Z.of_nat f -> round_ok (length acc) d s ->
  locator_find idx best acc = None -> (d <= 2 * a)%nat -> (a <= 11 -> d <= a)%nat ->
  exists k q, locator_find idx best (locator_loop f idx (step_back idx d (Some p)) s acc ++ [genesis]) = Some q /\
    step_back idx k (Some p) = Some q /\ (a <= k <= 2 * a)%nat /\ (a <= 11 -> k = a)%nat.
Proof.
  assert (Hgen : forall acc, locator_find idx best acc = None -> exists q, locator_find idx best (acc ++ [genesis]) = Some q /\
    step_back idx (Z.to_nat (nHeight b)) (Some p) = Some q).
  { intros l Hl. pose proof (step_back_height idx genesis Hok (Z.to_nat (nHeight b)) p b Hp) as Hs.
    rewrite bool_decide_eq_true_2 in Hs by lia. destruct Hs as (q & bq & H1 & H2 & H3 & H4). exists q. split; [|done].
    assert (genesis = q) as -> by (symmetry; apply H4; lia). apply locator_find_first; [done|by eexists|]. apply (Hmain _ _ H1). lia. }
  revert d s acc. induction f as [|f IH]; intros d s acc Hf Hr Hacc Hd Hsmall.
  - cbn [locator_loop]. destruct (Hgen acc Hacc) as (q & H1 & H2). exists (Z.to_nat (nHeight b)), q. split_and!; try done; lia.
  - pose proof (step_back_height idx genesis Hok d p b Hp) as Hs. case_bool_decide as Hdh.
    + destruct Hs as (q & bq & Hq & Hqb & _ & _). cbn [locator_loop]. rewrite Hq. destruct (le_lt_dec a d) as [Had|Had].
      * edestruct locator_loop_prefix as [r ->]. rewrite <- !app_assoc. cbn [app]. exists d, q. split_and!; try done; [|lia].
        apply locator_find_first; [done|by eexists|]. by apply (Hmain _ _ Hq).
      * assert (Hnext : step_back idx s (Some q) = step_back idx (d + s) (Some p)) by by rewrite step_back_add, Hq.
        rewrite Hnext. rewrite length_app, Nat.add_1_r. apply IH.
        -- destruct Hr as [(? & ? & ?)|(? & ? & ?)]; lia.
        -- rewrite length_app, Nat.add_1_r. destruct Hr as [(? & ? & ->)|(? & ? & ?)]; case_bool_decide; unfold round_ok; lia.
        -- rewrite locator_find_app by done. cbn. assert (Hn : IsInMainChain idx best q = false).
           { destruct (IsInMainChain idx best q) eqn:E; [|done]. apply (Hmain _ _ Hq) in E. lia. }
           by rewrite Hn, andb_false_r.
        -- destruct Hr as [(? & ? & ?)|(? & ? & ?)]; lia.
        -- destruct Hr as [(? & ? & ?)|(? & ? & ?)]; lia.
    + rewrite Hs. cbn [locator_loop]. destruct (Hgen acc Hacc) as (q & H1 & H2). exists (Z.to_nat (nHeight b)), q. split_and!; try done; lia.
Qed.
End Locator.

(** ** Properties *)

Section ChainProperties.
Context {B : OpenSSLBN} {L : OpenSSLBNLaws B}.

(** The median time never runs backwards: if a block's time is later than the median time of the blocks before
    it, as [AcceptBlock] demands, then the median time up to that block is at least the median before it, whatever the
    other times are and also while fewer than 99 blocks exist. *)
Theorem GetMedianTimePast_monotone idx p q b bq (Hp : idx !! p = Some b) (Hq : idx !! q = Some bq) (Hprev : pprev b = Some q)
    (Htime : GetMedianTimePast idx q < index_GetBlockTime b) :
  GetMedianTimePast idx q <= GetMedianTimePast idx p.
Proof.
  change (median_of (past_times nMedianTimeSpan idx (Some q)) <= median_of (past_times nMedianTimeSpan idx (Some p))).
  change (median_of (past_times nMedianTimeSpan idx (Some q)) < index_GetBlockTime b) in Htime.
  set (l := past_times nMedianTimeSpan idx (Some q)) in *.
  assert (Hl : l <> []) by (unfold l; change nMedianTimeSpan with (S 98); by rewrite (past_times_S _ _ _ _ Hq)).
  assert (Hs : past_times nMedianTimeSpan idx (Some p) = index_GetBlockTime b :: take 98 l).
  { change nMedianTimeSpan with (S 98). rewrite (past_times_S _ _ _ _ Hp), Hprev. f_equal. apply past_times_take. unfold nMedianTimeSpan. lia. }
  rewrite Hs. set (m := median_of l) in *. apply median_at_least; [done|].
  pose proof (proj1 (median_at_least m l Hl) (Z.le_refl _)) as Hc. rewrite at_least_cons, bool_decide_eq_true_2 by lia.
  pose proof (length_past_times nMedianTimeSpan idx (Some q)) as Hlen. fold l in Hlen. unfold nMedianTimeSpan in Hlen.
  assert (Hcount : (at_least m l <= at_least m (take 98 l) + (length l - 98))%nat).
  { rewrite <- (take_drop 98 l) at 1. rewrite at_least_app. pose proof (at_least_le m (drop 98 l)) as Hd. rewrite length_drop in Hd. lia. }
  cbn [length]. rewrite length_take. pose proof (Nat.div_mod_eq (length l) 2). pose proof (Nat.mod_upper_bound (length l) 2 ltac:(done)).
  pose proof (Nat.div_mod_eq (S (98 `min` length l)) 2). pose proof (Nat.mod_upper_bound (S (98 `min` length l)) 2 ltac:(done)). lia.
Qed.

(** A locator finds the fork: a peer whose main chain shares the sender's chain up to a block [a] steps behind
    the sender's tip answers the locator with a block of that shared part, at most [2 * a] steps behind the tip and
    exactly the fork itself when [a] is at most 11; the loop that builds the locator ends by reaching the genesis block. *)
Theorem CBlockLocator_finds_fork idx genesis best p b a (Hok : index_ok idx genesis) (Hp : idx !! p = Some b)
    (Ha : Z.of_nat a <= nHeight b)
    (Hmain : forall k q, step_back idx k (Some p) = Some q -> IsInMainChain idx best q = true <-> (a <= k)%nat) :
  exists k q, locator_GetBlockIndex idx best (Some genesis) (locator_Set idx genesis (Some p)) = Some q /\
    step_back idx k (Some p) = Some q /\ (a <= k <= 2 * a)%nat /\ (a <= 11 -> k = a)%nat.
Proof.
  unfold locator_GetBlockIndex, locator_Set. cbn [height_of]. rewrite Hp.
  destruct (locator_search idx genesis Hok best p b Hp a Ha Hmain (Z.to_nat (nHeight b + 1)) 0 1 []) as (k & q & H1 & H2 & H3 & H4);
    try done; try lia.
  - cbn. left. lia.
  - exists k, q. cbn [step_back] in H1. by rewrite H1.
Qed.

(** More difficult targets never count for less work: for valid targets of at least the minimum length the work of
    a block is at least 256 and grows with [nBits], across the fractional part and the jump to the next length, with no
    64-bit product overflowing. *)
Theorem GetBlockWork_monotone tp nBits1 nBits2 (H1 : nbits_ok nBits1) (H2 : nbits_ok nBits2)
    (Hm : nTargetMinLength tp <= TargetGetLength nBits1) (Hle : nBits1 <= nBits2) :
  exists w1 w2, GetBlockWork tp nBits1 = Some w1 /\ GetBlockWork tp nBits2 = Some w2 /\ 256 <= w1 <= w2.
Proof. by apply work_mono. Qed.
End ChainProperties.

(** ** Witnesses *)

Definition sample_entry (prev next : pindex) (height time : Z) : CBlockIndex :=
  {| pprev := prev; pnext := next; nHeight := height; nFile := 0; nDataPos := 0; nUndoPos := 0;
     nChainWork := 0; nWorkTransition := 0; i_nPrimeChainType := 0; i_nPrimeChainLength := 0; nMoneySupply := 0;
     nTx := 1; nChainTx := 1; nStatus := BLOCK_VALID_TRANSACTIONS;
     i_nVersion := 2; i_hashMerkleRoot := 0; i_nTime := time; i_nBits := 0x07000000; i_nNonce := 0 |}.
(** four blocks; the main chain leaves this branch after the second *)
Definition sample_index : block_map :=
  <[1 := sample_entry None (Some 2) 0 1000]> (<[2 := sample_entry (Some 1) (Some 9) 1 1060]>
  (<[3 := sample_entry (Some 2) None 2 1050]> (<[4 := sample_entry (Some 3) None 3 1065]> ∅))).

Lemma sample_index_ok : index_ok sample_index 1.
Proof.
  split; intros h b H; unfold sample_index in H;
    repeat (apply lookup_insert_Some in H as [[<- <-]|[_ H]]; [cbn; first [lia|split; reflexivity|eexists; split; reflexivity]|]);
    by rewrite lookup_empty in H.
Qed.

Lemma GetMedianTimePast_monotone_witness : GetMedianTimePast sample_index 3 <= GetMedianTimePast sample_index 4.
Proof.
  apply (GetMedianTimePast_monotone sample_index 4 3 (sample_entry (Some 3) None 3 1065) (sample_entry (Some 2) None 2 1050)).
  - reflexivity.
  - reflexivity.
  - reflexivity.
  - vm_compute. reflexivity.
Defined.

Lemma CBlockLocator_finds_fork_witness : exists k q,
  locator_GetBlockIndex sample_index None (Some 1) (locator_Set sample_index 1 (Some 4)) = Some q /\
  step_back sample_index k (Some 4) = Some q /\ (2 <= k <= 4)%nat /\ (2 <= 11 -> k = 2)%nat.
Proof.
  apply (CBlockLocator_finds_fork sample_index 1 None 4 (sample_entry (Some 3) None 3 1065) 2).
  - exact sample_index_ok.
  - reflexivity.
  - cbn. lia.
  - intros k q Hk. assert (H4 : step_back sample_index 4 (Some 4) = None) by (vm_compute; reflexivity).
    destruct k as [|[|[|[|k]]]].
    5:{ change (S (S (S (S k)))) with (4 + k)%nat in Hk. by rewrite step_back_add, H4, step_back_None in Hk. }
    all: vm_compute in Hk; injection Hk as <-; split; [first [discriminate|intros _; lia]|first [intros; lia|reflexivity]].
Defined.

Lemma GetBlockWork_monotone_witness : exists w1 w2,
  GetBlockWork (B := ZBN) mainnet_target 0x06ffff00 = Some w1 /\ GetBlockWork (B := ZBN) mainnet_target 0x07000000 = Some w2 /\ 256 <= w1 <= w2.
Proof.
  apply (GetBlockWork_monotone (B := ZBN) mainnet_target 0x06ffff00 0x07000000); unfold nbits_ok; try lia.
  vm_compute. discriminate.
Defined.
