(* ===== verification/Supply.v ===== *)
(** * The money in a view

    The value of the unspent outputs of a view, over a list of transaction ids, and what connecting the
    transactions of a block does to it. *)

From stdpp Require Import gmap.
From S2P Require Import Prelude OpenSSL Serialize Crypto Script Transaction Target ScriptEval ScriptStd Coins View.
Local Open Scope Z_scope.

Definition coins_value (c : CCoins) : Z := value_of (unspent_outs (c_vout c)).
Definition held (o : option CCoins) : Z := match o with Some c => coins_value c | None => 0 end.
(** no unspent output has a negative value *)
Definition coins_money (c : CCoins) : Prop := Forall (fun o => 0 <= nValue o) (unspent_outs (c_vout c)).

(** ** Coins *)

Lemma value_of_app l1 l2 : value_of (l1 ++ l2) = value_of l1 + value_of l2.
Proof. unfold value_of. induction l1 as [|o l1 IH]; [done|]. cbn in *. unfold sumZ in *. lia. Qed.

Lemma value_of_cons o l : value_of (o :: l) = nValue o + value_of l.
Proof. done. Qed.

Lemma unspent_outs_app l1 l2 : unspent_outs (l1 ++ l2) = unspent_outs l1 ++ unspent_outs l2.
Proof. apply filter_app. Qed.

Lemma unspent_outs_cons o l : unspent_outs (o :: l) = (if unspent o then [o] else []) ++ unspent_outs l.
Proof.
  unfold unspent_outs. destruct (unspent o) eqn:E; [by rewrite filter_cons_True|by rewrite filter_cons_False by congruence].
Qed.

Lemma unspent_outs_all l : Forall (fun o => 0 <= nValue o) l -> unspent_outs l = l.
Proof.
  induction 1 as [|o l Ho _ IH]; [done|]. rewrite unspent_outs_cons, IH. unfold unspent, txout_IsNull.
  by rewrite (proj2 (Z.eqb_neq _ _)) by lia.
Qed.

Lemma unspent_outs_cleanup l : unspent_outs (cleanup_vout l) = unspent_outs l.
Proof.
  unfold cleanup_vout. induction l as [|o l IH] using rev_ind; [done|]. rewrite rev_app_distr. cbn [rev app pop_nulls].
  destruct (txout_IsNull o) eqn:E; [|cbn [rev]; by rewrite rev_involutive].
  rewrite IH, unspent_outs_app, unspent_outs_cons. unfold unspent. by rewrite E, app_nil_r.
Qed.

Lemma unspent_outs_spend l n o : l !! n = Some o -> unspent o = true ->
  value_of (unspent_outs (<[n := null_txout]> l)) = value_of (unspent_outs l) - nValue o /\
  (Forall (fun o => 0 <= nValue o) (unspent_outs l) -> Forall (fun o => 0 <= nValue o) (unspent_outs (<[n := null_txout]> l)) /\ 0 <= nValue o).
Proof.
  intros Hn Ho. pose proof (take_drop_middle l n o Hn) as Hl. pose proof (lookup_lt_Some _ _ _ Hn) as Hlt.
  rewrite (insert_take_drop _ _ _ Hlt). set (a := take n l) in *. set (b := drop (S n) l) in *. clearbody a b. rewrite <- Hl.
  rewrite !unspent_outs_app, !unspent_outs_cons, Ho, !value_of_app, !value_of_cons. change (unspent null_txout) with false.
  split; [change (value_of []) with 0; lia|]. rewrite !Forall_app. cbn [app]. rewrite Forall_cons. intros (H1 & (H2 & _) & H3).
  by split_and!.
Qed.

(** trailing spent outputs are all that [Cleanup] removes *)
Lemma cleanup_lookup l k o : unspent o = true -> cleanup_vout l !! k = Some o <-> l !! k = Some o.
Proof.
  intros Ho. unfold cleanup_vout. induction l as [|z l IH] using rev_ind; [done|]. rewrite rev_app_distr. cbn [rev app pop_nulls].
  destruct (txout_IsNull z) eqn:Ez; [|cbn [rev]; by rewrite rev_involutive]. rewrite IH. rewrite lookup_app. destruct (l !! k) eqn:El; [done|].
  split; [done|]. intros Hz. apply list_lookup_singleton_Some in Hz as [_ ->]. unfold unspent in Ho. by rewrite Ez in Ho.
Qed.

Lemma Spend_value c out c' u : Spend c out = Some (c', u) ->
  coins_value c' = coins_value c - nValue (u_txout u) /\ (coins_money c -> coins_money c' /\ 0 <= nValue (u_txout u)) /\
  txout_at c (o_n out) = Some (u_txout u) /\
  forall m o, txout_at c' m = Some o -> unspent o = true -> txout_at c m = Some o.
Proof.
  intros H. destruct (Spend_Some _ _ _ _ H) as (o & Hn & Ho & -> & -> & _). unfold coins_value, coins_money.
  cbn [set_vout c_vout]. rewrite unspent_outs_cleanup. destruct (unspent_outs_spend _ _ _ Hn Ho) as [H1 H2]. split_and!; [done|done|done|].
  intros m x. unfold txout_at. cbn [set_vout c_vout]. set (w := <[_ := _]> _).
  intros Hx Hu. apply (proj1 (cleanup_lookup _ _ _ Hu)) in Hx. unfold w in Hx. destruct (decide (Z.to_nat m = Z.to_nat (o_n out))) as [Heq|Hne].
  - rewrite Heq in *. rewrite list_lookup_insert_eq in Hx by by eapply lookup_lt_Some. injection Hx as <-. done.
  - by rewrite list_lookup_insert_ne in Hx.
Qed.

Lemma coins_of_value tx h : Forall (fun o => 0 <= nValue o) (vout tx) ->
  coins_value (coins_of tx h) = value_of (vout tx) /\ coins_money (coins_of tx h).
Proof. intros H. unfold coins_value, coins_money, coins_of. cbn [c_vout]. by rewrite unspent_outs_all. Qed.

Lemma held_live o : held (live o) = held o.
Proof.
  destruct o as [c|]; [|done]. cbn. destruct (IsPruned c) eqn:E; [|done]. cbn. unfold coins_value.
  unfold IsPruned in E. induction (c_vout c) as [|x l IH]; [done|]. cbn [forallb] in E. apply andb_prop in E as [Ex El].
  rewrite unspent_outs_cons. unfold unspent. rewrite Ex. cbn. by apply IH.
Qed.

(** ** Views *)

Section Supply.
Context {V : Type} {CV : CoinsView V} {CS : CoinsViewSpec V}.
Abbreviation view := (CCoinsViewCache V).

(** the value of the unspent outputs of the transactions [D] *)
Definition supply (D : list Z) (v : view) : Z := sumZ (map (fun h => held (Vm v h)) D).
Definition view_money (v : view) : Prop := forall h c, live (Vm v h) = Some c -> coins_money c.

#[export] Instance supply_proper D : Proper (live_eq ==> eq) (supply D).
Proof.
  intros v w H. unfold supply. induction D as [|h D IH]; [done|]. cbn. f_equal; [|done].
  by rewrite <- (held_live (Vm v h)), <- (held_live (Vm w h)), (H h).
Qed.

#[export] Instance view_money_proper : Proper (live_eq ==> iff) view_money.
Proof. intros v w H. unfold view_money. split; intros Hv h c; [rewrite (H h)|rewrite <- (H h)]; apply Hv. Qed.

Lemma view_money_coins v h c : view_money v -> Vm v h = Some c -> coins_money c.
Proof.
  intros Hv Hc. destruct (IsPruned c) eqn:E; [|apply (Hv h); rewrite Hc; cbn; by rewrite E].
  unfold coins_money. unfold IsPruned in E. induction (c_vout c) as [|x l IH]; [constructor|].
  cbn [forallb] in E. apply andb_prop in E as [Ex El]. rewrite unspent_outs_cons. unfold unspent. rewrite Ex. by apply IH.
Qed.

Lemma supply_nonneg D v : view_money v -> 0 <= supply D v.
Proof.
  intros Hv. apply sumZ_nonneg, Forall_map, Forall_forall. intros h _. cbn. destruct (Vm v h) as [c|] eqn:E; cbn; [|lia].
  apply sumZ_nonneg, Forall_map. exact (view_money_coins v h c Hv E).
Qed.

Lemma view_money_Set v h c : view_money v -> coins_money c -> view_money (SetCoins v h c).
Proof.
  intros Hv Hc k x. rewrite live_Set. case_bool_decide; [|apply Hv]. intros Hx. apply live_Some in Hx as [Hx _]. by injection Hx as <-.
Qed.

Lemma supply_Set_out D v h c : h ∉ D -> supply D (SetCoins v h c) = supply D v.
Proof.
  intros Hh. unfold supply. f_equal. apply map_ext_in. intros k Hk. rewrite SetCoins_spec, bool_decide_eq_false_2; [done|].
  intros ->. by apply Hh, list_elem_of_In.
Qed.

Lemma supply_Set D v h c : NoDup D -> h ∈ D -> supply D (SetCoins v h c) = supply D v - held (Vm v h) + coins_value c.
Proof.
  intros HD Hh. induction HD as [|k D Hk HD IH]; [by apply not_elem_of_nil in Hh|].
  unfold supply in *. cbn [map sumZ foldr]. change (foldr Z.add 0 ?l) with (sumZ l). rewrite SetCoins_spec. case_bool_decide as E.
  - subst k. fold (supply D (SetCoins v h c)) (supply D v). rewrite supply_Set_out by done. cbn [held]. lia.
  - rewrite IH by set_solver. lia.
Qed.

(** an unspent output an input names *)
Definition spends (v : view) (i : CTxIn) (o : CTxOut) : Prop := (exists c, names v i c o) /\ unspent o = true.

Lemma spends_same v w i o : same_view v w -> spends w i o -> spends v i o.
Proof. intros H [[c Hc] Hu]. split; [|done]. exists c. by apply (names_same v w). Qed.

Lemma spends_fun v i o1 o2 : spends v i o1 -> (exists c, names v i c o2) -> o1 = o2.
Proof. intros [(c & H1 & H2) _] (d & H3 & H4). congruence. Qed.

(** what spending the inputs of a transaction takes out of a view *)
Lemma spend_inputs_supply D ins acc v us v' : NoDup D -> Forall (fun i => o_hash (prevout i) ∈ D) ins -> view_money v ->
  spend_inputs ins acc v = Some (us, v') -> exists us', us = acc ++ us' /\ view_money v' /\ Vt v' = Vt v /\
    supply D v' = supply D v - value_of (map u_txout us') /\ Forall2 (fun i u => spends v i (u_txout u)) ins us' /\
    (forall k, k ∉ D -> Vm v' k = Vm v k) /\ (forall k, live (Vm v k) = None -> live (Vm v' k) = None).
Proof.
  intros HD. revert v acc. induction ins as [|i ins IH]; intros v acc Hin Hv H; cbn [spend_inputs] in H.
  { injection H as <- <-. exists []. rewrite app_nil_r. split_and!; try done. cbn. change (value_of []) with 0. lia. }
  apply Forall_cons in Hin as [Hi Hin]. set (h := o_hash (prevout i)) in *.
  destruct (GetCoinsRef v h) as [[c v1]|] eqn:Eg; [|done]. apply GetCoinsRef_Some in Eg as [Hc Hs].
  destruct (Spend c (prevout i)) as [[c' u]|] eqn:Es; [|done].
  destruct (Spend_value _ _ _ _ Es) as (Hval & Hmon & Hat & Hback). destruct (Hmon (view_money_coins v h c Hv Hc)) as [Hcm Hun].
  assert (Hv1 : view_money v1) by by rewrite <- (same_live _ _ Hs).
  destruct (IH (SetCoins v1 h c') (acc ++ [u]) Hin (view_money_Set _ _ _ Hv1 Hcm) H) as (us' & -> & Hm & Ht & Hsup & Hf & Hout & Hfr).
  destruct Hs as [Hsm Hst]. assert (Hun' : unspent (u_txout u) = true) by (destruct (Spend_Some _ _ _ _ Es) as (o & _ & Ho & _ & -> & _); done).
  exists (u :: us'). split_and!; [by rewrite <- app_assoc|done|by rewrite Ht| | | |].
  - rewrite Hsup, supply_Set by done. rewrite Hsm, Hc. cbn [held map]. rewrite value_of_cons, Hval.
    rewrite (supply_proper D v v1) by (by apply same_live). lia.
  - constructor; [by split; [exists c|]|]. eapply Forall2_impl; [exact Hf|]. intros j w [(d & Hd & Hx) Hu]. split; [|done].
    rewrite SetCoins_spec in Hd. case_bool_decide as E; [|exists d; split; [by rewrite <- Hsm|done]].
    injection Hd as <-. exists c. split; [by rewrite E|]. by apply Hback.
  - intros k Hk. rewrite Hout, SetCoins_spec, bool_decide_eq_false_2 by (done || by intros ->). by rewrite Hsm.
  - intros k Hk. apply Hfr. rewrite live_Set. case_bool_decide as E; [|by rewrite Hsm]. subst k. rewrite Hc in Hk. exfalso.
    cbn in Hk. destruct (IsPruned c) eqn:Ep; [|done]. unfold IsPruned in Ep. rewrite forallb_forall in Ep.
    apply list_elem_of_lookup_2, list_elem_of_In, Ep in Hat. unfold unspent in Hun'. by rewrite Hat in Hun'.
Qed.
End Supply.

(** ** The transactions of a block *)

Section Accounts.
Context {V : Type} {CV : CoinsView V} {CS : CoinsViewSpec V} {B : OpenSSLBN} {K : Crypto} {E : CacheEnv}.
Abbreviation view := (CCoinsViewCache V).
Context (f1 f2 : Z) (th strict : bool) (flags nHeight : Z) (D : list Z) (HD : NoDup D).

Lemma value_in_loop_sum ins n x (v : view) m w : value_in_loop ins n v = Some (m, w) -> n = s64 x ->
  exists outs, Forall2 (fun i o => exists c, names v i c o) ins outs /\ m = s64 (x + value_of outs).
Proof.
  revert n x v. induction ins as [|i ins IH]; intros n x v H Hn; cbn [value_in_loop] in H.
  { injection H as <- <-. exists []. split; [constructor|]. change (value_of []) with 0. by rewrite Z.add_0_r. }
  unfold GetOutputFor in H. destruct (GetCoinsRef v _) as [[c v1]|] eqn:Eg; [|done]. apply GetCoinsRef_Some in Eg as [Hc Hs].
  case_if_in H; [|done]. destruct (txout_at c _) as [o|] eqn:Eo; [|done].
  destruct (IH _ (x + nValue o) _ H) as (outs & Hf & ->); [by rewrite Hn, s64_add_l|]. exists (o :: outs).
  split; [|rewrite value_of_cons; f_equal; lia]. constructor; [by exists c|].
  eapply Forall2_impl; [exact Hf|]. intros j y (d & Hd). exists d. by apply (names_same v v1).
Qed.

Lemma Forall2_fun {A C} (P Q : A -> C -> Prop) l l1 l2 : (forall a c1 c2, P a c1 -> Q a c2 -> c1 = c2) ->
  Forall2 P l l1 -> Forall2 Q l l2 -> l1 = l2.
Proof.
  intros Hpq H. revert l2. induction H as [|a c l l1 Hac _ IH]; intros l2 H2; [by inversion H2|].
  inversion H2 as [|? c2 ? l3 Hc2 Hl3]; subst. f_equal; [by eapply Hpq|by apply IH].
Qed.

(** the totals of the loop, before they are reduced to 64 bits *)
Record totals := { tIn : Z; tOut : Z; tFees : Z }.
Definition accounts (t : totals) (s : connecting (V := V)) : Prop :=
  n_nValueIn s = s64 (tIn t) /\ n_nValueOut s = s64 (tOut t) /\ n_nFees s = s64 (tFees t).
Definition touches (tx : CTransaction) (h : Z) : Prop :=
  h ∈ D /\ (IsCoinBase tx = false -> Forall (fun i => o_hash (prevout i) ∈ D) (vin tx)).

Lemma connect_tx_supply tx h s s' t : connect_tx f1 f2 th strict flags nHeight tx h s = Some (inl s') -> accounts t s ->
  view_money (n_view s) -> touches tx h -> outputs_ok tx -> live (Vm (n_view s) h) = None ->
  exists vi fee, let vo := value_of (vout tx) in
    accounts {| tIn := tIn t + vi; tOut := tOut t + vo; tFees := tFees t + fee |} s' /\ 0 <= fee /\ 0 <= vo <= MAX_MONEY /\
    fee = (if IsCoinBase tx then 0 else vi - vo) /\ (IsCoinBase tx = true -> vi = 0) /\
    supply D (n_view s') = supply D (n_view s) + vo - vi /\ view_money (n_view s') /\
    (forall k, k ∉ D -> Vm (n_view s') k = Vm (n_view s) k) /\
    (forall k, k <> h -> live (Vm (n_view s) k) = None -> live (Vm (n_view s') k) = None).
Proof.
  intros Hc (Hin & Hout & Hfees) Hv [Hh Hd] [_ Ho] Hfresh. destruct (connect_tx_accepted _ _ _ _ _ _ _ _ _ _ Hc) as (nOut & Hvo & Hvo' & Hx).
  apply value_out_loop_iff in Hvo; [|unfold MAX_MONEY, COIN; lia]. destruct Hvo as (Hvr & Hvm & ->). cbn [Z.add] in *.
  pose proof (value_of_nonneg _ Hvr) as Hv0. destruct (coins_of_value tx nHeight Ho) as [Hcv Hcm].
  assert (Hset : forall w, view_money w -> live (Vm w h) = None ->
    supply D (SetCoins w h (coins_of tx nHeight)) = supply D w + value_of (vout tx) /\
    view_money (SetCoins w h (coins_of tx nHeight)) /\
    (forall k, k ∉ D -> Vm (SetCoins w h (coins_of tx nHeight)) k = Vm w k) /\
    (forall k, k <> h -> live (Vm (SetCoins w h (coins_of tx nHeight)) k) = live (Vm w k))).
  { intros w Hw Hl. split_and!.
    - rewrite supply_Set by done. rewrite Hcv, <- held_live, Hl. cbn. lia.
    - by apply view_money_Set.
    - intros k Hk. rewrite SetCoins_spec, bool_decide_eq_false_2; [done|]. by intros ->.
    - intros k Hk. by rewrite live_Set, bool_decide_eq_false_2. }
  destruct (IsCoinBase tx) eqn:Ecb.
  - destruct Hx as (Hvw & _ & Hi & Hf & _). exists 0, 0. cbn zeta. unfold accounts. cbn [tIn tOut tFees]. rewrite Hvw. destruct (Hset (n_view s) Hv Hfresh) as (S1 & S2 & S3 & S4).
    split_and!; try done; try lia; [by rewrite Hi, Hin, Z.add_0_r|by rewrite Hvo', Hout, s64_add_l|by rewrite Hf, Hfees, Z.add_0_r|].
    intros k Hk Hl. by rewrite S4.
  - destruct Hx as (w1 & nIn & w2 & ch & w3 & us & v2 & H1 & Hvi & H2 & Hci & Hsp & Hvw & _ & Hi & Hf & _).
    destruct (CheckInputs_amounts _ _ _ _ _ _ _ _ _ _ Ecb Hci) as (_ & ht & outs & _ & _ & Hsd & Hmr & _ & Hfee & _).
    apply CheckInputs_keeps in Hci. assert (Hs3 : same_view (n_view s) w3) by by rewrite H1, H2.
    unfold GetValueIn in Hvi. rewrite Ecb in Hvi. destruct (value_in_loop_sum _ _ 0 _ _ _ Hvi eq_refl) as (outs2 & Hf2 & ->).
    assert (Hv3 : view_money w3) by by rewrite <- (same_live _ _ Hs3).
    destruct (spend_inputs_supply D _ _ _ _ _ HD (Hd eq_refl) Hv3 Hsp) as (us' & -> & Hm2 & _ & Hsup & Hfs & Hk2 & Hl2).
    apply Forall2_fmap_r in Hfs. change (u_txout <$> us') with (map u_txout us') in Hfs.
    assert (Hs32 : same_view w2 w3) by done. assert (Hs31 : same_view w1 w3) by by rewrite H2.
    assert (E1 : map u_txout us' = outs).
    { eapply Forall2_fun; [|exact Hfs|exact Hsd]. intros i o1 o2 Ha (c & Hb & _). eapply spends_fun; [exact Ha|].
      exists c. by apply (names_same w2 w3). }
    assert (E2 : map u_txout us' = outs2).
    { eapply Forall2_fun; [|exact Hfs|exact Hf2]. intros i o1 o2 Ha (c & Hb). eapply spends_fun; [exact Ha|].
      exists c. by apply (names_same w1 w3). }
    subst outs2. rewrite E1 in *. cbn [Z.add] in *. exists (value_of outs), (value_of outs - value_of (vout tx)). cbn zeta. unfold accounts. cbn [tIn tOut tFees]. rewrite Hvw.
    destruct (Hset v2 Hm2) as (S1 & S2 & S3 & S4); [apply Hl2; by rewrite (same_live _ _ Hs3)|].
    split_and!; try done; try lia.
    + by rewrite Hi, Hin, s64_add_r, s64_add_l.
    + by rewrite Hvo', Hout, s64_add_l.
    + by rewrite Hf, Hfees, s64_sub_l, s64_add_r, s64_add_l.
    + rewrite S1, Hsup. rewrite (supply_proper D (n_view s) w3) by (by apply same_live). lia.
    + intros k Hk. rewrite S3, Hk2 by done. by destruct Hs3 as [-> _].
    + intros k Hk Hl. rewrite S4 by done. apply Hl2. by rewrite (same_live _ _ Hs3).
Qed.
(** what the coinbases among the transactions pay *)
Definition minted (l : list (CTransaction * Z)) : Z := sumZ (map (fun x => if IsCoinBase x.1 then value_of (vout x.1) else 0) l).

Lemma connect_txs_supply l s s' t : connect_txs f1 f2 th strict flags nHeight l s = Some (inl s') -> accounts t s ->
  view_money (n_view s) -> Forall (fun x => touches x.1 x.2 /\ outputs_ok x.1 /\ live (Vm (n_view s) x.2) = None) l -> NoDup (map snd l) ->
  exists t', accounts t' s' /\ tFees t <= tFees t' /\
    tFees t' - tFees t = (tIn t' - tIn t) - (tOut t' - tOut t) + minted l /\
    supply D (n_view s') = supply D (n_view s) + (tOut t' - tOut t) - (tIn t' - tIn t) /\
    view_money (n_view s') /\ (forall k, k ∉ D -> Vm (n_view s') k = Vm (n_view s) k).
Proof.
  revert s t. induction l as [|[tx h] l IH]; intros s t H Ha Hv Hf Hnd; cbn [connect_txs] in H.
  { injection H as <-. exists t. split_and!; try done; try lia. unfold minted; cbn; lia. }
  apply Forall_cons in Hf as [(Ht & Ho & Hl) Hf]. cbn [map snd fst] in *. apply NoDup_cons in Hnd as [Hnin Hnd].
  destruct (connect_tx _ _ _ _ _ _ tx h s) as [[s1|]|] eqn:Ec; [|done|done].
  destruct (connect_tx_supply _ _ _ _ _ Ec Ha Hv Ht Ho Hl) as (vi & fee & Ha1 & Hfee & _ & Hfe & Hcb & Hsup & Hv1 & Hk1 & Hl1).
  destruct (IH s1 _ H Ha1 Hv1) as (t' & Ha' & Hle & Heq & Hsup' & Hv' & Hk'); [|done|].
  { rewrite Forall_forall in Hf |- *. intros x Hx. destruct (Hf x Hx) as (H1 & H2 & H3). split_and!; [done|done|].
    apply Hl1; [|done]. intros Heq. apply Hnin. rewrite <- Heq. apply list_elem_of_In, in_map, list_elem_of_In, Hx. }
  cbn [tIn tOut tFees] in *. exists t'. unfold minted, sumZ in *. cbn [map foldr fst]. change (foldr Z.add 0 ?l) with (sumZ l) in *.
  split_and!; [done|lia| |lia|done|].
  - destruct (IsCoinBase tx); [specialize (Hcb eq_refl)|]; lia.
  - intros k Hk. by rewrite Hk', Hk1.
Qed.
End Accounts.

(** the least fee of a transaction in a block *)
Lemma GetMinFee_block {K : Crypto} f2 tx : MIN_TX_FEE <= GetMinFee MIN_TX_FEE f2 tx 1 false GMF_BLOCK <= MAX_MONEY.
Proof.
  unfold GetMinFee. cbn [andb negb Z.eqb]. rewrite andb_false_r. cbn [andb].
  assert (Hs : 0 <= GetSerializeSize ser_CTransaction tx < 2 ^ 32).
  { unfold ser_CTransaction, ser_iso, ser_tuple4. cbn [GetSerializeSize]. apply u32_range. }
  set (n := GetSerializeSize _ _) in *. clearbody n. assert (0 <= n / 1000 <= 2 ^ 32) by dlia.
  change (negb (1 =? 1)%positive) with false. cbn [andb]. rewrite s64_small by (unfold MIN_TX_FEE, CENT; lia).
  destruct (MoneyRange _) eqn:E; cbn [negb]; [apply MoneyRange_iff in E|]; unfold MAX_MONEY, COIN, MIN_TX_FEE, CENT in *; lia.
Qed.

Lemma outputs_ok_valid {K : Crypto} tx : CheckTransaction tx = Valid -> outputs_ok tx /\ 0 <= value_of (vout tx) <= MAX_MONEY.
Proof.
  intros H. apply CheckTransaction_rules in H as (_ & Hne & _ & Ho & Hs & _).
  assert (Hp : Forall (fun o => 0 <= nValue o <= MAX_MONEY) (vout tx)).
  { eapply Forall_impl; [exact Ho|]. unfold MIN_TXOUT_AMOUNT, MIN_TX_FEE, CENT. intros x Hx; cbn in *. lia. }
  split; [split; [done|]|split; [by apply value_of_nonneg|done]]. eapply Forall_impl; [exact Hp|]. intros x Hx; cbn in *. lia.
Qed.
