(* ===== verification/Connect.v ===== *)
(** * Connecting a block to the chain (main.cpp)

    The global state of the node ([node]) and [CBlock::ConnectBlock]: the checks, the undo data, the updates of the
    block index and its databases.  The settings are a record [params]; the adjusted time is one of them.  The
    properties: connecting a block creates no more money than its reward, and ends with a verdict. *)

From stdpp Require Import gmap.
From S2P Require Import Prelude OpenSSL BigNum Target Serialize Crypto Script Transaction ScriptEval ScriptStd Coins View Merkle Block BlockFile Chain Supply.
Local Open Scope Z_scope.

(** ** State *)

(** an index as the database stores it: pointers are replaced by hashes *)
Record CDiskBlockIndex := { di_index : CBlockIndex; hashPrev : Z; hashBlock : Z }.
Definition disk_index (hash : Z) (b : CBlockIndex) : CDiskBlockIndex :=
  {| di_index := b; hashPrev := default 0 (pprev b); hashBlock := hash |}.

Record params := {
  p_nMinTxFee : Z; p_nMinRelayTxFee : Z;
  p_threads : bool;  (** [nScriptCheckThreads] is not zero *)
  p_fTxIndex : bool; p_nAdjustedTime : Z; p_hashGenesisBlock : Z; p_target : TargetParams; p_pchMessageStart : bytes;
}.

(** the global variables a validation changes; the databases are maps, writing to them can fail *)
Record node := {
  mapBlockIndex : gmap Z CBlockIndex;
  setBlockIndexValid : gset Z;
  pindexGenesisBlock : option Z; pindexBest : option Z;
  hashBestChain : Z; nBestHeight : Z; nBestChainWork : Z; nBestInvalidWork : Z;
  disk : storage;
  t_blockindex : gmap Z CDiskBlockIndex; t_txindex : gmap Z CDiskTxPos; t_bestinvalid : Z;
  signatureCache : SigCache.CSignatureCache;
}.
Definition set_index (m : gmap Z CBlockIndex) (n : node) : node :=
  {| mapBlockIndex := m; setBlockIndexValid := setBlockIndexValid n; pindexGenesisBlock := pindexGenesisBlock n; pindexBest := pindexBest n;
     hashBestChain := hashBestChain n; nBestHeight := nBestHeight n; nBestChainWork := nBestChainWork n; nBestInvalidWork := nBestInvalidWork n;
     disk := disk n; t_blockindex := t_blockindex n; t_txindex := t_txindex n; t_bestinvalid := t_bestinvalid n; signatureCache := signatureCache n |}.
Definition set_valid (s : gset Z) (n : node) : node :=
  {| mapBlockIndex := mapBlockIndex n; setBlockIndexValid := s; pindexGenesisBlock := pindexGenesisBlock n; pindexBest := pindexBest n;
     hashBestChain := hashBestChain n; nBestHeight := nBestHeight n; nBestChainWork := nBestChainWork n; nBestInvalidWork := nBestInvalidWork n;
     disk := disk n; t_blockindex := t_blockindex n; t_txindex := t_txindex n; t_bestinvalid := t_bestinvalid n; signatureCache := signatureCache n |}.
Definition set_genesis (p : option Z) (n : node) : node :=
  {| mapBlockIndex := mapBlockIndex n; setBlockIndexValid := setBlockIndexValid n; pindexGenesisBlock := p; pindexBest := pindexBest n;
     hashBestChain := hashBestChain n; nBestHeight := nBestHeight n; nBestChainWork := nBestChainWork n; nBestInvalidWork := nBestInvalidWork n;
     disk := disk n; t_blockindex := t_blockindex n; t_txindex := t_txindex n; t_bestinvalid := t_bestinvalid n; signatureCache := signatureCache n |}.
Definition set_disk (d : storage) (n : node) : node :=
  {| mapBlockIndex := mapBlockIndex n; setBlockIndexValid := setBlockIndexValid n; pindexGenesisBlock := pindexGenesisBlock n; pindexBest := pindexBest n;
     hashBestChain := hashBestChain n; nBestHeight := nBestHeight n; nBestChainWork := nBestChainWork n; nBestInvalidWork := nBestInvalidWork n;
     disk := d; t_blockindex := t_blockindex n; t_txindex := t_txindex n; t_bestinvalid := t_bestinvalid n; signatureCache := signatureCache n |}.
Definition set_tables (bi : gmap Z CDiskBlockIndex) (ti : gmap Z CDiskTxPos) (n : node) : node :=
  {| mapBlockIndex := mapBlockIndex n; setBlockIndexValid := setBlockIndexValid n; pindexGenesisBlock := pindexGenesisBlock n; pindexBest := pindexBest n;
     hashBestChain := hashBestChain n; nBestHeight := nBestHeight n; nBestChainWork := nBestChainWork n; nBestInvalidWork := nBestInvalidWork n;
     disk := disk n; t_blockindex := bi; t_txindex := ti; t_bestinvalid := t_bestinvalid n; signatureCache := signatureCache n |}.
Definition set_cache (c : SigCache.CSignatureCache) (n : node) : node :=
  {| mapBlockIndex := mapBlockIndex n; setBlockIndexValid := setBlockIndexValid n; pindexGenesisBlock := pindexGenesisBlock n; pindexBest := pindexBest n;
     hashBestChain := hashBestChain n; nBestHeight := nBestHeight n; nBestChainWork := nBestChainWork n; nBestInvalidWork := nBestInvalidWork n;
     disk := disk n; t_blockindex := t_blockindex n; t_txindex := t_txindex n; t_bestinvalid := t_bestinvalid n; signatureCache := c |}.

(** the fields of an index that change after it was made *)
Definition set_nMoneySupply (x : Z) (b : CBlockIndex) : CBlockIndex :=
  {| pprev := pprev b; pnext := pnext b; nHeight := nHeight b; nFile := nFile b; nDataPos := nDataPos b; nUndoPos := nUndoPos b;
     nChainWork := nChainWork b; nWorkTransition := nWorkTransition b; i_nPrimeChainType := i_nPrimeChainType b;
     i_nPrimeChainLength := i_nPrimeChainLength b; nMoneySupply := x; nTx := nTx b; nChainTx := nChainTx b; nStatus := nStatus b;
     i_nVersion := i_nVersion b; i_hashMerkleRoot := i_hashMerkleRoot b; i_nTime := i_nTime b; i_nBits := i_nBits b; i_nNonce := i_nNonce b |}.
Definition set_undo_status (pos status : Z) (b : CBlockIndex) : CBlockIndex :=
  {| pprev := pprev b; pnext := pnext b; nHeight := nHeight b; nFile := nFile b; nDataPos := nDataPos b; nUndoPos := pos;
     nChainWork := nChainWork b; nWorkTransition := nWorkTransition b; i_nPrimeChainType := i_nPrimeChainType b;
     i_nPrimeChainLength := i_nPrimeChainLength b; nMoneySupply := nMoneySupply b; nTx := nTx b; nChainTx := nChainTx b; nStatus := status;
     i_nVersion := i_nVersion b; i_hashMerkleRoot := i_hashMerkleRoot b; i_nTime := i_nTime b; i_nBits := i_nBits b; i_nNonce := i_nNonce b |}.
Definition set_nStatus (status : Z) (b : CBlockIndex) : CBlockIndex := set_undo_status (nUndoPos b) status b.
Definition set_pnext (p : option Z) (b : CBlockIndex) : CBlockIndex :=
  {| pprev := pprev b; pnext := p; nHeight := nHeight b; nFile := nFile b; nDataPos := nDataPos b; nUndoPos := nUndoPos b;
     nChainWork := nChainWork b; nWorkTransition := nWorkTransition b; i_nPrimeChainType := i_nPrimeChainType b;
     i_nPrimeChainLength := i_nPrimeChainLength b; nMoneySupply := nMoneySupply b; nTx := nTx b; nChainTx := nChainTx b; nStatus := nStatus b;
     i_nVersion := i_nVersion b; i_hashMerkleRoot := i_hashMerkleRoot b; i_nTime := i_nTime b; i_nBits := i_nBits b; i_nNonce := i_nNonce b |}.

Definition GetBlockPos (b : CBlockIndex) : CDiskBlockPos :=
  if Z.land (nStatus b) BLOCK_HAVE_DATA =? 0 then null_pos else {| d_nFile := nFile b; d_nPos := nDataPos b |}.
Definition GetUndoPos (b : CBlockIndex) : CDiskBlockPos :=
  if Z.land (nStatus b) BLOCK_HAVE_UNDO =? 0 then null_pos else {| d_nFile := nFile b; d_nPos := nUndoPos b |}.

(** writing to the block tree database; whether it succeeded: the functions of the code throw when it does not *)
Definition WriteBlockIndex (d : CDiskBlockIndex) (n : node) : bool * node :=
  let '(ok, s) := io (disk n) in
  let n := set_disk s n in
  if ok then (true, set_tables (<[hashBlock d := d]> (t_blockindex n)) (t_txindex n) n) else (false, n).
Definition WriteTxIndex (vect : list (Z * CDiskTxPos)) (n : node) : bool * node :=
  let '(ok, s) := io (disk n) in
  let n := set_disk s n in
  if ok then (true, set_tables (t_blockindex n) (foldl (fun m x => <[x.1 := x.2]> m) (t_txindex n) vect) n) else (false, n).

(** an assignment through the pointer to an index; the dummy index of a block template has no hash and is not in the map *)
Definition write_index (phashBlock : option Z) (b : CBlockIndex) (n : node) : node :=
  match phashBlock with Some h => set_index (<[h := b]> (mapBlockIndex n)) n | None => n end.

(** ** ConnectBlock *)

(** what a function returns, or that it throws a [std::runtime_error] *)
Inductive outcome := Ret (b : bool) | Throw.

(** the two blocks of another chain that duplicate a transaction *)
Definition fEnforceBIP30 (phashBlock : option Z) (height : Z) : bool :=
  match phashBlock with
  | None => true
  | Some h => negb (((height =? 91842) && (h =? 0x00000000000a4d0a398161ffc163c503763b1f4360639393e0e4c8e300e0caec)) ||
                    ((height =? 91880) && (h =? 0x00000000000743f190a18c5577a3c2d2a1f610ae9601ac046a38084ccb7cd721)))
  end.
Definition nBIP16SwitchTime : Z := 1333238400.
Definition connect_flags (fStrictPayToScriptHash : bool) : Z :=
  Z.lor SCRIPT_VERIFY_NOCACHE (if fStrictPayToScriptHash then SCRIPT_VERIFY_P2SH else SCRIPT_VERIFY_NONE).

(** where each transaction is, for the transaction index *)
Fixpoint tx_positions (l : list CTransaction) (hashes : list Z) (pos : CDiskTxPos) : list (Z * CDiskTxPos) :=
  match l, hashes with
  | tx :: l, h :: hashes =>
    (h, pos) :: tx_positions l hashes {| t_pos := t_pos pos; t_nTxOffset := u32 (t_nTxOffset pos + GetSerializeSize ser_CTransaction tx) |}
  | _, _ => []
  end.

Section Connect.
Context {V : Type} {CV : CoinsView V} {B : OpenSSLBN} {K : Crypto} {E : CacheEnv} (p : params).
Abbreviation view := (CCoinsViewCache V).

(** the checks given to the threads; [None]: an assertion fails in one of them *)
Fixpoint control_Wait (checks : list CScriptCheck) (cache : SigCache.CSignatureCache) : option bool * SigCache.CSignatureCache :=
  match checks with
  | [] => (Some true, cache)
  | k :: r =>
    let '(ok, cache) := run_check k cache in
    match ok with Some true => control_Wait r cache | x => (x, cache) end
  end.

Definition verdict_state (r : result) (state : CValidationState) : bool * CValidationState :=
  match r with Accepted => (true, state) | Invalid => state_Invalid false state | Rejected level => state_DoS level false false state end.
Definition abort (state : CValidationState) (n : node) (v : view) : option (outcome * CValidationState * node * view) :=
  let '(r, state) := state_Error state in Some (Ret r, state, n, v).

Definition start_connecting (n : node) (v : view) : connecting :=
  {| n_nSigOps := 0; n_nFees := 0; n_nValueIn := 0; n_nValueOut := 0; n_vtxundo := []; n_checks := [];
     n_view := v; n_cache := signatureCache n |}.

(** the last part: the undo data, the status of the index and the transaction index *)
Definition write_undo (blockundo : CBlockUndo) (h : Z) (pi : CBlockIndex) (state : CValidationState) (n : node)
    : option (io_result * CValidationState * CBlockIndex * node) :=
  if pos_IsNull (GetUndoPos pi) then
    let? hashPrevBlock := pprev pi in
    let '(r, state, s) := store_undo (p_pchMessageStart p) blockundo (nFile pi) hashPrevBlock state (disk n) in
    let n := set_disk s n in
    match r with
    | IoDone pos =>
      let pi := set_undo_status (d_nPos pos) (Z.lor (nStatus pi) BLOCK_HAVE_UNDO) pi in
      Some (r, state, pi, write_index (Some h) pi n)
    | _ => Some (r, state, pi, n)
    end
  else Some (IoDone (GetUndoPos pi), state, pi, n).
Definition finish_connect (vPos : list (Z * CDiskTxPos)) (h : Z) (pi : CBlockIndex) (state : CValidationState) (n : node) (v : view)
    : option (outcome * CValidationState * node * view) :=
  let '(ok, n) := if p_fTxIndex p then WriteTxIndex vPos n else (true, n) in
  if negb ok then Some (Throw, state, n, v)
  else Some (Ret true, state, n, SetBestBlock v (Some {| b_hash := h; b_height := nHeight pi |})).
Definition write_connected (blockundo : CBlockUndo) (vPos : list (Z * CDiskTxPos)) (h : Z) (pi : CBlockIndex) (state : CValidationState)
    (n : node) (v : view) : option (outcome * CValidationState * node * view) :=
  if pos_IsNull (GetUndoPos pi) || (Z.land (nStatus pi) BLOCK_VALID_MASK <? BLOCK_VALID_SCRIPTS) then
    let? (r, state, pi, n) := write_undo blockundo h pi state n in
    match r with
    | IoThrow => Some (Throw, state, n, v)
    | IoError => abort state n v
    | IoDone _ =>
      let pi := set_nStatus (Z.lor (Z.land (nStatus pi) (Z.lnot BLOCK_VALID_MASK)) BLOCK_VALID_SCRIPTS) pi in
      let n := write_index (Some h) pi n in
      let '(ok, n) := WriteBlockIndex (disk_index h pi) n in
      if negb ok then Some (Throw, state, n, v) else finish_connect vPos h pi state n v
    end
  else finish_connect vPos h pi state n v.

(** the coinbase may take the reward and the fees *)
Definition coinbase_limit (coinbase : CTransaction) (nBits nFees : Z) : option Z :=
  let? value := GetBlockValue (p_target p) nBits nFees in
  Some (s64 (s64 (value - GetMinFee (p_nMinTxFee p) (p_nMinRelayTxFee p) coinbase 1 false GMF_BLOCK) + MIN_TX_FEE)).

(** [None]: an assertion fails.  A view that is not accepted is dropped by the callers. *)
Definition ConnectBlock (b : CBlock) (phashBlock : option Z) (pi : CBlockIndex) (fJustCheck : bool) (state : CValidationState)
    (n : node) (v : view) : option (outcome * CValidationState * node * view) :=
  let '(ok, state) := CheckBlock (p_nAdjustedTime p) b (negb fJustCheck) (negb fJustCheck) state in
  if negb ok then Some (Ret false, state, n, v)
  else
    let '(t, v) := GetBestBlock v in
    if negb (bool_decide (b_hash <$> t = pprev pi)) then None
    else if block_GetHash b =? p_hashGenesisBlock p then
      Some (Ret true, state, set_genesis phashBlock n, SetBestBlock v ((fun h => {| b_hash := h; b_height := nHeight pi |}) <$> phashBlock))
    else
      let? (fresh, v) := if fEnforceBIP30 phashBlock (nHeight pi) then bip30_loop (txids b) v else Some (true, v) in
      if negb fresh then let '(r, state) := state_DoS 100 false false state in Some (Ret r, state, n, v)
      else
        let fStrictPayToScriptHash := nBIP16SwitchTime <=? i_nTime pi in
        let? st := connect_txs (p_nMinTxFee p) (p_nMinRelayTxFee p) (p_threads p) fStrictPayToScriptHash
                     (connect_flags fStrictPayToScriptHash) (nHeight pi) (zip (vtx b) (txids b)) (start_connecting n v) in
        match st with
        | inr e => let '(r, state) := verdict_state (rf_result e) state in Some (Ret r, state, set_cache (rf_cache e) n, rf_view e)
        | inl s =>
          let v := n_view s in
          let n := set_cache (n_cache s) n in
          let supply := s64 (s64 (match pprev pi with
                                  | Some h => match mapBlockIndex n !! h with Some q => nMoneySupply q | None => 0 end
                                  | None => 0
                                  end + n_nValueOut s) - n_nValueIn s) in
          let pi := if fJustCheck then pi else set_nMoneySupply supply pi in
          let '(ok, n) := if fJustCheck then (true, n)
                          else WriteBlockIndex (disk_index (default 0 phashBlock) pi) (write_index phashBlock pi n) in
          if negb ok then Some (Throw, state, n, v)
          else
            let? coinbase := vtx b !! 0%nat in
            let? nValueOut := GetValueOut coinbase in
            let? limit := coinbase_limit coinbase (i_nBits pi) (n_nFees s) in
            if limit <? nValueOut then let '(r, state) := state_DoS 100 false false state in Some (Ret r, state, n, v)
            else
              let '(ok, cache) := control_Wait (n_checks s) (signatureCache n) in
              let? ok := ok in
              let n := set_cache cache n in
              if negb ok then let '(r, state) := state_DoS 100 false false state in Some (Ret r, state, n, v)
              else if fJustCheck then Some (Ret true, state, n, v)
              else
                let? h := phashBlock in
                let pos := {| t_pos := GetBlockPos pi; t_nTxOffset := GetSizeOfCompactSize (Z.of_nat (length (vtx b))) |} in
                write_connected (n_vtxundo s) (tx_positions (vtx b) (txids b) pos) h pi state n v
        end.
End Connect.

(** ** What a successful connection has done *)

Section ConnectLemmas.
Context {V : Type} {CV : CoinsView V} {CS : CoinsViewSpec V} {B : OpenSSLBN} {L : OpenSSLBNLaws B} {K : Crypto} {KL : CryptoLaws K} {E : CacheEnv}.
Context (p : params).
Abbreviation view := (CCoinsViewCache V).

Lemma bip30_loop_spec hashes (v : view) : exists b w, bip30_loop hashes v = Some (b, w) /\ same_view v w /\
  (b = true <-> Forall (fun h => live (Vm v h) = None) hashes).
Proof.
  revert v. induction hashes as [|h r IH]; intros v; cbn [bip30_loop]; [by exists true, v|].
  pose proof (HaveCoins_spec v h) as Hh. destruct (HaveCoins v h) as [b w]. destruct Hh as [-> Hs].
  assert (Hrest : forall w', same_view v w' -> live (Vm v h) = None -> exists b w2, bip30_loop r w' = Some (b, w2) /\ same_view v w2 /\
    (b = true <-> Forall (fun h => live (Vm v h) = None) (h :: r))).
  { intros w' Hw' Hl. destruct (IH w') as (b & w2 & -> & Hs2 & Hb). exists b, w2. split_and!; [done|by rewrite Hw'|].
    rewrite Hb, Forall_cons. destruct Hw' as [Hm _].
    split; [intros Hf; split; [done|]|intros [_ Hf]]; (eapply Forall_impl; [exact Hf|]; intros k; cbn; by rewrite Hm). }
  destruct (Vm v h) as [c|] eqn:Ec.
  - rewrite bool_decide_eq_true_2 by done. destruct (GetCoinsRef_total w h c) as (w1 & -> & Hs1); [destruct Hs as [Hm _]; by rewrite Hm|].
    destruct (IsPruned c) eqn:Ep; cbn [negb].
    + apply Hrest; [by rewrite Hs|cbn; by rewrite Ep].
    + exists false, w1. split_and!; [done|by rewrite Hs|]. split; [done|]. intros Hf. apply Forall_cons in Hf as [Hf _].
      rewrite Ec in Hf. cbn in Hf. by rewrite Ep in Hf.
  - rewrite bool_decide_eq_false_2 by by intros []. by apply Hrest.
Qed.

(** the assignments to an index that keep a property of it *)
Definition at_index (n : node) (h : Z) (P : CBlockIndex -> Prop) : Prop := exists pi, mapBlockIndex n !! h = Some pi /\ P pi.

Lemma WriteBlockIndex_index d n : mapBlockIndex (WriteBlockIndex d n).2 = mapBlockIndex n.
Proof. unfold WriteBlockIndex. destruct (io _) as [[] s]; done. Qed.
Lemma WriteBlockIndex_cache d n : signatureCache (WriteBlockIndex d n).2 = signatureCache n.
Proof. unfold WriteBlockIndex. destruct (io _) as [[] s]; done. Qed.
Lemma WriteTxIndex_index l n : mapBlockIndex (WriteTxIndex l n).2 = mapBlockIndex n.
Proof. unfold WriteTxIndex. destruct (io _) as [[] s]; done. Qed.

Lemma finish_connect_inv vPos h pi st n v st' n' (v' : view) : finish_connect p vPos h pi st n v = Some (Ret true, st', n', v') ->
  st' = st /\ v' = SetBestBlock v (Some {| b_hash := h; b_height := nHeight pi |}) /\ mapBlockIndex n' = mapBlockIndex n.
Proof.
  unfold finish_connect, abort, state_Error. intros H. assert (Hi := WriteTxIndex_index vPos n). destruct (p_fTxIndex p).
  - destruct (WriteTxIndex vPos n) as [[] n1]; cbn [negb] in H; [|done]. injection H as <- <- <-. by split_and!.
  - by injection H as <- <- <-.
Qed.

Lemma write_connected_inv undo vPos h pi st n v st' n' (v' : view) :
  write_connected p undo vPos h pi st n v = Some (Ret true, st', n', v') -> mapBlockIndex n !! h = Some pi ->
  v' = SetBestBlock v (Some {| b_hash := h; b_height := nHeight pi |}) /\ at_index n' h (fun q => nMoneySupply q = nMoneySupply pi).
Proof.
  unfold write_connected. intros H Hpi. case_if_in H.
  2:{ apply finish_connect_inv in H as (_ & -> & Hi). split; [done|]. exists pi. by rewrite Hi. }
  destruct (write_undo _ _ _ _ _ _) as [[[[r st1] pi1] n1]|] eqn:Eu; [|done].
  assert (Hp1 : nMoneySupply pi1 = nMoneySupply pi /\ nHeight pi1 = nHeight pi).
  { unfold write_undo in Eu. case_if_in Eu; [|by simplify_eq]. destruct (pprev pi); [|done].
    destruct (store_undo _ _ _ _ _ _) as [[r' ?] s]. destruct r'; by simplify_eq. }
  destruct Hp1 as [Hp1 Hp2]. destruct r; [|unfold abort, state_Error in H; done|done].
  pose proof (WriteBlockIndex_index (disk_index h (set_nStatus (Z.lor (Z.land (nStatus pi1) (Z.lnot BLOCK_VALID_MASK)) BLOCK_VALID_SCRIPTS) pi1))
    (write_index (Some h) (set_nStatus (Z.lor (Z.land (nStatus pi1) (Z.lnot BLOCK_VALID_MASK)) BLOCK_VALID_SCRIPTS) pi1) n1)) as Hw.
  destruct (WriteBlockIndex _ _) as [[] n2]; cbn [negb] in H; [|unfold abort, state_Error in H; done].
  apply finish_connect_inv in H as (_ & -> & Hi). cbn [snd] in Hw. split; [by rewrite <- Hp2|].
  eexists. split; [rewrite Hi, Hw; cbn [write_index set_index mapBlockIndex]; apply lookup_insert_eq|exact Hp1].
Qed.

(** the loop ends early only with a refusal *)
Lemma connect_txs_inr f1 f2 th strict fl hh l (s : connecting (V := V)) e : connect_txs f1 f2 th strict fl hh l s = Some (inr e) -> rf_result e <> Accepted.
Proof.
  revert s. induction l as [|[tx h] l IH]; intros s; cbn [connect_txs]; [done|].
  destruct (connect_tx _ _ _ _ _ _ tx h s) as [[s1|r]|] eqn:Et; [apply IH| |done]. intros [= <-]. unfold connect_tx in Et.
  repeat (case_match; simplify_eq; try done).
Qed.

Lemma ConnectBlock_inv b h pi st n v st' n' (v' : view) : ConnectBlock p b (Some h) pi false st n v = Some (Ret true, st', n', v') ->
  block_rules (p_nAdjustedTime p) true b /\ b_hash <$> Vt v = pprev pi /\
  (block_GetHash b = p_hashGenesisBlock p /\ (forall k, Vm v' k = Vm v k) \/
   block_GetHash b <> p_hashGenesisBlock p /\
   exists v1 s cb limit, same_view v v1 /\ let strict := nBIP16SwitchTime <=? i_nTime pi in
    (fEnforceBIP30 (Some h) (nHeight pi) = true -> Forall (fun h => live (Vm v h) = None) (txids b)) /\
    connect_txs (p_nMinTxFee p) (p_nMinRelayTxFee p) (p_threads p) strict (connect_flags strict) (nHeight pi) (zip (vtx b) (txids b))
      (start_connecting n v1) = Some (inl s) /\
    vtx b !! 0%nat = Some cb /\ coinbase_limit p cb (i_nBits pi) (n_nFees s) = Some limit /\ value_of (vout cb) <= limit /\
    v' = SetBestBlock (n_view s) (Some {| b_hash := h; b_height := nHeight pi |}) /\
    at_index n' h (fun q => nMoneySupply q =
      s64 (s64 (match pprev pi with Some h => match mapBlockIndex n !! h with Some q => nMoneySupply q | None => 0 end | None => 0 end + n_nValueOut s) - n_nValueIn s))).
Proof.
  unfold ConnectBlock. cbn [negb]. intros H. destruct (CheckBlock _ _ _ _ _) as [ok st1] eqn:Eck. destruct ok; cbn [negb] in H; [|done].
  destruct (CheckBlock_rules _ _ _ _ _ _ Eck) as [_ Hrules]. split; [done|].
  pose proof (GetBestBlock_spec v) as Hg. destruct (GetBestBlock v) as [t v0]. destruct Hg as [-> Hs0].
  destruct (bool_decide _) eqn:Eb; cbn [negb] in H; [|done]. apply bool_decide_eq_true in Eb. split; [done|].
  destruct (block_GetHash b =? _) eqn:Eh; b2p.
  { left. split; [done|]. injection H as <- <- <-. intros k. destruct Hs0 as [Hm _]. exact (Hm k). }
  right. split; [done|].
  assert (Hbip : exists fresh v1, (if fEnforceBIP30 (Some h) (nHeight pi) then bip30_loop (txids b) v0 else Some (true, v0)) = Some (fresh, v1) /\
    same_view v v1 /\ (fresh = true -> fEnforceBIP30 (Some h) (nHeight pi) = true -> Forall (fun h => live (Vm v h) = None) (txids b))).
  { destruct (fEnforceBIP30 _ _); [|by exists true, v0]. destruct (bip30_loop_spec (txids b) v0) as (f & w & -> & Hw & Hf).
    exists f, w. split_and!; [done|by rewrite Hs0|]. intros -> _. destruct Hs0 as [Hm _]. eapply Forall_impl; [exact (proj1 Hf eq_refl)|].
    intros k; cbn. by rewrite Hm. }
  destruct Hbip as (fresh & v1 & Hbip & Hs1 & Hfresh). rewrite Hbip in H. destruct fresh; cbn [negb] in H; [|unfold state_DoS in H; by destruct (mode st1)].
  specialize (Hfresh eq_refl). set (strict := nBIP16SwitchTime <=? i_nTime pi) in *. exists v1.
  destruct (connect_txs _ _ _ _ _ _ _ _) as [[s|e]|] eqn:Ec; [| |done].
  2:{ exfalso. apply connect_txs_inr in Ec. unfold verdict_state, state_Invalid, state_DoS in H. by destruct (rf_result e); [done|destruct (mode st1)..]. }
  match type of H with context [WriteBlockIndex ?d ?m] => pose proof (WriteBlockIndex_index d m) as Hwi end.
  destruct (WriteBlockIndex _ _) as [okw n1]. cbn [snd] in Hwi. destruct okw; cbn [negb] in H; [|unfold abort, state_Error in H; done].
  destruct (vtx b !! 0%nat) as [cb|]; [|done]. destruct (GetValueOut cb) as [vo|] eqn:Evo; [|done].
  destruct (coinbase_limit p cb _ _) as [limit|] eqn:El; [|done]. case_if_in H; [unfold state_DoS in H; by destruct (mode st1)|].
  destruct (control_Wait _ _) as [[ok|] cache]; [|done]. destruct ok; cbn [negb] in H; [|unfold state_DoS in H; by destruct (mode st1)].
  apply write_connected_inv in H as [-> (q & Hq & Hqs)]; [|cbn; rewrite Hwi; cbn; apply lookup_insert_eq]. b2p.
  apply value_out_loop_iff in Evo as (_ & _ & ->); [|unfold MAX_MONEY, COIN; lia]. cbn [Z.add] in *.
  exists s, cb, limit. split_and!; try done. exists q. split; [done|]. rewrite Hqs. done.
Qed.
End ConnectLemmas.

(** the transactions a block creates or spends from *)
Definition block_ids {K : Crypto} (b : CBlock) : list Z :=
  txids b ++ map (fun i => o_hash (prevout i)) (concat (map vin (tail (vtx b)))).

(** the reward of a target *)
Definition reward {B : OpenSSLBN} (tp : TargetParams) (nBits : Z) : Z :=
  match TargetGetMint tp nBits with Some (_, m) => m | None => 0 end.

Section Inflation.
Context {V : Type} {CV : CoinsView V} {CS : CoinsViewSpec V} {B : OpenSSLBN} {L : OpenSSLBNLaws B} {K : Crypto} {KL : CryptoLaws K} {E : CacheEnv}.
Context (p : params).
Abbreviation view := (CCoinsViewCache V).

Lemma reward_range tp nBits : 0 <= reward tp nBits <= nMintLimit.
Proof.
  unfold reward, TargetGetMint, nMintLimit, COIN. case_if; [lia|]. repeat (destruct (bn_div _ _) as [?|]; [|lia]).
  unfold Get64. assert (0 < 2 ^ 64) as Hp by lia. case_if; b2p; [lia|]. pose proof (Z.mod_pos_bound (getuint256 (bn_mul z1 (of_int64 CENT))) _ Hp). lia.
Qed.

Lemma coinbase_limit_reward cb nBits F limit : p_nMinTxFee p = MIN_TX_FEE -> 0 <= F <= 2 * MAX_MONEY ->
  coinbase_limit p cb nBits (s64 F) = Some limit -> limit <= reward (p_target p) nBits + F.
Proof.
  intros Hf HF. unfold coinbase_limit, GetBlockValue. rewrite Hf. pose proof (reward_range (p_target p) nBits) as Hr. unfold reward in *.
  destruct (TargetGetMint _ _) as [[ok m]|]; [|done]. pose proof (GetMinFee_block (p_nMinRelayTxFee p) cb) as Hm. intros [= <-].
  unfold MAX_MONEY, MIN_TX_FEE, CENT, COIN, nMintLimit, COIN in *. set (fee := GetMinFee _ _ _ _ _ _) in *. clearbody fee. rewrite !(s64_small F), !(s64_small m) by lia.
  rewrite (s64_small (m + F)), (s64_small (m + F - fee)), s64_small by lia. lia.
Qed.

(** every transaction of a checked block is in order and creates or spends from [block_ids] only *)
Lemma block_txs b t D : block_rules t true b -> block_ids b ⊆ D ->
  Forall (fun x => touches D x.1 x.2 /\ outputs_ok x.1) (zip (vtx b) (txids b)) /\ map snd (zip (vtx b) (txids b)) = txids b /\
  exists cb, vtx b !! 0%nat = Some cb /\ minted (zip (vtx b) (txids b)) = value_of (vout cb) /\ 0 <= value_of (vout cb) <= MAX_MONEY.
Proof.
  intros [_ _ _ (cb & rest & Hv & Hcb & Hrest) Htx _ _ _] HD. unfold txids. rewrite Forall_forall in Htx, Hrest. split_and!.
  - apply Forall_forall. intros [tx h] Hin. cbn [fst snd]. unfold zip in Hin.
    assert (Hx : tx ∈ vtx b /\ h = GetHash tx).
    { clear -Hin. induction (vtx b) as [|y l IH]; cbn in Hin; [by apply not_elem_of_nil in Hin|].
      apply elem_of_cons in Hin as [[= -> ->]|Hin]; [split; [by left|done]|]. destruct (IH Hin). split; [by right|done]. }
    destruct Hx as [Hx ->]. split; [|by apply outputs_ok_valid, Htx]. split.
    + apply HD. unfold block_ids. apply elem_of_app. left. unfold txids. apply list_elem_of_In, in_map, list_elem_of_In, Hx.
    + intros Hncb. apply Forall_forall. intros i Hi. apply HD. unfold block_ids. apply elem_of_app. right. rewrite Hv in Hx |- *. cbn [tail].
      apply elem_of_cons in Hx as [->|Hx]; [congruence|]. apply list_elem_of_In, (in_map (fun i => o_hash (prevout i))), in_concat.
      exists (vin tx). split; [apply in_map|]; by apply list_elem_of_In.
  - clear. induction (vtx b) as [|y l IH]; cbn; [done|]. by f_equal.
  - exists cb. split_and!; [by rewrite Hv| |apply outputs_ok_valid, Htx; rewrite Hv; left..].
    unfold minted. rewrite Hv. cbn [map zip zip_with fst sumZ foldr]. rewrite Hcb.
    enough (foldr Z.add 0 (map (fun x => if IsCoinBase x.1 then value_of (vout x.1) else 0) (zip_with pair rest (map GetHash rest))) = 0) by lia.
    clear Hv Hcb. induction rest as [|y l IH]; [done|]. cbn. rewrite Hrest by by left. rewrite IH; [done|]. intros x Hx. apply Hrest. by right.
Qed.

(** C2: No inflation: a block that [ConnectBlock] accepts on a view without negative outputs changes only the
    transactions it names, and over any list of ids that covers them the money in the unspent outputs grows by at most
    the reward of the block's target: the coinbase cannot take more than the reward and the fees, whatever overflows
    the 64-bit sums of the loop go through; and the supply recorded in the block's index is the one of its
    predecessor plus exactly that change. *)
Theorem ConnectBlock_no_inflation b h pi st n (v : view) st' n' v' D
    (H : ConnectBlock p b (Some h) pi false st n v = Some (Ret true, st', n', v'))
    (Hfee : p_nMinTxFee p = MIN_TX_FEE) (Hbip : fEnforceBIP30 (Some h) (nHeight pi) = true)
    (Hv : view_money v) (HD : NoDup D) (Hall : block_ids b ⊆ D) (Hsup : supply D v <= MAX_MONEY) :
  view_money v' /\ (forall k, k ∉ D -> Vm v' k = Vm v k) /\
  supply D v' <= supply D v + reward (p_target p) (i_nBits pi) /\
  (block_GetHash b <> p_hashGenesisBlock p -> forall q bq, pprev pi = Some q -> mapBlockIndex n !! q = Some bq ->
     at_index n' h (fun pi' => nMoneySupply pi' = s64 (nMoneySupply bq + (supply D v' - supply D v)))).
Proof.
  pose proof (reward_range (p_target p) (i_nBits pi)) as Hrew.
  destruct (ConnectBlock_inv _ _ _ _ _ _ _ _ _ _ H) as (Hrules & _ & [[Hg Hm]|(Hg & v1 & s & cb & limit & Hs1 & Hrest)]).
  { assert (Hl : live_eq v v') by (intros k; by rewrite Hm). split_and!; [by rewrite <- Hl|done| |by intros]. rewrite <- (supply_proper D v v' Hl). lia. }
  destruct Hrest as (Hfresh & Hc & Hcb & Hlim & Hpay & -> & Hidx).
  destruct (block_txs b _ D Hrules Hall) as (Htxs & Hids & cb' & Hcb' & Hmint & Hcbr). rewrite Hcb in Hcb'. injection Hcb' as <-.
  assert (Hv1 : view_money v1) by by rewrite <- (same_live _ _ Hs1).
  set (t0 := {| tIn := 0; tOut := 0; tFees := 0 |}).
  destruct (connect_txs_supply _ _ _ _ _ _ D HD _ _ _ t0 Hc) as (t & (Hi & Ho & Hf) & Hle & Heq & Hgain & Hv' & Hout).
  { done. } { done. }
  { pose proof (Hfresh Hbip) as Hfr. clear -Htxs Hfr Hs1. unfold txids in *. induction (vtx b) as [|y l IH]; [constructor|].
    cbn in *. apply Forall_cons in Htxs as [[Ha Hb] Htxs], Hfr as [Hfy Hfr]. constructor; [|by apply IH]. cbn [fst snd] in *.
    split_and!; [done|done|]. destruct Hs1 as [Hm _]. by rewrite Hm. }
  { rewrite Hids. exact (br_unique _ _ _ Hrules). }
  cbn [t0 tIn tOut tFees start_connecting n_view] in *. rewrite <- (supply_proper D v v1) in Hgain by (by apply same_live).
  rewrite Hmint in Heq. pose proof (supply_nonneg D _ Hv') as Hnn.
  rewrite Hf in Hlim. apply coinbase_limit_reward in Hlim; [|done|lia].
  assert (Hsb : supply D (SetBestBlock (n_view s) (Some {| b_hash := h; b_height := nHeight pi |})) = supply D (n_view s)) by done.
  split_and!; [done| |rewrite Hsb; lia|].
  - intros k Hk. destruct Hs1 as [Hm _]. rewrite <- Hm, <- Hout by done. done.
  - intros _ q bq Hq Hbq. destruct Hidx as (pi' & Hp1 & Hp2). exists pi'. split; [done|]. rewrite Hp2, Hq, Hbq, Hsb, Hgain, Hi, Ho.
    rewrite s64_add_r, s64_sub_r, s64_sub_l. f_equal. lia.
Qed.
End Inflation.

(** ** Witnesses *)

Definition sample_params : params :=
  {| p_nMinTxFee := MIN_TX_FEE; p_nMinRelayTxFee := MIN_TX_FEE; p_threads := true; p_fTxIndex := false; p_nAdjustedTime := 1400000100;
     p_hashGenesisBlock := 1; p_target := mainnet_target; p_pchMessageStart := sample_magic |}.
(** the block to connect: a coinbase and [spend_tx], at height 10 on block 1 *)
Definition connect_block : CBlock := sample_block [sample_coinbase; spend_tx].
Definition connect_index : CBlockIndex := set_nStatus (BLOCK_VALID_TRANSACTIONS + BLOCK_HAVE_DATA) (sample_entry (Some 1) None 10 1400000000).
(** writing the index succeeds, the undo file cannot be opened in advance *)
Definition connect_storage : storage := set_faults sample_storage [true; true; false].
Definition sample_node : node :=
  {| mapBlockIndex := <[1 := set_nMoneySupply (10 * COIN) (sample_entry None None 9 1399999000)]> {[2 := connect_index]}; setBlockIndexValid := ∅;
     pindexGenesisBlock := Some 1; pindexBest := Some 1; hashBestChain := 1; nBestHeight := 9; nBestChainWork := 0; nBestInvalidWork := 0;
     disk := connect_storage; t_blockindex := ∅; t_txindex := ∅; t_bestinvalid := 0; signatureCache := SigCache.empty_cache |}.

Lemma sample_view_money : view_money sample_view.
Proof.
  intros k c H. apply live_Some in H as [H _]. unfold Vm in H. cbn in H. rewrite lookup_empty in H. destruct (decide (k = 5)) as [->|Hk].
  - rewrite lookup_singleton_eq in H. injection H as <-. repeat constructor; cbn; unfold COIN; lia.
  - by rewrite lookup_singleton_ne in H.
Qed.

Definition sample_connected : option (outcome * CValidationState * node * CCoinsViewCache memory_view) :=
  ConnectBlock (B := ZBN) (K := ToyCrypto) sample_params connect_block (Some 2) connect_index false new_state sample_node sample_view.

Lemma ConnectBlock_no_inflation_witness : exists v',
  supply (V := memory_view) (block_ids (K := ToyCrypto) connect_block) v' <= 10 * COIN + reward (B := ZBN) mainnet_target 0x07000000.
Proof.
  assert (Hc : match sample_connected with Some (Ret true, _, _, _) => true | _ => false end = true) by (vm_compute; reflexivity).
  destruct sample_connected as [[[[[[]|] st] n] v]|] eqn:Er; try discriminate Hc. exists v. unfold sample_connected in Er.
  pose proof (ConnectBlock_no_inflation (V := memory_view) (B := ZBN) (K := ToyCrypto) sample_params connect_block 2 connect_index new_state
    sample_node sample_view st n v (block_ids (K := ToyCrypto) connect_block) Er) as H.
  refine (proj1 (proj2 (proj2 (H eq_refl eq_refl sample_view_money _ _ _)))).
  - apply (bool_decide_unpack _). vm_compute. exact I.
  - by intros x.
  - vm_compute. discriminate.
Defined.
