(* ===== verification/TxDB.v ===== *)
(** * The databases (leveldb.h, txdb.cpp)

    LevelDB itself is a parameter, [LevelDB] with its documented behaviour in [LevelDBLaws]: a map from byte strings to byte
    strings, written in batches that are applied as a whole or not at all, and read in the order of the keys.  [ToyDB] is an
    instance for witnesses.  On top of it are the templates of [CLevelDB], the view of the coins in the database, an instance of
    the interfaces of View.v, and the tables of the block tree, which refine the tables the block index code works on
    (Connect.v, BlockFile.v).  A failed write throws from [CLevelDB::WriteBatch], which is the false verdict here; reads of a
    damaged database, which throw too, are not modelled. *)

From stdpp Require Import gmap sorting.
From S2P Require Import Prelude OpenSSL BigNum Serialize Crypto Script Transaction Coins View Block BlockFile Chain Connect.
Local Open Scope Z_scope.

(** ** LevelDB *)

Inductive db_op := Put (key value : bytes) | Delete (key : bytes).

(** the order of the keys: byte by byte *)
Fixpoint bytes_ltb (a b : bytes) : bool :=
  match a, b with
  | _, [] => false
  | [], _ :: _ => true
  | x :: a, y :: b => (x <? y) || ((x =? y) && bytes_ltb a b)
  end.

Class LevelDB := {
  DB : Type;
  db_Get : DB -> bytes -> option bytes;  (** [None]: not found *)
  db_Write : DB -> list db_op -> option DB;  (** [None]: the status is an error *)
  db_entries : DB -> list (bytes * bytes);  (** what an iterator meets from the first key on *)
}.

Definition apply_op (m : gmap bytes bytes) (o : db_op) : gmap bytes bytes :=
  match o with Put k v => <[k := v]> m | Delete k => delete k m end.
Definition apply_ops (ops : list db_op) (m : gmap bytes bytes) : gmap bytes bytes := foldl apply_op m ops.

Class LevelDBLaws (L : LevelDB) := {
  contents : DB -> gmap bytes bytes;
  db_Get_spec : forall d k, db_Get d k = contents d !! k;
  db_Write_spec : forall d ops d', db_Write d ops = Some d' -> contents d' = apply_ops ops (contents d);
  db_entries_spec : forall d, db_entries d ≡ₚ map_to_list (contents d);
  db_entries_sorted : forall d, StronglySorted (fun a b => bytes_ltb a.1 b.1 = true) (db_entries d);
}.

(** ** CLevelDB *)

Section CLevelDB.
Context {L : LevelDB} {KT VT : Type} (ck : codec KT) (cv : codec VT).

Definition batch_Write (key : KT) (value : VT) : db_op := Put (Serialize ck key) (Serialize cv value).
Definition batch_Erase (key : KT) : db_op := Delete (Serialize ck key).
Definition Read (db : DB) (key : KT) : option VT :=
  let? strValue := db_Get db (Serialize ck key) in
  let? (value, _) := Unserialize cv strValue in
  Some value.
Definition Exists (db : DB) (key : KT) : bool := bool_decide (is_Some (db_Get db (Serialize ck key))).
Definition WriteBatch (batch : list db_op) (db : DB) : bool * DB := match db_Write db batch with Some d => (true, d) | None => (false, db) end.
Definition Write (key : KT) (value : VT) (db : DB) : bool * DB := WriteBatch [batch_Write key value] db.
Definition Erase (key : KT) (db : DB) : bool * DB := WriteBatch [batch_Erase key] db.
End CLevelDB.
Definition Sync {L : LevelDB} (db : DB) : bool * DB := WriteBatch [] db.

(** keys: a character, alone or with what follows *)
Definition ser_char : codec Z := ser_uint 1.
Definition hash_key : codec (Z * Z) := ser_pair ser_char (ser_uint 32).
Definition file_key : codec (Z * Z) := ser_pair ser_char (ser_sint 4).
Definition flag_key : codec (Z * bytes) := ser_pair ser_char ser_string.
Definition CHAR_B : Z := 66.
Definition CHAR_F : Z := 70.
Definition CHAR_I : Z := 73.
Definition CHAR_R : Z := 82.
Definition CHAR_b : Z := 98.
Definition CHAR_c : Z := 99.
Definition CHAR_f : Z := 102.
Definition CHAR_l : Z := 108.
Definition CHAR_t : Z := 116.
Definition CHAR_0 : Z := 48.
Definition CHAR_1 : Z := 49.

(** ** CCoinsViewDB *)

(** the height of a block index, where [mapBlockIndex] has one with that hash *)
Class IndexHeights := index_height : Z -> option Z.

Section CoinsDB.
Context {L : LevelDB} {H : IndexHeights} {K : Crypto}.

(** writing pruned coins fails an assertion; they are erased instead *)
Definition ser_CCoins : codec CCoins :=
  {| Serialize c := default [] (coins_write c); Unserialize := coins_read; GetSerializeSize c := default 0 (coins_size c) |}.

Definition BatchWriteCoins (hash : Z) (coins : CCoins) : db_op :=
  if IsPruned coins then batch_Erase hash_key (CHAR_c, hash) else batch_Write hash_key ser_CCoins (CHAR_c, hash) coins.
Definition BatchWriteHashBestChain (hash : Z) : db_op := batch_Write ser_char (ser_uint 32) CHAR_B hash.

Definition coinsdb_GetCoins (db : DB) (txid : Z) : option CCoins := Read hash_key ser_CCoins db (CHAR_c, txid).
Definition coinsdb_SetCoins (txid : Z) (coins : CCoins) (db : DB) : bool * DB := WriteBatch [BatchWriteCoins txid coins] db.
Definition coinsdb_HaveCoins (db : DB) (txid : Z) : bool := Exists hash_key db (CHAR_c, txid).
Definition coinsdb_GetBestBlock (db : DB) : option block_ref :=
  let? hashBestChain := Read ser_char (ser_uint 32) db CHAR_B in
  let? h := index_height hashBestChain in
  Some {| b_hash := hashBestChain; b_height := h |}.
Definition coinsdb_SetBestBlock (r : block_ref) (db : DB) : bool * DB := WriteBatch [BatchWriteHashBestChain (b_hash r)] db.
(** the coins in an order of their keys, which all differ *)
Definition coinsdb_BatchWrite (mapCoins : gmap Z CCoins) (pindex : option block_ref) (db : DB) : bool * DB :=
  let batch := map (fun c => BatchWriteCoins c.1 c.2) (map_to_list mapCoins) in
  WriteBatch (batch ++ match pindex with Some r => [BatchWriteHashBestChain (b_hash r)] | None => [] end) db.
End CoinsDB.

(** hashes of 256 bits; other numbers are the hash of no transaction *)
Definition uint256_ok (h : Z) : Prop := 0 <= h < 2 ^ 256.
#[export] Instance uint256_ok_dec h : Decision (uint256_ok h).
Proof. unfold uint256_ok. apply _. Defined.
#[export] Instance CCoinsViewDB {L : LevelDB} {H : IndexHeights} {K : Crypto} : CoinsView DB :=
  {| view_GetCoins d h := (if decide (uint256_ok h) then coinsdb_GetCoins d h else None, d); view_GetBestBlock d := (coinsdb_GetBestBlock d, d); view_BatchWrite d m t := coinsdb_BatchWrite m t d |}.

(** ** CBlockTreeDB *)

Definition CLIENT_VERSION : Z := 80600.
(** [VARINT] of an [int64] *)
Definition ser_varint_int64 : codec Z :=
  {| Serialize := WriteVarInt 64;
     Unserialize s := let? (n, s) := ReadVarInt 64 s in Some (s64 n, s);
     GetSerializeSize := GetSizeOfVarInt 64 |}.

(** an index as its constructor leaves it *)
Definition null_index : CBlockIndex :=
  {| pprev := None; pnext := None; nHeight := 0; nFile := 0; nDataPos := 0; nUndoPos := 0; nChainWork := 0; nWorkTransition := 0;
     i_nPrimeChainType := 0; i_nPrimeChainLength := 0; nMoneySupply := 0; nTx := 0; nChainTx := 0; nStatus := 0;
     i_nVersion := 0; i_hashMerkleRoot := 0; i_nTime := 0; i_nBits := 0; i_nNonce := 0 |}.

(** a field that is there only when the status says so *)
Definition ser_if {T} (b : bool) (c : codec T) (absent : T) : codec T :=
  {| Serialize x := if b then Serialize c x else [];
     Unserialize s := if b then Unserialize c s else Some (absent, s);
     GetSerializeSize x := if b then GetSerializeSize c x else 0 |}.
Definition has (nStatus mask : Z) : bool := negb (Z.land nStatus mask =? 0).

(** on disk the version of the client comes first, whose value is not looked at *)
Definition ser_index_head : codec (Z * (Z * Z * Z) * (Z * Z * Z)) :=
  ser_tuple3 ser_varint_int (ser_tuple3 (ser_varint 32) (ser_varint 32) ser_varint_int64) (ser_tuple3 ser_varint_int (ser_varint 32) (ser_varint 32)).
Definition ser_index_place (nStatus : Z) : codec (Z * Z * Z) :=
  ser_tuple3 (ser_if (has nStatus (Z.lor BLOCK_HAVE_DATA BLOCK_HAVE_UNDO)) ser_varint_int 0) (ser_if (has nStatus BLOCK_HAVE_DATA) (ser_varint 32) 0)
    (ser_if (has nStatus BLOCK_HAVE_UNDO) (ser_varint 32) 0).
Definition ser_index_tail : codec (Z * Z * Z * (Z * Z * Z) * Z) :=
  ser_tuple3 (ser_tuple3 (ser_sint 4) (ser_uint 32) (ser_uint 32)) (ser_tuple3 (ser_uint 4) (ser_uint 4) (ser_uint 4)) (ser_uint 32).

Definition index_head (d : CDiskBlockIndex) : Z * (Z * Z * Z) * (Z * Z * Z) :=
  let b := di_index d in
  (CLIENT_VERSION, (i_nPrimeChainType b, i_nPrimeChainLength b, nMoneySupply b), (nHeight b, nStatus b, nTx b)).
Definition index_place (b : CBlockIndex) : Z * Z * Z := (nFile b, nDataPos b, nUndoPos b).
Definition index_tail (d : CDiskBlockIndex) : Z * Z * Z * (Z * Z * Z) * Z :=
  let b := di_index d in
  ((i_nVersion b, hashPrev d, i_hashMerkleRoot b), (i_nTime b, i_nBits b, i_nNonce b), hashBlock d).

Definition ser_CDiskBlockIndex : codec CDiskBlockIndex :=
  {| Serialize d := Serialize ser_index_head (index_head d) ++ Serialize (ser_index_place (nStatus (di_index d))) (index_place (di_index d)) ++
       Serialize ser_index_tail (index_tail d);
     Unserialize s :=
       let? (a, s) := Unserialize ser_index_head s in
       let '(_, (t, l, m), (h, st, n)) := a in
       let? (b, s) := Unserialize (ser_index_place st) s in
       let '(f, dp, up) := b in
       let? (c, s) := Unserialize ser_index_tail s in
       let '((v, p, r), (ti, bi, no), hb) := c in
       Some ({| di_index := {| pprev := None; pnext := None; nHeight := h; nFile := f; nDataPos := dp; nUndoPos := up; nChainWork := 0; nWorkTransition := 0;
                  i_nPrimeChainType := t; i_nPrimeChainLength := l; nMoneySupply := m; nTx := n; nChainTx := 0; nStatus := st;
                  i_nVersion := v; i_hashMerkleRoot := r; i_nTime := ti; i_nBits := bi; i_nNonce := no |};
                hashPrev := p; hashBlock := hb |}, s);
     GetSerializeSize d := u32 (GetSerializeSize ser_index_head (index_head d) +
       GetSerializeSize (ser_index_place (nStatus (di_index d))) (index_place (di_index d)) + GetSerializeSize ser_index_tail (index_tail d)) |}.

(** ** The codecs *)

Lemma Serialize_inj {T} (c : codec T) (valid : T -> Prop) {Hc : Lawful c valid} x y : valid x -> valid y -> Serialize c x = Serialize c y -> x = y.
Proof.
  intros Hx Hy He. pose proof (ser_roundtrip x [] Hx) as H1. rewrite He in H1. rewrite (ser_roundtrip y [] Hy) in H1. by injection H1.
Qed.

#[export] Instance ser_char_lawful : Lawful ser_char (fun z => 0 <= z < 2 ^ 8).
Proof. exact ser_uint8_lawful. Qed.
#[export] Instance hash_key_lawful : Lawful hash_key (fun p => 0 <= p.1 < 2 ^ 8 /\ 0 <= p.2 < 2 ^ 256).
Proof. exact (ser_pair_lawful ser_char (ser_uint 32)). Qed.
#[export] Instance file_key_lawful : Lawful file_key (fun p => 0 <= p.1 < 2 ^ 8 /\ - 2 ^ 31 <= p.2 < 2 ^ 31).
Proof. exact (ser_pair_lawful ser_char (ser_sint 4)). Qed.

#[export] Instance ser_if_lawful {T} (b : bool) (c : codec T) (absent : T) (V : T -> Prop) {Hc : Lawful c V} :
  Lawful (ser_if b c absent) (fun x => if b then V x else x = absent).
Proof. destruct b; [split; apply Hc|]. split; cbn; [by intros x s ->|done|by constructor]. Qed.

#[export] Instance ser_varint_int64_lawful : Lawful ser_varint_int64 (fun n => 0 <= n < 2 ^ 63).
Proof.
  pose proof ser_varint64_lawful as Hc. split; cbn [Serialize Unserialize GetSerializeSize ser_varint_int64]; intros n.
  - intros rest Hn. pose proof (ser_roundtrip (c := ser_varint 64) n rest) as H. cbn [Serialize Unserialize ser_varint] in H. rewrite H by lia. cbn. by rewrite s64_small by lia.
  - intros Hn. apply (ser_size (c := ser_varint 64)). lia.
  - intros Hn. apply (ser_bytes (c := ser_varint 64)). lia.
Qed.

#[export] Instance ser_CCoins_lawful {K : Crypto} {KL : CryptoLaws K} : Lawful ser_CCoins valid_coins.
Proof.
  split; cbn [Serialize Unserialize GetSerializeSize ser_CCoins].
  - intros c rest Hc. destruct (coins_write_read c rest Hc) as (data & -> & Hr & _). exact Hr.
  - intros c Hc. destruct (coins_write_read c [] Hc) as (data & -> & _ & -> & _). done.
  - intros c Hc. destruct (coins_write_read c [] Hc) as (data & -> & _ & _ & Hb). exact Hb.
Qed.

(** what the database keeps of an index: what is in memory only is dropped, and so are positions the status says are not there *)
Definition persistent (b : CBlockIndex) : CBlockIndex :=
  let st := nStatus b in
  {| pprev := None; pnext := None; nHeight := nHeight b;
     nFile := if has st (Z.lor BLOCK_HAVE_DATA BLOCK_HAVE_UNDO) then nFile b else 0; nDataPos := if has st BLOCK_HAVE_DATA then nDataPos b else 0;
     nUndoPos := if has st BLOCK_HAVE_UNDO then nUndoPos b else 0; nChainWork := 0; nWorkTransition := 0;
     i_nPrimeChainType := i_nPrimeChainType b; i_nPrimeChainLength := i_nPrimeChainLength b; nMoneySupply := nMoneySupply b; nTx := nTx b; nChainTx := 0;
     nStatus := st; i_nVersion := i_nVersion b; i_hashMerkleRoot := i_hashMerkleRoot b; i_nTime := i_nTime b; i_nBits := i_nBits b; i_nNonce := i_nNonce b |}.
Definition stored_index (d : CDiskBlockIndex) : CDiskBlockIndex := {| di_index := persistent (di_index d); hashPrev := hashPrev d; hashBlock := hashBlock d |}.
Record valid_index (b : CBlockIndex) : Prop := {
  vi_chain : 0 <= i_nPrimeChainType b < 2 ^ 32 /\ 0 <= i_nPrimeChainLength b < 2 ^ 32 /\ 0 <= nMoneySupply b < 2 ^ 63;
  vi_counts : 0 <= nHeight b < 2 ^ 31 /\ 0 <= nStatus b < 2 ^ 32 /\ 0 <= nTx b < 2 ^ 32;
  vi_place : 0 <= nFile b < 2 ^ 31 /\ 0 <= nDataPos b < 2 ^ 32 /\ 0 <= nUndoPos b < 2 ^ 32;
  vi_header : - 2 ^ 31 <= i_nVersion b < 2 ^ 31 /\ 0 <= i_hashMerkleRoot b < 2 ^ 256 /\ 0 <= i_nTime b < 2 ^ 32 /\ 0 <= i_nBits b < 2 ^ 32 /\ 0 <= i_nNonce b < 2 ^ 32;
}.
Definition valid_disk_index (d : CDiskBlockIndex) : Prop := valid_index (di_index d) /\ 0 <= hashPrev d < 2 ^ 256 /\ 0 <= hashBlock d < 2 ^ 256.

Lemma has_either st : has st BLOCK_HAVE_DATA = false -> has st BLOCK_HAVE_UNDO = false -> has st (Z.lor BLOCK_HAVE_DATA BLOCK_HAVE_UNDO) = false.
Proof.
  unfold has. rewrite !negb_false_iff, !Z.eqb_eq. intros H1 H2. apply Z.bits_inj'. intros i Hi.
  rewrite Z.land_spec, Z.lor_spec, Z.bits_0. apply (f_equal (fun z => Z.testbit z i)) in H1, H2. rewrite Z.land_spec, Z.bits_0 in H1, H2.
  destruct (Z.testbit st i); [|done]. simpl in *. by rewrite H1, H2.
Qed.

#[local] Instance ser_index_head_lawful : Lawful ser_index_head (fun '(v, (t, l, m), (h, st, n)) =>
  0 <= v < 2 ^ 31 /\ (0 <= t < 2 ^ 32 /\ 0 <= l < 2 ^ 32 /\ 0 <= m < 2 ^ 63) /\ (0 <= h < 2 ^ 31 /\ 0 <= st < 2 ^ 32 /\ 0 <= n < 2 ^ 32)).
Proof.
  pose proof (ser_tuple3_lawful ser_varint_int (ser_tuple3 (ser_varint 32) (ser_varint 32) ser_varint_int64) (ser_tuple3 ser_varint_int (ser_varint 32) (ser_varint 32))) as [H1 H2 H3].
  split; intros [[v [[t l] m]] [[h st] n]]; [apply (H1 (v, (t, l, m), (h, st, n)))|apply (H2 (v, (t, l, m), (h, st, n)))|apply (H3 (v, (t, l, m), (h, st, n)))].
Qed.
#[local] Instance ser_index_place_lawful st : Lawful (ser_index_place st) (fun '(f, d, u) =>
  (if has st (Z.lor BLOCK_HAVE_DATA BLOCK_HAVE_UNDO) then 0 <= f < 2 ^ 31 else f = 0) /\ (if has st BLOCK_HAVE_DATA then 0 <= d < 2 ^ 32 else d = 0) /\
  (if has st BLOCK_HAVE_UNDO then 0 <= u < 2 ^ 32 else u = 0)).
Proof. unfold ser_index_place. exact (ser_tuple3_lawful (ser_if _ ser_varint_int 0) (ser_if _ (ser_varint 32) 0) (ser_if _ (ser_varint 32) 0)). Qed.
#[local] Instance ser_index_tail_lawful : Lawful ser_index_tail (fun '((v, p, r), (t, b, n), h) =>
  (- 2 ^ 31 <= v < 2 ^ 31 /\ 0 <= p < 2 ^ 256 /\ 0 <= r < 2 ^ 256) /\ (0 <= t < 2 ^ 32 /\ 0 <= b < 2 ^ 32 /\ 0 <= n < 2 ^ 32) /\ 0 <= h < 2 ^ 256).
Proof.
  pose proof (ser_tuple3_lawful (ser_tuple3 (ser_sint 4) (ser_uint 32) (ser_uint 32)) (ser_tuple3 (ser_uint 4) (ser_uint 4) (ser_uint 4)) (ser_uint 32)) as [H1 H2 H3].
  split; intros [[[[v p] r] [[t b] n]] h]; [apply (H1 ((v, p, r), (t, b, n), h))|apply (H2 ((v, p, r), (t, b, n), h))|apply (H3 ((v, p, r), (t, b, n), h))].
Qed.

(** an index on disk: what is read back is what the database keeps *)
Lemma index_write_read d rest : valid_disk_index d ->
  Unserialize ser_CDiskBlockIndex (Serialize ser_CDiskBlockIndex d ++ rest) = Some (stored_index d, rest) /\
  Serialize ser_CDiskBlockIndex (stored_index d) = Serialize ser_CDiskBlockIndex d /\
  GetSerializeSize ser_CDiskBlockIndex d = u32 (Z.of_nat (length (Serialize ser_CDiskBlockIndex d))) /\
  all_bytes (Serialize ser_CDiskBlockIndex d).
Proof.
  intros ([(Ht & Hl & Hm) (Hh & Hs & Hn) (Hf & Hd & Hu) (Hv & Hr & Hti & Hb & Hno)] & Hp & Hk).
  assert (Hhead : 0 <= CLIENT_VERSION < 2 ^ 31 /\ (0 <= i_nPrimeChainType (di_index d) < 2 ^ 32 /\ 0 <= i_nPrimeChainLength (di_index d) < 2 ^ 32 /\
    0 <= nMoneySupply (di_index d) < 2 ^ 63) /\ (0 <= nHeight (di_index d) < 2 ^ 31 /\ 0 <= nStatus (di_index d) < 2 ^ 32 /\ 0 <= nTx (di_index d) < 2 ^ 32))
    by (unfold CLIENT_VERSION; split_and!; lia).
  set (st := nStatus (di_index d)) in *. pose (place := index_place (persistent (di_index d))).
  assert (Hplace : Serialize (ser_index_place st) (index_place (di_index d)) = Serialize (ser_index_place st) place /\
    GetSerializeSize (ser_index_place st) (index_place (di_index d)) = GetSerializeSize (ser_index_place st) place).
  { unfold place, persistent, index_place, ser_index_place. fold st. cbn [nFile nDataPos nUndoPos]. split.
    - cbn [Serialize ser_tuple3 ser_if]. by destruct (has st (Z.lor _ _)), (has st BLOCK_HAVE_DATA), (has st BLOCK_HAVE_UNDO).
    - cbn [GetSerializeSize ser_tuple3 ser_if]. by destruct (has st (Z.lor _ _)), (has st BLOCK_HAVE_DATA), (has st BLOCK_HAVE_UNDO). }
  assert (Hpv : let '(f, dp, u) := place in (if has st (Z.lor BLOCK_HAVE_DATA BLOCK_HAVE_UNDO) then 0 <= f < 2 ^ 31 else f = 0) /\
    (if has st BLOCK_HAVE_DATA then 0 <= dp < 2 ^ 32 else dp = 0) /\ (if has st BLOCK_HAVE_UNDO then 0 <= u < 2 ^ 32 else u = 0)).
  { unfold place, persistent, index_place. fold st. cbn [nFile nDataPos nUndoPos].
    by destruct (has st (Z.lor _ _)), (has st BLOCK_HAVE_DATA), (has st BLOCK_HAVE_UNDO). }
  assert (Hser : Serialize ser_CDiskBlockIndex (stored_index d) = Serialize ser_CDiskBlockIndex d).
  { cbn [Serialize ser_CDiskBlockIndex stored_index di_index]. change (nStatus (persistent (di_index d))) with st. fold place st. by rewrite (proj1 Hplace). }
  split; [|split; [exact Hser|]].
  - cbn [Serialize Unserialize ser_CDiskBlockIndex]. fold st. rewrite (proj1 Hplace), <- !app_assoc.
    rewrite (ser_roundtrip (c := ser_index_head)) by exact Hhead. cbn [index_head option_bind mbind]. fold st.
    rewrite (ser_roundtrip (c := ser_index_place st)) by exact Hpv. cbn [option_bind mbind]. unfold place at 1, index_place at 1.
    rewrite (ser_roundtrip (c := ser_index_tail)) by (unfold index_tail; split_and!; lia). reflexivity.
  - cbn [Serialize GetSerializeSize ser_CDiskBlockIndex]. fold st. rewrite (proj1 Hplace), (proj2 Hplace). split.
    + rewrite (ser_size (c := ser_index_head)) by exact Hhead. rewrite (ser_size (c := ser_index_place st)) by exact Hpv.
      rewrite (ser_size (c := ser_index_tail)) by (unfold index_tail; split_and!; lia). rewrite !length_app. autorewrite with len. rewrite <- Z.add_assoc, !u32_add_l. rewrite Z.add_comm, <- Z.add_assoc, u32_add_l. f_equal. lia.
    + rewrite !all_bytes_app. split_and!; [apply (ser_bytes (c := ser_index_head)), Hhead|apply (ser_bytes (c := ser_index_place st)), Hpv|].
      apply (ser_bytes (c := ser_index_tail)). unfold index_tail. split_and!; lia.
Qed.

(** ** The tables of the block tree *)

Module TreeDB.
Section TreeDB.
Context {L : LevelDB} {B : OpenSSLBN}.

Definition WriteBlockIndex (blockindex : CDiskBlockIndex) (db : DB) : bool * DB :=
  Write hash_key ser_CDiskBlockIndex (CHAR_b, hashBlock blockindex) blockindex db.
Definition ReadBestInvalidWork (db : DB) : option Z := Read ser_char ser_CBigNum db CHAR_I.
Definition WriteBestInvalidWork (bnBestInvalidWork : Z) (db : DB) : bool * DB := Write ser_char ser_CBigNum CHAR_I bnBestInvalidWork db.
Definition WriteBlockFileInfo (nFile : Z) (info : CBlockFileInfo) (db : DB) : bool * DB := Write file_key ser_CBlockFileInfo (CHAR_f, nFile) info db.
Definition ReadBlockFileInfo (db : DB) (nFile : Z) : option CBlockFileInfo := Read file_key ser_CBlockFileInfo db (CHAR_f, nFile).
Definition WriteLastBlockFile (nFile : Z) (db : DB) : bool * DB := Write ser_char (ser_sint 4) CHAR_l nFile db.
Definition ReadLastBlockFile (db : DB) : option Z := Read ser_char (ser_sint 4) db CHAR_l.
Definition WriteReindexing (fReindexing : bool) (db : DB) : bool * DB :=
  if fReindexing then Write ser_char ser_char CHAR_R CHAR_1 db else Erase ser_char CHAR_R db.
Definition ReadReindexing (db : DB) : bool := Exists ser_char db CHAR_R.
Definition ReadTxIndex (db : DB) (txid : Z) : option CDiskTxPos := Read hash_key ser_CDiskTxPos db (CHAR_t, txid).
Definition WriteTxIndex (vect : list (Z * CDiskTxPos)) (db : DB) : bool * DB :=
  WriteBatch (map (fun x => batch_Write hash_key ser_CDiskTxPos (CHAR_t, x.1) x.2) vect) db.
Definition WriteFlag (name : bytes) (fValue : bool) (db : DB) : bool * DB :=
  Write flag_key ser_char (CHAR_F, name) (if fValue then CHAR_1 else CHAR_0) db.
Definition ReadFlag (db : DB) (name : bytes) : option bool := (fun ch => ch =? CHAR_1) <$> Read flag_key ser_char db (CHAR_F, name).
End TreeDB.
End TreeDB.

(** ** Tables in a key-value store

    [holds char ck cv f m]: the keys of [m] that begin with [char] are those [f] has a value for, with the value [f] gives. *)

Definition holds {KT VT} (char : Z) (ck : codec KT) (cv : codec VT) (f : KT -> option VT) (m : gmap bytes bytes) : Prop :=
  forall rest v, m !! (char :: rest) = Some v <-> exists k x, f k = Some x /\ rest = Serialize ck k /\ v = Serialize cv x.
(** the key that is a character alone *)
Definition ser_unit : codec unit := {| Serialize _ := []; Unserialize s := Some (tt, s); GetSerializeSize _ := 0 |}.
#[export] Instance ser_unit_lawful : Lawful ser_unit (fun _ => True).
Proof. split; [by intros [] s _|done|by constructor]. Qed.

Section Holds.
Context {KT VT : Type} (ck : codec KT) (cv : codec VT) {VK : KT -> Prop} {LK : Lawful ck VK}.
Implicit Types (f g : KT -> option VT) (m : gmap bytes bytes).

Lemma ser_char_eq c : 0 <= c < 2 ^ 8 -> Serialize ser_char c = [c].
Proof. intros Hc. cbn. unfold ser_char. cbn. by rewrite Z.mod_small by lia. Qed.
Lemma pair_key_eq c (k : KT) : 0 <= c < 2 ^ 8 -> Serialize (ser_pair ser_char ck) (c, k) = c :: Serialize ck k.
Proof. intros Hc. cbn [Serialize ser_pair]. by rewrite ser_char_eq. Qed.

(** an operation on a key with another first character *)
Lemma holds_other char f m c rest (o : option bytes) : holds char ck cv f m -> c <> char -> holds char ck cv f (partial_alter (fun _ => o) (c :: rest) m).
Proof. intros H Hk r w. rewrite lookup_partial_alter_ne by congruence. apply H. Qed.

Lemma holds_lookup char f m k : holds char ck cv f m -> VK k -> (forall k', is_Some (f k') -> VK k') -> m !! (char :: Serialize ck k) = Serialize cv <$> f k.
Proof.
  intros H Hk Hf. destruct (f k) as [x|] eqn:Ef; cbn.
  - apply H. by exists k, x.
  - apply eq_None_not_Some. intros [v (k' & x & Hx & He & ->)%H]. apply (Serialize_inj ck VK) in He; [congruence|done|eauto].
Qed.

Lemma holds_put char f g m k x : holds char ck cv f m -> g k = Some x -> (forall k', is_Some (g k') -> VK k') -> (forall k', k' <> k -> g k' = f k') ->
  holds char ck cv g (<[char :: Serialize ck k := Serialize cv x]> m).
Proof.
  intros H Hg Hv Hgf rest v. rewrite lookup_insert_Some. split.
  - intros [[[= <-] <-]|[Hne (k' & y & Hy & -> & ->)%H]]; [by exists k, x|]. exists k', y. rewrite Hgf; [done|]. intros ->. by apply Hne.
  - intros (k' & y & Hy & -> & ->). destruct (decide (Serialize ck k' = Serialize ck k)) as [He|Hne].
    + left. apply (Serialize_inj ck VK) in He as ->; [|eauto..]. split; congruence.
    + right. split; [congruence|]. apply H. exists k', y. rewrite <- Hgf; [done|]. by intros ->.
Qed.
Lemma holds_erase char f g m k : holds char ck cv f m -> VK k -> (forall k', is_Some (f k') -> VK k') -> g k = None -> (forall k', k' <> k -> g k' = f k') ->
  holds char ck cv g (delete (char :: Serialize ck k) m).
Proof.
  intros H Hk Hv Hg Hgf rest v. rewrite lookup_delete_Some. split.
  - intros [Hne (k' & y & Hy & -> & ->)%H]. exists k', y. rewrite Hgf; [done|]. intros ->. by apply Hne.
  - intros (k' & y & Hy & -> & ->). assert (Hk' : k' <> k) by congruence. rewrite Hgf in Hy by done. split; [|by apply H; exists k', y].
    intros [= He]. apply (Serialize_inj ck VK) in He; [done|done|eauto].
Qed.

(** reading a value back *)
Lemma holds_Read {L : LevelDB} {LL : LevelDBLaws L} {VV : VT -> Prop} {LV : Lawful cv VV} {KK} (kc : codec KK) (key : KK) char f d k :
  Serialize kc key = char :: Serialize ck k -> holds char ck cv f (contents d) -> VK k -> (forall k', is_Some (f k') -> VK k') ->
  (forall x, f k = Some x -> VV x) -> Read kc cv d key = f k.
Proof.
  intros He H Hk Hv Hx. unfold Read. rewrite db_Get_spec, He, (holds_lookup _ f) by done. destruct (f k) as [x|]; [|done]. cbn.
  rewrite <- (app_nil_r (Serialize cv x)), ser_roundtrip by eauto. done.
Qed.
End Holds.

(** ** The coins in the database *)

Section CoinsDBSpec.
Context {L : LevelDB} {LL : LevelDBLaws L} {H : IndexHeights} {K : Crypto} {KL : CryptoLaws K}.

Definition coins_key (h : Z) : bytes := Serialize hash_key (CHAR_c, h).
#[local] Arguments coins_key : simpl never.
#[local] Arguments BatchWriteCoins : simpl never.
(** coins the database can hold *)
Definition storable (h : Z) (c : CCoins) : Prop := uint256_ok h /\ (IsPruned c = true \/ valid_coins c).
Definition coins_value (c : CCoins) : option bytes := if IsPruned c then None else Some (Serialize ser_CCoins c).

Lemma coins_key_inj h h' : uint256_ok h -> uint256_ok h' -> coins_key h = coins_key h' -> h = h'.
Proof. unfold uint256_ok, coins_key. intros Hh Hh' He. apply (Serialize_inj hash_key _) in He; [by injection He|cbn; unfold CHAR_c; lia..]. Qed.
Lemma coins_key_char h : head (coins_key h) = Some CHAR_c.
Proof. reflexivity. Qed.

Lemma apply_coin h c m k : uint256_ok h -> uint256_ok k -> apply_op m (BatchWriteCoins h c) !! coins_key k = if decide (k = h) then coins_value c else m !! coins_key k.
Proof.
  intros Hh Hk. unfold BatchWriteCoins, coins_value, batch_Erase, batch_Write. fold (coins_key h). case_decide as Hd.
  - subst k. destruct (IsPruned c); cbn; [apply lookup_delete_eq|apply lookup_insert_eq].
  - assert (Hne : coins_key h <> coins_key k) by (intros He; by apply Hd, eq_sym, coins_key_inj).
    destruct (IsPruned c); cbn; [by apply lookup_delete_ne|by apply lookup_insert_ne].
Qed.
Lemma apply_ops_cons o ops m : apply_ops (o :: ops) m = apply_ops ops (apply_op m o).
Proof. done. Qed.
Lemma apply_coins l m k : NoDup l.*1 -> Forall (fun x => uint256_ok x.1) l -> uint256_ok k ->
  apply_ops (map (fun x => BatchWriteCoins x.1 x.2) l) m !! coins_key k = match (list_to_map l : gmap Z CCoins) !! k with Some c => coins_value c | None => m !! coins_key k end.
Proof.
  intros Hnd Hl Hk. revert m Hnd. induction Hl as [|[h c] l Hh Hl IH]; intros m Hnd; [done|]. cbn [fmap list_fmap fst] in Hnd. apply NoDup_cons in Hnd as [Hni Hnd].
  cbn [map fst snd]. rewrite list_to_map_cons, apply_ops_cons, (IH (apply_op m _) Hnd), apply_coin by done. destruct (decide (k = h)) as [->|Hne].
  - rewrite lookup_insert_eq. by rewrite (not_elem_of_list_to_map_1 _ _ Hni).
  - by rewrite lookup_insert_ne.
Qed.
Lemma apply_coins_other l m key : head key <> Some CHAR_c -> apply_ops (map (fun x => BatchWriteCoins x.1 x.2) l) m !! key = m !! key.
Proof.
  intros Hk. revert m. induction l as [|[h c] l IH]; intros m; [done|]. cbn [map fst snd]. rewrite apply_ops_cons, (IH (apply_op m _)).
  assert (Hne : coins_key h <> key) by (intros <-; by apply Hk). unfold BatchWriteCoins, batch_Erase, batch_Write. fold (coins_key h).
  destruct (IsPruned c); cbn; [by apply lookup_delete_ne|by apply lookup_insert_ne].
Qed.

(** a coin read back from its value *)
Lemma read_coins_value (c : CCoins) : IsPruned c = true \/ valid_coins c ->
  (let? v := coins_value c in let? (x, _) := Unserialize ser_CCoins v in Some x) = (if IsPruned c then None else Some c) /\ (is_Some (coins_value c) <-> IsPruned c = false).
Proof.
  intros Hc. unfold coins_value. destruct (IsPruned c) eqn:Ep; [split; [done|split; [by intros []|done]]|]. destruct Hc as [|Hc]; [done|].
  cbn [option_bind mbind]. rewrite <- (app_nil_r (Serialize ser_CCoins c)), ser_roundtrip by done. done.
Qed.

Lemma coinsdb_GetCoins_eq d h : coinsdb_GetCoins d h = let? v := contents d !! coins_key h in let? (x, _) := Unserialize ser_CCoins v in Some x.
Proof. unfold coinsdb_GetCoins, Read. by rewrite db_Get_spec. Qed.

(** what a batch leaves under each key *)
Lemma batch_contents m t d d' : map_Forall storable m -> coinsdb_BatchWrite m t d = (true, d') ->
  (forall h, uint256_ok h -> contents d' !! coins_key h = match m !! h with Some c => coins_value c | None => contents d !! coins_key h end) /\
  contents d' !! [CHAR_B] = match t with Some r => Some (le_bytes 32 (b_hash r)) | None => contents d !! [CHAR_B] end /\
  (forall key, head key <> Some CHAR_c -> key <> [CHAR_B] -> contents d' !! key = contents d !! key).
Proof.
  intros Hm Hw. unfold coinsdb_BatchWrite, WriteBatch in Hw. destruct (db_Write _ _) as [d1|] eqn:Ed; [|done]. injection Hw as ->.
  apply db_Write_spec in Ed. rewrite Ed. unfold apply_ops. rewrite foldl_app. fold (apply_ops (map (fun c => BatchWriteCoins c.1 c.2) (map_to_list m)) (contents d)).
  set (m1 := apply_ops _ (contents d)).
  assert (Ht : forall key, key <> [CHAR_B] -> foldl apply_op m1 (match t with Some r => [BatchWriteHashBestChain (b_hash r)] | None => [] end) !! key = m1 !! key).
  { intros key Hk. destruct t; [|done]. cbn [foldl]. unfold BatchWriteHashBestChain, batch_Write. rewrite ser_char_eq by done. by apply lookup_insert_ne. }
  split_and!.
  - intros h Hh. rewrite Ht by done. unfold m1. rewrite apply_coins; [by rewrite list_to_map_to_list|apply NoDup_fst_map_to_list| |done].
    apply Forall_forall. intros [k c] Hin%elem_of_map_to_list. apply (Hm k c Hin).
  - unfold m1. destruct t as [r|]; cbn [foldl]; [|by apply apply_coins_other].
    unfold BatchWriteHashBestChain, batch_Write. rewrite ser_char_eq by done. apply lookup_insert_eq.
  - intros key Hk1 Hk2. rewrite Ht by done. by apply apply_coins_other.
Qed.

(** a block whose hash leads back to its height *)
Definition storable_tip (r : block_ref) : Prop := uint256_ok (b_hash r) /\ index_height (b_hash r) = Some (b_height r).

Lemma batch_best m t d d' : map_Forall storable m -> (forall r, t = Some r -> storable_tip r) -> coinsdb_BatchWrite m t d = (true, d') ->
  coinsdb_GetBestBlock d' = match t with Some r => Some r | None => coinsdb_GetBestBlock d end.
Proof.
  intros Hm Ht Hw. destruct (batch_contents m t d d' Hm Hw) as (_ & Hb & _). unfold coinsdb_GetBestBlock, Read. rewrite !db_Get_spec, !ser_char_eq, Hb by done.
  destruct t as [r|]; [|done]. destruct (Ht r eq_refl) as [Hr Hi]. cbn [option_bind mbind].
  pose proof (ser_roundtrip (c := ser_uint 32) (b_hash r) [] Hr) as Hrt. rewrite app_nil_r in Hrt. cbn [Serialize ser_uint] in Hrt. rewrite Hrt.
  cbn [option_bind mbind]. rewrite Hi. by destruct r.
Qed.

(** the database keeps the contract of the interfaces of View.v *)
#[export] Instance CCoinsViewDB_spec : CoinsViewSpec DB.
Proof. by refine {| cmap d h := if decide (uint256_ok h) then coinsdb_GetCoins d h else None; ctip := coinsdb_GetBestBlock |}. Defined.
#[export] Instance CCoinsViewDB_write : CoinsViewWrite DB.
Proof.
  refine {| writable := storable; writable_tip := storable_tip |}. intros d m t Hm Ht. cbn [view_BatchWrite CCoinsViewDB].
  destruct (coinsdb_BatchWrite m t d) as [ok d'] eqn:Ew. intros ->. split.
  - intros k. cbn [cmap CCoinsViewDB_spec]. destruct (decide (uint256_ok k)) as [Hk|Hk].
    + rewrite !coinsdb_GetCoins_eq. destruct (batch_contents m t d d' Hm Ew) as [Hc _]. rewrite (Hc k Hk). destruct (m !! k) as [c|] eqn:Ec; [|done].
      destruct (Hm k c Ec) as [_ Hs]. rewrite (proj1 (read_coins_value c Hs)). unfold live. by destruct (IsPruned c) eqn:Ep; rewrite ?Ep.
    + destruct (m !! k) as [c|] eqn:Ec; [|done]. by destruct (Hm k c Ec).
  - intros [r ->]. cbn [ctip CCoinsViewDB_spec]. by apply (batch_best m (Some r) d d').
Defined.
End CoinsDBSpec.

(** ** The block tree in the database *)

Record tables := {
  tb_index : gmap Z CDiskBlockIndex; tb_invalid : option Z; tb_fileinfo : gmap Z CBlockFileInfo; tb_lastfile : option Z;
  tb_reindexing : bool; tb_tx : gmap Z CDiskTxPos; tb_flags : gmap bytes bool;
}.
Definition one {T} (o : option T) (_ : unit) : option T := o.
Lemma holds_put_one {T} (cv : codec T) char o m x : holds char ser_unit cv (one o) m -> holds char ser_unit cv (one (Some x)) (<[[char] := Serialize cv x]> m).
Proof. intros H. by apply (holds_put ser_unit cv char (one o) _ _ tt _ H); [| |intros []]. Qed.
Lemma holds_erase_one {T} (cv : codec T) char o m : holds char ser_unit cv (one o) m -> holds char ser_unit cv (one None) (delete [char] m).
Proof. intros H. by apply (holds_erase ser_unit cv char (one o) _ _ tt H); [| | |intros []]. Qed.
Definition flag_char (b : bool) : Z := if b then CHAR_1 else CHAR_0.
Definition int_ok (n : Z) : Prop := - 2 ^ 31 <= n < 2 ^ 31.
Definition valid_info (f : CBlockFileInfo) : Prop :=
  (0 <= f_nBlocks f < 2 ^ 32 /\ 0 <= f_nSize f < 2 ^ 32 /\ 0 <= f_nUndoSize f < 2 ^ 32) /\
  (0 <= f_nHeightFirst f < 2 ^ 32 /\ 0 <= f_nHeightLast f < 2 ^ 32 /\ 0 <= f_nTimeFirst f < 2 ^ 64 /\ 0 <= f_nTimeLast f < 2 ^ 64).
Definition valid_tx_pos (p : CDiskTxPos) : Prop := (0 <= d_nFile (t_pos p) < 2 ^ 31 /\ 0 <= d_nPos (t_pos p) < 2 ^ 32) /\ 0 <= t_nTxOffset p < 2 ^ 32.

#[export] Instance ser_CBlockFileInfo_lawful : Lawful ser_CBlockFileInfo valid_info.
Proof. refine (ser_iso_lawful _ _ _ _ _). by intros [] [(? & ? & ?) (? & ? & ? & ?)]. Qed.
#[export] Instance ser_CDiskBlockPos_lawful : Lawful ser_CDiskBlockPos (fun p => 0 <= d_nFile p < 2 ^ 31 /\ 0 <= d_nPos p < 2 ^ 32).
Proof. refine (ser_iso_lawful _ _ _ _ _). by intros [] [? ?]. Qed.
#[export] Instance ser_CDiskTxPos_lawful : Lawful ser_CDiskTxPos valid_tx_pos.
Proof. refine (ser_iso_lawful _ _ _ _ _). by intros [] [[? ?] ?]. Qed.

(** a change of the tables, what it does to them, and the operation of the database that makes it *)
Inductive tree_write :=
  | PutIndex (d : CDiskBlockIndex) | PutInvalidWork (w : Z) | PutFileInfo (nFile : Z) (info : CBlockFileInfo) | PutLastFile (nFile : Z)
  | PutReindexing (b : bool) | PutTxIndex (vect : list (Z * CDiskTxPos)) | PutFlag (name : bytes) (b : bool).
Definition put_tx (m : gmap Z CDiskTxPos) (vect : list (Z * CDiskTxPos)) : gmap Z CDiskTxPos := foldl (fun m x => <[x.1 := x.2]> m) m vect.
Definition with_tx (m : gmap Z CDiskTxPos) (tb : tables) : tables :=
  {| tb_index := tb_index tb; tb_invalid := tb_invalid tb; tb_fileinfo := tb_fileinfo tb; tb_lastfile := tb_lastfile tb; tb_reindexing := tb_reindexing tb;
     tb_tx := m; tb_flags := tb_flags tb |}.
Definition apply_write (w : tree_write) (tb : tables) : tables :=
  let '{| tb_index := bi; tb_invalid := iw; tb_fileinfo := fi; tb_lastfile := lf; tb_reindexing := re; tb_tx := tx; tb_flags := fl |} := tb in
  match w with
  | PutIndex d => {| tb_index := <[hashBlock d := d]> bi; tb_invalid := iw; tb_fileinfo := fi; tb_lastfile := lf; tb_reindexing := re; tb_tx := tx; tb_flags := fl |}
  | PutInvalidWork w => {| tb_index := bi; tb_invalid := Some w; tb_fileinfo := fi; tb_lastfile := lf; tb_reindexing := re; tb_tx := tx; tb_flags := fl |}
  | PutFileInfo n i => {| tb_index := bi; tb_invalid := iw; tb_fileinfo := <[n := i]> fi; tb_lastfile := lf; tb_reindexing := re; tb_tx := tx; tb_flags := fl |}
  | PutLastFile n => {| tb_index := bi; tb_invalid := iw; tb_fileinfo := fi; tb_lastfile := Some n; tb_reindexing := re; tb_tx := tx; tb_flags := fl |}
  | PutReindexing b => {| tb_index := bi; tb_invalid := iw; tb_fileinfo := fi; tb_lastfile := lf; tb_reindexing := b; tb_tx := tx; tb_flags := fl |}
  | PutTxIndex vect => {| tb_index := bi; tb_invalid := iw; tb_fileinfo := fi; tb_lastfile := lf; tb_reindexing := re; tb_tx := put_tx tx vect; tb_flags := fl |}
  | PutFlag name b => {| tb_index := bi; tb_invalid := iw; tb_fileinfo := fi; tb_lastfile := lf; tb_reindexing := re; tb_tx := tx; tb_flags := <[name := b]> fl |}
  end.
Definition run_write {L : LevelDB} {B : OpenSSLBN} (w : tree_write) : DB -> bool * DB :=
  match w with
  | PutIndex d => TreeDB.WriteBlockIndex d
  | PutInvalidWork w => TreeDB.WriteBestInvalidWork w
  | PutFileInfo n i => TreeDB.WriteBlockFileInfo n i
  | PutLastFile n => TreeDB.WriteLastBlockFile n
  | PutReindexing b => TreeDB.WriteReindexing b
  | PutTxIndex vect => TreeDB.WriteTxIndex vect
  | PutFlag name b => TreeDB.WriteFlag name b
  end.

Section TreeSpec.
Context {L : LevelDB} {LL : LevelDBLaws L} {B : OpenSSLBN} {BL : OpenSSLBNLaws B}.

Definition valid_work (w : Z) : Prop := Z.of_nat (length (getvch w)) <= MAX_SIZE.
Definition index_entry (h : Z) (d : CDiskBlockIndex) : Prop := uint256_ok h /\ hashBlock d = h /\ valid_disk_index d.
Definition write_ok (w : tree_write) : Prop :=
  match w with
  | PutIndex d => valid_disk_index d
  | PutInvalidWork w => valid_work w
  | PutFileInfo n i => int_ok n /\ valid_info i
  | PutLastFile n => int_ok n
  | PutReindexing _ => True
  | PutTxIndex vect => Forall (fun x => uint256_ok x.1 /\ valid_tx_pos x.2) vect
  | PutFlag name _ => sized is_byte name
  end.

(** the database has these tables *)
Record tree_holds (tb : tables) (m : gmap bytes bytes) : Prop := {
  th_index : holds CHAR_b (ser_uint 32) ser_CDiskBlockIndex (fun h => tb_index tb !! h) m;
  th_invalid : holds CHAR_I ser_unit ser_CBigNum (one (tb_invalid tb)) m;
  th_fileinfo : holds CHAR_f (ser_sint 4) ser_CBlockFileInfo (fun n => tb_fileinfo tb !! n) m;
  th_lastfile : holds CHAR_l ser_unit (ser_sint 4) (one (tb_lastfile tb)) m;
  th_reindexing : holds CHAR_R ser_unit ser_char (one (if tb_reindexing tb then Some CHAR_1 else None)) m;
  th_tx : holds CHAR_t (ser_uint 32) ser_CDiskTxPos (fun h => tb_tx tb !! h) m;
  th_flags : holds CHAR_F ser_string ser_char (fun n => flag_char <$> tb_flags tb !! n) m;
}.
(** and their entries fit the codecs *)
Record tables_ok (tb : tables) : Prop := {
  to_index : map_Forall index_entry (tb_index tb);
  to_invalid : forall w, tb_invalid tb = Some w -> valid_work w;
  to_fileinfo : map_Forall (fun n i => int_ok n /\ valid_info i) (tb_fileinfo tb);
  to_lastfile : forall n, tb_lastfile tb = Some n -> int_ok n;
  to_tx : map_Forall (fun h p => uint256_ok h /\ valid_tx_pos p) (tb_tx tb);
  to_flags : map_Forall (fun n _ => sized is_byte n) (tb_flags tb);
}.

Lemma put_tx_ok vect m : map_Forall (fun h p => uint256_ok h /\ valid_tx_pos p) m -> Forall (fun x => uint256_ok x.1 /\ valid_tx_pos x.2) vect ->
  map_Forall (fun h p => uint256_ok h /\ valid_tx_pos p) (put_tx m vect).
Proof. intros Hm Hv. revert m Hm. induction Hv as [|x l Hx Hl IH]; intros m Hm; [done|]. cbn. apply IH. by apply map_Forall_insert_2. Qed.

Lemma apply_write_ok w tb : tables_ok tb -> write_ok w -> tables_ok (apply_write w tb).
Proof.
  intros [H1 H2 H3 H4 H5 H6] Hw. destruct tb, w; cbn in *; split; cbn; try assumption.
  - apply map_Forall_insert_2; [|done]. split_and!; [apply Hw|done|done].
  - by intros ? [= <-].
  - by apply map_Forall_insert_2.
  - by intros ? [= <-].
  - by apply put_tx_ok.
  - by apply map_Forall_insert_2.
Qed.

Lemma WriteBatch_contents batch d ok d' : WriteBatch batch d = (ok, d') -> if ok then contents d' = apply_ops batch (contents d) else d' = d.
Proof. unfold WriteBatch. destruct (db_Write d batch) as [d1|] eqn:E; intros [= <- <-]; [by apply db_Write_spec|done]. Qed.

(** a table after a put under its own first character, and the others *)
#[local] Ltac others := split; cbn [tb_index tb_invalid tb_fileinfo tb_lastfile tb_reindexing tb_tx tb_flags]; try (eapply holds_other; [eassumption|let H := fresh in intros H; discriminate H]).

Lemma hash_key_eq c h : 0 <= c < 2 ^ 8 -> Serialize hash_key (c, h) = c :: Serialize (ser_uint 32) h.
Proof. apply pair_key_eq. Qed.
Lemma put_tx_holds vect tb m : tree_holds tb m -> tables_ok tb -> Forall (fun x => uint256_ok x.1 /\ valid_tx_pos x.2) vect ->
  tree_holds (with_tx (put_tx (tb_tx tb) vect) tb) (apply_ops (map (fun x => batch_Write hash_key ser_CDiskTxPos (CHAR_t, x.1) x.2) vect) m).
Proof.
  intros Hm Hok Hv. revert tb m Hm Hok. induction Hv as [|[h x] l [Hh Hx] Hl IH]; intros tb m Hm Hok; [by destruct tb|].
  cbn [map fst snd]. rewrite apply_ops_cons. set (tb1 := with_tx (<[h := x]> (tb_tx tb)) tb).
  assert (Ho : map_Forall (fun h p => uint256_ok h /\ valid_tx_pos p) (<[h := x]> (tb_tx tb))) by (apply map_Forall_insert_2; [done|apply Hok]).
  apply (IH tb1); [|by destruct Hok; split].
  unfold batch_Write, tb1, with_tx. cbn [apply_op]. rewrite hash_key_eq by done. destruct Hm, tb. others.
  eapply holds_put; [apply _|eassumption|apply lookup_insert_eq|intros k [y Hy]; by apply (Ho k y)|intros; by apply lookup_insert_ne].
Qed.

Lemma flags_sized (fl : gmap bytes bool) : map_Forall (fun n _ => sized is_byte n) fl -> forall k, is_Some (flag_char <$> fl !! k) -> sized is_byte k.
Proof. intros Hf k [y Hy]. destruct (fl !! k) as [x|] eqn:Ek; [by apply (Hf k x)|done]. Qed.
Lemma write_simulates w tb d ok d' : tree_holds tb (contents d) -> tables_ok tb -> write_ok w -> run_write w d = (ok, d') ->
  if ok then tree_holds (apply_write w tb) (contents d') else d' = d.
Proof.
  intros Hd Hok Hw Hr. pose proof (apply_write_ok w tb Hok Hw) as [O1 O2 O3 O4 O5 O6].
  destruct w.
  6: { apply WriteBatch_contents in Hr. destruct ok; [|done]. rewrite Hr. pose proof (put_tx_holds vect tb _ Hd Hok Hw). by destruct tb. }
  all: cbn [run_write] in Hr; unfold TreeDB.WriteBlockIndex, TreeDB.WriteBestInvalidWork, TreeDB.WriteBlockFileInfo, TreeDB.WriteLastBlockFile,
    TreeDB.WriteReindexing, TreeDB.WriteFlag, Write, Erase in Hr; try destruct b;
    apply WriteBatch_contents in Hr; destruct ok; try exact Hr; rewrite Hr; clear Hr;
    try (unfold apply_ops; cbn [foldl]; unfold batch_Write, batch_Erase; cbn [apply_op]); rewrite ?hash_key_eq, ?(ser_char_eq CHAR_I), ?(ser_char_eq CHAR_l), ?(ser_char_eq CHAR_R) by done;
    try (unfold file_key, flag_key; rewrite pair_key_eq by done); destruct Hd as [D1 D2 D3 D4 D5 D6 D7], tb; cbn in O1, O2, O3, O4, O5, O6; others.
  - eapply holds_put; [apply _|eassumption|apply lookup_insert_eq| |intros; by apply lookup_insert_ne]. intros k [y Hy]. by apply (O1 k y).
  - by eapply holds_put_one.
  - eapply holds_put; [apply _|eassumption|apply lookup_insert_eq| |intros; by apply lookup_insert_ne]. intros k [y Hy]. by apply (O3 k y).
  - by eapply holds_put_one.
  - by eapply holds_put_one.
  - by eapply holds_erase_one.
  - eapply holds_put; [apply _|eassumption|by cbn; rewrite lookup_insert_eq|by apply flags_sized|intros; by cbn; rewrite lookup_insert_ne].
  - eapply holds_put; [apply _|eassumption|by cbn; rewrite lookup_insert_eq|by apply flags_sized|intros; by cbn; rewrite lookup_insert_ne].
Qed.

(** a list of changes; [false]: one could not be written *)
Fixpoint run_writes (ws : list tree_write) (d : DB) : bool * DB :=
  match ws with
  | [] => (true, d)
  | w :: r => let '(ok, d) := run_write w d in if ok then run_writes r d else (false, d)
  end.
Lemma writes_simulate ws tb d d' : tree_holds tb (contents d) -> tables_ok tb -> Forall write_ok ws -> run_writes ws d = (true, d') ->
  tree_holds (foldl (fun tb w => apply_write w tb) tb ws) (contents d') /\ tables_ok (foldl (fun tb w => apply_write w tb) tb ws).
Proof.
  intros Hd Hok Hws. revert tb d Hd Hok. induction Hws as [|w ws Hw Hws IH]; intros tb d Hd Hok; cbn [run_writes foldl]; [by intros [= <-]|].
  destruct (run_write w d) as [ok d1] eqn:E. destruct ok; [|done]. intros Hr. apply (IH _ d1); [|by apply apply_write_ok|done].
  exact (write_simulates w tb d true d1 Hd Hok Hw E).
Qed.

(** what the tables are read back as *)
Lemma tree_reads tb d : tree_holds tb (contents d) -> tables_ok tb ->
  TreeDB.ReadBestInvalidWork d = tb_invalid tb /\ TreeDB.ReadLastBlockFile d = tb_lastfile tb /\ TreeDB.ReadReindexing d = tb_reindexing tb /\
  (forall n, int_ok n -> TreeDB.ReadBlockFileInfo d n = tb_fileinfo tb !! n) /\
  (forall h, uint256_ok h -> TreeDB.ReadTxIndex d h = tb_tx tb !! h) /\
  (forall n, sized is_byte n -> TreeDB.ReadFlag d n = tb_flags tb !! n).
Proof.
  intros [D1 D2 D3 D4 D5 D6 D7] [O1 O2 O3 O4 O5 O6]. split_and!.
  - apply (holds_Read ser_unit ser_CBigNum ser_char CHAR_I CHAR_I (one (tb_invalid tb)) d tt); [by rewrite ser_char_eq|done..|apply O2].
  - apply (holds_Read ser_unit (ser_sint 4) ser_char CHAR_l CHAR_l (one (tb_lastfile tb)) d tt); [by rewrite ser_char_eq|done..|apply O4].
  - unfold TreeDB.ReadReindexing, Exists. rewrite db_Get_spec, ser_char_eq by done.
    change [CHAR_R] with (CHAR_R :: Serialize ser_unit tt). rewrite (holds_lookup ser_unit ser_char CHAR_R _ _ tt D5) by done. by destruct (tb_reindexing tb).
  - intros n Hn. apply (holds_Read (ser_sint 4) ser_CBlockFileInfo file_key (CHAR_f, n) CHAR_f (fun n => tb_fileinfo tb !! n) d n); [by apply pair_key_eq|done|done| |].
    + intros k [y Hy]. by apply (O3 k y).
    + intros x Hx. by apply (O3 n x).
  - intros h Hh. apply (holds_Read (ser_uint 32) ser_CDiskTxPos hash_key (CHAR_t, h) CHAR_t (fun n => tb_tx tb !! n) d h); [by apply pair_key_eq|done|done| |].
    + intros k [y Hy]. by apply (O5 k y).
    + intros x Hx. by apply (O5 h x).
  - intros n Hn. unfold TreeDB.ReadFlag.
    rewrite (holds_Read ser_string ser_char flag_key (CHAR_F, n) CHAR_F (fun n => flag_char <$> tb_flags tb !! n) d n); [by destruct (tb_flags tb !! n) as [[]|]|by apply pair_key_eq|done|done| |].
    + by apply flags_sized.
    + intros x. by destruct (tb_flags tb !! n) as [[]|]; intros [= <-].
Qed.
End TreeSpec.
(** ** A database in memory *)

Lemma bytes_ltb_irrefl a : bytes_ltb a a = false.
Proof. induction a as [|x a IH]; [done|]. cbn. by rewrite Z.ltb_irrefl, Z.eqb_refl, IH. Qed.
Lemma bytes_ltb_trans a b c : bytes_ltb a b = true -> bytes_ltb b c = true -> bytes_ltb a c = true.
Proof.
  revert b c. induction a as [|x a IH]; intros [|y b] [|z c]; cbn; try done.
  rewrite !orb_true_iff, !andb_true_iff, !Z.ltb_lt, !Z.eqb_eq. intros [H1|[-> H1]] [H2|[-> H2]]; [left; lia|by left|by left|right; by eauto].
Qed.
Lemma bytes_ltb_total a b : bytes_ltb a b = false -> bytes_ltb b a = false -> a = b.
Proof.
  revert b. induction a as [|x a IH]; intros [|y b]; cbn; try done.
  rewrite !orb_false_iff, !andb_false_iff, !Z.ltb_ge, !Z.eqb_neq. intros [H1 [H2|H2]] [H3 [H4|H4]]; [lia..|]. f_equal; [lia|by apply IH].
Qed.
Definition entry_le (a b : bytes * bytes) : Prop := bytes_ltb b.1 a.1 = false.
#[export] Instance entry_le_dec : RelDecision entry_le.
Proof. intros a b. unfold entry_le. apply _. Defined.
#[export] Instance entry_le_total : Total entry_le.
Proof. intros a b. unfold entry_le. destruct (bytes_ltb b.1 a.1) eqn:H1; [right|by left]. destruct (bytes_ltb a.1 b.1) eqn:H2; [|done].
  pose proof (bytes_ltb_trans _ _ _ H1 H2). by rewrite bytes_ltb_irrefl in *. Qed.
#[export] Instance entry_le_trans : Transitive entry_le.
Proof.
  intros a b c. unfold entry_le. intros H1 H2. destruct (bytes_ltb c.1 a.1) eqn:H3; [|done]. destruct (bytes_ltb a.1 b.1) eqn:H4.
  - by rewrite (bytes_ltb_trans _ _ _ H3 H4) in H2.
  - pose proof (bytes_ltb_total _ _ H1 H4) as He. rewrite <- He in H3. congruence.
Qed.

#[export] Instance ToyDB : LevelDB :=
  {| DB := gmap bytes bytes; db_Get m k := m !! k; db_Write m ops := Some (apply_ops ops m); db_entries m := merge_sort entry_le (map_to_list m) |}.

Lemma sorted_strictly (l : list (bytes * bytes)) : NoDup l.*1 -> StronglySorted entry_le l -> StronglySorted (fun a b => bytes_ltb a.1 b.1 = true) l.
Proof.
  intros Hnd Hs. induction Hs as [|a l Hs IH Ha]; [constructor|]. cbn in Hnd. apply NoDup_cons in Hnd as [Hni Hnd]. constructor; [by apply IH|].
  rewrite Forall_forall in Ha |- *. intros b Hb. specialize (Ha b Hb). destruct (bytes_ltb a.1 b.1) eqn:E; [done|].
  exfalso. apply Hni. rewrite <- (bytes_ltb_total _ _ Ha E). by apply list_elem_of_fmap_2.
Qed.
#[export] Instance ToyDB_laws : LevelDBLaws ToyDB.
Proof.
  refine {| contents := fun m : @DB ToyDB => (m : gmap bytes bytes) |}.
  - done.
  - by intros d ops d' [= <-].
  - intros d. apply merge_sort_Permutation.
  - intros d. apply sorted_strictly.
    + cbn [db_entries ToyDB]. rewrite merge_sort_Permutation. apply NoDup_fst_map_to_list.
    + apply (StronglySorted_merge_sort entry_le).
Defined.

Section TxDBProperties.
Context {L : LevelDB} {LL : LevelDBLaws L} {H : IndexHeights} {K : Crypto} {KL : CryptoLaws K}.

(** The coin database keeps what it is given: after a batch of coins was written, a hash in the batch gives the coins back, or is absent when they
    are all spent, and [HaveCoins] agrees; every other hash and every other key of the database is as before; and the best block is the one of
    the batch, or the old one when the batch has none.  If the write fails the database is unchanged. *)
Theorem CCoinsViewDB_keeps (m : gmap Z CCoins) (t : option block_ref) (d : DB)
    (Hm : map_Forall storable m) (Ht : forall r, t = Some r -> storable_tip r) :
  let '(ok, d') := coinsdb_BatchWrite m t d in
  if ok then
    (forall h, uint256_ok h -> coinsdb_GetCoins d' h = match m !! h with Some c => if IsPruned c then None else Some c | None => coinsdb_GetCoins d h end) /\
    (forall h, uint256_ok h -> coinsdb_HaveCoins d' h = match m !! h with Some c => negb (IsPruned c) | None => coinsdb_HaveCoins d h end) /\
    (forall key, head key <> Some CHAR_c -> key <> [CHAR_B] -> db_Get d' key = db_Get d key) /\
    coinsdb_GetBestBlock d' = match t with Some r => Some r | None => coinsdb_GetBestBlock d end
  else d' = d.
Proof.
  destruct (coinsdb_BatchWrite m t d) as [[] d'] eqn:Ew.
  2:{ unfold coinsdb_BatchWrite, WriteBatch in Ew. destruct (db_Write _ _); congruence. }
  destruct (batch_contents m t d d' Hm Ew) as (Hc & _ & Ho). split_and!.
  - intros h Hh. rewrite !coinsdb_GetCoins_eq, (Hc h Hh). destruct (m !! h) as [c|] eqn:Ec; [|done]. apply read_coins_value, (Hm h c Ec).
  - intros h Hh. unfold coinsdb_HaveCoins, Exists. rewrite !db_Get_spec. fold (coins_key h). rewrite (Hc h Hh). destruct (m !! h) as [c|] eqn:Ec; [|done].
    destruct (read_coins_value c (proj2 (Hm h c Ec))) as [_ Hs]. destruct (IsPruned c); [by apply bool_decide_eq_false; rewrite Hs|by apply bool_decide_eq_true, Hs].
  - intros key H1 H2. rewrite !db_Get_spec. by apply Ho.
  - by apply (batch_best m t d d').
Qed.

(** C11: The block tree database is its tables: take tables that a database holds and any list of changes to them, each one run against the
    database.  If all are written, the database holds the changed tables, and what is read from it (the work of the best invalid chain, the
    block files, the last block file, the reindexing mark, the transaction index, the flags) is what the tables say; keys of one
    table never hide those of another. *)
Theorem CBlockTreeDB_refines {B : OpenSSLBN} {BL : OpenSSLBNLaws B} (ws : list tree_write) (tb : tables) (d d' : DB)
    (Hd : tree_holds tb (contents d)) (Hok : tables_ok tb) (Hws : Forall write_ok ws) (Hrun : run_writes ws d = (true, d')) :
  let tb' := foldl (fun tb w => apply_write w tb) tb ws in
  tree_holds tb' (contents d') /\ tables_ok tb' /\
  TreeDB.ReadBestInvalidWork d' = tb_invalid tb' /\ TreeDB.ReadLastBlockFile d' = tb_lastfile tb' /\ TreeDB.ReadReindexing d' = tb_reindexing tb' /\
  (forall n, int_ok n -> TreeDB.ReadBlockFileInfo d' n = tb_fileinfo tb' !! n) /\
  (forall h, uint256_ok h -> TreeDB.ReadTxIndex d' h = tb_tx tb' !! h) /\
  (forall n, sized is_byte n -> TreeDB.ReadFlag d' n = tb_flags tb' !! n).
Proof.
  cbv zeta. destruct (writes_simulate ws tb d d' Hd Hok Hws Hrun) as [Hd' Hok']. split; [done|]. split; [done|]. by apply tree_reads.
Qed.
End TxDBProperties.

(** ** Witnesses *)

#[local] Instance sample_heights : IndexHeights := fun h => if h =? 7 then Some 3 else None.
Lemma CCoinsViewDB_keeps_witness :
  let '(ok, d') := coinsdb_BatchWrite (K := ToyCrypto) {[5 := sample_coins]} (Some {| b_hash := 7; b_height := 3 |}) (∅ : @DB ToyDB) in
  ok = true /\ coinsdb_GetCoins (K := ToyCrypto) d' 5 = Some sample_coins /\ coinsdb_GetBestBlock d' = Some {| b_hash := 7; b_height := 3 |}.
Proof.
  pose proof (CCoinsViewDB_keeps (K := ToyCrypto) (L := ToyDB) {[5 := sample_coins]} (Some {| b_hash := 7; b_height := 3 |}) ∅) as Hk.
  assert (Hr : (coinsdb_BatchWrite (K := ToyCrypto) {[5 := sample_coins]} (Some {| b_hash := 7; b_height := 3 |}) (∅ : @DB ToyDB)).1 = true) by reflexivity.
  destruct (coinsdb_BatchWrite _ _ _) as [ok d']. cbn in Hr. subst ok. destruct Hk as (Hc & _ & _ & Hb).
  - apply map_Forall_singleton. split; [unfold uint256_ok; lia|]. right. exact (proj1 sample_coins_valid).
  - intros r [= <-]. split; [unfold uint256_ok; cbn; lia|done].
  - split; [done|]. split; [|exact Hb]. rewrite (Hc 5) by (unfold uint256_ok; lia). reflexivity.
Defined.

Definition no_tables : tables :=
  {| tb_index := ∅; tb_invalid := None; tb_fileinfo := ∅; tb_lastfile := None; tb_reindexing := false; tb_tx := ∅; tb_flags := ∅ |}.
Lemma empty_db_tables : tree_holds (B := ZBN) no_tables ∅ /\ tables_ok no_tables.
Proof.
  split; split; try done; try apply map_Forall_empty; intros rest v; rewrite lookup_empty; split; try done;
    intros (k & x & Hx & _); cbn in Hx; by rewrite ?lookup_empty in Hx.
Qed.
Definition db_info : CBlockFileInfo :=
  {| f_nBlocks := 2; f_nSize := 300; f_nUndoSize := 20; f_nHeightFirst := 0; f_nHeightLast := 1; f_nTimeFirst := 5; f_nTimeLast := 9 |}.
Definition db_writes : list tree_write := [PutFileInfo 0 db_info; PutLastFile 0; PutReindexing true; PutFlag [116; 120] true; PutReindexing false].
Definition db_written : @DB ToyDB := (run_writes (L := ToyDB) (B := ZBN) db_writes ∅).2.
Lemma db_writes_ok : Forall (write_ok) db_writes.
Proof. repeat constructor; cbn; unfold is_byte, MAX_SIZE; lia. Qed.
Lemma CBlockTreeDB_refines_witness : TreeDB.ReadReindexing db_written = false /\ TreeDB.ReadFlag db_written [116; 120] = Some true /\
  tb_flags (foldl (fun tb w => apply_write w tb) no_tables db_writes) !! [116; 120] = Some true.
Proof.
  assert (Hr : run_writes (L := ToyDB) (B := ZBN) db_writes ∅ = (true, db_written)) by reflexivity.
  pose proof (CBlockTreeDB_refines (L := ToyDB) (B := ZBN) db_writes no_tables ∅ db_written (proj1 empty_db_tables) (proj2 empty_db_tables) db_writes_ok Hr) as H.
  cbv zeta in H. destruct H as (_ & _ & _ & _ & H5 & _ & _ & H8). split; [exact H5|].
  assert (Hx : tb_flags (foldl (fun tb w => apply_write w tb) no_tables db_writes) !! [116; 120] = Some true) by (vm_compute; reflexivity).
  split; [|exact Hx]. rewrite <- Hx. apply H8. split; [repeat constructor; unfold is_byte; lia|cbn; unfold MAX_SIZE; lia].
Defined.
