(* ===== verification/Load.v ===== *)
(** * Starting from the databases (main.cpp, txdb.cpp)

    What the node does before it works: [LoadBlockIndexGuts] reads the entries of the block index with an iterator, and
    [LoadBlockIndexDB] computes what is kept in memory only (the work, the number of transactions, the candidates for the best
    block), reads the state of the block files, and links the best chain.  The property: a node that is stopped and started
    again has the block index it had. *)

From stdpp Require Import gmap sorting.
From S2P Require Import Prelude OpenSSL BigNum Target Serialize Crypto Script Transaction Coins View Block BlockFile Chain Connect TxDB.
Local Open Scope Z_scope.

(** the globals the functions set *)
Record globals := {
  g_mapBlockIndex : gmap Z CBlockIndex; g_setBlockIndexValid : gset Z; g_pindexGenesisBlock : option Z;
  g_nLastBlockFile : Z; g_infoLastBlockFile : CBlockFileInfo; g_nBestInvalidWork : Z; g_fReindex : bool; g_fTxIndex : bool;
  g_pindexBest : option Z; g_hashBestChain : Z; g_nBestHeight : Z; g_nBestChainWork : Z;
}.

(** [UnloadBlockIndex] *)
Definition UnloadBlockIndex (g : globals) : globals :=
  {| g_mapBlockIndex := ∅; g_setBlockIndexValid := ∅; g_pindexGenesisBlock := None; g_nLastBlockFile := g_nLastBlockFile g;
     g_infoLastBlockFile := g_infoLastBlockFile g; g_nBestInvalidWork := 0; g_fReindex := g_fReindex g; g_fTxIndex := g_fTxIndex g;
     g_pindexBest := None; g_hashBestChain := 0; g_nBestHeight := 0; g_nBestChainWork := 0 |}.

(** ** LoadBlockIndexGuts *)

Definition InsertBlockIndex (hash : Z) (idx : gmap Z CBlockIndex) : option Z * gmap Z CBlockIndex :=
  if hash =? 0 then (None, idx)
  else match idx !! hash with Some _ => (Some hash, idx) | None => (Some hash, <[hash := null_index]> idx) end.

(** the fields that are read; the others keep their value *)
Definition load_fields (p : option Z) (d b : CBlockIndex) : CBlockIndex :=
  {| pprev := p; pnext := pnext b; nHeight := nHeight d; nFile := nFile d; nDataPos := nDataPos d; nUndoPos := nUndoPos d;
     nChainWork := nChainWork b; nWorkTransition := nWorkTransition b; i_nPrimeChainType := i_nPrimeChainType d;
     i_nPrimeChainLength := i_nPrimeChainLength d; nMoneySupply := nMoneySupply d; nTx := nTx d; nChainTx := nChainTx b; nStatus := nStatus d;
     i_nVersion := i_nVersion d; i_hashMerkleRoot := i_hashMerkleRoot d; i_nTime := i_nTime d; i_nBits := i_nBits d; i_nNonce := i_nNonce d |}.

Section Guts.
Context {L : LevelDB} (hashGenesisBlock : Z).

(** [None]: a null pointer is followed *)
Definition load_entry (d : CDiskBlockIndex) (idx : gmap Z CBlockIndex) (genesis : option Z) : option (gmap Z CBlockIndex * option Z) :=
  let '(pindexNew, idx) := InsertBlockIndex (hashBlock d) idx in
  let '(p, idx) := InsertBlockIndex (hashPrev d) idx in
  let? h := pindexNew in
  let idx := alter (load_fields p (di_index d)) h idx in
  Some (idx, match genesis with None => if hashBlock d =? hashGenesisBlock then Some h else None | Some _ => genesis end).

Fixpoint load_guts (entries : list (bytes * bytes)) (idx : gmap Z CBlockIndex) (genesis : option Z) : option (bool * gmap Z CBlockIndex * option Z) :=
  match entries with
  | [] => Some (true, idx, genesis)
  | (k, v) :: r =>
    match Unserialize ser_char k with
    | None => Some (false, idx, genesis)
    | Some (chType, _) =>
      if chType =? CHAR_b then
        match Unserialize ser_CDiskBlockIndex v with
        | None => Some (false, idx, genesis)
        | Some (d, _) => let? (idx, genesis) := load_entry d idx genesis in load_guts r idx genesis
        end
      else Some (true, idx, genesis)
    end
  end.

(** an iterator at the first key that is not below [key] *)
Fixpoint Seek (key : bytes) (entries : list (bytes * bytes)) : list (bytes * bytes) :=
  match entries with
  | [] => []
  | e :: r => if bytes_ltb e.1 key then Seek key r else entries
  end.
Definition LoadBlockIndexGuts (db : DB) (idx : gmap Z CBlockIndex) (genesis : option Z) : option (bool * gmap Z CBlockIndex * option Z) :=
  load_guts (Seek (Serialize hash_key (CHAR_b, 0)) (db_entries db)) idx genesis.
End Guts.

(** ** LoadBlockIndexDB *)

Definition set_chain_data (work trans tx : Z) (b : CBlockIndex) : CBlockIndex :=
  {| pprev := pprev b; pnext := pnext b; nHeight := nHeight b; nFile := nFile b; nDataPos := nDataPos b; nUndoPos := nUndoPos b;
     nChainWork := work; nWorkTransition := trans; i_nPrimeChainType := i_nPrimeChainType b; i_nPrimeChainLength := i_nPrimeChainLength b;
     nMoneySupply := nMoneySupply b; nTx := nTx b; nChainTx := tx; nStatus := nStatus b; i_nVersion := i_nVersion b;
     i_hashMerkleRoot := i_hashMerkleRoot b; i_nTime := i_nTime b; i_nBits := i_nBits b; i_nNonce := i_nNonce b |}.

Section LoadDB.
Context {L : LevelDB} {B : OpenSSLBN} {K : Crypto} (tp : TargetParams) (hashGenesisBlock : Z).

(** the work, the transition and the transactions of the chain up to a block, from those up to its predecessor; [None]: a division throws *)
Definition chain_data (prev : option CBlockIndex) (b : CBlockIndex) : option (Z * Z * Z) :=
  let from {A} (f : CBlockIndex -> A) (d : A) : A := match prev with Some q => f q | None => d end in
  let? w := GetBlockWork tp (i_nBits b) in
  Some ((from nChainWork 0 + getuint256 w) mod 2 ^ 256,
        EstimateWorkTransition (from nWorkTransition (TargetGetInitial tp)) (i_nBits b) (i_nPrimeChainLength b),
        u32 (from nChainTx 0 + nTx b)).

(** by height; the pointers of blocks of one height are in some order *)
Definition height_le (a b : Z * Z) : Prop := a.1 < b.1 \/ (a.1 = b.1 /\ a.2 <= b.2).
#[export] Instance height_le_dec : RelDecision height_le.
Proof. intros a b. unfold height_le. apply _. Defined.
Definition vSortedByHeight (idx : gmap Z CBlockIndex) : list (Z * Z) := merge_sort height_le (map (fun x => (nHeight x.2, x.1)) (map_to_list idx)).

Definition is_candidate (nStatus : Z) : bool :=
  (BLOCK_VALID_TRANSACTIONS <=? Z.land nStatus BLOCK_VALID_MASK) && (Z.land nStatus BLOCK_FAILED_MASK =? 0).

Fixpoint compute_chains (hs : list Z) (idx : gmap Z CBlockIndex) (valid : gset Z) : option (gmap Z CBlockIndex * gset Z) :=
  match hs with
  | [] => Some (idx, valid)
  | h :: r =>
    let? b := idx !! h in
    let? (work, trans, tx) := chain_data (let? q := pprev b in idx !! q) b in
    compute_chains r (<[h := set_chain_data work trans tx b]> idx) (if is_candidate (nStatus b) then {[h]} ∪ valid else valid)
  end.

(** the next pointers along the best chain, back to the first block; [None]: the fuel ran out *)
Fixpoint link_chain (fuel : nat) (h : Z) (idx : gmap Z CBlockIndex) : option (gmap Z CBlockIndex) :=
  match let? b := idx !! h in pprev b with
  | None => Some idx
  | Some q => match fuel with O => None | S f => link_chain f q (alter (set_pnext (Some h)) q idx) end
  end.

(** "txindex" *)
Definition txindex_name : bytes := [116; 120; 105; 110; 100; 101; 120].
Definition LoadBlockIndexDB (db : DB) (pcoinsTip : CCoinsViewCache DB) (g : globals) : option (bool * globals) :=
  let? (ok, idx, genesis) := LoadBlockIndexGuts hashGenesisBlock db (g_mapBlockIndex g) (g_pindexGenesisBlock g) in
  if negb ok then
    Some (false, {| g_mapBlockIndex := idx; g_setBlockIndexValid := g_setBlockIndexValid g; g_pindexGenesisBlock := genesis;
      g_nLastBlockFile := g_nLastBlockFile g; g_infoLastBlockFile := g_infoLastBlockFile g; g_nBestInvalidWork := g_nBestInvalidWork g;
      g_fReindex := g_fReindex g; g_fTxIndex := g_fTxIndex g; g_pindexBest := g_pindexBest g; g_hashBestChain := g_hashBestChain g;
      g_nBestHeight := g_nBestHeight g; g_nBestChainWork := g_nBestChainWork g |})
  else
    let? (idx, valid) := compute_chains (map snd (vSortedByHeight idx)) idx (g_setBlockIndexValid g) in
    let nLast := default (g_nLastBlockFile g) (TreeDB.ReadLastBlockFile db) in
    let base (idx : gmap Z CBlockIndex) best hash height work := {| g_mapBlockIndex := idx; g_setBlockIndexValid := valid; g_pindexGenesisBlock := genesis;
      g_nLastBlockFile := nLast; g_infoLastBlockFile := default (g_infoLastBlockFile g) (TreeDB.ReadBlockFileInfo db nLast);
      g_nBestInvalidWork := getuint256 (default 0 (TreeDB.ReadBestInvalidWork db));
      g_fReindex := g_fReindex g || TreeDB.ReadReindexing db;
      g_fTxIndex := default (g_fTxIndex g) (TreeDB.ReadFlag db txindex_name);
      g_pindexBest := best; g_hashBestChain := hash; g_nBestHeight := height; g_nBestChainWork := work |} in
    match (GetBestBlock (CV := CCoinsViewDB (H := fun h => nHeight <$> idx !! h)) pcoinsTip).1 with
    | None => Some (true, base idx None (g_hashBestChain g) (g_nBestHeight g) (g_nBestChainWork g))
    | Some r =>
      let h := b_hash r in
      let? b := idx !! h in
      let? idx := link_chain (Z.to_nat (nHeight b)) h idx in
      Some (true, base idx (Some h) h (nHeight b) (nChainWork b))
    end.
End LoadDB.

(** ** The entries of the index in the database *)

Section Entries.
Context {L : LevelDB} {LL : LevelDBLaws L}.

Lemma bytes_ltb_zeros n l : Forall is_byte l -> length l = n -> bytes_ltb l (replicate n 0) = false.
Proof.
  intros Hl. revert n. induction Hl as [|x l Hx Hl IH]; intros [|n] Hn; try done. cbn in *. unfold is_byte in Hx.
  rewrite (proj2 (Z.ltb_ge _ _)), IH, andb_false_r by lia. done.
Qed.

(** from [Seek] on: the keys that are not below *)
Lemma Seek_spec key es : StronglySorted (fun a b => bytes_ltb a.1 b.1 = true) es ->
  exists skipped, es = skipped ++ Seek key es /\ Forall (fun e => bytes_ltb e.1 key = true) skipped /\ Forall (fun e => bytes_ltb e.1 key = false) (Seek key es).
Proof.
  induction 1 as [|e es Hs IH He]; [by exists []|]. cbn. destruct (bytes_ltb e.1 key) eqn:Ek.
  - destruct IH as (sk & Hes & Hsk & Hr). exists (e :: sk). split; [by rewrite Hes at 1|]. split; [by constructor|done].
  - exists []. split; [done|]. split; [done|]. constructor; [done|]. eapply Forall_impl; [exact He|]. intros a Ha.
    destruct (bytes_ltb a.1 key) eqn:Ea; [|done]. by rewrite (bytes_ltb_trans _ _ _ Ha Ea) in Ek.
Qed.

(** keys with the character of the index come first, the others after them *)
Definition starts (c : Z) (e : bytes * bytes) : bool := match e.1 with ch :: _ => ch =? c | [] => false end.
Lemma split_starts c es : StronglySorted (fun a b => bytes_ltb a.1 b.1 = true) es -> Forall (fun e => exists ch r, e.1 = ch :: r /\ c <= ch) es ->
  exists l1 l2, es = l1 ++ l2 /\ Forall (fun e => starts c e = true) l1 /\ Forall (fun e => exists ch r, e.1 = ch :: r /\ c < ch) l2.
Proof.
  intros Hs. induction Hs as [|e es Hs IH He]; intros Hf; [by exists [], []|]. apply Forall_cons in Hf as [(ch & r & Hk & Hc) Hf].
  destruct (decide (ch = c)) as [->|Hne].
  - destruct (IH Hf) as (l1 & l2 & -> & H1 & H2). exists (e :: l1), l2. split; [done|]. split; [|done]. constructor; [|done]. unfold starts. rewrite Hk. apply Z.eqb_refl.
  - exists [], (e :: es). split; [done|]. split; [done|]. constructor; [exists ch, r; split; [done|lia]|].
    rewrite Forall_forall in Hf, He |- *. intros a Ha. destruct (Hf a Ha) as (ch' & r' & Hk' & _). exists ch', r'. split; [done|].
    specialize (He a Ha). rewrite Hk, Hk' in He. cbn in He. apply orb_true_iff in He as [He|He]; [lia|]. apply andb_true_iff in He as [He _]. lia.
Qed.

Lemma Forall_map_image {A C} (f : A -> C) (P : A -> Prop) l : Forall (fun e => exists x, e = f x /\ P x) l -> exists xs, l = map f xs /\ Forall P xs.
Proof. induction 1 as [|e l (x & -> & Hx) Hl (xs & -> & Hxs)]; [by exists []|]. exists (x :: xs). split; [done|by constructor]. Qed.

Definition disk_entry (x : Z * CDiskBlockIndex) : bytes * bytes := (CHAR_b :: Serialize (ser_uint 32) x.1, Serialize ser_CDiskBlockIndex x.2).
Lemma db_entry_spec db k v : (k, v) ∈ db_entries db <-> contents db !! k = Some v.
Proof. rewrite db_entries_spec. apply elem_of_map_to_list. Qed.

(** what an iterator meets from the first index entry on: the entries of the table, in some order, then those of other tables *)
Lemma index_entries (m : gmap Z CDiskBlockIndex) (db : DB) :
  holds CHAR_b (ser_uint 32) ser_CDiskBlockIndex (fun h => m !! h) (contents db) -> map_Forall index_entry m ->
  exists hds l2, Seek (Serialize hash_key (CHAR_b, 0)) (db_entries db) = map disk_entry hds ++ l2 /\
    hds ≡ₚ map_to_list m /\ Forall (fun e => exists ch r, e.1 = ch :: r /\ CHAR_b < ch) l2.
Proof.
  intros Hh Hm. pose proof (db_entries_sorted db) as Hs. rewrite hash_key_eq by done. change (Serialize (ser_uint 32) 0) with (replicate 32 0).
  destruct (Seek_spec (CHAR_b :: replicate 32 0) _ Hs) as (sk & He & Hsk & Hge). set (es := Seek _ _) in *.
  assert (Hse : StronglySorted (fun a b => bytes_ltb a.1 b.1 = true) es) by (rewrite He in Hs; by apply StronglySorted_app_1_r in Hs).
  destruct (split_starts CHAR_b es Hse) as (l1 & l2 & Hl & H1 & H2).
  { rewrite Forall_forall in Hge |- *. intros e Hin. specialize (Hge e Hin). destruct e.1 as [|ch r]; [done|]. exists ch, r. split; [done|].
    cbn in Hge. apply orb_false_iff in Hge as [Hge _]. lia. }
  assert (Hin : forall e, e ∈ db_entries db <-> e ∈ sk \/ e ∈ l1 \/ e ∈ l2) by (intros e; by rewrite He, Hl, !elem_of_app).
  destruct (Forall_map_image disk_entry (fun x => m !! x.1 = Some x.2) l1) as (hds & -> & Hds).
  { rewrite Forall_forall in H1 |- *. intros [k v] Hk. specialize (H1 _ Hk). unfold starts in H1. cbn in H1. destruct k as [|ch r]; [done|]. apply Z.eqb_eq in H1 as ->.
    assert (Hc : contents db !! (CHAR_b :: r) = Some v) by (apply db_entry_spec, Hin; auto). apply Hh in Hc as (h & d & Hd & -> & ->). by exists (h, d). }
  exists hds, l2. split; [done|]. split; [|done]. rewrite Forall_forall in Hds. apply NoDup_Permutation.
  - apply (NoDup_fmap_1 disk_entry). assert (Hnd : NoDup (db_entries db)).
    { rewrite db_entries_spec. apply NoDup_map_to_list. }
    rewrite He, Hl in Hnd. apply NoDup_app in Hnd as (_ & _ & Hnd). by apply NoDup_app in Hnd as (Hnd & _).
  - apply NoDup_map_to_list.
  - intros [h d]. rewrite elem_of_map_to_list. split; [by intros Hx%Hds|]. intros Hx.
    assert (Hc : disk_entry (h, d) ∈ db_entries db) by (apply db_entry_spec, Hh; by exists h, d). destruct (Hm h d Hx) as (Hh256 & _ & _).
    apply Hin in Hc as [Hc|[Hc|Hc]].
    + rewrite Forall_forall in Hsk. specialize (Hsk _ Hc). unfold disk_entry in Hsk. cbn [fst bytes_ltb] in Hsk. rewrite Z.ltb_irrefl, Z.eqb_refl in Hsk. cbn [orb andb] in Hsk.
      by rewrite bytes_ltb_zeros in Hsk by (apply le_bytes_all || apply length_le_bytes).
    + apply list_elem_of_fmap in Hc as ([h' d'] & He' & Hin'). specialize (Hds _ Hin'). pose proof (f_equal (fun e => tail e.1) He') as He1. cbn [disk_entry fst tail] in He1. cbn [fst snd] in Hds.
      assert (h = h') as <- by (eapply (Serialize_inj (ser_uint 32) _); [exact Hh256|by destruct (Hm h' d' Hds)|exact He1]). congruence.
    + rewrite Forall_forall in H2. destruct (H2 _ Hc) as (ch & r & Hk & Hlt). unfold disk_entry in Hk. injection Hk as <- _. lia.
Qed.
End Entries.

(** ** Loading the entries *)

(** an index as it is after the entries were read: what is in memory only is not there yet *)
Definition bare (b : CBlockIndex) : CBlockIndex := load_fields (pprev b) (persistent b) null_index.
(** positions that the status says are not there are zero *)
Definition settled (b : CBlockIndex) : Prop := nFile (persistent b) = nFile b /\ nDataPos (persistent b) = nDataPos b /\ nUndoPos (persistent b) = nUndoPos b.

(** every entry can be stored, and its predecessor is in the index, one lower *)
Record index_tree (idx : gmap Z CBlockIndex) : Prop := {
  it_entry : forall h b, idx !! h = Some b -> 0 < h < 2 ^ 256 /\ valid_index b /\ settled b;
  it_prev : forall h b q, idx !! h = Some b -> pprev b = Some q -> exists p, idx !! q = Some p /\ nHeight b = nHeight p + 1;
}.
(** the index as it is on disk *)
Definition disk_of (idx : gmap Z CBlockIndex) : gmap Z CDiskBlockIndex := map_imap (fun h b => Some (disk_index h b)) idx.

Section Loading.
Context (idx : gmap Z CBlockIndex) (Hidx : index_tree idx) (hashGenesisBlock : Z).

Lemma disk_of_lookup h : disk_of idx !! h = disk_index h <$> idx !! h.
Proof. unfold disk_of. rewrite map_lookup_imap. by destruct (idx !! h). Qed.

Lemma tree_prev_range h b q : idx !! h = Some b -> pprev b = Some q -> 0 < q < 2 ^ 256.
Proof. intros Hb Hq. destruct (it_prev _ Hidx h b q Hb Hq) as (p & Hp & _). by apply (it_entry _ Hidx q p). Qed.
Lemma disk_entry_ok : map_Forall index_entry (disk_of idx).
Proof.
  intros h d. rewrite disk_of_lookup. destruct (idx !! h) as [b|] eqn:Hb; intros [= <-]. destruct (it_entry _ Hidx h b Hb) as (Hh & Hv & _).
  unfold index_entry, uint256_ok, disk_index, valid_disk_index. cbn [hashBlock hashPrev di_index]. split_and!; [lia..|done| | |lia|lia].
  all: destruct (pprev b) as [q|] eqn:Hq; cbn; [pose proof (tree_prev_range h b q Hb Hq)|]; lia.
Qed.

(** the index while it is read: done for the hashes of [S], empty or absent for the others *)
Definition partly_read (S : gset Z) (j : gmap Z CBlockIndex) : Prop :=
  forall k, if decide (k ∈ S) then j !! k = bare <$> idx !! k else j !! k = None \/ (j !! k = Some null_index /\ is_Some (idx !! k)).

Lemma insert_read S j k : partly_read S j -> is_Some (idx !! k) -> k <> 0 ->
  exists j', InsertBlockIndex k j = (Some k, j') /\ partly_read S j' /\ is_Some (j' !! k) /\ forall x, is_Some (j !! x) -> j' !! x = j !! x.
Proof.
  intros Hj Hk H0. unfold InsertBlockIndex. rewrite (proj2 (Z.eqb_neq k 0) H0). destruct (j !! k) as [x|] eqn:Ek; [exists j; split_and!; by eauto|].
  exists (<[k := null_index]> j). split; [done|]. split; [|split; [by rewrite lookup_insert_eq|intros x [y Hy]; rewrite lookup_insert_ne; [done|congruence]]].
  intros x. specialize (Hj x). destruct (decide (x = k)) as [->|Hne].
  - rewrite lookup_insert_eq. destruct (decide (k ∈ S)); [|by right]. rewrite Ek in Hj. by destruct Hk as [y Hy]; rewrite Hy in Hj.
  - by rewrite lookup_insert_ne.
Qed.

Lemma read_char ch r : Unserialize ser_char (ch :: r) = Some (ch, r).
Proof. pose proof (read_app 1 [ch] r eq_refl) as H. cbn [app] in H. unfold ser_char. cbn [Unserialize ser_uint]. rewrite H. cbn. f_equal. f_equal. lia. Qed.

Definition found_genesis (h : Z) (genesis : option Z) : option Z := match genesis with None => if h =? hashGenesisBlock then Some h else None | Some _ => genesis end.

Lemma load_entry_read S j genesis h b : partly_read S j -> idx !! h = Some b -> h ∉ S ->
  exists j', load_entry hashGenesisBlock (stored_index (disk_index h b)) j genesis = Some (j', found_genesis h genesis) /\ partly_read ({[h]} ∪ S) j'.
Proof.
  intros Hj Hb Hh. destruct (it_entry _ Hidx h b Hb) as (Hr & _). unfold load_entry. cbn [stored_index disk_index hashBlock hashPrev di_index].
  destruct (insert_read S j h Hj ltac:(by eauto) ltac:(lia)) as (j1 & -> & Hj1 & Hin1 & _).
  assert (Hp : exists j2, InsertBlockIndex (default 0 (pprev b)) j1 = (pprev b, j2) /\ partly_read S j2 /\ is_Some (j2 !! h)).
  { destruct (pprev b) as [q|] eqn:Hq; cbn; [|exists j1; by split_and!].
    pose proof (tree_prev_range h b q Hb Hq). destruct (it_prev _ Hidx h b q Hb Hq) as (p & Hpq & _).
    destruct (insert_read S j1 q Hj1 ltac:(by eauto) ltac:(lia)) as (j2 & -> & Hj2 & _ & Hsame). exists j2. split_and!; [done|done|]. by rewrite Hsame. }
  destruct Hp as (j2 & -> & Hj2 & [x Hx]). cbn [option_bind mbind]. eexists. split; [reflexivity|]. intros k. destruct (decide (k = h)) as [->|Hne].
  - rewrite decide_True by set_solver. rewrite lookup_alter_eq, Hx, Hb. cbn. specialize (Hj2 h). rewrite decide_False in Hj2 by done.
    destruct Hj2 as [Hj2|[Hj2 _]]; [congruence|]. rewrite Hx in Hj2. injection Hj2 as ->. done.
  - rewrite lookup_alter_ne by done. specialize (Hj2 k). destruct (decide (k ∈ S)); [by rewrite decide_True by set_solver|by rewrite decide_False by set_solver].
Qed.

(** all the entries of the table, in any order *)
Lemma load_guts_read hds l2 : NoDup (fst <$> hds) -> (forall h d, (h, d) ∈ hds -> exists b, idx !! h = Some b /\ d = disk_index h b) ->
  Forall (fun e => exists ch r, e.1 = ch :: r /\ CHAR_b < ch) l2 ->
  forall S j genesis, partly_read S j -> (forall h, h ∈ (fst <$> hds) -> h ∉ S) ->
  exists j', load_guts hashGenesisBlock (map disk_entry hds ++ l2) j genesis = Some (true, j', foldl (fun g h => found_genesis h g) genesis (fst <$> hds)) /\
    partly_read (list_to_set (fst <$> hds) ∪ S) j'.
Proof.
  intros Hnd Hin Hl2. induction hds as [|[h d] hds IH]; intros S j genesis Hj Hfresh.
  - exists j. cbn [map app fmap list_fmap foldl list_to_set]. split; [|by rewrite (left_id_L ∅ _)]. destruct Hl2 as [|[k v] l2 (ch & r & Hk & Hlt) _]; [done|].
    cbn in Hk. subst k. cbn [load_guts]. rewrite read_char. cbn [option_bind mbind]. by rewrite (proj2 (Z.eqb_neq ch CHAR_b)) by lia.
  - destruct (Hin h d) as (b & Hb & ->); [left|]. cbn [fmap list_fmap fst] in Hnd, Hfresh. apply NoDup_cons in Hnd as [Hni Hnd].
    assert (Hv : valid_disk_index (disk_index h b)) by (apply (disk_entry_ok h); by rewrite disk_of_lookup, Hb).
    destruct (load_entry_read S j genesis h b Hj Hb) as (j1 & Hr & Hj1); [apply Hfresh; left|].
    destruct (IH Hnd) with (S := {[h]} ∪ S) (j := j1) (genesis := found_genesis h genesis) as (j' & Hg & Hj'); [intros; apply Hin; by right|done| |].
    { intros k Hk. rewrite not_elem_of_union, not_elem_of_singleton. split; [congruence|]. apply Hfresh. by right. }
    exists j'. cbn [map app fmap list_fmap foldl fst]. split.
    + cbn [load_guts disk_entry fst snd]. rewrite read_char. cbn [option_bind mbind]. rewrite Z.eqb_refl.
      rewrite <- (app_nil_r (Serialize ser_CDiskBlockIndex (disk_index h b))), (proj1 (index_write_read _ [] Hv)). cbn [option_bind mbind].
      rewrite Hr. cbn [option_bind mbind]. exact Hg.
    + cbn [list_to_set]. replace ({[h]} ∪ list_to_set (fst <$> hds) ∪ S) with (list_to_set (fst <$> hds) ∪ ({[h]} ∪ S)) by set_solver. exact Hj'.
Qed.

Lemma found_genesis_all hs : foldl (fun g h => found_genesis h g) None hs = if decide (hashGenesisBlock ∈ hs) then Some hashGenesisBlock else None.
Proof.
  assert (Hs : forall g l, foldl (fun g h => found_genesis h g) (Some g) l = Some g) by (intros g l; induction l; auto).
  induction hs as [|h hs IH]; [done|]. cbn [foldl found_genesis]. destruct (Z.eqb_spec h hashGenesisBlock) as [->|Hne].
  - rewrite Hs, decide_True by left. done.
  - rewrite IH. destruct (decide (hashGenesisBlock ∈ hs)); [by rewrite decide_True by (by right)|]. rewrite decide_False; [done|]. by intros [?|?]%elem_of_cons.
Qed.

Lemma LoadBlockIndexGuts_reads {L : LevelDB} {LL : LevelDBLaws L} (db : DB) :
  holds CHAR_b (ser_uint 32) ser_CDiskBlockIndex (fun h => disk_of idx !! h) (contents db) ->
  LoadBlockIndexGuts hashGenesisBlock db ∅ None = Some (true, bare <$> idx, if decide (is_Some (idx !! hashGenesisBlock)) then Some hashGenesisBlock else None).
Proof.
  intros Hh. destruct (index_entries _ db Hh disk_entry_ok) as (hds & l2 & Hs & Hp & Hl2). unfold LoadBlockIndexGuts. rewrite Hs.
  assert (Hin : forall h d, (h, d) ∈ hds <-> disk_of idx !! h = Some d) by (intros h d; rewrite Hp; apply elem_of_map_to_list).
  assert (Hdom : forall h, h ∈ (fst <$> hds) <-> is_Some (idx !! h)).
  { intros h. rewrite list_elem_of_fmap. split.
    - intros ([h' d] & -> & Hd%Hin). rewrite disk_of_lookup in Hd. cbn. by destruct (idx !! h'); eauto.
    - intros [b Hb]. exists (h, disk_index h b). split; [done|]. apply Hin. by rewrite disk_of_lookup, Hb. }
  destruct (load_guts_read hds l2) with (S := ∅ : gset Z) (j := ∅ : gmap Z CBlockIndex) (genesis := @None Z) as (j & -> & Hj).
  - rewrite Hp. apply NoDup_fst_map_to_list.
  - intros h d Hd%Hin. rewrite disk_of_lookup in Hd. destruct (idx !! h) as [b|]; [|done]. exists b. split; [done|]. by injection Hd.
  - done.
  - intros k. rewrite decide_False by set_solver. left. apply lookup_empty.
  - set_solver.
  - do 2 f_equal; [f_equal|].
    + apply map_eq. intros k. specialize (Hj k). rewrite lookup_fmap. destruct (decide (is_Some (idx !! k))) as [Hk|Hk].
      * rewrite decide_True in Hj by (apply Hdom in Hk; set_solver). exact Hj.
      * rewrite decide_False in Hj by (intros Hx; apply Hk, Hdom; set_solver). apply eq_None_not_Some in Hk as Hk'. rewrite Hk'. cbn.
        destruct Hj as [Hj|[_ Hj]]; [exact Hj|done].
    + rewrite found_genesis_all. destruct (decide (is_Some (idx !! hashGenesisBlock))) as [Hg|Hg]; [rewrite decide_True by (by apply Hdom); done|].
      rewrite decide_False; [done|]. by rewrite Hdom.
Qed.
End Loading.

(** ** The chains *)

(** an index with everything but the pointer to the next block *)
Definition unlinked (b : CBlockIndex) : CBlockIndex := set_pnext None b.
(** the work, the transition and the transactions of every chain add up *)
Definition chains_add_up {B : OpenSSLBN} (tp : TargetParams) (idx : gmap Z CBlockIndex) : Prop :=
  forall h b, idx !! h = Some b -> chain_data tp (let? q := pprev b in idx !! q) b = Some (nChainWork b, nWorkTransition b, nChainTx b).

#[export] Instance height_le_total : Total height_le.
Proof. intros [a b] [c d]. unfold height_le. cbn. lia. Qed.
#[export] Instance height_le_trans : Transitive height_le.
Proof. intros [a b] [c d] [e f]. unfold height_le. cbn. lia. Qed.

Lemma vSortedByHeight_spec idx (Hidx : index_tree idx) j : (forall h, nHeight <$> j !! h = nHeight <$> idx !! h) ->
  let hs := map snd (vSortedByHeight j) in NoDup hs /\ (forall h, h ∈ hs <-> is_Some (idx !! h)) /\
  (forall l1 h l2 b q, hs = l1 ++ h :: l2 -> idx !! h = Some b -> pprev b = Some q -> q ∈ l1).
Proof.
  intros Hj hs. set (l := vSortedByHeight j) in *. assert (Hp : l ≡ₚ map (fun x => (nHeight x.2, x.1)) (map_to_list j)) by apply merge_sort_Permutation.
  assert (Hs : StronglySorted height_le l) by apply (StronglySorted_merge_sort height_le).
  assert (Hin : forall t h, (t, h) ∈ l <-> nHeight <$> idx !! h = Some t).
  { intros t h. rewrite Hp, (list_elem_of_fmap (fun x : Z * CBlockIndex => (nHeight x.2, x.1))), <- Hj, fmap_Some. split.
    - intros ([k b] & [= -> ->] & Hb%elem_of_map_to_list). by exists b.
    - intros (b & Hb & ->). exists (h, b). split; [done|]. by apply elem_of_map_to_list. }
  assert (Hhs : forall h, h ∈ hs <-> is_Some (idx !! h)).
  { intros h. unfold hs. rewrite (list_elem_of_fmap snd). split.
    - intros ([t k] & -> & Hk%Hin). cbn. destruct (idx !! k); [by eauto|done].
    - intros [b Hb]. exists (nHeight b, h). split; [done|]. apply Hin. by rewrite Hb. }
  assert (Hnd : NoDup hs).
  { assert (He : hs ≡ₚ (map_to_list j).*1); [|rewrite He; apply NoDup_fst_map_to_list].
    unfold hs. rewrite Hp. apply reflexive_eq. clear. induction (map_to_list j) as [|x r IH]; [done|]. cbn. by f_equal. }
  split; [done|]. split; [done|]. intros l1 h l2 b q He Hb Hq. destruct (it_prev _ Hidx h b q Hb Hq) as (p & Hpq & Hh).
  assert (Hqin : q ∈ hs) by (apply Hhs; eauto). rewrite He in Hqin. apply elem_of_app in Hqin as [?|Hqin]; [done|]. exfalso.
  assert (He' : exists m1 t m2, l = m1 ++ (t, h) :: m2 /\ map snd m2 = l2).
  { unfold hs in He. apply (fmap_app_inv snd) in He as (m1 & r & -> & Hr & Hl). destruct r as [|[t k] m2]; [done|]. cbn in Hr. injection Hr as -> Hr2. exists m1, t, m2. by split. }
  destruct He' as (m1 & t & m2 & Hl & <-). assert (Ht : t = nHeight b).
  { assert (Hx : (t, h) ∈ l) by (rewrite Hl; set_solver). apply Hin in Hx. rewrite Hb in Hx. by injection Hx. } subst t.
  apply elem_of_cons in Hqin as [->|Hqin]; [rewrite Hb in Hpq; simplify_eq; lia|].
  apply (list_elem_of_fmap snd) in Hqin as ([t k] & -> & Hk). cbn in Hpq.
  rewrite Hl in Hs. apply StronglySorted_app_1_r in Hs. apply StronglySorted_inv in Hs as [_ Hs]. rewrite Forall_forall in Hs. specialize (Hs _ Hk).
  assert (Hx : (t, k) ∈ l) by (rewrite Hl; set_solver). apply Hin in Hx. rewrite Hpq in Hx. cbn in Hx. simplify_eq. unfold height_le in Hs. cbn in Hs. lia.
Qed.

Section Chains.
Context {B : OpenSSLBN} (tp : TargetParams) (idx : gmap Z CBlockIndex) (Hidx : index_tree idx) (Hsum : chains_add_up tp idx).

Lemma bare_fields b : i_nBits (bare b) = i_nBits b /\ i_nPrimeChainLength (bare b) = i_nPrimeChainLength b /\ nTx (bare b) = nTx b /\ nStatus (bare b) = nStatus b /\
  pprev (bare b) = pprev b /\ nHeight (bare b) = nHeight b.
Proof. done. Qed.
Lemma set_chain_data_bare b : settled b -> set_chain_data (nChainWork b) (nWorkTransition b) (nChainTx b) (bare b) = unlinked b.
Proof.
  intros (Hf & Hd & Hu). unfold set_chain_data, bare, load_fields, unlinked, set_pnext. cbn [pprev pnext nHeight nFile nDataPos nUndoPos i_nPrimeChainType i_nPrimeChainLength
    nMoneySupply nTx nStatus i_nVersion i_hashMerkleRoot i_nTime i_nBits i_nNonce null_index]. rewrite Hf, Hd, Hu. done.
Qed.
Lemma chain_data_bare prev b : chain_data tp (unlinked <$> prev) (bare b) = chain_data tp prev b.
Proof. by destruct prev. Qed.

Lemma compute_chains_spec done rest j valid : (forall h, h ∈ rest -> is_Some (idx !! h)) -> NoDup (done ++ rest) ->
  (forall l1 h l2 b q, done ++ rest = l1 ++ h :: l2 -> idx !! h = Some b -> pprev b = Some q -> q ∈ l1) ->
  (forall k, j !! k = (fun b => if decide (k ∈ done) then unlinked b else bare b) <$> idx !! k) ->
  exists j' valid', compute_chains tp rest j valid = Some (j', valid') /\
    (forall k, j' !! k = (fun b => if decide (k ∈ done ++ rest) then unlinked b else bare b) <$> idx !! k) /\
    (forall k, k ∈ valid' <-> k ∈ valid \/ (k ∈ rest /\ exists b, idx !! k = Some b /\ is_candidate (nStatus b) = true)).
Proof.
  revert done j valid. induction rest as [|h rest IH]; intros dn j valid Hin Hnd Hprev Hj.
  { exists j, valid. rewrite app_nil_r. split_and!; [done|done|]. intros k. split; [by left|]. intros [?|[Hk _]]; [done|by apply elem_of_nil in Hk]. }
  destruct (Hin h) as [b Hb]; [left|]. assert (Hni : h ∉ dn) by (apply NoDup_app in Hnd as (_ & Hx & _); intros Hd; apply (Hx h Hd); left).
  assert (Hjh : j !! h = Some (bare b)) by (by rewrite Hj, Hb; cbn; rewrite decide_False).
  assert (Hp : (let? q := pprev (bare b) in j !! q) = unlinked <$> (let? q := pprev b in idx !! q)).
  { destruct (bare_fields b) as (_ & _ & _ & _ & -> & _). destruct (pprev b) as [q|] eqn:Hq; [|done]. cbn. rewrite Hj.
    pose proof (Hprev dn h rest b q eq_refl Hb Hq) as Hqd. destruct (idx !! q); [|done]. cbn. by rewrite decide_True. }
  cbn [compute_chains]. rewrite Hjh. cbn [option_bind mbind]. rewrite Hp, chain_data_bare, (Hsum h b Hb). cbn [option_bind mbind].
  destruct (it_entry _ Hidx h b Hb) as (_ & _ & Hset). rewrite set_chain_data_bare by done.
  destruct (IH (dn ++ [h]) (<[h := unlinked b]> j) (if is_candidate (nStatus (bare b)) then {[h]} ∪ valid else valid)) as (j' & valid' & Hr & Hj' & Hv).
  - intros k Hk. apply Hin. by right.
  - by rewrite <- app_assoc.
  - rewrite <- app_assoc. exact Hprev.
  - intros k. destruct (decide (k = h)) as [->|Hne].
    + rewrite lookup_insert_eq, Hb. cbn. by rewrite decide_True by set_solver.
    + rewrite lookup_insert_ne, Hj by done. destruct (idx !! k); [|done]. cbn. f_equal. destruct (decide (k ∈ dn)); [by rewrite decide_True by set_solver|by rewrite decide_False by set_solver].
  - exists j', valid'. rewrite <- app_assoc in Hj'. split; [exact Hr|]. split; [exact Hj'|]. intros k. rewrite Hv. clear Hr Hj' Hv.
    change (nStatus (bare b)) with (nStatus b). split.
    + intros [Hk|[Hk Hx]]; [|right; split; [by right|done]]. destruct (is_candidate (nStatus b)) eqn:Hc; [|by left].
      apply elem_of_union in Hk as [Hk%elem_of_singleton|Hk]; [subst k; right; split; [left|eauto]|by left].
    + intros [Hk|[Hk (b' & Hb' & Hc)]]; [left; destruct (is_candidate _); set_solver|]. apply elem_of_cons in Hk as [->|Hk]; [|right; eauto].
      left. rewrite Hb in Hb'. injection Hb' as <-. rewrite Hc. set_solver.
Qed.
End Chains.

(** ** The next pointers *)

(** the chain of a block: itself and the blocks before it *)
Definition on_chain (idx : gmap Z CBlockIndex) (best c : Z) : Prop := rtc (fun a b => prev_of idx (Some a) = Some b) best c.

Lemma prev_of_lookup (idx : gmap Z CBlockIndex) a q : prev_of idx (Some a) = Some q <-> exists b, idx !! a = Some b /\ pprev b = Some q.
Proof. unfold prev_of. cbn. destruct (idx !! a) as [b|]; cbn; [|split; [done|by intros (b & ? & _)]]. split; [by exists b|by intros (b' & [= <-] & ?)]. Qed.

Lemma on_chain_height idx h c b x : index_tree idx -> on_chain idx h c -> idx !! h = Some b -> idx !! c = Some x -> c = h \/ nHeight x < nHeight b.
Proof.
  intros Hi Hc. revert b. induction Hc as [h|h q c Hq Hc IH]; intros b Hb Hx; [by left|]. right.
  apply prev_of_lookup in Hq as (b' & Hb' & Hq). rewrite Hb in Hb'. injection Hb' as <-. destruct (it_prev _ Hi h b q Hb Hq) as (p & Hp & Hh).
  destruct (IH p Hp Hx) as [->|Hlt]; [|lia]. rewrite Hp in Hx. injection Hx as <-. lia.
Qed.

(** [link_chain] sets the pointer of every predecessor on the chain, and nothing else *)
Lemma link_chain_spec idx f h b j : index_tree idx -> idx !! h = Some b -> (Z.to_nat (nHeight b) <= f)%nat ->
  (forall k, pprev <$> j !! k = pprev <$> idx !! k) ->
  exists j', link_chain f h j = Some j' /\
    (forall c k, on_chain idx h c -> prev_of idx (Some c) = Some k -> j' !! k = set_pnext (Some c) <$> j !! k) /\
    (forall k, (forall c, on_chain idx h c -> prev_of idx (Some c) <> Some k) -> j' !! k = j !! k).
Proof.
  intros Hi. revert h b j. induction f as [|f IH]; intros h b j Hb Hf Hj.
  all: assert (Hpj : (let? x := j !! h in pprev x) = pprev b) by (specialize (Hj h); rewrite Hb in Hj; destruct (j !! h); cbn in *; congruence).
  all: cbn [link_chain]; rewrite Hpj; destruct (pprev b) as [q|] eqn:Hq.
  2, 4: exists j; split; [done|]; split; [|done]; intros c k Hc Hk; exfalso; apply prev_of_lookup in Hk as (x & Hx & Hxq); inversion Hc as [|? y ? Hy]; subst;
    [congruence|apply prev_of_lookup in Hy as (x' & Hx' & Hy); congruence].
  all: destruct (it_prev _ Hi h b q Hb Hq) as (p & Hp & Hh); destruct (it_entry _ Hi q p Hp) as (_ & Hvp & _); pose proof (proj1 (vi_counts _ Hvp)) as Hhp.
  { lia. }
  destruct (IH q p (alter (set_pnext (Some h)) q j) Hp ltac:(lia)) as (j' & Hr & Hset & Hkeep).
  { intros k. destruct (decide (k = q)) as [->|Hne]; [rewrite lookup_alter_eq, <- Hj; by destruct (j !! q)|by rewrite lookup_alter_ne]. }
  assert (Hnotq : forall c, on_chain idx q c -> prev_of idx (Some c) <> Some q).
  { intros c Hc Hcq. apply prev_of_lookup in Hcq as (x & Hx & Hxq). destruct (it_prev _ Hi c x q Hx Hxq) as (p' & Hp' & Hhx).
    rewrite Hp in Hp'. injection Hp' as <-. destruct (on_chain_height idx q c p x Hi Hc Hp Hx) as [->|?]; [rewrite Hp in Hx; injection Hx as <-|]; lia. }
  assert (Hhq : prev_of idx (Some h) = Some q) by (apply prev_of_lookup; eauto).
  exists j'. split; [exact Hr|]. split.
  - intros c k Hc Hk. inversion Hc as [|? y ? Hy Hc']; subst.
    + rewrite Hhq in Hk. injection Hk as <-. rewrite Hkeep by done. apply lookup_alter_eq.
    + rewrite Hhq in Hy. injection Hy as <-. rewrite (Hset c k Hc' Hk). rewrite lookup_alter_ne; [done|]. intros ->. by apply (Hnotq c).
  - intros k Hk. rewrite Hkeep.
    + rewrite lookup_alter_ne; [done|]. intros <-. by apply (Hk h); [apply rtc_refl|].
    + intros c Hc. apply Hk. by apply (rtc_l _ h q).
Qed.

(** ** Property *)

(** the pointers to the next block are those of the best chain *)
Definition linked_to (idx : gmap Z CBlockIndex) (best : option Z) : Prop := forall h b, idx !! h = Some b ->
  forall c, pnext b = Some c <-> exists t, best = Some t /\ on_chain idx t c /\ prev_of idx (Some c) = Some h.

Lemma best_block_heights {L : LevelDB} {K : Crypto} (f g : Z -> option Z) (tip : CCoinsViewCache DB) : (forall h, f h = g h) ->
  (GetBestBlock (CV := CCoinsViewDB (H := f)) tip).1 = (GetBestBlock (CV := CCoinsViewDB (H := g)) tip).1.
Proof.
  intros Hfg. unfold GetBestBlock. destruct (pindexTip tip); [done|]. cbn. unfold coinsdb_GetBestBlock, index_height.
  destruct (Read _ _ _ _); [|done]. cbn. by rewrite Hfg.
Qed.

(** linking the best chain completes the index *)
Lemma link_restores idx best b j : index_tree idx -> linked_to idx (Some best) -> idx !! best = Some b -> j = unlinked <$> idx ->
  link_chain (Z.to_nat (nHeight b)) best j = Some idx.
Proof.
  intros Hi Hl Hb ->. destruct (link_chain_spec idx (Z.to_nat (nHeight b)) best b (unlinked <$> idx) Hi Hb ltac:(lia)) as (j' & -> & Hset & Hkeep).
  { intros k. rewrite lookup_fmap. by destruct (idx !! k). }
  f_equal. apply map_eq. intros k. destruct (idx !! k) as [x|] eqn:Hk.
  - destruct (pnext x) as [c|] eqn:Hc.
    + apply (Hl k x Hk) in Hc as (t & [= <-] & Hon & Hp). rewrite (Hset c k Hon Hp), lookup_fmap, Hk. cbn. f_equal.
      assert (Hn : pnext x = Some c) by (apply (Hl k x Hk); eauto). destruct x. cbn in *. by subst.
    + rewrite Hkeep; [rewrite lookup_fmap, Hk; cbn; destruct x; cbn in *; by subst|]. intros c Hon Hp.
      assert (Hn : pnext x = Some c) by (apply (Hl k x Hk); eauto). congruence.
  - rewrite Hkeep; [by rewrite lookup_fmap, Hk|]. intros c Hon Hp. apply prev_of_lookup in Hp as (y & Hy & Hyk).
    destruct (it_prev _ Hi c y k Hy Hyk) as (p & Hp & _). congruence.
Qed.

Lemma txindex_name_sized : sized is_byte txindex_name.
Proof. split; [repeat (constructor; [unfold is_byte; lia|]); constructor|vm_compute; discriminate]. Qed.

Section LoadProperties.
Context {L : LevelDB} {LL : LevelDBLaws L} {B : OpenSSLBN} {BL : OpenSSLBNLaws B} {K : Crypto}.

(** C9: A node that starts again has the block index it stopped with.  Let the database hold every entry of an index whose entries fit it, whose
    predecessors are there, one lower, whose work, transitions and transaction counts add up along every chain, and whose
    pointers to the next block are those of the chain to the best block of the coins.  Then [LoadBlockIndexDB], run after the
    memory was emptied, succeeds, the index is the same, pointers and all, the best block with its hash, height and work is the same, and the
    candidates are the blocks with valid transactions that have not failed; the first block, the block files and the work of the best invalid chain are those of
    the tables; the node reindexes when it was told to or the table says that a reindexing was not finished, and the flag of the transaction index is
    that of the table, where there is one. *)
Theorem LoadBlockIndexDB_restores (tp : TargetParams) (hashGenesisBlock : Z) (idx : gmap Z CBlockIndex) (best : Z) (bbest : CBlockIndex)
    (tb : tables) (db : DB) (tip : CCoinsViewCache DB) (g : globals)
    (Hdb : tree_holds tb (contents db)) (Hok : tables_ok tb) (Hstored : tb_index tb = disk_of idx)
    (Htree : index_tree idx) (Hsum : chains_add_up tp idx) (Hlinked : linked_to idx (Some best)) (Hbest : idx !! best = Some bbest)
    (Htip : (GetBestBlock (CV := CCoinsViewDB (H := fun h => nHeight <$> idx !! h)) tip).1 = Some {| b_hash := best; b_height := nHeight bbest |}) :
  exists g', LoadBlockIndexDB tp hashGenesisBlock db tip (UnloadBlockIndex g) = Some (true, g') /\
    g_mapBlockIndex g' = idx /\ g_pindexBest g' = Some best /\ g_hashBestChain g' = best /\ g_nBestHeight g' = nHeight bbest /\ g_nBestChainWork g' = nChainWork bbest /\
    (forall h, h ∈ g_setBlockIndexValid g' <-> exists b, idx !! h = Some b /\ is_candidate (nStatus b) = true) /\
    g_pindexGenesisBlock g' = (if decide (is_Some (idx !! hashGenesisBlock)) then Some hashGenesisBlock else None) /\
    (forall n, tb_lastfile tb = Some n -> g_nLastBlockFile g' = n /\ forall i, tb_fileinfo tb !! n = Some i -> g_infoLastBlockFile g' = i) /\
    g_nBestInvalidWork g' = getuint256 (default 0 (tb_invalid tb)) /\
    g_fReindex g' = g_fReindex g || tb_reindexing tb /\ g_fTxIndex g' = default (g_fTxIndex g) (tb_flags tb !! txindex_name).
Proof.
  destruct (tree_reads tb db Hdb Hok) as (R1 & R2 & R3 & R4 & _ & R6).
  pose proof txindex_name_sized as Hname. pose proof (th_index _ _ Hdb) as Hh. rewrite Hstored in Hh.
  unfold LoadBlockIndexDB. cbn [UnloadBlockIndex g_mapBlockIndex g_pindexGenesisBlock g_setBlockIndexValid g_nLastBlockFile g_infoLastBlockFile g_fReindex g_fTxIndex].
  rewrite (LoadBlockIndexGuts_reads idx Htree hashGenesisBlock db Hh). cbn [option_bind mbind negb].
  destruct (vSortedByHeight_spec idx Htree (bare <$> idx)) as (Hnd & Hin & Hprev); [intros h; rewrite lookup_fmap; by destruct (idx !! h)|].
  destruct (compute_chains_spec tp idx Htree Hsum [] (map snd (vSortedByHeight (bare <$> idx))) (bare <$> idx) ∅) as (j & valid & -> & Hj & Hv).
  - intros h. by rewrite Hin.
  - exact Hnd.
  - exact Hprev.
  - intros k. rewrite lookup_fmap. destruct (idx !! k); [|done]. cbn. by rewrite decide_False by apply not_elem_of_nil.
  - assert (Hju : j = unlinked <$> idx).
    { apply map_eq. intros k. rewrite Hj, lookup_fmap. destruct (idx !! k) eqn:Hk; [|done]. cbn. rewrite decide_True; [done|]. apply Hin. eauto. }
    cbn [option_bind mbind]. rewrite (best_block_heights _ (fun h => nHeight <$> idx !! h)), Htip by (intros h; rewrite Hju, lookup_fmap; by destruct (idx !! h)).
    cbn [b_hash]. assert (Hjb : j !! best = Some (unlinked bbest)) by (by rewrite Hju, lookup_fmap, Hbest). rewrite Hjb. cbn [option_bind mbind].
    change (nHeight (unlinked bbest)) with (nHeight bbest). rewrite (link_restores idx best bbest j) by done. cbn [option_bind mbind].
    eexists. split; [reflexivity|]. cbn [g_mapBlockIndex g_pindexBest g_hashBestChain g_nBestHeight g_nBestChainWork g_setBlockIndexValid g_pindexGenesisBlock g_nLastBlockFile
      g_infoLastBlockFile g_nBestInvalidWork g_fReindex g_fTxIndex]. split_and!; try done.
    + intros h. rewrite Hv. split; [by intros [?%elem_of_empty|[_ ?]]|]. intros (b & Hb & Hc). right. split; [apply Hin|]; eauto.
    + intros n Hn. rewrite R2, Hn. cbn. split; [done|]. intros i Hi. rewrite R4, Hi; [done|]. by apply (to_lastfile _ Hok).
    + by rewrite R1.
    + by rewrite R3.
    + by rewrite R6.
Qed.
End LoadProperties.

(** ** Witness *)

(** a first block and two blocks on it, one of them the best *)
Definition start_block (p n : option Z) (height status : Z) (data : Z * Z * Z) : CBlockIndex :=
  {| pprev := p; pnext := n; nHeight := height; nFile := 0; nDataPos := 300 * height; nUndoPos := 0; nChainWork := data.1.1; nWorkTransition := data.1.2;
     i_nPrimeChainType := 1; i_nPrimeChainLength := 0x07100000; nMoneySupply := 0; nTx := 1; nChainTx := data.2; nStatus := status; i_nVersion := 2;
     i_hashMerkleRoot := 5; i_nTime := 1400000000 + 60 * height; i_nBits := 0x07000000; i_nNonce := 3 |}.
Definition start_data (prev : option CBlockIndex) : Z * Z * Z := default (0, 0, 0) (chain_data (B := ZBN) mainnet_target prev (start_block None None 0 0 (0, 0, 0))).
Definition start_data0 : Z * Z * Z := Eval vm_compute in start_data None.
Definition start_first : CBlockIndex := start_block None (Some 12) 0 (BLOCK_VALID_SCRIPTS + BLOCK_HAVE_DATA) start_data0.
Definition start_data1 : Z * Z * Z := Eval vm_compute in start_data (Some start_first).
Definition start_best : CBlockIndex := start_block (Some 11) None 1 (BLOCK_VALID_SCRIPTS + BLOCK_HAVE_DATA) start_data1.
Definition start_other : CBlockIndex := start_block (Some 11) None 1 (BLOCK_VALID_TRANSACTIONS + BLOCK_HAVE_DATA + BLOCK_FAILED_VALID) start_data1.
Definition start_index : gmap Z CBlockIndex := <[11 := start_first]> (<[12 := start_best]> {[13 := start_other]}).
Definition start_writes : list tree_write :=
  [PutIndex (disk_index 13 start_other); PutIndex (disk_index 11 start_first); PutLastFile 0; PutFlag txindex_name true; PutReindexing true; PutIndex (disk_index 12 start_best)].
Definition start_db : @DB ToyDB := (run_writes (B := ZBN) start_writes ∅).2.
Definition start_tables : tables := foldl (fun tb w => apply_write w tb) no_tables start_writes.
Definition start_coins : CCoinsViewCache (@DB ToyDB) := new_cache (coinsdb_SetBestBlock {| b_hash := 12; b_height := 1 |} (∅ : @DB ToyDB)).2.
Definition start_globals : globals :=
  {| g_mapBlockIndex := ∅; g_setBlockIndexValid := ∅; g_pindexGenesisBlock := None; g_nLastBlockFile := 0; g_infoLastBlockFile := null_file_info;
     g_nBestInvalidWork := 0; g_fReindex := false; g_fTxIndex := false; g_pindexBest := None; g_hashBestChain := 0; g_nBestHeight := 0; g_nBestChainWork := 0 |}.

Lemma start_lookup h b : start_index !! h = Some b -> (h = 11 /\ b = start_first) \/ (h = 12 /\ b = start_best) \/ (h = 13 /\ b = start_other).
Proof. unfold start_index. rewrite !lookup_insert_Some, lookup_singleton_Some. naive_solver. Qed.
Lemma start_tree : index_tree start_index.
Proof.
  assert (Hv : forall b, b = start_first \/ b = start_best \/ b = start_other -> valid_index b /\ settled b).
  { intros b [->|[->| ->]]; (split; [split; cbn; vm_compute; repeat split; discriminate || reflexivity|vm_compute; repeat split]). }
  split.
  - intros h b [[-> ->]|[[-> ->]|[-> ->]]]%start_lookup; (split; [lia|]); apply Hv; auto.
  - intros h b q [[-> ->]|[[-> ->]|[-> ->]]]%start_lookup; intros [= <-]; exists start_first; split; (done || reflexivity).
Qed.
Lemma start_sum : chains_add_up (B := ZBN) mainnet_target start_index.
Proof. intros h b [[-> ->]|[[-> ->]|[-> ->]]]%start_lookup; vm_compute; reflexivity. Qed.
Lemma start_linked : linked_to start_index (Some 12).
Proof.
  assert (Hon : forall c, on_chain start_index 12 c -> c = 12 \/ c = 11).
  { intros c Hc. inversion Hc as [|? y ? Hy Hc']; subst; [by left|right]. vm_compute in Hy. injection Hy as <-.
    inversion Hc' as [|? z ? Hz _]; subst; [done|]. vm_compute in Hz. discriminate Hz. }
  intros h b Hb c. split.
  - apply start_lookup in Hb as [[-> ->]|[[-> ->]|[-> ->]]]; intros [= <-]. exists 12. split; [done|]. split; [apply rtc_refl|reflexivity].
  - intros (t & [= <-] & [-> | ->]%Hon & Hp); vm_compute in Hp; [|discriminate Hp]. injection Hp as <-. by apply start_lookup in Hb as [[_ ->]|[[? _]|[? _]]].
Qed.
Lemma start_written : tree_holds (B := ZBN) start_tables (contents start_db) /\ tables_ok start_tables.
Proof.
  apply (writes_simulate (L := ToyDB) (LL := ToyDB_laws) (B := ZBN) start_writes no_tables (∅ : gmap bytes bytes) start_db (proj1 empty_db_tables) (proj2 empty_db_tables)); [|reflexivity].
  assert (Hd : forall h, h = 11 \/ h = 12 \/ h = 13 -> forall b, start_index !! h = Some b -> valid_disk_index (disk_index h b)).
  { intros h Hh b Hb. pose proof (disk_entry_ok start_index start_tree h (disk_index h b)) as He. rewrite disk_of_lookup, Hb in He. by apply He. }
  unfold start_writes. repeat apply Forall_cons_2; [apply Hd; [auto|reflexivity]|apply Hd; [auto|reflexivity]|unfold write_ok, int_ok; lia|exact txindex_name_sized|exact I|
    apply Hd; [auto|reflexivity]|by constructor].
Qed.
Lemma start_stored : tb_index start_tables = disk_of start_index.
Proof. vm_compute. reflexivity. Qed.

Lemma LoadBlockIndexDB_restores_witness : exists g', LoadBlockIndexDB (B := ZBN) (K := ToyCrypto) mainnet_target 11 start_db start_coins start_globals = Some (true, g') /\
  g_mapBlockIndex g' = start_index /\ 13 ∉ g_setBlockIndexValid g' /\ g_fReindex g' = true /\ g_fTxIndex g' = true.
Proof.
  destruct (LoadBlockIndexDB_restores (L := ToyDB) (B := ZBN) (K := ToyCrypto) mainnet_target 11 start_index 12 start_best start_tables start_db start_coins start_globals)
    as (g' & Hr & Hi & _ & _ & _ & _ & Hv & _ & _ & _ & Hre & Htx).
  - exact (proj1 start_written).
  - exact (proj2 start_written).
  - exact start_stored.
  - exact start_tree.
  - exact start_sum.
  - exact start_linked.
  - reflexivity.
  - vm_compute. reflexivity.
  - exists g'. split; [exact Hr|]. split; [exact Hi|]. split; [|split; [rewrite Hre|rewrite Htx]; vm_compute; reflexivity]. rewrite Hv. intros (b & Hb & Hc). apply start_lookup in Hb as [[? _]|[[? _]|[_ ->]]]; [done..|].
    vm_compute in Hc. discriminate Hc.
Defined.
