(* ===== verification/CheckQueue.v ===== *)
(** * The script check threads (checkqueue.h)

    [CCheckQueue] hands the script checks of a block to a pool of threads.  The model is a step relation on the shared
    state and the state of every thread.  A critical section, up to the next release of the mutex, is one step, and so is the run of
    one check; waiting on a condition releases the mutex, and a thread that was notified, or woke up for no reason, takes it again in
    a later step.  The master adds batches of checks and then joins the pool ([Wait]).  The properties: whatever the
    interleaving, [Wait] returns the conjunction of the checks, which is what [control_Wait] of Connect.v computes in order, and it
    does return. *)

From stdpp Require Import list.
From S2P Require Import Prelude OpenSSL BigNum Uint256 Serialize Crypto Script ScriptEval Transaction View Connect.
Local Open Scope Z_scope.

Section CheckQueue.
Context {T : Type} (check : T -> bool) (nBatchSize : Z).

(** ** The shared state and the threads *)

Record CCheckQueue := { queue : list T; nIdle : Z; nTotal : Z; fAllOk : bool; nTodo : Z; fQuit : bool }.
Definition new_queue : CCheckQueue := {| queue := []; nIdle := 0; nTotal := 0; fAllOk := true; nTodo := 0; fQuit := false |}.

(** where a thread is in [Loop]: before its first section, in [cond.wait], notified but without the mutex, in its batch with
    the checks left, the size of the batch and [fOk]; or it returned *)
Inductive thread := Start | Waiting | Woken | Working (vChecks : list T) (nNow : Z) (fOk : bool) | Returned (fRet : bool).

(** the clean-up at the start of a section, and whether it notifies the master *)
Definition clean_up (fMaster : bool) (nNow : Z) (fOk : bool) (s : CCheckQueue) : CCheckQueue * bool :=
  if negb (nNow =? 0) then
    let todo := u32 (nTodo s - nNow) in
    ({| queue := queue s; nIdle := nIdle s; nTotal := nTotal s; fAllOk := fAllOk s && fOk; nTodo := todo; fQuit := fQuit s |}, (todo =? 0) && negb fMaster)
  else ({| queue := queue s; nIdle := nIdle s; nTotal := nTotal s + 1; fAllOk := fAllOk s; nTodo := nTodo s; fQuit := fQuit s |}, false).

Definition batch_size (s : CCheckQueue) : Z := Z.max 1 (Z.min nBatchSize (Z.of_nat (length (queue s)) / (nTotal s + nIdle s + 1))).
(** from [while (queue.empty())] to the end of the section *)
Definition pick (fMaster : bool) (s : CCheckQueue) : thread * CCheckQueue :=
  match queue s with
  | [] =>
    if (fMaster || fQuit s) && (nTodo s =? 0) then
      (Returned (fAllOk s), {| queue := []; nIdle := nIdle s; nTotal := nTotal s - 1; fAllOk := if fMaster then true else fAllOk s; nTodo := nTodo s; fQuit := fQuit s |})
    else (Waiting, {| queue := []; nIdle := nIdle s + 1; nTotal := nTotal s; fAllOk := fAllOk s; nTodo := nTodo s; fQuit := fQuit s |})
  | _ :: _ =>
    let nNow := batch_size s in
    let vChecks := take (Z.to_nat nNow) (rev (queue s)) in
    (Working vChecks nNow (fAllOk s),
     {| queue := take (length (queue s) - Z.to_nat nNow) (queue s); nIdle := nIdle s; nTotal := nTotal s; fAllOk := fAllOk s; nTodo := nTodo s; fQuit := fQuit s |})
  end.

(** the next step of a thread, and whether it notifies the master; [None]: it waits or has returned *)
Definition Loop (fMaster : bool) (t : thread) (s : CCheckQueue) : option (thread * CCheckQueue * bool) :=
  match t with
  | Start => let '(s, n) := clean_up fMaster 0 true s in let '(t, s) := pick fMaster s in Some (t, s, n)
  | Waiting | Returned _ => None
  | Woken =>
    let s := {| queue := queue s; nIdle := nIdle s - 1; nTotal := nTotal s; fAllOk := fAllOk s; nTodo := nTodo s; fQuit := fQuit s |} in
    let '(t, s) := pick fMaster s in Some (t, s, false)
  | Working (c :: r) nNow fOk => Some (Working r nNow (if fOk then check c else fOk), s, false)
  | Working [] nNow fOk => let '(s, n) := clean_up fMaster nNow fOk s in let '(t, s) := pick fMaster s in Some (t, s, n)
  end.

Definition wake (t : thread) : thread := match t with Waiting => Woken | _ => t end.

(** [Add] on the shared state *)
Definition Add (vChecks : list T) (s : CCheckQueue) : CCheckQueue :=
  {| queue := queue s ++ vChecks; nIdle := nIdle s; nTotal := nTotal s; fAllOk := fAllOk s; nTodo := u32 (nTodo s + Z.of_nat (length vChecks)); fQuit := fQuit s |}.

(** the assertions of [CCheckQueueControl] *)
Definition control_asserts (s : CCheckQueue) : Prop := nTotal s = nIdle s /\ nTodo s = 0 /\ fAllOk s = true.

(** ** Steps *)

(** the master has batches to add, or has joined the pool *)
Inductive master := Adding (batches : list (list T)) | Joined (t : thread).
Record config := { shared : CCheckQueue; workers : list thread; the_master : master }.

(** [notify_one] wakes one of the threads that wait, if there is one *)
Inductive notified : list thread -> list thread -> Prop :=
  | notified_one ws i : ws !! i = Some Waiting -> notified ws (<[i := Woken]> ws)
  | notified_none ws : (forall i, ws !! i <> Some Waiting) -> notified ws ws.
Definition notify_master (n : bool) (m : master) : master := if n then match m with Joined t => Joined (wake t) | _ => m end else m.
(** what [Add] does to the threads that wait *)
Definition notify_workers (vChecks : list T) (ws ws' : list thread) : Prop :=
  match vChecks with [] => ws' = ws | [_] => notified ws ws' | _ => ws' = wake <$> ws end.

Inductive step : config -> config -> Prop :=
  | step_add s ws ws' b bs : notify_workers b ws ws' ->
      step {| shared := s; workers := ws; the_master := Adding (b :: bs) |} {| shared := Add b s; workers := ws'; the_master := Adding bs |}
  | step_join s ws : step {| shared := s; workers := ws; the_master := Adding [] |} {| shared := s; workers := ws; the_master := Joined Start |}
  | step_master s s' ws t t' n : Loop true t s = Some (t', s', n) ->
      step {| shared := s; workers := ws; the_master := Joined t |} {| shared := s'; workers := ws; the_master := Joined t' |}
  | step_worker s s' ws m i t t' n : ws !! i = Some t -> Loop false t s = Some (t', s', n) ->
      step {| shared := s; workers := ws; the_master := m |} {| shared := s'; workers := <[i := t']> ws; the_master := notify_master n m |}.
(** a thread that wakes up without having been notified *)
Inductive spurious : config -> config -> Prop :=
  | spurious_worker s ws m i : ws !! i = Some Waiting ->
      spurious {| shared := s; workers := ws; the_master := m |} {| shared := s; workers := <[i := Woken]> ws; the_master := m |}
  | spurious_master s ws : spurious {| shared := s; workers := ws; the_master := Joined Waiting |} {| shared := s; workers := ws; the_master := Joined Woken |}.
Definition any_step (c c' : config) : Prop := step c c' \/ spurious c c'.
(** [runs c n k c']: [n] steps and [k] spurious wake-ups lead from [c] to [c'] *)
Inductive runs (c : config) : nat -> nat -> config -> Prop :=
  | runs_none : runs c 0 0 c
  | runs_step n k c1 c2 : runs c n k c1 -> step c1 c2 -> runs c (S n) k c2
  | runs_spurious n k c1 c2 : runs c n k c1 -> spurious c1 c2 -> runs c n (S k) c2.
End CheckQueue.
Arguments CCheckQueue : clear implicits.
Arguments thread : clear implicits.
Arguments config : clear implicits.
Arguments master : clear implicits.

(** ** What all threads hold together *)

Section Invariant.
Context {T : Type} (check : T -> bool) (nBatchSize : Z).
Implicit Types (s : CCheckQueue T) (t : thread T) (ts ws : list (thread T)) (c : config T).

Definition in_loop t : Z := match t with Waiting | Woken | Working _ _ _ => 1 | _ => 0 end.
Definition idle t : Z := match t with Waiting | Woken => 1 | _ => 0 end.
Definition held t : Z := match t with Working _ nNow _ => nNow | _ => 0 end.
(** what the verdict on the batch of a thread will be *)
Definition batch_ok t : bool := match t with Working r _ fOk => fOk && forallb check r | _ => true end.
Definition thread_wf t : Prop := match t with Working r nNow _ => 1 <= nNow /\ Z.of_nat (length r) <= nNow | _ => True end.
Definition tot (f : thread T -> Z) ts : Z := foldr (fun t n => f t + n) 0 ts.

#[export] Instance tot_perm f : Proper ((≡ₚ) ==> (=)) (tot f).
Proof. unfold tot. induction 1; cbn; lia. Qed.
#[export] Instance forallb_perm {A} (f : A -> bool) : Proper ((≡ₚ) ==> (=)) (forallb f).
Proof. induction 1 as [|x l l' _ IH|x y l|l1 l2 l3 _ IH1 _ IH2]; cbn; [done|by rewrite IH|by destruct (f x), (f y)|by rewrite IH1]. Qed.

Lemma tot_nonneg f ts : (forall t, thread_wf t -> 0 <= f t) -> Forall thread_wf ts -> 0 <= tot f ts.
Proof. intros Hf. unfold tot. induction 1 as [|t ts Ht Hts IH]; cbn; [lia|]. specialize (Hf t Ht). lia. Qed.
Lemma held_nonneg t : thread_wf t -> 0 <= held t.
Proof. destruct t; cbn; lia. Qed.
Lemma idle_nonneg t : thread_wf t -> 0 <= idle t.
Proof. destruct t; cbn; lia. Qed.
Lemma in_loop_nonneg t : thread_wf t -> 0 <= in_loop t.
Proof. destruct t; cbn; lia. Qed.

Lemma forallb_rev {A} (f : A -> bool) l : forallb f (rev l) = forallb f l.
Proof. apply forallb_perm, Permutation_sym, Permutation_rev. Qed.

(** the numbers agree with the threads *)
Record counted s ts : Prop := {
  co_total : nTotal s = tot in_loop ts;
  co_idle : nIdle s = tot idle ts;
  co_todo : nTodo s = Z.of_nat (length (queue s)) + tot held ts;
  co_small : nTodo s < 2 ^ 32;
  co_wf : Forall thread_wf ts;
  co_quit : fQuit s = false;
}.
(** the verdict that is on the way *)
Definition pending s ts : bool := fAllOk s && forallb check (queue s) && forallb batch_ok ts.

(** taking a batch, from a state whose counts already include the thread as one that holds nothing *)
Lemma batch_size_range s : 0 <= nTotal s -> 0 <= nIdle s -> queue s <> [] -> 1 <= batch_size nBatchSize s <= Z.of_nat (length (queue s)).
Proof.
  intros H1 H2 Hq. unfold batch_size. assert (Hl : 1 <= Z.of_nat (length (queue s))) by (destruct (queue s); cbn in *; [done|lia]).
  assert (Hd : Z.of_nat (length (queue s)) / (nTotal s + nIdle s + 1) <= Z.of_nat (length (queue s))) by (apply Z.div_le_upper_bound; nia). lia.
Qed.

Lemma split_queue {A} (q : list A) (n : nat) : (n <= length q)%nat -> q ≡ₚ take (length q - n) q ++ take n (rev q).
Proof.
  intros Hn. rewrite <- (take_drop (length q - n) q) at 1. apply Permutation_app_head.
  assert (He : take n (rev q) = rev (drop (length q - n) q)).
  { rewrite <- (take_drop (length q - n) q) at 1. rewrite rev_app_distr. rewrite take_app_length'; [done|]. rewrite length_rev, length_drop. lia. }
  rewrite He. apply Permutation_rev.
Qed.

(** the outcome of a step of thread [t] among the others [l] *)
Record stepped s t t' s' (l : list (thread T)) (fMaster n : bool) : Prop := {
  sd_counted : counted s' (t' :: l);
  sd_end : match t' with
    | Returned r => fMaster = true /\ r = pending s (t :: l) /\ control_asserts s' /\ queue s' = [] /\ tot held l = 0
    | _ => pending s' (t' :: l) = pending s (t :: l)
    end;
  sd_length : Z.of_nat (length (queue s')) <= Z.of_nat (length (queue s));
  sd_todo : nTodo s' <= nTodo s;
}.

(** no thread has a batch *)
Lemma none_held ts : Forall thread_wf ts -> tot held ts = 0 -> tot in_loop ts = tot idle ts /\ forallb batch_ok ts = true.
Proof.
  induction 1 as [|t ts Ht Hts IH]; [done|]. pose proof (tot_nonneg held ts held_nonneg Hts) as Hn. unfold tot in *. cbn. intros H0.
  destruct t; cbn in *; destruct IH as [-> ->]; try done; try lia.
Qed.

#[local] Ltac counts := split; cbn [queue nIdle nTotal fAllOk nTodo fQuit length tot foldr in_loop idle held];
  repeat match goal with |- context [foldr (fun t n => ?f t + n) 0 ?l] => fold (tot f l) end; try lia; try done.

(** a thread that holds nothing reaches the loop with the counts of the others, itself counted as running *)
Lemma pick_spec fMaster s t' s' l v :
  nTotal s = 1 + tot in_loop l -> nIdle s = tot idle l -> nTodo s = Z.of_nat (length (queue s)) + tot held l -> 0 <= nTodo s < 2 ^ 32 -> Forall thread_wf l ->
  fQuit s = false -> fAllOk s && forallb check (queue s) && forallb batch_ok l = v -> pick nBatchSize fMaster s = (t', s') ->
  counted s' (t' :: l) /\
  match t' with
  | Returned r => fMaster = true /\ r = v /\ control_asserts s' /\ queue s' = [] /\ tot held l = 0
  | _ => pending s' (t' :: l) = v
  end /\ Z.of_nat (length (queue s')) <= Z.of_nat (length (queue s)) /\ nTodo s' <= nTodo s.
Proof.
  intros Htot Hidle Htodo Hsm Hwf Hquit Hv Hp. unfold pick in Hp. pose proof (tot_nonneg _ l held_nonneg Hwf) as Hh. pose proof (tot_nonneg _ l idle_nonneg Hwf) as Hi.
  pose proof (tot_nonneg _ l in_loop_nonneg Hwf) as Hl. destruct (queue s) as [|x q] eqn:Hq.
  - rewrite Hquit, orb_false_r in Hp. cbn [length] in Htodo. destruct (fMaster && (nTodo s =? 0)) eqn:Hm; injection Hp as <- <-.
    + apply andb_true_iff in Hm as [-> Hz]. apply Z.eqb_eq in Hz. assert (Hz' : tot held l = 0) by lia. destruct (none_held l Hwf Hz') as [Hlt Hb].
      split; [counts; by constructor|].
      split; [|cbn; lia]. split; [done|]. split; [rewrite <- Hv, Hb; cbn; by destruct (fAllOk s)|]. split; [|done]. unfold control_asserts. cbn. split_and!; [lia|lia|done].
    + split; [counts; by constructor|].
      split; [|cbn; lia]. rewrite <- Hv. done.
  - rewrite <- Hq in *. assert (Hne : queue s <> []) by (by rewrite Hq). clear Hq x q. injection Hp as <- <-.
    pose proof (batch_size_range s ltac:(lia) ltac:(lia) Hne) as Hn. set (k := batch_size nBatchSize s) in *.
    assert (Hk : (Z.to_nat k <= length (queue s))%nat) by lia.
    assert (Hlen : length (take (Z.to_nat k) (rev (queue s))) = Z.to_nat k) by (rewrite length_take, length_rev; lia).
    assert (Hlen2 : Z.of_nat (length (take (length (queue s) - Z.to_nat k) (queue s))) = Z.of_nat (length (queue s)) - k) by (rewrite length_take; lia).
    split; [counts|].
    + constructor; [|done]. cbn. rewrite Hlen. lia.
    + split; [|cbn; rewrite length_take; lia]. unfold pending. cbn [queue fAllOk forallb batch_ok]. rewrite <- Hv.
      assert (Hf : forallb check (queue s) = forallb check (take (length (queue s) - Z.to_nat k) (queue s)) && forallb check (take (Z.to_nat k) (rev (queue s))))
        by (rewrite <- forallb_app; by apply forallb_perm, split_queue).
      rewrite Hf. destruct (fAllOk s); [|done]. cbn. by rewrite andb_assoc.
Qed.

Lemma u32_sub a b : 0 <= b <= a -> a < 2 ^ 32 -> u32 (a - b) = a - b.
Proof. intros. apply u32_small. lia. Qed.

Lemma Loop_spec fMaster s t t' s' n l : counted s (t :: l) -> Loop check nBatchSize fMaster t s = Some (t', s', n) -> stepped s t t' s' l fMaster n.
Proof.
  intros [C1 C2 C3 C4 C5 C6] H. apply Forall_cons in C5 as [Hwt Hwl]. pose proof (tot_nonneg _ l held_nonneg Hwl) as Hh.
  cbn [tot foldr] in C1, C2, C3. fold (tot in_loop l) in C1. fold (tot idle l) in C2. fold (tot held l) in C3.
  destruct t as [| | |[|c r] k fOk|r]; cbn [Loop] in H; try done; cbn [in_loop idle held] in *.
  - cbn in H. destruct (pick nBatchSize fMaster _) as [t1 s1] eqn:Ep. injection H as <- <- <-.
    apply (pick_spec _ _ _ _ l (pending s (Start :: l))) in Ep as (Hc & He & Hl & Ht); [by split|cbn; lia|cbn; lia|cbn; lia|cbn; lia|done|done|done].
  - destruct (pick nBatchSize fMaster _) as [t1 s1] eqn:Ep. injection H as <- <- <-.
    apply (pick_spec _ _ _ _ l (pending s (Woken :: l))) in Ep as (Hc & He & Hl & Ht); [by split|cbn; lia|cbn; lia|cbn; lia|cbn; lia|done|done|done].
  - cbn in Hwt. unfold clean_up in H. rewrite (proj2 (Z.eqb_neq k 0)) in H by lia. cbn [negb] in H. rewrite u32_sub in H by lia.
    destruct (pick nBatchSize fMaster _) as [t1 s1] eqn:Ep. injection H as <- <- <-.
    apply (pick_spec _ _ _ _ l (pending s (Working [] k fOk :: l))) in Ep as (Hc & He & Hl & Ht); [|cbn; lia|cbn; lia|cbn; lia|cbn; lia|done|done|].
    + cbn in Hl, Ht. split; [done|done|done|lia].
    + unfold pending. cbn. rewrite andb_true_r. destruct (fAllOk s), fOk, (forallb check (queue s)); done.
  - injection H as <- <- <-. cbn in Hwt. split; [counts| |lia|lia].
    + constructor; [cbn; lia|done].
    + unfold pending. cbn. destruct fOk; cbn; [by rewrite andb_assoc|done].
Qed.

(** ** The invariant of the pool *)

(** threads that were woken hold what they held *)
Definition woken_from t t' : Prop := t' = t \/ (t = Waiting /\ t' = Woken).
Lemma woken_keeps ts ts' : Forall2 woken_from ts ts' ->
  tot in_loop ts' = tot in_loop ts /\ tot idle ts' = tot idle ts /\ tot held ts' = tot held ts /\ forallb batch_ok ts' = forallb batch_ok ts /\
  (Forall thread_wf ts -> Forall thread_wf ts') /\ (forall r, Returned r ∈ ts' -> Returned r ∈ ts).
Proof.
  unfold tot. induction 1 as [|t t' ts ts' Ht Hts (H1 & H2 & H3 & H4 & H5 & H6)]; [by split_and!|]. cbn. rewrite H1, H2, H3, H4. split_and!.
  1-4: by destruct Ht as [->|[-> ->]].
  - intros [Hw Hws]%Forall_cons. constructor; [|by apply H5]. by destruct Ht as [->|[-> ->]].
  - intros r [Hr|Hr]%elem_of_cons; [|right; by apply H6]. destruct Ht as [->|[-> ->]]; [rewrite Hr; left|done].
Qed.
Lemma counted_woken s ts ts' : counted s ts -> Forall2 woken_from ts ts' -> counted s ts'.
Proof. intros [C1 C2 C3 C4 C5 C6] (H1 & H2 & H3 & _ & H5 & _)%woken_keeps. split; try congruence; auto. Qed.
Lemma counted_perm s ts ts' : counted s ts -> ts ≡ₚ ts' -> counted s ts'.
Proof. intros [C1 C2 C3 C4 C5 C6] Hp. split; rewrite <- ?Hp; done. Qed.
Lemma pending_perm s ts ts' : ts ≡ₚ ts' -> pending s ts = pending s ts'.
Proof. intros Hp. unfold pending. by rewrite Hp. Qed.

Lemma woken_insert ws i : ws !! i = Some Waiting -> Forall2 woken_from ws (<[i := Woken]> ws).
Proof.
  intros Hi. apply Forall2_same_length_lookup. split; [by rewrite length_insert|]. intros j x y Hx Hy. destruct (decide (j = i)) as [->|Hne].
  - rewrite list_lookup_insert_eq in Hy by (by apply lookup_lt_Some in Hi). right. split; congruence.
  - rewrite list_lookup_insert_ne in Hy by done. left. congruence.
Qed.
Lemma woken_refl ts : Forall2 woken_from ts ts.
Proof. apply Forall_Forall2_diag, Forall_true. by left. Qed.
Lemma woken_wake t : woken_from t (wake t).
Proof. destruct t; [by left|by right|by left..]. Qed.
Lemma woken_notified b ws ws' : notify_workers b ws ws' -> Forall2 woken_from ws ws'.
Proof.
  assert (Hw : Forall2 woken_from ws (wake <$> ws)) by (apply Forall2_fmap_r, Forall_Forall2_diag, Forall_true; apply woken_wake).
  destruct b as [|x [|y b]]; cbn; [intros ->; apply woken_refl| |by intros ->]. intros [i Hi|]; [by apply woken_insert|apply woken_refl].
Qed.

Definition threads c : list (thread T) := match the_master c with Joined t => t :: workers c | Adding _ => workers c end.
Definition to_add c : list T := match the_master c with Adding bs => concat bs | Joined _ => [] end.

Record inv (all : list T) c : Prop := {
  iv_counted : counted (shared c) (threads c);
  iv_workers : forall r, Returned r ∉ workers c;
  iv_small : nTodo (shared c) + Z.of_nat (length (to_add c)) < 2 ^ 32;
  iv_verdict : match the_master c with
    | Joined (Returned r) => r = forallb check all /\ control_asserts (shared c) /\ queue (shared c) = [] /\ tot held (threads c) = 0
    | _ => pending (shared c) (threads c) && forallb check (to_add c) = forallb check all
    end;
  iv_sleep : the_master c = Joined Waiting -> queue (shared c) = [] /\ nTodo (shared c) <> 0;
}.

Definition master_woken (m m' : master T) : Prop := match m, m' with Adding bs, Adding bs' => bs = bs' | Joined t, Joined t' => woken_from t t' | _, _ => False end.
(** waking threads keeps the invariant *)
Lemma inv_woken all s ws ws' m m' : inv all {| shared := s; workers := ws; the_master := m |} -> Forall2 woken_from ws ws' ->
  master_woken m m' ->
  inv all {| shared := s; workers := ws'; the_master := m' |}.
Proof.
  intros [I1 I2 I3 I4 I5] Hws Hm. destruct m as [bs|t], m' as [bs'|t']; try done; cbn [shared workers the_master threads to_add] in *.
  - cbn in Hm; subst bs'. destruct (woken_keeps ws ws' Hws) as (_ & _ & _ & H4 & _ & H6). split; cbn [shared workers the_master threads to_add]; [by eapply counted_woken| |done| |].
    + intros r Hr%H6. by apply (I2 r).
    + unfold pending in *. cbn. by rewrite H4.
    + done.
  - assert (Hts : Forall2 woken_from (t :: ws) (t' :: ws')) by by constructor. unfold threads in *. cbn in I1, I4.
    destruct (woken_keeps _ _ Hts) as (_ & _ & H3 & H4 & _ & _). destruct (woken_keeps ws ws' Hws) as (_ & _ & _ & _ & _ & H6).
    split; cbn [shared workers the_master]; [by eapply counted_woken| |done| |].
    + intros r Hr%H6. by apply (I2 r).
    + unfold threads. cbn [the_master workers]. unfold pending in *. rewrite H3, H4. by destruct Hm as [->|[-> ->]].
    + intros [= ->]. apply I5. by destruct Hm as [<-|[_ ?]].
Qed.

Lemma reorder {A} (l : list A) i x : l !! i = Some x -> exists r, l ≡ₚ x :: r /\ forall y, <[i := y]> l ≡ₚ y :: r.
Proof.
  intros Hi. exists (delete i l). split; [by apply delete_Permutation|]. intros y.
  assert (Hlt : (i < length l)%nat) by (by apply lookup_lt_Some in Hi).
  rewrite insert_take_drop, delete_take_drop by done. apply Permutation_sym, Permutation_middle.
Qed.

Lemma pick_todo fMaster s t s' : pick nBatchSize fMaster s = (t, s') -> nTodo s' = nTodo s /\ (t = Waiting -> queue s' = [] /\ (fMaster = true -> nTodo s <> 0)).
Proof.
  unfold pick. destruct (queue s) as [|x q]; [|by intros [= <- <-]]. destruct ((fMaster || fQuit s) && (nTodo s =? 0)) eqn:Hd; intros [= <- <-]; [done|].
  split; [done|]. intros _. split; [done|]. intros ->. cbn in Hd. by apply Z.eqb_neq in Hd.
Qed.
(** the last check of all notifies the master, and the master only waits for checks of others *)
Lemma Loop_todo fMaster t s t' s' n : Loop check nBatchSize fMaster t s = Some (t', s', n) ->
  (nTodo s' = 0 -> nTodo s = 0 \/ n = negb fMaster) /\ (t' = Waiting -> queue s' = [] /\ (fMaster = true -> nTodo s' <> 0)).
Proof.
  destruct t as [| | |[|c r] k fOk|r]; cbn [Loop]; try done.
  - cbn. destruct (pick nBatchSize fMaster _) as [t1 s1] eqn:Ep. intros [= <- <- <-]. apply pick_todo in Ep as [-> Hw]. cbn in *. split; [by left|done].
  - destruct (pick nBatchSize fMaster _) as [t1 s1] eqn:Ep. intros [= <- <- <-]. apply pick_todo in Ep as [-> Hw]. cbn in *. split; [by left|done].
  - unfold clean_up. destruct (negb (k =? 0)); destruct (pick nBatchSize fMaster _) as [t1 s1] eqn:Ep; intros [= <- <- <-]; apply pick_todo in Ep as [-> Hw];
      cbn in *; (split; [|done]); [|by left]. intros ->. by right.
  - intros [= <- <- <-]. split; [by left|done].
Qed.
(** [stepped] through a reordering of the threads *)
Lemma worker_stepped s s' ws i t t' n l : counted s (l ++ ws) -> ws !! i = Some t -> Loop check nBatchSize false t s = Some (t', s', n) ->
  counted s' (l ++ <[i := t']> ws) /\ pending s' (l ++ <[i := t']> ws) = pending s (l ++ ws) /\ (forall r, t' <> Returned r) /\
  Z.of_nat (length (queue s')) <= Z.of_nat (length (queue s)) /\ nTodo s' <= nTodo s.
Proof.
  intros Hc Hi Hl. destruct (reorder ws i t Hi) as (r & Hp & Hp').
  assert (P1 : l ++ ws ≡ₚ t :: l ++ r) by (by rewrite Hp, Permutation_middle). assert (P2 : l ++ <[i := t']> ws ≡ₚ t' :: l ++ r) by (by rewrite Hp', Permutation_middle).
  destruct (Loop_spec _ _ _ _ _ _ (l ++ r) (counted_perm _ _ _ Hc P1) Hl) as [S1 S2 S3 S4].
  rewrite (pending_perm _ _ _ P1), (pending_perm _ _ _ P2). split; [by eapply counted_perm|].
  assert (Hn : forall v, t' <> Returned v) by (intros v ->; by destruct S2). split; [|done]. destruct t'; try done. by destruct (Hn fRet).
Qed.

(** a pool without a batch in work or waiting passes the assertions *)
Lemma at_rest_asserts s ts : counted s ts -> queue s = [] -> nTodo s = 0 -> pending s ts = true -> control_asserts s /\ tot held ts = 0.
Proof.
  intros [C1 C2 C3 C4 C5 C6] Hq Ht Hp. rewrite Hq in C3. cbn in C3. assert (Hh : tot held ts = 0) by lia. destruct (none_held ts C5 Hh) as [Hl Hb].
  split; [|done]. unfold control_asserts. split_and!; [congruence|done|]. unfold pending in Hp. by destruct (fAllOk s).
Qed.

Lemma inv_add all s ws b bs : inv all {| shared := s; workers := ws; the_master := Adding (b :: bs) |} ->
  inv all {| shared := Add b s; workers := ws; the_master := Adding bs |}.
Proof.
  intros [I1 I2 I3 I4 I5]. unfold threads, to_add in *. cbn [shared workers the_master concat] in *. rewrite length_app in I3. destruct I1 as [C1 C2 C3 C4 C5 C6].
  pose proof (tot_nonneg held ws held_nonneg C5) as Hh.
  assert (Hu : u32 (nTodo s + Z.of_nat (length b)) = nTodo s + Z.of_nat (length b)) by (apply u32_small; lia).
  split; unfold threads, to_add; cbn [shared workers the_master]; [split; unfold Add; cbn; rewrite ?Hu, ?length_app; try lia; done|done|unfold Add; cbn; rewrite Hu; lia| |done].
  rewrite <- I4. unfold pending, Add. cbn. rewrite !forallb_app. by destruct (fAllOk s), (forallb check (queue s)), (forallb check b), (forallb batch_ok ws).
Qed.

Lemma inv_join all s ws : inv all {| shared := s; workers := ws; the_master := Adding [] |} ->
  inv all {| shared := s; workers := ws; the_master := Joined Start |}.
Proof. intros [[C1 C2 C3 C4 C5 C6] I2 I3 I4 I5]. split; [split; try done; by constructor|done|done|done|done]. Qed.

Lemma inv_master all s s' ws t t' n : inv all {| shared := s; workers := ws; the_master := Joined t |} -> Loop check nBatchSize true t s = Some (t', s', n) ->
  inv all {| shared := s'; workers := ws; the_master := Joined t' |}.
Proof.
  intros [I1 I2 I3 I4 I5] Hl. destruct (Loop_todo _ _ _ _ _ _ Hl) as [_ Hw]. destruct (Loop_spec _ _ _ _ _ _ _ I1 Hl) as [S1 S2 S3 S4]. cbn [shared workers the_master] in *.
  split; cbn [shared workers the_master]; [done|done|cbn in *; lia| |intros [= ->]; destruct (Hw eq_refl); auto].
  assert (Hv : pending s (t :: ws) = forallb check all) by (destruct t; [..|done]; by rewrite andb_true_r in I4).
  destruct t'; cbn [to_add the_master forallb]; rewrite ?andb_true_r; try (by rewrite <- Hv).
  destruct S2 as (_ & -> & Ha & Hq & Hh). split_and!; [done|done|done|by cbn].
Qed.

Lemma notified_woken n m : master_woken m (notify_master n m).
Proof. destruct n, m; cbn; [done|by apply woken_wake|done|by left]. Qed.

Lemma inv_worker all s s' ws m i t t' n : inv all {| shared := s; workers := ws; the_master := m |} -> ws !! i = Some t ->
  Loop check nBatchSize false t s = Some (t', s', n) -> inv all {| shared := s'; workers := <[i := t']> ws; the_master := notify_master n m |}.
Proof.
  intros [I1 I2 I3 I4 I5] Hi Hl. destruct (Loop_todo _ _ _ _ _ _ Hl) as [Ht _].
  set (ms := match m with Joined t => [t] | Adding _ => [] end). assert (Hts : forall ws, threads {| shared := s; workers := ws; the_master := m |} = ms ++ ws) by (by destruct m).
  rewrite Hts in I1, I4. destruct (worker_stepped _ _ _ _ _ _ _ _ I1 Hi Hl) as (S1 & S2 & S3 & S4 & S5).
  assert (Hr : forall r, Returned r ∉ <[i := t']> ws).
  { intros r Hr. apply list_elem_of_lookup in Hr as [j Hj]. destruct (decide (j = i)) as [->|Hne].
    - rewrite list_lookup_insert_eq in Hj by (by apply lookup_lt_Some in Hi). by destruct (S3 r); injection Hj.
    - rewrite list_lookup_insert_ne in Hj by done. apply list_elem_of_lookup_2 in Hj. by apply (I2 r). }
  cbn [shared workers the_master] in *. assert (Hm : m = Joined Waiting \/ m <> Joined Waiting) by (destruct m as [|[]]; first [by left|by right]). destruct Hm as [->|Hm].
  - destruct (I5 eq_refl) as [Hq H0]. assert (Hq' : queue s' = []) by (rewrite Hq in S4; destruct (queue s'); cbn in *; [done|lia]).
    assert (Hw : forall m', m' = Joined (if n then Woken else Waiting) -> inv all {| shared := s'; workers := <[i := t']> ws; the_master := m' |}).
    { intros m' ->. destruct n; (split; unfold threads; cbn [shared workers the_master]; [|done|cbn in *; lia| |]).
      - eapply counted_woken; [exact S1|]. constructor; [by right|apply woken_refl].
      - rewrite <- I4, <- S2. done.
      - done.
      - exact S1.
      - rewrite <- I4, <- S2. done.
      - intros _. split; [done|]. intros Hz. by destruct (Ht Hz). }
    apply Hw. by destruct n.
  - eapply inv_woken; [|apply woken_refl|apply notified_woken]. split; unfold threads; cbn [shared workers the_master]; [by destruct m|done|unfold to_add in *; cbn in *; lia| |done].
    destruct m as [bs|[| | |r k ok|r]]; cbn [to_add the_master] in *; try (by rewrite <- I4, <- S2).
    destruct I4 as (Hv & Ha & Hq & Hh). assert (Hq' : queue s' = []) by (rewrite Hq in S4; destruct (queue s'); cbn in *; [done|lia]).
    assert (Hz : nTodo s' = 0) by (pose proof (co_todo _ _ S1); pose proof (tot_nonneg _ _ held_nonneg (co_wf _ _ S1)); destruct Ha as (_ & Ha & _); lia).
    destruct (at_rest_asserts s' (ms ++ <[i := t']> ws) S1 Hq' Hz) as [H1 H2]; [|done]. rewrite S2. unfold pending. rewrite Hq.
    rewrite (proj2 (proj2 Ha)), (proj2 (none_held _ (co_wf _ _ I1) Hh)). done.
Qed.

Lemma inv_step all c c' : inv all c -> any_step check nBatchSize c c' -> inv all c'.
Proof.
  intros Hi [Hs|Hs].
  - destruct Hs as [s ws ws' b bs Hn|s ws|s s' ws t t' n Hl|s s' ws m i t t' n Ht Hl].
    + eapply inv_woken; [by apply inv_add|by eapply woken_notified|done].
    + by apply inv_join.
    + by eapply inv_master.
    + by eapply inv_worker.
  - destruct Hs as [s ws m i Ht|s ws]; (eapply inv_woken; [exact Hi|..]); [by apply woken_insert|by destruct m; [|left]|apply woken_refl|by right].
Qed.

(** the pool between two blocks: the workers run and have nothing *)
Definition at_rest s ws : Prop :=
  queue s = [] /\ control_asserts s /\ fQuit s = false /\ nTotal s = tot in_loop ws /\ nIdle s = tot idle ws /\
  Forall (fun t => t = Start \/ t = Waiting \/ t = Woken) ws.
Definition at_work s ws bs : config T := {| shared := s; workers := ws; the_master := Adding bs |}.

Lemma new_at_rest n : at_rest new_queue (replicate n Start).
Proof.
  assert (H : tot in_loop (replicate n Start) = 0 /\ tot idle (replicate n Start) = 0) by (induction n as [|n [H1 H2]]; [done|]; unfold tot in *; cbn; lia).
  destruct H as [H1 H2]. unfold at_rest. rewrite H1, H2. split_and!; try done. apply Forall_replicate. by left.
Qed.

Lemma at_rest_inv s ws bs : at_rest s ws -> Z.of_nat (length (concat bs)) < 2 ^ 32 -> inv (concat bs) (at_work s ws bs).
Proof.
  intros (Hq & (_ & Ht & Ha) & Hf & Hl & Hi & Hw) Hs.
  assert (Hh : tot held ws = 0 /\ forallb batch_ok ws = true /\ Forall thread_wf ws).
  { clear Hl Hi. induction Hw as [|t ws H Hw (I1 & I2 & I3)]; [done|]. unfold tot in *. cbn. rewrite I1, I2. split_and!; [|by destruct H as [->|[->| ->]]|constructor; [|done]];
      by destruct H as [->|[->| ->]]. }
  destruct Hh as (Hh & Hb & Hwf). split; unfold at_work, threads, to_add; cbn [shared workers the_master]; [split; rewrite ?Hq, ?Hh, ?Ht; done| |lia| |done].
  - intros r Hr. rewrite Forall_forall in Hw. by destruct (Hw _ Hr) as [?|[?|?]].
  - unfold pending. by rewrite Hq, Ha, Hb.
Qed.

Lemma inv_runs all c n k c' : inv all c -> runs check nBatchSize c n k c' -> inv all c'.
Proof. induction 2 as [|n k c1 c2 _ IH Hs|n k c1 c2 _ IH Hs]; [done| |]; (eapply inv_step; [exact IH|]); [by left|by right]. Qed.

Lemma inv_at_rest all s ws r : inv all {| shared := s; workers := ws; the_master := Joined (Returned r) |} -> at_rest s ws.
Proof.
  intros [[C1 C2 C3 C4 C5 C6] I2 I3 (_ & Ha & Hq & Hh) I5]. unfold threads in *. cbn [shared workers the_master tot foldr in_loop idle held] in *.
  split_and!; [done|done|done|exact C1|exact C2|]. apply Forall_cons in C5 as [_ C5]. fold (tot held ws) in Hh. clear - C5 Hh I2.
  induction C5 as [|t ws Ht Hws IH]; [done|]. pose proof (tot_nonneg held ws held_nonneg Hws) as Hn. unfold tot in *. cbn in Hh.
  constructor; [|apply IH; [intros r' Hr; by apply (I2 r'); right|]; destruct t; cbn in *; lia].
  destruct t; cbn in *; auto; [lia|]. destruct (I2 fRet). by left.
Qed.

(** ** The work that is left *)

Definition weight t : Z := match t with Start | Woken => 1 | Working r _ _ => 2 + Z.of_nat (length r) | _ => 0 end.
Definition work c : Z :=
  3 * Z.of_nat (length (queue (shared c))) + tot weight (workers c) +
  match the_master c with
  | Adding bs => 2 + foldr (fun b n => 3 * Z.of_nat (length b) + Z.of_nat (length (workers c)) + 1 + n) 0 bs
  | Joined t => weight t
  end.

Lemma weight_nonneg t : thread_wf t -> 0 <= weight t.
Proof. destruct t; cbn; lia. Qed.

Lemma pick_work fMaster s t s' : pick nBatchSize fMaster s = (t, s') ->
  weight t + 3 * Z.of_nat (length (queue s')) <= 3 * Z.of_nat (length (queue s)).
Proof.
  unfold pick. destruct (queue s) as [|x q] eqn:Hq; [destruct ((fMaster || fQuit s) && _); intros [= <- <-]; by cbn|].
  rewrite <- Hq. intros [= <- <-]. assert (Hk : 1 <= batch_size nBatchSize s) by (unfold batch_size; lia). cbn [weight queue].
  assert (Hl : (1 <= length (queue s))%nat) by (rewrite Hq; cbn; lia). rewrite !length_take, length_rev. lia.
Qed.

Lemma Loop_work fMaster t s t' s' n : Loop check nBatchSize fMaster t s = Some (t', s', n) ->
  weight t' + 3 * Z.of_nat (length (queue s')) + (if n then 1 else 0) < weight t + 3 * Z.of_nat (length (queue s)).
Proof.
  destruct t as [| | |[|c r] k fOk|r]; cbn [Loop]; try done.
  - cbn. destruct (pick nBatchSize fMaster _) as [t1 s1] eqn:Ep. intros [= <- <- <-]. apply pick_work in Ep. cbn in *. lia.
  - destruct (pick nBatchSize fMaster _) as [t1 s1] eqn:Ep. intros [= <- <- <-]. apply pick_work in Ep. cbn in *. lia.
  - unfold clean_up. destruct (negb (k =? 0)); destruct (pick nBatchSize fMaster _) as [t1 s1] eqn:Ep; intros [= <- <- <-]; apply pick_work in Ep; cbn in *; [|lia].
    destruct (_ && _); lia.
  - intros [= <- <- <-]. cbn. lia.
Qed.

Lemma woken_weight ts ts' : Forall2 woken_from ts ts' -> tot weight ts' <= tot weight ts + Z.of_nat (length ts).
Proof. unfold tot. induction 1 as [|t t' ts ts' Ht Hts IH]; [done|]. cbn. assert (weight t' <= weight t + 1) by (destruct Ht as [->|[-> ->]]; cbn; lia). lia. Qed.
Lemma woken_one ws i t t' : ws !! i = Some t -> tot weight (<[i := t']> ws) = tot weight ws - weight t + weight t'.
Proof. intros Hi. destruct (reorder ws i t Hi) as (r & Hp & Hp'). rewrite Hp', Hp. unfold tot. cbn. lia. Qed.

Lemma step_work c c' : step check nBatchSize c c' -> work c' < work c.
Proof.
  destruct 1 as [s ws ws' b bs Hn|s ws|s s' ws t t' n Hl|s s' ws m i t t' n Ht Hl]; unfold work; cbn [shared workers the_master foldr].
  - apply woken_notified in Hn. pose proof (woken_weight _ _ Hn) as Hw. rewrite (Forall2_length _ _ _ Hn) in Hw |- *. unfold Add. cbn [queue]. rewrite length_app. lia.
  - cbn. lia.
  - apply Loop_work in Hl. destruct n; lia.
  - apply Loop_work in Hl. rewrite (woken_one _ _ _ _ Ht), length_insert. assert (Hm : forall tm, weight (wake tm) <= weight tm + 1) by (intros []; cbn; lia).
    destruct m as [bs|tm]; destruct n; cbn [notify_master]; try lia. specialize (Hm tm). lia.
Qed.
Lemma spurious_work c c' : spurious c c' -> work c' = work c + 1.
Proof.
  destruct 1 as [s ws m i Ht|s ws]; unfold work; cbn [shared workers the_master]; [|cbn; lia]. rewrite (woken_one _ _ _ _ Ht), length_insert. cbn [weight]. lia.
Qed.
Lemma runs_work c n k c' : runs check nBatchSize c n k c' -> work c' + Z.of_nat n <= work c + Z.of_nat k.
Proof.
  induction 1 as [|n k c1 c2 _ IH Hs|n k c1 c2 _ IH Hs]; [lia| |]; [apply step_work in Hs|apply spurious_work in Hs]; lia.
Qed.
Lemma work_nonneg all c : inv all c -> 0 <= work c.
Proof.
  intros [[_ _ _ _ Hw _] _ _ _ _]. unfold work, threads in *. destruct (the_master c) as [bs|t].
  - pose proof (tot_nonneg weight _ weight_nonneg Hw). assert (Hb : 0 <= foldr (fun (b : list T) n => 3 * Z.of_nat (length b) + Z.of_nat (length (workers c)) + 1 + n) 0 bs)
      by (induction bs; cbn; lia). lia.
  - apply Forall_cons in Hw as [Ht Hw]. pose proof (tot_nonneg weight _ weight_nonneg Hw). pose proof (weight_nonneg t Ht). lia.
Qed.

(** ** Progress *)

Lemma notified_exists ws : exists ws', notified ws ws'.
Proof.
  induction ws as [|t ws [ws' H]]; [exists []; by apply notified_none|]. destruct t as [| | |r k ok|r] eqn:Et; [|by eexists; apply (notified_one (Waiting :: ws) 0)|..].
  all: destruct H as [ws i Hi|ws Hn]; [eexists; by apply (notified_one (_ :: ws) (S i))|eexists; apply notified_none; intros [|i]; cbn; [done|apply Hn]].
Qed.
Lemma notify_exists (b : list T) ws : exists ws', notify_workers b ws ws'.
Proof. destruct b as [|x [|y b]]; cbn; [by eexists|apply notified_exists|by eexists]. Qed.

Definition can_run t : Prop := match t with Waiting | Returned _ => False | _ => True end.
Lemma Loop_runs fMaster t s : can_run t -> is_Some (Loop check nBatchSize fMaster t s).
Proof.
  destruct t as [| | |[|c r] k fOk|r]; cbn [Loop can_run]; try done; intros _.
  - cbn. by destruct (pick nBatchSize fMaster _).
  - by destruct (pick nBatchSize fMaster _).
  - destruct (clean_up fMaster k fOk s) as [s1 n1]. by destruct (pick nBatchSize fMaster s1).
Qed.

(** the pool is stuck only when the master has its answer *)
Lemma inv_progress all c : inv all c -> (exists c', step check nBatchSize c c') \/ exists r, the_master c = Joined (Returned r).
Proof.
  intros [[C1 C2 C3 C4 C5 C6] I2 I3 I4 I5]. destruct c as [s ws [[|b bs]|t]]; unfold threads in *; cbn [shared workers the_master] in *.
  - left. eexists. apply step_join.
  - left. destruct (notify_exists b ws) as [ws' H]. eexists. by apply step_add.
  - destruct t as [| | |r k ok|r]; [|..|by right; eexists]; left.
    1,3,4: match goal with |- context [Joined ?t] => destruct (Loop_runs true t s ltac:(done)) as [[[t' s'] n] Hl] end; eexists; by eapply step_master.
    destruct (I5 eq_refl) as [Hq H0]. rewrite Hq in C3. cbn in C3. assert (Hw : Exists can_run ws \/ tot held ws = 0).
    { clear - I2. induction ws as [|t ws IH]; [by right|]. destruct IH as [IH|IH]; [intros r Hr; apply (I2 r); by right|by left; right|].
      destruct t as [| | |r k ok|r]; try (by left; left); [by right|]. destruct (I2 r). by left. }
    destruct Hw as [Hw|Hw]; [|unfold tot in *; cbn in C3; lia].
    apply Exists_exists in Hw as (t & Ht & Hr). apply list_elem_of_lookup in Ht as [i Hi]. destruct (Loop_runs false t s Hr) as [[[t' s'] n] Hl]. eexists. by eapply step_worker.
Qed.
End Invariant.

(** ** The verdict *)

(** C10: Whatever the interleaving of the master and the workers, the notifications and the spurious wake-ups, when [Wait] returns, its
    result is the conjunction of all the checks that were added, none is left or in work, and the pool again passes the
    assertions of the next [CCheckQueueControl]. *)
Theorem Wait_result {T} (check : T -> bool) (nBatchSize : Z) s ws bs n k s' ws' r :
  at_rest s ws -> Z.of_nat (length (concat bs)) < 2 ^ 32 ->
  runs check nBatchSize (at_work s ws bs) n k {| shared := s'; workers := ws'; the_master := Joined (Returned r) |} ->
  r = forallb check (concat bs) /\ at_rest s' ws'.
Proof.
  intros Hs Hl Hr. assert (Hi := inv_runs _ _ _ _ _ _ _ (at_rest_inv check s ws bs Hs Hl) Hr). split; [|by eapply inv_at_rest].
  by destruct Hi as [_ _ _ (-> & _) _].
Qed.

(** [Wait] returns: from a pool at rest, the threads take at most [work] steps plus one for each spurious wake-up, and in
    every state on the way some thread can take a step unless the master has its verdict; no notification is lost. *)
Theorem Wait_ends {T} (check : T -> bool) (nBatchSize : Z) s ws bs n k c :
  at_rest s ws -> Z.of_nat (length (concat bs)) < 2 ^ 32 -> runs check nBatchSize (at_work s ws bs) n k c ->
  Z.of_nat n <= work (at_work s ws bs) + Z.of_nat k /\
  ((exists c', step check nBatchSize c c') \/ exists r, the_master c = Joined (Returned r)).
Proof.
  intros Hs Hl Hr. assert (Hi := inv_runs _ _ _ _ _ _ _ (at_rest_inv check s ws bs Hs Hl) Hr). split; [|by eapply inv_progress].
  pose proof (runs_work _ _ _ _ _ _ Hr). pose proof (work_nonneg _ _ _ Hi). lia.
Qed.

(** the conjunction is what [control_Wait] computes one check after the other *)
Lemma control_Wait_forallb {K : Crypto} {E : CacheEnv} f ks cache : (forall k c, exists c', run_check k c = (Some (f k), c')) ->
  exists c', control_Wait ks cache = (Some (forallb f ks), c').
Proof.
  intros Hf. revert cache. induction ks as [|k ks IH]; intros cache; cbn [control_Wait forallb]; [by eexists|].
  destruct (Hf k cache) as [c1 ->]. destruct (f k); [apply IH|by eexists].
Qed.

(** ** An example: two checks, one worker, which takes a batch while the master waits *)

Definition demo_queue (q : list Z) (idle total todo : Z) (ok : bool) : CCheckQueue Z :=
  {| queue := q; nIdle := idle; nTotal := total; fAllOk := ok; nTodo := todo; fQuit := false |}.
Definition demo_config (s : CCheckQueue Z) (w : thread Z) (m : master Z) : config Z := {| shared := s; workers := [w]; the_master := m |}.

(** read from the end: the last step comes first *)
Lemma demo_runs : runs Z.even 128 (at_work new_queue [Start] [[2; 3]]) 10 1
  (demo_config (demo_queue [] 1 1 0 true) Waiting (Joined (Returned false))).
Proof.
  unfold demo_config. eapply runs_step; [|eapply (step_master _ _ (demo_queue [] 2 2 0 false) _ _ Woken); reflexivity].
  eapply runs_step; [|eapply (step_worker _ _ (demo_queue [] 1 2 1 true) _ [Working [] 1 false] (Joined Waiting) 0 _ _ true); reflexivity].
  eapply runs_step; [|eapply (step_worker _ _ (demo_queue [] 1 2 1 true) _ [Working [3] 1 true] (Joined Waiting) 0 _ _ false); reflexivity].
  eapply runs_step; [|eapply (step_master _ _ (demo_queue [] 0 2 2 true) _ _ (Working [] 1 true)); reflexivity].
  eapply runs_step; [|eapply (step_master _ _ (demo_queue [] 0 2 2 true) _ _ (Working [2] 1 true)); reflexivity].
  eapply runs_step; [|eapply (step_master _ _ (demo_queue [2] 0 1 2 true) _ _ Start); reflexivity].
  eapply runs_step; [|eapply (step_worker _ _ (demo_queue [2; 3] 1 1 2 true) _ [Woken] (Joined Start) 0 _ _ false); reflexivity].
  eapply runs_step; [|eapply step_join].
  eapply runs_step; [|eapply (step_add _ _ (demo_queue [] 1 1 0 true) [Woken]); reflexivity].
  eapply runs_spurious; [|eapply (spurious_worker _ [Waiting] _ 0); reflexivity].
  eapply runs_step; [apply runs_none|]. eapply (step_worker _ _ new_queue _ [Start] _ 0 _ _ false); reflexivity.
Qed.
Lemma demo_at_rest : at_rest (T := Z) new_queue [Start].
Proof. apply (new_at_rest 1). Qed.

Lemma Wait_result_witness : false = forallb Z.even [2; 3] /\ at_rest (demo_queue [] 1 1 0 true) [Waiting].
Proof. apply (Wait_result Z.even 128 new_queue [Start] [[2; 3]] 10 1); [exact demo_at_rest|reflexivity|exact demo_runs]. Defined.
Lemma Wait_ends_witness : Z.of_nat 10 <= work (at_work (T := Z) new_queue [Start] [[2; 3]]) + Z.of_nat 1 /\ work (at_work (T := Z) new_queue [Start] [[2; 3]]) = 11.
Proof. split; [|reflexivity]. eapply (Wait_ends Z.even 128 new_queue [Start] [[2; 3]] 10 1); [exact demo_at_rest|reflexivity|exact demo_runs]. Defined.
