(* ===== verification/Reads.v ===== *)
(** * Working on a cache only reads its base

    Until it is flushed, a cache changes its base by reading alone.  For any relation [R] that reading preserves, the
    bases before and after an operation of a transaction or a block are related by [R].  Used for the tip below the view
    of a reorganisation, and for the pool below the view of a transaction. *)

From stdpp Require Import gmap.
From S2P Require Import Prelude OpenSSL BigNum Target Serialize Crypto Script Transaction ScriptEval ScriptStd Coins View Merkle Block BlockFile Chain Supply Connect.
Local Open Scope Z_scope.

(** what reading a view preserves *)
Class ReadStable {V} {CV : CoinsView V} (R : relation V) := {
  rs_preorder :: PreOrder R;
  rs_GetCoins : forall b h, R b (view_GetCoins b h).2;
  rs_GetBestBlock : forall b, R b (view_GetBestBlock b).2;
}.

Section Reads.
Context {V : Type} {CV : CoinsView V} {B : OpenSSLBN} {K : Crypto} {CE : CacheEnv} (R : relation V) {RS : ReadStable R}.
Abbreviation view := (CCoinsViewCache V).

Definition reads (v w : view) : Prop := R (base v) (base w).
#[export] Instance reads_preorder : PreOrder reads.
Proof. unfold reads. split; [intros v; reflexivity|]. intros u v w H1 H2. by etrans. Qed.

Lemma SetCoins_reads v h c : reads v (SetCoins v h c).
Proof. change (R (base v) (base v)). reflexivity. Qed.
Lemma SetBestBlock_reads v t : reads v (SetBestBlock v t).
Proof. change (R (base v) (base v)). reflexivity. Qed.
#[local] Hint Resolve SetCoins_reads SetBestBlock_reads : core.

Lemma FetchCoins_reads v h : reads v (FetchCoins v h).2.
Proof.
  unfold FetchCoins. destruct (cacheCoins v !! h); [reflexivity|]. pose proof (rs_GetCoins (base v) h) as H.
  destruct (view_GetCoins (base v) h) as [[c|] b]; exact H.
Qed.
Lemma GetCoins_reads v h r w : GetCoins v h = (r, w) -> reads v w.
Proof. intros H. pose proof (FetchCoins_reads v h) as HF. unfold GetCoins in H. by rewrite H in HF. Qed.
Lemma GetCoinsRef_reads v h c w : GetCoinsRef v h = Some (c, w) -> reads v w.
Proof. unfold GetCoinsRef. pose proof (FetchCoins_reads v h) as H. destruct (FetchCoins v h) as [[x|] u]; [|done]. by intros [= <- <-]. Qed.
Lemma HaveCoins_reads v h b w : HaveCoins v h = (b, w) -> reads v w.
Proof. unfold HaveCoins. pose proof (FetchCoins_reads v h) as H. destruct (FetchCoins v h) as [r u]. by intros [= <- <-]. Qed.
Lemma GetBestBlock_reads v t w : GetBestBlock v = (t, w) -> reads v w.
Proof.
  unfold GetBestBlock. pose proof (rs_GetBestBlock (base v)) as H. destruct (pindexTip v); [by intros [= <- <-]|].
  destruct (view_GetBestBlock (base v)) as [t' b]. by intros [= <- <-].
Qed.

(** [reads_in] turns the equations of operations in the context into facts, [chain] links them *)
Ltac reads_with lem H := let T := type of (lem _ _ _ _ H) in lazymatch goal with _ : T |- _ => fail | _ => pose proof (lem _ _ _ _ H) end.
Ltac reads_in := repeat match goal with
  | H : FetchCoins ?v ?h = (_, ?w) |- _ => lazymatch goal with _ : reads v w |- _ => fail | _ =>
      let F := fresh in pose proof (FetchCoins_reads v h) as F; rewrite H in F; cbn [snd] in F end
  | H : GetCoins ?v _ = (_, ?w) |- _ => lazymatch goal with _ : reads v w |- _ => fail | _ => pose proof (GetCoins_reads _ _ _ _ H) end
  | H : GetCoinsRef ?v _ = Some (_, ?w) |- _ => lazymatch goal with _ : reads v w |- _ => fail | _ => pose proof (GetCoinsRef_reads _ _ _ _ H) end
  | H : HaveCoins ?v _ = (_, ?w) |- _ => lazymatch goal with _ : reads v w |- _ => fail | _ => pose proof (HaveCoins_reads _ _ _ _ H) end
  | H : GetBestBlock ?v = (_, ?w) |- _ => lazymatch goal with _ : reads v w |- _ => fail | _ => pose proof (GetBestBlock_reads _ _ _ H) end
  end.
Ltac chain := repeat first [reflexivity | eassumption | etrans; [eassumption|]].
Ltac cases H := repeat (case_match; simplify_eq; try done); simplify_eq; try done.

Lemma GetOutputFor_reads i v o w : GetOutputFor i v = Some (o, w) -> reads v w.
Proof. unfold GetOutputFor. intros H. cases H. reads_in. chain. Qed.

Lemma value_in_loop_reads ins n v m w : value_in_loop ins n v = Some (m, w) -> reads v w.
Proof.
  revert n v. induction ins as [|i ins IH]; intros n v H; cbn [value_in_loop] in H; cases H;
    (etrans; [by eapply GetOutputFor_reads|by eapply IH]).
Qed.
Lemma GetValueIn_reads tx v m w : GetValueIn tx v = Some (m, w) -> reads v w.
Proof. unfold GetValueIn. intros H. cases H; by eapply value_in_loop_reads. Qed.

Lemma p2sh_sigops_loop_reads ins n v m w : p2sh_sigops_loop ins n v = Some (m, w) -> reads v w.
Proof.
  revert n v. induction ins as [|i ins IH]; intros n v H; cbn [p2sh_sigops_loop] in H; cases H;
    (etrans; [by eapply GetOutputFor_reads|by eapply IH]).
Qed.
Lemma GetP2SHSigOpCount_reads tx v m w : GetP2SHSigOpCount tx v = Some (m, w) -> reads v w.
Proof. unfold GetP2SHSigOpCount. intros H. cases H; by eapply p2sh_sigops_loop_reads. Qed.

Lemma have_hashes_reads ins v b w : have_hashes ins v = (b, w) -> reads v w.
Proof.
  revert v. induction ins as [|i ins IH]; intros v H; cbn [have_hashes] in H; cases H; reads_in; try done;
    (etrans; [eassumption|by eapply IH]).
Qed.
Lemma have_outputs_reads ins v b w : have_outputs ins v = Some (b, w) -> reads v w.
Proof.
  revert v. induction ins as [|i ins IH]; intros v H; cbn [have_outputs] in H; cases H; reads_in; try done;
    (etrans; [eassumption|by eapply IH]).
Qed.
Lemma HaveInputs_reads tx v b w : HaveInputs tx v = Some (b, w) -> reads v w.
Proof.
  unfold HaveInputs. intros H. destruct (IsCoinBase tx); [by simplify_eq|]. destruct (have_hashes (vin tx) v) as [x u] eqn:Ez.
  apply have_hashes_reads in Ez. destruct x; [|by simplify_eq]. etrans; [exact Ez|by eapply have_outputs_reads].
Qed.

Lemma spend_inputs_reads ins us v us' w : spend_inputs ins us v = Some (us', w) -> reads v w.
Proof.
  revert us v. induction ins as [|i ins IH]; intros us v H; cbn [spend_inputs] in H; cases H; try done. reads_in.
  etrans; [eassumption|]. by apply IH in H.
Qed.
Lemma UpdateCoins_reads tx v hh h us w : UpdateCoins tx v hh h = Some (us, w) -> reads v w.
Proof.
  unfold UpdateCoins. destruct (IsCoinBase tx); [by intros [= <- <-]|]. destruct (spend_inputs _ _ _) as [[us' v']|] eqn:Ez; [|done].
  intros [= <- <-]. by apply spend_inputs_reads in Ez.
Qed.

Lemma tally_inputs_reads ins hh n v r w : tally_inputs ins hh n v = Some (r, w) -> reads v w.
Proof.
  revert n v. induction ins as [|i ins IH]; intros n v H; cbn [tally_inputs] in H; cases H; reads_in; try done;
    (etrans; [eassumption|by eapply IH]).
Qed.

Lemma check_scripts_reads th tx ins i fl ch v c r ch' w c' : check_scripts th tx ins i fl ch v c = Some (r, ch', w, c') -> reads v w.
Proof.
  revert i ch v c. induction ins as [|j ins IH]; intros i ch v c H; cbn [check_scripts] in H; cases H; reads_in; try done;
    (etrans; [eassumption|by eapply IH]).
Qed.
Lemma CheckInputs_reads f1 f2 th tx fl v c r ch w c' : CheckInputs f1 f2 th tx fl v c = Some (r, ch, w, c') -> reads v w.
Proof.
  unfold CheckInputs. intros H. destruct (IsCoinBase tx); [by simplify_eq|]. destruct (HaveInputs tx v) as [[b v1]|] eqn:E1; [|done].
  apply HaveInputs_reads in E1. destruct b; cbn [negb] in H; [|by simplify_eq]. destruct (GetBestBlock v1) as [t v2] eqn:E2.
  apply GetBestBlock_reads in E2. destruct t as [t|]; [|done]. destruct (tally_inputs _ _ _ v2) as [[x v3]|] eqn:E3; [|done].
  apply tally_inputs_reads in E3. assert (Hr : reads v v3) by chain. cases H; try (etrans; [exact Hr|by eapply check_scripts_reads]).
Qed.

(** what the loop of [ConnectBlock] ends with *)
Definition end_view (r : connecting + refused) : view := match r with inl s => n_view s | inr e => rf_view e end.

Lemma connect_tx_reads f1 f2 th strict fl hh tx h (s : connecting) r : connect_tx f1 f2 th strict fl hh tx h s = Some r ->
  reads (n_view s) (end_view r).
Proof.
  unfold connect_tx. intros H. case_if_in H; [by simplify_eq|]. destruct (IsCoinBase tx).
  { destruct (GetValueOut tx); [|done]. destruct (UpdateCoins tx _ _ _) as [[us w]|] eqn:Ez; [|done]. simplify_eq. by apply UpdateCoins_reads in Ez. }
  destruct (HaveInputs tx _) as [[b v1]|] eqn:E1; [|done]. apply HaveInputs_reads in E1. destruct b; cbn [negb] in H; [|by simplify_eq].
  assert (Hp : forall x v2, (if strict then GetP2SHSigOpCount tx v1 else Some (0, v1)) = Some (x, v2) -> reads (n_view s) v2).
  { intros x v2 Hx. destruct strict; [apply GetP2SHSigOpCount_reads in Hx; chain|by simplify_eq]. }
  destruct (if strict then _ else _) as [[x v2]|]; [|done]. specialize (Hp x v2 eq_refl). case_if_in H; [by simplify_eq|].
  destruct (GetValueIn tx v2) as [[n v3]|] eqn:E3; [|done]. apply GetValueIn_reads in E3. destruct (GetValueOut tx); [|done].
  destruct (CheckInputs _ _ _ _ _ _ _) as [[[[e ch] v4] c]|] eqn:E4; [|done]. apply CheckInputs_reads in E4.
  assert (Hr : reads (n_view s) v4) by chain. destruct e; [|by simplify_eq..].
  destruct (UpdateCoins tx v4 _ _) as [[us w]|] eqn:E5; [|done]. apply UpdateCoins_reads in E5. simplify_eq. cbn. by etrans.
Qed.
Lemma connect_txs_reads f1 f2 th strict fl hh l (s : connecting) r : connect_txs f1 f2 th strict fl hh l s = Some r -> reads (n_view s) (end_view r).
Proof.
  revert s. induction l as [|[tx h] l IH]; intros s H; cbn [connect_txs] in H; [by simplify_eq|].
  destruct (connect_tx _ _ _ _ _ _ tx h s) as [[s1|e]|] eqn:Ez; [| |done]; apply connect_tx_reads in Ez; [|by simplify_eq].
  etrans; [exact Ez|by apply IH].
Qed.
Lemma bip30_loop_reads l v b w : bip30_loop l v = Some (b, w) -> reads v w.
Proof.
  revert v. induction l as [|h l IH]; intros v H; cbn [bip30_loop] in H; [by simplify_eq|].
  destruct (HaveCoins v h) as [x v1] eqn:E1. apply HaveCoins_reads in E1. destruct x; [|etrans; [exact E1|by apply IH]].
  destruct (GetCoinsRef v1 h) as [[c v2]|] eqn:E2; [|done]. apply GetCoinsRef_reads in E2. case_if_in H; [simplify_eq; chain|].
  etrans; [exact E1|]. etrans; [exact E2|]. by apply IH.
Qed.

(** undoing *)
Lemma undo_input_reads o u v b w : undo_input o u v = (b, w) -> reads v w.
Proof. unfold undo_input. destruct (GetCoins v _) as [c v1] eqn:Ez. apply GetCoins_reads in Ez. destruct (undo_coins _ _ _). by intros [= <- <-]. Qed.
Lemma undo_inputs_reads l b v b' w : undo_inputs l b v = (b', w) -> reads v w.
Proof.
  revert b v. induction l as [|[i u] l IH]; intros b v H; cbn [undo_inputs] in H; [by simplify_eq|].
  destruct (undo_input _ u v) as [x v1] eqn:Ez. apply undo_input_reads in Ez. etrans; [exact Ez|by eapply IH].
Qed.
Lemma remove_outputs_reads tx h hh v b w : remove_outputs tx h hh v = Some (b, w) -> reads v w.
Proof.
  unfold remove_outputs. destruct (HaveCoins v h) as [x v1] eqn:E1. apply HaveCoins_reads in E1.
  destruct (GetCoinsRef _ h) as [[c v2]|] eqn:E2; [|done]. apply GetCoinsRef_reads in E2. intros [= <- <-]. etrans; [exact E1|]. destruct x; [exact E2|]. exact E2.
Qed.
Lemma disconnect_txs_reads hh l un b v b' w : disconnect_txs hh l un b v = Some (b', w) -> reads v w.
Proof.
  revert un b v. induction l as [|[tx h] l IH]; intros un b v H; cbn [disconnect_txs] in H; [by simplify_eq|].
  destruct (remove_outputs tx h hh v) as [[x v1]|] eqn:E1; [|done]. apply remove_outputs_reads in E1. destruct l as [|y l]; [by simplify_eq|].
  destruct un as [|t un]; [done|]. case_if_in H; [done|]. destruct (undo_inputs _ _ v1) as [z v2] eqn:E2. apply undo_inputs_reads in E2.
  etrans; [exact E1|]. etrans; [exact E2|]. by eapply IH.
Qed.
Lemma DisconnectBlock_reads r q l un v b w : DisconnectBlock r q l un v = Some (b, w) -> reads v w.
Proof.
  unfold DisconnectBlock. destruct (GetBestBlock v) as [t v1] eqn:E1. apply GetBestBlock_reads in E1. do 2 (case_if; [done|]).
  destruct (disconnect_txs _ _ _ _ _) as [[x v2]|] eqn:E2; [|done]. apply disconnect_txs_reads in E2. intros [= <- <-]. etrans; [exact E1|exact E2].
Qed.

End Reads.
