(* ===== verification/Progress.v ===== *)
(** * No assertion fails while a block is connected

    The operations of a transaction on a view reach a verdict: the references that the code takes for granted are
    there.  Used by the property that [ConnectBlock] always ends with a verdict. *)

From stdpp Require Import gmap.
From S2P Require Import Prelude OpenSSL BigNum Target Serialize Crypto Script Transaction ScriptEval ScriptStd Coins View Merkle Block BlockFile Chain Supply Connect.
Local Open Scope Z_scope.

Section Progress.
Context {V : Type} {CV : CoinsView V} {CS : CoinsViewSpec V} {B : OpenSSLBN} {K : Crypto} {E : CacheEnv}.
Abbreviation view := (CCoinsViewCache V).

(** the inputs are there, one after the other *)
Definition all_there (v : view) (ins : list CTxIn) : Prop := Forall (fun i => input_there v i = true) ins.

Lemma all_there_same v w ins : same_view v w -> all_there v ins -> all_there w ins.
Proof. intros Hs Hf. eapply Forall_impl; [exact Hf|]. intros i; cbn. by rewrite (input_there_same v w i Hs). Qed.

Lemma input_there_inv v i : input_there v i = true -> exists c w o, GetCoinsRef v (o_hash (prevout i)) = Some (c, w) /\ same_view v w /\
  Vm v (o_hash (prevout i)) = Some c /\ IsAvailable c (o_n (prevout i)) = true /\ txout_at c (o_n (prevout i)) = Some o /\ unspent o = true.
Proof.
  unfold input_there. destruct (Vm v _) as [c|] eqn:Ec; [|done]. intros Ha. destruct (GetCoinsRef_total v _ c Ec) as (w & Hg & Hs).
  unfold IsAvailable in Ha |- *. unfold txout_at. destruct (c_vout c !! _) as [o|] eqn:Eo; [|done]. exists c, w, o. rewrite Eo. by split_and!.
Qed.

Lemma value_in_loop_total ins n (v : view) : all_there v ins -> is_Some (value_in_loop ins n v).
Proof.
  revert n v. induction ins as [|i ins IH]; intros n v Hf; [by eexists|]. apply Forall_cons in Hf as [Hi Hf]. cbn [value_in_loop]. unfold GetOutputFor.
  destruct (input_there_inv v i Hi) as (c & w & o & -> & Hs & _ & -> & -> & _). apply IH. by apply (all_there_same v).
Qed.

Lemma p2sh_sigops_loop_total ins n (v : view) : all_there v ins -> is_Some (p2sh_sigops_loop ins n v).
Proof.
  revert n v. induction ins as [|i ins IH]; intros n v Hf; [by eexists|]. apply Forall_cons in Hf as [Hi Hf]. cbn [p2sh_sigops_loop]. unfold GetOutputFor.
  destruct (input_there_inv v i Hi) as (c & w & o & -> & Hs & _ & -> & -> & _). apply IH. by apply (all_there_same v).
Qed.

Lemma tally_inputs_total ins h n (v : view) : all_there v ins -> is_Some (tally_inputs ins h n v).
Proof.
  revert n v. induction ins as [|i ins IH]; intros n v Hf; [by eexists|]. apply Forall_cons in Hf as [Hi Hf]. cbn [tally_inputs].
  destruct (input_there_inv v i Hi) as (c & w & o & -> & Hs & _ & _ & -> & _). case_if; [by eexists|]. case_if; [by eexists|].
  apply IH. by apply (all_there_same v).
Qed.

Lemma run_check_total k c : exists b c', run_check k c = (Some b, c').
Proof.
  unfold run_check. match goal with |- context [VerifyScript ?a ?b ?d ?e ?f ?g ?h] => destruct (VerifyScript_total a b d e f g h) as [x Hx] end.
  destruct (VerifyScript _ _ _ _ _ _ _) as [o c']. cbn in Hx. subst o. by exists x, c'.
Qed.

Lemma check_scripts_total th tx ins i fl ch (v : view) c : all_there v ins -> is_Some (check_scripts th tx ins i fl ch v c).
Proof.
  revert i ch v c. induction ins as [|j ins IH]; intros i ch v c Hf; [by eexists|]. apply Forall_cons in Hf as [Hi Hf]. cbn [check_scripts].
  destruct (input_there_inv v j Hi) as (x & w & o & -> & Hs & _). assert (Hw : all_there w ins) by by apply (all_there_same v).
  destruct th; [by apply IH|]. destruct (run_check_total (script_check x tx i j fl) c) as (b & c1 & ->). destruct b; [by apply IH|].
  case_if; [|by eexists]. destruct (run_check_total (script_check x tx i j (Z.land fl (Z.lnot SCRIPT_VERIFY_STRICTENC))) c1) as (b & c2 & ->).
  destruct b; by eexists.
Qed.

Lemma GetValueOut_valid tx : CheckTransaction tx = Valid -> GetValueOut tx = Some (value_of (vout tx)).
Proof.
  intros Hv. apply CheckTransaction_rules in Hv as (_ & _ & _ & Ho & Hs & _). unfold GetValueOut.
  apply value_out_loop_iff; [unfold MAX_MONEY, COIN; lia|]. split_and!; [|lia|lia].
  eapply Forall_impl; [exact Ho|]. unfold MIN_TXOUT_AMOUNT, MIN_TX_FEE, CENT. intros x Hx; cbn in *. lia.
Qed.

Lemma CheckInputs_total f1 f2 th tx fl (v : view) c : is_Some (Vt v) -> CheckTransaction tx = Valid -> is_Some (CheckInputs f1 f2 th tx fl v c).
Proof.
  intros Ht Hv. unfold CheckInputs. destruct (IsCoinBase tx) eqn:Ecb; [by eexists|].
  destruct (HaveInputs_spec tx v) as (b & w1 & -> & H1 & Hb). destruct b; cbn [negb]; [|by eexists].
  destruct (proj1 Hb eq_refl) as [?|Hin]; [congruence|].
  pose proof (GetBestBlock_spec w1) as H2. destruct (GetBestBlock w1) as [t w2]. destruct H2 as [-> H2].
  assert (Ht1 : Vt w1 = Vt v) by apply H1. rewrite Ht1. destruct Ht as [t ->].
  assert (Hw2 : same_view v w2) by by rewrite H1. pose proof (all_there_same _ _ _ Hw2 Hin) as Hin2.
  pose proof (tally_inputs_keeps (vin tx) (b_height t + 1) 0 w2) as Hk.
  destruct (tally_inputs_total (vin tx) (b_height t + 1) 0 w2 Hin2) as [[r w3] Hta]. rewrite Hta in *. cbn in Hk. destruct r as [n|e]; [|by eexists].
  rewrite (GetValueOut_valid tx Hv). repeat (case_if; [by eexists|]). apply check_scripts_total. by apply (all_there_same w2).
Qed.

(** an input that is spent leaves the others *)
Lemma Spend_total c out : IsAvailable c (o_n out) = true -> 0 <= o_n out -> exists c' u, Spend c out = Some (c', u) /\
  forall m, 0 <= m -> m <> o_n out -> IsAvailable c m = true -> IsAvailable c' m = true.
Proof.
  intros Ha Hn. unfold IsAvailable in Ha. destruct (c_vout c !! _) as [o|] eqn:Eo; [|done].
  assert (Hs : exists c' u, Spend c out = Some (c', u)).
  { unfold Spend. rewrite Eo. unfold unspent in Ha. destruct (txout_IsNull o); [done|]. by eexists _, _. }
  destruct Hs as (c' & u & Hs). exists c', u. split; [done|]. intros m Hm Hne Hav.
  destruct (Spend_Some _ _ _ _ Hs) as (o' & _ & _ & -> & _). unfold IsAvailable in Hav |- *. cbn [set_vout c_vout].
  destruct (c_vout c !! Z.to_nat m) as [x|] eqn:Ex; [|done].
  assert (Hl : <[Z.to_nat (o_n out) := null_txout]> (c_vout c) !! Z.to_nat m = Some x) by (rewrite list_lookup_insert_ne by lia; done).
  apply (proj2 (cleanup_lookup _ _ _ Hav)) in Hl. by rewrite Hl.
Qed.

Lemma spend_inputs_total ins acc (v : view) : NoDup (map prevout ins) -> Forall (fun i => 0 <= o_n (prevout i)) ins -> all_there v ins ->
  is_Some (spend_inputs ins acc v).
Proof.
  revert acc v. induction ins as [|i ins IH]; intros acc v Hnd Hn Hf; [by eexists|]. cbn [map] in Hnd. apply NoDup_cons in Hnd as [Hni Hnd].
  apply Forall_cons in Hn as [Hni0 Hn], Hf as [Hi Hf]. cbn [spend_inputs].
  destruct (input_there_inv v i Hi) as (c & w & o & -> & Hs & Hc & Ha & _). destruct (Spend_total c (prevout i) Ha Hni0) as (c' & u & -> & Hback).
  apply IH; [done|done|]. unfold all_there in *. rewrite Forall_forall in Hf, Hn |- *. intros j Hj. specialize (Hf j Hj).
  unfold input_there in Hf |- *. rewrite SetCoins_spec. case_bool_decide as Eh; [|destruct Hs as [Hm _]; by rewrite Hm].
  rewrite Eh, Hc in Hf. apply Hback; [by apply Hn| |done]. intros En. apply Hni.
  assert (prevout j = prevout i) as <- by (destruct (prevout i), (prevout j); cbn in *; congruence).
  apply list_elem_of_In, in_map, list_elem_of_In, Hj.
Qed.

(** what the type of an output index gives *)
Definition indexes_ok (tx : CTransaction) : Prop := Forall (fun i => 0 <= o_n (prevout i)) (vin tx).

Lemma connect_tx_total f1 f2 th strict fl hh tx h (s : connecting (V := V)) : is_Some (Vt (n_view s)) -> CheckTransaction tx = Valid -> indexes_ok tx ->
  exists r, connect_tx f1 f2 th strict fl hh tx h s = Some r /\ match r with inl s' => Vt (n_view s') = Vt (n_view s) | inr e => rf_result e <> Accepted end.
Proof.
  intros Ht Hv Hn. unfold connect_tx, UpdateCoins. case_if; [by eexists|].
  rewrite (GetValueOut_valid tx Hv). destruct (IsCoinBase tx) eqn:Ecb; [by eexists|].
  destruct (HaveInputs_spec tx (n_view s)) as (b & w & -> & Hw & Hb). destruct b; cbn [negb]; [|by eexists].
  destruct (proj1 Hb eq_refl) as [?|Hin]; [congruence|]. pose proof (all_there_same _ _ _ Hw Hin) as Hin1.
  assert (Hp : exists p w1, (if strict then GetP2SHSigOpCount tx w else Some (0, w)) = Some (p, w1) /\ same_view w w1).
  { destruct strict; [|by eexists _, _]. pose proof (GetP2SHSigOpCount_keeps tx w) as Hk. unfold GetP2SHSigOpCount in *. rewrite Ecb in *.
    destruct (p2sh_sigops_loop_total (vin tx) 0 w Hin1) as [[p w1] Hp]. rewrite Hp in *. by exists p, w1. }
  destruct Hp as (p & w1 & -> & Hw1). case_if; [by eexists|]. pose proof (all_there_same _ _ _ Hw1 Hin1) as Hin2.
  pose proof (GetValueIn_keeps tx w1) as Hk. unfold GetValueIn in *. rewrite Ecb in *. destruct (value_in_loop_total (vin tx) 0 w1 Hin2) as [[n w2] Hvi].
  rewrite Hvi in *. cbn in Hk. assert (Hw2 : same_view (n_view s) w2) by by rewrite Hw, Hw1.
  destruct (CheckInputs_total f1 f2 th tx fl w2 (n_cache s)) as [[[[r ch] w3] c] Hci]; [by destruct Hw2 as [_ ->]|done|]. rewrite Hci.
  destruct r; [|by eexists|by eexists]. apply CheckInputs_keeps in Hci. assert (Hw3 : same_view (n_view s) w3) by by rewrite Hw2.
  pose proof Hv as Hnd. apply CheckTransaction_rules in Hnd as (_ & _ & _ & _ & _ & Hnd & _).
  destruct (spend_inputs_total (vin tx) [] w3 Hnd Hn (all_there_same _ _ _ Hw3 Hin)) as [[us v2] Hsp]. rewrite Hsp.
  eexists. split; [done|]. cbn. change (Vt (SetCoins v2 h (coins_of tx hh))) with (Vt v2).
  assert (Hv2 : forall ins acc (v : view) us v2, spend_inputs ins acc v = Some (us, v2) -> Vt v2 = Vt v).
  { clear. induction ins as [|i ins IH]; intros acc v us v2 H; cbn [spend_inputs] in H; [by simplify_eq|].
    destruct (GetCoinsRef v _) as [[c w]|] eqn:Eg; [|done]. apply GetCoinsRef_Some in Eg as [_ [_ Ht]].
    destruct (Spend c _) as [[c' u]|]; [|done]. apply IH in H. rewrite H. exact Ht. }
  rewrite (Hv2 _ _ _ _ _ Hsp). apply Hw3.
Qed.

Lemma connect_txs_total f1 f2 th strict fl hh l (s : connecting (V := V)) : is_Some (Vt (n_view s)) ->
  Forall (fun x => CheckTransaction x.1 = Valid /\ indexes_ok x.1) l ->
  exists r, connect_txs f1 f2 th strict fl hh l s = Some r /\ match r with inl s' => Vt (n_view s') = Vt (n_view s) | inr e => rf_result e <> Accepted end.
Proof.
  revert s. induction l as [|[tx h] l IH]; intros s Ht Hf; cbn [connect_txs]; [by eexists|]. apply Forall_cons in Hf as [[Hv Hn] Hf]. cbn in Hv, Hn.
  destruct (connect_tx_total f1 f2 th strict fl hh tx h s Ht Hv Hn) as (r & -> & Hr). destruct r as [s1|e]; [|by eexists].
  destruct (IH s1) as (r & -> & Hr'); [by rewrite Hr|done|]. exists r. split; [done|]. destruct r; [by rewrite Hr'|done].
Qed.
End Progress.

(** ** Verdicts *)

Section Verdicts.
Context {V : Type} {CV : CoinsView V} {CS : CoinsViewSpec V} {B : OpenSSLBN} {L : OpenSSLBNLaws B} {K : Crypto} {KL : CryptoLaws K} {E : CacheEnv}.
Context (p : params).
Abbreviation view := (CCoinsViewCache V).

Lemma control_Wait_total ks c : exists b c', control_Wait ks c = (Some b, c').
Proof.
  revert c. induction ks as [|k ks IH]; intros c; cbn [control_Wait]; [by eexists _, _|].
  destruct (run_check_total k c) as (b & c1 & ->). destruct b; [apply IH|by eexists _, _].
Qed.

Lemma coinbase_limit_total cb nBits F : nbits_ok nBits -> 0 < nTargetMinLength (p_target p) -> is_Some (coinbase_limit p cb nBits F).
Proof.
  intros Hb Hm. unfold coinbase_limit, GetBlockValue. destruct (decide (nTargetMinLength (p_target p) <= TargetGetLength nBits)) as [Hl|Hl].
  - rewrite TargetGetMint_eq by (done || lia). by eexists.
  - unfold TargetGetMint. rewrite (proj2 (Z.ltb_lt _ _)) by lia. by eexists.
Qed.

(** what a step that only writes may end with *)
Definition wrote (st : CValidationState) (r : option (outcome * CValidationState * node * view)) : Prop :=
  exists o st' n' v', r = Some (o, st', n', v') /\
    match o with Ret true => st' = st | Ret false => state_IsError st' = true | Throw => state_IsInvalid st' = state_IsInvalid st end.

Lemma abort_wrote st st0 n (v : view) : wrote st0 (abort st n v).
Proof. unfold abort, wrote. by eexists (Ret false), _, n, v. Qed.

Lemma throw_wrote st n (v : view) : wrote st (Some (Throw, st, n, v)).
Proof. by exists Throw, st, n, v. Qed.

Lemma finish_connect_wrote vPos h pi st n (v : view) : wrote st (finish_connect p vPos h pi st n v).
Proof.
  unfold finish_connect. destruct (if p_fTxIndex p then _ else _) as [[] n1]; cbn [negb]; [|apply throw_wrote]. by eexists (Ret true), _, _, _.
Qed.

Lemma store_undo_state u nf hp st s : let '(r, st', _) := store_undo (p_pchMessageStart p) u nf hp st s in
  r <> IoError -> st' = st.
Proof.
  unfold store_undo. destruct (FindUndoPos _ _ _ _) as [[[ok pos] st1] s1] eqn:Ef. destruct ok; [|done].
  assert (Hs : st1 = st).
  { unfold FindUndoPos, state_Error in Ef. repeat (case_match; simplify_eq; try done). }
  subst st1. by destruct (undo_WriteToDisk _ _ _ _ _).
Qed.

Lemma write_connected_wrote u vPos h pi st n (v : view) : is_Some (pprev pi) -> wrote st (write_connected p u vPos h pi st n v).
Proof.
  intros [q Hq]. unfold write_connected. case_if; [|apply finish_connect_wrote]. unfold write_undo. rewrite Hq. case_if.
  - pose proof (store_undo_state u (nFile pi) q st (disk n)) as Hs. destruct (store_undo _ _ _ _ _ _) as [[r st1] s].
    destruct r; [|apply abort_wrote|].
    + rewrite Hs by done. destruct (WriteBlockIndex _ _) as [[] n2]; cbn [negb]; [apply finish_connect_wrote|apply throw_wrote].
    + rewrite Hs by done. by eexists Throw, _, _, _.
  - destruct (WriteBlockIndex _ _) as [[] n2]; cbn [negb]; [apply finish_connect_wrote|apply throw_wrote].
Qed.

Lemma state_DoS_invalid level c st : state_IsValid st = true -> exists st', state_DoS level false c st = (false, st') /\ state_IsInvalid st' = true.
Proof. unfold state_IsValid, state_DoS. destruct (mode st); [by eexists|done|done]. Qed.

Lemma DoS_refuses level c st (n : node) (v : view) st' n' v' :
  (let '(r, state) := state_DoS level false c st in Some (Ret r, state, n, v)) <> Some (Ret true, st', n', v').
Proof. unfold state_DoS. by destruct (mode st). Qed.

(** no disk makes a refusal that marks the block an acceptance *)
Lemma refused_anyway b h pi fj st n (v : view) r st' n' v' d st2 n2 v2 : is_Some (pprev pi) -> state_IsInvalid st = false ->
  ConnectBlock p b (Some h) pi fj st n v = Some (r, st', n', v') -> state_IsInvalid st' = true ->
  ConnectBlock p b (Some h) pi fj st (set_disk d n) v = Some (Ret true, st2, n2, v2) -> False.
Proof.
  intros Hp Hno H1 Hinv H2. unfold ConnectBlock in H1, H2. destruct (CheckBlock _ _ _ _ _) as [ok st1] eqn:Eck. destruct ok; cbn [negb] in H1, H2; [|done].
  destruct (CheckBlock_rules _ _ _ _ _ _ Eck) as [-> _]. destruct (GetBestBlock v) as [t v0].
  destruct (bool_decide _); cbn [negb] in H1, H2; [|done]. destruct (block_GetHash b =? _); [by simplify_eq; congruence|].
  destruct (if fEnforceBIP30 _ _ then _ else _) as [[fresh v1]|]; [|done]. destruct fresh; cbn [negb] in H1, H2; [|by apply DoS_refuses in H2].
  change (start_connecting (set_disk d n) v1) with (start_connecting n v1) in H2.
  destruct (connect_txs _ _ _ _ _ _ _ _) as [[s|e]|] eqn:Ec; [| |done].
  2:{ apply connect_txs_inr in Ec. unfold verdict_state, state_Invalid in H2. destruct (rf_result e); [done| |]; by apply DoS_refuses in H2. }
  destruct (if fj then _ else WriteBlockIndex _ _) as [ok1 m1] eqn:E1 in H1. destruct (if fj then _ else WriteBlockIndex _ _) as [ok2 m2] eqn:E2 in H2.
  destruct ok1; cbn [negb] in H1; [|by simplify_eq; congruence]. destruct ok2; cbn [negb] in H2; [|done].
  assert (C1 : signatureCache m1 = n_cache s).
  { destruct fj; [by simplify_eq|]. match type of E1 with WriteBlockIndex ?x ?m = _ => pose proof (WriteBlockIndex_cache x m) as Hx end. by rewrite E1 in Hx. }
  assert (C2 : signatureCache m2 = n_cache s).
  { destruct fj; [by simplify_eq|]. match type of E2 with WriteBlockIndex ?x ?m = _ => pose proof (WriteBlockIndex_cache x m) as Hx end. by rewrite E2 in Hx. }
  destruct (vtx b !! 0%nat) as [cb|]; [|done]. destruct (GetValueOut cb) as [vo|]; [|done].
  replace (i_nBits (if fj then pi else _)) with (i_nBits pi) in H1, H2 by by destruct fj.
  destruct (coinbase_limit p cb _ _) as [limit|]; [|done]. destruct (limit <? vo); [by apply DoS_refuses in H2|]. rewrite C1 in H1. rewrite C2 in H2.
  destruct (control_Wait _ _) as [[ok|] cache]; [|done]. destruct ok; cbn [negb] in H1, H2; [|by apply DoS_refuses in H2].
  destruct fj; [by simplify_eq; congruence|]. match type of H1 with write_connected _ ?u ?vp ?h ?q ?s ?n ?w = _ => destruct (write_connected_wrote u vp h q s n w) as (o & s' & a & c & Hwr & Ho) end; [done|].
  rewrite H1 in Hwr. simplify_eq. destruct o as [[]|].
  - simplify_eq. congruence.
  - unfold state_IsError, state_IsInvalid in *. by destruct (mode s').
  - congruence.
Qed.

(** C5: [ConnectBlock] always ends with a verdict and no assertion fails, when the view is at the block's predecessor:
    it accepts, leaving the validation state alone, or it refuses with the state marked invalid or in error, but for
    the lock limit of 2013, or the exception of a failed write leaves the state without a mark.  And trouble with the
    disk is never blamed on the block: when the state is marked invalid the block would not be accepted with any
    other disk. *)
Theorem ConnectBlock_decides b h pi fJustCheck st n (v : view) (Hprev : b_hash <$> Vt v = pprev pi) (Hp : is_Some (pprev pi))
    (Hi : Forall indexes_ok (vtx b)) (Hbits : nbits_ok (i_nBits pi)) (Hlen : 0 < nTargetMinLength (p_target p))
    (Hst : state_IsValid st = true) :
  exists r st' n' v', ConnectBlock p b (Some h) pi fJustCheck st n v = Some (r, st', n', v') /\
    match r with
    | Ret true => st' = st
    | Ret false => maxlocks_violated b = true \/ state_IsInvalid st' = true \/ state_IsError st' = true
    | Throw => state_IsInvalid st' = false
    end /\
    (state_IsInvalid st' = true -> forall d st2 n2 v2, ConnectBlock p b (Some h) pi fJustCheck st (set_disk d n) v <> Some (Ret true, st2, n2, v2)).
Proof.
  assert (Hnoinv : state_IsInvalid st = false) by (unfold state_IsValid, state_IsInvalid in *; by destruct (mode st)).
  enough (Hd : exists r st' n' v', ConnectBlock p b (Some h) pi fJustCheck st n v = Some (r, st', n', v') /\
    match r with
    | Ret true => st' = st
    | Ret false => maxlocks_violated b = true \/ state_IsInvalid st' = true \/ state_IsError st' = true
    | Throw => state_IsInvalid st' = false
    end).
  { destruct Hd as (r & st' & n' & v' & Hd & Hr). exists r, st', n', v'. split_and!; [done|done|]. intros Hi' d st2 n2 v2 H2. eapply (refused_anyway b h pi fJustCheck st n v r st' n' v' d); [exact Hp|exact Hnoinv|exact Hd|exact Hi'|exact H2]. }
  unfold ConnectBlock. destruct (CheckBlock _ _ _ _ _) as [ok st1] eqn:Eck. destruct ok; cbn [negb].
  2:{ exists (Ret false), st1, n, v. split; [done|]. apply CheckBlock_refuses in Eck as [Hl|Hl]; [by left|right].
      unfold state_IsValid, state_IsInvalid, state_IsError in *. destruct (mode st1); [done|by left|by right]. }
  destruct (CheckBlock_rules _ _ _ _ _ _ Eck) as [-> Hrules].
  pose proof (GetBestBlock_spec v) as Hg. destruct (GetBestBlock v) as [t v0]. destruct Hg as [-> Hs0].
  rewrite (bool_decide_eq_true_2 _ Hprev). cbn [negb]. destruct (block_GetHash b =? _); [by eexists (Ret true), st, _, _|].
  assert (Hinv : forall l c (n' : node) (w : view), exists r st' n2 v', (let '(r, state) := state_DoS l false c st in Some (Ret r, state, n', w)) = Some (r, st', n2, v') /\
    match r with
    | Ret true => st' = st
    | Ret false => maxlocks_violated b = true \/ state_IsInvalid st' = true \/ state_IsError st' = true
    | Throw => state_IsInvalid st' = false
    end).
  { intros l c n' w. destruct (state_DoS_invalid l c st Hst) as (s' & -> & ?). eexists (Ret false), _, _, _. split; [done|]. by right; left. }
  assert (Hbip : exists fresh v1, (if fEnforceBIP30 (Some h) (nHeight pi) then bip30_loop (txids b) v0 else Some (true, v0)) = Some (fresh, v1) /\ same_view v v1).
  { destruct (fEnforceBIP30 _ _); [|by exists true, v0]. destruct (bip30_loop_spec (txids b) v0) as (f & w & -> & Hw & _). exists f, w. by rewrite Hs0. }
  destruct Hbip as (fresh & v1 & -> & Hs1). destruct fresh; cbn [negb]; [|apply Hinv].
  match goal with |- context [connect_txs ?f1 ?f2 ?th ?st ?fl ?hh ?l ?s] => destruct (connect_txs_total f1 f2 th st fl hh l s) as (r & Hr & He) end.
  { cbn. destruct Hs1 as [_ ->]. destruct Hp as [q Hq]. rewrite Hq in Hprev. by destruct (Vt v). }
  { pose proof (br_txs _ _ _ Hrules) as Htx. clear -Htx Hi. unfold txids. induction (vtx b) as [|y l IH]; [constructor|].
    apply Forall_cons in Htx as [H1 H2], Hi as [H3 H4]. constructor; [done|by apply IH]. }
  rewrite Hr. destruct r as [s|e]; [|unfold verdict_state, state_Invalid; destruct (rf_result e); [done|apply Hinv..]].
  destruct (if fJustCheck then _ else WriteBlockIndex _ _) as [[] n1]; cbn [negb].
  2:{ eexists Throw, _, _, _. by split. }
  destruct (br_coinbase _ _ _ Hrules) as (cb & rest & Hv & _). pose proof (br_txs _ _ _ Hrules) as Htx. rewrite Hv in Htx |- *.
  apply Forall_cons in Htx as [Hcb _]. cbn [lookup list_lookup]. rewrite (GetValueOut_valid cb Hcb).
  replace (i_nBits (if fJustCheck then pi else _)) with (i_nBits pi) by by destruct fJustCheck.
  destruct (coinbase_limit_total cb (i_nBits pi) (n_nFees s) Hbits Hlen) as [limit ->]. case_if; [apply Hinv|].
  destruct (control_Wait_total (n_checks s) (signatureCache n1)) as (ok & c & ->). destruct ok; cbn [negb]; [|apply Hinv].
  destruct fJustCheck; [by eexists (Ret true), st, _, _|].
  match goal with |- context [write_connected _ ?u ?vp ?h ?q ?s ?n ?w] => destruct (write_connected_wrote u vp h q s n w) as (o & s' & a & c' & Hwr & Ho) end; [done|].
  exists o, s', a, c'. split; [done|]. destruct o as [[]|]; [done|by right; right|congruence].
Qed.
End Verdicts.

(** ** Witness *)

Lemma ConnectBlock_decides_witness : exists r st n v,
  ConnectBlock (B := ZBN) (K := ToyCrypto) sample_params connect_block (Some 2) connect_index false new_state sample_node sample_view = Some (r, st, n, v).
Proof.
  destruct (ConnectBlock_decides (V := memory_view) (B := ZBN) (K := ToyCrypto) sample_params connect_block 2 connect_index false new_state sample_node sample_view)
    as (r & st & n & v & H & _).
  - reflexivity.
  - by exists 1.
  - repeat constructor; cbn; unfold uint_max; lia.
  - unfold nbits_ok. cbn. lia.
  - cbn. lia.
  - reflexivity.
  - exists r, st, n, v. exact H.
Defined.
