(* ===== verification/Mempool.v ===== *)
(** * The memory pool (main.h, main.cpp)

    [CTxMemPool]: the transactions waiting for a block and the index of the outputs they spend, adding and removing,
    the acceptance of a transaction ([accept]) and the view of the coins through the pool ([CCoinsViewMemPool]).  A
    pointer to a transaction of the pool is its hash.  What the rate limiter of free transactions answers is an
    argument: the fee check before it never lets it decide (lemma [rate_limiter_idle]). *)

From stdpp Require Import gmap sorting.
From S2P Require Import Prelude OpenSSL BigNum Target Serialize Crypto Script Transaction ScriptEval ScriptStd Coins View Merkle Block Supply Reads Progress.
Local Open Scope Z_scope.

#[export] Instance COutPoint_countable : Countable COutPoint.
Proof. refine (inj_countable' (fun o => (o_hash o, o_n o)) (fun p => {| o_hash := p.1; o_n := p.2 |}) _). by intros []. Defined.

Definition MEMPOOL_HEIGHT : Z := 0x7FFFFFFF.

(** ** State *)

Record CInPoint := { ptx : Z; in_n : Z }.
#[export] Instance CInPoint_eq_dec : EqDecision CInPoint.
Proof. solve_decision. Defined.

(** with the counter of changes, which is global in the source *)
Record CTxMemPool := { mapTx : gmap Z CTransaction; mapNextTx : gmap COutPoint CInPoint; nTransactionsUpdated : Z }.
Definition empty_pool : CTxMemPool := {| mapTx := ∅; mapNextTx := ∅; nTransactionsUpdated := 0 |}.
Definition pool_size (pool : CTxMemPool) : Z := Z.of_nat (size (mapTx pool)).
Definition exists_tx (pool : CTxMemPool) (hash : Z) : bool := bool_decide (is_Some (mapTx pool !! hash)).

Section Pool.
Context {K : Crypto}.

Definition addUnchecked (hash : Z) (tx : CTransaction) (pool : CTxMemPool) : CTxMemPool :=
  {| mapTx := <[hash := tx]> (mapTx pool);
     mapNextTx := foldl (fun m x => <[prevout x.2 := {| ptx := hash; in_n := Z.of_nat x.1 |}]> m) (mapNextTx pool) (imap pair (vin tx));
     nTransactionsUpdated := u32 (nTransactionsUpdated pool + 1) |}.

(** the transaction itself *)
Definition erase_tx (tx : CTransaction) (pool : CTxMemPool) : CTxMemPool :=
  let hash := GetHash tx in
  if exists_tx pool hash then
    {| mapTx := delete hash (mapTx pool); mapNextTx := foldl (fun m i => delete (prevout i) m) (mapNextTx pool) (vin tx);
       nTransactionsUpdated := u32 (nTransactionsUpdated pool + 1) |}
  else pool.

(** the loop over the outputs, given how the transaction that spends one is removed *)
Fixpoint remove_spenders (remove : CTransaction -> CTxMemPool -> option CTxMemPool) (hash : Z) (outs : list nat) (pool : CTxMemPool)
    : option CTxMemPool :=
  match outs with
  | [] => Some pool
  | i :: r =>
    match mapNextTx pool !! {| o_hash := hash; o_n := Z.of_nat i |} with
    | None => remove_spenders remove hash r pool
    | Some it =>
      let? child := mapTx pool !! ptx it in
      let? pool := remove child pool in
      remove_spenders remove hash r pool
    end
  end.
(** [None]: the fuel ran out, or a pointer to a transaction that is not in the pool is followed *)
Fixpoint remove (fuel : nat) (fRecursive : bool) (tx : CTransaction) (pool : CTxMemPool) : option CTxMemPool :=
  match fuel with
  | O => None
  | S f =>
    let? pool := if fRecursive then remove_spenders (remove f true) (GetHash tx) (seq 0 (length (vout tx))) pool else Some pool in
    Some (erase_tx tx pool)
  end.

Fixpoint conflicts_loop (fuel : nat) (tx : CTransaction) (vin : list CTxIn) (pool : CTxMemPool) : option CTxMemPool :=
  match vin with
  | [] => Some pool
  | txin :: r =>
    match mapNextTx pool !! prevout txin with
    | None => conflicts_loop fuel tx r pool
    | Some it =>
      let? txConflict := mapTx pool !! ptx it in
      let? pool := if negb (bool_decide (txConflict = tx)) then remove fuel true txConflict pool else Some pool in
      conflicts_loop fuel tx r pool
    end
  end.
Definition removeConflicts (fuel : nat) (tx : CTransaction) (pool : CTxMemPool) : option CTxMemPool := conflicts_loop fuel tx (vin tx) pool.

Definition pool_clear (pool : CTxMemPool) : CTxMemPool :=
  {| mapTx := ∅; mapNextTx := ∅; nTransactionsUpdated := u32 (nTransactionsUpdated pool + 1) |}.
Definition queryHashes (pool : CTxMemPool) : list Z := merge_sort Z.le (map fst (map_to_list (mapTx pool))).

(** the outputs of a transaction that the pool spends *)
Definition spent_outputs (hashTx : Z) (pool : CTxMemPool) : list Z :=
  merge_sort Z.le (map (fun x => o_n x.1) (map_to_list (filter (fun x => o_hash x.1 = hashTx) (mapNextTx pool)))).
Definition pruneSpent (hashTx : Z) (coins : CCoins) (pool : CTxMemPool) : CCoins :=
  foldl (fun c n => default c (Spend_pos c (s32 n))) coins (spent_outputs hashTx pool).
End Pool.

(** ** The coins through the pool *)

Record CCoinsViewMemPool (V : Type) := { mp_base : V; mempool : CTxMemPool }.
Arguments mp_base {V}.
Arguments mempool {V}.
(** the outputs of a transaction of the pool *)
Definition pool_coins (pool : CTxMemPool) (txid : Z) : option CCoins := (fun tx => coins_of tx MEMPOOL_HEIGHT) <$> mapTx pool !! txid.

Section PoolView.
Context {V : Type} {CV : CoinsView V}.
Definition mempool_GetCoins (v : CCoinsViewMemPool V) (txid : Z) : option CCoins * CCoinsViewMemPool V :=
  let '(r, b) := view_GetCoins (mp_base v) txid in
  let v := {| mp_base := b; mempool := mempool v |} in
  match r with Some c => (Some c, v) | None => (pool_coins (mempool v) txid, v) end.
#[export] Instance CCoinsViewMemPool_view : CoinsView (CCoinsViewMemPool V) :=
  {| view_GetCoins := mempool_GetCoins;
     view_GetBestBlock v := let '(t, b) := view_GetBestBlock (mp_base v) in (t, {| mp_base := b; mempool := mempool v |});
     view_BatchWrite v m t := let '(ok, b) := view_BatchWrite (mp_base v) m t in (ok, {| mp_base := b; mempool := mempool v |}) |}.
#[export] Instance CCoinsViewMemPool_spec {CS : CoinsViewSpec V} : CoinsViewSpec (CCoinsViewMemPool V).
Proof.
  refine {| cmap v h := match cmap (mp_base v) h with Some c => Some c | None => pool_coins (mempool v) h end; ctip v := ctip (mp_base v) |}.
  - intros v h. cbn. unfold mempool_GetCoins. pose proof (view_GetCoins_spec (mp_base v) h) as H.
    destruct (view_GetCoins (mp_base v) h) as [r b]. destruct H as (-> & Hm & Ht). destruct (cmap (mp_base v) h) eqn:E; cbn;
      (split_and!; [done|intros k; by rewrite Hm|done]).
  - intros v. cbn. pose proof (view_GetBestBlock_spec (mp_base v)) as H. destruct (view_GetBestBlock (mp_base v)) as [t b].
    destruct H as (-> & Hm & Ht). cbn. split_and!; [done|intros k; by rewrite Hm|done].
Defined.
End PoolView.

(** the base class itself: a view with nothing in it *)
#[export] Instance dummy_view : CoinsView unit :=
  {| view_GetCoins _ _ := (None, tt); view_GetBestBlock _ := (None, tt); view_BatchWrite _ _ _ := (false, tt) |}.
#[export] Instance dummy_view_spec : CoinsViewSpec unit.
Proof. by refine {| cmap _ _ := None; ctip _ := None |}. Defined.
Definition SetBackend {V W : Type} (backend : W) (v : CCoinsViewCache V) : CCoinsViewCache W :=
  {| base := backend; cacheCoins := cacheCoins v; pindexTip := pindexTip v |}.

(** ** Standard transactions *)

Definition CURRENT_TX_VERSION : Z := 1.
Inductive nonstandard := NS_version | NS_not_final | NS_tx_size | NS_scriptsig_size | NS_scriptsig_not_pushonly | NS_scriptpubkey | NS_dust.

(** [None]: standard; else the reason *)
Definition tx_IsStandard {K : Crypto} (nMinRelayTxFee nBestHeight nAdjustedTime : Z) (tx : CTransaction) : option nonstandard :=
  if (CURRENT_TX_VERSION <? nVersion tx) || (nVersion tx <? 1) then Some NS_version
  else if negb (IsFinal tx 0 0 nBestHeight nAdjustedTime) then Some NS_not_final
  else if MAX_STANDARD_TX_SIZE <=? GetSerializeSize ser_CTransaction tx then Some NS_tx_size
  else
    let fix ins l := match l with
                     | [] => None
                     | i :: r => if 500 <? Z.of_nat (length (scriptSig i)) then Some NS_scriptsig_size
                                 else if negb (IsPushOnly (scriptSig i)) then Some NS_scriptsig_not_pushonly else ins r
                     end in
    let fix outs l := match l with
                      | [] => None
                      | o :: r => if negb (IsStandard (scriptPubKey o)) then Some NS_scriptpubkey
                                  else if IsDust nMinRelayTxFee o then Some NS_dust else outs r
                      end in
    match ins (vin tx) with Some e => Some e | None => outs (vout tx) end.

Section Standard.
Context {V : Type} {CV : CoinsView V} {B : OpenSSLBN} {K : Crypto} {E : CacheEnv}.
Abbreviation view := (CCoinsViewCache V).

(** the number of arguments a redeemed script takes besides; [None]: not standard *)
Definition subscript_args (stack : list bytes) (nArgsExpected : Z) : option Z :=
  match stack with
  | [] => None
  | subscript :: _ =>
    let '(ok, whichType2, vSolutions2) := Solver subscript in
    if negb ok then None
    else if bool_decide (whichType2 = TX_SCRIPTHASH) then None
    else
      let tmpExpected := ScriptSigArgsExpected whichType2 vSolutions2 in
      if tmpExpected <? 0 then None else Some (nArgsExpected + tmpExpected)
  end.
Fixpoint standard_inputs (tx : CTransaction) (vin : list CTxIn) (i : Z) (v : view) (cache : SigCache.CSignatureCache)
    : option (bool * view * SigCache.CSignatureCache) :=
  match vin with
  | [] => Some (true, v, cache)
  | txin :: r =>
    let? (prev, v) := GetOutputFor txin v in
    let '(ok, whichType, vSolutions) := Solver (scriptPubKey prev) in
    if negb ok then Some (false, v, cache)
    else
      let nArgsExpected := ScriptSigArgsExpected whichType vSolutions in
      if nArgsExpected <? 0 then Some (false, v, cache)
      else
        let '(ok, stack, cache) := EvalScript tx i 0 0 [] (scriptSig txin) cache in
        if negb ok then Some (false, v, cache)
        else
          match (if bool_decide (whichType = TX_SCRIPTHASH) then subscript_args stack nArgsExpected else Some nArgsExpected) with
          | None => Some (false, v, cache)
          | Some nArgsExpected =>
            if negb (Z.of_nat (length stack) =? u32 nArgsExpected) then Some (false, v, cache) else standard_inputs tx r (i + 1) v cache
          end
  end.
(** [None]: an assertion fails *)
Definition AreInputsStandard (tx : CTransaction) (v : view) (cache : SigCache.CSignatureCache) : option (bool * view * SigCache.CSignatureCache) :=
  if IsCoinBase tx then Some (true, v, cache) else standard_inputs tx (vin tx) 0 v cache.
End Standard.

(** ** Acceptance *)

Record pool_params := {
  pp_fTestNet : bool; pp_nMinTxFee : Z; pp_nMinRelayTxFee : Z; pp_nBestHeight : Z; pp_nAdjustedTime : Z;
  pp_rate_limited : bool;  (** what the rate limiter answers *)
}.

Section Accept.
Context {V : Type} {CV : CoinsView V} {B : OpenSSLBN} {K : Crypto} {E : CacheEnv} (p : pool_params).
Abbreviation tip := (CCoinsViewCache V).

(** whether it is accepted, whether inputs are missing, and the state after *)
Record accepted := {
  a_ok : bool; a_missing : bool; a_state : CValidationState; a_pool : CTxMemPool; a_tip : tip; a_cache : SigCache.CSignatureCache;
}.

(** an input whose transaction is not known *)
Fixpoint missing_inputs {W} {CW : CoinsView W} (vin : list CTxIn) (v : CCoinsViewCache W) : bool * CCoinsViewCache W :=
  match vin with
  | [] => (false, v)
  | txin :: r => let '(b, v) := HaveCoins v (o_hash (prevout txin)) in if b then missing_inputs r v else (true, v)
  end.

(** refused without a mark in the validation state, or the verdict of [CheckInputs] *)
Inductive acceptance := Refused | Checked (r : result).

(** the checks once the coins of the inputs are in the cache, whose base is the dummy *)
Definition accept_inputs (tx : CTransaction) (fLimitFree : bool) (v : CCoinsViewCache unit) (cache : SigCache.CSignatureCache)
    : option (acceptance * SigCache.CSignatureCache) :=
  let? (std, v, cache) := AreInputsStandard tx v cache in
  if negb std && negb (pp_fTestNet p) then Some (Refused, cache)
  else
    let? (nIn, v) := GetValueIn tx v in
    let? nOut := GetValueOut tx in
    let nFees := s64 (nIn - nOut) in
    let txMinFee := GetMinFee (pp_nMinTxFee p) (pp_nMinRelayTxFee p) tx 1000 false GMF_RELAY in
    if fLimitFree && (nFees <? txMinFee) then Some (Refused, cache)
    else if fLimitFree && (nFees <? pp_nMinRelayTxFee p) && pp_rate_limited p then Some (Refused, cache)
    else
      let? (r, _, _, cache) := CheckInputs (pp_nMinTxFee p) (pp_nMinRelayTxFee p) false tx (Z.lor SCRIPT_VERIFY_P2SH SCRIPT_VERIFY_STRICTENC) v cache in
      Some (Checked r, cache).

(** an input the pool already spends: replacing a transaction is disabled *)
Definition in_conflict (tx : CTransaction) (pool : CTxMemPool) : bool :=
  existsb (fun i => bool_decide (is_Some (mapNextTx pool !! prevout i))) (vin tx).

(** [None]: an assertion fails or an exception is thrown *)
Definition accept (tx : CTransaction) (fCheckInputs fLimitFree : bool) (state : CValidationState) (pool : CTxMemPool) (pcoinsTip : tip)
    (cache : SigCache.CSignatureCache) : option accepted :=
  let refuse missing state pcoinsTip cache :=
    Some {| a_ok := false; a_missing := missing; a_state := state; a_pool := pool; a_tip := pcoinsTip; a_cache := cache |} in
  let add pcoinsTip cache :=
    Some {| a_ok := true; a_missing := false; a_state := state; a_pool := addUnchecked (GetHash tx) tx pool; a_tip := pcoinsTip; a_cache := cache |} in
  match CheckTransaction tx with
  | DoS level => let '(_, state) := state_DoS level false false state in refuse false state pcoinsTip cache
  | Valid =>
    if IsCoinBase tx then let '(_, state) := state_DoS 100 false false state in refuse false state pcoinsTip cache
    else if 2 ^ 31 - 1 <? nLockTime tx then refuse false state pcoinsTip cache
    else if negb (pp_fTestNet p) && bool_decide (is_Some (tx_IsStandard (pp_nMinRelayTxFee p) (pp_nBestHeight p) (pp_nAdjustedTime p) tx))
    then refuse false state pcoinsTip cache
    else if exists_tx pool (GetHash tx) then refuse false state pcoinsTip cache
    else if in_conflict tx pool then refuse false state pcoinsTip cache
    else if negb fCheckInputs then add pcoinsTip cache
    else
      let view := new_cache {| mp_base := pcoinsTip; mempool := pool |} in
      let '(have, view) := HaveCoins view (GetHash tx) in
      if have then refuse false state (mp_base (base view)) cache
      else
        let '(missing, view) := missing_inputs (vin tx) view in
        if missing then refuse true state (mp_base (base view)) cache
        else
          let? (have, view) := HaveInputs tx view in
          if negb have then let '(_, state) := state_Invalid false state in refuse false state (mp_base (base view)) cache
          else
            let '(_, view) := GetBestBlock view in
            let pcoinsTip := mp_base (base view) in
            let? (r, cache) := accept_inputs tx fLimitFree (SetBackend tt view) cache in
            match r with
            | Checked Accepted => add pcoinsTip cache
            | Refused => refuse false state pcoinsTip cache
            | Checked Invalid => let '(_, state) := state_Invalid false state in refuse false state pcoinsTip cache
            | Checked (Rejected level) => let '(_, state) := state_DoS level false false state in refuse false state pcoinsTip cache
            end
  end.
End Accept.
Arguments accepted V : clear implicits.

(** ** The index of spent outputs is exact *)

(** the input [ip] of the pool spends [o] *)
Definition spends_at (pool : CTxMemPool) (o : COutPoint) (ip : CInPoint) : Prop :=
  exists tx i, mapTx pool !! ptx ip = Some tx /\ 0 <= in_n ip /\ vin tx !! Z.to_nat (in_n ip) = Some i /\ prevout i = o.

Section PoolLemmas.
Context {K : Crypto}.

Record pool_ok (pool : CTxMemPool) : Prop := {
  po_tx : forall h tx, mapTx pool !! h = Some tx -> GetHash tx = h /\ NoDup (map prevout (vin tx));
  po_next : forall o ip, mapNextTx pool !! o = Some ip <-> spends_at pool o ip;
}.

Lemma empty_pool_ok : pool_ok empty_pool.
Proof.
  split; [by intros h tx H; cbn in H; rewrite lookup_empty in H|]. intros o ip. cbn [mapNextTx empty_pool]. rewrite lookup_empty.
  split; [done|]. intros (tx & i & H & _). cbn in H. by rewrite lookup_empty in H.
Qed.

(** no two transactions of the pool spend the same output *)
Lemma no_double_spend pool h1 h2 t1 t2 i1 i2 : pool_ok pool -> mapTx pool !! h1 = Some t1 -> mapTx pool !! h2 = Some t2 ->
  i1 ∈ vin t1 -> i2 ∈ vin t2 -> prevout i1 = prevout i2 -> h1 = h2.
Proof.
  intros Hok H1 H2 Hi1 Hi2 Heq. apply list_elem_of_lookup in Hi1 as [n1 Hn1], Hi2 as [n2 Hn2].
  assert (Hs : forall h t n i, mapTx pool !! h = Some t -> vin t !! n = Some i ->
    mapNextTx pool !! (prevout i) = Some {| ptx := h; in_n := Z.of_nat n |}).
  { intros h t n i Ht Hn. apply (po_next _ Hok). exists t, i. cbn. rewrite Nat2Z.id. split_and!; try done. lia. }
  pose proof (Hs _ _ _ _ H1 Hn1) as E1. pose proof (Hs _ _ _ _ H2 Hn2) as E2. rewrite Heq in E1. congruence.
Qed.

Lemma spends_at_sub p q o ip : mapTx p ⊆ mapTx q -> spends_at p o ip -> spends_at q o ip.
Proof. intros Hs (tx & i & H & Hr). exists tx, i. split; [by eapply lookup_weaken|done]. Qed.

(** *** Adding *)

Lemma add_next_lookup hash (l : list CTxIn) k (m : gmap COutPoint CInPoint) o ip : NoDup (map prevout l) ->
  foldl (fun m x => <[prevout x.2 := {| ptx := hash; in_n := Z.of_nat x.1 |}]> m) m (imap (fun i x => ((k + i)%nat, x)) l) !! o = Some ip <->
  (exists i x, l !! i = Some x /\ prevout x = o /\ ip = {| ptx := hash; in_n := Z.of_nat (k + i) |}) \/ ((o ∉ map prevout l) /\ m !! o = Some ip).
Proof.
  revert k m. induction l as [|x l IH]; intros k m Hnd; cbn [imap foldl map].
  { split; [intros H; right; split; [apply not_elem_of_nil|done]|]. intros [(i & x & H & _)|[_ H]]; [done|done]. }
  cbn [map] in Hnd. apply NoDup_cons in Hnd as [Hx Hnd]. rewrite Nat.add_0_r. cbn [fst snd].
  rewrite (imap_ext _ (fun i y => ((S k + i)%nat, y))) by (intros i y _; cbn; f_equal; lia). rewrite IH by done.
  split.
  - intros [(i & y & Hi & Hy & ->)|[Ho Hm]].
    + left. exists (S i), y. split_and!; [done|done|]. do 2 f_equal. lia.
    + destruct (decide (prevout x = o)) as [<-|Hne].
      * rewrite lookup_insert_eq in Hm. injection Hm as <-. left. exists 0%nat, x. by rewrite Nat.add_0_r.
      * rewrite lookup_insert_ne in Hm by done. right. split; [|done]. by apply not_elem_of_cons.
  - intros [(i & y & Hi & Hy & ->)|[Ho Hm]].
    + destruct i as [|i]; cbn in Hi.
      * injection Hi as ->. right. subst o. split; [done|]. by rewrite lookup_insert_eq, Nat.add_0_r.
      * left. exists i, y. split_and!; [done|done|]. do 2 f_equal. lia.
    + apply not_elem_of_cons in Ho as [Hne Ho]. right. split; [done|]. by rewrite lookup_insert_ne.
Qed.

Lemma addUnchecked_ok tx pool : pool_ok pool -> mapTx pool !! GetHash tx = None -> NoDup (map prevout (vin tx)) -> in_conflict tx pool = false ->
  pool_ok (addUnchecked (GetHash tx) tx pool).
Proof.
  intros Hok Hnew Hnd Hconf. assert (Hfree : forall i, i ∈ vin tx -> mapNextTx pool !! prevout i = None).
  { intros i Hi. destruct (mapNextTx pool !! prevout i) eqn:E; [|done]. exfalso. enough (in_conflict tx pool = true) by congruence.
    apply existsb_exists. exists i. split; [by apply list_elem_of_In|]. rewrite E. by apply bool_decide_eq_true_2. }
  split; cbn [addUnchecked mapTx mapNextTx].
  - intros h t Ht. apply lookup_insert_Some in Ht as [[<- <-]|[_ Ht]]; [done|by apply (po_tx _ Hok)].
  - intros o ip. rewrite (imap_ext _ (fun i (x : CTxIn) => ((0 + i)%nat, x))) by done. rewrite add_next_lookup by done.
    unfold spends_at. cbn [mapTx addUnchecked]. split.
    + intros [(i & x & Hi & Hx & ->)|[Ho Hm]].
      * exists tx, x. cbn [ptx in_n]. rewrite lookup_insert_eq, Nat2Z.id. split_and!; try done. lia.
      * apply (po_next _ Hok) in Hm as (t & i & Ht & Hr). exists t, i. split; [|done]. rewrite lookup_insert_ne; [done|]. congruence.
    + intros (t & i & Ht & Hn & Hi & Ho). apply lookup_insert_Some in Ht as [[Hh <-]|[Hh Ht]].
      * left. exists (Z.to_nat (in_n ip)), i. split_and!; try done. destruct ip; cbn in *. subst. f_equal. lia.
      * right. assert (Hm : mapNextTx pool !! o = Some ip) by (apply (po_next _ Hok); by exists t, i). split; [|done].
        intros Hin. apply list_elem_of_In, in_map_iff in Hin as (x & Hx & Hin). apply list_elem_of_In in Hin.
        rewrite <- Hx, Hfree in Hm by done. done.
Qed.

(** *** Removing *)

Lemma delete_next_lookup (l : list CTxIn) (m : gmap COutPoint CInPoint) o :
  foldl (fun m i => delete (prevout i) m) m l !! o = if bool_decide (o ∈ map prevout l) then None else m !! o.
Proof.
  revert m. induction l as [|x l IH]; intros m; cbn [foldl map]; [by rewrite bool_decide_eq_false_2 by apply not_elem_of_nil|].
  rewrite IH. destruct (decide (o ∈ map prevout l)) as [Hin|Hin].
  - rewrite !bool_decide_eq_true_2; [done|by right|done].
  - rewrite (bool_decide_eq_false_2 (o ∈ map prevout l)) by done. destruct (decide (o = prevout x)) as [->|Hne].
    + rewrite bool_decide_eq_true_2 by left. apply lookup_delete_eq.
    + rewrite bool_decide_eq_false_2 by by apply not_elem_of_cons. by rewrite lookup_delete_ne.
Qed.

(** the argument is the transaction of the pool with its id, if there is one *)
Definition known (pool : CTxMemPool) (tx : CTransaction) : Prop := forall t, mapTx pool !! GetHash tx = Some t -> t = tx.

Lemma erase_tx_spec tx pool : pool_ok pool -> known pool tx ->
  pool_ok (erase_tx tx pool) /\ mapTx (erase_tx tx pool) = delete (GetHash tx) (mapTx pool).
Proof.
  intros Hok Hk. unfold erase_tx, exists_tx. destruct (mapTx pool !! GetHash tx) as [t|] eqn:E.
  2:{ rewrite bool_decide_eq_false_2 by by intros [? ?]. split; [done|]. by rewrite delete_id. }
  rewrite bool_decide_eq_true_2 by done. pose proof (Hk t E) as ->. split; [|done]. split; cbn [mapTx mapNextTx].
  - intros h t Ht. apply lookup_delete_Some in Ht as [_ Ht]. by apply (po_tx _ Hok).
  - intros o ip. rewrite delete_next_lookup. unfold spends_at. cbn [mapTx]. case_bool_decide as Hin.
    + split; [done|]. intros (t & i & Ht & Hn & Hi & Ho). apply lookup_delete_Some in Ht as [Hne Ht]. exfalso. apply Hne.
      apply list_elem_of_In, in_map_iff in Hin as (x & Hx & Hin). apply list_elem_of_In in Hin.
      eapply (no_double_spend pool _ _ _ _ x i Hok E Ht Hin); [by eapply list_elem_of_lookup_2|congruence].
    + rewrite (po_next _ Hok). split; intros (t & i & Ht & Hn & Hi & Ho); exists t, i; (split_and!; [|done..]).
      * rewrite lookup_delete_ne; [done|]. intros Heq. apply Hin. rewrite <- Heq, E in Ht. injection Ht as <-. subst o.
        apply list_elem_of_In, in_map, list_elem_of_In. by eapply list_elem_of_lookup_2.
      * by apply lookup_delete_Some in Ht as [_ Ht].
Qed.

(** what has to go with a transaction: what spends its outputs, and so on *)
Definition edge (pool : CTxMemPool) (tx : CTransaction) (b : Z) : Prop :=
  exists n ip, (n < length (vout tx))%nat /\ mapNextTx pool !! {| o_hash := GetHash tx; o_n := Z.of_nat n |} = Some ip /\ ptx ip = b.
Inductive doomed (pool : CTxMemPool) : CTransaction -> Z -> Prop :=
| doomed_self tx : doomed pool tx (GetHash tx)
| doomed_child tx b tb h : edge pool tx b -> mapTx pool !! b = Some tb -> doomed pool tb h -> doomed pool tx h.

Lemma doomed_trans pool tx a ta h : pool_ok pool -> doomed pool tx a -> mapTx pool !! a = Some ta -> known pool tx -> doomed pool ta h -> doomed pool tx h.
Proof.
  intros Hok H. induction H as [tx|tx b tb a He Hb H IH]; intros Ha Hk Hh.
  - by rewrite <- (Hk ta Ha).
  - apply (doomed_child _ _ b tb); [done|done|]. apply IH; [done| |done]. intros t Ht.
    destruct (po_tx _ Hok _ _ Hb) as [Hg _]. rewrite Hg in Ht. congruence.
Qed.

Lemma edge_sub p q tx b : pool_ok p -> pool_ok q -> mapTx p ⊆ mapTx q -> edge p tx b -> edge q tx b.
Proof.
  intros Hp Hq Hs (n & ip & Hn & Hm & Hb). exists n, ip. split_and!; [done| |done].
  apply (po_next _ Hq), (spends_at_sub p); [done|]. by apply (po_next _ Hp).
Qed.

Lemma doomed_sub p q tx h : pool_ok p -> pool_ok q -> mapTx p ⊆ mapTx q -> doomed p tx h -> doomed q tx h.
Proof.
  intros Hp Hq Hs H. induction H as [tx|tx b tb h He Hb H IH]; [constructor|].
  apply (doomed_child _ _ b tb); [by apply (edge_sub p q)|by eapply lookup_weaken|done].
Qed.

(** what [remove] of some transactions has done: exactly those in [D] are gone *)
Definition removed (D : Z -> Prop) (p q : CTxMemPool) : Prop :=
  pool_ok q /\ mapTx q ⊆ mapTx p /\ (forall h, D h -> mapTx q !! h = None) /\
  (forall h, is_Some (mapTx p !! h) -> mapTx q !! h = None -> D h).

(** after an exact removal, what was doomed is still doomed or gone already *)
Lemma doomed_after p q t0 tx h : pool_ok p -> known p t0 -> removed (doomed p t0) p q -> doomed p tx h ->
  mapTx q !! h = None \/ doomed q tx h.
Proof.
  intros Hp Hk (Hq & Hs & Hgone & Hd) H. induction H as [tx|tx b tb h He Hb H IH]; [by right; constructor|].
  destruct (mapTx q !! b) as [tb'|] eqn:Eb.
  - destruct IH as [IH|IH]; [by left|]. right. assert (tb' = tb) as -> by (pose proof (lookup_weaken _ _ _ _ Eb Hs); congruence).
    apply (doomed_child _ _ b tb); [|done|done].
    destruct He as (n & ip & Hn & Hm & Hpb). exists n, ip. split_and!; [done| |done]. apply (po_next _ Hq).
    apply (po_next _ Hp) in Hm as (t & i & Ht & Hr). exists t, i. split; [|done]. subst b.
    rewrite Eb. f_equal. pose proof (lookup_weaken _ _ _ _ Eb Hs). congruence.
  - left. apply Hgone. apply (doomed_trans p _ b tb); [done| |done|done|done]. apply Hd; [by eexists|done].
Qed.

Definition child_dooms (p : CTxMemPool) (hash : Z) (outs : list nat) (h : Z) : Prop :=
  exists n ip tb, n ∈ outs /\ mapNextTx p !! {| o_hash := hash; o_n := Z.of_nat n |} = Some ip /\ mapTx p !! ptx ip = Some tb /\ doomed p tb h.

Lemma known_entry p h tx : pool_ok p -> mapTx p !! h = Some tx -> known p tx.
Proof. intros Hp Ht t Hg. destruct (po_tx _ Hp _ _ Ht) as [Hh _]. rewrite Hh in Hg. congruence. Qed.

Lemma remove_spenders_spec rm hash outs p q :
  (forall tx p q, pool_ok p -> known p tx -> rm tx p = Some q -> removed (doomed p tx) p q) ->
  pool_ok p -> remove_spenders rm hash outs p = Some q -> removed (child_dooms p hash outs) p q.
Proof.
  intros Hrm. revert p. induction outs as [|i outs IH]; intros p Hp H; cbn [remove_spenders] in H.
  { injection H as <-. split_and!; [done|done| |].
    - intros h (n & _ & _ & Hn & _). by apply not_elem_of_nil in Hn.
    - intros h [t Ht] Hx. congruence. }
  destruct (mapNextTx p !! _) as [it|] eqn:Ei.
  - destruct (mapTx p !! ptx it) as [tb|] eqn:Eb; [|done]. destruct (rm tb p) as [p1|] eqn:Er; [|done].
    assert (Hk : known p tb) by by eapply known_entry. pose proof (Hrm _ _ _ Hp Hk Er) as Hrem. pose proof Hrem as (Hp1 & Hs1 & Hg1 & Hd1).
    destruct (IH p1 Hp1 H) as (Hq & Hs2 & Hg2 & Hd2). split_and!; [done|by etrans| |].
    + intros h (n & ip & tc & Hn & Hm & Ht & Hh).
      assert (Hgone : mapTx p1 !! h = None -> mapTx q !! h = None) by (intros E; by eapply lookup_weaken_None).
      destruct (doomed_after p p1 tb tc h Hp Hk Hrem Hh) as [Hx|Hx]; [by apply Hgone|].
      destruct (mapTx p1 !! ptx ip) as [tc'|] eqn:Ec.
      * assert (tc' = tc) as -> by (pose proof (lookup_weaken _ _ _ _ Ec Hs1); congruence).
        apply elem_of_cons in Hn as [->|Hn].
        -- rewrite Ei in Hm. injection Hm as <-. rewrite Eb in Ht. injection Ht as <-. apply Hgone, Hg1, Hh.
        -- apply Hg2. exists n, ip, tc. split_and!; [done| |done|done]. apply (po_next _ Hp1).
           apply (po_next _ Hp) in Hm as (t & j & Htj & Hr). exists t, j. split; [congruence|done].
      * apply Hgone, Hg1. apply (doomed_trans p tb (ptx ip) tc); [done| |done|done|done]. apply Hd1; [by eexists|done].
    + intros h Hin Hout. destruct (mapTx p1 !! h) as [t|] eqn:Eh.
      * destruct (Hd2 h) as (n & ip & tc & Hn & Hm & Ht & Hh); [by eexists|done|]. exists n, ip, tc. split_and!; [by right| | |].
        -- apply (po_next _ Hp), (spends_at_sub p1); [done|]. by apply (po_next _ Hp1).
        -- by eapply lookup_weaken.
        -- by apply (doomed_sub p1).
      * exists i, it, tb. split_and!; [by left|done|done|by apply Hd1].
  - destruct (IH p Hp H) as (Hq & Hs2 & Hg2 & Hd2). split_and!; [done|done| |].
    + intros h (n & ip & tc & Hn & Hm & Hr). apply elem_of_cons in Hn as [->|Hn]; [congruence|]. apply Hg2. by exists n, ip, tc.
    + intros h Hin Hout. destruct (Hd2 h Hin Hout) as (n & ip & tc & Hn & Hr). exists n, ip, tc. split; [by right|done].
Qed.

Lemma remove_spec fuel tx p q : pool_ok p -> known p tx -> remove fuel true tx p = Some q -> removed (doomed p tx) p q.
Proof.
  revert tx p q. induction fuel as [|f IH]; intros tx p q Hp Hk H; cbn [remove] in H; [done|].
  destruct (remove_spenders _ _ _ p) as [p1|] eqn:Er; [|done]. injection H as <-.
  destruct (remove_spenders_spec _ _ _ _ _ IH Hp Er) as (Hp1 & Hs & Hg & Hd).
  assert (Hk1 : known p1 tx) by (intros t Ht; apply Hk; by eapply lookup_weaken).
  destruct (erase_tx_spec tx p1 Hp1 Hk1) as [Hq Hm]. split_and!; [done| | |]; rewrite Hm.
  - etrans; [apply delete_subseteq|done].
  - intros h Hh. destruct (decide (h = GetHash tx)) as [->|Hne]; [apply lookup_delete_eq|]. rewrite lookup_delete_ne by done.
    inversion Hh as [|? b tb ? (n & ip & Hn & Hnm & Hb) Ht Hdd]; subst; [done|]. apply Hg. exists n, ip, tb.
    split_and!; try done. apply list_elem_of_In, in_seq. lia.
  - intros h Hin Hout. destruct (decide (h = GetHash tx)) as [->|Hne]; [constructor|]. rewrite lookup_delete_ne in Hout by done.
    destruct (Hd h Hin Hout) as (n & ip & tb & Hn & Hm' & Ht & Hdd). apply (doomed_child _ _ (ptx ip) tb); [|done|done].
    exists n, ip. split_and!; [|done|done]. apply list_elem_of_In, in_seq in Hn. lia.
Qed.

(** *** The recursion ends *)

(** the transactions of the pool can be ranked so that each comes after the ones it spends from *)
Definition ranked (r : Z -> nat) (p : CTxMemPool) : Prop :=
  forall h tx, mapTx p !! h = Some tx -> forall i, i ∈ vin tx -> (r (o_hash (prevout i)) < r h)%nat.
(** how many of them come after a rank: a bound on the depth of the recursion *)
Definition above (r : Z -> nat) (p : CTxMemPool) (x : nat) : nat := size (filter (fun e => (x < r e.1)%nat) (mapTx p)).
Definition pool_fuel (p : CTxMemPool) : nat := S (size (mapTx p)).

Lemma ranked_sub r p q : mapTx q ⊆ mapTx p -> ranked r p -> ranked r q.
Proof. intros Hs Hr h tx Ht. apply (Hr h tx). by eapply lookup_weaken. Qed.

Lemma above_sub r p q x : mapTx q ⊆ mapTx p -> (above r q x <= above r p x)%nat.
Proof. intros Hs. apply map_subseteq_size. by apply map_filter_subseteq_mono. Qed.

Lemma above_pool r p x : (above r p x < pool_fuel p)%nat.
Proof. unfold above, pool_fuel. pose proof (map_subseteq_size _ _ (map_filter_subseteq (fun e => (x < r e.1)%nat) (mapTx p))). lia. Qed.

Lemma above_step r p x h tx : mapTx p !! h = Some tx -> (x < r h)%nat -> (above r p (r h) < above r p x)%nat.
Proof.
  intros Ht Hx. apply map_subset_size, map_subset_alt. split.
  - apply map_filter_subseteq_ext. intros k t Ht'. cbn. lia.
  - exists h. split; [apply map_lookup_filter_None; right; cbn; intros ? _; lia|]. exists tx. by apply map_lookup_filter_Some.
Qed.

Lemma remove_total r fuel tx p : pool_ok p -> known p tx -> ranked r p -> (above r p (r (GetHash tx)) < fuel)%nat ->
  exists q, remove fuel true tx p = Some q.
Proof.
  revert tx p. induction fuel as [|f IH]; intros tx p Hp Hk Hr Hf; [lia|]. cbn [remove].
  enough (He : forall outs p, pool_ok p -> ranked r p -> (above r p (r (GetHash tx)) <= f)%nat ->
    exists q, remove_spenders (remove f true) (GetHash tx) outs p = Some q).
  { destruct (He (seq 0 (length (vout tx))) p Hp Hr) as [q ->]; [lia|]. by eexists. }
  clear p Hp Hk Hr Hf. intros outs. induction outs as [|i outs IHo]; intros p Hp Hr Hf; cbn [remove_spenders]; [by eexists|].
  destruct (mapNextTx p !! _) as [it|] eqn:Ei; [|by apply IHo].
  pose proof (proj1 (po_next _ Hp _ _) Ei) as (tb & j & Htb & _ & Hj & Hpj). rewrite Htb.
  pose proof (Hr _ _ Htb j (list_elem_of_lookup_2 _ _ _ Hj)) as Hlt. rewrite Hpj in Hlt. cbn in Hlt. destruct (po_tx _ Hp _ _ Htb) as [Hgb _].
  assert (Hkb : known p tb) by by eapply known_entry. pose proof (above_step r p _ _ _ Htb Hlt) as Hab.
  destruct (IH tb p Hp Hkb Hr) as [p1 Hp1]; [rewrite Hgb; lia|]. rewrite Hp1.
  destruct (remove_spec _ _ _ _ Hp Hkb Hp1) as (Hok1 & Hs1 & _). apply IHo; [done|by eapply ranked_sub|].
  pose proof (above_sub r p p1 (r (GetHash tx)) Hs1). lia.
Qed.

(** *** Conflicts *)

(** what spends an input of [tx] and is not [tx] goes, with what depends on it *)
Definition conflict_dooms (p : CTxMemPool) (tx : CTransaction) (ins : list CTxIn) (h : Z) : Prop :=
  exists j ip tb, j ∈ ins /\ mapNextTx p !! (prevout j) = Some ip /\ mapTx p !! ptx ip = Some tb /\ tb <> tx /\ doomed p tb h.
Definition no_conflict (q : CTxMemPool) (tx : CTransaction) (ins : list CTxIn) : Prop :=
  forall h t i j, mapTx q !! h = Some t -> i ∈ vin t -> j ∈ ins -> prevout i = prevout j -> t = tx.

Lemma spender_entry p h t i : pool_ok p -> mapTx p !! h = Some t -> i ∈ vin t -> exists ip, mapNextTx p !! (prevout i) = Some ip /\ ptx ip = h.
Proof.
  intros Hp Ht Hi. apply list_elem_of_lookup in Hi as [n Hn]. exists {| ptx := h; in_n := Z.of_nat n |}. split; [|done].
  apply (po_next _ Hp). exists t, i. cbn. rewrite Nat2Z.id. split_and!; try done. lia.
Qed.

Lemma conflicts_loop_spec fuel tx ins p q : pool_ok p -> conflicts_loop fuel tx ins p = Some q ->
  pool_ok q /\ mapTx q ⊆ mapTx p /\ no_conflict q tx ins /\
  (forall h, is_Some (mapTx p !! h) -> mapTx q !! h = None -> conflict_dooms p tx ins h).
Proof.
  revert p. induction ins as [|j ins IH]; intros p Hp H; cbn [conflicts_loop] in H.
  { injection H as <-. split_and!; [done|done| |].
    - intros h t i j _ _ Hj. by apply not_elem_of_nil in Hj.
    - intros h [t Ht] Hx. congruence. }
  assert (Hcons : forall p1, pool_ok p1 -> mapTx p1 ⊆ mapTx p -> conflicts_loop fuel tx ins p1 = Some q ->
    (forall h t i, mapTx p1 !! h = Some t -> i ∈ vin t -> prevout i = prevout j -> t = tx) ->
    (forall h, is_Some (mapTx p !! h) -> mapTx p1 !! h = None -> conflict_dooms p tx (j :: ins) h) ->
    pool_ok q /\ mapTx q ⊆ mapTx p /\ no_conflict q tx (j :: ins) /\
    (forall h, is_Some (mapTx p !! h) -> mapTx q !! h = None -> conflict_dooms p tx (j :: ins) h)).
  { intros p1 Hp1 Hs1 H1 Hj Hd. destruct (IH p1 Hp1 H1) as (Hq & Hs2 & Hn & Hd2). split_and!; [done|by etrans| |].
    - intros h t i k Ht Hi Hk Heq. apply elem_of_cons in Hk as [->|Hk]; [|by eapply Hn]. eapply Hj; [by eapply lookup_weaken|done|done].
    - intros h Hin Hout. destruct (mapTx p1 !! h) as [t|] eqn:Eh; [|by apply Hd].
      destruct (Hd2 h) as (k & ip & tb & Hk & Hm & Ht & Hne & Hh); [by eexists|done|]. exists k, ip, tb. split_and!; [by right| | |done|].
      + apply (po_next _ Hp), (spends_at_sub p1); [done|]. by apply (po_next _ Hp1).
      + by eapply lookup_weaken.
      + by apply (doomed_sub p1). }
  destruct (mapNextTx p !! _) as [it|] eqn:Ei.
  - destruct (mapTx p !! ptx it) as [tb|] eqn:Eb; [|done]. case_bool_decide as Et; cbn [negb] in H.
    + apply (Hcons p); [done|done|done| |intros h [t Ht] Hx; congruence]. intros h t i Ht Hi Heq.
      destruct (spender_entry p h t i Hp Ht Hi) as (ip & Hm & Hpt). rewrite Heq in Hm. congruence.
    + destruct (remove fuel true tb p) as [p1|] eqn:Er; [|done]. assert (Hk : known p tb) by by eapply known_entry.
      destruct (remove_spec _ _ _ _ Hp Hk Er) as (Hp1 & Hs1 & Hg1 & Hd1). apply (Hcons p1); [done|done|done| |].
      * intros h t i Ht Hi Heq. exfalso. pose proof (lookup_weaken _ _ _ _ Ht Hs1) as Ht'.
        destruct (spender_entry p h t i Hp Ht' Hi) as (ip & Hm & Hpt). rewrite Heq, Ei in Hm. injection Hm as <-.
        destruct (po_tx _ Hp _ _ Eb) as [Hgb _]. rewrite (Hg1 h) in Ht; [done|]. rewrite <- Hpt, <- Hgb. constructor.
      * intros h Hin Hout. exists j, it, tb. split_and!; [by left|done|done|done|by apply Hd1].
  - apply (Hcons p); [done|done|done| |intros h [t Ht] Hx; congruence]. intros h t i Ht Hi Heq.
    destruct (spender_entry p h t i Hp Ht Hi) as (ip & Hm & Hpt). rewrite Heq in Hm. congruence.
Qed.

Lemma conflicts_loop_total r fuel tx ins p : pool_ok p -> ranked r p -> (pool_fuel p <= fuel)%nat -> exists q, conflicts_loop fuel tx ins p = Some q.
Proof.
  revert p. induction ins as [|j ins IH]; intros p Hp Hr Hf; cbn [conflicts_loop]; [by eexists|].
  destruct (mapNextTx p !! _) as [it|] eqn:Ei; [|by apply IH].
  pose proof (proj1 (po_next _ Hp _ _) Ei) as (tb & i & Htb & _). rewrite Htb. case_bool_decide; cbn [negb]; [by apply IH|].
  assert (Hk : known p tb) by by eapply known_entry. pose proof (above_pool r p (r (GetHash tb))) as Hab.
  destruct (remove_total r fuel tb p Hp Hk Hr) as [p1 Hp1]; [lia|]. rewrite Hp1.
  destruct (remove_spec _ _ _ _ Hp Hk Hp1) as (Hok1 & Hs1 & _). apply IH; [done|by eapply ranked_sub|].
  pose proof (map_subseteq_size _ _ Hs1). unfold pool_fuel in *. lia.
Qed.
End PoolLemmas.

(** ** What is accepted *)

Section AcceptLemmas.
Context {V : Type} {CV : CoinsView V} {CS : CoinsViewSpec V} {B : OpenSSLBN} {K : Crypto} {E : CacheEnv}.
Abbreviation tip := (CCoinsViewCache V).
Abbreviation pview := (CCoinsViewCache (CCoinsViewMemPool tip)).

(** reading through the pool leaves the pool alone, and the tip stands for the same coins *)
Definition kept_pool (b b' : CCoinsViewMemPool tip) : Prop := mempool b' = mempool b /\ same_view (mp_base b) (mp_base b').
#[export] Instance kept_pool_stable : ReadStable kept_pool.
Proof.
  split.
  - split; [by intros b|]. intros a b c [H1 H2] [H3 H4]. split; [congruence|by rewrite H2].
  - intros b h. cbn. unfold mempool_GetCoins. pose proof (view_GetCoins_spec (mp_base b) h) as H.
    destruct (view_GetCoins (mp_base b) h) as [r b']. destruct H as (_ & H). destruct r; cbn; [by split|]. destruct (pool_coins (mempool b) h); by split.
  - intros b. cbn. pose proof (GetBestBlock_spec (mp_base b)) as H. destruct (GetBestBlock (mp_base b)) as [t b']. by destruct H as [_ H].
Qed.
Abbreviation reads := (reads kept_pool).

Lemma missing_inputs_spec ins (v : pview) : let '(b, w) := missing_inputs ins v in reads v w /\ same_view v w.
Proof.
  revert v. induction ins as [|i ins IH]; intros v; cbn [missing_inputs]; [done|].
  pose proof (HaveCoins_reads kept_pool v (o_hash (prevout i))) as H. pose proof (HaveCoins_spec v (o_hash (prevout i))) as Hs.
  destruct (HaveCoins v _) as [b w]. specialize (H b w eq_refl). destruct Hs as [_ Hs]. destruct b; [|done]. specialize (IH w).
  destruct (missing_inputs ins w) as [b' w']. destruct IH as [IH1 IH2]. split; [by etrans|by rewrite Hs].
Qed.

Lemma SetBackend_cached (v : pview) k c : Vm (SetBackend tt v) k = Some c -> Vm v k = Some c.
Proof. unfold Vm. cbn. by destruct (cacheCoins v !! k). Qed.

(** an output a transaction of the pool may spend: of the chain or of the pool *)
Definition pool_input (pcoinsTip : tip) (pool : CTxMemPool) (i : CTxIn) (o : CTxOut) : Prop :=
  names (new_cache {| mp_base := pcoinsTip; mempool := pool |}) i (default empty_coins (Vm (new_cache {| mp_base := pcoinsTip; mempool := pool |}) (o_hash (prevout i)))) o.

Lemma AreInputsStandard_keeps tx (v : CCoinsViewCache unit) c b w c' : AreInputsStandard tx v c = Some (b, w, c') -> same_view v w.
Proof.
  unfold AreInputsStandard. case_if; [by intros; simplify_eq|]. generalize 0 as i. revert v c.
  induction (vin tx) as [|j ins IH]; intros v c i H; cbn [standard_inputs] in H; [by simplify_eq|].
  pose proof (GetOutputFor_keeps j v) as Hk. destruct (GetOutputFor j v) as [[o u]|]; [|done]. cbn in Hk.
  repeat (case_match; simplify_eq; try done); (etrans; [exact Hk|by eapply IH]).
Qed.

(** what is read stays in the cache *)
Lemma FetchCoins_cached {W} {CW : CoinsView W} (v : CCoinsViewCache W) h r w : FetchCoins v h = (r, w) -> cacheCoins v ⊆ cacheCoins w /\ (is_Some r -> is_Some (cacheCoins w !! h)).
Proof.
  unfold FetchCoins. destruct (cacheCoins v !! h) as [c|] eqn:Ec; [intros [= <- <-]; split; [done|]; rewrite Ec; by eexists|].
  destruct (view_GetCoins (base v) h) as [[c|] b]; intros [= <- <-]; cbn [cacheCoins]; split; try done; [by apply insert_subseteq|]. rewrite lookup_insert_eq. by eexists.
Qed.
Lemma have_outputs_cached {W} {CW : CoinsView W} ins : forall (v w : CCoinsViewCache W), have_outputs ins v = Some (true, w) ->
  cacheCoins v ⊆ cacheCoins w /\ Forall (fun i => is_Some (cacheCoins w !! o_hash (prevout i))) ins.
Proof.
  induction ins as [|i ins IH]; intros v w; cbn [have_outputs]; [by intros [= <-]|]. unfold GetCoinsRef. destruct (FetchCoins v _) as [[c|] u] eqn:Ef; [|done]. apply FetchCoins_cached in Ef as [H1 H2].
  cbn [option_bind mbind]. destruct (IsAvailable _ _); [|done]. intros H. apply IH in H as [H3 H4]. split; [by etrans|]. constructor; [|done]. destruct (H2 (ex_intro _ c eq_refl)) as [x Hx]. exists x. by eapply lookup_weaken.
Qed.
Lemma HaveInputs_cached {W} {CW : CoinsView W} tx (v w : CCoinsViewCache W) : IsCoinBase tx = false -> HaveInputs tx v = Some (true, w) ->
  Forall (fun i => is_Some (cacheCoins w !! o_hash (prevout i))) (vin tx).
Proof. intros Hcb. unfold HaveInputs. rewrite Hcb. destruct (have_hashes _ _) as [[] u]; [|done]. intros H. by apply have_outputs_cached in H as [_ H]. Qed.
Lemma standard_inputs_total tx ins : forall i (v : CCoinsViewCache unit) c, all_there v ins -> is_Some (standard_inputs tx ins i v c).
Proof.
  induction ins as [|j ins IH]; intros i v c Hf; [by eexists|]. apply Forall_cons in Hf as [Hi Hf]. cbn [standard_inputs]. unfold GetOutputFor.
  destruct (input_there_inv v j Hi) as (x & w & o & -> & Hs & _ & -> & -> & _). cbn [option_bind mbind]. destruct (Solver _) as [[ok ty] sols]. case_if; [by eexists|]. case_if; [by eexists|].
  destruct (EvalScript _ _ _ _ _ _ _) as [[ok2 stack] c2]. case_if; [by eexists|]. destruct (if bool_decide _ then _ else _); [|by eexists]. case_if; [by eexists|]. apply IH. by apply (all_there_same v).
Qed.

Context (p : pool_params).

Lemma accept_inputs_amounts tx lf (v : CCoinsViewCache unit) c c' : IsCoinBase tx = false -> accept_inputs p tx lf v c = Some (Checked Accepted, c') ->
  exists outs, Forall2 (fun i o => exists x, names v i x o) (vin tx) outs /\
    Z.max 0 (GetMinFee (pp_nMinTxFee p) (pp_nMinRelayTxFee p) tx 1 false GMF_BLOCK) <= value_of outs - value_of (vout tx) /\
    (lf = true -> GetMinFee (pp_nMinTxFee p) (pp_nMinRelayTxFee p) tx 1000 false GMF_RELAY <= value_of outs - value_of (vout tx)).
Proof.
  intros Hcb H. unfold accept_inputs in H. destruct (AreInputsStandard tx v c) as [[[std v1] c1]|] eqn:Es; [|done].
  apply AreInputsStandard_keeps in Es as Hs1. case_if_in H; [done|]. pose proof (GetValueIn_keeps tx v1) as Hk.
  destruct (GetValueIn tx v1) as [[nIn v2]|] eqn:Ei; [|done]. cbn in Hk. destruct (GetValueOut tx) as [nOut|] eqn:Eo; [|done].
  destruct (lf && _) eqn:El in H; [done|]. case_if_in H; [done|]. destruct (CheckInputs _ _ _ _ _ _ _) as [[[[r ch] w] c2]|] eqn:Ec; [|done].
  injection H as -> ->. destruct (CheckInputs_amounts _ _ _ _ _ _ _ _ _ _ Hcb Ec) as (_ & t & outs & w3 & _ & Hf & Hm & Hvo & Hfee & _).
  unfold GetValueIn in Ei. rewrite Hcb in Ei. destruct (value_in_loop_sum _ _ 0 _ _ _ Ei eq_refl) as (outs2 & Hf2 & ->).
  assert (Hs2 : same_view v v2) by by rewrite Hs1.
  assert (Hn : Forall2 (fun i o => exists x, names v i x o) (vin tx) outs).
  { eapply Forall2_impl; [exact Hf|]. intros i o (x & Hx & _). exists x. by apply (names_same v v2). }
  assert (outs2 = outs) as ->.
  { eapply (Forall2_fun (fun i o => exists x, names v i x o)); [|by eapply Forall2_impl; [exact Hf2|]; intros i o (x & Hx); exists x; apply (names_same v v1)|exact Hn].
    intros i o1 o2 (x & H1 & H2) (y & H3 & H4). congruence. }
  exists outs. split_and!; [done|done|]. intros ->. cbn [andb] in El. apply Z.ltb_ge in El. apply MoneyRange_iff in Hm.
  rewrite Hvo in Eo. injection Eo as <-. unfold MAX_MONEY, COIN in *. cbn [Z.add] in El. rewrite s64_sub_l in El.
  assert (Hv0 : 0 <= value_of (vout tx)).
  { unfold GetValueOut in Hvo. apply value_out_loop_iff in Hvo as (Hr & _); [by apply value_of_nonneg|unfold MAX_MONEY, COIN; lia]. }
  rewrite s64_small in El; lia.
Qed.
Lemma accept_inputs_total tx lf (v : CCoinsViewCache unit) c : IsCoinBase tx = false -> CheckTransaction tx = Valid -> is_Some (Vt v) -> all_there v (vin tx) -> is_Some (accept_inputs p tx lf v c).
Proof.
  intros Hcb Hv Ht Hin. unfold accept_inputs, AreInputsStandard. rewrite Hcb. destruct (standard_inputs_total tx (vin tx) 0 v c Hin) as [[[std v1] c1] Es]. rewrite Es. cbn [option_bind mbind].
  assert (Hs1 : same_view v v1) by (apply (AreInputsStandard_keeps tx v c std v1 c1); unfold AreInputsStandard; by rewrite Hcb). case_if; [by eexists|].
  unfold GetValueIn. rewrite Hcb. pose proof (GetValueIn_keeps tx v1) as Hk. unfold GetValueIn in Hk. rewrite Hcb in Hk.
  destruct (value_in_loop_total (vin tx) 0 v1 (all_there_same _ _ _ Hs1 Hin)) as [[n v2] Ev]. rewrite Ev in *. cbn in Hk. cbn [option_bind mbind]. rewrite (GetValueOut_valid tx Hv). cbn [option_bind mbind].
  case_if; [by eexists|]. case_if; [by eexists|].
  destruct (CheckInputs_total (pp_nMinTxFee p) (pp_nMinRelayTxFee p) false tx (Z.lor SCRIPT_VERIFY_P2SH SCRIPT_VERIFY_STRICTENC) v2 c1) as [[[[r ch] w] c2] Ec]; [|done|rewrite Ec; by eexists].
  destruct Hk as [_ ->]. destruct Hs1 as [_ ->]. done.
Qed.
(** [accept] reaches a verdict: neither does an assertion fail nor is anything thrown, as long as the chain has a best block *)
Lemma accept_total tx fCheckInputs lf st pool (tip : CCoinsViewCache V) c : is_Some (Vt tip) -> is_Some (accept p tx fCheckInputs lf st pool tip c).
Proof.
  intros Ht. unfold accept. destruct (CheckTransaction tx) eqn:Ev; [|destruct (state_DoS _ _ _ _); by eexists]. destruct (IsCoinBase tx) eqn:Ecb; [destruct (state_DoS _ _ _ _); by eexists|].
  repeat (case_if; [by eexists|]). set (v0 := new_cache {| mp_base := tip; mempool := pool |}). assert (Ht0 : is_Some (Vt v0)) by done.
  pose proof (HaveCoins_spec v0 (GetHash tx)) as S1. destruct (HaveCoins v0 (GetHash tx)) as [have v1]. destruct S1 as [_ S1]. destruct have; [by eexists|].
  pose proof (missing_inputs_spec (vin tx) v1) as S2. destruct (missing_inputs (vin tx) v1) as [missing v2]. destruct S2 as [_ S2]. destruct missing; [by eexists|].
  destruct (HaveInputs_spec tx v2) as (b & v3 & Hhi & S3 & Hb). rewrite Hhi. cbn [option_bind mbind]. destruct b; cbn [negb]; [|destruct (state_Invalid _ _); by eexists].
  pose proof (HaveInputs_cached tx v2 v3 Ecb Hhi) as Hc. destruct (proj1 Hb eq_refl) as [?|Hin]; [congruence|]. assert (Hin3 : all_there v3 (vin tx)) by by apply (all_there_same v2).
  assert (S03 : same_view v0 v3) by by rewrite S1, S2, S3.
  assert (H4 : exists t v4, GetBestBlock v3 = (t, v4) /\ is_Some (pindexTip v4) /\ cacheCoins v4 = cacheCoins v3).
  { pose proof (GetBestBlock_spec v3) as S4. unfold GetBestBlock in *. destruct (pindexTip v3) as [t|] eqn:Et; [exists (Some t), v3; rewrite Et; split_and!; [done|by eexists|done]|].
    destruct (view_GetBestBlock (base v3)) as [t b']. eexists _, _. split; [done|]. cbn [pindexTip cacheCoins]. split; [|done]. destruct S4 as [-> _]. destruct S03 as [_ ->]. done. }
  destruct H4 as (t & v4 & -> & Ht4 & Hc4). destruct (accept_inputs_total tx lf (SetBackend tt v4) c Ecb Ev) as [[r c'] Er].
  - destruct Ht4 as [x Hx]. unfold Vt. cbn [SetBackend pindexTip]. rewrite Hx. by eexists.
  - apply Forall_forall. intros i Hi. unfold all_there in Hin3. rewrite Forall_forall in Hin3, Hc. specialize (Hin3 i Hi). destruct (Hc i Hi) as [x Hx]. revert Hin3. unfold input_there, Vm. cbn [SetBackend cacheCoins]. by rewrite Hc4, Hx.
  - rewrite Er. cbn [option_bind mbind]. destruct r as [|[| |]]; [by eexists..| |]; [destruct (state_Invalid _ _)|destruct (state_DoS _ _ _ _)]; by eexists.
Qed.
End AcceptLemmas.

(** the fee check before the rate limiter leaves it nothing to limit, for any relay fee below 100 coins *)
Lemma rate_limiter_idle {K : Crypto} f1 f2 tx nFees : 0 <= f2 <= 100 * COIN -> GetMinFee f1 f2 tx 1000 false GMF_RELAY <= nFees -> f2 <= nFees.
Proof.
  intros Hf Hle. etrans; [|exact Hle]. unfold GetMinFee, COIN in *. cbn [andb]. rewrite andb_false_r. cbn [andb].
  assert (Hs : 0 <= GetSerializeSize ser_CTransaction tx < 2 ^ 32).
  { unfold ser_CTransaction, ser_iso, ser_tuple4. cbn [GetSerializeSize]. apply u32_range. }
  set (n := GetSerializeSize _ _) in *. clearbody n. assert (Hn : 0 <= n / 1000 <= 4294967) by dlia.
  set (q := n / 1000) in *. assert (0 <= q * f2 <= 4294967 * f2) by (split; [apply Z.mul_nonneg_nonneg|apply Z.mul_le_mono_nonneg_r]; lia).
  replace ((1 + q) * f2) with (f2 + q * f2) by lia. rewrite (s64_small (f2 + q * f2)) by lia.
  change (negb (1000 =? 1)%positive) with true. cbn [andb]. unfold MAX_BLOCK_SIZE_GEN, MAX_BLOCK_SIZE.
  assert (Hmax : f2 <= MAX_MONEY) by (unfold MAX_MONEY, COIN; lia).
  assert (Hpick : forall m, f2 <= m -> f2 <= (if negb (MoneyRange m) then MAX_MONEY else m)) by (intros m Hmm; by destruct (MoneyRange m)).
  change (1000000 / 2) with 500000. change (500000 / 2) with 250000. set (x := u32 (1000 + n)).
  destruct (250000 <=? x) eqn:E1; [|apply Hpick; lia]. destruct (500000 <=? x) eqn:E2; [done|]. apply Hpick.
  apply Z.leb_le in E1. apply Z.leb_gt in E2.
  assert (Hx : x = 1000 + n) by (unfold x, u32 in *; dlia).
  assert (Hq : q <= 500) by (unfold q; dlia). assert (Hd : 1 <= 500000 / (500000 - x) <= 500000).
  { split; [apply Z.div_le_lower_bound; lia|apply Z.div_le_upper_bound; nia]. }
  set (d := 500000 / (500000 - x)) in *. clearbody d q. assert (0 <= q * f2 <= 500 * f2) by (split; [apply Z.mul_nonneg_nonneg|apply Z.mul_le_mono_nonneg_r]; lia).
  set (m := f2 + q * f2) in *. assert (Hm : f2 <= m <= 501 * f2) by lia. clearbody m. assert (m * 1 <= m * d <= m * 500000) by (split; apply Z.mul_le_mono_nonneg_l; lia).
  rewrite s64_small by lia. lia.
Qed.

(** ** Properties *)

Section MempoolProperties.
Context {V : Type} {CV : CoinsView V} {CS : CoinsViewSpec V} {B : OpenSSLBN} {K : Crypto} {E : CacheEnv}.

(** what is decided, and that the chain is only read *)
Lemma accept_inv p tx fCheckInputs fLimitFree st pool (tip : CCoinsViewCache V) cache r :
  accept p tx fCheckInputs fLimitFree st pool tip cache = Some r ->
  same_view tip (a_tip r) /\ if a_ok r then
    CheckTransaction tx = Valid /\ IsCoinBase tx = false /\ mapTx pool !! GetHash tx = None /\ in_conflict tx pool = false /\
    a_pool r = addUnchecked (GetHash tx) tx pool /\ a_state r = st /\
    (fCheckInputs = true -> exists outs, Forall2 (pool_input tip pool) (vin tx) outs /\
       Z.max 0 (GetMinFee (pp_nMinTxFee p) (pp_nMinRelayTxFee p) tx 1 false GMF_BLOCK) <= value_of outs - value_of (vout tx) /\
       (fLimitFree = true -> GetMinFee (pp_nMinTxFee p) (pp_nMinRelayTxFee p) tx 1000 false GMF_RELAY <= value_of outs - value_of (vout tx)))
  else a_pool r = pool.
Proof.
  intros H.
  unfold accept in H. destruct (CheckTransaction tx) eqn:Ev; [|destruct (state_DoS _ _ _ _); by simplify_eq].
  destruct (IsCoinBase tx) eqn:Ecb; [destruct (state_DoS _ _ _ _); by simplify_eq|]. case_if_in H; [by simplify_eq|]. case_if_in H; [by simplify_eq|].
  destruct (exists_tx pool (GetHash tx)) eqn:Eex; [by simplify_eq|]. destruct (in_conflict tx pool) eqn:Ein; [by simplify_eq|].
  assert (Hnew : mapTx pool !! GetHash tx = None).
  { unfold exists_tx in Eex. apply bool_decide_eq_false in Eex. by apply eq_None_not_Some. }
  destruct fCheckInputs; cbn [negb] in H; [|injection H as <-; by split_and!].
  set (v0 := new_cache {| mp_base := tip; mempool := pool |}) in *.
  pose proof (HaveCoins_spec v0 (GetHash tx)) as S1. pose proof (HaveCoins_reads kept_pool v0 (GetHash tx)) as R1.
  destruct (HaveCoins v0 (GetHash tx)) as [have v1]. destruct S1 as [_ S1]. specialize (R1 _ _ eq_refl).
  assert (Htip : forall w, reads kept_pool v0 w -> same_view tip (mp_base (base w))) by (intros w [_ Hw]; exact Hw).
  destruct have; [injection H as <-; split; [by apply Htip|done]|].
  pose proof (missing_inputs_spec (vin tx) v1) as S2. destruct (missing_inputs (vin tx) v1) as [missing v2]. destruct S2 as [R2 S2].
  assert (R02 : reads kept_pool v0 v2) by by etrans. destruct missing; [injection H as <-; split; [by apply Htip|done]|].
  destruct (HaveInputs_spec tx v2) as (b & v3 & Hhi & S3 & _). rewrite Hhi in H. apply (HaveInputs_reads kept_pool) in Hhi as R3.
  assert (R03 : reads kept_pool v0 v3) by by etrans. destruct b; cbn [negb] in H; [|destruct (state_Invalid _ _); injection H as <-; split; [by apply Htip|done]].
  pose proof (GetBestBlock_spec v3) as S4. pose proof (GetBestBlock_reads kept_pool v3) as R4. destruct (GetBestBlock v3) as [t v4]. destruct S4 as [_ S4]. specialize (R4 _ _ eq_refl).
  assert (R04 : reads kept_pool v0 v4) by by etrans. assert (S04 : same_view v0 v4) by by rewrite S1, S2, S3.
  destruct (accept_inputs p tx fLimitFree (SetBackend tt v4) cache) as [[a c]|] eqn:Ea; [|done].
  destruct a as [|[| |level]]; [injection H as <-; split; [by apply Htip|done]| |destruct (state_Invalid _ _); injection H as <-; split; [by apply Htip|done]|
    destruct (state_DoS _ _ _ _); injection H as <-; split; [by apply Htip|done]].
  destruct (accept_inputs_amounts p tx fLimitFree _ _ _ Ecb Ea) as (outs & Hf & Hfee & Hrelay). injection H as <-. cbn [a_ok a_tip a_pool a_state].
  split; [by apply Htip|]. split_and!; try done. intros _. exists outs. split_and!; [|done|done].
  eapply Forall2_impl; [exact Hf|]. intros i o (x & Hx & Ho). unfold pool_input. fold v0. apply SetBackend_cached in Hx.
  destruct S04 as [Sm _]. rewrite Sm in Hx. rewrite Hx. cbn. by split.
Qed.

(** C18: Removing a transaction from the pool ends and is exact: in a pool whose transactions can be ranked (each after
    the ones it spends from) the recursion stops within the fuel, follows no dangling pointer, and takes out exactly the
    transaction and what depends on it through spent outputs, nothing else; the index of spent outputs stays exact. *)
Theorem CTxMemPool_remove_exact r tx pool (Hok : pool_ok pool) (Hk : known pool tx) (Hr : ranked r pool) :
  exists q, remove (pool_fuel pool) true tx pool = Some q /\ pool_ok q /\
    (forall h t, mapTx q !! h = Some t <-> mapTx pool !! h = Some t /\ ~ doomed pool tx h) /\
    (forall o ip, mapNextTx q !! o = Some ip <-> mapNextTx pool !! o = Some ip /\ ~ doomed pool tx (ptx ip)).
Proof.
  destruct (remove_total r (pool_fuel pool) tx pool Hok Hk Hr (above_pool r pool _)) as [q Hq]. exists q. split; [done|].
  destruct (remove_spec _ _ _ _ Hok Hk Hq) as (Hokq & Hs & Hgone & Hd). split; [done|].
  assert (Htx : forall h t, mapTx q !! h = Some t <-> mapTx pool !! h = Some t /\ ~ doomed pool tx h).
  { intros h t. split.
    - intros Ht. split; [by eapply lookup_weaken|]. intros Hx. by rewrite Hgone in Ht.
    - intros [Ht Hn]. destruct (mapTx q !! h) as [t'|] eqn:Eq; [pose proof (lookup_weaken _ _ _ _ Eq Hs); congruence|].
      exfalso. apply Hn, Hd; [by eexists|done]. }
  split; [done|]. intros o ip. rewrite (po_next _ Hokq), (po_next _ Hok). split.
  - intros (t & i & Ht & Hx). apply Htx in Ht as [Ht Hn]. split; [by exists t, i|done].
  - intros [(t & i & Ht & Hx) Hn]. exists t, i. split; [by apply Htx|done].
Qed.

(** C19: The pool never holds a double spend: whatever [accept] decides, the index of spent outputs stays exact, so no
    two transactions of the pool spend the same output, and the coins of the chain are as before; a refusal leaves the pool
    alone, and a transaction that is added is valid, is no coinbase, was not there, spends nothing the pool spends, and,
    when inputs are checked, spends outputs of the chain or of the pool worth at least its outputs and the fees. *)
Theorem CTxMemPool_accept_sound p tx fCheckInputs fLimitFree st pool (tip : CCoinsViewCache V) cache r
    (H : accept p tx fCheckInputs fLimitFree st pool tip cache = Some r) (Hok : pool_ok pool) :
  pool_ok (a_pool r) /\ same_view tip (a_tip r) /\
  (forall h1 h2 t1 t2 i1 i2, mapTx (a_pool r) !! h1 = Some t1 -> mapTx (a_pool r) !! h2 = Some t2 -> i1 ∈ vin t1 -> i2 ∈ vin t2 ->
     prevout i1 = prevout i2 -> h1 = h2) /\
  if a_ok r then
    CheckTransaction tx = Valid /\ IsCoinBase tx = false /\ mapTx pool !! GetHash tx = None /\
    mapTx (a_pool r) = <[GetHash tx := tx]> (mapTx pool) /\ a_state r = st /\
    (fCheckInputs = true -> exists outs, Forall2 (pool_input tip pool) (vin tx) outs /\
       Z.max 0 (GetMinFee (pp_nMinTxFee p) (pp_nMinRelayTxFee p) tx 1 false GMF_BLOCK) <= value_of outs - value_of (vout tx) /\
       (fLimitFree = true -> GetMinFee (pp_nMinTxFee p) (pp_nMinRelayTxFee p) tx 1000 false GMF_RELAY <= value_of outs - value_of (vout tx)))
  else a_pool r = pool.
Proof.
  destruct (accept_inv _ _ _ _ _ _ _ _ _ H) as [Ht Hmain]. assert (Hok' : pool_ok (a_pool r)).
    { destruct (a_ok r); [|by rewrite Hmain]. destruct Hmain as (Hv & _ & Hn & Hc & -> & _). apply addUnchecked_ok; [done|done| |done].
      by apply CheckTransaction_rules in Hv as (_ & _ & _ & _ & _ & Hnd & _). }
    split_and!; [done|done| |].
    - intros h1 h2 t1 t2 i1 i2. by apply no_double_spend.
    - destruct (a_ok r); [|done]. destruct Hmain as (H1 & H2 & H3 & _ & H5 & H6 & H7). rewrite H5. by split_and!.
Qed.
End MempoolProperties.

(** ** Witnesses *)

(** a payment, a transaction that spends it, and one that spends that *)
Definition child_tx (parent : CTransaction) : CTransaction :=
  {| nVersion := 1; vin := [{| prevout := {| o_hash := GetHash (K := ToyCrypto) parent; o_n := 0 |}; scriptSig := []; nSequence := uint_max |}];
     vout := [sample_out (8 * COIN)]; nLockTime := 0 |}.
Definition sample_pool_params : pool_params :=
  {| pp_fTestNet := true; pp_nMinTxFee := MIN_TX_FEE; pp_nMinRelayTxFee := MIN_TX_FEE; pp_nBestHeight := 9; pp_nAdjustedTime := 1400000100; pp_rate_limited := false |}.
Definition sample_pool : CTxMemPool := addUnchecked (GetHash (K := ToyCrypto) spend_tx) spend_tx empty_pool.

Lemma sample_pool_ok : pool_ok (K := ToyCrypto) sample_pool.
Proof.
  apply (addUnchecked_ok (K := ToyCrypto) spend_tx empty_pool); [apply empty_pool_ok|reflexivity| |reflexivity].
  apply (bool_decide_unpack _). vm_compute. exact I.
Qed.

Definition sample_child : CTransaction := child_tx spend_tx.
Definition sample_chain : CTxMemPool := addUnchecked (GetHash (K := ToyCrypto) sample_child) sample_child sample_pool.
(** the spent output of the chain, the payment, its child *)
Definition sample_rank (h : Z) : nat := if h =? 5 then 0 else if h =? GetHash (K := ToyCrypto) spend_tx then 1 else 2.

Lemma sample_chain_ok : pool_ok (K := ToyCrypto) sample_chain /\ ranked sample_rank sample_chain.
Proof.
  split.
  - apply (addUnchecked_ok (K := ToyCrypto) sample_child sample_pool); [apply sample_pool_ok|vm_compute; reflexivity| |vm_compute; reflexivity].
    apply (bool_decide_unpack _). vm_compute. exact I.
  - intros h tx Ht. cbn [sample_chain sample_pool addUnchecked mapTx empty_pool] in Ht.
    apply lookup_insert_Some in Ht as [[<- <-]|[_ Ht]]; [|apply lookup_insert_Some in Ht as [[<- <-]|[_ Ht]]; [|by rewrite lookup_empty in Ht]].
    + intros i Hi. apply list_elem_of_singleton in Hi as ->. vm_compute. lia.
    + intros i Hi. apply list_elem_of_singleton in Hi as ->. vm_compute. lia.
Qed.

Lemma CTxMemPool_accept_sound_witness : exists r,
  accept (B := ZBN) (K := ToyCrypto) sample_pool_params sample_child true true new_state sample_pool sample_view SigCache.empty_cache = Some r /\
  a_ok r = true /\ pool_ok (K := ToyCrypto) (a_pool r).
Proof.
  assert (Hc : match accept (B := ZBN) (K := ToyCrypto) sample_pool_params sample_child true true new_state sample_pool sample_view SigCache.empty_cache with
               | Some r => a_ok r | None => false end = true) by (vm_compute; reflexivity).
  destruct (accept _ _ _ _ _ _ _ _) as [r|] eqn:Er; [|discriminate Hc]. exists r.
  pose proof (CTxMemPool_accept_sound (V := memory_view) (B := ZBN) (K := ToyCrypto) _ _ _ _ _ _ _ _ r Er sample_pool_ok) as [H _].
  exact (conj eq_refl (conj Hc H)).
Defined.

Lemma CTxMemPool_remove_exact_witness : exists q, remove (K := ToyCrypto) (pool_fuel sample_chain) true spend_tx sample_chain = Some q /\ mapTx q = ∅.
Proof.
  destruct (CTxMemPool_remove_exact (K := ToyCrypto) sample_rank spend_tx sample_chain (proj1 sample_chain_ok)) as (q & H1 & _).
  - intros t Ht. assert (Hs : mapTx sample_chain !! GetHash (K := ToyCrypto) spend_tx = Some spend_tx) by (vm_compute; reflexivity). congruence.
  - exact (proj2 sample_chain_ok).
  - exists q. split; [exact H1|]. assert (Hq : mapTx <$> remove (K := ToyCrypto) (pool_fuel sample_chain) true spend_tx sample_chain = Some ∅) by (vm_compute; reflexivity).
    rewrite H1 in Hq. injection Hq as Hq. exact Hq.
Defined.
