(* ===== verification/Wallet.v ===== *)
(** * The transactions of the wallet (wallet.h, wallet.cpp, main.cpp)

    [CMerkleTx] and [CWalletTx], the transactions a wallet keeps, which of their outputs are spent, what they credit and debit, with the caches of these
    amounts, and the coins that can be spent.  A pointer into [mapWallet] is the hash of the transaction.  What the best chain says is a [chain_view].
    Left out: the writing of the wallet file, which is taken to succeed, the listeners, and the fields [mapValue] and [vOrderForm].  The properties: an
    output that is spent stays so, whatever the wallet learns; every own output that a known transaction spends is marked; and the balance is the
    sum of the coins that [AvailableCoins] finds, though it is added up from caches. *)

From stdpp Require Import gmap sorting.
From S2P Require Import Prelude OpenSSL BigNum Target Serialize Crypto Script Transaction ScriptEval ScriptStd KeyStore KeyPool Coins View Merkle Block Chain Mempool.
Local Open Scope Z_scope.

#[export] Instance CTxDestination_countable : Countable CTxDestination.
Proof.
  refine (inj_countable' (fun d => match d with CNoDestination => (0, 0) | CKeyID id => (1, id) | CScriptID id => (2, id) end)
    (fun p => if p.1 =? 1 then CKeyID p.2 else if p.1 =? 2 then CScriptID p.2 else CNoDestination) _). by intros [].
Defined.

(** ** Data *)

Record CMerkleTx := { m_tx : CTransaction; m_hashBlock : Z; m_vMerkleBranch : list Z; m_nIndex : Z; m_fMerkleVerified : bool }.
Definition merkle_of (tx : CTransaction) : CMerkleTx := {| m_tx := tx; m_hashBlock := 0; m_vMerkleBranch := []; m_nIndex := -1; m_fMerkleVerified := false |}.

(** an amount that was computed before, with its flag *)
Record amounts := { c_debit : option Z; c_credit : option Z; c_immature : option Z; c_available : option Z; c_change : option Z }.
Definition no_amounts : amounts := {| c_debit := None; c_credit := None; c_immature := None; c_available := None; c_change := None |}.

Record CWalletTx := {
  wt_merkle : CMerkleTx; vtxPrev : list CMerkleTx; fTimeReceivedIsTxTime : bool; nTimeReceived : Z; nTimeSmart : Z; fFromMe : bool; strFromAccount : bytes;
  vfSpent : list bool; nOrderPos : Z; wt_cache : amounts }.
Definition wallet_tx (m : CMerkleTx) : CWalletTx := {| wt_merkle := m; vtxPrev := []; fTimeReceivedIsTxTime := false; nTimeReceived := 0; nTimeSmart := 0; fFromMe := false; strFromAccount := [];
  vfSpent := []; nOrderPos := -1; wt_cache := no_amounts |}.
Definition wt_tx (w : CWalletTx) : CTransaction := m_tx (wt_merkle w).

Definition set_merkle (m : CMerkleTx) (w : CWalletTx) : CWalletTx := {| wt_merkle := m; vtxPrev := vtxPrev w; fTimeReceivedIsTxTime := fTimeReceivedIsTxTime w; nTimeReceived := nTimeReceived w;
  nTimeSmart := nTimeSmart w; fFromMe := fFromMe w; strFromAccount := strFromAccount w; vfSpent := vfSpent w; nOrderPos := nOrderPos w; wt_cache := wt_cache w |}.
Definition set_spent (f : list bool) (c : amounts) (w : CWalletTx) : CWalletTx := {| wt_merkle := wt_merkle w; vtxPrev := vtxPrev w; fTimeReceivedIsTxTime := fTimeReceivedIsTxTime w; nTimeReceived := nTimeReceived w;
  nTimeSmart := nTimeSmart w; fFromMe := fFromMe w; strFromAccount := strFromAccount w; vfSpent := f; nOrderPos := nOrderPos w; wt_cache := c |}.
Definition set_cache (c : amounts) (w : CWalletTx) : CWalletTx := set_spent (vfSpent w) c w.
Definition set_times (received smart pos : Z) (w : CWalletTx) : CWalletTx := {| wt_merkle := wt_merkle w; vtxPrev := vtxPrev w; fTimeReceivedIsTxTime := fTimeReceivedIsTxTime w; nTimeReceived := received;
  nTimeSmart := smart; fFromMe := fFromMe w; strFromAccount := strFromAccount w; vfSpent := vfSpent w; nOrderPos := pos; wt_cache := wt_cache w |}.
Definition set_fFromMe (b : bool) (w : CWalletTx) : CWalletTx := {| wt_merkle := wt_merkle w; vtxPrev := vtxPrev w; fTimeReceivedIsTxTime := fTimeReceivedIsTxTime w; nTimeReceived := nTimeReceived w;
  nTimeSmart := nTimeSmart w; fFromMe := b; strFromAccount := strFromAccount w; vfSpent := vfSpent w; nOrderPos := nOrderPos w; wt_cache := wt_cache w |}.
Definition set_received_is_time (w : CWalletTx) : CWalletTx := {| wt_merkle := wt_merkle w; vtxPrev := vtxPrev w; fTimeReceivedIsTxTime := true; nTimeReceived := nTimeReceived w;
  nTimeSmart := nTimeSmart w; fFromMe := fFromMe w; strFromAccount := strFromAccount w; vfSpent := vfSpent w; nOrderPos := nOrderPos w; wt_cache := wt_cache w |}.
Definition with_debit (v : Z) (c : amounts) : amounts := {| c_debit := Some v; c_credit := c_credit c; c_immature := c_immature c; c_available := c_available c; c_change := c_change c |}.
Definition with_credit (v : Z) (c : amounts) : amounts := {| c_debit := c_debit c; c_credit := Some v; c_immature := c_immature c; c_available := c_available c; c_change := c_change c |}.
Definition with_immature (v : Z) (c : amounts) : amounts := {| c_debit := c_debit c; c_credit := c_credit c; c_immature := Some v; c_available := c_available c; c_change := c_change c |}.
Definition with_available (v : option Z) (c : amounts) : amounts := {| c_debit := c_debit c; c_credit := c_credit c; c_immature := c_immature c; c_available := v; c_change := c_change c |}.

(** A [CWallet] *)
Record CWallet := { wl_pool : key_pool; mapWallet : gmap Z CWalletTx; setLockedCoins : gset COutPoint; mapAddressBook : gmap CTxDestination bytes; nOrderPosNext : Z; mapRequestCount : gmap Z Z }.
Definition with_wallet (m : gmap Z CWalletTx) (wl : CWallet) : CWallet :=
  {| wl_pool := wl_pool wl; mapWallet := m; setLockedCoins := setLockedCoins wl; mapAddressBook := mapAddressBook wl; nOrderPosNext := nOrderPosNext wl; mapRequestCount := mapRequestCount wl |}.
Definition put_tx (h : Z) (w : CWalletTx) (wl : CWallet) : CWallet := with_wallet (<[h := w]> (mapWallet wl)) wl.

(** the block index, [pindexBest], [nBestHeight], the adjusted time, and for a transaction that has coins in [pcoinsTip] the block at their height: [Some None]
    when it cannot be read *)
Record chain_view := { cv_index : gmap Z CBlockIndex; cv_best : option Z; cv_nBestHeight : Z; cv_time : Z; cv_coins_block : Z -> option (option CBlock) }.
Definition pindexBest_nHeight (cv : chain_view) : Z := match (let? h := cv_best cv in cv_index cv !! h) with Some b => nHeight b | None => 0 end.

(** ** In the chain (main.cpp) *)

Section Depth.
Context {B : OpenSSLBN} {K : Crypto}.
Implicit Types (cv : chain_view) (m : CMerkleTx).

(** how deep the block is that the transaction claims, 0 if it is not in the best chain *)
Definition claimed_depth cv (hashBlock : Z) : Z :=
  match cv_index cv !! hashBlock with
  | None => 0
  | Some b => if negb (IsInMainChain (cv_index cv) (cv_best cv) hashBlock) then 0 else s32 (pindexBest_nHeight cv - nHeight b + 1)
  end.
(** [pblock]: the block given; [None]: the one that the coins of the transaction name *)
Definition SetMerkleBranch cv (pblock : option CBlock) m : Z * CMerkleTx :=
  match (match pblock with Some b => Some (Some b) | None => cv_coins_block cv (GetHash (m_tx m)) end) with
  | Some None => (0, m)
  | None => (claimed_depth cv (m_hashBlock m), m)
  | Some (Some b) =>
    let hashBlock := block_GetHash b in
    match list_find (fun t => t = m_tx m) (vtx b) with
    | None => (0, {| m_tx := m_tx m; m_hashBlock := hashBlock; m_vMerkleBranch := []; m_nIndex := -1; m_fMerkleVerified := m_fMerkleVerified m |})
    | Some (i, _) => (claimed_depth cv hashBlock,
        {| m_tx := m_tx m; m_hashBlock := hashBlock; m_vMerkleBranch := GetMerkleBranch (txids b) i; m_nIndex := Z.of_nat i; m_fMerkleVerified := m_fMerkleVerified m |})
    end
  end.
(** the depth; [fMerkleVerified], a cache of the last test, is set by the way *)
Definition depth_verified cv m : Z * CMerkleTx :=
  if (m_hashBlock m =? 0) || (m_nIndex m =? -1) then (0, m)
  else
    match cv_index cv !! m_hashBlock m with
    | None => (0, m)
    | Some b =>
      if negb (IsInMainChain (cv_index cv) (cv_best cv) (m_hashBlock m)) then (0, m)
      else if negb (m_fMerkleVerified m) && negb (CheckMerkleBranch (GetHash (m_tx m)) (m_vMerkleBranch m) (m_nIndex m) =? i_hashMerkleRoot b) then (0, m)
      else (s32 (pindexBest_nHeight cv - nHeight b + 1),
        {| m_tx := m_tx m; m_hashBlock := m_hashBlock m; m_vMerkleBranch := m_vMerkleBranch m; m_nIndex := m_nIndex m; m_fMerkleVerified := true |})
    end.
Definition GetDepthInMainChain cv m : Z := (depth_verified cv m).1.
Definition merkle_IsInMainChain cv m : bool := 0 <? GetDepthInMainChain cv m.
Definition GetBlocksToMaturity cv m : Z := if negb (IsCoinBase (m_tx m)) then 0 else Z.max 0 (s32 (COINBASE_MATURITY + 200 - GetDepthInMainChain cv m)).
(** [IsFinal] with its default arguments *)
Definition merkle_IsFinal cv m : bool := IsFinal (m_tx m) 0 0 (cv_nBestHeight cv) (cv_time cv).
End Depth.

(** ** Spent outputs *)

(** [None]: an exception *)
Definition IsSpent (w : CWalletTx) (nOut : nat) : option bool :=
  if bool_decide (length (vout (wt_tx w)) <= nOut)%nat then None else Some (nth nOut (vfSpent w) false).
Definition MarkSpent (w : CWalletTx) (nOut : nat) : option CWalletTx :=
  if bool_decide (length (vout (wt_tx w)) <= nOut)%nat then None
  else
    let f := resize (length (vout (wt_tx w))) false (vfSpent w) in
    Some (if nth nOut f false then set_spent f (wt_cache w) w else set_spent (<[nOut := true]> f) (with_available None (wt_cache w)) w).
Fixpoint merge_spent (vfNewSpent vfSpent : list bool) : bool * list bool :=
  match vfNewSpent, vfSpent with
  | n :: r, o :: s => let '(u, l) := merge_spent r s in ((n && negb o) || u, (n || o) :: l)
  | _, s => (false, s)
  end.
Definition UpdateSpent (vfNewSpent : list bool) (w : CWalletTx) : bool * CWalletTx :=
  let '(u, f) := merge_spent vfNewSpent (vfSpent w) in (u, set_spent f (if u then with_available None (wt_cache w) else wt_cache w) w).
(** [fImmatureCreditCached] stays *)
Definition MarkDirty (w : CWalletTx) : CWalletTx := set_cache {| c_debit := None; c_credit := None; c_immature := c_immature (wt_cache w); c_available := None; c_change := None |} w.
Definition wallet_MarkDirty (wl : CWallet) : CWallet := with_wallet (MarkDirty <$> mapWallet wl) wl.

(** ** Amounts *)

Section Amounts.
Context {B : OpenSSLBN} {K : Crypto} {C : Cipher}.
Implicit Types (cv : chain_view) (wl : CWallet) (o : CTxOut) (tx : CTransaction).

Definition wl_keystore wl : ScriptStd.CKeyStore := as_keystore (pool_keys (wl_pool wl)).
(** [IsMine] follows at most one script of the store after the other *)
Definition mine wl o : bool := default false (ScriptStd.IsMine (2 + size (mapScripts (pool_keys (wl_pool wl)))) (wl_keystore wl) (scriptPubKey o)).
(** the output of the wallet that an input spends *)
Definition prev_out wl (txin : CTxIn) : option CTxOut := let? prev := mapWallet wl !! o_hash (prevout txin) in vout (wt_tx prev) !! Z.to_nat (o_n (prevout txin)).
Definition IsMine_in wl (txin : CTxIn) : bool := match prev_out wl txin with Some o => mine wl o | None => false end.
Definition GetDebit_in wl (txin : CTxIn) : Z := match prev_out wl txin with Some o => if mine wl o then nValue o else 0 | None => 0 end.
Definition IsChange wl o : bool :=
  match ExtractDestination (scriptPubKey o) with
  | Some address => IsMine_dest (wl_keystore wl) address && bool_decide (mapAddressBook wl !! address = None)
  | None => false
  end.
Definition GetCredit_out wl o : option Z := if negb (MoneyRange (nValue o)) then None else Some (if mine wl o then nValue o else 0).
Definition GetChange_out wl o : option Z := if negb (MoneyRange (nValue o)) then None else Some (if IsChange wl o then nValue o else 0).
(** a sum that throws when it leaves the range of money *)
Fixpoint add_amounts {A} (f : A -> option Z) (l : list A) (n : Z) : option Z :=
  match l with
  | [] => Some n
  | a :: r => let? v := f a in let n := s64 (n + v) in if negb (MoneyRange n) then None else add_amounts f r n
  end.
Definition GetDebit wl tx : option Z := add_amounts (fun i => Some (GetDebit_in wl i)) (vin tx) 0.
Definition GetCredit wl tx : option Z := add_amounts (GetCredit_out wl) (vout tx) 0.
Definition GetChange wl tx : option Z := add_amounts (GetChange_out wl) (vout tx) 0.
Definition wallet_IsMine wl tx : bool := existsb (mine wl) (vout tx).
Definition wallet_IsFromMe wl tx : option bool := let? d := GetDebit wl tx in Some (0 <? d).

Definition wtx_GetDebit wl (w : CWalletTx) : option (Z * CWalletTx) :=
  if bool_decide (vin (wt_tx w) = []) then Some (0, w)
  else match c_debit (wt_cache w) with Some v => Some (v, w) | None => let? v := GetDebit wl (wt_tx w) in Some (v, set_cache (with_debit v (wt_cache w)) w) end.
Definition immature cv (w : CWalletTx) : bool := IsCoinBase (wt_tx w) && (0 <? GetBlocksToMaturity cv (wt_merkle w)).
Definition wtx_GetCredit cv wl (fUseCache : bool) w : option (Z * CWalletTx) :=
  if immature cv w then Some (0, w)
  else match (if fUseCache then c_credit (wt_cache w) else None) with Some v => Some (v, w) | None => let? v := GetCredit wl (wt_tx w) in Some (v, set_cache (with_credit v (wt_cache w)) w) end.
Definition GetImmatureCredit cv wl (fUseCache : bool) w : option (Z * CWalletTx) :=
  if immature cv w && merkle_IsInMainChain cv (wt_merkle w)
  then match (if fUseCache then c_immature (wt_cache w) else None) with Some v => Some (v, w) | None => let? v := GetCredit wl (wt_tx w) in Some (v, set_cache (with_immature v (wt_cache w)) w) end
  else Some (0, w).
(** the outputs with their spent flags *)
Definition outputs (w : CWalletTx) : list (nat * CTxOut) := imap pair (vout (wt_tx w)).
Definition unspent (w : CWalletTx) (i : nat) : bool := negb (nth i (vfSpent w) false).
Definition unspent_credit wl (w : CWalletTx) : option Z := add_amounts (fun x => GetCredit_out wl x.2) (List.filter (fun x => unspent w x.1) (outputs w)) 0.
Definition GetAvailableCredit cv wl (fUseCache : bool) w : option (Z * CWalletTx) :=
  if immature cv w then Some (0, w)
  else match (if fUseCache then c_available (wt_cache w) else None) with Some v => Some (v, w) | None => let? v := unspent_credit wl w in Some (v, set_cache (with_available (Some v) (wt_cache w)) w) end.
Definition wtx_IsFromMe wl (w : CWalletTx) : option (bool * CWalletTx) := let? (d, w) := wtx_GetDebit wl w in Some (0 <? d, w).

(** the work queue of [IsConfirmed]: one turn of the loop for a unit of fuel; [None]: an exception, or out of fuel *)
Fixpoint all_confirmed (fuel : nat) cv wl (mapPrev : gmap Z CMerkleTx) (queue : list CMerkleTx) : option bool :=
  match queue with
  | [] => Some true
  | p :: queue =>
    match fuel with
    | O => None
    | S fuel =>
      if negb (merkle_IsFinal cv p) then Some false
      else if 1 <=? GetDepthInMainChain cv p then all_confirmed fuel cv wl mapPrev queue
      else
        let? me := wallet_IsFromMe wl (m_tx p) in
        if negb me then Some false
        else
          match mapM (fun i => mapPrev !! o_hash (prevout i)) (vin (m_tx p)) with
          | None => Some false
          | Some l => all_confirmed fuel cv wl mapPrev (queue ++ l)
          end
    end
  end.
Definition IsConfirmed (fuel : nat) cv wl w : option (bool * CWalletTx) :=
  if negb (merkle_IsFinal cv (wt_merkle w)) then Some (false, w)
  else if 1 <=? GetDepthInMainChain cv (wt_merkle w) then Some (true, w)
  else
    let? (me, w) := wtx_IsFromMe wl w in
    if negb me then Some (false, w)
    else
      let mapPrev := foldl (fun m p => <[GetHash (m_tx p) := p]> m) ∅ (vtxPrev w) in
      let? b := all_confirmed fuel cv wl mapPrev [wt_merkle w] in Some (b, w).

(** *** Sums over the wallet, in the order of the hashes *)
Definition wallet_hashes wl : list Z := merge_sort Z.le (map fst (map_to_list (mapWallet wl))).
Fixpoint sum_wallet (f : CWallet -> CWalletTx -> option (Z * CWalletTx)) (hs : list Z) wl (nTotal : Z) : option (Z * CWallet) :=
  match hs with
  | [] => Some (nTotal, wl)
  | h :: r => let? w := mapWallet wl !! h in let? (v, w) := f wl w in sum_wallet f r (put_tx h w wl) (s64 (nTotal + v))
  end.
Definition GetBalance (fuel : nat) cv wl : option (Z * CWallet) :=
  sum_wallet (fun wl w => let? (ok, w) := IsConfirmed fuel cv wl w in if ok then GetAvailableCredit cv wl true w else Some (0, w)) (wallet_hashes wl) wl 0.
Definition GetUnconfirmedBalance (fuel : nat) cv wl : option (Z * CWallet) :=
  sum_wallet (fun wl w =>
    if negb (merkle_IsFinal cv (wt_merkle w)) then GetAvailableCredit cv wl true w
    else let? (ok, w) := IsConfirmed fuel cv wl w in if ok then Some (0, w) else GetAvailableCredit cv wl true w) (wallet_hashes wl) wl 0.
Definition GetImmatureBalance cv wl : option (Z * CWallet) := sum_wallet (fun wl w => GetImmatureCredit cv wl true w) (wallet_hashes wl) wl 0.
End Amounts.

(** ** Coins that can be spent *)

Section Coins.
Context {B : OpenSSLBN} {K : Crypto} {C : Cipher}.

Definition IsLockedCoin (wl : CWallet) (hash : Z) (n : nat) : bool := bool_decide ({| o_hash := hash; o_n := Z.of_nat n |} ∈ setLockedCoins wl).
Definition with_locked (s : gset COutPoint) (wl : CWallet) : CWallet :=
  {| wl_pool := wl_pool wl; mapWallet := mapWallet wl; setLockedCoins := s; mapAddressBook := mapAddressBook wl; nOrderPosNext := nOrderPosNext wl; mapRequestCount := mapRequestCount wl |}.
Definition LockCoin (output : COutPoint) (wl : CWallet) : CWallet := with_locked ({[output]} ∪ setLockedCoins wl) wl.
Definition UnlockCoin (output : COutPoint) (wl : CWallet) : CWallet := with_locked (setLockedCoins wl ∖ {[output]}) wl.
Definition UnlockAllCoins (wl : CWallet) : CWallet := with_locked ∅ wl.

(** an output of a transaction of the wallet; [co_tx]: its hash *)
Record COutput := { co_tx : Z; co_i : nat; co_nDepth : Z }.
Definition spendable (wl : CWallet) (h : Z) (w : CWalletTx) (x : nat * CTxOut) : bool :=
  unspent w x.1 && mine wl x.2 && negb (IsLockedCoin wl h x.1) && (0 <? nValue x.2).
Definition coins_of_tx (cv : chain_view) (wl : CWallet) (h : Z) (w : CWalletTx) : list COutput :=
  map (fun x => {| co_tx := h; co_i := x.1; co_nDepth := GetDepthInMainChain cv (wt_merkle w) |}) (List.filter (spendable wl h w) (outputs w)).
(** the coins of one transaction; the wallet changes in its caches *)
Definition available_in (fuel : nat) (cv : chain_view) (fOnlyConfirmed : bool) (h : Z) (wl : CWallet) (w : CWalletTx) : option (list COutput * CWalletTx) :=
  if negb (merkle_IsFinal cv (wt_merkle w)) then Some ([], w)
  else
    let? (ok, w) := if fOnlyConfirmed then IsConfirmed fuel cv wl w else Some (true, w) in
    if negb ok then Some ([], w)
    else if immature cv w then Some ([], w)
    else Some (coins_of_tx cv wl h w, w).
Fixpoint available_coins (fuel : nat) (cv : chain_view) (fOnlyConfirmed : bool) (hs : list Z) (wl : CWallet) : option (list COutput * CWallet) :=
  match hs with
  | [] => Some ([], wl)
  | h :: r =>
    let? w := mapWallet wl !! h in
    let? (l, w) := available_in fuel cv fOnlyConfirmed h wl w in
    let? (rest, wl) := available_coins fuel cv fOnlyConfirmed r (put_tx h w wl) in
    Some (l ++ rest, wl)
  end.
Definition AvailableCoins (fuel : nat) (cv : chain_view) (fOnlyConfirmed : bool) (wl : CWallet) : option (list COutput * CWallet) :=
  available_coins fuel cv fOnlyConfirmed (wallet_hashes wl) wl.

(** ** What a transaction sends and receives *)

Definition GetTxTime (w : CWalletTx) : Z := if nTimeSmart w =? 0 then nTimeReceived w else nTimeSmart w.
Record tx_amounts := { listReceived : list (CTxDestination * Z); listSent : list (CTxDestination * Z); a_nFee : Z; strSentAccount : bytes }.
Definition GetAmounts (wl : CWallet) (w : CWalletTx) : option (tx_amounts * CWalletTx) :=
  let? (nDebit, w) := wtx_GetDebit wl w in
  let? nFee := if 0 <? nDebit then let? nValueOut := GetValueOut (wt_tx w) in Some (s64 (nDebit - nValueOut)) else Some 0 in
  let address o := default CNoDestination (ExtractDestination (scriptPubKey o)) in
  let shown := List.filter (fun o => negb ((0 <? nDebit) && IsChange wl o)) (vout (wt_tx w)) in
  Some ({| listReceived := map (fun o => (address o, nValue o)) (List.filter (mine wl) shown);
           listSent := if 0 <? nDebit then map (fun o => (address o, nValue o)) shown else []; a_nFee := nFee; strSentAccount := strFromAccount w |}, w).
(** what the account [strAccount] received and sent, and its fee *)
Definition GetAccountAmounts (wl : CWallet) (strAccount : bytes) (w : CWalletTx) : option (Z * Z * Z * CWalletTx) :=
  let? (a, w) := GetAmounts wl w in
  let '(nSent, nFee) := if bool_decide (strAccount = strSentAccount a) then (foldl (fun n s => s64 (n + s.2)) 0 (listSent a), a_nFee a) else (0, 0) in
  let counted r := match mapAddressBook wl !! r.1 with Some name => bool_decide (name = strAccount) | None => bool_decide (strAccount = []) end in
  let nReceived := foldl (fun n r => s64 (n + r.2)) 0 (List.filter counted (listReceived a)) in
  Some (nReceived, nSent, nFee, w).
(** -1: not tracked *)
Definition GetRequestCount (wl : CWallet) (w : CWalletTx) : Z :=
  let m := wt_merkle w in
  if IsCoinBase (m_tx m) then (if m_hashBlock m =? 0 then -1 else default (-1) (mapRequestCount wl !! m_hashBlock m))
  else
    match mapRequestCount wl !! GetHash (m_tx m) with
    | None => -1
    | Some n => if (n =? 0) && negb (m_hashBlock m =? 0) then default 1 (mapRequestCount wl !! m_hashBlock m) else n
    end.
Definition with_requests (r : gmap Z Z) (wl : CWallet) : CWallet :=
  {| wl_pool := wl_pool wl; mapWallet := mapWallet wl; setLockedCoins := setLockedCoins wl; mapAddressBook := mapAddressBook wl; nOrderPosNext := nOrderPosNext wl; mapRequestCount := r |}.
Definition Inventory (hash : Z) (wl : CWallet) : CWallet := with_requests (alter (fun n => n + 1) hash (mapRequestCount wl)) wl.

(** ** The transactions that support a new one *)

Definition COPY_DEPTH : Z := 3.
Definition in_hashes (tx : CTransaction) : list Z := map (fun i => o_hash (prevout i)) (vin tx).
Definition prev_map (l : list CMerkleTx) (m : gmap Z CMerkleTx) : gmap Z CMerkleTx := foldl (fun m p => <[GetHash (m_tx p) := p]> m) m l.
(** the work queue of [AddSupportingTransactions]: what it appends to [vtxPrev]; a turn for a unit of fuel *)
Fixpoint supporting (fuel : nat) (cv : chain_view) (wl : CWallet) (queue : list Z) (done : gset Z) (mapWalletPrev : gmap Z CMerkleTx) : option (list CMerkleTx) :=
  match queue with
  | [] => Some []
  | hash :: queue =>
    match fuel with
    | O => None
    | S fuel =>
      if bool_decide (hash ∈ done) then supporting fuel cv wl queue done mapWalletPrev
      else
        let done := {[hash]} ∪ done in
        let mapWalletPrev := match mapWallet wl !! hash with Some prev => prev_map (vtxPrev prev) mapWalletPrev | None => mapWalletPrev end in
        match (match mapWallet wl !! hash with Some prev => Some (wt_merkle prev) | None => mapWalletPrev !! hash end) with
        | None => supporting fuel cv wl queue done mapWalletPrev
        | Some tx =>
          let '(nDepth, tx) := SetMerkleBranch cv None tx in
          let? l := supporting fuel cv wl (queue ++ (if nDepth <? COPY_DEPTH then in_hashes (m_tx tx) else [])) done mapWalletPrev in
          Some (tx :: l)
        end
    end
  end.
Definition set_vtxPrev (l : list CMerkleTx) (w : CWalletTx) : CWalletTx := {| wt_merkle := wt_merkle w; vtxPrev := l; fTimeReceivedIsTxTime := fTimeReceivedIsTxTime w; nTimeReceived := nTimeReceived w;
  nTimeSmart := nTimeSmart w; fFromMe := fFromMe w; strFromAccount := strFromAccount w; vfSpent := vfSpent w; nOrderPos := nOrderPos w; wt_cache := wt_cache w |}.
Definition AddSupportingTransactions (fuel : nat) (cv : chain_view) (wl : CWallet) (w : CWalletTx) : option CWalletTx :=
  let '(nDepth, m) := SetMerkleBranch cv None (wt_merkle w) in
  let w := set_merkle m w in
  if nDepth <? COPY_DEPTH then let? l := supporting fuel cv wl (in_hashes (m_tx m)) ∅ ∅ in Some (set_vtxPrev (rev l) w) else Some (set_vtxPrev [] w).
End Coins.

(** ** The wallet learns of a transaction *)

Section Learn.
Context {B : OpenSSLBN} {K : Crypto} {C : Cipher}.
(** the random keys, the time, the target size of the key pool, and the accounting entries of the account with the empty name: position and time *)
Variables (draw : nat -> Z) (now nTarget : Z) (acentries : list (Z * Z)).
Implicit Types (cv : chain_view) (tx : CTransaction).

(** the own output an input spends is marked; the amount is computed for a message.  [None]: an exception *)
Definition update_input cv (txin : CTxIn) (wl : CWallet) : option CWallet :=
  let hash := o_hash (prevout txin) in
  match mapWallet wl !! hash with
  | None => Some wl
  | Some w =>
    let n := Z.to_nat (o_n (prevout txin)) in
    match vout (wt_tx w) !! n with
    | None => Some wl
    | Some o =>
      let? spent := IsSpent w n in
      if negb spent && mine wl o then
        let? (_, w) := wtx_GetCredit cv wl true w in
        let? w := MarkSpent w n in
        Some (put_tx hash w wl)
      else Some wl
    end
  end.
Fixpoint update_inputs cv (ins : list CTxIn) (wl : CWallet) : option CWallet :=
  match ins with [] => Some wl | txin :: r => let? wl := update_input cv txin wl in update_inputs cv r wl end.
Definition WalletUpdateSpent cv tx (wl : CWallet) : option CWallet := update_inputs cv (vin tx) wl.

Definition earlier (a b : Z * (Z * option Z)) : Prop := a.1 <= b.1.
#[local] Instance earlier_dec a b : Decision (earlier a b) := Z_le_dec a.1 b.1.
(** the activity log: position, time, and the hash when it is a transaction *)
Definition OrderedTxItems (wl : CWallet) : list (Z * (Z * option Z)) :=
  merge_sort earlier
    (omap (fun h => w ← mapWallet wl !! h; Some (nOrderPos w, (GetTxTime w, Some h))) (wallet_hashes wl) ++ map (fun e => (e.1, (e.2, None))) acentries).
(** the first time of the list that is tolerated, [latestEntry] and [latestNow] *)
Fixpoint latest_entry (l : list (Z * (Z * option Z))) (self latestTolerated latestNow : Z) : Z * Z :=
  match l with
  | [] => (0, latestNow)
  | (_, (nSmartTime, h)) :: r =>
    if bool_decide (h = Some self) then latest_entry r self latestTolerated latestNow
    else if nSmartTime <=? latestTolerated then (u32 nSmartTime, if latestNow <? nSmartTime then u32 nSmartTime else latestNow)
    else latest_entry r self latestTolerated latestNow
  end.
Definition smart_time cv (wl : CWallet) (hash hashBlock nTimeReceived : Z) : Z :=
  if hashBlock =? 0 then nTimeReceived
  else
    match cv_index cv !! hashBlock with
    | None => nTimeReceived
    | Some b =>
      let '(latestEntry, latestNow) := latest_entry (rev (OrderedTxItems wl)) hash (u32 (nTimeReceived + 300)) nTimeReceived in
      Z.max latestEntry (Z.min (i_nTime b) latestNow)
    end.
Definition with_order (n : Z) (wl : CWallet) : CWallet :=
  {| wl_pool := wl_pool wl; mapWallet := mapWallet wl; setLockedCoins := setLockedCoins wl; mapAddressBook := mapAddressBook wl; nOrderPosNext := n; mapRequestCount := mapRequestCount wl |}.
Definition IncOrderPosNext (wl : CWallet) : Z * CWallet := (nOrderPosNext wl, with_order (s64 (nOrderPosNext wl + 1)) wl).
(** a new transaction *)
Definition insert_tx cv (hash : Z) (wtxIn : CWalletTx) (wl : CWallet) : CWallet :=
  let wtx := MarkDirty wtxIn in
  let received := u32 (cv_time cv) in
  let '(pos, wl) := IncOrderPosNext wl in
  let wl := put_tx hash (set_times received received pos wtx) wl in
  put_tx hash (set_times received (smart_time cv wl hash (m_hashBlock (wt_merkle wtxIn)) received) pos wtx) wl.
(** what is new about a known one *)
Definition merge_tx (wtxIn wtx : CWalletTx) : CWalletTx :=
  let a := wt_merkle wtxIn in
  let m := wt_merkle wtx in
  let m := if negb (m_hashBlock a =? 0) then {| m_tx := m_tx m; m_hashBlock := m_hashBlock a; m_vMerkleBranch := m_vMerkleBranch m; m_nIndex := m_nIndex m; m_fMerkleVerified := m_fMerkleVerified m |} else m in
  let m := if negb (m_nIndex a =? -1) then {| m_tx := m_tx m; m_hashBlock := m_hashBlock m; m_vMerkleBranch := m_vMerkleBranch a; m_nIndex := m_nIndex a; m_fMerkleVerified := m_fMerkleVerified m |} else m in
  let wtx := set_merkle m wtx in
  let wtx := if fFromMe wtxIn then set_fFromMe true wtx else wtx in
  (UpdateSpent (vfSpent wtxIn) wtx).2.
Definition with_pool_book (p : key_pool) (b : gmap CTxDestination bytes) (wl : CWallet) : CWallet :=
  {| wl_pool := p; mapWallet := mapWallet wl; setLockedCoins := setLockedCoins wl; mapAddressBook := b; nOrderPosNext := nOrderPosNext wl; mapRequestCount := mapRequestCount wl |}.
Definition SetAddressBookName (address : CTxDestination) (strName : bytes) (wl : CWallet) : CWallet := with_pool_book (wl_pool wl) (<[address := strName]> (mapAddressBook wl)) wl.
Definition DelAddressBookName (address : CTxDestination) (wl : CWallet) : CWallet := with_pool_book (wl_pool wl) (delete address (mapAddressBook wl)) wl.
(** a new default key for every output that pays to the old one *)
Fixpoint replace_default_key (scriptDefaultKey : bytes) (outs : list CTxOut) (wl : CWallet) : option CWallet :=
  match outs with
  | [] => Some wl
  | o :: r =>
    let? wl :=
      if bool_decide (scriptPubKey o = scriptDefaultKey) then
        let? (key, p) := GetKeyFromPool draw now nTarget false (wl_pool wl) in
        match key with
        | Some k => let wl := with_pool_book (SetDefaultKey p k) (mapAddressBook wl) wl in Some (SetAddressBookName (CKeyID (GetID k)) [] wl)
        | None => Some (with_pool_book p (mapAddressBook wl) wl)
        end
      else Some wl in
    replace_default_key scriptDefaultKey r wl
  end.
Definition AddToWallet cv (wtxIn : CWalletTx) (wl : CWallet) : option CWallet :=
  let hash := GetHash (wt_tx wtxIn) in
  let tx := match mapWallet wl !! hash with None => wt_tx wtxIn | Some wtx => wt_tx wtx end in
  let wl := match mapWallet wl !! hash with None => insert_tx cv hash wtxIn wl | Some wtx => put_tx hash (merge_tx wtxIn (MarkDirty wtx)) wl end in
  let? wl :=
    let k := vchDefaultKey (wl_pool wl) in
    if Crypto.IsValid k then replace_default_key (SetDestination (CKeyID (GetID k))) (vout tx) wl else Some wl in
  WalletUpdateSpent cv tx wl.
(** the verdict: whether it was added *)
Definition AddToWalletIfInvolvingMe cv (hash : Z) tx (pblock : option CBlock) (fUpdate : bool) (wl : CWallet) : option (bool * CWallet) :=
  let fExisted := bool_decide (is_Some (mapWallet wl !! hash)) in
  if fExisted && negb fUpdate then Some (false, wl)
  else
    let? involved := if fExisted || wallet_IsMine wl tx then Some true else wallet_IsFromMe wl tx in
    if involved then
      let wtx := wallet_tx (merkle_of tx) in
      let wtx := match pblock with Some _ => set_merkle (SetMerkleBranch cv pblock (wt_merkle wtx)).2 wtx | None => wtx end in
      let? wl := AddToWallet cv wtx wl in Some (true, wl)
    else let? wl := WalletUpdateSpent cv tx wl in Some (false, wl).
Definition EraseFromWallet (hash : Z) (wl : CWallet) : CWallet := with_wallet (delete hash (mapWallet wl)) wl.
(** [blocks]: what is read for the blocks from the first one to the tip *)
Fixpoint scan_txs cv (b : CBlock) (txs : list CTransaction) (fUpdate : bool) (ret : nat) (wl : CWallet) : option (nat * CWallet) :=
  match txs with
  | [] => Some (ret, wl)
  | tx :: r => let? (added, wl) := AddToWalletIfInvolvingMe cv (GetHash tx) tx (Some b) fUpdate wl in scan_txs cv b r fUpdate (if added then S ret else ret) wl
  end.
Fixpoint ScanForWalletTransactions cv (blocks : list CBlock) (fUpdate : bool) (ret : nat) (wl : CWallet) : option (nat * CWallet) :=
  match blocks with
  | [] => Some (ret, wl)
  | b :: r => let? (ret, wl) := scan_txs cv b (vtx b) fUpdate ret wl in ScanForWalletTransactions cv r fUpdate ret wl
  end.

(** *** [CommitTransaction], up to the broadcast *)
Definition commit_input (txin : CTxIn) (wl : CWallet) : option CWallet :=
  let? w := mapWallet wl !! o_hash (prevout txin) in
  let? w := MarkSpent (MarkDirty w) (Z.to_nat (o_n (prevout txin))) in
  Some (put_tx (o_hash (prevout txin)) w wl).
Fixpoint commit_inputs (ins : list CTxIn) (wl : CWallet) : option CWallet := match ins with [] => Some wl | txin :: r => let? wl := commit_input txin wl in commit_inputs r wl end.
Definition commit_wallet cv (wtxNew : CWalletTx) (reservekey : CReserveKey) (wl : CWallet) : option (CReserveKey * CWallet) :=
  let '(r, p) := KeepKey reservekey (wl_pool wl) in
  let? wl := AddToWallet cv wtxNew (with_pool_book p (mapAddressBook wl) wl) in
  let? wl := commit_inputs (vin (wt_tx wtxNew)) wl in
  Some (r, with_requests (<[GetHash (wt_tx wtxNew) := 0]> (mapRequestCount wl)) wl).
End Learn.

(** ** Spent outputs stay spent *)

Section SpentLemmas.
Context {B : OpenSSLBN} {K : Crypto} {C : Cipher}.
Implicit Types (cv : chain_view).

(** the same transaction, at least as much of it spent *)
Definition tx_grows (w w' : CWalletTx) : Prop := wt_tx w' = wt_tx w /\ forall n, IsSpent w n = Some true -> IsSpent w' n = Some true.
Definition wallet_grows (wl wl' : CWallet) : Prop := forall h w, mapWallet wl !! h = Some w -> exists w', mapWallet wl' !! h = Some w' /\ tx_grows w w'.
#[export] Instance tx_grows_pre : PreOrder tx_grows.
Proof. split; [by intros w; split|]. intros a b c [E1 H1] [E2 H2]. split; [congruence|auto]. Qed.
#[export] Instance wallet_grows_pre : PreOrder wallet_grows.
Proof.
  split; [by intros wl h w H; exists w|]. intros a b c H1 H2 h w Hw.
  destruct (H1 h w Hw) as (w1 & Hw1 & G1), (H2 h w1 Hw1) as (w2 & Hw2 & G2). exists w2. split; [done|]. by transitivity w1.
Qed.
Lemma grows_put h w w' wl : mapWallet wl !! h = Some w -> tx_grows w w' -> wallet_grows wl (put_tx h w' wl).
Proof.
  intros Hw G h1 w1 H1. cbn. destruct (decide (h1 = h)) as [->|Hne].
  - rewrite lookup_insert_eq. exists w'. split; [done|]. by replace w1 with w by congruence.
  - rewrite lookup_insert_ne by done. by exists w1.
Qed.
Lemma grows_put_new h w wl : mapWallet wl !! h = None -> wallet_grows wl (put_tx h w wl).
Proof. intros Hn h1 w1 H1. cbn. rewrite lookup_insert_ne by congruence. by exists w1. Qed.
Lemma grows_same wl wl' : mapWallet wl' = mapWallet wl -> wallet_grows wl wl'.
Proof. intros E h w H. rewrite E. by exists w. Qed.

Lemma IsSpent_true w n : IsSpent w n = Some true <-> (n < length (vout (wt_tx w)))%nat /\ nth n (vfSpent w) false = true.
Proof. unfold IsSpent. case_bool_decide; split; [done|intros [? _]; lia|intros [= ->]; split; [lia|done]|by intros [_ ->]]. Qed.
Lemma cache_grows w c : tx_grows w (set_cache c w). Proof. done. Qed.
Lemma merge_spent_nth l : forall s n, nth n s false = true -> nth n (merge_spent l s).2 false = true.
Proof.
  induction l as [|a l IH]; intros [|b s] n H; try done. cbn. destruct (merge_spent l s) as [u r] eqn:E.
  specialize (IH s). rewrite E in IH. destruct n as [|n]; cbn in *; [by rewrite H, orb_true_r|auto].
Qed.
Lemma UpdateSpent_grows f w : tx_grows w (UpdateSpent f w).2.
Proof.
  unfold UpdateSpent. pose proof (merge_spent_nth f (vfSpent w)) as Hm. destruct (merge_spent f (vfSpent w)) as [u r]. split; [done|].
  intros n. rewrite !IsSpent_true. intros [? ?]. split; [done|]. by apply Hm.
Qed.
Lemma nth_resize n k (l : list bool) : (n < k)%nat -> nth n (resize k false l) false = nth n l false.
Proof.
  intros H. rewrite !nth_lookup. destruct (decide (n < length l)%nat).
  - rewrite lookup_resize by lia. done.
  - rewrite lookup_resize_new by lia. by rewrite lookup_ge_None_2 by lia.
Qed.
Lemma MarkSpent_spec w n w' : MarkSpent w n = Some w' -> wt_tx w' = wt_tx w /\ (forall i, IsSpent w' i = if bool_decide (i = n) then Some true else IsSpent w i) /\
  wt_merkle w' = wt_merkle w /\ (IsSpent w n = Some true /\ wt_cache w' = wt_cache w \/ wt_cache w' = with_available None (wt_cache w)).
Proof.
  unfold MarkSpent. case_bool_decide as Hn; [done|].
  assert (Hi : forall i, (i < length (vout (wt_tx w)))%nat -> nth i (resize (length (vout (wt_tx w))) false (vfSpent w)) false = nth i (vfSpent w) false) by (intros; by apply nth_resize).
  set (f := resize _ _ _) in *. intros [= <-]. assert (length f = length (vout (wt_tx w))) by (unfold f; by rewrite length_resize).
  destruct (nth n f false) eqn:Ef; (split; [done|split; [|split; [done|]]]).
  - intros i. unfold IsSpent. change (wt_tx (set_spent _ _ w)) with (wt_tx w). cbn [vfSpent set_spent]. repeat case_bool_decide; try done; subst; try lia; by rewrite ?Ef, ?Hi by lia.
  - left. rewrite IsSpent_true. split; [|done]. split; [lia|]. rewrite <- Hi by lia. done.
  - intros i. unfold IsSpent. change (wt_tx (set_spent _ _ w)) with (wt_tx w). cbn [vfSpent set_spent]. rewrite nth_lookup.
    repeat case_bool_decide; subst; try done; try lia.
    + rewrite list_lookup_insert_eq by lia. done.
    + rewrite list_lookup_insert_ne by done. rewrite <- nth_lookup, Hi by lia. done.
  - by right.
Qed.
Lemma MarkSpent_grows w n w' : MarkSpent w n = Some w' -> tx_grows w w'.
Proof. intros H. apply MarkSpent_spec in H as (E & Hi & _). split; [done|]. intros i Hs. rewrite Hi. by case_bool_decide. Qed.
Lemma MarkSpent_ok w n : (n < length (vout (wt_tx w)))%nat -> is_Some (MarkSpent w n).
Proof. intros. unfold MarkSpent. rewrite bool_decide_eq_false_2 by lia. by eexists. Qed.
Lemma merge_tx_grows a w : tx_grows w (merge_tx a w).
Proof.
  unfold merge_tx. etransitivity; [|apply UpdateSpent_grows]. by destruct (fFromMe a), (negb (m_hashBlock _ =? 0)), (negb (m_nIndex _ =? -1)).
Qed.
End SpentLemmas.

(** ** Caches change nothing else *)

Section Caches.
Context {B : OpenSSLBN} {K : Crypto} {C : Cipher}.
Implicit Types (cv : chain_view).

Definition recached (w w' : CWalletTx) : Prop := exists c, w' = set_cache c w.
#[export] Instance recached_pre : PreOrder recached.
Proof. split; [by intros []; eexists|]. intros a b c [x ->] [y ->]. by exists y. Qed.
Definition same_but_caches (wl wl' : CWallet) : Prop := wl' = with_wallet (mapWallet wl') wl /\ forall h, option_Forall2 recached (mapWallet wl !! h) (mapWallet wl' !! h).
#[export] Instance same_but_caches_pre : PreOrder same_but_caches.
Proof.
  split.
  - intros wl. split; [by destruct wl|]. intros h. by destruct (mapWallet wl !! h); constructor.
  - intros a b c [E1 H1] [E2 H2]. split; [rewrite E2, E1; done|]. intros h. specialize (H1 h). specialize (H2 h).
    destruct H1 as [x y Hxy|]; inversion H2; subst; constructor. by transitivity y.
Qed.
Lemma recached_put h w w' wl : mapWallet wl !! h = Some w -> recached w w' -> same_but_caches wl (put_tx h w' wl).
Proof.
  intros Hw Hr. split; [done|]. intros h1. cbn. destruct (decide (h1 = h)) as [->|].
  - rewrite lookup_insert_eq, Hw. by constructor.
  - rewrite lookup_insert_ne by done. by destruct (mapWallet wl !! h1); constructor.
Qed.
Lemma recached_tx w w' : recached w w' -> wt_merkle w' = wt_merkle w /\ vfSpent w' = vfSpent w /\ vtxPrev w' = vtxPrev w.
Proof. by intros [c ->]. Qed.
Lemma same_lookup wl wl' h w : same_but_caches wl wl' -> mapWallet wl !! h = Some w -> exists w', mapWallet wl' !! h = Some w' /\ recached w w'.
Proof. intros [_ H] Hw. specialize (H h). rewrite Hw in H. inversion H; eauto. Qed.
Lemma same_sym_lookup wl wl' h w' : same_but_caches wl wl' -> mapWallet wl' !! h = Some w' -> exists w, mapWallet wl !! h = Some w /\ recached w w'.
Proof. intros [_ H] Hw. specialize (H h). rewrite Hw in H. inversion H; eauto. Qed.
Lemma same_grows wl wl' : same_but_caches wl wl' -> wallet_grows wl wl'.
Proof. intros H h w Hw. destruct (same_lookup _ _ _ _ H Hw) as (w' & Hw' & c & ->). by eexists. Qed.
Lemma same_hashes wl wl' : same_but_caches wl wl' -> wallet_hashes wl' = wallet_hashes wl.
Proof.
  intros H. unfold wallet_hashes. apply (Sorted_unique Z.le); try apply Sorted_merge_sort, _. rewrite !merge_sort_Permutation.
  apply NoDup_Permutation; try apply NoDup_fst_map_to_list. intros h.
  rewrite !list_elem_of_fmap. split; intros ([h1 w] & -> & Hin); apply elem_of_map_to_list in Hin.
  - destruct (same_sym_lookup _ _ _ _ H Hin) as (w' & Hw' & _). exists (h1, w'). by rewrite elem_of_map_to_list.
  - destruct (same_lookup _ _ _ _ H Hin) as (w' & Hw' & _). exists (h1, w'). by rewrite elem_of_map_to_list.
Qed.

Lemma mine_pool wl wl' : wl_pool wl' = wl_pool wl -> mine wl' = mine wl.
Proof. intros E. unfold mine, wl_keystore. by rewrite E. Qed.
Lemma same_pool wl wl' : same_but_caches wl wl' -> wl_pool wl' = wl_pool wl.
Proof. by intros [-> _]. Qed.
Lemma same_prev_out wl wl' i : same_but_caches wl wl' -> prev_out wl' i = prev_out wl i.
Proof. intros [_ H]. unfold prev_out. specialize (H (o_hash (prevout i))). destruct H as [x y [c ->]|]; done. Qed.
Lemma add_amounts_ext_in {A} (f g : A -> option Z) l n : (forall a, a ∈ l -> f a = g a) -> add_amounts f l n = add_amounts g l n.
Proof.
  revert n. induction l as [|a l IH]; intros n H; [done|]. cbn. rewrite H by left. destruct (g a); [|done]. case_if; [done|]. apply IH. intros b Hb. apply H. by right.
Qed.
Lemma add_amounts_ext {A} (f g : A -> option Z) l n : (forall a, f a = g a) -> add_amounts f l n = add_amounts g l n.
Proof. intros H. revert n. induction l as [|a l IH]; intros n; [done|]. cbn. rewrite H. destruct (g a); [|done]. case_if; [done|apply IH]. Qed.
Lemma same_GetDebit wl wl' tx : same_but_caches wl wl' -> GetDebit wl' tx = GetDebit wl tx.
Proof. intros H. apply add_amounts_ext. intros i. unfold GetDebit_in. rewrite (same_prev_out _ _ _ H), (mine_pool _ _ (same_pool _ _ H)). done. Qed.
Lemma pool_unspent_credit wl wl' w : wl_pool wl' = wl_pool wl -> unspent_credit wl' w = unspent_credit wl w.
Proof. intros H. apply add_amounts_ext. intros x. unfold GetCredit_out. by rewrite (mine_pool _ _ H). Qed.

Lemma wtx_GetDebit_recached wl w v w' : wtx_GetDebit wl w = Some (v, w') -> recached w w'.
Proof. unfold wtx_GetDebit. case_bool_decide; [by intros [= _ <-]|]. destruct (c_debit _); [by intros [= _ <-]|]. destruct (GetDebit _ _); [|done]. intros [= _ <-]. by eexists. Qed.
Lemma wtx_GetCredit_recached cv wl b w v w' : wtx_GetCredit cv wl b w = Some (v, w') -> recached w w'.
Proof. unfold wtx_GetCredit. case_if; [by intros [= _ <-]|]. destruct (if b then _ else _); [by intros [= _ <-]|]. destruct (GetCredit _ _); [|done]. intros [= _ <-]. by eexists. Qed.
Lemma GetImmatureCredit_recached cv wl b w v w' : GetImmatureCredit cv wl b w = Some (v, w') -> recached w w'.
Proof. unfold GetImmatureCredit. case_if; [|by intros [= _ <-]]. destruct (if b then _ else _); [by intros [= _ <-]|]. destruct (GetCredit _ _); [|done]. intros [= _ <-]. by eexists. Qed.
Lemma GetAvailableCredit_recached cv wl b w v w' : GetAvailableCredit cv wl b w = Some (v, w') -> recached w w'.
Proof. unfold GetAvailableCredit. case_if; [by intros [= _ <-]|]. destruct (if b then _ else _); [by intros [= _ <-]|]. destruct (unspent_credit _ _); [|done]. intros [= _ <-]. by eexists. Qed.
Lemma IsConfirmed_recached fuel cv wl w v w' : IsConfirmed fuel cv wl w = Some (v, w') -> recached w w' /\ c_available (wt_cache w') = c_available (wt_cache w).
Proof.
  unfold IsConfirmed. case_if; [by intros [= _ <-]|]. case_if; [by intros [= _ <-]|]. unfold wtx_IsFromMe.
  destruct (wtx_GetDebit wl w) as [[d w1]|] eqn:Ed; [|done]. pose proof (wtx_GetDebit_recached _ _ _ _ Ed) as Hr.
  assert (c_available (wt_cache w1) = c_available (wt_cache w)) as Hc.
  { revert Ed. unfold wtx_GetDebit. case_bool_decide; [by intros [= _ <-]|]. destruct (c_debit _); [by intros [= _ <-]|]. destruct (GetDebit _ _); [|done]. by intros [= _ <-]. }
  case_if; [by intros [= _ <-]|]. destruct (all_confirmed _ _ _ _ _); [|done]. by intros [= _ <-].
Qed.
Lemma sum_wallet_recached f : (forall wl w v w', f wl w = Some (v, w') -> recached w w') -> forall hs wl n v wl', sum_wallet f hs wl n = Some (v, wl') -> same_but_caches wl wl'.
Proof.
  intros Hf. induction hs as [|h hs IH]; intros wl n v wl'; cbn; [by intros [= _ <-]|].
  destruct (mapWallet wl !! h) as [w|] eqn:Ew; [|done]. destruct (f wl w) as [[x w']|] eqn:Ef; [|done]. intros H. etransitivity; [|by eapply IH]. eapply recached_put; eauto.
Qed.
Lemma GetBalance_recached fuel cv wl v wl' : GetBalance fuel cv wl = Some (v, wl') -> same_but_caches wl wl'.
Proof.
  apply sum_wallet_recached. clear. intros wl w v w'. destruct (IsConfirmed fuel cv wl w) as [[ok w1]|] eqn:Ei; [|done]. apply IsConfirmed_recached in Ei as [Hr _].
  destruct ok; [|by intros [= _ <-]]. intros H. etransitivity; [done|]. by eapply GetAvailableCredit_recached.
Qed.
Lemma GetUnconfirmedBalance_recached fuel cv wl v wl' : GetUnconfirmedBalance fuel cv wl = Some (v, wl') -> same_but_caches wl wl'.
Proof.
  apply sum_wallet_recached. clear. intros wl w v w'. case_if; [apply GetAvailableCredit_recached|]. destruct (IsConfirmed fuel cv wl w) as [[ok w1]|] eqn:Ei; [|done].
  apply IsConfirmed_recached in Ei as [Hr _]. destruct ok; [by intros [= _ <-]|]. intros H. etransitivity; [done|]. by eapply GetAvailableCredit_recached.
Qed.
Lemma GetImmatureBalance_recached cv wl v wl' : GetImmatureBalance cv wl = Some (v, wl') -> same_but_caches wl wl'.
Proof. apply sum_wallet_recached. intros ????. apply GetImmatureCredit_recached. Qed.
Lemma available_in_recached fuel cv b h wl w l w' : available_in fuel cv b h wl w = Some (l, w') -> recached w w' /\ c_available (wt_cache w') = c_available (wt_cache w).
Proof.
  unfold available_in. case_if; [by intros [= _ <-]|]. destruct b.
  - destruct (IsConfirmed fuel cv wl w) as [[ok w1]|] eqn:Ei; [|done]. apply IsConfirmed_recached in Ei. case_if; [by intros [= _ <-]|]. case_if; by intros [= _ <-].
  - case_if; [by intros [= _ <-]|]. case_if; by intros [= _ <-].
Qed.
Lemma available_coins_recached fuel cv b hs : forall wl l wl', available_coins fuel cv b hs wl = Some (l, wl') -> same_but_caches wl wl'.
Proof.
  induction hs as [|h hs IH]; intros wl l wl'; cbn; [by intros [= _ <-]|]. destruct (mapWallet wl !! h) as [w|] eqn:Ew; [|done].
  destruct (available_in fuel cv b h wl w) as [[l1 w1]|] eqn:Ea; [|done]. apply available_in_recached in Ea as [Hr _].
  destruct (available_coins _ _ _ _ _) as [[rest wl1]|] eqn:Er; [|done]. intros [= _ <-]. etransitivity; [|by eapply IH]. by eapply recached_put.
Qed.
Lemma AvailableCoins_recached fuel cv b wl l wl' : AvailableCoins fuel cv b wl = Some (l, wl') -> same_but_caches wl wl'.
Proof. apply available_coins_recached. Qed.
End Caches.

(** ** What an update marks *)

Section Marks.
Context {B : OpenSSLBN} {K : Crypto} {C : Cipher}.
Implicit Types (cv : chain_view) (tx : CTransaction).

Definition own (wl : CWallet) (tx : CTransaction) (n : nat) : bool := match vout tx !! n with Some o => mine wl o | None => false end.
Definition hits (i : CTxIn) (h : Z) (n : nat) : bool := (o_hash (prevout i) =? h) && (Z.to_nat (o_n (prevout i)) =? n)%nat.
Definition spends (l : list CTxIn) (h : Z) (n : nat) : bool := existsb (fun i => hits i h n) l.
(** of the transactions of the wallet, exactly the own outputs in [f] are newly spent *)
Definition tx_marked (f : nat -> bool) (wl : CWallet) (w w' : CWalletTx) : Prop := wt_tx w' = wt_tx w /\ forall n, IsSpent w' n = if f n && own wl (wt_tx w) n then Some true else IsSpent w n.
Definition marked_by (f : Z -> nat -> bool) (wl wl' : CWallet) : Prop :=
  wl' = with_wallet (mapWallet wl') wl /\ forall h, option_Forall2 (tx_marked (f h) wl) (mapWallet wl !! h) (mapWallet wl' !! h).

Lemma own_bound wl tx n : own wl tx n = true -> (n < length (vout tx))%nat.
Proof. unfold own. destruct (vout tx !! n) eqn:E; [|done]. intros _. by eapply lookup_lt_Some. Qed.
Lemma tx_marked_refl f wl w : (forall n, f n && own wl (wt_tx w) n = true -> IsSpent w n = Some true) -> tx_marked f wl w w.
Proof. intros H. split; [done|]. intros n. destruct (_ && _) eqn:E; auto. Qed.
Lemma update_input_marks cv i wl wl' : update_input cv i wl = Some wl' -> marked_by (hits i) wl wl'.
Proof.
  unfold update_input. intros H.
  assert (Hsame : (forall w n, mapWallet wl !! o_hash (prevout i) = Some w -> hits i (o_hash (prevout i)) n && own wl (wt_tx w) n = true -> IsSpent w n = Some true) -> wl' = wl -> marked_by (hits i) wl wl').
  { intros Hs ->. split; [by destruct wl|]. intros h. destruct (mapWallet wl !! h) as [w|] eqn:Ew; constructor. apply tx_marked_refl. intros n Hn.
    assert (h = o_hash (prevout i)) as -> by (unfold hits in Hn; b2p; done). by eapply Hs. }
  destruct (mapWallet wl !! o_hash (prevout i)) as [w|] eqn:Ew; [|injection H as <-; by apply Hsame].
  destruct (vout (wt_tx w) !! Z.to_nat (o_n (prevout i))) as [o|] eqn:Eo.
  2:{ injection H as <-. apply Hsame; [|done]. intros w0 n [= <-]. unfold hits, own. intros Hn. b2p. subst n. by rewrite Eo in *. }
  destruct (IsSpent w _) as [spent|] eqn:Es; [|done]. destruct (negb spent && mine wl o) eqn:Em.
  2:{ injection H as <-. apply Hsame; [|done]. intros w0 n [= <-]. unfold hits, own. intros Hn. b2p. subst n. rewrite Eo in *. destruct spent; [done|]. destruct Em as [Em|Em]; [done|congruence]. }
  destruct (wtx_GetCredit _ _ _ _) as [[v w1]|] eqn:Ec; [|done]. apply wtx_GetCredit_recached in Ec as [c ->].
  destruct (MarkSpent _ _) as [w2|] eqn:E2; [|done]. injection H as <-. apply MarkSpent_spec in E2 as (Et & Hi & _). split; [done|]. intros h. cbn.
  destruct (decide (h = o_hash (prevout i))) as [->|Hne].
  - rewrite lookup_insert_eq, Ew. constructor. split; [done|]. intros n. rewrite Hi. unfold hits. rewrite Z.eqb_refl. cbn [andb]. b2p.
    case_bool_decide; [subst n; unfold own; rewrite Eo, Nat.eqb_refl; cbn [andb]; by match goal with H : mine wl o = true |- _ => rewrite H end|].
    rewrite (proj2 (Nat.eqb_neq _ _)) by congruence. done.
  - rewrite lookup_insert_ne by done. destruct (mapWallet wl !! h); constructor. apply tx_marked_refl. intros n. unfold hits. intros. b2p. congruence.
Qed.
Lemma marked_pool f wl wl' : marked_by f wl wl' -> wl_pool wl' = wl_pool wl.
Proof. by intros [-> _]. Qed.
Lemma update_inputs_marks cv l : forall wl wl', update_inputs cv l wl = Some wl' -> marked_by (spends l) wl wl'.
Proof.
  induction l as [|i l IH]; intros wl wl'; cbn.
  - intros [= <-]. split; [by destruct wl|]. intros h. destruct (mapWallet wl !! h); constructor. by apply tx_marked_refl.
  - destruct (update_input cv i wl) as [wl1|] eqn:E; [|done]. intros H. apply update_input_marks in E as [E1 H1]. apply IH in H as [E2 H2]. split; [rewrite E2, E1; done|].
    assert (Hm : mine wl1 = mine wl) by (apply mine_pool; by rewrite E1). intros h. specialize (H1 h). specialize (H2 h). destruct H1 as [w w1 [Et Hs]|]; inversion H2 as [? w2 [Et2 Hs2] Ea Eb|]; constructor; subst.
    split; [congruence|]. intros n. rewrite Hs2, Hs. unfold own, spends. rewrite Et, Hm. cbn [existsb]. by destruct (hits i h n), (existsb _ l), (match vout _ !! n with Some _ => _ | None => _ end).
Qed.
Lemma WalletUpdateSpent_marks cv tx wl wl' : WalletUpdateSpent cv tx wl = Some wl' -> marked_by (spends (vin tx)) wl wl'.
Proof. apply update_inputs_marks. Qed.
Lemma marked_grows f wl wl' : marked_by f wl wl' -> wallet_grows wl wl'.
Proof.
  intros [_ H] h w Hw. specialize (H h). rewrite Hw in H. inversion H as [? w' [Et Hs]|]; subst. exists w'. split; [done|]. split; [done|]. intros n Hn. rewrite Hs. by case_if.
Qed.
(** no sum over the outputs of a known transaction leaves the range of money *)
Definition credits_ok (wl : CWallet) : Prop := forall h w, mapWallet wl !! h = Some w -> is_Some (GetCredit wl (wt_tx w)).
Lemma credits_ok_marked f wl wl' : marked_by f wl wl' -> credits_ok wl -> credits_ok wl'.
Proof.
  intros Hm Hc h w' Hw'. destruct Hm as [E H]. specialize (H h). rewrite Hw' in H. inversion H as [w ? [Et _] Ew Ex|]; subst. destruct (Hc h w) as [v Hv]; [done|]. exists v. rewrite Et, <- Hv.
  apply add_amounts_ext. intros o. unfold GetCredit_out. rewrite (mine_pool wl wl'); [done|]. by rewrite E.
Qed.
Lemma update_input_total cv i wl : credits_ok wl -> is_Some (update_input cv i wl).
Proof.
  intros Hc. unfold update_input. destruct (mapWallet wl !! _) as [w|] eqn:Ew; [|by eexists]. destruct (vout _ !! _) as [o|] eqn:Eo; [|by eexists].
  apply lookup_lt_Some in Eo as Hlt. assert (exists b, IsSpent w (Z.to_nat (o_n (prevout i))) = Some b) as [b ->] by (unfold IsSpent; rewrite bool_decide_eq_false_2 by lia; by eexists).
  case_if; [|by eexists]. destruct (Hc _ _ Ew) as [v Hv]. assert (exists x, wtx_GetCredit cv wl true w = Some x) as [[x w1] Hx].
  { unfold wtx_GetCredit. case_if; [by eexists|]. destruct (c_credit _); [by eexists|]. rewrite Hv. by eexists. }
  rewrite Hx. apply wtx_GetCredit_recached in Hx as [c ->]. destruct (MarkSpent_ok (set_cache c w) (Z.to_nat (o_n (prevout i)))) as [w2 ->]; [done|]. by eexists.
Qed.
Lemma update_inputs_total cv l : forall wl, credits_ok wl -> is_Some (update_inputs cv l wl).
Proof.
  induction l as [|i l IH]; intros wl Hc; cbn; [by eexists|]. destruct (update_input_total cv i wl Hc) as [wl1 E]. rewrite E. apply IH. apply update_input_marks in E. by eapply credits_ok_marked.
Qed.
End Marks.

(** ** Learning of a transaction *)

Section LearnLemmas.
Context {B : OpenSSLBN} {K : Crypto} {C : Cipher}.
Variables (draw : nat -> Z) (now nTarget : Z) (acentries : list (Z * Z)).
Implicit Types (cv : chain_view) (tx : CTransaction).

Lemma insert_tx_wallet cv h a wl : exists w, mapWallet (insert_tx acentries cv h a wl) = <[h := w]> (mapWallet wl) /\ wt_tx w = wt_tx a /\ vfSpent w = vfSpent a /\ wl_pool (insert_tx acentries cv h a wl) = wl_pool wl /\
  c_available (wt_cache w) = None.
Proof. eexists. unfold insert_tx, IncOrderPosNext. cbn [mapWallet put_tx with_wallet with_order]. rewrite insert_insert_eq. by repeat split. Qed.
Lemma replace_default_key_wallet s outs : forall wl wl', replace_default_key draw now nTarget s outs wl = Some wl' -> mapWallet wl' = mapWallet wl.
Proof.
  induction outs as [|o r IH]; intros wl wl'; cbn; [by intros [= <-]|]. case_if; [|apply IH].
  destruct (GetKeyFromPool _ _ _ _ _) as [[[k|] p]|]; [| |done]; intros H; by apply IH in H.
Qed.
(** after the first half of [AddToWallet]: the transaction is there *)
Definition stored (wl wl' : CWallet) (a : CWalletTx) : Prop :=
  let h := GetHash (wt_tx a) in exists w, mapWallet wl' = <[h := w]> (mapWallet wl) /\ wt_tx w = default (wt_tx a) (wt_tx <$> mapWallet wl !! h) /\ wl_pool wl' = wl_pool wl /\
    (forall w0, mapWallet wl !! h = Some w0 -> tx_grows w0 w) /\ c_available (wt_cache w) = None.
Lemma AddToWallet_parts cv a wl wl' : AddToWallet draw now nTarget acentries cv a wl = Some wl' -> exists wl1 wl2, stored wl wl1 a /\ mapWallet wl2 = mapWallet wl1 /\
  (Crypto.IsValid (vchDefaultKey (wl_pool wl)) = false -> wl2 = wl1) /\ WalletUpdateSpent cv (default (wt_tx a) (wt_tx <$> mapWallet wl !! GetHash (wt_tx a))) wl2 = Some wl'.
Proof.
  unfold AddToWallet. set (h := GetHash (wt_tx a)). set (wl1 := match mapWallet wl !! h with None => _ | Some wtx => put_tx h _ wl end).
  assert (Hs : stored wl wl1 a).
  { unfold stored. fold h. unfold wl1. destruct (mapWallet wl !! h) as [w|] eqn:Ew.
    - exists (merge_tx a (MarkDirty w)). destruct (merge_tx_grows a (MarkDirty w)) as [Et Hg]. split; [done|]. split; [done|]. split; [done|]. split; [|].
      + by intros w0 [= <-].
      + unfold merge_tx, UpdateSpent. destruct (merge_spent _ _) as [[] f]; cbn; [done|]. by destruct (fFromMe a).
    - destruct (insert_tx_wallet cv h a wl) as (w & E1 & E2 & E3 & E4 & E5). exists w. by repeat split. }
  assert (Ek : vchDefaultKey (wl_pool wl1) = vchDefaultKey (wl_pool wl)) by (by destruct Hs as (w & _ & _ & -> & _)). rewrite Ek. intros H.
  assert (Et : match mapWallet wl !! h with None => wt_tx a | Some wtx => wt_tx wtx end = default (wt_tx a) (wt_tx <$> mapWallet wl !! h)) by (by destruct (mapWallet wl !! h)).
  rewrite Et in H. destruct (Crypto.IsValid _).
  - destruct (replace_default_key _ _ _ _ _ _) as [wl2|] eqn:Er; [|done]. apply replace_default_key_wallet in Er. by exists wl1, wl2.
  - by exists wl1, wl1.
Qed.
Lemma AddToWallet_pool cv a wl wl' : Crypto.IsValid (vchDefaultKey (wl_pool wl)) = false -> AddToWallet draw now nTarget acentries cv a wl = Some wl' -> wl_pool wl' = wl_pool wl.
Proof. intros Hk H. apply AddToWallet_parts in H as (wl1 & wl2 & (w & _ & _ & Hp & _) & _ & He & Hu). rewrite (He Hk) in Hu. apply WalletUpdateSpent_marks, marked_pool in Hu. congruence. Qed.
Lemma stored_grows wl wl' a : stored wl wl' a -> wallet_grows wl wl'.
Proof.
  intros (w & E & _ & _ & Hg & _) h1 w1 H1. rewrite E. destruct (decide (h1 = GetHash (wt_tx a))) as [->|].
  - rewrite lookup_insert_eq. exists w. split; [done|]. by apply Hg.
  - rewrite lookup_insert_ne by done. by exists w1.
Qed.
Lemma AddToWallet_grows cv a wl wl' : AddToWallet draw now nTarget acentries cv a wl = Some wl' -> wallet_grows wl wl'.
Proof.
  intros H. apply AddToWallet_parts in H as (wl1 & wl2 & Hs & E & _ & Hu). etransitivity; [by eapply stored_grows|]. etransitivity; [by apply grows_same|]. eapply marked_grows, WalletUpdateSpent_marks, Hu.
Qed.
Lemma AddToWalletIfInvolvingMe_grows cv h tx b u wl r wl' : AddToWalletIfInvolvingMe draw now nTarget acentries cv h tx b u wl = Some (r, wl') -> wallet_grows wl wl'.
Proof.
  unfold AddToWalletIfInvolvingMe. case_if; [by intros [= _ <-]|]. destruct (if _ || _ then _ else _) as [[]|]; [| |done].
  - destruct (AddToWallet _ _ _ _ _ _ _) as [wl1|] eqn:Ea; [|done]. intros [= _ <-]. by eapply AddToWallet_grows.
  - destruct (WalletUpdateSpent _ _ _) as [wl1|] eqn:Ea; [|done]. intros [= _ <-]. by eapply marked_grows, WalletUpdateSpent_marks.
Qed.
Lemma scan_txs_grows cv b u txs : forall n wl r wl', scan_txs draw now nTarget acentries cv b txs u n wl = Some (r, wl') -> wallet_grows wl wl'.
Proof.
  induction txs as [|tx txs IH]; intros n wl r wl'; cbn; [by intros [= _ <-]|]. destruct (AddToWalletIfInvolvingMe _ _ _ _ _ _ _ _ _ _) as [[x wl1]|] eqn:E; [|done].
  intros H. etransitivity; [by eapply AddToWalletIfInvolvingMe_grows|by eapply IH].
Qed.
Lemma Scan_grows cv u bs : forall n wl r wl', ScanForWalletTransactions draw now nTarget acentries cv bs u n wl = Some (r, wl') -> wallet_grows wl wl'.
Proof.
  induction bs as [|b bs IH]; intros n wl r wl'; cbn; [by intros [= _ <-]|]. destruct (scan_txs _ _ _ _ _ _ _ _ _ _) as [[x wl1]|] eqn:E; [|done].
  intros H. etransitivity; [by eapply scan_txs_grows|by eapply IH].
Qed.
Lemma MarkDirty_grows wl : wallet_grows wl (wallet_MarkDirty wl).
Proof. intros h w H. exists (MarkDirty w). cbn. by rewrite lookup_fmap, H. Qed.
Lemma commit_inputs_grows l : forall wl wl', commit_inputs l wl = Some wl' -> wallet_grows wl wl' /\ forall i, i ∈ l -> exists w, mapWallet wl' !! o_hash (prevout i) = Some w /\ IsSpent w (Z.to_nat (o_n (prevout i))) = Some true.
Proof.
  induction l as [|i l IH]; intros wl wl'; cbn; [intros [= <-]; split; [done|by intros ? ?%not_elem_of_nil]|]. unfold commit_input.
  destruct (mapWallet wl !! _) as [w|] eqn:Ew; [|done]. destruct (MarkSpent _ _) as [w1|] eqn:E1; [|done]. intros H. apply IH in H as [Hg Hi].
  assert (G : wallet_grows wl (put_tx (o_hash (prevout i)) w1 wl)) by (eapply grows_put; [done|]; by apply MarkSpent_grows in E1).
  split; [by etransitivity|]. intros j [->|Hj]%elem_of_cons; [|auto].
  destruct (Hg (o_hash (prevout i)) w1) as (w2 & H2 & _ & Hs); [cbn; by rewrite lookup_insert_eq|]. exists w2. split; [done|]. apply Hs.
  apply MarkSpent_spec in E1 as (_ & Hx & _). rewrite Hx. by rewrite bool_decide_eq_true_2.
Qed.
Lemma commit_wallet_grows cv a k wl k' wl' : commit_wallet draw now nTarget acentries cv a k wl = Some (k', wl') -> wallet_grows wl wl' /\
  forall i, i ∈ vin (wt_tx a) -> exists w, mapWallet wl' !! o_hash (prevout i) = Some w /\ IsSpent w (Z.to_nat (o_n (prevout i))) = Some true.
Proof.
  unfold commit_wallet. destruct (KeepKey k (wl_pool wl)) as [r p]. destruct (AddToWallet _ _ _ _ _ _ _) as [wl1|] eqn:E1; [|done]. destruct (commit_inputs _ _) as [wl2|] eqn:E2; [|done].
  intros [= _ <-]. apply commit_inputs_grows in E2 as [G Hi]. split; [|done]. apply AddToWallet_grows in E1. etransitivity; [exact E1|]. exact G.
Qed.
End LearnLemmas.

(** ** What the program does with a wallet *)

Section WalletSteps.
Context {B : OpenSSLBN} {K : Crypto} {C : Cipher}.

(** the chain, the time and the keys drawn may differ from step to step; [EraseFromWallet] is left out *)
Inductive wallet_step : CWallet -> CWallet -> Prop :=
| step_learn draw now nTarget entries cv a wl wl' : AddToWallet draw now nTarget entries cv a wl = Some wl' -> wallet_step wl wl'
| step_involve draw now nTarget entries cv h tx b u wl r wl' : AddToWalletIfInvolvingMe draw now nTarget entries cv h tx b u wl = Some (r, wl') -> wallet_step wl wl'
| step_scan draw now nTarget entries cv bs u wl r wl' : ScanForWalletTransactions draw now nTarget entries cv bs u 0 wl = Some (r, wl') -> wallet_step wl wl'
| step_commit draw now nTarget entries cv a k wl k' wl' : commit_wallet draw now nTarget entries cv a k wl = Some (k', wl') -> wallet_step wl wl'
| step_update cv tx wl wl' : WalletUpdateSpent cv tx wl = Some wl' -> wallet_step wl wl'
| step_balance fuel cv wl v wl' : GetBalance fuel cv wl = Some (v, wl') -> wallet_step wl wl'
| step_unconfirmed fuel cv wl v wl' : GetUnconfirmedBalance fuel cv wl = Some (v, wl') -> wallet_step wl wl'
| step_immature cv wl v wl' : GetImmatureBalance cv wl = Some (v, wl') -> wallet_step wl wl'
| step_coins fuel cv b wl l wl' : AvailableCoins fuel cv b wl = Some (l, wl') -> wallet_step wl wl'
| step_dirty wl : wallet_step wl (wallet_MarkDirty wl)
| step_lock o wl : wallet_step wl (LockCoin o wl)
| step_unlock o wl : wallet_step wl (UnlockCoin o wl)
| step_unlock_all wl : wallet_step wl (UnlockAllCoins wl)
| step_name a s wl : wallet_step wl (SetAddressBookName a s wl)
| step_unname a wl : wallet_step wl (DelAddressBookName a wl)
| step_keys p wl : wallet_step wl (with_pool_book p (mapAddressBook wl) wl).

Lemma wallet_step_grows wl wl' : wallet_step wl wl' -> wallet_grows wl wl'.
Proof.
  intros []; try (by apply grows_same); try (eapply same_grows; by eauto using GetBalance_recached, GetUnconfirmedBalance_recached, GetImmatureBalance_recached, AvailableCoins_recached).
  - by eapply AddToWallet_grows.
  - by eapply AddToWalletIfInvolvingMe_grows.
  - by eapply Scan_grows.
  - by eapply commit_wallet_grows.
  - by eapply marked_grows, WalletUpdateSpent_marks.
  - apply MarkDirty_grows.
Qed.
(** every own output of a known transaction that [tx] spends is marked *)
Definition spends_marked (wl : CWallet) (tx : CTransaction) : Prop :=
  forall i w, i ∈ vin tx -> mapWallet wl !! o_hash (prevout i) = Some w -> own wl (wt_tx w) (Z.to_nat (o_n (prevout i))) = true -> IsSpent w (Z.to_nat (o_n (prevout i))) = Some true.
Lemma hits_spends l i : i ∈ l -> spends l (o_hash (prevout i)) (Z.to_nat (o_n (prevout i))) = true.
Proof. intros Hi. apply existsb_exists. exists i. split; [by apply list_elem_of_In|]. unfold hits. by rewrite Z.eqb_refl, Nat.eqb_refl. Qed.
Lemma marked_spends_marked tx wl wl' : marked_by (spends (vin tx)) wl wl' -> spends_marked wl' tx.
Proof.
  intros [E H] i w' Hi Hw' Ho. specialize (H (o_hash (prevout i))). rewrite Hw' in H. inversion H as [w ? [Et Hs]|]; subst. rewrite Hs, hits_spends by done.
  unfold own in Ho. rewrite E in Ho. rewrite Et in Ho. fold (own wl (wt_tx w) (Z.to_nat (o_n (prevout i)))) in Ho. cbn [andb]. unfold own.
  change (mine (with_wallet (mapWallet wl') wl)) with (mine wl) in Ho. unfold own in Ho. by rewrite Ho.
Qed.
End WalletSteps.

(** ** Going through the wallet *)

Section Through.
Context {B : OpenSSLBN} {K : Crypto} {C : Cipher}.
Implicit Types (cv : chain_view).

Lemma same_wallet_IsFromMe wl wl' tx : same_but_caches wl wl' -> wallet_IsFromMe wl' tx = wallet_IsFromMe wl tx.
Proof. intros H. unfold wallet_IsFromMe. by rewrite (same_GetDebit _ _ _ H). Qed.
Lemma same_all_confirmed wl wl' cv mp fuel : forall q, same_but_caches wl wl' -> all_confirmed fuel cv wl' mp q = all_confirmed fuel cv wl mp q.
Proof.
  induction fuel as [|fuel IH]; intros [|p q] H; try done. cbn. rewrite (same_wallet_IsFromMe _ _ _ H). case_if; [done|]. case_if; [by apply IH|].
  destruct (wallet_IsFromMe wl (m_tx p)) as [[]|]; cbn; try done. destruct (mapM _ _); [|done]. by apply IH.
Qed.
Lemma same_IsConfirmed wl wl' cv fuel w : same_but_caches wl wl' -> IsConfirmed fuel cv wl' w = IsConfirmed fuel cv wl w.
Proof.
  intros H. unfold IsConfirmed, wtx_IsFromMe. assert (wtx_GetDebit wl' w = wtx_GetDebit wl w) as -> by (unfold wtx_GetDebit; by rewrite (same_GetDebit _ _ _ H)).
  do 2 (case_if; [done|]). destruct (wtx_GetDebit wl w) as [[d w1]|]; [|done]. case_if; [done|]. by rewrite (same_all_confirmed wl wl').
Qed.
Lemma same_GetAvailableCredit wl wl' cv b w : same_but_caches wl wl' -> GetAvailableCredit cv wl' b w = GetAvailableCredit cv wl b w.
Proof. intros H. unfold GetAvailableCredit. by rewrite (pool_unspent_credit wl wl' w (same_pool _ _ H)). Qed.
Lemma same_coins_of_tx wl wl' cv h w : same_but_caches wl wl' -> coins_of_tx cv wl' h w = coins_of_tx cv wl h w.
Proof. intros H. unfold coins_of_tx. f_equal. apply filter_ext. intros x. unfold spendable, IsLockedCoin. rewrite (mine_pool _ _ (same_pool _ _ H)). by destruct H as [-> _]. Qed.
Lemma same_available_in fuel cv b h wl wl' w : same_but_caches wl wl' -> available_in fuel cv b h wl' w = available_in fuel cv b h wl w.
Proof. intros H. unfold available_in. rewrite (same_IsConfirmed _ _ _ _ _ H). case_if; [done|]. destruct (if b then _ else _) as [[ok w1]|]; [|done]. case_if; [done|]. case_if; [done|]. by rewrite (same_coins_of_tx _ _ _ _ _ H). Qed.

Lemma wallet_hashes_NoDup wl : NoDup (wallet_hashes wl).
Proof. unfold wallet_hashes. rewrite merge_sort_Permutation. apply NoDup_fst_map_to_list. Qed.
Lemma wallet_hashes_elem wl h : h ∈ wallet_hashes wl <-> is_Some (mapWallet wl !! h).
Proof.
  unfold wallet_hashes. rewrite merge_sort_Permutation, list_elem_of_fmap. split.
  - intros ([h1 w] & -> & Hin). apply elem_of_map_to_list in Hin. by eexists.
  - intros [w Hw]. exists (h, w). by rewrite elem_of_map_to_list.
Qed.
(** the sum takes every transaction as it was *)
Lemma sum_wallet_spec f : (forall wl w v w', f wl w = Some (v, w') -> recached w w') -> (forall wl wl' w, same_but_caches wl wl' -> f wl' w = f wl w) ->
  forall wl0 hs, NoDup hs -> forall wl n v wl', same_but_caches wl0 wl -> (forall h, h ∈ hs -> mapWallet wl !! h = mapWallet wl0 !! h) -> sum_wallet f hs wl n = Some (v, wl') ->
  exists vs, Forall2 (fun h x => exists w w', mapWallet wl0 !! h = Some w /\ f wl0 w = Some (x, w') /\ mapWallet wl' !! h = Some w') hs vs /\ v = foldl (fun a x => s64 (a + x)) n vs /\
    forall h, h ∉ hs -> mapWallet wl' !! h = mapWallet wl !! h.
Proof.
  intros Hre Hext wl0. induction hs as [|h hs IH]; intros Hnd wl n v wl' Hsame Hsrc; cbn.
  { intros [= <- <-]. by exists []. }
  apply NoDup_cons in Hnd as [Hh Hnd]. destruct (mapWallet wl !! h) as [w|] eqn:Ew; [|done]. destruct (f wl w) as [[x w']|] eqn:Ef; [|done]. intros H.
  destruct (IH Hnd (put_tx h w' wl) (s64 (n + x)) v wl') as (vs & Hvs & Hv & Hrest).
  - etransitivity; [done|]. by eapply recached_put; eauto.
  - intros h1 H1. cbn. rewrite lookup_insert_ne by (intros ->; done). apply Hsrc. by right.
  - done.
  - exists (x :: vs). split; [|split; [done|]].
    + constructor; [|done]. exists w, w'. rewrite <- Hsrc by left. split; [done|]. split; [by rewrite <- (Hext wl0 wl w Hsame)|]. rewrite Hrest by done. cbn. by rewrite lookup_insert_eq.
    + intros h1 [Hne Hn]%not_elem_of_cons. rewrite Hrest by done. cbn. by rewrite lookup_insert_ne.
Qed.
Lemma available_coins_spec fuel cv b wl0 hs : NoDup hs -> forall wl, same_but_caches wl0 wl -> (forall h, h ∈ hs -> mapWallet wl !! h = mapWallet wl0 !! h) -> forall l,
  (exists wl', available_coins fuel cv b hs wl = Some (l, wl')) <->
  exists ls, Forall2 (fun h l1 => exists w w', mapWallet wl0 !! h = Some w /\ available_in fuel cv b h wl0 w = Some (l1, w')) hs ls /\ l = concat ls.
Proof.
  induction hs as [|h hs IH]; intros Hnd wl Hsame Hsrc l; cbn.
  { split; [intros [? [= <- <-]]; by exists []|]. intros (ls & Hls & ->). inversion Hls; subst. by eexists. }
  apply NoDup_cons in Hnd as [Hh Hnd].
  assert (Hput : forall w l1 w1 rest, mapWallet wl0 !! h = Some w -> available_in fuel cv b h wl0 w = Some (l1, w1) ->
    (exists wl', available_coins fuel cv b hs (put_tx h w1 wl) = Some (rest, wl')) <-> exists ls, Forall2 (fun h l1 => exists w w', mapWallet wl0 !! h = Some w /\ available_in fuel cv b h wl0 w = Some (l1, w')) hs ls /\ rest = concat ls).
  { intros w l1 w1 rest Ew Ea. apply IH; [done| |].
    - etransitivity; [exact Hsame|]. eapply recached_put; [by rewrite (Hsrc h) by left|]. by eapply available_in_recached.
    - intros h1 H1. cbn. rewrite lookup_insert_ne by (intros ->; done). apply Hsrc. by right. }
  rewrite (Hsrc h) by left. split.
  - intros [wl' H]. destruct (mapWallet wl0 !! h) as [w|] eqn:Ew; [|done]. rewrite (same_available_in _ _ _ _ wl0 wl w Hsame) in H.
    destruct (available_in fuel cv b h wl0 w) as [[l1 w1]|] eqn:Ea; [|done]. destruct (available_coins _ _ _ _ _) as [[rest wl1]|] eqn:Er; [|done]. injection H as <- <-.
    destruct (proj1 (Hput w l1 w1 rest eq_refl Ea)) as (ls & Hls & ->); [by eexists|]. exists (l1 :: ls). split; [|done]. constructor; [|done]. by exists w, w1.
  - intros (ls & Hls & ->). inversion Hls as [|? l1 ? ls' (w & w1 & Ew & Ea) Hr]; subst. rewrite Ew, (same_available_in _ _ _ _ wl0 wl w Hsame), Ea.
    destruct (proj2 (Hput w l1 w1 (concat ls') Ew Ea)) as [wl' ->]; [by exists ls'|]. by eexists.
Qed.
End Through.

(** ** The coins and the balance *)

Section Balance.
Context {B : OpenSSLBN} {K : Crypto} {C : Cipher}.
Implicit Types (cv : chain_view).

(** the output a coin is *)
Definition coin_out (wl : CWallet) (c : COutput) : option CTxOut := let? w := mapWallet wl !! co_tx c in vout (wt_tx w) !! co_i c.
Definition coin_value (wl : CWallet) (c : COutput) : Z := match coin_out wl c with Some o => nValue o | None => 0 end.
(** what makes an output a coin of [AvailableCoins] *)
Record is_coin (fuel : nat) cv (b : bool) (wl : CWallet) (c : COutput) (w : CWalletTx) (o : CTxOut) : Prop := {
  coin_tx : mapWallet wl !! co_tx c = Some w; coin_vout : vout (wt_tx w) !! co_i c = Some o; coin_unspent : IsSpent w (co_i c) = Some false; coin_mine : mine wl o = true;
  coin_unlocked : IsLockedCoin wl (co_tx c) (co_i c) = false; coin_positive : 0 < nValue o; coin_final : merkle_IsFinal cv (wt_merkle w) = true;
  coin_confirmed : b = true -> exists w', IsConfirmed fuel cv wl w = Some (true, w'); coin_mature : immature cv w = false; coin_depth : co_nDepth c = GetDepthInMainChain cv (wt_merkle w) }.

Lemma outputs_elem w i o : (i, o) ∈ outputs w <-> vout (wt_tx w) !! i = Some o.
Proof. unfold outputs. rewrite elem_of_lookup_imap. split; [by intros (? & ? & [= -> ->] & ?)|eauto]. Qed.
Lemma coins_of_tx_elem cv wl h w c : c ∈ coins_of_tx cv wl h w <-> co_tx c = h /\ co_nDepth c = GetDepthInMainChain cv (wt_merkle w) /\ exists o, vout (wt_tx w) !! co_i c = Some o /\ spendable wl h w (co_i c, o) = true.
Proof.
  unfold coins_of_tx. rewrite list_elem_of_In, in_map_iff. split.
  - intros ([i o] & <- & [Hi Hs]%filter_In). rewrite <- list_elem_of_In, outputs_elem in Hi. cbn. repeat split. by exists o.
  - destruct c as [h' i d]. cbn. intros (-> & -> & o & Ho & Hs). exists (i, o). split; [done|]. apply filter_In. split; [|done]. by rewrite <- list_elem_of_In, outputs_elem.
Qed.
Lemma unspent_IsSpent w i o : vout (wt_tx w) !! i = Some o -> (unspent w i = true <-> IsSpent w i = Some false).
Proof. intros H%lookup_lt_Some. unfold IsSpent, unspent. rewrite bool_decide_eq_false_2 by lia. destruct (nth _ _ _); naive_solver. Qed.
Lemma available_in_elem fuel cv b h wl w l w' c : mapWallet wl !! h = Some w -> available_in fuel cv b h wl w = Some (l, w') -> (c ∈ l <-> co_tx c = h /\ exists o, is_coin fuel cv b wl c w o).
Proof.
  intros Hw. unfold available_in. destruct (merkle_IsFinal cv (wt_merkle w)) eqn:Ef; cbn [negb].
  2:{ intros [= <- _]. split; [by intros ?%elem_of_nil|]. intros (_ & o & [? ? ? ? ? ? Hf ? ? ?]). congruence. }
  set (ic := if b then IsConfirmed fuel cv wl w else Some (true, w)). destruct ic as [[ok w1]|] eqn:Ei; [|done].
  assert (wt_merkle w1 = wt_merkle w /\ vfSpent w1 = vfSpent w) as [Em Es].
  { subst ic. destruct b; [|by injection Ei as _ <-]. apply IsConfirmed_recached in Ei as [Hr _]. apply recached_tx in Hr as (? & ? & _). done. }
  destruct ok; cbn [negb].
  2:{ intros [= <- _]. split; [by intros ?%elem_of_nil|]. intros (_ & o & [? ? ? ? ? ? ? Hc ? ?]). subst ic. destruct b; [|done]. destruct Hc as [? Hc]; [done|]. congruence. }
  assert (Ht : wt_tx w1 = wt_tx w) by (unfold wt_tx; by rewrite Em). assert (immature cv w1 = immature cv w) as -> by (unfold immature; by rewrite Em, Ht).
  destruct (immature cv w) eqn:Eim.
  { intros [= <- _]. split; [by intros ?%elem_of_nil|]. intros (_ & o & [? ? ? ? ? ? ? ? Hi ?]). congruence. }
  intros [= <- _]. rewrite coins_of_tx_elem, Em, Ht. unfold spendable. assert (unspent w1 = unspent w) as -> by (unfold unspent; by rewrite Es). cbn [fst snd]. split.
  - intros (<- & Hd & o & Ho & Hs). b2p. split; [done|]. exists o. constructor; try done; [by apply (unspent_IsSpent w _ o)|]. intros ->. by exists w1.
  - intros (<- & o & [? Ho Hu Hmi Hl Hp ? ? ? ?]). repeat split; [done|]. exists o. split; [done|]. by rewrite (proj2 (unspent_IsSpent w _ o Ho) Hu), Hmi, Hl, (proj2 (Z.ltb_lt _ _) Hp).
Qed.
Lemma AvailableCoins_elem fuel cv b wl l wl' c : AvailableCoins fuel cv b wl = Some (l, wl') -> (c ∈ l <-> exists w o, is_coin fuel cv b wl c w o).
Proof.
  intros H. destruct (proj1 (available_coins_spec fuel cv b wl (wallet_hashes wl) (wallet_hashes_NoDup wl) wl (reflexivity _) (fun _ _ => eq_refl) l)) as (ls & Hls & ->); [by eexists|].
  rewrite list_elem_of_In, in_concat. split.
  - intros (l1 & Hl1 & Hc). apply list_elem_of_In, list_elem_of_lookup in Hl1 as [k Hk]. eapply Forall2_lookup_r in Hls as (h & Hh & w & w1 & Ew & Ea); [|done].
    apply list_elem_of_In in Hc. eapply available_in_elem in Hc as (Hh1 & o & Ho); [|done|done]. eauto.
  - intros (w & o & Ho). assert (Hin : co_tx c ∈ wallet_hashes wl) by (apply wallet_hashes_elem; eexists; apply Ho). apply list_elem_of_lookup in Hin as [k Hk].
    eapply Forall2_lookup_l in Hls as (l1 & Hl1 & w0 & w1 & Ew & Ea); [|done]. exists l1. split; [apply list_elem_of_In; by eapply list_elem_of_lookup_2|].
    apply list_elem_of_In. eapply available_in_elem; [done|done|]. split; [done|]. exists o. assert (w0 = w) as -> by (pose proof (coin_tx _ _ _ _ _ _ _ Ho); congruence). done.
Qed.
End Balance.

(** ** The sums are exact *)

Section Sums.
Context {B : OpenSSLBN} {K : Crypto} {C : Cipher}.
Implicit Types (cv : chain_view).

Lemma sumZ_app l1 l2 : sumZ (l1 ++ l2) = sumZ l1 + sumZ l2.
Proof. unfold sumZ. induction l1 as [|a l1 IH]; cbn; lia. Qed.
Lemma foldl_s64 l : forall n, foldl (fun a x => s64 (a + x)) (s64 n) l = s64 (n + sumZ l).
Proof. induction l as [|a l IH]; intros n; cbn [foldl sumZ foldr]; [f_equal; lia|]. rewrite s64_add_l, IH. f_equal. fold (sumZ l). lia. Qed.
Lemma add_amounts_sum {A} (f : A -> option Z) l : (forall a x, f a = Some x -> MoneyRange x = true) -> forall n v, MoneyRange n = true -> add_amounts f l n = Some v ->
  v = n + sumZ (map (fun a => default 0 (f a)) l) /\ Forall (fun a => is_Some (f a)) l.
Proof.
  intros Hf. induction l as [|a l IH]; intros n v Hn; cbn [add_amounts map sumZ foldr]; [intros [= <-]; split; [lia|done]|].
  destruct (f a) as [x|] eqn:Ef; [|done]. pose proof (Hf _ _ Ef) as Hx. apply MoneyRange_iff in Hn, Hx. rewrite s64_small by (unfold MAX_MONEY, COIN in *; lia).
  case_if; [done|]. apply negb_false_iff in E. intros H. apply IH in H as [-> Hl]; [|done]. fold (sumZ (map (fun a => default 0 (f a)) l)). change (default 0 (Some x)) with x. split; [lia|]. constructor; [|done]. by rewrite Ef.
Qed.
Lemma GetCredit_out_range wl o x : GetCredit_out wl o = Some x -> MoneyRange x = true.
Proof. unfold GetCredit_out. destruct (MoneyRange (nValue o)) eqn:E; [|done]. destruct (mine wl o); intros [= <-]; [done|by vm_compute]. Qed.
(** the value of the coins of a transaction is what is unspent of it *)
Lemma coins_of_tx_value cv wl h w v : mapWallet wl !! h = Some w -> setLockedCoins wl = ∅ -> unspent_credit wl w = Some v -> sumZ (map (coin_value wl) (coins_of_tx cv wl h w)) = v.
Proof.
  intros Hw Hl H. apply add_amounts_sum in H as [-> Hall]; [|intros a x; apply GetCredit_out_range|done]. unfold coins_of_tx. rewrite map_map, Z.add_0_l.
  assert (Ho : forall x, x ∈ outputs w -> vout (wt_tx w) !! x.1 = Some x.2) by (intros [i o]; apply outputs_elem). revert Hall Ho. generalize (outputs w). intros l.
  induction l as [|[i o] l IH]; intros Hall Ho; [done|]. assert (Hi : vout (wt_tx w) !! i = Some o) by (apply (Ho (i, o)); left). cbn [List.filter].
  assert (IsLockedCoin wl h i = false) as Hlk by (unfold IsLockedCoin; rewrite Hl; done).
  assert (Hind : Forall (fun a : nat * CTxOut => is_Some (GetCredit_out wl a.2)) (List.filter (fun x => unspent w x.1) l) ->
    sumZ (map (fun x => coin_value wl {| co_tx := h; co_i := x.1; co_nDepth := GetDepthInMainChain cv (wt_merkle w) |}) (List.filter (spendable wl h w) l)) =
    sumZ (map (fun a => default 0 (GetCredit_out wl a.2)) (List.filter (fun x => unspent w x.1) l))) by (intros Hx; apply IH; [done|]; intros x Hxx; apply Ho; by right).
  clear IH Ho. unfold spendable at 1. cbn [fst snd]. rewrite Hlk. cbn [List.filter fst snd] in Hall. destruct (unspent w i) eqn:Eu; cbn [andb negb]; [|by apply Hind].
  apply Forall_cons in Hall as [[x Hx] Hall]. cbn [snd] in Hx. cbn [map sumZ foldr]. fold (sumZ (map (fun a => default 0 (GetCredit_out wl a.2)) (List.filter (fun x => unspent w x.1) l))).
  rewrite <- Hind by done. cbn [snd]. rewrite Hx. change (default 0 (Some x)) with x. revert Hx. unfold GetCredit_out. destruct (MoneyRange (nValue o)) eqn:Er; [|done]. apply MoneyRange_iff in Er. cbn [negb]. intros [= <-].
  destruct (mine wl o) eqn:Em; cbn [andb]; [|fold spendable; lia]. destruct (0 <? nValue o) eqn:Ep.
  - cbn [map sumZ foldr]. unfold coin_value at 1, coin_out. cbn [co_tx co_i fst]. rewrite Hw. cbn [fst]. rewrite Hi. fold (sumZ (map (fun x => coin_value wl {| co_tx := h; co_i := x.1; co_nDepth := GetDepthInMainChain cv (wt_merkle w) |}) (List.filter (spendable wl h w) l))). lia.
  - b2p. lia.
Qed.
(** the cached sum is the sum *)
Definition coherent (wl : CWallet) : Prop := forall h w v, mapWallet wl !! h = Some w -> c_available (wt_cache w) = Some v -> unspent_credit wl w = Some v.
Lemma GetAvailableCredit_coherent cv wl b w v w' : (forall v, c_available (wt_cache w) = Some v -> unspent_credit wl w = Some v) -> immature cv w = false -> GetAvailableCredit cv wl b w = Some (v, w') ->
  unspent_credit wl w = Some v /\ (forall v, c_available (wt_cache w') = Some v -> unspent_credit wl w' = Some v).
Proof.
  intros Hc Hi. unfold GetAvailableCredit. rewrite Hi. destruct b.
  - destruct (c_available (wt_cache w)) as [x|] eqn:Ex; [intros [= <- <-]; split; [by apply Hc|by intros ? ?; apply Hc; congruence]|].
    destruct (unspent_credit wl w) as [x|] eqn:Eu; [|done]. intros [= <- <-]. split; [done|]. intros y. cbn. intros [= <-]. exact Eu.
  - destruct (unspent_credit wl w) as [x|] eqn:Eu; [|done]. intros [= <- <-]. split; [done|]. intros y. cbn. intros [= <-]. exact Eu.
Qed.
End Sums.

(** ** The caches stay coherent *)

Section Coherent.
Context {B : OpenSSLBN} {K : Crypto} {C : Cipher}.
Implicit Types (cv : chain_view).

(** the cached sum is dropped, or nothing it depends on changes *)
Definition tx_keeps (w w' : CWalletTx) : Prop := c_available (wt_cache w') = c_available (wt_cache w) /\ wt_tx w' = wt_tx w /\ forall n, IsSpent w' n = IsSpent w n.
Definition keeps_sums (wl wl' : CWallet) : Prop := forall h w', mapWallet wl' !! h = Some w' -> c_available (wt_cache w') = None \/ exists w, mapWallet wl !! h = Some w /\ tx_keeps w w'.
#[export] Instance keeps_sums_pre : PreOrder keeps_sums.
Proof.
  split; [intros wl h w H; right; by exists w|]. intros a b c H1 H2 h w2 Hw2. destruct (H2 h w2 Hw2) as [?|(w1 & Hw1 & Ec & Et & Es)]; [by left|].
  destruct (H1 h w1 Hw1) as [?|(w0 & Hw0 & Ec' & Et' & Es')]; [left; congruence|]. right. exists w0. split; [done|]. split; [congruence|]. split; [congruence|]. intros n. by rewrite Es.
Qed.
Lemma keeps_put h w' wl : (c_available (wt_cache w') = None \/ exists w, mapWallet wl !! h = Some w /\ tx_keeps w w') -> keeps_sums wl (put_tx h w' wl).
Proof.
  intros H h1 w1. cbn. destruct (decide (h1 = h)) as [->|]; [rewrite lookup_insert_eq; intros [= <-]; done|]. rewrite lookup_insert_ne by done. right. by exists w1.
Qed.
Lemma keeps_same wl wl' : mapWallet wl' = mapWallet wl -> keeps_sums wl wl'.
Proof. intros E h w. rewrite E. right. by exists w. Qed.
Lemma MarkSpent_keeps w n w' : MarkSpent w n = Some w' -> c_available (wt_cache w') = None \/ tx_keeps w w'.
Proof.
  intros H. apply MarkSpent_spec in H as (Et & Hi & _ & [[Hn Ec]|Ec]); [right|left; by rewrite Ec]. split; [by rewrite Ec|]. split; [done|]. intros i. rewrite Hi. case_bool_decide; congruence.
Qed.
Lemma update_input_keeps cv i wl wl' : update_input cv i wl = Some wl' -> keeps_sums wl wl'.
Proof.
  unfold update_input. destruct (mapWallet wl !! _) as [w|] eqn:Ew; [|by intros [= <-]]. destruct (vout _ !! _) as [o|]; [|by intros [= <-]]. destruct (IsSpent _ _); [|done].
  case_if; [|by intros [= <-]]. destruct (wtx_GetCredit _ _ _ _) as [[v w1]|] eqn:Ec; [|done]. destruct (MarkSpent w1 _) as [w2|] eqn:Em; [|done]. intros [= <-]. apply keeps_put.
  assert (tx_keeps w w1) as (E1 & E2 & E3).
  { revert Ec. unfold wtx_GetCredit. case_if; [by intros [= _ <-]|]. destruct (c_credit _); [by intros [= _ <-]|]. destruct (GetCredit _ _); [|done]. by intros [= _ <-]. }
  apply MarkSpent_keeps in Em as [?|(F1 & F2 & F3)]; [by left|]. right. exists w. split; [done|]. split; [congruence|]. split; [congruence|]. intros n. by rewrite F3.
Qed.
Lemma update_inputs_keeps cv l : forall wl wl', update_inputs cv l wl = Some wl' -> keeps_sums wl wl'.
Proof. induction l as [|i l IH]; intros wl wl'; cbn; [by intros [= <-]|]. destruct (update_input cv i wl) eqn:E; [|done]. intros H. etransitivity; [by eapply update_input_keeps|by apply IH]. Qed.
Lemma commit_inputs_keeps l : forall wl wl', commit_inputs l wl = Some wl' -> keeps_sums wl wl'.
Proof.
  induction l as [|i l IH]; intros wl wl'; cbn; [by intros [= <-]|]. unfold commit_input. destruct (mapWallet wl !! _) as [w|] eqn:Ew; [|done]. destruct (MarkSpent _ _) as [w1|] eqn:Em; [|done].
  intros H. etransitivity; [|by apply IH]. apply keeps_put. left. apply MarkSpent_keeps in Em as [?|[E _]]; [done|]. by rewrite E.
Qed.
Section Learn.
Variables (draw : nat -> Z) (now nTarget : Z) (acentries : list (Z * Z)).
Lemma AddToWallet_keeps cv a wl wl' : AddToWallet draw now nTarget acentries cv a wl = Some wl' -> keeps_sums wl wl'.
Proof.
  intros H. apply AddToWallet_parts in H as (wl1 & wl2 & (w & E & _ & _ & _ & Hc) & E2 & _ & Hu). etransitivity; [|by eapply update_inputs_keeps]. etransitivity; [|by apply keeps_same].
  intros h1 w1. rewrite E. destruct (decide (h1 = GetHash (wt_tx a))) as [->|]; [rewrite lookup_insert_eq; intros [= <-]; by left|]. rewrite lookup_insert_ne by done. right. by exists w1.
Qed.
Lemma AddToWalletIfInvolvingMe_keeps cv h tx b u wl r wl' : AddToWalletIfInvolvingMe draw now nTarget acentries cv h tx b u wl = Some (r, wl') -> keeps_sums wl wl'.
Proof.
  unfold AddToWalletIfInvolvingMe. case_if; [by intros [= _ <-]|]. destruct (if _ || _ then _ else _) as [[]|]; [| |done].
  - destruct (AddToWallet _ _ _ _ _ _ _) as [wl1|] eqn:Ea; [|done]. intros [= _ <-]. by eapply AddToWallet_keeps.
  - destruct (WalletUpdateSpent _ _ _) as [wl1|] eqn:Ea; [|done]. intros [= _ <-]. by eapply update_inputs_keeps.
Qed.
Lemma scan_txs_keeps cv b u txs : forall n wl r wl', scan_txs draw now nTarget acentries cv b txs u n wl = Some (r, wl') -> keeps_sums wl wl'.
Proof.
  induction txs as [|tx txs IH]; intros n wl r wl'; cbn; [by intros [= _ <-]|]. destruct (AddToWalletIfInvolvingMe _ _ _ _ _ _ _ _ _ _) as [[x wl1]|] eqn:E; [|done].
  intros H. etransitivity; [by eapply AddToWalletIfInvolvingMe_keeps|by eapply IH].
Qed.
Lemma Scan_keeps cv u bs : forall n wl r wl', ScanForWalletTransactions draw now nTarget acentries cv bs u n wl = Some (r, wl') -> keeps_sums wl wl'.
Proof.
  induction bs as [|b bs IH]; intros n wl r wl'; cbn; [by intros [= _ <-]|]. destruct (scan_txs _ _ _ _ _ _ _ _ _ _) as [[x wl1]|] eqn:E; [|done].
  intros H. etransitivity; [by eapply scan_txs_keeps|by eapply IH].
Qed.
End Learn.

Lemma unspent_credit_ext wl wl' w w' : (forall o, o ∈ vout (wt_tx w) -> mine wl' o = mine wl o) -> wt_tx w' = wt_tx w -> (forall n, IsSpent w' n = IsSpent w n) -> unspent_credit wl' w' = unspent_credit wl w.
Proof.
  intros Hm Et Es. unfold unspent_credit. assert (outputs w' = outputs w) as -> by (unfold outputs; by rewrite Et).
  assert (List.filter (fun x => unspent w' x.1) (outputs w) = List.filter (fun x => unspent w x.1) (outputs w)) as ->.
  { apply List.filter_ext_in. intros [i o] Hi%list_elem_of_In. apply outputs_elem, lookup_lt_Some in Hi. specialize (Es i). unfold IsSpent in Es. rewrite Et, !bool_decide_eq_false_2 in Es by lia. unfold unspent. cbn. congruence. }
  apply add_amounts_ext_in. intros [i o] Hx. apply list_elem_of_In, filter_In in Hx as [Hx _]. apply list_elem_of_In, outputs_elem in Hx. unfold GetCredit_out. cbn [snd]. rewrite Hm; [done|]. by apply list_elem_of_lookup_2 in Hx.
Qed.
(** every output of a known transaction has the owner it had *)
Definition same_owners (wl wl' : CWallet) : Prop := forall h w o, mapWallet wl !! h = Some w -> o ∈ vout (wt_tx w) -> mine wl' o = mine wl o.
Lemma coherent_keeps wl wl' : same_owners wl wl' -> keeps_sums wl wl' -> coherent wl -> coherent wl'.
Proof.
  intros Hm Hk Hc h w' v Hw' Hv. destruct (Hk h w' Hw') as [?|(w & Hw & Ec & Et & Es)]; [congruence|]. rewrite (unspent_credit_ext wl wl' w w'); [|intros o; by apply (Hm h)|done|done]. eapply Hc; [done|]. congruence.
Qed.
(** a sum over the wallet whose steps are coherent *)
Lemma coherent_sum f hs n : (forall wl w v w', f wl w = Some (v, w') -> recached w w') -> (forall wl wl' w, same_but_caches wl wl' -> f wl' w = f wl w) -> NoDup hs ->
  (forall wl w v w', (forall v, c_available (wt_cache w) = Some v -> unspent_credit wl w = Some v) -> f wl w = Some (v, w') -> forall v, c_available (wt_cache w') = Some v -> unspent_credit wl w' = Some v) ->
  forall wl v wl', sum_wallet f hs wl n = Some (v, wl') -> coherent wl -> coherent wl'.
Proof.
  intros Hre Hext Hnd Hf wl v wl' H Hc. pose proof (sum_wallet_recached f Hre _ _ _ _ _ H) as Hs. eapply (sum_wallet_spec f Hre Hext wl) in H as (vs & Hvs & _ & Hrest); [|done..].
  intros h w' y Hw' Hy. rewrite (pool_unspent_credit wl wl' w' (same_pool _ _ Hs)). destruct (decide (h ∈ hs)) as [Hin|Hn].
  - apply list_elem_of_lookup in Hin as [k Hk]. eapply Forall2_lookup_l in Hvs as (x & _ & w & w1 & Hw & Ef & Hw1); [|done]. assert (w1 = w') as -> by congruence. eapply Hf; [|done|done]. intros z. by apply Hc with h.
  - rewrite Hrest in Hw' by done. by apply Hc with h.
Qed.
End Coherent.

(** ** Confirmed by its ancestors *)

Section Confirmed.
Context {B : OpenSSLBN} {K : Crypto} {C : Cipher}.
Variables (cv : chain_view) (wl : CWallet) (mapPrev : gmap Z CMerkleTx).

(** final, and in the chain or an own transaction whose inputs are all known and supported in turn *)
Inductive supported : CMerkleTx -> Prop :=
| supported_deep p : merkle_IsFinal cv p = true -> 1 <= GetDepthInMainChain cv p -> supported p
| supported_own p l : merkle_IsFinal cv p = true -> wallet_IsFromMe wl (m_tx p) = Some true -> mapM (fun i => mapPrev !! o_hash (prevout i)) (vin (m_tx p)) = Some l -> Forall supported l -> supported p.

Lemma all_confirmed_sound fuel : forall q, all_confirmed fuel cv wl mapPrev q = Some true -> Forall supported q.
Proof.
  induction fuel as [|fuel IH]; intros [|p q]; cbn [all_confirmed]; try done. destruct (merkle_IsFinal cv p) eqn:Ef; cbn [negb]; [|done].
  destruct (1 <=? GetDepthInMainChain cv p) eqn:Ed; [intros H; constructor; [apply supported_deep; [done|by b2p]|by apply IH]|].
  destruct (wallet_IsFromMe wl (m_tx p)) as [[]|] eqn:Em; cbn [negb]; try done. destruct (mapM _ _) as [l|] eqn:El; [|done].
  intros H. apply IH, Forall_app in H as [Hq Hl]. constructor; [|done]. by eapply supported_own.
Qed.
Lemma all_confirmed_more fuel k : forall q b, all_confirmed fuel cv wl mapPrev q = Some b -> all_confirmed (fuel + k) cv wl mapPrev q = Some b.
Proof.
  induction fuel as [|fuel IH]; intros [|p q] b; cbn [all_confirmed Nat.add]; try done; [by destruct k|]. case_if; [done|]. case_if; [by apply IH|].
  destruct (wallet_IsFromMe wl (m_tx p)) as [[]|]; cbn [negb]; try done. destruct (mapM _ _) as [l|]; [|done]. by apply IH.
Qed.
Lemma supported_strong (P : CMerkleTx -> Prop) : (forall p, merkle_IsFinal cv p = true -> 1 <= GetDepthInMainChain cv p -> P p) ->
  (forall p l, merkle_IsFinal cv p = true -> wallet_IsFromMe wl (m_tx p) = Some true -> mapM (fun i => mapPrev !! o_hash (prevout i)) (vin (m_tx p)) = Some l -> Forall P l -> P p) ->
  forall p, supported p -> P p.
Proof.
  intros Hd Ho. fix IH 2. intros p [q Hf Hq|q l Hf Hm Hl Hs]; [by apply Hd|]. eapply Ho; [done..|]. clear Hl. induction Hs as [|x l Hx Hs IHs]; constructor; [by apply IH|exact IHs].
Qed.
(** how many turns a supported transaction takes at most *)
Inductive turns : CMerkleTx -> nat -> Prop :=
| turns_deep p : merkle_IsFinal cv p = true -> 1 <= GetDepthInMainChain cv p -> turns p 1
| turns_own p l ks : merkle_IsFinal cv p = true -> wallet_IsFromMe wl (m_tx p) = Some true -> mapM (fun i => mapPrev !! o_hash (prevout i)) (vin (m_tx p)) = Some l -> Forall2 turns l ks -> turns p (S (sum_list ks)).
Lemma supported_turns p : supported p -> exists k, turns p k.
Proof.
  revert p. apply supported_strong; [intros p ? ?; exists 1%nat; by constructor|]. intros p l Hf Hm Hl Hs.
  assert (exists ks, Forall2 turns l ks) as [ks Hks] by (clear Hl; induction Hs as [|x l [k Hk] _ [ks IH]]; [by exists []|exists (k :: ks); by constructor]).
  exists (S (sum_list ks)). by eapply turns_own.
Qed.
Lemma all_confirmed_turns fuel : forall q ks, Forall2 turns q ks -> (sum_list ks <= fuel)%nat -> all_confirmed fuel cv wl mapPrev q = Some true.
Proof.
  induction fuel as [|fuel IH]; intros q ks [|p k q' ks' Hp Hq] Hle; try done.
  { exfalso. cbn in Hle. inversion Hp; subst; lia. }
  cbn [all_confirmed]. inversion Hp as [? Hf Hd|? l ks1 Hf Hm Hl Hs]; subst; cbn in Hle; rewrite Hf; cbn [negb].
  - rewrite (proj2 (Z.leb_le _ _) Hd). apply (IH q' ks'); [done|lia].
  - case_if; [apply (IH q' ks'); [done|lia]|]. rewrite Hm. cbn [negb]. rewrite Hl. apply (IH (q' ++ l) (ks' ++ ks1)); [by apply Forall2_app|]. rewrite sum_list_with_app. lia.
Qed.
End Confirmed.

(** ** Properties *)

Section WalletProperties.
Context {B : OpenSSLBN} {K : Crypto} {C : Cipher}.
Implicit Types (cv : chain_view) (tx : CTransaction).

(** C36: An output the wallet holds for spent stays so: whatever sequence of transactions, blocks, rescans, commits, balance queries, locks and new keys follows, its transaction remains in the wallet, the output remains spent, and [AvailableCoins] never offers it again. *)
Theorem spent_stays_spent wl wl' h w n : rtc wallet_step wl wl' -> mapWallet wl !! h = Some w -> IsSpent w n = Some true ->
  (exists w', mapWallet wl' !! h = Some w' /\ wt_tx w' = wt_tx w /\ IsSpent w' n = Some true) /\
  (forall fuel cv b l wl2 c, AvailableCoins fuel cv b wl' = Some (l, wl2) -> c ∈ l -> co_tx c = h -> co_i c <> n).
Proof.
  intros Hr Hw Hn. assert (Hg : wallet_grows wl wl').
  { clear -Hr. induction Hr as [wl|wl wl1 wl2 H1 _ IH]; [done|]. etransitivity; [by apply wallet_step_grows|done]. }
  destruct (Hg h w Hw) as (w' & Hw' & Et & Hs). split; [by exists w'; auto|]. intros fuel cv b l wl2 c Ha Hc Hh Hi.
  rewrite (AvailableCoins_elem _ _ _ _ _ _ _ Ha) in Hc. destruct Hc as (w1 & o & [E1 _ Hu _ _ _ _ _ _ _]). rewrite Hh in E1. assert (w1 = w') as -> by congruence. rewrite Hi in Hu. apply Hs in Hn. congruence.
Qed.

(** [WalletUpdateSpent] returns when no sum of the wallet leaves the range of money, and then, of all outputs in the wallet, newly spent are exactly the own ones that the transaction spends; the transactions, the keys and the rest of the wallet are as before. *)
Theorem WalletUpdateSpent_exact cv tx wl : credits_ok wl -> exists wl', WalletUpdateSpent cv tx wl = Some wl' /\ marked_by (spends (vin tx)) wl wl' /\ spends_marked wl' tx.
Proof. intros Hc. destruct (update_inputs_total cv (vin tx) wl Hc) as [wl' H]. exists wl'. split; [done|]. apply WalletUpdateSpent_marks in H. split; [done|]. by eapply marked_spends_marked. Qed.

(** A transaction shown to the wallet is added when it pays to the wallet or spends from it, with its block, and after that every own output of a known transaction that it spends is marked as spent; a transaction the wallet knew stays as it is unless an update is asked for. *)
Theorem involved_is_learned draw now nTarget entries cv tx b u wl r wl' : AddToWalletIfInvolvingMe draw now nTarget entries cv (GetHash tx) tx b u wl = Some (r, wl') ->
  match mapWallet wl !! GetHash tx with
  | Some w => if u then r = true /\ (exists w', mapWallet wl' !! GetHash tx = Some w' /\ wt_tx w' = wt_tx w) /\ (wt_tx w = tx -> spends_marked wl' tx) else r = false /\ wl' = wl
  | None => (r = true <-> wallet_IsMine wl tx = true \/ wallet_IsFromMe wl tx = Some true) /\ (r = true <-> exists w', mapWallet wl' !! GetHash tx = Some w' /\ wt_tx w' = tx) /\ spends_marked wl' tx
  end.
Proof.
  unfold AddToWalletIfInvolvingMe. set (wtx := match b with Some _ => _ | None => _ end).
  assert (Et : wt_tx wtx = tx). { subst wtx. destruct b as [b|]; [|done]. unfold SetMerkleBranch. cbn. by destruct (list_find _ _) as [[i ?]|]. }
  assert (Hadd : forall wl1, AddToWallet draw now nTarget entries cv wtx wl = Some wl1 -> exists w', mapWallet wl1 !! GetHash tx = Some w' /\ wt_tx w' = default tx (wt_tx <$> mapWallet wl !! GetHash tx) /\ spends_marked wl1 (default tx (wt_tx <$> mapWallet wl !! GetHash tx))).
  { intros wl1 H. apply AddToWallet_parts in H as (wa & wb & (w & E & Ew & _) & E2 & _ & Hu). rewrite Et in *. apply WalletUpdateSpent_marks in Hu.
    destruct (marked_grows _ _ _ Hu (GetHash tx) w) as (w' & Hw' & Ew' & _); [rewrite E2, E; by rewrite lookup_insert_eq|]. exists w'. split; [done|]. split; [congruence|]. by eapply marked_spends_marked. }
  destruct (mapWallet wl !! GetHash tx) as [w|] eqn:Ew; cbn [default fmap option_fmap option_map] in *.
  - rewrite bool_decide_eq_true_2 by by eexists. destruct u; cbn [andb negb orb]; [|by intros [= <- <-]]. destruct (AddToWallet _ _ _ _ _ _ _) as [wl1|] eqn:Ea; [|done]. intros [= <- <-].
    destruct (Hadd wl1 eq_refl) as (w' & Hw' & Ew' & Hm). split; [done|]. split; [by exists w'|]. cbn in Hm. by intros <-.
  - rewrite bool_decide_eq_false_2 by (intros [? ?]; done). cbn [andb orb negb]. destruct (wallet_IsMine wl tx) eqn:Em.
    + destruct (AddToWallet _ _ _ _ _ _ _) as [wl1|] eqn:Ea; [|done]. intros [= <- <-]. destruct (Hadd wl1 eq_refl) as (w' & Hw' & Ew' & Hm). split; [by split; [left|]|]. split; [|done]. by split; [exists w'|].
    + destruct (wallet_IsFromMe wl tx) as [[]|]; [| |done].
      * destruct (AddToWallet _ _ _ _ _ _ _) as [wl1|] eqn:Ea; [|done]. intros [= <- <-]. destruct (Hadd wl1 eq_refl) as (w' & Hw' & Ew' & Hm). split; [by split; [right|]|]. split; [|done]. by split; [exists w'|].
      * destruct (WalletUpdateSpent _ _ _) as [wl1|] eqn:Eu; [|done]. intros [= <- <-]. apply WalletUpdateSpent_marks in Eu. split; [split; [done|by intros [?|?]]|]. split; [|by eapply marked_spends_marked].
        split; [done|]. intros (w' & Hw' & _). destruct Eu as [_ Hu]. specialize (Hu (GetHash tx)). rewrite Ew, Hw' in Hu. inversion Hu.
Qed.

(** [IsConfirmed] answers true exactly for the transactions that are final and in the main chain, or final, own, and with all inputs among the supporting transactions and supported in turn: for these it does so after finitely many turns of its loop, and for no other. *)
Theorem IsConfirmed_correct cv wl w : (forall v, c_debit (wt_cache w) = Some v -> GetDebit wl (wt_tx w) = Some v) ->
  ((exists fuel w', IsConfirmed fuel cv wl w = Some (true, w')) <-> supported cv wl (prev_map (vtxPrev w) ∅) (wt_merkle w)) /\
  (forall fuel w', IsConfirmed fuel cv wl w = Some (false, w') -> ~ supported cv wl (prev_map (vtxPrev w) ∅) (wt_merkle w)).
Proof.
  intros Hc. assert (Hme : wtx_IsFromMe wl w = None /\ wallet_IsFromMe wl (wt_tx w) = None \/ exists me w1, wtx_IsFromMe wl w = Some (me, w1) /\ wallet_IsFromMe wl (wt_tx w) = Some me /\ recached w w1).
  { unfold wtx_IsFromMe, wallet_IsFromMe. destruct (wtx_GetDebit wl w) as [[d w1]|] eqn:Ed.
    - right. exists (0 <? d), w1. split; [done|]. split; [|by eapply wtx_GetDebit_recached]. revert Ed. unfold wtx_GetDebit. case_bool_decide as Hv.
      + intros [= <- _]. unfold GetDebit. by rewrite Hv.
      + destruct (c_debit _) as [x|]; [intros [= <- _]; by rewrite (Hc x)|]. destruct (GetDebit _ _); [|done]. by intros [= <- _].
    - left. split; [done|]. revert Ed. unfold wtx_GetDebit. case_bool_decide; [done|]. destruct (c_debit _); [done|]. by destruct (GetDebit _ _). }
  assert (Hs : supported cv wl (prev_map (vtxPrev w) ∅) (wt_merkle w) <-> merkle_IsFinal cv (wt_merkle w) = true /\ (1 <= GetDepthInMainChain cv (wt_merkle w) \/
    wallet_IsFromMe wl (wt_tx w) = Some true /\ supported cv wl (prev_map (vtxPrev w) ∅) (wt_merkle w))).
  { split; [intros H; inversion H; subst; tauto|]. intros (? & [?|[_ ?]]); [by apply supported_deep|done]. }
  unfold IsConfirmed. destruct (merkle_IsFinal cv (wt_merkle w)) eqn:Ef; cbn [negb].
  2:{ split; [|intros _ ? _; rewrite Hs; naive_solver]. split; [by intros (? & ? & ?)|]. rewrite Hs. by intros [? _]. }
  destruct (1 <=? GetDepthInMainChain cv (wt_merkle w)) eqn:Ed.
  { b2p. split; [|done]. split; [intros _; by apply supported_deep|]. intros _. exists 0%nat, w. done. }
  destruct Hme as [[-> Hn]|(me & w1 & -> & Hme & c & ->)].
  { split; [|done]. split; [by intros (? & ? & ?)|]. rewrite Hs. b2p. intros (_ & [?|[? _]]); [lia|congruence]. }
  destruct me; cbn [negb].
  2:{ assert (Hno : ~ supported cv wl (prev_map (vtxPrev w) ∅) (wt_merkle w)) by (rewrite Hs; b2p; intros (_ & [?|[? _]]); [lia|congruence]). split; [|done]. split; [by intros (? & ? & ?)|done]. }
  change (foldl _ ∅ (vtxPrev (set_cache c w))) with (prev_map (vtxPrev w) ∅). change (wt_merkle (set_cache c w)) with (wt_merkle w). split; [split|].
  - intros (fuel & w' & H). destruct (all_confirmed _ _ _ _ _) as [b|] eqn:Ea; [|done]. injection H as -> _. by apply all_confirmed_sound, Forall_cons in Ea as [? _].
  - intros H. destruct (supported_turns _ _ _ _ H) as [k Hk]. exists k, (set_cache c w). by rewrite (all_confirmed_turns _ _ _ k _ [k]) by (try (by repeat constructor); cbn; lia).
  - intros fuel w' H Hsup. destruct (all_confirmed fuel _ _ _ _) as [b|] eqn:Ea; [|done]. injection H as -> _. destruct (supported_turns _ _ _ _ Hsup) as [k Hk].
    apply (all_confirmed_more _ _ _ fuel k) in Ea. rewrite (all_confirmed_turns _ _ _ _ _ [k]) in Ea by (try (by repeat constructor); cbn; lia). done.
Qed.

(** steps that change the owner of no output of a known transaction *)
Definition quiet_step (wl wl' : CWallet) : Prop := wallet_step wl wl' /\ same_owners wl wl'.
Lemma GetBalance_step_ok fuel cv : let f := fun wl w => let? (ok, w) := IsConfirmed fuel cv wl w in if ok then GetAvailableCredit cv wl true w else Some (0, w) in
  (forall wl w v w', f wl w = Some (v, w') -> recached w w') /\ (forall wl wl' w, same_but_caches wl wl' -> f wl' w = f wl w).
Proof.
  split.
  - intros wl w v w'. cbn. destruct (IsConfirmed fuel cv wl w) as [[ok w1]|] eqn:Ei; [|done]. apply IsConfirmed_recached in Ei as [Hr _]. destruct ok; [|by intros [= _ <-]]. intros H. etransitivity; [done|]. by eapply GetAvailableCredit_recached.
  - intros wl wl' w H. cbn. rewrite (same_IsConfirmed _ _ _ _ _ H). destruct (IsConfirmed fuel cv wl w) as [[[] w1]|]; [|done..]. by rewrite (same_GetAvailableCredit _ _ _ _ _ H).
Qed.
(** a query leaves a coherent cache coherent *)
Lemma GetAvailableCredit_caches cv wl w v w' : (forall v, c_available (wt_cache w) = Some v -> unspent_credit wl w = Some v) -> GetAvailableCredit cv wl true w = Some (v, w') ->
  forall v, c_available (wt_cache w') = Some v -> unspent_credit wl w' = Some v.
Proof. intros Hc H. destruct (immature cv w) eqn:Ei; [|by eapply GetAvailableCredit_coherent]. revert H. unfold GetAvailableCredit. rewrite Ei. by intros [= _ <-]. Qed.
Lemma recached_caches wl w w' : recached w w' -> c_available (wt_cache w') = c_available (wt_cache w) -> (forall v, c_available (wt_cache w) = Some v -> unspent_credit wl w = Some v) ->
  forall v, c_available (wt_cache w') = Some v -> unspent_credit wl w' = Some v.
Proof. intros [c ->] E H v Hv. rewrite E in Hv. exact (H v Hv). Qed.
Lemma IsConfirmed_caches fuel cv wl w ok w' : IsConfirmed fuel cv wl w = Some (ok, w') -> (forall v, c_available (wt_cache w) = Some v -> unspent_credit wl w = Some v) ->
  forall v, c_available (wt_cache w') = Some v -> unspent_credit wl w' = Some v.
Proof. intros H. apply IsConfirmed_recached in H as [Hr E]. by apply recached_caches. Qed.
Lemma GetImmatureCredit_caches cv wl w v w' : GetImmatureCredit cv wl true w = Some (v, w') -> (forall v, c_available (wt_cache w) = Some v -> unspent_credit wl w = Some v) ->
  forall v, c_available (wt_cache w') = Some v -> unspent_credit wl w' = Some v.
Proof.
  intros H. pose proof (GetImmatureCredit_recached _ _ _ _ _ _ H) as Hr. apply recached_caches; [done|]. revert H. unfold GetImmatureCredit. case_if; [|by intros [= _ <-]]. destruct (c_immature _); [by intros [= _ <-]|].
  destruct (GetCredit _ _); [|done]. by intros [= _ <-].
Qed.
Lemma available_coins_keeps fuel cv b hs : forall wl l wl', available_coins fuel cv b hs wl = Some (l, wl') -> keeps_sums wl wl'.
Proof.
  induction hs as [|h hs IH]; intros wl l wl'; cbn; [by intros [= _ <-]|]. destruct (mapWallet wl !! h) as [w|] eqn:Ew; [|done].
  destruct (available_in fuel cv b h wl w) as [[l1 w1]|] eqn:Ea; [|done]. apply available_in_recached in Ea as [[c ->] Ec].
  destruct (available_coins _ _ _ _ _) as [[rest wl1]|] eqn:Er; [|done]. intros [= _ <-]. etransitivity; [|by eapply IH]. apply keeps_put. right. by exists w.
Qed.
Lemma quiet_coherent wl wl' : quiet_step wl wl' -> coherent wl -> coherent wl'.
Proof.
  intros [Hs Hm]. destruct Hs; try (apply coherent_keeps; [done|]; first [by apply keeps_same|by eapply AddToWallet_keeps|by eapply AddToWalletIfInvolvingMe_keeps|by eapply Scan_keeps|by eapply update_inputs_keeps|by eapply available_coins_keeps]).
  - apply coherent_keeps; [done|]. revert H. unfold commit_wallet. destruct (KeepKey k (wl_pool wl)) as [r p]. destruct (AddToWallet _ _ _ _ _ _ _) as [wl1|] eqn:E1; [|done]. destruct (commit_inputs _ _) as [wl2|] eqn:E2; [|done].
    intros [= _ <-]. apply commit_inputs_keeps in E2. apply AddToWallet_keeps in E1. etransitivity; [exact E1|]. exact E2.
  - pose proof (GetBalance_step_ok fuel cv) as [Hre Hext]. eapply (coherent_sum _ _ _ Hre Hext); [apply wallet_hashes_NoDup| |exact H]. clear. intros wl w v w' Hc. cbn.
    destruct (IsConfirmed fuel cv wl w) as [[ok w1]|] eqn:Ei; [|done]. pose proof (IsConfirmed_caches _ _ _ _ _ _ Ei Hc). destruct ok; [|by intros [= _ <-]]. intros Hv. by eapply GetAvailableCredit_caches.
  - refine (coherent_sum _ _ _ _ _ (wallet_hashes_NoDup wl) _ _ _ _ H).
    + clear. intros wl w v w'. case_if; [apply GetAvailableCredit_recached|]. destruct (IsConfirmed fuel cv wl w) as [[ok w1]|] eqn:Ei; [|done].
      apply IsConfirmed_recached in Ei as [Hr _]. destruct ok; [by intros [= _ <-]|]. intros H. etransitivity; [done|]. by eapply GetAvailableCredit_recached.
    + clear. intros wl wl' w H. cbn. rewrite (same_GetAvailableCredit _ _ _ _ w H), (same_IsConfirmed _ _ _ _ _ H). case_if; [done|]. destruct (IsConfirmed fuel cv wl w) as [[[] w1]|]; [done| |done]. by rewrite (same_GetAvailableCredit _ _ _ _ _ H).
    + clear. intros wl w v w' Hc. cbn. case_if; [by apply GetAvailableCredit_caches|]. destruct (IsConfirmed fuel cv wl w) as [[ok w1]|] eqn:Ei; [|done]. pose proof (IsConfirmed_caches _ _ _ _ _ _ Ei Hc).
      destruct ok; [by intros [= _ <-]|]. intros Hv. by eapply GetAvailableCredit_caches.
  - refine (coherent_sum _ _ _ _ _ (wallet_hashes_NoDup wl) _ _ _ _ H).
    + intros ????. apply GetImmatureCredit_recached.
    + clear. intros wl wl' w H. cbn. unfold GetImmatureCredit, GetCredit. assert (forall n, add_amounts (GetCredit_out wl') (vout (wt_tx w)) n = add_amounts (GetCredit_out wl) (vout (wt_tx w)) n) as Hx.
      { intros n. apply add_amounts_ext. intros o. unfold GetCredit_out. by rewrite (mine_pool _ _ (same_pool _ _ H)). } by rewrite Hx.
    + clear. intros wl w v w' Hc H. by eapply GetImmatureCredit_caches.
  - apply coherent_keeps; [done|]. intros h w'. cbn. rewrite lookup_fmap, fmap_Some. intros (w & _ & ->). by left.
Qed.

(** C35: The balance is the sum of the coins that can be spent: in a wallet that started empty and lives through any steps that change the owner of no output of a transaction it knows (new keys that none of them pays to are fine), [GetBalance], which adds up cached amounts, returns only when [AvailableCoins] does, and is the sum of the values of the coins that it lists, to the width of the type, as long as no coin is locked. *)
Theorem balance_is_spendable wl0 wl fuel cv v wl1 : mapWallet wl0 = ∅ -> rtc quiet_step wl0 wl -> setLockedCoins wl = ∅ -> GetBalance fuel cv wl = Some (v, wl1) ->
  exists l wl2, AvailableCoins fuel cv true wl = Some (l, wl2) /\ v = s64 (sumZ (map (coin_value wl) l)).
Proof.
  intros H0 Hr Hl Hb. assert (Hc : coherent wl).
  { assert (Hc : coherent wl0) by (intros h w x Hw; by rewrite H0, lookup_empty in Hw). clear -Hc Hr. induction Hr as [|x y z Hxy _ IH]; [done|]. apply IH. by eapply quiet_coherent. }
  pose proof (GetBalance_step_ok fuel cv) as [Hre Hext]. eapply (sum_wallet_spec _ Hre Hext wl) in Hb as (vs & Hvs & -> & _); [|apply wallet_hashes_NoDup|done|done].
  assert (Hls : exists ls, Forall2 (fun h l1 => exists w w', mapWallet wl !! h = Some w /\ available_in fuel cv true h wl w = Some (l1, w')) (wallet_hashes wl) ls /\ sumZ vs = sumZ (map (coin_value wl) (concat ls))).
  { induction Hvs as [|h x hs vs (w & w' & Hw & Hf & _) _ (ls & Hls & Es)]; [by exists []|].
    assert (exists l1 w1, available_in fuel cv true h wl w = Some (l1, w1) /\ sumZ (map (coin_value wl) l1) = x) as (l1 & w1 & Ha & Ex).
    { unfold available_in. destruct (merkle_IsFinal cv (wt_merkle w)) eqn:Ef; cbn [negb].
      2:{ exists [], w. split; [done|]. unfold IsConfirmed in Hf. rewrite Ef in Hf. cbn in Hf. by injection Hf as <- _. }
      destruct (IsConfirmed fuel cv wl w) as [[ok w1]|] eqn:Ei; [|done]. pose proof (IsConfirmed_recached _ _ _ _ _ _ Ei) as [[c ->] _]. destruct ok; cbn [negb]; [|exists [], (set_cache c w); split; [done|]; by injection Hf as <- _].
      destruct (immature cv (set_cache c w)) eqn:Eim.
      { exists [], (set_cache c w). split; [done|]. unfold GetAvailableCredit in Hf. rewrite Eim in Hf. by injection Hf as <- _. }
      eexists _, _. split; [reflexivity|]. apply GetAvailableCredit_coherent in Hf as [Hu _]; [|by eapply IsConfirmed_caches; [done|]; intros y; apply Hc with h|done].
      change (coins_of_tx cv wl h (set_cache c w)) with (coins_of_tx cv wl h w). by apply coins_of_tx_value. }
    exists (l1 :: ls). split; [constructor; [by exists w, w1|done]|]. cbn [concat]. rewrite map_app, sumZ_app, <- Es, Ex. done. }
  destruct Hls as (ls & Hls & Es). destruct (proj2 (available_coins_spec fuel cv true wl (wallet_hashes wl) (wallet_hashes_NoDup wl) wl (reflexivity _) (fun _ _ => eq_refl) (concat ls))) as [wl2 H2]; [by exists ls|].
  exists (concat ls), wl2. split; [done|]. change 0 with (s64 0). rewrite foldl_s64, Es. done.
Qed.
End WalletProperties.

(** ** A run *)

Definition demo_script : bytes := SetDestination (CKeyID (GetID (K := ToyCrypto) (secret_pubkey (K := ToyCrypto) demo_key))).
(** what pays to the wallet, in the block of hash 7, and what spends the first output of it *)
Definition fund_tx : CTransaction := {| nVersion := 1; vin := [{| prevout := {| o_hash := 5; o_n := 0 |}; scriptSig := []; nSequence := 2 ^ 32 - 1 |}];
  vout := [{| nValue := 5 * COIN; scriptPubKey := demo_script |}; {| nValue := 3 * COIN; scriptPubKey := demo_script |}]; nLockTime := 0 |}.
Definition fund_hash : Z := GetHash (K := ToyCrypto) fund_tx.
Definition pay_tx : CTransaction := {| nVersion := 1; vin := [{| prevout := {| o_hash := fund_hash; o_n := 0 |}; scriptSig := []; nSequence := 2 ^ 32 - 1 |}];
  vout := [{| nValue := 4 * COIN; scriptPubKey := [OP_1] |}; {| nValue := COIN; scriptPubKey := demo_script |}]; nLockTime := 0 |}.
Definition demo_chain : chain_view := {| cv_index := {[7 := {| pprev := None; pnext := None; nHeight := 3; nFile := 0; nDataPos := 0; nUndoPos := 0; nChainWork := 0; nWorkTransition := 0; i_nPrimeChainType := 0; i_nPrimeChainLength := 0;
  nMoneySupply := 0; nTx := 0; nChainTx := 0; nStatus := 0; i_nVersion := 1; i_hashMerkleRoot := fund_hash; i_nTime := 50; i_nBits := 0; i_nNonce := 0 |}]}; cv_best := Some 7; cv_nBestHeight := 3; cv_time := 100; cv_coins_block := fun _ => None |}.
Definition demo_start : CWallet := {| wl_pool := KeyPool.empty_pool (basic_AddKey (K := ToyCrypto) new_store demo_key) [] 60000 60000; mapWallet := ∅; setLockedCoins := ∅; mapAddressBook := ∅; nOrderPosNext := 0; mapRequestCount := ∅ |}.
Definition fund_wtx : CWalletTx := wallet_tx {| m_tx := fund_tx; m_hashBlock := 7; m_vMerkleBranch := []; m_nIndex := 0; m_fMerkleVerified := false |}.
Definition pay_wtx : CWalletTx := set_fFromMe true (set_vtxPrev [wt_merkle fund_wtx] (wallet_tx (merkle_of pay_tx))).
Definition demo_learn (a : CWalletTx) (wl : CWallet) : option CWallet := AddToWallet (K := ToyCrypto) (C := ToyCipher) demo_draw 0 2 [] demo_chain a wl.
Definition demo_balance (wl : CWallet) : option (Z * CWallet) := GetBalance (K := ToyCrypto) (C := ToyCipher) 9 demo_chain wl.
Definition demo_funded : option CWallet := demo_learn fund_wtx demo_start.
Definition demo_paid : option CWallet := let? wl := demo_funded in demo_learn pay_wtx wl.
(** 8 coins before, and 4 after: the payment is unconfirmed, but the change is own and supported *)
Example demo_balances : (let? wl := demo_funded in fst <$> demo_balance wl) = Some (8 * COIN) /\ (let? wl := demo_paid in fst <$> demo_balance wl) = Some (4 * COIN).
Proof. vm_compute. done. Qed.

(** the facts of the run that the witnesses use, evaluated at once *)
Definition spent_of (wl : CWallet) (h : Z) (n : nat) : bool := match mapWallet wl !! h with Some w => bool_decide (IsSpent w n = Some true) | None => false end.
Lemma demo_paid_facts : exists wl1 wl2 v wl3 w, demo_funded = Some wl1 /\ demo_learn pay_wtx wl1 = Some wl2 /\ demo_balance wl2 = Some (v, wl3) /\ mapWallet wl2 !! fund_hash = Some w /\ IsSpent w 0 = Some true.
Proof.
  assert (H : (match demo_funded with Some wl1 => match demo_learn pay_wtx wl1 with Some wl2 => match demo_balance wl2 with Some _ => spent_of wl2 fund_hash 0 | None => false end | None => false end | None => false end) = true) by (vm_compute; reflexivity).
  destruct demo_funded as [wl1|]; [|discriminate H]. destruct (demo_learn pay_wtx wl1) as [wl2|] eqn:E2; [|discriminate H]. destruct (demo_balance wl2) as [[v wl3]|] eqn:E3; [|discriminate H].
  unfold spent_of in H. destruct (mapWallet wl2 !! fund_hash) as [w|] eqn:Ew; [|discriminate H]. exists wl1, wl2, v, wl3, w. repeat split; try assumption. by apply bool_decide_eq_true_1 in H.
Qed.
Lemma spent_stays_spent_witness : exists wl wl' v w, demo_paid = Some wl /\ demo_balance wl = Some (v, wl') /\ (exists w', mapWallet wl' !! fund_hash = Some w' /\ wt_tx w' = wt_tx w /\ IsSpent w' 0 = Some true) /\
  (forall fuel cv b l wl2 c, AvailableCoins (K := ToyCrypto) (C := ToyCipher) fuel cv b wl' = Some (l, wl2) -> c ∈ l -> co_tx c = fund_hash -> co_i c <> 0%nat).
Proof.
  destruct demo_paid_facts as (wl1 & wl & v & wl' & w & E1 & E2 & E3 & Ew & Hs). exists wl, wl', v, w. split; [unfold demo_paid; by rewrite E1|]. split; [done|].
  refine (spent_stays_spent (K := ToyCrypto) (C := ToyCipher) wl wl' fund_hash w 0 _ Ew Hs). apply rtc_once. eapply step_balance. exact E3.
Defined.
Lemma demo_credits_ok wl1 : demo_funded = Some wl1 -> credits_ok (K := ToyCrypto) (C := ToyCipher) wl1.
Proof.
  intros E. assert (H : (match demo_funded with Some wl => forallb (fun x => bool_decide (is_Some (GetCredit (K := ToyCrypto) (C := ToyCipher) wl (wt_tx x.2)))) (map_to_list (mapWallet wl)) | None => false end) = true) by (vm_compute; reflexivity).
  rewrite E in H. intros h w Hw. apply elem_of_map_to_list, list_elem_of_In in Hw. rewrite forallb_forall in H. by apply H, bool_decide_eq_true_1 in Hw.
Qed.
Lemma WalletUpdateSpent_exact_witness : exists wl, demo_funded = Some wl /\ exists wl', WalletUpdateSpent (K := ToyCrypto) (C := ToyCipher) demo_chain pay_tx wl = Some wl' /\
  marked_by (K := ToyCrypto) (C := ToyCipher) (spends (vin pay_tx)) wl wl' /\ spends_marked (K := ToyCrypto) (C := ToyCipher) wl' pay_tx.
Proof.
  destruct demo_paid_facts as (wl & _ & _ & _ & _ & E & _). exists wl. split; [done|]. exact (WalletUpdateSpent_exact (K := ToyCrypto) (C := ToyCipher) demo_chain pay_tx wl (demo_credits_ok wl E)).
Defined.
Lemma involved_is_learned_witness : exists wl wl', demo_funded = Some wl /\ AddToWalletIfInvolvingMe (K := ToyCrypto) (C := ToyCipher) demo_draw 0 2 [] demo_chain (GetHash (K := ToyCrypto) pay_tx) pay_tx None false wl = Some (true, wl') /\
  spends_marked (K := ToyCrypto) (C := ToyCipher) wl' pay_tx.
Proof.
  destruct demo_paid_facts as (wl & _ & _ & _ & _ & E & _).
  assert (H : (match demo_funded with Some wl => match mapWallet wl !! GetHash (K := ToyCrypto) pay_tx with None => match AddToWalletIfInvolvingMe (K := ToyCrypto) (C := ToyCipher) demo_draw 0 2 [] demo_chain (GetHash (K := ToyCrypto) pay_tx) pay_tx None false wl with
    Some (true, _) => true | _ => false end | Some _ => false end | None => false end) = true) by (vm_compute; reflexivity).
  rewrite E in H. destruct (mapWallet wl !! GetHash (K := ToyCrypto) pay_tx) eqn:En; [discriminate H|]. destruct (AddToWalletIfInvolvingMe _ _ _ _ _ _ _ _ _ _) as [[[] wl']|] eqn:Ea; try discriminate H.
  exists wl, wl'. split; [done|]. split; [done|]. pose proof (involved_is_learned (K := ToyCrypto) (C := ToyCipher) demo_draw 0 2 [] demo_chain pay_tx None false wl true wl' Ea) as Hx. rewrite En in Hx. apply Hx.
Defined.
Lemma IsConfirmed_correct_witness : let mp := prev_map (K := ToyCrypto) (vtxPrev pay_wtx) ∅ in exists wl, demo_funded = Some wl /\
  ((exists fuel w', IsConfirmed (K := ToyCrypto) (C := ToyCipher) fuel demo_chain wl pay_wtx = Some (true, w')) <-> supported (K := ToyCrypto) (C := ToyCipher) demo_chain wl mp (wt_merkle pay_wtx)) /\
  (forall fuel w', IsConfirmed (K := ToyCrypto) (C := ToyCipher) fuel demo_chain wl pay_wtx = Some (false, w') -> ~ supported (K := ToyCrypto) (C := ToyCipher) demo_chain wl mp (wt_merkle pay_wtx)).
Proof.
  destruct demo_paid_facts as (wl & _ & _ & _ & _ & E & _). exists wl. split; [done|]. apply (IsConfirmed_correct (K := ToyCrypto) (C := ToyCipher) demo_chain wl pay_wtx). discriminate.
Defined.
(** the wallet before it gets its key *)
Definition demo_keyless : CWallet := with_pool_book (KeyPool.empty_pool new_store [] 60000 60000) ∅ demo_start.
Lemma balance_is_spendable_witness : exists wl v wl1 l wl2, demo_funded = Some wl /\ demo_balance wl = Some (v, wl1) /\ AvailableCoins (K := ToyCrypto) (C := ToyCipher) 9 demo_chain true wl = Some (l, wl2) /\ v = s64 (sumZ (map (coin_value wl) l)).
Proof.
  assert (H : (match demo_funded with Some wl => match demo_balance wl with Some (v, _) => bool_decide (setLockedCoins wl = ∅) | None => false end | None => false end) = true) by (vm_compute; reflexivity).
  destruct demo_funded as [wl|] eqn:E; [|discriminate H]. destruct (demo_balance wl) as [[v wl1]|] eqn:Eb; [|discriminate H]. apply bool_decide_eq_true_1 in H as Hl.
  exists wl, v, wl1. destruct (balance_is_spendable (K := ToyCrypto) (C := ToyCipher) demo_keyless wl 9 demo_chain v wl1 eq_refl) as (l & wl2 & Hx); [|exact Hl|exact Eb|exists l, wl2; exact (conj eq_refl (conj Eb Hx))].
  apply (rtc_l _ _ demo_start).
  - split; [exact (step_keys (wl_pool demo_start) demo_keyless)|]. intros h w o Hw. cbn in Hw. rewrite lookup_empty in Hw. discriminate Hw.
  - apply rtc_once. split; [exact (step_learn demo_draw 0 2 [] demo_chain fund_wtx demo_start wl E)|]. intros h w o Hw. cbn in Hw. rewrite lookup_empty in Hw. discriminate Hw.
Defined.
