(* ===== verification/CoinSelect.v ===== *)
(** * Choosing coins (wallet.cpp)

    [SelectCoins] with its randomized subset search.  The bits of [insecure_rand] are a function of a counter, [random_shuffle] is a function of the counter whose results
    are permutations, and a coin is the hash and the index of its output; among coins of the same value the order after [sort], which the library leaves open, is
    that of a stable sort.  The properties: the chosen coins are spendable coins, all different, their sum is returned and covers the target, and coins are found exactly
    when the eligible ones suffice. *)

From stdpp Require Import gmap sorting.
From S2P Require Import Prelude OpenSSL BigNum Target Serialize Crypto Script Transaction ScriptEval ScriptStd KeyStore KeyPool Coins View Merkle Block Chain Mempool Wallet.
Local Open Scope Z_scope.

(** value, and hash and index of the output *)
Abbreviation coin := (Z * (Z * nat))%type (only parsing).

(** ** The subset search *)

Section Subset.
Variable rand_bit : nat -> bool.

(** [bs_rand]: how many bits were drawn *)
Record best_subset := { vfIncluded : list bool; nTotal : Z; fReachedTarget : bool; vfBest : list bool; nBest : Z; bs_rand : nat }.
(** one coin in one of the two passes *)
Definition try_coin (nTargetValue : Z) (firstPass : bool) (v : Z) (i : nat) (s : best_subset) : best_subset :=
  let '(take, r) := if firstPass then (rand_bit (bs_rand s), S (bs_rand s)) else (negb (nth i (vfIncluded s) false), bs_rand s) in
  if take then
    let t := s64 (nTotal s + v) in
    let inc := <[i := true]> (vfIncluded s) in
    if nTargetValue <=? t then
      let better := t <? nBest s in
      {| vfIncluded := <[i := false]> inc; nTotal := s64 (t - v); fReachedTarget := true; vfBest := if better then inc else vfBest s; nBest := if better then t else nBest s; bs_rand := r |}
    else {| vfIncluded := inc; nTotal := t; fReachedTarget := fReachedTarget s; vfBest := vfBest s; nBest := nBest s; bs_rand := r |}
  else {| vfIncluded := vfIncluded s; nTotal := nTotal s; fReachedTarget := fReachedTarget s; vfBest := vfBest s; nBest := nBest s; bs_rand := r |}.
Fixpoint subset_pass (nTargetValue : Z) (firstPass : bool) (vValue : list coin) (i : nat) (s : best_subset) : best_subset :=
  match vValue with [] => s | c :: r => subset_pass nTargetValue firstPass r (S i) (try_coin nTargetValue firstPass c.1 i s) end.
Definition subset_rep (nTargetValue : Z) (vValue : list coin) (s : best_subset) : best_subset :=
  let s := {| vfIncluded := replicate (length vValue) false; nTotal := 0; fReachedTarget := false; vfBest := vfBest s; nBest := nBest s; bs_rand := bs_rand s |} in
  let s := subset_pass nTargetValue true vValue 0 s in
  if fReachedTarget s then s else subset_pass nTargetValue false vValue 0 s.
Fixpoint subset_reps (iterations : nat) (nTargetValue : Z) (vValue : list coin) (s : best_subset) : best_subset :=
  match iterations with
  | O => s
  | S n => if nBest s =? nTargetValue then s else subset_reps n nTargetValue vValue (subset_rep nTargetValue vValue s)
  end.
(** the best subset, its sum, and the bits drawn so far *)
Definition ApproximateBestSubset (vValue : list coin) (nTotalLower nTargetValue : Z) (iterations : nat) (r : nat) : list bool * Z * nat :=
  let s := subset_reps iterations nTargetValue vValue
    {| vfIncluded := []; nTotal := 0; fReachedTarget := false; vfBest := replicate (length vValue) true; nBest := nTotalLower; bs_rand := r |} in
  (vfBest s, nBest s, bs_rand s).
End Subset.

(** ** Selecting coins *)

Definition larger (a b : coin) : Prop := b.1 <= a.1.
#[local] Instance larger_dec a b : Decision (larger a b) := Z_le_dec b.1 a.1.
(** the coins at which [vf] is true *)
Fixpoint picked (vf : list bool) (vValue : list coin) : list coin :=
  match vf, vValue with b :: vf, c :: r => if b then c :: picked vf r else picked vf r | _, _ => [] end.
Definition values (l : list coin) : list Z := map fst l.
Definition coin_keys (l : list coin) : gset (Z * nat) := list_to_set (map snd l).

(** a coin of exactly the target, or the smaller coins, their sum, and the smallest larger coin *)
Inductive sorted_coins := Exact (c : coin) | Sorted (vValue : list coin) (nTotalLower : Z) (coinLowestLarger : option coin).

Section Select.
Context {K : Crypto} {C : Cipher}.
Variables (rand_bit : nat -> bool) (shuffle : nat -> list COutput -> list COutput).

Definition coin_of (wl : CWallet) (c : COutput) : coin := (coin_value wl c, (co_tx c, co_i c)).
(** the loop over the coins; [IsFromMe] may throw *)
Fixpoint sort_coins (nTargetValue nConfMine nConfTheirs : Z) (vCoins : list COutput) (vValue : list coin) (nTotalLower : Z) (low : option coin) (wl : CWallet) : option (sorted_coins * CWallet) :=
  match vCoins with
  | [] => Some (Sorted vValue nTotalLower low, wl)
  | output :: r =>
    let? w := mapWallet wl !! co_tx output in
    let? (me, w) := wtx_IsFromMe wl w in
    let wl := put_tx (co_tx output) w wl in
    if co_nDepth output <? (if me then nConfMine else nConfTheirs) then sort_coins nTargetValue nConfMine nConfTheirs r vValue nTotalLower low wl
    else
      let c := coin_of wl output in
      if c.1 =? nTargetValue then Some (Exact c, wl)
      else if c.1 <? s64 (nTargetValue + CENT) then sort_coins nTargetValue nConfMine nConfTheirs r (vValue ++ [c]) (s64 (nTotalLower + c.1)) low wl
      else if c.1 <? match low with Some l => l.1 | None => 2 ^ 63 - 1 end then sort_coins nTargetValue nConfMine nConfTheirs r vValue nTotalLower (Some c) wl
      else sort_coins nTargetValue nConfMine nConfTheirs r vValue nTotalLower low wl
  end.
Definition sum_values (l : list coin) : Z := foldl (fun n c => s64 (n + c.1)) 0 l.
(** the choice among the sorted coins; [None]: not enough *)
Definition choose_coins (nTargetValue : Z) (vValue : list coin) (nTotalLower : Z) (low : option coin) (r : nat) : option (list coin) * nat :=
  if nTotalLower =? nTargetValue then (Some vValue, r)
  else if nTotalLower <? nTargetValue then ((fun c => [c]) <$> low, r)
  else
    let vValue := merge_sort larger vValue in
    let '(vfBest, nBest, r) := ApproximateBestSubset rand_bit vValue nTotalLower nTargetValue 1000 r in
    let '(vfBest, nBest, r) :=
      if negb (nBest =? nTargetValue) && (s64 (nTargetValue + CENT) <=? nTotalLower) then ApproximateBestSubset rand_bit vValue nTotalLower (s64 (nTargetValue + CENT)) 1000 r
      else (vfBest, nBest, r) in
    match low with
    | Some c => if (negb (nBest =? nTargetValue) && (nBest <? s64 (nTargetValue + CENT))) || (c.1 <=? nBest) then (Some [c], r) else (Some (picked vfBest vValue), r)
    | None => (Some (picked vfBest vValue), r)
    end.
(** the verdict, the coins, their value, the random bits and shufflings drawn so far, and the wallet *)
Definition SelectCoinsMinConf (nTargetValue nConfMine nConfTheirs : Z) (vCoins : list COutput) (r : nat) (wl : CWallet) : option (bool * gset (Z * nat) * Z * nat * CWallet) :=
  let? (s, wl) := sort_coins nTargetValue nConfMine nConfTheirs (shuffle r vCoins) [] 0 None wl in
  let r := S r in
  let '(l, r) := match s with Exact c => (Some [c], r) | Sorted vValue nTotalLower low => choose_coins nTargetValue vValue nTotalLower low r end in
  match l with
  | Some l => Some (true, coin_keys l, sum_values l, r, wl)
  | None => Some (false, ∅, 0, r, wl)
  end.
Definition SelectCoins (fuel : nat) (cv : chain_view) (nTargetValue : Z) (r : nat) (wl : CWallet) : option (bool * gset (Z * nat) * Z * nat * CWallet) :=
  let? (vCoins, wl) := AvailableCoins fuel cv true wl in
  let? (ok, set, v, r, wl) := SelectCoinsMinConf nTargetValue 1 6 vCoins r wl in
  if ok then Some (true, set, v, r, wl)
  else
    let? (ok, set, v, r, wl) := SelectCoinsMinConf nTargetValue 1 1 vCoins r wl in
    if ok then Some (true, set, v, r, wl) else SelectCoinsMinConf nTargetValue 0 1 vCoins r wl.
End Select.

(** ** The search keeps a subset that covers the target *)

Definition sel_sum (vf : list bool) (l : list coin) : Z := sumZ (values (picked vf l)).
Lemma picked_sub vf : forall l, picked vf l `sublist_of` l.
Proof. induction vf as [|b vf IH]; intros [|c l]; cbn; try apply sublist_nil_l. destruct b; constructor; apply IH. Qed.
Lemma sumZ_cons a l : sumZ (a :: l) = a + sumZ l.
Proof. done. Qed.
Lemma sel_sum_bounds vf : forall l, Forall (fun c => 0 <= c.1) l -> 0 <= sel_sum vf l <= sumZ (values l).
Proof.
  assert (Hn : forall l : list coin, Forall (fun c => 0 <= c.1) l -> 0 <= sumZ (values l)) by (intros l H; apply sumZ_nonneg, Forall_map; by eapply Forall_impl).
  unfold sel_sum. induction vf as [|b vf IH]; intros l H; [specialize (Hn l H); cbn [picked]; change (sumZ (values [])) with 0; lia|]. destruct l as [|c l]; [cbn; lia|].
  inversion H; subst. specialize (IH l ltac:(done)). unfold values in *. cbn [picked]. destruct b; cbn [map]; rewrite ?sumZ_cons; lia.
Qed.
Lemma sel_sum_insert vf : forall l i c, l !! i = Some c -> length vf = length l -> nth i vf false = false -> sel_sum (<[i := true]> vf) l = sel_sum vf l + c.1.
Proof.
  unfold sel_sum, values, sumZ. induction vf as [|b vf IH]; intros [|d l] [|i] c Hc Hl Hi; cbn in *; try done.
  - subst b. injection Hc as ->. lia.
  - injection Hl as Hl. specialize (IH l i c Hc Hl Hi). destruct b; [|exact IH]. etransitivity; [exact (f_equal (Z.add d.1) IH)|]. cbn [map foldr]. lia.
Qed.
Lemma reset_insert i (vf : list bool) : nth i vf false = false -> <[i := false]> (<[i := true]> vf) = vf.
Proof.
  intros H. rewrite list_insert_insert_eq. destruct (vf !! i) as [b|] eqn:E; [|by rewrite list_insert_ge by (by apply lookup_ge_None_1)].
  rewrite list_insert_id; [done|]. rewrite E. f_equal. by rewrite (nth_lookup_Some _ _ _ _ E) in H.
Qed.
Lemma sel_sum_none l n : sel_sum (replicate n false) l = 0.
Proof. revert l. unfold sel_sum. induction n as [|n IH]; intros [|c l]; cbn; auto. Qed.
Lemma sel_sum_all l : sel_sum (replicate (length l) true) l = sumZ (values l).
Proof. unfold sel_sum. f_equal. f_equal. induction l as [|c l IH]; cbn; congruence. Qed.

Section SubsetLemmas.
Variables (rand_bit : nat -> bool) (vValue : list coin) (target : Z).
Hypotheses (Hpos : Forall (fun c => 0 <= c.1) vValue) (Hmax : sumZ (values vValue) < 2 ^ 63) (Htarget : 0 < target).

Record best_ok (vf : list bool) (n : Z) : Prop := { bo_length : length vf = length vValue; bo_sum : sel_sum vf vValue = n; bo_target : target <= n; bo_max : n <= sumZ (values vValue) }.
Record subset_ok (s : best_subset) : Prop := {
  so_length : length (vfIncluded s) = length vValue; so_sum : nTotal s = sel_sum (vfIncluded s) vValue; so_below : nTotal s < target; so_best : best_ok (vfBest s) (nBest s) }.

Lemma try_coin_ok first i c s : vValue !! i = Some c -> (first = true -> nth i (vfIncluded s) false = false) -> subset_ok s ->
  subset_ok (try_coin rand_bit target first c.1 i s) /\ forall j, i <> j -> nth j (vfIncluded (try_coin rand_bit target first c.1 i s)) false = nth j (vfIncluded s) false.
Proof.
  intros Hc Hf [Hl Hs Hb Ho]. unfold try_coin.
  destruct (if first then _ else _) as [tk r] eqn:Et. destruct tk; [|split; [by constructor|done]].
  assert (Hi : nth i (vfIncluded s) false = false) by (destruct first; [by apply Hf|]; injection Et as Et _; by apply negb_true_iff in Et).
  pose proof (sel_sum_insert _ _ _ _ Hc Hl Hi) as Hsum. pose proof (sel_sum_bounds (<[i := true]> (vfIncluded s)) vValue Hpos) as Hr. pose proof (sel_sum_bounds (vfIncluded s) vValue Hpos) as Hr0.
  rewrite (s64_small (nTotal s + c.1)) by lia. assert (Hj : forall j, i <> j -> nth j (<[i := true]> (vfIncluded s)) false = nth j (vfIncluded s) false).
  { intros j Hne. rewrite !nth_lookup. by rewrite list_lookup_insert_ne. }
  destruct (target <=? nTotal s + c.1) eqn:E; b2p; cbn [vfIncluded nTotal vfBest nBest].
  - rewrite reset_insert by done. rewrite s64_small by lia. split; [|done]. constructor; cbn [vfIncluded nTotal vfBest nBest]; [done|lia|lia|].
    destruct (nTotal s + c.1 <? nBest s) eqn:E2; [|done]. constructor; [by rewrite length_insert|lia|lia|lia].
  - split; [|done]. constructor; cbn [vfIncluded nTotal vfBest nBest]; [by rewrite length_insert|lia|lia|done].
Qed.
Lemma subset_pass_ok first l : forall i s, drop i vValue = l -> (first = true -> forall j, (i <= j)%nat -> nth j (vfIncluded s) false = false) -> subset_ok s -> subset_ok (subset_pass rand_bit target first l i s).
Proof.
  induction l as [|c l IH]; intros i s Hl Hf Hs; [done|]. cbn [subset_pass].
  assert (Hc : vValue !! i = Some c) by (rewrite <- (Nat.add_0_r i), <- lookup_drop, Hl; done).
  destruct (try_coin_ok first i c s Hc ltac:(intros; by apply Hf) Hs) as [H1 H2]. apply IH; [|intros E j Hj; rewrite H2 by lia; apply Hf; [done|lia]|done].
  by rewrite <- Nat.add_1_r, <- drop_drop, Hl.
Qed.
Lemma subset_rep_ok s : best_ok (vfBest s) (nBest s) -> best_ok (vfBest (subset_rep rand_bit target vValue s)) (nBest (subset_rep rand_bit target vValue s)).
Proof.
  intros Ho. unfold subset_rep. set (s0 := {| vfIncluded := _; nTotal := 0 |}).
  assert (H0 : subset_ok s0) by (constructor; cbn [s0 vfIncluded nTotal vfBest nBest]; [by rewrite length_replicate|by rewrite sel_sum_none|lia|done]).
  assert (H1 : subset_ok (subset_pass rand_bit target true vValue 0 s0)) by (apply subset_pass_ok; [done| |done]; intros _ j _; cbn; rewrite nth_lookup; destruct (replicate _ _ !! j) eqn:E; [by apply lookup_replicate in E as [-> _]|done]).
  case_if; [apply H1|]. apply so_best, subset_pass_ok; [done|done|exact H1].
Qed.
Lemma subset_reps_ok n : forall s, best_ok (vfBest s) (nBest s) -> best_ok (vfBest (subset_reps rand_bit n target vValue s)) (nBest (subset_reps rand_bit n target vValue s)).
Proof. induction n as [|n IH]; intros s Hs; cbn [subset_reps]; [done|]. case_if; [done|]. apply IH. by apply subset_rep_ok. Qed.
Lemma ApproximateBestSubset_ok n r vf best r' : target <= sumZ (values vValue) -> ApproximateBestSubset rand_bit vValue (sumZ (values vValue)) target n r = (vf, best, r') -> best_ok vf best.
Proof.
  intros Ht. unfold ApproximateBestSubset. set (s := subset_reps _ _ _ _ _). intros [= <- <- _]. apply subset_reps_ok. constructor; cbn [vfBest nBest]; [by rewrite length_replicate|by rewrite sel_sum_all|lia|lia].
Qed.
End SubsetLemmas.

(** ** The choice *)

Section Choice.
Variables (rand_bit : nat -> bool) (target : Z).
Lemma sum_values_sumZ l : sum_values l = s64 (sumZ (values l)).
Proof.
  unfold sum_values, values. transitivity (foldl (fun a x => s64 (a + x)) (s64 0) (map fst l)); [|by rewrite foldl_s64].
  change (s64 0) with 0. generalize 0. induction l as [|c l IH]; intros n; cbn; [done|apply IH].
Qed.
Lemma sumZ_perm l1 l2 : Permutation l1 l2 -> sumZ l1 = sumZ l2.
Proof. unfold sumZ. induction 1; cbn; lia. Qed.
Lemma values_perm (l1 l2 : list coin) : Permutation l1 l2 -> sumZ (values l1) = sumZ (values l2).
Proof. intros H. apply sumZ_perm. unfold values. by apply Permutation_map. Qed.
Lemma values_one (c : coin) : sumZ (values [c]) = c.1.
Proof. cbn. lia. Qed.
Lemma submseteq_sum (l1 l2 : list coin) : Forall (fun c => 0 <= c.1) l2 -> l1 ⊆+ l2 -> 0 <= sumZ (values l1) <= sumZ (values l2).
Proof.
  intros H [k Hk]%submseteq_Permutation. rewrite (values_perm _ _ Hk). unfold values. rewrite map_app, sumZ_app. rewrite Hk in H. apply Forall_app in H as [H1 H2].
  assert (Hn : forall l : list coin, Forall (fun c => 0 <= c.1) l -> 0 <= sumZ (map fst l)) by (intros l H; apply sumZ_nonneg, Forall_map; by eapply Forall_impl). pose proof (Hn _ H1). pose proof (Hn _ H2). lia.
Qed.

(** smaller coins whose sum is known, and a larger one *)
Record sorted_ok (vValue : list coin) (nTotalLower : Z) (low : option coin) : Prop := {
  sk_pos : Forall (fun c => 0 <= c.1) vValue; sk_sum : nTotalLower = sumZ (values vValue); sk_max : sumZ (values vValue) < 2 ^ 63; sk_low : match low with Some c => target + CENT <= c.1 | None => True end }.
Lemma choose_coins_ok vValue nTotalLower low r : 0 < target -> target + CENT < 2 ^ 63 -> sorted_ok vValue nTotalLower low ->
  match (choose_coins rand_bit target vValue nTotalLower low r).1 with
  | Some l => l ⊆+ vValue ++ option_list low /\ target <= sumZ (values l)
  | None => sumZ (values vValue) < target /\ low = None
  end.
Proof.
  intros Ht Hc [Hp Hs Hm Hl]. assert (0 <= CENT) by (unfold CENT; lia). unfold choose_coins. rewrite (s64_small (target + CENT)) by lia.
  destruct (nTotalLower =? target) eqn:E1; b2p; [cbn; split; [by apply submseteq_inserts_r|lia]|]. destruct (nTotalLower <? target) eqn:E2; b2p.
  { destruct low as [c|]; cbn [fst fmap option_fmap option_map option_list]; [|split; [lia|done]]. split; [by apply submseteq_inserts_l|]. rewrite values_one. lia. }
  set (vs := merge_sort larger vValue). assert (Hv : vs ≡ₚ vValue) by apply merge_sort_Permutation.
  assert (Hpv : Forall (fun c => 0 <= c.1) vs) by by rewrite Hv. pose proof (values_perm _ _ Hv) as Hsv. rewrite Hs, <- Hsv.
  destruct (ApproximateBestSubset rand_bit vs (sumZ (values vs)) target 1000 r) as [[vf best] r1] eqn:Ea.
  pose proof (ApproximateBestSubset_ok rand_bit vs target Hpv ltac:(lia) ltac:(lia) 1000 r vf best r1 ltac:(lia) Ea) as Hb1.
  assert (Hcase : forall vf2 best2 r2, (if negb (best =? target) && (target + CENT <=? sumZ (values vs)) then ApproximateBestSubset rand_bit vs (sumZ (values vs)) (target + CENT) 1000 r1 else (vf, best, r1)) = (vf2, best2, r2) ->
    picked vf2 vs ⊆+ vValue ++ option_list low /\ target <= sumZ (values (picked vf2 vs))).
  { intros vf2 best2 r2 H2. assert (target <= sel_sum vf2 vs).
    { destruct (negb _ && _) eqn:E3; [|injection H2 as <- _ _; destruct Hb1; lia]. b2p.
      pose proof (ApproximateBestSubset_ok rand_bit vs (target + CENT) Hpv ltac:(lia) ltac:(lia) 1000 r1 vf2 best2 r2 ltac:(lia) H2) as []. lia. }
    split; [|done]. transitivity vs; [by apply sublist_submseteq, picked_sub|]. rewrite Hv. by apply submseteq_inserts_r. }
  destruct (if negb (best =? target) && _ then _ else _) as [[vf2 best2] r2]. specialize (Hcase vf2 best2 r2 eq_refl). destruct low as [c|]; [|exact Hcase]. case_if; [|exact Hcase].
  cbn [fst option_list]. split; [by apply submseteq_inserts_l|]. rewrite values_one. lia.
Qed.
End Choice.

(** ** Who sent a coin does not change while coins are chosen *)

Section Steady.
Context {K : Crypto} {C : Cipher}.

Definition from_me (wl : CWallet) (h : Z) : option bool := let? w := mapWallet wl !! h in fst <$> wtx_IsFromMe wl w.
Definition steady (wl wl' : CWallet) : Prop := same_but_caches wl wl' /\ forall h, from_me wl' h = from_me wl h.
#[export] Instance steady_pre : PreOrder steady.
Proof. split; [by intros wl; split|]. intros a b c [H1 E1] [H2 E2]. split; [by etransitivity|]. intros h. by rewrite E2. Qed.
Lemma same_wtx_IsFromMe wl wl' w : same_but_caches wl wl' -> wtx_IsFromMe wl' w = wtx_IsFromMe wl w.
Proof. intros H. unfold wtx_IsFromMe, wtx_GetDebit. by rewrite (same_GetDebit _ _ _ H). Qed.
Lemma wtx_IsFromMe_again wl w me w1 : wtx_IsFromMe wl w = Some (me, w1) -> recached w w1 /\ wtx_IsFromMe wl w1 = Some (me, w1).
Proof.
  unfold wtx_IsFromMe. destruct (wtx_GetDebit wl w) as [[d w2]|] eqn:E; [|done]. intros [= <- <-]. split; [by eapply wtx_GetDebit_recached|]. revert E. unfold wtx_GetDebit. case_bool_decide as Hv.
  - intros [= <- <-]. by rewrite bool_decide_eq_true_2.
  - destruct (c_debit (wt_cache w)) as [v|] eqn:Ec; [intros [= <- <-]; rewrite bool_decide_eq_false_2 by done; by rewrite Ec|]. destruct (GetDebit wl (wt_tx w)) as [v|]; [|done]. intros [= <- <-].
    change (wt_tx (set_cache _ w)) with (wt_tx w). rewrite bool_decide_eq_false_2 by done. done.
Qed.
Lemma steady_put wl h w me w1 : mapWallet wl !! h = Some w -> wtx_IsFromMe wl w = Some (me, w1) -> steady wl (put_tx h w1 wl).
Proof.
  intros Hw H. apply wtx_IsFromMe_again in H as Hr. destruct Hr as [Hr Ha]. pose proof (recached_put h w w1 wl Hw Hr) as Hs. split; [done|]. intros h1. unfold from_me. cbn [put_tx with_wallet mapWallet].
  destruct (decide (h1 = h)) as [->|Hne].
  - rewrite lookup_insert_eq, Hw, (same_wtx_IsFromMe _ _ _ Hs), Ha, H. done.
  - rewrite lookup_insert_ne by done. destruct (mapWallet wl !! h1); [|done]. by rewrite (same_wtx_IsFromMe _ _ _ Hs).
Qed.
Lemma same_coin_value wl wl' c : same_but_caches wl wl' -> coin_value wl' c = coin_value wl c.
Proof. intros [_ H]. unfold coin_value, coin_out. specialize (H (co_tx c)). by destruct H as [x y [k ->]|]. Qed.

(** deep enough *)
Definition eligible (nConfMine nConfTheirs : Z) (wl : CWallet) (c : COutput) : bool :=
  match from_me wl (co_tx c) with Some me => negb (co_nDepth c <? (if me then nConfMine else nConfTheirs)) | None => false end.
Definition senders_known (wl : CWallet) (l : list COutput) : Prop := Forall (fun c => is_Some (from_me wl (co_tx c))) l.
Lemma steady_eligible m t wl wl' c : steady wl wl' -> eligible m t wl' c = eligible m t wl c.
Proof. intros [_ H]. unfold eligible. by rewrite H. Qed.

Variables (target m t : Z).
(** what the loop over the coins has found *)
Record sorted_as (E vs : list coin) (lower : Z) (low : option coin) (vs' : list coin) (lower' : Z) (low' : option coin) : Prop := {
  sa_vs : vs' = vs ++ List.filter (fun c => c.1 <? target + CENT) E;
  sa_lower : lower' = foldl (fun n c => s64 (n + c.1)) lower (List.filter (fun c => c.1 <? target + CENT) E);
  sa_low : match low' with Some c => low = Some c \/ c ∈ E /\ target + CENT <= c.1 | None => low = None /\ Forall (fun c => c.1 < target + CENT) E end }.
Lemma sort_coins_spec wl0 l : 0 < target -> target + CENT < 2 ^ 63 -> senders_known wl0 l -> Forall (fun c => 0 <= coin_value wl0 c < 2 ^ 63 - 1) l -> forall vs lower low wl, steady wl0 wl ->
  exists res wl', sort_coins target m t l vs lower low wl = Some (res, wl') /\ steady wl0 wl' /\
  match res with
  | Exact c => c.1 = target /\ c ∈ map (coin_of wl0) (List.filter (eligible m t wl0) l)
  | Sorted vs' lower' low' => sorted_as (map (coin_of wl0) (List.filter (eligible m t wl0) l)) vs lower low vs' lower' low'
  end.
Proof.
  intros Ht Hc Hk Hv. assert (0 < CENT) by (unfold CENT; lia). induction l as [|o l IH]; intros vs lower low wl Hs; cbn [sort_coins List.filter map].
  { eexists _, _. split; [done|]. split; [done|]. constructor; cbn; [by rewrite app_nil_r|done|]. by destruct low; [left|]. }
  inversion Hk as [|? ? [me Hme] Hk']; subst. inversion Hv as [|? ? Hvo Hv']; subst. pose proof Hme as Hme'. destruct Hs as [Hsame Hfm]. rewrite <- Hfm in Hme'. unfold from_me in Hme'.
  destruct (mapWallet wl !! co_tx o) as [w|] eqn:Ew; [|done]. destruct (wtx_IsFromMe wl w) as [[me' w1]|] eqn:Ei; [|done]. cbn in Hme'. injection Hme' as ->.
  assert (Hs1 : steady wl0 (put_tx (co_tx o) w1 wl)) by (etransitivity; [by split|by eapply steady_put]).
  assert (Ec : coin_of (put_tx (co_tx o) w1 wl) o = coin_of wl0 o) by (unfold coin_of; by rewrite (same_coin_value wl0 _ o (proj1 Hs1))). rewrite Ec.
  assert (Ee : eligible m t wl0 o = negb (co_nDepth o <? (if me then m else t))) by (unfold eligible; by rewrite Hme). rewrite Ee.
  specialize (IH Hk' Hv'). destruct (co_nDepth o <? (if me then m else t)); cbn [negb map]; [by apply IH|]. rewrite (s64_small (target + CENT)) by lia.
  change (coin_value wl0 o) with (coin_of wl0 o).1 in Hvo. set (c := coin_of wl0 o) in *. set (E := map (coin_of wl0) (List.filter (eligible m t wl0) l)) in *.
  destruct (c.1 =? target) eqn:E1; b2p; [eexists _, _; split; [done|]; split; [done|]; split; [done|left]|].
  assert (Hadd : forall res, (match res with Exact c1 => c1.1 = target /\ c1 ∈ E | Sorted _ _ _ => True end) -> match res with Exact c1 => c1.1 = target /\ c1 ∈ c :: E | Sorted _ _ _ => True end) by (intros []; [intros [? ?]; split; [done|by right]|done]).
  destruct (c.1 <? target + CENT) eqn:E2; b2p.
  - destruct (IH (vs ++ [c]) (s64 (lower + c.1)) low (put_tx (co_tx o) w1 wl) Hs1) as (res & wl' & Hr & Hs' & Hres). exists res, wl'. split; [done|]. split; [done|]. destruct res as [c1|vs' lower' low']; [by apply (Hadd (Exact c1))|].
    destruct Hres as [R1 R2 R3]. constructor; cbn [List.filter]; rewrite ?(proj2 (Z.ltb_lt _ _) E2); [by rewrite R1, <- app_assoc|done|].
    destruct low' as [c1|]; [destruct R3 as [?|[? ?]]; [by left|right; split; [by right|done]]|]. destruct R3. split; [done|]. by constructor.
  - assert (Hrest : forall low1, match low1 with Some c1 => low = Some c1 \/ c1 = c | None => False end ->
      exists res wl', sort_coins target m t l vs lower low1 (put_tx (co_tx o) w1 wl) = Some (res, wl') /\ steady wl0 wl' /\ match res with Exact c1 => c1.1 = target /\ c1 ∈ c :: E | Sorted vs' lower' low' => sorted_as (c :: E) vs lower low vs' lower' low' end).
    { intros low1 Hl. destruct (IH vs lower low1 (put_tx (co_tx o) w1 wl) Hs1) as (res & wl' & Hr & Hs' & Hres). exists res, wl'. split; [done|]. split; [done|]. destruct res as [c1|vs' lower' low']; [by apply (Hadd (Exact c1))|].
      destruct Hres as [R1 R2 R3]. constructor; cbn [List.filter]; rewrite ?(proj2 (Z.ltb_ge _ _) E2); [done|done|]. destruct low1 as [c2|]; [|done]. destruct low' as [c1|]; [|by destruct R3].
      destruct R3 as [[= ->]|[? ?]]; [destruct Hl as [?| ->]; [by left|right; split; [left|done]]|right; split; [by right|done]]. }
    destruct (c.1 <? match low with Some l0 => l0.1 | None => 2 ^ 63 - 1 end) eqn:E3; b2p; apply Hrest; [by right|]. destruct low as [c1|]; [by left|lia].
Qed.
End Steady.

(** ** The selection *)

Section Selection.
Context {K : Crypto} {C : Cipher}.
Variables (rand_bit : nat -> bool) (shuffle : nat -> list COutput -> list COutput) (target : Z).
Hypothesis Hshuffle : forall k l, Permutation (shuffle k l) l.
Hypotheses (Hpos : 0 < target) (Htop : target + CENT < 2 ^ 63).

Lemma filter_perm {A} (f : A -> bool) l1 l2 : Permutation l1 l2 -> Permutation (List.filter f l1) (List.filter f l2).
Proof. induction 1; cbn; [done|destruct (f x); [by constructor|done]|destruct (f x), (f y); try done; by constructor|by etransitivity]. Qed.
Lemma filter_split {A} (f : A -> bool) l : Permutation l (List.filter f l ++ List.filter (fun x => negb (f x)) l).
Proof. induction l as [|x l IH]; cbn; [done|]. destruct (f x); cbn; [by constructor|]. rewrite <- Permutation_middle. by constructor. Qed.
Lemma submseteq_of_map {A B} (f : A -> B) (l : list B) (L : list A) : l ⊆+ map f L -> exists L', L' ⊆+ L /\ l = map f L'.
Proof.
  intros [k Hk]%submseteq_Permutation. symmetry in Hk. apply Permutation_map_inv in Hk as (L3 & E & HP). symmetry in E. apply map_eq_app in E as (la & lb & -> & <- & _).
  exists la. split; [|done]. rewrite HP. by apply submseteq_inserts_r.
Qed.
Lemma filter_submseteq {A} (f : A -> bool) l : List.filter f l ⊆+ l.
Proof. rewrite (filter_split f l) at 2. by apply submseteq_inserts_r. Qed.

Definition key_of (c : COutput) : Z * nat := (co_tx c, co_i c).
Definition total (wl : CWallet) (l : list COutput) : Z := sumZ (map (coin_value wl) l).
(** a choice among [vCoins] *)
Definition chosen (wl : CWallet) (vCoins : list COutput) (S : gset (Z * nat)) (v : Z) : Prop :=
  exists l, l ⊆+ vCoins /\ S = list_to_set (map key_of l) /\ v = total wl l /\ target <= v.
Lemma values_coin_of wl l : values (map (coin_of wl) l) = map (coin_value wl) l.
Proof. unfold values. by rewrite map_map. Qed.
Lemma keys_coin_of wl l : coin_keys (map (coin_of wl) l) = list_to_set (map key_of l).
Proof. unfold coin_keys. by rewrite map_map. Qed.
Lemma chosen_of wl l vCoins : Forall (fun c => 0 <= coin_value wl c) vCoins -> total wl vCoins < 2 ^ 63 -> l ⊆+ map (coin_of wl) vCoins -> target <= sumZ (values l) -> chosen wl vCoins (coin_keys l) (sum_values l).
Proof.
  intros Hv Hm Hl Ht. assert (Hvc : Forall (fun c : coin => 0 <= c.1) (map (coin_of wl) vCoins)) by (by apply Forall_map). pose proof (submseteq_sum _ _ Hvc Hl) as Hb. rewrite values_coin_of in Hb. fold (total wl vCoins) in Hb.
  apply submseteq_of_map in Hl as (L & HL & ->). exists L. rewrite sum_values_sumZ, s64_small by lia. rewrite keys_coin_of, values_coin_of in *. done.
Qed.

Lemma SelectCoinsMinConf_spec m t vCoins r wl0 wl : senders_known wl0 vCoins -> Forall (fun c => 0 <= coin_value wl0 c < 2 ^ 63 - 1) vCoins -> total wl0 vCoins < 2 ^ 63 -> steady wl0 wl ->
  exists ok S v r' wl', SelectCoinsMinConf rand_bit shuffle target m t vCoins r wl = Some (ok, S, v, r', wl') /\ steady wl0 wl' /\
  if ok then target <= total wl0 (List.filter (eligible m t wl0) vCoins) /\ chosen wl0 (List.filter (eligible m t wl0) vCoins) S v else total wl0 (List.filter (eligible m t wl0) vCoins) < target /\ S = ∅ /\ v = 0.
Proof.
  intros Hk Hv Hm Hs. unfold SelectCoinsMinConf. set (l := shuffle r vCoins). assert (Hl : l ≡ₚ vCoins) by apply Hshuffle.
  assert (Hk' : senders_known wl0 l) by (unfold senders_known; by rewrite Hl). assert (Hv' : Forall (fun c => 0 <= coin_value wl0 c < 2 ^ 63 - 1) l) by by rewrite Hl.
  destruct (sort_coins_spec target m t wl0 l Hpos Htop Hk' Hv' [] 0 None wl Hs) as (res & wl' & -> & Hs' & Hres).
  set (L := List.filter (eligible m t wl0) vCoins). assert (HL : List.filter (eligible m t wl0) l ≡ₚ L) by by apply filter_perm. set (E := map (coin_of wl0) (List.filter (eligible m t wl0) l)) in *.
  assert (HE : E ≡ₚ map (coin_of wl0) L) by by apply Permutation_map. assert (HvL : Forall (fun c => 0 <= coin_value wl0 c) L).
  { apply Forall_forall. intros c Hc. apply list_elem_of_In, filter_In in Hc as [Hc _]. apply list_elem_of_In in Hc. rewrite Forall_forall in Hv. by apply Hv. }
  assert (HmL : 0 <= total wl0 L <= total wl0 vCoins).
  { pose proof (submseteq_sum (map (coin_of wl0) L) (map (coin_of wl0) vCoins)) as Hx. rewrite !values_coin_of in Hx. apply Hx; [apply Forall_map; eapply Forall_impl; [exact Hv|]; intros ? [? ?]; done|].
    destruct (submseteq_Permutation L vCoins (filter_submseteq _ _)) as [k Hp]. rewrite Hp, map_app. by apply submseteq_inserts_r. }
  assert (Hyes : forall l1, l1 ⊆+ E -> target <= sumZ (values l1) -> target <= total wl0 L /\ chosen wl0 L (coin_keys l1) (sum_values l1)).
  { intros l1 H1 Ht. rewrite HE in H1. split; [|apply chosen_of; [done|lia|done|done]]. apply (submseteq_sum l1) in H1; [|by apply Forall_map]. rewrite values_coin_of in H1. unfold total. lia. }
  destruct res as [c|vs lower low].
  - destruct Hres as [Hc Hin]. eexists true, _, _, (S r), wl'. split; [done|]. split; [done|]. apply (Hyes [c]); [|rewrite values_one; lia]. apply elem_of_Permutation in Hin as [k ->]. by apply (submseteq_inserts_r k [c] [c]).
  - destruct Hres as [R1 R2 R3]. cbn in R1. set (small := fun c : coin => c.1 <? target + CENT) in *.
    assert (HvE : Forall (fun c : coin => 0 <= c.1) E) by (rewrite HE; by apply Forall_map). assert (HsE : sumZ (values E) = total wl0 L) by (rewrite (values_perm _ _ HE), values_coin_of; done).
    pose proof (submseteq_sum _ _ HvE (filter_submseteq small E)) as Hsm. rewrite <- R1 in Hsm.
    assert (Hok : sorted_ok target vs lower low).
    { constructor; [|..|lia|].
      - rewrite R1. apply Forall_forall. intros c Hc. apply list_elem_of_In, filter_In in Hc as [Hc _]. apply list_elem_of_In in Hc. rewrite Forall_forall in HvE. by apply HvE.
      - rewrite R2, <- R1. fold (sum_values vs). rewrite sum_values_sumZ, s64_small by lia. done.
      - destruct low as [c|]; [|done]. destruct R3 as [?|[_ ?]]; done. }
    pose proof (choose_coins_ok rand_bit target vs lower low (S r) Hpos Htop Hok) as Hch. destruct (choose_coins rand_bit target vs lower low (S r)) as [[l1|] r1]; cbn [fst] in Hch.
    + destruct Hch as [H1 Ht]. eexists true, _, _, r1, wl'. split; [done|]. split; [done|]. apply Hyes; [|done]. rewrite H1, (filter_split small E), <- R1. apply submseteq_skips_l.
      destruct low as [c|]; cbn [option_list]; [|apply submseteq_nil_l]. destruct R3 as [?|[Hin Hc]]; [done|].
      assert (Hin2 : c ∈ List.filter (fun x => negb (small x)) E) by (apply list_elem_of_In, filter_In; split; [by apply list_elem_of_In|]; unfold small; apply negb_true_iff, Z.ltb_ge; lia).
      apply elem_of_Permutation in Hin2 as [k ->]. by apply (submseteq_inserts_r k [c] [c]).
    + destruct Hch as [H1 ->]. destruct R3 as [_ R3]. eexists false, _, _, r1, wl'. split; [done|]. split; [done|]. split; [|done]. rewrite <- HsE.
      assert (vs = E) as <-; [|done]. rewrite R1. apply forallb_filter_id, forallb_forall. intros c Hc. apply list_elem_of_In in Hc. rewrite Forall_forall in R3. by apply Z.ltb_lt, R3.
Qed.
End Selection.

(** ** Properties *)

Section SelectProperties.
Context {K : Crypto} {C : Cipher}.

Lemma coins_of_tx_keys cv wl h w : NoDup (map key_of (coins_of_tx cv wl h w)).
Proof.
  unfold coins_of_tx. rewrite map_map. apply (NoDup_fmap_1 snd). change (fmap (M := list) (snd (A := Z) (B := nat))) with (map (snd (A := Z) (B := nat))). rewrite map_map. assert (Hn : NoDup (map fst (outputs w))).
  { unfold outputs. assert (map fst (imap pair (vout (wt_tx w))) = seq 0 (length (vout (wt_tx w)))) as ->; [|apply NoDup_seq].
    change (map fst) with (fmap (M := list) (fst (A := nat) (B := CTxOut))). rewrite fmap_imap. generalize (vout (wt_tx w)). intros l.
    apply list_eq. intros i. rewrite list_lookup_imap. destruct (l !! i) eqn:E; cbn; symmetry; [apply lookup_seq; split; [lia|by apply lookup_lt_Some in E]|apply lookup_seq_ge; by apply lookup_ge_None in E]. }
  revert Hn. generalize (outputs w). intros l. induction l as [|x l IH]; cbn; [constructor|]. intros [Hx Hn]%NoDup_cons. specialize (IH Hn). destruct (spendable wl h w x); [|done]. cbn. constructor; [|done].
  intros Hin. apply Hx. apply list_elem_of_In, in_map_iff in Hin as (y & Ey & [Hy _]%filter_In). apply list_elem_of_In, in_map_iff. exists y. done.
Qed.
Lemma available_in_keys fuel cv b h wl w l w' : available_in fuel cv b h wl w = Some (l, w') -> NoDup (map key_of l) /\ Forall (fun c => co_tx c = h) l.
Proof.
  unfold available_in. assert (H0 : NoDup (map key_of []) /\ Forall (fun c => co_tx c = h) []) by (split; constructor). case_if; [by intros [= <- _]|]. destruct (if b then _ else _) as [[ok w1]|]; [|done].
  case_if; [by intros [= <- _]|]. case_if; [by intros [= <- _]|]. intros [= <- _]. split; [apply coins_of_tx_keys|]. apply Forall_forall. intros c Hc. by apply coins_of_tx_elem in Hc as [? _].
Qed.
Lemma AvailableCoins_keys fuel cv b wl l wl' : AvailableCoins fuel cv b wl = Some (l, wl') -> NoDup (map key_of l).
Proof.
  intros H. destruct (proj1 (available_coins_spec fuel cv b wl (wallet_hashes wl) (wallet_hashes_NoDup wl) wl (reflexivity _) (fun _ _ => eq_refl) l)) as (ls & Hls & ->); [by eexists|].
  pose proof (wallet_hashes_NoDup wl) as Hn. clear H. induction Hls as [|h l1 hs ls (w & w1 & _ & Ha) Hls IH]; cbn [concat map]; [constructor|]. apply NoDup_cons in Hn as [Hh Hn]. apply available_in_keys in Ha as [Ha1 Ha2].
  rewrite map_app. apply NoDup_app. split; [done|]. split; [|by apply IH]. intros k Hk Hk'. apply list_elem_of_In, in_map_iff in Hk as (c & <- & Hc), Hk' as (c' & Ec & Hc'). apply list_elem_of_In in Hc. rewrite Forall_forall in Ha2. apply Ha2 in Hc.
  apply in_concat in Hc' as (l2 & Hl2 & Hc'). apply list_elem_of_In, list_elem_of_lookup in Hl2 as [j Hj]. eapply Forall2_lookup_r in Hls as (h2 & Hh2 & w2 & w3 & _ & Hb); [|done]. apply available_in_keys in Hb as [_ Hb].
  rewrite Forall_forall in Hb. apply list_elem_of_In, Hb in Hc'. apply Hh. assert (h = h2) as ->; [|by eapply list_elem_of_lookup_2]. unfold key_of in Ec. congruence.
Qed.
Lemma eligible_weaker m m' t t' wl c : m' <= m -> t' <= t -> eligible m t wl c = true -> eligible m' t' wl c = true.
Proof. intros Hm Ht. unfold eligible. destruct (from_me wl (co_tx c)) as [[]|]; [| |done]; rewrite !negb_true_iff, !Z.ltb_ge; lia. Qed.
Lemma filter_weaker {A} (f g : A -> bool) l : (forall x, f x = true -> g x = true) -> List.filter f l ⊆+ List.filter g l.
Proof. intros H. induction l as [|x l IH]; cbn; [done|]. destruct (f x) eqn:E; [rewrite (H x E); by constructor|]. destruct (g x); [by constructor|done]. Qed.
Lemma total_weaker wl l1 l2 : Forall (fun c => 0 <= coin_value wl c) l2 -> l1 ⊆+ l2 -> total wl l1 <= total wl l2.
Proof.
  intros H Hl. pose proof (submseteq_sum (map (coin_of wl) l1) (map (coin_of wl) l2)) as Hx. rewrite !values_coin_of in Hx. apply Hx; [by apply Forall_map|]. destruct (submseteq_Permutation _ _ Hl) as [k ->]. rewrite map_app. by apply submseteq_inserts_r.
Qed.

(** *** Without any bounds: the chosen coins are among those given, and the value is their sum to the width of the type *)
Lemma sort_coins_sub target m t l : forall vs lower low wl res wl', sort_coins target m t l vs lower low wl = Some (res, wl') -> same_but_caches wl wl' /\
  match res with Exact c => [c] | Sorted vs' _ low' => vs' ++ option_list low' end ⊆+ (vs ++ option_list low) ++ map (coin_of wl) l.
Proof.
  induction l as [|o l IH]; intros vs lower low wl res wl'; cbn [sort_coins map]; [intros [= <- <-]; split; [done|by rewrite app_nil_r]|].
  destruct (mapWallet wl !! co_tx o) as [w|] eqn:Ew; [|done]. destruct (wtx_IsFromMe wl w) as [[me w1]|] eqn:Ei; [|done]. destruct (steady_put wl (co_tx o) w me w1 Ew Ei) as [Hs _].
  set (wl1 := put_tx (co_tx o) w1 wl) in *. assert (Em : map (coin_of wl1) l = map (coin_of wl) l) by (apply map_ext; intros c; unfold coin_of; by rewrite (same_coin_value wl wl1 c Hs)).
  assert (Ec : coin_of wl1 o = coin_of wl o) by (unfold coin_of; by rewrite (same_coin_value wl wl1 o Hs)). rewrite Ec. set (c := coin_of wl o).
  assert (Hstep : forall vs2 lower2 low2, vs2 ++ option_list low2 ⊆+ (vs ++ option_list low) ++ [c] -> sort_coins target m t l vs2 lower2 low2 wl1 = Some (res, wl') ->
    same_but_caches wl wl' /\ match res with Exact c => [c] | Sorted vs' _ low' => vs' ++ option_list low' end ⊆+ (vs ++ option_list low) ++ c :: map (coin_of wl) l).
  { intros vs2 lower2 low2 H2 H. apply IH in H as [H3 H4]. split; [by etransitivity|]. rewrite H4, Em. change (c :: map (coin_of wl) l) with ([c] ++ map (coin_of wl) l). rewrite (app_assoc _ [c]). by apply submseteq_skips_r. }
  case_if; [apply Hstep; by apply submseteq_inserts_r|]. case_if.
  { intros [= <- <-]. split; [done|]. apply submseteq_inserts_l. by apply (submseteq_inserts_r _ [c] [c]). }
  case_if; [apply Hstep; rewrite <- !app_assoc; by rewrite (Permutation_app_comm [c])|]. case_if; apply Hstep; [|by apply submseteq_inserts_r].
  rewrite <- app_assoc. apply submseteq_skips_l. by apply submseteq_inserts_l.
Qed.
Lemma choose_coins_sub rand_bit target vs lower low r l : (choose_coins rand_bit target vs lower low r).1 = Some l -> l ⊆+ vs ++ option_list low.
Proof.
  unfold choose_coins. case_if; [cbn; intros [= <-]; by apply submseteq_inserts_r|]. case_if; [destruct low as [c|]; cbn; [|done]; intros [= <-]; by apply submseteq_inserts_l|].
  assert (Hp : forall vf, picked vf (merge_sort larger vs) ⊆+ vs ++ option_list low).
  { intros vf. transitivity (merge_sort larger vs); [apply sublist_submseteq, picked_sub|]. rewrite merge_sort_Permutation. by apply submseteq_inserts_r. }
  destruct (ApproximateBestSubset _ _ _ _ _ _) as [[vf best] r1]. destruct (if negb _ && _ then _ else (vf, best, r1)) as [[vf2 best2] r2].
  destruct low as [c|]; [|cbn; intros [= <-]; apply Hp]. case_if; cbn [fst]; intros [= <-]; [|apply Hp]. by apply submseteq_inserts_l.
Qed.
Lemma SelectCoinsMinConf_sub rand_bit shuffle target m t vCoins r wl ok S v r' wl' : (forall k l, Permutation (shuffle k l) l) -> SelectCoinsMinConf rand_bit shuffle target m t vCoins r wl = Some (ok, S, v, r', wl') ->
  same_but_caches wl wl' /\ (ok = true -> exists l, l ⊆+ vCoins /\ S = list_to_set (map key_of l) /\ v = s64 (total wl l)).
Proof.
  intros Hsh. unfold SelectCoinsMinConf. destruct (sort_coins _ _ _ _ _ _ _ _) as [[res wl1]|] eqn:Es; [|done]. apply sort_coins_sub in Es as [Hs Hsub]. cbn [app option_list] in Hsub. rewrite (Permutation_map (coin_of wl) (Hsh r vCoins)) in Hsub.
  destruct (match res with Exact c => (Some [c], Datatypes.S r) | Sorted vValue nTotalLower low => choose_coins rand_bit target vValue nTotalLower low (Datatypes.S r) end) as [l1 r1] eqn:El.
  assert (Hl : forall l, l1 = Some l -> l ⊆+ map (coin_of wl) vCoins).
  { intros l ->. destruct res as [c|vs lower low]; [injection El as <- _; done|]. etransitivity; [|exact Hsub]. apply (choose_coins_sub rand_bit target vs lower low (Datatypes.S r)). by rewrite El. }
  destruct l1 as [l|]; intros [= <- <- <- <- <-]; (split; [done|]); [|done]. intros _. destruct (submseteq_of_map _ _ _ (Hl l eq_refl)) as (L & HL & ->). exists L. split; [done|]. rewrite keys_coin_of. split; [done|]. rewrite sum_values_sumZ, values_coin_of. done.
Qed.
Lemma SelectCoins_sub rand_bit shuffle fuel cv target r wl ok S v r' wl' : (forall k l, Permutation (shuffle k l) l) -> SelectCoins rand_bit shuffle fuel cv target r wl = Some (ok, S, v, r', wl') ->
  same_but_caches wl wl' /\ (ok = true -> exists l, NoDup (map key_of l) /\ (forall c, c ∈ l -> exists w o, is_coin fuel cv true wl c w o) /\ S = list_to_set (map key_of l) /\ v = s64 (total wl l) /\
    exists vCoins wl1, AvailableCoins fuel cv true wl = Some (vCoins, wl1) /\ l ⊆+ vCoins).
Proof.
  intros Hsh. unfold SelectCoins. destruct (AvailableCoins fuel cv true wl) as [[vCoins wl1]|] eqn:Ea; [|done]. pose proof (AvailableCoins_recached _ _ _ _ _ _ Ea) as H1. pose proof (AvailableCoins_keys _ _ _ _ _ _ Ea) as Hnd.
  assert (Hup : forall wla, same_but_caches wl wla -> (exists l, l ⊆+ vCoins /\ S = list_to_set (map key_of l) /\ v = s64 (total wla l)) ->
    exists l, NoDup (map key_of l) /\ (forall c, c ∈ l -> exists w o, is_coin fuel cv true wl c w o) /\ S = list_to_set (map key_of l) /\ v = s64 (total wl l) /\ exists vCoins0 wl2, Some (vCoins, wl1) = Some (vCoins0, wl2) /\ l ⊆+ vCoins0).
  { intros wla Ha (l & Hl & HS & Hv). exists l. destruct (submseteq_Permutation l vCoins Hl) as [k Hk]. split; [|split; [|split; [done|split; [|by exists vCoins, wl1]]]].
    - apply (Permutation_map key_of) in Hk. rewrite map_app in Hk. rewrite Hk in Hnd. by apply NoDup_app in Hnd as [? _].
    - intros c Hc. rewrite <- (AvailableCoins_elem _ _ _ _ _ _ _ Ea). by eapply elem_of_submseteq.
    - rewrite Hv. unfold total. do 2 f_equal. apply map_ext. intros c. by apply same_coin_value. }
  destruct (SelectCoinsMinConf _ _ _ 1 6 _ _ _) as [[[[[ok1 S1] v1] r1] w1]|] eqn:E1; [|done]. apply SelectCoinsMinConf_sub in E1 as [H2 L1]; [|done].
  assert (Hs2 : same_but_caches wl w1) by by etransitivity. destruct ok1; [intros [= <- <- <- <- <-]; split; [done|]; intros _; apply (Hup wl1 H1), L1; done|].
  destruct (SelectCoinsMinConf _ _ _ 1 1 _ _ _) as [[[[[ok2 S2] v2] r2] w2]|] eqn:E2; [|done]. apply SelectCoinsMinConf_sub in E2 as [H3 L2]; [|done].
  assert (Hs3 : same_but_caches wl w2) by by etransitivity. destruct ok2; [intros [= <- <- <- <- <-]; split; [done|]; intros _; apply (Hup w1 Hs2), L2; done|].
  intros H. apply SelectCoinsMinConf_sub in H as [H4 L3]; [|done]. split; [by etransitivity|]. intros ->. apply (Hup w2 Hs3), L3. done.
Qed.

(** what a selection is: it succeeds when the eligible coins suffice, with distinct spendable coins and their sum *)
Definition selection (fuel : nat) (cv : chain_view) (target : Z) (wl wl1 : CWallet) (vCoins : list COutput) (ok : bool) (chosen_keys : gset (Z * nat)) (v : Z) : Prop :=
  (ok = true <-> target <= total wl1 (List.filter (eligible 0 1 wl1) vCoins)) /\
  if ok then exists l, NoDup (map key_of l) /\ (forall c, c ∈ l -> eligible 0 1 wl1 c = true /\ exists w o, is_coin fuel cv true wl c w o) /\ chosen_keys = list_to_set (map key_of l) /\ v = total wl l /\ target <= v
  else chosen_keys = ∅ /\ v = 0.

(** C34: Coins are selected exactly when they suffice: for every outcome of the shuffling and of the random search, [SelectCoins] returns, it finds coins if and only if the spendable coins that are confirmed, or own and supported, add up to the target; the coins it returns are spendable coins of the wallet, each at most once, the value it returns is their sum and covers the target, and the wallet changes in nothing but its caches. *)
Theorem SelectCoins_correct rand_bit shuffle fuel cv target r wl vCoins wl1 : (forall k l, Permutation (shuffle k l) l) -> 0 < target -> target + CENT < 2 ^ 63 ->
  AvailableCoins fuel cv true wl = Some (vCoins, wl1) -> senders_known wl1 vCoins -> total wl1 vCoins < 2 ^ 63 - 1 ->
  exists ok S v r' wl', SelectCoins rand_bit shuffle fuel cv target r wl = Some (ok, S, v, r', wl') /\ same_but_caches wl wl' /\ selection fuel cv target wl wl1 vCoins ok S v.
Proof.
  intros Hsh Hp Ht Ha Hk Hm. pose proof (AvailableCoins_recached _ _ _ _ _ _ Ha) as Hs1. pose proof (AvailableCoins_keys _ _ _ _ _ _ Ha) as Hnd. unfold SelectCoins. rewrite Ha.
  assert (Hv0 : forall c, c ∈ vCoins -> 0 <= coin_value wl1 c).
  { intros c Hc. rewrite (AvailableCoins_elem _ _ _ _ _ _ _ Ha) in Hc. destruct Hc as (w & o & [Hw Ho _ _ _ Hpo _ _ _ _]). rewrite (same_coin_value wl wl1 c Hs1). unfold coin_value, coin_out. rewrite Hw, Ho. lia. }
  assert (Hvn : forall f, Forall (fun c => 0 <= coin_value wl1 c) (List.filter f vCoins)) by (intros f; apply Forall_forall; intros c Hc; apply list_elem_of_In, filter_In in Hc as [Hc _]; apply Hv0; by apply list_elem_of_In).
  assert (Hv : Forall (fun c => 0 <= coin_value wl1 c < 2 ^ 63 - 1) vCoins).
  { apply Forall_forall. intros c Hc. split; [by apply Hv0|]. eapply Z.le_lt_trans; [|exact Hm]. transitivity (total wl1 [c]); [unfold total; cbn; lia|]. apply total_weaker; [by apply Forall_forall|]. apply elem_of_Permutation in Hc as [k ->]. by apply (submseteq_inserts_r k [c] [c]). }
  assert (Hup : forall m t S v, 0 <= m -> 1 <= t -> chosen target wl1 (List.filter (eligible m t wl1) vCoins) S v ->
    exists l, NoDup (map key_of l) /\ (forall c, c ∈ l -> eligible 0 1 wl1 c = true /\ exists w o, is_coin fuel cv true wl c w o) /\ S = list_to_set (map key_of l) /\ v = total wl l /\ target <= v).
  { intros m t S v Hm0 Ht0 (l & Hl & HS & Hvv & Htv). exists l. split; [|split; [|split; [done|split; [|done]]]].
    - destruct (submseteq_Permutation l vCoins) as [k Hk2]; [etransitivity; [exact Hl|apply filter_submseteq]|]. apply (Permutation_map key_of) in Hk2. rewrite map_app in Hk2. rewrite Hk2 in Hnd. by apply NoDup_app in Hnd as [? _].
    - intros c Hc. assert (Hc2 : c ∈ List.filter (eligible m t wl1) vCoins) by (eapply elem_of_submseteq; done). apply list_elem_of_In, filter_In in Hc2 as [Hc2 He]. split; [by eapply (eligible_weaker m 0 t 1)|].
      rewrite <- (AvailableCoins_elem _ _ _ _ _ _ _ Ha). by apply list_elem_of_In.
    - rewrite Hvv. unfold total. f_equal. apply map_ext. intros c. by apply same_coin_value. }
  assert (Hmore : forall m t, 0 <= m -> 1 <= t -> total wl1 (List.filter (eligible m t wl1) vCoins) <= total wl1 (List.filter (eligible 0 1 wl1) vCoins)).
  { intros m t Hm0 Ht0. apply total_weaker; [apply Hvn|]. apply filter_weaker. intros c. by apply eligible_weaker. }
  destruct (SelectCoinsMinConf_spec rand_bit shuffle target Hsh Hp Ht 1 6 vCoins r wl1 wl1 Hk Hv ltac:(lia) (reflexivity _)) as (ok1 & S1 & v1 & r1 & w1 & -> & Hw1 & H1).
  assert (Hdone : forall m t S v (r' : nat) (w' : CWallet), 0 <= m -> 1 <= t -> steady wl1 w' -> target <= total wl1 (List.filter (eligible m t wl1) vCoins) /\ chosen target wl1 (List.filter (eligible m t wl1) vCoins) S v ->
    exists ok S0 v0 r0 wl', Some (true, S, v, r', w') = Some (ok, S0, v0, r0, wl') /\ same_but_caches wl wl' /\ selection fuel cv target wl wl1 vCoins ok S0 v0).
  { intros m t S v r' w' Hm0 Ht0 [Hw _] [Hle Hc]. eexists true, S, v, r', w'. split; [done|]. split; [by etransitivity|]. split; [split; [intros _; specialize (Hmore m t Hm0 Ht0); lia|done]|]. by eapply Hup. }
  destruct ok1; [by eapply (Hdone 1 6); [lia|lia|..]|].
  destruct (SelectCoinsMinConf_spec rand_bit shuffle target Hsh Hp Ht 1 1 vCoins r1 wl1 w1 Hk Hv ltac:(lia) Hw1) as (ok2 & S2 & v2 & r2 & w2 & -> & Hw2 & H2).
  destruct ok2; [by eapply (Hdone 1 1); [lia|lia|..]|].
  destruct (SelectCoinsMinConf_spec rand_bit shuffle target Hsh Hp Ht 0 1 vCoins r2 wl1 w2 Hk Hv ltac:(lia) Hw2) as (ok3 & S3 & v3 & r3 & w3 & -> & Hw3 & H3).
  destruct ok3; [by eapply (Hdone 0 1); [lia|lia|..]|]. destruct H3 as [H3 [-> ->]]. eexists false, ∅, 0, r3, w3. split; [done|]. split; [etransitivity; [done|apply Hw3]|]. split; [split; [done|lia]|done].
Qed.
End SelectProperties.

Definition demo_select (target : Z) (wl : CWallet) := SelectCoins (K := ToyCrypto) (C := ToyCipher) Nat.even (fun _ l => rev l) 9 demo_chain target 0 wl.
(** of the coins of 5 and 3, one suffices for 4, both for 7, and they do not for 9 *)
Example demo_selects : (let? wl := demo_funded in Some (map (fun t => match demo_select (t * COIN) wl with Some (ok, s, v, _, _) => (ok, size s, v / COIN) | None => (false, 0%nat, -1) end) [4; 7; 8; 9])) = Some [(true, 1%nat, 5); (true, 2%nat, 8); (true, 2%nat, 8); (false, 0%nat, 0)].
Proof. vm_compute. reflexivity. Qed.
Lemma SelectCoins_correct_witness : exists wl vCoins wl1 ok S v r' wl', demo_funded = Some wl /\ AvailableCoins (K := ToyCrypto) (C := ToyCipher) 9 demo_chain true wl = Some (vCoins, wl1) /\
  demo_select (4 * COIN) wl = Some (ok, S, v, r', wl') /\ same_but_caches wl wl' /\ selection (K := ToyCrypto) (C := ToyCipher) 9 demo_chain (4 * COIN) wl wl1 vCoins ok S v.
Proof.
  assert (H : (match demo_funded with Some wl => match AvailableCoins (K := ToyCrypto) (C := ToyCipher) 9 demo_chain true wl with Some (l, wl1) => forallb (fun c => bool_decide (is_Some (from_me (K := ToyCrypto) (C := ToyCipher) wl1 (co_tx c)))) l && (total wl1 l <? 2 ^ 63 - 1)
    | None => false end | None => false end) = true) by (vm_compute; reflexivity).
  destruct demo_funded as [wl|]; [|discriminate H]. destruct (AvailableCoins _ _ _ wl) as [[l wl1]|] eqn:Ea; [|discriminate H]. apply andb_prop in H as [Hk Ht].
  assert (Hs : senders_known (K := ToyCrypto) (C := ToyCipher) wl1 l) by (apply Forall_forall; intros c Hc; apply list_elem_of_In in Hc; rewrite forallb_forall in Hk; exact (bool_decide_eq_true_1 _ (Hk c Hc))). apply Z.ltb_lt in Ht.
  destruct (SelectCoins_correct (K := ToyCrypto) (C := ToyCipher) Nat.even (fun _ l => rev l) 9 demo_chain (4 * COIN) 0 wl l wl1 (fun _ l => Permutation_sym (Permutation_rev l)) eq_refl eq_refl Ea Hs Ht) as (ok & S & v & r' & wl' & Hx).
  exists wl, l, wl1, ok, S, v, r', wl'. exact (conj eq_refl (conj Ea Hx)).
Defined.
