(* ===== verification/CreateTx.v ===== *)
(** * Making a transaction (wallet.cpp)

    [CreateTransaction], which chooses coins for the payments and a fee, makes the change, signs, and starts again with a higher fee when the transaction turns out
    larger than it paid for; and [CommitTransaction] and [SendMoney] on top of it.  The order in which a set of coins is walked, which is that of pointers, and the place
    of the change are functions given from outside; the priority, a floating point number that nothing reads, is left out.  The properties: the loop ends; and what it
    makes pays the payees, spends distinct spendable coins, and pays the difference as a fee, which is at least what its size requires. *)

From stdpp Require Import gmap sorting.
From S2P Require Import Prelude OpenSSL BigNum Target Serialize Crypto Script Transaction ScriptEval ScriptStd KeyStore KeyPool Coins View Merkle Block Chain Mempool Wallet CoinSelect.
Local Open Scope Z_scope.

Inductive create_error := AmountsPositive | AmountTooSmall | InsufficientFunds | SigningFailed | TooLarge.
(** [nTransactionFee] and the two static fees of [CTransaction] *)
Record fees := { f_nTransactionFee : Z; f_nMinTxFee : Z; f_nMinRelayTxFee : Z }.

Section Create.
Context {B : OpenSSLBN} {K : Crypto} {C : Cipher} {E : CacheEnv}.
(** the keys drawn, the time and the size of the key pool; the random bits, the shuffling, the order of a set of coins, and the position of the change among so many *)
Variables (draw : nat -> Z) (now nPool : Z) (rand_bit : nat -> bool) (shuffle : nat -> list COutput -> list COutput) (order : gset (Z * nat) -> list (Z * nat)) (change_pos : nat -> nat -> nat).
Variables (f : fees) (fuel : nat) (cv : chain_view).

(** what the loop works on: the wallet, the reserved key, the signature cache and the random bits drawn *)
Record create_state := { cs_wallet : CWallet; cs_key : CReserveKey; cs_cache : SigCache.CSignatureCache; cs_rand : nat }.
Definition set_key (k : CReserveKey) (p : key_pool) (s : create_state) : create_state :=
  {| cs_wallet := with_pool_book p (mapAddressBook (cs_wallet s)) (cs_wallet s); cs_key := k; cs_cache := cs_cache s; cs_rand := cs_rand s |}.
(** [None]: negative before the end *)
Fixpoint add_sends (vecSend : list (bytes * Z)) (nValue : Z) : option Z :=
  match vecSend with [] => Some nValue | s :: r => if nValue <? 0 then None else add_sends r (s64 (nValue + s.2)) end.
(** the change after what is moved to the fee, and the fee *)
Definition move_to_fee (nChange nFee : Z) : Z * Z :=
  let '(nChange, nFee) :=
    if (nFee <? f_nMinTxFee f) && (0 <? nChange) && (nChange <? CENT) then
      let nMoveToFee := Z.min nChange (s64 (f_nMinTxFee f - nFee)) in (s64 (nChange - nMoveToFee), s64 (nFee + nMoveToFee))
    else (nChange, nFee) in
  if (0 <? nChange) && (nChange <? MIN_TXOUT_AMOUNT) then (0, s64 (nFee + nChange)) else (nChange, nFee).
Definition insert_at {A} (n : nat) (x : A) (l : list A) : list A := take n l ++ x :: drop n l.
(** the outputs with the change, and the fee; [None]: an assertion fails *)
Definition add_change (nChange nFee : Z) (outs : list CTxOut) (s : create_state) : option (list CTxOut * Z * create_state) :=
  if 0 <? nChange then
    let? (key, k, p) := GetReservedKey draw now nPool (cs_key s) (wl_pool (cs_wallet s)) in
    let? vchPubKey := key in
    let s := set_key k p s in
    let newTxOut := {| nValue := nChange; scriptPubKey := SetDestination (CKeyID (GetID vchPubKey)) |} in
    if IsDust (f_nMinRelayTxFee f) newTxOut then let '(k, p) := ReturnKey (cs_key s) (wl_pool (cs_wallet s)) in Some (outs, s64 (nFee + nChange), set_key k p s)
    else Some (insert_at (change_pos (cs_rand s) (length outs + 1)) newTxOut outs, nFee, s)
  else let '(k, p) := ReturnKey (cs_key s) (wl_pool (cs_wallet s)) in Some (outs, nFee, set_key k p s).
(** the inputs, signed one after the other *)
Fixpoint sign_inputs (wl : CWallet) (coins : list (Z * nat)) (nIn : Z) (tx : CTransaction) (cache : SigCache.CSignatureCache) : option (bool * CTransaction) * SigCache.CSignatureCache :=
  match coins with
  | [] => (Some (true, tx), cache)
  | c :: r =>
    match mapWallet wl !! c.1 with
    | None => (None, cache)
    | Some w =>
      let '(res, cache) := SignSignature_tx (wl_keystore wl) (wt_tx w) tx nIn SIGHASH_ALL cache in
      match res with
      | Some (true, tx) => sign_inputs wl r (nIn + 1) tx cache
      | Some (false, tx) => (Some (false, tx), cache)
      | None => (None, cache)
      end
    end
  end.
Definition coin_input (wl : CWallet) (c : Z * nat) : option CTxIn :=
  let? w := mapWallet wl !! c.1 in Some {| prevout := {| o_hash := GetHash (wt_tx w); o_n := Z.of_nat c.2 |}; scriptSig := []; nSequence := 2 ^ 32 - 1 |}.
(** the fee that the size of the transaction requires *)
Definition nPayFee (nBytes : Z) : Z := s64 (f_nTransactionFee f * (1 + nBytes / 1000)).
Definition required_fee (tx : CTransaction) : Z :=
  Z.max (nPayFee (GetSerializeSize ser_CTransaction tx)) (GetMinFee (f_nMinTxFee f) (f_nMinRelayTxFee f) tx 1 false GMF_SEND).

(** one turn of the loop: it is over with an error or a transaction and its fee, or starts again with another fee *)
Inductive turn := Failed (e : create_error) (nFee : Z) (s : create_state) | Made (tx : CTransaction) (nFee : Z) (s : create_state) | Again (nFee : Z) (s : create_state).
Definition create_once (vecSend : list (bytes * Z)) (nValueSum nFee : Z) (tx0 : CTransaction) (s : create_state) : option turn :=
  let payees := map (fun p => {| nValue := p.2; scriptPubKey := p.1 |}) vecSend in
  if existsb (IsDust (f_nMinRelayTxFee f)) payees then Some (Failed AmountTooSmall nFee s)
  else
    let? (ok, setCoins, nValueIn, r, wl) := SelectCoins rand_bit shuffle fuel cv (s64 (nValueSum + nFee)) (cs_rand s) (cs_wallet s) in
    let s := {| cs_wallet := wl; cs_key := cs_key s; cs_cache := cs_cache s; cs_rand := r |} in
    if negb ok then Some (Failed InsufficientFunds nFee s)
    else
      let '(nChange, nFee) := move_to_fee (s64 (s64 (nValueIn - nValueSum) - nFee)) nFee in
      let? (outs, nFee, s) := add_change nChange nFee payees s in
      let coins := order setCoins in
      let? ins := mapM (coin_input (cs_wallet s)) coins in
      let tx := {| nVersion := nVersion tx0; vin := ins; vout := outs; nLockTime := nLockTime tx0 |} in
      let '(res, cache) := sign_inputs (cs_wallet s) coins 0 tx (cs_cache s) in
      let s := {| cs_wallet := cs_wallet s; cs_key := cs_key s; cs_cache := cache; cs_rand := cs_rand s |} in
      let? (signed, tx) := res in
      if negb signed then Some (Failed SigningFailed nFee s)
      else if MAX_STANDARD_TX_SIZE <=? GetSerializeSize ser_CTransaction tx then Some (Failed TooLarge nFee s)
      else if nFee <? required_fee tx then Some (Again (required_fee tx) s)
      else Some (Made tx nFee s).
(** [None]: an exception, or [Some None]: out of turns *)
Fixpoint create_loop (turns : nat) (vecSend : list (bytes * Z)) (nValueSum nFee : Z) (tx0 : CTransaction) (s : create_state) : option (option turn) :=
  match turns with
  | O => Some None
  | S n =>
    let? t := create_once vecSend nValueSum nFee tx0 s in
    match t with
    | Again nFee s => create_loop n vecSend nValueSum nFee tx0 s
    | t => Some (Some t)
    end
  end.
(** the fee is undefined when the amounts are refused *)
Definition CreateTransaction (turns : nat) (vecSend : list (bytes * Z)) (wtxNew : CWalletTx) (nFeeUndefined : Z) (s : create_state) : option (option (create_error + CWalletTx) * Z * create_state) :=
  match add_sends vecSend 0 with
  | None => Some (Some (inl AmountsPositive), nFeeUndefined, s)
  | Some nValueSum =>
    if bool_decide (vecSend = []) || (nValueSum <? 0) then Some (Some (inl AmountsPositive), nFeeUndefined, s)
    else
      let? t := create_loop turns vecSend nValueSum (f_nTransactionFee f) (wt_tx wtxNew) s in
      match t with
      | Some (Failed e nFee s) => Some (Some (inl e), nFee, s)
      | Some (Made tx nFee s) =>
        let m := wt_merkle wtxNew in
        let wtx := set_merkle {| m_tx := tx; m_hashBlock := m_hashBlock m; m_vMerkleBranch := m_vMerkleBranch m; m_nIndex := m_nIndex m; m_fMerkleVerified := m_fMerkleVerified m |} (MarkDirty wtxNew) in
        let? wtx := AddSupportingTransactions fuel cv (cs_wallet s) (set_fFromMe true wtx) in
        Some (Some (inr (set_received_is_time wtx)), nFee, s)
      | _ => Some (None, 0, s)
      end
  end.
End Create.

(** ** What a wallet is worth *)

Section Worth.
Context {K : Crypto} {C : Cipher}.

Definition worth (tx : CTransaction) : Z := sumZ (map (fun o => Z.max 0 (nValue o)) (vout tx)).
Definition wallet_worth (wl : CWallet) : Z := sumZ (map (fun h => match mapWallet wl !! h with Some w => worth (wt_tx w) | None => 0 end) (wallet_hashes wl)).
(** the same transactions *)
Definition same_txs (wl wl' : CWallet) : Prop := forall h, option_Forall2 recached (mapWallet wl !! h) (mapWallet wl' !! h).
#[export] Instance same_txs_pre : PreOrder same_txs.
Proof.
  split; [intros wl h; destruct (mapWallet wl !! h); by constructor|]. intros a b c H1 H2 h. specialize (H1 h). specialize (H2 h). destruct H1 as [x y Hxy|]; inversion H2; subst; constructor. by transitivity y.
Qed.
Lemma same_txs_of wl wl' : same_but_caches wl wl' -> same_txs wl wl'.
Proof. by intros [_ H]. Qed.
Lemma same_txs_pool p b wl wl' : same_txs wl wl' -> same_txs wl (with_pool_book p b wl').
Proof. exact id. Qed.
Lemma same_txs_lookup wl wl' h w : same_txs wl wl' -> mapWallet wl !! h = Some w -> exists w', mapWallet wl' !! h = Some w' /\ wt_tx w' = wt_tx w.
Proof. intros H Hw. specialize (H h). rewrite Hw in H. inversion H as [x y [c ->]|]. eauto. Qed.
Lemma same_txs_back wl wl' h w' : same_txs wl wl' -> mapWallet wl' !! h = Some w' -> exists w, mapWallet wl !! h = Some w /\ wt_tx w' = wt_tx w.
Proof. intros H Hw. specialize (H h). rewrite Hw in H. inversion H as [x y [c ->]|]. eauto. Qed.
Lemma same_txs_worth wl wl' : same_txs wl wl' -> wallet_worth wl' = wallet_worth wl.
Proof.
  intros H. unfold wallet_worth. change (wallet_hashes wl') with (wallet_hashes (with_wallet (mapWallet wl') wl)). rewrite (same_hashes wl (with_wallet (mapWallet wl') wl)) by (split; [done|exact H]).
  f_equal. apply map_ext. intros h. specialize (H h). by destruct H as [x y [c ->]|].
Qed.
Lemma same_txs_coin_value wl wl' c : same_txs wl wl' -> coin_value wl' c = coin_value wl c.
Proof. intros H. unfold coin_value, coin_out. specialize (H (co_tx c)). by destruct H as [x y [k ->]|]. Qed.
Lemma same_txs_total wl wl' l : same_txs wl wl' -> total wl' l = total wl l.
Proof. intros H. unfold total. f_equal. apply map_ext. intros c. by apply same_txs_coin_value. Qed.

Lemma coins_of_tx_worth cv wl h w : mapWallet wl !! h = Some w -> total wl (coins_of_tx cv wl h w) <= worth (wt_tx w).
Proof.
  intros Hw. unfold coins_of_tx, total, worth. rewrite map_map. assert (Ho : forall x, x ∈ outputs w -> vout (wt_tx w) !! x.1 = Some x.2) by (intros [i o]; apply outputs_elem).
  assert (vout (wt_tx w) = map snd (outputs w)) as Ev.
  { unfold outputs. change (map snd) with (fmap (M := list) (snd (A := nat) (B := CTxOut))). rewrite fmap_imap. apply list_eq. intros i. rewrite list_lookup_imap. by destruct (vout (wt_tx w) !! i). }
  rewrite Ev at 1. rewrite map_map. clear Ev. revert Ho. generalize (outputs w). intros l. induction l as [|[i o] l IH]; intros Ho; [done|]. specialize (IH (fun x Hx => Ho x (list_elem_of_further _ _ _ Hx))).
  assert (Hi : vout (wt_tx w) !! i = Some o) by (apply (Ho (i, o)); left). cbn [List.filter]. cbn [map]. rewrite sumZ_cons. cbn [snd]. destruct (spendable wl h w (i, o)); [|lia]. cbn [map]. rewrite sumZ_cons. unfold coin_value at 1, coin_out. cbn [co_tx co_i fst]. rewrite Hw. cbn [fst]. rewrite Hi. lia.
Qed.
Lemma worth_nonneg tx : 0 <= worth tx.
Proof. apply sumZ_nonneg, Forall_map, Forall_forall. intros o _. cbn. lia. Qed.
Lemma available_in_worth fuel cv b h wl w l w' : mapWallet wl !! h = Some w -> available_in fuel cv b h wl w = Some (l, w') -> total wl l <= worth (wt_tx w).
Proof.
  intros Hw. unfold available_in. assert (H0 : total wl [] <= worth (wt_tx w)) by apply worth_nonneg. case_if; [by intros [= <- _]|].
  destruct (if b then _ else _) as [[ok w1]|] eqn:Ei; [|done]. assert (recached w w1) as [c ->] by (destruct b; [by apply IsConfirmed_recached in Ei as [? _]|injection Ei as _ <-; reflexivity]).
  case_if; [by intros [= <- _]|]. case_if; [by intros [= <- _]|]. intros [= <- _]. change (coins_of_tx cv wl h (set_cache c w)) with (coins_of_tx cv wl h w). by apply coins_of_tx_worth.
Qed.
Lemma AvailableCoins_worth fuel cv b wl l wl' : AvailableCoins fuel cv b wl = Some (l, wl') -> total wl l <= wallet_worth wl.
Proof.
  intros H. destruct (proj1 (available_coins_spec fuel cv b wl (wallet_hashes wl) (wallet_hashes_NoDup wl) wl (reflexivity _) (fun _ _ => eq_refl) l)) as (ls & Hls & ->); [by eexists|]. clear H.
  unfold wallet_worth. induction Hls as [|h l1 hs ls (w & w1 & Hw & Ha) _ IH]; [done|]. cbn [concat map]. rewrite sumZ_cons, Hw. unfold total in *. rewrite map_app, sumZ_app. apply available_in_worth in Ha; [|done]. unfold total in Ha. lia.
Qed.

(** amounts as valid transactions have them *)
Definition value_in (wl : CWallet) (i : CTxIn) : Z := match prev_out wl i with Some o => nValue o | None => 0 end.
Record sane (wl : CWallet) : Prop := {
  sane_worth : wallet_worth wl <= 2 ^ 61; sane_keys : forall h w, mapWallet wl !! h = Some w -> GetHash (wt_tx w) = h;
  sane_debits : forall h w, mapWallet wl !! h = Some w -> Forall (fun i => 0 <= value_in wl i) (vin (wt_tx w)) /\ sumZ (map (value_in wl) (vin (wt_tx w))) <= MAX_MONEY }.
Lemma sane_same wl wl' : same_txs wl wl' -> sane wl -> sane wl'.
Proof.
  intros H [H1 H2 H3]. assert (Hv : forall i, value_in wl' i = value_in wl i) by (intros i; unfold value_in, prev_out; pose proof (H (o_hash (prevout i))) as Hi; by destruct Hi as [x y [c ->]|]).
  constructor; [by rewrite (same_txs_worth wl wl')|..]; intros h w' Hw'; destruct (same_txs_back _ _ _ _ H Hw') as (w & Hw & ->); [by apply H2|]. destruct (H3 h w Hw) as [Hp Hs]. split.
  - eapply Forall_impl; [exact Hp|]. intros i. by rewrite Hv.
  - by rewrite (map_ext _ _ Hv).
Qed.
Lemma add_amounts_total {A} (g : A -> Z) (h : A -> Z) l : (forall a, 0 <= g a -> 0 <= h a <= g a) -> Forall (fun a => 0 <= g a) l -> forall n, 0 <= n -> n + sumZ (map g l) <= MAX_MONEY -> is_Some (add_amounts (fun a => Some (h a)) l n).
Proof.
  intros Hh. induction 1 as [|a l Ha Hl IH]; intros n Hn Hs; cbn [add_amounts]; [by eexists|]. cbn [map] in Hs. rewrite sumZ_cons in Hs. assert (0 <= sumZ (map g l)) by (apply sumZ_nonneg, Forall_map; exact Hl).
  specialize (Hh a Ha). rewrite s64_small by (unfold MAX_MONEY, COIN in *; lia). rewrite (proj2 (MoneyRange_iff (n + h a))) by lia. apply IH; lia.
Qed.
Lemma sane_GetDebit wl h w : sane wl -> mapWallet wl !! h = Some w -> is_Some (GetDebit wl (wt_tx w)).
Proof.
  intros Hs Hw. destruct (sane_debits wl Hs h w Hw) as [Hp Hm]. apply (add_amounts_total (value_in wl) (GetDebit_in wl)); [|done|lia|lia].
  intros i. unfold value_in, GetDebit_in. destruct (prev_out wl i) as [o|]; [|lia]. destruct (mine wl o); lia.
Qed.
Lemma sane_senders wl l : sane wl -> Forall (fun c => is_Some (mapWallet wl !! co_tx c)) l -> senders_known wl l.
Proof.
  intros Hs Hl. unfold senders_known. eapply Forall_impl; [exact Hl|]. intros c [w Hw]. unfold from_me. rewrite Hw. unfold wtx_IsFromMe, wtx_GetDebit. case_bool_decide; [by eexists|]. destruct (c_debit _); [by eexists|].
  destruct (sane_GetDebit wl _ w Hs Hw) as [v ->]. by eexists.
Qed.
End Worth.

(** ** The fee *)

Section Fee.
Variable f : fees.
Record fees_ok : Prop := { fo_tx : 0 <= f_nTransactionFee f <= 2 ^ 50; fo_min : 0 <= f_nMinTxFee f <= 2 ^ 50 }.
Hypothesis Hf : fees_ok.
(** what a size of [k] whole kilobytes requires *)
Definition fee_at (k : Z) : Z := Z.max (f_nTransactionFee f * (1 + k)) (if MoneyRange ((1 + k) * f_nMinTxFee f) then (1 + k) * f_nMinTxFee f else MAX_MONEY).

Lemma required_fee_at {K : Crypto} tx : GetSerializeSize ser_CTransaction tx < MAX_STANDARD_TX_SIZE -> exists k, 0 <= k <= 99 /\ required_fee f tx = fee_at k.
Proof.
  destruct Hf as [H1 H2]. intros Hs. assert (Hr : 0 <= GetSerializeSize ser_CTransaction tx) by (unfold ser_CTransaction, ser_iso, ser_tuple4; cbn [GetSerializeSize]; apply u32_range).
  unfold required_fee, nPayFee, GetMinFee. set (n := GetSerializeSize ser_CTransaction tx) in *. clearbody n. exists (n / 1000). unfold MAX_STANDARD_TX_SIZE in Hs. assert (Hk : 0 <= n / 1000 <= 99) by dlia. split; [done|].
  set (k := n / 1000) in *. clearbody k. change (negb (1 =? 1)) with false. cbn [andb]. rewrite !s64_small by nia. unfold fee_at.
  rewrite (proj2 (Z.ltb_ge ((1 + k) * f_nMinTxFee f) (f_nMinTxFee f))) by nia. cbn [andb]. f_equal. by destruct (MoneyRange ((1 + k) * f_nMinTxFee f)).
Qed.
Lemma fee_at_mono k k' : 0 <= k' <= k -> fee_at k' <= fee_at k.
Proof.
  destruct Hf as [H1 H2]. intros Hk. unfold fee_at. assert (f_nTransactionFee f * (1 + k') <= f_nTransactionFee f * (1 + k)) by nia. assert (Hm : 0 <= (1 + k') * f_nMinTxFee f <= (1 + k) * f_nMinTxFee f) by nia.
  destruct (MoneyRange ((1 + k) * f_nMinTxFee f)) eqn:E1.
  - apply MoneyRange_iff in E1. rewrite (proj2 (MoneyRange_iff ((1 + k') * f_nMinTxFee f))) by lia. lia.
  - destruct (MoneyRange ((1 + k') * f_nMinTxFee f)) eqn:E2; [apply MoneyRange_iff in E2|]; lia.
Qed.
Lemma fee_at_bound k : 0 <= k <= 99 -> 0 <= fee_at k <= 2 ^ 58.
Proof.
  destruct Hf as [H1 H2]. intros Hk. unfold fee_at. destruct (MoneyRange ((1 + k) * f_nMinTxFee f)) eqn:E1; [apply MoneyRange_iff in E1|]; unfold MAX_MONEY, COIN in *; nia.
Qed.
(** small change becomes fee, and nothing is lost *)
Lemma move_to_fee_spec nChange nFee c' f' : 0 <= nFee <= 2 ^ 58 -> - 2 ^ 62 <= nChange <= 2 ^ 62 -> move_to_fee f nChange nFee = (c', f') ->
  nFee <= f' <= 2 ^ 59 /\ c' <= nChange /\ Z.max 0 c' + f' = Z.max 0 nChange + nFee.
Proof.
  destruct Hf as [H1 H2]. intros Hn Hc. unfold move_to_fee, MIN_TXOUT_AMOUNT, MIN_TX_FEE. assert (Hcent : 0 < CENT < 2 ^ 30) by (unfold CENT; lia).
  destruct ((nFee <? f_nMinTxFee f) && (0 <? nChange) && (nChange <? CENT)) eqn:E1.
  - b2p. rewrite (s64_small (f_nMinTxFee f - nFee)) by lia. set (mv := Z.min nChange (f_nMinTxFee f - nFee)). assert (0 < mv <= nChange) by (unfold mv; lia). rewrite (s64_small (nChange - mv)), (s64_small (nFee + mv)) by lia.
    destruct ((0 <? nChange - mv) && (nChange - mv <? CENT)) eqn:E2; [b2p; rewrite s64_small by lia|]; intros [= <- <-]; lia.
  - destruct ((0 <? nChange) && (nChange <? CENT)) eqn:E2; [b2p; rewrite s64_small by lia|]; intros [= <- <-]; lia.
Qed.
End Fee.

(** ** The parts of a turn *)

Section Turn.
Context {B : OpenSSLBN} {K : Crypto} {C : Cipher} {E : CacheEnv}.
Variables (draw : nat -> Z) (now nPool : Z) (rand_bit : nat -> bool) (shuffle : nat -> list COutput -> list COutput) (order : gset (Z * nat) -> list (Z * nat)) (change_pos : nat -> nat -> nat).
Variables (f : fees) (fuel : nat) (cv : chain_view).

(** the wallet while a transaction is made: the same transactions and the same locked coins, and no more than the keys drawn for the pool *)
Record prepared (wl0 wl : CWallet) : Prop := {
  pr_txs : same_txs wl0 wl; pr_locked : setLockedCoins wl = setLockedCoins wl0; pr_keys : drawn_since draw (wl_pool wl0) (wl_pool wl) }.
#[export] Instance prepared_pre : PreOrder prepared.
Proof.
  split; [intros wl; by constructor|]. intros a b c [T1 L1 K1] [T2 L2 K2]. constructor; [by transitivity b|congruence|by transitivity (wl_pool b)].
Qed.
Lemma prepared_of wl wl' : same_but_caches wl wl' -> prepared wl wl'.
Proof. intros [Eq H]. constructor; [exact H|by rewrite Eq|rewrite Eq; reflexivity]. Qed.
Lemma prepared_pool p b wl : drawn_since draw (wl_pool wl) p -> prepared wl (with_pool_book p b wl).
Proof. intros H. constructor; [by apply same_txs_pool|done|exact H]. Qed.
(** what is locked and spent is as it was *)
Lemma prepared_coin fuel0 cv0 b wl0 wl c w o : prepared wl0 wl -> is_coin fuel0 cv0 b wl c w o ->
  IsLockedCoin wl0 (co_tx c) (co_i c) = false /\ exists w0, mapWallet wl0 !! co_tx c = Some w0 /\ wt_tx w0 = wt_tx w /\ IsSpent w0 (co_i c) = Some false.
Proof.
  intros [T L _] Hc. split; [rewrite <- (coin_unlocked _ _ _ _ _ _ _ Hc); unfold IsLockedCoin; by rewrite L|].
  specialize (T (co_tx c)). rewrite (coin_tx _ _ _ _ _ _ _ Hc) in T. inversion T as [w0 ? [k ->]|]; subst. exists w0. split; [done|]. split; [done|].
  exact (coin_unspent _ _ _ _ _ _ _ Hc).
Qed.

Lemma value_of_insert_at n o l : value_of (insert_at n o l) = nValue o + value_of l.
Proof. unfold value_of, insert_at. rewrite map_app, sumZ_app. cbn [map]. rewrite sumZ_cons. rewrite <- (take_drop n l) at 3. rewrite map_app, sumZ_app. lia. Qed.
(** the outputs are the payees with at most the change among them, which goes to the reserved key *)
Definition with_change (payees outs : list CTxOut) (k : CReserveKey) : Prop :=
  outs = payees \/ exists n v, outs = insert_at n {| nValue := v; scriptPubKey := SetDestination (CKeyID (GetID (rk_vchPubKey k))) |} payees /\ 0 < v /\ IsDust (f_nMinRelayTxFee f) {| nValue := v; scriptPubKey := SetDestination (CKeyID (GetID (rk_vchPubKey k))) |} = false.
Lemma add_change_spec nChange nFee payees s outs nFee' s' : 0 <= nFee <= 2 ^ 59 -> nChange <= 2 ^ 62 -> add_change draw now nPool change_pos f nChange nFee payees s = Some (outs, nFee', s') ->
  with_change payees outs (cs_key s') /\ value_of outs + nFee' = value_of payees + nFee + Z.max 0 nChange /\ nFee <= nFee' /\ prepared (cs_wallet s) (cs_wallet s').
Proof.
  intros Hn Hc. unfold add_change. destruct (0 <? nChange) eqn:E1; b2p.
  2:{ pose proof (ReturnKey_drawn draw (cs_key s) (wl_pool (cs_wallet s))) as Hd. destruct (ReturnKey _ _) as [k p]. intros [= <- <- <-]. split; [by left|]. split; [lia|]. split; [lia|]. by apply prepared_pool. }
  destruct (GetReservedKey _ _ _ _ _) as [[[key k] p]|] eqn:Eg; [|done]. pose proof (GetReservedKey_drawn _ _ _ _ _ _ _ _ Eg) as Hd. destruct key as [pk|]; [|done].
  assert (Ek : rk_vchPubKey k = pk).
  { revert Eg. unfold GetReservedKey. destruct (if rk_nIndex (cs_key s) =? -1 then _ else _) as [[[ok r] p1]|]; [|done]. case_if; [done|]. case_if; [done|]. by intros [= <- <- _]. }
  case_if.
  - cbn [ReturnKey set_key cs_key cs_wallet]. intros [= <- <- <-]. rewrite s64_small by lia. split; [by left|]. split; [lia|]. split; [lia|].
    etransitivity; [exact (prepared_pool p (mapAddressBook (cs_wallet s)) _ Hd)|]. apply prepared_pool, ReturnKey_drawn.
  - intros [= <- <- <-]. cbn [cs_key set_key]. split; [right; eexists _, nChange; rewrite Ek; split; [done|split; [done|done]]|]. rewrite value_of_insert_at. cbn [nValue]. split; [lia|]. split; [lia|]. by apply prepared_pool.
Qed.
(** signing changes the script of one input *)
Definition same_unsigned (tx tx' : CTransaction) : Prop := vout tx' = vout tx /\ map prevout (vin tx') = map prevout (vin tx) /\ nVersion tx' = nVersion tx /\ nLockTime tx' = nLockTime tx.
#[local] Instance same_unsigned_pre : PreOrder same_unsigned.
Proof. split; [done|]. intros a b c (?&?&?&?) (?&?&?&?). repeat split; congruence. Qed.
Lemma set_vin_script_same tx n s : same_unsigned tx (set_vin_script tx n s).
Proof.
  repeat split. cbn [set_vin_script vin]. change (map prevout) with (fmap (M := list) prevout). apply list_eq. intros i. rewrite !list_lookup_fmap. destruct (decide (i = n)) as [->|Hne].
  - rewrite list_lookup_alter_eq. by destruct (vin tx !! n).
  - by rewrite list_lookup_alter_ne.
Qed.
Lemma SignSignature_tx_same ks txf tx n h cache b tx' cache' : SignSignature_tx ks txf tx n h cache = (Some (b, tx'), cache') -> same_unsigned tx tx'.
Proof.
  unfold SignSignature_tx. destruct (vin tx !! _); [|done]. destruct (vout txf !! _); [|done]. unfold SignSignature. case_bool_decide; [done|].
  destruct (SolverSign _ _ _ _) as [[ok sig] ty]. case_if; [intros [= _ <- _]; apply set_vin_script_same|].
  match goal with |- context [let '(a, b) := ?x in _] => destruct x as [fs sg] end. case_if; [intros [= _ <- _]; apply set_vin_script_same|].
  destruct (VerifyScript _ _ _ _ _ _ _) as [[r|] cache2]; [|done]. intros [= _ <- _]. apply set_vin_script_same.
Qed.
Lemma sign_inputs_same wl coins : forall n tx cache b tx' cache', sign_inputs wl coins n tx cache = (Some (b, tx'), cache') -> same_unsigned tx tx'.
Proof.
  induction coins as [|c coins IH]; intros n tx cache b tx' cache'; cbn [sign_inputs]; [by intros [= _ <- _]|]. destruct (mapWallet wl !! c.1) as [w|]; [|done].
  destruct (SignSignature_tx _ _ _ _ _ _) as [res cache1] eqn:Es. destruct res as [[[] tx1]|]; [| |done].
  - intros H. apply SignSignature_tx_same in Es. etransitivity; [done|by eapply IH].
  - intros [= _ <- _]. by eapply SignSignature_tx_same.
Qed.
End Turn.

(** ** A turn of the loop *)

Section Turns.
Context {B : OpenSSLBN} {K : Crypto} {C : Cipher} {E : CacheEnv}.
Variables (draw : nat -> Z) (now nPool : Z) (rand_bit : nat -> bool) (shuffle : nat -> list COutput -> list COutput) (order : gset (Z * nat) -> list (Z * nat)) (change_pos : nat -> nat -> nat).
Variables (f : fees) (fuel : nat) (cv : chain_view).
Hypotheses (Hshuffle : forall k l, Permutation (shuffle k l) l) (Horder : forall s, Permutation (order s) (elements s)) (Hf : fees_ok f).

Definition payees_of (vecSend : list (bytes * Z)) : list CTxOut := map (fun p => {| nValue := p.2; scriptPubKey := p.1 |}) vecSend.
Definition outpoint_of (c : COutput) : COutPoint := {| o_hash := co_tx c; o_n := Z.of_nat (co_i c) |}.
Definition turn_state (t : turn) : create_state := match t with Failed _ _ s | Made _ _ s | Again _ s => s end.
(** a transaction that spends distinct spendable coins [l], pays the payees and perhaps change, and pays the rest as a fee, which suffices *)
Record made_ok (vecSend : list (bytes * Z)) (wl0 : CWallet) (tx : CTransaction) (nFee : Z) (k : CReserveKey) (l : list COutput) : Prop := {
  mk_distinct : NoDup (map key_of l);
  mk_coins : exists wl, prepared draw wl0 wl /\ forall c, c ∈ l -> exists w o, is_coin fuel cv true wl c w o;
  mk_free : forall c, c ∈ l -> IsLockedCoin wl0 (co_tx c) (co_i c) = false /\ exists w, mapWallet wl0 !! co_tx c = Some w /\ IsSpent w (co_i c) = Some false;
  mk_inputs : Permutation (map prevout (vin tx)) (map outpoint_of l);
  mk_outputs : with_change f (payees_of vecSend) (vout tx) k;
  mk_dust : Forall (fun o => IsDust (f_nMinRelayTxFee f) o = false) (vout tx);
  mk_fee : nFee = total wl0 l - value_of (vout tx);
  mk_enough : required_fee f tx <= nFee;
  mk_size : GetSerializeSize ser_CTransaction tx < MAX_STANDARD_TX_SIZE }.

Lemma coin_inputs wl coins ins : sane wl -> mapM (coin_input wl) coins = Some ins -> map prevout ins = map (fun c => {| o_hash := c.1; o_n := Z.of_nat c.2 |}) coins.
Proof.
  intros Hs H. apply mapM_Some in H. induction H as [|c i coins ins Hi _ IH]; [done|]. cbn [map]. rewrite IH. f_equal. unfold coin_input in Hi. destruct (mapWallet wl !! c.1) as [w|] eqn:Ew; [|done].
  injection Hi as <-. cbn [prevout]. by rewrite (sane_keys wl Hs _ _ Ew).
Qed.
Lemma order_keys l : NoDup (map key_of l) -> Permutation (map (fun c => {| o_hash := c.1; o_n := Z.of_nat c.2 |}) (order (list_to_set (map key_of l)))) (map outpoint_of l).
Proof. intros H. rewrite Horder, elements_list_to_set by done. by rewrite map_map. Qed.
Lemma with_change_dust payees outs k : existsb (IsDust (f_nMinRelayTxFee f)) payees = false -> with_change f payees outs k -> Forall (fun o => IsDust (f_nMinRelayTxFee f) o = false) outs.
Proof.
  intros Hd Hw. assert (Hp : Forall (fun o => IsDust (f_nMinRelayTxFee f) o = false) payees).
  { apply Forall_forall. intros o Ho. destruct (IsDust _ o) eqn:Eo; [|done]. apply list_elem_of_In in Ho. rewrite (proj2 (existsb_exists _ _)) in Hd by by exists o. done. }
  destruct Hw as [->|(n & v & -> & _ & Hv)]; [done|]. unfold insert_at. apply Forall_app. split; [by apply Forall_take|]. constructor; [done|by apply Forall_drop].
Qed.

Lemma create_once_spec vecSend nValueSum nFee tx0 s t : sane (cs_wallet s) -> value_of (payees_of vecSend) = nValueSum -> 0 < nValueSum <= 2 ^ 61 -> 0 <= nFee <= 2 ^ 58 ->
  create_once draw now nPool rand_bit shuffle order change_pos f fuel cv vecSend nValueSum nFee tx0 s = Some t -> prepared draw (cs_wallet s) (cs_wallet (turn_state t)) /\
  match t with
  | Failed _ _ _ => True
  | Again nFee' s' => nFee < nFee' /\ exists k, 0 <= k <= 99 /\ nFee' = fee_at f k
  | Made tx nFee' s' => exists l, made_ok vecSend (cs_wallet s) tx nFee' (cs_key s') l
  end.
Proof.
  intros Hs Hsum Hv Hn. unfold create_once. fold (payees_of vecSend). destruct (existsb _ _) eqn:Ed; [by intros [= <-]|].
  destruct (SelectCoins _ _ _ _ _ _ _) as [[[[[ok S] v] r] wl]|] eqn:Esel; [|done]. destruct ok; cbn [negb].
  2:{ intros [= <-]. split; [|done]. destruct (SelectCoins_sub _ _ _ _ _ _ _ _ _ _ _ _ Hshuffle Esel) as [Hsub _]. by apply prepared_of. }
  destruct (AvailableCoins fuel cv true (cs_wallet s)) as [[vCoins wl1]|] eqn:Ea; [|by unfold SelectCoins in Esel; rewrite Ea in Esel].
  pose proof (AvailableCoins_recached _ _ _ _ _ _ Ea) as Hs1. pose proof (AvailableCoins_worth _ _ _ _ _ _ Ea) as Hw. pose proof (sane_worth _ Hs) as Hmax.
  assert (Hk : senders_known wl1 vCoins).
  { apply sane_senders; [by apply (sane_same (cs_wallet s)); [apply same_txs_of|]|]. apply Forall_forall. intros c Hc. rewrite (AvailableCoins_elem _ _ _ _ _ _ _ Ea) in Hc. destruct Hc as (w & o & Hc).
    destruct (same_lookup _ _ _ _ Hs1 (coin_tx _ _ _ _ _ _ _ Hc)) as (w' & Hw' & _). by exists w'. }
  assert (Ht1 : total wl1 vCoins < 2 ^ 63 - 1) by (rewrite (same_txs_total (cs_wallet s) wl1) by (by apply same_txs_of); lia).
  rewrite s64_small in Esel by lia. assert (0 <= CENT < 2 ^ 30) by (unfold CENT; lia).
  destruct (SelectCoins_correct rand_bit shuffle fuel cv (nValueSum + nFee) (cs_rand s) (cs_wallet s) vCoins wl1 Hshuffle ltac:(lia) ltac:(lia) Ea Hk Ht1) as (ok & S' & v' & r' & wl' & Esel' & Hwl & _ & Hsel).
  rewrite Esel in Esel'. injection Esel' as <- <- <- <- <-. destruct Hsel as (l & Hnd & Hcoins & HS & Hvl & Hle).
  assert (Hlm : v <= 2 ^ 61).
  { destruct (SelectCoins_sub _ _ _ _ _ _ _ _ _ _ _ _ Hshuffle Esel) as [_ Hsub]. assert (Hsubm : l ⊆+ vCoins).
    { apply NoDup_submseteq; [by apply NoDup_fmap_1 in Hnd|]. intros c Hc. rewrite (AvailableCoins_elem _ _ _ _ _ _ _ Ea). by apply Hcoins. }
    assert (Hpos : Forall (fun c => 0 <= coin_value (cs_wallet s) c) vCoins).
    { apply Forall_forall. intros c Hc. rewrite (AvailableCoins_elem _ _ _ _ _ _ _ Ea) in Hc. destruct Hc as (w & o & [Hcw Hco _ _ _ Hcp _ _ _ _]). unfold coin_value, coin_out. rewrite Hcw, Hco. lia. }
    apply (total_weaker _ _ _ Hpos) in Hsubm. lia. }
  rewrite (s64_small (v - nValueSum)), s64_small by lia. destruct (move_to_fee f (v - nValueSum - nFee) nFee) as [c1 f1] eqn:Em.
  apply (move_to_fee_spec f Hf) in Em as (Hf1 & Hc1 & Hcf); [|lia|lia]. destruct (add_change _ _ _ _ _ _ _ _ _) as [[[outs f2] s1]|] eqn:Eac; [|done].
  apply add_change_spec in Eac as (Hout & Hval & Hf2 & Hs2); [|lia|lia]. cbn [cs_wallet] in Hs2. assert (Hst : prepared draw (cs_wallet s) (cs_wallet s1)) by (etransitivity; [by apply prepared_of|done]).
  destruct (mapM _ _) as [ins|] eqn:Ei; [|done]. apply coin_inputs in Ei; [|eapply sane_same; [apply Hst|done]]. destruct (sign_inputs _ _ _ _ _) as [res cache] eqn:Esig. destruct res as [[sg tx]|]; [|done].
  apply sign_inputs_same in Esig as (Evo & Evi & _). cbn [vout vin] in Evo, Evi. destruct sg; cbn [negb]; [|by intros [= <-]]. destruct (MAX_STANDARD_TX_SIZE <=? _) eqn:Esz; [by intros [= <-]|]. b2p.
  destruct (f2 <? required_fee f tx) eqn:Ef; intros [= <-]; b2p; cbn [cs_wallet cs_key turn_state]; (split; [exact Hst|]).
  - split; [lia|]. destruct (required_fee_at f Hf tx Esz) as (k & Hk0 & ->). by exists k.
  - exists l. constructor; [done| | | |by rewrite Evo|rewrite Evo; by eapply with_change_dust| |done|done].
    + exists (cs_wallet s). split; [done|]. intros c Hc. by apply Hcoins.
    + intros c Hc. destruct (Hcoins c Hc) as (_ & w & o & Hcoin). destruct (prepared_coin draw _ _ _ _ _ _ _ _ (reflexivity (cs_wallet s)) Hcoin) as (? & w0 & ? & _ & ?). eauto.
    + rewrite Evi, Ei, HS. by apply order_keys.
    + rewrite Evo. lia.
Qed.

Lemma made_ok_same vecSend wl0 wl1 tx nFee k l : prepared draw wl0 wl1 -> made_ok vecSend wl1 tx nFee k l -> made_ok vecSend wl0 tx nFee k l.
Proof.
  intros H [? (wl & Hwl & Hc) ? ? ? ? Hfee ? ?]. assert (Hp : prepared draw wl0 wl) by by etransitivity. constructor; try done; [by exists wl| |by rewrite <- (same_txs_total wl0 wl1 l (pr_txs _ _ _ H))].
  intros c Hin. destruct (Hc c Hin) as (w & o & Hcoin). destruct (prepared_coin draw _ _ _ _ _ _ _ _ Hp Hcoin) as (? & w0 & ? & _ & ?). eauto.
Qed.
(** [j]: the fees for fewer kilobytes are behind *)
Lemma create_loop_spec vecSend nValueSum tx0 n : value_of (payees_of vecSend) = nValueSum -> 0 < nValueSum <= 2 ^ 61 -> forall j nFee s t, 0 <= j <= 100 -> 101 - j <= Z.of_nat n -> sane (cs_wallet s) -> 0 <= nFee <= 2 ^ 58 ->
  (forall k, 0 <= k <= 99 -> nFee < fee_at f k -> j <= k) -> create_loop draw now nPool rand_bit shuffle order change_pos f fuel cv n vecSend nValueSum nFee tx0 s = Some t ->
  match t with
  | Some (Made tx nFee' s') => prepared draw (cs_wallet s) (cs_wallet s') /\ exists l, made_ok vecSend (cs_wallet s) tx nFee' (cs_key s') l
  | Some (Failed _ _ s') => prepared draw (cs_wallet s) (cs_wallet s')
  | _ => False
  end.
Proof.
  intros Hsum Hv. induction n as [|n IH]; intros j nFee s t Hj Hn Hs Hfee Hk; [lia|]. cbn [create_loop]. destruct (create_once _ _ _ _ _ _ _ _ _ _ _ _ _ _ _) as [u|] eqn:Eu; [|done].
  apply (create_once_spec vecSend nValueSum nFee tx0 s u Hs Hsum Hv Hfee) in Eu. destruct u as [e nF s1|tx nF s1|nF s1]; [intros [= <-]; apply Eu|intros [= <-]; exact Eu|].
  destruct Eu as (Hst & Hlt & k & Hk0 & ->). cbn [turn_state] in Hst. intros H. assert (Hjk : j <= k) by (apply Hk; [done|lia]). apply (IH (k + 1)) in H.
  - destruct t as [[| |]|]; try done; [by etransitivity|]. destruct H as (H & l & Hl). split; [by etransitivity|]. exists l. by eapply made_ok_same.
  - lia.
  - lia.
  - eapply sane_same; [apply Hst|done].
  - by apply fee_at_bound.
  - intros k' Hk' Hlt2. destruct (Z_le_gt_dec k' k) as [Hle|?]; [|lia]. pose proof (fee_at_mono f Hf k k' ltac:(lia)). lia.
Qed.
Lemma add_sends_sum vecSend : Forall (fun p => 0 <= p.2) vecSend -> forall n, 0 <= n -> n + value_of (payees_of vecSend) <= 2 ^ 61 -> add_sends vecSend n = Some (n + value_of (payees_of vecSend)).
Proof.
  unfold value_of, payees_of. induction 1 as [|p l Hp Hl IH]; intros n Hn Hs; cbn [add_sends map]; [cbn; f_equal; lia|]. cbn [map nValue] in Hs. rewrite sumZ_cons in *.
  assert (0 <= sumZ (map nValue (map (fun p => {| nValue := p.2; scriptPubKey := p.1 |}) l))) by (rewrite map_map; apply sumZ_nonneg, Forall_map; exact Hl).
  rewrite (proj2 (Z.ltb_ge n 0)) by lia. rewrite s64_small by lia. rewrite IH by lia. f_equal. cbn [nValue]. lia.
Qed.
(** payments whose sum is in range, with fees in range *)
Record payable (vecSend : list (bytes * Z)) : Prop := { pay_pos : Forall (fun p => 0 < p.2) vecSend; pay_some : vecSend <> []; pay_max : value_of (payees_of vecSend) <= 2 ^ 61 }.
Lemma payable_sum vecSend : payable vecSend -> 0 < value_of (payees_of vecSend).
Proof.
  intros [Hp Hn _]. destruct Hp as [|p l Hp Hl]; [done|]. unfold value_of, payees_of. cbn [map nValue]. rewrite sumZ_cons.
  assert (0 <= sumZ (map nValue (map (fun p => {| nValue := p.2; scriptPubKey := p.1 |}) l))); [|lia]. rewrite map_map. apply sumZ_nonneg, Forall_map. eapply Forall_impl; [exact Hl|]. cbn. lia.
Qed.
Lemma CreateTransaction_spec turns vecSend wtxNew u s r nFee s' : (101 <= turns)%nat -> payable vecSend -> sane (cs_wallet s) ->
  CreateTransaction draw now nPool rand_bit shuffle order change_pos f fuel cv turns vecSend wtxNew u s = Some (r, nFee, s') ->
  prepared draw (cs_wallet s) (cs_wallet s') /\ match r with None => False | Some (inl _) => True | Some (inr w) => fFromMe w = true /\ exists l, made_ok vecSend (cs_wallet s) (wt_tx w) nFee (cs_key s') l end.
Proof.
  intros Hturns Hp Hs. pose proof (payable_sum vecSend Hp) as Hpos. pose proof (pay_max _ Hp) as Hmax. unfold CreateTransaction.
  rewrite (add_sends_sum vecSend) by (first [lia|eapply Forall_impl; [apply Hp|]; cbn; lia]). cbn [Z.add]. case_if; [by intros [= <- _ <-]|].
  destruct (create_loop _ _ _ _ _ _ _ _ _ _ _ _ _ _ _ _) as [t|] eqn:El; [|done]. apply (create_loop_spec vecSend (value_of (payees_of vecSend)) _ turns eq_refl ltac:(lia) 0) in El; [|lia|lia|done|destruct (fo_tx f Hf); lia|lia].
  destruct t as [[e nF s1|tx nF s1|]|]; [by intros [= <- _ <-]| |done|done]. destruct El as (Hst & l & Hl).
  set (w0 := set_fFromMe true _). assert (Hw0 : wt_tx w0 = tx /\ fFromMe w0 = true) by done. destruct (AddSupportingTransactions fuel cv (cs_wallet s1) w0) as [w1|] eqn:Ew; [|done]. intros [= <- <- <-].
  assert (wt_tx w1 = wt_tx w0 /\ fFromMe w1 = fFromMe w0) as [E1 E2].
  { revert Ew. unfold AddSupportingTransactions. assert (Hm : m_tx (SetMerkleBranch cv None (wt_merkle w0)).2 = wt_tx w0).
    { unfold SetMerkleBranch. destruct (cv_coins_block cv _) as [[b|]|]; [|done..]. by destruct (list_find _ _) as [[i ?]|]. }
    destruct (SetMerkleBranch cv None (wt_merkle w0)) as [d m]. cbn [snd] in Hm. case_if; [destruct (supporting _ _ _ _ _ _); [|done]|]; intros [= <-]; done. }
  destruct Hw0 as [H1 H2]. split; [done|]. split; [cbn; congruence|]. exists l. change (wt_tx (set_received_is_time w1)) with (wt_tx w1). by rewrite E1, H1.
Qed.
End Turns.

(** ** Properties *)

Section CreateProperties.
Context {B : OpenSSLBN} {K : Crypto} {C : Cipher} {E : CacheEnv}.

(** C33: The loop of [CreateTransaction] ends: with fees in range, a sane wallet and positive payments, whatever coins the random search picks and however the change is placed, 101 turns are enough, because every new turn starts with a fee for more kilobytes than the last and a standard transaction has fewer than 100. *)
Theorem CreateTransaction_ends draw now nPool rand_bit shuffle order change_pos f fuel cv turns vecSend wtxNew u s r nFee s' : (forall k l, Permutation (shuffle k l) l) -> (forall s, Permutation (order s) (elements s)) ->
  fees_ok f -> (101 <= turns)%nat -> payable vecSend -> sane (cs_wallet s) ->
  CreateTransaction draw now nPool rand_bit shuffle order change_pos f fuel cv turns vecSend wtxNew u s = Some (r, nFee, s') -> r <> None.
Proof. intros Hsh Hor Hf Ht Hp Hs H ->. by apply (CreateTransaction_spec _ _ _ _ _ _ _ _ _ _ Hsh Hor Hf _ _ _ _ _ _ _ _ Ht Hp Hs) in H as [_ H]. Qed.

(** C32: A transaction that [CreateTransaction] makes pays exactly the payees and at most one change output, to the reserved key and no dust, spends distinct spendable coins of the wallet (unspent, not locked, confirmed or own and supported, and own by the keys of the wallet with those the key pool drew meanwhile), pays as a fee the difference of its inputs and outputs, which is what the caller is told and at least what its size requires, and is below the standard size. *)
Theorem CreateTransaction_balances draw now nPool rand_bit shuffle order change_pos f fuel cv turns vecSend wtxNew u s w nFee s' : (forall k l, Permutation (shuffle k l) l) -> (forall s, Permutation (order s) (elements s)) ->
  fees_ok f -> (101 <= turns)%nat -> payable vecSend -> sane (cs_wallet s) ->
  CreateTransaction draw now nPool rand_bit shuffle order change_pos f fuel cv turns vecSend wtxNew u s = Some (Some (inr w), nFee, s') ->
  fFromMe w = true /\ exists l, made_ok draw f fuel cv vecSend (cs_wallet s) (wt_tx w) nFee (cs_key s') l.
Proof. intros Hsh Hor Hf Ht Hp Hs H. by apply (CreateTransaction_spec _ _ _ _ _ _ _ _ _ _ Hsh Hor Hf _ _ _ _ _ _ _ _ Ht Hp Hs) in H as [_ H]. Qed.
End CreateProperties.

(** ** A run *)

Definition demo_fees : fees := {| f_nTransactionFee := 0; f_nMinTxFee := CENT; f_nMinRelayTxFee := CENT |}.
Definition demo_send : list (bytes * Z) := [(SetDestination (CKeyID 77), 4 * COIN)].
Definition demo_state (wl : CWallet) : create_state := {| cs_wallet := wl; cs_key := new_reserve; cs_cache := SigCache.empty_cache; cs_rand := 0 |}.
Definition demo_create (wl : CWallet) := CreateTransaction (B := ZBN) (K := ToyCrypto) (C := ToyCipher) demo_draw 0 2 Nat.even (fun _ l => rev l) elements (fun _ _ => 0%nat) demo_fees 9 demo_chain 101 demo_send (wallet_tx (merkle_of pay_tx)) 0 (demo_state wl).
Definition sane_check (wl : CWallet) : bool :=
  (wallet_worth wl <=? 2 ^ 61) && forallb (fun x => (GetHash (K := ToyCrypto) (wt_tx x.2) =? x.1) && (forallb (fun i => 0 <=? value_in wl i) (vin (wt_tx x.2)) && (sumZ (map (value_in wl) (vin (wt_tx x.2))) <=? MAX_MONEY))) (map_to_list (mapWallet wl)).
Lemma sane_check_ok wl : sane_check wl = true -> sane (K := ToyCrypto) wl.
Proof.
  intros [H1 H2]%andb_prop. rewrite forallb_forall in H2. assert (Hx : forall h w, mapWallet wl !! h = Some w -> _) by (intros h w Hw; apply elem_of_map_to_list, list_elem_of_In in Hw; exact (H2 _ Hw)). cbn [fst snd] in Hx.
  constructor; [by b2p|..]; intros h w Hw; apply Hx, andb_prop in Hw as [Ha [Hb Hc]%andb_prop]; [by b2p|]. split; [|by b2p]. apply Forall_forall. intros i Hi. rewrite forallb_forall in Hb. apply list_elem_of_In, Hb in Hi. by b2p.
Qed.
(** 4 coins are paid from an output of 5, with a fee of a cent: the first turn, which offers none, is repeated *)
Definition demo_created (wl : CWallet) : bool := match demo_create wl with Some (Some (inr w), nFee, _) => (nFee =? CENT) && bool_decide (value_of (vout (wt_tx w)) = 5 * COIN - CENT) && bool_decide (length (vin (wt_tx w)) = 1%nat) | _ => false end.
Example demo_creates : (match demo_funded with Some wl => sane_check wl && demo_created wl | None => false end) = true.
Proof. vm_compute. reflexivity. Qed.
Lemma demo_create_facts : exists wl w nFee s', demo_funded = Some wl /\ sane (K := ToyCrypto) wl /\ demo_create wl = Some (Some (inr w), nFee, s').
Proof.
  pose proof demo_creates as H. destruct demo_funded as [wl|]; [|discriminate H]. apply andb_prop in H as [Hs H]. unfold demo_created in H. destruct (demo_create wl) as [[[[[e|w]|] nFee] s']|] eqn:Ec; try discriminate H.
  exists wl, w, nFee, s'. exact (conj eq_refl (conj (sane_check_ok wl Hs) Ec)).
Qed.
Lemma demo_payable : payable demo_send.
Proof. split; [repeat constructor|done|done]. Qed.
Lemma demo_fees_ok : fees_ok demo_fees.
Proof. split; cbn; unfold CENT; lia. Qed.
Lemma CreateTransaction_ends_witness : exists wl r nFee s', demo_create wl = Some (r, nFee, s') /\ r <> None.
Proof.
  destruct demo_create_facts as (wl & w & nFee & s' & _ & Hs & Ec). exists wl, (Some (inr w)), nFee, s'. split; [exact Ec|].
  exact (CreateTransaction_ends (B := ZBN) (K := ToyCrypto) (C := ToyCipher) demo_draw 0 2 Nat.even (fun _ l => rev l) elements (fun _ _ => 0%nat) demo_fees 9 demo_chain 101 demo_send (wallet_tx (merkle_of pay_tx)) 0 (demo_state wl) _ _ _
    (fun _ l => Permutation_sym (Permutation_rev l)) (fun s => reflexivity _) demo_fees_ok (le_n 101) demo_payable Hs Ec).
Defined.
Lemma CreateTransaction_balances_witness : exists wl w nFee s', demo_create wl = Some (Some (inr w), nFee, s') /\
  fFromMe w = true /\ exists l, made_ok (K := ToyCrypto) (C := ToyCipher) demo_draw demo_fees 9 demo_chain demo_send wl (wt_tx w) nFee (cs_key s') l.
Proof.
  destruct demo_create_facts as (wl & w & nFee & s' & _ & Hs & Ec). exists wl, w, nFee, s'. split; [exact Ec|].
  exact (CreateTransaction_balances (B := ZBN) (K := ToyCrypto) (C := ToyCipher) demo_draw 0 2 Nat.even (fun _ l => rev l) elements (fun _ _ => 0%nat) demo_fees 9 demo_chain 101 demo_send (wallet_tx (merkle_of pay_tx)) 0 (demo_state wl) _ _ _
    (fun _ l => Permutation_sym (Permutation_rev l)) (fun s => reflexivity _) demo_fees_ok (le_n 101) demo_payable Hs Ec).
Defined.
