(* ===== verification/Send.v ===== *)
(** * Sending (wallet.cpp, main.cpp)

    [CommitTransaction], [SendMoney] and [SendMoneyToDestination], which make a transaction, record it and hand it to the memory pool; [AcceptWalletTransaction] and
    the passes of [ReacceptWalletTransactions], which do so again for transactions that are not in a block.  The pool tells the wallet of what it takes
    ([SyncWithWallets]); the relaying of transactions is left out.  The properties: money
    that was sent is recorded, spent and in the pool; and the supporting transactions of a wallet transaction never get into the pool where the code means to put them there. *)

From stdpp Require Import gmap sorting.
From S2P Require Import Prelude OpenSSL BigNum Target Serialize Crypto Script Transaction ScriptEval ScriptStd KeyStore KeyPool Coins View Merkle Block Chain Mempool Wallet CoinSelect CreateTx.
Local Open Scope Z_scope.

(** *** What the pool is asked with *)
Record node_view (V : Type) := { nv_pool : CTxMemPool; nv_tip : CCoinsViewCache V; nv_cache : SigCache.CSignatureCache }.
Arguments nv_pool {V}.
Arguments nv_tip {V}.
Arguments nv_cache {V}.

Section Send.
Context {V : Type} {CV : CoinsView V} {B : OpenSSLBN} {K : Crypto} {C : Cipher} {E : CacheEnv}.
Variables (draw : nat -> Z) (now nPool : Z) (rand_bit : nat -> bool) (shuffle : nat -> list COutput -> list COutput) (order : gset (Z * nat) -> list (Z * nat)) (change_pos : nat -> nat -> nat).
Variables (f : fees) (fuel : nat) (cv : chain_view) (acentries : list (Z * Z)) (p : pool_params).
Abbreviation node := (node_view V).

(** one wallet is registered *)
Definition SyncWithWallets (hash : Z) (tx : CTransaction) (pblock : option CBlock) (fUpdate : bool) (wl : CWallet) : option CWallet :=
  let? (_, wl) := AddToWalletIfInvolvingMe draw now nPool acentries cv hash tx pblock fUpdate wl in Some wl.
(** [AcceptToMemoryPool(fCheckInputs, false)]: what the pool takes the wallets are told of, which may add it to the wallet, mark what it spends and replace the default key.
    [accept] itself has a verdict whenever the coins have a best block ([accept_total]), so that there is nothing for the code to catch.  [None]: there is no best block, or the
    wallet throws while it is told, the pool holding the transaction already; that the code then reports a refusal is not followed *)
Definition merkle_AcceptToMemoryPool (tx : CTransaction) (fCheckInputs : bool) (wl : CWallet) (n : node) : option (bool * CWallet * node) :=
  let? a := accept p tx fCheckInputs false new_state (nv_pool n) (nv_tip n) (nv_cache n) in
  let n := {| nv_pool := a_pool a; nv_tip := a_tip a; nv_cache := a_cache a |} in
  if a_ok a then let? wl := SyncWithWallets (GetHash tx) tx None true wl in Some (true, wl, n)
  else Some (false, wl, n).
Fixpoint accept_supporting (fCheckInputs : bool) (l : list CMerkleTx) (wl : CWallet) (n : node) : option (CWallet * node) :=
  match l with
  | [] => Some (wl, n)
  | m :: r =>
    if IsCoinBase (m_tx m) then accept_supporting fCheckInputs r wl n
    else if exists_tx (nv_pool n) (GetHash (m_tx m)) then accept_supporting fCheckInputs r wl n
    else
      let '(have, tip) := HaveCoins (nv_tip n) (GetHash (m_tx m)) in
      let n := {| nv_pool := nv_pool n; nv_tip := tip; nv_cache := nv_cache n |} in
      if have then let? (_, wl, n) := merkle_AcceptToMemoryPool (m_tx m) fCheckInputs wl n in accept_supporting fCheckInputs r wl n
      else accept_supporting fCheckInputs r wl n
  end.
Definition AcceptWalletTransaction (fCheckInputs : bool) (w : CWalletTx) (wl : CWallet) (n : node) : option (bool * CWallet * node) :=
  let? (wl, n) := accept_supporting fCheckInputs (vtxPrev w) wl n in merkle_AcceptToMemoryPool (wt_tx w) fCheckInputs wl n.

(** the verdict of the pool, the key, the wallet *)
Definition CommitTransaction (wtxNew : CWalletTx) (reservekey : CReserveKey) (wl : CWallet) (n : node) : option (bool * CReserveKey * CWallet * node) :=
  let? (k, wl) := commit_wallet draw now nPool acentries cv wtxNew reservekey wl in
  let? (ok, wl, n) := merkle_AcceptToMemoryPool (wt_tx wtxNew) true wl n in
  Some (ok, k, wl, n).

(** the messages of [SendMoney]; [Sent]: the empty string *)
Inductive send_result := Sent | SendLocked | SendFailed (e : create_error) | SendFee (nFeeRequired : Z) | SendAborted | SendRejected | SendInvalidAmount | SendInsufficient.
(** [ask]: whether the user accepts a fee; [None]: an exception, or out of turns *)
Definition SendMoney (turns : nat) (scriptPubKey : bytes) (nValueSent : Z) (wtxNew : CWalletTx) (fAskFee : bool) (ask : Z -> bool) (nFeeUndefined : Z) (wl : CWallet) (r : nat) (n : node)
    : option (send_result * CWalletTx * CWallet * node) :=
  if IsLocked (pool_keys (wl_pool wl)) then Some (SendLocked, wtxNew, wl, n)
  else
    let? (res, nFeeRequired, s) := CreateTransaction draw now nPool rand_bit shuffle order change_pos f fuel cv turns [(scriptPubKey, nValueSent)] wtxNew nFeeUndefined {| cs_wallet := wl; cs_key := new_reserve; cs_cache := nv_cache n; cs_rand := r |} in
    let? res := res in
    let n := {| nv_pool := nv_pool n; nv_tip := nv_tip n; nv_cache := cs_cache s |} in
    (* the reserved key is returned when it goes out of scope *)
    let leave k wl := with_pool_book (ReturnKey k (wl_pool wl)).2 (mapAddressBook wl) wl in
    match res with
    | inl e =>
      let? (nBalance, wl) := GetBalance fuel cv (cs_wallet s) in
      Some (if nBalance <? s64 (nValueSent + nFeeRequired) then SendFee nFeeRequired else SendFailed e, wtxNew, leave (cs_key s) wl, n)
    | inr wtx =>
      if fAskFee && negb (ask nFeeRequired) then Some (SendAborted, wtx, leave (cs_key s) (cs_wallet s), n)
      else
        let? (ok, k, wl, n) := CommitTransaction wtx (cs_key s) (cs_wallet s) n in
        Some (if ok then Sent else SendRejected, wtx, leave k wl, n)
    end.
Definition SendMoneyToDestination (turns : nat) (address : CTxDestination) (nValueSent : Z) (wtxNew : CWalletTx) (fAskFee : bool) (ask : Z -> bool) (nFeeUndefined : Z) (wl : CWallet) (r : nat) (n : node)
    : option (send_result * CWalletTx * CWallet * node) :=
  if nValueSent <=? 0 then Some (SendInvalidAmount, wtxNew, wl, n)
  else
    let? (nBalance, wl) := GetBalance fuel cv wl in
    if nBalance <? s64 (nValueSent + f_nTransactionFee f) then Some (SendInsufficient, wtxNew, wl, n)
    else SendMoney turns (SetDestination address) nValueSent wtxNew fAskFee ask nFeeUndefined wl r n.

(** *** Transactions that are not in a block *)

(** an output that the chain no longer has *)
Definition lost (coins : CCoins) (i : nat) : bool := match c_vout coins !! i with Some o => txout_IsNull o | None => true end.
(** what is marked in one transaction; [None]: an exception *)
Fixpoint mark_lost (wl : CWallet) (coins : CCoins) (outs : list (nat * CTxOut)) (w : CWalletTx) (fUpdated : bool) : option (CWalletTx * bool) :=
  match outs with
  | [] => Some (w, fUpdated)
  | (i, o) :: r =>
    let? spent := IsSpent w i in
    if negb spent && (lost coins i && mine wl o) then let? w := MarkSpent w i in mark_lost wl coins r w true
    else mark_lost wl coins r w fUpdated
  end.
Definition reaccept_tx (h : Z) (wl : CWallet) (n : node) : option (bool * CWallet * node) :=
  let? w := mapWallet wl !! h in
  let? skip := if IsCoinBase (wt_tx w) then IsSpent w 0 else Some false in
  if skip then Some (false, wl, n)
  else
    let '(coins, tip) := GetCoins (nv_tip n) (GetHash (wt_tx w)) in
    let n := {| nv_pool := nv_pool n; nv_tip := tip; nv_cache := nv_cache n |} in
    if bool_decide (is_Some coins) || (0 <? GetDepthInMainChain cv (wt_merkle w)) then
      let? (w, fUpdated) := mark_lost wl (default empty_coins coins) (outputs w) w false in
      let? w := if fUpdated then let? (_, w) := wtx_GetCredit cv wl true w in Some (MarkDirty w) else Some w in
      Some (fUpdated, put_tx h w wl, n)
    else if negb (IsCoinBase (wt_tx w)) then let? (_, wl, n) := AcceptWalletTransaction false w wl n in Some (false, wl, n)
    else Some (false, wl, n).
(** one pass over the wallet, which also comes to what is added behind the place it has reached: whether spent coins were missing, in which case the chain is scanned;
    [hs]: the rest of the wallet's hashes *)
Fixpoint reaccept_pass (steps : nat) (hs : list Z) (fMissing : bool) (wl : CWallet) (n : node) : option (bool * CWallet * node) :=
  match hs with
  | [] => Some (fMissing, wl, n)
  | h :: _ =>
    match steps with
    | O => None
    | S steps =>
      let? (missing, wl, n) := reaccept_tx h wl n in
      reaccept_pass steps (filter (fun x => h < x) (wallet_hashes wl)) (fMissing || missing) wl n
    end
  end.
Fixpoint ReacceptWalletTransactions (rounds steps : nat) (blocks : list CBlock) (wl : CWallet) (n : node) : option (CWallet * node) :=
  match rounds with
  | O => None
  | S rounds =>
    let? (fMissing, wl, n) := reaccept_pass steps (wallet_hashes wl) false wl n in
    if fMissing then
      let? (ret, wl) := ScanForWalletTransactions draw now nPool acentries cv blocks false 0 wl in
      if bool_decide (ret = 0%nat) then Some (wl, n) else ReacceptWalletTransactions rounds steps blocks wl n
    else Some (wl, n)
  end.
End Send.

(** ** Properties *)

Section SendProperties.
Context {V : Type} {CV : CoinsView V} {CS : CoinsViewSpec V} {B : OpenSSLBN} {K : Crypto} {C : Cipher} {E : CacheEnv}.

(** after a commit: the transaction is recorded, and what it spends is spent *)
Definition recorded (wl wl' : CWallet) (tx : CTransaction) : Prop :=
  (exists w, mapWallet wl' !! GetHash tx = Some w /\ (mapWallet wl !! GetHash tx = None -> wt_tx w = tx)) /\
  forall i, i ∈ vin tx -> exists w, mapWallet wl' !! o_hash (prevout i) = Some w /\ IsSpent w (Z.to_nat (o_n (prevout i))) = Some true.
Lemma commit_wallet_recorded draw now nPool entries cv a k wl k' wl' : commit_wallet draw now nPool entries cv a k wl = Some (k', wl') -> recorded wl wl' (wt_tx a).
Proof.
  intros H. split; [|by apply commit_wallet_grows in H as [_ Hi]]. revert H. unfold commit_wallet. destruct (KeepKey k (wl_pool wl)) as [r p]. set (wl0 := with_pool_book p (mapAddressBook wl) wl).
  destruct (AddToWallet _ _ _ _ _ _ _) as [wl1|] eqn:E1; [|done]. destruct (commit_inputs _ _) as [wl2|] eqn:E2; [|done]. intros [= _ <-]. cbn [mapWallet with_requests].
  apply AddToWallet_parts in E1 as (wa & wb & (w & Ew & Et & _) & Eb & _ & Hu). apply WalletUpdateSpent_marks, marked_grows in Hu. apply commit_inputs_grows in E2 as [G _].
  destruct (Hu (GetHash (wt_tx a)) w) as (w1 & Hw1 & Et1 & _); [by rewrite Eb, Ew, lookup_insert_eq|]. destruct (G _ _ Hw1) as (w2 & Hw2 & Et2 & _). exists w2. split; [done|]. intros Hn.
  change (mapWallet wl0) with (mapWallet wl) in Et. rewrite Hn in Et. cbn in Et. congruence.
Qed.
Lemma same_txs_recorded wl0 wl wl' tx : same_txs wl0 wl -> recorded wl wl' tx -> recorded wl0 wl' tx.
Proof. intros Hs [(w & Hw & Hn) Hi]. split; [|done]. exists w. split; [done|]. intros H0. apply Hn. specialize (Hs (GetHash tx)). rewrite H0 in Hs. by inversion Hs. Qed.

Lemma recorded_grows wl wl1 wl2 tx : recorded wl wl1 tx -> wallet_grows wl1 wl2 -> recorded wl wl2 tx.
Proof.
  intros [(w & Hw & Hn) Hi] G. split.
  - destruct (G _ _ Hw) as (w2 & Hw2 & Et & _). exists w2. split; [done|]. intros H0. rewrite Et. auto.
  - intros i Hx. destruct (Hi i Hx) as (w1 & Hw1 & Hsp). destruct (G _ _ Hw1) as (w2 & Hw2 & _ & Hg). exists w2. auto.
Qed.

Definition paid (draw : nat -> Z) (f : fees) (fuel : nat) (cv : chain_view) (scriptPubKey : bytes) (v : Z) (wl wl' : CWallet) (tx : CTransaction) : Prop :=
  (exists nFee k l, made_ok draw f fuel cv [(scriptPubKey, v)] wl tx nFee k l) /\ recorded wl wl' tx.

(** C37: What [SendMoney] says is what happened: when it reports success, the transaction it made pays the amount with a sufficient fee from distinct spendable coins of the wallet, none of them locked or spent, is in the memory pool, where it was not before, is in the wallet, and all it spends is marked as spent, also after the pool has told the wallet of it; when the pool refuses it, the wallet holds it and its coins for spent all the same; and in every other case neither the pool nor the transactions of the wallet are touched. (An exception of the wallet while it is told of the transaction is left out.) *)
Theorem SendMoney_outcome draw now nPool rand_bit shuffle order change_pos f fuel cv entries p turns scriptPubKey v wtxNew fAskFee ask u wl r (n : node_view V) res w wl' n' :
  (forall k l, Permutation (shuffle k l) l) -> (forall s, Permutation (order s) (elements s)) -> fees_ok f -> (101 <= turns)%nat -> 0 < v <= 2 ^ 61 -> sane wl ->
  SendMoney draw now nPool rand_bit shuffle order change_pos f fuel cv entries p turns scriptPubKey v wtxNew fAskFee ask u wl r n = Some (res, w, wl', n') ->
  match res with
  | Sent => paid draw f fuel cv scriptPubKey v wl wl' (wt_tx w) /\ mapTx (nv_pool n) !! GetHash (wt_tx w) = None /\ mapTx (nv_pool n') = <[GetHash (wt_tx w) := wt_tx w]> (mapTx (nv_pool n))
  | SendRejected => paid draw f fuel cv scriptPubKey v wl wl' (wt_tx w) /\ nv_pool n' = nv_pool n
  | _ => same_txs wl wl' /\ nv_pool n' = nv_pool n
  end.
Proof.
  intros Hsh Hor Hf Ht Hv Hs. assert (Hp : payable [(scriptPubKey, v)]) by (split; [repeat constructor; cbn; lia|done|cbn; lia]). unfold SendMoney. case_if; [by intros [= <- _ <- <-]|].
  destruct (CreateTransaction _ _ _ _ _ _ _ _ _ _ _ _ _ _ _) as [[[res0 nFee] s]|] eqn:Ec; [|done]. apply (CreateTransaction_spec _ _ _ _ _ _ _ _ _ _ Hsh Hor Hf) in Ec as (Hst & Hres); [|done|done|done].
  cbn [cs_wallet] in Hst, Hres. destruct res0 as [[e|wtx]|]; [| |done].
  - destruct (GetBalance fuel cv (cs_wallet s)) as [[b wl1]|] eqn:Eb; [|done]. apply GetBalance_recached, same_txs_of in Eb. destruct (b <? _); intros [= <- <- <- <-]; (split; [|done]); apply same_txs_pool; (etransitivity; [apply Hst|done]).
  - case_if; [intros [= <- <- <- <-]; split; [apply same_txs_pool, Hst|done]|]. unfold CommitTransaction. destruct (commit_wallet _ _ _ _ _ _ _ _) as [[k wl1]|] eqn:Ew; [|done]. unfold merkle_AcceptToMemoryPool.
    destruct (accept _ _ _ _ _ _ _ _) as [a|] eqn:Ea; [|done]. cbn [option_bind mbind]. apply accept_inv in Ea as [_ Ha]. cbn [nv_pool nv_tip nv_cache] in Ha. apply commit_wallet_recorded, (same_txs_recorded wl) in Ew; [|apply Hst].
    destruct Hres as (_ & l & Hl). assert (Hmade : exists nFee k l, made_ok draw f fuel cv [(scriptPubKey, v)] wl (wt_tx wtx) nFee k l) by by exists nFee, (cs_key s), l.
    destruct (a_ok a); [|intros [= <- <- <- <-]; split; [by split|done]]. unfold SyncWithWallets. destruct (AddToWalletIfInvolvingMe _ _ _ _ _ _ _ _ _ _) as [[b wl2]|] eqn:Ey; [|done]. apply AddToWalletIfInvolvingMe_grows in Ey.
    intros [= <- <- <- <-]. cbn [nv_pool]. destruct Ha as (_ & _ & Hn & _ & -> & _). split; [|done]. split; [done|]. exact (recorded_grows _ _ _ _ Ew Ey).
Qed.

(** a transaction the chain has coins for is refused when inputs are checked *)
Lemma accept_known p tx st pool (tip : CCoinsViewCache V) cache a : is_Some (Vm tip (GetHash tx)) -> accept p tx true false st pool tip cache = Some a -> a_ok a = false.
Proof.
  intros [c Hc] H. unfold accept in H. destruct (CheckTransaction tx); [|destruct (state_DoS _ _ _ _); by simplify_eq]. case_if_in H; [destruct (state_DoS _ _ _ _); by simplify_eq|]. do 4 (case_if_in H; [by simplify_eq|]). cbn [negb] in H.
  pose proof (HaveCoins_spec (new_cache {| mp_base := tip; mempool := pool |}) (GetHash tx)) as Hs. destruct (HaveCoins _ _) as [have view]. destruct Hs as [-> _].
  rewrite bool_decide_eq_true_2 in H; [by simplify_eq|]. unfold Vm. cbn [cacheCoins new_cache base]. rewrite lookup_empty. cbn [cmap CCoinsViewMemPool_spec mp_base]. change (cmap tip (GetHash tx)) with (Vm tip (GetHash tx)). rewrite Hc. by eexists.
Qed.
Lemma pool_gains draw now nPool cv entries p tx b wl (n : node_view V) ok wl' n' : merkle_AcceptToMemoryPool draw now nPool cv entries p tx b wl n = Some (ok, wl', n') -> same_view (nv_tip n) (nv_tip n') /\
  forall h, is_Some (mapTx (nv_pool n') !! h) -> is_Some (mapTx (nv_pool n) !! h) \/ h = GetHash tx /\ (b = true -> ~ is_Some (Vm (nv_tip n) (GetHash tx))).
Proof.
  unfold merkle_AcceptToMemoryPool. destruct (accept _ _ _ _ _ _ _ _) as [a|] eqn:Ea; [|done]. cbn [option_bind mbind]. intros H. assert (n' = {| nv_pool := a_pool a; nv_tip := a_tip a; nv_cache := a_cache a |}) as -> by (destruct (a_ok a); [destruct (SyncWithWallets _ _ _ _ _ _ _ _ _ _) as [x|]; [|done]|]; by injection H as _ _ <-).
  clear H. cbn [nv_pool nv_tip]. apply accept_inv in Ea as Hi. destruct Hi as [Hv Hi]. split; [done|]. intros h Hh.
  destruct (a_ok a) eqn:Eok; [|rewrite Hi in Hh; by left]. destruct Hi as (_ & _ & _ & _ & Ep & _). rewrite Ep in Hh. unfold addUnchecked in Hh. cbn [mapTx] in Hh. destruct (decide (h = GetHash tx)) as [->|]; [|rewrite lookup_insert_ne in Hh by done; by left].
  right. split; [done|]. intros -> Hc. apply accept_known in Ea; [congruence|done].
Qed.
Lemma accept_supporting_gains draw now nPool cv entries p b l : forall wl (n : node_view V) wl' n', accept_supporting draw now nPool cv entries p b l wl n = Some (wl', n') -> same_view (nv_tip n) (nv_tip n') /\
  forall h, is_Some (mapTx (nv_pool n') !! h) -> is_Some (mapTx (nv_pool n) !! h) \/ b = false /\ is_Some (Vm (nv_tip n) h) /\ exists m, m ∈ l /\ h = GetHash (m_tx m).
Proof.
  assert (Hmore : forall m r (n n' : node_view V), (forall h, is_Some (mapTx (nv_pool n') !! h) -> is_Some (mapTx (nv_pool n) !! h) \/ b = false /\ is_Some (Vm (nv_tip n) h) /\ exists m, m ∈ r /\ h = GetHash (m_tx m)) ->
    forall h, is_Some (mapTx (nv_pool n') !! h) -> is_Some (mapTx (nv_pool n) !! h) \/ b = false /\ is_Some (Vm (nv_tip n) h) /\ exists x, x ∈ m :: r /\ h = GetHash (m_tx x)).
  { intros m r n n' H h Hh. destruct (H h Hh) as [?|(? & ? & x & ? & ?)]; [by left|]. right. split; [done|]. split; [done|]. exists x. split; [by right|done]. }
  induction l as [|m r IH]; intros wl n wl' n'; cbn [accept_supporting]; [intros [= _ <-]; split; [done|by left]|].
  case_if; [intros H; apply IH in H as [H1 H2]; split; [done|by apply Hmore]|]. case_if; [intros H; apply IH in H as [H1 H2]; split; [done|by apply Hmore]|].
  pose proof (HaveCoins_spec (nv_tip n) (GetHash (m_tx m))) as Hs. destruct (HaveCoins _ _) as [have tip]. destruct Hs as [-> Hs]. case_bool_decide as Hc.
  - destruct (merkle_AcceptToMemoryPool _ _ _ _ _ _ _ _ _ _) as [[[ok wl1] n1]|] eqn:Ea; [|done]. apply pool_gains in Ea as [Hv Hg]. cbn [nv_tip nv_pool] in *. intros H. apply IH in H as [H1 H2]. assert (Hv1 : same_view (nv_tip n) (nv_tip n1)) by by rewrite Hs.
    split; [by rewrite Hv1|]. intros h Hh. assert (Vm (nv_tip n1) h = Vm (nv_tip n) h) as Ev by apply Hv1. destruct (H2 h Hh) as [Hx|(? & Hx & x & ? & ?)].
    + destruct (Hg h Hx) as [?|[-> Hn]]; [by left|]. right. destruct b; [destruct Hn; [done|]; destruct Hs as [Hsm _]; by rewrite Hsm|]. split; [done|]. split; [done|]. exists m. split; [left|done].
    + right. split; [done|]. rewrite Ev in Hx. split; [done|]. exists x. split; [by right|done].
  - intros H. apply IH in H as [H1 H2]. cbn [nv_tip nv_pool] in *. split; [by rewrite Hs|]. apply Hmore. intros h Hh. destruct (H2 h Hh) as [?|(? & Hx & ?)]; [by left|]. right. split; [done|]. split; [|done]. destruct Hs as [Hsm _]. by rewrite Hsm in Hx.
Qed.

(** The transactions that support a wallet transaction never get where [AcceptWalletTransaction] means to put them: one that the chain does not know is not offered to the pool, and one that it does is refused when inputs are checked; so the pool gains at most the transaction itself, and without checks also supporting transactions, but only ones whose coins the chain already has. *)
Theorem supporting_transactions_backwards draw now nPool cv entries p fCheckInputs w wl (n : node_view V) ok wl' n' : AcceptWalletTransaction draw now nPool cv entries p fCheckInputs w wl n = Some (ok, wl', n') ->
  forall h, is_Some (mapTx (nv_pool n') !! h) -> is_Some (mapTx (nv_pool n) !! h) \/ h = GetHash (wt_tx w) \/
    fCheckInputs = false /\ is_Some (Vm (nv_tip n) h) /\ exists m, m ∈ vtxPrev w /\ h = GetHash (m_tx m).
Proof.
  unfold AcceptWalletTransaction. destruct (accept_supporting _ _ _ _ _ _ _ _ _ _) as [[wl1 n1]|] eqn:Es; [|done]. apply accept_supporting_gains in Es as [_ Hg]. intros H h Hh. apply pool_gains in H as [_ H]. destruct (H h Hh) as [Hx|[-> _]]; [|by right; left].
  destruct (Hg h Hx) as [?|?]; [by left|by right; right].
Qed.
End SendProperties.

(** ** A payment *)

Definition demo_node : node_view memory_view := {| nv_pool := empty_pool; nv_tip := SetCoins sample_view fund_hash (coins_of fund_tx 3); nv_cache := SigCache.empty_cache |}.
Definition demo_send_money (wl : CWallet) := SendMoney (V := memory_view) (B := ZBN) (K := ToyCrypto) (C := ToyCipher) demo_draw 0 2 Nat.even (fun _ l => rev l) elements (fun _ _ => 0%nat) demo_fees 9 demo_chain [] sample_pool_params 101
  (SetDestination (CKeyID 77)) (4 * COIN) (wallet_tx (merkle_of pay_tx)) false (fun _ => true) 0 wl 0 demo_node.
Lemma demo_amount : 0 < 4 * COIN <= 2 ^ 61.
Proof. unfold COIN. lia. Qed.
Lemma SendMoney_outcome_witness : exists wl w wl' n', demo_send_money wl = Some (Sent, w, wl', n') /\
  paid (K := ToyCrypto) (C := ToyCipher) demo_draw demo_fees 9 demo_chain (SetDestination (CKeyID 77)) (4 * COIN) wl wl' (wt_tx w) /\
  mapTx (nv_pool demo_node) !! GetHash (K := ToyCrypto) (wt_tx w) = None /\ mapTx (nv_pool n') = <[GetHash (K := ToyCrypto) (wt_tx w) := wt_tx w]> (mapTx (nv_pool demo_node)).
Proof.
  assert (H : (match demo_funded with Some wl => sane_check wl && match demo_send_money wl with Some (Sent, _, _, _) => true | _ => false end | None => false end) = true) by (vm_compute; reflexivity).
  destruct demo_funded as [wl|]; [|discriminate H]. apply andb_prop in H as [Hs H]. destruct (demo_send_money wl) as [[[[res w] wl'] n']|] eqn:Em; [|discriminate H]. destruct res; try discriminate H.
  exists wl, w, wl', n'. split; [exact Em|].
  exact (SendMoney_outcome (V := memory_view) (B := ZBN) (K := ToyCrypto) (C := ToyCipher) demo_draw 0 2 Nat.even (fun _ l => rev l) elements (fun _ _ => 0%nat) demo_fees 9 demo_chain [] sample_pool_params 101
    (SetDestination (CKeyID 77)) (4 * COIN) (wallet_tx (merkle_of pay_tx)) false (fun _ => true) 0 wl 0 demo_node Sent w wl' n' (fun _ l => Permutation_sym (Permutation_rev l)) (fun s => reflexivity _) demo_fees_ok (le_n 101)
    demo_amount (sane_check_ok wl Hs) Em).
Defined.
Lemma supporting_transactions_backwards_witness : exists ok wl' n', AcceptWalletTransaction (V := memory_view) (B := ZBN) (K := ToyCrypto) (C := ToyCipher) demo_draw 0 2 demo_chain [] sample_pool_params false pay_wtx demo_start demo_node = Some (ok, wl', n') /\ is_Some (mapTx (nv_pool n') !! fund_hash) /\
  forall h, is_Some (mapTx (nv_pool n') !! h) -> is_Some (mapTx (nv_pool demo_node) !! h) \/ h = GetHash (K := ToyCrypto) (wt_tx pay_wtx) \/
    false = false /\ is_Some (Vm (nv_tip demo_node) h) /\ exists m, m ∈ vtxPrev pay_wtx /\ h = GetHash (K := ToyCrypto) (m_tx m).
Proof.
  assert (H : (match AcceptWalletTransaction (V := memory_view) (B := ZBN) (K := ToyCrypto) (C := ToyCipher) demo_draw 0 2 demo_chain [] sample_pool_params false pay_wtx demo_start demo_node with Some (_, _, n') => bool_decide (is_Some (mapTx (nv_pool n') !! fund_hash)) | None => false end) = true) by (vm_compute; reflexivity).
  destruct (AcceptWalletTransaction _ _ _ _ _ _ _ _ _ _) as [[[ok wl'] n']|] eqn:Ea; [|discriminate H]. exists ok, wl', n'. split; [reflexivity|]. split; [exact (bool_decide_eq_true_1 _ H)|].
  exact (supporting_transactions_backwards (V := memory_view) (B := ZBN) (K := ToyCrypto) (C := ToyCipher) demo_draw 0 2 demo_chain [] sample_pool_params false pay_wtx demo_start demo_node ok wl' n' Ea).
Defined.

(** ** The width of an amount *)

(** 94 million coins and a payment of 4: *)
Definition rich_tx : CTransaction := {| nVersion := 1; vin := [{| prevout := {| o_hash := 5; o_n := 0 |}; scriptSig := []; nSequence := 2 ^ 32 - 1 |}]; vout := [{| nValue := 94000000 * COIN; scriptPubKey := demo_script |}]; nLockTime := 0 |}.
Definition rich_chain : chain_view := {| cv_index := alter (fun b => {| pprev := pprev b; pnext := pnext b; nHeight := nHeight b; nFile := nFile b; nDataPos := nDataPos b; nUndoPos := nUndoPos b; nChainWork := nChainWork b; nWorkTransition := nWorkTransition b;
  i_nPrimeChainType := i_nPrimeChainType b; i_nPrimeChainLength := i_nPrimeChainLength b; nMoneySupply := nMoneySupply b; nTx := nTx b; nChainTx := nChainTx b; nStatus := nStatus b; i_nVersion := i_nVersion b; i_hashMerkleRoot := GetHash (K := ToyCrypto) rich_tx;
  i_nTime := i_nTime b; i_nBits := i_nBits b; i_nNonce := i_nNonce b |}) 7 (cv_index demo_chain); cv_best := Some 7; cv_nBestHeight := 3; cv_time := 100; cv_coins_block := fun _ => None |}.
Definition rich_create : option (option (create_error + CWalletTx) * Z) :=
  let? wl := AddToWallet (K := ToyCrypto) (C := ToyCipher) demo_draw 0 2 [] rich_chain (wallet_tx {| m_tx := rich_tx; m_hashBlock := 7; m_vMerkleBranch := []; m_nIndex := 0; m_fMerkleVerified := false |}) demo_start in
  let? (res, nFee, _) := CreateTransaction (B := ZBN) (K := ToyCrypto) (C := ToyCipher) demo_draw 0 2 Nat.even (fun _ l => rev l) elements (fun _ _ => 0%nat) demo_fees 9 rich_chain 101 demo_send (wallet_tx (merkle_of rich_tx)) 0 (demo_state wl) in Some (res, nFee).

(** [CTxOut::IsDust] multiplies the amount by 1000 in 64 bits, which is too narrow for more than 92 million coins, though amounts of up to 2000 million are in range: from
    there on an output counts as dust, so it is refused as not standard, and [CreateTransaction] gives change of that size away as a fee. *)
Theorem fortune_is_dust : IsDust CENT {| nValue := 93000000 * COIN; scriptPubKey := demo_script |} = true /\ MoneyRange (93000000 * COIN) = true /\
  match rich_create with Some (Some (inr w), nFee) => nFee = 93999996 * COIN /\ map nValue (vout (wt_tx w)) = [4 * COIN] | _ => False end.
Proof. vm_compute. repeat split. Qed.
