(* ===== verification/Bloom.v ===== *)
(** * Bloom filters (bloom.h, bloom.cpp, hash.cpp)

    MurmurHash3 and [CBloomFilter], the filter a light client gives to a peer.  The two numbers the constructor of a filter
    estimates in floating point are arguments.  [None]: the filter has no data, and a bit index is taken modulo zero (the code
    divides by zero).  The properties: a filter never forgets what was inserted, updating its flags changes no answer, and
    [IsRelevantAndUpdate] misses no transaction and, with BLOOM_UPDATE_ALL, none that spends what it matched. *)

From S2P Require Import Prelude Serialize Crypto Script Transaction ScriptStd.
Local Open Scope Z_scope.

(** ** MurmurHash3 (x86, 32 bits) *)

Definition ROTL32 (x r : Z) : Z := Z.lor (u32 (Z.shiftl x r)) (Z.shiftr x (32 - r)).
Definition murmur_c1 : Z := 0xcc9e2d51.
Definition murmur_c2 : Z := 0x1b873593.
Definition murmur_k (k1 : Z) : Z := u32 (ROTL32 (u32 (k1 * murmur_c1)) 15 * murmur_c2).
(** the body, and what is left for the tail *)
Fixpoint murmur_body (h1 : Z) (l : bytes) : Z * bytes :=
  match l with
  | a :: b :: c :: d :: r => murmur_body (u32 (ROTL32 (Z.lxor h1 (murmur_k (le_val [a; b; c; d]))) 13 * 5 + 0xe6546b64)) r
  | _ => (h1, l)
  end.
Definition murmur_tail (h1 : Z) (tail : bytes) : Z :=
  match tail with
  | [a; b; c] => Z.lxor h1 (murmur_k (Z.lxor (Z.lxor (Z.shiftl c 16) (Z.shiftl b 8)) a))
  | [a; b] => Z.lxor h1 (murmur_k (Z.lxor (Z.shiftl b 8) a))
  | [a] => Z.lxor h1 (murmur_k a)
  | _ => h1
  end.
Definition murmur_final (h1 size : Z) : Z :=
  let h1 := u32 (Z.lxor h1 size) in
  let h1 := Z.lxor h1 (Z.shiftr h1 16) in
  let h1 := u32 (h1 * 0x85ebca6b) in
  let h1 := Z.lxor h1 (Z.shiftr h1 13) in
  let h1 := u32 (h1 * 0xc2b2ae35) in
  Z.lxor h1 (Z.shiftr h1 16).
Definition MurmurHash3 (nHashSeed : Z) (vDataToHash : bytes) : Z :=
  let '(h1, tail) := murmur_body nHashSeed vDataToHash in
  murmur_final (murmur_tail h1 tail) (Z.of_nat (length vDataToHash)).

(** the reference values of the algorithm *)
Example MurmurHash3_values :
  map (fun '(seed, l) => MurmurHash3 seed l) [(0xFBA4C795, []); (0, [0x00]); (0, [0x00; 0x11]); (0, [0x00; 0x11; 0x22]); (0, [0x00; 0x11; 0x22; 0x33]);
    (0, [0x00; 0x11; 0x22; 0x33; 0x44; 0x55])] = [0x6a396f08; 0x514e28b7; 0x16c6b7ab; 0x8eb51c3d; 0xb4471bf8; 0xfc2e4a15].
Proof. reflexivity. Qed.

(** ** The filter *)

Definition MAX_BLOOM_FILTER_SIZE : Z := 36000.
Definition MAX_HASH_FUNCS : Z := 50.
Definition BLOOM_UPDATE_NONE : Z := 0.
Definition BLOOM_UPDATE_ALL : Z := 1.
Definition BLOOM_UPDATE_P2PUBKEY_ONLY : Z := 2.
Definition BLOOM_UPDATE_MASK : Z := 3.
Definition bit_mask : bytes := [0x01; 0x02; 0x04; 0x08; 0x10; 0x20; 0x40; 0x80].

Record CBloomFilter := { vData : bytes; isFull : bool; isEmpty : bool; nHashFuncs : Z; nTweak : Z; nFlags : Z }.
Definition with_data (d : bytes) (f : CBloomFilter) : CBloomFilter :=
  {| vData := d; isFull := isFull f; isEmpty := isEmpty f; nHashFuncs := nHashFuncs f; nTweak := nTweak f; nFlags := nFlags f |}.

(** [nBits] and [nFuncs]: the estimates of the ideal size and number of functions, as unsigned integers *)
Definition new_filter (nBits nFuncs nTweakIn nFlagsIn : Z) : CBloomFilter :=
  {| vData := replicate (Z.to_nat (Z.min nBits (MAX_BLOOM_FILTER_SIZE * 8) / 8)) 0; isFull := false; isEmpty := false;
     nHashFuncs := Z.min nFuncs MAX_HASH_FUNCS; nTweak := nTweakIn; nFlags := nFlagsIn |}.

Definition filter_Hash (f : CBloomFilter) (nHashNum : Z) (vDataToHash : bytes) : option Z :=
  let size := Z.of_nat (length (vData f)) * 8 in
  if size =? 0 then None else Some (u32 (MurmurHash3 (u32 (nHashNum * 0xFBA4C795 + nTweak f)) vDataToHash mod size)).

Definition mask_of (nIndex : Z) : Z := nth (Z.to_nat (Z.land 7 nIndex)) bit_mask 0.
Definition byte_of (nIndex : Z) : nat := Z.to_nat (Z.shiftr nIndex 3).
Definition set_bit (nIndex : Z) (d : bytes) : bytes := alter (fun b => u8 (Z.lor b (mask_of nIndex))) (byte_of nIndex) d.
Definition test_bit (d : bytes) (nIndex : Z) : bool := negb (Z.land (nth (byte_of nIndex) d 0) (mask_of nIndex) =? 0).

(** [k] rounds from round [i] on *)
Fixpoint insert_loop (k : nat) (i : Z) (vKey : bytes) (f : CBloomFilter) : option CBloomFilter :=
  match k with
  | O => Some f
  | S k => let? nIndex := filter_Hash f i vKey in insert_loop k (i + 1) vKey (with_data (set_bit nIndex (vData f)) f)
  end.
Definition insert_key (vKey : bytes) (f : CBloomFilter) : option CBloomFilter :=
  if isFull f then Some f
  else
    let? f := insert_loop (Z.to_nat (nHashFuncs f)) 0 vKey f in
    Some {| vData := vData f; isFull := isFull f; isEmpty := false; nHashFuncs := nHashFuncs f; nTweak := nTweak f; nFlags := nFlags f |}.

Fixpoint contains_loop (k : nat) (i : Z) (vKey : bytes) (f : CBloomFilter) : option bool :=
  match k with
  | O => Some true
  | S k => let? nIndex := filter_Hash f i vKey in if negb (test_bit (vData f) nIndex) then Some false else contains_loop k (i + 1) vKey f
  end.
Definition contains (f : CBloomFilter) (vKey : bytes) : option bool :=
  if isFull f then Some true else if isEmpty f then Some false else contains_loop (Z.to_nat (nHashFuncs f)) 0 vKey f.

(** the keys of the overloads for an outpoint and a hash *)
Definition outpoint_key (o : COutPoint) : bytes := Serialize ser_COutPoint o.
Definition hash_key (h : Z) : bytes := le_bytes 32 h.

Definition IsWithinSizeConstraints (f : CBloomFilter) : bool :=
  (Z.of_nat (length (vData f)) <=? MAX_BLOOM_FILTER_SIZE) && (nHashFuncs f <=? MAX_HASH_FUNCS).

Definition UpdateEmptyFull (f : CBloomFilter) : CBloomFilter :=
  {| vData := vData f; isFull := forallb (fun b => b =? 0xff) (vData f); isEmpty := forallb (fun b => b =? 0) (vData f);
     nHashFuncs := nHashFuncs f; nTweak := nTweak f; nFlags := nFlags f |}.

(** an output that matched *)
Definition update_matched (hash i : Z) (script : bytes) (f : CBloomFilter) : option CBloomFilter :=
  let o := outpoint_key {| o_hash := hash; o_n := i |} in
  if Z.land (nFlags f) BLOOM_UPDATE_MASK =? BLOOM_UPDATE_ALL then insert_key o f
  else if Z.land (nFlags f) BLOOM_UPDATE_MASK =? BLOOM_UPDATE_P2PUBKEY_ONLY then
    let '(ok, type, _) := Solver script in
    if ok && (bool_decide (type = TX_PUBKEY) || bool_decide (type = TX_MULTISIG)) then insert_key o f else Some f
  else Some f.

(** whether a data element of the script is in the filter *)
Fixpoint match_script (fuel : nat) (f : CBloomFilter) (pc : bytes) : option bool :=
  match fuel with
  | O => Some false
  | S k =>
    match GetOp2 pc with
    | None => Some false
    | Some (_, data, pc) =>
      let? m := if bool_decide (data = []) then Some false else contains f data in
      if m then Some true else match_script k f pc
    end
  end.
Definition script_matches (f : CBloomFilter) (script : bytes) : option bool := match_script (length script) f script.

Fixpoint match_outputs (hash i : Z) (vout : list CTxOut) (fFound : bool) (f : CBloomFilter) : option (bool * CBloomFilter) :=
  match vout with
  | [] => Some (fFound, f)
  | txout :: r =>
    let? m := script_matches f (scriptPubKey txout) in
    if m then let? f := update_matched hash i (scriptPubKey txout) f in match_outputs hash (i + 1) r true f
    else match_outputs hash (i + 1) r fFound f
  end.
Fixpoint match_inputs (vin : list CTxIn) (f : CBloomFilter) : option bool :=
  match vin with
  | [] => Some false
  | txin :: r =>
    let? m := contains f (outpoint_key (prevout txin)) in
    if m then Some true
    else
      let? m := script_matches f (scriptSig txin) in
      if m then Some true else match_inputs r f
  end.
Definition IsRelevantAndUpdate (tx : CTransaction) (hash : Z) (f : CBloomFilter) : option (bool * CBloomFilter) :=
  if isFull f then Some (true, f)
  else if isEmpty f then Some (false, f)
  else
    let? fFound := contains f (hash_key hash) in
    let? (fFound, f) := match_outputs hash 0 (vout tx) fFound f in
    if fFound then Some (true, f) else let? m := match_inputs (vin tx) f in Some (m, f).

(** ** Bits *)

Lemma mask_pow nIndex : 0 <= nIndex -> mask_of nIndex = 2 ^ (nIndex mod 8).
Proof.
  intros Hn. unfold mask_of. replace (Z.land 7 nIndex) with (nIndex mod 8) by (rewrite Z.land_comm; symmetry; apply (Z.land_ones nIndex 3); lia).
  pose proof (Z.mod_pos_bound nIndex 8 eq_refl) as Hr. assert (Hc : nIndex mod 8 = 0 \/ nIndex mod 8 = 1 \/ nIndex mod 8 = 2 \/ nIndex mod 8 = 3 \/
    nIndex mod 8 = 4 \/ nIndex mod 8 = 5 \/ nIndex mod 8 = 6 \/ nIndex mod 8 = 7) by lia.
  by destruct Hc as [->|[->|[->|[->|[->|[->|[->| ->]]]]]]].
Qed.
Lemma land_pow b j : 0 <= j -> negb (Z.land b (2 ^ j) =? 0) = Z.testbit b j.
Proof.
  intros Hj. destruct (Z.testbit b j) eqn:E.
  - apply negb_true_iff, Z.eqb_neq. intros H0. assert (Ht : Z.testbit (Z.land b (2 ^ j)) j = true) by (by rewrite Z.land_spec, E, Z.pow2_bits_true by done). by rewrite H0, Z.bits_0 in Ht.
  - apply negb_false_iff, Z.eqb_eq, Z.bits_inj'. intros k Hk. rewrite Z.land_spec, Z.bits_0, Z.pow2_bits_eqb by done. destruct (Z.eqb_spec j k) as [->|]; [by rewrite E|by rewrite andb_false_r].
Qed.
Lemma test_bit_spec d nIndex : 0 <= nIndex -> test_bit d nIndex = Z.testbit (nth (byte_of nIndex) d 0) (nIndex mod 8).
Proof. intros Hn. unfold test_bit. rewrite mask_pow by done. apply land_pow. apply Z.mod_pos_bound. lia. Qed.

(** setting a bit of a byte in range keeps the others *)
Lemma testbit_set b j k : 0 <= j < 8 -> 0 <= k < 8 -> Z.testbit (u8 (Z.lor b (2 ^ j))) k = Z.testbit b k || (j =? k).
Proof. intros Hj Hk. unfold u8. rewrite Z.mod_pow2_bits_low by lia. by rewrite Z.lor_spec, Z.pow2_bits_eqb by lia. Qed.

Lemma nth_alter f k n (d : bytes) : nth k (alter f n d) 0 = if bool_decide (k = n /\ (n < length d)%nat) then f (nth k d 0) else nth k d 0.
Proof.
  rewrite !nth_lookup. case_bool_decide as H.
  - destruct H as [-> Hl]. rewrite list_lookup_alter_eq. destruct (d !! n) as [x|] eqn:E; [done|]. apply lookup_ge_None in E. lia.
  - destruct (decide (k = n)) as [->|Hne]; [|by rewrite list_lookup_alter_ne]. rewrite list_lookup_alter_eq. destruct (d !! n) eqn:E; [|done].
    apply lookup_lt_Some in E. destruct H. by split.
Qed.
Lemma length_set_bit n d : length (set_bit n d) = length d.
Proof. apply length_alter. Qed.
Lemma set_bit_keeps n m d : 0 <= n -> 0 <= m -> test_bit d m = true -> test_bit (set_bit n d) m = true.
Proof.
  intros Hn Hm. rewrite !test_bit_spec by done. unfold set_bit. rewrite nth_alter. case_bool_decide; [|done]. intros Ht.
  rewrite mask_pow, testbit_set by (try apply Z.mod_pos_bound; lia). by rewrite Ht.
Qed.
Lemma set_bit_sets n d : 0 <= n < Z.of_nat (length d) * 8 -> test_bit (set_bit n d) n = true.
Proof.
  intros Hn. rewrite test_bit_spec by lia. unfold set_bit. rewrite nth_alter, bool_decide_eq_true_2.
  - rewrite mask_pow, testbit_set by (try apply Z.mod_pos_bound; lia). by rewrite Z.eqb_refl, orb_true_r.
  - split; [done|]. unfold byte_of. rewrite Z.shiftr_div_pow2 by lia. assert (n / 2 ^ 3 < Z.of_nat (length d)) by (apply Z.div_lt_upper_bound; lia).
    pose proof (Z.div_pos n (2 ^ 3)). lia.
Qed.

(** ** What a filter answers *)

(** a filter whose answers are defined *)
Definition usable (f : CBloomFilter) : Prop := isFull f = true \/ vData f <> [].
Definition answers (f : CBloomFilter) (vKey : bytes) : Prop := contains f vKey = Some true.
(** two filters with the same hash functions *)
Definition same_shape (f f' : CBloomFilter) : Prop :=
  length (vData f') = length (vData f) /\ isFull f' = isFull f /\ nHashFuncs f' = nHashFuncs f /\ nTweak f' = nTweak f /\ nFlags f' = nFlags f.
#[export] Instance same_shape_preorder : PreOrder same_shape.
Proof. split; [intros f; by split_and!|]. intros f g h (A1 & A2 & A3 & A4 & A5) (B1 & B2 & B3 & B4 & B5). split_and!; congruence. Qed.

Lemma Hash_shape f f' i k : same_shape f f' -> filter_Hash f' i k = filter_Hash f i k.
Proof. intros (Hl & _ & _ & Ht & _). unfold filter_Hash. by rewrite Hl, Ht. Qed.
Lemma Hash_in_range f i k n : filter_Hash f i k = Some n -> 0 <= n < Z.of_nat (length (vData f)) * 8.
Proof.
  unfold filter_Hash. case_if; [done|]. intros [= <-]. apply Z.eqb_neq in E. set (s := Z.of_nat (length (vData f)) * 8) in *.
  assert (Hs : 0 < s) by lia. clearbody s. set (h := MurmurHash3 _ k). pose proof (Z.mod_pos_bound h s Hs) as Hm. set (m := h mod s) in *. clearbody m.
  pose proof (Z.mod_le m (2 ^ 32) ltac:(lia) ltac:(lia)) as Hle. pose proof (Z.mod_pos_bound m (2 ^ 32) ltac:(lia)) as Hp. unfold u32. lia.
Qed.
Lemma Hash_defined f i k : vData f <> [] -> is_Some (filter_Hash f i k).
Proof. intros Hd. unfold filter_Hash. destruct (vData f); [done|]. cbn [length]. case_if; [apply Z.eqb_eq in E; lia|done]. Qed.

(** the bits of a filter only grow *)
Definition grows (f f' : CBloomFilter) : Prop := same_shape f f' /\ forall n, 0 <= n -> test_bit (vData f) n = true -> test_bit (vData f') n = true.
#[export] Instance grows_preorder : PreOrder grows.
Proof. split; [by intros f; split|]. intros f g h [A1 A2] [B1 B2]. split; [by etrans|auto]. Qed.

Lemma contains_loop_grows j i k f f' : grows f f' -> contains_loop j i k f = Some true -> contains_loop j i k f' = Some true.
Proof.
  intros [Hs Hg]. revert i. induction j as [|j IH]; intros i; cbn [contains_loop]; [done|]. rewrite (Hash_shape _ _ _ _ Hs).
  destruct (filter_Hash f i k) as [n|] eqn:E; cbn; [|done]. apply Hash_in_range in E. destruct (test_bit (vData f) n) eqn:Et; cbn; [|done].
  rewrite (Hg n) by (done || lia). apply IH.
Qed.
Lemma contains_loop_data j i k f1 f2 : vData f1 = vData f2 -> nTweak f1 = nTweak f2 -> contains_loop j i k f1 = contains_loop j i k f2.
Proof.
  intros Hv Ht. revert i. induction j as [|j IH]; intros i; cbn; [done|]. unfold filter_Hash. rewrite Hv, Ht. case_if; [done|]. cbn. case_if; [done|by apply IH].
Qed.
Lemma contains_loop_defined j i k f : vData f <> [] -> is_Some (contains_loop j i k f).
Proof.
  intros Hd. revert i. induction j as [|j IH]; intros i; cbn [contains_loop]; [done|]. destruct (Hash_defined f i k Hd) as [n ->]. cbn. case_if; [done|apply IH].
Qed.
Lemma contains_defined f k : usable f -> is_Some (contains f k).
Proof. intros Hu. unfold contains. destruct (isFull f) eqn:Ef; [done|]. destruct (isEmpty f); [done|]. apply contains_loop_defined. destruct Hu as [Hu|Hu]; congruence. Qed.

Lemma insert_loop_spec j i k f : vData f <> [] -> exists f', insert_loop j i k f = Some f' /\ grows f f' /\ contains_loop j i k f' = Some true.
Proof.
  intros Hd. revert i f Hd. induction j as [|j IH]; intros i f Hd; cbn [insert_loop contains_loop]; [exists f; by split_and!|].
  destruct (Hash_defined f i k Hd) as [n Hn]. rewrite Hn. cbn [option_bind mbind]. pose proof (Hash_in_range _ _ _ _ Hn) as Hr.
  set (g := with_data (set_bit n (vData f)) f). assert (Hg : grows f g).
  { split; [split_and!; try done; apply length_set_bit|]. intros m Hm. apply set_bit_keeps; lia. }
  assert (Hd' : vData g <> []) by (intros H0; apply (f_equal length) in H0; cbn in H0; rewrite length_set_bit in H0; by destruct (vData f)).
  destruct (IH (i + 1) g Hd') as (f' & Hf & Hg' & Hc). exists f'. rewrite Hf. split; [done|]. split; [by etrans|].
  rewrite (Hash_shape g f' _ _ (proj1 Hg')), (Hash_shape f g _ _ (proj1 Hg)), Hn. cbn.
  rewrite (proj2 Hg' n); [done|lia|]. apply set_bit_sets. lia.
Qed.

(** inserting a key is always possible, makes the filter answer the key, and takes no answer back *)
Lemma insert_key_spec k f : usable f -> exists f', insert_key k f = Some f' /\ same_shape f f' /\ answers f' k /\ forall k', answers f k' -> answers f' k'.
Proof.
  intros Hu. unfold insert_key, answers, contains. destruct (isFull f) eqn:Ef; [exists f; rewrite Ef; by split_and!|].
  destruct (insert_loop_spec (Z.to_nat (nHashFuncs f)) 0 k f) as (g & -> & [Hs Hg] & Hc); [by destruct Hu as [Hu|]; [rewrite Ef in Hu|]|].
  pose proof Hs as (H1 & H2 & H3 & H4 & H5). cbn [option_bind mbind]. eexists. split; [done|]. cbn [isFull isEmpty nHashFuncs]. rewrite H2, Ef, H3.
  split; [by split_and!|].
  split; [by rewrite (contains_loop_data _ _ _ _ g)|]. intros k'. destruct (isEmpty f); [done|]. intros Hk. rewrite (contains_loop_data _ _ _ _ g) by done. by apply (contains_loop_grows _ _ _ f).
Qed.

(** ** Relevant transactions *)

(** the data elements of a script, up to the first instruction that cannot be read *)
Fixpoint elements_from (fuel : nat) (pc : bytes) : list bytes :=
  match fuel with
  | O => []
  | S k => match GetOp2 pc with None => [] | Some (_, data, pc) => (if bool_decide (data = []) then [] else [data]) ++ elements_from k pc end
  end.
Definition script_elements (script : bytes) : list bytes := elements_from (length script) script.
(** a filter knows a script: it answers one of its elements *)
Definition knows (f : CBloomFilter) (script : bytes) : Prop := exists d, d ∈ script_elements script /\ answers f d.

Lemma script_matches_spec f script : usable f -> exists m, script_matches f script = Some m /\ (m = true <-> knows f script).
Proof.
  intros Hu. unfold knows, script_matches, script_elements. generalize (length script) at 1 2 as k. revert script.
  intros script k. revert script. induction k as [|k IH]; intros pc; cbn [match_script elements_from].
  { exists false. split; [done|]. split; [done|]. by intros (d & Hd%elem_of_nil & _). }
  destruct (GetOp2 pc) as [[[op data] pc']|]; [|exists false; split; [done|]; split; [done|]; by intros (d & Hd%elem_of_nil & _)].
  destruct (IH pc') as (m & Hm & Hiff). case_bool_decide as Ed; cbn [option_bind mbind]; [by exists m|]. destruct (contains_defined f data Hu) as [b Hb].
  rewrite Hb. cbn. destruct b; [exists true; split; [done|]; split; [|done]; intros _; exists data; split; [by left|done]|].
  exists m. split; [done|]. rewrite Hiff. split; intros (d & Hd & Ha); exists d; (split; [|done]); [by right|].
  apply elem_of_cons in Hd as [->|]; [|done]. unfold answers in Ha. congruence.
Qed.

Lemma update_matched_spec hash i script f : usable f ->
  exists f', update_matched hash i script f = Some f' /\ same_shape f f' /\ (forall k, answers f k -> answers f' k) /\
    (Z.land (nFlags f) BLOOM_UPDATE_MASK = BLOOM_UPDATE_ALL -> answers f' (outpoint_key {| o_hash := hash; o_n := i |})).
Proof.
  intros Hu. unfold update_matched. destruct (insert_key_spec (outpoint_key {| o_hash := hash; o_n := i |}) f Hu) as (f' & -> & Hs & Ha & Hk).
  case_if; [by exists f'|]. apply Z.eqb_neq in E. case_if; [|by exists f]. destruct (Solver script) as [[ok type] v]. case_if; [by exists f'|by exists f].
Qed.
Lemma usable_shape f f' : same_shape f f' -> usable f -> usable f'.
Proof.
  intros (Hl & Hf & _) [Hu|Hu]; [left; congruence|right]. intros H0. rewrite H0 in Hl. by destruct (vData f).
Qed.
Lemma knows_mono f f' s : (forall k, answers f k -> answers f' k) -> knows f s -> knows f' s.
Proof. intros H (d & Hd & Ha). exists d. auto. Qed.

Lemma match_outputs_spec hash i vout fFound f : usable f ->
  exists m f', match_outputs hash i vout fFound f = Some (m, f') /\ same_shape f f' /\ (forall k, answers f k -> answers f' k) /\
    (fFound = true -> m = true) /\ (m = true -> fFound = true \/ exists o, o ∈ vout /\ knows f' (scriptPubKey o)) /\
    forall j o, vout !! j = Some o -> knows f (scriptPubKey o) -> m = true /\
      (Z.land (nFlags f) BLOOM_UPDATE_MASK = BLOOM_UPDATE_ALL -> answers f' (outpoint_key {| o_hash := hash; o_n := i + Z.of_nat j |})).
Proof.
  revert i fFound f. induction vout as [|o r IH]; intros i fFound f Hu; cbn [match_outputs].
  { exists fFound, f. split_and!; [done|done|done|done|by left|by intros j o Ho]. }
  destruct (script_matches_spec f (scriptPubKey o) Hu) as (m & -> & Hm). cbn [option_bind mbind].
  assert (Hsh : forall j, i + 1 + Z.of_nat j = i + Z.of_nat (S j)) by lia. destruct m.
  - destruct (update_matched_spec hash i (scriptPubKey o) f Hu) as (g & -> & Hs & Hk & Ha). cbn [option_bind mbind].
    destruct (IH (i + 1) true g (usable_shape _ _ Hs Hu)) as (m & f' & -> & Hs' & Hk' & H1 & H2 & H3). exists m, f'.
    split; [done|]. split; [by etrans|]. split; [auto|]. split; [auto|]. split.
    + intros _. right. exists o. split; [by left|]. apply (knows_mono f); [auto|]. by apply Hm.
    + assert (Hfl : nFlags g = nFlags f) by apply Hs. intros [|j] o' Ho Hkn; cbn in Ho.
      * injection Ho as <-. split; [auto|]. intros Hf. rewrite Z.add_0_r. auto.
      * rewrite <- Hsh. rewrite <- Hfl. apply (H3 j o' Ho). by apply (knows_mono f).
  - destruct (IH (i + 1) fFound f Hu) as (m & f' & -> & Hs' & Hk' & H1 & H2 & H3). exists m, f'. split_and!; [done..| |].
    + intros [?|(o' & Ho & Hkn)]%H2; [by left|]. right. exists o'. split; [by right|done].
    + intros [|j] o' Ho Hkn; cbn in Ho; [|rewrite <- Hsh; by apply (H3 j o')]. injection Ho as <-. by apply Hm in Hkn.
Qed.

Lemma match_inputs_spec vin f : usable f ->
  exists m, match_inputs vin f = Some m /\ (m = true <-> exists t, t ∈ vin /\ (answers f (outpoint_key (prevout t)) \/ knows f (scriptSig t))).
Proof.
  intros Hu. induction vin as [|t r (m & Hr & Hm)]; cbn [match_inputs].
  { exists false. split; [done|]. split; [done|]. by intros (t & Ht%elem_of_nil & _). }
  destruct (contains_defined f (outpoint_key (prevout t)) Hu) as [b Hb]. rewrite Hb. cbn [option_bind mbind].
  destruct b; [exists true; split; [done|]; split; [|done]; intros _; exists t; split; [by left|by left]|].
  destruct (script_matches_spec f (scriptSig t) Hu) as (s & -> & Hs). cbn [option_bind mbind].
  destruct s; [exists true; split; [done|]; split; [|done]; intros _; exists t; split; [by left|right; by apply Hs]|].
  exists m. split; [done|]. rewrite Hm. split; intros (t' & Ht & Ha); exists t'; (split; [|done]); [by right|].
  apply elem_of_cons in Ht as [->|]; [|done]. destruct Ha as [Ha|Ha%Hs]; [|done]. unfold answers in Ha. congruence.
Qed.

(** what makes a transaction relevant to a filter *)
Definition relevant (f : CBloomFilter) (tx : CTransaction) (hash : Z) : Prop :=
  answers f (hash_key hash) \/ (exists o, o ∈ vout tx /\ knows f (scriptPubKey o)) \/
  (exists t, t ∈ vin tx /\ (answers f (outpoint_key (prevout t)) \/ knows f (scriptSig t))).

(** A filter never forgets: for every filter with data, inserting a key succeeds, the filter then contains it, and everything
    it contained before. *)
Theorem insert_no_false_negatives f vKey : usable f ->
  exists f', insert_key vKey f = Some f' /\ contains f' vKey = Some true /\ forall k, contains f k = Some true -> contains f' k = Some true.
Proof. intros Hu. destruct (insert_key_spec vKey f Hu) as (f' & H1 & _ & H2 & H3). by exists f'. Qed.

(** The shortcuts for empty and full filters change no answer: on a filter of bytes with at least one hash function, [contains]
    after [UpdateEmptyFull] is what the bits say. *)
Theorem UpdateEmptyFull_transparent f vKey :
  vData f <> [] -> 0 < nHashFuncs f -> isFull f = false -> isEmpty f = false ->
  contains (UpdateEmptyFull f) vKey = contains f vKey.
Proof.
  intros Hd Hn Hf He. unfold contains, UpdateEmptyFull. cbn [isFull isEmpty nHashFuncs]. rewrite Hf, He.
  assert (Hb : forall b n, forallb (fun x => x =? b) (vData f) = true -> 0 <= n < Z.of_nat (length (vData f)) * 8 -> nth (byte_of n) (vData f) 0 = b).
  { intros b n Ha Hr. rewrite forallb_forall in Ha. assert (Hin : In (nth (byte_of n) (vData f) 0) (vData f)).
    - apply nth_In. unfold byte_of. rewrite Z.shiftr_div_pow2 by lia. assert (n / 2 ^ 3 < Z.of_nat (length (vData f))) by (apply Z.div_lt_upper_bound; lia).
      pose proof (Z.div_pos n (2 ^ 3)). lia.
    - by apply Ha, Z.eqb_eq in Hin. }
  destruct (forallb (fun b => b =? 0xff) (vData f)) eqn:E1.
  - symmetry. generalize 0 as i. induction (Z.to_nat (nHashFuncs f)) as [|j IH]; intros i; cbn [contains_loop]; [done|].
    destruct (Hash_defined f i vKey Hd) as [n Hh]. rewrite Hh. cbn. apply Hash_in_range in Hh. rewrite test_bit_spec by lia.
    rewrite (Hb 0xff) by done. change 0xff with (Z.ones 8). rewrite Z.ones_spec_low by (apply Z.mod_pos_bound; lia). apply IH.
  - destruct (forallb (fun b => b =? 0) (vData f)) eqn:E2; [|by apply contains_loop_data].
    destruct (Z.to_nat (nHashFuncs f)) as [|j] eqn:Ej; [lia|]. cbn [contains_loop]. destruct (Hash_defined f 0 vKey Hd) as [n Hh]. rewrite Hh. cbn.
    apply Hash_in_range in Hh. rewrite test_bit_spec by lia. by rewrite (Hb 0), Z.bits_0 by done.
Qed.

(** what [IsRelevantAndUpdate] answers and leaves *)
Lemma IsRelevantAndUpdate_spec tx hash f : usable f -> exists r f', IsRelevantAndUpdate tx hash f = Some (r, f') /\ (relevant f tx hash -> r = true) /\
  (r = true -> relevant f' tx hash) /\ same_shape f f' /\ (forall k, answers f k -> answers f' k) /\ (Z.land (nFlags f) BLOOM_UPDATE_MASK = BLOOM_UPDATE_ALL ->
    forall i o, vout tx !! i = Some o -> knows f (scriptPubKey o) -> answers f' (outpoint_key {| o_hash := hash; o_n := 0 + Z.of_nat i |})).
Proof.
  intros Hu. unfold IsRelevantAndUpdate. destruct (isFull f) eqn:Ef.
  { assert (Ha : forall k, answers f k) by (intros k; unfold answers, contains; by rewrite Ef). exists true, f. split_and!; try done. intros _. by left. }
  destruct (isEmpty f) eqn:Ee.
  { assert (Ha : forall k, ~ answers f k) by (intros k; unfold answers, contains; by rewrite Ef, Ee). exists false, f. split_and!; try done.
    - intros [H|[(o & _ & d & _ & H)|(t & _ & [H|(d & _ & H)])]]; by apply Ha in H.
    - intros _ i o _ (d & _ & H). by apply Ha in H. }
  destruct (contains_defined f (hash_key hash) Hu) as [b Hb]. rewrite Hb. cbn [option_bind mbind].
  destruct (match_outputs_spec hash 0 (vout tx) b f Hu) as (m & f' & -> & Hs & Hk & H1 & H2 & H3). cbn [option_bind mbind].
  destruct (match_inputs_spec (vin tx) f' (usable_shape _ _ Hs Hu)) as (m' & -> & Hm). cbn [option_bind mbind].
  assert (Hall : Z.land (nFlags f) BLOOM_UPDATE_MASK = BLOOM_UPDATE_ALL -> forall i o, vout tx !! i = Some o -> knows f (scriptPubKey o) ->
    answers f' (outpoint_key {| o_hash := hash; o_n := 0 + Z.of_nat i |})) by (intros Hfl i o Ho Hkn; by apply (H3 i o Ho Hkn)).
  destruct m.
  - exists true, f'. split_and!; try done. intros _. destruct (H2 eq_refl) as [->|Ho]; [left; by apply Hk|by right; left].
  - exists m', f'. split_and!; try done; [|intros Hm'; right; right; by apply Hm].
    intros [H|[(o & Ho & Hkn)|(t & Ht & Ha)]].
    + unfold answers in H. rewrite Hb in H. injection H as ->. by specialize (H1 eq_refl).
    + apply list_elem_of_lookup in Ho as [i Ho]. by destruct (H3 i o Ho Hkn).
    + apply Hm. exists t. split; [done|]. destruct Ha as [Ha|Ha]; [left; auto|right; by apply (knows_mono f)].
Qed.

(** Filtering misses nothing: on every filter with data, [IsRelevantAndUpdate] returns; a transaction whose hash, an element of
    one of its output scripts, or an outpoint or an element of an input script the filter contains is relevant; a relevant
    transaction is so for the filter that is left; the filter keeps all its answers; and with BLOOM_UPDATE_ALL it then contains the
    outpoint of every output that matched, so the transaction that spends it is relevant too. *)
Theorem IsRelevantAndUpdate_complete tx hash f : usable f -> exists r f', IsRelevantAndUpdate tx hash f = Some (r, f') /\
  (relevant f tx hash -> r = true) /\ (r = true -> relevant f' tx hash) /\ (forall k, contains f k = Some true -> contains f' k = Some true) /\
  (Z.land (nFlags f) BLOOM_UPDATE_MASK = BLOOM_UPDATE_ALL ->
   forall i o tx2 hash2 t, vout tx !! i = Some o -> knows f (scriptPubKey o) -> t ∈ vin tx2 -> prevout t = {| o_hash := hash; o_n := Z.of_nat i |} ->
   exists f2, IsRelevantAndUpdate tx2 hash2 f' = Some (true, f2)).
Proof.
  intros Hu. destruct (IsRelevantAndUpdate_spec tx hash f Hu) as (r & f' & H1 & H2 & H3 & H4 & H5 & H6). exists r, f'. split_and!; [done..|].
  intros Hfl i o tx2 hash2 t Ho Hk Ht Hp. destruct (IsRelevantAndUpdate_spec tx2 hash2 f' (usable_shape _ _ H4 Hu)) as (r2 & f2 & E & Hr & _). exists f2.
  rewrite E, Hr; [done|]. right. right. exists t. split; [done|]. left. rewrite Hp. by apply (H6 Hfl i o).
Qed.

(** ** Examples *)

Definition demo_filter : CBloomFilter := new_filter 24 3 7 BLOOM_UPDATE_ALL.
Lemma demo_usable : usable demo_filter.
Proof. by right. Qed.
Lemma insert_no_false_negatives_witness : exists f', insert_key [1; 2; 3] demo_filter = Some f' /\ contains f' [1; 2; 3] = Some true.
Proof. destruct (insert_no_false_negatives demo_filter [1; 2; 3] demo_usable) as (f' & H1 & H2 & _). exact (ex_intro _ f' (conj H1 H2)). Defined.
Lemma UpdateEmptyFull_transparent_witness : contains (UpdateEmptyFull demo_filter) [5] = contains demo_filter [5] /\ contains demo_filter [5] = Some false.
Proof. split; [apply UpdateEmptyFull_transparent; [discriminate|reflexivity|reflexivity|reflexivity]|reflexivity]. Defined.

(** a filter that contains the element [9; 9], a transaction that pays to it, and one that spends the payment *)
Definition demo_watch : CBloomFilter := default demo_filter (insert_key [9; 9] demo_filter).
Lemma demo_watch_usable : usable demo_watch.
Proof. right. vm_compute. discriminate. Qed.
Definition demo_payment : CTransaction := {| nVersion := 1; vin := []; vout := [{| nValue := 5; scriptPubKey := [2; 9; 9] |}]; nLockTime := 0 |}.
Definition demo_spend : CTransaction :=
  {| nVersion := 1; vin := [{| prevout := {| o_hash := 77; o_n := 0 |}; scriptSig := []; nSequence := 0 |}]; vout := []; nLockTime := 0 |}.
Lemma IsRelevantAndUpdate_complete_witness : exists f' f2,
  IsRelevantAndUpdate demo_payment 77 demo_watch = Some (true, f') /\ IsRelevantAndUpdate demo_spend 78 f' = Some (true, f2) /\
  IsRelevantAndUpdate demo_spend 78 demo_watch = Some (false, demo_watch).
Proof.
  destruct (IsRelevantAndUpdate_complete demo_payment 77 demo_watch demo_watch_usable) as (r & f' & E & H1 & _ & _ & H4).
  assert (Hk : knows demo_watch [2; 9; 9]) by (exists [9; 9]; split; [constructor|vm_compute; reflexivity]).
  destruct (H4 ltac:(vm_compute; reflexivity) 0%nat {| nValue := 5; scriptPubKey := [2; 9; 9] |} demo_spend 78 (nth 0 (vin demo_spend) {| prevout := null_outpoint; scriptSig := []; nSequence := 0 |})
    eq_refl Hk ltac:(constructor) eq_refl) as [f2 E2].
  exists f', f2. split; [|split; [exact E2|vm_compute; reflexivity]]. rewrite E. f_equal. f_equal. apply H1. right. left. eexists. split; [constructor|exact Hk].
Defined.
