(* ===== verification/NetAddr.v ===== *)
(** * Network addresses (netbase.h, netbase.cpp, protocol.h, protocol.cpp, network_peer.h)

    [CNetAddr], the sixteen bytes of an address, its classes and groups; [CService] with a port; [CAddress] with what is
    known about the peer, [NetworkPeer] with the statistics of the address manager; inventory items ([CInv]).  An
    address is its bytes in network order.  The parsing of host names and the socket structures are not modelled. *)

From S2P Require Import Prelude Serialize Crypto.
Local Open Scope Z_scope.

(** [FLATDATA]: [n] bytes as they are *)
Definition ser_flat (n : nat) : codec bytes := {| Serialize b := b; Unserialize s := read n s; GetSerializeSize _ := Z.of_nat n |}.
#[export] Instance ser_flat_lawful n : Z.of_nat n < 2 ^ 32 -> Lawful (ser_flat n) (fun b => length b = n /\ all_bytes b).
Proof.
  intros Hn. split; cbn.
  - intros x rest [Hl _]. unfold read. rewrite bool_decide_eq_true_2 by (rewrite length_app; lia). by rewrite take_app_length', drop_app_length'.
  - intros x [Hl _]. rewrite Hl, u32_small; [done|lia].
  - by intros x [_ H].
Qed.

(** ** CNetAddr *)

Inductive Network := NET_UNROUTABLE | NET_IPV4 | NET_IPV6.
#[export] Instance Network_eq_dec : EqDecision Network.
Proof. solve_decision. Defined.
Definition Network_num (n : Network) : Z := match n with NET_UNROUTABLE => 0 | NET_IPV4 => 1 | NET_IPV6 => 2 end.

Abbreviation CNetAddr := bytes (only parsing).
Definition addr_Init : CNetAddr := replicate 16 0.
Definition pchIPv4 : bytes := [0; 0; 0; 0; 0; 0; 0; 0; 0; 0; 0xff; 0xff].
(** [memcmp(ip, pch, sizeof(pch)) == 0] *)
Definition starts (pch : bytes) (ip : CNetAddr) : bool := bool_decide (take (length pch) ip = pch).
Definition GetByte (n : nat) (ip : CNetAddr) : Z := nth (15 - n) ip 0.

Definition IsIPv4 (ip : CNetAddr) : bool := starts pchIPv4 ip.
Definition IsIPv6 (ip : CNetAddr) : bool := negb (IsIPv4 ip).
Definition IsRFC1918 (ip : CNetAddr) : bool :=
  IsIPv4 ip && ((GetByte 3 ip =? 10) || ((GetByte 3 ip =? 192) && (GetByte 2 ip =? 168)) || ((GetByte 3 ip =? 172) && ((16 <=? GetByte 2 ip) && (GetByte 2 ip <=? 31)))).
Definition IsRFC3927 (ip : CNetAddr) : bool := IsIPv4 ip && ((GetByte 3 ip =? 169) && (GetByte 2 ip =? 254)).
Definition IsRFC3849 (ip : CNetAddr) : bool := (GetByte 15 ip =? 0x20) && (GetByte 14 ip =? 0x01) && (GetByte 13 ip =? 0x0D) && (GetByte 12 ip =? 0xB8).
Definition IsRFC3964 (ip : CNetAddr) : bool := (GetByte 15 ip =? 0x20) && (GetByte 14 ip =? 0x02).
Definition IsRFC6052 (ip : CNetAddr) : bool := starts [0; 0x64; 0xFF; 0x9B; 0; 0; 0; 0; 0; 0; 0; 0] ip.
Definition IsRFC4380 (ip : CNetAddr) : bool := (GetByte 15 ip =? 0x20) && (GetByte 14 ip =? 0x01) && (GetByte 13 ip =? 0) && (GetByte 12 ip =? 0).
Definition IsRFC4862 (ip : CNetAddr) : bool := starts [0xFE; 0x80; 0; 0; 0; 0; 0; 0] ip.
Definition IsRFC4193 (ip : CNetAddr) : bool := Z.land (GetByte 15 ip) 0xFE =? 0xFC.
Definition IsRFC6145 (ip : CNetAddr) : bool := starts [0; 0; 0; 0; 0; 0; 0; 0; 0xFF; 0xFF; 0; 0] ip.
Definition IsRFC4843 (ip : CNetAddr) : bool := (GetByte 15 ip =? 0x20) && (GetByte 14 ip =? 0x01) && (GetByte 13 ip =? 0x00) && (Z.land (GetByte 12 ip) 0xF0 =? 0x10).
Definition IsLocal (ip : CNetAddr) : bool :=
  if IsIPv4 ip && ((GetByte 3 ip =? 127) || (GetByte 3 ip =? 0)) then true else starts (replicate 15 0 ++ [1]) ip.
Definition IsMulticast (ip : CNetAddr) : bool := (IsIPv4 ip && (Z.land (GetByte 3 ip) 0xF0 =? 0xE0)) || (GetByte 15 ip =? 0xFF).
Definition IsValid (ip : CNetAddr) : bool :=
  if starts (drop 3 pchIPv4) ip then false
  else if starts (replicate 16 0) ip then false
  else if IsRFC3849 ip then false
  else if IsIPv4 ip then negb (bool_decide (take 4 (drop 12 ip) = [0xff; 0xff; 0xff; 0xff])) && negb (bool_decide (take 4 (drop 12 ip) = [0; 0; 0; 0]))
  else true.
Definition IsRoutable (ip : CNetAddr) : bool :=
  IsValid ip && negb (IsRFC1918 ip || IsRFC3927 ip || IsRFC4862 ip || IsRFC4193 ip || IsRFC4843 ip || IsLocal ip).
Definition GetNetwork (ip : CNetAddr) : Network := if negb (IsRoutable ip) then NET_UNROUTABLE else if IsIPv4 ip then NET_IPV4 else NET_IPV6.

(** the bytes of a group: [nBits] bits from [nStartByte] on *)
Fixpoint group_bytes (fuel : nat) (nStartByte : nat) (nBits : Z) (ip : CNetAddr) : bytes :=
  match fuel with
  | O => []
  | S f =>
    if 8 <=? nBits then GetByte (15 - nStartByte) ip :: group_bytes f (S nStartByte) (nBits - 8) ip
    else if 0 <? nBits then [Z.lor (GetByte (15 - nStartByte) ip) (Z.shiftl 1 nBits - 1)] else []
  end.
Definition GetGroup (ip : CNetAddr) : bytes :=
  let group nClass nStartByte nBits := u8 nClass :: group_bytes 16 nStartByte nBits ip in
  if negb (IsRoutable ip) then group (Network_num NET_UNROUTABLE) 0%nat 0
  else if IsIPv4 ip || IsRFC6145 ip || IsRFC6052 ip then group (Network_num NET_IPV4) 12%nat 16
  else if IsRFC3964 ip then group (Network_num NET_IPV4) 2%nat 16
  else if IsRFC4380 ip then [Network_num NET_IPV4; Z.lxor (GetByte 3 ip) 0xFF; Z.lxor (GetByte 2 ip) 0xFF]
  else if (GetByte 15 ip =? 0x20) && (GetByte 14 ip =? 0x01) && (GetByte 13 ip =? 0x04) && (GetByte 12 ip =? 0x70) then group (Network_num NET_IPV6) 0%nat 36
  else group (Network_num NET_IPV6) 0%nat 32.
Definition addr_GetHash {K : Crypto} (ip : CNetAddr) : Z := le_val (take 8 (uint256_bytes (Hash ip))).

(** ** Reachability *)

Inductive ExtNetwork := Plain (n : Network) | NET_UNKNOWN | NET_TEREDO.
Definition GetExtNetwork (addr : option CNetAddr) : ExtNetwork :=
  match addr with None => NET_UNKNOWN | Some ip => if IsRFC4380 ip then NET_TEREDO else Plain (GetNetwork ip) end.
Inductive Reachability := REACH_UNREACHABLE | REACH_DEFAULT | REACH_TEREDO | REACH_IPV6_WEAK | REACH_IPV4 | REACH_IPV6_STRONG | REACH_PRIVATE.
Definition Reachability_num (r : Reachability) : Z :=
  match r with REACH_UNREACHABLE => 0 | REACH_DEFAULT => 1 | REACH_TEREDO => 2 | REACH_IPV6_WEAK => 3 | REACH_IPV4 => 4 | REACH_IPV6_STRONG => 5 | REACH_PRIVATE => 6 end.
Definition GetReachabilityFrom (ip : CNetAddr) (paddrPartner : option CNetAddr) : Reachability :=
  if negb (IsRoutable ip) then REACH_UNREACHABLE
  else
    let ourNet := GetExtNetwork (Some ip) in
    let fTunnel := IsRFC3964 ip || IsRFC6052 ip || IsRFC6145 ip in
    match GetExtNetwork paddrPartner with
    | Plain NET_IPV4 => match ourNet with Plain NET_IPV4 => REACH_IPV4 | _ => REACH_DEFAULT end
    | Plain NET_IPV6 =>
      match ourNet with
      | NET_TEREDO => REACH_TEREDO
      | Plain NET_IPV4 => REACH_IPV4
      | Plain NET_IPV6 => if fTunnel then REACH_IPV6_WEAK else REACH_IPV6_STRONG
      | _ => REACH_DEFAULT
      end
    | NET_TEREDO | NET_UNKNOWN | Plain NET_UNROUTABLE =>
      match ourNet with
      | NET_TEREDO => REACH_TEREDO
      | Plain NET_IPV6 => REACH_IPV6_WEAK
      | Plain NET_IPV4 => REACH_IPV4
      | _ => REACH_DEFAULT
      end
    end.

(** ** CService, CAddress, NetworkPeer *)

Record CService := { s_ip : CNetAddr; s_port : Z }.
#[export] Instance CService_eq_dec : EqDecision CService.
Proof. solve_decision. Defined.
Definition service_Init : CService := {| s_ip := addr_Init; s_port := 0 |}.
Definition service_GetKey (s : CService) : bytes := s_ip s ++ [s_port s / 0x100; Z.land (s_port s) 0x0FF].
(** the order of bytes of a 16-bit number is reversed *)
Definition htons (p : Z) : Z := 256 * (p mod 256) + p / 256.
Definition ser_CService : codec CService :=
  ser_iso (ser_pair (ser_flat 16) (ser_uint 2)) (fun s => (s_ip s, htons (s_port s))) (fun '(ip, portN) => {| s_ip := ip; s_port := htons portN |}).

Definition NODE_NETWORK : Z := 1.
Definition CADDR_TIME_VERSION : Z := 31402.
Record CAddress := { a_service : CService; nServices : Z; a_nTime : Z; nLastTry : Z }.
#[export] Instance CAddress_eq_dec : EqDecision CAddress.
Proof. solve_decision. Defined.
Definition address_Init (s : CService) : CAddress := {| a_service := s; nServices := NODE_NETWORK; a_nTime := 100000000; nLastTry := 0 |}.
Definition new_CAddress (ipIn : CService) (nServicesIn : Z) : CAddress :=
  {| a_service := ipIn; nServices := nServicesIn; a_nTime := 100000000; nLastTry := 0 |}.
(** on the network, with the time from CADDR_TIME_VERSION on, and on the disk, after the version of the writer *)
Definition ser_CAddress_net (nVersion : Z) : codec CAddress :=
  if CADDR_TIME_VERSION <=? nVersion then
    ser_iso (ser_tuple3 (ser_uint 4) (ser_uint 8) ser_CService) (fun a => (a_nTime a, nServices a, a_service a))
      (fun '(t, n, s) => {| a_service := s; nServices := n; a_nTime := t; nLastTry := 0 |})
  else ser_iso (ser_pair (ser_uint 8) ser_CService) (fun a => (nServices a, a_service a)) (fun '(n, s) => new_CAddress s n).
Definition ser_CAddress_disk (nVersion : Z) : codec CAddress :=
  ser_iso (ser_tuple4 (ser_sint 4) (ser_uint 4) (ser_uint 8) ser_CService) (fun a => (nVersion, a_nTime a, nServices a, a_service a))
    (fun '(_, t, n, s) => {| a_service := s; nServices := n; a_nTime := t; nLastTry := 0 |}).

Record NetworkPeer := {
  np_addr : CAddress; source : CNetAddr; nLastSuccess : Z; nAttempts : Z; nRefCount : Z; fInTried : bool; nRandomPos : Z;
}.
#[export] Instance NetworkPeer_eq_dec : EqDecision NetworkPeer.
Proof. solve_decision. Defined.
Definition new_NetworkPeer (address : CAddress) (source : CNetAddr) : NetworkPeer :=
  {| np_addr := address; source := source; nLastSuccess := 0; nAttempts := 0; nRefCount := 0; fInTried := false; nRandomPos := -1 |}.
Definition ser_NetworkPeer (nVersion : Z) : codec NetworkPeer :=
  ser_iso (ser_tuple4 (ser_CAddress_disk nVersion) (ser_flat 16) (ser_sint 8) (ser_sint 4)) (fun p => (np_addr p, source p, nLastSuccess p, nAttempts p))
    (fun '(a, s, l, n) => {| np_addr := a; source := s; nLastSuccess := l; nAttempts := n; nRefCount := 0; fInTried := false; nRandomPos := -1 |}).

(** ** CInv: a type and a hash *)

Abbreviation CInv := (Z * Z)%type.
Definition MSG_TX : Z := 1.
Definition MSG_BLOCK : Z := 2.
Definition MSG_FILTERED_BLOCK : Z := 3.
(** [ppszTypeName], as bytes *)
Definition ppszTypeName : list bytes :=
  [[69; 82; 82; 79; 82]; [116; 120]; [98; 108; 111; 99; 107]; [102; 105; 108; 116; 101; 114; 101; 100; 32; 98; 108; 111; 99; 107]].
Definition IsKnownType (inv : CInv) : bool := (1 <=? inv.1) && (inv.1 <? Z.of_nat (length ppszTypeName)).
(** [None]: out of range *)
Definition inv_GetCommand (inv : CInv) : option bytes := if negb (IsKnownType inv) then None else ppszTypeName !! Z.to_nat inv.1.
Fixpoint type_of_name (names : list bytes) (i : Z) (strType : bytes) : option Z :=
  match names with [] => None | n :: r => if bool_decide (strType = n) then Some i else type_of_name r (i + 1) strType end.
Definition inv_of_name (strType : bytes) (hash : Z) : option CInv := let? t := type_of_name (drop 1 ppszTypeName) 1 strType in Some (t, hash).
Definition ser_CInv : codec CInv := ser_pair (ser_sint 4) (ser_uint 32).
Definition inv_lt (a b : CInv) : bool := (a.1 <? b.1) || ((a.1 =? b.1) && (a.2 <? b.2)).

(** ** Laws *)

Lemma htons_involutive p : 0 <= p < 2 ^ 16 -> htons (htons p) = p /\ 0 <= htons p < 2 ^ 16.
Proof. intros Hp. unfold htons. split; dlia. Qed.
Definition valid_ip (ip : CNetAddr) : Prop := length ip = 16%nat /\ all_bytes ip.
Definition valid_service (s : CService) : Prop := valid_ip (s_ip s) /\ 0 <= s_port s < 2 ^ 16.
Definition valid_address (a : CAddress) : Prop := valid_service (a_service a) /\ 0 <= nServices a < 2 ^ 64 /\ 0 <= a_nTime a < 2 ^ 32 /\ nLastTry a = 0.
Definition valid_peer (p : NetworkPeer) : Prop :=
  valid_address (np_addr p) /\ valid_ip (source p) /\ - 2 ^ 63 <= nLastSuccess p < 2 ^ 63 /\ - 2 ^ 31 <= nAttempts p < 2 ^ 31 /\ nRefCount p = 0 /\ fInTried p = false /\ nRandomPos p = -1.

#[export] Instance ser_flat16_lawful : Lawful (ser_flat 16) valid_ip.
Proof. apply ser_flat_lawful. lia. Qed.
#[export] Instance ser_CService_lawful : Lawful ser_CService valid_service.
Proof.
  refine (ser_iso_lawful _ _ _ _ _). intros [ip port] [Hip Hp]. cbn [s_ip s_port fst snd] in *. destruct (htons_involutive port Hp) as [H1 H2].
  rewrite H1. split; [|done]. by split.
Qed.
#[export] Instance ser_CAddress_net_lawful v : CADDR_TIME_VERSION <= v -> Lawful (ser_CAddress_net v) valid_address.
Proof.
  intros Hv. unfold ser_CAddress_net. rewrite (proj2 (Z.leb_le _ _) Hv). refine (ser_iso_lawful _ _ _ _ _).
  intros [s n t l] (Hs & Hn & Ht & Hl). cbn in *. subst l. split_and!; try done; cbn; lia.
Qed.
#[export] Instance ser_CAddress_disk_lawful v : 0 <= v < 2 ^ 31 -> Lawful (ser_CAddress_disk v) valid_address.
Proof.
  intros Hv. refine (ser_iso_lawful _ _ _ _ _). intros [s n t l] (Hs & Hn & Ht & Hl). cbn in *. subst l. split_and!; try done; cbn; lia.
Qed.

#[export] Instance ser_NetworkPeer_lawful v : 0 <= v < 2 ^ 31 -> Lawful (ser_NetworkPeer v) valid_peer.
Proof.
  intros Hv. pose proof (ser_CAddress_disk_lawful v Hv) as Hl. refine (ser_iso_lawful _ _ _ _ _).
  intros [a s l n r t q] (Ha & Hs & Hl' & Hn & Hr & Ht & Hq). cbn in *. subst. split; [|done]. split_and!; try done; lia.
Qed.

(** What is stored about a peer is read back: the format of the address file loses nothing but the counters that are kept in memory
    only, whatever follows the record. *)
Theorem NetworkPeer_roundtrip v p rest : 0 <= v < 2 ^ 31 -> valid_peer p ->
  Unserialize (ser_NetworkPeer v) (Serialize (ser_NetworkPeer v) p ++ rest) = Some (p, rest).
Proof. intros Hv Hp. pose proof (ser_NetworkPeer_lawful v Hv). by apply ser_roundtrip. Qed.

(** Groups are networks: two routable IPv4 addresses are in the same group exactly when they agree on the first two bytes, and all
    addresses that are not routable share one group with no others. *)
Theorem GetGroup_networks a b : valid_ip a -> valid_ip b ->
  (IsIPv4 a = true -> IsIPv4 b = true -> IsRoutable a = true -> IsRoutable b = true ->
   (GetGroup a = GetGroup b <-> GetByte 3 a = GetByte 3 b /\ GetByte 2 a = GetByte 2 b)) /\
  (IsRoutable a = false -> (GetGroup a = GetGroup b <-> IsRoutable b = false)).
Proof.
  intros [Ha _] [Hb _]. split.
  - intros H4a H4b Hra Hrb. unfold GetGroup. rewrite Hra, Hrb, H4a, H4b. cbn -[GetByte]. split; [by intros [= H1 H2]|by intros [-> ->]].
  - intros Hra. assert (Hgroup : forall ip, IsRoutable ip = true -> hd 0 (GetGroup ip) <> 0).
    { intros ip Hr. unfold GetGroup. rewrite Hr. cbn [negb]. repeat case_if; cbn; done. }
    split; [|intros Hrb; unfold GetGroup; by rewrite Hra, Hrb]. intros He. destruct (IsRoutable b) eqn:Hrb; [|done].
    destruct (Hgroup b Hrb). rewrite <- He. unfold GetGroup. by rewrite Hra.
Qed.

Definition demo_ip (a b c d : Z) : CNetAddr := pchIPv4 ++ [a; b; c; d].
Lemma demo_ip_valid a b c d : forallb is_byteb [a; b; c; d] = true -> valid_ip (demo_ip a b c d).
Proof. intros H. split; [done|]. apply all_bytes_app. split; by apply all_bytes_dec. Qed.
Definition demo_service (a b c d : Z) : CService := {| s_ip := demo_ip a b c d; s_port := 9911 |}.
Definition demo_peer : NetworkPeer := new_NetworkPeer (address_Init (demo_service 8 8 4 4)) (demo_ip 9 9 9 9).
Lemma NetworkPeer_roundtrip_witness : Unserialize (ser_NetworkPeer 80600) (Serialize (ser_NetworkPeer 80600) demo_peer ++ [1; 2]) = Some (demo_peer, [1; 2]).
Proof.
  apply NetworkPeer_roundtrip; [lia|].
  unfold valid_peer, valid_address, valid_service. cbn. unfold NODE_NETWORK. split_and!; try (apply demo_ip_valid; reflexivity); try lia; reflexivity.
Defined.
Lemma GetGroup_networks_witness : GetGroup (demo_ip 8 8 4 4) = GetGroup (demo_ip 8 8 9 9) /\ GetGroup (demo_ip 8 8 4 4) <> GetGroup (demo_ip 8 9 4 4).
Proof.
  split.
  - apply (proj1 (GetGroup_networks (demo_ip 8 8 4 4) (demo_ip 8 8 9 9) (demo_ip_valid 8 8 4 4 eq_refl) (demo_ip_valid 8 8 9 9 eq_refl))); [reflexivity..|by split].
  - intros He. apply (proj1 (GetGroup_networks (demo_ip 8 8 4 4) (demo_ip 8 9 4 4) (demo_ip_valid 8 8 4 4 eq_refl) (demo_ip_valid 8 9 4 4 eq_refl))) in He; [|reflexivity..].
    destruct He as [_ He]. discriminate He.
Defined.
