(* ===== verification/Limited.v ===== *)
(** * Containers of bounded size (limitedmap.h, mruset.h, util.h)

    [mruset], the set of the most recent insertions (the inventory a peer knows), [limitedmap], a map that drops its lowest values
    (when which inventory was asked for), and [CMedianFilter] (time offsets and block counts of peers).  Sizes are [nat].  A
    [std::multimap] is the list of its pairs in the order of iteration; an iterator into the map is the key.  [None]: an assertion
    fails, or the first element of an empty container is used.  The properties: [mruset] keeps the last elements, as it
    promises; [limitedmap] does not: it holds one element less than its limit, or grows past it. *)

From stdpp Require Import gmap sorting.
From S2P Require Import Prelude.
Local Open Scope Z_scope.

(** ** mruset *)

Module Mru.
Section Mru.
Context {T : Type} `{Countable T}.

Record mruset := { set : gset T; queue : list T; nMaxSize : nat }.
Definition new_mruset (nMaxSizeIn : nat) : mruset := {| set := ∅; queue := []; nMaxSize := nMaxSizeIn |}.
Definition count (k : T) (m : mruset) : bool := bool_decide (k ∈ set m).
(** [set.erase(queue.front()); queue.pop_front()] *)
Definition pop (m : mruset) : option mruset :=
  match queue m with [] => None | x :: q => Some {| set := set m ∖ {[x]}; queue := q; nMaxSize := nMaxSize m |} end.
Definition insert (x : T) (m : mruset) : option (bool * mruset) :=
  if bool_decide (x ∈ set m) then Some (false, m)
  else
    let m := {| set := {[x]} ∪ set m; queue := queue m; nMaxSize := nMaxSize m |} in
    let? m := if negb (bool_decide (nMaxSize m = 0%nat)) && bool_decide (length (queue m) = nMaxSize m) then pop m else Some m in
    Some (true, {| set := set m; queue := queue m ++ [x]; nMaxSize := nMaxSize m |}).
Fixpoint shrink (fuel s : nat) (m : mruset) : option mruset :=
  if bool_decide (s < length (queue m))%nat then match fuel with O => None | S f => let? m := pop m in shrink f s m end else Some m.
Definition max_size (s : nat) (m : mruset) : option mruset :=
  let? m := if bool_decide (s = 0%nat) then Some m else shrink (length (queue m)) s m in
  Some {| set := set m; queue := queue m; nMaxSize := s |}.

(** the last [n] elements of a list; all of it when [n] is zero, which stands for no limit *)
Definition last_n (n : nat) (l : list T) : list T := if bool_decide (n = 0%nat) then l else drop (length l - n) l.

Record mruset_ok (m : mruset) : Prop := {
  mo_set : forall x, x ∈ set m <-> x ∈ queue m;
  mo_nodup : NoDup (queue m);
  mo_size : nMaxSize m <> 0%nat -> (length (queue m) <= nMaxSize m)%nat;
}.

Lemma new_mruset_ok n : mruset_ok (new_mruset n).
Proof. split; cbn; [set_solver|constructor|lia]. Qed.

Lemma pop_ok m x q : mruset_ok m -> queue m = x :: q -> mruset_ok {| set := set m ∖ {[x]}; queue := q; nMaxSize := nMaxSize m |}.
Proof.
  intros [H1 H2 H3] Hq. rewrite Hq in *. apply NoDup_cons in H2 as [Hx H2]. split; cbn in *; [|done|intros; specialize (H3 ltac:(done)); lia].
  intros y. rewrite elem_of_difference, elem_of_singleton, H1, elem_of_cons. split; [by intros [[->|] Hn]|]. intros Hy. split; [by right|by intros ->].
Qed.

Lemma mru_insert_spec x m : mruset_ok m -> exists m', insert x m = Some (bool_decide (x ∉ queue m), m') /\ mruset_ok m' /\ nMaxSize m' = nMaxSize m /\
  queue m' = if bool_decide (x ∈ queue m) then queue m else last_n (nMaxSize m) (queue m ++ [x]).
Proof.
  intros Hok. unfold insert, last_n. destruct (decide (x ∈ queue m)) as [Hx|Hx].
  { rewrite (bool_decide_eq_true_2 (x ∈ set m)) by (by apply (mo_set _ Hok)). exists m. by rewrite (bool_decide_eq_true_2 (x ∈ queue m)), (bool_decide_eq_false_2 (x ∉ queue m)) by auto. }
  assert (Hs : x ∉ set m) by (by rewrite (mo_set _ Hok)). rewrite (bool_decide_eq_false_2 (x ∈ set m)), (bool_decide_eq_false_2 (x ∈ queue m)), (bool_decide_eq_true_2 (x ∉ queue m)) by done.
  cbn [nMaxSize queue]. rewrite length_app. cbn [length]. destruct Hok as [H1 H2 H3].
  assert (Hnd : forall q, q `suffix_of` queue m -> NoDup (q ++ [x])).
  { intros q [p Hp]. rewrite Hp in H2, Hx. apply NoDup_app in H2 as (_ & _ & H2). apply NoDup_app. split; [done|]. split; [|apply NoDup_singleton].
    intros y Hy ->%list_elem_of_singleton. apply Hx. apply elem_of_app. by right. }
  case_bool_decide as Hn; cbn [negb andb option_bind mbind].
  - eexists. split; [done|]. split; [|done]. split; cbn; [|by apply Hnd|lia]. intros y. rewrite elem_of_union, elem_of_singleton, H1, elem_of_app, list_elem_of_singleton. tauto.
  - specialize (H3 Hn). case_bool_decide as Hl; cbn [option_bind mbind].
    + unfold pop. cbn [queue set nMaxSize]. destruct (queue m) as [|y q] eqn:Hq; [cbn in Hl; lia|]. cbn [option_bind mbind]. eexists. split; [done|]. cbn [set queue nMaxSize].
      apply NoDup_cons in H2 as H2'. destruct H2' as [Hy _].
      split; [|split; [done|]; rewrite <- Hl; cbn [length]; replace (S (length q) + 1 - S (length q))%nat with 1%nat by lia; done].
      split; cbn; [|apply Hnd; by exists [y]|intros _; rewrite length_app; cbn in *; lia].
      intros z. rewrite elem_of_difference, elem_of_union, !elem_of_singleton, H1, elem_of_app, list_elem_of_singleton, elem_of_cons. split; [tauto|].
      intros [Hz| ->]; (split; [tauto|]); [by intros ->|]. intros ->. apply Hx. by left.
    + eexists. split; [done|]. cbn. split; [|split; [done|]; by replace (length (queue m) + 1 - nMaxSize m)%nat with 0%nat by lia].
      split; cbn; [|by apply Hnd|rewrite length_app; cbn; lia]. intros y. rewrite elem_of_union, elem_of_singleton, H1, elem_of_app, list_elem_of_singleton. tauto.
Qed.

Lemma mru_shrink_spec fuel s m : mruset_ok m -> (length (queue m) <= s + fuel)%nat ->
  exists m', shrink fuel s m = Some m' /\ mruset_ok m' /\ queue m' = drop (length (queue m) - s) (queue m).
Proof.
  revert m. induction fuel as [|f IH]; intros m Hok Hf; cbn [shrink].
  { rewrite bool_decide_eq_false_2 by lia. exists m. by replace (length (queue m) - s)%nat with 0%nat by lia. }
  case_bool_decide as Hl; [|exists m; by replace (length (queue m) - s)%nat with 0%nat by lia]. unfold pop. destruct (queue m) as [|x q] eqn:Hq; [cbn in Hl; lia|].
  cbn [option_bind mbind]. destruct (IH _ (pop_ok m x q Hok Hq)) as (m' & -> & Ho & Hq'); [cbn in *; lia|]. exists m'. split; [done|]. split; [done|].
  rewrite Hq'. cbn [queue length] in *. by replace (S (length q) - s)%nat with (S (length q - s))%nat by lia.
Qed.
Lemma mru_max_size_spec s m : mruset_ok m -> exists m', max_size s m = Some m' /\ mruset_ok m' /\ queue m' = last_n s (queue m) /\ nMaxSize m' = s.
Proof.
  intros Hok. unfold max_size, last_n. case_bool_decide as Hs; cbn [option_bind mbind].
  - eexists. split; [done|]. split; [|done]. destruct Hok as [H1 H2 H3]. split; cbn; [done|done|lia].
  - destruct (mru_shrink_spec (length (queue m)) s m Hok ltac:(lia)) as (m' & -> & [H1 H2 H3] & Hq). cbn. eexists. split; [done|].
    split; [|done]. split; cbn; [done|done|]. intros _. rewrite Hq, length_drop. lia.
Qed.
End Mru.
Arguments mruset T {_ _}.
End Mru.

(** ** limitedmap *)

Module Lim.
Section Lim.
Context {K : Type} `{Countable K}.

(** [rmap]: the values and the keys that have them, in the order of the values *)
Record limitedmap := { map : gmap K Z; rmap : list (Z * K); nMaxSize : nat }.
Definition new_limitedmap (nMaxSizeIn : nat) : limitedmap := {| map := ∅; rmap := []; nMaxSize := nMaxSizeIn |}.

(** [rmap.insert]: after the elements with the same value *)
Fixpoint rmap_insert (v : Z) (k : K) (l : list (Z * K)) : list (Z * K) :=
  match l with
  | [] => [(v, k)]
  | (w, j) :: r => if v <? w then (v, k) :: l else (w, j) :: rmap_insert v k r
  end.
(** the search in the equal range of [v] for the iterator of [k], and its removal; [None]: it is not there *)
Fixpoint rmap_erase (v : Z) (k : K) (l : list (Z * K)) : option (list (Z * K)) :=
  match l with
  | [] => None
  | (w, j) :: r => if (w =? v) && bool_decide (j = k) then Some r else if v <? w then None else let? r := rmap_erase v k r in Some ((w, j) :: r)
  end.

(** [map.erase(rmap.begin()->second); rmap.erase(rmap.begin())] *)
Definition erase_lowest (m : limitedmap) : option limitedmap :=
  match rmap m with [] => None | (_, k) :: r => Some {| map := delete k (map m); rmap := r; nMaxSize := nMaxSize m |} end.

Definition insert (k : K) (v : Z) (m : limitedmap) : option limitedmap :=
  if bool_decide (is_Some (map m !! k)) then Some m
  else
    let m := {| map := <[k := v]> (map m); rmap := rmap m; nMaxSize := nMaxSize m |} in
    let? m := if negb (bool_decide (nMaxSize m = 0%nat)) && bool_decide (size (map m) = nMaxSize m) then erase_lowest m else Some m in
    Some {| map := map m; rmap := rmap_insert v k (rmap m); nMaxSize := nMaxSize m |}.
Definition erase (k : K) (m : limitedmap) : option limitedmap :=
  match map m !! k with
  | None => Some m
  | Some v => let? r := rmap_erase v k (rmap m) in Some {| map := delete k (map m); rmap := r; nMaxSize := nMaxSize m |}
  end.
Definition update (k : K) (v : Z) (m : limitedmap) : option limitedmap :=
  match map m !! k with
  | None => Some m
  | Some w => let? r := rmap_erase w k (rmap m) in Some {| map := <[k := v]> (map m); rmap := rmap_insert v k r; nMaxSize := nMaxSize m |}
  end.
Fixpoint shrink (fuel s : nat) (m : limitedmap) : option limitedmap :=
  if bool_decide (s < size (map m))%nat then match fuel with O => None | S f => let? m := erase_lowest m in shrink f s m end else Some m.
Definition max_size (s : nat) (m : limitedmap) : option limitedmap :=
  let? m := if bool_decide (s = 0%nat) then Some m else shrink (size (map m)) s m in
  Some {| map := map m; rmap := rmap m; nMaxSize := s |}.

(** the two maps agree *)
Record limited_ok (m : limitedmap) : Prop := {
  lo_pairs : forall k v, (v, k) ∈ rmap m <-> map m !! k = Some v;
  lo_nodup : NoDup (rmap m);
  lo_sorted : StronglySorted (fun a b => a.1 <= b.1) (rmap m);
}.

Lemma new_limited_ok n : limited_ok (new_limitedmap n).
Proof. split; cbn; [|constructor|constructor]. intros k v. rewrite lookup_empty. split; [by intros ?%elem_of_nil|done]. Qed.

Lemma rmap_insert_perm v k l : rmap_insert v k l ≡ₚ (v, k) :: l.
Proof. induction l as [|[w j] r IH]; cbn; [done|]. case_if; [done|]. rewrite IH. apply Permutation_swap. Qed.
Lemma rmap_insert_sorted v k l : StronglySorted (fun a b => a.1 <= b.1) l -> StronglySorted (fun a b => a.1 <= b.1) (rmap_insert v k l).
Proof.
  induction 1 as [|[w j] r Hs IH Hf]; cbn; [repeat constructor|]. case_if.
  - apply Z.ltb_lt in E. constructor; [by constructor|]. constructor; [cbn; lia|]. eapply Forall_impl; [exact Hf|]. intros [x y]. cbn. lia.
  - apply Z.ltb_ge in E. constructor; [done|]. rewrite rmap_insert_perm. by constructor.
Qed.
Lemma rmap_erase_spec v k l : StronglySorted (fun a b => a.1 <= b.1) l -> (v, k) ∈ l -> exists r, rmap_erase v k l = Some r /\ l ≡ₚ (v, k) :: r /\ r `sublist_of` l.
Proof.
  induction 1 as [|[w j] r Hs IH Hf]; [by intros ?%elem_of_nil|]. cbn [rmap_erase]. intros Hin. destruct ((w =? v) && bool_decide (j = k)) eqn:E.
  - apply andb_true_iff in E as [->%Z.eqb_eq Hj]. apply bool_decide_eq_true in Hj as ->. exists r. split_and!; [done|done|by constructor].
  - assert (Hr : (v, k) ∈ r).
    { apply elem_of_cons in Hin as [[= <- <-]|]; [|done]. by rewrite Z.eqb_refl, bool_decide_eq_true_2 in E. }
    rewrite Forall_forall in Hf. pose proof (Hf _ Hr) as Hle. cbn in Hle. rewrite (proj2 (Z.ltb_ge v w)) by done.
    destruct (IH Hr) as (r' & -> & Hp & Hsub). exists ((w, j) :: r'). split; [done|]. split; [rewrite Hp; apply Permutation_swap|by constructor].
Qed.
Lemma sublist_sorted l l' : l' `sublist_of` l -> StronglySorted (fun a b : Z * K => a.1 <= b.1) l -> StronglySorted (fun a b : Z * K => a.1 <= b.1) l'.
Proof.
  induction 1 as [|x l1 l2 Hs IH|x l1 l2 Hs IH]; [done|..]; intros Hf; inversion Hf as [|? ? H1 H2]; subst; [|auto].
  constructor; [auto|]. rewrite Forall_forall in *. intros y Hy. apply H2. by eapply elem_of_sublist.
Qed.

Lemma size_rmap m : limited_ok m -> length (rmap m) = size (map m).
Proof.
  intros [H1 H2 H3]. assert (Hp : rmap m ≡ₚ (fun kv => (kv.2, kv.1)) <$> map_to_list (map m)).
  { apply NoDup_Permutation; [done| |].
    - apply (NoDup_fmap_2_strong _); [|apply NoDup_map_to_list]. by intros [? ?] [? ?] _ _ [= <- <-].
    - intros [v k]. rewrite H1, list_elem_of_fmap. split; [intros Hk; exists (k, v); split; [done|by apply elem_of_map_to_list]|].
      intros ([k' v'] & [= -> ->] & Hk). by apply elem_of_map_to_list in Hk. }
  by rewrite Hp, length_fmap, length_map_to_list.
Qed.

Lemma erase_lowest_ok m v k r : limited_ok m -> rmap m = (v, k) :: r -> erase_lowest m = Some {| map := delete k (map m); rmap := r; nMaxSize := nMaxSize m |} /\
  limited_ok {| map := delete k (map m); rmap := r; nMaxSize := nMaxSize m |}.
Proof.
  intros [H1 H2 H3] Hr. unfold erase_lowest. rewrite Hr in *. split; [done|]. apply NoDup_cons in H2 as [Hn H2].
  inversion H3 as [|? ? Hs Hf]; subst. split; cbn; [|done|done]. intros j w. destruct (decide (j = k)) as [->|Hne].
  - rewrite lookup_delete_eq. split; [|done]. intros Hj. destruct Hn. assert (Hw : (w, k) ∈ (v, k) :: r) by by right.
    apply H1 in Hw. assert (Hv : (v, k) ∈ (v, k) :: r) by by left. apply H1 in Hv. congruence.
  - rewrite lookup_delete_ne by done. rewrite <- H1, elem_of_cons. split; [by right|]. by intros [[= -> ->]|].
Qed.

Lemma add_ok m k v : limited_ok m -> map m !! k = None -> limited_ok {| map := <[k := v]> (map m); rmap := rmap_insert v k (rmap m); nMaxSize := nMaxSize m |}.
Proof.
  intros [H1 H2 H3] Hk. split; cbn.
  - intros j w. rewrite rmap_insert_perm, elem_of_cons. destruct (decide (j = k)) as [->|Hne].
    + rewrite lookup_insert_eq. split; [|intros [= ->]; by left]. intros [[= ->]|Hw%H1]; [done|congruence].
    + rewrite lookup_insert_ne by done. rewrite <- H1. split; [|by right]. by intros [[= -> ->]|].
  - rewrite rmap_insert_perm. constructor; [|done]. intros Hw%H1. congruence.
  - by apply rmap_insert_sorted.
Qed.
Lemma remove_ok m k v r : limited_ok m -> map m !! k = Some v -> rmap m ≡ₚ (v, k) :: r -> r `sublist_of` rmap m -> limited_ok {| map := delete k (map m); rmap := r; nMaxSize := nMaxSize m |}.
Proof.
  intros [H1 H2 H3] Hk Hp Hs. assert (Hnd : NoDup ((v, k) :: r)) by (by rewrite <- Hp). apply NoDup_cons in Hnd as [Hn Hnd].
  split; cbn; [|done|by eapply sublist_sorted]. intros j w. destruct (decide (j = k)) as [->|Hne].
  - rewrite lookup_delete_eq. split; [|done]. intros Hj. assert (Hw : (w, k) ∈ rmap m) by (rewrite Hp; by right). apply H1 in Hw. rewrite Hk in Hw. by injection Hw as <-.
  - rewrite lookup_delete_ne by done. rewrite <- H1, Hp, elem_of_cons. split; [by right|]. by intros [[= -> ->]|].
Qed.

(** inserting: a new key replaces the lowest one when the map would reach its limit *)
Lemma lim_insert_spec k v m : limited_ok m -> nMaxSize m <> 1%nat \/ map m <> ∅ -> exists m', insert k v m = Some m' /\ limited_ok m' /\ nMaxSize m' = nMaxSize m /\
  if bool_decide (is_Some (map m !! k)) then m' = m
  else if bool_decide (nMaxSize m <> 0%nat /\ S (size (map m)) = nMaxSize m) then
    exists low w, map m !! low = Some w /\ (forall j x, map m !! j = Some x -> w <= x) /\ map m' = <[k := v]> (delete low (map m))
  else map m' = <[k := v]> (map m).
Proof.
  intros Hok Hn. unfold insert. case_bool_decide as Hk; [by exists m|]. assert (Hk' : map m !! k = None) by (by apply eq_None_not_Some).
  cbn [map nMaxSize rmap]. rewrite map_size_insert_None by done. pose proof (size_rmap m Hok) as Hs.
  destruct (decide (nMaxSize m = 0%nat)) as [H0|H0].
  { rewrite (bool_decide_eq_true_2 (nMaxSize m = 0%nat)) by done. cbn [negb andb option_bind mbind map rmap nMaxSize]. eexists. split; [done|]. cbn.
    split; [by apply add_ok|]. split; [done|]. by rewrite bool_decide_eq_false_2 by tauto. }
  rewrite (bool_decide_eq_false_2 (nMaxSize m = 0%nat)) by done. cbn [negb andb]. case_bool_decide as Hfull.
  - rewrite bool_decide_eq_true_2 by done. unfold erase_lowest. cbn [map rmap nMaxSize]. destruct (rmap m) as [|[w low] r] eqn:Hr.
    { cbn in Hs. destruct Hn as [Hn|Hn]; [lia|]. symmetry in Hs. by apply map_size_empty_iff in Hs. }
    cbn [option_bind mbind map rmap nMaxSize]. eexists. split; [done|]. destruct (erase_lowest_ok m w low r Hok Hr) as [_ Ho].
    assert (Hlow : map m !! low = Some w) by (apply (lo_pairs _ Hok); rewrite Hr; by left). assert (Hne : low <> k) by (intros ->; congruence).
    rewrite delete_insert_ne by done. split; [apply (add_ok _ k v Ho); cbn [map]; by rewrite lookup_delete_ne|]. split; [done|]. exists low, w. split; [done|]. split; [|done].
    intros j x Hx. apply (lo_pairs _ Hok) in Hx. pose proof (lo_sorted _ Hok) as Hso. rewrite Hr in *. inversion Hso as [|? ? _ Hf]; subst.
    apply elem_of_cons in Hx as [[= <- <-]|Hx]; [done|]. rewrite Forall_forall in Hf. apply (Hf _ Hx).
  - rewrite bool_decide_eq_false_2 by tauto. cbn [option_bind mbind map rmap nMaxSize]. eexists. split; [done|]. by split; [apply add_ok|].
Qed.

Lemma erase_spec k m : limited_ok m -> exists m', erase k m = Some m' /\ limited_ok m' /\ map m' = delete k (map m) /\ nMaxSize m' = nMaxSize m.
Proof.
  intros Hok. unfold erase. destruct (map m !! k) as [v|] eqn:Hk; [|exists m; by rewrite delete_id].
  destruct (rmap_erase_spec v k (rmap m) (lo_sorted _ Hok)) as (r & -> & Hp & Hs); [by apply (lo_pairs _ Hok)|]. cbn [option_bind mbind].
  eexists. split; [done|]. split; [by eapply remove_ok|done].
Qed.
Lemma update_spec k v m : limited_ok m -> exists m', update k v m = Some m' /\ limited_ok m' /\ nMaxSize m' = nMaxSize m /\
  map m' = if bool_decide (is_Some (map m !! k)) then <[k := v]> (map m) else map m.
Proof.
  intros Hok. unfold update. destruct (map m !! k) as [w|] eqn:Hk; [|exists m; by rewrite bool_decide_eq_false_2 by (by intros [])].
  destruct (rmap_erase_spec w k (rmap m) (lo_sorted _ Hok)) as (r & -> & Hp & Hs); [by apply (lo_pairs _ Hok)|]. cbn [option_bind mbind].
  eexists. split; [done|]. pose proof (add_ok _ k v (remove_ok m k w r Hok Hk Hp Hs)) as Ha. cbn [map rmap nMaxSize] in Ha.
  rewrite insert_delete_eq in Ha. split; [apply Ha; apply lookup_delete_eq|]. split; [done|]. by rewrite bool_decide_eq_true_2 by done.
Qed.
Lemma lim_shrink_spec fuel s m : limited_ok m -> (size (map m) <= s + fuel)%nat ->
  exists m', shrink fuel s m = Some m' /\ limited_ok m' /\ size (map m') = Nat.min s (size (map m)) /\ nMaxSize m' = nMaxSize m.
Proof.
  revert m. induction fuel as [|f IH]; intros m Hok Hf; cbn [shrink].
  { rewrite bool_decide_eq_false_2 by lia. exists m. split_and!; [done..|lia|done]. }
  case_bool_decide as Hl; [|exists m; split_and!; [done..|lia|done]]. pose proof (size_rmap m Hok) as Hs. destruct (rmap m) as [|[v k] r] eqn:Hr; [cbn in Hs; lia|].
  destruct (erase_lowest_ok m v k r Hok Hr) as [-> Ho]. cbn [option_bind mbind]. pose proof (size_rmap _ Ho) as Hs'. cbn [rmap map length] in Hs, Hs'.
  destruct (IH _ Ho) as (m' & -> & Ho' & Hz & Hn); [cbn [map]; lia|]. exists m'. cbn [map nMaxSize] in *. split_and!; [done|done|lia|done].
Qed.
Lemma lim_max_size_spec s m : limited_ok m -> exists m', max_size s m = Some m' /\ limited_ok m' /\ nMaxSize m' = s /\
  size (map m') = if bool_decide (s = 0%nat) then size (map m) else Nat.min s (size (map m)).
Proof.
  intros Hok. unfold max_size. case_bool_decide as Hs; cbn [option_bind mbind].
  - eexists. split; [done|]. split; [|done]. by destruct Hok; split.
  - destruct (lim_shrink_spec (size (map m)) s m Hok ltac:(lia)) as (m' & -> & [H1 H2 H3] & Hz & _). cbn. eexists. split; [done|]. by split.
Qed.
(** a map below its limit, but not at the limit of one, stays below *)
Lemma insert_below k v m : limited_ok m -> nMaxSize m <> 1%nat -> (size (map m) < nMaxSize m)%nat ->
  exists m', insert k v m = Some m' /\ limited_ok m' /\ nMaxSize m' = nMaxSize m /\ (size (map m') < nMaxSize m)%nat.
Proof.
  intros Hok Hn Hl. destruct (lim_insert_spec k v m Hok (or_introl Hn)) as (m' & E & Ho & Hm & Hs). exists m'. split_and!; [done..|].
  case_bool_decide as Hk; [by subst m'|]. assert (Hk' : map m !! k = None) by (by apply eq_None_not_Some). case_bool_decide as Hf.
  - destruct Hs as (low & w & Hlow & _ & ->). assert (Hne : k <> low) by (intros ->; congruence). rewrite map_size_insert_None by (by rewrite lookup_delete_ne).
    rewrite map_size_delete_Some by done. lia.
  - rewrite Hs, map_size_insert_None by done. lia.
Qed.
End Lim.
Arguments limitedmap K {_ _}.
End Lim.

(** ** CMedianFilter *)

Record CMedianFilter := { vValues : list Z; vSorted : list Z; mf_nSize : nat }.
Definition new_median (size : nat) (initial_value : Z) : CMedianFilter := {| vValues := [initial_value]; vSorted := [initial_value]; mf_nSize := size |}.
Definition input (value : Z) (f : CMedianFilter) : CMedianFilter :=
  let v := (if bool_decide (length (vValues f) = mf_nSize f) then drop 1 (vValues f) else vValues f) ++ [value] in
  {| vValues := v; vSorted := merge_sort Z.le v; mf_nSize := mf_nSize f |}.
(** [None]: the assertion fails *)
Definition median (f : CMedianFilter) : option Z :=
  let size := length (vSorted f) in
  if bool_decide (size = 0%nat) then None
  else if Nat.odd size then vSorted f !! (Nat.div2 size)
  else let? a := vSorted f !! (Nat.div2 size - 1)%nat in let? b := vSorted f !! Nat.div2 size in Some (cdiv (a + b) 2).

(** the filter holds the last values and sorts them *)
Lemma input_spec f v : (1 <= mf_nSize f)%nat -> (1 <= length (vValues f) <= mf_nSize f)%nat ->
  vValues (input v f) = drop (S (length (vValues f)) - mf_nSize f) (vValues f ++ [v]) /\ (1 <= length (vValues (input v f)) <= mf_nSize f)%nat /\
  Permutation (vSorted (input v f)) (vValues (input v f)) /\ Sorted Z.le (vSorted (input v f)).
Proof.
  intros Hn Hl. unfold input. cbn [vValues vSorted mf_nSize]. split; [|split; [|split; [apply merge_sort_Permutation|apply Sorted_merge_sort; intros x y; lia]]].
  - case_bool_decide as He; [|by replace (S (length (vValues f)) - mf_nSize f)%nat with 0%nat by lia].
    replace (S (length (vValues f)) - mf_nSize f)%nat with 1%nat by lia. destruct (vValues f); [cbn in Hl; lia|done].
  - rewrite length_app. case_bool_decide as He; [rewrite length_drop|]; cbn; lia.
Qed.

(** ** What the containers promise *)

(** The inventory a peer knows is what was put in last: from an empty [mruset] with a limit, inserting any elements one after
    the other never fails; the set then holds exactly the elements of the queue, which are the new ones in the order of their insertion,
    without the oldest of those beyond the limit. *)
Theorem mruset_recent {T} `{Countable T} (n : nat) (l : list T) :
  exists m, foldl (fun m x => let? m := m in let? (_, m) := Mru.insert x m in Some m) (Some (Mru.new_mruset n)) l = Some m /\
    (forall x, Mru.count x m = bool_decide (x ∈ Mru.queue m)) /\ NoDup (Mru.queue m) /\ (n <> 0%nat -> (length (Mru.queue m) <= n)%nat) /\
    Mru.queue m = foldl (fun q x => if bool_decide (x ∈ q) then q else Mru.last_n n (q ++ [x])) [] l.
Proof.
  assert (Hg : forall m, Mru.mruset_ok m -> Mru.nMaxSize m = n ->
    exists m', foldl (fun m x => let? m := m in let? (_, m) := Mru.insert x m in Some m) (Some m) l = Some m' /\ Mru.mruset_ok m' /\ Mru.nMaxSize m' = n /\
      Mru.queue m' = foldl (fun q x => if bool_decide (x ∈ q) then q else Mru.last_n n (q ++ [x])) (Mru.queue m) l).
  { induction l as [|x l IH]; intros m Hok Hn; cbn [foldl]; [by exists m|]. destruct (Mru.mru_insert_spec x m Hok) as (m1 & -> & Ho1 & Hn1 & Hq1). cbn [option_bind mbind].
    destruct (IH m1 Ho1 ltac:(congruence)) as (m' & E & Ho & Hm & Hq). exists m'. split_and!; [done..|]. by rewrite Hq, Hq1, Hn. }
  destruct (Hg _ (Mru.new_mruset_ok n) eq_refl) as (m & E & [H1 H2 H3] & Hn & Hq). exists m. split_and!; [done| |done|by rewrite Hn in H3|done].
  intros x. unfold Mru.count. apply bool_decide_ext, H1.
Qed.

(** [limitedmap] misses its limit: with a limit of two or more, a map that starts empty never holds as many elements as the
    limit allows; a map that has reached its limit, which [max_size] brings about, only grows, by every new key; and with a limit of one
    the first insertion takes the first element of an empty container. *)
Theorem limitedmap_limit {K} `{Countable K} :
  (forall n l, (2 <= n)%nat -> exists m, foldl (fun m x => let? m := m in Lim.insert x.1 x.2 m) (Some (Lim.new_limitedmap (K := K) n)) l = Some m /\ (size (Lim.map m) < n)%nat) /\
  (forall (m : Lim.limitedmap K) s, Lim.limited_ok m -> (0 < s <= size (Lim.map m))%nat -> exists m', Lim.max_size s m = Some m' /\ Lim.limited_ok m' /\ size (Lim.map m') = Lim.nMaxSize m') /\
  (forall (m : Lim.limitedmap K) k v, Lim.limited_ok m -> (0 < Lim.nMaxSize m <= size (Lim.map m))%nat -> Lim.map m !! k = None ->
     exists m', Lim.insert k v m = Some m' /\ Lim.limited_ok m' /\ Lim.map m' = <[k := v]> (Lim.map m)) /\
  (forall (k : K) v, Lim.insert k v (Lim.new_limitedmap 1) = None).
Proof.
  split; [|split; [|split]].
  - intros n l Hn. assert (Hg : forall m, Lim.limited_ok m -> Lim.nMaxSize m = n -> (size (Lim.map m) < n)%nat ->
      exists m', foldl (fun m x => let? m := m in Lim.insert x.1 x.2 m) (Some m) l = Some m' /\ (size (Lim.map m') < n)%nat).
    { induction l as [|[k v] l IH]; intros m Hok Hm Hl; cbn [foldl]; [by exists m|]. cbn [option_bind mbind fst snd].
      destruct (Lim.insert_below k v m Hok) as (m1 & -> & Ho & Hm1 & Hl1); [lia|lia|]. apply IH; [done|lia|lia]. }
    apply Hg; [apply Lim.new_limited_ok|done|]. cbn. rewrite map_size_empty. lia.
  - intros m s Hok Hs. destruct (Lim.lim_max_size_spec s m Hok) as (m' & E & Ho & Hn & Hz). exists m'. rewrite bool_decide_eq_false_2 in Hz by lia. split_and!; [done|done|lia].
  - intros m k v Hok Hn Hk. destruct (Lim.lim_insert_spec k v m Hok) as (m' & E & Ho & Hm & Hs).
    { destruct (decide (Lim.map m = ∅)) as [He|]; [|by right]. rewrite He, map_size_empty in Hn. lia. }
    exists m'. split_and!; [done..|]. rewrite bool_decide_eq_false_2 in Hs by (by rewrite Hk; intros []). by rewrite bool_decide_eq_false_2 in Hs by lia.
  - intros k v. unfold Lim.insert. cbn [Lim.map Lim.new_limitedmap Lim.nMaxSize Lim.rmap]. rewrite lookup_empty, bool_decide_eq_false_2 by (by intros []).
    by rewrite map_size_insert_None, map_size_empty by apply lookup_empty.
Qed.
