(* ===== verification/Local.v ===== *)
(** * The addresses of this node and the addresses it refuses (net.cpp)

    Under which addresses a node believes it can be reached ([mapLocalHost]), with a score for each; which networks it can reach and
    which it must not use; and the addresses it has banned.  The times and the settings are arguments.  A [std::map] over addresses is
    read in the order of their bytes ([memcmp]).  The property: the address a node tells a peer is the best one for this peer. *)

From stdpp Require Import gmap sorting.
From S2P Require Import Prelude Crypto NetAddr.
Local Open Scope Z_scope.

(** the scores of local addresses *)
Definition LOCAL_NONE : Z := 0.
Definition LOCAL_IF : Z := 1.
Definition LOCAL_BIND : Z := 2.
Definition LOCAL_UPNP : Z := 3.
Definition LOCAL_HTTP : Z := 4.
Definition LOCAL_MANUAL : Z := 5.

Record LocalServiceInfo := { nScore : Z; nPort : Z }.
Record local_hosts := {
  mapLocalHost : gmap CNetAddr LocalServiceInfo; vfReachable : Network -> bool; vfLimited : Network -> bool;
}.
Definition no_local_hosts : local_hosts := {| mapLocalHost := ∅; vfReachable _ := false; vfLimited _ := false |}.
Definition put_flag (net : Network) (fFlag : bool) (f : Network -> bool) : Network -> bool :=
  fun n => if bool_decide (n = net) then fFlag else f n.

Definition SetReachable (net : Network) (fFlag : bool) (l : local_hosts) : local_hosts :=
  let r := put_flag net fFlag (vfReachable l) in
  {| mapLocalHost := mapLocalHost l; vfReachable := if bool_decide (net = NET_IPV6) && fFlag then put_flag NET_IPV4 true r else r; vfLimited := vfLimited l |}.
Definition SetLimited (net : Network) (fLimited : bool) (l : local_hosts) : local_hosts :=
  if bool_decide (net = NET_UNROUTABLE) then l
  else {| mapLocalHost := mapLocalHost l; vfReachable := vfReachable l; vfLimited := put_flag net fLimited (vfLimited l) |}.
Definition IsLimited (net : Network) (l : local_hosts) : bool := vfLimited l net.
Definition addr_IsLimited (ip : CNetAddr) (l : local_hosts) : bool := IsLimited (GetNetwork ip) l.
Definition IsReachable (ip : CNetAddr) (l : local_hosts) : bool :=
  let net := GetNetwork ip in vfReachable l net && negb (vfLimited l net).
Definition is_local_host (ip : CNetAddr) (l : local_hosts) : bool := bool_decide (is_Some (mapLocalHost l !! ip)).

Definition put_host (ip : CNetAddr) (i : LocalServiceInfo) (l : local_hosts) : local_hosts :=
  {| mapLocalHost := <[ip := i]> (mapLocalHost l); vfReachable := vfReachable l; vfLimited := vfLimited l |}.
(** [AddLocal] before the peers are told ([AdvertizeLocal]); [false]: the address is not taken *)
Definition add_local (fDiscover : bool) (addr : CService) (score : Z) (l : local_hosts) : bool * local_hosts :=
  let ip := s_ip addr in
  if negb (IsRoutable ip) then (false, l)
  else if negb fDiscover && (score <? LOCAL_MANUAL) then (false, l)
  else if addr_IsLimited ip l then (false, l)
  else
    let fAlready := is_local_host ip l in
    let info := default {| nScore := 0; nPort := 0 |} (mapLocalHost l !! ip) in
    let info := if negb fAlready || (nScore info <=? score) then {| nScore := score + (if fAlready then 1 else 0); nPort := s_port addr |} else info in
    (true, SetReachable (GetNetwork ip) true (put_host ip info l)).
(** [SeenLocal] before the peers are told *)
Definition seen_local (addr : CService) (l : local_hosts) : bool * local_hosts :=
  match mapLocalHost l !! s_ip addr with
  | None => (false, l)
  | Some i => (true, put_host (s_ip addr) {| nScore := nScore i + 1; nPort := nPort i |} l)
  end.

(** the hosts in the order of the map *)
Definition ip_le (a b : CNetAddr * LocalServiceInfo) : Prop := be_val a.1 <= be_val b.1.
#[export] Instance ip_le_dec : RelDecision ip_le.
Proof. intros a b. unfold ip_le. apply _. Defined.
Definition local_list (l : local_hosts) : list (CNetAddr * LocalServiceInfo) := merge_sort ip_le (map_to_list (mapLocalHost l)).

(** the loop of [GetLocal]: the best address, its reachability and its score, -1 before the first one *)
Fixpoint best_local (hosts : list (CNetAddr * LocalServiceInfo)) (peer : option CNetAddr) (addr : CService) (nBestReachability nBestScore : Z) : CService * Z :=
  match hosts with
  | [] => (addr, nBestScore)
  | (ip, i) :: r =>
    let nReachability := Reachability_num (GetReachabilityFrom ip peer) in
    if (nBestReachability <? nReachability) || ((nReachability =? nBestReachability) && (nBestScore <? nScore i))
    then best_local r peer {| s_ip := ip; s_port := nPort i |} nReachability (nScore i)
    else best_local r peer addr nBestReachability nBestScore
  end.
Definition GetLocal (fNoListen : bool) (peer : option CNetAddr) (l : local_hosts) : option CService :=
  if fNoListen then None
  else let '(addr, nBestScore) := best_local (local_list l) peer service_Init (-1) (-1) in if 0 <=? nBestScore then Some addr else None.
Definition null_service : CService := {| s_ip := pchIPv4 ++ [0; 0; 0; 0]; s_port := 0 |}.
Definition GetLocalAddress (fNoListen : bool) (nLocalServices nAdjustedTime : Z) (peer : option CNetAddr) (l : local_hosts) : CAddress :=
  match GetLocal fNoListen peer l with
  | None => new_CAddress null_service 0
  | Some addr => {| a_service := addr; nServices := nLocalServices; a_nTime := u32 nAdjustedTime; nLastTry := 0 |}
  end.

(** ** Bans *)

Definition IsBanned (ip : CNetAddr) (now : Z) (setBanned : gmap CNetAddr Z) : bool :=
  match setBanned !! ip with Some t => now <? t | None => false end.
Definition ClearBanned (setBanned : gmap CNetAddr Z) : gmap CNetAddr Z := ∅.
(** [if (setBanned[addr] < banTime) setBanned[addr] = banTime], where [operator[]] makes an entry of 0 *)
Definition ban (ip : CNetAddr) (banTime : Z) (setBanned : gmap CNetAddr Z) : gmap CNetAddr Z :=
  let t := default 0 (setBanned !! ip) in <[ip := if t <? banTime then banTime else t]> setBanned.

(** a ban is never shortened, and holds until its time *)
Lemma ban_holds ip t m ip' now : now < t \/ IsBanned ip' now m = true -> (ip' = ip \/ IsBanned ip' now m = true) ->
  IsBanned ip' now (ban ip t m) = true.
Proof.
  intros Ht Hip. unfold IsBanned, ban in *. destruct (decide (ip' = ip)) as [->|Hne].
  - rewrite lookup_insert_eq. destruct (m !! ip) as [u|] eqn:E; cbn [default from_option id] in *;
      case_if; apply Z.ltb_lt; b2p; destruct Ht as [Ht|Ht]; b2p; try discriminate; lia.
  - rewrite lookup_insert_ne by done. by destruct Hip.
Qed.

(** ** The best address for a peer *)

Definition reach_of (peer : option CNetAddr) (ip : CNetAddr) : Z := Reachability_num (GetReachabilityFrom ip peer).
Definition not_better (peer : option CNetAddr) (a b : CNetAddr * LocalServiceInfo) : Prop :=
  reach_of peer a.1 < reach_of peer b.1 \/ (reach_of peer a.1 = reach_of peer b.1 /\ nScore a.2 <= nScore b.2).
Lemma reach_nonneg peer ip : 0 <= reach_of peer ip.
Proof. unfold reach_of. destruct (GetReachabilityFrom ip peer); cbn; lia. Qed.

(** the loop, from the best of the hosts before *)
Lemma best_local_spec peer hosts : forall ip i, exists ip' i', (ip', i') ∈ (ip, i) :: hosts /\
  best_local hosts peer {| s_ip := ip; s_port := nPort i |} (reach_of peer ip) (nScore i) = ({| s_ip := ip'; s_port := nPort i' |}, nScore i') /\
  Forall (fun a => not_better peer a (ip', i')) ((ip, i) :: hosts).
Proof.
  induction hosts as [|[jp j] r IH]; intros ip i; cbn [best_local].
  - exists ip, i. split_and!; [apply list_elem_of_here|done|]. constructor; [|done]. right. cbn. lia.
  - fold (reach_of peer jp). case_if; b2p.
    + destruct (IH jp j) as (ip' & i' & Hin & -> & Hall). exists ip', i'. split_and!; [apply list_elem_of_further; done|done|].
      apply Forall_cons in Hall as [Hj Hr]. constructor; [|by constructor]. unfold not_better in *. cbn [fst snd] in *.
      repeat match goal with H : _ \/ _ |- _ => destruct H | _ => progress b2p end; lia.
    + destruct (IH ip i) as (ip' & i' & Hin & -> & Hall). exists ip', i'. split_and!; [|done|].
      * apply elem_of_cons in Hin as [->|Hin]; [apply list_elem_of_here|by do 2 apply list_elem_of_further].
      * apply Forall_cons in Hall as [Hi Hr]. constructor; [done|]. constructor; [|done]. unfold not_better in *. cbn [fst snd] in *.
        repeat match goal with H : _ \/ _ |- _ => destruct H | _ => progress b2p end; lia.
Qed.
Lemma local_list_elem l ip i : (ip, i) ∈ local_list l <-> mapLocalHost l !! ip = Some i.
Proof. unfold local_list. rewrite merge_sort_Permutation. apply elem_of_map_to_list. Qed.

(** The address a node tells a peer is the best for it: with scores that are not negative, a node that listens and knows an address of
    its own finds one; it is one of its addresses with its port, and no other of its addresses is easier to reach for the peer, or as easy and of a
    higher score.  A node that does not listen, or knows no address, tells the peer the null address with no services. *)
Theorem GetLocal_best (l : local_hosts) (peer : option CNetAddr) (services now : Z) :
  (forall ip i, mapLocalHost l !! ip = Some i -> 0 <= nScore i) ->
  GetLocalAddress true services now peer l = new_CAddress null_service 0 /\
  (mapLocalHost l = ∅ -> GetLocalAddress false services now peer l = new_CAddress null_service 0) /\
  (mapLocalHost l <> ∅ -> exists ip i, mapLocalHost l !! ip = Some i /\
     GetLocalAddress false services now peer l = {| a_service := {| s_ip := ip; s_port := nPort i |}; nServices := services; a_nTime := u32 now; nLastTry := 0 |} /\
     forall ip' i', mapLocalHost l !! ip' = Some i' -> not_better peer (ip', i') (ip, i)).
Proof.
  intros Hpos. split_and!; [done| |].
  - intros He. unfold GetLocalAddress, GetLocal, local_list. rewrite He, map_to_list_empty. done.
  - intros Hne. unfold GetLocalAddress, GetLocal. destruct (local_list l) as [|[jp j] r] eqn:Hl.
    { destruct Hne. apply map_empty. intros ip. destruct (mapLocalHost l !! ip) as [i|] eqn:E; [|done]. apply local_list_elem in E. rewrite Hl in E. by apply not_elem_of_nil in E. }
    assert (Hj : 0 <= nScore j) by (apply (Hpos jp), local_list_elem; rewrite Hl; apply list_elem_of_here).
    cbn [best_local]. fold (reach_of peer jp). pose proof (reach_nonneg peer jp). rewrite (proj2 (Z.ltb_lt (-1) _)) by lia. cbn [orb].
    destruct (best_local_spec peer r jp j) as (ip & i & Hin & -> & Hall). rewrite <- Hl in Hin, Hall. apply local_list_elem in Hin.
    rewrite (proj2 (Z.leb_le _ _)) by (by apply (Hpos ip)). exists ip, i. split_and!; [done..|]. intros ip' i' Hi'. apply local_list_elem in Hi'.
    rewrite Forall_forall in Hall. by apply Hall.
Qed.

Definition demo_hosts : local_hosts :=
  {| mapLocalHost := {[demo_ip 8 8 4 4 := {| nScore := 1; nPort := 9911 |}; demo_ip 8 8 8 8 := {| nScore := 4; nPort := 9912 |}]};
     vfReachable _ := true; vfLimited _ := false |}.
Lemma GetLocal_best_witness : exists ip i, mapLocalHost demo_hosts !! ip = Some i /\
  GetLocalAddress false 1 1000 (Some (demo_ip 9 9 9 9)) demo_hosts = {| a_service := {| s_ip := ip; s_port := nPort i |}; nServices := 1; a_nTime := u32 1000; nLastTry := 0 |} /\
  forall ip' i', mapLocalHost demo_hosts !! ip' = Some i' -> not_better (Some (demo_ip 9 9 9 9)) (ip', i') (ip, i).
Proof.
  apply (GetLocal_best demo_hosts (Some (demo_ip 9 9 9 9)) 1 1000).
  - apply map_Forall_lookup. apply (bool_decide_unpack _). vm_compute. exact I.
  - intros H. apply (f_equal (fun m => m !! demo_ip 8 8 4 4)) in H. vm_compute in H. discriminate H.
Defined.
(** of the two addresses the one with the higher score is told *)
Example demo_best : s_port (a_service (GetLocalAddress false 1 1000 (Some (demo_ip 9 9 9 9)) demo_hosts)) = 9912.
Proof. vm_compute. reflexivity. Qed.
