(* ===== verification/Peer.v ===== *)
(** * A peer (net.h, net.cpp, main.cpp)

    What a node remembers of a peer ([CNode]): the greeting, the addresses and the inventory it has still to be told, what it is to be
    asked for, the requests that wait for an answer, its filter and its misbehaviour; and the parts of [SendMessages] that work on one
    peer.  [PushMessage] is a message at the end of [p_out] (NetMessage models what becomes of it).  [GetTime()] is [now]; a
    [std::multimap] is the list of its pairs in the order of iteration; a [std::set] of [CAddress] compares addresses as
    [CService].  [None]: the first element of an empty container is used.

    The properties: what is queued for a peer is told to it, in messages it accepts, and once; requests go out in the order they were
    made, and are repeated after two minutes at the earliest. *)

From stdpp Require Import gmap sorting.
From S2P Require Import Prelude OpenSSL BigNum Target Serialize Crypto Script Transaction Coins View Merkle Block Chain Limited Bloom NetAddr Local.
Local Open Scope Z_scope.

Definition PROTOCOL_VERSION : Z := 70001.
Definition MIN_PROTO_VERSION : Z := 209.
Definition BIP0031_VERSION : Z := 60000.
Definition MAX_INV_SZ : nat := 50000.
Lemma MAX_INV_SZ_large : (2000 < MAX_INV_SZ)%nat.
Proof. apply Nat.ltb_lt. vm_compute. reflexivity. Qed.

(** ** Messages *)

(** a block of which only the transactions of a filter are shown *)
Record CMerkleBlock := { mb_header : CBlockHeader; mb_txn : CPartialMerkleTree; vMatchedTxn : list (nat * Z) }.

Record version_fields := {
  v_nVersion : Z; v_nServices : Z; v_nTime : Z; v_addrYou : CAddress; v_addrMe : CAddress; v_nNonce : Z; v_strSubVer : bytes; v_nStartingHeight : Z;
}.
(** the calls of [PushMessage] *)
Inductive net_message :=
| MVersion (v : version_fields) | MVerack | MGetaddr | MAddr (vAddr : list CAddress) | MInv (vInv : list CInv) | MGetdata (vInv : list CInv)
| MNotfound (vInv : list CInv) | MGetblocks (vHave : list Z) (hashStop : Z) | MHeaders (vHeaders : list CBlock) | MBlock (b : CBlock)
| MMerkleblock (b : CMerkleBlock) | MTx (tx : CTransaction) | MStream (strCommand : bytes) (ss : bytes) | MPing (nonce : option Z) | MPong (nonce : Z).

(** ** State *)

#[export] Instance CService_countable : Countable CService.
Proof. refine (inj_countable' (fun s => (s_ip s, s_port s)) (fun x => {| s_ip := x.1; s_port := x.2 |}) _). by intros []. Defined.

(** what the peer said of itself *)
Record greeting := {
  g_addr : CAddress; nVersion : Z; nServices : Z; addrLocal : CService; strSubVer : bytes; cleanSubVer : bytes; nStartingHeight : Z;
  fOneShot : bool; fClient : bool; fInbound : bool; fNetworkNode : bool; fSuccessfullyConnected : bool; fRelayTxes : bool;
  nSendVersion : Z; nRecvVersion : Z;
}.
Record addr_relay := { vAddrToSend : list CAddress; setAddrKnown : gset CService; fGetAddr : bool }.
Record inv_relay := { setInventoryKnown : Mru.mruset CInv; vInventoryToSend : list CInv; mapAskFor : list (Z * CInv) }.
Record sync_state := {
  hashContinue : Z; pindexLastGetBlocksBegin : option Z; hashLastGetBlocksEnd : Z; fStartSync : bool; vRecvGetData : list CInv;
}.
Record peer := {
  p_greeting : greeting; p_addrs : addr_relay; p_invs : inv_relay; p_sync : sync_state; pfilter : CBloomFilter;
  nMisbehavior : Z; fDisconnect : bool; p_closed : bool; p_out : list net_message;
}.
Definition with_greeting (f : greeting -> greeting) (p : peer) : peer :=
  {| p_greeting := f (p_greeting p); p_addrs := p_addrs p; p_invs := p_invs p; p_sync := p_sync p; pfilter := pfilter p;
     nMisbehavior := nMisbehavior p; fDisconnect := fDisconnect p; p_closed := p_closed p; p_out := p_out p |}.
Definition with_addrs (f : addr_relay -> addr_relay) (p : peer) : peer :=
  {| p_greeting := p_greeting p; p_addrs := f (p_addrs p); p_invs := p_invs p; p_sync := p_sync p; pfilter := pfilter p;
     nMisbehavior := nMisbehavior p; fDisconnect := fDisconnect p; p_closed := p_closed p; p_out := p_out p |}.
Definition with_invs (i : inv_relay) (p : peer) : peer :=
  {| p_greeting := p_greeting p; p_addrs := p_addrs p; p_invs := i; p_sync := p_sync p; pfilter := pfilter p;
     nMisbehavior := nMisbehavior p; fDisconnect := fDisconnect p; p_closed := p_closed p; p_out := p_out p |}.
Definition with_sync (f : sync_state -> sync_state) (p : peer) : peer :=
  {| p_greeting := p_greeting p; p_addrs := p_addrs p; p_invs := p_invs p; p_sync := f (p_sync p); pfilter := pfilter p;
     nMisbehavior := nMisbehavior p; fDisconnect := fDisconnect p; p_closed := p_closed p; p_out := p_out p |}.
Definition with_filter (f : CBloomFilter) (p : peer) : peer :=
  {| p_greeting := p_greeting p; p_addrs := p_addrs p; p_invs := p_invs p; p_sync := p_sync p; pfilter := f;
     nMisbehavior := nMisbehavior p; fDisconnect := fDisconnect p; p_closed := p_closed p; p_out := p_out p |}.
Definition with_misbehavior (n : Z) (disconnect closed : bool) (p : peer) : peer :=
  {| p_greeting := p_greeting p; p_addrs := p_addrs p; p_invs := p_invs p; p_sync := p_sync p; pfilter := pfilter p;
     nMisbehavior := n; fDisconnect := disconnect; p_closed := closed; p_out := p_out p |}.
Definition PushMessage (m : net_message) (p : peer) : peer :=
  {| p_greeting := p_greeting p; p_addrs := p_addrs p; p_invs := p_invs p; p_sync := p_sync p; pfilter := pfilter p;
     nMisbehavior := nMisbehavior p; fDisconnect := fDisconnect p; p_closed := p_closed p; p_out := p_out p ++ [m] |}.
Definition disconnect (p : peer) : peer := with_misbehavior (nMisbehavior p) true (p_closed p) p.
(** the socket is closed *)
Definition CloseSocketDisconnect (p : peer) : peer := with_misbehavior (nMisbehavior p) true true p.

(** [CBloomFilter()]: full; the constructor sets nothing else, and nothing else of a full filter is read *)
Definition full_filter : CBloomFilter := {| vData := []; isFull := true; isEmpty := false; nHashFuncs := 0; nTweak := 0; nFlags := 0 |}.

(** ** The lists *)

Definition AddAddressKnown (addr : CAddress) (a : addr_relay) : addr_relay :=
  {| vAddrToSend := vAddrToSend a; setAddrKnown := {[a_service addr]} ∪ setAddrKnown a; fGetAddr := fGetAddr a |}.
Definition PushAddress (addr : CAddress) (a : addr_relay) : addr_relay :=
  if IsValid (s_ip (a_service addr)) && negb (bool_decide (a_service addr ∈ setAddrKnown a))
  then {| vAddrToSend := vAddrToSend a ++ [addr]; setAddrKnown := setAddrKnown a; fGetAddr := fGetAddr a |}
  else a.
Definition AddInventoryKnown (inv : CInv) (i : inv_relay) : option inv_relay :=
  let? (_, known) := Mru.insert inv (setInventoryKnown i) in
  Some {| setInventoryKnown := known; vInventoryToSend := vInventoryToSend i; mapAskFor := mapAskFor i |}.
Definition PushInventory (inv : CInv) (i : inv_relay) : inv_relay :=
  if Mru.count inv (setInventoryKnown i) then i
  else {| setInventoryKnown := setInventoryKnown i; vInventoryToSend := vInventoryToSend i ++ [inv]; mapAskFor := mapAskFor i |}.

(** what was asked for and when, of any peer, and the last moment that was used *)
Record ask_state := { mapAlreadyAskedFor : Lim.limitedmap CInv; nLastTime : Z }.
Definition retry_interval : Z := 2 * 60 * 1000000.
Definition AskFor (inv : CInv) (now : Z) (s : ask_state) (i : inv_relay) : option (ask_state * inv_relay) :=
  let it := Lim.map (mapAlreadyAskedFor s) !! inv in
  let nNow := Z.max ((now - 1) * 1000000) (nLastTime s + 1) in
  let nRequestTime := Z.max (default 0 it + retry_interval) nNow in
  let? asked := match it with
                | Some _ => Lim.update inv nRequestTime (mapAlreadyAskedFor s)
                | None => Lim.insert inv nRequestTime (mapAlreadyAskedFor s)
                end in
  Some ({| mapAlreadyAskedFor := asked; nLastTime := nNow |},
        {| setInventoryKnown := setInventoryKnown i; vInventoryToSend := vInventoryToSend i; mapAskFor := Lim.rmap_insert nRequestTime inv (mapAskFor i) |}).

(** the locator is that of [pindexBegin], of which the caller has the index *)
Definition PushGetBlocks (idx : gmap Z CBlockIndex) (hashGenesisBlock : Z) (pindexBegin : option Z) (hashEnd : Z) (p : peer) : peer :=
  let s := p_sync p in
  if bool_decide (pindexBegin = pindexLastGetBlocksBegin s) && (hashEnd =? hashLastGetBlocksEnd s) then p
  else
    PushMessage (MGetblocks (locator_Set idx hashGenesisBlock pindexBegin) hashEnd)
      (with_sync (fun s => {| hashContinue := hashContinue s; pindexLastGetBlocksBegin := pindexBegin; hashLastGetBlocksEnd := hashEnd;
                              fStartSync := fStartSync s; vRecvGetData := vRecvGetData s |}) p).

(** the peer and the bans; the addresses of this computer are spared *)
Definition Misbehaving (nBanScore nBanTime now howmuch : Z) (p : peer) (setBanned : gmap CNetAddr Z) : bool * peer * gmap CNetAddr Z :=
  let ip := s_ip (a_service (g_addr (p_greeting p))) in
  if IsLocal ip then (false, p, setBanned)
  else
    let n := s32 (nMisbehavior p + howmuch) in
    let p := with_misbehavior n (fDisconnect p) (p_closed p) p in
    if nBanScore <=? n then (true, CloseSocketDisconnect p, ban ip (now + nBanTime) setBanned) else (false, p, setBanned).

(** ** The parts of [SendMessages] *)

(** "ping": nothing was sent for half an hour, and nothing waits ([idle]) *)
Definition keep_alive (idle : bool) (nLastSend now : Z) (p : peer) : peer :=
  if negb (nLastSend =? 0) && (30 * 60 <? now - nLastSend) && idle
  then PushMessage (MPing (if BIP0031_VERSION <? nVersion (p_greeting p) then Some 0 else None)) p
  else p.
Definition start_sync (idx : gmap Z CBlockIndex) (hashGenesisBlock : Z) (pindexBest : option Z) (busy : bool) (p : peer) : peer :=
  if fStartSync (p_sync p) && negb busy then
    PushGetBlocks idx hashGenesisBlock pindexBest 0
      (with_sync (fun s => {| hashContinue := hashContinue s; pindexLastGetBlocksBegin := pindexLastGetBlocksBegin s; hashLastGetBlocksEnd := hashLastGetBlocksEnd s;
                              fStartSync := false; vRecvGetData := vRecvGetData s |}) p)
  else p.

(** a vector that is sent and cleared when it holds 1000 elements *)
Definition batch {A} (m : list A -> net_message) (x : A) (v : list A) (out : list net_message) : list A * list net_message :=
  let v := v ++ [x] in if bool_decide (1000 <= length v)%nat then ([], out ++ [m v]) else (v, out).
Definition flush {A} (m : list A -> net_message) (v : list A) (out : list net_message) : list net_message :=
  match v with [] => out | _ => out ++ [m v] end.

Fixpoint addr_loop (l : list CAddress) (known : gset CService) (vAddr : list CAddress) (out : list net_message) : gset CService * list CAddress * list net_message :=
  match l with
  | [] => (known, vAddr, out)
  | addr :: r =>
    if bool_decide (a_service addr ∈ known) then addr_loop r known vAddr out
    else let '(vAddr, out) := batch MAddr addr vAddr out in addr_loop r ({[a_service addr]} ∪ known) vAddr out
  end.
Definition set_out (out : list net_message) (p : peer) : peer :=
  {| p_greeting := p_greeting p; p_addrs := p_addrs p; p_invs := p_invs p; p_sync := p_sync p; pfilter := pfilter p;
     nMisbehavior := nMisbehavior p; fDisconnect := fDisconnect p; p_closed := p_closed p; p_out := out |}.
Definition send_addrs (fSendTrickle : bool) (p : peer) : peer :=
  if fSendTrickle then
    let a := p_addrs p in
    let '(known, vAddr, out) := addr_loop (vAddrToSend a) (setAddrKnown a) [] (p_out p) in
    set_out (flush MAddr vAddr out) (with_addrs (fun a => {| vAddrToSend := []; setAddrKnown := known; fGetAddr := fGetAddr a |}) p)
  else p.

Section SendInv.
Context {K : Crypto} (hashSalt : Z) (fFromMe : Z -> bool).

(** a transaction waits for the turn of the peer, but a quarter of those of others *)
Definition trickle_wait (hash : Z) : bool := negb (Z.land (Hash (uint256_bytes (Z.lxor hash hashSalt))) 3 =? 0) || fFromMe hash.
Fixpoint inv_loop (fSendTrickle : bool) (l : list CInv) (known : Mru.mruset CInv) (vInv vInvWait : list CInv) (out : list net_message)
    : option (Mru.mruset CInv * list CInv * list CInv * list net_message) :=
  match l with
  | [] => Some (known, vInv, vInvWait, out)
  | inv :: r =>
    if Mru.count inv known then inv_loop fSendTrickle r known vInv vInvWait out
    else if (inv.1 =? MSG_TX) && negb fSendTrickle && trickle_wait inv.2 then inv_loop fSendTrickle r known vInv (vInvWait ++ [inv]) out
    else
      let? (inserted, known) := Mru.insert inv known in
      let '(vInv, out) := if inserted : bool then batch MInv inv vInv out else (vInv, out) in
      inv_loop fSendTrickle r known vInv vInvWait out
  end.
Definition send_invs (fSendTrickle : bool) (p : peer) : option peer :=
  let i := p_invs p in
  let? (known, vInv, vInvWait, out) := inv_loop fSendTrickle (vInventoryToSend i) (setInventoryKnown i) [] [] (p_out p) in
  Some (set_out (flush MInv vInv out) (with_invs {| setInventoryKnown := known; vInventoryToSend := vInvWait; mapAskFor := mapAskFor i |} p)).
End SendInv.

Fixpoint ask_loop (AlreadyHave : CInv -> bool) (nNow : Z) (l : list (Z * CInv)) (vGetData : list CInv) (out : list net_message)
    : list (Z * CInv) * list CInv * list net_message :=
  match l with
  | [] => ([], vGetData, out)
  | (t, inv) :: r =>
    if t <=? nNow then
      if AlreadyHave inv then ask_loop AlreadyHave nNow r vGetData out
      else let '(vGetData, out) := batch MGetdata inv vGetData out in ask_loop AlreadyHave nNow r vGetData out
    else (l, vGetData, out)
  end.
Definition send_requests (AlreadyHave : CInv -> bool) (now : Z) (p : peer) : peer :=
  let i := p_invs p in
  let '(rest, vGetData, out) := ask_loop AlreadyHave (now * 1000000) (mapAskFor i) [] (p_out p) in
  set_out (flush MGetdata vGetData out) (with_invs {| setInventoryKnown := setInventoryKnown i; vInventoryToSend := vInventoryToSend i; mapAskFor := rest |} p).

(** ** Batches *)

(** [v] is what is left of [l] after full messages *)
Definition batched {A} (m : list A -> net_message) (l : list A) (out0 : list net_message) (vo : list A * list net_message) : Prop :=
  exists chunks, vo.2 = out0 ++ map m chunks /\ concat chunks ++ vo.1 = l /\ Forall (fun c => length c = 1000%nat) chunks /\ (length vo.1 < 1000)%nat.
(** [l] was told in order, in messages of one to 1000 elements *)
Definition told {A} (m : list A -> net_message) (l : list A) (out0 out : list net_message) : Prop :=
  exists chunks, out = out0 ++ map m chunks /\ concat chunks = l /\ Forall (fun c => (1 <= length c <= 1000)%nat) chunks.

Lemma batched_nil {A} (m : list A -> net_message) out : batched m [] out ([], out).
Proof. exists []. cbn. rewrite app_nil_r. split_and!; [done|done|constructor|lia]. Qed.
Lemma batch_step {A} (m : list A -> net_message) x l out0 v out : batched m l out0 (v, out) -> batched m (l ++ [x]) out0 (batch m x v out).
Proof.
  intros (ch & Ho & Hc & Hf & Hv). cbn [fst snd] in *. unfold batch, batched. case_bool_decide as E; cbn [fst snd]; rewrite length_app in E; cbn [length] in E.
  - exists (ch ++ [v ++ [x]]). rewrite Ho, map_app, concat_app. cbn [map concat]. rewrite !app_nil_r, <- !app_assoc, <- Hc, <- app_assoc. split_and!; [done..| |cbn; lia].
    apply Forall_app. split; [done|]. constructor; [rewrite length_app; cbn; lia|constructor].
  - exists ch. rewrite app_assoc, Hc. split_and!; [done..|rewrite length_app; cbn; lia].
Qed.
Lemma flush_told {A} (m : list A -> net_message) l out0 v out : batched m l out0 (v, out) -> told m l out0 (flush m v out).
Proof.
  intros (ch & Ho & Hc & Hf & Hv). cbn [fst snd] in *.
  assert (Hf' : Forall (fun c : list A => (1 <= length c <= 1000)%nat) ch) by (eapply Forall_impl; [exact Hf|]; cbn; lia).
  destruct v as [|x v]; cbn [flush].
  - exists ch. rewrite app_nil_r in Hc. done.
  - exists (ch ++ [x :: v]). rewrite Ho, map_app, concat_app. cbn [map concat]. rewrite app_nil_r, <- app_assoc, Hc. split_and!; [done..|].
    apply Forall_app. split; [done|]. constructor; [cbn in *; lia|constructor].
Qed.

(** ** What a peer is told *)

Lemma last_n_snoc {T} (n : nat) (q : list T) x : Mru.last_n n (Mru.last_n n q ++ [x]) = Mru.last_n n (q ++ [x]).
Proof.
  unfold Mru.last_n. case_bool_decide; [done|]. rewrite !length_app, length_drop. cbn [length]. destruct (decide (length q <= n)%nat).
  - replace (length q - n)%nat with 0%nat by lia. by rewrite Nat.sub_0_r, drop_0.
  - rewrite !drop_app, length_drop, drop_drop. replace (length q - (length q - n) + 1 - n)%nat with 1%nat by lia.
    replace (length q - n + 1)%nat with (length q + 1 - n)%nat by lia. do 2 f_equal; lia.
Qed.
Lemma last_n_short {T} (n : nat) (q : list T) : (length q <= n)%nat -> Mru.last_n n q = q.
Proof. intros H. unfold Mru.last_n. case_bool_decide; [done|]. by replace (length q - n)%nat with 0%nat by lia. Qed.

Section Told.
Context {K : Crypto} (hashSalt : Z) (fFromMe : Z -> bool).
Abbreviation waits t inv := ((inv.1 =? MSG_TX) && negb t && trickle_wait hashSalt fFromMe inv.2).

Lemma inv_loop_spec (t : bool) l : forall m0 (A0 : list CInv) m v W0 out0 out, Mru.mruset_ok m -> Mru.nMaxSize m = Mru.nMaxSize m0 ->
  Mru.queue m = Mru.last_n (Mru.nMaxSize m0) (Mru.queue m0 ++ A0) -> batched MInv A0 out0 (v, out) ->
  exists m' v' A W out', inv_loop hashSalt fFromMe t l m v W0 out = Some (m', v', W0 ++ W, out') /\ Mru.mruset_ok m' /\ Mru.nMaxSize m' = Mru.nMaxSize m0 /\
    Mru.queue m' = Mru.last_n (Mru.nMaxSize m0) (Mru.queue m0 ++ A0 ++ A) /\ batched MInv (A0 ++ A) out0 (v', out') /\
    A `sublist_of` l /\ W `sublist_of` l /\ Forall (fun inv => waits t inv = false) A /\ Forall (fun inv => waits t inv = true) W /\
    (forall inv, inv ∈ l -> inv ∈ A \/ inv ∈ W \/ inv ∈ Mru.queue m0 ++ A0) /\
    ((length (Mru.queue m0) + length A0 + length l <= Mru.nMaxSize m0)%nat -> NoDup (Mru.queue m0 ++ A0) -> NoDup (Mru.queue m0 ++ A0 ++ A)).
Proof.
  induction l as [|inv l IH]; intros m0 A0 m v W0 out0 out Hok Hn Hq Hb; cbn [inv_loop].
  { exists m, v, [], [], out. rewrite !app_nil_r. split_and!; try done; try apply sublist_nil_l; try apply Forall_nil_2. by intros inv ?%elem_of_nil. }
  assert (Hcount : Mru.count inv m = bool_decide (inv ∈ Mru.queue m)) by (apply bool_decide_ext, (Mru.mo_set _ Hok)).
  rewrite Hcount. case_bool_decide as Hk.
  - destruct (IH m0 A0 m v W0 out0 out Hok Hn Hq Hb) as (m' & v' & A & W & out' & -> & H1 & H2 & H3 & H4 & H5 & H6 & H7 & H8 & H9 & H10).
    exists m', v', A, W, out'. split_and!; try done; [by constructor..| |].
    + intros j [->|Hj]%elem_of_cons; [|by apply H9]. right. right. rewrite Hq in Hk. unfold Mru.last_n in Hk. case_bool_decide; [done|].
      rewrite <- (take_drop (length (Mru.queue m0 ++ A0) - Mru.nMaxSize m0) (Mru.queue m0 ++ A0)). apply elem_of_app. by right.
    + intros Hl. apply H10. cbn [length] in Hl. lia.
  - destruct (waits t inv) eqn:Hw.
    + destruct (IH m0 A0 m v (W0 ++ [inv]) out0 out Hok Hn Hq Hb) as (m' & v' & A & W & out' & -> & H1 & H2 & H3 & H4 & H5 & H6 & H7 & H8 & H9 & H10).
      exists m', v', A, (inv :: W), out'. rewrite <- app_assoc. split_and!; try done; [by constructor..| |].
      * intros j [->|Hj]%elem_of_cons; [right; left; apply list_elem_of_here|]. destruct (H9 j Hj) as [|[|]]; [by left|right; left; by apply list_elem_of_further|by right; right].
      * intros Hl. apply H10. cbn [length] in Hl. lia.
    + destruct (Mru.mru_insert_spec inv m Hok) as (m1 & Hi & Hok1 & Hn1 & Hq1). rewrite Hi. cbn [option_bind mbind].
      rewrite bool_decide_eq_true_2 by done. rewrite bool_decide_eq_false_2 in Hq1 by done. destruct (batch MInv inv v out) as [v1 out1] eqn:Eb.
      assert (Hb1 : batched MInv (A0 ++ [inv]) out0 (v1, out1)) by (rewrite <- Eb; by apply batch_step).
      destruct (IH m0 (A0 ++ [inv]) m1 v1 W0 out0 out1 Hok1 ltac:(congruence)) as (m' & v' & A & W & out' & -> & H1 & H2 & H3 & H4 & H5 & H6 & H7 & H8 & H9 & H10); [|done|].
      { rewrite Hq1, Hq, Hn, last_n_snoc, app_assoc. done. }
      rewrite <- !app_assoc in H3, H4. cbn [app] in H3, H4. exists m', v', (inv :: A), W, out'. split_and!; try done; [by constructor..| |].
      * intros j [->|Hj]%elem_of_cons; [left; apply list_elem_of_here|]. destruct (H9 j Hj) as [|[|Hx]]; [left; by apply list_elem_of_further|by right; left|].
        rewrite app_assoc, elem_of_app, list_elem_of_singleton in Hx. destruct Hx as [Hx| ->]; [by right; right|left; apply list_elem_of_here].
      * intros Hl Hnd. rewrite <- !app_assoc in H10. cbn [app] in H10. apply H10; [rewrite length_app; cbn [length] in *; lia|].
        rewrite app_assoc. apply NoDup_app. split; [done|]. split; [|apply NoDup_singleton]. intros y Hy ->%list_elem_of_singleton. apply Hk.
        rewrite Hq, last_n_short; [done|]. rewrite length_app. cbn [length] in Hl. lia.
Qed.
End Told.

(** ** Requests *)

Abbreviation by_time := (StronglySorted (fun a b : Z * CInv => a.1 <= b.1)).
Definition asks_ok (s : ask_state) : Prop := Lim.limited_ok (mapAlreadyAskedFor s) /\ Lim.nMaxSize (mapAlreadyAskedFor s) = MAX_INV_SZ.

(** one request: when it goes out, and what is remembered *)
Lemma AskFor_spec inv now s i : asks_ok s -> by_time (mapAskFor i) ->
  exists t s' i', AskFor inv now s i = Some (s', i') /\ asks_ok s' /\ by_time (mapAskFor i') /\
    mapAskFor i' = Lim.rmap_insert t inv (mapAskFor i) /\ setInventoryKnown i' = setInventoryKnown i /\ vInventoryToSend i' = vInventoryToSend i /\
    Lim.map (mapAlreadyAskedFor s') !! inv = Some t /\ nLastTime s < nLastTime s' /\ (now - 1) * 1000000 <= nLastTime s' /\
    t = Z.max (default 0 (Lim.map (mapAlreadyAskedFor s) !! inv) + retry_interval) (nLastTime s') /\
    (forall j, j <> inv -> is_Some (Lim.map (mapAlreadyAskedFor s') !! j) -> is_Some (Lim.map (mapAlreadyAskedFor s) !! j)).
Proof.
  intros [Hok Hn] Hs. unfold AskFor. set (t := Z.max _ _). set (nNow := Z.max _ _).
  assert (H : exists m', match Lim.map (mapAlreadyAskedFor s) !! inv with
                         | Some _ => Lim.update inv t (mapAlreadyAskedFor s) | None => Lim.insert inv t (mapAlreadyAskedFor s) end = Some m' /\
            Lim.limited_ok m' /\ Lim.nMaxSize m' = MAX_INV_SZ /\ Lim.map m' !! inv = Some t /\
            (forall j, j <> inv -> is_Some (Lim.map m' !! j) -> is_Some (Lim.map (mapAlreadyAskedFor s) !! j))).
  { destruct (Lim.map (mapAlreadyAskedFor s) !! inv) as [o|] eqn:E.
    - destruct (Lim.update_spec inv t _ Hok) as (m' & -> & H1 & H2 & H3). rewrite bool_decide_eq_true_2 in H3 by (by rewrite E). exists m'.
      rewrite H3, lookup_insert_eq. split_and!; [done|done|congruence|done|]. intros j Hj. by rewrite lookup_insert_ne.
    - destruct (Lim.lim_insert_spec inv t _ Hok) as (m' & -> & H1 & H2 & H3); [left; rewrite Hn; pose proof MAX_INV_SZ_large; lia|].
      rewrite bool_decide_eq_false_2 in H3 by (rewrite E; by intros [? ?]). exists m'. split_and!; [done|done|congruence| |].
      + case_bool_decide; [destruct H3 as (lo & w & _ & _ & ->)|rewrite H3]; by rewrite lookup_insert_eq.
      + intros j Hj. case_bool_decide; [destruct H3 as (lo & w & _ & _ & ->)|rewrite H3]; rewrite lookup_insert_ne by done; [|done].
        intros [x Hx]. apply lookup_delete_Some in Hx as [_ Hx]. by exists x. }
  destruct H as (m' & -> & H1 & H2 & H3 & H4). cbn [option_bind mbind]. exists t. eexists _, _. split; [done|]. cbn [mapAlreadyAskedFor nLastTime mapAskFor setInventoryKnown vInventoryToSend].
  split_and!; try done; [by apply Lim.rmap_insert_sorted|lia|lia].
Qed.

Lemma rmap_insert_last t (inv : CInv) l : Forall (fun a => a.1 <= t) l -> Lim.rmap_insert t inv l = l ++ [(t, inv)].
Proof. induction 1 as [|[u j] l Hu _ IH]; [done|]. cbn [Lim.rmap_insert app]. cbn in Hu. rewrite (proj2 (Z.ltb_ge _ _)) by lia. by rewrite IH. Qed.

(** the requests of one peer, in order; each with the moment it is made *)
Fixpoint ask_all (l : list (Z * CInv)) (s : ask_state) (i : inv_relay) : option (ask_state * inv_relay) :=
  match l with [] => Some (s, i) | (now, inv) :: r => let? (s, i) := AskFor inv now s i in ask_all r s i end.
Lemma ask_all_spec l : forall s i, asks_ok s -> by_time (mapAskFor i) -> Forall (fun a => a.1 <= nLastTime s) (mapAskFor i) ->
  Forall (fun a => 121 <= a.1) l -> NoDup l.*2 -> (forall inv, inv ∈ l.*2 -> Lim.map (mapAlreadyAskedFor s) !! inv = None) ->
  exists s' i', ask_all l s i = Some (s', i') /\ asks_ok s' /\ by_time (mapAskFor i') /\ Forall (fun a => a.1 <= nLastTime s') (mapAskFor i') /\
    (mapAskFor i').*2 = (mapAskFor i).*2 ++ l.*2.
Proof.
  induction l as [|[now inv] l IH]; intros s i Hs Hb Ht Hl Hnd Hnew; [exists s, i; cbn; by rewrite app_nil_r|].
  apply Forall_cons in Hl as [Hnow Hl]. apply NoDup_cons in Hnd as [Hni Hnd]. cbn [fmap list_fmap fst snd] in *. cbn [ask_all].
  destruct (AskFor_spec inv now s i Hs Hb) as (t & s1 & i1 & -> & H1 & H2 & H3 & _ & _ & _ & H4 & H5 & H6 & H7). cbn [option_bind mbind].
  rewrite Hnew in H6 by apply list_elem_of_here. cbn [default from_option id] in H6. unfold retry_interval in H6. replace t with (nLastTime s1) in * by lia.
  assert (Hq : mapAskFor i1 = mapAskFor i ++ [(nLastTime s1, inv)]).
  { rewrite H3. apply rmap_insert_last. eapply Forall_impl; [exact Ht|]. cbn. intros [u j]. cbn. lia. }
  destruct (IH s1 i1 H1 H2) as (s' & i' & -> & H8 & H9 & H10 & H11); [|done|done| |].
  - rewrite Hq. apply Forall_app. split; [|repeat constructor; cbn; lia]. eapply Forall_impl; [exact Ht|]. intros [u j]. cbn. lia.
  - intros j Hj. apply eq_None_not_Some. intros Hsome. apply H7 in Hsome as [x Hx]; [|intros ->; by apply Hni].
    rewrite Hnew in Hx; [done|]. by apply list_elem_of_further.
  - exists s', i'. split_and!; try done. rewrite H11, Hq, fmap_app, <- app_assoc. done.
Qed.

Lemma ask_loop_spec have nNow l : by_time l -> forall v A0 out0 out, batched MGetdata A0 out0 (v, out) ->
  exists v' out', ask_loop have nNow l v out = (filter (fun a => nNow < a.1) l, v', out') /\
    batched MGetdata (A0 ++ List.filter (fun inv => negb (have inv)) (filter (fun a => a.1 <= nNow) l).*2) out0 (v', out').
Proof.
  induction 1 as [|[t inv] l Hs IH Hf]; intros v A0 out0 out Hb; cbn [ask_loop]; [exists v, out; cbn; by rewrite app_nil_r|].
  destruct (Z.leb_spec t nNow) as [Ht|Ht].
  - rewrite (filter_cons_False _ (t, inv)) by (cbn; lia). rewrite filter_cons_True by done. cbn [fmap list_fmap snd List.filter].
    destruct (have inv) eqn:Eh; cbn [negb]; [by apply IH|]. destruct (batch MGetdata inv v out) as [v1 out1] eqn:Eb.
    destruct (IH v1 (A0 ++ [inv]) out0 out1) as (v' & out' & -> & H); [rewrite <- Eb; by apply batch_step|]. exists v', out'. split; [done|].
    by rewrite <- app_assoc in H.
  - assert (Hl : forall a, a ∈ (t, inv) :: l -> nNow < a.1).
    { intros a [->|Ha]%elem_of_cons; [done|]. rewrite Forall_forall in Hf. specialize (Hf a Ha). cbn in Hf. lia. }
    exists v, out. split.
    + f_equal. f_equal. symmetry. apply (filter_all (A := Z * CInv)). exact Hl.
    + rewrite (filter_none (A := Z * CInv)) by (intros a Ha; specialize (Hl a Ha); lia). cbn. by rewrite app_nil_r.
Qed.

(** ** Properties *)

Section PeerProperties.
Context {K : Crypto} (hashSalt : Z) (fFromMe : Z -> bool).

(** C28: What is queued for a peer is told to it.  [SendMessages] sends the queued inventory in the order of the queue, in messages of one to
    1000 items.  Every queued item is sent, or the peer knows it, or it is a transaction that stays queued because its turn has not come; in the turn
    of the peer ([fSendTrickle]) nothing stays.  A transaction of one's own is sent in no other turn.  Afterwards the peer is known to know what was
    sent, up to the limit of what is remembered, and as long as that has room for the queue nothing the peer knows is sent and nothing is sent twice. *)
Theorem send_invs_told (fSendTrickle : bool) (p : peer) : Mru.mruset_ok (setInventoryKnown (p_invs p)) ->
  let i := p_invs p in let max := Mru.nMaxSize (setInventoryKnown i) in
  exists p' sent, send_invs hashSalt fFromMe fSendTrickle p = Some p' /\ told MInv sent (p_out p) (p_out p') /\ sent `sublist_of` vInventoryToSend i /\
    let i' := p_invs p' in Mru.mruset_ok (setInventoryKnown i') /\ Mru.nMaxSize (setInventoryKnown i') = max /\ mapAskFor i' = mapAskFor i /\
    vInventoryToSend i' `sublist_of` vInventoryToSend i /\
    (forall inv, inv ∈ vInventoryToSend i -> inv ∈ sent \/ inv ∈ vInventoryToSend i' \/ Mru.count inv (setInventoryKnown i) = true) /\
    (forall inv, inv ∈ vInventoryToSend i' -> fSendTrickle = false /\ inv.1 = MSG_TX) /\
    (forall inv, inv ∈ sent -> inv.1 = MSG_TX -> fFromMe inv.2 = true -> fSendTrickle = true) /\
    Mru.queue (setInventoryKnown i') = Mru.last_n max (Mru.queue (setInventoryKnown i) ++ sent) /\
    ((length (Mru.queue (setInventoryKnown i)) + length (vInventoryToSend i) <= max)%nat -> NoDup (Mru.queue (setInventoryKnown i) ++ sent)).
Proof.
  intros Hok i max. unfold send_invs. fold i.
  assert (Hq : Mru.queue (setInventoryKnown i) = Mru.last_n max (Mru.queue (setInventoryKnown i) ++ [])).
  { rewrite app_nil_r. destruct (decide (max = 0)%nat) as [E|E]; [unfold Mru.last_n; by rewrite bool_decide_eq_true_2|]. rewrite last_n_short; [done|]. by apply Mru.mo_size. }
  destruct (inv_loop_spec hashSalt fFromMe fSendTrickle (vInventoryToSend i) (setInventoryKnown i) [] (setInventoryKnown i) [] [] (p_out p) (p_out p)
    Hok eq_refl Hq (batched_nil MInv _)) as (m' & v' & A & W & out' & -> & H1 & H2 & H3 & H4 & H5 & H6 & H7 & H8 & H9 & H10).
  cbn [option_bind mbind app]. eexists _, A. split; [done|]. cbn [p_out set_out with_invs p_invs setInventoryKnown vInventoryToSend mapAskFor]. rewrite app_nil_r in H9, H10.
  split_and!; try done.
  - by apply flush_told.
  - intros inv Hi. destruct (H9 inv Hi) as [|[|Hk]]; [by left|by right; left|right; right]. apply bool_decide_eq_true_2. by apply (Mru.mo_set _ Hok).
  - intros inv Hi. rewrite Forall_forall in H8. specialize (H8 inv Hi). cbn in H8. b2p. done.
  - intros inv Hi Ht Hf. rewrite Forall_forall in H7. specialize (H7 inv Hi). unfold trickle_wait in H7. cbn in H7. rewrite Ht, Hf, orb_true_r, andb_true_r in H7.
    by destruct fSendTrickle.
  - intros Hl. apply H10; [cbn; lia|]. apply (Mru.mo_nodup _ Hok).
Qed.

(** C29: Requests go out in the order they were made.  Items that were not asked for before, put one after the other to a peer from which nothing is
    awaited, are requested together once the last moment has come: by "getdata" messages of one to 1000 items that list, in the order of the calls, those
    that have not arrived since; nothing stays to be asked. *)
Theorem requests_in_order (l : list (Z * CInv)) s i (p : peer) have now : asks_ok s -> mapAskFor i = [] ->
  Forall (fun a => 121 <= a.1) l -> NoDup l.*2 -> (forall inv, inv ∈ l.*2 -> Lim.map (mapAlreadyAskedFor s) !! inv = None) ->
  exists s' i', ask_all l s i = Some (s', i') /\ asks_ok s' /\
    (p_invs p = i' -> nLastTime s' <= now * 1000000 ->
     let p' := send_requests have now p in
     told MGetdata (List.filter (fun inv => negb (have inv)) l.*2) (p_out p) (p_out p') /\ mapAskFor (p_invs p') = []).
Proof.
  intros Hs Hi Hl Hnd Hnew.
  destruct (ask_all_spec l s i Hs ltac:(rewrite Hi; constructor) ltac:(rewrite Hi; constructor) Hl Hnd Hnew) as (s' & i' & H1 & H2 & H3 & H4 & H5).
  exists s', i'. split_and!; [done|done|]. intros Hp Hn. unfold send_requests. rewrite Hp.
  destruct (ask_loop_spec have (now * 1000000) (mapAskFor i') H3 [] [] (p_out p) (p_out p) (batched_nil _ _)) as (v & out & -> & Hb).
  cbn [p_out set_out with_invs p_invs mapAskFor]. rewrite Forall_forall in H4. cbn [app] in Hb.
  assert (Hdue : forall a, a ∈ mapAskFor i' -> a.1 <= now * 1000000) by (intros a Ha; specialize (H4 a Ha); cbn in H4; lia).
  rewrite (filter_all (A := Z * CInv)) in Hb by done. rewrite H5, Hi in Hb. cbn [fmap list_fmap app] in Hb. split; [by apply flush_told|].
  apply (filter_none (A := Z * CInv)). intros a Ha. specialize (Hdue a Ha). lia.
Qed.

(** A request is repeated after two minutes at the earliest: whatever was asked for, of whichever peer, asking for an item again schedules the new request two
    minutes or more after the one before, and not before now; the moments that are used strictly increase; and the item is remembered with its new
    moment. *)
Theorem AskFor_retries inv now s i : asks_ok s -> by_time (mapAskFor i) ->
  exists t s' i', AskFor inv now s i = Some (s', i') /\ asks_ok s' /\ by_time (mapAskFor i') /\ (t, inv) ∈ mapAskFor i' /\
    Lim.map (mapAlreadyAskedFor s') !! inv = Some t /\ nLastTime s < nLastTime s' <= t /\ (now - 1) * 1000000 <= t /\
    (forall t0, Lim.map (mapAlreadyAskedFor s) !! inv = Some t0 -> t0 + 120000000 <= t).
Proof.
  intros Hs Hb. destruct (AskFor_spec inv now s i Hs Hb) as (t & s1 & i1 & H0 & H1 & H2 & H3 & _ & _ & Hm & H4 & H5 & H6 & H7).
  exists t, s1, i1. split_and!; try done; try lia.
  - rewrite H3, Lim.rmap_insert_perm. apply list_elem_of_here.
  - intros t0 E. rewrite E in H6. cbn in H6. unfold retry_interval in H6. lia.
Qed.
End PeerProperties.

(** ** A peer *)

Definition demo_greeting : greeting :=
  {| g_addr := address_Init (demo_service 8 8 4 4); nVersion := PROTOCOL_VERSION; nServices := 1; addrLocal := service_Init; strSubVer := []; cleanSubVer := [];
     nStartingHeight := 0; fOneShot := false; fClient := false; fInbound := false; fNetworkNode := true; fSuccessfullyConnected := true; fRelayTxes := true;
     nSendVersion := PROTOCOL_VERSION; nRecvVersion := PROTOCOL_VERSION |}.
Definition demo_invs : inv_relay :=
  {| setInventoryKnown := Mru.new_mruset 10; vInventoryToSend := [(MSG_TX, 5); (MSG_BLOCK, 7); (MSG_TX, 5); (MSG_TX, 9)]; mapAskFor := [] |}.
Definition demo_peer_state : peer :=
  {| p_greeting := demo_greeting; p_addrs := {| vAddrToSend := []; setAddrKnown := ∅; fGetAddr := false |}; p_invs := demo_invs;
     p_sync := {| hashContinue := 0; pindexLastGetBlocksBegin := None; hashLastGetBlocksEnd := 0; fStartSync := false; vRecvGetData := [] |};
     pfilter := full_filter; nMisbehavior := 0; fDisconnect := false; p_closed := false; p_out := [] |}.
Definition demo_asks : ask_state := {| mapAlreadyAskedFor := Lim.new_limitedmap MAX_INV_SZ; nLastTime := 0 |}.
Lemma demo_asks_ok : asks_ok demo_asks.
Proof. split; [apply Lim.new_limited_ok|done]. Qed.

Lemma send_invs_told_witness : exists p' sent, send_invs (K := ToyCrypto) 0 (fun h => h =? 9) true demo_peer_state = Some p' /\ told MInv sent [] (p_out p') /\
  vInventoryToSend (p_invs p') = [] /\ (9 ∈ sent.*2 \/ Mru.count (MSG_TX, 9) (setInventoryKnown demo_invs) = true).
Proof.
  destruct (send_invs_told (K := ToyCrypto) 0 (fun h => h =? 9) true demo_peer_state (Mru.new_mruset_ok 10)) as (p' & sent & H1 & H2 & H3 & H4 & H5 & H6 & H7 & H8 & H9 & _).
  exists p', sent. assert (Hw : vInventoryToSend (p_invs p') = []).
  { destruct (vInventoryToSend (p_invs p')) as [|x r]; [done|]. destruct (H9 x (list_elem_of_here _ _)) as [? _]. discriminate. }
  split_and!; [done..|]. destruct (H8 (MSG_TX, 9)) as [H|[H|H]].
  - apply (bool_decide_unpack _). vm_compute. exact I.
  - left. apply list_elem_of_fmap. by exists (MSG_TX, 9).
  - rewrite Hw in H. by apply elem_of_nil in H.
  - by right.
Defined.
Lemma requests_in_order_witness : exists s' i', ask_all [(200, (MSG_BLOCK, 3)); (200, (MSG_BLOCK, 1))] demo_asks demo_invs = Some (s', i') /\
  (nLastTime s' <= 300 * 1000000 ->
   told MGetdata [(MSG_BLOCK, 3); (MSG_BLOCK, 1)] [] (p_out (send_requests (fun _ => false) 300 (with_invs i' demo_peer_state)))).
Proof.
  destruct (requests_in_order [(200, (MSG_BLOCK, 3)); (200, (MSG_BLOCK, 1))] demo_asks demo_invs demo_peer_state (fun _ => false) 300 demo_asks_ok eq_refl) as (s' & i' & H1 & H2 & _).
  - repeat constructor; cbn; lia.
  - apply (bool_decide_unpack _). vm_compute. exact I.
  - intros inv _. apply lookup_empty.
  - exists s', i'. split; [done|]. intros Hn.
    destruct (requests_in_order [(200, (MSG_BLOCK, 3)); (200, (MSG_BLOCK, 1))] demo_asks demo_invs (with_invs i' demo_peer_state) (fun _ => false) 300 demo_asks_ok eq_refl) as (s2 & i2 & H3 & _ & H4).
    + repeat constructor; cbn; lia.
    + apply (bool_decide_unpack _). vm_compute. exact I.
    + intros inv _. apply lookup_empty.
    + rewrite H1 in H3. injection H3 as <- <-. by destruct (H4 eq_refl Hn) as [H _].
Defined.
Lemma AskFor_retries_witness : exists t s' i', AskFor (MSG_BLOCK, 3) 500 {| mapAlreadyAskedFor := Lim.new_limitedmap MAX_INV_SZ; nLastTime := 7 |} demo_invs = Some (s', i') /\
  (t, (MSG_BLOCK, 3)) ∈ mapAskFor i' /\ 499000000 <= t.
Proof.
  destruct (AskFor_retries (MSG_BLOCK, 3) 500 {| mapAlreadyAskedFor := Lim.new_limitedmap MAX_INV_SZ; nLastTime := 7 |} demo_invs) as (t & s' & i' & H1 & _ & _ & H2 & _ & _ & H3 & _).
  - exact demo_asks_ok.
  - constructor.
  - exists t, s', i'. split_and!; [done|done|lia].
Defined.
