(* ===== verification/NetMessage.v ===== *)
(** * Messages on the wire (protocol.h, protocol.cpp, net.h, net.cpp, main.cpp)

    The header of a message ([CMessageHeader]), the messages a node receives byte by byte ([CNetMessage], [ReceiveMsgBytes]), the
    messages it sends ([PushMessage], [SocketSendData]) and the loop that hands complete messages to the handler of their command
    ([ProcessMessages]).  The socket is an interface ([Socket]): a call of [send] takes some of the bytes it is given, blocks or fails.
    What one node pushes, another one receives: the same messages in the same order, however the bytes are cut on their way.

    The handlers ([ProcessMessage], [ProcessGetData]) are arguments of [ProcessMessages]; an assertion that fails is [None]. *)

From S2P Require Import Prelude Serialize Crypto NetAddr.
Local Open Scope Z_scope.

(** ** The header *)

Record CMessageHeader := { h_start : bytes; pchCommand : bytes; nMessageSize : Z; nChecksum : Z }.
Definition COMMAND_SIZE : nat := 12.
Definition HEADER_SIZE : nat := 24.
Definition MESSAGE_SIZE_OFFSET : nat := 16.
Definition CHECKSUM_OFFSET : nat := 20.
Definition ser_CMessageHeader : codec CMessageHeader :=
  ser_iso (ser_tuple4 (ser_flat 4) (ser_flat 12) (ser_uint 4) (ser_uint 4)) (fun h => (h_start h, pchCommand h, nMessageSize h, nChecksum h))
    (fun '(s, c, n, k) => {| h_start := s; pchCommand := c; nMessageSize := n; nChecksum := k |}).

Definition strncpy (src : bytes) (n : nat) : bytes := take n (src ++ replicate n 0).
Definition GetCommand (h : CMessageHeader) : bytes :=
  if nth (COMMAND_SIZE - 1) (pchCommand h) 0 =? 0 then c_str (pchCommand h) else take COMMAND_SIZE (pchCommand h).
(** a [char] is signed *)
Definition char_val (b : Z) : Z := if b <? 128 then b else b - 256.
Fixpoint command_ok (l : bytes) : bool :=
  match l with
  | [] => true
  | c :: r => if c =? 0 then forallb (fun c => c =? 0) (c :: r) else if (char_val c <? 32) || (0x7E <? char_val c) then false else command_ok r
  end.
(** [memcpy] into a buffer *)
Definition overwrite (pos : nat) (src buf : bytes) : bytes := take pos buf ++ src ++ drop (pos + length src) buf.

Section NetMessage.
Context {K : Crypto} (pchMessageStart : bytes).

Definition default_header : CMessageHeader :=
  {| h_start := pchMessageStart; pchCommand := overwrite 1 [1] (replicate COMMAND_SIZE 0); nMessageSize := u32 (-1); nChecksum := 0 |}.
Definition new_header (pszCommand : bytes) (nMessageSizeIn : Z) : CMessageHeader :=
  {| h_start := pchMessageStart; pchCommand := strncpy pszCommand COMMAND_SIZE; nMessageSize := nMessageSizeIn; nChecksum := 0 |}.
Definition header_IsValid (h : CMessageHeader) : bool :=
  if negb (bool_decide (h_start h = pchMessageStart)) then false
  else if negb (command_ok (pchCommand h)) then false
  else negb (MAX_SIZE <? nMessageSize h).

(** ** Receiving *)

Record CNetMessage := { in_data : bool; hdrbuf : bytes; hdr : CMessageHeader; nHdrPos : nat; vRecv : bytes; nDataPos : nat }.
Definition new_message : CNetMessage :=
  {| in_data := false; hdrbuf := replicate 24 0; hdr := default_header; nHdrPos := 0; vRecv := []; nDataPos := 0 |}.
Definition complete (m : CNetMessage) : bool := in_data m && (nMessageSize (hdr m) =? Z.of_nat (nDataPos m)).

(** what was handled, -1 for an error *)
Definition readHeader (pch : bytes) (m : CNetMessage) : Z * CNetMessage :=
  let nCopy := Nat.min (24 - nHdrPos m) (length pch) in
  let buf := overwrite (nHdrPos m) (take nCopy pch) (hdrbuf m) in
  let pos := (nHdrPos m + nCopy)%nat in
  let m := {| in_data := in_data m; hdrbuf := buf; hdr := hdr m; nHdrPos := pos; vRecv := vRecv m; nDataPos := nDataPos m |} in
  if bool_decide (pos < 24)%nat then (Z.of_nat nCopy, m)
  else
    match Unserialize ser_CMessageHeader buf with
    | None => (-1, m)
    | Some (h, rest) =>
      if MAX_SIZE <? nMessageSize h then (-1, {| in_data := in_data m; hdrbuf := rest; hdr := h; nHdrPos := pos; vRecv := vRecv m; nDataPos := nDataPos m |})
      else (Z.of_nat nCopy, {| in_data := true; hdrbuf := rest; hdr := h; nHdrPos := pos; vRecv := replicate (Z.to_nat (nMessageSize h)) 0; nDataPos := nDataPos m |})
    end.
Definition readData (pch : bytes) (m : CNetMessage) : Z * CNetMessage :=
  let nCopy := Nat.min (Z.to_nat (nMessageSize (hdr m)) - nDataPos m) (length pch) in
  (Z.of_nat nCopy,
   {| in_data := in_data m; hdrbuf := hdrbuf m; hdr := hdr m; nHdrPos := nHdrPos m;
      vRecv := overwrite (nDataPos m) (take nCopy pch) (vRecv m); nDataPos := nDataPos m + nCopy |}).
Definition absorb (pch : bytes) (m : CNetMessage) : Z * CNetMessage := if negb (in_data m) then readHeader pch m else readData pch m.

(** the messages before the current one, and the current incomplete message or a new one *)
Definition current (vRecvMsg : list CNetMessage) : list CNetMessage * CNetMessage :=
  match last vRecvMsg with
  | None => (vRecvMsg, new_message)
  | Some m => if complete m then (vRecvMsg, new_message) else (removelast vRecvMsg, m)
  end.
(** every turn handles a byte, so the bytes are fuel enough *)
Fixpoint receive_loop (fuel : nat) (pch : bytes) (vRecvMsg : list CNetMessage) : option (bool * list CNetMessage) :=
  match pch with
  | [] => Some (true, vRecvMsg)
  | _ :: _ =>
    match fuel with
    | O => None
    | S f =>
      let '(before, msg) := current vRecvMsg in
      let '(handled, msg) := absorb pch msg in
      if handled <? 0 then Some (false, before ++ [msg]) else receive_loop f (drop (Z.to_nat handled) pch) (before ++ [msg])
    end
  end.
Definition ReceiveMsgBytes (pch : bytes) (vRecvMsg : list CNetMessage) : option (bool * list CNetMessage) := receive_loop (length pch) pch vRecvMsg.
End NetMessage.

(** ** Sending *)

(** what [send] answers: it took the first [n] bytes, it took none now, or the connection is broken *)
Inductive send_result := Sent (n : nat) | WouldBlock | SendError.
Class Socket := {
  SOCKET : Type;
  send : SOCKET -> bytes -> send_result * SOCKET;
  (** the bytes taken so far, in order *)
  taken : SOCKET -> bytes;
}.
Class SocketLaws (N : Socket) : Prop := {
  send_takes : forall s data n s', send s data = (Sent n, s') -> (1 <= n <= length data)%nat /\ taken s' = taken s ++ take n data;
  send_keeps : forall s data r s', send s data = (r, s') -> (forall n, r <> Sent n) -> taken s' = taken s;
}.

Section Node.
Context {K : Crypto} {N : Socket} (pchMessageStart : bytes).

(** a [CNode]: the socket ([None]: INVALID_SOCKET), what is sent and what is received *)
Record CNode := {
  hSocket : option SOCKET; ssSend : bytes; nSendSize : Z; nSendOffset : nat; nSendBytes : Z; vSendMsg : list bytes;
  vRecvGetData : list CInv; vRecvMsg : list CNetMessage; nLastSend : Z; fDisconnect : bool;
}.
Definition new_CNode (s : SOCKET) : CNode :=
  {| hSocket := Some s; ssSend := []; nSendSize := 0; nSendOffset := 0; nSendBytes := 0; vSendMsg := []; vRecvGetData := []; vRecvMsg := [];
     nLastSend := 0; fDisconnect := false |}.
Definition set_ssSend (v : bytes) (n : CNode) : CNode :=
  {| hSocket := hSocket n; ssSend := v; nSendSize := nSendSize n; nSendOffset := nSendOffset n; nSendBytes := nSendBytes n; vSendMsg := vSendMsg n;
     vRecvGetData := vRecvGetData n; vRecvMsg := vRecvMsg n; nLastSend := nLastSend n; fDisconnect := fDisconnect n |}.
Definition set_vSendMsg (v : list bytes) (size : Z) (off : nat) (n : CNode) : CNode :=
  {| hSocket := hSocket n; ssSend := ssSend n; nSendSize := size; nSendOffset := off; nSendBytes := nSendBytes n; vSendMsg := v;
     vRecvGetData := vRecvGetData n; vRecvMsg := vRecvMsg n; nLastSend := nLastSend n; fDisconnect := fDisconnect n |}.
Definition set_vRecvMsg (v : list CNetMessage) (n : CNode) : CNode :=
  {| hSocket := hSocket n; ssSend := ssSend n; nSendSize := nSendSize n; nSendOffset := nSendOffset n; nSendBytes := nSendBytes n; vSendMsg := vSendMsg n;
     vRecvGetData := vRecvGetData n; vRecvMsg := v; nLastSend := nLastSend n; fDisconnect := fDisconnect n |}.
(** the socket after a call, and the counters when it took [k] bytes *)
Definition after_send (s : option SOCKET) (k : nat) (now : Z) (n : CNode) : CNode :=
  {| hSocket := s; ssSend := ssSend n; nSendSize := nSendSize n; nSendOffset := nSendOffset n + k; nSendBytes := nSendBytes n + Z.of_nat k; vSendMsg := vSendMsg n;
     vRecvGetData := vRecvGetData n; vRecvMsg := vRecvMsg n; nLastSend := now; fDisconnect := fDisconnect n |}.
(** [lockRecv]: the lock of [vRecvMsg] was free *)
Definition CloseSocketDisconnect (lockRecv : bool) (n : CNode) : CNode :=
  {| hSocket := None; ssSend := ssSend n; nSendSize := nSendSize n; nSendOffset := nSendOffset n; nSendBytes := nSendBytes n; vSendMsg := vSendMsg n;
     vRecvGetData := vRecvGetData n; vRecvMsg := if lockRecv then [] else vRecvMsg n; nLastSend := nLastSend n; fDisconnect := true |}.
Definition send_on (s : option SOCKET) (data : bytes) : send_result * option SOCKET :=
  match s with None => (SendError, None) | Some s => let '(r, s) := send s data in (r, Some s) end.

(** the messages from the iterator on that stay *)
Fixpoint send_loop (now : Z) (lockRecv : bool) (it : list bytes) (n : CNode) : option (list bytes * CNode) :=
  match it with
  | [] => Some ([], n)
  | data :: r =>
    if negb (bool_decide (nSendOffset n < length data)%nat) then None
    else
      match send_on (hSocket n) (drop (nSendOffset n) data) with
      | (Sent k, s) =>
        let n := after_send s k now n in
        if bool_decide (nSendOffset n = length data) then send_loop now lockRecv r (set_vSendMsg (vSendMsg n) (nSendSize n - Z.of_nat (length data)) 0 n)
        else Some (data :: r, n)
      | (WouldBlock, s) => Some (data :: r, after_send s 0 (nLastSend n) n)
      | (SendError, s) => Some (data :: r, CloseSocketDisconnect lockRecv (after_send s 0 (nLastSend n) n))
      end
  end.
Definition SocketSendData (now : Z) (lockRecv : bool) (n : CNode) : option CNode :=
  let? (it, n) := send_loop now lockRecv (vSendMsg n) n in
  if bool_decide (it = []) && negb (bool_decide (nSendOffset n = 0%nat) && (nSendSize n =? 0)) then None
  else Some (set_vSendMsg it (nSendSize n) (nSendOffset n) n).

Definition BeginMessage (pszCommand : bytes) (n : CNode) : option CNode :=
  if negb (bool_decide (ssSend n = [])) then None
  else Some (set_ssSend (Serialize ser_CMessageHeader (new_header pchMessageStart pszCommand 0)) n).
Definition AbortMessage (n : CNode) : CNode := set_ssSend [] n.
Definition checksum (data : bytes) : Z := le_val (take 4 (uint256_bytes (Hash data))).
(** [fDrop]: the -dropmessagestest option struck *)
Definition EndMessage (fDrop : bool) (now : Z) (lockRecv : bool) (n : CNode) : option CNode :=
  if fDrop then Some (AbortMessage n)
  else if bool_decide (ssSend n = []) then Some n
  else
    let nSize := u32 (Z.of_nat (length (ssSend n)) - Z.of_nat HEADER_SIZE) in
    let ss := overwrite MESSAGE_SIZE_OFFSET (le_bytes 4 nSize) (ssSend n) in
    let nChecksum := checksum (drop HEADER_SIZE ss) in
    if negb (bool_decide (CHECKSUM_OFFSET + 4 <= length ss)%nat) then None
    else
      let ss := overwrite CHECKSUM_OFFSET (le_bytes 4 nChecksum) ss in
      let first := bool_decide (vSendMsg n = []) in
      let n := set_ssSend [] (set_vSendMsg (vSendMsg n ++ [ss]) (nSendSize n + Z.of_nat (length ss)) (nSendOffset n) n) in
      if first then SocketSendData now lockRecv n else Some n.
(** the arguments as bytes; [None]: one of them throws when it is serialized, and the exception goes on *)
Definition PushMessage (fDrop : bool) (now : Z) (lockRecv : bool) (pszCommand : bytes) (args : option bytes) (n : CNode) : option (CNode * bool) :=
  let? n := BeginMessage pszCommand n in
  match args with
  | None => Some (AbortMessage n, false)
  | Some a => let? n := EndMessage fDrop now lockRecv (set_ssSend (ssSend n ++ a) n) in Some (n, true)
  end.

(** ** Handing on *)

Section Handlers.
Context {W : Type} (SendBufferSize : Z) (ProcessGetData : CNode * W -> CNode * W) (ProcessMessage : bytes -> bytes -> CNode * W -> CNode * W).

(** [fOk], the number of messages to erase and the state; an exception of the handler is caught, its result is only printed *)
Fixpoint process_loop (it : list CNetMessage) (k : nat) (w : CNode * W) : bool * nat * (CNode * W) :=
  match it with
  | [] => (true, k, w)
  | msg :: it =>
    if fDisconnect w.1 then (true, k, w)
    else if SendBufferSize <=? nSendSize w.1 then (true, k, w)
    else if negb (complete msg) then (true, k, w)
    else
      let k := S k in
      if negb (bool_decide (h_start (hdr msg) = pchMessageStart)) then (false, k, w)
      else if negb (header_IsValid pchMessageStart (hdr msg)) then process_loop it k w
      else if negb (checksum (take (Z.to_nat (nMessageSize (hdr msg))) (vRecv msg)) =? nChecksum (hdr msg)) then process_loop it k w
      else (true, k, ProcessMessage (GetCommand (hdr msg)) (vRecv msg) w)
  end.
Definition ProcessMessages (w : CNode * W) : bool * (CNode * W) :=
  let w := if bool_decide (vRecvGetData w.1 = []) then w else ProcessGetData w in
  if negb (bool_decide (vRecvGetData w.1 = [])) then (true, w)
  else
    let '(fOk, k, w) := process_loop (vRecvMsg w.1) 0 w in
    (fOk, if fDisconnect w.1 then w else (set_vRecvMsg (drop k (vRecvMsg w.1)) w.1, w.2)).
End Handlers.
End Node.

(** ** Laws of receiving *)

Lemma overwrite_length pos src buf : (pos + length src <= length buf)%nat -> length (overwrite pos src buf) = length buf.
Proof. intros H. unfold overwrite. rewrite !length_app, length_take, length_drop. lia. Qed.
Lemma overwrite_two pos a b buf : (pos + length a + length b <= length buf)%nat ->
  overwrite (pos + length a) b (overwrite pos a buf) = overwrite pos (a ++ b) buf.
Proof.
  intros H. unfold overwrite. assert (Ht : length (take pos buf) = pos) by (rewrite length_take; lia).
  replace (take (pos + length a) (take pos buf ++ a ++ drop (pos + length a) buf)) with (take pos buf ++ a).
  2:{ rewrite app_assoc. symmetry. apply take_app_length'. rewrite length_app. lia. }
  rewrite <- !app_assoc. do 3 f_equal. rewrite app_assoc, drop_app_ge by (rewrite length_app; lia).
  rewrite drop_drop, !length_app, Ht. f_equal. lia.
Qed.
Lemma overwrite_all src buf : length src = length buf -> overwrite 0 src buf = src.
Proof. intros H. unfold overwrite. rewrite drop_ge by lia. by rewrite app_nil_r. Qed.
Lemma overwrite_bytes pos src buf : all_bytes src -> all_bytes buf -> all_bytes (overwrite pos src buf).
Proof. intros Hs Hb. unfold overwrite, all_bytes in *. rewrite !Forall_app. split_and!; auto using Forall_take, Forall_drop. Qed.

Section Receiving.
Context {K : Crypto} (pchMessageStart : bytes).
Abbreviation receive := (ReceiveMsgBytes pchMessageStart).

(** how many bytes the current message takes at most before its state changes *)
Definition missing (m : CNetMessage) : nat := if in_data m then (Z.to_nat (nMessageSize (hdr m)) - nDataPos m)%nat else (24 - nHdrPos m)%nat.
Definition message_ok (m : CNetMessage) : Prop :=
  if in_data m then length (vRecv m) = Z.to_nat (nMessageSize (hdr m)) /\ 0 <= nMessageSize (hdr m) /\ (nDataPos m <= Z.to_nat (nMessageSize (hdr m)))%nat
  else length (hdrbuf m) = 24%nat /\ all_bytes (hdrbuf m) /\ (nHdrPos m < 24)%nat /\ nDataPos m = 0%nat.

Lemma new_message_ok : message_ok (new_message pchMessageStart).
Proof. unfold message_ok. cbn [in_data new_message hdrbuf nHdrPos nDataPos]. split_and!; try done; [by apply all_bytes_dec|lia]. Qed.
Lemma missing_pos m : message_ok m -> complete m = false -> (0 < missing m)%nat.
Proof. unfold message_ok, complete, missing. destruct (in_data m); cbn [andb]; [|lia]. intros (_ & H0 & H1) H. b2p. lia. Qed.

Lemma absorb_one m b r : message_ok m -> missing m = 1%nat -> absorb (b :: r) m = absorb [b] m.
Proof.
  unfold missing, absorb. destruct (in_data m); cbn [negb]; intros _ Hm; unfold readHeader, readData; rewrite Hm; cbn [length];
    replace (Nat.min 1 (S (length r))) with 1%nat by lia; done.
Qed.
Lemma absorb_more m b r : message_ok m -> is_byte b -> (1 < missing m)%nat ->
  exists m1, absorb [b] m = (1, m1) /\ message_ok m1 /\ complete m1 = false /\ in_data m1 = in_data m /\
    absorb (b :: r) m = (if (absorb r m1).1 <? 0 then -1 else 1 + (absorb r m1).1, (absorb r m1).2).
Proof.
  unfold missing, absorb, message_ok. destruct (in_data m) eqn:Hd; cbn [negb]; intros Hok Hb Hm.
  - destruct Hok as (Hl & H0 & Hp). eexists. split.
    { unfold readData. cbn [length]. replace (Nat.min (Z.to_nat (nMessageSize (hdr m)) - nDataPos m) 1) with 1%nat by lia. reflexivity. }
    cbn [in_data hdr vRecv nDataPos take]. rewrite ?Hd. unfold complete. cbn [in_data hdr nDataPos]. rewrite ?Hd. cbn [andb negb]. split_and!; [|lia..| |done|].
    + by rewrite overwrite_length by (cbn; lia).
    + apply Z.eqb_neq. lia.
    + unfold readData. cbn [fst snd in_data hdr vRecv nDataPos hdrbuf nHdrPos length].
      set (q := Nat.min (Z.to_nat (nMessageSize (hdr m)) - (nDataPos m + 1)) (length r)).
      replace (Nat.min (Z.to_nat (nMessageSize (hdr m)) - nDataPos m) (S (length r))) with (S q) by lia.
      rewrite (proj2 (Z.ltb_ge (Z.of_nat q) 0)) by lia. cbn [take]. f_equal; [lia|]. rewrite ?Hd. f_equal; [|lia].
      rewrite (overwrite_two _ [b]); [done|]. cbn [length]. rewrite length_take. lia.
  - destruct Hok as (Hl & Hbs & Hp & H0). eexists. split.
    { unfold readHeader. cbn [length]. replace (Nat.min (24 - nHdrPos m) 1) with 1%nat by lia. rewrite bool_decide_eq_true_2 by lia. reflexivity. }
    cbn [in_data hdr vRecv nDataPos hdrbuf nHdrPos take]. rewrite ?Hd. unfold complete. cbn [in_data]. rewrite ?Hd. cbn [andb negb]. split_and!; try done; [|apply overwrite_bytes; [by apply list.Forall_singleton|done]|lia|].
    + by rewrite overwrite_length by (cbn; lia).
    + unfold readHeader. cbn [fst snd in_data hdr vRecv nDataPos hdrbuf nHdrPos length].
      set (q := Nat.min (24 - (nHdrPos m + 1)) (length r)).
      replace (Nat.min (24 - nHdrPos m) (S (length r))) with (S q) by lia.
      replace (nHdrPos m + S q)%nat with (nHdrPos m + 1 + q)%nat by lia. cbn [take].
      rewrite (overwrite_two _ [b]) by (cbn [length]; rewrite length_take; lia). cbn [app].
      case_bool_decide; [cbn [fst snd]; rewrite (proj2 (Z.ltb_ge (Z.of_nat q) 0)) by lia; f_equal; [lia|by rewrite Hd]|].
      destruct (Unserialize _ _) as [[h rest]|]; [|by rewrite Hd]. destruct (MAX_SIZE <? nMessageSize h); [by rewrite Hd|]. cbn [fst snd].
      rewrite (proj2 (Z.ltb_ge (Z.of_nat q) 0)) by lia. f_equal. lia.
Qed.

Lemma header_size_bound buf h rest : all_bytes buf -> Unserialize ser_CMessageHeader buf = Some (h, rest) -> 0 <= nMessageSize h.
Proof.
  intros Hb. unfold ser_CMessageHeader, ser_iso, ser_tuple4, ser_flat, ser_uint. cbn [Unserialize].
  destruct (read 4 buf) as [[a1 s1]|] eqn:H1; [|done]. cbn [option_bind mbind]. destruct (read 12 s1) as [[a2 s2]|] eqn:H2; [|done]. cbn [option_bind mbind].
  destruct (read 4 s2) as [[a3 s3]|] eqn:H3; [|done]. cbn [option_bind mbind]. destruct (read 4 s3) as [[a4 s4]|]; [|done]. cbn. intros [= <- <-]. cbn [nMessageSize].
  apply read_Some in H1 as [-> _]. apply read_Some in H2 as [-> _]. apply read_Some in H3 as [-> _].
  rewrite !all_bytes_app in Hb. apply le_val_bound. tauto.
Qed.
Lemma absorb_ok m pch : message_ok m -> complete m = false -> all_bytes pch -> pch <> [] ->
  (absorb pch m).1 = -1 \/ ((1 <= (absorb pch m).1 <= Z.of_nat (length pch)) /\ message_ok (absorb pch m).2).
Proof.
  intros Hok Hc Hb Hne. pose proof (missing_pos m Hok Hc) as Hm. revert Hm Hok. assert (1 <= length pch)%nat by (destruct pch; [done|cbn; lia]).
  unfold missing, absorb, message_ok. destruct (in_data m) eqn:Hd; cbn [negb].
  - intros Hm (Hl & H0 & Hp). right. unfold readData. cbn [fst snd in_data hdr vRecv nDataPos]. rewrite Hd. split_and!; try lia.
    by rewrite overwrite_length by (rewrite length_take; lia).
  - intros Hm (Hl & Hbs & Hp & H0). unfold readHeader. case_bool_decide.
    + right. cbn [fst snd in_data hdrbuf nHdrPos nDataPos]. rewrite Hd. split_and!; try lia.
      * by rewrite overwrite_length by (rewrite length_take; lia).
      * apply overwrite_bytes; [by apply Forall_take|done].
    + destruct (Unserialize _ _) as [[h rest]|] eqn:Hu; [|by left]. destruct (Z.ltb_spec MAX_SIZE (nMessageSize h)); [by left|]. right.
      apply header_size_bound in Hu; [|apply overwrite_bytes; [by apply Forall_take|done]].
      cbn [fst snd in_data hdr vRecv nDataPos]. rewrite length_replicate. split_and!; lia.
Qed.

Lemma current_snoc before m : complete m = false -> current pchMessageStart (before ++ [m]) = (before, m).
Proof. intros H. unfold current. by rewrite last_snoc, H, removelast_last. Qed.
Lemma current_ok q : Forall message_ok q -> Forall message_ok (current pchMessageStart q).1 /\ message_ok (current pchMessageStart q).2 /\ complete (current pchMessageStart q).2 = false.
Proof.
  intros Hq. unfold current. destruct q as [|m q _] using rev_ind; [split_and!; [done|apply new_message_ok|done]|].
  rewrite last_snoc. apply Forall_app in Hq as [Hq Hm]. rewrite list.Forall_singleton in Hm. destruct (complete m) eqn:Hc; cbn [fst snd].
  - split_and!; [apply Forall_app; split; [done|by apply list.Forall_singleton]|apply new_message_ok|done].
  - rewrite removelast_last. done.
Qed.

Lemma loop_fuel f1 : forall f2 pch q, Forall message_ok q -> all_bytes pch -> (length pch <= f1)%nat -> (length pch <= f2)%nat ->
  receive_loop pchMessageStart f1 pch q = receive_loop pchMessageStart f2 pch q /\ receive_loop pchMessageStart f1 pch q <> None.
Proof.
  induction f1 as [|f1 IH]; intros f2 pch q Hq Hb H1 H2; (destruct pch as [|b r]; [by destruct f2|]); [cbn in H1; lia|].
  destruct f2 as [|f2]; [cbn in H2; lia|]. cbn [receive_loop]. destruct (current_ok q Hq) as (Hbf & Hm & Hc). destruct (current _ q) as [before m]. cbn [fst snd] in *.
  pose proof (absorb_ok m (b :: r) Hm Hc Hb ltac:(done)) as Ha. destruct (absorb (b :: r) m) as [h m1]. cbn [fst snd] in Ha.
  destruct Ha as [->|[Hh Hm1]]; [done|]. rewrite (proj2 (Z.ltb_ge h 0)) by lia. cbn [length] in *.
  apply IH; [apply Forall_app; split; [done|by apply list.Forall_singleton]|by apply Forall_drop|rewrite length_drop; cbn [length]; lia..].
Qed.
Lemma receive_fuel f pch q : Forall message_ok q -> all_bytes pch -> (length pch <= f)%nat -> receive_loop pchMessageStart f pch q = receive pch q.
Proof. intros. apply loop_fuel; auto. Qed.

(** one turn of the loop *)
Lemma receive_step pch before m : Forall message_ok before -> message_ok m -> complete m = false -> all_bytes pch -> pch <> [] ->
  receive pch (before ++ [m]) = let '(h, m1) := absorb pch m in if h <? 0 then Some (false, before ++ [m1]) else receive (drop (Z.to_nat h) pch) (before ++ [m1]).
Proof.
  intros Hbf Hm Hc Hb Hne. destruct pch as [|b r]; [done|]. unfold receive at 1. cbn [length receive_loop]. rewrite (current_snoc _ _ Hc).
  pose proof (absorb_ok m (b :: r) Hm Hc Hb ltac:(done)) as Ha. destruct (absorb (b :: r) m) as [h m1]. cbn [fst snd] in Ha. destruct Ha as [->|[Hh Hm1]]; [done|].
  rewrite (proj2 (Z.ltb_ge h 0)) by lia. apply receive_fuel; [apply Forall_app; split; [done|by apply list.Forall_singleton]|by apply Forall_drop|].
  rewrite length_drop. cbn [length]. lia.
Qed.
Lemma receive_current q pch : pch <> [] -> Forall message_ok q -> receive pch q = receive pch ((current pchMessageStart q).1 ++ [(current pchMessageStart q).2]).
Proof.
  intros Hne Hq. destruct (current_ok q Hq) as (_ & _ & Hc). destruct pch as [|b r]; [done|]. unfold receive. cbn [length receive_loop].
  rewrite (current_snoc _ _ Hc). by destruct (current _ q).
Qed.

Lemma snoc_ok before m : Forall message_ok before -> message_ok m -> Forall message_ok (before ++ [m]).
Proof. intros. apply Forall_app. split; [done|by apply list.Forall_singleton]. Qed.
(** the first byte alone makes no difference *)
Lemma receive_cons b r q : Forall message_ok q -> all_bytes (b :: r) ->
  receive (b :: r) q = match receive [b] q with Some (true, q1) => receive r q1 | x => x end.
Proof.
  destruct r as [|c r]; [by destruct (receive [b] q) as [[[] ?]|]|]. intros Hq Hb. pose proof (Forall_inv Hb) as Hb1. pose proof (Forall_inv_tail Hb) as Hr. assert (Hbs : all_bytes [b]) by by apply list.Forall_singleton.
  rewrite !(receive_current q) by done. destruct (current_ok q Hq) as (Hbf & Hm & Hc). destruct (current _ q) as [before m]. cbn [fst snd] in *.
  rewrite !receive_step by done. pose proof (missing_pos m Hm Hc). destruct (decide (missing m = 1%nat)) as [H1|H1].
  - rewrite (absorb_one m b (c :: r)) by done. pose proof (absorb_ok m [b] Hm Hc Hbs ltac:(done)) as Ha. destruct (absorb [b] m) as [h m1]. cbn [fst snd length] in Ha.
    destruct Ha as [->|[Hh _]]; [done|]. replace h with 1 by lia. done.
  - destruct (absorb_more m b (c :: r) Hm Hb1 ltac:(lia)) as (m1 & H1a & Hm1 & Hc1 & _ & ->). rewrite H1a. change (1 <? 0) with false. change (drop (Z.to_nat 1) [b]) with (@nil Z).
    change (receive [] (before ++ [m1])) with (Some (true, before ++ [m1])). cbv iota beta.
    rewrite (receive_step (c :: r) before m1) by done. pose proof (absorb_ok m1 (c :: r) Hm1 Hc1 Hr ltac:(done)) as Ha. destruct (absorb (c :: r) m1) as [h m2]. cbn [fst snd] in *.
    destruct Ha as [->|[Hh _]]; [done|]. rewrite (proj2 (Z.ltb_ge h 0)) by lia. rewrite (proj2 (Z.ltb_ge (1 + h) 0)) by lia.
    by replace (Z.to_nat (1 + h)) with (S (Z.to_nat h)) by lia.
Qed.
Lemma receive_one_ok b q q1 : Forall message_ok q -> is_byte b -> receive [b] q = Some (true, q1) -> Forall message_ok q1 /\ filter complete q `prefix_of` filter complete q1.
Proof.
  intros Hq Hb. assert (Hbs : all_bytes [b]) by by apply list.Forall_singleton. rewrite (receive_current q) by done.
  assert (Hf : filter complete (current pchMessageStart q).1 = filter complete q).
  { unfold current. destruct q as [|m q _] using rev_ind; [done|]. rewrite last_snoc. destruct (complete m) eqn:Hc; [done|]. cbn [fst].
    rewrite removelast_last, filter_app, filter_cons_False by (rewrite Hc; intros []). by rewrite app_nil_r. }
  destruct (current_ok q Hq) as (Hbf & Hm & Hc). destruct (current _ q) as [before m]. cbn [fst snd] in *. rewrite receive_step by done.
  pose proof (absorb_ok m [b] Hm Hc Hbs ltac:(done)) as Ha. destruct (absorb [b] m) as [h m1]. cbn [fst snd length] in Ha.
  destruct Ha as [->|[Hh Hm1]]; [done|]. replace h with 1 by lia. cbn. intros [= <-]. split; [by apply snoc_ok|]. rewrite filter_app, Hf. by eexists.
Qed.
Lemma receive_ok a : forall q q1, Forall message_ok q -> all_bytes a -> receive a q = Some (true, q1) ->
  Forall message_ok q1 /\ filter complete q `prefix_of` filter complete q1.
Proof.
  induction a as [|b a IH]; intros q q1 Hq Hb; [by intros [= <-]|]. rewrite receive_cons by done. apply Forall_cons in Hb as [Hb Ha].
  destruct (receive [b] q) as [[[] q2]|] eqn:H2; [|done..]. intros H1. destruct (receive_one_ok b q q2 Hq Hb H2) as [Hq2 Hp2].
  destruct (IH q2 q1 Hq2 Ha H1) as [Hq1 Hp1]. split; [done|]. by etrans.
Qed.
Lemma receive_app a : forall c q, Forall message_ok q -> all_bytes a -> all_bytes c ->
  receive (a ++ c) q = match receive a q with Some (true, q1) => receive c q1 | x => x end.
Proof.
  induction a as [|b a IH]; intros c q Hq Ha Hc; [done|]. change ((b :: a) ++ c) with (b :: (a ++ c)).
  assert (Hac : all_bytes (b :: a ++ c)) by (apply (all_bytes_app (b :: a) c); by split).
  rewrite receive_cons, (receive_cons b a) by done. apply Forall_cons in Ha as [Hb Ha]. destruct (receive [b] q) as [[[] q2]|] eqn:H2; [|done..].
  apply IH; [by destruct (receive_one_ok b q q2 Hq Hb H2)|done..].
Qed.

(** ** Frames *)

(** what [ThreadSocketHandler] does with the bytes it gets, until an error *)
Fixpoint receive_all (chunks : list bytes) (q : list CNetMessage) : option (bool * list CNetMessage) :=
  match chunks with [] => Some (true, q) | c :: r => match receive c q with Some (true, q) => receive_all r q | x => x end end.
Lemma receive_all_concat chunks : forall q, Forall message_ok q -> Forall all_bytes chunks -> receive_all chunks q = receive (concat chunks) q.
Proof.
  induction chunks as [|c r IH]; intros q Hq Hc; [done|]. apply Forall_cons in Hc as [Hc Hr]. cbn [receive_all concat].
  rewrite receive_app by (try done; by apply all_bytes_concat). destruct (receive c q) as [[[] q1]|] eqn:H; [|done..]. apply IH; [|done].
  by apply (receive_ok c q q1).
Qed.

Definition message : Type := bytes * bytes.
Definition sendable (m : message) : Prop :=
  (length m.1 <= 12)%nat /\ Forall (fun c => 32 <= c <= 126) m.1 /\ all_bytes m.2 /\ Z.of_nat (length m.2) <= MAX_SIZE.
Definition sent_header (m : message) : CMessageHeader :=
  {| h_start := pchMessageStart; pchCommand := strncpy m.1 COMMAND_SIZE; nMessageSize := Z.of_nat (length m.2); nChecksum := checksum m.2 |}.
Definition frame (m : message) : bytes := Serialize ser_CMessageHeader (sent_header m) ++ m.2.
Definition received (m : message) : CNetMessage :=
  {| in_data := true; hdrbuf := []; hdr := sent_header m; nHdrPos := 24; vRecv := m.2; nDataPos := length m.2 |}.
Definition contents (m : CNetMessage) : message := (GetCommand (hdr m), vRecv m).
(** what [ProcessMessages] hands on *)
Definition good (m : CNetMessage) : Prop :=
  complete m = true /\ header_IsValid pchMessageStart (hdr m) = true /\ checksum (take (Z.to_nat (nMessageSize (hdr m))) (vRecv m)) = nChecksum (hdr m).

Lemma strncpy_length src n : length (strncpy src n) = n.
Proof. unfold strncpy. rewrite length_take, length_app, length_replicate. lia. Qed.
Lemma command_printable cmd k : Forall (fun c => 32 <= c <= 126) cmd -> command_ok (cmd ++ replicate k 0) = true /\ c_str (cmd ++ replicate k 0) = cmd.
Proof.
  induction 1 as [|c r Hc _ [IH1 IH2]].
  - split; [|by destruct k]. destruct k as [|k]; [done|]. cbn. induction k; [done|]. done.
  - cbn [app command_ok c_str]. rewrite (proj2 (Z.eqb_neq c 0)) by lia. unfold char_val. rewrite (proj2 (Z.ltb_lt c 128)) by lia.
    rewrite (proj2 (Z.ltb_ge c 32)), (proj2 (Z.ltb_ge 126 c)) by lia. cbn [orb]. by rewrite IH1, IH2.
Qed.
Lemma strncpy_short src : (length src <= 12)%nat -> strncpy src COMMAND_SIZE = src ++ replicate (12 - length src) 0.
Proof.
  intros H. unfold strncpy, COMMAND_SIZE. rewrite take_app_ge by lia. f_equal. rewrite take_replicate. f_equal. lia.
Qed.
Lemma nth_zeros n : forall i, nth i (replicate n 0) 0 = 0.
Proof. induction n; intros [|i]; cbn; auto. Qed.
Lemma GetCommand_sent m : sendable m -> GetCommand (sent_header m) = m.1.
Proof.
  intros (Hl & Hc & _). destruct m as [cmd payload]. cbn [fst snd] in *. unfold GetCommand. cbn [sent_header pchCommand fst]. rewrite strncpy_short by done.
  destruct (decide (length cmd = 12%nat)) as [He|He].
  - rewrite He. cbn [Nat.sub replicate]. rewrite app_nil_r. assert (Hn : nth (COMMAND_SIZE - 1) cmd 0 <> 0).
    { rewrite Forall_forall in Hc. assert (Hi : List.In (nth (COMMAND_SIZE - 1) cmd 0) cmd) by (apply nth_In; unfold COMMAND_SIZE; lia).
      apply list_elem_of_In in Hi. apply Hc in Hi. lia. }
    rewrite (proj2 (Z.eqb_neq _ 0)) by done. apply take_ge. unfold COMMAND_SIZE. lia.
  - rewrite app_nth2 by (unfold COMMAND_SIZE; lia). rewrite nth_zeros, Z.eqb_refl. by apply command_printable.
Qed.

Lemma checksum_bound data : 0 <= checksum data < 2 ^ 32.
Proof.
  unfold checksum. assert (H : all_bytes (take 4 (uint256_bytes (Hash data)))) by apply Forall_take, le_bytes_all.
  apply le_val_bound in H. revert H. rewrite length_take. unfold uint256_bytes. rewrite length_le_bytes. exact (fun H => H).
Qed.
Context (Hstart : length pchMessageStart = 4%nat) (Hstartb : all_bytes pchMessageStart).
Lemma sent_header_codec m rest : sendable m ->
  Unserialize ser_CMessageHeader (Serialize ser_CMessageHeader (sent_header m) ++ rest) = Some (sent_header m, rest) /\
  length (Serialize ser_CMessageHeader (sent_header m)) = 24%nat /\ all_bytes (Serialize ser_CMessageHeader (sent_header m)).
Proof.
  intros (Hl & Hc & Hb & Hs). destruct m as [cmd payload]. cbn [fst snd] in *. unfold MAX_SIZE in Hs. pose proof (checksum_bound payload) as Hk. assert (H256 : 256 ^ Z.of_nat 4 = 2 ^ 32) by reflexivity.
  unfold ser_CMessageHeader, ser_iso, ser_tuple4, ser_flat, ser_uint. cbn [Serialize Unserialize sent_header h_start pchCommand nMessageSize nChecksum fst snd].
  split_and!.
  - rewrite <- !app_assoc. rewrite (read_app 4) by done. cbn [option_bind mbind]. rewrite (read_app 12) by apply strncpy_length. cbn [option_bind mbind].
    rewrite !read_le_bytes by (rewrite H256; lia). cbn [option_bind mbind]. rewrite !le_val_le_bytes by (rewrite H256; lia). done.
  - rewrite !length_app, strncpy_length, !length_le_bytes, Hstart. done.
  - rewrite !all_bytes_app. split_and!; auto using le_bytes_all. unfold strncpy. apply Forall_take, Forall_app. split.
    + eapply Forall_impl; [exact Hc|]. cbn. unfold is_byte. lia.
    + apply Forall_replicate. unfold is_byte. lia.
Qed.
Lemma frame_bytes m : sendable m -> all_bytes (frame m).
Proof. intros Hm. destruct (sent_header_codec m [] Hm) as (_ & _ & Hb). apply all_bytes_app. split; [done|]. apply Hm. Qed.
Lemma received_good m : sendable m -> good (received m) /\ contents (received m) = m.
Proof.
  intros Hm. pose proof Hm as (Hl & Hc & Hb & Hs). split; [split_and!|].
  - unfold complete. cbn. by apply Z.eqb_refl.
  - unfold header_IsValid. cbn [hdr received sent_header h_start pchCommand nMessageSize]. rewrite bool_decide_eq_true_2 by done. cbn [negb].
    rewrite strncpy_short by done. rewrite (proj1 (command_printable m.1 _ Hc)). cbn [negb]. by rewrite (proj2 (Z.ltb_ge _ _)) by lia.
  - cbn [hdr received sent_header nMessageSize vRecv nChecksum]. by rewrite Nat2Z.id, take_ge by lia.
  - unfold contents. cbn [hdr received vRecv]. rewrite GetCommand_sent by done. by destruct m.
Qed.

Lemma receive_frame m q : sendable m -> Forall message_ok q -> Forall complete q -> receive (frame m) q = Some (true, q ++ [received m]).
Proof.
  intros Hm Hq Hc. pose proof Hm as (Hl & _ & Hb & Hs). destruct (sent_header_codec m [] Hm) as (Hu & Hlen & Hbh). rewrite app_nil_r in Hu.
  unfold frame. rewrite receive_app by done. rewrite (receive_current q) by (try done; intros He; by rewrite He in Hlen).
  assert (Hcur : current pchMessageStart q = (q, new_message pchMessageStart)).
  { unfold current. destruct q as [|x q _] using rev_ind; [done|]. rewrite last_snoc. apply Forall_app in Hc as [_ Hx]. rewrite list.Forall_singleton in Hx.
    by destruct (complete x). }
  rewrite Hcur. cbn [fst snd]. rewrite receive_step; [|done|apply new_message_ok|done|done|intros He; by rewrite He in Hlen].
  unfold absorb. cbn [new_message in_data negb]. unfold readHeader. cbn [new_message in_data nHdrPos hdrbuf nDataPos Nat.sub Nat.add]. rewrite Hlen. cbn [Nat.min].
  rewrite (take_ge (Serialize _ _)) by lia. rewrite overwrite_all by (by rewrite length_replicate).
  change (bool_decide (24 < 24)%nat) with false. cbv iota. rewrite Hu. cbn [sent_header nMessageSize]. rewrite (proj2 (Z.ltb_ge MAX_SIZE _)) by lia.
  change (Z.of_nat 24 <? 0) with false. cbv iota. rewrite Nat2Z.id, drop_ge by lia. change (receive [] ?x) with (Some (true, x)). cbv iota beta.
  destruct (decide (m.2 = [])) as [He|He].
  { rewrite He. change (receive [] ?x) with (Some (true, x)). unfold received. rewrite He. done. }
  rewrite receive_step; [|done| | |done..].
  - unfold absorb. cbn [in_data negb]. unfold readData. cbn [hdr nMessageSize nDataPos vRecv in_data hdrbuf nHdrPos Nat.add]. change (nMessageSize (sent_header m)) with (Z.of_nat (length m.2)).
    rewrite !Nat2Z.id, Nat.sub_0_r, Nat.min_id.
    rewrite (proj2 (Z.ltb_ge (Z.of_nat (length m.2)) 0)) by lia. rewrite take_ge, drop_ge by lia. rewrite overwrite_all by (by rewrite length_replicate). done.
  - unfold message_ok. cbn. rewrite length_replicate. lia.
  - unfold complete. cbn. apply Z.eqb_neq. destruct m.2; [done|cbn; lia].
Qed.
Lemma receive_frames ms : forall q, Forall sendable ms -> Forall message_ok q -> Forall complete q ->
  receive (concat (map frame ms)) q = Some (true, q ++ map received ms).
Proof.
  induction ms as [|m ms IH]; intros q Hm Hq Hc; [by rewrite app_nil_r|]. apply Forall_cons in Hm as [Hm Hms]. cbn [map concat].
  rewrite receive_app; [|done|by apply frame_bytes|apply all_bytes_concat, Forall_map, Forall_forall; intros x Hx; apply frame_bytes; rewrite Forall_forall in Hms; by apply Hms].
  rewrite receive_frame by done. rewrite IH; [by rewrite <- app_assoc|done| |].
  - apply snoc_ok; [done|]. unfold message_ok. cbn. lia.
  - apply Forall_app. split; [done|]. rewrite list.Forall_singleton. destruct (received_good m Hm) as [[-> _] _]. done.
Qed.
End Receiving.

(** ** Laws of sending *)

Lemma overwrite_mid a x y b pos : pos = length a -> length x = length y -> overwrite pos y (a ++ x ++ b) = a ++ y ++ b.
Proof.
  intros -> Hxy. unfold overwrite. rewrite take_app_length. do 2 f_equal. rewrite app_assoc, drop_app_length' by (rewrite length_app; lia). done.
Qed.

Section Sending.
Context {K : Crypto} {N : Socket} {NL : SocketLaws N} (pchMessageStart : bytes) (Hstart : length pchMessageStart = 4%nat).

(** [it] is still to be sent, the first of them from the offset on, and [stream] is all that was queued *)
Definition queue_ok (it : list bytes) (n : CNode) (stream : bytes) : Prop :=
  Forall (fun d => d <> []) it /\ (nSendOffset n < match it with [] => 1 | d :: _ => length d end)%nat /\ nSendSize n = Z.of_nat (length (concat it)) /\
  (forall s, hSocket n = Some s -> taken s ++ drop (nSendOffset n) (concat it) = stream).
Definition sender_ok (n : CNode) (stream : bytes) : Prop := ssSend n = [] /\ queue_ok (vSendMsg n) n stream.

Lemma send_loop_ok now lockRecv it : forall n stream, queue_ok it n stream ->
  exists it' n', send_loop now lockRecv it n = Some (it', n') /\ queue_ok it' n' stream /\ ssSend n' = ssSend n.
Proof.
  induction it as [|data r IH]; intros n stream Hq; [by exists [], n|]. destruct Hq as (Hne & Hoff & Hsize & Hs). apply Forall_cons in Hne as [Hd Hr].
  cbn [send_loop]. rewrite bool_decide_eq_true_2 by done. cbn [negb]. destruct (hSocket n) as [s|] eqn:Hh; cbn [send_on].
  - destruct (send s (drop (nSendOffset n) data)) as [res s'] eqn:Hsend. destruct res as [k| |].
    + apply send_takes in Hsend as [Hk Ht]. rewrite length_drop in Hk. cbn [after_send nSendOffset]. specialize (Hs s eq_refl). cbn [concat] in Hs.
      rewrite drop_app_le in Hs by lia. rewrite <- (take_drop k (drop _ data)), <- app_assoc, app_assoc, <- Ht, drop_drop in Hs.
      case_bool_decide as He.
      * destruct (IH (set_vSendMsg (vSendMsg n) (nSendSize n - Z.of_nat (length data)) 0 (after_send (Some s') k now n)) stream) as (it' & n' & H1 & H2 & H3).
        { split_and!; cbn [nSendOffset nSendSize hSocket set_vSendMsg after_send]; [done| | |].
          - destruct r as [|d r]; [lia|]. apply Forall_cons in Hr as [Hd' _]. destruct d; [done|cbn; lia].
          - rewrite Hsize. cbn [concat]. rewrite length_app. lia.
          - intros ? [= <-]. rewrite drop_ge in Hs by lia. done. }
        exists it', n'. done.
      * eexists _, _. split; [done|]. split; [|done]. split_and!; cbn [nSendOffset nSendSize hSocket after_send]; [by constructor|lia|done|].
        intros ? [= <-]. cbn [concat]. rewrite drop_app_le by lia. done.
    + apply send_keeps in Hsend as Ht; [|done]. eexists _, _. split; [done|]. split; [|done].
      split_and!; cbn [nSendOffset nSendSize hSocket after_send]; rewrite ?Nat.add_0_r; [by constructor|done..|]. intros ? [= <-]. rewrite Ht. by apply Hs.
    + eexists _, _. split; [done|]. split; [|done]. split_and!; cbn [nSendOffset nSendSize hSocket after_send CloseSocketDisconnect]; rewrite ?Nat.add_0_r; [by constructor|done..].
  - eexists _, _. split; [done|]. split; [|done]. split_and!; cbn [nSendOffset nSendSize hSocket after_send CloseSocketDisconnect]; rewrite ?Nat.add_0_r; [by constructor|done..].
Qed.
Lemma SocketSendData_ok now lockRecv n stream : sender_ok n stream -> exists n', SocketSendData now lockRecv n = Some n' /\ sender_ok n' stream.
Proof.
  intros [Hss Hq]. destruct (send_loop_ok now lockRecv _ _ _ Hq) as (it & n' & H1 & H2 & H3). unfold SocketSendData. rewrite H1. cbn [option_bind mbind].
  assert (He : bool_decide (it = []) && negb (bool_decide (nSendOffset n' = 0%nat) && (nSendSize n' =? 0)) = false).
  { case_bool_decide; [|done]. subst it. destruct H2 as (_ & Ho & Hz & _). cbn in Hz. rewrite bool_decide_eq_true_2 by lia. by rewrite Hz. }
  rewrite He. eexists. split; [done|]. split; [cbn; congruence|]. done.
Qed.
(** the size and the checksum make the header that of the message *)
Lemma fill_header m : sendable m ->
  let ss := Serialize ser_CMessageHeader (new_header pchMessageStart m.1 0) ++ m.2 in
  let ss1 := overwrite MESSAGE_SIZE_OFFSET (le_bytes 4 (u32 (Z.of_nat (length ss) - Z.of_nat HEADER_SIZE))) ss in
  ss <> [] /\ (CHECKSUM_OFFSET + 4 <= length ss1)%nat /\ overwrite CHECKSUM_OFFSET (le_bytes 4 (checksum (drop HEADER_SIZE ss1))) ss1 = frame pchMessageStart m.
Proof.
  intros (Hl & Hc & Hb & Hs). unfold MAX_SIZE in Hs. set (h0 := Serialize _ _). cbv zeta.
  assert (Hh : h0 = (pchMessageStart ++ strncpy m.1 COMMAND_SIZE) ++ le_bytes 4 0 ++ le_bytes 4 0).
  { unfold h0, ser_CMessageHeader, ser_iso, ser_tuple4, ser_flat, ser_uint. cbn [Serialize new_header h_start pchCommand nMessageSize nChecksum]. by rewrite <- !app_assoc. }
  assert (Hlen : length (pchMessageStart ++ strncpy m.1 COMMAND_SIZE) = 16%nat) by (by rewrite length_app, Hstart, strncpy_length).
  assert (Hlen0 : length h0 = 24%nat) by (by rewrite Hh, length_app, Hlen).
  split; [intros He; apply (f_equal length) in He; rewrite length_app, Hlen0 in He; done|].
  replace (u32 (Z.of_nat (length (h0 ++ m.2)) - Z.of_nat HEADER_SIZE)) with (Z.of_nat (length m.2)).
  2:{ rewrite length_app, Hlen0. unfold HEADER_SIZE. rewrite u32_small; lia. }
  rewrite Hh, <- !app_assoc, (app_assoc pchMessageStart). rewrite overwrite_mid by (rewrite ?Hlen, ?length_le_bytes; done).
  set (p16 := pchMessageStart ++ strncpy m.1 COMMAND_SIZE) in *.
  replace (drop HEADER_SIZE (p16 ++ le_bytes 4 (Z.of_nat (length m.2)) ++ le_bytes 4 0 ++ m.2)) with m.2.
  2:{ rewrite !app_assoc. symmetry. apply drop_app_length'. rewrite !length_app, Hlen, !length_le_bytes. done. }
  split; [rewrite !length_app, Hlen, !length_le_bytes; unfold CHECKSUM_OFFSET; lia|].
  rewrite (app_assoc p16). rewrite overwrite_mid by (rewrite ?length_app, ?Hlen, ?length_le_bytes; done). unfold frame, p16.
  unfold ser_CMessageHeader, ser_iso, ser_tuple4, ser_flat, ser_uint. cbn [Serialize sent_header h_start pchCommand nMessageSize nChecksum]. by rewrite <- !app_assoc.
Qed.
Lemma frame_length m : (0 < length (frame pchMessageStart m))%nat.
Proof. unfold frame, ser_CMessageHeader, ser_iso, ser_tuple4. cbn [Serialize sent_header h_start ser_flat]. rewrite !length_app, Hstart. lia. Qed.
Lemma PushMessage_ok now lockRecv m n stream : sendable m -> sender_ok n stream ->
  exists n', PushMessage pchMessageStart false now lockRecv m.1 (Some m.2) n = Some (n', true) /\ sender_ok n' (stream ++ frame pchMessageStart m).
Proof.
  intros Hm [Hss Hq]. destruct (fill_header m Hm) as (H1 & H2 & H3). unfold PushMessage, BeginMessage. rewrite bool_decide_eq_true_2 by done. cbn [negb option_bind mbind].
  unfold EndMessage. cbn [ssSend set_ssSend]. rewrite bool_decide_eq_false_2 by done. rewrite bool_decide_eq_true_2 by done. cbn [negb]. rewrite H3.
  pose proof (frame_length m) as Hf. set (n2 := set_ssSend [] _). assert (Hn2 : sender_ok n2 (stream ++ frame pchMessageStart m)).
  { destruct Hq as (Hne & Hoff & Hz & Hsk). split; [done|]. unfold queue_ok, n2. cbn [set_ssSend set_vSendMsg vSendMsg nSendOffset nSendSize hSocket]. split_and!.
    - apply Forall_app. split; [done|]. apply list.Forall_singleton. intros He. rewrite He in Hf. cbn in Hf. lia.
    - revert Hoff. destruct (vSendMsg n); [|done]. cbn [app]. lia.
    - rewrite Hz, concat_app, length_app. cbn [concat]. rewrite app_nil_r. lia.
    - intros s Hss'. rewrite <- (Hsk s Hss'), concat_app. cbn [concat]. rewrite app_nil_r, drop_app_le, app_assoc; [done|].
      revert Hoff. destruct (vSendMsg n); [cbn; lia|]. cbn [concat]. rewrite length_app. lia. }
  case_bool_decide; [|by exists n2]. destruct (SocketSendData_ok now lockRecv n2 _ Hn2) as (n3 & -> & Hn3). by exists n3.
Qed.
End Sending.

(** ** From node to node *)

Lemma all_bytes_pieces ls : all_bytes (concat ls) -> Forall all_bytes ls.
Proof. induction ls as [|l ls IH]; [done|]. cbn [concat]. intros [H1 H2]%all_bytes_app. constructor; auto. Qed.
Lemma filter_all_complete q : Forall complete q -> filter complete q = q.
Proof. induction 1 as [|m q Hm _ IH]; [done|]. rewrite filter_cons_True by done. by rewrite IH. Qed.

Section Delivery.
Context {K : Crypto} {N : Socket} {NL : SocketLaws N} (pchMessageStart : bytes) (Hstart : length pchMessageStart = 4%nat) (Hstartb : all_bytes pchMessageStart).

(** what a node does with its socket: it sends a message, or the socket can take bytes again *)
Inductive send_op := Push (m : message) (now : Z) (lockRecv : bool) | Ready (now : Z) (lockRecv : bool).
Definition pushed (o : send_op) : list message := match o with Push m _ _ => [m] | Ready _ _ => [] end.
Definition run_op (o : send_op) (n : CNode) : option CNode :=
  match o with
  | Push m now lockRecv => let? r := PushMessage pchMessageStart false now lockRecv m.1 (Some m.2) n in Some r.1
  | Ready now lockRecv => SocketSendData now lockRecv n
  end.
Fixpoint run_ops (ops : list send_op) (n : CNode) : option CNode := match ops with [] => Some n | o :: r => let? n := run_op o n in run_ops r n end.

Lemma run_ops_ok ops : forall n ms, Forall (fun o => Forall sendable (pushed o)) ops -> sender_ok n (concat (map (frame pchMessageStart) ms)) ->
  exists n', run_ops ops n = Some n' /\ sender_ok n' (concat (map (frame pchMessageStart) (ms ++ concat (map pushed ops)))).
Proof.
  induction ops as [|o ops IH]; intros n ms Ho Hn; [exists n; by rewrite app_nil_r|]. apply Forall_cons in Ho as [Ho Hops]. cbn [run_ops map concat].
  assert (H : exists n1, run_op o n = Some n1 /\ sender_ok n1 (concat (map (frame pchMessageStart) (ms ++ pushed o)))).
  { destruct o as [m now lk|now lk]; cbn [run_op pushed] in *.
    - rewrite list.Forall_singleton in Ho. destruct (PushMessage_ok pchMessageStart Hstart now lk m n _ Ho Hn) as (n1 & -> & H1). exists n1. split; [done|].
      rewrite map_app, concat_app. cbn [map concat]. by rewrite app_nil_r.
    - rewrite app_nil_r. by apply (SocketSendData_ok pchMessageStart Hstart). }
  destruct H as (n1 & -> & H1). cbn [option_bind mbind]. rewrite app_assoc. by apply IH.
Qed.

(** C22: Messages arrive as they were sent.  A node pushes messages in any order with any moments at which the socket can take bytes again, and
    the socket takes as much of what it is given as it likes: no assertion of the sender fails, and as long as the connection holds, another node that gets
    the bytes taken so far, cut into pieces in any way, rejects none of them; the messages it has received completely are a prefix of those
    that were pushed, with their commands and contents, each valid and with the right checksum; and when nothing is left to be sent they are all of
    them. *)
Theorem messages_delivered s0 ops : taken s0 = [] -> Forall (fun o => Forall sendable (pushed o)) ops ->
  exists n, run_ops ops (new_CNode s0) = Some n /\
    forall s chunks, hSocket n = Some s -> concat chunks = taken s ->
      exists q, receive_all pchMessageStart chunks [] = Some (true, q) /\ Forall (good pchMessageStart) (filter complete q) /\
        map contents (filter complete q) `prefix_of` concat (map pushed ops) /\
        (vSendMsg n = [] -> map contents (filter complete q) = concat (map pushed ops)).
Proof.
  intros H0 Hops. assert (Hinit : sender_ok (new_CNode s0) (concat (map (frame pchMessageStart) []))).
  { split; [done|]. split_and!; cbn; [done|lia|done|]. intros s [= <-]. by rewrite H0. }
  destruct (run_ops_ok ops _ [] Hops Hinit) as (n & Hrun & _ & Hne & Hoff & _ & Hs). exists n. split; [done|]. intros s chunks Hsock Hch.
  specialize (Hs s Hsock). cbn [app] in Hs. set (ms := concat (map pushed ops)) in *.
  assert (Hms : Forall sendable ms) by (apply Forall_concat, Forall_map; exact Hops).
  assert (Hall : all_bytes (concat (map (frame pchMessageStart) ms))).
  { apply all_bytes_concat, Forall_map. eapply Forall_impl; [exact Hms|]. intros m Hm. by apply frame_bytes. }
  pose proof (receive_frames pchMessageStart Hstart Hstartb ms [] Hms ltac:(done) ltac:(done)) as Hr. cbn [app] in Hr. rewrite <- Hs in Hr, Hall.
  apply all_bytes_app in Hall as [Ht Hu]. rewrite receive_app in Hr by done.
  destruct (ReceiveMsgBytes pchMessageStart (taken s) []) as [[[] q]|] eqn:Hq; [|done..]. exists q.
  assert (Hchunks : Forall all_bytes chunks) by (apply all_bytes_pieces; by rewrite Hch). rewrite receive_all_concat, Hch by done. split; [done|].
  destruct (receive_ok pchMessageStart _ _ _ (Forall_nil_2 _) Ht Hq) as [Hok _]. destruct (receive_ok pchMessageStart _ _ _ Hok Hu Hr) as [_ Hp].
  assert (Hgood : Forall (good pchMessageStart) (map (received pchMessageStart) ms) /\ map contents (map (received pchMessageStart) ms) = ms).
  { clear -Hms Hstart Hstartb. induction Hms as [|m r Hm _ [IH1 IH2]]; [done|]. destruct (received_good pchMessageStart Hstart m Hm) as [Hg Hc]. cbn [map]. by rewrite Hc, IH2; split; [constructor|]. }
  destruct Hgood as [Hg Hc]. rewrite (filter_all_complete (map (received pchMessageStart) ms)) in Hp by (eapply Forall_impl; [exact Hg|]; by intros m (-> & _)).
  split_and!.
  - destruct Hp as [t Ht']. rewrite Ht' in Hg. by apply Forall_app in Hg as [Hg _].
  - destruct Hp as [t Ht']. rewrite <- Hc, Ht', map_app. by eexists.
  - intros He. rewrite He in Hr, Hoff. replace (nSendOffset n) with 0%nat in Hr by lia. injection Hr as ->.
    rewrite filter_all_complete; [done|]. eapply Forall_impl; [exact Hg|]. by intros m (-> & _).
Qed.
End Delivery.

Section Dispatch.
Context {K : Crypto} {N : Socket} (pchMessageStart : bytes).
Context {W : Type} (SendBufferSize : Z) (ProcessGetData : CNode * W -> CNode * W) (ProcessMessage : bytes -> bytes -> CNode * W -> CNode * W).

(** complete and of this network, but with an error in the header or in the contents *)
Definition corrupt (m : CNetMessage) : Prop :=
  complete m = true /\ h_start (hdr m) = pchMessageStart /\
  (header_IsValid pchMessageStart (hdr m) = false \/ checksum (take (Z.to_nat (nMessageSize (hdr m))) (vRecv m)) <> nChecksum (hdr m)).
Lemma process_loop_corrupt bad : forall next k w, Forall corrupt bad -> fDisconnect w.1 = false -> nSendSize w.1 < SendBufferSize ->
  process_loop pchMessageStart SendBufferSize ProcessMessage (bad ++ next) k w =
  process_loop pchMessageStart SendBufferSize ProcessMessage next (k + length bad) w.
Proof.
  induction bad as [|b bad IH]; intros next k w Hb Hd Hs; [by rewrite Nat.add_0_r|]. apply Forall_cons in Hb as [(Hc & Hst & Hb) Hbad].
  cbn [app process_loop length]. rewrite Hd, (proj2 (Z.leb_gt _ _)), Hc, bool_decide_eq_true_2 by done. cbn [negb].
  replace (k + S (length bad))%nat with (S k + length bad)%nat by lia.
  destruct (header_IsValid pchMessageStart (hdr b)) eqn:Hv; cbn [negb]; [|by apply IH].
  destruct Hb as [Hb|Hb]; [done|]. rewrite (proj2 (Z.eqb_neq _ _)) by done. cbn [negb]. by apply IH.
Qed.

(** One call of the message loop hands on one message.  When no request waits to be answered, the peer is not being disconnected and the
    send buffer is not full, the corrupt messages at the front of the queue are thrown away without a trace; the first one that follows them is handed to the handler
    of its command and leaves the queue when it is good, stays where it is when it is incomplete, and ends the connection when it is of another
    network. *)
Theorem ProcessMessages_dispatch n w bad next : vRecvGetData n = [] -> fDisconnect n = false -> nSendSize n < SendBufferSize ->
  Forall corrupt bad -> vRecvMsg n = bad ++ next ->
  let erase k (w : CNode * W) := if fDisconnect w.1 then w else (set_vRecvMsg (drop k (vRecvMsg w.1)) w.1, w.2) in
  let r := ProcessMessages pchMessageStart SendBufferSize ProcessGetData ProcessMessage (n, w) in
  match next with
  | [] => r = (true, (set_vRecvMsg [] n, w))
  | m :: rest =>
    (complete m = false -> r = (true, (set_vRecvMsg (m :: rest) n, w))) /\
    (complete m = true -> h_start (hdr m) <> pchMessageStart -> r = (false, (set_vRecvMsg rest n, w))) /\
    (good pchMessageStart m -> r = (true, erase (S (length bad)) (ProcessMessage (contents m).1 (contents m).2 (n, w))))
  end.
Proof.
  intros Hg Hd Hs Hbad Hq erase r. unfold r, ProcessMessages. cbn [fst]. rewrite (bool_decide_eq_true_2 (vRecvGetData n = [])) by done. cbn [fst negb]. rewrite (bool_decide_eq_true_2 (vRecvGetData n = [])) by done. cbn [negb].
  rewrite Hq, process_loop_corrupt by done. destruct next as [|m rest]; cbn [process_loop fst snd Nat.add].
  - by rewrite Hd, Hq, app_nil_r, drop_ge by lia.
  - rewrite Hd, (proj2 (Z.leb_gt _ _)) by done. split_and!.
    + intros ->. cbn [negb fst snd]. by rewrite Hd, Hq, drop_app_length.
    + intros -> Hne. cbn [negb]. rewrite bool_decide_eq_false_2 by done. cbn [negb fst snd]. rewrite Hd, Hq.
      change (m :: rest) with ([m] ++ rest). by rewrite (app_assoc bad [m] rest), drop_app_length' by (rewrite length_app; cbn; lia).
    + intros (-> & Hv & Hk). assert (Hst : h_start (hdr m) = pchMessageStart) by (unfold header_IsValid in Hv; case_bool_decide; done).
      rewrite (bool_decide_eq_true_2 _ Hst), Hv, Hk, Z.eqb_refl. cbn [negb]. done.
Qed.
End Dispatch.

(** ** A socket that takes a few bytes at a time *)

#[export] Instance ToySocket : Socket := {|
  SOCKET := list nat * bytes;
  send s data := match s, data with
    | (k :: r, t), _ :: _ => if bool_decide (k = 0)%nat then (WouldBlock, (r, t)) else (Sent (Nat.min k (length data)), (r, t ++ take k data))
    | ([], t), _ :: _ => (SendError, ([], t))
    | (l, t), [] => (WouldBlock, (l, t))
    end;
  taken := snd;
|}.
#[export] Instance ToySocket_laws : SocketLaws ToySocket.
Proof.
  split.
  - intros [[|k r] t] [|b data] n s'; cbn -[take Nat.min]; [done..|]. case_bool_decide; [done|]. intros [= <- <-]. cbn [snd length].
    split; [lia|]. f_equal. destruct (decide (k <= S (length data))%nat); [by rewrite Nat.min_l by lia|]. rewrite Nat.min_r by lia. by rewrite !take_ge by (cbn; lia).
  - intros [[|k r] t] [|b data] res s'; cbn -[take Nat.min]; try (by intros [= <- <-]). case_bool_decide; [by intros [= <- <-]|]. intros [= <- <-] Hn. by destruct (Hn (Nat.min k (S (length data)))).
Qed.
Definition demo_magic : bytes := [0xe4; 0xe7; 0xe5; 0xe7].
Definition demo_ops : list send_op :=
  [Push ([112; 105; 110; 103], [1; 2; 3]) 100 true; Push ([118; 101; 114; 97; 99; 107], []) 101 true; Ready 102 false; Ready 103 true].
Definition demo_socket : SOCKET := ([10; 0; 17; 24; 100]%nat, []).
Lemma demo_ops_sendable : Forall (fun o => Forall sendable (pushed o)) demo_ops.
Proof. repeat constructor; cbn; try lia; try done. Qed.
Lemma messages_delivered_witness : exists n, run_ops (K := ToyCrypto) demo_magic demo_ops (new_CNode demo_socket) = Some n /\
    forall s chunks, hSocket n = Some s -> concat chunks = taken s ->
      exists q, receive_all demo_magic chunks [] = Some (true, q) /\ Forall (good demo_magic) (filter complete q) /\
        map contents (filter complete q) `prefix_of` concat (map pushed demo_ops) /\
        (vSendMsg n = [] -> map contents (filter complete q) = concat (map pushed demo_ops)).
Proof. exact (messages_delivered (K := ToyCrypto) (NL := ToySocket_laws) demo_magic eq_refl (all_bytes_dec demo_magic eq_refl) demo_socket demo_ops eq_refl demo_ops_sendable). Defined.
(** in this run everything is sent *)
Example demo_all_sent : option_map (fun n => (vSendMsg n, nSendSize n)) (run_ops (K := ToyCrypto) demo_magic demo_ops (new_CNode demo_socket)) = Some ([], 0).
Proof. vm_compute. reflexivity. Qed.
Definition demo_node : CNode := set_vRecvMsg [received (K := ToyCrypto) demo_magic ([112; 105; 110; 103], [1; 2; 3]); new_message demo_magic] (new_CNode demo_socket).
Lemma ProcessMessages_dispatch_witness :
  ProcessMessages (K := ToyCrypto) (W := list message) demo_magic 1000000 (fun w => w) (fun c d w => (w.1, w.2 ++ [(c, d)])) (demo_node, []) =
  (true, (set_vRecvMsg [new_message demo_magic] demo_node, [([112; 105; 110; 103], [1; 2; 3])])).
Proof.
  pose proof (ProcessMessages_dispatch (K := ToyCrypto) (W := list message) demo_magic 1000000 (fun w => w) (fun c d w => (w.1, w.2 ++ [(c, d)])) demo_node [] [] (vRecvMsg demo_node)
    eq_refl eq_refl eq_refl (List.Forall_nil _) eq_refl) as (_ & _ & H).
  apply H. split_and!; vm_compute; reflexivity.
Defined.
