(* ===== verification/AddrMan.v ===== *)
(** * The address manager (network_peer_manager.h, network_peer_manager.cpp)

    [NetworkPeerManager]: the addresses of peers, those that were never connected to ("new", each in up to four of 256 buckets) and those that were
    ("tried", each in one of 64 buckets), with an index by address and a vector in random order.  The random numbers are a
    sequence [rand] of which the manager has drawn the first [drawn]; the adjusted time is an argument.  A failed assertion is [None], and so is
    the use of an entry that is not in the map, which [operator[]] would create.  The chance of an entry in [Select_] is computed in floating point:
    whether the test passes is an argument.  The property: every operation keeps the tables consistent, and no assertion fails. *)

From stdpp Require Import gmap sorting.
From S2P Require Import Prelude Serialize Crypto NetAddr.
Local Open Scope Z_scope.

Definition TRIED_BUCKET_COUNT : Z := 64.
Definition TRIED_BUCKET_SIZE : Z := 64.
Definition NEW_BUCKET_COUNT : Z := 256.
Definition NEW_BUCKET_SIZE : Z := 64.
Definition TRIED_BUCKETS_PER_GROUP : Z := 4.
Definition NEW_BUCKETS_PER_SOURCE_GROUP : Z := 32.
Definition NEW_BUCKETS_PER_ADDRESS : Z := 4.
Definition TRIED_ENTRIES_INSPECT_ON_EVICT : nat := 4.
Definition HORIZON_DAYS : Z := 30.
Definition RETRIES : Z := 3.
Definition MAX_FAILURES : Z := 10.
Definition MIN_FAIL_DAYS : Z := 7.
Definition GETADDR_MAX_PCT : Z := 23.
Definition GETADDR_MAX : Z := 2500.

Record NetworkPeerManager := {
  nKey : bytes; nIdCount : Z; mapNetworkPeer : gmap Z NetworkPeer; mapAddr : gmap CNetAddr Z; vRandom : list Z;
  nTried : Z; vvTried : list (list Z); nNew : Z; vvNew : list (gset Z); drawn : nat;
}.
Definition new_manager (key : bytes) : NetworkPeerManager :=
  {| nKey := key; nIdCount := 0; mapNetworkPeer := ∅; mapAddr := ∅; vRandom := []; nTried := 0; vvTried := replicate (Z.to_nat TRIED_BUCKET_COUNT) [];
     nNew := 0; vvNew := replicate (Z.to_nat NEW_BUCKET_COUNT) ∅; drawn := 0 |}.

(** ** Entries *)

Definition peer_ip (p : NetworkPeer) : CNetAddr := s_ip (a_service (np_addr p)).
Definition peer_with (t lt : Z) (services : Z) (succ att : Z) (p : NetworkPeer) : NetworkPeer :=
  {| np_addr := {| a_service := a_service (np_addr p); nServices := services; a_nTime := t; nLastTry := lt |};
     source := source p; nLastSuccess := succ; nAttempts := att; nRefCount := nRefCount p; fInTried := fInTried p; nRandomPos := nRandomPos p |}.
Definition set_nTime (t : Z) (p : NetworkPeer) : NetworkPeer := peer_with t (nLastTry (np_addr p)) (nServices (np_addr p)) (nLastSuccess p) (nAttempts p) p.
Definition add_services (s : Z) (p : NetworkPeer) : NetworkPeer :=
  peer_with (a_nTime (np_addr p)) (nLastTry (np_addr p)) (Z.lor (nServices (np_addr p)) s) (nLastSuccess p) (nAttempts p) p.
Definition set_place (ref : Z) (tried : bool) (pos : Z) (p : NetworkPeer) : NetworkPeer :=
  {| np_addr := np_addr p; source := source p; nLastSuccess := nLastSuccess p; nAttempts := nAttempts p; nRefCount := ref; fInTried := tried; nRandomPos := pos |}.
Definition set_nRefCount (ref : Z) (p : NetworkPeer) : NetworkPeer := set_place ref (fInTried p) (nRandomPos p) p.
Definition set_nRandomPos (pos : Z) (p : NetworkPeer) : NetworkPeer := set_place (nRefCount p) (fInTried p) pos p.

Definition IsTerrible (p : NetworkPeer) (nNow : Z) : bool :=
  let a := np_addr p in
  if negb (nLastTry a =? 0) && (nNow - 60 <=? nLastTry a) then false
  else if nNow + 10 * 60 <? a_nTime a then true
  else if (a_nTime a =? 0) || (HORIZON_DAYS * 86400 <? nNow - a_nTime a) then true
  else if (nLastSuccess p =? 0) && (RETRIES <=? nAttempts p) then true
  else if (MIN_FAIL_DAYS * 86400 <? nNow - nLastSuccess p) && (MAX_FAILURES <=? nAttempts p) then true
  else false.

Section Buckets.
Context {K : Crypto}.
Definition hash64 (data : bytes) : Z := Hash data mod 2 ^ 64.
Definition tried_bucket (s : CService) (key : bytes) : Z :=
  let hash1 := hash64 (Serialize ser_vch key ++ Serialize ser_vch (service_GetKey s)) in
  let hash2 := hash64 (Serialize ser_vch key ++ Serialize ser_vch (GetGroup (s_ip s)) ++ le_bytes 8 (hash1 mod TRIED_BUCKETS_PER_GROUP)) in
  hash2 mod TRIED_BUCKET_COUNT.
Definition GetTriedBucket (p : NetworkPeer) (key : bytes) : Z := tried_bucket (a_service (np_addr p)) key.
Definition GetNewBucket (p : NetworkPeer) (key : bytes) (src : CNetAddr) : Z :=
  let hash1 := hash64 (Serialize ser_vch key ++ Serialize ser_vch (GetGroup (peer_ip p)) ++ Serialize ser_vch (GetGroup src)) in
  let hash2 := hash64 (Serialize ser_vch key ++ Serialize ser_vch (GetGroup src) ++ le_bytes 8 (hash1 mod NEW_BUCKETS_PER_SOURCE_GROUP)) in
  hash2 mod NEW_BUCKET_COUNT.
End Buckets.

(** ** The manager *)

Section Manager.
Context {K : Crypto} (rand : nat -> Z).
Abbreviation manager := NetworkPeerManager.

Definition set_peers (f : gmap Z NetworkPeer -> gmap Z NetworkPeer) (m : manager) : manager :=
  {| nKey := nKey m; nIdCount := nIdCount m; mapNetworkPeer := f (mapNetworkPeer m); mapAddr := mapAddr m; vRandom := vRandom m;
     nTried := nTried m; vvTried := vvTried m; nNew := nNew m; vvNew := vvNew m; drawn := drawn m |}.
Definition set_index (a : gmap CNetAddr Z) (r : list Z) (m : manager) : manager :=
  {| nKey := nKey m; nIdCount := nIdCount m; mapNetworkPeer := mapNetworkPeer m; mapAddr := a; vRandom := r;
     nTried := nTried m; vvTried := vvTried m; nNew := nNew m; vvNew := vvNew m; drawn := drawn m |}.
Definition set_tried (n : Z) (v : list (list Z)) (m : manager) : manager :=
  {| nKey := nKey m; nIdCount := nIdCount m; mapNetworkPeer := mapNetworkPeer m; mapAddr := mapAddr m; vRandom := vRandom m;
     nTried := n; vvTried := v; nNew := nNew m; vvNew := vvNew m; drawn := drawn m |}.
Definition set_new (n : Z) (v : list (gset Z)) (m : manager) : manager :=
  {| nKey := nKey m; nIdCount := nIdCount m; mapNetworkPeer := mapNetworkPeer m; mapAddr := mapAddr m; vRandom := vRandom m;
     nTried := nTried m; vvTried := vvTried m; nNew := n; vvNew := v; drawn := drawn m |}.
(** a number below [nMax] (0 when it is 0), and one number more drawn *)
Definition GetRandInt (nMax : Z) (m : manager) : Z * manager :=
  (if nMax =? 0 then 0 else rand (drawn m) mod nMax,
   {| nKey := nKey m; nIdCount := nIdCount m; mapNetworkPeer := mapNetworkPeer m; mapAddr := mapAddr m; vRandom := vRandom m;
      nTried := nTried m; vvTried := vvTried m; nNew := nNew m; vvNew := vvNew m; drawn := S (drawn m) |}).
Definition update_peer (id : Z) (f : NetworkPeer -> NetworkPeer) : manager -> manager := set_peers (alter f id).
Definition nth_bucket {A} (b : Z) (v : list A) : option A := if b <? 0 then None else v !! Z.to_nat b.

Definition Find (addr : CNetAddr) (m : manager) : option (Z * NetworkPeer) :=
  let? id := mapAddr m !! addr in let? p := mapNetworkPeer m !! id in Some (id, p).
Definition Create (addr : CAddress) (addrSource : CNetAddr) (m : manager) : Z * manager :=
  let nId := nIdCount m in
  (nId, {| nKey := nKey m; nIdCount := nId + 1;
           mapNetworkPeer := <[nId := set_nRandomPos (Z.of_nat (length (vRandom m))) (new_NetworkPeer addr addrSource)]> (mapNetworkPeer m);
           mapAddr := <[s_ip (a_service addr) := nId]> (mapAddr m); vRandom := vRandom m ++ [nId];
           nTried := nTried m; vvTried := vvTried m; nNew := nNew m; vvNew := vvNew m; drawn := drawn m |}).
Definition SwapRandom (nRndPos1 nRndPos2 : Z) (m : manager) : option manager :=
  if nRndPos1 =? nRndPos2 then Some m
  else
    let? nId1 := nth_bucket nRndPos1 (vRandom m) in
    let? nId2 := nth_bucket nRndPos2 (vRandom m) in
    if negb (bool_decide (is_Some (mapNetworkPeer m !! nId1)) && bool_decide (is_Some (mapNetworkPeer m !! nId2))) then None
    else
      let m := update_peer nId2 (set_nRandomPos nRndPos1) (update_peer nId1 (set_nRandomPos nRndPos2) m) in
      Some (set_index (mapAddr m) (<[Z.to_nat nRndPos2 := nId1]> (<[Z.to_nat nRndPos1 := nId2]> (vRandom m))) m).

(** ** Eviction from a tried bucket *)

(** from the [i]-th element on, [fuel] more of them; [nOldest] is -1 before the first one.  The position of the oldest and the shuffled bucket *)
Fixpoint select_tried (fuel : nat) (i : nat) (vTried : list Z) (nOldest nOldestPos : Z) (m : manager) : option (Z * list Z * manager) :=
  match fuel with
  | O => Some (nOldestPos, vTried, m)
  | S f =>
    if bool_decide (i < length vTried)%nat then
      let '(r, m) := GetRandInt (Z.of_nat (length vTried) - Z.of_nat i) m in
      let nPos := (Z.to_nat r + i)%nat in
      let? nTemp := vTried !! nPos in
      let? vi := vTried !! i in
      let vTried := <[i := nTemp]> (<[nPos := vi]> vTried) in
      if nOldest =? -1 then select_tried f (S i) vTried nTemp (Z.of_nat nPos) m
      else
        let? p := mapNetworkPeer m !! nTemp in
        let? q := mapNetworkPeer m !! nOldest in
        if nLastSuccess p <? nLastSuccess q then select_tried f (S i) vTried nTemp (Z.of_nat nPos) m
        else select_tried f (S i) vTried nOldest nOldestPos m
    else Some (nOldestPos, vTried, m)
  end.
Definition SelectTried (nKBucket : Z) (m : manager) : option (Z * manager) :=
  let? vTried := nth_bucket nKBucket (vvTried m) in
  let? r := select_tried TRIED_ENTRIES_INSPECT_ON_EVICT 0 vTried (-1) (-1) m in
  let '(nOldestPos, vTried, m) := r in
  Some (nOldestPos, set_tried (nTried m) (<[Z.to_nat nKBucket := vTried]> (vvTried m)) m).

(** ** Removal from a new bucket *)

Definition ordered (s : gset Z) : list Z := merge_sort Z.le (elements s).
(** one reference less; the last one takes the entry with it *)
Definition drop_reference (id : Z) (m : manager) : option manager :=
  let? p := mapNetworkPeer m !! id in
  let m := update_peer id (set_nRefCount (nRefCount p - 1)) m in
  if negb (nRefCount p - 1 =? 0) then Some m
  else
    let? m := SwapRandom (nRandomPos p) (Z.of_nat (length (vRandom m)) - 1) m in
    let m := set_peers (delete id) (set_index (delete (peer_ip p) (mapAddr m)) (removelast (vRandom m)) m) in
    Some (set_new (nNew m - 1) (vvNew m) m).
Fixpoint first_terrible (ids : list Z) (now : Z) (m : manager) : option (option Z) :=
  match ids with
  | [] => Some None
  | id :: r => let? p := mapNetworkPeer m !! id in if IsTerrible p now then Some (Some id) else first_terrible r now m
  end.
Fixpoint oldest_of (ids : list Z) (nOldest : Z) (m : manager) : option Z :=
  match ids with
  | [] => Some nOldest
  | id :: r =>
    if nOldest =? -1 then oldest_of r id m
    else
      let? p := mapNetworkPeer m !! id in
      let? q := mapNetworkPeer m !! nOldest in
      oldest_of r (if a_nTime (np_addr p) <? a_nTime (np_addr q) then id else nOldest) m
  end.
(** the elements of [vNew] whose index is among the numbers [n] *)
Definition chosen (n : list Z) (ids : list Z) : list Z := omap (fun '(i, id) => if bool_decide (Z.of_nat i ∈ n) then Some id else None) (imap pair ids).
Definition ShrinkNew (nUBucket : Z) (now : Z) (m : manager) : option (Z * manager) :=
  let? vNew := nth_bucket nUBucket (vvNew m) in
  let? t := first_terrible (ordered vNew) now m in
  match t with
  | Some id =>
    let? m := drop_reference id m in
    Some (0, set_new (nNew m) (<[Z.to_nat nUBucket := vNew ∖ {[id]}]> (vvNew m)) m)
  | None =>
    let size := Z.of_nat (length (ordered vNew)) in
    let '(n0, m) := GetRandInt size m in let '(n1, m) := GetRandInt size m in let '(n2, m) := GetRandInt size m in let '(n3, m) := GetRandInt size m in
    let? nOldest := oldest_of (chosen [n0; n1; n2; n3] (ordered vNew)) (-1) m in
    let? m := drop_reference nOldest m in
    Some (1, set_new (nNew m) (<[Z.to_nat nUBucket := vNew ∖ {[nOldest]}]> (vvNew m)) m)
  end.

(** ** The operations *)

(** the buckets without [nId], and how many of them held it *)
Fixpoint erase_all (nId : Z) (v : list (gset Z)) : list (gset Z) * Z :=
  match v with
  | [] => ([], 0)
  | s :: r => let '(r, k) := erase_all nId r in (s ∖ {[nId]} :: r, if bool_decide (nId ∈ s) then k + 1 else k)
  end.
Definition MakeTried (nId nOrigin : Z) (m : manager) : option manager :=
  let? o := nth_bucket nOrigin (vvNew m) in
  if negb (bool_decide (nId ∈ o)) then None
  else
    let? p := mapNetworkPeer m !! nId in
    let '(vv, k) := erase_all nId (vvNew m) in
    let m := update_peer nId (set_nRefCount (nRefCount p - k)) (set_new (nNew m - 1) vv m) in
    if negb (nRefCount p - k =? 0) then None
    else
      let nKBucket := GetTriedBucket p (nKey m) in
      let? vTried := nth_bucket nKBucket (vvTried m) in
      if Z.of_nat (length vTried) <? TRIED_BUCKET_SIZE then
        Some (update_peer nId (fun p => set_place (nRefCount p) true (nRandomPos p) p) (set_tried (nTried m + 1) (<[Z.to_nat nKBucket := vTried ++ [nId]]> (vvTried m)) m))
      else
        let? r := SelectTried nKBucket m in
        let '(nPos, m) := r in
        let? vTried := nth_bucket nKBucket (vvTried m) in
        let? old := nth_bucket nPos vTried in
        let? oldp := mapNetworkPeer m !! old in
        let nUBucket := GetNewBucket oldp (nKey m) (source oldp) in
        let? vNew := nth_bucket nUBucket (vvNew m) in
        let m := update_peer old (fun p => set_place 1 false (nRandomPos p) p) m in
        let? m :=
          if Z.of_nat (size vNew) <? NEW_BUCKET_SIZE then Some (set_new (nNew m) (<[Z.to_nat nUBucket := {[old]} ∪ vNew]> (vvNew m)) m)
          else let? o := nth_bucket nOrigin (vvNew m) in Some (set_new (nNew m) (<[Z.to_nat nOrigin := {[old]} ∪ o]> (vvNew m)) m) in
        let m := set_new (nNew m + 1) (vvNew m) m in
        Some (update_peer nId (fun p => set_place (nRefCount p) true (nRandomPos p) p) (set_tried (nTried m) (<[Z.to_nat nKBucket := <[Z.to_nat nPos := nId]> vTried]> (vvTried m)) m)).

(** the first bucket from [nB] on that holds [nId] *)
Fixpoint find_bucket (fuel : nat) (n nRnd nId : Z) (v : list (gset Z)) : Z :=
  match fuel with
  | O => -1
  | S f =>
    let nB := (n + nRnd) mod Z.of_nat (length v) in
    match v !! Z.to_nat nB with
    | Some s => if bool_decide (nId ∈ s) then nB else find_bucket f (n + 1) nRnd nId v
    | None => find_bucket f (n + 1) nRnd nId v
    end
  end.
Definition Good_ (addr : CService) (nTime : Z) (m : manager) : option manager :=
  match Find (s_ip addr) m with
  | None => Some m
  | Some (nId, p) =>
    if negb (bool_decide (a_service (np_addr p) = addr)) then Some m
    else
      let m := update_peer nId (peer_with (u32 nTime) nTime (nServices (np_addr p)) nTime 0) m in
      if fInTried p then Some m
      else
        let '(nRnd, m) := GetRandInt (Z.of_nat (length (vvNew m))) m in
        let nUBucket := find_bucket (length (vvNew m)) 0 nRnd nId (vvNew m) in
        if nUBucket =? -1 then Some m else MakeTried nId nUBucket m
  end.

(** [fNew] and the entry to be put into a new bucket, if any; [now] is the adjusted time *)
Definition found_again (addr : CAddress) (nTimePenalty now : Z) (nId : Z) (p : NetworkPeer) (m : manager) : bool * manager :=
  let fCurrentlyOnline := now - a_nTime addr <? 24 * 60 * 60 in
  let nUpdateInterval := if fCurrentlyOnline then 60 * 60 else 24 * 60 * 60 in
  let p := if negb (a_nTime addr =? 0) && ((a_nTime (np_addr p) =? 0) || (a_nTime (np_addr p) <? a_nTime addr - nUpdateInterval - nTimePenalty))
           then set_nTime (u32 (Z.max 0 (a_nTime addr - nTimePenalty))) p else p in
  let p := add_services (nServices addr) p in
  let m := update_peer nId (fun _ => p) m in
  if (a_nTime addr =? 0) || (negb (a_nTime (np_addr p) =? 0) && (a_nTime addr <=? a_nTime (np_addr p))) then (false, m)
  else if fInTried p then (false, m)
  else if nRefCount p =? NEW_BUCKETS_PER_ADDRESS then (false, m)
  else
    let nFactor := Z.shiftl 1 (nRefCount p) in
    if 1 <? nFactor then let '(r, m) := GetRandInt nFactor m in (r =? 0, m) else (true, m).
Definition Add_ (addr : CAddress) (src : CNetAddr) (nTimePenalty now : Z) (m : manager) : option (bool * manager) :=
  if negb (IsRoutable (s_ip (a_service addr))) then Some (false, m)
  else
    let '(go, fNew, nId, m) :=
      match Find (s_ip (a_service addr)) m with
      | Some (nId, p) => let '(go, m) := found_again addr nTimePenalty now nId p m in (go, false, nId, m)
      | None =>
        let '(nId, m) := Create addr src m in
        let m := update_peer nId (fun p => set_nTime (u32 (Z.max 0 (a_nTime (np_addr p) - nTimePenalty))) p) m in
        (true, true, nId, set_new (nNew m + 1) (vvNew m) m)
      end in
    if negb go then Some (false, m)
    else
      let? p := mapNetworkPeer m !! nId in
      let nUBucket := GetNewBucket p (nKey m) src in
      let? vNew := nth_bucket nUBucket (vvNew m) in
      if bool_decide (nId ∈ vNew) then Some (fNew, m)
      else
        let m := update_peer nId (fun p => set_nRefCount (nRefCount p + 1) p) m in
        let? m := if Z.of_nat (size vNew) =? NEW_BUCKET_SIZE then let? r := ShrinkNew nUBucket now m in Some r.2 else Some m in
        let? vNew := nth_bucket nUBucket (vvNew m) in
        Some (fNew, set_new (nNew m) (<[Z.to_nat nUBucket := {[nId]} ∪ vNew]> (vvNew m)) m).
Fixpoint Add_all (vAddr : list CAddress) (src : CNetAddr) (nTimePenalty now : Z) (m : manager) : option (Z * manager) :=
  match vAddr with
  | [] => Some (0, m)
  | a :: r => let? x := Add_ a src nTimePenalty now m in let? y := Add_all r src nTimePenalty now x.2 in Some ((if x.1 then 1 else 0) + y.1, y.2)
  end.
Definition Attempt_ (addr : CService) (nTime : Z) (m : manager) : manager :=
  match Find (s_ip addr) m with
  | None => m
  | Some (nId, p) =>
    if negb (bool_decide (a_service (np_addr p) = addr)) then m
    else update_peer nId (fun p => peer_with (a_nTime (np_addr p)) nTime (nServices (np_addr p)) (nLastSuccess p) (nAttempts p + 1) p) m
  end.
Definition Connected_ (addr : CService) (nTime : Z) (m : manager) : manager :=
  match Find (s_ip addr) m with
  | None => m
  | Some (nId, p) =>
    if negb (bool_decide (a_service (np_addr p) = addr)) then m
    else if 20 * 60 <? nTime - a_nTime (np_addr p) then update_peer nId (set_nTime (u32 nTime)) m else m
  end.
Fixpoint getaddr_loop (fuel : nat) (n : Z) (vAddr : list CAddress) (m : manager) : option (list CAddress * manager) :=
  match fuel with
  | O => Some (vAddr, m)
  | S f =>
    let '(r, m) := GetRandInt (Z.of_nat (length (vRandom m)) - n) m in
    let? m := SwapRandom n (r + n) m in
    let? id := nth_bucket n (vRandom m) in
    let? p := mapNetworkPeer m !! id in
    getaddr_loop f (n + 1) (vAddr ++ [np_addr p]) m
  end.
Definition GetAddr_ (m : manager) : option (list CAddress * manager) :=
  let nNodes := Z.min GETADDR_MAX (GETADDR_MAX_PCT * Z.of_nat (length (vRandom m)) / 100) in
  getaddr_loop (Z.to_nat nNodes) 0 [] m.

(** [fTried]: the tables were chosen; [accept n]: the [n]-th entry passes the test of its chance.  [None]: the loop has not ended *)
Fixpoint select_loop (fuel n : nat) (fTried : bool) (accept : nat -> bool) (m : manager) : option (CAddress * manager) :=
  match fuel with
  | O => None
  | S f =>
    let buckets := if fTried then vvTried m else map ordered (vvNew m) in
    let '(b, m) := GetRandInt (Z.of_nat (length buckets)) m in
    let? v := nth_bucket b buckets in
    if bool_decide (v = []) then select_loop f n fTried accept m
    else
      let '(nPos, m) := GetRandInt (Z.of_nat (length v)) m in
      let? id := nth_bucket nPos v in
      let? p := mapNetworkPeer m !! id in
      if accept n then Some (np_addr p, m) else select_loop f (S n) fTried accept m
  end.
Definition Select_ (fuel : nat) (fTried : bool) (accept : nat -> bool) (m : manager) : option (CAddress * manager) :=
  if bool_decide (vRandom m = []) then Some (address_Init service_Init, m) else select_loop fuel 0 fTried accept m.
End Manager.

(** ** The tables *)

(** the index: addresses and positions of the entries, [mapAddr], [vRandom] and the next identifier *)
Record index_ok (M : gmap Z (CNetAddr * Z)) (A : gmap CNetAddr Z) (R : list Z) (n : Z) : Prop := {
  index_addr : forall ip id, A !! ip = Some id <-> exists pos, M !! id = Some (ip, pos);
  index_pos : forall id ip pos, M !! id = Some (ip, pos) -> 0 <= id < n /\ 0 <= pos /\ R !! Z.to_nat pos = Some id;
  index_random : forall i id, R !! i = Some id -> exists ip, M !! id = Some (ip, Z.of_nat i);
}.

Lemma index_create M A R n ip : index_ok M A R n -> 0 <= n -> A !! ip = None ->
  index_ok (<[n := (ip, Z.of_nat (length R))]> M) (<[ip := n]> A) (R ++ [n]) (n + 1).
Proof.
  intros [Ha Hp Hr] Hn Hip. assert (Hfresh : M !! n = None).
  { destruct (M !! n) as [[ip' pos]|] eqn:E; [|done]. apply Hp in E. lia. }
  split.
  - intros ip' id. destruct (decide (ip' = ip)) as [->|Hne].
    + rewrite lookup_insert_eq. split; [intros [= <-]; exists (Z.of_nat (length R)); by rewrite lookup_insert_eq|].
      intros [pos H]. destruct (decide (id = n)) as [->|Hid]; [done|]. rewrite lookup_insert_ne in H by done.
      assert (A !! ip = Some id) by (apply Ha; eauto). congruence.
    + rewrite lookup_insert_ne by done. rewrite Ha. destruct (decide (id = n)) as [->|Hid].
      * rewrite Hfresh, lookup_insert_eq. split; [by intros [? ?]|intros [? [= ? ?]]; congruence].
      * by rewrite lookup_insert_ne by done.
  - intros id ip' pos H. destruct (decide (id = n)) as [->|Hid].
    + rewrite lookup_insert_eq in H. injection H as <- <-. rewrite Nat2Z.id. split_and!; try lia. by rewrite lookup_app_r, Nat.sub_diag by lia.
    + rewrite lookup_insert_ne in H by done. destruct (Hp _ _ _ H) as (H1 & H2 & H3). split_and!; try lia. by apply lookup_app_l_Some.
  - intros i id H. apply lookup_app_Some in H as [H|[Hi H]].
    + destruct (Hr _ _ H) as [ip' H']. exists ip'. rewrite lookup_insert_ne; [done|congruence].
    + apply list_lookup_singleton_Some in H as [Hi' <-]. exists ip. rewrite lookup_insert_eq. do 2 f_equal. lia.
Qed.

Definition move_to (pos : Z) (x : CNetAddr * Z) : CNetAddr * Z := (x.1, pos).
Lemma index_swap M A R n i j a b : index_ok M A R n -> R !! i = Some a -> R !! j = Some b -> i <> j ->
  index_ok (alter (move_to (Z.of_nat i)) b (alter (move_to (Z.of_nat j)) a M)) A (<[j := a]> (<[i := b]> R)) n.
Proof.
  intros [Ha Hp Hr] Hi Hj Hij. destruct (Hr _ _ Hi) as [ipa Hma]. destruct (Hr _ _ Hj) as [ipb Hmb].
  assert (Hab : a <> b). { intros ->. rewrite Hma in Hmb. injection Hmb as _ ?. lia. }
  assert (HM : forall id, alter (move_to (Z.of_nat i)) b (alter (move_to (Z.of_nat j)) a M) !! id =
    if decide (id = a) then Some (ipa, Z.of_nat j) else if decide (id = b) then Some (ipb, Z.of_nat i) else M !! id).
  { intros id. destruct (decide (id = a)) as [->|Hna]; [by rewrite lookup_alter_ne, lookup_alter_eq, Hma by done|].
    destruct (decide (id = b)) as [->|Hnb]; [by rewrite lookup_alter_eq, lookup_alter_ne, Hmb by done|]. by rewrite !lookup_alter_ne by done. }
  pose proof (lookup_lt_Some _ _ _ Hi). pose proof (lookup_lt_Some _ _ _ Hj). split.
  - intros ip id. rewrite Ha, HM. destruct (decide (id = a)) as [->|Hna]; [rewrite Hma; split; intros [? [= <- <-]]; eauto|].
    destruct (decide (id = b)) as [->|Hnb]; [rewrite Hmb; split; intros [? [= <- <-]]; eauto|done].
  - intros id ip pos. rewrite HM. destruct (decide (id = a)) as [->|Hna].
    + intros [= <- <-]. destruct (Hp _ _ _ Hma) as [? _]. split_and!; try lia. rewrite Nat2Z.id, list_lookup_insert_eq; [done|]. by rewrite length_insert.
    + destruct (decide (id = b)) as [->|Hnb].
      * intros [= <- <-]. destruct (Hp _ _ _ Hmb) as [? _]. split_and!; try lia. rewrite Nat2Z.id, list_lookup_insert_ne, list_lookup_insert_eq by done. done.
      * intros H1. destruct (Hp _ _ _ H1) as (? & ? & H2). split_and!; try lia. rewrite !list_lookup_insert_ne; [done|congruence..].
  - intros k id H1. destruct (decide (k = j)) as [->|Hkj].
    + rewrite list_lookup_insert_eq in H1 by (by rewrite length_insert). injection H1 as <-. exists ipa. by rewrite HM, decide_True by done.
    + rewrite list_lookup_insert_ne in H1 by done. destruct (decide (k = i)) as [->|Hki].
      * rewrite list_lookup_insert_eq in H1 by done. injection H1 as <-. exists ipb. by rewrite HM, decide_False, decide_True by done.
      * rewrite list_lookup_insert_ne in H1 by done. destruct (Hr _ _ H1) as [ip H2]. exists ip. rewrite HM, !decide_False; [done|..]; intros ->; rewrite ?Hma, ?Hmb in H2; injection H2 as _ ?; lia.
Qed.
Lemma index_pop M A R n id ip pos : index_ok M A (R ++ [id]) n -> M !! id = Some (ip, pos) -> index_ok (delete id M) (delete ip A) R n.
Proof.
  intros [Ha Hp Hr] Hid. assert (Hpos : pos = Z.of_nat (length R)).
  { destruct (Hr (length R) id) as [ip' H]; [by rewrite lookup_app_r, Nat.sub_diag by lia|]. congruence. }
  split.
  - intros ip' id'. destruct (decide (ip' = ip)) as [->|Hne].
    + rewrite lookup_delete_eq. split; [done|]. intros [pos' H]. apply lookup_delete_Some in H as [Hne H].
      assert (A !! ip = Some id') by (apply Ha; eauto). assert (A !! ip = Some id) by (apply Ha; eauto). congruence.
    + rewrite lookup_delete_ne, Ha by done. destruct (decide (id' = id)) as [->|Hne']; [|by rewrite lookup_delete_ne by done].
      rewrite lookup_delete_eq. split; [intros [? ?]; congruence|by intros [? ?]].
  - intros id' ip' pos' H. apply lookup_delete_Some in H as [Hne H]. destruct (Hp _ _ _ H) as (H1 & H2 & H3). split_and!; try lia.
    apply lookup_app_Some in H3 as [H3|[Hl H3]]; [done|]. apply list_lookup_singleton_Some in H3 as [_ H3]. congruence.
  - intros i id' H. destruct (Hr i id') as [ip' H']; [by apply lookup_app_l_Some|]. exists ip'. rewrite lookup_delete_ne; [done|]. intros <-.
    apply lookup_lt_Some in H. rewrite Hid in H'. injection H' as _ ?. lia.
Qed.

Section Tables.
Context {K : Crypto}.

(** the tried buckets: every entry that is marked is in its bucket and nowhere else *)
Record tried_ok (M : gmap Z (CService * bool)) (V : list (list Z)) (key : bytes) (nT : Z) : Prop := {
  tried_length : length V = Z.to_nat TRIED_BUCKET_COUNT;
  tried_nodup : forall b v, V !! b = Some v -> NoDup v /\ Z.of_nat (length v) <= TRIED_BUCKET_SIZE;
  tried_elem : forall b v id, V !! b = Some v -> id ∈ v <-> exists s, M !! id = Some (s, true) /\ tried_bucket s key = Z.of_nat b;
  tried_count : nT = Z.of_nat (length (concat V));
}.
Lemma tried_bucket_range s key : 0 <= tried_bucket s key < TRIED_BUCKET_COUNT.
Proof. apply Z.mod_pos_bound. done. Qed.
Lemma length_concat_insert {A} (V : list (list A)) b v v' : V !! b = Some v ->
  (length (concat (<[b := v']> V)) + length v = length (concat V) + length v')%nat.
Proof.
  revert b. induction V as [|u V IH]; intros [|b] H; [done..| |].
  - injection H as ->. change (<[0%nat := v']> (v :: V)) with (v' :: V). cbn [concat]. rewrite !length_app. lia.
  - change (<[S b := v']> (u :: V)) with (u :: <[b := v']> V). cbn [concat]. rewrite !length_app. specialize (IH _ H). lia.
Qed.

Lemma tried_fresh M V key nT id s : tried_ok M V key nT -> M !! id = None -> tried_ok (<[id := (s, false)]> M) V key nT.
Proof.
  intros [Hl Hn He Hc] Hid. split; [done..| |done]. intros b v id' Hv. rewrite (He b v id' Hv). destruct (decide (id' = id)) as [->|Hne].
  - rewrite lookup_insert_eq, Hid. split; intros (? & [=] & _).
  - by rewrite lookup_insert_ne by done.
Qed.
Lemma tried_delete M V key nT id s : tried_ok M V key nT -> M !! id = Some (s, false) -> tried_ok (delete id M) V key nT.
Proof.
  intros [Hl Hn He Hc] Hid. split; [done..| |done]. intros b v id' Hv. rewrite (He b v id' Hv). destruct (decide (id' = id)) as [->|Hne].
  - rewrite lookup_delete_eq, Hid. split; intros (? & [=] & _).
  - by rewrite lookup_delete_ne by done.
Qed.
Lemma tried_perm M V key nT b v v' : tried_ok M V key nT -> V !! b = Some v -> v' ≡ₚ v -> tried_ok M (<[b := v']> V) key nT.
Proof.
  intros [Hl Hn He Hc] Hb Hp. pose proof (lookup_lt_Some _ _ _ Hb). split; [by rewrite length_insert| | |].
  - intros b' u Hu. destruct (decide (b' = b)) as [->|Hne]; [|rewrite list_lookup_insert_ne in Hu by done; by apply (Hn b' u)].
    rewrite list_lookup_insert_eq in Hu by done. injection Hu as <-. rewrite Hp. by apply (Hn b v).
  - intros b' u id Hu. destruct (decide (b' = b)) as [->|Hne]; [|rewrite list_lookup_insert_ne in Hu by done; by apply (He b' u)].
    rewrite list_lookup_insert_eq in Hu by done. injection Hu as <-. rewrite Hp. by apply (He b v).
  - rewrite Hc. pose proof (length_concat_insert V b v v' Hb) as H1. apply Permutation_length in Hp. lia.
Qed.
Definition mark (t : bool) (x : CService * bool) : CService * bool := (x.1, t).
Lemma tried_push M V key nT id s b v : tried_ok M V key nT -> M !! id = Some (s, false) -> tried_bucket s key = Z.of_nat b -> V !! b = Some v ->
  Z.of_nat (length v) < TRIED_BUCKET_SIZE -> tried_ok (alter (mark true) id M) (<[b := v ++ [id]]> V) key (nT + 1).
Proof.
  intros [Hl Hn He Hc] Hid Hb Hv Hs. pose proof (lookup_lt_Some _ _ _ Hv) as Hlt. assert (Hnot : id ∉ v).
  { intros Hin. apply (He b v id Hv) in Hin as (s' & H & _). congruence. }
  split; [by rewrite length_insert| | |].
  - intros b' u Hu. destruct (decide (b' = b)) as [->|Hne]; [|rewrite list_lookup_insert_ne in Hu by done; by apply (Hn b' u)].
    rewrite list_lookup_insert_eq in Hu by done. injection Hu as <-. destruct (Hn b v Hv) as [Hnd _]. split; [|rewrite length_app; cbn; lia].
    apply NoDup_app. split; [done|]. split; [|by apply NoDup_singleton]. intros x Hx Hx'. apply list_elem_of_singleton in Hx'. congruence.
  - intros b' u id' Hu. assert (HM : alter (mark true) id M !! id' = if decide (id' = id) then Some (s, true) else M !! id').
    { destruct (decide (id' = id)) as [->|Hne]; [by rewrite lookup_alter_eq, Hid|by rewrite lookup_alter_ne by done]. }
    rewrite HM. destruct (decide (b' = b)) as [->|Hnb].
    + rewrite list_lookup_insert_eq in Hu by done. injection Hu as <-. rewrite elem_of_app, list_elem_of_singleton, (He b v id' Hv).
      destruct (decide (id' = id)) as [->|Hne]; [split; [eauto|by right]|]. split; [intros [H|H]; [done|congruence]|by left].
    + rewrite list_lookup_insert_ne in Hu by done. rewrite (He b' u id' Hu). destruct (decide (id' = id)) as [->|Hne]; [|done].
      split; [intros (? & H & _); congruence|]. intros (s' & [= <-] & Hb'). lia.
  - rewrite Hc. pose proof (length_concat_insert V b v (v ++ [id]) Hv) as H1. rewrite length_app in H1. cbn in H1. lia.
Qed.
Lemma tried_replace M V key nT id s old b v pos : tried_ok M V key nT -> M !! id = Some (s, false) -> tried_bucket s key = Z.of_nat b -> V !! b = Some v ->
  v !! pos = Some old -> tried_ok (alter (mark true) id (alter (mark false) old M)) (<[b := <[pos := id]> v]> V) key nT.
Proof.
  intros [Hl Hn He Hc] Hid Hb Hv Hold. pose proof (lookup_lt_Some _ _ _ Hv) as Hlt. pose proof (lookup_lt_Some _ _ _ Hold) as Hlt'.
  assert (Hnot : id ∉ v). { intros Hin. apply (He b v id Hv) in Hin as (s' & H & _). congruence. }
  assert (Hino : old ∈ v) by by apply list_elem_of_lookup_2 in Hold. pose proof (proj1 (He b v old Hv) Hino) as (so & Hso & Hbo).
  assert (Hne : old <> id) by congruence. destruct (Hn b v Hv) as [Hnd Hsz].
  assert (Hel : forall x, x ∈ <[pos := id]> v <-> x = id \/ (x ∈ v /\ x <> old)).
  { intros x. rewrite !list_elem_of_lookup. split.
    - intros [i Hi]. destruct (decide (i = pos)) as [->|Hi']; [rewrite list_lookup_insert_eq in Hi by done; left; congruence|].
      rewrite list_lookup_insert_ne in Hi by done. right. split; [eauto|]. intros ->. apply Hi'. by apply (NoDup_lookup v i pos old).
    - intros [->|[[i Hi] Hx]]; [exists pos; by apply list_lookup_insert_eq|]. exists i. rewrite list_lookup_insert_ne; [done|congruence]. }
  split; [by rewrite length_insert| | |].
  - intros b' u Hu. destruct (decide (b' = b)) as [->|Hnb]; [|rewrite list_lookup_insert_ne in Hu by done; by apply (Hn b' u)].
    rewrite list_lookup_insert_eq in Hu by done. injection Hu as <-. rewrite length_insert. split; [|done]. apply NoDup_alt. intros i j x Hi Hj.
    destruct (decide (i = pos)) as [->|Hi']; destruct (decide (j = pos)) as [->|Hj']; [done| | |].
    + rewrite list_lookup_insert_eq in Hi by done. rewrite list_lookup_insert_ne in Hj by done. injection Hi as <-. destruct Hnot. by apply list_elem_of_lookup_2 in Hj.
    + rewrite list_lookup_insert_eq in Hj by done. rewrite list_lookup_insert_ne in Hi by done. injection Hj as <-. destruct Hnot. by apply list_elem_of_lookup_2 in Hi.
    + rewrite list_lookup_insert_ne in Hi, Hj by done. by apply (NoDup_lookup v i j x).
  - intros b' u id' Hu. assert (HM : alter (mark true) id (alter (mark false) old M) !! id' = if decide (id' = id) then Some (s, true) else if decide (id' = old) then Some (so, false) else M !! id').
    { destruct (decide (id' = id)) as [->|H1]; [by rewrite lookup_alter_eq, lookup_alter_ne, Hid by done|].
      rewrite lookup_alter_ne by done. destruct (decide (id' = old)) as [->|H2]; [by rewrite lookup_alter_eq, Hso|by rewrite lookup_alter_ne by done]. }
    rewrite HM. destruct (decide (b' = b)) as [->|Hnb].
    + rewrite list_lookup_insert_eq in Hu by done. injection Hu as <-. rewrite Hel, (He b v id' Hv).
      destruct (decide (id' = id)) as [->|H1]; [split; [eauto|by left]|]. destruct (decide (id' = old)) as [->|H2]; [split; [intros [H|[_ H]]; done|intros (? & [=] & _)]|].
      split; [intros [H|[H _]]; done|by right].
    + rewrite list_lookup_insert_ne in Hu by done. rewrite (He b' u id' Hu). destruct (decide (id' = id)) as [->|H1].
      * split; [intros (? & H & _); congruence|]. intros (? & [= <-] & ?). lia.
      * destruct (decide (id' = old)) as [->|H2]; [|done]. split; [intros (s' & H & Hb'); rewrite Hso in H; injection H as <-; lia|intros (? & [=] & _)].
  - rewrite Hc. pose proof (length_concat_insert V b v (<[pos := id]> v) Hv) as H1. rewrite length_insert in H1. lia.
Qed.
End Tables.

(** in how many buckets an entry is *)
Fixpoint refs (id : Z) (V : list (gset Z)) : Z := match V with [] => 0 | s :: r => (if bool_decide (id ∈ s) then 1 else 0) + refs id r end.
(** the new buckets; [e]: references that are counted but not there yet *)
Record new_ok (e : Z -> Z) (M : gmap Z (Z * bool)) (V : list (gset Z)) : Prop := {
  new_length : length V = Z.to_nat NEW_BUCKET_COUNT;
  new_sizes : forall b s, V !! b = Some s -> Z.of_nat (size s) <= NEW_BUCKET_SIZE;
  new_elem : forall b s id, V !! b = Some s -> id ∈ s -> exists r, M !! id = Some (r, false);
  new_refs : forall id r, M !! id = Some (r, false) -> r = refs id V + e id /\ 1 <= r <= NEW_BUCKETS_PER_ADDRESS;
  new_tried : forall id r, M !! id = Some (r, true) -> r = 0;
}.
Definition no_extra : Z -> Z := fun _ => 0.
Definition extra (id : Z) : Z -> Z := fun x => if bool_decide (x = id) then 1 else 0.

Lemma refs_nonneg id V : 0 <= refs id V.
Proof. induction V as [|s V IH]; cbn; [lia|]. case_bool_decide; lia. Qed.
Lemma refs_none id V : (forall b s, V !! b = Some s -> id ∉ s) -> refs id V = 0.
Proof.
  induction V as [|s V IH]; intros H; [done|]. cbn. rewrite bool_decide_eq_false_2 by by apply (H 0%nat). rewrite IH; [done|]. intros b. apply (H (S b)).
Qed.
Lemma refs_insert V : forall b s s' id, V !! b = Some s ->
  refs id (<[b := s']> V) = refs id V - (if bool_decide (id ∈ s) then 1 else 0) + (if bool_decide (id ∈ s') then 1 else 0).
Proof.
  induction V as [|u V IH]; intros [|b] s s' id H; [done..| |].
  - injection H as ->. change (<[0%nat := s']> (s :: V)) with (s' :: V). cbn [refs]. lia.
  - change (<[S b := s']> (u :: V)) with (u :: <[b := s']> V). cbn [refs]. rewrite (IH b s s' id H). lia.
Qed.
Lemma refs_in V : forall b s id, V !! b = Some s -> id ∈ s -> 1 <= refs id V.
Proof.
  induction V as [|u V IH]; intros [|b] s id H Hin; [done..| |].
  - injection H as ->. cbn. rewrite bool_decide_eq_true_2 by done. pose proof (refs_nonneg id V). lia.
  - cbn. pose proof (IH b s id H Hin). case_bool_decide; lia.
Qed.
Lemma lookup_insert_cases {A} (V : list A) b v b' u : <[b := v]> V !! b' = Some u -> (b' = b /\ u = v) \/ (b' <> b /\ V !! b' = Some u).
Proof.
  intros H. destruct (decide (b' = b)) as [->|Hne]; [|right; by rewrite list_lookup_insert_ne in H by done]. left. split; [done|].
  assert (b < length V)%nat by (apply lookup_lt_Some in H; by rewrite length_insert in H). rewrite list_lookup_insert_eq in H by done. congruence.
Qed.

(** an entry that is counted enters a bucket *)
Lemma new_insert M V id b s r : new_ok (extra id) M V -> M !! id = Some (r, false) -> V !! b = Some s -> id ∉ s -> Z.of_nat (size s) < NEW_BUCKET_SIZE ->
  new_ok no_extra M (<[b := {[id]} ∪ s]> V).
Proof.
  intros [Hl Hs He Hr Ht] Hid Hb Hn Hsz. split; [by rewrite length_insert| | | |done].
  - intros b' u [[-> ->]|[_ Hu]]%lookup_insert_cases; [|by apply (Hs b' u)]. rewrite size_union, size_singleton by set_solver. lia.
  - intros b' u id' [[-> ->]|[_ Hu]]%lookup_insert_cases Hin; [|by apply (He b' u)]. apply elem_of_union in Hin as [->%elem_of_singleton|Hin]; [eauto|by apply (He b s)].
  - intros id' r' Hr'. destruct (Hr id' r' Hr') as [-> H2]. split; [|done]. rewrite (refs_insert V b s _ id' Hb). unfold extra, no_extra.
    destruct (decide (id' = id)) as [->|Hne].
    + rewrite (bool_decide_eq_false_2 (id ∈ s)), (bool_decide_eq_true_2 (id ∈ _)), (bool_decide_eq_true_2 (id = id)) by set_solver. lia.
    + rewrite (bool_decide_eq_false_2 (id' = id)) by done. rewrite (bool_decide_ext (id' ∈ {[id]} ∪ s) (id' ∈ s)) by set_solver. lia.
Qed.
Definition ref_to (r : Z) (x : Z * bool) : Z * bool := (r, x.2).
(** a reference of an entry is dropped, with the entry if it was the last *)
Lemma new_drop e M V id b s r : new_ok e M V -> e id = 0 -> M !! id = Some (r, false) -> V !! b = Some s -> id ∈ s ->
  if r - 1 =? 0 then new_ok e (delete id M) (<[b := s ∖ {[id]}]> V) else new_ok e (alter (ref_to (r - 1)) id M) (<[b := s ∖ {[id]}]> V).
Proof.
  intros [Hl Hs He Hr Ht] Hz Hid Hb Hin. destruct (Hr id r Hid) as [Hre Hr1].
  assert (Hsz : forall b' u, <[b := s ∖ {[id]}]> V !! b' = Some u -> Z.of_nat (size u) <= NEW_BUCKET_SIZE).
  { intros b' u [[-> ->]|[_ Hu]]%lookup_insert_cases; [|by apply (Hs b' u)]. pose proof (Hs b s Hb). assert (size (s ∖ {[id]}) <= size s)%nat by (apply subseteq_size; set_solver). lia. }
  assert (Hrefs : forall id', refs id' (<[b := s ∖ {[id]}]> V) = refs id' V - if bool_decide (id' = id) then 1 else 0).
  { intros id'. rewrite (refs_insert V b s _ id' Hb). destruct (decide (id' = id)) as [->|Hne].
    - rewrite (bool_decide_eq_true_2 (id ∈ s)), (bool_decide_eq_false_2 (id ∈ _)), (bool_decide_eq_true_2 (id = id)) by set_solver. lia.
    - rewrite (bool_decide_eq_false_2 (id' = id)) by done. rewrite (bool_decide_ext (id' ∈ s ∖ {[id]}) (id' ∈ s)) by set_solver. lia. }
  destruct (Z.eqb_spec (r - 1) 0) as [H1|H1].
  - assert (Hnone : forall b' u, <[b := s ∖ {[id]}]> V !! b' = Some u -> id ∉ u).
    { intros b' u Hu Hin'. pose proof (refs_in _ _ _ _ Hu Hin') as H2. rewrite Hrefs, bool_decide_eq_true_2 in H2 by done. lia. }
    split; [by rewrite length_insert|done| | |].
    + intros b' u id' Hu Hin'. assert (id' <> id) by (intros ->; by apply (Hnone b' u)). rewrite lookup_delete_ne by done.
      apply lookup_insert_cases in Hu as [[-> ->]|[_ Hu]]; [apply (He b s); set_solver|by apply (He b' u)].
    + intros id' r' [Hne H2]%lookup_delete_Some. rewrite Hrefs, bool_decide_eq_false_2 by done. destruct (Hr id' r' H2). lia.
    + intros id' r' [Hne H2]%lookup_delete_Some. by apply (Ht id').
  - assert (HM : forall id', alter (ref_to (r - 1)) id M !! id' = if decide (id' = id) then Some (r - 1, false) else M !! id').
    { intros id'. destruct (decide (id' = id)) as [->|Hne]; [by rewrite lookup_alter_eq, Hid|by rewrite lookup_alter_ne by done]. }
    split; [by rewrite length_insert|done| | |].
    + intros b' u id' Hu Hin'. rewrite HM. destruct (decide (id' = id)); [eauto|].
      apply lookup_insert_cases in Hu as [[-> ->]|[_ Hu]]; [apply (He b s); set_solver|by apply (He b' u)].
    + intros id' r'. rewrite HM, Hrefs. destruct (decide (id' = id)) as [->|Hne].
      * intros [= <-]. rewrite bool_decide_eq_true_2 by done. lia.
      * intros H2. rewrite bool_decide_eq_false_2 by done. destruct (Hr id' r' H2). lia.
    + intros id' r'. rewrite HM. destruct (decide (id' = id)) as [->|Hne]; [done|]. apply Ht.
Qed.

Lemma erase_all_spec id V : (erase_all id V).2 = refs id V /\ length (erase_all id V).1 = length V /\
  forall b, (erase_all id V).1 !! b = (fun s => s ∖ {[id]}) <$> V !! b.
Proof.
  induction V as [|s V (IH1 & IH2 & IH3)]; [done|]. cbn [erase_all refs]. destruct (erase_all id V) as [r k]. cbn [fst snd length] in *. split_and!; [|lia|].
  - case_bool_decide; lia.
  - intros [|b]; [done|]. apply IH3.
Qed.
Lemma refs_erase_all id id' V : refs id' (erase_all id V).1 = if bool_decide (id' = id) then 0 else refs id' V.
Proof.
  induction V as [|s V IH]; [by case_bool_decide|]. cbn [erase_all refs]. destruct (erase_all id V) as [r k]. cbn [fst refs] in *. rewrite IH.
  destruct (decide (id' = id)) as [->|Hne].
  - rewrite (bool_decide_eq_true_2 (id = id)), (bool_decide_eq_false_2 (id ∈ _)) by set_solver. lia.
  - rewrite (bool_decide_eq_false_2 (id' = id)) by done. by rewrite (bool_decide_ext (id' ∈ s ∖ {[id]}) (id' ∈ s)) by set_solver.
Qed.
Definition const_place (r : Z) (t : bool) (x : Z * bool) : Z * bool := (r, t).
Lemma alter_const_lookup {A} (M : gmap Z A) id (f : A -> A) x id' : M !! id = Some x -> alter f id M !! id' = if decide (id' = id) then Some (f x) else M !! id'.
Proof. intros H. destruct (decide (id' = id)) as [->|Hne]; [by rewrite lookup_alter_eq, H|by rewrite lookup_alter_ne by done]. Qed.
Lemma new_leave M V id r : new_ok no_extra M V -> M !! id = Some (r, false) -> r = refs id V /\ new_ok no_extra (alter (const_place 0 true) id M) (erase_all id V).1.
Proof.
  intros [Hl Hs He Hr Ht] Hid. destruct (Hr id r Hid) as [Hre _]. unfold no_extra in Hre. split; [lia|]. destruct (erase_all_spec id V) as (_ & Hlen & Hlook).
  split; [lia| | | |].
  - intros b s. rewrite Hlook. intros (u & Hu & ->)%fmap_Some. pose proof (Hs b u Hu). assert (size (u ∖ {[id]}) <= size u)%nat by (apply subseteq_size; set_solver). lia.
  - intros b s id'. rewrite Hlook. intros (u & Hu & ->)%fmap_Some Hin. rewrite lookup_alter_ne by set_solver. apply (He b u); [done|set_solver].
  - intros id' r'. rewrite (alter_const_lookup M id _ _ id' Hid), refs_erase_all. destruct (decide (id' = id)) as [->|Hne]; [done|].
    rewrite bool_decide_eq_false_2 by done. apply Hr.
  - intros id' r'. rewrite (alter_const_lookup M id _ _ id' Hid). destruct (decide (id' = id)); [by intros [= <-]|apply Ht].
Qed.
Lemma new_back M V id r b s : new_ok no_extra M V -> M !! id = Some (r, true) -> V !! b = Some s -> Z.of_nat (size s) < NEW_BUCKET_SIZE ->
  new_ok no_extra (alter (const_place 1 false) id M) (<[b := {[id]} ∪ s]> V).
Proof.
  intros [Hl Hs He Hr Ht] Hid Hb Hsz. assert (Hno : forall b' u, V !! b' = Some u -> id ∉ u). { intros b' u Hu Hin. destruct (He b' u id Hu Hin). congruence. }
  assert (Hns := Hno b s Hb). split; [by rewrite length_insert| | | |].
  - intros b' u [[-> ->]|[_ Hu]]%lookup_insert_cases; [|by apply (Hs b' u)]. rewrite size_union, size_singleton by set_solver. lia.
  - intros b' u id' Hu Hin. rewrite (alter_const_lookup M id _ _ id' Hid). destruct (decide (id' = id)); [by eexists|].
    apply lookup_insert_cases in Hu as [[-> ->]|[_ Hu]]; [apply (He b s); set_solver|by apply (He b' u)].
  - intros id' r'. rewrite (alter_const_lookup M id _ _ id' Hid), (refs_insert V b s _ id' Hb). destruct (decide (id' = id)) as [->|Hne].
    + intros [= <-]. rewrite (refs_none id V) by done. rewrite (bool_decide_eq_false_2 (id ∈ s)), (bool_decide_eq_true_2 (id ∈ _)) by set_solver. done.
    + intros H. rewrite (bool_decide_ext (id' ∈ {[id]} ∪ s) (id' ∈ s)) by set_solver. destruct (Hr id' r' H). unfold no_extra in *. lia.
  - intros id' r'. rewrite (alter_const_lookup M id _ _ id' Hid). destruct (decide (id' = id)); [done|apply Ht].
Qed.
Lemma new_fresh M V id : new_ok no_extra M V -> M !! id = None -> new_ok (extra id) (<[id := (1, false)]> M) V.
Proof.
  intros [Hl Hs He Hr Ht] Hid. assert (Hno : forall b u, V !! b = Some u -> id ∉ u). { intros b u Hu Hin. destruct (He b u id Hu Hin). congruence. }
  split; [done..| | |].
  - intros b s id' Hb Hin. rewrite lookup_insert_ne; [by apply (He b s)|]. intros <-. by apply (Hno b s).
  - intros id' r' H. unfold extra. destruct (decide (id' = id)) as [->|Hne].
    + rewrite lookup_insert_eq in H. injection H as <-. rewrite (refs_none id V), bool_decide_eq_true_2 by done. done.
    + rewrite lookup_insert_ne in H by done. rewrite bool_decide_eq_false_2 by done. by apply Hr.
  - intros id' r' H. destruct (decide (id' = id)) as [->|Hne]; [by rewrite lookup_insert_eq in H|]. rewrite lookup_insert_ne in H by done. by apply (Ht id').
Qed.
Lemma new_again M V id r : new_ok no_extra M V -> M !! id = Some (r, false) -> r <> NEW_BUCKETS_PER_ADDRESS -> new_ok (extra id) (alter (ref_to (r + 1)) id M) V.
Proof.
  intros [Hl Hs He Hr Ht] Hid Hne. destruct (Hr id r Hid) as [Hre Hr1]. unfold no_extra in *. split; [done..| | |].
  - intros b s id' Hb Hin. rewrite (alter_const_lookup M id _ _ id' Hid). destruct (decide (id' = id)); [by eexists|by apply (He b s)].
  - intros id' r'. rewrite (alter_const_lookup M id _ _ id' Hid). unfold extra. destruct (decide (id' = id)) as [->|Hne'].
    + intros [= <-]. rewrite bool_decide_eq_true_2 by done. lia.
    + intros H. rewrite bool_decide_eq_false_2 by done. by apply Hr.
  - intros id' r'. rewrite (alter_const_lookup M id _ _ id' Hid). destruct (decide (id' = id)); [done|apply Ht].
Qed.

(** ** The manager is consistent *)

Definition ipos (p : NetworkPeer) : CNetAddr * Z := (peer_ip p, nRandomPos p).
Definition smark (p : NetworkPeer) : CService * bool := (a_service (np_addr p), fInTried p).
Definition rmark (p : NetworkPeer) : Z * bool := (nRefCount p, fInTried p).
Lemma fmap_alter_as {A B} (g : A -> B) (f : A -> A) (h : B -> B) id (M : gmap Z A) : (forall x, g (f x) = h (g x)) -> g <$> alter f id M = alter h id (g <$> M).
Proof.
  intros H. apply map_eq. intros i. rewrite lookup_fmap. destruct (decide (i = id)) as [->|Hne].
  - rewrite !lookup_alter_eq, lookup_fmap. destruct (M !! id); cbn; [by rewrite H|done].
  - by rewrite !lookup_alter_ne, lookup_fmap by done.
Qed.
Lemma fmap_alter_same {A B} (g : A -> B) (f : A -> A) id (M : gmap Z A) : (forall x, M !! id = Some x -> g (f x) = g x) -> g <$> alter f id M = g <$> M.
Proof.
  intros H. apply map_eq. intros i. rewrite !lookup_fmap. destruct (decide (i = id)) as [->|Hne]; [|by rewrite lookup_alter_ne by done].
  rewrite lookup_alter_eq. destruct (M !! id); cbn; [by rewrite H|done].
Qed.
Lemma size_alter {A} (f : A -> A) i (M : gmap Z A) : size (alter f i M) = size M.
Proof.
  destruct (M !! i) as [x|] eqn:E.
  - replace (alter f i M) with (<[i := f x]> M); [by rewrite map_size_insert_Some|]. apply map_eq. intros j. destruct (decide (j = i)) as [->|Hne].
    + by rewrite lookup_insert_eq, lookup_alter_eq, E.
    + by rewrite lookup_insert_ne, lookup_alter_ne by done.
  - f_equal. apply map_eq. intros j. destruct (decide (j = i)) as [->|Hne]; [by rewrite lookup_alter_eq, E|by rewrite lookup_alter_ne by done].
Qed.
Lemma delete_alter_id {A} (f : A -> A) i (M : gmap Z A) : delete i (alter f i M) = delete i M.
Proof.
  apply map_eq. intros j. destruct (decide (j = i)) as [->|Hne]; [by rewrite !lookup_delete_eq|]. by rewrite !lookup_delete_ne, lookup_alter_ne by done.
Qed.

Section Consistency.
Context {K : Crypto} (rand : nat -> Z).
Record consistent (e : Z -> Z) (m : NetworkPeerManager) : Prop := {
  c_count : 0 <= nIdCount m;
  c_index : index_ok (ipos <$> mapNetworkPeer m) (mapAddr m) (vRandom m) (nIdCount m);
  c_tried : tried_ok (smark <$> mapNetworkPeer m) (vvTried m) (nKey m) (nTried m);
  c_new : new_ok e (rmark <$> mapNetworkPeer m) (vvNew m);
  c_size : nNew m + nTried m = Z.of_nat (size (mapNetworkPeer m));
}.
Definition manager_ok : NetworkPeerManager -> Prop := consistent no_extra.

Lemma drawn_consistent e m n m' x : consistent e m -> GetRandInt rand n m = (x, m') -> consistent e m' /\ mapNetworkPeer m' = mapNetworkPeer m /\ vvNew m' = vvNew m /\ vRandom m' = vRandom m /\ vvTried m' = vvTried m.
Proof. intros [H1 H2 H3 H4 H5]. unfold GetRandInt. intros [= _ <-]. by split. Qed.
Lemma random_range n m : 0 < n -> 0 <= (GetRandInt rand n m).1 < n.
Proof. intros Hn. unfold GetRandInt. rewrite (proj2 (Z.eqb_neq n 0)) by lia. apply Z.mod_pos_bound. lia. Qed.

(** what an operation may change freely *)
Definition similar_peer (p q : NetworkPeer) : Prop :=
  a_service (np_addr p) = a_service (np_addr q) /\ nRefCount p = nRefCount q /\ fInTried p = fInTried q /\ nRandomPos p = nRandomPos q.
Lemma update_consistent e m id f : consistent e m -> (forall p, mapNetworkPeer m !! id = Some p -> similar_peer (f p) p) -> consistent e (update_peer id f m).
Proof.
  intros [H1 H2 H3 H4 H5] Hf. split; cbn [update_peer set_peers nIdCount mapNetworkPeer mapAddr vRandom nTried vvTried nNew vvNew nKey]; [done|..].
  - rewrite fmap_alter_same; [done|]. intros p Hp. destruct (Hf p Hp) as (E1 & E2 & E3 & E4). unfold ipos, peer_ip. congruence.
  - rewrite fmap_alter_same; [done|]. intros p Hp. destruct (Hf p Hp) as (E1 & E2 & E3 & E4). unfold smark. congruence.
  - rewrite fmap_alter_same; [done|]. intros p Hp. destruct (Hf p Hp) as (E1 & E2 & E3 & E4). unfold rmark. congruence.
  - by rewrite size_alter.
Qed.

Lemma nth_bucket_Some {A} b (v : list A) x : nth_bucket b v = Some x -> 0 <= b /\ v !! Z.to_nat b = Some x.
Proof. unfold nth_bucket. destruct (Z.ltb_spec b 0); [done|]. by intros Hx. Qed.
Lemma nth_bucket_lookup {A} b (v : list A) : 0 <= b -> nth_bucket b v = v !! Z.to_nat b.
Proof. intros. unfold nth_bucket. by rewrite (proj2 (Z.ltb_ge b 0)) by lia. Qed.
Lemma nth_bucket_in {A} b (v : list A) : 0 <= b < Z.of_nat (length v) -> exists x, nth_bucket b v = Some x /\ v !! Z.to_nat b = Some x.
Proof. intros H. rewrite nth_bucket_lookup by lia. destruct (lookup_lt_is_Some_2 v (Z.to_nat b)) as [x Hx]; [lia|]. by exists x. Qed.

(** everything but the positions *)
Record same_but_positions (m m' : NetworkPeerManager) : Prop := {
  sp_key : nKey m' = nKey m; sp_count : nIdCount m' = nIdCount m; sp_addr : mapAddr m' = mapAddr m; sp_nTried : nTried m' = nTried m;
  sp_vvTried : vvTried m' = vvTried m; sp_nNew : nNew m' = nNew m; sp_vvNew : vvNew m' = vvNew m;
  sp_smark : smark <$> mapNetworkPeer m' = smark <$> mapNetworkPeer m; sp_rmark : rmark <$> mapNetworkPeer m' = rmark <$> mapNetworkPeer m;
  sp_addrs : np_addr <$> mapNetworkPeer m' = np_addr <$> mapNetworkPeer m;
  sp_size : size (mapNetworkPeer m') = size (mapNetworkPeer m); sp_length : length (vRandom m') = length (vRandom m);
}.
Lemma SwapRandom_spec m i j : index_ok (ipos <$> mapNetworkPeer m) (mapAddr m) (vRandom m) (nIdCount m) ->
  0 <= i < Z.of_nat (length (vRandom m)) -> 0 <= j < Z.of_nat (length (vRandom m)) ->
  exists m', SwapRandom i j m = Some m' /\ index_ok (ipos <$> mapNetworkPeer m') (mapAddr m') (vRandom m') (nIdCount m') /\ same_but_positions m m' /\
    (forall a, vRandom m !! Z.to_nat i = Some a -> vRandom m' !! Z.to_nat j = Some a) /\
    (forall k, k <> Z.to_nat i -> k <> Z.to_nat j -> vRandom m' !! k = vRandom m !! k).
Proof.
  intros Hx Hi Hj. unfold SwapRandom. destruct (Z.eqb_spec i j) as [->|Hij]; [exists m; split_and!; [done..|by split|done|done]|].
  destruct (nth_bucket_in i (vRandom m) Hi) as (a & -> & Ha). destruct (nth_bucket_in j (vRandom m) Hj) as (b & -> & Hb). cbn [option_bind mbind].
  destruct (index_random _ _ _ _ Hx _ _ Ha) as [ipa Hma]. destruct (index_random _ _ _ _ Hx _ _ Hb) as [ipb Hmb].
  rewrite lookup_fmap in Hma, Hmb. destruct (mapNetworkPeer m !! a) as [pa|] eqn:Epa; [|done]. destruct (mapNetworkPeer m !! b) as [pb|] eqn:Epb; [|done].
  rewrite !bool_decide_eq_true_2 by by eexists. cbn [andb negb]. eexists. split; [done|]. cbn [set_index update_peer set_peers mapNetworkPeer mapAddr vRandom nIdCount].
  split_and!.
  - rewrite (fmap_alter_as _ _ (move_to i)) by done. rewrite (fmap_alter_as _ _ (move_to j)) by done.
    pose proof (index_swap _ _ _ _ (Z.to_nat i) (Z.to_nat j) a b Hx Ha Hb ltac:(lia)) as H. by rewrite !Z2Nat.id in H by lia.
  - split; try done; cbn; rewrite ?fmap_alter_same by done; try done; [by rewrite !size_alter|by rewrite !length_insert].
  - intros a' Ha'. rewrite Ha in Ha'. injection Ha' as <-. apply list_lookup_insert_eq. rewrite length_insert. lia.
  - intros k Hki Hkj. by rewrite !list_lookup_insert_ne by done.
Qed.

(** a reference is dropped together with the place in the bucket *)
Lemma drop_reference_ok e m id b s : consistent e m -> e id = 0 -> vvNew m !! b = Some s -> id ∈ s ->
  exists m', drop_reference id m = Some m' /\ consistent e (set_new (nNew m') (<[b := s ∖ {[id]}]> (vvNew m')) m') /\ vvNew m' = vvNew m /\ nKey m' = nKey m /\
    (forall id', id' <> id -> rmark <$> mapNetworkPeer m' !! id' = rmark <$> mapNetworkPeer m !! id').
Proof.
  intros Hc Hz Hb Hin. pose proof Hc as [H0 Hx Ht Hn Hs]. destruct (new_elem _ _ _ Hn b s id Hb Hin) as [r Hr]. pose proof Hr as Hr0. rewrite lookup_fmap in Hr.
  destruct (mapNetworkPeer m !! id) as [p|] eqn:Ep; [|done]. injection Hr as Hpr Hpf. unfold drop_reference. rewrite Ep. cbn [option_bind mbind].
  pose proof (new_drop e _ _ id b s r Hn Hz Hr0 Hb Hin) as Hd. rewrite Hpr. set (m1 := update_peer id (set_nRefCount (r - 1)) m).
  assert (Hi1 : ipos <$> mapNetworkPeer m1 = ipos <$> mapNetworkPeer m) by (apply fmap_alter_same; done).
  assert (Hs1 : smark <$> mapNetworkPeer m1 = smark <$> mapNetworkPeer m) by (apply fmap_alter_same; done).
  assert (Hr1 : rmark <$> mapNetworkPeer m1 = alter (ref_to (r - 1)) id (rmark <$> mapNetworkPeer m)) by (apply fmap_alter_as; done).
  assert (Hother : forall id', id' <> id -> rmark <$> mapNetworkPeer m1 !! id' = rmark <$> mapNetworkPeer m !! id') by (intros id' Hne; cbn; by rewrite lookup_alter_ne by done).
  destruct (Z.eqb_spec (r - 1) 0) as [Hlast|Hlast]; cbn [negb]; cycle 1.
  { exists m1. split_and!; try done. split; cbn [set_new nNew vvNew mapNetworkPeer mapAddr vRandom nIdCount nTried vvTried nKey].
    - done.
    - by rewrite Hi1.
    - by rewrite Hs1.
    - by rewrite Hr1.
    - cbn. by rewrite size_alter. }
  assert (Hpos : (ipos <$> mapNetworkPeer m) !! id = Some (peer_ip p, nRandomPos p)) by by rewrite lookup_fmap, Ep.
  destruct (index_pos _ _ _ _ Hx _ _ _ Hpos) as (_ & Hp0 & Hpl). pose proof (lookup_lt_Some _ _ _ Hpl) as Hlt.
  assert (Hx1 : index_ok (ipos <$> mapNetworkPeer m1) (mapAddr m1) (vRandom m1) (nIdCount m1)) by by rewrite Hi1.
  destruct (SwapRandom_spec m1 (nRandomPos p) (Z.of_nat (length (vRandom m1)) - 1) Hx1) as (m2 & -> & Hx2 & Hsame & Hmv & _); [cbn; lia..|]. cbn [option_bind mbind].
  pose proof Hsame as [E1 E2 E3 E4 E5 E6 E7 E8 E9 _ E10 E11]. specialize (Hmv id Hpl). eexists. split; [done|]. cbn [set_new set_peers set_index nNew vvNew mapNetworkPeer mapAddr vRandom nIdCount nTried vvTried nKey].
  assert (Hpop : vRandom m2 = removelast (vRandom m2) ++ [id]).
  { destruct (vRandom m2) as [|x l _] using rev_ind; [cbn in E11; cbn in Hlt; lia|]. rewrite removelast_last. f_equal. f_equal.
    rewrite length_app in E11. cbn [length] in E11. rewrite lookup_app_r in Hmv by (rewrite <- E11; lia).
    apply list_lookup_singleton_Some in Hmv. by destruct Hmv. }
  assert (Hip2 : exists pos, (ipos <$> mapNetworkPeer m2) !! id = Some (peer_ip p, pos)).
  { assert (Hsm : (smark <$> mapNetworkPeer m2) !! id = Some (smark p)) by (rewrite E8, Hs1, lookup_fmap, Ep; done).
    rewrite lookup_fmap in Hsm. destruct (mapNetworkPeer m2 !! id) as [p2|] eqn:Ep2; [|done]. injection Hsm as Hsv _. exists (nRandomPos p2).
    rewrite lookup_fmap, Ep2. cbn. unfold ipos, peer_ip. by rewrite Hsv. }
  destruct Hip2 as [pos Hip2]. rewrite Hpop in Hx2. split_and!.
  - split; cbn [set_new set_peers set_index nNew vvNew mapNetworkPeer mapAddr vRandom nIdCount nTried vvTried nKey].
    + by rewrite E2.
    + rewrite fmap_delete. by apply (index_pop _ _ _ _ id _ pos).
    + rewrite fmap_delete, E8, Hs1, E5, E4, E1. apply (tried_delete _ _ _ _ _ (a_service (np_addr p))); [done|]. rewrite lookup_fmap, Ep. unfold smark. cbn. by rewrite Hpf.
    + rewrite fmap_delete, E9, Hr1, delete_alter_id, E7. done.
    + rewrite E6, E4. cbn [nNew nTried m1 update_peer set_peers]. rewrite map_size_delete_Some, E10; [|rewrite lookup_fmap in Hip2; destruct (mapNetworkPeer m2 !! id); [by eexists|done]].
      cbn. rewrite size_alter. assert (size (mapNetworkPeer m) <> 0)%nat by (intros He%map_size_empty_inv; by rewrite He in Ep). lia.
  - by rewrite E7.
  - by rewrite E1.
  - intros id' Hne. rewrite lookup_delete_ne by done. rewrite <- Hother by done. rewrite <- !lookup_fmap. by rewrite E9.
Qed.

Lemma ordered_elem s id : id ∈ ordered s <-> id ∈ s.
Proof. unfold ordered. by rewrite merge_sort_Permutation, elem_of_elements. Qed.
Lemma ordered_length s : length (ordered s) = size s.
Proof. unfold ordered. by rewrite merge_sort_Permutation. Qed.
Lemma chosen_elem n ids id : id ∈ chosen n ids -> id ∈ ids.
Proof.
  unfold chosen. rewrite list_elem_of_omap. intros ([i x] & Hin & Hx). apply list_elem_of_lookup in Hin as [k Hk]. rewrite list_lookup_imap in Hk.
  destruct (ids !! k) as [y|] eqn:E; [|done]. injection Hk as <- <-. case_bool_decide; [|done]. injection Hx as <-. by apply list_elem_of_lookup_2 in E.
Qed.
Lemma chosen_nonempty n ids k : 0 <= k < Z.of_nat (length ids) -> k ∈ n -> chosen n ids <> [].
Proof.
  intros Hk Hin He. destruct (lookup_lt_is_Some_2 ids (Z.to_nat k)) as [x Hx]; [lia|].
  assert (H : x ∈ chosen n ids); [|rewrite He in H; by apply not_elem_of_nil in H].
  unfold chosen. rewrite list_elem_of_omap. exists (Z.to_nat k, x). split.
  - apply list_elem_of_lookup. exists (Z.to_nat k). by rewrite list_lookup_imap, Hx.
  - rewrite Z2Nat.id by lia. by rewrite bool_decide_eq_true_2.
Qed.
Lemma first_terrible_ok ids now m : (forall id, id ∈ ids -> is_Some (mapNetworkPeer m !! id)) ->
  exists t, first_terrible ids now m = Some t /\ (forall id, t = Some id -> id ∈ ids).
Proof.
  induction ids as [|id r IH]; intros H; [by exists None|]. cbn [first_terrible]. destruct (H id ltac:(by left)) as [p ->]. cbn [option_bind mbind].
  destruct (IsTerrible p now); [exists (Some id); split; [done|]; intros ? [= <-]; by left|].
  destruct IH as (t & -> & Ht); [intros x Hx; apply H; by right|]. exists t. split; [done|]. intros x Hx. right. by apply Ht.
Qed.
Lemma oldest_of_ok ids m : forall start, (forall id, id ∈ ids -> 0 <= id /\ is_Some (mapNetworkPeer m !! id)) ->
  (start = -1 \/ is_Some (mapNetworkPeer m !! start)) -> exists x, oldest_of ids start m = Some x /\ (x ∈ ids \/ x = start) /\ (ids <> [] -> start = -1 -> x ∈ ids).
Proof.
  induction ids as [|id r IH]; intros start H Hst; [exists start; split; [done|]; split; [by right|done]|]. cbn [oldest_of].
  destruct (H id ltac:(by left)) as [Hid [p Hp]]. assert (Hr : forall x, x ∈ r -> 0 <= x /\ is_Some (mapNetworkPeer m !! x)) by (intros x Hx; apply H; by right).
  destruct (Z.eqb_spec start (-1)) as [->|Hne].
  - destruct (IH id Hr) as (x & -> & Hx & _); [right; by exists p|]. exists x. split; [done|]. split; [left|intros _ _]; (destruct Hx as [Hx| ->]; [by right|by left]).
  - rewrite Hp. cbn [option_bind mbind]. destruct Hst as [Hst|[q Hq]]; [done|]. rewrite Hq. cbn [option_bind mbind].
    destruct (IH (if a_nTime (np_addr p) <? a_nTime (np_addr q) then id else start) Hr) as (x & -> & Hx & _); [right; case_match; by eexists|].
    exists x. split; [done|]. split; [|done]. destruct Hx as [Hx| ->]; [left; by right|]. case_match; [left; by left|by right].
Qed.

Lemma draws_ok e m n : consistent e m -> let m' := (GetRandInt rand n m).2 in
  consistent e m' /\ mapNetworkPeer m' = mapNetworkPeer m /\ vvNew m' = vvNew m /\ vRandom m' = vRandom m /\ vvTried m' = vvTried m /\ nKey m' = nKey m.
Proof. intros [H1 H2 H3 H4 H5]. by split. Qed.

(** a full bucket loses one entry *)
Lemma ShrinkNew_ok e m b s now : consistent e m -> vvNew m !! Z.to_nat b = Some s -> 0 <= b -> s <> ∅ -> (forall id, id ∈ s -> e id = 0) ->
  exists r m' s', ShrinkNew rand b now m = Some (r, m') /\ consistent e m' /\ vvNew m' !! Z.to_nat b = Some s' /\ s' ⊂ s /\ nKey m' = nKey m /\
    (forall id, id ∉ s -> rmark <$> mapNetworkPeer m' !! id = rmark <$> mapNetworkPeer m !! id).
Proof.
  intros Hc Hb Hb0 Hne Hz. unfold ShrinkNew. rewrite nth_bucket_lookup, Hb by done. cbn [option_bind mbind].
  assert (Hin : forall id, id ∈ ordered s -> 0 <= id /\ is_Some (mapNetworkPeer m !! id)).
  { intros id Hid%ordered_elem. destruct (new_elem _ _ _ (c_new _ _ Hc) _ s id Hb Hid) as [r Hr]. rewrite lookup_fmap in Hr.
    destruct (mapNetworkPeer m !! id) as [p|] eqn:Ep; [|done]. split; [|by exists p].
    destruct (index_pos _ _ _ _ (c_index _ _ Hc) id (peer_ip p) (nRandomPos p)) as [? _]; [by rewrite lookup_fmap, Ep|lia]. }
  (* dropping [id] from the bucket of a manager [m1] that differs only in the numbers drawn *)
  assert (Hdrop : forall m1 id r, consistent e m1 -> mapNetworkPeer m1 = mapNetworkPeer m -> vvNew m1 = vvNew m -> nKey m1 = nKey m -> id ∈ s ->
    exists m' s', (let? m := drop_reference id m1 in Some (r, set_new (nNew m) (<[Z.to_nat b := s ∖ {[id]}]> (vvNew m)) m)) = Some (r : Z, m') /\ consistent e m' /\
      vvNew m' !! Z.to_nat b = Some s' /\ s' ⊂ s /\ nKey m' = nKey m /\ (forall id', id' ∉ s -> rmark <$> mapNetworkPeer m' !! id' = rmark <$> mapNetworkPeer m !! id')).
  { intros m1 id r Hc1 E1 E2 E3 Hid. assert (Hb1 : vvNew m1 !! Z.to_nat b = Some s) by by rewrite E2.
    destruct (drop_reference_ok e m1 id (Z.to_nat b) s Hc1 (Hz id Hid) Hb1 Hid) as (m' & -> & Hc' & Ev & Ek & Ho). cbn [option_bind mbind].
    eexists _, (s ∖ {[id]}). split; [done|]. split; [done|]. split_and!; [|set_solver| |].
    - cbn. rewrite Ev. apply list_lookup_insert_eq. by apply lookup_lt_Some in Hb1.
    - cbn. congruence.
    - intros id' Hid'. cbn. rewrite Ho, E1; [done|]. by intros ->. }
  destruct (first_terrible_ok (ordered s) now m) as (t & -> & Ht); [intros id Hid; by apply Hin|]. cbn [option_bind mbind]. destruct t as [id|].
  - destruct (Hdrop m id 0 Hc eq_refl eq_refl eq_refl) as (m' & s' & H); [by apply ordered_elem, Ht|]. by exists 0, m', s'.
  - set (size := Z.of_nat (length (ordered s))). assert (Hsize : 0 < size).
    { unfold size. rewrite ordered_length. assert (base.size s <> 0)%nat; [|lia]. intros H0. apply Hne. apply leibniz_equiv. by apply size_empty_iff. }
    pose proof (random_range size m Hsize) as Hr0. pose proof (draws_ok e m size Hc) as (D1 & A1 & V1 & _ & _ & K1). destruct (GetRandInt rand size m) as [n0 m1]. cbn [fst snd] in *.
    pose proof (draws_ok e m1 size D1) as (D2 & A2 & V2 & _ & _ & K2). destruct (GetRandInt rand size m1) as [n1 m2]. cbn [fst snd] in *.
    pose proof (draws_ok e m2 size D2) as (D3 & A3 & V3 & _ & _ & K3). destruct (GetRandInt rand size m2) as [n2 m3]. cbn [fst snd] in *.
    pose proof (draws_ok e m3 size D3) as (D4 & A4 & V4 & _ & _ & K4). destruct (GetRandInt rand size m3) as [n3 m4]. cbn [fst snd] in *.
    destruct (oldest_of_ok (chosen [n0; n1; n2; n3] (ordered s)) m4 (-1)) as (x & -> & _ & Hx); [|by left|].
    { intros id Hid%chosen_elem. replace (mapNetworkPeer m4) with (mapNetworkPeer m) by congruence. by apply Hin. }
    cbn [option_bind mbind]. destruct (Hdrop m4 x 1 D4) as (m' & s' & H); [congruence..| |by exists 1, m', s'].
    apply ordered_elem, (chosen_elem [n0; n1; n2; n3]), Hx; [|done]. apply (chosen_nonempty _ _ n0); [done|by left].
Qed.

Lemma swap_perm {A} (v : list A) i j x y : v !! i = Some x -> v !! j = Some y -> <[i := y]> (<[j := x]> v) ≡ₚ v.
Proof.
  intros Hi Hj. destruct (decide (i = j)) as [->|Hne]; [rewrite Hj in Hi; injection Hi as ->; by rewrite list_insert_insert_eq, list_insert_id|].
  pose proof (lookup_lt_Some _ _ _ Hi). pose proof (lookup_lt_Some _ _ _ Hj).
  apply Permutation_inj. split; [by rewrite !length_insert|]. exists (fun k => if decide (k = i) then j else if decide (k = j) then i else k). split.
  - intros a b. repeat case_decide; lia.
  - intros k. repeat case_decide; subst.
    + by rewrite list_lookup_insert_eq by (by rewrite length_insert).
    + by rewrite list_lookup_insert_ne, list_lookup_insert_eq by done.
    + by rewrite !list_lookup_insert_ne by done.
Qed.
Definition with_drawn (d : nat) (m : NetworkPeerManager) : NetworkPeerManager :=
  {| nKey := nKey m; nIdCount := nIdCount m; mapNetworkPeer := mapNetworkPeer m; mapAddr := mapAddr m; vRandom := vRandom m; nTried := nTried m; vvTried := vvTried m;
     nNew := nNew m; vvNew := vvNew m; drawn := d |}.
Definition same_but_drawn (m m' : NetworkPeerManager) : Prop := exists d, m' = with_drawn d m.
Lemma select_tried_spec f : forall i v nO nP m, (forall id, id ∈ v -> 0 <= id /\ is_Some (mapNetworkPeer m !! id)) ->
  (nO = -1 /\ (i < length v)%nat /\ f <> 0%nat) \/ (is_Some (mapNetworkPeer m !! nO) /\ 0 <= nP < Z.of_nat (length v)) ->
  exists pos v' m', select_tried rand f i v nO nP m = Some (pos, v', m') /\ v' ≡ₚ v /\ same_but_drawn m m' /\ 0 <= pos < Z.of_nat (length v).
Proof.
  induction f as [|f IH]; intros i v nO nP m Hv Hst.
  - destruct Hst as [(_ & _ & ?)|[_ HP]]; [done|]. exists nP, v, m. split_and!; try done; [exists (drawn m); by destruct m|lia..].
  - cbn [select_tried]. case_bool_decide as Hi; [|destruct Hst as [(_ & ? & _)|[_ HP]]; [done|exists nP, v, m; split_and!; try done; [exists (drawn m); by destruct m|lia..]]].
    pose proof (random_range (Z.of_nat (length v) - Z.of_nat i) m ltac:(lia)) as Hr.
    assert (Hd : same_but_drawn m (GetRandInt rand (Z.of_nat (length v) - Z.of_nat i) m).2) by by eexists.
    destruct (GetRandInt rand _ m) as [r m1]. cbn [fst snd] in *. assert (Hp : (Z.to_nat r + i < length v)%nat) by lia.
    destruct (lookup_lt_is_Some_2 v _ Hp) as [x Hx]. destruct (lookup_lt_is_Some_2 v _ Hi) as [y Hy]. rewrite Hx. cbn [option_bind mbind]. rewrite Hy. cbn [option_bind mbind].
    pose proof (swap_perm v i (Z.to_nat r + i) y x Hy Hx) as Hperm. set (v1 := <[i := x]> (<[(Z.to_nat r + i)%nat := y]> v)) in *.
    assert (Hl1 : length v1 = length v) by by apply Permutation_length. assert (Hmap : mapNetworkPeer m1 = mapNetworkPeer m) by by destruct Hd as [d ->].
    assert (Hv1 : forall id, id ∈ v1 -> 0 <= id /\ is_Some (mapNetworkPeer m1 !! id)) by (intros id Hid; rewrite Hperm in Hid; rewrite Hmap; by apply Hv).
    assert (Hgo : forall nO' nP', is_Some (mapNetworkPeer m1 !! nO') -> 0 <= nP' < Z.of_nat (length v) -> exists pos v' m', select_tried rand f (S i) v1 nO' nP' m1 = Some (pos, v', m') /\ v' ≡ₚ v /\ same_but_drawn m m' /\ 0 <= pos < Z.of_nat (length v)).
    { intros nO' nP' HO HP. destruct (IH (S i) v1 nO' nP' m1 Hv1) as (pos & v' & m' & H1 & H2 & H3 & H4); [right; rewrite Hl1; by split|].
      exists pos, v', m'. split_and!; [done|by rewrite H2| |lia..]. destruct Hd as [d ->]. destruct H3 as [d' ->]. by exists d'. }
    assert (Hxm : is_Some (mapNetworkPeer m1 !! x)) by (apply Hv1; rewrite Hperm; by apply list_elem_of_lookup_2 in Hx).
    destruct (Z.eqb_spec nO (-1)) as [->|Hne]; [apply Hgo; [done|lia]|]. destruct Hst as [[? _]|[HO HP]]; [done|]. rewrite <- Hmap in HO.
    destruct Hxm as [px Hpx]. destruct HO as [po Hpo]. rewrite Hpx. cbn [option_bind mbind]. rewrite Hpo. cbn [option_bind mbind].
    destruct (_ <? _); apply Hgo; [by exists px|lia|by exists po|done].
Qed.
Lemma SelectTried_spec m b v : (forall id, id ∈ v -> 0 <= id /\ is_Some (mapNetworkPeer m !! id)) -> 0 <= b -> vvTried m !! Z.to_nat b = Some v -> v <> [] ->
  exists pos v' m', SelectTried rand b m = Some (pos, m') /\ v' ≡ₚ v /\ 0 <= pos < Z.of_nat (length v) /\ same_but_drawn (set_tried (nTried m) (<[Z.to_nat b := v']> (vvTried m)) m) m'.
Proof.
  intros Hv Hb0 Hb Hne. unfold SelectTried. rewrite nth_bucket_lookup, Hb by done. cbn [option_bind mbind].
  destruct (select_tried_spec TRIED_ENTRIES_INSPECT_ON_EVICT 0 v (-1) (-1) m Hv) as (pos & v' & m' & -> & H1 & H2 & H3); [left; split_and!; [done|destruct v; [done|cbn; lia]|done]|].
  cbn [option_bind mbind]. exists pos, v', (set_tried (nTried m') (<[Z.to_nat b := v']> (vvTried m')) m'). split; [done|]. split; [done|]. split; [done|].
  destruct H2 as [d ->]. by exists d.
Qed.

Lemma consistent_random m id p : consistent no_extra m -> mapNetworkPeer m !! id = Some p -> 0 <= id.
Proof. intros Hc Hp. destruct (index_pos _ _ _ _ (c_index _ _ Hc) id (peer_ip p) (nRandomPos p)) as [? _]; [by rewrite lookup_fmap, Hp|lia]. Qed.
Lemma tried_lookup m b v id : tried_ok (smark <$> mapNetworkPeer m) (vvTried m) (nKey m) (nTried m) -> vvTried m !! b = Some v -> id ∈ v ->
  exists p, mapNetworkPeer m !! id = Some p /\ fInTried p = true.
Proof.
  intros Ht Hb Hin. apply (tried_elem _ _ _ _ Ht b v id Hb) in Hin as (s & Hs & _). rewrite lookup_fmap in Hs.
  destruct (mapNetworkPeer m !! id) as [p|]; [|done]. injection Hs as _ Hp. by exists p.
Qed.
(** the places of an entry that moves from the new buckets to a tried one, and of the one it replaces *)
Lemma rmark_moved (M : gmap Z NetworkPeer) id r : (rmark <$> M) !! id = Some (r, false) ->
  alter (fun x => (x.1, true)) id (alter (ref_to 0) id (rmark <$> M)) = alter (const_place 0 true) id (rmark <$> M).
Proof. intros H. apply map_eq. intros j. destruct (decide (j = id)) as [->|Hne]; [by rewrite !lookup_alter_eq, H|by rewrite !lookup_alter_ne by done]. Qed.
Lemma rmark_swapped (M : gmap Z NetworkPeer) id old r : id <> old -> (rmark <$> M) !! id = Some (r, false) ->
  alter (fun x => (x.1, true)) id (alter (const_place 1 false) old (alter (ref_to 0) id (rmark <$> M))) = alter (const_place 1 false) old (alter (const_place 0 true) id (rmark <$> M)).
Proof.
  intros Hno H. apply map_eq. intros j. destruct (decide (j = id)) as [->|Hne].
  - rewrite lookup_alter_eq, lookup_alter_ne, lookup_alter_eq, lookup_alter_ne, lookup_alter_eq, H by done. done.
  - rewrite lookup_alter_ne by done. destruct (decide (j = old)) as [->|Hne']; [by rewrite !lookup_alter_eq, !lookup_alter_ne by done|by rewrite !lookup_alter_ne by done].
Qed.

(** an entry that has left the new buckets for [vv] *)
Definition left_new (id : Z) (vv : list (gset Z)) (m : NetworkPeerManager) : NetworkPeerManager := update_peer id (set_nRefCount 0) (set_new (nNew m - 1) vv m).
Lemma left_new_views m id vv : ipos <$> mapNetworkPeer (left_new id vv m) = ipos <$> mapNetworkPeer m /\ smark <$> mapNetworkPeer (left_new id vv m) = smark <$> mapNetworkPeer m /\
  rmark <$> mapNetworkPeer (left_new id vv m) = alter (ref_to 0) id (rmark <$> mapNetworkPeer m) /\ size (mapNetworkPeer (left_new id vv m)) = size (mapNetworkPeer m).
Proof. split_and!; [by apply fmap_alter_same|by apply fmap_alter_same|by apply fmap_alter_as|by apply size_alter]. Qed.
Definition mark_tried (id : Z) : NetworkPeerManager -> NetworkPeerManager := update_peer id (fun p => set_place (nRefCount p) true (nRandomPos p) p).
Definition mark_new (id : Z) : NetworkPeerManager -> NetworkPeerManager := update_peer id (fun p => set_place 1 false (nRandomPos p) p).

Lemma room_consistent m id r p v vv : manager_ok m -> mapNetworkPeer m !! id = Some p -> rmark p = (r, false) ->
  let kb := tried_bucket (a_service (np_addr p)) (nKey m) in vvTried m !! Z.to_nat kb = Some v -> Z.of_nat (length v) < TRIED_BUCKET_SIZE ->
  new_ok no_extra (alter (const_place 0 true) id (rmark <$> mapNetworkPeer m)) vv ->
  manager_ok (mark_tried id (set_tried (nTried m + 1) (<[Z.to_nat kb := v ++ [id]]> (vvTried m)) (left_new id vv m))).
Proof.
  intros [H0 Hx Ht Hn Hs] Ep Hrm kb Hv Hroom Hn'. destruct (left_new_views m id vv) as (E1 & E2 & E3 & E4).
  pose proof (tried_bucket_range (a_service (np_addr p)) (nKey m)) as Hrange. fold kb in Hrange.
  split; cbn [mark_tried update_peer set_peers set_tried left_new set_new nIdCount mapNetworkPeer mapAddr vRandom nTried vvTried nNew vvNew nKey]; fold (set_new (nNew m - 1) vv m).
  - done.
  - rewrite !fmap_alter_same by done. done.
  - rewrite (fmap_alter_as _ _ (mark true)), (fmap_alter_same _ (set_nRefCount 0)) by done. apply (tried_push _ _ _ _ id (a_service (np_addr p)) (Z.to_nat kb) v); [done| | |done|done].
    + rewrite lookup_fmap, Ep. cbn. unfold smark. injection Hrm as _ Hpf. by rewrite Hpf.
    + by rewrite Z2Nat.id by lia.
  - rewrite (fmap_alter_as _ _ (fun x => (x.1, true))), (fmap_alter_as _ _ (ref_to 0)) by done. rewrite (rmark_moved _ id r); [done|]. by rewrite lookup_fmap, Ep, <- Hrm.
  - rewrite !size_alter. lia.
Qed.
Lemma evict_consistent m id r p v v' vv V' d pos old n : manager_ok m -> n = nNew m -> mapNetworkPeer m !! id = Some p -> rmark p = (r, false) ->
  let kb := tried_bucket (a_service (np_addr p)) (nKey m) in vvTried m !! Z.to_nat kb = Some v -> v' ≡ₚ v -> v' !! Z.to_nat pos = Some old -> id <> old ->
  new_ok no_extra (alter (const_place 1 false) old (alter (const_place 0 true) id (rmark <$> mapNetworkPeer m))) V' ->
  manager_ok (mark_tried id (set_tried (nTried m) (<[Z.to_nat kb := <[Z.to_nat pos := id]> v']> (<[Z.to_nat kb := v']> (vvTried m)))
    (set_new n V' (mark_new old (with_drawn d (set_tried (nTried m) (<[Z.to_nat kb := v']> (vvTried m)) (left_new id vv m))))))).
Proof.
  intros [H0 Hx Ht Hn Hs] -> Ep Hrm kb Hv Hperm Hold Hne HV'. pose proof (lookup_lt_Some _ _ _ Hv) as Hlt.
  pose proof (tried_bucket_range (a_service (np_addr p)) (nKey m)) as Hrange. fold kb in Hrange.
  split; cbn [mark_tried mark_new update_peer set_peers set_tried set_new with_drawn left_new nIdCount mapNetworkPeer mapAddr vRandom nTried vvTried nNew vvNew nKey].
  - done.
  - rewrite !fmap_alter_same by done. done.
  - rewrite (fmap_alter_as _ _ (mark true)), (fmap_alter_as _ _ (mark false)), (fmap_alter_same _ (set_nRefCount 0)) by done.
    apply (tried_replace _ _ _ _ id (a_service (np_addr p)) old (Z.to_nat kb) v' (Z.to_nat pos)); [by apply (tried_perm _ _ _ _ _ v)| |by rewrite Z2Nat.id by lia|by apply list_lookup_insert_eq|done].
    rewrite lookup_fmap, Ep. cbn. unfold smark. injection Hrm as _ Hpf. by rewrite Hpf.
  - rewrite (fmap_alter_as _ _ (fun x => (x.1, true))), (fmap_alter_as _ _ (const_place 1 false)), (fmap_alter_as _ _ (ref_to 0)) by done. rewrite (rmark_swapped _ id old r); [done|done|].
    by rewrite lookup_fmap, Ep, <- Hrm.
  - rewrite !size_alter. lia.
Qed.
Lemma GetNewBucket_range p key src : 0 <= GetNewBucket p key src < NEW_BUCKET_COUNT.
Proof. apply Z.mod_pos_bound. done. Qed.

Lemma MakeTried_ok m id b o : manager_ok m -> vvNew m !! Z.to_nat b = Some o -> 0 <= b -> id ∈ o -> exists m', MakeTried rand id b m = Some m' /\ manager_ok m'.
Proof.
  intros Hc Hb Hb0 Hin. pose proof Hc as [H0 Hx Ht Hn Hs]. unfold MakeTried. rewrite nth_bucket_lookup, Hb by done. cbn [option_bind mbind]. rewrite bool_decide_eq_true_2 by done. cbn [negb].
  destruct (new_elem _ _ _ Hn _ o id Hb Hin) as [r Hr]. pose proof Hr as Hr0. rewrite lookup_fmap in Hr. destruct (mapNetworkPeer m !! id) as [p|] eqn:Ep; [|done].
  injection Hr as Hpr Hpf. cbn [option_bind mbind]. destruct (new_leave _ _ id r Hn Hr0) as [Hrefs Hn']. destruct (erase_all_spec id (vvNew m)) as (Hk & _ & Hlook).
  destruct (erase_all id (vvNew m)) as [vv k]. cbn [fst snd] in *. rewrite Hpr, Hk, <- Hrefs, Z.sub_diag. cbn [Z.eqb negb].
  change (update_peer id (set_nRefCount 0) (set_new (nNew m - 1) vv m)) with (left_new id vv m). destruct (left_new_views m id vv) as (E1 & E2 & E3 & E4).
  assert (Hrm : rmark p = (r, false)) by (unfold rmark; congruence). pose proof (tried_bucket_range (a_service (np_addr p)) (nKey m)) as Hrange. unfold TRIED_BUCKET_COUNT in Hrange.
  unfold GetTriedBucket. change (nKey (left_new id vv m)) with (nKey m). set (kb := tried_bucket (a_service (np_addr p)) (nKey m)) in *.
  destruct (nth_bucket_in kb (vvTried m)) as (v & Hv0 & Hv); [rewrite (tried_length _ _ _ _ Ht); unfold TRIED_BUCKET_COUNT in *; lia|].
  change (vvTried (left_new id vv m)) with (vvTried m). rewrite Hv0. cbn [option_bind mbind].
  destruct (Z.ltb_spec (Z.of_nat (length v)) TRIED_BUCKET_SIZE) as [Hroom|Hfull]; [eexists; split; [done|by apply (room_consistent m id r p v vv)]|].
  assert (Hall : forall x, x ∈ v -> 0 <= x /\ is_Some (mapNetworkPeer (left_new id vv m) !! x)).
  { intros x Hx0. destruct (tried_lookup m _ v x Ht Hv Hx0) as (q & Hq & _). split; [by apply (consistent_random m x q)|].
    cbn. destruct (decide (x = id)) as [->|Hne]; [rewrite lookup_alter_eq, Hq; by eexists|rewrite lookup_alter_ne, Hq by done; by eexists]. }
  destruct (SelectTried_spec (left_new id vv m) kb v Hall ltac:(lia) Hv) as (pos & v' & m2 & -> & Hperm & Hpos & d & ->); [intros ->; unfold TRIED_BUCKET_SIZE in Hfull; cbn in Hfull; lia|].
  cbn [option_bind mbind with_drawn vvTried vvNew mapNetworkPeer nKey nNew set_tried]. change (vvTried (left_new id vv m)) with (vvTried m). pose proof (lookup_lt_Some _ _ _ Hv) as Hlt.
  rewrite nth_bucket_lookup, list_lookup_insert_eq by (lia || done). cbn [option_bind mbind].
  destruct (nth_bucket_in pos v') as (old & Hold0 & Hold); [rewrite (Permutation_length Hperm); lia|]. rewrite Hold0. cbn [option_bind mbind].
  assert (Hoin : old ∈ v) by (rewrite <- Hperm; by apply list_elem_of_lookup_2 in Hold). destruct (tried_lookup m _ v old Ht Hv Hoin) as (oldp & Holdp & Holdt).
  assert (Hne : id <> old) by congruence. replace (mapNetworkPeer (left_new id vv m) !! old) with (Some oldp) by (cbn; by rewrite lookup_alter_ne by done). cbn [option_bind mbind].
  assert (Hback : forall nb s, vv !! Z.to_nat nb = Some s -> Z.of_nat (size s) < NEW_BUCKET_SIZE ->
    new_ok no_extra (alter (const_place 1 false) old (alter (const_place 0 true) id (rmark <$> mapNetworkPeer m))) (<[Z.to_nat nb := {[old]} ∪ s]> vv)).
  { intros nb s Hsb Hsz. apply (new_back _ _ _ (nRefCount oldp)); [done| |done|done]. rewrite lookup_alter_ne, lookup_fmap, Holdp by done. unfold rmark. cbn. by rewrite Holdt. }
  change (vvNew (left_new id vv m)) with vv. change (nKey (left_new id vv m)) with (nKey m).
  pose proof (GetNewBucket_range oldp (nKey m) (source oldp)) as Hnb. set (nb := GetNewBucket oldp (nKey m) (source oldp)) in *.
  destruct (nth_bucket_in nb vv) as (s & -> & Hs2); [rewrite (new_length _ _ _ Hn'); unfold NEW_BUCKET_COUNT in *; lia|].
  cbn [option_bind mbind update_peer set_peers set_new set_tried with_drawn vvNew nNew left_new].
  destruct (Z.ltb_spec (Z.of_nat (size s)) NEW_BUCKET_SIZE) as [Hsz|Hsz].
  - cbn [option_bind mbind]. eexists. split; [done|]. apply (evict_consistent m id r p v v' vv _ d pos old (nNew m - 1 + 1) Hc (Z.sub_add 1 (nNew m)) Ep Hrm Hv Hperm Hold Hne (Hback _ s Hs2 Hsz)).
  - rewrite nth_bucket_lookup, Hlook, Hb by done. cbn [option_bind mbind fmap option_fmap option_map]. eexists. split; [done|].
    assert (Hsz2 : Z.of_nat (size (o ∖ {[id]})) < NEW_BUCKET_SIZE).
    { pose proof (new_sizes _ _ _ Hn _ o Hb). assert (size (o ∖ {[id]}) < size o)%nat by (apply subset_size; set_solver). lia. }
    assert (Hob : vv !! Z.to_nat b = Some (o ∖ {[id]})) by (by rewrite Hlook, Hb).
    apply (evict_consistent m id r p v v' vv _ d pos old (nNew m - 1 + 1) Hc (Z.sub_add 1 (nNew m)) Ep Hrm Hv Hperm Hold Hne (Hback b _ Hob Hsz2)).
Qed.

(** ** The operations keep the manager consistent *)

Lemma Find_spec m ip : manager_ok m ->
  match Find ip m with Some (id, p) => mapNetworkPeer m !! id = Some p /\ peer_ip p = ip | None => mapAddr m !! ip = None end.
Proof.
  intros Hc. unfold Find. destruct (mapAddr m !! ip) as [id|] eqn:Ha; [|done]. cbn [option_bind mbind].
  apply (index_addr _ _ _ _ (c_index _ _ Hc)) in Ha as [pos Hp]. rewrite lookup_fmap in Hp. destruct (mapNetworkPeer m !! id) as [p|] eqn:Ep; [|done].
  injection Hp as Hp _. cbn. by rewrite Ep.
Qed.
Lemma find_bucket_spec id v f : forall n rnd, 0 <= n -> 0 <= rnd -> v <> [] -> find_bucket f n rnd id v = -1 \/
  (0 <= find_bucket f n rnd id v /\ exists s, v !! Z.to_nat (find_bucket f n rnd id v) = Some s /\ id ∈ s).
Proof.
  induction f as [|f IH]; intros n rnd Hn Hr Hv; [by left|]. cbn [find_bucket]. assert (Hl : 0 < Z.of_nat (length v)) by (destruct v; [done|cbn; lia]).
  pose proof (Z.mod_pos_bound (n + rnd) (Z.of_nat (length v)) Hl) as Hb. destruct (v !! _) as [s|] eqn:E; [|apply IH; lia || done].
  case_bool_decide; [|apply IH; lia || done]. right. split; [lia|]. by exists s.
Qed.
Lemma Good_ok addr t m : manager_ok m -> exists m', Good_ rand addr t m = Some m' /\ manager_ok m'.
Proof.
  intros Hc. unfold Good_. pose proof (Find_spec m (s_ip addr) Hc) as Hf. destruct (Find (s_ip addr) m) as [[id p]|]; [|by exists m]. destruct Hf as [Hp _].
  destruct (negb _); [by exists m|]. set (m1 := update_peer _ _ m).
  assert (H1 : manager_ok m1) by (apply update_consistent; [done|]; intros q _; by split_and!).
  destruct (fInTried p); [by exists m1|]. pose proof (draws_ok _ m1 (Z.of_nat (length (vvNew m1))) H1) as (H2 & _ & E & _). cbn zeta in *.
  assert (Hlen : length (vvNew m1) = Z.to_nat NEW_BUCKET_COUNT) by apply (new_length _ _ _ (c_new _ _ H1)).
  pose proof (random_range (Z.of_nat (length (vvNew m1))) m1 ltac:(rewrite Hlen; unfold NEW_BUCKET_COUNT; lia)) as Hr. destruct (GetRandInt rand _ m1) as [rnd m2]. cbn [fst snd] in *.
  destruct (find_bucket_spec id (vvNew m2) (length (vvNew m2)) 0 rnd) as [->|(Hb0 & s & Hs & Hin)]; [lia|lia|rewrite E; intros He; by rewrite He in Hlen|by exists m2|].
  destruct (Z.eqb_spec (find_bucket (length (vvNew m2)) 0 rnd id (vvNew m2)) (-1)); [by exists m2|]. by apply (MakeTried_ok _ _ _ s).
Qed.
Lemma Attempt_ok addr t m : manager_ok m -> manager_ok (Attempt_ addr t m).
Proof.
  intros Hc. unfold Attempt_. destruct (Find _ m) as [[id p]|]; [|done]. destruct (negb _); [done|]. apply update_consistent; [done|]. intros q _. by split_and!.
Qed.
Lemma Connected_ok addr t m : manager_ok m -> manager_ok (Connected_ addr t m).
Proof.
  intros Hc. unfold Connected_. destruct (Find _ m) as [[id p]|]; [|done]. destruct (negb _); [done|]. destruct (_ <? _); [|done].
  apply update_consistent; [done|]. intros q _. by split_and!.
Qed.

(** a counted entry is put into its bucket *)
Lemma finish_add (fNew : bool) m id r b s now : consistent (extra id) m -> (rmark <$> mapNetworkPeer m) !! id = Some (r, false) -> 0 <= b -> vvNew m !! Z.to_nat b = Some s -> id ∉ s ->
  exists m', (let? m := if Z.of_nat (size s) =? NEW_BUCKET_SIZE then let? r := ShrinkNew rand b now m in Some r.2 else Some m in
    let? vNew := nth_bucket b (vvNew m) in Some (fNew, set_new (nNew m) (<[Z.to_nat b := {[id]} ∪ vNew]> (vvNew m)) m)) = Some (fNew, m') /\ manager_ok m'.
Proof.
  intros Hc Hr Hb0 Hb Hn.
  assert (Hput : forall m1 s1, consistent (extra id) m1 -> (rmark <$> mapNetworkPeer m1) !! id = Some (r, false) -> vvNew m1 !! Z.to_nat b = Some s1 -> id ∉ s1 ->
    Z.of_nat (size s1) < NEW_BUCKET_SIZE -> manager_ok (set_new (nNew m1) (<[Z.to_nat b := {[id]} ∪ s1]> (vvNew m1)) m1)).
  { intros m1 s1 [H1 H2 H3 H4 H5] Hr1 Hb1 Hn1 Hs1. split; [done|done|done| |done]. by apply (new_insert _ _ id _ _ r). }
  destruct (Z.eqb_spec (Z.of_nat (size s)) NEW_BUCKET_SIZE) as [Hfull|Hroom].
  - assert (Hne : s <> ∅) by (intros ->; rewrite size_empty in Hfull; done).
    destruct (ShrinkNew_ok (extra id) m b s now Hc Hb Hb0 Hne) as (x & m' & s' & -> & Hc' & Hb' & Hsub & _ & Ho).
    { intros id' Hid'. unfold extra. rewrite bool_decide_eq_false_2; [done|]. by intros ->. }
    cbn [option_bind mbind snd]. rewrite nth_bucket_lookup, Hb' by done. cbn [option_bind mbind]. eexists. split; [done|].
    pose proof (subset_size _ _ Hsub). apply Hput; [done| |done|set_solver|lia]. rewrite lookup_fmap, Ho, <- lookup_fmap by done. done.
  - cbn [option_bind mbind]. rewrite nth_bucket_lookup, Hb by done. cbn [option_bind mbind]. eexists. split; [done|]. apply Hput; try done.
    pose proof (new_sizes _ _ _ (c_new _ _ Hc) _ s Hb). lia.
Qed.
Lemma similar_views p q : similar_peer p q -> ipos p = ipos q /\ smark p = smark q /\ rmark p = rmark q.
Proof. intros (E1 & E2 & E3 & E4). unfold ipos, smark, rmark, peer_ip. by rewrite E1, E2, E3, E4. Qed.
Lemma Create_ok m addr src f : manager_ok m -> mapAddr m !! s_ip (a_service addr) = None -> (forall p, similar_peer (f p) p) ->
  let id := (Create addr src m).1 in
  let m1 := set_new (nNew m + 1) (vvNew m) (update_peer id f (Create addr src m).2) in
  consistent (extra id) (update_peer id (fun p => set_nRefCount (nRefCount p + 1) p) m1) /\
  (rmark <$> mapNetworkPeer (update_peer id (fun p => set_nRefCount (nRefCount p + 1) p) m1)) !! id = Some (1, false) /\ mapNetworkPeer m !! id = None.
Proof.
  intros [H0 Hx Ht Hn Hs] Ha Hf id m1. assert (Hfresh : mapNetworkPeer m !! id = None).
  { destruct (mapNetworkPeer m !! id) as [p|] eqn:E; [|done]. destruct (index_pos _ _ _ _ Hx id (peer_ip p) (nRandomPos p)) as [? _]; [by rewrite lookup_fmap, E|]. unfold id in *. cbn in *. lia. }
  assert (Hrm : rmark <$> mapNetworkPeer (update_peer id (fun p => set_nRefCount (nRefCount p + 1) p) m1) = <[id := (1, false)]> (rmark <$> mapNetworkPeer m)).
  { unfold m1, id. cbn. rewrite (fmap_alter_as _ _ (fun x => (x.1 + 1, x.2))), (fmap_alter_same _ f) by (done || (intros; by apply similar_views)). rewrite fmap_insert.
    apply map_eq. intros j. destruct (decide (j = nIdCount m)) as [->|Hne]; [by rewrite lookup_alter_eq, !lookup_insert_eq|by rewrite lookup_alter_ne, !lookup_insert_ne by done]. }
  split_and!; [|by rewrite Hrm, lookup_insert_eq|done]. split; [..|rewrite Hrm|]; unfold m1; cbn [set_new update_peer set_peers Create snd nIdCount mapNetworkPeer mapAddr vRandom nTried vvTried nNew vvNew nKey]; change (nIdCount m) with id in *.
  - lia.
  - rewrite (fmap_alter_same _ (fun p => set_nRefCount (nRefCount p + 1) p)), (fmap_alter_same _ f) by (done || (intros; by apply similar_views)). rewrite fmap_insert. by apply (index_create _ _ _ id).
  - rewrite (fmap_alter_same _ (fun p => set_nRefCount (nRefCount p + 1) p)), (fmap_alter_same _ f) by (done || (intros; by apply similar_views)). rewrite fmap_insert. apply tried_fresh; [done|]. by rewrite lookup_fmap, Hfresh.
  - apply new_fresh; [done|]. by rewrite lookup_fmap, Hfresh.
  - rewrite !size_alter, map_size_insert_None by done. lia.
Qed.
Lemma found_again_ok addr pen now id p m : manager_ok m -> mapNetworkPeer m !! id = Some p ->
  let '(go, m1) := found_again rand addr pen now id p m in
  manager_ok m1 /\ exists p1, mapNetworkPeer m1 !! id = Some p1 /\ (go = true -> exists r, rmark p1 = (r, false) /\ r <> NEW_BUCKETS_PER_ADDRESS).
Proof.
  intros Hc Hp. unfold found_again. set (p1 := add_services _ _).
  assert (Hsim : similar_peer p1 p) by (unfold p1; destruct (negb (a_nTime addr =? 0) && _); by split_and!).
  set (m1 := update_peer id (fun _ => p1) m). assert (H1 : manager_ok m1) by (apply update_consistent; [done|]; intros q Hq; congruence).
  assert (Hp1 : mapNetworkPeer m1 !! id = Some p1) by (cbn; by rewrite lookup_alter_eq, Hp).
  assert (Hno : manager_ok m1 /\ exists p1, mapNetworkPeer m1 !! id = Some p1 /\ (false = true -> exists r, rmark p1 = (r, false) /\ r <> NEW_BUCKETS_PER_ADDRESS)) by (split; [done|]; by exists p1).
  destruct ((a_nTime addr =? 0) || _); [exact Hno|]. destruct (fInTried p1) eqn:Ht; [exact Hno|].
  destruct (Z.eqb_spec (nRefCount p1) NEW_BUCKETS_PER_ADDRESS) as [|Hr]; [exact Hno|].
  assert (Hgo : exists r, rmark p1 = (r, false) /\ r <> NEW_BUCKETS_PER_ADDRESS) by (exists (nRefCount p1); split; [by unfold rmark; rewrite Ht|done]).
  destruct (1 <? _); [|cbv beta iota; split; [done|]; by exists p1]. pose proof (draws_ok _ m1 (Z.shiftl 1 (nRefCount p1)) H1) as (H2 & E & _). destruct (GetRandInt rand _ m1) as [r m2]. cbn [fst snd] in *.
  split; [done|]. exists p1. by rewrite E.
Qed.
Lemma Add_ok addr src pen now m : manager_ok m -> exists b m', Add_ rand addr src pen now m = Some (b, m') /\ manager_ok m'.
Proof.
  intros Hc. unfold Add_. destruct (negb (IsRoutable _)); [by exists false, m|]. pose proof (Find_spec m (s_ip (a_service addr)) Hc) as Hf.
  assert (Hvv : forall m1 p src, length (vvNew m1) = Z.to_nat NEW_BUCKET_COUNT -> exists s, nth_bucket (GetNewBucket p (nKey m1) src) (vvNew m1) = Some s /\
    vvNew m1 !! Z.to_nat (GetNewBucket p (nKey m1) src) = Some s).
  { intros m1 p src' Hl. apply nth_bucket_in. pose proof (GetNewBucket_range p (nKey m1) src'). rewrite Hl. unfold NEW_BUCKET_COUNT in *. lia. }
  destruct (Find (s_ip (a_service addr)) m) as [[id p]|].
  - destruct Hf as [Hp _]. pose proof (found_again_ok addr pen now id p m Hc Hp) as H. destruct (found_again rand addr pen now id p m) as [go m1]. destruct H as (H1 & p1 & Hp1 & Hgo).
    destruct go; cbn [negb]; [|by exists false, m1]. destruct (Hgo eq_refl) as (r & Hr & Hr4). rewrite Hp1. cbn [option_bind mbind].
    destruct (Hvv m1 p1 src (new_length _ _ _ (c_new _ _ H1))) as (s & Hs1 & Hs2). rewrite Hs1. cbn [option_bind mbind]. case_bool_decide as Hin; [by exists false, m1|].
    assert (Hrm : (rmark <$> mapNetworkPeer m1) !! id = Some (r, false)) by (by rewrite lookup_fmap, Hp1, <- Hr).
    set (m2 := update_peer id _ m1).
    assert (Hrm2 : rmark <$> mapNetworkPeer m2 = alter (ref_to (r + 1)) id (rmark <$> mapNetworkPeer m1)).
    { unfold m2. cbn. rewrite (fmap_alter_as _ _ (fun x => (x.1 + 1, x.2))) by done. apply map_eq. intros j.
      destruct (decide (j = id)) as [->|Hne]; [by rewrite !lookup_alter_eq, Hrm|by rewrite !lookup_alter_ne by done]. }
    assert (Hc2 : consistent (extra id) m2).
    { pose proof H1 as [A0 A1 A2 A3 A4]. split; [done|..|rewrite Hrm2; by apply new_again|];
        unfold m2; cbn [update_peer set_peers nIdCount mapNetworkPeer mapAddr vRandom nTried vvTried nNew vvNew nKey]; [by rewrite fmap_alter_same..|by rewrite size_alter]. }
    destruct (finish_add false m2 id (r + 1) (GetNewBucket p1 (nKey m1) src) s now Hc2) as (m' & Hm' & Hok); [by rewrite Hrm2, lookup_alter_eq, Hrm|apply GetNewBucket_range|done|done|].
    by exists false, m'.
  - set (f := fun p => set_nTime (u32 (Z.max 0 (a_nTime (np_addr p) - pen))) p).
    pose proof (Create_ok m addr src f Hc Hf) as HC. cbn zeta in HC. destruct (Create addr src m) as [id m0] eqn:Ecr. cbn [fst snd] in HC.
    destruct HC as (Hc2 & Hone & Hfresh); [intros q; by split_and!|]. assert (Hm0 : nNew m0 = nNew m /\ vvNew m0 = vvNew m) by (unfold Create in Ecr; injection Ecr as _ <-; done). destruct Hm0 as [En Ev].
    change (nNew (update_peer id f m0)) with (nNew m0). change (vvNew (update_peer id f m0)) with (vvNew m0). rewrite En, Ev. set (m1 := set_new (nNew m + 1) (vvNew m) (update_peer id f m0)) in *. cbn [negb].
    assert (Hp1 : exists p1, mapNetworkPeer m1 !! id = Some p1).
    { rewrite lookup_fmap in Hone. cbn in Hone. rewrite lookup_alter_eq in Hone. destruct (mapNetworkPeer m1 !! id) as [p1|] eqn:E; [by exists p1|]. unfold m1 in E. cbn in E. by rewrite E in Hone. }
    destruct Hp1 as [p1 Hp1]. rewrite Hp1. cbn [option_bind mbind]. destruct (Hvv m1 p1 src (new_length _ _ _ (c_new _ _ Hc))) as (s & Hs1 & Hs2). rewrite Hs1. cbn [option_bind mbind].
    assert (Hin : id ∉ s). { intros Hin. destruct (new_elem _ _ _ (c_new _ _ Hc) _ s id Hs2 Hin) as [r Hr]. by rewrite lookup_fmap, Hfresh in Hr. }
    rewrite bool_decide_eq_false_2 by done.
    destruct (finish_add true _ id 1 (GetNewBucket p1 (nKey m1) src) s now Hc2 Hone) as (m' & Hm' & Hok); [apply GetNewBucket_range|done|done|].
    by exists true, m'.
Qed.

Lemma Add_all_ok addrs src pen now : forall m, manager_ok m -> exists n m', Add_all rand addrs src pen now m = Some (n, m') /\ manager_ok m'.
Proof.
  induction addrs as [|a r IH]; intros m Hc; [by exists 0, m|]. cbn [Add_all]. destruct (Add_ok a src pen now m Hc) as (b & m1 & -> & H1). cbn [option_bind mbind snd].
  destruct (IH m1 H1) as (n & m2 & -> & H2). cbn [option_bind mbind fst snd]. by eexists _, m2.
Qed.
Lemma swapped_consistent e m m' : consistent e m -> index_ok (ipos <$> mapNetworkPeer m') (mapAddr m') (vRandom m') (nIdCount m') -> same_but_positions m m' -> consistent e m'.
Proof. intros [H0 Hx Ht Hn Hs] Hx' [E1 E2 E3 E4 E5 E6 E7 E8 E9 _ E10 E11]. split; [lia|done|by rewrite E8, E5, E1, E4|by rewrite E9, E7|lia]. Qed.
(** the addresses of the first [n] entries in the random order *)
Definition front_addrs (n : nat) (m : NetworkPeerManager) : list (option CAddress) := map (fun id => np_addr <$> mapNetworkPeer m !! id) (take n (vRandom m)).
Lemma getaddr_loop_ok f : forall n l m, manager_ok m -> (n + f <= length (vRandom m))%nat -> map Some l = front_addrs n m ->
  exists l' m', getaddr_loop rand f (Z.of_nat n) l m = Some (l', m') /\ manager_ok m' /\ map Some l' = front_addrs (n + f) m' /\ np_addr <$> mapNetworkPeer m' = np_addr <$> mapNetworkPeer m.
Proof.
  induction f as [|f IH]; intros n l m Hc Hn Hl; [exists l, m; by rewrite Nat.add_0_r|]. cbn [getaddr_loop].
  pose proof (draws_ok _ m (Z.of_nat (length (vRandom m)) - Z.of_nat n) Hc) as (H1 & E1 & _ & E2 & _). pose proof (random_range (Z.of_nat (length (vRandom m)) - Z.of_nat n) m ltac:(lia)) as Hr.
  destruct (GetRandInt rand _ m) as [r m1]. cbn [fst snd] in *.
  destruct (SwapRandom_spec m1 (Z.of_nat n) (r + Z.of_nat n) (c_index _ _ H1)) as (m2 & -> & Hx2 & Hsame & _ & Hk); [rewrite E2; lia..|]. cbn [option_bind mbind].
  pose proof (swapped_consistent _ _ _ H1 Hx2 Hsame) as H2. pose proof (sp_addrs _ _ Hsame) as Ea. pose proof (sp_length _ _ Hsame) as El. rewrite E1 in Ea. rewrite E2 in El.
  destruct (nth_bucket_in (Z.of_nat n) (vRandom m2)) as (id & -> & Hid); [lia|]. cbn [option_bind mbind]. rewrite Nat2Z.id in Hid.
  destruct (index_random _ _ _ _ Hx2 _ _ Hid) as [ip Hm]. rewrite lookup_fmap in Hm. destruct (mapNetworkPeer m2 !! id) as [p|] eqn:Ep; [|done]. cbn [option_bind mbind].
  assert (Hfront : front_addrs n m2 = front_addrs n m).
  { unfold front_addrs. replace (take n (vRandom m2)) with (take n (vRandom m)).
    - apply map_ext. intros x. by rewrite <- !lookup_fmap, Ea.
    - apply list_eq. intros i. destruct (decide (i < n)%nat); [|by rewrite !lookup_take_ge by lia]. rewrite !lookup_take by lia. rewrite Hk by lia. by rewrite E2. }
  destruct (IH (S n) (l ++ [np_addr p]) m2 H2) as (l' & m' & H3 & H4 & H5 & H6); [lia| |].
  - rewrite map_app, Hl, <- Hfront. unfold front_addrs. rewrite (take_S_r _ _ _ Hid), map_app. cbn [map]. by rewrite Ep.
  - exists l', m'. replace (Z.of_nat n + 1) with (Z.of_nat (S n)) by lia. split; [done|]. split; [done|]. replace (n + S f)%nat with (S n + f)%nat by lia. split; [done|]. by rewrite H6, Ea.
Qed.
Lemma GetAddr_ok m : manager_ok m -> exists l m', GetAddr_ rand m = Some (l, m') /\ manager_ok m' /\
  map Some l = front_addrs (Z.to_nat (Z.min GETADDR_MAX (GETADDR_MAX_PCT * Z.of_nat (length (vRandom m)) / 100))) m' /\ np_addr <$> mapNetworkPeer m' = np_addr <$> mapNetworkPeer m.
Proof.
  intros Hc. unfold GetAddr_. apply (getaddr_loop_ok _ 0 [] m Hc); [|done]. unfold GETADDR_MAX, GETADDR_MAX_PCT.
  assert (23 * Z.of_nat (length (vRandom m)) / 100 <= Z.of_nat (length (vRandom m))) by (apply Z.div_le_upper_bound; lia). lia.
Qed.
End Consistency.

(** ** Histories *)

Section Histories.
Context {K : Crypto} (rand : nat -> Z).
Inductive npm_op :=
  | OpAdd (vAddr : list CAddress) (src : CNetAddr) (nTimePenalty now : Z)
  | OpGood (addr : CService) (nTime : Z)
  | OpAttempt (addr : CService) (nTime : Z)
  | OpConnected (addr : CService) (nTime : Z)
  | OpGetAddr.
Definition run_npm_op (o : npm_op) (m : NetworkPeerManager) : option NetworkPeerManager :=
  match o with
  | OpAdd vAddr src pen now => let? r := Add_all rand vAddr src pen now m in Some r.2
  | OpGood addr t => Good_ rand addr t m
  | OpAttempt addr t => Some (Attempt_ addr t m)
  | OpConnected addr t => Some (Connected_ addr t m)
  | OpGetAddr => let? r := GetAddr_ rand m in Some r.2
  end.
Fixpoint run_npm (ops : list npm_op) (m : NetworkPeerManager) : option NetworkPeerManager := match ops with [] => Some m | o :: r => let? m := run_npm_op o m in run_npm r m end.

Lemma new_manager_ok key : manager_ok (new_manager key).
Proof.
  split; cbn [new_manager nIdCount mapNetworkPeer mapAddr vRandom nTried vvTried nNew vvNew nKey]; rewrite ?fmap_empty; [done|..].
  - split; [intros ip id; rewrite !lookup_empty; split; [done|intros [? [=]]]|intros ? ? ? H; by rewrite lookup_empty in H|intros ? ? H; by rewrite lookup_nil in H].
  - split; [by rewrite length_replicate| | |].
    + intros b v [-> _]%lookup_replicate. split; [by apply NoDup_nil|done].
    + intros b v id [-> _]%lookup_replicate. split; [by intros ?%not_elem_of_nil|intros (? & H & _); by rewrite lookup_empty in H].
    + by vm_compute.
  - split; [by rewrite length_replicate| | | |].
    + intros b s [-> _]%lookup_replicate. by rewrite size_empty.
    + intros b s id [-> _]%lookup_replicate. set_solver.
    + intros ? ? H. by rewrite lookup_empty in H.
    + intros ? ? H. by rewrite lookup_empty in H.
  - by rewrite map_size_empty.
Qed.
Lemma run_npm_op_ok o m : manager_ok m -> exists m', run_npm_op o m = Some m' /\ manager_ok m'.
Proof.
  intros Hc. destruct o as [addrs src pen now|addr t|addr t|addr t|]; cbn [run_npm_op].
  - destruct (Add_all_ok rand addrs src pen now m Hc) as (n & m' & -> & H). by exists m'.
  - by apply Good_ok.
  - eexists. split; [done|]. by apply Attempt_ok.
  - eexists. split; [done|]. by apply Connected_ok.
  - destruct (GetAddr_ok rand m Hc) as (l & m' & -> & H & _). by exists m'.
Qed.
Lemma run_npm_ok ops : forall m, manager_ok m -> exists m', run_npm ops m = Some m' /\ manager_ok m'.
Proof.
  induction ops as [|o ops IH]; intros m Hc; [by exists m|]. cbn [run_npm]. destruct (run_npm_op_ok o m Hc) as (m1 & -> & H1). cbn [option_bind mbind]. by apply IH.
Qed.
End Histories.

(** ** What consistency gives *)

Lemma length_concat_bound {A} (V : list (list A)) k : Forall (fun v => Z.of_nat (length v) <= k) V -> Z.of_nat (length (concat V)) <= Z.of_nat (length V) * k.
Proof. induction 1 as [|v V Hv _ IH]; [done|]. cbn [concat length]. rewrite length_app. lia. Qed.
Lemma refs_bucket id V : 1 <= refs id V -> exists b s, V !! b = Some s /\ id ∈ s.
Proof.
  induction V as [|s V IH]; cbn; [lia|]. intros H. destruct (decide (id ∈ s)) as [Hin|Hn]; [by exists 0%nat, s|].
  rewrite bool_decide_eq_false_2 in H by done. destruct IH as (b & s' & Hb & Hin); [lia|]. by exists (S b), s'.
Qed.
Section Consequences.
Context {K : Crypto} (rand : nat -> Z).
Lemma random_nodup m : manager_ok m -> NoDup (vRandom m).
Proof.
  intros Hc. apply NoDup_alt. intros i j x Hi Hj. destruct (index_random _ _ _ _ (c_index _ _ Hc) _ _ Hi) as [ip H1]. destruct (index_random _ _ _ _ (c_index _ _ Hc) _ _ Hj) as [ip' H2].
  rewrite H1 in H2. injection H2 as _ H2. lia.
Qed.
Lemma random_size m : manager_ok m -> length (vRandom m) = size (mapNetworkPeer m).
Proof.
  intros Hc. rewrite <- (length_map_to_list (mapNetworkPeer m)), <- (length_map fst). apply Permutation_length.
  apply NoDup_Permutation; [by apply random_nodup|apply NoDup_fst_map_to_list|]. intros id. split.
  - intros H. apply list_elem_of_lookup in H as [i Hi]. destruct (index_random _ _ _ _ (c_index _ _ Hc) _ _ Hi) as [ip Hm].
    rewrite lookup_fmap in Hm. destruct (mapNetworkPeer m !! id) as [p|] eqn:Ep; [|done]. apply list_elem_of_fmap. exists (id, p). split; [done|]. by apply elem_of_map_to_list.
  - intros H. apply list_elem_of_fmap in H as ([k p] & -> & Hk). apply elem_of_map_to_list in Hk. cbn. apply list_elem_of_lookup.
    destruct (index_pos _ _ _ _ (c_index _ _ Hc) k (peer_ip p) (nRandomPos p)) as (_ & _ & Hr); [by rewrite lookup_fmap, Hk|]. by eexists.
Qed.
Lemma table_bound m : manager_ok m -> Z.of_nat (length (vRandom m)) <= 20480.
Proof.
  intros Hc. pose proof Hc as [H0 Hx Ht Hn Hs].
  assert (Hsub : vRandom m ⊆+ concat (vvTried m) ++ concat (map elements (vvNew m))).
  { apply NoDup_submseteq; [by apply random_nodup|]. intros id Hid. apply list_elem_of_lookup in Hid as [i Hi].
    destruct (index_random _ _ _ _ Hx _ _ Hi) as [ip Hm]. rewrite lookup_fmap in Hm. destruct (mapNetworkPeer m !! id) as [p|] eqn:Ep; [|done].
    apply elem_of_app. destruct (fInTried p) eqn:Ef.
    - left. pose proof (tried_bucket_range (a_service (np_addr p)) (nKey m)) as Hr. unfold TRIED_BUCKET_COUNT in Hr.
      destruct (nth_bucket_in (tried_bucket (a_service (np_addr p)) (nKey m)) (vvTried m)) as (v & _ & Hv); [rewrite (tried_length _ _ _ _ Ht); unfold TRIED_BUCKET_COUNT; lia|].
      apply list_elem_of_In, in_concat. exists v. split; [apply list_elem_of_In; by apply list_elem_of_lookup_2 in Hv|]. apply list_elem_of_In.
      apply (tried_elem _ _ _ _ Ht _ v id Hv). exists (a_service (np_addr p)). rewrite lookup_fmap, Ep, Z2Nat.id by lia. split; [|done]. cbn. unfold smark. by rewrite Ef.
    - right. destruct (new_refs _ _ _ Hn id (nRefCount p)) as [Hr1 Hr2]; [rewrite lookup_fmap, Ep; cbn; unfold rmark; by rewrite Ef|]. unfold no_extra in Hr1.
      destruct (refs_bucket id (vvNew m)) as (b & s & Hb & Hin); [lia|]. apply list_elem_of_In, in_concat. exists (elements s).
      split; [apply in_map, list_elem_of_In; by apply list_elem_of_lookup_2 in Hb|]. apply list_elem_of_In. by apply elem_of_elements. }
  apply submseteq_length in Hsub. rewrite length_app in Hsub.
  assert (H1 : Z.of_nat (length (concat (vvTried m))) <= 64 * 64).
  { pose proof (tried_length _ _ _ _ Ht) as Hl. unfold TRIED_BUCKET_COUNT in Hl. etrans; [apply (length_concat_bound _ 64)|rewrite Hl; done].
    apply Forall_lookup. intros b v Hv. destruct (tried_nodup _ _ _ _ Ht b v Hv). unfold TRIED_BUCKET_SIZE in *. lia. }
  assert (H2 : Z.of_nat (length (concat (map elements (vvNew m)))) <= 256 * 64).
  { pose proof (new_length _ _ _ Hn) as Hl. unfold NEW_BUCKET_COUNT in Hl. etrans; [apply (length_concat_bound _ 64)|rewrite length_map, Hl; done].
    apply Forall_map, Forall_lookup. intros b s Hb. pose proof (new_sizes _ _ _ Hn b s Hb) as Hsz. unfold NEW_BUCKET_SIZE, size, set_size in *. cbn in *. lia. }
  lia.
Qed.

(** C23: The address manager stays consistent and bounded.  Whatever addresses are added from whatever sources, marked good, attempted or connected and
    handed out, with whatever random numbers: no assertion fails and no entry is missing; the index by address, the random order and the entries
    are one bijection; every tried entry is in the bucket of its address and nowhere else, every other entry is in as many new buckets as it counts, from one
    to four; no bucket holds more than 64 entries, so that there are never more than 20480 addresses. *)
Theorem manager_consistent key ops :
  exists m, run_npm rand ops (new_manager key) = Some m /\ manager_ok m /\ Z.of_nat (length (vRandom m)) <= 20480.
Proof.
  destruct (run_npm_ok rand ops (new_manager key) (new_manager_ok key)) as (m & Hm & Hok). exists m. split; [done|]. split; [done|]. by apply table_bound.
Qed.

(** What is handed out: of a consistent manager 23 in 100 of the addresses, but at most 2500, all different and each that of an entry. *)
Theorem GetAddr_selects m : manager_ok m -> exists l m', GetAddr_ rand m = Some (l, m') /\
  Z.of_nat (length l) = Z.min 2500 (23 * Z.of_nat (length (vRandom m)) / 100) /\ NoDup (map (fun a => s_ip (a_service a)) l) /\
  forall a, a ∈ l -> exists id p, mapNetworkPeer m !! id = Some p /\ np_addr p = a.
Proof.
  intros Hc. destruct (GetAddr_ok rand m Hc) as (l & m' & H1 & H2 & H3 & H4). exists l, m'. split; [done|]. unfold GETADDR_MAX, GETADDR_MAX_PCT in H3.
  set (n := Z.to_nat _) in H3.
  assert (Hsz : length (vRandom m') = length (vRandom m)).
  { destruct (GetAddr_ok rand m Hc) as (l2 & m2 & E1 & _ & E2 & _). rewrite H1 in E1. injection E1 as <- <-.
    rewrite !random_size by done. assert (He : size (np_addr <$> mapNetworkPeer m') = size (np_addr <$> mapNetworkPeer m)) by by rewrite H4. by rewrite !map_size_fmap in He. }
  assert (Hn : (n <= length (vRandom m'))%nat) by (rewrite Hsz; unfold n; assert (23 * Z.of_nat (length (vRandom m)) / 100 <= Z.of_nat (length (vRandom m))) by (apply Z.div_le_upper_bound; lia); lia).
  pose proof (f_equal length H3) as Hlen. unfold front_addrs in Hlen. rewrite !length_map, length_take, Nat.min_l in Hlen by done.
  assert (Hent : forall i a, l !! i = Some a -> exists id p, vRandom m' !! i = Some id /\ mapNetworkPeer m' !! id = Some p /\ np_addr p = a).
  { intros i a Ha. assert (Hx : map Some l !! i = Some (Some a)) by (by rewrite list_lookup_fmap, Ha). rewrite H3 in Hx. unfold front_addrs in Hx.
    rewrite list_lookup_fmap in Hx. destruct (take n (vRandom m') !! i) as [id|] eqn:E; [|done]. cbn in Hx. apply lookup_take_Some in E as [E _].
    destruct (mapNetworkPeer m' !! id) as [p|] eqn:Ep; [|done]. injection Hx as Hx. by exists id, p. }
  split_and!.
  - unfold n in Hlen. pose proof (Z.div_pos (23 * Z.of_nat (length (vRandom m))) 100 ltac:(lia) ltac:(lia)). lia.
  - apply NoDup_alt. intros i j ip Hi Hj. rewrite list_lookup_fmap in Hi, Hj. destruct (l !! i) as [a|] eqn:Ea; [|done]. destruct (l !! j) as [b|] eqn:Eb; [|done].
    injection Hi as Hi. injection Hj as Hj. destruct (Hent i a Ea) as (id & p & R1 & M1 & A1). destruct (Hent j b Eb) as (id' & p' & R2 & M2 & A2).
    assert (HI : forall id p, mapNetworkPeer m' !! id = Some p -> mapAddr m' !! peer_ip p = Some id).
    { intros k q Hk. apply (index_addr _ _ _ _ (c_index _ _ H2)). exists (nRandomPos q). by rewrite lookup_fmap, Hk. }
    apply HI in M1, M2. unfold peer_ip in *. rewrite A1, Hi in M1. rewrite A2, Hj in M2. assert (id = id') by congruence. subst id'.
    by apply (NoDup_lookup (vRandom m') i j id (random_nodup m' H2)).
  - intros a Ha. apply list_elem_of_lookup in Ha as [i Hi]. destruct (Hent i a Hi) as (id & p & _ & Hm & Ha).
    assert (Hq : (np_addr <$> mapNetworkPeer m) !! id = Some a) by (rewrite <- H4, lookup_fmap, Hm; cbn; by rewrite Ha).
    rewrite lookup_fmap in Hq. destruct (mapNetworkPeer m !! id) as [q|] eqn:Eq; [|done]. injection Hq as Hq. by exists id, q.
Qed.
End Consequences.

(** ** An example *)

Definition demo_rand (n : nat) : Z := Z.of_nat n * 7 + 3.
Definition demo_address (a b c d : Z) (t : Z) : CAddress := {| a_service := demo_service a b c d; nServices := 1; a_nTime := t; nLastTry := 0 |}.
Definition demo_npm : list npm_op :=
  [OpAdd [demo_address 8 8 4 4 1000000; demo_address 8 8 8 8 1000000; demo_address 9 1 2 3 1000000; demo_address 11 1 2 3 1000000; demo_address 12 1 2 3 1000000] (demo_ip 5 5 5 5) 0 1000500;
   OpGood (demo_service 8 8 4 4) 1000600; OpAttempt (demo_service 9 1 2 3) 1000600; OpGetAddr].
Lemma GetAddr_selects_witness : exists m, run_npm (K := ToyCrypto) demo_rand demo_npm (new_manager (replicate 32 7)) = Some m /\
  exists l m', GetAddr_ demo_rand m = Some (l, m') /\ Z.of_nat (length l) = Z.min 2500 (23 * Z.of_nat (length (vRandom m)) / 100) /\
    NoDup (map (fun a => s_ip (a_service a)) l) /\ forall a, a ∈ l -> exists id p, mapNetworkPeer m !! id = Some p /\ np_addr p = a.
Proof.
  destruct (run_npm_ok (K := ToyCrypto) demo_rand demo_npm (new_manager (replicate 32 7)) (new_manager_ok _)) as (m & Hm & Hok). exists m. split; [exact Hm|].
  exact (GetAddr_selects (K := ToyCrypto) demo_rand m Hok).
Defined.
Example demo_npm_counts : option_map (fun m => (nNew m, nTried m, vRandom m)) (run_npm (K := ToyCrypto) demo_rand demo_npm (new_manager (replicate 32 7))) = Some (4, 1, [0; 1; 2; 3; 4]).
Proof. vm_compute. reflexivity. Qed.

(** an entry with its last success *)
Definition entry (t : Z) : NetworkPeer := peer_with 0 0 1 t 0 (new_NetworkPeer (demo_address 8 8 4 4 0) (demo_ip 5 5 5 5)).
Definition two_tried : NetworkPeerManager := set_peers (fun _ => {[0 := entry 100; 1 := entry 5]}) (set_tried 2 (<[0%nat := [0; 1]]> (vvTried (new_manager []))) (new_manager [])).
(** The entry that gives way is not the oldest one inspected.  [SelectTried] shuffles the bucket while it looks for the entry with the
    oldest success, and returns the position that entry came from, not the one it was moved to: with both entries of a bucket inspected
    it chooses the one that succeeded last. *)
Theorem SelectTried_wrong_position :
  exists m pos id p, SelectTried (fun n => if bool_decide (n = 0%nat) then 1 else 0) 0 two_tried = Some (pos, m) /\
    (let? v := nth_bucket 0 (vvTried m) in nth_bucket pos v) = Some id /\ mapNetworkPeer m !! id = Some p /\
    forall id' q, mapNetworkPeer m !! id' = Some q -> nLastSuccess q <= nLastSuccess p.
Proof.
  eexists _, 1, 0, (entry 100). split; [vm_compute; reflexivity|]. split; [vm_compute; reflexivity|]. split; [vm_compute; reflexivity|].
  intros id' q Hq. assert (Hm : ({[0 := entry 100; 1 := entry 5]} : gmap Z NetworkPeer) !! id' = Some q) by exact Hq. clear Hq.
  apply lookup_insert_Some in Hm as [[_ <-]|[_ Hm]]; [done|]. apply lookup_singleton_Some in Hm as [_ <-]. vm_compute. discriminate.
Qed.
