(* ===== verification/PeerFile.v ===== *)
(** * The file of addresses (network_peer_manager.h, network_peer_database.cpp)

    How the address manager is written and read back, and peers.dat around it with the start string and a checksum.  A reading changes the manager
    while it goes on: it ends with the rest of the bytes, or throws and leaves the manager as far as it came ([Threw]; what the reading that failed left in its
    own object is not kept), or refers to a bucket that is not there ([Undefined]).  The property: what was written is read back, up to
    the identifiers and the random order; and a file with a wrong checksum changes nothing. *)

From stdpp Require Import gmap sorting.
From S2P Require Import Prelude Serialize Crypto NetAddr AddrMan TxDB.
Local Open Scope Z_scope.

Abbreviation manager := NetworkPeerManager.
Abbreviation ser_peer := (ser_NetworkPeer CLIENT_VERSION).
Abbreviation ser_int := (ser_sint 4).

(** ** Writing *)

(** the entries in the order of the map *)
Definition entries (m : manager) : list (Z * NetworkPeer) :=
  omap (fun id => pair id <$> mapNetworkPeer m !! id) (ordered (dom (mapNetworkPeer m))).
(** the entries with references, at most [nNew], each with its number in [mapUnkIds] *)
Fixpoint write_new (l : list (Z * NetworkPeer)) (nNew nIds : Z) (mapUnkIds : gmap Z Z) : bytes * gmap Z Z :=
  match l with
  | [] => ([], mapUnkIds)
  | (id, p) :: r =>
    if nIds =? nNew then ([], mapUnkIds)
    else
      let mapUnkIds := <[id := nIds]> mapUnkIds in
      if nRefCount p =? 0 then write_new r nNew nIds mapUnkIds
      else let '(b, mapUnkIds) := write_new r nNew (nIds + 1) mapUnkIds in (Serialize ser_peer p ++ b, mapUnkIds)
  end.
Fixpoint write_tried (l : list (Z * NetworkPeer)) (nTried nIds : Z) : bytes :=
  match l with
  | [] => []
  | (id, p) :: r => if nIds =? nTried then [] else if fInTried p then Serialize ser_peer p ++ write_tried r nTried (nIds + 1) else write_tried r nTried nIds
  end.
Definition write_bucket (mapUnkIds : gmap Z Z) (vNew : gset Z) : bytes :=
  Serialize ser_int (Z.of_nat (size vNew)) ++ concat (map (fun id => Serialize ser_int (default 0 (mapUnkIds !! id))) (ordered vNew)).
Definition Serialize_manager (m : manager) : bytes :=
  let '(b, mapUnkIds) := write_new (entries m) (nNew m) 0 ∅ in
  Serialize (ser_uint 1) 0 ++ Serialize ser_vch (nKey m) ++ Serialize ser_int (nNew m) ++ Serialize ser_int (nTried m) ++
  Serialize ser_int NEW_BUCKET_COUNT ++ b ++ write_tried (entries m) (nTried m) 0 ++ concat (map (write_bucket mapUnkIds) (vvNew m)).

(** ** Reading *)

Inductive reading := Read (m : manager) (rest : bytes) | Threw (m : manager) | Undefined.
(** the object of type [A] is read, or the reading of [m] throws *)
Definition get {A} (c : codec A) (m : manager) (s : bytes) (k : A -> bytes -> reading) : reading :=
  match Unserialize c s with Some (a, s) => k a s | None => Threw m end.
Definition and_then (r : reading) (k : manager -> bytes -> reading) : reading := match r with Read m s => k m s | _ => r end.

Definition default_peer : NetworkPeer := new_NetworkPeer (address_Init service_Init) addr_Init.
(** the members that are read, and those that are cleared *)
Definition set_header (key : bytes) (new tried : Z) (m : manager) : manager :=
  {| nKey := key; nIdCount := nIdCount m; mapNetworkPeer := mapNetworkPeer m; mapAddr := mapAddr m; vRandom := vRandom m; nTried := tried; vvTried := vvTried m;
     nNew := new; vvNew := vvNew m; drawn := drawn m |}.
Definition cleared (m : manager) : manager :=
  {| nKey := nKey m; nIdCount := 0; mapNetworkPeer := ∅; mapAddr := ∅; vRandom := []; nTried := nTried m; vvTried := replicate (Z.to_nat TRIED_BUCKET_COUNT) [];
     nNew := nNew m; vvNew := replicate (Z.to_nat NEW_BUCKET_COUNT) ∅; drawn := drawn m |}.
Definition set_nIdCount (n : Z) (m : manager) : manager :=
  {| nKey := nKey m; nIdCount := n; mapNetworkPeer := mapNetworkPeer m; mapAddr := mapAddr m; vRandom := vRandom m; nTried := nTried m; vvTried := vvTried m;
     nNew := nNew m; vvNew := vvNew m; drawn := drawn m |}.
(** an entry under a number, in the index and at the end of the random order *)
Definition put_entry (n : Z) (p : NetworkPeer) (m : manager) : manager :=
  set_index (<[peer_ip p := n]> (mapAddr m)) (vRandom m ++ [n]) (set_peers (insert n (set_nRandomPos (Z.of_nat (length (vRandom m))) p)) m).
Definition add_to_bucket (b : nat) (n : Z) (m : manager) : manager := set_new (nNew m) (alter (fun s => {[n]} ∪ s) b (vvNew m)) m.

Section Reading.
Context {K : Crypto}.

(** the new entries; [known]: the buckets follow.  Otherwise an entry goes to the bucket of its own source *)
Fixpoint read_new (count : nat) (n : Z) (known : bool) (m : manager) (s : bytes) : reading :=
  match count with
  | O => Read m s
  | S c =>
    match Unserialize ser_peer s with
    | None => Threw (set_peers (insert n default_peer) m)
    | Some (p, s) =>
      let m := if known then put_entry n p m
               else add_to_bucket (Z.to_nat (GetNewBucket p (nKey m) (source p))) n (put_entry n (set_nRefCount (nRefCount p + 1) p) m) in
      read_new c (n + 1) known m s
    end
  end.
Fixpoint read_tried (count : nat) (nLost : Z) (m : manager) (s : bytes) : reading :=
  match count with
  | O => Read (set_tried (nTried m - nLost) (vvTried m) m) s
  | S c =>
    get ser_peer m s (fun p s =>
      let kb := Z.to_nat (GetTriedBucket p (nKey m)) in
      match vvTried m !! kb with
      | None => Undefined
      | Some v =>
        if Z.of_nat (length v) <? TRIED_BUCKET_SIZE then
          let id := nIdCount m in
          let m := put_entry id (set_place (nRefCount p) true (nRandomPos p) p) m in
          read_tried c nLost (set_nIdCount (id + 1) (set_tried (nTried m) (<[kb := v ++ [id]]> (vvTried m)) m)) s
        else read_tried c (nLost + 1) m s
      end)
  end.
(** one bucket; an entry that is not there is created *)
Fixpoint read_indexes (count : nat) (b : nat) (known : bool) (m : manager) (s : bytes) : reading :=
  match count with
  | O => Read m s
  | S c =>
    get ser_int m s (fun nIndex s =>
      let p := default default_peer (mapNetworkPeer m !! nIndex) in
      let m := if known && (nRefCount p <? NEW_BUCKETS_PER_ADDRESS)
               then add_to_bucket b nIndex (set_peers (insert nIndex (set_nRefCount (nRefCount p + 1) p)) m) else set_peers (insert nIndex p) m in
      read_indexes c b known m s)
  end.
Fixpoint read_buckets (count b : nat) (known : bool) (m : manager) (s : bytes) : reading :=
  match count with
  | O => Read m s
  | S c =>
    match vvNew m !! b with
    | None => Undefined
    | Some _ => get ser_int m s (fun nSize s => and_then (read_indexes (Z.to_nat nSize) b known m s) (read_buckets c (S b) known))
    end
  end.
Definition Unserialize_manager (m : manager) (s : bytes) : reading :=
  get (ser_uint 1) m s (fun _ s =>
  get ser_vch m s (fun key s => let m := set_header key (nNew m) (nTried m) m in
  get ser_int m s (fun new s => let m := set_header key new (nTried m) m in
  get ser_int m s (fun tried s => let m := set_header key new tried m in
  get ser_int m s (fun nUBuckets s =>
    let known := nUBuckets =? NEW_BUCKET_COUNT in
    and_then (read_new (Z.to_nat new) 0 known (cleared m) s) (fun m s =>
    and_then (read_tried (Z.to_nat tried) 0 (set_nIdCount new m) s) (read_buckets (Z.to_nat nUBuckets) 0 known))))))).
End Reading.

(** ** The file *)

Section Database.
Context {K : Crypto} (pchMessageStart : bytes).
(** [opened], [written], [renamed]: whether the temporary file could be opened and written, and then replaces the old one *)
Definition Write (opened written renamed : bool) (m : manager) (file : option bytes) : bool * option bytes :=
  let ssPeers := pchMessageStart ++ Serialize_manager m in
  let ssPeers := ssPeers ++ Serialize (ser_uint 32) (Hash ssPeers) in
  if negb opened then (false, file) else if negb written then (false, file) else if negb renamed then (false, file) else (true, Some ssPeers).
(** [None]: undefined.  A file that cannot be opened is [None] *)
Definition Read_file (file : option bytes) (m : manager) : option (bool * manager) :=
  match file with
  | None => Some (false, m)
  | Some f =>
    let dataSize := (length f - 32)%nat in
    let vchData := take dataSize f in
    match Unserialize (ser_uint 32) (drop dataSize f) with
    | None => Some (false, m)
    | Some (hashIn, _) =>
      if negb (hashIn =? Hash vchData) then Some (false, m)
      else
        match Unserialize (ser_flat 4) vchData with
        | None => Some (false, m)
        | Some (pchMsgTmp, s) =>
          if negb (bool_decide (pchMsgTmp = pchMessageStart)) then Some (false, m)
          else match Unserialize_manager m s with Read m _ => Some (true, m) | Threw m => Some (false, m) | Undefined => None end
        end
    end
  end.
End Database.

(** ** Entries as they are stored *)

(** what is stored of an entry: neither its last try nor its places *)
Definition saved (p : NetworkPeer) : NetworkPeer :=
  {| np_addr := {| a_service := a_service (np_addr p); nServices := nServices (np_addr p); a_nTime := a_nTime (np_addr p); nLastTry := 0 |};
     source := source p; nLastSuccess := nLastSuccess p; nAttempts := nAttempts p; nRefCount := 0; fInTried := false; nRandomPos := -1 |}.
Definition storable (p : NetworkPeer) : Prop := valid_peer (saved p).

Lemma read_peer p s : storable p -> Unserialize ser_peer (Serialize ser_peer p ++ s) = Some (saved p, s).
Proof.
  intros Hp. assert (He : Serialize ser_peer p = Serialize ser_peer (saved p)) by by destruct p as [[? ? ? ?] ? ? ? ? ? ?]. rewrite He.
  pose proof (ser_NetworkPeer_lawful CLIENT_VERSION ltac:(unfold CLIENT_VERSION; lia)). by apply ser_roundtrip.
Qed.

(** ** What is written *)

Definition is_new (e : Z * NetworkPeer) : bool := negb (nRefCount e.2 =? 0).
Definition is_tried (e : Z * NetworkPeer) : bool := fInTried e.2.
Definition peer_bytes (l : list (Z * NetworkPeer)) : bytes := concat (map (fun e => Serialize ser_peer e.2) l).

Lemma entries_spec m : NoDup (entries m).*1 /\ forall id p, (id, p) ∈ entries m <-> mapNetworkPeer m !! id = Some p.
Proof.
  assert (Hl : forall l, (forall id, id ∈ l -> is_Some (mapNetworkPeer m !! id)) -> (omap (fun id => pair id <$> mapNetworkPeer m !! id) l).*1 = l).
  { induction l as [|id l IH]; intros H; [done|]. cbn. destruct (H id (list_elem_of_here _ _)) as [p ->]. cbn. f_equal. apply IH. intros k Hk. apply H. by apply list_elem_of_further. }
  assert (Hin : forall id, id ∈ ordered (dom (mapNetworkPeer m)) <-> is_Some (mapNetworkPeer m !! id)).
  { intros id. unfold ordered. by rewrite merge_sort_Permutation, elem_of_elements, elem_of_dom. }
  split.
  - unfold entries. rewrite Hl by (intros id; apply Hin). unfold ordered. rewrite merge_sort_Permutation. apply NoDup_elements.
  - intros id p. unfold entries. rewrite list_elem_of_omap. split.
    + intros (k & _ & He). destruct (mapNetworkPeer m !! k) as [q|] eqn:E; [|done]. by injection He as -> ->.
    + intros H. exists id. rewrite H. split; [apply Hin; by rewrite H|done].
Qed.

Lemma write_new_spec l nNew : forall nIds ids, NoDup l.*1 -> nNew = nIds + Z.of_nat (length (List.filter is_new l)) ->
  exists ids', write_new l nNew nIds ids = (peer_bytes (List.filter is_new l), ids') /\
    (forall i e, List.filter is_new l !! i = Some e -> ids' !! e.1 = Some (nIds + Z.of_nat i)) /\ (forall id, id ∉ l.*1 -> ids' !! id = ids !! id).
Proof.
  induction l as [|[id p] l IH]; intros nIds ids Hnd Hn; [by exists ids|]. cbn [fmap list_fmap fst] in Hnd. apply NoDup_cons in Hnd as [Hid Hnd]. cbn [write_new List.filter] in *.
  change (is_new (id, p)) with (negb (nRefCount p =? 0)) in *. destruct (Z.eqb_spec (nRefCount p) 0) as [H0|H0]; cbn [negb length] in *.
  - destruct (Z.eqb_spec nIds nNew) as [->|Hne].
    + assert (Hf : List.filter is_new l = []) by (destruct (List.filter is_new l); [done|cbn in Hn; lia]). rewrite Hf. exists ids. by split_and!.
    + destruct (IH nIds (<[id := nIds]> ids) Hnd Hn) as (ids' & -> & H1 & H2). exists ids'. split_and!; [done|exact H1|].
      intros k [Hk1 Hk2]%not_elem_of_cons. rewrite H2 by done. by rewrite lookup_insert_ne.
  - rewrite (proj2 (Z.eqb_neq nIds nNew)) by lia. destruct (IH (nIds + 1) (<[id := nIds]> ids) Hnd) as (ids' & -> & H1 & H2); [lia|]. exists ids'. split_and!; [done| |].
    + intros [|i] e; cbn [lookup list_lookup].
      * intros [= <-]. cbn [fst]. rewrite H2, lookup_insert_eq by done. f_equal. lia.
      * intros He. rewrite (H1 i e He). f_equal. lia.
    + intros k [Hk1 Hk2]%not_elem_of_cons. rewrite H2 by done. by rewrite lookup_insert_ne.
Qed.
Lemma write_tried_spec l nTried : forall nIds, nTried = nIds + Z.of_nat (length (List.filter is_tried l)) -> write_tried l nTried nIds = peer_bytes (List.filter is_tried l).
Proof.
  induction l as [|[id p] l IH]; intros nIds Hn; [done|]. cbn [write_tried List.filter] in *. change (is_tried (id, p)) with (fInTried p) in *.
  destruct (fInTried p); cbn [length] in Hn.
  - rewrite (proj2 (Z.eqb_neq nIds nTried)) by lia. rewrite (IH (nIds + 1)) by lia. done.
  - destruct (Z.eqb_spec nIds nTried) as [->|Hne]; [|by apply IH]. by destruct (List.filter is_tried l); [|cbn in Hn; lia].
Qed.

(** ** The entries that are read *)

(** the entries [l] are those of the manager, numbered in their order *)
Record built (l : list NetworkPeer) (m : manager) : Prop := {
  b_map : forall id, mapNetworkPeer m !! id = if id <? 0 then None else set_nRandomPos id <$> l !! Z.to_nat id;
  b_addr : forall ip id, mapAddr m !! ip = Some id <-> 0 <= id /\ exists p, l !! Z.to_nat id = Some p /\ peer_ip p = ip;
  b_random : vRandom m = map Z.of_nat (seq 0 (length l));
}.
Lemma built_size l m : built l m -> length (vRandom m) = length l.
Proof. intros H. by rewrite (b_random _ _ H), length_map, length_seq. Qed.
Lemma lookup_snoc_Some {A} (l : list A) x i y : (l ++ [x]) !! i = Some y <-> l !! i = Some y \/ (i = length l /\ y = x).
Proof.
  rewrite lookup_app_Some, list_lookup_singleton_Some. split.
  - intros [?|(H & H1 & ->)]; [by left|]. right. split; [lia|done].
  - intros [?|[-> ->]]; [by left|]. right. split_and!; [lia|lia|done].
Qed.
Lemma built_put l m p : built l m -> NoDup (map peer_ip (l ++ [p])) -> built (l ++ [p]) (put_entry (Z.of_nat (length l)) p m).
Proof.
  intros Hb Hnd. pose proof (built_size l m Hb) as Hsz. destruct Hb as [Hm Ha Hr]. rewrite map_app in Hnd. apply NoDup_app in Hnd as (_ & Hfresh & _).
  assert (Hip : forall id, 0 <= id -> (exists q, l !! Z.to_nat id = Some q /\ peer_ip q = peer_ip p) -> False).
  { intros id _ (q & Hq & He). apply (Hfresh (peer_ip p)); [|by left]. rewrite <- He. apply list_elem_of_fmap. exists q. split; [done|]. by apply list_elem_of_lookup_2 in Hq. }
  split; cbn [put_entry set_index set_peers mapNetworkPeer mapAddr vRandom].
  - intros id. rewrite Hsz. destruct (decide (id = Z.of_nat (length l))) as [->|Hne].
    + rewrite lookup_insert_eq, (proj2 (Z.ltb_ge _ _)), Nat2Z.id, lookup_app_r, Nat.sub_diag by lia. done.
    + rewrite lookup_insert_ne, Hm by done. destruct (Z.ltb_spec id 0); [done|]. f_equal. symmetry. destruct (decide (Z.to_nat id < length l)%nat); [by apply lookup_app_l|].
      rewrite (lookup_ge_None_2 l) by lia. apply lookup_ge_None_2. rewrite length_app. cbn. lia.
  - intros ip id. destruct (decide (ip = peer_ip p)) as [->|Hne].
    + rewrite lookup_insert_eq. split.
      * intros [= <-]. split; [lia|]. exists p. rewrite Nat2Z.id, lookup_app_r, Nat.sub_diag by lia. done.
      * intros [Hid (q & [Hq|[Hq _]]%lookup_snoc_Some & He)]; [destruct (Hip id Hid); by exists q|]. f_equal. lia.
    + rewrite lookup_insert_ne, Ha by done. split; intros [Hid (q & Hq & He)]; (split; [done|]); exists q; (split; [|done]); [apply lookup_snoc_Some; by left|].
      apply lookup_snoc_Some in Hq as [Hq|[_ ->]]; [done|]. congruence.
  - rewrite Hr, length_app, Nat.add_1_r, seq_S, map_app. done.
Qed.
Lemma built_index l m : built l m -> index_ok (ipos <$> mapNetworkPeer m) (mapAddr m) (vRandom m) (Z.of_nat (length l)).
Proof.
  intros Hb. destruct Hb as [Hm Ha Hr].
  assert (HM : forall id x, (ipos <$> mapNetworkPeer m) !! id = Some x <-> 0 <= id /\ exists p, l !! Z.to_nat id = Some p /\ x = (peer_ip p, id)).
  { intros id x. rewrite lookup_fmap, Hm. destruct (Z.ltb_spec id 0) as [Hl|Hl]; [split; [done|lia]|]. destruct (l !! Z.to_nat id) as [p|]; cbn.
    - split; [intros [= <-]; split; [done|by exists p]|]. intros (_ & q & [= <-] & ->). done.
    - split; [done|]. by intros (_ & q & [=] & _). }
  split.
  - intros ip id. rewrite Ha. split.
    + intros [Hid (p & Hp & <-)]. exists id. apply HM. split; [done|by exists p].
    + intros (pos & H). apply HM in H as (Hid & p & Hp & [= -> ->]). split; [done|by exists p].
  - intros id ip pos H. apply HM in H as (Hid & p & Hp & [= -> ->]). pose proof (lookup_lt_Some _ _ _ Hp) as Hlt. split_and!; [lia|lia|lia|].
    rewrite Hr, list_lookup_fmap, lookup_seq_lt by lia. cbn. f_equal. lia.
  - intros i id H. rewrite Hr, list_lookup_fmap in H. destruct (seq 0 (length l) !! i) as [k|] eqn:E; [|done]. injection H as <-. apply lookup_seq in E as [-> Hi].
    destruct (lookup_lt_is_Some_2 l i Hi) as [p Hp]. exists (peer_ip p). apply HM. split; [lia|]. exists p. by rewrite Nat2Z.id.
Qed.

(** what reading entries leaves alone *)
Record same_tables (m m' : manager) : Prop := {
  st_key : nKey m' = nKey m; st_nNew : nNew m' = nNew m; st_vvNew : vvNew m' = vvNew m; st_nTried : nTried m' = nTried m;
}.
Lemma map_peer_ip_saved l : map peer_ip (map saved l) = map peer_ip l.
Proof. rewrite map_map. by apply map_ext. Qed.

Section ReadEntries.
Context {K : Crypto}.

Lemma read_new_spec P s : forall l m, built l m -> Forall storable P -> NoDup (map peer_ip (l ++ P)) ->
  exists m', read_new (length P) (Z.of_nat (length l)) true m (concat (map (Serialize ser_peer) P) ++ s) = Read m' s /\
    built (l ++ map saved P) m' /\ same_tables m m' /\ vvTried m' = vvTried m.
Proof.
  induction P as [|p P IH]; intros l m Hb Hst Hnd; cbn [map concat length read_new].
  { exists m. rewrite app_nil_r. by split_and!. }
  apply Forall_cons in Hst as [Hp Hst]. rewrite <- app_assoc, read_peer by done. cbn [get].
  assert (Hips : map peer_ip (l ++ [saved p]) = map peer_ip (l ++ [p])) by by rewrite !map_app.
  assert (Hnd1 : NoDup (map peer_ip (l ++ [saved p]))).
  { rewrite Hips. replace (l ++ p :: P) with ((l ++ [p]) ++ P) in Hnd by by rewrite <- app_assoc. rewrite map_app in Hnd. by apply NoDup_app in Hnd as [? _]. }
  pose proof (built_put l m (saved p) Hb Hnd1) as Hb1.
  destruct (IH (l ++ [saved p]) (put_entry (Z.of_nat (length l)) (saved p) m) Hb1 Hst) as (m' & Hr & Hb' & [H1 H2 H3 H4] & Hv).
  { rewrite map_app, Hips, <- map_app, <- app_assoc. exact Hnd. }
  exists m'. split_and!.
  - rewrite <- Hr. f_equal. rewrite length_app. cbn. lia.
  - by rewrite <- app_assoc in Hb'.
  - by split.
  - done.
Qed.

(** what is read of a tried entry *)
Definition tried_entry (p : NetworkPeer) : NetworkPeer := set_place 0 true (-1) (saved p).
Definition in_bucket (key : bytes) (b : nat) (p : NetworkPeer) : bool := GetTriedBucket p key =? Z.of_nat b.

Lemma read_tried_spec P s : forall l D m, built l m -> nIdCount m = Z.of_nat (length l) -> Forall storable P -> NoDup (map peer_ip (l ++ P)) ->
  tried_ok (smark <$> mapNetworkPeer m) (vvTried m) (nKey m) (Z.of_nat (length D)) ->
  (forall b v, vvTried m !! b = Some v -> length v = length (List.filter (in_bucket (nKey m) b) D)) ->
  (forall b, Z.of_nat (length (List.filter (in_bucket (nKey m) b) (D ++ P))) <= TRIED_BUCKET_SIZE) ->
  exists m', read_tried (length P) 0 m (concat (map (Serialize ser_peer) P) ++ s) = Read m' s /\
    built (l ++ map tried_entry P) m' /\ nIdCount m' = Z.of_nat (length (l ++ P)) /\ same_tables m m' /\
    tried_ok (smark <$> mapNetworkPeer m') (vvTried m') (nKey m') (Z.of_nat (length (D ++ P))).
Proof.
  induction P as [|p P IH]; intros l D m Hb Hid Hst Hnd Hok Hlen Hroom; cbn [map concat length read_tried].
  { eexists. rewrite !app_nil_r, Z.sub_0_r. split_and!; [reflexivity|by destruct Hb|done|by split|exact Hok]. }
  apply Forall_cons in Hst as [Hp Hst]. unfold get. rewrite <- app_assoc, read_peer by done.
  change (GetTriedBucket (saved p) (nKey m)) with (GetTriedBucket p (nKey m)). set (kb := Z.to_nat (GetTriedBucket p (nKey m))).
  pose proof (tried_bucket_range (a_service (np_addr p)) (nKey m)) as Hrange. fold (GetTriedBucket p (nKey m)) in Hrange.
  assert (Hkb : GetTriedBucket p (nKey m) = Z.of_nat kb) by (unfold kb; lia).
  destruct (lookup_lt_is_Some_2 (vvTried m) kb) as [v Hv]; [rewrite (tried_length _ _ _ _ Hok); unfold kb, TRIED_BUCKET_COUNT in *; lia|].
  rewrite Hv. assert (Hfull : Z.of_nat (length v) < TRIED_BUCKET_SIZE).
  { specialize (Hroom kb). rewrite List.filter_app, length_app in Hroom. cbn [List.filter] in Hroom. unfold in_bucket at 2 in Hroom. rewrite Hkb, Z.eqb_refl in Hroom.
    cbn [length] in Hroom. rewrite (Hlen kb v Hv). lia. }
  rewrite (proj2 (Z.ltb_lt _ _) Hfull). set (q := set_place (nRefCount (saved p)) true (nRandomPos (saved p)) (saved p)).
  assert (Hips : map peer_ip (l ++ [q]) = map peer_ip (l ++ [p])) by by rewrite !map_app.
  assert (Hnd1 : NoDup (map peer_ip (l ++ [q]))).
  { rewrite Hips. replace (l ++ p :: P) with ((l ++ [p]) ++ P) in Hnd by by rewrite <- app_assoc. rewrite map_app in Hnd. by apply NoDup_app in Hnd as [? _]. }
  pose proof (built_put l m q Hb Hnd1) as Hb1. rewrite <- Hid in Hb1. set (m1 := put_entry (nIdCount m) q m) in *.
  set (m2 := set_nIdCount (nIdCount m + 1) (set_tried (nTried m1) (<[kb := v ++ [nIdCount m]]> (vvTried m1)) m1)).
  assert (Hfresh : mapNetworkPeer m !! nIdCount m = None).
  { rewrite Hid, (b_map _ _ Hb). rewrite (proj2 (Z.ltb_ge _ _)), Nat2Z.id, (lookup_ge_None_2 l) by lia. done. }
  assert (Hok2 : tried_ok (smark <$> mapNetworkPeer m2) (vvTried m2) (nKey m2) (Z.of_nat (length (D ++ [p])))).
  { pose proof (tried_fresh _ _ _ _ (nIdCount m) (a_service (np_addr p)) Hok ltac:(by rewrite lookup_fmap, Hfresh)) as Hf.
    pose proof (tried_push _ _ _ _ (nIdCount m) (a_service (np_addr p)) kb v Hf ltac:(by rewrite lookup_insert_eq) Hkb Hv Hfull) as Hpush.
    rewrite length_app, Nat2Z.inj_add. refine (eq_rect _ (fun M => tried_ok M _ _ _) Hpush _ _). apply map_eq. intros i. cbn. rewrite lookup_fmap.
    destruct (decide (i = nIdCount m)) as [->|Hne]; [by rewrite lookup_alter_eq, !lookup_insert_eq|]. by rewrite lookup_alter_ne, !lookup_insert_ne, lookup_fmap by done. }
  destruct (IH (l ++ [q]) (D ++ [p]) m2) as (m' & Hr & Hb' & Hid' & [H1 H2 H3 H4] & Hok').
  - by destruct Hb1.
  - cbn. rewrite Hid, length_app. cbn. lia.
  - done.
  - rewrite map_app, Hips, <- map_app, <- app_assoc. exact Hnd.
  - exact Hok2.
  - intros b u Hu. rewrite List.filter_app, length_app. cbn [List.filter]. cbn in Hu. apply lookup_insert_cases in Hu as [[-> ->]|[Hne Hu]].
    + rewrite length_app, (Hlen kb v Hv). unfold in_bucket at 3. change (nKey m2) with (nKey m). rewrite Hkb, Z.eqb_refl. done.
    + rewrite (Hlen b u Hu). unfold in_bucket at 3. change (nKey m2) with (nKey m). rewrite Hkb, (proj2 (Z.eqb_neq _ _)) by lia. cbn. lia.
  - intros b. change (nKey m2) with (nKey m). rewrite <- app_assoc. apply Hroom.
  - exists m'. split_and!; [exact Hr|by rewrite <- app_assoc in Hb'|rewrite Hid', !length_app; cbn; lia|by split|by rewrite <- app_assoc in Hok'].
Qed.
End ReadEntries.

(** ** The buckets that are read *)

(** the references and the buckets of a manager are replaced *)
Definition with_refs (r : Z -> Z) (U : list (gset Z)) (m : manager) : manager :=
  set_new (nNew m) U (set_peers (map_imap (fun i p => Some (set_nRefCount (r i) p))) m).
Lemma with_refs_lookup r U m i : mapNetworkPeer (with_refs r U m) !! i = set_nRefCount (r i) <$> mapNetworkPeer m !! i.
Proof. cbn. rewrite map_lookup_imap. by destruct (mapNetworkPeer m !! i). Qed.
Lemma with_refs_size r U m : size (mapNetworkPeer m) = size (mapNetworkPeer (with_refs r U m)).
Proof. rewrite <- !size_dom. f_equal. apply set_eq. intros i. by rewrite !elem_of_dom, with_refs_lookup, fmap_is_Some. Qed.
Lemma with_refs_eq m1 r U m : (forall i, mapNetworkPeer m1 !! i = set_nRefCount (r i) <$> mapNetworkPeer m !! i) ->
  m1 = set_new (nNew m) U (set_peers (fun _ => mapNetworkPeer m1) m) -> m1 = with_refs r U m.
Proof.
  intros H He. rewrite He. unfold with_refs, set_peers, set_new. cbn. f_equal. apply map_eq. intros i. rewrite map_lookup_imap, H. by destruct (mapNetworkPeer m !! i).
Qed.
Lemma with_refs_ext r r' U m : (forall i, r i = r' i) -> with_refs r U m = with_refs r' U m.
Proof. intros H. apply with_refs_eq; [|done]. intros i. by rewrite with_refs_lookup, H. Qed.
Definition plus_one (b : bool) : Z := if b then 1 else 0.

Lemma read_indexes_spec b m s q : forall r U, NoDup q -> (forall i, i ∈ q -> is_Some (mapNetworkPeer m !! i) /\ r i < NEW_BUCKETS_PER_ADDRESS /\ - 2 ^ 31 <= i < 2 ^ 31) ->
  read_indexes (length q) b true (with_refs r U m) (concat (map (Serialize ser_int) q) ++ s) =
    Read (with_refs (fun i => r i + plus_one (bool_decide (i ∈ q))) (alter (fun u => list_to_set q ∪ u) b U) m) s.
Proof.
  induction q as [|i q IH]; intros r U Hnd Hq; cbn [length read_indexes map concat].
  { f_equal. rewrite (with_refs_ext (fun i => r i + _) r) by (intros i; rewrite bool_decide_eq_false_2 by apply not_elem_of_nil; cbn; lia). f_equal. apply list_eq. intros k.
    destruct (decide (k = b)) as [->|Hne]; [|by rewrite list_lookup_alter_ne]. rewrite list_lookup_alter_eq. destruct (U !! b) as [u|]; [cbn; f_equal; set_solver|done]. }
  apply NoDup_cons in Hnd as [Hi Hnd]. destruct (Hq i (list_elem_of_here _ _)) as ([p Hp] & Hr & Hrange). unfold get. rewrite <- app_assoc, (ser_roundtrip (c := ser_int)) by done.
  rewrite with_refs_lookup, Hp. cbn [fmap option_fmap option_map default from_option id andb]. change (nRefCount (set_nRefCount (r i) p)) with (r i). rewrite (proj2 (Z.ltb_lt _ _) Hr).
  set (m1 := add_to_bucket _ _ _).
  assert (Hm1 : m1 = with_refs (fun j => r j + plus_one (bool_decide (j = i))) (alter (fun u => {[i]} ∪ u) b U) m).
  { apply with_refs_eq; [|done]. intros j. unfold m1, add_to_bucket. cbn [set_new set_peers mapNetworkPeer]. destruct (decide (j = i)) as [->|Hne].
    - rewrite lookup_insert_eq, Hp. rewrite bool_decide_eq_true_2 by done. done.
    - rewrite lookup_insert_ne by done. rewrite bool_decide_eq_false_2 by done. cbn [plus_one]. rewrite Z.add_0_r. apply with_refs_lookup. }
  rewrite Hm1, IH; [|done|].
  - f_equal. transitivity (with_refs (fun j => r j + plus_one (bool_decide (j ∈ i :: q))) (alter (fun u => list_to_set q ∪ u) b (alter (fun u => {[i]} ∪ u) b U)) m).
    + apply with_refs_ext. intros j. destruct (decide (j = i)) as [->|Hne].
      * rewrite (bool_decide_eq_true_2 (i = i)), (bool_decide_eq_false_2 (i ∈ q)), (bool_decide_eq_true_2 (i ∈ i :: q)) by (done || by left). cbn. lia.
      * rewrite (bool_decide_eq_false_2 (j = i)) by done. rewrite (bool_decide_ext (j ∈ i :: q) (j ∈ q)) by (rewrite elem_of_cons; naive_solver). cbn. lia.
    + f_equal. apply list_eq. intros k. destruct (decide (k = b)) as [->|Hne]; [|by rewrite !list_lookup_alter_ne]. rewrite !list_lookup_alter_eq.
      destruct (U !! b) as [u|]; [|done]. cbn. f_equal. set_solver.
  - intros j Hj. destruct (Hq j) as (H1 & H2 & H3); [by right|]. rewrite bool_decide_eq_false_2 by congruence. cbn. split_and!; [done|lia|lia|lia].
Qed.

Lemma refs_app id U V : refs id (U ++ V) = refs id U + refs id V.
Proof. induction U as [|u U IH]; cbn [app refs]; [done|]. rewrite IH. lia. Qed.
Lemma alter_middle {A} (f : A -> A) (a c : list A) x : alter f (length a) (a ++ x :: c) = a ++ f x :: c.
Proof. induction a as [|y a IH]; [done|]. change (y :: alter f (length a) (a ++ x :: c) = y :: (a ++ f x :: c)). by rewrite IH. Qed.
Lemma list_to_set_map (f : Z -> Z) l : list_to_set (map f l) = (set_map f (list_to_set l : gset Z) : gset Z).
Proof. induction l as [|x l IH]; [done|]. cbn [map list_to_set]. rewrite IH. set_solver. Qed.
Lemma list_to_set_ordered (u : gset Z) : list_to_set (ordered u) = u.
Proof. apply set_eq. intros x. unfold ordered. rewrite elem_of_list_to_set, merge_sort_Permutation. apply elem_of_elements. Qed.
Lemma in_ordered (u : gset Z) x : x ∈ ordered u <-> x ∈ u.
Proof. unfold ordered. rewrite merge_sort_Permutation. apply elem_of_elements. Qed.
Lemma length_ordered (u : gset Z) : length (ordered u) = size u.
Proof. unfold ordered. by rewrite merge_sort_Permutation. Qed.

Lemma size_mapped (f : Z -> Z) (u : gset Z) : (size (set_map f u : gset Z) <= size u)%nat.
Proof.
  change (length (elements (set_map f u : gset Z)) <= size u)%nat. rewrite <- (length_ordered u), <- (length_map f (ordered u)). apply submseteq_length, NoDup_submseteq; [apply (NoDup_elements (C := gset Z))|].
  intros x Hx. apply (elem_of_elements (C := gset Z)), elem_of_map in Hx as (i & -> & Hi). apply list_elem_of_fmap. exists i. split; [done|]. by apply in_ordered.
Qed.
(** the numbers of the entries of a bucket *)
Lemma read_buckets_spec (f : Z -> Z) m s V : forall dn,
  (forall u i j, u ∈ V -> i ∈ u -> j ∈ u -> f i = f j -> i = j) ->
  (forall u i, u ∈ V -> i ∈ u -> is_Some (mapNetworkPeer m !! f i) /\ - 2 ^ 31 <= f i < 2 ^ 31) -> (forall u, u ∈ V -> Z.of_nat (size u) < 2 ^ 31) ->
  (forall i, refs i (dn ++ map (fun u => set_map f u) V) <= NEW_BUCKETS_PER_ADDRESS) ->
  read_buckets (length V) (length dn) true (with_refs (fun i => refs i dn) (dn ++ replicate (length V) ∅) m)
    (concat (map (fun u => Serialize ser_int (Z.of_nat (size u)) ++ concat (map (fun i => Serialize ser_int (f i)) (ordered u))) V) ++ s) =
  Read (with_refs (fun i => refs i (dn ++ map (fun u => set_map f u) V)) (dn ++ map (fun u => set_map f u) V) m) s.
Proof.
  induction V as [|u V IH]; intros dn Hinj Hin Hsz Hmax; cbn [length read_buckets map concat replicate].
  { f_equal. rewrite !app_nil_r. done. }
  cbn [with_refs set_new vvNew]. rewrite lookup_app_r, Nat.sub_diag by lia. cbn [lookup list_lookup]. unfold get. rewrite <- !app_assoc, (ser_roundtrip (c := ser_int)) by (specialize (Hsz u (list_elem_of_here _ _)); lia).
  rewrite Nat2Z.id. set (q := map f (ordered u)).
  assert (Hlq : size u = length q) by (unfold q; by rewrite length_map, length_ordered). rewrite Hlq.
  assert (Hbytes : map (fun i => Serialize ser_int (f i)) (ordered u) = map (Serialize ser_int) q) by (unfold q; by rewrite map_map). rewrite Hbytes.
  assert (Hset : (list_to_set q : gset Z) = set_map f u) by (unfold q; by rewrite list_to_set_map, list_to_set_ordered).
  assert (Hqin : forall i, i ∈ q <-> i ∈ (set_map f u : gset Z)) by (intros i; by rewrite <- Hset, elem_of_list_to_set).
  change (read_indexes (length q) (length dn) true _ ?b) with (read_indexes (length q) (length dn) true (with_refs (fun i => refs i dn) (dn ++ ∅ :: replicate (length V) ∅) m) b).
  rewrite read_indexes_spec.
  - cbn [and_then]. rewrite alter_middle, Hset, union_empty_r_L.
    replace (dn ++ set_map f u :: replicate (length V) ∅) with ((dn ++ [set_map f u]) ++ replicate (length V) ∅ : list (gset Z)) by by rewrite <- app_assoc.
    rewrite (with_refs_ext _ (fun i => refs i (dn ++ [set_map f u : gset Z]))).
    + replace (S (length dn)) with (length (dn ++ [set_map f u : gset Z])) by (rewrite length_app; cbn; lia). rewrite IH.
      * by rewrite <- !app_assoc.
      * intros w i j Hw. apply Hinj. by right.
      * intros w i Hw. apply Hin. by right.
      * intros w Hw. apply Hsz. by right.
      * intros i. rewrite <- app_assoc. apply Hmax.
    + intros i. rewrite refs_app. cbn [refs]. rewrite Z.add_0_r. f_equal. unfold plus_one. by rewrite (bool_decide_ext _ _ (Hqin i)).
  - unfold q. apply NoDup_fmap_2_strong; [|unfold ordered; rewrite merge_sort_Permutation; apply NoDup_elements].
    intros i j Hi Hj. apply Hinj with u; [by left|by apply in_ordered|by apply in_ordered].
  - intros i Hi. apply Hqin in Hi as Hi'. unfold q in Hi. apply list_elem_of_fmap in Hi as (k & -> & Hk). apply in_ordered in Hk.
    destruct (Hin u k (list_elem_of_here _ _) Hk) as [H1 H2]. split; [done|]. split; [|done].
    specialize (Hmax (f k)). rewrite refs_app in Hmax. cbn [map refs] in Hmax. rewrite (bool_decide_eq_true_2 (f k ∈ _)) in Hmax by done.
    pose proof (refs_nonneg (f k) (map (fun u => set_map f u) V)). lia.
Qed.

(** ** The numbers of the entries *)

Fixpoint pos_of (l : list Z) (id : Z) : nat := match l with [] => O | x :: r => if x =? id then O else S (pos_of r id) end.
Lemma pos_of_lookup l : forall i id, NoDup l -> l !! i = Some id -> pos_of l id = i.
Proof.
  induction l as [|x l IH]; intros [|i] id Hnd Hi; cbn [lookup list_lookup pos_of] in *; [done..| |]; apply NoDup_cons in Hnd as [Hx Hnd].
  - injection Hi as ->. by rewrite Z.eqb_refl.
  - rewrite (proj2 (Z.eqb_neq x id)); [by rewrite (IH i id)|]. intros ->. apply Hx. by apply list_elem_of_lookup_2 in Hi.
Qed.
Lemma lookup_pos_of l id : id ∈ l -> l !! pos_of l id = Some id.
Proof.
  induction l as [|x l IH]; [by intros ?%elem_of_nil|]. cbn [pos_of]. destruct (Z.eqb_spec x id) as [->|Hne]; [done|]. intros [->|H]%elem_of_cons; [done|]. by apply IH.
Qed.
(** the entries in the order of the file, and the number each of them gets *)
Definition in_file (m : manager) : list (Z * NetworkPeer) := List.filter is_new (entries m) ++ List.filter is_tried (entries m).
Definition number (m : manager) (id : Z) : Z := Z.of_nat (pos_of (in_file m).*1 id).

Lemma filter_fst_nodup (g : Z * NetworkPeer -> bool) l : NoDup l.*1 -> NoDup (List.filter g l).*1.
Proof.
  induction l as [|e l IH]; intros Hnd; [done|]. cbn [fmap list_fmap] in Hnd. apply NoDup_cons in Hnd as [Hx Hnd]. cbn [List.filter]. case_if; [|by apply IH].
  cbn [fmap list_fmap]. apply NoDup_cons. split; [|by apply IH]. intros (e' & He & Hin)%list_elem_of_fmap. apply Hx. rewrite He. apply list_elem_of_fmap. exists e'. split; [done|].
  apply list_elem_of_In, filter_In in Hin as [Hin _]. by apply list_elem_of_In.
Qed.
Lemma elem_of_lfilter (g : Z * NetworkPeer -> bool) l e : e ∈ List.filter g l <-> e ∈ l /\ g e = true.
Proof. by rewrite !list_elem_of_In, filter_In. Qed.

Section Numbers.
Context {K : Crypto} (m : manager) (Hm : manager_ok m).

Lemma entry_marks id p : mapNetworkPeer m !! id = Some p -> is_new (id, p) = negb (is_tried (id, p)).
Proof.
  intros Hp. pose proof (c_new _ _ Hm) as Hn. unfold is_new, is_tried. cbn [snd].
  assert (Hl : (rmark <$> mapNetworkPeer m) !! id = Some (nRefCount p, fInTried p)) by by rewrite lookup_fmap, Hp.
  destruct (fInTried p); [by rewrite (new_tried _ _ _ Hn id _ Hl)|]. destruct (new_refs _ _ _ Hn id _ Hl) as [_ Hr]. by rewrite (proj2 (Z.eqb_neq _ 0)) by lia.
Qed.
Lemma in_file_spec : NoDup (in_file m).*1 /\ forall id p, (id, p) ∈ in_file m <-> mapNetworkPeer m !! id = Some p.
Proof.
  destruct (entries_spec m) as [Hnd Hin]. split.
  - unfold in_file. rewrite fmap_app. apply NoDup_app. split_and!; [by apply filter_fst_nodup| |by apply filter_fst_nodup].
    intros id H1 H2. apply list_elem_of_fmap in H1 as ([i p] & -> & H1). apply list_elem_of_fmap in H2 as ([j q] & He & H2). cbn in He. subst j.
    apply elem_of_lfilter in H1 as [H1 N1], H2 as [H2 N2]. apply Hin in H1, H2. assert (p = q) by congruence. subst q. rewrite (entry_marks i p H1), N2 in N1. done.
  - intros id p. unfold in_file. rewrite elem_of_app, !elem_of_lfilter, Hin. split; [by intros [[? _]|[? _]]|]. intros Hp. pose proof (entry_marks id p Hp) as Hx.
    destruct (is_tried (id, p)); [by right|by left].
Qed.
Lemma number_of i id p : in_file m !! i = Some (id, p) -> number m id = Z.of_nat i.
Proof. intros Hi. unfold number. f_equal. apply pos_of_lookup; [apply in_file_spec|]. by rewrite list_lookup_fmap, Hi. Qed.
Lemma number_lookup id p : mapNetworkPeer m !! id = Some p -> in_file m !! Z.to_nat (number m id) = Some (id, p).
Proof.
  intros Hp. apply in_file_spec in Hp as Hin. apply list_elem_of_lookup in Hin as [i Hi]. by rewrite (number_of i id p Hi), Nat2Z.id.
Qed.
Lemma number_inj i j : is_Some (mapNetworkPeer m !! i) -> is_Some (mapNetworkPeer m !! j) -> number m i = number m j -> i = j.
Proof. intros [p Hp] [q Hq] He. apply number_lookup in Hp, Hq. rewrite He, Hq in Hp. congruence. Qed.

Lemma tried_entries : Z.of_nat (length (List.filter is_tried (entries m))) = nTried m.
Proof.
  pose proof (c_tried _ _ Hm) as Ht. destruct (entries_spec m) as [Hnd Hin]. rewrite (tried_count _ _ _ _ Ht). f_equal. rewrite <- (length_fmap fst). apply Permutation_length. apply NoDup_Permutation.
  - by apply filter_fst_nodup.
  - assert (Hd : forall k V, (forall b v, V !! b = Some v -> vvTried m !! (k + b)%nat = Some v) -> NoDup (concat V)).
    { intros k V. revert k. induction V as [|v V IH]; intros k HV; [constructor|]. cbn [concat]. apply NoDup_app. split_and!.
      - apply (tried_nodup _ _ _ _ Ht (k + 0)%nat v). by apply HV.
      - intros id Hv Hc. apply list_elem_of_In, in_concat in Hc as (u & Hu & Hid). apply list_elem_of_In, list_elem_of_lookup in Hu as [b Hb]. apply list_elem_of_In in Hid.
        apply (tried_elem _ _ _ _ Ht (k + 0)%nat v id (HV 0%nat v eq_refl)) in Hv as (s1 & E1 & B1). apply (tried_elem _ _ _ _ Ht (k + S b)%nat u id (HV (S b) u Hb)) in Hid as (s2 & E2 & B2).
        rewrite E1 in E2. injection E2 as <-. lia.
      - apply (IH (S k)). intros b u Hu. replace (S k + b)%nat with (k + S b)%nat by lia. by apply HV. }
    apply (Hd 0%nat). done.
  - intros id. rewrite list_elem_of_fmap. split.
    + intros ([i p] & -> & He). apply elem_of_lfilter in He as [He Hf]. apply Hin in He. unfold is_tried in Hf. cbn in *.
      pose proof (tried_bucket_range (a_service (np_addr p)) (nKey m)) as Hr. set (b := tried_bucket _ _) in Hr.
      destruct (lookup_lt_is_Some_2 (vvTried m) (Z.to_nat b)) as [v Hv]; [rewrite (tried_length _ _ _ _ Ht); lia|].
      apply list_elem_of_In, in_concat. exists v. split; [apply list_elem_of_In; by apply list_elem_of_lookup_2 in Hv|]. apply list_elem_of_In.
      apply (tried_elem _ _ _ _ Ht _ v i Hv). exists (a_service (np_addr p)). rewrite lookup_fmap, He. cbn. unfold smark. rewrite Hf. split; [done|]. unfold b in *. lia.
    + intros Hc. apply list_elem_of_In, in_concat in Hc as (v & Hv & Hid). apply list_elem_of_In, list_elem_of_lookup in Hv as [b Hb]. apply list_elem_of_In in Hid.
      apply (tried_elem _ _ _ _ Ht b v id Hb) in Hid as (s & Hs & _). rewrite lookup_fmap in Hs. destruct (mapNetworkPeer m !! id) as [p|] eqn:Ep; [|done]. injection Hs as _ Hf.
      exists (id, p). split; [done|]. apply elem_of_lfilter. split; [by apply Hin|exact Hf].
Qed.
Lemma new_entries : Z.of_nat (length (List.filter is_new (entries m))) = nNew m.
Proof.
  pose proof (c_size _ _ Hm) as Hs. pose proof tried_entries as Ht. destruct in_file_spec as [Hnd Hin].
  assert (Hl : length (in_file m) = size (mapNetworkPeer m)).
  { rewrite <- (length_map_to_list (mapNetworkPeer m)). apply Permutation_length, NoDup_Permutation; [by apply NoDup_fmap_1 in Hnd|apply NoDup_map_to_list|].
    intros [id p]. rewrite elem_of_map_to_list. apply Hin. }
  unfold in_file in Hl. rewrite length_app in Hl. lia.
Qed.
End Numbers.

(** ** What is read back *)

(** [m'] is [m] with other numbers and another random order, and entries as they are stored *)
Record restored (f : Z -> Z) (m m' : manager) : Prop := {
  rs_key : nKey m' = nKey m; rs_nNew : nNew m' = nNew m; rs_nTried : nTried m' = nTried m;
  rs_inj : forall i j, is_Some (mapNetworkPeer m !! i) -> is_Some (mapNetworkPeer m !! j) -> f i = f j -> i = j;
  rs_entry : forall id p, mapNetworkPeer m !! id = Some p -> exists pos, mapNetworkPeer m' !! f id = Some (set_place (nRefCount p) (fInTried p) pos (saved p));
  rs_size : size (mapNetworkPeer m') = size (mapNetworkPeer m);
  rs_addr : forall ip, mapAddr m' !! ip = f <$> mapAddr m !! ip;
  rs_vvNew : vvNew m' = map (fun u => set_map f u) (vvNew m);
  rs_vvTried : forall b v, vvTried m !! b = Some v -> exists v', vvTried m' !! b = Some v' /\ v' ≡ₚ map f v;
}.
(** an entry as it is read *)
Definition as_read (e : Z * NetworkPeer) : NetworkPeer := set_place 0 (fInTried e.2) (-1) (saved e.2).

Lemma built_map_size l m : built l m -> size (mapNetworkPeer m) = length l.
Proof.
  intros Hb. rewrite <- (length_map_to_list (mapNetworkPeer m)), <- (length_fmap fst). transitivity (length (map Z.of_nat (seq 0 (length l)))); [|by rewrite length_map, length_seq].
  apply Permutation_length, NoDup_Permutation; [apply NoDup_fst_map_to_list|apply NoDup_fmap_2; [intros ? ?; lia|apply NoDup_seq]|].
  intros id. rewrite !list_elem_of_fmap. split.
  - intros ([k p] & -> & Hk). apply elem_of_map_to_list in Hk. rewrite (b_map _ _ Hb) in Hk. cbn. destruct (Z.ltb_spec k 0); [done|].
    destruct (l !! Z.to_nat k) as [q|] eqn:E; [|done]. apply lookup_lt_Some in E. exists (Z.to_nat k). split; [lia|]. apply elem_of_seq. lia.
  - intros (k & -> & Hk). apply elem_of_seq in Hk. destruct (lookup_lt_is_Some_2 l k) as [p Hp]; [lia|]. exists (Z.of_nat k, set_nRandomPos (Z.of_nat k) p). split; [done|].
    apply elem_of_map_to_list. rewrite (b_map _ _ Hb), (proj2 (Z.ltb_ge _ _)), Nat2Z.id, Hp by lia. done.
Qed.
Lemma with_refs_same r U m : (forall i p, mapNetworkPeer m !! i = Some p -> nRefCount p = r i) -> U = vvNew m -> with_refs r U m = m.
Proof.
  intros Hr ->. symmetry. apply with_refs_eq; [|by destruct m]. intros i. destruct (mapNetworkPeer m !! i) as [p|] eqn:E; [|done]. cbn. f_equal.
  rewrite <- (Hr i p E). by destruct p.
Qed.

Lemma refs_some i V : refs i V <> 0 -> exists b s, V !! b = Some s /\ i ∈ s.
Proof.
  induction V as [|u V IH]; [done|]. cbn [refs]. case_bool_decide as Hi; [by exists O, u|]. intros Hr. destruct IH as (b & s & Hb & Hs); [lia|]. by exists (S b), s.
Qed.

Section Restore.
Context {K : Crypto} (m : manager) (Hm : manager_ok m) (Hst : forall id p, mapNetworkPeer m !! id = Some p -> storable p).
Abbreviation N := (List.filter is_new (entries m)).
Abbreviation T := (List.filter is_tried (entries m)).
Abbreviation all := (map as_read (in_file m)).

Lemma as_read_split : all = map saved (map snd N) ++ map tried_entry (map snd T).
Proof.
  unfold in_file. rewrite map_app. f_equal; rewrite map_map; apply map_ext_in; intros [id p] Hin; apply filter_In in Hin as [Hin Hf]; unfold as_read, tried_entry; cbn [snd].
  - assert (Hp : mapNetworkPeer m !! id = Some p) by (apply entries_spec; by apply list_elem_of_In). rewrite (entry_marks m Hm id p Hp) in Hf. unfold is_tried in Hf. cbn in Hf.
    destruct (fInTried p); [done|]. done.
  - unfold is_tried in Hf. cbn in Hf. by rewrite Hf.
Qed.
Lemma in_file_ips : NoDup (map peer_ip (map snd (in_file m))).
Proof.
  destruct (in_file_spec m Hm) as [Hnd Hin]. rewrite map_map. apply NoDup_fmap_2_strong; [|by apply NoDup_fmap_1 in Hnd].
  intros [i p] [j q] Hi Hj He. apply Hin in Hi, Hj. cbn in He. pose proof (index_addr _ _ _ _ (c_index _ _ Hm)) as Ha.
  assert (H1 : mapAddr m !! peer_ip p = Some i) by (apply Ha; exists (nRandomPos p); by rewrite lookup_fmap, Hi).
  assert (H2 : mapAddr m !! peer_ip q = Some j) by (apply Ha; exists (nRandomPos q); by rewrite lookup_fmap, Hj). rewrite He in H1. congruence.
Qed.
Lemma storable_part (g : Z * NetworkPeer -> bool) : Forall storable (map snd (List.filter g (entries m))).
Proof.
  apply Forall_map, Forall_forall. intros [id p] Hin. apply elem_of_lfilter in Hin as [Hin _]. apply entries_spec in Hin. by apply (Hst id p).
Qed.
Lemma tried_room b : Z.of_nat (length (List.filter (in_bucket (nKey m) b) (map snd T))) <= TRIED_BUCKET_SIZE.
Proof.
  pose proof (c_tried _ _ Hm) as Ht. destruct (entries_spec m) as [Hnd Hin].
  assert (Hf : List.filter (in_bucket (nKey m) b) (map snd T) = map snd (List.filter (fun e => in_bucket (nKey m) b e.2) T)).
  { induction T as [|e l IH]; [done|]. cbn [map List.filter]. rewrite IH. by case_if. }
  rewrite Hf, length_map, <- (length_fmap fst). destruct (vvTried m !! b) as [v|] eqn:Ev.
  - etransitivity; [|apply (tried_nodup _ _ _ _ Ht b v Ev)]. apply inj_le, submseteq_length, NoDup_submseteq; [do 2 apply filter_fst_nodup; done|].
    intros id (e & -> & He)%list_elem_of_fmap. apply elem_of_lfilter in He as [He Hb]. apply elem_of_lfilter in He as [He Htr]. destruct e as [i p]. apply Hin in He.
    apply (tried_elem _ _ _ _ Ht b v i Ev). exists (a_service (np_addr p)). rewrite lookup_fmap, He. cbn. unfold smark. unfold is_tried in Htr. cbn in Htr. rewrite Htr. split; [done|].
    unfold in_bucket in Hb. cbn in Hb. by apply Z.eqb_eq in Hb.
  - destruct (List.filter _ T) as [|[i p] l] eqn:El; [done|]. exfalso. assert (Hx : (i, p) ∈ List.filter (fun e => in_bucket (nKey m) b e.2) T) by (rewrite El; by left).
    apply elem_of_lfilter in Hx as [_ Hb]. unfold in_bucket in Hb. cbn in Hb. apply Z.eqb_eq in Hb. apply lookup_ge_None in Ev. rewrite (tried_length _ _ _ _ Ht) in Ev.
    pose proof (tried_bucket_range (a_service (np_addr p)) (nKey m)) as Hr. unfold GetTriedBucket in Hb. lia.
Qed.

(** after the entries are read *)
Lemma read_entries m0 s : exists m3,
  (forall k, and_then (read_new (Z.to_nat (nNew m)) 0 true (cleared (set_header (nKey m) (nNew m) (nTried m) m0)) (peer_bytes N ++ peer_bytes T ++ s))
     (fun w s => and_then (read_tried (Z.to_nat (nTried m)) 0 (set_nIdCount (nNew m) w) s) k) = k m3 s) /\
  built all m3 /\ nIdCount m3 = Z.of_nat (length all) /\ nKey m3 = nKey m /\ nNew m3 = nNew m /\ nTried m3 = nTried m /\ vvNew m3 = replicate 256 ∅ /\
  tried_ok (smark <$> mapNetworkPeer m3) (vvTried m3) (nKey m) (nTried m).
Proof.
  set (m1 := cleared _). pose proof (new_entries m Hm) as HN. pose proof (tried_entries m Hm) as HT.
  assert (Hb0 : built [] m1). { split; cbn; [intros id; rewrite lookup_empty; by case_if|intros ip id; rewrite lookup_empty; split; [done|by intros (_ & p & [=] & _)]|done]. }
  assert (Hips : map peer_ip (map snd (in_file m)) = map peer_ip (map snd N ++ map snd T)) by (unfold in_file; by rewrite map_app).
  pose proof in_file_ips as Hnd. rewrite Hips in Hnd.
  assert (Hbytes : forall l, peer_bytes l = concat (map (Serialize ser_peer) (map snd l))) by (intros l; unfold peer_bytes; by rewrite map_map).
  destruct (read_new_spec (map snd N) (peer_bytes T ++ s) [] m1 Hb0 (storable_part is_new)) as (m2 & Hr2 & Hb2 & [K2 N2 V2 T2] & W2).
  { rewrite map_app in Hnd. by apply NoDup_app in Hnd as [? _]. }
  cbn [length app] in Hr2, Hb2. rewrite length_map, <- Hbytes in Hr2. replace (length N) with (Z.to_nat (nNew m)) in Hr2 by lia. change (Z.of_nat 0) with 0 in Hr2.
  destruct (read_tried_spec (map snd T) s (map saved (map snd N)) [] (set_nIdCount (nNew m) m2)) as (m3 & Hr3 & Hb3 & I3 & [K3 N3 V3 T3] & O3).
  - by destruct Hb2.
  - cbn. rewrite !length_map. lia.
  - apply storable_part.
  - rewrite map_app, map_peer_ip_saved, <- map_app. exact Hnd.
  - cbn. rewrite W2. split; cbn.
    + by rewrite length_replicate.
    + intros b v [-> _]%lookup_replicate. split; [constructor|done].
    + intros b v id [-> _]%lookup_replicate. split; [by intros ?%elem_of_nil|]. intros (x & Hx & _). exfalso. rewrite lookup_fmap, (b_map _ _ Hb2) in Hx.
      destruct (id <? 0); [done|]. destruct (map saved (map snd N) !! Z.to_nat id) as [q|] eqn:E; [|done]. rewrite list_lookup_fmap in E.
      destruct (map snd N !! Z.to_nat id); [|done]. injection E as <-. by injection Hx.
    + induction (Z.to_nat TRIED_BUCKET_COUNT); done.
  - cbn. rewrite W2. intros b v [-> _]%lookup_replicate. done.
  - cbn. intros b. change (nKey (set_nIdCount (nNew m) m2)) with (nKey m2). rewrite K2. apply tried_room.
  - rewrite length_map, <- Hbytes in Hr3. replace (length T) with (Z.to_nat (nTried m)) in Hr3 by lia. exists m3. split_and!.
    + intros k. rewrite Hr2. cbn [and_then]. by rewrite Hr3.
    + by rewrite as_read_split.
    + rewrite I3, as_read_split, !length_app, !length_map. done.
    + rewrite K3. exact K2.
    + rewrite N3. exact N2.
    + rewrite T3. exact T2.
    + rewrite V3. cbn. rewrite V2. done.
    + cbn in O3. rewrite K3 in O3. change (nKey (set_nIdCount (nNew m) m2)) with (nKey m2) in O3. rewrite K2, length_map, HT in O3. exact O3.
Qed.

Lemma number_range id : is_Some (mapNetworkPeer m !! id) -> 0 <= number m id < 2 ^ 31.
Proof.
  intros [p Hp]. apply (number_lookup m Hm) in Hp. apply lookup_lt_Some in Hp. unfold number in *. rewrite Nat2Z.id in Hp.
  assert (Hl : length (in_file m) = length (vRandom m)).
  { rewrite (random_size m Hm), <- (length_map_to_list (mapNetworkPeer m)). destruct (in_file_spec m Hm) as [Hnd Hin].
    apply Permutation_length, NoDup_Permutation; [by apply NoDup_fmap_1 in Hnd|apply NoDup_map_to_list|]. intros [i q]. rewrite elem_of_map_to_list. apply Hin. }
  pose proof (table_bound m Hm). lia.
Qed.
Lemma bucket_entry b u id : vvNew m !! b = Some u -> id ∈ u -> exists p, mapNetworkPeer m !! id = Some p /\ fInTried p = false.
Proof.
  intros Hb Hid. destruct (new_elem _ _ _ (c_new _ _ Hm) b u id Hb Hid) as (r & Hr). rewrite lookup_fmap in Hr. destruct (mapNetworkPeer m !! id) as [p|]; [|done].
  injection Hr as _ Hf. by exists p.
Qed.
Abbreviation U := (map (fun u : gset Z => (set_map (number m) u : gset Z)) (vvNew m)).
Lemma number_refs id : is_Some (mapNetworkPeer m !! id) -> refs (number m id) U = refs id (vvNew m).
Proof.
  intros Hid. assert (Hin : forall u i, u ∈ vvNew m -> i ∈ u -> is_Some (mapNetworkPeer m !! i)).
  { intros u i Hu Hi. apply list_elem_of_lookup in Hu as [b Hb]. destruct (bucket_entry b u i Hb Hi) as (p & -> & _). done. }
  clear - Hid Hin Hm. induction (vvNew m) as [|u V IH]; [done|]. cbn [map refs]. rewrite IH by (intros w i Hw; apply Hin; by right). f_equal.
  rewrite (bool_decide_ext (number m id ∈ (set_map (number m) u : gset Z)) (id ∈ u)); [done|]. rewrite elem_of_map. split.
  - intros (j & He & Hj). apply (number_inj m Hm) in He; [by subst|done|]. by apply (Hin u j (list_elem_of_here _ _)).
  - intros Hu. by exists id.
Qed.
Lemma refs_mapped i : refs i U <> 0 -> exists id p, i = number m id /\ mapNetworkPeer m !! id = Some p /\ fInTried p = false.
Proof.
  intros Hr. apply refs_some in Hr as (b & s & Hb & Hi). rewrite list_lookup_fmap in Hb. destruct (vvNew m !! b) as [u|] eqn:Eb; [|done]. injection Hb as <-.
  apply elem_of_map in Hi as (id & -> & Hid). destruct (bucket_entry b u id Eb Hid) as (p & Hp & Hf). by exists id, p.
Qed.

Lemma bucket_count id p : mapNetworkPeer m !! id = Some p -> nRefCount p = refs id (vvNew m) /\ nRefCount p <= NEW_BUCKETS_PER_ADDRESS.
Proof.
  intros Hp. pose proof (c_new _ _ Hm) as Hn. assert (Hl : (rmark <$> mapNetworkPeer m) !! id = Some (nRefCount p, fInTried p)) by by rewrite lookup_fmap, Hp.
  destruct (fInTried p) eqn:Ef.
  - rewrite (new_tried _ _ _ Hn id _ Hl). rewrite refs_none; [done|]. intros b u Hb Hid. destruct (bucket_entry b u id Hb Hid) as (q & Hq & Hf). congruence.
  - destruct (new_refs _ _ _ Hn id _ Hl) as [H1 H2]. unfold no_extra in H1. lia.
Qed.

Context (m3 : manager) (Hb3 : built all m3).
Abbreviation m4 := (with_refs (fun i => refs i U) U m3).
Lemma restored_lookup j x : mapNetworkPeer m4 !! j = Some x <->
  exists id p, j = number m id /\ mapNetworkPeer m !! id = Some p /\ x = set_place (nRefCount p) (fInTried p) j (saved p).
Proof.
  rewrite with_refs_lookup, (b_map _ _ Hb3). split.
  - destruct (Z.ltb_spec j 0); [done|]. rewrite list_lookup_fmap. destruct (in_file m !! Z.to_nat j) as [[id p]|] eqn:E; [|done]. cbn. intros [= <-].
    assert (Hp : mapNetworkPeer m !! id = Some p) by (apply (in_file_spec m Hm); by apply list_elem_of_lookup_2 in E).
    pose proof (number_of m Hm _ id p E) as Hj. rewrite Z2Nat.id in Hj by done. exists id, p. split_and!; [done|done|]. subst j. rewrite number_refs by by rewrite Hp.
    destruct (bucket_count id p Hp) as [<- _]. done.
  - intros (id & p & -> & Hp & ->). rewrite (proj2 (Z.ltb_ge _ _)) by (unfold number; lia). rewrite list_lookup_fmap, (number_lookup m Hm id p Hp). cbn. f_equal.
    rewrite number_refs by by rewrite Hp. destruct (bucket_count id p Hp) as [<- _]. done.
Qed.

Lemma restored_ok : nIdCount m3 = Z.of_nat (length all) -> nKey m3 = nKey m -> nNew m3 = nNew m -> nTried m3 = nTried m ->
  tried_ok (smark <$> mapNetworkPeer m3) (vvTried m3) (nKey m) (nTried m) -> manager_ok m4.
Proof.
  intros Hid Hk Hnew Htr Ht. split.
  - cbn. lia.
  - pose proof (built_index _ _ Hb3) as Hx. rewrite <- Hid in Hx. refine (eq_rect _ (fun M => index_ok M _ _ _) Hx _ _). apply map_eq. intros i.
    rewrite !lookup_fmap, with_refs_lookup. by destruct (mapNetworkPeer m3 !! i).
  - cbn [with_refs set_new set_peers vvTried nKey nTried]. rewrite Hk, Htr. refine (eq_rect _ (fun M => tried_ok M _ _ _) Ht _ _). apply map_eq. intros i.
    rewrite !lookup_fmap, with_refs_lookup. by destruct (mapNetworkPeer m3 !! i).
  - pose proof (c_new _ _ Hm) as Hn.
    assert (HM : forall i r t, (rmark <$> mapNetworkPeer m4) !! i = Some (r, t) -> exists id p, i = number m id /\ mapNetworkPeer m !! id = Some p /\ r = nRefCount p /\ t = fInTried p).
    { intros i r t Hi. rewrite lookup_fmap in Hi. destruct (mapNetworkPeer m4 !! i) as [x|] eqn:E; [|done]. apply restored_lookup in E as (id & p & -> & Hp & ->).
      injection Hi as <- <-. by exists id, p. }
    split; cbn [with_refs set_new set_peers vvNew].
    + rewrite length_map. apply (new_length _ _ _ Hn).
    + intros b u Hb. rewrite list_lookup_fmap in Hb. destruct (vvNew m !! b) as [w|] eqn:E; [|done]. injection Hb as <-. pose proof (new_sizes _ _ _ Hn b w E) as Hs.
      pose proof (size_mapped (number m) w). lia.
    + intros b u i Hb Hi. rewrite list_lookup_fmap in Hb. destruct (vvNew m !! b) as [w|] eqn:E; [|done]. injection Hb as <-. apply elem_of_map in Hi as (id & -> & Hid').
      destruct (bucket_entry b w id E Hid') as (p & Hp & Hf). exists (nRefCount p). rewrite lookup_fmap.
      rewrite (proj2 (restored_lookup (number m id) (set_place (nRefCount p) (fInTried p) (number m id) (saved p)))) by by exists id, p. cbn. unfold rmark. cbn. by rewrite Hf.
    + intros i r Hi. apply HM in Hi as (id & p & -> & Hp & -> & Hf). rewrite number_refs by by rewrite Hp. destruct (bucket_count id p Hp) as [He Hle]. split; [unfold no_extra; lia|].
      assert (Hl : (rmark <$> mapNetworkPeer m) !! id = Some (nRefCount p, false)) by (rewrite lookup_fmap, Hp; cbn; unfold rmark; by rewrite Hf).
      by destruct (new_refs _ _ _ Hn id _ Hl).
    + intros i r Hi. apply HM in Hi as (id & p & -> & Hp & -> & Hf). apply (new_tried _ _ _ Hn id). rewrite lookup_fmap, Hp. cbn. unfold rmark. by rewrite <- Hf.
  - cbn [with_refs set_new set_peers nNew nTried mapNetworkPeer]. rewrite Hnew, Htr, (c_size _ _ Hm). f_equal.
    transitivity (size (mapNetworkPeer m3)); [|apply (with_refs_size (fun i => refs i U) U)]. rewrite (built_map_size _ _ Hb3), length_map.
    rewrite <- (length_map_to_list (mapNetworkPeer m)). destruct (in_file_spec m Hm) as [Hnd Hin].
    symmetry. apply Permutation_length, NoDup_Permutation; [by apply NoDup_fmap_1 in Hnd|apply NoDup_map_to_list|]. intros [i q]. rewrite elem_of_map_to_list. apply Hin.
Qed.

Lemma restored_tables : nKey m3 = nKey m -> nNew m3 = nNew m -> nTried m3 = nTried m ->
  tried_ok (smark <$> mapNetworkPeer m3) (vvTried m3) (nKey m) (nTried m) -> size (mapNetworkPeer m4) = size (mapNetworkPeer m) -> restored (number m) m m4.
Proof.
  intros Hk Hnew Htr Ht Hsz. pose proof (c_tried _ _ Hm) as Hto. split; try done.
  - apply (number_inj m Hm).
  - intros id p Hp. exists (number m id). apply restored_lookup. by exists id, p.
  - intros ip. change (mapAddr m4) with (mapAddr m3). apply option_eq. intros j. rewrite (b_addr _ _ Hb3), fmap_Some. split.
    + intros [Hj (q & Hq & Hip)]. rewrite list_lookup_fmap in Hq. destruct (in_file m !! Z.to_nat j) as [[id p]|] eqn:E; [|done]. injection Hq as <-.
      assert (Hp : mapNetworkPeer m !! id = Some p) by (apply (in_file_spec m Hm); by apply list_elem_of_lookup_2 in E). exists id. split.
      * apply (index_addr _ _ _ _ (c_index _ _ Hm)). exists (nRandomPos p). by rewrite lookup_fmap, Hp, <- Hip.
      * rewrite (number_of m Hm _ id p E). lia.
    + intros (id & Hid & ->). apply (index_addr _ _ _ _ (c_index _ _ Hm)) in Hid as [pos Hid]. rewrite lookup_fmap in Hid. destruct (mapNetworkPeer m !! id) as [p|] eqn:Ep; [|done].
      injection Hid as Hip _. split; [unfold number; lia|]. exists (as_read (id, p)). by rewrite list_lookup_fmap, (number_lookup m Hm id p Ep).
  - intros b v Hv. change (vvTried m4) with (vvTried m3). destruct (lookup_lt_is_Some_2 (vvTried m3) b) as [v' Hv'].
    { rewrite (tried_length _ _ _ _ Ht), <- (tried_length _ _ _ _ Hto). by apply lookup_lt_Some in Hv. }
    exists v'. split; [done|]. apply NoDup_Permutation.
    + by apply (tried_nodup _ _ _ _ Ht b v').
    + apply NoDup_fmap_2_strong; [|by apply (tried_nodup _ _ _ _ Hto b v)]. intros i j Hi Hj. apply (tried_elem _ _ _ _ Hto b v _ Hv) in Hi as (s1 & H1 & _), Hj as (s2 & H2 & _).
      rewrite lookup_fmap in H1, H2. apply (number_inj m Hm); [destruct (mapNetworkPeer m !! i)|destruct (mapNetworkPeer m !! j)]; done.
    + assert (Hsm : forall j x, (smark <$> mapNetworkPeer m3) !! j = Some (x, true) <-> exists id p, j = number m id /\ mapNetworkPeer m !! id = Some p /\ fInTried p = true /\ x = a_service (np_addr p)).
      { intros j x. assert (He : (smark <$> mapNetworkPeer m3) !! j = (smark <$> mapNetworkPeer m4) !! j) by (rewrite !lookup_fmap, with_refs_lookup; by destruct (mapNetworkPeer m3 !! j)).
        rewrite He, lookup_fmap, fmap_Some. split.
        - intros (y & Hy & Hx). apply restored_lookup in Hy as (id & p & -> & Hp & ->). injection Hx as -> Hf. by exists id, p.
        - intros (id & p & -> & Hp & Hf & ->). exists (set_place (nRefCount p) (fInTried p) (number m id) (saved p)). split; [apply restored_lookup; by exists id, p|].
          unfold smark. cbn. by rewrite Hf. }
      intros j. rewrite (tried_elem _ _ _ _ Ht b v' j Hv'), list_elem_of_fmap. split.
      * intros (x & Hx & Hb). apply Hsm in Hx as (id & p & -> & Hp & Hf & ->). exists id. split; [done|]. apply (tried_elem _ _ _ _ Hto b v id Hv).
        exists (a_service (np_addr p)). split; [|done]. rewrite lookup_fmap, Hp. cbn. unfold smark. by rewrite Hf.
      * intros (id & -> & Hid). apply (tried_elem _ _ _ _ Hto b v id Hv) in Hid as (x & Hx & Hb). exists x. split; [|done]. apply Hsm.
        rewrite lookup_fmap in Hx. destruct (mapNetworkPeer m !! id) as [p|] eqn:Ep; [|done]. injection Hx as <- Hf. by exists id, p.
Qed.
End Restore.

(** what is written is read into any manager *)
Lemma manager_read {K : Crypto} m m0 s : manager_ok m -> (forall id p, mapNetworkPeer m !! id = Some p -> storable p) -> sized is_byte (nKey m) ->
  exists m', Unserialize_manager m0 (Serialize_manager m ++ s) = Read m' s /\ manager_ok m' /\ restored (number m) m m'.
Proof.
  intros Hm Hst Hkey. pose proof (new_entries m Hm) as HN. pose proof (tried_entries m Hm) as HT. destruct (entries_spec m) as [Hnd Hin].
  destruct (write_new_spec (entries m) (nNew m) 0 ∅ Hnd) as (ids & Hw & Hids & _); [lia|]. unfold Serialize_manager. rewrite Hw, write_tried_spec by lia.
  set (buckets := concat _).
  assert (Hn31 : 0 <= nNew m < 2 ^ 31 /\ 0 <= nTried m < 2 ^ 31).
  { pose proof (c_size _ _ Hm) as Hs. pose proof (table_bound m Hm) as Hb. rewrite (random_size m Hm) in Hb. lia. }
  unfold Unserialize_manager, get. rewrite <- !app_assoc, (ser_roundtrip (c := ser_uint 1)) by done. rewrite (ser_roundtrip (c := ser_vch)) by done.
  rewrite (ser_roundtrip (c := ser_int)) by lia. rewrite (ser_roundtrip (c := ser_int)) by lia. rewrite (ser_roundtrip (c := ser_int)) by (unfold NEW_BUCKET_COUNT; lia).
  change (NEW_BUCKET_COUNT =? NEW_BUCKET_COUNT) with true.
  destruct (read_entries m Hm Hst m0 (buckets ++ s)) as (m3 & Hr & Hb3 & Hid & Hk & Hnew & Htr & Hvv & Ht).
  change (set_header (nKey m) (nNew m) (nTried m) (set_header (nKey m) (nNew m) (nTried m0) (set_header (nKey m) (nNew m0) (nTried m0) m0))) with (set_header (nKey m) (nNew m) (nTried m) m0).
  rewrite Hr. exists (with_refs (fun i => refs i (map (fun u => set_map (number m) u) (vvNew m))) (map (fun u => set_map (number m) u) (vvNew m)) m3).
  pose proof (restored_ok m Hm m3 Hb3 Hid Hk Hnew Htr Ht) as Hok. split; [|split; [done|]].
  - assert (Hlen : length (vvNew m) = 256%nat) by (rewrite (new_length _ _ _ (c_new _ _ Hm)); done).
    assert (Hbk : buckets = concat (map (fun u => Serialize ser_int (Z.of_nat (size u)) ++ concat (map (fun i => Serialize ser_int (number m i)) (ordered u))) (vvNew m))).
    { unfold buckets. f_equal. apply map_ext_in. intros u Hu. unfold write_bucket. do 2 f_equal. apply map_ext_in. intros id Hiu. apply list_elem_of_In in Hu, Hiu. apply in_ordered in Hiu.
      apply list_elem_of_lookup in Hu as [b Hb]. destruct (bucket_entry m Hm b u id Hb Hiu) as (p & Hp & Hf).
      assert (Hnw : (id, p) ∈ List.filter is_new (entries m)).
      { apply elem_of_lfilter. split; [by apply Hin|]. rewrite (entry_marks m Hm id p Hp). unfold is_tried. cbn. by rewrite Hf. }
      apply list_elem_of_lookup in Hnw as [i Hi]. pose proof (Hids i _ Hi) as Hids_i. cbn [fst] in Hids_i. rewrite Hids_i. change (default 0 (Some ?x)) with x. f_equal. rewrite Z.add_0_l. symmetry. apply (number_of m Hm i id p). unfold in_file. by apply lookup_app_l_Some. }
    rewrite <- (with_refs_same (fun _ => 0) (replicate 256 ∅) m3) at 1; [|intros i p Hp|by rewrite Hvv].
    + rewrite Hbk. change (Z.to_nat NEW_BUCKET_COUNT) with 256%nat. rewrite <- Hlen.
      apply (read_buckets_spec (number m) m3 s (vvNew m) []).
      * intros u i j Hu Hi Hj. apply list_elem_of_lookup in Hu as [b Hb]. destruct (bucket_entry m Hm b u i Hb Hi) as (p & Hp & _). destruct (bucket_entry m Hm b u j Hb Hj) as (q & Hq & _).
        apply (number_inj m Hm); by eexists.
      * intros u i Hu Hi. apply list_elem_of_lookup in Hu as [b Hb]. destruct (bucket_entry m Hm b u i Hb Hi) as (p & Hp & _).
        pose proof (number_range m Hm i ltac:(by exists p)) as Hr'. split; [|lia]. rewrite (b_map _ _ Hb3), (proj2 (Z.ltb_ge _ _)) by lia.
        rewrite list_lookup_fmap, (number_lookup m Hm i p Hp). by eexists.
      * intros u Hu. apply list_elem_of_lookup in Hu as [b Hb]. pose proof (new_sizes _ _ _ (c_new _ _ Hm) b u Hb) as Hs. unfold NEW_BUCKET_SIZE in Hs. lia.
      * intros i. cbn [app]. destruct (decide (refs i (map (fun u => set_map (number m) u) (vvNew m)) = 0)) as [->|Hne]; [done|].
        destruct (refs_mapped m Hm i Hne) as (id & p & -> & Hp & _). rewrite (number_refs m Hm) by by exists p. destruct (bucket_count m Hm id p Hp) as [<- ?]. done.
    + rewrite (b_map _ _ Hb3) in Hp. destruct (i <? 0); [done|]. rewrite list_lookup_fmap in Hp. destruct (in_file m !! Z.to_nat i); [|done]. by injection Hp as <-.
  - apply (restored_tables m Hm m3 Hb3 Hk Hnew Htr Ht).
    assert (Hs : Z.of_nat (size (mapNetworkPeer (with_refs (fun i => refs i (map (fun u => set_map (number m) u) (vvNew m))) (map (fun u => set_map (number m) u) (vvNew m)) m3))) = Z.of_nat (size (mapNetworkPeer m))); [|lia].
    rewrite <- (c_size _ _ Hok), <- (c_size _ _ Hm). cbn [with_refs set_new set_peers nNew nTried]. by rewrite Hnew, Htr.
Qed.

(** ** Properties *)

Section FileProperties.
Context {K : Crypto} {KL : CryptoLaws K} (pchMessageStart : bytes) (Hstart : length pchMessageStart = 4%nat /\ all_bytes pchMessageStart).

Lemma read_start s : Unserialize (ser_flat 4) (pchMessageStart ++ s) = Some (pchMessageStart, s).
Proof. apply (ser_roundtrip (Lawful := ser_flat_lawful 4 ltac:(lia)) pchMessageStart s). exact Hstart. Qed.

(** C24: The known addresses survive a restart.  From a consistent manager whose entries can be stored, [Write] makes a file that [Read] accepts, whatever manager it
    reads into; the result is consistent, and it is the manager that was written: the same key, the same entries with the same statistics (but for the time of the last
    try), found under the same addresses and in the same new and tried buckets; only the identifiers are renumbered, and the
    random order and the order in a tried bucket change. *)
Theorem peers_survive m m0 old : manager_ok m -> (forall id p, mapNetworkPeer m !! id = Some p -> storable p) -> sized is_byte (nKey m) ->
  exists file m', Write pchMessageStart true true true m old = (true, Some file) /\
    Read_file pchMessageStart (Some file) m0 = Some (true, m') /\ manager_ok m' /\ exists f, restored f m m'.
Proof.
  intros Hm Hst Hkey. destruct (manager_read m m0 [] Hm Hst Hkey) as (m' & Hr & Hok & Hres). unfold Write. cbn [negb]. eexists _, m'. split; [reflexivity|].
  split; [|split; [done|by exists (number m)]]. unfold Read_file. set (data := pchMessageStart ++ Serialize_manager m). set (h := Serialize (ser_uint 32) (Hash data)).
  assert (Hl : length h = 32%nat) by apply length_le_bytes. rewrite length_app, Hl, Nat.add_sub, drop_app_length, take_app_length.
  pose proof (ser_roundtrip (c := ser_uint 32) (Hash data) [] (Hash_range data)) as Hh. rewrite app_nil_r in Hh. unfold h. rewrite Hh, Z.eqb_refl. cbn [negb].
  unfold data. rewrite read_start, bool_decide_eq_true_2 by done. cbn [negb]. rewrite app_nil_r in Hr. by rewrite Hr.
Qed.

(** a reading that throws leaves a manager that is neither the old one nor consistent: here the file ends after the number of new entries *)
Theorem half_read m : manager_ok m -> nNew m <> 1 ->
  let data := pchMessageStart ++ Serialize (ser_uint 1) 0 ++ Serialize ser_vch (nKey m) ++ Serialize ser_int 1 in
  sized is_byte (nKey m) ->
  exists m', Read_file pchMessageStart (Some (data ++ Serialize (ser_uint 32) (Hash data))) m = Some (false, m') /\ ~ manager_ok m'.
Proof.
  intros Hm Hn data Hkey. unfold Read_file. set (h := Serialize (ser_uint 32) (Hash data)). assert (Hl : length h = 32%nat) by apply length_le_bytes.
  rewrite length_app, Hl, Nat.add_sub, drop_app_length, take_app_length.
  pose proof (ser_roundtrip (c := ser_uint 32) (Hash data) [] (Hash_range data)) as Hh. rewrite app_nil_r in Hh. unfold h. rewrite Hh, Z.eqb_refl. cbn [negb].
  unfold data. rewrite read_start, bool_decide_eq_true_2 by done. cbn [negb]. unfold Unserialize_manager, get.
  rewrite (ser_roundtrip (c := ser_uint 1)) by done. rewrite (ser_roundtrip (c := ser_vch)) by done.
  assert (Hi : Unserialize ser_int (Serialize ser_int 1) = Some (1, [])) by reflexivity. rewrite Hi. change (Unserialize ser_int []) with (@None (Z * bytes)).
  eexists. split; [done|]. intros H. pose proof (c_size _ _ Hm) as S1. pose proof (c_size _ _ H) as S2. cbn in S2. lia.
Qed.
End FileProperties.

(** ** Witness: a manager with four new entries and one that was tried *)

(** the same as a check *)
Definition storable_check (p : NetworkPeer) : bool :=
  let ip a := bool_decide (length a = 16%nat) && forallb is_byteb a in let a := np_addr p in
  ip (s_ip (a_service a)) && (0 <=? s_port (a_service a)) && (s_port (a_service a) <? 2 ^ 16) && (0 <=? nServices a) && (nServices a <? 2 ^ 64) &&
  (0 <=? a_nTime a) && (a_nTime a <? 2 ^ 32) && ip (source p) && (- 2 ^ 63 <=? nLastSuccess p) && (nLastSuccess p <? 2 ^ 63) && (- 2 ^ 31 <=? nAttempts p) && (nAttempts p <? 2 ^ 31).
Lemma storable_checked p : storable_check p = true -> storable p.
Proof.
  unfold storable_check. cbv beta zeta. intros H. b2p. repeat match goal with Hd : bool_decide _ = true |- _ => apply bool_decide_eq_true_1 in Hd end.
  unfold storable, valid_peer, valid_address, valid_service, valid_ip. cbn. split_and!; try done; try lia; by apply all_bytes_dec.
Qed.
Definition demo_key : bytes := replicate 32 7.
Lemma demo_stored m : run_npm (K := ToyCrypto) demo_rand demo_npm (new_manager demo_key) = Some m ->
  (forall id p, mapNetworkPeer m !! id = Some p -> storable p) /\ nKey m = demo_key /\ nNew m = 4 /\ nTried m = 1.
Proof.
  intros Hm. assert (Hc : match run_npm (K := ToyCrypto) demo_rand demo_npm (new_manager demo_key) with
    | Some m => forallb (fun e => storable_check e.2) (map_to_list (mapNetworkPeer m)) && bool_decide (nKey m = demo_key) && (nNew m =? 4) && (nTried m =? 1) | None => false end = true)
    by (vm_compute; reflexivity).
  rewrite Hm in Hc. apply andb_prop in Hc as [Hc H1]. apply andb_prop in Hc as [Hc H2]. apply andb_prop in Hc as [Hc H3]. apply bool_decide_eq_true_1 in H3. apply Z.eqb_eq in H1, H2. clear Hm.
  refine (conj _ (conj H3 (conj H2 H1))). intros id p Hp. apply storable_checked. rewrite forallb_forall in Hc. apply (Hc (id, p)). apply list_elem_of_In. by apply elem_of_map_to_list.
Qed.
Lemma peers_survive_witness : exists m file m', run_npm (K := ToyCrypto) demo_rand demo_npm (new_manager demo_key) = Some m /\
  Write (K := ToyCrypto) [1; 2; 3; 4] true true true m None = (true, Some file) /\
  Read_file (K := ToyCrypto) [1; 2; 3; 4] (Some file) (new_manager []) = Some (true, m') /\ nNew m' = 4 /\ nTried m' = 1.
Proof.
  destruct (run_npm_ok (K := ToyCrypto) demo_rand demo_npm (new_manager demo_key) (new_manager_ok _)) as (m & Hm & Hok).
  destruct (demo_stored m Hm) as (H1 & H2 & H3 & H4).
  destruct (peers_survive (K := ToyCrypto) [1; 2; 3; 4] (conj eq_refl (all_bytes_dec [1; 2; 3; 4] eq_refl)) m (new_manager []) None Hok H1) as (file & m' & H5 & H6 & _ & f & H7).
  - rewrite H2. split; [apply all_bytes_dec; vm_compute; reflexivity|vm_compute; discriminate].
  - exists m, file, m'. split; [exact Hm|]. split; [exact H5|]. split; [exact H6|]. exact (conj (eq_trans (rs_nNew _ _ _ H7) H3) (eq_trans (rs_nTried _ _ _ H7) H4)).
Defined.
