(* ===== verification/Clock.v ===== *)
(** * The adjusted time (util.cpp)

    [AddTimeData]: a node shifts its clock to the median of the clocks of its peers, one sample for an address, when that is not too far.
    The state is [clock]; the time is an argument.  The warning that is shown is [warned].  The properties: the clock is never shifted by
    seventy minutes or more, nor outside what most samples say; but once the filter of the samples is full, no sample has an effect. *)

From stdpp Require Import gmap sorting.
From S2P Require Import Prelude NetAddr Limited.
Local Open Scope Z_scope.

Record clock := { nTimeOffset : Z; setKnown : gset CNetAddr; vTimeOffsets : CMedianFilter; fDone : bool; warned : bool }.
Definition new_clock : clock := {| nTimeOffset := 0; setKnown := ∅; vTimeOffsets := new_median 200 0; fDone := false; warned := false |}.
Definition GetAdjustedTime (time : Z) (c : clock) : Z := time + nTimeOffset c.

(** somebody has another time within five minutes of ours *)
Definition fMatch (sorted : list Z) : bool := existsb (fun nOffset => negb (nOffset =? 0) && (Z.abs nOffset <? 5 * 60)) sorted.
(** [None]: the median of no values is taken *)
Definition AddTimeData (ip : CNetAddr) (nTime time : Z) (c : clock) : option clock :=
  let nOffsetSample := nTime - time in
  if bool_decide (ip ∈ setKnown c) then Some c
  else
    let known := {[ip]} ∪ setKnown c in
    let v := input nOffsetSample (vTimeOffsets c) in
    let size := length (vValues v) in
    if bool_decide (5 <= size)%nat && Nat.odd size then
      let? nMedian := median v in
      if Z.abs nMedian <? 70 * 60 then Some {| nTimeOffset := nMedian; setKnown := known; vTimeOffsets := v; fDone := fDone c; warned := warned c |}
      else
        let fire := negb (fDone c) && negb (fMatch (vSorted v)) in
        Some {| nTimeOffset := 0; setKnown := known; vTimeOffsets := v; fDone := fDone c || fire; warned := warned c || fire |}
    else Some {| nTimeOffset := nTimeOffset c; setKnown := known; vTimeOffsets := v; fDone := fDone c; warned := warned c |}.

Definition sample : Type := CNetAddr * Z * Z.
Fixpoint add_samples (l : list sample) (c : clock) : option clock :=
  match l with [] => Some c | (ip, nTime, time) :: r => let? c := AddTimeData ip nTime time c in add_samples r c end.

(** ** The median *)

Definition inside (lo hi x : Z) : bool := (lo <=? x) && (x <=? hi).
Definition votes (lo hi : Z) (l : list Z) : nat := length (List.filter (inside lo hi) l).
Lemma votes_app lo hi a b : votes lo hi (a ++ b) = (votes lo hi a + votes lo hi b)%nat.
Proof. unfold votes. by rewrite List.filter_app, length_app. Qed.
Lemma votes_le lo hi l : (votes lo hi l <= length l)%nat.
Proof. induction l as [|x l IH]; [done|]. unfold votes in *. cbn. case_match; cbn; lia. Qed.
Lemma votes_none lo hi l : Forall (fun x => inside lo hi x = false) l -> votes lo hi l = 0%nat.
Proof. induction 1 as [|x l Hx _ IH]; [done|]. unfold votes in *. cbn. by rewrite Hx. Qed.
Lemma votes_perm lo hi a b : a ≡ₚ b -> votes lo hi a = votes lo hi b.
Proof. induction 1; unfold votes in *; cbn in *; [done|case_match; cbn; lia|repeat case_match; done|lia]. Qed.
(** the element in the middle of a sorted list of odd length is where most are *)
Lemma middle_majority l lo hi m : StronglySorted Z.le l -> l !! Nat.div2 (length l) = Some m -> (length l < 2 * votes lo hi l)%nat -> lo <= m <= hi.
Proof.
  intros Hs Hm Hv. set (k := Nat.div2 (length l)) in *. pose proof (lookup_lt_Some _ _ _ Hm) as Hk.
  assert (Hdiv : (2 * k <= length l <= 2 * k + 1)%nat) by (unfold k; pose proof (Nat.div2_odd (length l)); destruct (Nat.odd (length l)); cbn in *; lia).
  rewrite <- (take_drop_middle l k m Hm) in Hs, Hv. rewrite votes_app in Hv. apply StronglySorted_app in Hs as (Hlt & Hs1 & Hs2). apply StronglySorted_inv in Hs2 as [_ Hge].
  assert (Hl : length (take k l ++ m :: drop (S k) l) = length l) by by rewrite take_drop_middle. rewrite Hl in Hv. pose proof (votes_le lo hi (take k l)) as H1.
  pose proof (votes_le lo hi (m :: drop (S k) l)) as H2. rewrite length_take in H1. cbn [length] in H2. rewrite length_drop in H2. split; apply Z.nlt_ge; intros Hout.
  - assert (Hz : votes lo hi (take k l ++ [m]) = 0%nat).
    { apply votes_none, Forall_app. split; [|constructor; [|constructor]; unfold inside; by rewrite (proj2 (Z.leb_gt lo m)) by lia].
      apply Forall_forall. intros x Hx. unfold inside. rewrite (proj2 (Z.leb_gt lo x)); [done|]. specialize (Hlt x m Hx ltac:(by left)). lia. }
    rewrite votes_app in Hz. change (m :: drop (S k) l) with ([m] ++ drop (S k) l) in Hv. rewrite votes_app in Hv. pose proof (votes_le lo hi (drop (S k) l)) as H3. rewrite length_drop in H3. lia.
  - assert (Hz : votes lo hi (m :: drop (S k) l) = 0%nat).
    { apply votes_none. constructor; [unfold inside; by rewrite (proj2 (Z.leb_gt m hi)), andb_false_r by lia|].
      eapply Forall_impl; [exact Hge|]. intros x Hx. cbn in Hx. unfold inside. by rewrite (proj2 (Z.leb_gt x hi)), andb_false_r by lia. }
    lia.
Qed.

(** ** The clock *)

Record clock_ok (c : clock) : Prop := {
  ck_size : mf_nSize (vTimeOffsets c) = 200%nat;
  ck_values : (1 <= length (vValues (vTimeOffsets c)) <= 200)%nat;
  ck_offset : Z.abs (nTimeOffset c) < 4200;
}.
Lemma new_clock_ok : clock_ok new_clock.
Proof. split; cbn; lia. Qed.
(** one sample *)
Lemma AddTimeData_spec ip nTime time c : clock_ok c -> exists c', AddTimeData ip nTime time c = Some c' /\ clock_ok c' /\
  (nTimeOffset c' = nTimeOffset c \/ nTimeOffset c' = 0 \/
   forall lo hi, (length (vValues (vTimeOffsets c')) < 2 * votes lo hi (vValues (vTimeOffsets c')))%nat -> lo <= nTimeOffset c' <= hi) /\
  (length (vValues (vTimeOffsets c)) = 200%nat -> nTimeOffset c' = nTimeOffset c /\ length (vValues (vTimeOffsets c')) = 200%nat).
Proof.
  intros [Hs Hv Ho]. unfold AddTimeData. case_bool_decide; [exists c; split_and!; auto; by split|].
  destruct (input_spec (vTimeOffsets c) (nTime - time)) as (Hvals & Hlen & Hperm & Hsort); [lia|lia|]. rewrite Hs in Hvals, Hlen.
  assert (Hns : mf_nSize (input (nTime - time) (vTimeOffsets c)) = 200%nat) by done. set (v := input (nTime - time) (vTimeOffsets c)) in *.
  assert (Hfull : length (vValues (vTimeOffsets c)) = 200%nat -> length (vValues v) = 200%nat).
  { intros H2. rewrite Hvals, length_drop, length_app, H2. cbn. lia. }
  destruct (bool_decide (5 <= length (vValues v))%nat && Nat.odd (length (vValues v))) eqn:E; cycle 1.
  { eexists. split; [done|]. split; [by split|]. cbn. split; [by left|]. auto. }
  apply andb_prop in E as [_ Hodd]. assert (Hnot : length (vValues (vTimeOffsets c)) <> 200%nat) by (intros H2; rewrite (Hfull H2) in Hodd; done).
  assert (Hl : length (vSorted v) = length (vValues v)) by by apply Permutation_length. unfold median. rewrite Hl, bool_decide_eq_false_2, Hodd by lia.
  destruct (lookup_lt_is_Some_2 (vSorted v) (Nat.div2 (length (vValues v)))) as [x Hx]; [rewrite Hl; apply Nat.lt_div2; lia|]. rewrite Hx. cbn [option_bind mbind].
  rewrite <- Hl in Hx. assert (Hmid : forall lo hi, (length (vValues v) < 2 * votes lo hi (vValues v))%nat -> lo <= x <= hi).
  { intros lo hi Hm. apply (middle_majority (vSorted v)); [apply Sorted_StronglySorted; [intros ? ? ?; lia|done]|done|]. by rewrite (votes_perm lo hi _ _ Hperm), Hl. }
  destruct (Z.ltb_spec (Z.abs x) (70 * 60)); eexists; (split; [done|]); (split; [by split|]); cbn; split; try done; auto.
Qed.
Lemma add_samples_ok l : forall c, clock_ok c -> exists c', add_samples l c = Some c' /\ clock_ok c' /\
  (length (vValues (vTimeOffsets c)) = 200%nat -> nTimeOffset c' = nTimeOffset c).
Proof.
  induction l as [|[[ip t] now] l IH]; intros c Hc; [by exists c|]. cbn [add_samples]. destruct (AddTimeData_spec ip t now c Hc) as (c1 & -> & H1 & _ & Hf). cbn [option_bind mbind].
  destruct (IH c1 H1) as (c2 & -> & H2 & Hf2). exists c2. split_and!; [done|done|]. intros Hl. destruct (Hf Hl) as [<- Hl1]. by apply Hf2.
Qed.

(** A minority cannot move the clock.  After any samples of any peers, one more never fails; the adjusted time is never more than seventy minutes off the
    own one; and when a sample changes the offset to something else than zero, the offset is where most of the samples kept are: between
    any bounds that hold for more than half of them. *)
Theorem AddTimeData_majority l ip nTime time : exists c c', add_samples l new_clock = Some c /\ AddTimeData ip nTime time c = Some c' /\
  Z.abs (GetAdjustedTime time c' - time) < 70 * 60 /\
  (nTimeOffset c' = nTimeOffset c \/ nTimeOffset c' = 0 \/
   forall lo hi, (length (vValues (vTimeOffsets c')) < 2 * votes lo hi (vValues (vTimeOffsets c')))%nat -> lo <= nTimeOffset c' <= hi).
Proof.
  destruct (add_samples_ok l new_clock new_clock_ok) as (c & Hc & Hok & _). destruct (AddTimeData_spec ip nTime time c Hok) as (c' & Hc' & Hok' & Hm & _).
  exists c, c'. split_and!; [done|done| |done]. unfold GetAdjustedTime. pose proof (ck_offset _ Hok'). by replace (time + nTimeOffset c' - time) with (nTimeOffset c') by lia.
Qed.
(** The clock freezes: once the filter holds two hundred values, an even number that stays, no sample of any peer changes the offset
    again. *)
Theorem clock_freezes l l' c : add_samples l new_clock = Some c -> length (vValues (vTimeOffsets c)) = 200%nat ->
  exists c', add_samples l' c = Some c' /\ nTimeOffset c' = nTimeOffset c.
Proof.
  intros Hc Hl. destruct (add_samples_ok l new_clock new_clock_ok) as (c0 & H0 & Hok & _). rewrite H0 in Hc. injection Hc as ->.
  destruct (add_samples_ok l' c Hok) as (c' & Hc' & _ & Hf). exists c'. split; [done|]. by apply Hf.
Qed.

(** samples of as many new addresses fill the filter *)
Lemma add_samples_fill l : forall c c', clock_ok c -> NoDup (map (fun x : sample => x.1.1) l) -> (forall x, x ∈ l -> x.1.1 ∉ setKnown c) -> add_samples l c = Some c' ->
  length (vValues (vTimeOffsets c')) = Nat.min 200 (length (vValues (vTimeOffsets c)) + length l).
Proof.
  induction l as [|[[ip t] now] l IH]; intros c c' Hc Hnd Hk; cbn [add_samples].
  - intros [= <-]. pose proof (ck_values _ Hc). cbn [length]. lia.
  - cbn [map fst] in Hnd. apply NoDup_cons in Hnd as [Hip Hnd]. pose proof (AddTimeData_spec ip t now c Hc) as (c1 & H1 & Hc1 & _). rewrite H1. cbn [option_bind mbind]. intros H2.
    assert (Hnew : ip ∉ setKnown c) by (apply (Hk (ip, t, now)); by left).
    assert (Hkv : setKnown c1 = {[ip]} ∪ setKnown c /\ vTimeOffsets c1 = input (t - now) (vTimeOffsets c)).
    { revert H1. unfold AddTimeData. rewrite bool_decide_eq_false_2 by done. destruct (_ && _); [|by intros [= <-]]. destruct (median _); [|done]. cbn [option_bind mbind].
      destruct (_ <? _); by intros [= <-]. }
    destruct Hkv as [Hk1 Hv1]. rewrite (IH c1 c' Hc1 Hnd); [|intros x Hx; rewrite Hk1; apply not_elem_of_union; split; [|apply Hk; by right]|done].
    + destruct Hc as [Hs Hv _]. destruct (input_spec (vTimeOffsets c) (t - now)) as (Hvals & _); [lia|lia|]. rewrite Hv1, Hvals, length_drop, length_app, Hs. cbn [length]. lia.
    + apply not_elem_of_singleton. intros He. apply Hip. apply list_elem_of_fmap. by exists x.
Qed.
Definition many_samples : list sample := map (fun i => (demo_ip 8 8 1 (Z.of_nat i), 1000 + 10 * Z.of_nat i, 1000)) (seq 0 199).
Lemma many_samples_distinct : NoDup (map (fun x : sample => x.1.1) many_samples).
Proof.
  unfold many_samples. rewrite map_map. cbn [fst]. apply NoDup_fmap_2; [|apply NoDup_seq]. intros i j Hij. unfold demo_ip in Hij. injection Hij. lia.
Qed.
Lemma clock_freezes_witness : exists c, add_samples many_samples new_clock = Some c /\ exists c', add_samples [(demo_ip 9 9 9 9, 5000, 2000)] c = Some c' /\ nTimeOffset c' = nTimeOffset c.
Proof.
  destruct (add_samples_ok many_samples new_clock new_clock_ok) as (c & Hc & _). exists c. split; [exact Hc|].
  apply (clock_freezes many_samples [(demo_ip 9 9 9 9, 5000, 2000)] c Hc). rewrite (add_samples_fill many_samples new_clock c new_clock_ok many_samples_distinct); [done| |done].
  intros x _. apply not_elem_of_empty.
Defined.
