(* ===== verification/Utxo.v ===== *)
(** * The set of unspent outputs, abstractly

    What the transactions of a block do to the unspent outputs, as functions on finite maps without fully spent
    entries: the specification that the views implement ([connect_txs_applies]).  Since the result depends only on the
    map and the transactions, the coins at a block depend only on the chain that leads to it. *)

From stdpp Require Import gmap.
From S2P Require Import Prelude OpenSSL BigNum Target Serialize Crypto Script Transaction ScriptEval ScriptStd Coins View Merkle Block.
Local Open Scope Z_scope.

Abbreviation utxo := (gmap Z CCoins) (only parsing).

(** coins that are all spent are not kept *)
Definition put (h : Z) (c : CCoins) (u : utxo) : utxo := if IsPruned c then delete h u else <[h := c]> u.

Fixpoint apply_inputs (ins : list CTxIn) (u : utxo) : option utxo :=
  match ins with
  | [] => Some u
  | i :: r =>
    let? c := u !! o_hash (prevout i) in
    let? (c, _) := Spend c (prevout i) in
    apply_inputs r (put (o_hash (prevout i)) c u)
  end.
Definition apply_tx (nHeight : Z) (tx : CTransaction) (h : Z) (u : utxo) : option utxo :=
  let? u := if IsCoinBase tx then Some u else apply_inputs (vin tx) u in
  Some (put h (coins_of tx nHeight) u).
Fixpoint apply_txs (nHeight : Z) (l : list (CTransaction * Z)) (u : utxo) : option utxo :=
  match l with
  | [] => Some u
  | (tx, h) :: r => let? u := apply_tx nHeight tx h u in apply_txs nHeight r u
  end.

Section Represents.
Context {V : Type} {CV : CoinsView V} {CS : CoinsViewSpec V}.
Abbreviation view := (CCoinsViewCache V).

(** a view holds a set of unspent outputs *)
Definition represents (v : view) (u : utxo) : Prop := forall k, live (Vm v k) = u !! k.

Lemma represents_live v w u : live_eq v w -> represents v u -> represents w u.
Proof. intros H Hv k. by rewrite (H k). Qed.

Lemma represents_eq v w u : represents v u -> represents w u -> live_eq v w.
Proof. intros H1 H2 k. by rewrite (H1 k), (H2 k). Qed.

Lemma represents_fun v u1 u2 : represents v u1 -> represents v u2 -> u1 = u2.
Proof. intros H1 H2. apply map_eq. intros k. by rewrite <- H1, <- H2. Qed.

Lemma represents_Set v u h c : represents v u -> represents (SetCoins v h c) (put h c u).
Proof.
  intros H k. rewrite live_Set. unfold put. case_bool_decide as E; cbn [live]; destruct (IsPruned c) eqn:Ep.
  - by rewrite E, lookup_delete_eq.
  - by rewrite E, lookup_insert_eq.
  - rewrite lookup_delete_ne by done. apply H.
  - rewrite lookup_insert_ne by done. apply H.
Qed.

Lemma Spend_unpruned c out c' u : Spend c out = Some (c', u) -> IsPruned c = false.
Proof.
  intros H. destruct (Spend_Some _ _ _ _ H) as (o & Hn & Ho & _). unfold IsPruned. apply not_true_is_false. intros Hp.
  rewrite forallb_forall in Hp. apply list_elem_of_lookup_2, list_elem_of_In, Hp in Hn. unfold unspent in Ho. by rewrite Hn in Ho.
Qed.

Lemma spend_inputs_applies ins acc v us v' u : represents v u -> spend_inputs ins acc v = Some (us, v') ->
  exists u', apply_inputs ins u = Some u' /\ represents v' u'.
Proof.
  revert acc v u. induction ins as [|i ins IH]; intros acc v u Hv H; cbn [spend_inputs] in H; [injection H as <- <-; by exists u|].
  destruct (GetCoinsRef v _) as [[c v1]|] eqn:Eg; [|done]. apply GetCoinsRef_Some in Eg as [Hc Hs].
  destruct (Spend c (prevout i)) as [[c' un]|] eqn:Es; [|done]. cbn [apply_inputs].
  assert (Hu : u !! o_hash (prevout i) = Some c) by (rewrite <- Hv, Hc; cbn; by rewrite (Spend_unpruned _ _ _ _ Es)).
  rewrite Hu, Es. apply (IH _ _ _ (represents_Set v1 u _ c' (represents_live _ _ _ (same_live _ _ Hs) Hv)) H).
Qed.
End Represents.

Section Connecting.
Context {V : Type} {CV : CoinsView V} {CS : CoinsViewSpec V} {B : OpenSSLBN} {K : Crypto} {E : CacheEnv}.
Context (f1 f2 : Z) (th strict : bool) (flags nHeight : Z).

Lemma connect_tx_applies tx h (s s' : connecting (V := V)) u : connect_tx f1 f2 th strict flags nHeight tx h s = Some (inl s') ->
  represents (n_view s) u -> exists u', apply_tx nHeight tx h u = Some u' /\ represents (n_view s') u'.
Proof.
  intros H Hu. destruct (connect_tx_inv _ _ _ _ _ _ _ _ _ _ H) as (v1 & us & v2 & Hs & -> & Hr).
  apply (represents_live _ _ _ (same_live _ _ Hs)) in Hu. unfold apply_tx. destruct (IsCoinBase tx).
  - destruct Hr as [-> _]. eexists. split; [done|by apply represents_Set].
  - destruct Hr as [Hsp _]. destruct (spend_inputs_applies _ _ _ _ _ _ Hu Hsp) as (u' & -> & Hu'). eexists. split; [done|by apply represents_Set].
Qed.

(** the loop of [ConnectBlock] implements the specification *)
Lemma connect_txs_applies l (s s' : connecting (V := V)) u : connect_txs f1 f2 th strict flags nHeight l s = Some (inl s') ->
  represents (n_view s) u -> exists u', apply_txs nHeight l u = Some u' /\ represents (n_view s') u'.
Proof.
  revert s u. induction l as [|[tx h] l IH]; intros s u H Hu; cbn [connect_txs] in H; [injection H as <-; by exists u|].
  destruct (connect_tx _ _ _ _ _ _ tx h s) as [[s1|]|] eqn:Et; [|done|done].
  destruct (connect_tx_applies _ _ _ _ _ Et Hu) as (u1 & Ha & Hu1). cbn [apply_txs]. rewrite Ha. by apply (IH s1).
Qed.
End Connecting.
