(* ===== verification/Best.v ===== *)
(** * The best chain (main.cpp)

    Moving the tip of the chain ([SetBestChain]) with the disconnection of the blocks of the old branch, the choice of
    the candidate with the most work ([ConnectBestBlock]), and new blocks on their way into the index
    ([AddToBlockIndex], [AcceptBlock], [ProcessBlock] with the blocks that wait for their predecessor).  Whether this is
    the initial download is a setting; wallets, peers and the user interface are not told. *)

From stdpp Require Import gmap.
From S2P Require Import Prelude OpenSSL BigNum Target PrimeChain Serialize Crypto Script Transaction ScriptEval ScriptStd Coins View Merkle Block BlockFile Chain Supply Connect Progress Mempool.
Local Open Scope Z_scope.

Record settings := {
  b_params : params; b_fInitialDownload : bool; b_nCoinCacheSize : Z; b_fTestNet : bool;
  b_v2compatible : bool; b_prime_fuel : nat;
}.
Record chainstate (V : Type) := { nd : node; pcoinsTip : CCoinsViewCache V; c_pool : CTxMemPool }.
Arguments Build_chainstate {V}.
Arguments nd {V}.
Arguments pcoinsTip {V}.
Arguments c_pool {V}.
Definition set_nd {V} (n : node) (c : chainstate V) : chainstate V := {| nd := n; pcoinsTip := pcoinsTip c; c_pool := c_pool c |}.

(** [setBlockIndexValid] is ordered by work, and by the hash among equals: the last element of a set *)
Definition work_of (idx : gmap Z CBlockIndex) (h : Z) : Z := match idx !! h with Some b => nChainWork b | None => 0 end.
Definition work_less (idx : gmap Z CBlockIndex) (a b : Z) : bool :=
  (work_of idx a <? work_of idx b) || ((work_of idx a =? work_of idx b) && (b <? a)).
Definition best_candidate (idx : gmap Z CBlockIndex) (s : gset Z) : option Z :=
  foldr (fun h r => match r with None => Some h | Some m => if work_less idx m h then Some h else Some m end) None (elements s).

(** what a view points to for an index pointer *)
Definition ref_of (idx : gmap Z CBlockIndex) (p : option Z) : option block_ref :=
  (fun h => {| b_hash := h; b_height := height_of idx (Some h) |}) <$> p.

(** the record of the most work on a chain that is not valid *)
Definition set_best_invalid (w : Z) (n : node) : node :=
  {| mapBlockIndex := mapBlockIndex n; setBlockIndexValid := setBlockIndexValid n; pindexGenesisBlock := pindexGenesisBlock n; pindexBest := pindexBest n;
     hashBestChain := hashBestChain n; nBestHeight := nBestHeight n; nBestChainWork := nBestChainWork n; nBestInvalidWork := w;
     disk := disk n; t_blockindex := t_blockindex n; t_txindex := t_txindex n; t_bestinvalid := t_bestinvalid n; signatureCache := signatureCache n |}.
Definition WriteBestInvalidWork (w : Z) (n : node) : bool * node :=
  let '(ok, s) := io (disk n) in
  let n := set_disk s n in
  if ok then
    (true, {| mapBlockIndex := mapBlockIndex n; setBlockIndexValid := setBlockIndexValid n; pindexGenesisBlock := pindexGenesisBlock n; pindexBest := pindexBest n;
     hashBestChain := hashBestChain n; nBestHeight := nBestHeight n; nBestChainWork := nBestChainWork n; nBestInvalidWork := nBestInvalidWork n;
     disk := disk n; t_blockindex := t_blockindex n; t_txindex := t_txindex n; t_bestinvalid := w; signatureCache := signatureCache n |})
  else (false, n).
(** [None]: the message at the end follows the null pointer [pindexBest] *)
Definition InvalidChainFound (h : Z) (n : node) : option node :=
  let w := work_of (mapBlockIndex n) h in
  let n := if nBestInvalidWork n <? w then (WriteBestInvalidWork w (set_best_invalid w n)).2 else n in
  let? _ := pindexBest n in Some n.

(** the new best block *)
Definition set_best (h : Z) (pi : CBlockIndex) (n : node) : node :=
  {| mapBlockIndex := mapBlockIndex n; setBlockIndexValid := setBlockIndexValid n; pindexGenesisBlock := pindexGenesisBlock n; pindexBest := Some h;
     hashBestChain := h; nBestHeight := nHeight pi; nBestChainWork := nChainWork pi; nBestInvalidWork := nBestInvalidWork n;
     disk := disk n; t_blockindex := t_blockindex n; t_txindex := t_txindex n; t_bestinvalid := t_bestinvalid n; signatureCache := signatureCache n |}.

(** ** The fork *)

(** back to a height; [None]: the assertion fails *)
Fixpoint drop_to (fuel : nat) (idx : gmap Z CBlockIndex) (p : option Z) (height : Z) : option (option Z) :=
  if height <? height_of idx p then
    match fuel with
    | O => None
    | S f => match prev_of idx p with None => None | Some q => drop_to f idx (Some q) height end
    end
  else Some p.
(** the last common block of the two chains; [None]: an assertion fails or the fuel ran out *)
Fixpoint find_fork (fuel : nat) (idx : gmap Z CBlockIndex) (pfork plonger : option Z) : option (option Z) :=
  match pfork with
  | None => Some None
  | Some _ =>
    if bool_decide (pfork = plonger) then Some pfork
    else
      let? plonger := drop_to (Z.to_nat (height_of idx plonger)) idx plonger (height_of idx pfork) in
      if bool_decide (pfork = plonger) then Some pfork
      else
        match fuel with
        | O => None
        | S f => match prev_of idx pfork with None => None | Some q => find_fork f idx (Some q) plonger end
        end
  end.
(** the blocks from one back to another, that one not included; [None]: a null pointer is followed *)
Fixpoint branch (fuel : nat) (idx : gmap Z CBlockIndex) (p stop : option Z) : option (list Z) :=
  if bool_decide (p = stop) then Some []
  else
    match fuel with
    | O => None
    | S f => let? h := p in let? r := branch f idx (prev_of idx p) stop in Some (h :: r)
    end.
Definition branch_of (idx : gmap Z CBlockIndex) (p stop : option Z) : option (list Z) := branch (Z.to_nat (height_of idx p + 1)) idx p stop.

Section BestChain.
Context {V : Type} {CV : CoinsView V} {B : OpenSSLBN} {K : Crypto} {E : CacheEnv} (st : settings).
Abbreviation p := (b_params st).
Abbreviation tip := (CCoinsViewCache V).
Abbreviation view := (CCoinsViewCache (CCoinsViewCache V)).
Abbreviation chain := (chainstate V).

(** ** Disconnecting *)

(** [DisconnectBlock] with the undo data read from the disk; [None]: an assertion fails *)
Definition disconnect_block (b : CBlock) (h : Z) (pi : CBlockIndex) (n : node) (v : view) : option (bool * node * view) :=
  let '(t, v) := GetBestBlock v in
  if negb (bool_decide (t = Some {| b_hash := h; b_height := nHeight pi |})) then None
  else if pos_IsNull (GetUndoPos pi) then Some (false, n, v)
  else
    let? hashPrevBlock := pprev pi in
    let '(u, s) := undo_ReadFromDisk (GetUndoPos pi) hashPrevBlock (disk n) in
    let n := set_disk s n in
    match u with
    | None => Some (false, n, v)
    | Some blockUndo =>
      match DisconnectBlock {| b_hash := h; b_height := nHeight pi |} (ref_of (mapBlockIndex n) (pprev pi)) (zip (vtx b) (txids b)) blockUndo v with
      | None => Some (false, n, v)
      | Some (fClean, v) => Some (fClean, n, v)
      end
    end.

(** how a loop over blocks ends: through, with the transactions it collected; with an error; with an exception; or a
    block could not be connected *)
Inductive loop_end := Through (txs : list CTransaction) | Stopped | Thrown | Failed (h : Z).

Fixpoint disconnect_loop (hs : list Z) (vResurrect : list CTransaction) (state : CValidationState) (n : node) (v : view)
    : option (loop_end * CValidationState * node * view) :=
  match hs with
  | [] => Some (Through vResurrect, state, n, v)
  | h :: r =>
    let? pi := mapBlockIndex n !! h in
    let '(b, s) := ReadFromDisk_index h (GetBlockPos pi) (disk n) in
    let n := set_disk s n in
    match b with
    | None => let '(_, state) := state_Error state in Some (Stopped, state, n, v)
    | Some b =>
      let? (ok, n, v) := disconnect_block b h pi n v in
      if negb ok then Some (Stopped, state, n, v)
      else disconnect_loop r (filter (fun tx => IsCoinBase tx = false) (vtx b) ++ vResurrect) state n v
    end
  end.

(** ** Connecting *)

Fixpoint connect_loop (hs : list Z) (vDelete : list CTransaction) (state : CValidationState) (n : node) (v : view)
    : option (loop_end * CValidationState * node * view) :=
  match hs with
  | [] => Some (Through vDelete, state, n, v)
  | h :: r =>
    let? pi := mapBlockIndex n !! h in
    let '(b, s) := ReadFromDisk_index h (GetBlockPos pi) (disk n) in
    let n := set_disk s n in
    match b with
    | None => let '(_, state) := state_Error state in Some (Stopped, state, n, v)
    | Some b =>
      let? (o, state, n, v) := ConnectBlock p b (Some h) pi false state n v in
      match o with
      | Ret true => connect_loop r (vDelete ++ vtx b) state n v
      | Ret false => Some (Failed h, state, n, v)
      | Throw => Some (Thrown, state, n, v)
      end
    end
  end.

(** ** The memory pool after the move *)

Definition pool_params_of (n : node) : pool_params :=
  {| pp_fTestNet := b_fTestNet st; pp_nMinTxFee := p_nMinTxFee p; pp_nMinRelayTxFee := p_nMinRelayTxFee p; pp_nBestHeight := nBestHeight n;
     pp_nAdjustedTime := p_nAdjustedTime p; pp_rate_limited := false |}.
Fixpoint resurrect (txs : list CTransaction) (c : chain) : option chain :=
  match txs with
  | [] => Some c
  | tx :: r =>
    let? a := accept (pool_params_of (nd c)) tx true false new_state (c_pool c) (pcoinsTip c) (signatureCache (nd c)) in
    let? pool := if a_ok a then Some (a_pool a) else remove (pool_fuel (a_pool a)) true tx (a_pool a) in
    resurrect r {| nd := set_cache (a_cache a) (nd c); pcoinsTip := a_tip a; c_pool := pool |}
  end.
Fixpoint delete_redundant (txs : list CTransaction) (pool : CTxMemPool) : option CTxMemPool :=
  match txs with
  | [] => Some pool
  | tx :: r =>
    let? pool := remove (pool_fuel pool) false tx pool in
    let? pool := removeConflicts (pool_fuel pool) tx pool in
    delete_redundant r pool
  end.

(** ** SetBestChain *)

Definition unlink (idx : gmap Z CBlockIndex) (h : Z) : gmap Z CBlockIndex :=
  match prev_of idx (Some h) with Some q => alter (set_pnext None) q idx | None => idx end.
Definition link (idx : gmap Z CBlockIndex) (h : Z) : gmap Z CBlockIndex :=
  match prev_of idx (Some h) with Some q => alter (set_pnext (Some h)) q idx | None => idx end.

(** writing the coins to the database, when it is time to *)
Definition flush_tip (state : CValidationState) (n : node) (t : tip) : bool * CValidationState * node * tip :=
  if negb (b_fInitialDownload st) || (b_nCoinCacheSize st <? GetCacheSize t) then
    if negb (CheckDiskSpace (u32 (100 * 2 * 2 * GetCacheSize t)) (disk n)) then
      let '(r, state) := state_Error state in (r, state, n, t)
    else
      let n := set_disk (FlushBlockFile false (disk n)) n in
      let '(ok, t) := Flush t in
      if ok then (true, state, n, t) else let '(r, state) := state_Error state in (r, state, n, t)
  else (true, state, n, t).

(** [reorganise] is what [InvalidBlockFound] does when the block is on the main chain: [ConnectBestBlock] *)
Definition InvalidBlockFound (reorganise : chain -> option chain) (h : Z) (c : chain) : option chain :=
  let n := nd c in
  let? pi := mapBlockIndex n !! h in
  let pi := set_nStatus (Z.lor (nStatus pi) BLOCK_FAILED_VALID) pi in
  let n := write_index (Some h) pi n in
  let '(_, n) := WriteBlockIndex (disk_index h pi) n in
  let n := set_valid (setBlockIndexValid n ∖ {[h]}) n in
  let? n := InvalidChainFound h n in
  if bool_decide (is_Some (pnext pi)) then reorganise (set_nd n c) else Some (set_nd n c).

(** when every block is connected: the coins go to the tip, the index is linked along the new branch, and the pool gets the
    transactions of the old branch and loses those of the new one; [None]: an assertion fails *)
Definition finish_switch (pindexNew : Z) (vDisconnect vConnect : list Z) (vResurrect vDelete : list CTransaction) (state : CValidationState)
    (n : node) (view : view) (pool : CTxMemPool) : option (outcome * CValidationState * chain) :=
  let '(ok, view) := Flush view in
  if negb ok then None
  else
    let '(ok, state, n, t) := flush_tip state n (base view) in
    if negb ok then Some (Ret false, state, {| nd := n; pcoinsTip := t; c_pool := pool |})
    else
      let n := set_index (foldl link (foldl unlink (mapBlockIndex n) vDisconnect) vConnect) n in
      let? c := resurrect vResurrect {| nd := n; pcoinsTip := t; c_pool := pool |} in
      let? pool := delete_redundant vDelete (c_pool c) in
      let? pi := mapBlockIndex (nd c) !! pindexNew in
      Some (Ret true, state, {| nd := set_best pindexNew pi (nd c); pcoinsTip := pcoinsTip c;
                                c_pool := {| mapTx := mapTx pool; mapNextTx := mapNextTx pool; nTransactionsUpdated := u32 (nTransactionsUpdated pool + 1) |} |}).

(** [None]: an assertion fails *)
Definition SetBestChain (reorganise : chain -> option chain) (pindexNew : Z) (state : CValidationState) (c : chain)
    : option (outcome * CValidationState * chain) :=
  let n := nd c in
  let idx := mapBlockIndex n in
  let view := new_cache (pcoinsTip c) in
  let '(t, view) := GetBestBlock view in
  let best := b_hash <$> t in
  let? pfork := find_fork (Z.to_nat (height_of idx best)) idx best (Some pindexNew) in
  let? vDisconnect := branch_of idx best pfork in
  let? vConnect := branch_of idx (Some pindexNew) pfork in
  let vConnect := rev vConnect in
  let stop (o : outcome) state n (v : CCoinsViewCache tip) := Some (o, state, {| nd := n; pcoinsTip := base v; c_pool := c_pool c |}) in
  let? (e, state, n, view) := disconnect_loop vDisconnect [] state n view in
  match e with
  | Through vResurrect =>
    let? (e, state, n, view) := connect_loop vConnect [] state n view in
    match e with
    | Through vDelete =>
      finish_switch pindexNew vDisconnect vConnect vResurrect vDelete state n view (c_pool c)
    | Stopped => stop (Ret false) state n view
    | Thrown => stop Throw state n view
    | Failed h =>
      let c := {| nd := n; pcoinsTip := base view; c_pool := c_pool c |} in
      if state_IsInvalid state then
        let? n := InvalidChainFound pindexNew n in
        let? c := InvalidBlockFound reorganise h (set_nd n c) in
        Some (Ret false, state, c)
      else Some (Ret false, state, c)
    end
  | Stopped => stop (Ret false) state n view
  | Thrown => stop Throw state n view
  | Failed _ => None
  end.

(** ** ConnectBestBlock *)

(** the walk from the candidate to the main chain ends at a block that is marked as failed, or with the blocks to attach *)
Inductive walk := FailedAt (h : Z) | Attach (vAttach : list Z).
Fixpoint check_ancestry (fuel : nat) (idx : gmap Z CBlockIndex) (pindexBest : option Z) (pindexTest : Z) (vAttach : list Z) : option walk :=
  match fuel with
  | O => None
  | S f =>
    let? b := idx !! pindexTest in
    if negb (Z.land (nStatus b) BLOCK_FAILED_MASK =? 0) then Some (FailedAt pindexTest)
    else
      let vAttach := if match pindexBest with None => true | Some q => work_of idx q <? nChainWork b end
                     then pindexTest :: vAttach else vAttach in
      match pprev b, pnext b with
      | None, _ | _, Some _ => Some (Attach vAttach)
      | Some q, None => check_ancestry f idx pindexBest q vAttach
      end
  end.

(** the descendants of a failed block, from the candidate back to it *)
Fixpoint mark_failed (fuel : nat) (pindexTest pindexFailed : Z) (n : node) : option node :=
  if pindexTest =? pindexFailed then Some n
  else
    match fuel with
    | O => None
    | S f =>
      let? b := mapBlockIndex n !! pindexFailed in
      let b := set_nStatus (Z.lor (nStatus b) BLOCK_FAILED_CHILD) b in
      let n := write_index (Some pindexFailed) b n in
      let n := set_valid (setBlockIndexValid n ∖ {[pindexFailed]}) n in
      let '(_, n) := WriteBlockIndex (disk_index pindexFailed b) n in
      let? q := pprev b in
      mark_failed f pindexTest q n
    end.

(** the outer loop up to the point where there is nothing to do, or there are blocks to attach *)
Fixpoint choose_best (fuel : nat) (n : node) : option (list Z * node) :=
  match fuel with
  | O => None
  | S f =>
    let idx := mapBlockIndex n in
    match best_candidate idx (setBlockIndexValid n) with
    | None => Some ([], n)
    | Some b =>
      if bool_decide (Some b = pindexBest n) || match pindexBest n with Some q => work_of idx b =? work_of idx q | None => false end
      then Some ([], n)
      else
        let depth := Z.to_nat (height_of idx (Some b) + 1) in
        let? w := check_ancestry depth idx (pindexBest n) b [] in
        match w with
        | Attach vAttach => Some (vAttach, n)
        | FailedAt t =>
          let? n := mark_failed depth t b n in
          let? n := InvalidChainFound b n in
          choose_best f n
        end
    end
  end.

Fixpoint attach_loop (switch : CValidationState -> Z -> chain -> option (outcome * CValidationState * chain))
    (vAttach : list Z) (state : CValidationState) (c : chain) : option (bool * CValidationState * chain) :=
  match vAttach with
  | [] => Some (true, state, c)
  | h :: r =>
    let? (o, state, c) := switch state h c in
    match o with
    | Ret true => attach_loop switch r state c
    | Ret false => Some (false, state, c)
    | Throw => let '(r, state) := state_Error state in Some (r, state, c)
    end
  end.

(** the fuel bounds the reorganisations that fail in the middle and start another *)
Fixpoint ConnectBestBlock (fuel : nat) (state : CValidationState) (c : chain) : option (bool * CValidationState * chain) :=
  match fuel with
  | O => None
  | S f =>
    let? (vAttach, n) := choose_best (S (size (setBlockIndexValid (nd c)))) (nd c) in
    let reorganise c := let? (_, _, c) := ConnectBestBlock f new_state c in Some c in
    attach_loop (fun state h => SetBestChain reorganise h state) vAttach state (set_nd n c)
  end.
End BestChain.
