(* ===== verification/Accept.v ===== *)
(** * New blocks (main.cpp)

    A block on its way into the index: [AddToBlockIndex], the contextual checks of [AcceptBlock], and [ProcessBlock]
    with the blocks that wait for their predecessor.  [mapOrphanBlocksByPrev] is a multimap: for each hash the blocks
    that wait for it, in the order of their arrival.  The request to a peer for the missing blocks is returned; the
    announcements are not modelled.  The properties: [ProcessBlock] handles exactly the blocks that wait for
    one that was accepted, in order, whatever [AcceptBlock] answers, and none keeps waiting for a block that was accepted. *)

From stdpp Require Import gmap.
From S2P Require Import Prelude OpenSSL BigNum Target PrimeChain Serialize Crypto Script Transaction ScriptEval ScriptStd Coins View Merkle Block BlockFile Chain Supply Connect Progress Mempool Best.
Local Open Scope Z_scope.

(** the blocks that wait *)
Record orphanage := { mapOrphanBlocks : gmap Z CBlock; mapOrphanBlocksByPrev : gmap Z (list CBlock) }.
Definition no_orphans : orphanage := {| mapOrphanBlocks := ∅; mapOrphanBlocksByPrev := ∅ |}.

Section Accept.
Context {V : Type} {CV : CoinsView V} {B : OpenSSLBN} {K : Crypto} {E : CacheEnv} (st : settings).
Abbreviation p := (b_params st).
Abbreviation chain := (chainstate V).

(** ** AddToBlockIndex *)

(** the index of a new block; [None]: a big-number division throws *)
Definition new_index (b : CBlock) (pos : CDiskBlockPos) (idx : gmap Z CBlockIndex) : option CBlockIndex :=
  let h := blk_header b in
  let? bnWork := GetBlockWork (p_target p) (h_nBits h) in
  let prev := idx !! hashPrevBlock h in
  let from {A} (f : CBlockIndex -> A) (d : A) : A := match prev with Some q => f q | None => d end in
  Some {|
    pprev := from (fun _ => Some (hashPrevBlock h)) None; pnext := None; nHeight := from (fun q => nHeight q + 1) 0;
    nFile := d_nFile pos; nDataPos := d_nPos pos; nUndoPos := 0;
    nChainWork := (from nChainWork 0 + getuint256 bnWork) mod 2 ^ 256;
    nWorkTransition := EstimateWorkTransition (from nWorkTransition (TargetGetInitial (p_target p))) (h_nBits h) (nPrimeChainLength b);
    i_nPrimeChainType := nPrimeChainType b; i_nPrimeChainLength := nPrimeChainLength b; nMoneySupply := 0;
    nTx := u32 (Z.of_nat (length (vtx b))); nChainTx := u32 (from nChainTx 0 + u32 (Z.of_nat (length (vtx b))));
    nStatus := Z.lor BLOCK_VALID_TRANSACTIONS BLOCK_HAVE_DATA;
    i_nVersion := h_nVersion h; i_hashMerkleRoot := hashMerkleRoot h; i_nTime := h_nTime h; i_nBits := h_nBits h; i_nNonce := h_nNonce h;
  |}.

(** [None]: an assertion fails, or the fuel of [ConnectBestBlock] ran out; the division in [new_index] does not throw on bits in range ([new_index_total]);
    a failed write throws, and [CLevelDB::Flush] at the end does nothing and returns true *)
Definition AddToBlockIndex (fuel : nat) (b : CBlock) (pos : CDiskBlockPos) (state : CValidationState) (c : chain)
    : option (outcome * CValidationState * chain) :=
  let hash := block_GetHash b in
  let n := nd c in
  if bool_decide (is_Some (mapBlockIndex n !! hash)) then
    let '(r, state) := state_Invalid false state in Some (Ret r, state, c)
  else
    let? pi := new_index b pos (mapBlockIndex n) in
    let n := write_index (Some hash) pi n in
    let n := set_valid ({[hash]} ∪ setBlockIndexValid n) n in
    let '(ok, n) := WriteBlockIndex (disk_index hash pi) n in
    let c := set_nd n c in
    if negb ok then Some (Throw, state, c)
    else
      let? (ok, state, c) := ConnectBestBlock st fuel state c in
      Some (Ret ok, state, c).

(** ** AcceptBlock *)

(** the checks that need the predecessor *)
Inductive context_check := InContext (nHeight : Z) | RefusedAs (level : Z) | CheckThrows.
Definition contextual (b : CBlock) (n : node) : option context_check :=
  let h := blk_header b in
  let idx := mapBlockIndex n in
  if block_GetHash b =? p_hashGenesisBlock p then Some (InContext 0)
  else
    match idx !! hashPrevBlock h with
    | None => Some (RefusedAs 10)
    | Some prev =>
      let height := nHeight prev + 1 in
      match GetNextWorkRequired (p_target p) idx (Some (hashPrevBlock h)) with
      | None => Some CheckThrows
      | Some nBits =>
        if negb (h_nBits h =? nBits) then Some (RefusedAs 100)
        else if GetBlockTime h <=? GetMedianTimePast idx (hashPrevBlock h) then Some (RefusedAs 0)
        else if negb (forallb (fun tx => IsFinal tx height (GetBlockTime h) (nBestHeight n) (p_nAdjustedTime p)) (vtx b)) then Some (RefusedAs 10)
        else if h_nVersion h <? 2 then Some (RefusedAs 0)
        else if if b_fTestNet st then IsSuperMajority idx 2 (Some (hashPrevBlock h)) 51 100 else IsSuperMajority idx 2 (Some (hashPrevBlock h)) 750 1000
        then
          let expect := push_int64 height in
          let? coinbase := vtx b !! 0%nat in
          let? txin := vin coinbase !! 0%nat in
          if bool_decide (take (length expect) (scriptSig txin) = expect) then Some (InContext height) else Some (RefusedAs 100)
        else Some (InContext height)
      end
    end.

Definition caught (state : CValidationState) (c : chain) : option (outcome * CValidationState * chain) :=
  let '(r, state) := state_Error state in Some (Ret r, state, c).

(** [dbp]: the block is in a block file already *)
Definition AcceptBlock (fuel : nat) (b : CBlock) (dbp : option CDiskBlockPos) (state : CValidationState) (c : chain)
    : option (outcome * CValidationState * chain) :=
  if bool_decide (is_Some (mapBlockIndex (nd c) !! block_GetHash b)) then
    let '(r, state) := state_Invalid false state in Some (Ret r, state, c)
  else
    let? k := contextual b (nd c) in
    match k with
    | CheckThrows => Some (Throw, state, c)
    | RefusedAs level => let '(r, state) := state_DoS level false false state in Some (Ret r, state, c)
    | InContext height =>
      let? (ok, pos, state, s) :=
        FindBlockPos state (default null_pos dbp) (u32 (GetSerializeSize ser_CBlock b + 8)) height (h_nTime (blk_header b))
          (bool_decide (is_Some dbp)) (disk (nd c)) in
      let c := set_nd (set_disk s (nd c)) c in
      if negb ok then Some (Ret false, state, c)
      else
        let '(w, s) := if bool_decide (is_Some dbp) then (IoDone pos, s) else block_WriteToDisk (p_pchMessageStart p) b pos s in
        let c := set_nd (set_disk s (nd c)) c in
        match w with
        | IoDone pos =>
          let? (o, state, c) := AddToBlockIndex fuel b pos state c in
          match o with Throw => caught state c | Ret r => Some (Ret r, state, c) end
        | IoError | IoThrow => caught state c
        end
    end.

(** ** ProcessBlock *)

(** back to the first block of a chain of blocks that wait *)
Fixpoint orphan_root (fuel : nat) (m : gmap Z CBlock) (b : CBlock) : option Z :=
  match m !! hashPrevBlock (blk_header b) with
  | None => Some (block_GetHash b)
  | Some q => match fuel with O => None | S f => orphan_root f m q end
  end.
Definition GetOrphanRoot (o : orphanage) (b : CBlock) : option Z := orphan_root (size (mapOrphanBlocks o)) (mapOrphanBlocks o) b.

Definition add_orphan (b : CBlock) (o : orphanage) : orphanage :=
  let hash := block_GetHash b in
  let prev := hashPrevBlock (blk_header b) in
  {| mapOrphanBlocks := match mapOrphanBlocks o !! hash with Some _ => mapOrphanBlocks o | None => <[hash := b]> (mapOrphanBlocks o) end;
     mapOrphanBlocksByPrev := <[prev := default [] (mapOrphanBlocksByPrev o !! prev) ++ [b]]> (mapOrphanBlocksByPrev o) |}.

(** [accept] is [AcceptBlock] with a state of its own: whether the block was accepted *)
Fixpoint accept_waiting {C} (accept : CBlock -> C -> option (outcome * C)) (l : list CBlock) (queue : list Z) (m : gmap Z CBlock) (c : C)
    : option (bool * list Z * gmap Z CBlock * C) :=
  match l with
  | [] => Some (true, queue, m, c)
  | b :: r =>
    let? (o, c) := accept b c in
    match o with
    | Throw => Some (false, queue, m, c)
    | Ret ok => accept_waiting accept r (if ok then queue ++ [block_GetHash b] else queue) (delete (block_GetHash b) m) c
    end
  end.
(** the work queue from its place [i] on; [fuel] bounds how many blocks can be in it.  [false]: an exception *)
Fixpoint process_queue {C} (accept : CBlock -> C -> option (outcome * C)) (fuel i : nat) (vWorkQueue : list Z) (o : orphanage) (c : C)
    : option (bool * list Z * orphanage * C) :=
  match vWorkQueue !! i with
  | None => Some (true, vWorkQueue, o, c)
  | Some hashPrev =>
    match fuel with
    | O => None
    | S f =>
      let? (ok, vWorkQueue, m, c) := accept_waiting accept (default [] (mapOrphanBlocksByPrev o !! hashPrev)) vWorkQueue (mapOrphanBlocks o) c in
      if negb ok then Some (false, vWorkQueue, {| mapOrphanBlocks := m; mapOrphanBlocksByPrev := mapOrphanBlocksByPrev o |}, c)
      else process_queue accept f (S i) vWorkQueue {| mapOrphanBlocks := m; mapOrphanBlocksByPrev := delete hashPrev (mapOrphanBlocksByPrev o) |} c
    end
  end.
Definition accept_orphan (fuel : nat) (b : CBlock) (c : chain) : option (outcome * chain) :=
  let? (o, _, c) := AcceptBlock fuel b None new_state c in Some (o, c).
Definition waiting (o : orphanage) : nat := map_fold (fun _ l n => (length l + n)%nat) 0%nat (mapOrphanBlocksByPrev o).

Definition set_chain (t l : Z) (b : CBlock) : CBlock :=
  {| blk_header := blk_header b; vtx := vtx b; nPrimeChainType := t; nPrimeChainLength := l |}.

(** the result also has the hash from which the peer is asked for the blocks that are missing *)
Definition ProcessBlock (fuel : nat) (pfrom : bool) (b : CBlock) (dbp : option CDiskBlockPos) (state : CValidationState) (o : orphanage) (c : chain)
    : option (outcome * option Z * CValidationState * orphanage * chain) :=
  let hash := block_GetHash b in
  let h := blk_header b in
  let done r state := Some (Ret r, None, state, o, c) in
  if bool_decide (is_Some (mapBlockIndex (nd c) !! hash)) || bool_decide (is_Some (mapOrphanBlocks o !! hash)) then
    let '(r, state) := state_Invalid false state in done r state
  else
    let '(ok, state) := CheckBlock (p_nAdjustedTime p) b true true state in
    if negb ok then done false state
    else
      match CheckPrimeProofOfWork (p_target p) (b_prime_fuel st) (GetHeaderHash h) (h_nBits h) (bnPrimeChainMultiplier h) (nPrimeChainType b) (nPrimeChainLength b) with
      | None => Some (Throw, None, state, o, c)
      | Some (false, _) => let '(r, state) := state_DoS 100 false false state in done r state
      | Some (true, (t, l)) =>
        let b := set_chain t l b in
        let? compatible := if b_v2compatible st then CheckPrimeProofOfWorkV02Compatibility (GetHeaderHash h) else Some true in
        if negb compatible && negb pfrom then done false state
        else if negb (hashPrevBlock h =? 0) && negb (bool_decide (is_Some (mapBlockIndex (nd c) !! hashPrevBlock h))) then
          if pfrom then
            let o := add_orphan b o in
            let? root := GetOrphanRoot o b in
            Some (Ret true, Some root, state, o, c)
          else done true state
        else
          let? (r, state, c) := AcceptBlock fuel b dbp state c in
          match r with
          | Throw => Some (Throw, None, state, o, c)
          | Ret false => Some (Ret false, None, state, o, c)
          | Ret true =>
            let? (ok, _, o, c) := process_queue (accept_orphan fuel) (S (waiting o)) 0 [hash] o c in
            if ok then Some (Ret true, None, state, o, c) else Some (Throw, None, state, o, c)
          end
      end.
End Accept.

(** ** The blocks that wait

    [orphans_ok]: the two maps hold the same blocks, each under its own hash and under its predecessor's. *)
Definition prev_of (b : CBlock) : Z := hashPrevBlock (blk_header b).
Definition waits_for (o : orphanage) (h : Z) : list CBlock := default [] (mapOrphanBlocksByPrev o !! h).
Record orphans_ok `{B : OpenSSLBN} `{K : Crypto} (o : orphanage) : Prop := {
  oo_hash : forall h b, mapOrphanBlocks o !! h = Some b -> block_GetHash b = h;
  oo_waits : forall h b, mapOrphanBlocks o !! h = Some b -> b ∈ waits_for o (prev_of b);
  oo_listed : forall h b, b ∈ waits_for o h -> prev_of b = h /\ mapOrphanBlocks o !! block_GetHash b = Some b;
  oo_once : forall h, NoDup (block_GetHash <$> waits_for o h);
}.
(** what is left when the blocks that wait for a hash of [q] have been taken out *)
Definition without (q : list Z) (o : orphanage) : orphanage :=
  {| mapOrphanBlocks := filter (fun kb => prev_of kb.2 ∉ q) (mapOrphanBlocks o);
     mapOrphanBlocksByPrev := filter (fun kl => kl.1 ∉ q) (mapOrphanBlocksByPrev o) |}.

Section Waiting.
Context {B : OpenSSLBN} {K : Crypto}.
Implicit Types (o : orphanage) (q : list Z).

Lemma no_orphans_ok : orphans_ok no_orphans.
Proof.
  split; unfold waits_for, no_orphans; simpl; intros h; [intros b H|intros b H|intros b H|]; rewrite ?lookup_empty in *; try done.
  - by apply elem_of_nil in H.
  - constructor.
Qed.

(** a new orphan keeps the two maps together *)
Lemma add_orphan_ok o b : orphans_ok o -> mapOrphanBlocks o !! block_GetHash b = None -> orphans_ok (add_orphan b o).
Proof.
  intros [H1 H2 H3 H4] Hn.
  assert (Hw : forall h, waits_for (add_orphan b o) h = if decide (h = prev_of b) then waits_for o h ++ [b] else waits_for o h).
  { intros h. unfold waits_for, add_orphan. simpl. case_decide as Hd; [by subst; rewrite lookup_insert_eq|by rewrite lookup_insert_ne]. }
  assert (Hm : mapOrphanBlocks (add_orphan b o) = <[block_GetHash b := b]> (mapOrphanBlocks o)) by (unfold add_orphan; simpl; by rewrite Hn).
  assert (Hin : forall h b', b' ∈ waits_for (add_orphan b o) h <-> b' ∈ waits_for o h \/ (b' = b /\ h = prev_of b)).
  { intros h b'. rewrite Hw. case_decide; [rewrite elem_of_app, list_elem_of_singleton|]; naive_solver. }
  split.
  - intros h b'. rewrite Hm, lookup_insert_Some. naive_solver.
  - intros h b'. rewrite Hm, lookup_insert_Some, Hin. naive_solver.
  - intros h b'. rewrite Hm, Hin. intros [Hb| [-> ->]]; [|by rewrite lookup_insert_eq].
    destruct (H3 _ _ Hb) as [? Hb']. rewrite lookup_insert_ne; [done|]. intros He. rewrite He in Hn. congruence.
  - intros h. rewrite Hw. case_decide; [|done]. rewrite fmap_app. apply NoDup_app. split_and!; [done| |apply NoDup_singleton].
    intros x [y [-> Hy]]%list_elem_of_fmap Hx. apply list_elem_of_singleton in Hx. apply H3 in Hy as [_ Hy]. congruence.
Qed.

(** the blocks that wait are under their own hashes, and each is younger than its predecessor *)
Definition orphans_ranked (age : Z -> nat) (o : orphanage) : Prop := forall h b, mapOrphanBlocks o !! h = Some b -> block_GetHash b = h /\ (age (prev_of b) < age h)%nat.
(** [GetOrphanRoot] ends, since a block is younger than its predecessor; the block it finds waits for one that is missing *)
Lemma GetOrphanRoot_ends o b (age : Z -> nat) : orphans_ranked age o -> (age (prev_of b) < age (block_GetHash b))%nat ->
  exists b', GetOrphanRoot o b = Some (block_GetHash b') /\ mapOrphanBlocks o !! prev_of b' = None /\ (b' = b \/ mapOrphanBlocks o !! block_GetHash b' = Some b').
Proof.
  intros Hage Hb. unfold GetOrphanRoot.
  set (older h := filter (fun h' => (age h' < age h)%nat) (dom (mapOrphanBlocks o))).
  assert (Hf : (size (older (block_GetHash b)) <= size (mapOrphanBlocks o))%nat).
  { rewrite <- (size_dom (mapOrphanBlocks o)). apply subseteq_size. set_solver. }
  revert Hf. generalize (size (mapOrphanBlocks o)). intros f. revert b Hb. induction f as [|f IH]; intros b Hb Hf; simpl; fold (prev_of b);
    destruct (mapOrphanBlocks o !! prev_of b) as [q|] eqn:Hq; try by exists b; auto.
  - exfalso. assert (Hs : size (older (block_GetHash b)) = 0%nat) by lia. apply size_empty_inv in Hs. apply (not_elem_of_empty (C := gset Z) (prev_of b)).
    rewrite <- Hs. apply elem_of_filter. split; [done|]. by apply elem_of_dom_2 in Hq.
  - destruct (Hage _ _ Hq) as [Hh Ha]. rewrite <- Hh in Ha.
    destruct (IH q Ha) as (b' & Hr & Hn & Hor).
    + assert (Hlt : (size (older (block_GetHash q)) < size (older (block_GetHash b)))%nat); [|lia].
      apply subset_size. split.
      * intros x. unfold older. rewrite !elem_of_filter. intros [? ?]. split; [|done]. rewrite Hh in *. lia.
      * intros Hsub. assert (Hx : block_GetHash q ∈ older (block_GetHash b)).
        { apply elem_of_filter. rewrite Hh. split; [done|]. by apply elem_of_dom_2 in Hq. }
        apply Hsub, elem_of_filter in Hx as [? _]. lia.
    + exists b'. split_and!; [done|done|]. right. destruct Hor as [->|?]; [by rewrite Hh|done].
Qed.

Lemma waits_without o q h : waits_for (without q o) h = if decide (h ∈ q) then [] else waits_for o h.
Proof.
  unfold waits_for, without. simpl. case_decide as Hd.
  - rewrite map_lookup_filter_None_2; [done|]. right. intros x _. simpl. by intros ?.
  - destruct (mapOrphanBlocksByPrev o !! h) as [l|] eqn:Hl.
    + by rewrite (map_lookup_filter_Some_2 _ _ _ _ Hl).
    + by rewrite map_lookup_filter_None_2; [|left].
Qed.
Lemma orphan_without o q h b : mapOrphanBlocks (without q o) !! h = Some b <-> mapOrphanBlocks o !! h = Some b /\ prev_of b ∉ q.
Proof. apply map_lookup_filter_Some. Qed.
Lemma without_ok o q : orphans_ok o -> orphans_ok (without q o).
Proof.
  intros [H1 H2 H3 H4]. split.
  - intros h b [Hb _]%orphan_without. by apply H1.
  - intros h b [Hb Hp]%orphan_without. rewrite waits_without. rewrite decide_False by done. by eapply H2.
  - intros h b. rewrite waits_without. case_decide as Hd; [by intros ?%elem_of_nil|]. intros Hb. destruct (H3 _ _ Hb) as [He Hm].
    split; [done|]. apply orphan_without. by rewrite He.
  - intros h. rewrite waits_without. case_decide; [constructor|done].
Qed.
Lemma without_nil o : without [] o = o.
Proof.
  destruct o as [m p]. unfold without. simpl. f_equal; apply map_filter_id; intros; apply not_elem_of_nil.
Qed.
Lemma without_app q1 q2 o : without q2 (without q1 o) = without (q1 ++ q2) o.
Proof. destruct o as [m p]. unfold without. simpl. f_equal; rewrite map_filter_filter; apply map_filter_ext; intros; simpl; rewrite elem_of_app; naive_solver. Qed.

(** the work left: the blocks that wait, each counted once *)
Lemma waiting_without o h : (waiting (without [h] o) + length (waits_for o h) = waiting o)%nat.
Proof.
  unfold waiting, waits_for, without. simpl. set (m := mapOrphanBlocksByPrev o).
  assert (Hf : filter (fun kl : Z * list CBlock => kl.1 ∉ [h]) m = delete h m).
  { apply map_eq. intros k. apply option_eq. intros x. rewrite lookup_delete_Some, map_lookup_filter_Some. simpl. rewrite list_elem_of_singleton. naive_solver. }
  rewrite Hf. destruct (m !! h) as [l|] eqn:Hl; simpl.
  - rewrite (map_fold_delete_L _ _ h l m); [lia| |done]. intros. lia.
  - rewrite delete_id by done. lia.
Qed.

(** ** The work queue

    [I queue c] is what the caller knows of the queue and of the state while [accept] runs. *)
Section Queue.
Context {C : Type} (accept : CBlock -> C -> option (outcome * C)) (I : list Z -> C -> Prop).
Definition queue_after (r : outcome) (b : CBlock) (q : list Z) : list Z := match r with Ret true => q ++ [block_GetHash b] | _ => q end.
Hypothesis Haccept : forall q b c, I q c -> exists r c', accept b c = Some (r, c') /\ I (queue_after r b q) c'.

Lemma accept_waiting_spec l q m c : I q c ->
  exists ok l' m' c', accept_waiting accept l q m c = Some (ok, q ++ (block_GetHash <$> l'), m', c') /\ I (q ++ (block_GetHash <$> l')) c' /\
    l' `sublist_of` l /\ (ok = true -> m' = filter (fun kb => kb.1 ∉ block_GetHash <$> l) m).
Proof.
  revert q m c. induction l as [|b l IH]; intros q m c Hi; simpl.
  { exists true, [], m, c. simpl. rewrite app_nil_r. split_and!; [done|done|constructor|]. intros _. symmetry. apply map_filter_id. intros. apply not_elem_of_nil. }
  destruct (Haccept q b c Hi) as (r & c1 & -> & Hi'). simpl. destruct r as [ok|]; simpl.
  2:{ exists false, [], m, c1. simpl. rewrite app_nil_r. split_and!; [done|done|apply sublist_nil_l|done]. }
  set (q1 := if ok then q ++ [block_GetHash b] else q). assert (Hq1 : I q1 c1) by (unfold q1; by destruct ok).
  destruct (IH q1 (delete (block_GetHash b) m) c1 Hq1) as (ok' & l' & m' & c' & -> & Hi2 & Hsub & Hm).
  exists ok', (if ok then b :: l' else l'), m', c'. unfold q1 in *.
  assert (Hm2 : ok' = true -> m' = filter (fun kb => kb.1 ∉ block_GetHash b :: (block_GetHash <$> l)) m).
  { intros H. rewrite (Hm H). apply map_eq. intros k. apply option_eq. intros x. rewrite !map_lookup_filter_Some, lookup_delete_Some. simpl.
    rewrite not_elem_of_cons. naive_solver. }
  destruct ok; simpl; rewrite <- ?app_assoc in *; simpl in *; split_and!; try done; by constructor.
Qed.

(** once the blocks that wait for a hash were taken out, the maps are those of [without] *)
Lemma taken_out o h : orphans_ok o ->
  {| mapOrphanBlocks := filter (fun kb => kb.1 ∉ block_GetHash <$> waits_for o h) (mapOrphanBlocks o);
     mapOrphanBlocksByPrev := delete h (mapOrphanBlocksByPrev o) |} = without [h] o.
Proof.
  intros Ho. unfold without. f_equal.
  - apply map_filter_ext. intros k b Hk. simpl. rewrite list_elem_of_singleton. apply not_iff_compat. rewrite list_elem_of_fmap. split.
    + intros (b' & -> & Hb'). destruct (oo_listed _ Ho _ _ Hb') as [<- Hm]. congruence.
    + intros <-. exists b. split; [by rewrite (oo_hash _ Ho _ _ Hk)|by eapply oo_waits].
  - apply map_eq. intros k. apply option_eq. intros x. rewrite lookup_delete_Some, map_lookup_filter_Some. simpl. rewrite list_elem_of_singleton. naive_solver.
Qed.

(** the places of the queue up to [i] were worked off *)
Lemma process_queue_spec fuel i q o c : orphans_ok o -> I q c -> (i <= length q)%nat -> (length q + waiting o <= i + fuel)%nat ->
  exists ok q' o' c', process_queue accept fuel i q o c = Some (ok, q', o', c') /\ I q' c' /\ q `prefix_of` q' /\
    (ok = true -> o' = without (drop i q') o) /\
    (forall x, x ∈ q' -> x ∈ q \/ exists b, x = block_GetHash b /\ mapOrphanBlocks o !! x = Some b /\ prev_of b ∈ drop i q').
Proof.
  revert i q o c. induction fuel as [|f IH]; intros i q o c Ho Hi Hle Hf; simpl; destruct (q !! i) as [h|] eqn:Hq.
  { apply lookup_lt_Some in Hq. lia. }
  1, 3: (exists true, q, o, c; split_and!; [done|done|done| |by left]; intros _; rewrite drop_ge by (by apply lookup_ge_None); by rewrite without_nil).
  destruct (accept_waiting_spec (waits_for o h) q (mapOrphanBlocks o) c Hi) as (ok & l & m & c1 & Hr & Hi1 & Hsub & Hm).
  fold (waits_for o h). rewrite Hr. simpl. set (q1 := q ++ (block_GetHash <$> l)) in *. pose proof (lookup_lt_Some _ _ _ Hq) as Hlt.
  assert (Hold : forall x, x ∈ block_GetHash <$> l -> exists b, x = block_GetHash b /\ mapOrphanBlocks o !! x = Some b /\ prev_of b = h).
  { intros x (b & -> & Hb)%list_elem_of_fmap. destruct (oo_listed _ Ho h b) as [? ?]; [eapply elem_of_submseteq; [done|by apply sublist_submseteq]|]. eauto. }
  assert (Hh : forall q', q1 `prefix_of` q' -> drop i q' = h :: drop (S i) q').
  { intros q' Hp. apply drop_S. eapply prefix_lookup_Some; [|done]. by eapply prefix_lookup_Some, prefix_app_r. }
  destruct ok; simpl.
  - rewrite (Hm eq_refl), taken_out by done.
    destruct (IH (S i) q1 (without [h] o) c1) as (ok' & q' & o' & c' & -> & Hi' & Hp & Ho' & Hx); [by apply without_ok|done|unfold q1; rewrite length_app; lia| |].
    { pose proof (waiting_without o h) as Hw. unfold q1. rewrite length_app, length_fmap. apply sublist_length in Hsub. lia. }
    exists ok', q', o', c'. rewrite (Hh _ Hp). split_and!; [done|done|etrans; [|done]; by apply prefix_app_r| |].
    + intros H. rewrite (Ho' H), without_app. done.
    + intros x [Hin|(b & -> & Hb & Hd)]%Hx.
      * apply elem_of_app in Hin as [?|Hin]; [by left|right]. destruct (Hold _ Hin) as (b & -> & ? & <-). exists b. split_and!; [done|done|left].
      * apply orphan_without in Hb as [? _]. right. exists b. split_and!; [done|done|by right].
  - exists false, q1, {| mapOrphanBlocks := m; mapOrphanBlocksByPrev := mapOrphanBlocksByPrev o |}, c1.
    split_and!; [done|done|by apply prefix_app_r|done|]. intros x [?|Hin]%elem_of_app; [by left|right].
    destruct (Hold _ Hin) as (b & -> & ? & <-). exists b. split_and!; [done|done|]. rewrite (Hh q1) by done. left.
Qed.
End Queue.

(** [accept], with an exception where it has no result *)
Definition or_throw {C} (accept : CBlock -> C -> option (outcome * C)) (b : CBlock) (c : C) : option (outcome * C) := Some (default (Throw, c) (accept b c)).
Lemma accept_waiting_or_throw {C} (accept : CBlock -> C -> option (outcome * C)) l q m c r :
  accept_waiting accept l q m c = Some r -> accept_waiting (or_throw accept) l q m c = Some r.
Proof. revert q m c. induction l as [|b l IH]; intros q m c; simpl; [done|]. destruct (accept b c) as [[[] c1]|]; [|done|done]; simpl. apply IH. Qed.
Lemma process_queue_or_throw {C} (accept : CBlock -> C -> option (outcome * C)) fuel i q o c r :
  process_queue accept fuel i q o c = Some r -> process_queue (or_throw accept) fuel i q o c = Some r.
Proof.
  revert i q o c. induction fuel as [|f IH]; intros i q o c; simpl; destruct (q !! i); try done.
  destruct (accept_waiting accept _ _ _ _) as [[[[ok q1] m] c1]|] eqn:Ha; [|done]. rewrite (accept_waiting_or_throw _ _ _ _ _ _ Ha). simpl.
  destruct ok; simpl; [apply IH|done].
Qed.

(** what a run of the queue that ended well leaves *)
Lemma process_queue_run {C} (accept : CBlock -> C -> option (outcome * C)) h o c q o' c' : orphans_ok o ->
  process_queue accept (S (waiting o)) 0 [h] o c = Some (true, q, o', c') ->
  orphans_ok o' /\ o' = without q o /\ h ∈ q /\ (forall x, x ∈ q -> x = h \/ exists b, x = block_GetHash b /\ mapOrphanBlocks o !! x = Some b /\ prev_of b ∈ q).
Proof.
  intros Ho Hr%process_queue_or_throw.
  destruct (process_queue_spec (or_throw accept) (fun _ _ => True) ltac:(intros; destruct (or_throw accept b c0) as [[]|] eqn:?; [eauto|done])
    (S (waiting o)) 0 [h] o c Ho I) as (ok & q' & o1 & c1 & Hr' & _ & Hp & Hw & Hx); [simpl; lia..|].
  rewrite Hr in Hr'. simplify_eq. specialize (Hw eq_refl). subst. rewrite drop_0 in *. split_and!; [by apply without_ok|done| |].
  - eapply elem_of_prefix; [|done]. left.
  - intros x [Hin|(b & ? & ? & ?)]%Hx; [left; by apply list_elem_of_singleton in Hin|right; by exists b].
Qed.
(** the blocks handled in turn, each with whether it was accepted *)
Inductive accepts {C} (accept : CBlock -> C -> option (outcome * C)) : C -> list (CBlock * bool) -> C -> Prop :=
| accepts_nil c : accepts accept c [] c
| accepts_cons b r c c1 l c2 : accept b c = Some (Ret r, c1) -> accepts accept c1 l c2 -> accepts accept c ((b, r) :: l) c2.
Definition accepted_hashes (handled : list (CBlock * bool)) : list Z := omap (fun x => if x.2 : bool then Some (block_GetHash x.1) else None) handled.

Lemma accepts_app {C} (accept : CBlock -> C -> option (outcome * C)) c l1 c1 l2 c2 : accepts accept c l1 c1 -> accepts accept c1 l2 c2 ->
  accepts accept c (l1 ++ l2) c2.
Proof. induction 1; [done|]. intros H2. econstructor; [done|by apply IHaccepts]. Qed.
Lemma accepted_app l1 l2 : accepted_hashes (l1 ++ l2) = accepted_hashes l1 ++ accepted_hashes l2.
Proof. apply omap_app. Qed.
Lemma accepted_sublist l : accepted_hashes l `sublist_of` (block_GetHash <$> l.*1).
Proof. induction l as [|[b []] l IH]; simpl; by constructor. Qed.

(** the blocks that wait for one hash: all of them are handled, or those before the one that throws *)
Lemma accept_waiting_run {C} (accept : CBlock -> C -> option (outcome * C)) l q m c ok q' m' c' :
  accept_waiting accept l q m c = Some (ok, q', m', c') -> exists handled c1, accepts accept c handled c1 /\ q' = q ++ accepted_hashes handled /\
    m' = filter (fun kb => kb.1 ∉ block_GetHash <$> handled.*1) m /\
    if ok then handled.*1 = l /\ c1 = c' else exists b rest, l = handled.*1 ++ b :: rest /\ accept b c1 = Some (Throw, c').
Proof.
  assert (Hnil : forall m : gmap Z CBlock, m = filter (fun kb => kb.1 ∉ @nil Z) m) by (intros; symmetry; apply map_filter_id; intros; apply not_elem_of_nil).
  revert q m c. induction l as [|b l IH]; intros q m c; simpl.
  { intros [= <- <- <- <-]. exists [], c. simpl. rewrite app_nil_r. split_and!; [constructor|done|apply Hnil|done..]. }
  destruct (accept b c) as [[r c1]|] eqn:Ha; [|done]. simpl. destruct r as [r|].
  2:{ intros [= <- <- <- <-]. exists [], c. simpl. rewrite app_nil_r. split_and!; [constructor|done|apply Hnil|by exists b, l]. }
  intros (handled & c2 & H1 & -> & -> & H2)%IH. exists ((b, r) :: handled), c2. simpl. split_and!.
  - by econstructor.
  - by destruct r; [rewrite <- app_assoc|].
  - apply map_eq. intros k. apply option_eq. intros x. rewrite !map_lookup_filter_Some, lookup_delete_Some. simpl. rewrite not_elem_of_cons. naive_solver.
  - destruct ok; [destruct H2 as [H2 ->]; split; [exact (f_equal (cons b) H2)|done]|]. destruct H2 as (b' & rest & -> & ?). by exists b', rest.
Qed.

Lemma elem_of_waits o l b : b ∈ concat (waits_for o <$> l) <-> exists h, h ∈ l /\ b ∈ waits_for o h.
Proof.
  induction l as [|k l IH]; cbn [fmap list_fmap concat].
  - split; [by intros ?%elem_of_nil|by intros (h & ?%elem_of_nil & _)].
  - rewrite elem_of_app, IH. setoid_rewrite elem_of_cons. naive_solver.
Qed.

(** the blocks that wait for different hashes are different *)
Lemma waits_nodup o l : orphans_ok o -> NoDup l -> NoDup (block_GetHash <$> concat (waits_for o <$> l)).
Proof.
  intros Ho. induction 1 as [|h l Hh Hl IH]; [constructor|]. cbn [fmap list_fmap concat]. rewrite fmap_app. apply NoDup_app.
  split_and!; [apply (oo_once _ Ho)| |done]. intros x (b & -> & Hb)%list_elem_of_fmap (b' & He & Hb')%list_elem_of_fmap.
  apply elem_of_waits in Hb' as (h' & Hh' & Hb'). destruct (oo_listed _ Ho _ _ Hb) as [<- Hm], (oo_listed _ Ho _ _ Hb') as [<- Hm'].
  rewrite He in Hm. assert (b = b') as -> by congruence. done.
Qed.

(** what a run of the queue did: [h] is the new block, [q] the queue at the end *)
Definition queue_done {C} (accept : CBlock -> C -> option (outcome * C)) (h : Z) (o : orphanage) (c : C) (handled : list (CBlock * bool)) (q : list Z)
    (o' : orphanage) (c' : C) : Prop :=
  accepts accept c handled c' /\ q = h :: accepted_hashes handled /\ handled.*1 = concat (waits_for o <$> q) /\ o' = without q o.
Definition queue_thrown {C} (accept : CBlock -> C -> option (outcome * C)) (h : Z) (o : orphanage) (c : C) (handled : list (CBlock * bool)) (q : list Z)
    (o' : orphanage) (c' : C) : Prop :=
  exists c1 j k part b rest, accepts accept c handled c1 /\ q = h :: accepted_hashes handled /\ q !! j = Some k /\
    handled.*1 = concat (waits_for o <$> take j q) ++ part /\ waits_for o k = part ++ b :: rest /\ accept b c1 = Some (Throw, c') /\
    mapOrphanBlocks o' = filter (fun kb => kb.1 ∉ block_GetHash <$> handled.*1) (mapOrphanBlocks o) /\
    mapOrphanBlocksByPrev o' = filter (fun kl => kl.1 ∉ take j q) (mapOrphanBlocksByPrev o).

Lemma queue_nodup o h i q handled : orphans_ok o -> mapOrphanBlocks o !! h = None -> NoDup (take i q) ->
  q = h :: accepted_hashes handled -> handled.*1 = concat (waits_for o <$> take i q) -> NoDup q.
Proof.
  intros Ho Hn Ht Hq Hh. pose proof (waits_nodup o (take i q) Ho Ht) as Hnd. rewrite <- Hh in Hnd.
  rewrite Hq. constructor.
  - intros Hx. eapply elem_of_submseteq in Hx; [|apply sublist_submseteq, accepted_sublist]. apply list_elem_of_fmap in Hx as (b & -> & Hb).
    rewrite Hh in Hb. apply elem_of_waits in Hb as (h' & _ & Hb). destruct (oo_listed _ Ho _ _ Hb). congruence.
  - eapply sublist_NoDup; [exact Hnd|apply accepted_sublist].
Qed.

(** the handled blocks of a part of the queue are those that [without] takes out *)
Lemma handled_without o l : orphans_ok o ->
  mapOrphanBlocks (without l o) = filter (fun kb => kb.1 ∉ block_GetHash <$> concat (waits_for o <$> l)) (mapOrphanBlocks o).
Proof.
  intros Ho. unfold without. simpl. apply map_filter_ext. intros k b Hk. simpl. apply not_iff_compat. rewrite list_elem_of_fmap. split.
  - intros Hp. exists b. split; [by rewrite (oo_hash _ Ho _ _ Hk)|]. apply elem_of_waits. exists (prev_of b). split; [done|by eapply oo_waits].
  - intros (b' & -> & Hb). apply elem_of_waits in Hb as (h' & Hh' & Hb). destruct (oo_listed _ Ho _ _ Hb) as [<- Hm]. congruence.
Qed.

(** the queue from its place [i] on, when the blocks of the places before were handled *)
Lemma process_queue_from {C} (accept : CBlock -> C -> option (outcome * C)) fuel h o0 c0 i q handled c ok q' o' c' :
  orphans_ok o0 -> mapOrphanBlocks o0 !! h = None -> (i <= length q)%nat -> NoDup q ->
  accepts accept c0 handled c -> q = h :: accepted_hashes handled -> handled.*1 = concat (waits_for o0 <$> take i q) ->
  process_queue accept fuel i q (without (take i q) o0) c = Some (ok, q', o', c') ->
  exists handled', if ok then queue_done accept h o0 c0 handled' q' o' c' else queue_thrown accept h o0 c0 handled' q' o' c'.
Proof.
  intros Ho Hn. revert i q handled c. induction fuel as [|f IH]; intros i q handled c Hi Hnd Hacc Hq Hh Hr; cbn [process_queue] in Hr;
    destruct (q !! i) as [k|] eqn:Hk; try done.
  1, 3: (injection Hr as <- <- <- <-; apply lookup_ge_None in Hk; rewrite take_ge in * by lia; exists handled; by split_and!).
  fold (waits_for (without (take i q) o0) k) in Hr. pose proof (take_S_r q i k Hk) as HS.
  assert (Hki : k ∉ take i q). { intros (j & Hj)%list_elem_of_lookup. pose proof (lookup_lt_Some _ _ _ Hj) as Hl. rewrite length_take in Hl.
    rewrite lookup_take_lt in Hj by lia. assert (j = i) by (by eapply NoDup_lookup). lia. }
  rewrite waits_without, decide_False in Hr by done.
  destruct (accept_waiting accept _ _ _ _) as [[[[ok1 q1] m1] c1]|] eqn:Ha; [|done]. cbn [option_bind mbind] in Hr.
  apply accept_waiting_run in Ha as (new & c2 & Hnew & -> & -> & Hend).
  pose proof (lookup_lt_Some _ _ _ Hk) as Hlt.
  assert (Htake : forall n, (n <= length q)%nat -> take n (q ++ accepted_hashes new) = take n q) by (intros; by apply take_app_le).
  destruct ok1; cbn [negb] in Hr.
  - destruct Hend as [Hnew1 ->]. eapply (IH (S i) (q ++ accepted_hashes new) (handled ++ new) c1).
    + rewrite length_app. lia.
    + apply (queue_nodup o0 h (S i) _ (handled ++ new)); try done.
      * rewrite Htake by lia. rewrite HS. apply NoDup_app. split_and!; [by eapply sublist_NoDup; [exact Hnd|apply sublist_take]| |apply NoDup_singleton].
        intros x Hx ->%list_elem_of_singleton. done.
      * by rewrite Hq, accepted_app.
      * rewrite fmap_app, Hh, Hnew1, Htake, HS, fmap_app, concat_app by lia. cbn. by rewrite app_nil_r.
    + by eapply accepts_app.
    + by rewrite Hq, accepted_app.
    + rewrite fmap_app, Hh, Hnew1, Htake, HS, fmap_app, concat_app by lia. cbn. by rewrite app_nil_r.
    + rewrite <- Hr. f_equal. rewrite Htake, HS, <- without_app by lia. symmetry. rewrite <- (taken_out (without (take i q) o0) k) by by apply without_ok.
      rewrite waits_without, decide_False by done. by rewrite Hnew1.
  - injection Hr as <- <- <- <-. destruct Hend as (b & rest & Hw & Hb). exists (handled ++ new), c2, i, k, new.*1, b, rest.
    split_and!; cbn [mapOrphanBlocks mapOrphanBlocksByPrev]; [by eapply accepts_app|by rewrite Hq, accepted_app|by apply lookup_app_l_Some| |done|done| |].
    + by rewrite fmap_app, Hh, Htake by lia.
    + pose proof (handled_without o0 (take i q) Ho) as Hf. unfold without in Hf. simpl in Hf. rewrite Hf, <- Hh.
      rewrite map_filter_filter. apply map_filter_ext. intros k' b' _. simpl. rewrite fmap_app, fmap_app, not_elem_of_app. naive_solver.
    + by rewrite Htake by lia.
Qed.

(** and from its start *)
Lemma process_queue_exact {C} (accept : CBlock -> C -> option (outcome * C)) fuel h o c ok q o' c' :
  orphans_ok o -> mapOrphanBlocks o !! h = None -> process_queue accept fuel 0 [h] o c = Some (ok, q, o', c') ->
  exists handled, if ok then queue_done accept h o c handled q o' c' else queue_thrown accept h o c handled q o' c'.
Proof.
  intros Ho Hn Hr. apply (process_queue_from accept fuel h o c 0 [h] [] c); try done; [simpl; lia|apply NoDup_singleton|constructor|].
  by rewrite take_0, without_nil.
Qed.
End Waiting.

Section AcceptProperties.
Context {V : Type} {CV : CoinsView V} {B : OpenSSLBN} {K : Crypto} {E : CacheEnv}.

(** the work of a new block is computed without an exception *)
Lemma new_index_total {L : OpenSSLBNLaws B} st b pos idx : nbits_ok (h_nBits (blk_header b)) ->
  nTargetMinLength (p_target (b_params st)) <= TargetGetLength (h_nBits (blk_header b)) -> is_Some (new_index st b pos idx).
Proof. intros Hb Hm. unfold new_index. rewrite GetBlockWork_eq by done. done. Qed.

(** The queue of a new block is worked off: when every waiting block can be handled ([accept] returns whenever [I] holds of the queue and the
    state, and keeps it), as many rounds as there are waiting blocks and one more are enough, so the loop ends.  If no exception is thrown, the
    two orphan maps still agree, they have lost exactly the blocks whose predecessor is in the final queue, and the queue is the new block with the
    accepted blocks that waited for it, directly or through others: none waits any longer for a block that was accepted. *)
Theorem process_queue_ends {C : Type} (accept : CBlock -> C -> option (outcome * C)) (I : list Z -> C -> Prop) (h : Z) (o : orphanage) (c : C)
    (Haccept : forall q b c, I q c -> exists r c', accept b c = Some (r, c') /\ I (queue_after r b q) c')
    (Ho : orphans_ok o) (Hi : I [h] c) :
  exists ok q o' c', process_queue accept (S (waiting o)) 0 [h] o c = Some (ok, q, o', c') /\ I q c' /\
    (ok = true -> orphans_ok o' /\ o' = without q o /\ h ∈ q /\
      (forall x, x ∈ q -> x = h \/ exists b, x = block_GetHash b /\ mapOrphanBlocks o !! x = Some b /\ prev_of b ∈ q) /\
      (forall k b, mapOrphanBlocks o' !! k = Some b -> prev_of b ∉ q)).
Proof.
  destruct (process_queue_spec accept I Haccept (S (waiting o)) 0 [h] o c Ho Hi) as (ok & q & o' & c' & Hr & Hq & _); [simpl; lia..|].
  exists ok, q, o', c'. split; [done|]. split; [done|]. intros ->.
  destruct (process_queue_run _ _ _ _ _ _ _ Ho Hr) as (Ho' & -> & Hh & Hx). split_and!; try done. by intros k b [_ ?]%orphan_without.
Qed.

(** C12: [ProcessBlock] keeps the two maps of waiting blocks in agreement, and handles exactly the blocks it should.  It ends in one of three ways.
    It leaves the maps and the chain alone: it can only return true then without a peer, for a block whose predecessor is not in the index.  Or
    it adds such a block of a peer to the maps.  Or it calls [AcceptBlock].  When that accepts, the blocks that wait are handled in turn:
    the queue is the new block followed by the blocks that were accepted on the way, in order; the blocks handled are exactly those that
    waited for a block of the queue, in its order; and they are what the maps lose, so that each waiting block stays listed once, under its predecessor, and
    found by its hash.  When [AcceptBlock] throws on the way, the blocks handled before are gone from the first map, but the second
    still lists them. *)
Theorem ProcessBlock_orphans (st : settings) (fuel : nat) (pfrom : bool) (b : CBlock) (dbp : option CDiskBlockPos) (state state' : CValidationState)
    (o o' : orphanage) (c c' : chainstate V) (r : outcome) (root : option Z)
    (Ho : orphans_ok o) (Hrun : ProcessBlock st fuel pfrom b dbp state o c = Some (r, root, state', o', c')) :
  (r <> Throw -> orphans_ok o') /\
  ((o' = o /\ c' = c /\ (r = Ret true -> pfrom = false /\ prev_of b <> 0 /\ mapBlockIndex (nd c) !! prev_of b = None)) \/
   (exists t l, pfrom = true /\ r = Ret true /\ c' = c /\ prev_of b <> 0 /\ mapBlockIndex (nd c) !! prev_of b = None /\
      o' = add_orphan (set_chain t l b) o /\ mapOrphanBlocks o' !! block_GetHash b = Some (set_chain t l b)) \/
   (exists t l res c1, AcceptBlock st fuel (set_chain t l b) dbp state c = Some (res, state', c1) /\
      match res with
      | Ret true => exists handled q, match r with
          | Ret ok => ok = true /\ queue_done (accept_orphan st fuel) (block_GetHash b) o c1 handled q o' c'
          | Throw => queue_thrown (accept_orphan st fuel) (block_GetHash b) o c1 handled q o' c'
          end
      | _ => r = res /\ o' = o /\ c' = c1
      end)).
Proof.
  unfold ProcessBlock in Hrun. cbv zeta in Hrun.
  assert (Hkept : forall r0 s0, (r0 = Ret true -> pfrom = false /\ prev_of b <> 0 /\ mapBlockIndex (nd c) !! prev_of b = None) ->
    Some (r0, None, s0, o, c) = Some (r, root, state', o', c') -> (r <> Throw -> orphans_ok o') /\
    (o' = o /\ c' = c /\ (r = Ret true -> pfrom = false /\ prev_of b <> 0 /\ mapBlockIndex (nd c) !! prev_of b = None))).
  { intros r0 s0 Hr [= <- <- <- <- <-]. by split_and!. }
  assert (Hrefused : forall lv s0, (let '(v, s1) := state_DoS lv false false s0 in Some (Ret v, None, s1, o, c)) = Some (r, root, state', o', c') ->
    (r <> Throw -> orphans_ok o') /\ (o' = o /\ c' = c /\ (r = Ret true -> pfrom = false /\ prev_of b <> 0 /\ mapBlockIndex (nd c) !! prev_of b = None))).
  { intros lv s0 Hx. unfold state_DoS in Hx. destruct (mode s0); (eapply Hkept; [|exact Hx]); discriminate. }
  destruct (_ || _) eqn:Hd; [apply Hrefused in Hrun as [? ?]; by split; [|left]|].
  apply orb_false_iff in Hd as [_ Hn%bool_decide_eq_false]. apply eq_None_not_Some in Hn.
  destruct (CheckBlock _ _ _ _ _) as [ok s1] eqn:Eck. destruct ok; cbn [negb] in Hrun; [|apply Hkept in Hrun as [? ?]; [by split; [|left]|discriminate]].
  destruct (CheckBlock_rules _ _ _ _ _ _ Eck) as [-> _].
  destruct (CheckPrimeProofOfWork _ _ _ _ _ _ _) as [[[] [t l]]|]; [|apply Hrefused in Hrun as [? ?]; by split; [|left]|apply Hkept in Hrun as [? ?]; [by split; [|left]|discriminate]].
  destruct (if b_v2compatible st then _ else _) as [compat|]; cbn [negb] in Hrun; [|done].
  destruct (negb compat && negb pfrom); [apply Hkept in Hrun as [? ?]; [by split; [|left]|discriminate]|].
  destruct (negb _ && negb _) eqn:Hc.
  - apply andb_true_iff in Hc as [Hz Hp]. apply negb_true_iff, Z.eqb_neq in Hz. apply negb_true_iff, bool_decide_eq_false, eq_None_not_Some in Hp.
    destruct pfrom; [|apply Hkept in Hrun as [? ?]; [by split; [|left]|done]].
    destruct (GetOrphanRoot _ _) as [hr|]; cbn [negb] in Hrun; [|done]. simplify_eq.
    split; [intros _; by apply add_orphan_ok|]. right; left. exists t, l. split_and!; try done. unfold add_orphan. simpl.
    change (block_GetHash (set_chain t l b)) with (block_GetHash b). by rewrite Hn, lookup_insert_eq.
  - destruct (AcceptBlock _ _ _ _ _ _) as [[[res s2] c2]|] eqn:Ea; cbn [negb option_bind mbind] in Hrun; [|done].
    destruct res as [[]|].
    2, 3: (simplify_eq; split; [done|]; right; right; eexists t, l, _, c'; split; [exact Ea|by split_and!]).
    destruct (process_queue _ _ _ _ _ _) as [[[[ok q] o2] c3]|] eqn:Hq; cbn [negb option_bind mbind] in Hrun; [|done].
    pose proof Hq as Hx. apply process_queue_exact in Hx as [handled Hx]; [|done|exact Hn].
    destruct ok; simplify_eq; (split; [|right; right; exists t, l, (Ret true), c2; split; [exact Ea|by exists handled, q]]); [|done].
    intros _. destruct Hx as (_ & _ & _ & ->). by apply without_ok.
Qed.

(** [ProcessBlock] lets nothing wait but what waited and the block itself, whatever it answers *)
Lemma accept_waiting_waits {C} (accept : CBlock -> C -> option (outcome * C)) l : forall q m c ok q' m' c', accept_waiting accept l q m c = Some (ok, q', m', c') -> m' ⊆ m.
Proof. intros q m c ok q' m' c' (handled & c1 & _ & _ & -> & _)%accept_waiting_run. apply map_filter_subseteq. Qed.
Lemma process_queue_waits {C} (accept : CBlock -> C -> option (outcome * C)) fuel : forall i q o c ok q' o' c', process_queue accept fuel i q o c = Some (ok, q', o', c') ->
  mapOrphanBlocks o' ⊆ mapOrphanBlocks o.
Proof.
  induction fuel as [|n IH]; intros i q o c ok q' o' c'; cbn [process_queue]; destruct (q !! i) as [h|]; try done; try by intros [= _ _ <- _].
  destruct (accept_waiting _ _ _ _ _) as [[[[ok1 q1] m] c1]|] eqn:Ew; [|done]. apply accept_waiting_waits in Ew. cbn [option_bind mbind]. destruct ok1; cbn [negb]; [|by intros [= _ _ <- _]].
  intros Hq. apply IH in Hq. cbn [mapOrphanBlocks] in Hq. by etrans.
Qed.
Lemma ProcessBlock_waits (st : settings) (fuel : nat) (pfrom : bool) (b : CBlock) dbp state o (c : chainstate V) r root state' o' c' h x :
  ProcessBlock st fuel pfrom b dbp state o c = Some (r, root, state', o', c') -> mapOrphanBlocks o' !! h = Some x ->
  mapOrphanBlocks o !! h = Some x \/ h = block_GetHash b /\ exists t l, x = set_chain t l b.
Proof.
  intros Hrun Hx. unfold ProcessBlock in Hrun. cbv zeta in Hrun. destruct (_ || _) eqn:Hd; [destruct (state_Invalid _ _); simplify_eq; by left|]. destruct (CheckBlock _ _ _ _ _) as [ok s1]. destruct ok; cbn [negb] in Hrun; [|simplify_eq; by left].
  destruct (CheckPrimeProofOfWork _ _ _ _ _ _ _) as [[[] [t l]]|]; [|destruct (state_DoS _ _ _ _); simplify_eq; by left|simplify_eq; by left].
  destruct (if b_v2compatible st then _ else _) as [compat|]; cbn [negb option_bind mbind] in Hrun; [|done]. destruct (negb compat && negb pfrom); [simplify_eq; by left|]. destruct (negb _ && negb _).
  - destruct pfrom; [|simplify_eq; by left]. destruct (GetOrphanRoot _ _); cbn [option_bind mbind] in Hrun; [|done]. simplify_eq. revert Hx. unfold add_orphan. cbn [mapOrphanBlocks]. change (block_GetHash (set_chain t l b)) with (block_GetHash b).
    destruct (mapOrphanBlocks o !! block_GetHash b); [by left|]. rewrite lookup_insert_Some. intros [[<- <-]|[_ ?]]; [right; eauto|by left].
  - destruct (AcceptBlock _ _ _ _ _ _) as [[[res s2] c2]|]; cbn [option_bind mbind] in Hrun; [|done]. destruct res as [[]|]; [|simplify_eq; by left..].
    destruct (process_queue _ _ _ _ _ _) as [[[[ok q] o2] c3]|] eqn:Hq; cbn [option_bind mbind] in Hrun; [|done]. apply process_queue_waits in Hq.
    assert (o' = o2) as -> by (destruct ok; by simplify_eq). left. by eapply lookup_weaken.
Qed.
Lemma ProcessBlock_ranked age (st : settings) (fuel : nat) (pfrom : bool) (b : CBlock) dbp state o (c : chainstate V) r root state' o' c' :
  orphans_ranked age o -> (age (prev_of b) < age (block_GetHash b))%nat -> ProcessBlock st fuel pfrom b dbp state o c = Some (r, root, state', o', c') -> orphans_ranked age o'.
Proof. intros Ho Hb Hrun h x Hx. destruct (ProcessBlock_waits _ _ _ _ _ _ _ _ _ _ _ _ _ _ _ Hrun Hx) as [?|(-> & t & l & ->)]; [by apply Ho|done]. Qed.
End AcceptProperties.

(** ** Witnesses *)

Definition late_coinbase : CTransaction :=
  {| nVersion := 1; vin := [{| prevout := null_outpoint; scriptSig := [0x51; 0x51]; nSequence := uint_max |}];
     vout := [{| nValue := 10 * COIN; scriptPubKey := [0x51] |}]; nLockTime := 0 |}.
(** a block whose hash times its multiplier is the origin of a chain of two primes *)
Definition late_block (prev : Z) : CBlock :=
  {| blk_header := {| h_nVersion := 2; hashPrevBlock := prev; hashMerkleRoot := BuildMerkleTree (K := ToyCrypto) [GetHash (K := ToyCrypto) late_coinbase];
                      h_nTime := 1400000000; h_nBits := 0x02000000; h_nNonce := 5; bnPrimeChainMultiplier := 2701 |};
     vtx := [late_coinbase]; nPrimeChainType := 0; nPrimeChainLength := 0 |}.
Definition late_hash (b : CBlock) : Z := block_GetHash (B := ZBN) (K := ToyCrypto) b.
Definition late_first : CBlock := late_block (2 ^ 223).
Definition late_hash_first : Z := Eval vm_compute in late_hash late_first.
Definition late_second : CBlock := late_block late_hash_first.
Definition late_orphans : orphanage := add_orphan (B := ZBN) (K := ToyCrypto) late_second (add_orphan (B := ZBN) (K := ToyCrypto) late_first no_orphans).

Lemma late_orphans_ok : orphans_ok (B := ZBN) (K := ToyCrypto) late_orphans.
Proof. apply add_orphan_ok; [|vm_compute; reflexivity]. apply add_orphan_ok; [apply no_orphans_ok|vm_compute; reflexivity]. Qed.

(** the predecessor of the first arrives: both are accepted *)
Lemma process_queue_ends_witness : exists q o', process_queue (B := ZBN) (K := ToyCrypto) (fun _ c => Some (Ret true, S c)) 3 0 [2 ^ 223] late_orphans 0%nat =
    Some (true, q, o', 2%nat) /\ length q = 3%nat /\ orphans_ok (B := ZBN) (K := ToyCrypto) o'.
Proof.
  destruct (process_queue_ends (B := ZBN) (K := ToyCrypto) (fun _ c => Some (Ret true, S c)) (fun q c => length q = S c) (2 ^ 223) late_orphans 0%nat) as (ok & q & o' & c' & Hr & Hq & Hok).
  - intros q b c Hl. exists (Ret true), (S c). split; [reflexivity|]. unfold queue_after. rewrite length_app. simpl. lia.
  - exact late_orphans_ok.
  - reflexivity.
  - change (S (waiting late_orphans)) with 3%nat in Hr.
    assert (Hc : match process_queue (B := ZBN) (K := ToyCrypto) (fun _ c => Some (Ret true, S c)) 3 0 [2 ^ 223] late_orphans 0%nat with Some (true, _, _, 2%nat) => true | _ => false end = true)
      by (vm_compute; reflexivity).
    rewrite Hr in Hc. destruct ok; [|discriminate Hc]. destruct c' as [|[|[|]]]; try discriminate Hc. destruct (Hok eq_refl) as (Ho' & _).
    exists q, o'. split; [exact Hr|split; [exact Hq|exact Ho']].
Defined.

(** a block arrives from a peer before its predecessor *)
Definition late_settings : settings :=
  {| b_params := {| p_nMinTxFee := MIN_TX_FEE; p_nMinRelayTxFee := MIN_TX_FEE; p_threads := true; p_fTxIndex := false; p_nAdjustedTime := 1400000100;
                    p_hashGenesisBlock := 1; p_target := testnet_target; p_pchMessageStart := sample_magic |};
     b_fInitialDownload := false; b_nCoinCacheSize := 5000; b_fTestNet := false; b_v2compatible := false; b_prime_fuel := 10 |}.
Definition late_state : chainstate memory_view := {| nd := sample_node; c_pool := empty_pool; pcoinsTip := new_cache (∅, None) |}.
Definition late_run : option (outcome * option Z * CValidationState * orphanage * chainstate memory_view) :=
  ProcessBlock (B := ZBN) (K := ToyCrypto) late_settings 10 true late_first None new_state no_orphans late_state.

Lemma ProcessBlock_orphans_witness : exists o' t l, orphans_ok (B := ZBN) (K := ToyCrypto) o' /\
  o' = add_orphan (B := ZBN) (K := ToyCrypto) (set_chain t l late_first) no_orphans /\ is_Some (mapOrphanBlocks o' !! late_hash_first).
Proof.
  assert (Hc : match late_run with Some (Ret true, _, _, o', _) => bool_decide (is_Some (mapOrphanBlocks o' !! late_hash_first)) | _ => false end = true)
    by (vm_compute; reflexivity).
  destruct late_run as [[[[[[[]|] root] s'] o'] c']|] eqn:Er; try discriminate Hc. apply bool_decide_eq_true in Hc. unfold late_run in Er.
  destruct (ProcessBlock_orphans (V := memory_view) (B := ZBN) (K := ToyCrypto) _ _ _ _ _ _ _ _ _ _ _ _ _ (no_orphans_ok (B := ZBN) (K := ToyCrypto)) Er)
    as [Ho [(-> & _)|[(t & l & _ & _ & _ & _ & _ & He & _)|(t & l & res & c1 & _ & Hacc)]]].
  - destruct Hc as [x Hx]. cbn [no_orphans mapOrphanBlocks] in Hx. rewrite lookup_empty in Hx. discriminate Hx.
  - exists o', t, l. split; [apply Ho; discriminate|]. split; [exact He|exact Hc].
  - exfalso. destruct res as [[]|]; [|destruct Hacc as [Hacc _]; discriminate Hacc..]. destruct Hacc as (handled & q & _ & _ & _ & _ & ->).
    destruct Hc as [x Hx]. apply orphan_without in Hx as [Hx _]. cbn [no_orphans mapOrphanBlocks] in Hx. rewrite lookup_empty in Hx. discriminate Hx.
Defined.
