(* ===== verification/OrphanTx.v ===== *)
(** * Orphan transactions (main.cpp)

    The transactions that wait for one they spend from, and the "tx" message that brings transactions.
    [mapOrphanTransactions[...]] and [mapOrphanTransactionsByPrev[...]] create the entry they do not find, as [operator[]] does; a set
    is worked through in the order of its elements.  The random hashes of [LimitOrphanTxSize] are a sequence [rnd].  The relayed
    transactions are returned.  The properties: the two maps agree, and there are never more orphans than allowed; but the orphans that wait for an
    accepted transaction are thrown away unread, because the handler tries the transaction itself again in their place. *)

From stdpp Require Import gmap sorting.
From S2P Require Import NetAddr Prelude OpenSSL BigNum Target PrimeChain Serialize Crypto Script Transaction ScriptEval ScriptStd Coins View Merkle Block BlockFile Chain Supply Connect Progress Mempool Best Limited.
Local Open Scope Z_scope.

Definition MAX_ORPHAN_TRANSACTIONS : Z := MAX_BLOCK_SIZE / 100.

Record orphan_txs := { mapOrphanTransactions : gmap Z CTransaction; mapOrphanTransactionsByPrev : gmap Z (gset Z) }.
Definition no_orphan_txs : orphan_txs := {| mapOrphanTransactions := ∅; mapOrphanTransactionsByPrev := ∅ |}.
(** the orphans that wait for [p] *)
Definition children (o : orphan_txs) (p : Z) : gset Z := default ∅ (mapOrphanTransactionsByPrev o !! p).
Definition by_prev (m : gmap Z (gset Z)) (o : orphan_txs) : orphan_txs := {| mapOrphanTransactions := mapOrphanTransactions o; mapOrphanTransactionsByPrev := m |}.

Section Orphans.
Context {K : Crypto}.

Definition AddOrphanTx (tx : CTransaction) (o : orphan_txs) : bool * orphan_txs :=
  let hash := GetHash tx in
  if bool_decide (is_Some (mapOrphanTransactions o !! hash)) then (false, o)
  else if 5000 <? GetSerializeSize ser_CTransaction tx then (false, o)
  else
    (true, {| mapOrphanTransactions := <[hash := tx]> (mapOrphanTransactions o);
              mapOrphanTransactionsByPrev :=
                foldl (fun m txin => <[o_hash (prevout txin) := {[hash]} ∪ default ∅ (m !! o_hash (prevout txin))]> m) (mapOrphanTransactionsByPrev o) (vin tx) |}).

(** one input of an orphan that goes *)
Definition erase_prev (hash : Z) (m : gmap Z (gset Z)) (txin : CTxIn) : gmap Z (gset Z) :=
  let p := o_hash (prevout txin) in
  let s := default ∅ (m !! p) ∖ {[hash]} in
  if bool_decide (s = ∅) then delete p m else <[p := s]> m.
Definition EraseOrphanTx (hash : Z) (o : orphan_txs) : orphan_txs :=
  match mapOrphanTransactions o !! hash with
  | None => o
  | Some tx => {| mapOrphanTransactions := delete hash (mapOrphanTransactions o);
                  mapOrphanTransactionsByPrev := foldl (erase_prev hash) (mapOrphanTransactionsByPrev o) (vin tx) |}
  end.

(** the first key that is not below [r], or the first of all *)
Definition lower_bound (r : Z) (m : gmap Z CTransaction) : option Z :=
  let keys := merge_sort Z.le (map fst (map_to_list m)) in
  match filter (fun k => r <= k) keys with k :: _ => Some k | [] => head keys end.
(** [None]: the fuel ran out, or the first element of an empty map *)
Fixpoint LimitOrphanTxSize (fuel : nat) (nMaxOrphans : Z) (rnd : nat -> Z) (nEvicted : nat) (o : orphan_txs) : option (nat * orphan_txs) :=
  if nMaxOrphans <? Z.of_nat (size (mapOrphanTransactions o)) then
    match fuel with
    | O => None
    | S f => let? k := lower_bound (rnd nEvicted) (mapOrphanTransactions o) in LimitOrphanTxSize f nMaxOrphans rnd (S nEvicted) (EraseOrphanTx k o)
    end
  else Some (nEvicted, o).
End Orphans.

(** ** The "tx" message *)

Section TxMessage.
Context {V : Type} {CV : CoinsView V} {B : OpenSSLBN} {K : Crypto} {E : CacheEnv} (st : settings).
Abbreviation chain := (chainstate V).

(** [tx.AcceptToMemoryPool(state, true, true, &fMissingInputs)]: whether it was accepted, and whether inputs are missing *)
Definition AcceptToMemoryPool (tx : CTransaction) (state : CValidationState) (c : chain) : option (bool * bool * CValidationState * chain) :=
  let? a := accept (pool_params_of st (nd c)) tx true true state (c_pool c) (pcoinsTip c) (signatureCache (nd c)) in
  Some (a_ok a, a_missing a, a_state a, {| nd := set_cache (a_cache a) (nd c); pcoinsTip := a_tip a; c_pool := a_pool a |}).

(** what the handler works on *)
Record tx_work := {
  vWorkQueue : list Z; vEraseQueue : list Z; relayed : list (Z * CTransaction); w_orphans : orphan_txs; asked : Lim.limitedmap CInv; w_chain : chain;
}.

(** one orphan: the transaction that is tried is [tx], the one of the message *)
Definition try_orphan (tx : CTransaction) (orphanHash : Z) (w : tx_work) : option tx_work :=
  let orphanTx := default null_tx (mapOrphanTransactions (w_orphans w) !! orphanHash) in
  let o := {| mapOrphanTransactions := <[orphanHash := orphanTx]> (mapOrphanTransactions (w_orphans w)); mapOrphanTransactionsByPrev := mapOrphanTransactionsByPrev (w_orphans w) |} in
  let? (ok, missing, _, c) := AcceptToMemoryPool tx new_state (w_chain w) in
  if ok then
    let? a := Lim.erase (MSG_TX, orphanHash) (asked w) in
    Some {| vWorkQueue := vWorkQueue w ++ [orphanHash]; vEraseQueue := vEraseQueue w ++ [orphanHash]; relayed := relayed w ++ [(orphanHash, orphanTx)];
            w_orphans := o; asked := a; w_chain := c |}
  else
    Some {| vWorkQueue := vWorkQueue w; vEraseQueue := if negb missing then vEraseQueue w ++ [orphanHash] else vEraseQueue w; relayed := relayed w;
            w_orphans := o; asked := asked w; w_chain := c |}.
Fixpoint try_orphans (tx : CTransaction) (hs : list Z) (w : tx_work) : option tx_work :=
  match hs with [] => Some w | h :: r => let? w := try_orphan tx h w in try_orphans tx r w end.
Fixpoint process_orphans (fuel i : nat) (tx : CTransaction) (w : tx_work) : option tx_work :=
  match vWorkQueue w !! i with
  | None => Some w
  | Some hashPrev =>
    match fuel with
    | O => None
    | S f =>
      let s := children (w_orphans w) hashPrev in
      let o := by_prev (<[hashPrev := s]> (mapOrphanTransactionsByPrev (w_orphans w))) (w_orphans w) in
      let? w := try_orphans tx (merge_sort Z.le (elements s))
        {| vWorkQueue := vWorkQueue w; vEraseQueue := vEraseQueue w; relayed := relayed w; w_orphans := o; asked := asked w; w_chain := w_chain w |} in
      process_orphans f (S i) tx w
    end
  end.

(** the handler: the score for the peer, what is relayed, and the state after it *)
Definition tx_message (fuel : nat) (rnd : nat -> Z) (tx : CTransaction) (o : orphan_txs) (a : Lim.limitedmap CInv) (c : chain)
    : option (Z * list (Z * CTransaction) * orphan_txs * Lim.limitedmap CInv * chain) :=
  let hash := GetHash tx in
  let? (ok, missing, state, c) := AcceptToMemoryPool tx new_state c in
  let? (relay, o, a, c) :=
    if ok then
      let? a := Lim.erase (MSG_TX, hash) a in
      let? w := process_orphans fuel 0 tx {| vWorkQueue := [hash]; vEraseQueue := [hash]; relayed := [(hash, tx)]; w_orphans := o; asked := a; w_chain := c |} in
      Some (relayed w, foldl (fun o h => EraseOrphanTx h o) (w_orphans w) (vEraseQueue w), asked w, w_chain w)
    else if missing then
      let '(_, o) := AddOrphanTx tx o in
      let? (_, o) := LimitOrphanTxSize (size (mapOrphanTransactions o)) MAX_ORPHAN_TRANSACTIONS rnd 0 o in
      Some ([], o, a, c)
    else Some ([], o, a, c) in
  Some (if state_IsInvalid state && (0 <? nDoS state) then nDoS state else 0, relay, o, a, c).
End TxMessage.

(** ** The two maps agree *)

Definition prevs (tx : CTransaction) : list Z := (fun i => o_hash (prevout i)) <$> vin tx.

Section OrphanLemmas.
Context {K : Crypto}.

(** each orphan is under its hash, and among the orphans that wait for each transaction it spends from *)
Record orphans_ok (o : orphan_txs) : Prop := {
  oo_hash : forall h tx, mapOrphanTransactions o !! h = Some tx -> GetHash tx = h;
  oo_prev : forall p h, h ∈ children o p <-> exists tx, mapOrphanTransactions o !! h = Some tx /\ p ∈ prevs tx;
}.
Lemma no_orphan_txs_ok : orphans_ok no_orphan_txs.
Proof.
  split; cbn; [intros h tx; by rewrite lookup_empty|]. intros p h. unfold children. cbn. rewrite lookup_empty. split; [by intros ?%elem_of_empty|].
  intros (tx & Htx & _). by rewrite lookup_empty in Htx.
Qed.

Lemma add_prevs hash (l : list CTxIn) (m : gmap Z (gset Z)) p h :
  h ∈ default ∅ (foldl (fun m txin => <[o_hash (prevout txin) := {[hash]} ∪ default ∅ (m !! o_hash (prevout txin))]> m) m l !! p) <->
  h ∈ default ∅ (m !! p) \/ (h = hash /\ p ∈ (fun i => o_hash (prevout i)) <$> l).
Proof.
  revert m. induction l as [|i l IH]; intros m; cbn [foldl]; [set_solver|]. rewrite IH. destruct (decide (p = o_hash (prevout i))) as [->|Hne].
  - rewrite lookup_insert_eq. cbn. set_solver.
  - rewrite lookup_insert_ne by done. set_solver.
Qed.
Lemma erase_prevs hash (l : list CTxIn) (m : gmap Z (gset Z)) p h :
  h ∈ default ∅ (foldl (erase_prev hash) m l !! p) <-> h ∈ default ∅ (m !! p) /\ ~ (h = hash /\ p ∈ (fun i => o_hash (prevout i)) <$> l).
Proof.
  revert m. induction l as [|i l IH]; intros m; cbn [foldl]; [set_solver|]. rewrite IH. unfold erase_prev. destruct (decide (p = o_hash (prevout i))) as [->|Hne].
  - case_bool_decide as Hs; [rewrite lookup_delete_eq|rewrite lookup_insert_eq]; cbn; set_solver.
  - case_bool_decide as Hs; [rewrite lookup_delete_ne by done|rewrite lookup_insert_ne by done]; set_solver.
Qed.

Lemma AddOrphanTx_ok tx o : orphans_ok o -> orphans_ok (AddOrphanTx tx o).2.
Proof.
  intros [H1 H2]. unfold AddOrphanTx. case_bool_decide as Hin; [done|]. case_if; [done|]. cbn [snd].
  assert (Hn : mapOrphanTransactions o !! GetHash tx = None) by (by apply eq_None_not_Some). split; cbn [mapOrphanTransactions mapOrphanTransactionsByPrev].
  - intros h t. destruct (decide (h = GetHash tx)) as [->|Hne]; [rewrite lookup_insert_eq; congruence|]. rewrite lookup_insert_ne by done. apply H1.
  - intros p h. unfold children. cbn. rewrite add_prevs. fold (children o p). rewrite H2. fold (prevs tx). destruct (decide (h = GetHash tx)) as [->|Hne].
    + rewrite lookup_insert_eq. split; [intros [(t & Ht & _)|[_ Hp]]; [congruence|by exists tx]|]. intros (t & [= <-] & Hp). by right.
    + rewrite lookup_insert_ne by done. split; [by intros [?|[? _]]|by left].
Qed.
Lemma EraseOrphanTx_ok hash o : orphans_ok o -> orphans_ok (EraseOrphanTx hash o) /\ mapOrphanTransactions (EraseOrphanTx hash o) = delete hash (mapOrphanTransactions o).
Proof.
  intros [H1 H2]. unfold EraseOrphanTx. destruct (mapOrphanTransactions o !! hash) as [tx|] eqn:Hin; [|by rewrite delete_id]. split; [|done].
  split; cbn [mapOrphanTransactions mapOrphanTransactionsByPrev].
  - intros h t Ht. apply lookup_delete_Some in Ht as [_ Ht]. by apply H1.
  - intros p h. unfold children. cbn. rewrite erase_prevs. fold (children o p). rewrite H2. fold (prevs tx). split.
    + intros [(t & Ht & Hp) Hn]. exists t. split; [|done]. apply lookup_delete_Some. split; [|done]. intros <-. apply Hn. split; [done|]. congruence.
    + intros (t & Ht & Hp). apply lookup_delete_Some in Ht as [Hne Ht]. split; [by exists t|]. by intros [<- _].
Qed.

Lemma lower_bound_in r m k : lower_bound r m = Some k -> is_Some (m !! k).
Proof.
  unfold lower_bound. assert (Hk : forall k, k ∈ merge_sort Z.le (map fst (map_to_list m)) -> is_Some (m !! k)).
  { intros j Hj. rewrite merge_sort_Permutation in Hj. apply list_elem_of_fmap in Hj as ([j' t] & -> & Hj). apply elem_of_map_to_list in Hj. by exists t. }
  destruct (filter _ _) as [|x l] eqn:Hf.
  - destruct (merge_sort Z.le _) as [|y q]; [done|]. intros [= <-]. apply Hk. by left.
  - intros [= <-]. assert (Hx : x ∈ filter (fun k => r <= k) (merge_sort Z.le (map fst (map_to_list m)))) by (rewrite Hf; by left).
    apply list_elem_of_filter in Hx as [_ Hx]. by apply Hk.
Qed.
Lemma lower_bound_some r m : m <> ∅ -> is_Some (lower_bound r m).
Proof.
  intros Hm. unfold lower_bound. destruct (filter _ _); [|done]. destruct (merge_sort Z.le _) eqn:E; [|done]. destruct Hm.
  apply map_to_list_empty_iff. assert (Hp := merge_sort_Permutation Z.le (map fst (map_to_list m))). rewrite E in Hp. apply Permutation_nil in Hp.
  by destruct (map_to_list m).
Qed.
(** orphans are evicted until the limit holds *)
Lemma LimitOrphanTxSize_spec fuel n rnd i o : orphans_ok o -> 0 <= n -> (size (mapOrphanTransactions o) <= fuel)%nat ->
  exists j o', LimitOrphanTxSize fuel n rnd i o = Some (j, o') /\ orphans_ok o' /\ Z.of_nat (size (mapOrphanTransactions o')) <= n /\
    mapOrphanTransactions o' ⊆ mapOrphanTransactions o.
Proof.
  intros Hok Hn. revert i o Hok. induction fuel as [|f IH]; intros i o Hok Hf; cbn [LimitOrphanTxSize].
  { case_if; [apply Z.ltb_lt in E; lia|]. apply Z.ltb_ge in E. by exists i, o. }
  case_if; [|apply Z.ltb_ge in E; by exists i, o]. apply Z.ltb_lt in E. destruct (lower_bound_some (rnd i) (mapOrphanTransactions o)) as [k Hk].
  { intros H0. rewrite H0, map_size_empty in E. lia. }
  rewrite Hk. cbn [option_bind mbind]. apply lower_bound_in in Hk as [t Ht]. destruct (EraseOrphanTx_ok k o Hok) as [Ho He].
  destruct (IH (S i) _ Ho) as (j & o' & E' & Ho' & Hs & Hsub); [rewrite He, map_size_delete_Some by done; lia|]. exists j, o'. split_and!; [done..|].
  etrans; [exact Hsub|]. rewrite He. apply delete_subseteq.
Qed.
End OrphanLemmas.

(** ** What the handler does with the orphans *)

Section Handler.
Context {V : Type} {CV : CoinsView V} {B : OpenSSLBN} {K : Crypto} {E : CacheEnv} (st : settings).
Abbreviation chain := (chainstate V).

(** a transaction of the pool is refused at once, with nothing missing and nothing changed *)
Lemma accept_again tx state (c : chain) : exists_tx (c_pool c) (GetHash tx) = true -> exists state', AcceptToMemoryPool st tx state c = Some (false, false, state', c).
Proof.
  intros Hin. assert (Hc : {| nd := set_cache (signatureCache (nd c)) (nd c); pcoinsTip := pcoinsTip c; c_pool := c_pool c |} = c) by (by destruct c as [[] ? ?]).
  assert (Hr : forall state', exists s, (let? a := Some {| a_ok := false; a_missing := false; a_state := state'; a_pool := c_pool c; a_tip := pcoinsTip c;
    a_cache := signatureCache (nd c) |} in Some (a_ok a, a_missing a, a_state a, {| nd := set_cache (a_cache a) (nd c); pcoinsTip := a_tip a; c_pool := a_pool a |})) =
    Some (false, false, s, c)) by (intros state'; exists state'; cbn [option_bind mbind a_ok a_missing a_state a_pool a_tip a_cache]; by rewrite Hc).
  unfold AcceptToMemoryPool, accept. destruct (CheckTransaction tx) as [|level]; [|destruct (state_DoS _ _ _ _); apply Hr].
  destruct (IsCoinBase tx); [destruct (state_DoS _ _ _ _); apply Hr|]. do 2 (case_if; [apply Hr|]). rewrite Hin. apply Hr.
Qed.

(** a transaction that is accepted is in the pool, and leaves no mark on the state *)
Lemma AcceptToMemoryPool_total {CS : CoinsViewSpec V} tx state (c : chain) : is_Some (Vt (pcoinsTip c)) -> is_Some (AcceptToMemoryPool st tx state c).
Proof. intros H. unfold AcceptToMemoryPool. match goal with |- context [accept ?p ?t ?a ?b ?s ?q ?v ?k] => destruct (accept_total p t a b s q v k H) as [r ->] end. by eexists. Qed.
Lemma accepted_in_pool tx (c : chain) missing state c' : AcceptToMemoryPool st tx new_state c = Some (true, missing, state, c') ->
  exists_tx (c_pool c') (GetHash tx) = true /\ state = new_state.
Proof.
  unfold AcceptToMemoryPool. destruct (accept _ _ _ _ _ _ _ _) as [a|] eqn:Ea; [|done]. cbn [option_bind mbind]. intros [= Hok _ <- <-]. cbn [c_pool].
  assert (Hin : exists_tx (addUnchecked (GetHash tx) tx (c_pool c)) (GetHash tx) = true).
  { unfold exists_tx, addUnchecked. cbn. apply bool_decide_eq_true. by rewrite lookup_insert_eq. }
  unfold accept in Ea. repeat (case_match; simplify_eq; try done); by split.
Qed.

(** trying the transaction of the message again leaves every orphan of the list to be erased *)
Lemma try_orphans_again tx hs (w : tx_work) : exists_tx (c_pool (w_chain w)) (GetHash tx) = true -> (forall h, h ∈ hs -> is_Some (mapOrphanTransactions (w_orphans w) !! h)) ->
  try_orphans st tx hs w = Some {| vWorkQueue := vWorkQueue w; vEraseQueue := vEraseQueue w ++ hs; relayed := relayed w; w_orphans := w_orphans w; asked := asked w; w_chain := w_chain w |}.
Proof.
  revert w. induction hs as [|h hs IH]; intros w Hin Hhs; cbn [try_orphans]; [rewrite app_nil_r; by destruct w|].
  unfold try_orphan. destruct (accept_again tx new_state (w_chain w) Hin) as (state' & ->). cbn [option_bind mbind negb].
  destruct (Hhs h) as [t Ht]; [by left|]. rewrite Ht. cbn [default]. unfold id. rewrite insert_id by done.
  assert (Ho : {| mapOrphanTransactions := mapOrphanTransactions (w_orphans w); mapOrphanTransactionsByPrev := mapOrphanTransactionsByPrev (w_orphans w) |} = w_orphans w)
    by (by destruct (w_orphans w)).
  rewrite Ho. rewrite IH; cbn [vWorkQueue vEraseQueue relayed w_orphans asked w_chain]; [|done|intros j Hj; apply Hhs; by right].
  by rewrite <- app_assoc.
Qed.

(** the entry that looking up a transaction creates holds nothing *)
Lemma by_prev_ok o p : orphans_ok o -> orphans_ok (by_prev (<[p := children o p]> (mapOrphanTransactionsByPrev o)) o).
Proof.
  intros [H1 H2]. split; [done|]. intros q h. rewrite <- H2. unfold children. cbn. destruct (decide (q = p)) as [->|Hne]; [by rewrite lookup_insert_eq|by rewrite lookup_insert_ne].
Qed.

Lemma erase_all_ok hs o : orphans_ok o -> let o' := foldl (fun o h => EraseOrphanTx h o) o hs in
  orphans_ok o' /\ mapOrphanTransactions o' = filter (fun e => e.1 ∉ hs) (mapOrphanTransactions o).
Proof.
  revert o. induction hs as [|h hs IH]; intros o Hok; cbn [foldl].
  { split; [done|]. symmetry. apply map_filter_id. intros ? ? _. apply not_elem_of_nil. }
  destruct (EraseOrphanTx_ok h o Hok) as [Ho He]. destruct (IH _ Ho) as [IH1 IH2]. split; [done|]. rewrite IH2, He. apply map_eq. intros k.
  apply option_eq. intros t. rewrite !map_lookup_filter_Some, lookup_delete_Some, not_elem_of_cons. cbn. naive_solver.
Qed.

(** the work on the orphans: those that wait for the transaction are erased *)
Lemma process_orphans_spec fuel tx o a (c : chain) : (2 <= fuel)%nat -> orphans_ok o -> exists_tx (c_pool c) (GetHash tx) = true -> let hash := GetHash tx in
  process_orphans st fuel 0 tx {| vWorkQueue := [hash]; vEraseQueue := [hash]; relayed := [(hash, tx)]; w_orphans := o; asked := a; w_chain := c |} =
  Some {| vWorkQueue := [hash]; vEraseQueue := hash :: merge_sort Z.le (elements (children o hash)); relayed := [(hash, tx)];
          w_orphans := by_prev (<[hash := children o hash]> (mapOrphanTransactionsByPrev o)) o; asked := a; w_chain := c |}.
Proof.
  intros Hf Hok Hin hash. destruct fuel as [|[|f]]; [lia|lia|]. cbn [process_orphans vWorkQueue lookup list_lookup w_orphans vEraseQueue relayed asked w_chain].
  rewrite try_orphans_again; cbn [vWorkQueue vEraseQueue relayed w_orphans asked w_chain]; [done|done|].
  intros h Hh. rewrite merge_sort_Permutation in Hh. apply elem_of_elements, (oo_prev _ Hok) in Hh as (t & Ht & _). by exists t.
Qed.

(** the message, when the transaction is accepted *)
Lemma tx_message_accepted fuel rnd tx o a (c c1 : chain) missing state : (2 <= fuel)%nat -> orphans_ok o -> Lim.limited_ok a ->
  AcceptToMemoryPool st tx new_state c = Some (true, missing, state, c1) ->
  exists o' a', tx_message st fuel rnd tx o a c = Some (0, [(GetHash tx, tx)], o', a', c1) /\ orphans_ok o' /\ (Lim.limited_ok a' /\ Lim.nMaxSize a' = Lim.nMaxSize a) /\
    mapOrphanTransactions o' = filter (fun e => e.1 <> GetHash tx /\ GetHash tx ∉ prevs e.2) (mapOrphanTransactions o) /\
    (children o (GetHash tx) = ∅ -> mapOrphanTransactions o !! GetHash tx = None -> mapOrphanTransactionsByPrev o' = <[GetHash tx := ∅]> (mapOrphanTransactionsByPrev o)).
Proof.
  intros Hf Hok Ha Hacc. destruct (accepted_in_pool _ _ _ _ _ Hacc) as [Hin ->]. unfold tx_message. rewrite Hacc. cbn [option_bind mbind].
  destruct (Lim.erase_spec (MSG_TX, GetHash tx) a Ha) as (a' & -> & Ha' & _ & Hmax). cbn [option_bind mbind]. rewrite process_orphans_spec by done.
  cbn [option_bind mbind relayed w_orphans vEraseQueue asked w_chain state_IsInvalid mode new_state andb].
  destruct (erase_all_ok (GetHash tx :: merge_sort Z.le (elements (children o (GetHash tx)))) _ (by_prev_ok o (GetHash tx) Hok)) as [H1 H2].
  eexists _, a'. split; [done|]. split; [done|]. split; [done|]. split.
  - rewrite H2. cbn [mapOrphanTransactions by_prev]. apply map_filter_ext. intros h t Ht. cbn. rewrite not_elem_of_cons, merge_sort_Permutation, elem_of_elements, (oo_prev _ Hok).
    split; intros [Hne Hn]; (split; [done|]); [intros Hp; apply Hn; by exists t|]. intros (t' & Ht' & Hp). congruence.
  - intros Hc Hn. rewrite Hc. cbn. unfold EraseOrphanTx. cbn. by rewrite Hn.
Qed.
End Handler.

(** ** Properties *)

Section OrphanProperties.
Context {V : Type} {CV : CoinsView V} {B : OpenSSLBN} {K : Crypto} {E : CacheEnv} (st : settings).
Abbreviation chain := (chainstate V).

(** the message is worked off *)
Lemma tx_message_ok fuel rnd tx o a (c : chain) : (2 <= fuel)%nat -> orphans_ok o -> Lim.limited_ok a ->
  Z.of_nat (size (mapOrphanTransactions o)) <= MAX_ORPHAN_TRANSACTIONS -> is_Some (AcceptToMemoryPool st tx new_state c) ->
  exists score relay o' a' c', tx_message st fuel rnd tx o a c = Some (score, relay, o', a', c') /\ orphans_ok o' /\ Lim.limited_ok a' /\ Lim.nMaxSize a' = Lim.nMaxSize a /\
    Z.of_nat (size (mapOrphanTransactions o')) <= MAX_ORPHAN_TRANSACTIONS /\
    (forall h t, mapOrphanTransactions o' !! h = Some t -> mapOrphanTransactions o !! h = Some t \/ (h = GetHash tx /\ t = tx)).
Proof.
  intros Hf Hok Ha Hs [[[[ok missing] state] c1] Hacc]. destruct ok.
  { destruct (tx_message_accepted st fuel rnd tx o a c c1 missing state Hf Hok Ha Hacc) as (o' & a' & E' & Ho & [Ha' Hx] & Hm & _).
    exists 0, [(GetHash tx, tx)], o', a', c1. split_and!; [done..| |].
    - rewrite Hm. etrans; [|exact Hs]. apply inj_le, map_size_filter.
    - intros h t Ht. rewrite Hm in Ht. left. by apply map_lookup_filter_Some in Ht as [Ht _]. }
  unfold tx_message. rewrite Hacc. cbn [option_bind mbind]. destruct missing; [|cbn [option_bind mbind]; eexists _, _, o, a, c1; split_and!; [done..|]; by left].
  destruct (AddOrphanTx tx o) as [b o1] eqn:Eo. pose proof (AddOrphanTx_ok tx o Hok) as Ho1. rewrite Eo in Ho1. cbn [snd] in Ho1.
  destruct (LimitOrphanTxSize_spec (size (mapOrphanTransactions o1)) MAX_ORPHAN_TRANSACTIONS rnd 0 o1 Ho1) as (j & o2 & -> & Ho2 & Hz & Hsub); [done|done|].
  cbn [option_bind mbind]. eexists _, _, o2, a, c1. split_and!; [done..|]. intros h t Ht. rewrite map_subseteq_spec in Hsub. apply Hsub in Ht.
  unfold AddOrphanTx in Eo. case_bool_decide; [injection Eo as _ <-; by left|]. case_if_in Eo; injection Eo as _ <-; [by left|]. cbn in Ht.
  apply lookup_insert_Some in Ht as [[<- <-]|[_ Ht]]; [by right|by left].
Qed.

(** C20: The orphans stay within bounds: when the pool answers for a transaction, the message that brings it is worked off; afterwards
    the two maps of orphans agree again, no orphan is there that was not there before or came with the message, and there are at most
    MAX_ORPHAN_TRANSACTIONS of them. *)
Theorem tx_message_orphans fuel rnd tx o a (c : chain) : (2 <= fuel)%nat -> orphans_ok o -> Lim.limited_ok a ->
  Z.of_nat (size (mapOrphanTransactions o)) <= MAX_ORPHAN_TRANSACTIONS -> is_Some (AcceptToMemoryPool st tx new_state c) ->
  exists score relay o' a' c', tx_message st fuel rnd tx o a c = Some (score, relay, o', a', c') /\ orphans_ok o' /\ Lim.limited_ok a' /\
    Z.of_nat (size (mapOrphanTransactions o')) <= MAX_ORPHAN_TRANSACTIONS /\
    (forall h t, mapOrphanTransactions o' !! h = Some t -> mapOrphanTransactions o !! h = Some t \/ (h = GetHash tx /\ t = tx)).
Proof.
  intros Hf Hok Ha Hs Hacc. destruct (tx_message_ok fuel rnd tx o a c Hf Hok Ha Hs Hacc) as (score & relay & o' & a' & c' & H1 & H2 & H3 & _ & H4).
  by exists score, relay, o', a', c'.
Qed.

(** C21: Orphans are dropped, not accepted: when the transaction of a message enters the pool, every orphan that waits for it is erased, and
    the pool afterwards is the one right after the transaction itself was accepted, so no orphan was put into it, whether it was valid or not;
    only the transaction of the message is relayed.  (The handler asks for the acceptance of the transaction in place of the orphan.) *)
Theorem tx_message_drops_orphans fuel rnd tx o a (c c1 : chain) missing state : (2 <= fuel)%nat -> orphans_ok o -> Lim.limited_ok a ->
  AcceptToMemoryPool st tx new_state c = Some (true, missing, state, c1) ->
  exists o' a', tx_message st fuel rnd tx o a c = Some (0, [(GetHash tx, tx)], o', a', c1) /\
    mapOrphanTransactions o' = filter (fun e => e.1 <> GetHash tx /\ GetHash tx ∉ prevs e.2) (mapOrphanTransactions o).
Proof.
  intros Hf Hok Ha Hacc. destruct (tx_message_accepted st fuel rnd tx o a c c1 missing state Hf Hok Ha Hacc) as (o' & a' & E' & _ & _ & Hm & _). by exists o', a'.
Qed.

(** an accepted transaction that no orphan waits for leaves an empty entry behind, which nothing removes *)
Theorem tx_message_leaves_entry fuel rnd tx o a (c c1 : chain) missing state : (2 <= fuel)%nat -> orphans_ok o -> Lim.limited_ok a ->
  AcceptToMemoryPool st tx new_state c = Some (true, missing, state, c1) -> children o (GetHash tx) = ∅ -> mapOrphanTransactions o !! GetHash tx = None ->
  exists relay o' a', tx_message st fuel rnd tx o a c = Some (0, relay, o', a', c1) /\ mapOrphanTransactionsByPrev o' = <[GetHash tx := ∅]> (mapOrphanTransactionsByPrev o).
Proof.
  intros Hf Hok Ha Hacc Hc Hn. destruct (tx_message_accepted st fuel rnd tx o a c c1 missing state Hf Hok Ha Hacc) as (o' & a' & E' & _ & _ & _ & Hm).
  eexists _, o', a'. split; [done|]. by apply Hm.
Qed.
End OrphanProperties.

(** ** Witnesses: a payment, and a valid transaction that waits for it *)

Definition orphan_settings : settings :=
  {| b_params := sample_params; b_fInitialDownload := false; b_nCoinCacheSize := 5000; b_fTestNet := true; b_v2compatible := false; b_prime_fuel := 10 |}.
Definition orphan_chain : chainstate memory_view := {| nd := sample_node; pcoinsTip := sample_view; c_pool := empty_pool |}.
Definition child_waits : orphan_txs := (AddOrphanTx (K := ToyCrypto) sample_child no_orphan_txs).2.
Definition first_message := AcceptToMemoryPool (B := ZBN) (K := ToyCrypto) orphan_settings spend_tx new_state orphan_chain.

Lemma child_waits_ok : orphans_ok (K := ToyCrypto) child_waits.
Proof. apply AddOrphanTx_ok, no_orphan_txs_ok. Qed.
Lemma child_waits_size : Z.of_nat (size (mapOrphanTransactions child_waits)) <= MAX_ORPHAN_TRANSACTIONS.
Proof. vm_compute. discriminate. Qed.
Definition child_accepted (c : chainstate memory_view) : bool :=
  match AcceptToMemoryPool (B := ZBN) (K := ToyCrypto) orphan_settings sample_child new_state c with Some (true, _, _, _) => true | _ => false end.
Definition both_accepted (r : option (bool * bool * CValidationState * chainstate memory_view)) : bool :=
  match r with Some (true, _, _, c) => child_accepted c | _ => false end.
(** the payment is accepted, and its child would be, too *)
Lemma first_message_accepted : both_accepted first_message = true.
Proof. vm_compute. reflexivity. Qed.
Lemma both_accepted_inv r : both_accepted r = true -> exists missing state c, r = Some (true, missing, state, c) /\ child_accepted c = true.
Proof. destruct r as [[[[[] missing] state] c]|]; [|discriminate|discriminate]. intros H. exists missing, state, c. exact (conj eq_refl H). Qed.
Lemma first_message_inv : exists missing state c,
  AcceptToMemoryPool (B := ZBN) (K := ToyCrypto) orphan_settings spend_tx new_state orphan_chain = Some (true, missing, state, c) /\ child_accepted c = true.
Proof. exact (both_accepted_inv _ first_message_accepted). Qed.

Lemma tx_message_orphans_witness : exists score relay o' a' c',
  tx_message (B := ZBN) (K := ToyCrypto) orphan_settings 2 (fun _ => 0) spend_tx child_waits (Lim.new_limitedmap 10) orphan_chain = Some (score, relay, o', a', c') /\
  orphans_ok (K := ToyCrypto) o'.
Proof.
  destruct first_message_inv as (missing & state & c1 & Er & _).
  destruct (tx_message_orphans (V := memory_view) (B := ZBN) (K := ToyCrypto) orphan_settings 2 (fun _ => 0) spend_tx child_waits (Lim.new_limitedmap 10) orphan_chain
    (le_n 2) child_waits_ok (Lim.new_limited_ok 10) child_waits_size (ex_intro _ _ Er)) as (score & relay & o' & a' & c' & H1 & H2 & _).
  exists score, relay, o', a', c'. split; [exact H1|exact H2].
Defined.

(** the valid child is lost *)
Lemma tx_message_drops_orphans_witness : exists o' a' c1,
  tx_message (B := ZBN) (K := ToyCrypto) orphan_settings 2 (fun _ => 0) spend_tx child_waits (Lim.new_limitedmap 10) orphan_chain =
    Some (0, [(GetHash (K := ToyCrypto) spend_tx, spend_tx)], o', a', c1) /\
  mapOrphanTransactions o' = ∅ /\ size (mapOrphanTransactions child_waits) = 1%nat /\
  child_accepted c1 = true.
Proof.
  destruct first_message_inv as (missing & state & c1 & Er & Hf).
  destruct (tx_message_drops_orphans (V := memory_view) (B := ZBN) (K := ToyCrypto) orphan_settings 2 (fun _ => 0) spend_tx child_waits (Lim.new_limitedmap 10)
    orphan_chain c1 missing state (le_n 2) child_waits_ok (Lim.new_limited_ok 10) Er) as (o' & a' & H1 & H2).
  exists o', a', c1. split; [exact H1|]. split; [rewrite H2; vm_compute; reflexivity|]. split; [vm_compute; reflexivity|exact Hf].
Defined.
