(* ===== verification/Net.v ===== *)
(** * The node among its peers (net.cpp, main.cpp)

    The state that the messages of peers work on ([net]): the chain and the pool with their orphans, the requests, the transactions to relay, the
    address manager, the clock, the bans, the addresses of this node, and the peers themselves, each under the value of its pointer.  Operations that
    touch several peers: relaying a transaction or an address, telling a better address of this node, and [SendMessages].  Calls
    into the wallets are listed in [wallet_calls] (Wallet models them).  The time ([GetTime()]) and the random numbers are
    arguments.  [None]: a pointer to a peer that is gone, a division by zero in a filter, or an empty container. *)

From stdpp Require Import gmap sorting.
From S2P Require Import Prelude OpenSSL BigNum Target Serialize Crypto Script Transaction ScriptEval ScriptStd Coins View Merkle Block BlockFile Chain Supply Connect Mempool Bloom NetAddr Limited Local Peer AddrMan Clock Best Accept OrphanTx.
Local Open Scope Z_scope.

Inductive wallet_call := CallInventory (hash : Z) | CallResend.

Record net_settings := {
  s_node : settings; nBanScore : Z; nBanTime : Z; fImporting : bool; fReindex : bool; fNoListen : bool; nLocalServices : Z; FormatSubVersion : bytes;
  hashSalt : Z;  (** the random value that addresses are relayed with *)
  trickleSalt : Z;
  buffer_full : list net_message -> bool;  (** [nSendSize >= SendBufferSize()] after these messages were pushed *)
  own_tx : Z -> bool;  (** a wallet has the transaction, and it is [fFromMe] *)
}.

Record net (V : Type) := {
  n_chain : chainstate V; n_blocks : orphanage; n_txs : orphan_txs; n_asks : ask_state;
  mapRelay : gmap CInv CTransaction; vRelayExpiration : list (Z * CInv);
  n_manager : NetworkPeerManager; n_clock : clock; cPeerBlockCounts : CMedianFilter; setBanned : gmap CNetAddr Z; n_local : local_hosts;
  nLocalHostNonce : Z; nLastRebroadcast : Z; ibd_last : option Z * Z; wallet_calls : list wallet_call; vNodes : gmap Z peer;
}.
Arguments Build_net {V}.
Arguments n_chain {V}. Arguments n_blocks {V}. Arguments n_txs {V}. Arguments n_asks {V}. Arguments mapRelay {V}. Arguments vRelayExpiration {V}.
Arguments n_manager {V}. Arguments n_clock {V}. Arguments cPeerBlockCounts {V}. Arguments setBanned {V}. Arguments n_local {V}. Arguments nLocalHostNonce {V}.
Arguments nLastRebroadcast {V}. Arguments ibd_last {V}. Arguments wallet_calls {V}. Arguments vNodes {V}.

Section Setters.
Context {V : Type}.
Implicit Types n : net V.
Definition put_chain (c : chainstate V) n : net V :=
  {| n_chain := c; n_blocks := n_blocks n; n_txs := n_txs n; n_asks := n_asks n; mapRelay := mapRelay n; vRelayExpiration := vRelayExpiration n;
     n_manager := n_manager n; n_clock := n_clock n; cPeerBlockCounts := cPeerBlockCounts n; setBanned := setBanned n; n_local := n_local n;
     nLocalHostNonce := nLocalHostNonce n; nLastRebroadcast := nLastRebroadcast n; ibd_last := ibd_last n; wallet_calls := wallet_calls n; vNodes := vNodes n |}.
Definition put_orphans (b : orphanage) (t : orphan_txs) n : net V :=
  {| n_chain := n_chain n; n_blocks := b; n_txs := t; n_asks := n_asks n; mapRelay := mapRelay n; vRelayExpiration := vRelayExpiration n;
     n_manager := n_manager n; n_clock := n_clock n; cPeerBlockCounts := cPeerBlockCounts n; setBanned := setBanned n; n_local := n_local n;
     nLocalHostNonce := nLocalHostNonce n; nLastRebroadcast := nLastRebroadcast n; ibd_last := ibd_last n; wallet_calls := wallet_calls n; vNodes := vNodes n |}.
Definition put_asks (a : ask_state) n : net V :=
  {| n_chain := n_chain n; n_blocks := n_blocks n; n_txs := n_txs n; n_asks := a; mapRelay := mapRelay n; vRelayExpiration := vRelayExpiration n;
     n_manager := n_manager n; n_clock := n_clock n; cPeerBlockCounts := cPeerBlockCounts n; setBanned := setBanned n; n_local := n_local n;
     nLocalHostNonce := nLocalHostNonce n; nLastRebroadcast := nLastRebroadcast n; ibd_last := ibd_last n; wallet_calls := wallet_calls n; vNodes := vNodes n |}.
Definition put_relay (m : gmap CInv CTransaction) (e : list (Z * CInv)) n : net V :=
  {| n_chain := n_chain n; n_blocks := n_blocks n; n_txs := n_txs n; n_asks := n_asks n; mapRelay := m; vRelayExpiration := e;
     n_manager := n_manager n; n_clock := n_clock n; cPeerBlockCounts := cPeerBlockCounts n; setBanned := setBanned n; n_local := n_local n;
     nLocalHostNonce := nLocalHostNonce n; nLastRebroadcast := nLastRebroadcast n; ibd_last := ibd_last n; wallet_calls := wallet_calls n; vNodes := vNodes n |}.
Definition put_manager (m : NetworkPeerManager) n : net V :=
  {| n_chain := n_chain n; n_blocks := n_blocks n; n_txs := n_txs n; n_asks := n_asks n; mapRelay := mapRelay n; vRelayExpiration := vRelayExpiration n;
     n_manager := m; n_clock := n_clock n; cPeerBlockCounts := cPeerBlockCounts n; setBanned := setBanned n; n_local := n_local n;
     nLocalHostNonce := nLocalHostNonce n; nLastRebroadcast := nLastRebroadcast n; ibd_last := ibd_last n; wallet_calls := wallet_calls n; vNodes := vNodes n |}.
Definition put_clock (c : clock) n : net V :=
  {| n_chain := n_chain n; n_blocks := n_blocks n; n_txs := n_txs n; n_asks := n_asks n; mapRelay := mapRelay n; vRelayExpiration := vRelayExpiration n;
     n_manager := n_manager n; n_clock := c; cPeerBlockCounts := cPeerBlockCounts n; setBanned := setBanned n; n_local := n_local n;
     nLocalHostNonce := nLocalHostNonce n; nLastRebroadcast := nLastRebroadcast n; ibd_last := ibd_last n; wallet_calls := wallet_calls n; vNodes := vNodes n |}.
Definition put_counts (f : CMedianFilter) n : net V :=
  {| n_chain := n_chain n; n_blocks := n_blocks n; n_txs := n_txs n; n_asks := n_asks n; mapRelay := mapRelay n; vRelayExpiration := vRelayExpiration n;
     n_manager := n_manager n; n_clock := n_clock n; cPeerBlockCounts := f; setBanned := setBanned n; n_local := n_local n;
     nLocalHostNonce := nLocalHostNonce n; nLastRebroadcast := nLastRebroadcast n; ibd_last := ibd_last n; wallet_calls := wallet_calls n; vNodes := vNodes n |}.
Definition put_banned (m : gmap CNetAddr Z) n : net V :=
  {| n_chain := n_chain n; n_blocks := n_blocks n; n_txs := n_txs n; n_asks := n_asks n; mapRelay := mapRelay n; vRelayExpiration := vRelayExpiration n;
     n_manager := n_manager n; n_clock := n_clock n; cPeerBlockCounts := cPeerBlockCounts n; setBanned := m; n_local := n_local n;
     nLocalHostNonce := nLocalHostNonce n; nLastRebroadcast := nLastRebroadcast n; ibd_last := ibd_last n; wallet_calls := wallet_calls n; vNodes := vNodes n |}.
Definition put_local (l : local_hosts) (nonce : Z) n : net V :=
  {| n_chain := n_chain n; n_blocks := n_blocks n; n_txs := n_txs n; n_asks := n_asks n; mapRelay := mapRelay n; vRelayExpiration := vRelayExpiration n;
     n_manager := n_manager n; n_clock := n_clock n; cPeerBlockCounts := cPeerBlockCounts n; setBanned := setBanned n; n_local := l;
     nLocalHostNonce := nonce; nLastRebroadcast := nLastRebroadcast n; ibd_last := ibd_last n; wallet_calls := wallet_calls n; vNodes := vNodes n |}.
Definition put_times (rebroadcast : Z) (ibd : option Z * Z) n : net V :=
  {| n_chain := n_chain n; n_blocks := n_blocks n; n_txs := n_txs n; n_asks := n_asks n; mapRelay := mapRelay n; vRelayExpiration := vRelayExpiration n;
     n_manager := n_manager n; n_clock := n_clock n; cPeerBlockCounts := cPeerBlockCounts n; setBanned := setBanned n; n_local := n_local n;
     nLocalHostNonce := nLocalHostNonce n; nLastRebroadcast := rebroadcast; ibd_last := ibd; wallet_calls := wallet_calls n; vNodes := vNodes n |}.
Definition call_wallets (l : list wallet_call) n : net V :=
  {| n_chain := n_chain n; n_blocks := n_blocks n; n_txs := n_txs n; n_asks := n_asks n; mapRelay := mapRelay n; vRelayExpiration := vRelayExpiration n;
     n_manager := n_manager n; n_clock := n_clock n; cPeerBlockCounts := cPeerBlockCounts n; setBanned := setBanned n; n_local := n_local n;
     nLocalHostNonce := nLocalHostNonce n; nLastRebroadcast := nLastRebroadcast n; ibd_last := ibd_last n; wallet_calls := wallet_calls n ++ l; vNodes := vNodes n |}.
Definition put_nodes (m : gmap Z peer) n : net V :=
  {| n_chain := n_chain n; n_blocks := n_blocks n; n_txs := n_txs n; n_asks := n_asks n; mapRelay := mapRelay n; vRelayExpiration := vRelayExpiration n;
     n_manager := n_manager n; n_clock := n_clock n; cPeerBlockCounts := cPeerBlockCounts n; setBanned := setBanned n; n_local := n_local n;
     nLocalHostNonce := nLocalHostNonce n; nLastRebroadcast := nLastRebroadcast n; ibd_last := ibd_last n; wallet_calls := wallet_calls n; vNodes := m |}.
(** a change of one peer *)
Definition on_peer (self : Z) (f : peer -> peer) n : net V := put_nodes (alter f self (vNodes n)) n.

(** what the parts of the state are read as *)
Definition idx_of n : gmap Z CBlockIndex := mapBlockIndex (nd (n_chain n)).
Definition best_of n : option Z := pindexBest (nd (n_chain n)).
Definition adjusted n (now : Z) : Z := GetAdjustedTime now (n_clock n).
End Setters.

Section Net.
Context {V : Type} {CV : CoinsView V} {B : OpenSSLBN} {K : Crypto} (st : net_settings) (rand : nat -> Z).
Implicit Types n : net V.
Abbreviation genesis_hash := (p_hashGenesisBlock (b_params (s_node st))).

(** ** The state of the download *)

Definition GetNumBlocksOfPeers n : option Z := median (cPeerBlockCounts n).
Definition IsInitialBlockDownload (now : Z) n : bool * net V :=
  match best_of n with
  | None => (true, n)
  | Some h =>
    if fImporting st || fReindex st then (true, n)
    else
      let n := if bool_decide (best_of n = (ibd_last n).1) then n else put_times (nLastRebroadcast n) (best_of n, now) n in
      ((now - (ibd_last n).2 <? 10) && (default 0 (index_GetBlockTime <$> idx_of n !! h) <? now - 24 * 60 * 60), n)
  end.

(** ** Misbehaviour *)

Definition punish (self : Z) (now howmuch : Z) n : option (net V) :=
  let? p := vNodes n !! self in
  let '(_, p, banned) := Misbehaving (nBanScore st) (nBanTime st) now howmuch p (setBanned n) in
  Some (put_banned banned (put_nodes (<[self := p]> (vNodes n)) n)).

(** ** Addresses *)

Definition with_local_addr (s : CService) (g : greeting) : greeting :=
  {| g_addr := g_addr g; nVersion := nVersion g; Peer.nServices := Peer.nServices g; addrLocal := s; strSubVer := strSubVer g; cleanSubVer := cleanSubVer g;
     nStartingHeight := nStartingHeight g; fOneShot := fOneShot g; fClient := fClient g; fInbound := fInbound g; fNetworkNode := fNetworkNode g;
     fSuccessfullyConnected := fSuccessfullyConnected g; fRelayTxes := fRelayTxes g; nSendVersion := nSendVersion g; nRecvVersion := nRecvVersion g |}.
(** [GetLocalAddress(&pnode->addr)] *)
Definition local_address (now : Z) n (p : peer) : CAddress :=
  GetLocalAddress (fNoListen st) (nLocalServices st) (adjusted n now) (Some (s_ip (a_service (g_addr (p_greeting p))))) (n_local n).
Definition AdvertizeLocal (now : Z) n : net V :=
  put_nodes ((fun p : peer =>
    if fSuccessfullyConnected (p_greeting p) then
      let a := local_address now n p in
      if IsRoutable (s_ip (a_service a)) && negb (bool_decide (a_service a = addrLocal (p_greeting p)))
      then with_greeting (with_local_addr (a_service a)) (with_addrs (PushAddress a) p)
      else p
    else p) <$> vNodes n) n.
Definition AddLocal (fDiscover : bool) (now : Z) (addr : CService) (score : Z) n : bool * net V :=
  let '(ok, l) := add_local fDiscover addr score (n_local n) in
  (ok, if ok then AdvertizeLocal now (put_local l (nLocalHostNonce n) n) else n).
Definition SeenLocal (now : Z) (addr : CService) n : bool * net V :=
  let '(ok, l) := seen_local addr (n_local n) in
  (ok, if ok then AdvertizeLocal now (put_local l (nLocalHostNonce n) n) else n).

(** the random number becomes the nonce of this node *)
Definition PushVersion (self now nonce : Z) n : option (net V) :=
  let? p := vNodes n !! self in
  let g := p_greeting p in
  let nTime := if fInbound g then adjusted n now else now in
  let addrYou := if IsRoutable (s_ip (a_service (g_addr g))) then g_addr g else address_Init null_service in
  let m := MVersion {| v_nVersion := PROTOCOL_VERSION; v_nServices := nLocalServices st; v_nTime := nTime; v_addrYou := addrYou; v_addrMe := local_address now n p;
                       v_nNonce := nonce; v_strSubVer := FormatSubVersion st; v_nStartingHeight := nBestHeight (nd (n_chain n)) |} in
  Some (put_local (n_local n) nonce (on_peer self (PushMessage m) n)).

(** the peers an address is relayed to: those with the smallest hashes of this day, of which the pointer is a part *)
Definition relay_key (addr : CAddress) (now ptr : Z) : Z :=
  let hashAddr := addr_GetHash (s_ip (a_service addr)) in
  let day := u64 (now + hashAddr) / (24 * 60 * 60) in
  let hashRand := Hash (uint256_bytes (Z.lxor (Z.lxor (hashSalt st) (u64 (Z.shiftl hashAddr 32))) day)) in
  Hash (uint256_bytes (Z.lxor hashRand (u32 ptr))).
Definition mapMix (addr : CAddress) (now : Z) n : list (Z * Z) :=
  foldl (fun m e => if nVersion (p_greeting e.2) <? CADDR_TIME_VERSION then m else Lim.rmap_insert (relay_key addr now e.1) e.1 m) [] (map_to_list (vNodes n)).
Definition relay_address (addr : CAddress) (fReachable : bool) (now : Z) n : net V :=
  let chosen := take (if fReachable then 2 else 1) (mapMix addr now n) in
  foldl (fun n e => on_peer e.2 (with_addrs (PushAddress addr)) n) n chosen.

(** ** Transactions *)

(** the messages to relay that are too old are forgotten *)
Fixpoint expire (now : Z) (e : list (Z * CInv)) (m : gmap CInv CTransaction) : list (Z * CInv) * gmap CInv CTransaction :=
  match e with
  | (t, inv) :: r => if t <? now then expire now r (delete inv m) else (e, m)
  | [] => ([], m)
  end.
Definition relay_to (tx : CTransaction) (hash : Z) (p : peer) : option peer :=
  if negb (fRelayTxes (p_greeting p)) then Some p
  else
    let? (relevant, f) := IsRelevantAndUpdate tx hash (pfilter p) in
    let p := with_filter f p in
    Some (if relevant : bool then with_invs (PushInventory (MSG_TX, hash) (p_invs p)) p else p).
(** the same for each of the peers *)
Definition for_nodes (f : peer -> option peer) (m : gmap Z peer) : option (gmap Z peer) :=
  foldr (fun e r => let? r := r in let? p := f e.2 in Some (<[e.1 := p]> r)) (Some m) (map_to_list m).
Definition RelayTransaction (now : Z) (tx : CTransaction) (hash : Z) n : option (net V) :=
  let inv := (MSG_TX, hash) in
  let '(e, m) := expire now (vRelayExpiration n) (mapRelay n) in
  let m := if bool_decide (is_Some (m !! inv)) then m else <[inv := tx]> m in
  let? nodes := for_nodes (relay_to tx hash) (vNodes n) in
  Some (put_nodes nodes (put_relay m (e ++ [(now + 15 * 60, inv)]) n)).
Fixpoint relay_all (now : Z) (l : list (Z * CTransaction)) n : option (net V) :=
  match l with [] => Some n | (h, tx) :: r => let? w := RelayTransaction now tx h n in relay_all now r w end.

(** ** What the node has *)

Definition AlreadyHave (inv : CInv) n : bool * net V :=
  if inv.1 =? MSG_TX then
    if exists_tx (c_pool (n_chain n)) inv.2 || bool_decide (is_Some (mapOrphanTransactions (n_txs n) !! inv.2)) then (true, n)
    else
      let '(b, v) := HaveCoins (pcoinsTip (n_chain n)) inv.2 in
      (b, put_chain {| nd := nd (n_chain n); pcoinsTip := v; c_pool := c_pool (n_chain n) |} n)
  else if inv.1 =? MSG_BLOCK then (bool_decide (is_Some (idx_of n !! inv.2)) || bool_decide (is_Some (mapOrphanBlocks (n_blocks n) !! inv.2)), n)
  else (true, n).

(** ** SendMessages *)

(** the address of this node is told again after a day *)
Definition refresh (now : Z) n : net V :=
  put_times now (ibd_last n)
    (put_nodes ((fun p =>
       let p := if nLastRebroadcast n =? 0 then p
                else with_addrs (fun a => {| vAddrToSend := vAddrToSend a; setAddrKnown := ∅; fGetAddr := fGetAddr a |}) p in
       if fNoListen st then p
       else let a := local_address now n p in if IsRoutable (s_ip (a_service a)) then with_addrs (PushAddress a) p else p) <$> vNodes n) n).
(** what the requests that are due find; that they fill the cache of the coins is left out *)
Definition have n (inv : CInv) : bool := (AlreadyHave inv n).1.
Definition SendMessages (fSendTrickle idle : bool) (nLastSend now self : Z) n : option (net V) :=
  let? p := vNodes n !! self in
  if nVersion (p_greeting p) =? 0 then Some n
  else
    let n := on_peer self (fun p => start_sync (idx_of n) genesis_hash (best_of n) (fImporting st || fReindex st) (keep_alive idle nLastSend now p)) n in
    let n := if fReindex st || fImporting st then n
                else let '(ibd, n) := IsInitialBlockDownload now n in if ibd then n else call_wallets [CallResend] n in
    let '(ibd, n) := IsInitialBlockDownload now n in
    let n := if negb ibd && (24 * 60 * 60 <? now - nLastRebroadcast n) then refresh now n else n in
    let? p := vNodes n !! self in
    let? p := send_invs (trickleSalt st) (own_tx st) fSendTrickle (send_addrs fSendTrickle p) in
    Some (put_nodes (<[self := send_requests (have n) now p]> (vNodes n)) n).
End Net.
