(* ===== verification/Handlers.v ===== *)
(** * The messages of a peer (main.cpp)

    [ProcessMessage]: one handler for each command, on the state of Net; [ProcessGetData], which answers the requests of a peer; and
    the blocks that are shown through a filter ([CMerkleBlock]).  The peer is named by its pointer [self].  A message that is too short makes a
    read throw ([Throw]): what was done before stays.  [None]: an assertion fails, a pointer to nothing is followed, a null index is created, a
    division by zero, or validation has no answer.

    The properties: no message can take the node down; the answers to "getblocks", "getheaders" and "getdata" are what the chain, the
    relayed transactions and the pool hold; and a greeting that is cut short counts as one. *)

From stdpp Require Import gmap sorting.
From Stdlib Require Import Strings.String.
From S2P Require Import Prelude OpenSSL BigNum Target PrimeChain Serialize Crypto Script Transaction ScriptEval ScriptStd Coins View Merkle Block BlockFile Chain Supply Connect Mempool Text Bloom NetAddr Limited Local Peer AddrMan Clock Best Accept OrphanTx Net.
Local Open Scope Z_scope.

(** the bytes of a command *)
Definition cmd (s : string) : bytes := map (fun c => Z.of_nat (Ascii.nat_of_ascii c)) (list_ascii_of_string s).
Definition is_cmd (strCommand : bytes) (s : string) : bool := bool_decide (strCommand = cmd s).

Definition ser_CBlockLocator : codec (Z * list Z) := ser_pair (ser_sint 4) (ser_vector (ser_uint 32)).
Definition ser_CBloomFilter : codec CBloomFilter :=
  ser_iso (ser_tuple4 ser_vch (ser_uint 4) (ser_uint 4) (ser_uint 1)) (fun f => (vData f, nHashFuncs f, nTweak f, nFlags f))
    (fun '(d, h, t, fl) => {| vData := d; isFull := false; isEmpty := false; nHashFuncs := h; nTweak := t; nFlags := fl |}).

(** ** Blocks through a filter *)

Fixpoint match_txs (l : list CTransaction) (hs : list Z) (i : nat) (f : CBloomFilter) : option (list bool * list (nat * Z) * CBloomFilter) :=
  match l, hs with
  | tx :: l, hash :: hs =>
    let? (relevant, f) := IsRelevantAndUpdate tx hash f in
    let? (vMatch, matched, f) := match_txs l hs (S i) f in
    Some (relevant :: vMatch, if relevant : bool then (i, hash) :: matched else matched, f)
  | _, _ => Some ([], [], f)
  end.

Section Merkleblock.
Context {B : OpenSSLBN} {K : Crypto}.
Definition new_CMerkleBlock (b : CBlock) (f : CBloomFilter) : option (CMerkleBlock * CBloomFilter) :=
  let? (vMatch, matched, f) := match_txs (vtx b) (txids b) 0 f in
  let? t := new_partial_tree (txids b) vMatch in
  Some ({| mb_header := GetBlockHeader b; mb_txn := t; vMatchedTxn := matched |}, f).
End Merkleblock.

(** ** The answers to requests *)

Section GetData.
Context {V : Type} {B : OpenSSLBN} {K : Crypto} (st : net_settings).
(** what is in a block after it could not be read *)
Context (unread : Z -> storage -> CBlock).

Definition read_index (hash : Z) (pi : CBlockIndex) (s : storage) : CBlock * storage :=
  let '(r, s') := ReadFromDisk_index hash (GetBlockPos pi) s in (default (unread hash s) r, s').

(** the transactions of a filtered block that the peer does not know *)
Definition matched_txs (b : CBlock) (matched : list (nat * Z)) (known : Mru.mruset CInv) : list net_message :=
  omap (fun x => if Mru.count (MSG_TX, x.2) known then None else MTx <$> vtx b !! x.1) matched.
Definition push_block (inv : CInv) (b : CBlock) (p : peer) : option peer :=
  if inv.1 =? MSG_BLOCK then Some (PushMessage (MBlock b) p)
  else
    let? (mb, f) := new_CMerkleBlock b (pfilter p) in
    let p := PushMessage (MMerkleblock mb) (with_filter f p) in
    Some (set_out (p_out p ++ matched_txs b (vMatchedTxn mb) (setInventoryKnown (p_invs p))) p).
(** after the last block of a batch the peer is told of the best block, so that it asks for the next batch *)
Definition continue_batch (hash hashBestChain : Z) (p : peer) : peer :=
  if hash =? hashContinue (p_sync p) then
    with_sync (fun s => {| hashContinue := 0; pindexLastGetBlocksBegin := pindexLastGetBlocksBegin s; hashLastGetBlocksEnd := hashLastGetBlocksEnd s;
                           fStartSync := fStartSync s; vRecvGetData := vRecvGetData s |}) (PushMessage (MInv [(MSG_BLOCK, hashBestChain)]) p)
  else p.
Definition is_block_request (inv : CInv) : bool := (inv.1 =? MSG_BLOCK) || (inv.1 =? MSG_FILTERED_BLOCK).

(** one request; [true]: nothing was found *)
Definition get_one (inv : CInv) (n : net V) (p : peer) (s : storage) : option (peer * storage * bool) :=
  if is_block_request inv then
    match idx_of n !! inv.2 with
    | None => Some (p, s, false)
    | Some pi =>
      let '(b, s) := read_index inv.2 pi s in
      let? p := push_block inv b p in
      Some (continue_batch inv.2 (hashBestChain (nd (n_chain n))) p, s, false)
    end
  else if IsKnownType inv then
    match mapRelay n !! inv with
    | Some tx => let? c := inv_GetCommand inv in Some (PushMessage (MStream c (Serialize ser_CTransaction tx)) p, s, false)
    | None =>
      if inv.1 =? MSG_TX then
        match mapTx (c_pool (n_chain n)) !! inv.2 with Some tx => Some (PushMessage (MTx tx) p, s, false) | None => Some (p, s, true) end
      else Some (p, s, true)
    end
  else Some (p, s, false).
(** the requests that are left, those that were not found, and the calls into the wallets *)
Fixpoint get_loop (it : list CInv) (vNotFound : list CInv) (calls : list wallet_call) (n : net V) (p : peer) (s : storage)
    : option (list CInv * list CInv * list wallet_call * peer * storage) :=
  match it with
  | [] => Some ([], vNotFound, calls, p, s)
  | inv :: r =>
    if buffer_full st (p_out p) then Some (it, vNotFound, calls, p, s)
    else
      let? (p, s, missing) := get_one inv n p s in
      let vNotFound := if missing : bool then vNotFound ++ [inv] else vNotFound in
      let calls := calls ++ [CallInventory inv.2] in
      if is_block_request inv then Some (r, vNotFound, calls, p, s) else get_loop r vNotFound calls n p s
  end.
Definition with_getdata (l : list CInv) : peer -> peer :=
  with_sync (fun s => {| hashContinue := hashContinue s; pindexLastGetBlocksBegin := pindexLastGetBlocksBegin s; hashLastGetBlocksEnd := hashLastGetBlocksEnd s;
                         fStartSync := fStartSync s; vRecvGetData := l |}).
Definition ProcessGetData (self : Z) (n : net V) : option (net V) :=
  let? p := vNodes n !! self in
  let? (rest, vNotFound, calls, p, s) := get_loop (vRecvGetData (p_sync p)) [] [] n p (disk (nd (n_chain n))) in
  let p := with_getdata rest p in
  let p := set_out (flush MNotfound vNotFound (p_out p)) p in
  let c := n_chain n in
  Some (call_wallets calls (put_chain (set_nd (set_disk s (nd c)) c) (put_nodes (<[self := p]> (vNodes n)) n))).
End GetData.

(** ** The chain *)

(** the blocks after one, up to [hashStop] (which is not told) and at most [nLimit]; and whether the limit stopped *)
Fixpoint next_hashes (nLimit : nat) (idx : gmap Z CBlockIndex) (p : option Z) (hashStop : Z) : list Z * bool :=
  match nLimit, p with
  | S n, Some h =>
    if h =? hashStop then ([], false)
    else match n with O => ([h], true) | _ => let '(l, b) := next_hashes n idx (next_of idx p) hashStop in (h :: l, b) end
  | _, _ => ([], false)
  end.
Definition getblocks (idx : gmap Z CBlockIndex) (best genesis : option Z) (vHave : list Z) (hashStop : Z) (p : peer) : peer :=
  let start := next_of idx (locator_GetBlockIndex idx best genesis vHave) in
  let '(l, limited) := next_hashes 500 idx start hashStop in
  let p := with_invs (foldl (fun i h => PushInventory (MSG_BLOCK, h) i) (p_invs p) l) p in
  match limited, last l with
  | true, Some h => with_sync (fun s => {| hashContinue := h; pindexLastGetBlocksBegin := pindexLastGetBlocksBegin s; hashLastGetBlocksEnd := hashLastGetBlocksEnd s;
                                           fStartSync := fStartSync s; vRecvGetData := vRecvGetData s |}) p
  | _, _ => p
  end.
Fixpoint next_headers (nLimit : nat) (idx : gmap Z CBlockIndex) (p : option Z) (hashStop : Z) : list CBlock :=
  match nLimit, p with
  | S n, Some h =>
    match idx !! h with
    | None => []
    | Some pi => block_of_header (index_GetBlockHeader idx pi) :: (if h =? hashStop then [] else next_headers n idx (pnext pi) hashStop)
    end
  | _, _ => []
  end.
Definition getheaders (idx : gmap Z CBlockIndex) (best genesis : option Z) (vHave : list Z) (hashStop : Z) (p : peer) : peer :=
  match vHave with
  | [] => if bool_decide (is_Some (idx !! hashStop)) then PushMessage (MHeaders (next_headers 2000 idx (Some hashStop) hashStop)) p else p
  | _ => PushMessage (MHeaders (next_headers 2000 idx (next_of idx (locator_GetBlockIndex idx best genesis vHave)) hashStop)) p
  end.

(** ** The greeting *)

Definition put_version (v : Z) (g : greeting) : greeting :=
  {| g_addr := g_addr g; nVersion := v; nServices := nServices g; addrLocal := addrLocal g; strSubVer := strSubVer g; cleanSubVer := cleanSubVer g;
     nStartingHeight := nStartingHeight g; fOneShot := fOneShot g; fClient := fClient g; fInbound := fInbound g; fNetworkNode := fNetworkNode g;
     fSuccessfullyConnected := fSuccessfullyConnected g; fRelayTxes := fRelayTxes g; nSendVersion := nSendVersion g; nRecvVersion := nRecvVersion g |}.
Definition put_services (v : Z) (g : greeting) : greeting :=
  {| g_addr := g_addr g; nVersion := nVersion g; nServices := v; addrLocal := addrLocal g; strSubVer := strSubVer g; cleanSubVer := cleanSubVer g;
     nStartingHeight := nStartingHeight g; fOneShot := fOneShot g; fClient := fClient g; fInbound := fInbound g; fNetworkNode := fNetworkNode g;
     fSuccessfullyConnected := fSuccessfullyConnected g; fRelayTxes := fRelayTxes g; nSendVersion := nSendVersion g; nRecvVersion := nRecvVersion g |}.
Definition put_subver (v : bytes) (g : greeting) : greeting :=
  {| g_addr := g_addr g; nVersion := nVersion g; nServices := nServices g; addrLocal := addrLocal g; strSubVer := v; cleanSubVer := SanitizeString v;
     nStartingHeight := nStartingHeight g; fOneShot := fOneShot g; fClient := fClient g; fInbound := fInbound g; fNetworkNode := fNetworkNode g;
     fSuccessfullyConnected := fSuccessfullyConnected g; fRelayTxes := fRelayTxes g; nSendVersion := nSendVersion g; nRecvVersion := nRecvVersion g |}.
Definition put_height (v : Z) (g : greeting) : greeting :=
  {| g_addr := g_addr g; nVersion := nVersion g; nServices := nServices g; addrLocal := addrLocal g; strSubVer := strSubVer g; cleanSubVer := cleanSubVer g;
     nStartingHeight := v; fOneShot := fOneShot g; fClient := fClient g; fInbound := fInbound g; fNetworkNode := fNetworkNode g;
     fSuccessfullyConnected := fSuccessfullyConnected g; fRelayTxes := fRelayTxes g; nSendVersion := nSendVersion g; nRecvVersion := nRecvVersion g |}.
Definition put_relay_txes (v : bool) (g : greeting) : greeting :=
  {| g_addr := g_addr g; nVersion := nVersion g; nServices := nServices g; addrLocal := addrLocal g; strSubVer := strSubVer g; cleanSubVer := cleanSubVer g;
     nStartingHeight := nStartingHeight g; fOneShot := fOneShot g; fClient := fClient g; fInbound := fInbound g; fNetworkNode := fNetworkNode g;
     fSuccessfullyConnected := fSuccessfullyConnected g; fRelayTxes := v; nSendVersion := nSendVersion g; nRecvVersion := nRecvVersion g |}.
(** [fClient], what is sent from now on, and that the greeting is complete *)
Definition put_client (g : greeting) : greeting :=
  {| g_addr := g_addr g; nVersion := nVersion g; nServices := nServices g; addrLocal := addrLocal g; strSubVer := strSubVer g; cleanSubVer := cleanSubVer g;
     nStartingHeight := nStartingHeight g; fOneShot := fOneShot g; fClient := Z.land (nServices g) NODE_NETWORK =? 0; fInbound := fInbound g; fNetworkNode := fNetworkNode g;
     fSuccessfullyConnected := fSuccessfullyConnected g; fRelayTxes := fRelayTxes g; nSendVersion := nSendVersion g; nRecvVersion := nRecvVersion g |}.
Definition put_send_version (v : Z) (g : greeting) : greeting :=
  {| g_addr := g_addr g; nVersion := nVersion g; nServices := nServices g; addrLocal := addrLocal g; strSubVer := strSubVer g; cleanSubVer := cleanSubVer g;
     nStartingHeight := nStartingHeight g; fOneShot := fOneShot g; fClient := fClient g; fInbound := fInbound g; fNetworkNode := fNetworkNode g;
     fSuccessfullyConnected := fSuccessfullyConnected g; fRelayTxes := fRelayTxes g; nSendVersion := v; nRecvVersion := nRecvVersion g |}.
Definition put_recv_version (v : Z) (g : greeting) : greeting :=
  {| g_addr := g_addr g; nVersion := nVersion g; nServices := nServices g; addrLocal := addrLocal g; strSubVer := strSubVer g; cleanSubVer := cleanSubVer g;
     nStartingHeight := nStartingHeight g; fOneShot := fOneShot g; fClient := fClient g; fInbound := fInbound g; fNetworkNode := fNetworkNode g;
     fSuccessfullyConnected := fSuccessfullyConnected g; fRelayTxes := fRelayTxes g; nSendVersion := nSendVersion g; nRecvVersion := v |}.
Definition put_connected (g : greeting) : greeting :=
  {| g_addr := g_addr g; nVersion := nVersion g; nServices := nServices g; addrLocal := addrLocal g; strSubVer := strSubVer g; cleanSubVer := cleanSubVer g;
     nStartingHeight := nStartingHeight g; fOneShot := fOneShot g; fClient := fClient g; fInbound := fInbound g; fNetworkNode := fNetworkNode g;
     fSuccessfullyConnected := true; fRelayTxes := fRelayTxes g; nSendVersion := nSendVersion g; nRecvVersion := nRecvVersion g |}.

(** what the reading of a "version" message comes to; the fields that were read are in the greeting *)
Inductive version_read := TooShort | Obsolete | Greeted (nTime : Z) (addrMe addrFrom : CAddress) (nNonce : Z).
(** [CAddress()] *)
Definition default_address : CAddress := address_Init service_Init.
Definition read_version (vRecv : bytes) (g : greeting) : greeting * version_read :=
  let ser_addr := ser_CAddress_net (nRecvVersion g) in
  match Unserialize (ser_sint 4) vRecv with
  | None => (g, TooShort)
  | Some (v, s) =>
    let g := put_version v g in
    match Unserialize (ser_uint 8) s with
    | None => (g, TooShort)
    | Some (services, s) =>
      let g := put_services services g in
      match Unserialize (ser_pair (ser_sint 8) ser_addr) s with
      | None => (g, TooShort)
      | Some ((nTime, addrMe), s) =>
        if v <? MIN_PROTO_VERSION then (g, Obsolete)
        else
          let g := if v =? 10300 then put_version 300 g else g in
          match (match s with [] => Some (default_address, 1, s) | _ =>
                   let? (r, s) := Unserialize (ser_pair ser_addr (ser_uint 8)) s in Some (r.1, r.2, s) end) with
          | None => (g, TooShort)
          | Some (addrFrom, nNonce, s) =>
            match (match s with [] => Some (g, s) | _ => let? (sub, s) := Unserialize ser_string s in Some (put_subver sub g, s) end) with
            | None => (g, TooShort)
            | Some (g, s) =>
              match (match s with [] => Some (g, s) | _ => let? (h, s) := Unserialize (ser_sint 4) s in Some (put_height h g, s) end) with
              | None => (g, TooShort)
              | Some (g, s) =>
                match (match s with [] => Some true | _ => let? (r, _) := Unserialize ser_bool s in Some r end) with
                | None => (g, TooShort)
                | Some relay => (put_relay_txes relay g, Greeted nTime addrMe addrFrom nNonce)
                end
              end
            end
          end
      end
    end
  end.

(** ** The handlers *)

(** a handler runs to the end of [ProcessMessage], returns early, or a read throws *)
Inductive handled := Done | Returned (b : bool) | Thrown.

Section Process.
Context {V : Type} {CV : CoinsView V} {B : OpenSSLBN} {K : Crypto} {E : CacheEnv} (st : net_settings) (rand : nat -> Z).
Context (unread : Z -> storage -> CBlock) (fuel : nat) (rnd : nat -> Z).
Abbreviation nst := (s_node st).
Abbreviation genesis_hash := (p_hashGenesisBlock (b_params nst)).
Abbreviation result := (option (handled * net V)).
Definition ok (w : net V) : result := Some (Done, w).
Definition leave (w : net V) : result := Some (Returned true, w).
Definition fail (w : net V) : result := Some (Returned false, w).
Definition ip_of (p : peer) : CNetAddr := s_ip (a_service (g_addr (p_greeting p))).

(** the parts of "version" after the fields were read; the nonce of the answer is random *)
Definition greet (self now nonce nTime : Z) (addrMe addrFrom : CAddress) (nNonce : Z) (n : net V) : result :=
  let? p := vNodes n !! self in
  let n := if fInbound (p_greeting p) && IsRoutable (s_ip (a_service addrMe))
           then (SeenLocal st now (a_service addrMe) (on_peer self (with_greeting (with_local_addr (a_service addrMe))) n)).2 else n in
  if (nNonce =? nLocalHostNonce n) && (1 <? nNonce) then leave (on_peer self disconnect n)
  else
    let? n := if fInbound (p_greeting p) then PushVersion st self now nonce n else Some n in
    let n := on_peer self (with_greeting put_client) n in
    let? c := AddTimeData (ip_of p) nTime now (n_clock n) in
    let n := put_clock c n in
    let n := on_peer self (fun p => with_greeting (fun g => put_send_version (Z.min (nVersion g) PROTOCOL_VERSION) g) (PushMessage MVerack p)) n in
    let? n :=
      if negb (fInbound (p_greeting p)) then
        let '(ibd, n) := if fNoListen st then (true, n) else IsInitialBlockDownload st now n in
        let n := if ibd then n
                 else let a := local_address st now n p in if IsRoutable (s_ip (a_service a)) then on_peer self (with_addrs (PushAddress a)) n else n in
        let n := if fOneShot (p_greeting p) || (CADDR_TIME_VERSION <=? nVersion (p_greeting p)) || (Z.of_nat (length (vRandom (n_manager n))) <? 1000)
                 then on_peer self (fun p => with_addrs (fun a => {| vAddrToSend := vAddrToSend a; setAddrKnown := setAddrKnown a; fGetAddr := true |}) (PushMessage MGetaddr p)) n
                 else n in
        let? m := Good_ rand (a_service (g_addr (p_greeting p))) (adjusted n now) (n_manager n) in
        Some (put_manager m n)
      else if bool_decide (ip_of p = s_ip (a_service addrFrom)) then
        let? (_, m) := Add_ rand addrFrom (s_ip (a_service addrFrom)) 0 (adjusted n now) (n_manager n) in
        let? m := Good_ rand (a_service addrFrom) (adjusted n now) m in
        Some (put_manager m n)
      else Some n in
    let n := on_peer self (with_greeting put_connected) n in
    ok (put_counts (input (nStartingHeight (p_greeting p)) (cPeerBlockCounts n)) n).
Definition on_version (self now nonce : Z) (vRecv : bytes) (n : net V) : result :=
  let? p := vNodes n !! self in
  let '(g, r) := read_version vRecv (p_greeting p) in
  let n := on_peer self (with_greeting (fun _ => g)) n in
  match r with
  | TooShort => Some (Thrown, n)
  | Obsolete => fail (on_peer self disconnect n)
  | Greeted nTime addrMe addrFrom nNonce => greet self now nonce nTime addrMe addrFrom nNonce n
  end.

(** "addr": each address is remembered as known to the peer, relayed when it is fresh, and stored when it can be reached *)
Fixpoint addr_each (self now nNow : Z) (few : bool) (l : list CAddress) (vAddrOk : list CAddress) (n : net V) : option (list CAddress * net V) :=
  match l with
  | [] => Some (vAddrOk, n)
  | addr :: r =>
    let addr := if (a_nTime addr <=? 100000000) || (nNow + 10 * 60 <? a_nTime addr)
                then {| a_service := a_service addr; NetAddr.nServices := NetAddr.nServices addr; a_nTime := u32 (nNow - 5 * 24 * 60 * 60); nLastTry := nLastTry addr |} else addr in
    let n := on_peer self (with_addrs (AddAddressKnown addr)) n in
    let fReachable := IsReachable (s_ip (a_service addr)) (n_local n) in
    let? p := vNodes n !! self in
    let n := if (nNow - 10 * 60 <? a_nTime addr) && negb (fGetAddr (p_addrs p)) && few && IsRoutable (s_ip (a_service addr))
             then relay_address st addr fReachable now n else n in
    addr_each self now nNow few r (if fReachable then vAddrOk ++ [addr] else vAddrOk) n
  end.
Definition on_addr (self now : Z) (vRecv : bytes) (n : net V) : result :=
  let? p := vNodes n !! self in
  match Unserialize (ser_vector (ser_CAddress_net (nRecvVersion (p_greeting p)))) vRecv with
  | None => Some (Thrown, n)
  | Some (vAddr, _) =>
    if (nVersion (p_greeting p) <? CADDR_TIME_VERSION) && (1000 <? Z.of_nat (length (vRandom (n_manager n)))) then leave n
    else if bool_decide (1000 < length vAddr)%nat then let? n := punish st self now 20 n in fail n
    else
      let? (vAddrOk, n) := addr_each self now (adjusted n now) (bool_decide (length vAddr <= 10)%nat) vAddr [] n in
      let? (_, m) := Add_all rand vAddrOk (ip_of p) (2 * 60 * 60) (adjusted n now) (n_manager n) in
      let n := put_manager m n in
      let n := if bool_decide (length vAddr < 1000)%nat
               then on_peer self (with_addrs (fun a => {| vAddrToSend := vAddrToSend a; setAddrKnown := setAddrKnown a; fGetAddr := false |})) n else n in
      ok (if fOneShot (p_greeting p) then on_peer self disconnect n else n)
  end.

(** the position of the last block, if any *)
Definition last_block (vInv : list CInv) : option nat :=
  foldl (fun r x => if x.2.1 =? MSG_BLOCK then Some x.1 else r) None (imap pair vInv).
Definition known_inv (inv : CInv) (p : peer) : option peer := let? i := AddInventoryKnown inv (p_invs p) in Some (with_invs i p).
Definition update_peer_opt (self : Z) (f : peer -> option peer) (n : net V) : option (net V) :=
  let? p := vNodes n !! self in let? p := f p in Some (put_nodes (<[self := p]> (vNodes n)) n).
Definition ask (self now : Z) (inv : CInv) (n : net V) : option (net V) :=
  let? p := vNodes n !! self in
  let? (s, i) := AskFor inv now (n_asks n) (p_invs p) in
  Some (put_asks s (put_nodes (<[self := with_invs i p]> (vNodes n)) n)).
Definition inv_one (self now : Z) (nLastBlock : option nat) (nInv : nat) (inv : CInv) (n : net V) : option (net V) :=
  let? n := update_peer_opt self (known_inv inv) n in
  let '(fAlreadyHave, n) := AlreadyHave inv n in
  let? n :=
    if negb fAlreadyHave then (if negb (fImporting st) && negb (fReindex st) then ask self now inv n else Some n)
    else
      match (if inv.1 =? MSG_BLOCK then mapOrphanBlocks (n_blocks n) !! inv.2 else None) with
      | Some b =>
        let? root := GetOrphanRoot (n_blocks n) b in
        Some (on_peer self (PushGetBlocks (idx_of n) genesis_hash (best_of n) root) n)
      | None =>
        if bool_decide (nLastBlock = Some nInv) then
          let? _ := idx_of n !! inv.2 in
          Some (on_peer self (PushGetBlocks (idx_of n) genesis_hash (Some inv.2) 0) n)
        else Some n
      end in
  Some (call_wallets [CallInventory inv.2] n).
Fixpoint inv_each (self now : Z) (nLastBlock : option nat) (nInv : nat) (l : list CInv) (n : net V) : option (net V) :=
  match l with [] => Some n | inv :: r => let? w := inv_one self now nLastBlock nInv inv n in inv_each self now nLastBlock (S nInv) r w end.
Definition on_inv (self now : Z) (vRecv : bytes) (n : net V) : result :=
  match Unserialize (ser_vector ser_CInv) vRecv with
  | None => Some (Thrown, n)
  | Some (vInv, _) =>
    if bool_decide (MAX_INV_SZ < length vInv)%nat then let? n := punish st self now 20 n in fail n
    else let? n := inv_each self now (last_block vInv) 0 vInv n in ok n
  end.
Definition on_getdata (self now : Z) (vRecv : bytes) (n : net V) : result :=
  match Unserialize (ser_vector ser_CInv) vRecv with
  | None => Some (Thrown, n)
  | Some (vInv, _) =>
    if bool_decide (MAX_INV_SZ < length vInv)%nat then let? n := punish st self now 20 n in fail n
    else
      let n := on_peer self (fun p => with_getdata (vRecvGetData (p_sync p) ++ vInv) p) n in
      let? n := ProcessGetData st unread self n in ok n
  end.
(** "getblocks" and "getheaders" *)
Definition on_locator (f : gmap Z CBlockIndex -> option Z -> option Z -> list Z -> Z -> peer -> peer) (self : Z) (vRecv : bytes) (n : net V) : result :=
  match Unserialize (ser_pair ser_CBlockLocator (ser_uint 32)) vRecv with
  | None => Some (Thrown, n)
  | Some ((_, vHave, hashStop), _) => ok (on_peer self (f (idx_of n) (best_of n) (pindexGenesisBlock (nd (n_chain n))) vHave hashStop) n)
  end.

Definition punish_score (self now nDoS : Z) (n : net V) : option (net V) := if 0 <? nDoS then punish st self now nDoS n else Some n.
Definition on_tx (self now : Z) (vRecv : bytes) (n : net V) : result :=
  match Unserialize ser_CTransaction vRecv with
  | None => Some (Thrown, n)
  | Some (tx, _) =>
    let? n := update_peer_opt self (known_inv (MSG_TX, GetHash tx)) n in
    let? (score, relay, o, a, c) := tx_message nst fuel rnd tx (n_txs n) (mapAlreadyAskedFor (n_asks n)) (n_chain n) in
    let n := put_chain c (put_orphans (n_blocks n) o (put_asks {| mapAlreadyAskedFor := a; nLastTime := nLastTime (n_asks n) |} n)) in
    let? n := relay_all now relay n in
    let? n := punish_score self now score n in ok n
  end.
Definition on_block (self now : Z) (vRecv : bytes) (n : net V) : result :=
  match Unserialize ser_CBlock vRecv with
  | None => Some (Thrown, n)
  | Some (b, _) =>
    let inv := (MSG_BLOCK, block_GetHash b) in
    let? n := update_peer_opt self (known_inv inv) n in
    let? (r, root, state, o, c) := ProcessBlock nst fuel true b None new_state (n_blocks n) (n_chain n) in
    let n := put_chain c (put_orphans o (n_txs n) n) in
    let n := match root with Some h => on_peer self (PushGetBlocks (idx_of n) genesis_hash (best_of n) h) n | None => n end in
    match r with
    | Throw => Some (Thrown, n)
    | Ret accepted =>
      let? a := if accepted || corruptionPossible state then Lim.erase inv (mapAlreadyAskedFor (n_asks n)) else Some (mapAlreadyAskedFor (n_asks n)) in
      let n := put_asks {| mapAlreadyAskedFor := a; nLastTime := nLastTime (n_asks n) |} n in
      let? n := punish_score self now (if state_IsInvalid state then nDoS state else 0) n in ok n
    end
  end.

Definition on_getaddr (self : Z) (n : net V) : result :=
  let? (l, m) := GetAddr_ rand (n_manager n) in
  let n := put_manager m n in
  ok (on_peer self (with_addrs (fun a => foldl (fun a addr => PushAddress addr a) {| vAddrToSend := []; setAddrKnown := setAddrKnown a; fGetAddr := fGetAddr a |} l)) n).

(** "mempool": the transactions of the pool that the filter lets through, at most MAX_INV_SZ *)
Fixpoint pool_invs (l : list Z) (pool : CTxMemPool) (vInv : list CInv) (f : CBloomFilter) : option (list CInv * CBloomFilter) :=
  match l with
  | [] => Some (vInv, f)
  | hash :: r =>
    let? tx := mapTx pool !! hash in
    let? (relevant, f) := IsRelevantAndUpdate tx hash f in
    let vInv := if relevant : bool then vInv ++ [(MSG_TX, hash)] else vInv in
    if bool_decide (length vInv = MAX_INV_SZ) then Some (vInv, f) else pool_invs r pool vInv f
  end.
Definition tell_pool (pool : CTxMemPool) (p : peer) : option peer :=
  let? (vInv, f) := pool_invs (queryHashes pool) pool [] (pfilter p) in
  Some (set_out (flush MInv vInv (p_out p)) (with_filter f p)).

Definition on_ping (self : Z) (vRecv : bytes) (n : net V) : result :=
  let? p := vNodes n !! self in
  if BIP0031_VERSION <? nVersion (p_greeting p) then
    match Unserialize (ser_uint 8) vRecv with
    | None => Some (Thrown, n)
    | Some (nonce, _) => ok (on_peer self (PushMessage (MPong nonce)) n)
    end
  else ok n.

Definition on_filterload (self now : Z) (vRecv : bytes) (n : net V) : result :=
  match Unserialize ser_CBloomFilter vRecv with
  | None => Some (Thrown, n)
  | Some (filter, _) =>
    let? n := if negb (IsWithinSizeConstraints filter) then punish st self now 100 n
              else Some (on_peer self (with_filter (UpdateEmptyFull filter)) n) in
    ok (on_peer self (with_greeting (put_relay_txes true)) n)
  end.
Definition add_to_filter (vData : bytes) (p : peer) : option peer := let? f := insert_key vData (pfilter p) in Some (with_filter f p).
Definition on_filteradd (self now : Z) (vRecv : bytes) (n : net V) : result :=
  match Unserialize ser_vch vRecv with
  | None => Some (Thrown, n)
  | Some (vData, _) =>
    let? n := if bool_decide (520 < length vData)%nat then punish st self now 100 n else update_peer_opt self (add_to_filter vData) n in ok n
  end.
Definition on_filterclear (self : Z) (n : net V) : result :=
  ok (on_peer self (fun p => with_greeting (put_relay_txes true) (with_filter full_filter p)) n).

(** [nonce]: the random nonce of a greeting *)
Definition handle (self now nonce : Z) (strCommand vRecv : bytes) (n : net V) : result :=
  let? p := vNodes n !! self in
  if is_cmd strCommand "version" then
    (if negb (nVersion (p_greeting p) =? 0) then let? n := punish st self now 1 n in fail n else on_version self now nonce vRecv n)
  else if nVersion (p_greeting p) =? 0 then let? n := punish st self now 1 n in fail n
  else if is_cmd strCommand "verack" then
    ok (on_peer self (with_greeting (fun g => put_recv_version (Z.min (nVersion g) PROTOCOL_VERSION) g)) n)
  else if is_cmd strCommand "addr" then on_addr self now vRecv n
  else if is_cmd strCommand "inv" then on_inv self now vRecv n
  else if is_cmd strCommand "getdata" then on_getdata self now vRecv n
  else if is_cmd strCommand "getblocks" then on_locator getblocks self vRecv n
  else if is_cmd strCommand "getheaders" then on_locator getheaders self vRecv n
  else if is_cmd strCommand "tx" then on_tx self now vRecv n
  else if is_cmd strCommand "block" && negb (fImporting st) && negb (fReindex st) then on_block self now vRecv n
  else if is_cmd strCommand "getaddr" then on_getaddr self n
  else if is_cmd strCommand "mempool" then let? n := update_peer_opt self (tell_pool (c_pool (n_chain n))) n in ok n
  else if is_cmd strCommand "ping" then on_ping self vRecv n
  else if is_cmd strCommand "filterload" then on_filterload self now vRecv n
  else if is_cmd strCommand "filteradd" then on_filteradd self now vRecv n
  else if is_cmd strCommand "filterclear" then on_filterclear self n
  else ok n.
(** the time of the address of the peer is brought up to date *)
Definition currently_connected (self now : Z) (strCommand : bytes) (n : net V) : option (net V) :=
  let? p := vNodes n !! self in
  Some (if fNetworkNode (p_greeting p) && existsb (is_cmd strCommand) ["version"; "addr"; "inv"; "getdata"; "ping"]%string
        then put_manager (Connected_ (a_service (g_addr (p_greeting p))) (adjusted n now) (n_manager n)) n else n).
Definition ProcessMessage (self now nonce : Z) (strCommand vRecv : bytes) (n : net V) : option (outcome * net V) :=
  let? (r, n) := handle self now nonce strCommand vRecv n in
  match r with
  | Done => let? n := currently_connected self now strCommand n in Some (Ret true, n)
  | Returned b => Some (Ret b, n)
  | Thrown => Some (Throw, n)
  end.
End Process.
