(* ===== verification/Protocol.v ===== *)
(** * What the protocol promises (main.cpp, net.h)

    Theorems about the handlers of Handlers.  [net_ok]: the containers of the node agree, every peer has a filter that can be used, and the
    blocks that wait are under their own hashes and each younger than its predecessor.  Every message keeps this, and none makes the node fail. *)

From stdpp Require Import gmap sorting.
From Stdlib Require Import Strings.String.
From S2P Require Import Prelude OpenSSL BigNum Target PrimeChain Serialize Crypto Script Transaction ScriptEval ScriptStd Coins View Merkle Block BlockFile Chain Supply Connect Mempool Text Bloom NetAddr Limited Local Peer AddrMan Clock Best Accept OrphanTx Net Handlers.
Local Open Scope Z_scope.

(** ** Invariants *)

Record peer_ok (p : peer) : Prop := {
  po_known : Mru.mruset_ok (setInventoryKnown (p_invs p));
  po_asks : by_time (mapAskFor (p_invs p));
  po_filter : usable (pfilter p);
}.
Lemma peer_ok_same (p q : peer) : p_invs q = p_invs p -> pfilter q = pfilter p -> peer_ok p -> peer_ok q.
Proof. intros H1 H2 [Ha Hb Hc]. split; by rewrite ?H1, ?H2. Qed.

Create HintDb peers discriminated.
Lemma greeting_ok f p : peer_ok p -> peer_ok (with_greeting f p).
Proof. by apply peer_ok_same. Qed.
Lemma addrs_ok f p : peer_ok p -> peer_ok (with_addrs f p).
Proof. by apply peer_ok_same. Qed.
Lemma sync_ok f p : peer_ok p -> peer_ok (with_sync f p).
Proof. by apply peer_ok_same. Qed.
Lemma misbehavior_ok n d c p : peer_ok p -> peer_ok (with_misbehavior n d c p).
Proof. by apply peer_ok_same. Qed.
Lemma push_ok m p : peer_ok p -> peer_ok (PushMessage m p).
Proof. by apply peer_ok_same. Qed.
Lemma out_ok l p : peer_ok p -> peer_ok (set_out l p).
Proof. by apply peer_ok_same. Qed.
Lemma disconnect_ok p : peer_ok p -> peer_ok (disconnect p).
Proof. by apply peer_ok_same. Qed.
Lemma filter_ok f p : usable f -> peer_ok p -> peer_ok (with_filter f p).
Proof. intros Hf [Ha Hb Hc]. by split. Qed.
Lemma push_inventory_ok inv p : peer_ok p -> peer_ok (with_invs (PushInventory inv (p_invs p)) p).
Proof. intros [Ha Hb Hc]. unfold PushInventory. case_if; by split. Qed.
Lemma full_usable : usable full_filter.
Proof. by left. Qed.
Lemma get_blocks_ok idx g b e p : peer_ok p -> peer_ok (PushGetBlocks idx g b e p).
Proof. intros H. unfold PushGetBlocks. case_if; [done|]. by apply push_ok, sync_ok. Qed.
#[export] Hint Resolve greeting_ok addrs_ok sync_ok misbehavior_ok push_ok out_ok disconnect_ok filter_ok push_inventory_ok full_usable get_blocks_ok : peers.

Lemma misbehaving_ok a b now h p m : peer_ok p -> let '(_, q, _) := Misbehaving a b now h p m in peer_ok q.
Proof. intros H. unfold Misbehaving, CloseSocketDisconnect. repeat case_if; auto with peers. Qed.
Lemma known_inv_ok inv p : peer_ok p -> exists q, known_inv inv p = Some q /\ peer_ok q.
Proof.
  intros [Ha Hb Hc]. unfold known_inv, AddInventoryKnown. destruct (Mru.mru_insert_spec inv _ Ha) as (m & -> & Hm & _). cbn [option_bind mbind].
  eexists. split; [done|]. by split.
Qed.
Lemma relevant_ok tx h f : usable f -> exists r f', IsRelevantAndUpdate tx h f = Some (r, f') /\ usable f'.
Proof.
  intros Hu. destruct (IsRelevantAndUpdate_spec tx h f Hu) as (r & f' & H1 & _ & _ & H2 & _). exists r, f'. split; [done|]. by apply (usable_shape f).
Qed.
Lemma relay_to_ok tx h p : peer_ok p -> exists q, relay_to tx h p = Some q /\ peer_ok q.
Proof.
  intros Hp. unfold relay_to. case_if; [by exists p|]. destruct (relevant_ok tx h (pfilter p) (po_filter _ Hp)) as (r & f & -> & Hf). cbn [option_bind mbind].
  eexists. split; [done|]. destruct r; auto with peers.
Qed.

Section NetOk.
Context {V : Type} {CV : CoinsView V} {B : OpenSSLBN} {K : Crypto} {E : CacheEnv} (st : net_settings) (rand : nat -> Z) {age : Z -> nat}.
Implicit Types n : net V.

(** [D]: the peers that are connected; [age]: an order of the blocks that were seen, in which a block comes after its predecessor *)
Record net_ok (D : gset Z) (w : net V) : Prop := {
  no_nodes : dom (vNodes w) = D;
  no_peers : map_Forall (fun _ => peer_ok) (vNodes w);
  no_asks : asks_ok (n_asks w);
  no_manager : manager_ok (n_manager w);
  no_clock : clock_ok (n_clock w);
  no_txs : orphans_ok (n_txs w);
  no_txs_size : Z.of_nat (size (mapOrphanTransactions (n_txs w))) <= MAX_ORPHAN_TRANSACTIONS;
  no_blocks : orphans_ranked age (n_blocks w);
}.

Lemma net_ok_peer D n self : net_ok D n -> self ∈ D -> exists p, vNodes n !! self = Some p /\ peer_ok p.
Proof.
  intros H Hs. rewrite <- (no_nodes _ _ H) in Hs. apply elem_of_dom in Hs as [p Hp]. exists p. split; [done|]. by apply (no_peers _ _ H self).
Qed.
Lemma put_nodes_ok D n m : net_ok D n -> dom m = D -> map_Forall (fun _ => peer_ok) m -> net_ok D (put_nodes m n).
Proof. intros [H1 H2 H3 H4 H5 H6 H7 H8] Hd Hm. by split. Qed.
Lemma put_peer_ok D n self p : net_ok D n -> self ∈ D -> peer_ok p -> net_ok D (put_nodes (<[self := p]> (vNodes n)) n).
Proof.
  intros H Hs Hp. apply put_nodes_ok; [done| |].
  - rewrite dom_insert_L, (no_nodes _ _ H). set_solver.
  - apply map_Forall_insert_2; [done|]. apply (no_peers _ _ H).
Qed.
Lemma on_peer_ok D n self f : net_ok D n -> (forall p, peer_ok p -> peer_ok (f p)) -> net_ok D (on_peer self f n).
Proof.
  intros H Hf. apply put_nodes_ok; [done| |].
  - rewrite dom_alter_L. apply (no_nodes _ _ H).
  - intros k p Hk. apply lookup_alter_Some in Hk as [(-> & q & Hq & ->)|[_ Hk]]; [apply Hf|]; by eapply (no_peers _ _ H).
Qed.
Lemma fmap_nodes_ok D n f : net_ok D n -> (forall p, peer_ok p -> peer_ok (f p)) -> net_ok D (put_nodes (f <$> vNodes n) n).
Proof.
  intros H Hf. apply put_nodes_ok; [done| |].
  - rewrite dom_fmap_L. apply (no_nodes _ _ H).
  - intros k p Hk. apply lookup_fmap_Some in Hk as (q & <- & Hq). apply Hf. by eapply (no_peers _ _ H).
Qed.
Lemma put_manager_ok D n m : net_ok D n -> manager_ok m -> net_ok D (put_manager m n).
Proof. intros [H1 H2 H3 H4 H5 H6 H7 H8] Hm. by split. Qed.
Lemma put_clock_ok D n c : net_ok D n -> clock_ok c -> net_ok D (put_clock c n).
Proof. intros [H1 H2 H3 H4 H5 H6 H7 H8] Hm. by split. Qed.
Lemma put_counts_ok D n c : net_ok D n -> net_ok D (put_counts c n).
Proof. intros [H1 H2 H3 H4 H5 H6 H7 H8]. by split. Qed.
Lemma put_banned_ok D n c : net_ok D n -> net_ok D (put_banned c n).
Proof. intros [H1 H2 H3 H4 H5 H6 H7 H8]. by split. Qed.
Lemma put_local_ok D n l c : net_ok D n -> net_ok D (put_local l c n).
Proof. intros [H1 H2 H3 H4 H5 H6 H7 H8]. by split. Qed.
Lemma put_times_ok D n a b : net_ok D n -> net_ok D (put_times a b n).
Proof. intros [H1 H2 H3 H4 H5 H6 H7 H8]. by split. Qed.
Lemma put_relay_ok D n a b : net_ok D n -> net_ok D (put_relay a b n).
Proof. intros [H1 H2 H3 H4 H5 H6 H7 H8]. by split. Qed.
Lemma put_chain_ok D n c : net_ok D n -> net_ok D (put_chain c n).
Proof. intros [H1 H2 H3 H4 H5 H6 H7 H8]. by split. Qed.
Lemma call_wallets_ok D n l : net_ok D n -> net_ok D (call_wallets l n).
Proof. intros [H1 H2 H3 H4 H5 H6 H7 H8]. by split. Qed.
Lemma put_asks_ok D n a : net_ok D n -> asks_ok a -> net_ok D (put_asks a n).
Proof. intros [H1 H2 H3 H4 H5 H6 H7 H8] Ha. by split. Qed.
Lemma put_txs_ok D n o : net_ok D n -> orphans_ok o -> Z.of_nat (size (mapOrphanTransactions o)) <= MAX_ORPHAN_TRANSACTIONS -> net_ok D (put_orphans (n_blocks n) o n).
Proof. intros [H1 H2 H3 H4 H5 H6 H7 H8] Ho Hs. by split. Qed.
Lemma put_blocks_ok D n o : net_ok D n -> orphans_ranked age o -> net_ok D (put_orphans o (n_txs n) n).
Proof. intros [H1 H2 H3 H4 H5 H6 H7 H8] Ho. by split. Qed.

Lemma punish_ok D n self now k : net_ok D n -> self ∈ D -> exists w, punish st self now k n = Some w /\ net_ok D w.
Proof.
  intros H Hs. destruct (net_ok_peer D n self H Hs) as (p & Hp & Hok). unfold punish. rewrite Hp. cbn [option_bind mbind].
  pose proof (misbehaving_ok (nBanScore st) (nBanTime st) now k p (setBanned n) Hok) as Hm. destruct (Misbehaving _ _ _ _ _ _) as [[b q] m].
  eexists. split; [done|]. apply put_banned_ok. by apply put_peer_ok.
Qed.
Lemma punish_score_ok D n self now k : net_ok D n -> self ∈ D -> exists w, punish_score st self now k n = Some w /\ net_ok D w.
Proof. intros H Hs. unfold punish_score. case_if; [by apply punish_ok|by exists n]. Qed.
Lemma update_peer_opt_ok D n self f : net_ok D n -> self ∈ D -> (forall p, peer_ok p -> exists q, f p = Some q /\ peer_ok q) ->
  exists w, update_peer_opt self f n = Some w /\ net_ok D w.
Proof.
  intros H Hs Hf. destruct (net_ok_peer D n self H Hs) as (p & Hp & Hok). unfold update_peer_opt. rewrite Hp. cbn [option_bind mbind].
  destruct (Hf p Hok) as (q & -> & Hq). cbn [option_bind mbind]. eexists. split; [done|]. by apply put_peer_ok.
Qed.
Lemma AdvertizeLocal_ok D n now : net_ok D n -> net_ok D (AdvertizeLocal st now n).
Proof. intros H. apply fmap_nodes_ok; [done|]. intros p Hp. cbv beta zeta. repeat case_if; auto with peers. Qed.
Lemma SeenLocal_ok D n now a : net_ok D n -> net_ok D (SeenLocal st now a n).2.
Proof. intros H. unfold SeenLocal. destruct (seen_local _ _) as [b l]. cbn [snd]. case_if; [|done]. by apply AdvertizeLocal_ok, put_local_ok. Qed.
Lemma ibd_ok D n now : net_ok D n -> net_ok D (IsInitialBlockDownload st now n).2.
Proof. intros H. unfold IsInitialBlockDownload. destruct (best_of n); [|done]. case_if; [done|]. cbn [snd]. case_if; [done|]. by apply put_times_ok. Qed.
Lemma PushVersion_ok D n self now nonce : net_ok D n -> self ∈ D -> exists w, PushVersion st self now nonce n = Some w /\ net_ok D w.
Proof.
  intros H Hs. destruct (net_ok_peer D n self H Hs) as (p & Hp & Hok). unfold PushVersion. rewrite Hp. cbn [option_bind mbind]. eexists. split; [done|].
  apply put_local_ok, on_peer_ok; auto with peers.
Qed.
Lemma relay_address_ok D n addr r now : net_ok D n -> net_ok D (relay_address st addr r now n).
Proof.
  unfold relay_address. generalize (take (if r then 2 else 1) (mapMix st addr now n)) as l. intros l. revert n.
  induction l as [|e l IH]; intros n H; [done|]. cbn [foldl]. apply IH, on_peer_ok; auto with peers.
Qed.
Lemma for_nodes_ok D n f : net_ok D n -> (forall p, peer_ok p -> exists q, f p = Some q /\ peer_ok q) ->
  exists m, for_nodes f (vNodes n) = Some m /\ dom m = D /\ map_Forall (fun _ => peer_ok) m.
Proof.
  intros H Hf. unfold for_nodes. set (l := map_to_list (vNodes n)).
  assert (Hl : Forall (fun e => e.1 ∈ D /\ peer_ok e.2) l).
  { apply Forall_forall. intros [k p] Hk. apply elem_of_map_to_list in Hk. split; [|by apply (no_peers _ _ H k)].
    rewrite <- (no_nodes _ _ H). apply elem_of_dom. by exists p. }
  clearbody l. induction Hl as [|[k p] l [Hk Hp] _ IH]; [exists (vNodes n); split_and!; [done|apply (no_nodes _ _ H)|apply (no_peers _ _ H)]|].
  cbn [foldr]. destruct IH as (m & -> & Hd & Hm). cbn [option_bind mbind fst snd]. destruct (Hf p Hp) as (q & -> & Hq). cbn [option_bind mbind].
  eexists. split; [done|]. split; [rewrite dom_insert_L, Hd; cbn in Hk; set_solver|by apply map_Forall_insert_2].
Qed.
Lemma RelayTransaction_ok D n now tx h : net_ok D n -> exists w, RelayTransaction now tx h n = Some w /\ net_ok D w.
Proof.
  intros H. unfold RelayTransaction. destruct (expire _ _ _) as [e m].
  destruct (for_nodes_ok D n (relay_to tx h) H (relay_to_ok tx h)) as (m' & -> & Hd & Hm). cbn [option_bind mbind]. eexists. split; [done|].
  apply put_nodes_ok; [by apply put_relay_ok|done|done].
Qed.
Lemma relay_all_ok D now l : forall n, net_ok D n -> exists w, relay_all now l n = Some w /\ net_ok D w.
Proof.
  induction l as [|[h tx] l IH]; intros n H; [by exists n|]. cbn [relay_all]. destruct (RelayTransaction_ok D n now tx h H) as (w & -> & Hw). by apply IH.
Qed.
Lemma AlreadyHave_ok D n inv : net_ok D n -> net_ok D (AlreadyHave inv n).2.
Proof.
  intros H. unfold AlreadyHave. repeat case_if; try done. destruct (HaveCoins _ _) as [b v]. by apply put_chain_ok.
Qed.
(** the first of the blocks that one waits for can be found *)
Lemma root_ok D n h b : net_ok D n -> mapOrphanBlocks (n_blocks n) !! h = Some b -> is_Some (GetOrphanRoot (n_blocks n) b).
Proof. intros H Hb. destruct (no_blocks _ _ H _ _ Hb) as [<- Ha]. destruct (GetOrphanRoot_ends _ b age (no_blocks _ _ H) Ha) as (b' & Hr & _). by rewrite Hr. Qed.
End NetOk.
Arguments net_ok {V B K} age D w.

(** ** No handler fails *)

Lemma last_block_spec (vInv : list CInv) i : last_block vInv = Some i -> exists inv, vInv !! i = Some inv /\ inv.1 = MSG_BLOCK.
Proof.
  unfold last_block.
  assert (H : forall (l : list CInv) pre r, (forall i, r = Some i -> exists inv, pre !! i = Some inv /\ inv.1 = MSG_BLOCK) ->
    foldl (fun r x => if x.2.1 =? MSG_BLOCK then Some x.1 else r) r (imap (fun k x => ((length pre + k)%nat, x)) l) = Some i ->
    exists inv, (pre ++ l) !! i = Some inv /\ inv.1 = MSG_BLOCK).
  { induction l as [|x l IH]; intros pre r Hr; cbn [imap foldl]; [rewrite app_nil_r; apply Hr|]. intros Hf.
    assert (Hf' : foldl (fun r x => if x.2.1 =? MSG_BLOCK then Some x.1 else r) (if x.1 =? MSG_BLOCK then Some (length pre) else r)
      (imap (fun k y => ((length (pre ++ [x]) + k)%nat, y)) l) = Some i).
    { rewrite <- Hf. cbn [fst snd]. rewrite Nat.add_0_r. f_equal. apply imap_ext. intros k y _. cbn. f_equal. rewrite length_app. cbn. lia. }
    replace (pre ++ x :: l) with ((pre ++ [x]) ++ l) by by rewrite <- app_assoc. refine (IH (pre ++ [x]) _ _ Hf').
    intros j Hj. destruct (x.1 =? MSG_BLOCK) eqn:Ex.
    - injection Hj as <-. apply Z.eqb_eq in Ex. exists x. split; [|done]. rewrite lookup_app_r, Nat.sub_diag by lia. done.
    - destruct (Hr j Hj) as (inv & Hl & Hb). exists inv. split; [|done]. rewrite lookup_app_l; [done|]. by eapply lookup_lt_Some. }
  intros Hl. apply (H vInv [] None); [done|exact Hl].
Qed.

Section Safety.
Context {V : Type} {CV : CoinsView V} {CS : CoinsViewSpec V} {B : OpenSSLBN} {K : Crypto} {E : CacheEnv} (st : net_settings) (rand : nat -> Z).
Context (unread : Z -> storage -> CBlock) (fuel : nat) (rnd : nat -> Z) (age : Z -> nat).
Abbreviation nst := (s_node st).

Definition keeps (D : gset Z) (r : option (handled * net V)) : Prop := exists h w, r = Some (h, w) /\ net_ok age D w.
Lemma keeps_some D h w : net_ok age D w -> keeps D (Some (h, w)).
Proof. intros H. by exists h, w. Qed.
Lemma keeps_then D (o : option (net V)) k : (exists w, o = Some w /\ net_ok age D w) -> (forall w, net_ok age D w -> keeps D (k w)) ->
  keeps D (match o with Some w => k w | None => None end).
Proof. intros (w & -> & Hw) Hk. by apply Hk. Qed.
Hint Resolve keeps_some on_peer_ok put_manager_ok put_clock_ok put_counts_ok call_wallets_ok put_chain_ok : peers.

Lemma greet_ok D self now nonce nTime addrMe addrFrom nNonce n : net_ok age D n -> self ∈ D ->
  keeps D (greet st rand self now nonce nTime addrMe addrFrom nNonce n).
Proof.
  intros H Hs. unfold greet. destruct (net_ok_peer D n self H Hs) as (p & Hp & Hok). rewrite Hp. cbv zeta.
  set (n1 := if fInbound _ && _ then _ else n). assert (H1 : net_ok age D n1) by (unfold n1; case_if; [apply SeenLocal_ok|]; auto with peers).
  case_if; [apply keeps_some; auto with peers|]. apply keeps_then; [case_if; [by apply PushVersion_ok|by exists n1]|]. intros n2 H2.
  set (n3 := on_peer self (with_greeting put_client) n2). assert (H3 : net_ok age D n3) by (unfold n3; auto with peers).
  destruct (AddTimeData_spec (ip_of p) nTime now (n_clock n3) (no_clock _ _ H3)) as (c & -> & Hc & _).
  set (n4 := on_peer self _ (put_clock c n3)). assert (H4 : net_ok age D n4) by (unfold n4; apply on_peer_ok; auto with peers).
  apply keeps_then.
  - destruct (negb (fInbound (p_greeting p))).
    + assert (Hx : net_ok age D (if fNoListen st then (true, n4) else IsInitialBlockDownload st now n4).2) by (case_if; [done|by apply ibd_ok]).
      destruct (if fNoListen st then _ else _) as [ibd n5]. cbn [snd] in Hx.
      set (n6 := if ibd then n5 else _). assert (H6 : net_ok age D n6) by (unfold n6; cbv zeta; repeat case_if; auto with peers).
      set (n7 := if _ || _ then _ else n6). assert (H7 : net_ok age D n7) by (unfold n7; case_if; auto 10 with peers).
      destruct (Good_ok rand (a_service (g_addr (p_greeting p))) (adjusted n7 now) (n_manager n7) (no_manager _ _ H7)) as (m & -> & Hm). eauto with peers.
    + case_bool_decide; [|by exists n4].
      destruct (Add_ok rand addrFrom (s_ip (a_service addrFrom)) 0 (adjusted n4 now) (n_manager n4) (no_manager _ _ H4)) as (b & m & -> & Hm).
      destruct (Good_ok rand (a_service addrFrom) (adjusted n4 now) m Hm) as (m' & -> & Hm'). eauto with peers.
  - intros n5 H5. apply keeps_some. auto with peers.
Qed.
Lemma on_version_ok D self now nonce vRecv n : net_ok age D n -> self ∈ D -> keeps D (on_version st rand self now nonce vRecv n).
Proof.
  intros H Hs. unfold on_version. destruct (net_ok_peer D n self H Hs) as (p & Hp & Hok). rewrite Hp. destruct (read_version vRecv (p_greeting p)) as [g r].
  cbv zeta. destruct r as [| |nTime me from k]; [apply keeps_some; auto with peers|apply keeps_some; auto 10 with peers|]. apply greet_ok; auto with peers.
Qed.

Lemma addr_each_ok D self now nNow few l : forall acc n, net_ok age D n -> self ∈ D -> exists r (w : net V), addr_each st self now nNow few l acc n = Some (r, w) /\ net_ok age D w.
Proof.
  induction l as [|a l IH]; intros acc n H Hs; [by exists acc, n|]. cbn [addr_each]. cbv zeta.
  match goal with |- context [AddAddressKnown ?x] => set (addr := x) end. set (n1 := on_peer self _ n).
  assert (H1 : net_ok age D n1) by (unfold n1; auto with peers). destruct (net_ok_peer D n1 self H1 Hs) as (p & Hp & Hok). rewrite Hp.
  apply IH; [|done]. case_if; [by apply relay_address_ok|done].
Qed.
Lemma on_addr_ok D self now vRecv n : net_ok age D n -> self ∈ D -> keeps D (on_addr st rand self now vRecv n).
Proof.
  intros H Hs. unfold on_addr. destruct (net_ok_peer D n self H Hs) as (p & Hp & Hok). rewrite Hp. destruct (Unserialize _ vRecv) as [[vAddr s]|]; [|by apply keeps_some].
  case_if; [by apply keeps_some|]. case_if; [apply keeps_then; [by apply punish_ok|by intros; apply keeps_some]|].
  destruct (addr_each_ok D self now (adjusted n now) (bool_decide (length vAddr <= 10)%nat) vAddr [] n H Hs) as (l & n1 & -> & H1).
  destruct (Add_all_ok rand l (ip_of p) (2 * 60 * 60) (adjusted n1 now) (n_manager n1) (no_manager _ _ H1)) as (k & m & -> & Hm). cbv zeta.
  apply keeps_some. repeat case_if; auto 10 with peers.
Qed.

Lemma ask_ok D self now inv n : net_ok age D n -> self ∈ D -> exists w : net V, ask self now inv n = Some w /\ net_ok age D w.
Proof.
  intros H Hs. unfold ask. destruct (net_ok_peer D n self H Hs) as (p & Hp & [Ha Hb Hc]). rewrite Hp.
  destruct (AskFor_spec inv now (n_asks n) (p_invs p) (no_asks _ _ H) Hb) as (t & s & i & -> & H1 & H2 & _ & Hk & _). eexists. split; [done|].
  apply put_asks_ok; [|done]. apply put_peer_ok; [done|done|]. split; cbn [with_invs p_invs pfilter]; by rewrite ?Hk.
Qed.
Lemma inv_one_ok D self now last i inv n : net_ok age D n -> self ∈ D -> (last = Some i -> inv.1 = MSG_BLOCK) ->
  exists w : net V, inv_one st self now last i inv n = Some w /\ net_ok age D w.
Proof.
  intros H Hs Hl. unfold inv_one. destruct (update_peer_opt_ok D n self (known_inv inv) H Hs (known_inv_ok inv)) as (n1 & -> & H1).
  pose proof (AlreadyHave_ok D n1 inv H1) as H2. destruct (AlreadyHave inv n1) as [have n2] eqn:Eh. cbn [snd] in H2.
  assert (Hx : exists w,
    (if negb have then (if negb (fImporting st) && negb (fReindex st) then ask self now inv n2 else Some n2)
     else match (if inv.1 =? MSG_BLOCK then mapOrphanBlocks (n_blocks n2) !! inv.2 else None) with
          | Some b => let? root := GetOrphanRoot (n_blocks n2) b in Some (on_peer self (PushGetBlocks (idx_of n2) (p_hashGenesisBlock (b_params nst)) (best_of n2) root) n2)
          | None => if bool_decide (last = Some i) then
                      let? _ := idx_of n2 !! inv.2 in Some (on_peer self (PushGetBlocks (idx_of n2) (p_hashGenesisBlock (b_params nst)) (Some inv.2) 0) n2)
                    else Some n2
          end) = Some w /\ net_ok age D w).
  { destruct have; cbn [negb]; [|case_if; [by apply ask_ok|by exists n2]].
    destruct (if inv.1 =? MSG_BLOCK then _ else None) as [b|] eqn:Eb.
    - case_if_in Eb; [|done]. destruct (root_ok _ _ _ _ H2 Eb) as [root ->]. eauto 10 with peers.
    - case_bool_decide as Hlast; [|by exists n2]. specialize (Hl Hlast). rewrite Hl in Eb. change (MSG_BLOCK =? MSG_BLOCK) with true in Eb. cbv iota in Eb.
      assert (Hi : is_Some (idx_of n2 !! inv.2)).
      { unfold AlreadyHave in Eh. rewrite Hl in Eh. change (MSG_BLOCK =? MSG_TX) with false in Eh. change (MSG_BLOCK =? MSG_BLOCK) with true in Eh. cbv iota in Eh.
        injection Eh as Eh <-. rewrite Eb, (bool_decide_eq_false_2 (is_Some None)), orb_false_r in Eh by (by intros [? ?]). by apply bool_decide_eq_true_1 in Eh. }
      destruct Hi as [pi ->]. eauto 10 with peers. }
  cbv zeta in *. destruct Hx as (w & -> & Hw). eauto with peers.
Qed.
Lemma inv_each_ok D self now (all : list CInv) l : forall i n, net_ok age D n -> self ∈ D -> l = drop i all ->
  exists w : net V, inv_each st self now (last_block all) i l n = Some w /\ net_ok age D w.
Proof.
  induction l as [|inv l IH]; intros i n H Hs Hd; [by exists n|]. cbn [inv_each].
  assert (Hi : all !! i = Some inv) by (rewrite <- (Nat.add_0_r i), <- lookup_drop, <- Hd; done).
  destruct (inv_one_ok D self now (last_block all) i inv n H Hs) as (w & -> & Hw).
  { intros (inv' & Hi' & Hb)%last_block_spec. congruence. }
  apply IH; [done|done|]. rewrite <- Nat.add_1_r, <- drop_drop, <- Hd. done.
Qed.
Lemma on_inv_ok D self now vRecv n : net_ok age D n -> self ∈ D -> keeps D (on_inv st self now vRecv n).
Proof.
  intros H Hs. unfold on_inv. destruct (Unserialize _ vRecv) as [[vInv s]|]; [|by apply keeps_some].
  case_if; [apply keeps_then; [by apply punish_ok|by intros; apply keeps_some]|]. apply keeps_then; [|by intros; apply keeps_some].
  by apply (inv_each_ok D self now vInv vInv 0 n H Hs).
Qed.

Lemma match_txs_ok l : forall hs i f, usable f -> exists a b f', match_txs l hs i f = Some (a, b, f') /\ usable f'.
Proof.
  induction l as [|tx l IH]; intros [|h hs] i f Hf; cbn [match_txs]; try (eexists _, _, f; by split).
  destruct (relevant_ok tx h f Hf) as (r & f1 & -> & H1). destruct (IH hs (S i) f1 H1) as (a & b & f2 & -> & H2). cbn [option_bind mbind]. by eexists _, _, f2.
Qed.
(** a filtered request can be answered: the block it names, if there is one, can be read with its transactions *)
Definition showable (n : net V) (inv : CInv) : Prop :=
  inv.1 = MSG_FILTERED_BLOCK -> forall pi, idx_of n !! inv.2 = Some pi -> vtx (read_index unread inv.2 pi (disk (nd (n_chain n)))).1 <> [].
Lemma showable_read n inv pi : showable n inv -> is_block_request inv = true -> idx_of n !! inv.2 = Some pi -> inv.1 <> MSG_BLOCK ->
  vtx (read_index unread inv.2 pi (disk (nd (n_chain n)))).1 <> [].
Proof. intros Hs Hb Hi Hn. apply Hs; [|done]. unfold is_block_request in Hb. b2p. lia. Qed.
Lemma merkle_block_ok b f : vtx b <> [] -> usable f -> exists mb g, new_CMerkleBlock b f = Some (mb, g) /\ usable g.
Proof.
  intros Hb Hu. unfold new_CMerkleBlock. destruct (match_txs_ok (vtx b) (txids b) 0 f Hu) as (x & y & g & -> & Hf). cbn [option_bind mbind].
  rewrite new_partial_tree_reads by (unfold txids; rewrite length_map; destruct (vtx b); [done|cbn; lia]). cbn [option_bind mbind]. by eexists _, g.
Qed.
Lemma push_block_ok inv b p : (inv.1 <> MSG_BLOCK -> vtx b <> []) -> peer_ok p -> exists q, push_block inv b p = Some q /\ peer_ok q.
Proof.
  intros Hb Hp. unfold push_block. destruct (Z.eqb_spec (inv.1) MSG_BLOCK) as [|Hne]; [eauto with peers|].
  destruct (merkle_block_ok b (pfilter p) (Hb Hne) (po_filter _ Hp)) as (mb & g & -> & Hf). cbn [option_bind mbind]. eauto 10 with peers.
Qed.
Lemma continue_batch_ok h b p : peer_ok p -> peer_ok (continue_batch h b p).
Proof. intros Hp. unfold continue_batch. case_if; auto with peers. Qed.
Hint Resolve continue_batch_ok : peers.
Lemma get_one_ok inv (n : net V) p : showable n inv -> peer_ok p -> exists q s b, get_one unread inv n p (disk (nd (n_chain n))) = Some (q, s, b) /\ peer_ok q /\
  (is_block_request inv = false -> s = disk (nd (n_chain n))).
Proof.
  intros Hsh Hp. unfold get_one. destruct (is_block_request inv) eqn:Er.
  - destruct (idx_of n !! inv.2) as [pi|] eqn:Ei; [|by eexists _, _, _]. pose proof (showable_read n inv pi Hsh Er Ei) as Hb. destruct (read_index _ _ _ _) as [b s']. cbn [fst] in Hb.
    destruct (push_block_ok inv b p Hb Hp) as (q & -> & Hq). cbn [option_bind mbind]. eexists _, _, _. split; [done|]. split; [eauto with peers|done].
  - destruct (IsKnownType inv) eqn:Ek; [|by eexists _, _, _]. destruct (mapRelay n !! inv).
    + unfold inv_GetCommand. rewrite Ek. cbn [negb]. unfold IsKnownType in Ek. b2p.
      destruct (lookup_lt_is_Some_2 ppszTypeName (Z.to_nat inv.1)) as [name ->]; [lia|]. cbn [option_bind mbind]. eexists _, _, _. eauto with peers.
    + case_if; [|by eexists _, _, _]. destruct (mapTx _ !! _); eexists _, _, _; eauto with peers.
Qed.
Lemma get_loop_ok (n : net V) it : Forall (showable n) it -> forall nf calls p, peer_ok p ->
  exists a b c q s, get_loop st unread it nf calls n p (disk (nd (n_chain n))) = Some (a, b, c, q, s) /\ peer_ok q.
Proof.
  induction 1 as [|inv it Hinv Hit IH]; intros nf calls p Hp; cbn [get_loop]; [by eexists _, _, _, _, _|]. case_if; [by eexists _, _, _, _, _|].
  destruct (get_one_ok inv n p Hinv Hp) as (q & s' & b & -> & Hq & Hs). cbn [option_bind mbind]. destruct (is_block_request inv); [by eexists _, _, _, _, _|]. rewrite Hs by done. by apply IH.
Qed.
Lemma ProcessGetData_ok D self (n : net V) p : net_ok age D n -> self ∈ D -> vNodes n !! self = Some p -> Forall (showable n) (vRecvGetData (p_sync p)) ->
  exists w : net V, ProcessGetData st unread self n = Some w /\ net_ok age D w.
Proof.
  intros H Hs Hp Hsh. unfold ProcessGetData. pose proof (no_peers _ _ H self p Hp) as Hok. rewrite Hp. cbn [option_bind mbind].
  destruct (get_loop_ok n (vRecvGetData (p_sync p)) Hsh [] [] p Hok) as (a & b & c & q & s' & -> & Hq). cbn [option_bind mbind].
  eexists. split; [done|]. apply call_wallets_ok, put_chain_ok, put_peer_ok; auto with peers. apply out_ok. unfold with_getdata. auto with peers.
Qed.
Lemma on_getdata_ok D self now vRecv (n : net V) : net_ok age D n -> self ∈ D ->
  (forall p l s, vNodes n !! self = Some p -> Unserialize (ser_vector ser_CInv) vRecv = Some (l, s) -> Forall (showable n) (vRecvGetData (p_sync p) ++ l)) ->
  keeps D (on_getdata st unread self now vRecv n).
Proof.
  intros H Hs Hsh. unfold on_getdata. destruct (net_ok_peer D n self H Hs) as (p & Hp & Hok). destruct (Unserialize _ vRecv) as [[vInv s]|]; [|by apply keeps_some]. specialize (Hsh p vInv s Hp eq_refl).
  case_if; [apply keeps_then; [by apply punish_ok|by intros; apply keeps_some]|]. apply keeps_then; [|by intros; apply keeps_some].
  apply (ProcessGetData_ok D self _ (with_getdata (vRecvGetData (p_sync p) ++ vInv) p)); [|done| |exact Hsh].
  - apply on_peer_ok; [done|]. intros p' Hp'. unfold with_getdata. auto with peers.
  - cbn [on_peer put_nodes vNodes]. by rewrite lookup_alter_eq, Hp.
Qed.

Lemma getblocks_ok idx best genesis vHave stop p : peer_ok p -> peer_ok (getblocks idx best genesis vHave stop p).
Proof.
  intros Hp. unfold getblocks. destruct (next_hashes 500 _ _ _) as [l b]. set (q := with_invs _ p).
  assert (Hq : peer_ok q).
  { unfold q. clear q. assert (Hf : forall i, peer_ok (with_invs i p) -> peer_ok (with_invs (foldl (fun i h => PushInventory (MSG_BLOCK, h) i) i l) p)).
    { induction l as [|h l IH]; intros i Hi; [done|]. cbn [foldl]. apply IH. apply (push_inventory_ok (MSG_BLOCK, h)) in Hi. done. }
    apply Hf. by destruct Hp. }
  destruct b; [|done]. destruct (last l); auto with peers.
Qed.
Lemma getheaders_ok idx best genesis vHave stop p : peer_ok p -> peer_ok (getheaders idx best genesis vHave stop p).
Proof. intros Hp. unfold getheaders. destruct vHave; [case_if|]; auto with peers. Qed.
Lemma on_locator_ok D f self vRecv (n : net V) : net_ok age D n -> (forall idx best genesis vHave stop p, peer_ok p -> peer_ok (f idx best genesis vHave stop p)) ->
  keeps D (on_locator f self vRecv n).
Proof.
  intros H Hf. unfold on_locator. destruct (Unserialize _ vRecv) as [[[[v l] h] s]|]; [|by apply keeps_some]. apply keeps_some, on_peer_ok; auto.
Qed.
Lemma pool_invs_ok l pool : forall v f, (forall h, h ∈ l -> is_Some (mapTx pool !! h)) -> usable f -> exists v' f', pool_invs l pool v f = Some (v', f') /\ usable f'.
Proof.
  induction l as [|h l IH]; intros v f Hl Hf; cbn [pool_invs]; [by exists v, f|]. destruct (Hl h (list_elem_of_here _ _)) as [tx ->]. cbn [option_bind mbind].
  destruct (relevant_ok tx h f Hf) as (r & f1 & -> & H1). cbn [option_bind mbind]. case_if; [by eexists _, f1|]. apply IH; [|done]. intros k Hk. apply Hl. by apply list_elem_of_further.
Qed.
Lemma tell_pool_ok pool p : peer_ok p -> exists q, tell_pool pool p = Some q /\ peer_ok q.
Proof.
  intros Hp. unfold tell_pool. destruct (pool_invs_ok (queryHashes pool) pool [] (pfilter p)) as (v & f & -> & Hf); [|apply Hp|].
  - intros h Hh. unfold queryHashes in Hh. rewrite merge_sort_Permutation in Hh. apply list_elem_of_fmap in Hh as ([k tx] & -> & Hk). apply elem_of_map_to_list in Hk. by exists tx.
  - cbn [option_bind mbind]. eauto with peers.
Qed.
Lemma add_to_filter_ok d p : peer_ok p -> exists q, add_to_filter d p = Some q /\ peer_ok q.
Proof.
  intros Hp. unfold add_to_filter. destruct (insert_key_spec d (pfilter p) (po_filter _ Hp)) as (f & -> & Hf & _). cbn [option_bind mbind]. eexists. split; [done|].
  apply filter_ok; [|done]. apply (usable_shape (pfilter p)); [done|apply Hp].
Qed.
(** what a peer sends as a filter can be used: one without data is full *)
Lemma loaded_usable f : usable (UpdateEmptyFull f).
Proof. unfold usable, UpdateEmptyFull. cbn [isFull vData]. destruct (vData f); [by left|by right]. Qed.
Hint Resolve loaded_usable : peers.

(** what a message needs: for a transaction, a best block; for a block, that validation ends, with any verdict or with an exception, and that it is younger than its
    predecessor (its hash is not among those that lead to it); and that the blocks that are asked for through a filter can be read *)
Definition validated (self : Z) (strCommand vRecv : bytes) (n : net V) : Prop :=
  (strCommand = cmd "tx" -> is_Some (Vt (pcoinsTip (n_chain n)))) /\
  (strCommand = cmd "block" -> forall b s, Unserialize ser_CBlock vRecv = Some (b, s) ->
     is_Some (ProcessBlock nst fuel true b None new_state (n_blocks n) (n_chain n)) /\ (age (prev_of b) < age (block_GetHash b))%nat) /\
  (strCommand = cmd "getdata" -> forall p l s, vNodes n !! self = Some p -> Unserialize (ser_vector ser_CInv) vRecv = Some (l, s) -> Forall (showable n) (vRecvGetData (p_sync p) ++ l)).

Lemma erase_asks_ok inv (n : net V) D : net_ok age D n -> exists a, Lim.erase inv (mapAlreadyAskedFor (n_asks n)) = Some a /\ asks_ok {| mapAlreadyAskedFor := a; nLastTime := nLastTime (n_asks n) |}.
Proof. intros H. destruct (no_asks _ _ H) as [H1 H2]. destruct (Lim.erase_spec inv _ H1) as (a & -> & Ha & _ & Hm). exists a. split; [done|]. split; [exact Ha|]. change (Lim.nMaxSize a = MAX_INV_SZ). rewrite Hm. exact H2. Qed.
Lemma on_tx_ok D self now vRecv (n : net V) : (2 <= fuel)%nat -> net_ok age D n -> self ∈ D ->
  is_Some (Vt (pcoinsTip (n_chain n))) ->
  keeps D (on_tx st fuel rnd self now vRecv n).
Proof.
  intros Hf H Hs Hacc. unfold on_tx. destruct (Unserialize ser_CTransaction vRecv) as [[tx s]|]; [|by apply keeps_some]. apply (AcceptToMemoryPool_total nst tx new_state) in Hacc.
  unfold update_peer_opt. destruct (net_ok_peer D n self H Hs) as (p & -> & Hp). cbn [option_bind mbind]. destruct (known_inv_ok (MSG_TX, GetHash tx) p Hp) as (q & -> & Hq). cbn [option_bind mbind].
  pose proof (put_peer_ok D n self q H Hs Hq) as H1. set (n1 := put_nodes _ n) in *.
  destruct (tx_message_ok nst fuel rnd tx (n_txs n1) (mapAlreadyAskedFor (n_asks n1)) (n_chain n1) Hf (no_txs _ _ H1) (proj1 (no_asks _ _ H1)) (no_txs_size _ _ H1) Hacc)
    as (score & relay & o & a & c & -> & Ho & Ha & Hm & Hz & _). cbn [option_bind mbind]. cbv zeta.
  apply keeps_then; [|intros w Hw; apply keeps_then; [by apply punish_score_ok|by intros; apply keeps_some]].
  apply relay_all_ok, put_chain_ok. apply (put_txs_ok D (put_asks {| mapAlreadyAskedFor := a; nLastTime := nLastTime (n_asks n1) |} n1) o); [|done|done]. apply put_asks_ok; [done|]. split; [exact Ha|]. change (Lim.nMaxSize a = MAX_INV_SZ). rewrite Hm. apply (no_asks _ _ H1).
Qed.
Lemma on_block_ok D self now vRecv (n : net V) : net_ok age D n -> self ∈ D ->
  (forall b s, Unserialize ser_CBlock vRecv = Some (b, s) -> is_Some (ProcessBlock nst fuel true b None new_state (n_blocks n) (n_chain n)) /\ (age (prev_of b) < age (block_GetHash b))%nat) ->
  keeps D (on_block st fuel self now vRecv n).
Proof.
  intros H Hs Hacc. unfold on_block. destruct (Unserialize ser_CBlock vRecv) as [[b s]|]; [|by apply keeps_some].
  destruct (Hacc b s eq_refl) as [[[[[[r root] state] o] c] Hpb] Hage]. pose proof (ProcessBlock_ranked age _ _ _ _ _ _ _ _ _ _ _ _ _ (no_blocks _ _ H) Hage Hpb) as Ho.
  unfold update_peer_opt. destruct (net_ok_peer D n self H Hs) as (p & -> & Hp). cbn [option_bind mbind]. cbv zeta.
  destruct (known_inv_ok (MSG_BLOCK, block_GetHash b) p Hp) as (q & -> & Hq). cbn [option_bind mbind].
  pose proof (put_peer_ok D n self q H Hs Hq) as H1. set (n1 := put_nodes _ n) in *.
  change (n_blocks n1) with (n_blocks n). change (n_chain n1) with (n_chain n). rewrite Hpb. cbn [option_bind mbind].
  set (n2 := put_chain c (put_orphans o (n_txs n1) n1)). assert (H2 : net_ok age D n2) by (by apply put_chain_ok, put_blocks_ok).
  set (n3 := match root with Some h => _ | None => n2 end). assert (H3 : net_ok age D n3) by (unfold n3; destruct root; auto with peers).
  destruct r as [accepted|]; [|by apply keeps_some].
  assert (Ha : exists a, (if accepted || corruptionPossible state then Lim.erase (MSG_BLOCK, block_GetHash b) (mapAlreadyAskedFor (n_asks n3)) else Some (mapAlreadyAskedFor (n_asks n3))) = Some a /\
    asks_ok {| mapAlreadyAskedFor := a; nLastTime := nLastTime (n_asks n3) |}).
  { case_if; [by eapply erase_asks_ok|]. eexists. split; [done|]. destruct (no_asks _ _ H3). done. }
  destruct Ha as (a & -> & Ha). cbn [option_bind mbind]. apply keeps_then; [|by intros; apply keeps_some]. apply punish_score_ok; [|done]. by apply put_asks_ok.
Qed.
Lemma on_getaddr_ok D self (n : net V) : net_ok age D n -> keeps D (on_getaddr rand self n).
Proof.
  intros H. unfold on_getaddr. destruct (GetAddr_ok rand (n_manager n) (no_manager _ _ H)) as (l & m & -> & Hm & _). cbn [option_bind mbind]. apply keeps_some. auto with peers.
Qed.
Lemma on_ping_ok D self vRecv (n : net V) : net_ok age D n -> self ∈ D -> keeps D (on_ping self vRecv n).
Proof.
  intros H Hs. unfold on_ping. destruct (net_ok_peer D n self H Hs) as (p & -> & Hp). case_if; [|by apply keeps_some].
  destruct (Unserialize _ vRecv) as [[k s]|]; apply keeps_some; auto with peers.
Qed.
Lemma on_filterload_ok D self now vRecv (n : net V) : net_ok age D n -> self ∈ D -> keeps D (on_filterload st self now vRecv n).
Proof.
  intros H Hs. unfold on_filterload. destruct (Unserialize _ vRecv) as [[f s]|]; [|by apply keeps_some].
  apply keeps_then; [case_if; [by apply punish_ok|eauto 10 with peers]|]. intros w Hw. apply keeps_some. auto with peers.
Qed.
Lemma on_filteradd_ok D self now vRecv (n : net V) : net_ok age D n -> self ∈ D -> keeps D (on_filteradd st self now vRecv n).
Proof.
  intros H Hs. unfold on_filteradd. destruct (Unserialize _ vRecv) as [[d s]|]; [|by apply keeps_some].
  apply keeps_then; [|by intros; apply keeps_some]. case_if; [by apply punish_ok|]. apply update_peer_opt_ok; [done|done|]. apply add_to_filter_ok.
Qed.
Lemma handle_ok D self now nonce strCommand vRecv (n : net V) : (2 <= fuel)%nat -> net_ok age D n -> self ∈ D -> validated self strCommand vRecv n ->
  keeps D (handle st rand unread fuel rnd self now nonce strCommand vRecv n).
Proof.
  intros Hf H Hs (Htx & Hbl & Hgd). unfold handle. destruct (net_ok_peer D n self H Hs) as (p & Hp & Hok). rewrite Hp.
  assert (Hpun : keeps D (let? n0 := punish st self now 1 n in fail n0)) by (apply keeps_then; [by apply punish_ok|by intros; apply keeps_some]).
  destruct (is_cmd strCommand "version"); [case_if; [exact Hpun|by apply on_version_ok]|]. case_if; [exact Hpun|].
  destruct (is_cmd strCommand "verack"); [apply keeps_some; auto with peers|].
  destruct (is_cmd strCommand "addr"); [by apply on_addr_ok|].
  destruct (is_cmd strCommand "inv"); [by apply on_inv_ok|].
  destruct (is_cmd strCommand "getdata") eqn:Egd; [apply bool_decide_eq_true_1 in Egd; exact (on_getdata_ok D self now vRecv n H Hs (Hgd Egd))|].
  destruct (is_cmd strCommand "getblocks"); [apply on_locator_ok; [done|apply getblocks_ok]|].
  destruct (is_cmd strCommand "getheaders"); [apply on_locator_ok; [done|apply getheaders_ok]|].
  destruct (is_cmd strCommand "tx") eqn:Etx; [apply bool_decide_eq_true_1 in Etx; exact (on_tx_ok D self now vRecv n Hf H Hs (Htx Etx))|].
  destruct (is_cmd strCommand "block" && negb (fImporting st) && negb (fReindex st)) eqn:Eb; [apply andb_prop in Eb as [Eb _]; apply andb_prop in Eb as [Eb _]; apply bool_decide_eq_true_1 in Eb; exact (on_block_ok D self now vRecv n H Hs (Hbl Eb))|].
  destruct (is_cmd strCommand "getaddr"); [by apply on_getaddr_ok|].
  destruct (is_cmd strCommand "mempool"); [apply keeps_then; [by apply update_peer_opt_ok; [| |apply tell_pool_ok]|by intros; apply keeps_some]|].
  destruct (is_cmd strCommand "ping"); [by apply on_ping_ok|].
  destruct (is_cmd strCommand "filterload"); [by apply on_filterload_ok|].
  destruct (is_cmd strCommand "filteradd"); [by apply on_filteradd_ok|].
  destruct (is_cmd strCommand "filterclear"); apply keeps_some; [|done]. unfold on_filterclear. auto 10 with peers.
Qed.
End Safety.

(** ** What a node answers *)

Section Answers.
Context {V : Type} {B : OpenSSLBN} {K : Crypto} (st : net_settings) (unread : Z -> storage -> CBlock).

(** the answer to one request; [None]: it is not found *)
Definition answer (n : net V) (p : peer) (inv : CInv) : option (list net_message) :=
  if is_block_request inv then
    match idx_of n !! inv.2 with
    | None => Some []
    | Some pi =>
      let b := (read_index unread inv.2 pi (disk (nd (n_chain n)))).1 in
      Some ((if inv.1 =? MSG_BLOCK then [MBlock b]
             else match new_CMerkleBlock b (pfilter p) with
                  | Some (mb, _) => MMerkleblock mb :: matched_txs b (vMatchedTxn mb) (setInventoryKnown (p_invs p)) | None => [] end) ++
            (if inv.2 =? hashContinue (p_sync p) then [MInv [(MSG_BLOCK, hashBestChain (nd (n_chain n)))]] else []))
    end
  else if IsKnownType inv then
    match mapRelay n !! inv, mapTx (c_pool (n_chain n)) !! inv.2 with
    | Some tx, _ => Some [MStream (default [] (inv_GetCommand inv)) (Serialize ser_CTransaction tx)]
    | None, Some tx => if inv.1 =? MSG_TX then Some [MTx tx] else None
    | None, None => None
    end
  else Some [].
Definition not_found (n : net V) (p : peer) (l : list CInv) : list CInv := List.filter (fun inv => match answer n p inv with None => true | Some _ => false end) l.

Lemma flush_one {A} (m : list A -> net_message) v out : flush m v out = out ++ flush m v [].
Proof. destruct v; [by rewrite app_nil_r|done]. Qed.
Lemma get_one_answer (n : net V) p p0 inv : showable unread n inv -> usable (pfilter p) -> pfilter p = pfilter p0 -> p_invs p = p_invs p0 -> p_sync p = p_sync p0 ->
  exists q s, get_one unread inv n p (disk (nd (n_chain n))) = Some (q, s, match answer n p0 inv with None => true | Some _ => false end) /\
    p_out q = p_out p ++ default [] (answer n p0 inv) /\
    (is_block_request inv = false -> s = disk (nd (n_chain n)) /\ pfilter q = pfilter p0 /\ p_invs q = p_invs p0 /\ p_sync q = p_sync p0) /\
    vRecvGetData (p_sync q) = vRecvGetData (p_sync p).
Proof.
  intros Hsh Hu Hf Hi Hs. unfold get_one, answer. destruct (is_block_request inv) eqn:Er.
  - destruct (idx_of n !! inv.2) as [pi|] eqn:Ei; [|eexists p, _; by rewrite app_nil_r]. pose proof (showable_read unread n inv pi Hsh Er Ei) as Hb. destruct (read_index _ _ _ _) as [b s]. cbn [fst] in *.
    assert (H : exists q, push_block inv b p = Some q /\ p_out q = p_out p ++ (if inv.1 =? MSG_BLOCK then [MBlock b] else
              match new_CMerkleBlock b (pfilter p0) with Some (mb, _) => MMerkleblock mb :: matched_txs b (vMatchedTxn mb) (setInventoryKnown (p_invs p0)) | None => [] end) /\
              p_sync q = p_sync p).
    { unfold push_block. destruct (Z.eqb_spec (inv.1) MSG_BLOCK) as [|Hne]; [by eexists|]. rewrite <- Hf. destruct (merkle_block_ok b (pfilter p) (Hb Hne) Hu) as (mb & f & -> & _).
      cbn [option_bind mbind]. eexists. split; [done|]. cbn. rewrite <- Hi, <- app_assoc. done. }
    destruct H as (q & -> & Hq & Hqs). cbn [option_bind mbind]. eexists _, _. split; [done|]. unfold continue_batch. rewrite Hqs, <- Hs. cbn [default from_option id].
    rewrite app_assoc, <- Hq. case_if; cbn; [by rewrite Hqs|]. rewrite app_nil_r. by rewrite Hqs.
  - destruct (IsKnownType inv) eqn:Ek; [|eexists p, _; by rewrite app_nil_r]. destruct (mapRelay n !! inv) as [tx|].
    + unfold inv_GetCommand. rewrite Ek. cbn [negb]. unfold IsKnownType in Ek. b2p.
      destruct (lookup_lt_is_Some_2 ppszTypeName (Z.to_nat inv.1)) as [name ->]; [lia|]. cbn [option_bind mbind]. by eexists _, _.
    + destruct (mapTx _ !! _) as [tx|]; destruct (inv.1 =? MSG_TX); eexists _, _; (split; [reflexivity|]); cbn [default]; rewrite ?app_nil_r; done.
Qed.
Lemma get_loop_answers (n : net V) p0 it : Forall (showable unread n) it -> forall nf calls p, usable (pfilter p) -> pfilter p = pfilter p0 -> p_invs p = p_invs p0 -> p_sync p = p_sync p0 ->
  exists done rest q s, get_loop st unread it nf calls n p (disk (nd (n_chain n))) = Some (rest, nf ++ not_found n p0 done, calls ++ map (fun inv => CallInventory inv.2) done, q, s) /\
    it = done ++ rest /\ p_out q = p_out p ++ concat (map (fun inv => default [] (answer n p0 inv)) done) /\
    Forall (fun inv => is_block_request inv = false) (removelast done) /\
    (rest = [] \/ buffer_full st (p_out q) = true \/ exists inv, last done = Some inv /\ is_block_request inv = true) /\
    (it <> [] -> buffer_full st (p_out p) = false -> done <> []).
Proof.
  induction 1 as [|inv it Hinv Hit IH]; intros nf calls p Hu Hf Hi Hs; cbn [get_loop].
  { exists [], [], p, (disk (nd (n_chain n))). cbn. rewrite !app_nil_r. split_and!; first [done|by left]. }
  destruct (buffer_full st (p_out p)) eqn:Ef.
  { exists [], (inv :: it), p, (disk (nd (n_chain n))). cbn. rewrite !app_nil_r. split_and!; first [done|by constructor|by right; left]. }
  destruct (get_one_answer n p p0 inv Hinv Hu Hf Hi Hs) as (q & s & -> & Hq & Hk & _). cbn [option_bind mbind].
  assert (Hnf : (if match answer n p0 inv with None => true | Some _ => false end then nf ++ [inv] else nf) = nf ++ not_found n p0 [inv]).
  { unfold not_found. cbn. destruct (answer n p0 inv); [by rewrite app_nil_r|done]. }
  rewrite Hnf. destruct (is_block_request inv) eqn:Er.
  - exists [inv], it, q, s. cbn. rewrite app_nil_r. split_and!; first [done|by constructor|right; right; by exists inv].
  - destruct (Hk eq_refl) as (-> & H1 & H2 & H3).
    destruct (IH (nf ++ not_found n p0 [inv]) (calls ++ [CallInventory inv.2]) q ltac:(congruence) H1 H2 H3) as (dn & rest & q' & s' & -> & -> & H4 & H5 & H6 & _).
    exists (inv :: dn), rest, q', s'. rewrite <- !app_assoc. split_and!; try done.
    + do 5 f_equal. unfold not_found. cbn. by destruct (answer n p0 inv).
    + cbn. by rewrite H4, Hq, <- app_assoc.
    + destruct dn as [|d dn]; [by constructor|]. cbn [removelast]. by constructor.
    + destruct H6 as [|[|(x & Hx & Hb)]]; [by left|by right; left|]. right. right. exists x. split; [|done]. destruct dn; [done|]. done.
Qed.
End Answers.

(** ** The chain after a block *)

(** the links forward are links back, and the heights count them *)
Definition main_links (idx : gmap Z CBlockIndex) : Prop := forall h b h', idx !! h = Some b -> pnext b = Some h' ->
  exists b', idx !! h' = Some b' /\ pprev b' = Some h /\ nHeight b' = nHeight b + 1.
(** the blocks [l] follow [f], each the predecessor of the next *)
Fixpoint linked (idx : gmap Z CBlockIndex) (f : Z) (l : list Z) : Prop :=
  match l with [] => True | h :: r => exists b, idx !! h = Some b /\ pprev b = Some f /\ linked idx h r end.
Definition last_of (f : Z) (l : list Z) : Z := default f (last l).
Lemma last_of_cons f h l : last_of f (h :: l) = last_of h l.
Proof. unfold last_of. rewrite last_cons. by destruct (last l). Qed.

Lemma next_of_linked idx f h : main_links idx -> next_of idx (Some f) = Some h -> exists b, idx !! h = Some b /\ pprev b = Some f.
Proof.
  intros Hm Hn. unfold next_of in Hn. destruct (idx !! f) as [bf|] eqn:Ef; [|done]. destruct (Hm f bf h Ef Hn) as (b & H1 & H2 & _). by exists b.
Qed.
Lemma next_hashes_spec idx hashStop : main_links idx -> forall n f l limited, next_hashes n idx (next_of idx (Some f)) hashStop = (l, limited) ->
  linked idx f l /\ hashStop ∉ l /\ (length l <= n)%nat /\ (limited = true -> length l = n /\ l <> []) /\
  (limited = false -> n = O \/ ((length l < n)%nat /\ (next_of idx (Some (last_of f l)) = None \/ next_of idx (Some (last_of f l)) = Some hashStop))).
Proof.
  intros Hm. induction n as [|n IH]; intros f l limited; cbn [next_hashes].
  { intros [= <- <-]. split_and!; try done; [apply not_elem_of_nil|by left]. }
  destruct (next_of idx (Some f)) as [h|] eqn:En.
  2:{ intros [= <- <-]. split_and!; try done; [apply not_elem_of_nil|cbn; lia|]. right. split; [cbn; lia|]. left. exact En. }
  destruct (next_of_linked idx f h Hm En) as (b & Hb & Hp). destruct (Z.eqb_spec h hashStop) as [->|Hne].
  { intros [= <- <-]. split_and!; try done; [apply not_elem_of_nil|cbn; lia|]. right. split; [cbn; lia|]. right. exact En. }
  destruct n as [|n].
  { intros [= <- <-]. split_and!; try done; [by exists b|rewrite list_elem_of_singleton; congruence]. }
  destruct (next_hashes (S n) idx (next_of idx (Some h)) hashStop) as [l' b'] eqn:E. intros [= <- <-].
  destruct (IH h l' b' E) as (H1 & H2 & H3 & H4 & H5). split_and!.
  - by exists b.
  - rewrite elem_of_cons. intros [?|?]; [congruence|done].
  - cbn [length]. lia.
  - intros Hb'. destruct (H4 Hb') as [H6 _]. split; [cbn [length]; lia|done].
  - intros Hb'. right. destruct (H5 Hb') as [?|[H6 H7]]; [done|]. split; [cbn [length]; lia|]. by rewrite last_of_cons.
Qed.
Lemma next_headers_spec idx hashStop : main_links idx -> forall n f, exists l, next_headers n idx (next_of idx (Some f)) hashStop = omap (fun h => block_of_header <$> (index_GetBlockHeader idx <$> idx !! h)) l /\
  linked idx f l /\ (length l <= n)%nat /\ hashStop ∉ removelast l /\
  (length l = n \/ last l = Some hashStop \/ next_of idx (Some (last_of f l)) = None).
Proof.
  intros Hm. induction n as [|n IH]; intros f; cbn [next_headers]; [exists []; split_and!; try done; [apply not_elem_of_nil|by left]|].
  destruct (next_of idx (Some f)) as [h|] eqn:En; [|exists []; split_and!; try done; [cbn; lia|apply not_elem_of_nil|by right; right]].
  destruct (next_of_linked idx f h Hm En) as (b & Hb & Hp). rewrite Hb. destruct (Z.eqb_spec h hashStop) as [->|Hne].
  - exists [hashStop]. cbn. rewrite Hb. cbn. split_and!; try done; [by exists b|lia|apply not_elem_of_nil|by right; left].
  - replace (pnext b) with (next_of idx (Some h)) by (unfold next_of; by rewrite Hb). destruct (IH h) as (l & -> & H1 & H2 & H3 & H4).
    exists (h :: l). cbn [omap list_omap]. rewrite Hb. split_and!; [done|by exists b|cbn [length]; lia| |].
    + destruct l as [|x l]; [apply not_elem_of_nil|]. cbn [removelast] in *. rewrite elem_of_cons. intros [?|?]; [congruence|done].
    + destruct H4 as [H4|[H4|H4]]; [left; cbn [length]; lia| |right; right; by rewrite last_of_cons]. right. left. rewrite last_cons, H4. done.
Qed.

Lemma push_all_inv l : forall i, setInventoryKnown (foldl (fun i h => PushInventory (MSG_BLOCK, h) i) i l) = setInventoryKnown i /\
  vInventoryToSend (foldl (fun i h => PushInventory (MSG_BLOCK, h) i) i l) =
    vInventoryToSend i ++ List.filter (fun inv => negb (Mru.count inv (setInventoryKnown i))) (map (fun h => (MSG_BLOCK, h)) l).
Proof.
  induction l as [|h l IH]; intros i; [cbn; by rewrite app_nil_r|]. cbn [foldl map List.filter]. destruct (IH (PushInventory (MSG_BLOCK, h) i)) as [-> ->].
  unfold PushInventory. destruct (Mru.count (MSG_BLOCK, h) (setInventoryKnown i)); cbn [negb setInventoryKnown vInventoryToSend]; [done|]. by rewrite <- app_assoc.
Qed.

(** ** Properties *)

Section ProtocolProperties.
Context {V : Type} {CV : CoinsView V} {CS : CoinsViewSpec V} {B : OpenSSLBN} {K : Crypto} {E : CacheEnv} (st : net_settings) (rand : nat -> Z).
Context (unread : Z -> storage -> CBlock) (fuel : nat) (rnd : nat -> Z) (age : Z -> nat).

(** C25: No message takes the node down.  Whatever command and contents a connected peer sends, of any length and in any state of the greeting: when
    the coins have a best block, validation ends for a block in it (with any verdict, or with an exception), such a block is younger than its predecessor in the order of [age] (blocks do not lead back to
    themselves), and the blocks it asks for through a filter can be read from the disk (a node that cannot read one reads past the end of an empty list), the message is worked off, with a verdict or with the exception of a read past its end; no
    assertion fails, no filter divides by zero, no null index is created and no missing entry is followed.  The node is left as consistent as it was, with the same
    peers, so the same holds for the next message. *)
Theorem ProcessMessage_safe D self now nonce strCommand vRecv (n : net V) : (2 <= fuel)%nat -> net_ok age D n -> self ∈ D ->
  validated st unread fuel age self strCommand vRecv n ->
  exists r n', ProcessMessage st rand unread fuel rnd self now nonce strCommand vRecv n = Some (r, n') /\ net_ok age D n'.
Proof.
  intros Hf H Hs Hv. unfold ProcessMessage. destruct (handle_ok st rand unread fuel rnd age D self now nonce strCommand vRecv n Hf H Hs Hv) as (h & w & -> & Hw).
  cbn [option_bind mbind]. destruct h as [|b|]; [|by eexists _, w|by eexists _, w]. unfold currently_connected.
  destruct (net_ok_peer D w self Hw Hs) as (p & -> & Hp). cbn [option_bind mbind]. eexists _, _. split; [done|]. case_if; [|done].
  apply put_manager_ok; [done|]. apply Connected_ok, (no_manager _ _ Hw).
Qed.

(** C26: Requests are answered in order, none is forgotten, and nothing else is given away.  One call works off a first part of the queue: each item is answered by
    what [answer] says (the block of the index, with the best block after the last of a batch; the transactions its filter lets through; the transaction to
    be relayed or in the pool), and those that were not found are listed in one "notfound" at the end; the wallets are told of each.  The call stops only at the end of the queue, after
    a block, or when the send buffer is full with the answers that were queued; unless it was full before, it works off at least one item.  The blocks that are asked for
    through a filter must be readable. *)
Theorem ProcessGetData_answers D self (n : net V) p : net_ok age D n -> self ∈ D -> vNodes n !! self = Some p -> Forall (showable unread n) (vRecvGetData (p_sync p)) ->
  exists n' p' done rest, ProcessGetData st unread self n = Some n' /\ net_ok age D n' /\ vNodes n' = <[self := p']> (vNodes n) /\
    vRecvGetData (p_sync p) = done ++ rest /\ vRecvGetData (p_sync p') = rest /\
    p_out p' = p_out p ++ concat (map (fun inv => default [] (answer unread n p inv)) done) ++ flush MNotfound (not_found unread n p done) [] /\
    wallet_calls n' = wallet_calls n ++ map (fun inv => CallInventory inv.2) done /\
    Forall (fun inv => is_block_request inv = false) (removelast done) /\
    (rest = [] \/ buffer_full st (p_out p ++ concat (map (fun inv => default [] (answer unread n p inv)) done)) = true \/ exists inv, last done = Some inv /\ is_block_request inv = true) /\
    (vRecvGetData (p_sync p) <> [] -> buffer_full st (p_out p) = false -> done <> []).
Proof.
  intros H Hs Hp Hsh. pose proof (no_peers _ _ H self p Hp) as Hok. destruct (ProcessGetData_ok st unread age D self n p H Hs Hp Hsh) as (w & Hw & Hwok).
  exists w. revert Hw. unfold ProcessGetData. rewrite Hp. cbn [option_bind mbind].
  destruct (get_loop_answers st unread n p (vRecvGetData (p_sync p)) Hsh [] [] p (po_filter _ Hok) eq_refl eq_refl eq_refl) as (dn & rest & q & s & -> & H1 & H2 & H3 & H4 & H5).
  cbn [option_bind mbind app]. intros [= <-]. eexists _, dn, rest. split; [done|]. split; [exact Hwok|]. split; [reflexivity|]. split_and!; try done.
  - cbn. rewrite flush_one, H2, <- app_assoc. done.
  - by rewrite <- H2.
Qed.

(** C27: "getblocks" is answered with the chain.  From the block [f] that the locator finds, the hashes queued for the peer are those of the blocks [l] of the main chain that follow [f], each the predecessor of the next,
    without those the peer knows; [hashStop] is not among them.  Either they are 500, and the last one is remembered as the one at which the peer will be
    told of the best block; or they go to the tip or to the block before [hashStop], and nothing is remembered. *)
Theorem getblocks_serves idx best genesis vHave hashStop f (p : peer) : main_links idx -> locator_GetBlockIndex idx best genesis vHave = Some f ->
  exists l, linked idx f l /\ hashStop ∉ l /\
    let p' := getblocks idx best genesis vHave hashStop p in
    vInventoryToSend (p_invs p') = vInventoryToSend (p_invs p) ++ List.filter (fun inv => negb (Mru.count inv (setInventoryKnown (p_invs p)))) (map (fun h => (MSG_BLOCK, h)) l) /\
    p_out p' = p_out p /\
    ((length l = 500%nat /\ last l = Some (hashContinue (p_sync p'))) \/
     ((length l < 500)%nat /\ p_sync p' = p_sync p /\ (next_of idx (Some (last_of f l)) = None \/ next_of idx (Some (last_of f l)) = Some hashStop))).
Proof.
  intros Hm Hf. unfold getblocks. rewrite Hf. destruct (next_hashes 500 idx (next_of idx (Some f)) hashStop) as [l limited] eqn:En.
  destruct (next_hashes_spec idx hashStop Hm 500 f l limited En) as (H1 & H2 & H3 & H4 & H5). exists l. split; [done|]. split; [done|].
  destruct (push_all_inv l (p_invs p)) as [Hk Hq]. destruct limited.
  - destruct (H4 eq_refl) as [Hl Hne]. destruct (last l) as [x|] eqn:El; [|by apply last_None in El]. cbn [with_sync with_invs p_invs p_out p_sync hashContinue]. split_and!; [done|done|by left].
  - cbn [with_invs p_invs p_out p_sync]. split_and!; [done|done|]. right. destruct (H5 eq_refl) as [?|[? ?]]; [done|]. by split_and!.
Qed.

(** "getheaders" is answered with the headers of the chain: those of the blocks that follow the one the locator finds, each the predecessor of the next, up to 2000, up to the tip, or up to
    and with [hashStop]; without a locator, with [hashStop] alone, or with nothing when this is unknown. *)
Theorem getheaders_serves idx best genesis vHave hashStop (p : peer) : main_links idx ->
  let p' := getheaders idx best genesis vHave hashStop p in
  (vHave = [] -> p_out p' = p_out p ++ match idx !! hashStop with Some pi => [MHeaders [block_of_header (index_GetBlockHeader idx pi)]] | None => [] end) /\
  (forall f, vHave <> [] -> locator_GetBlockIndex idx best genesis vHave = Some f ->
     exists l, p_out p' = p_out p ++ [MHeaders (omap (fun h => block_of_header <$> (index_GetBlockHeader idx <$> idx !! h)) l)] /\
       linked idx f l /\ (length l <= 2000)%nat /\ hashStop ∉ removelast l /\
       (length l = 2000%nat \/ last l = Some hashStop \/ next_of idx (Some (last_of f l)) = None)).
Proof.
  intros Hm p'. split.
  - intros ->. unfold p', getheaders. destruct (idx !! hashStop) as [pi|] eqn:Ei.
    + rewrite bool_decide_eq_true_2 by done. cbn [PushMessage p_out next_headers]. by rewrite Ei, Z.eqb_refl.
    + rewrite bool_decide_eq_false_2 by (by intros [? ?]). by rewrite app_nil_r.
  - intros f Hne Hf. unfold p', getheaders. destruct vHave as [|v r]; [done|]. rewrite Hf.
    destruct (next_headers_spec idx hashStop Hm 2000 f) as (l & Hl & H1 & H2 & H3 & H4). exists l. split; [|by split_and!]. cbn [PushMessage p_out]. by rewrite Hl.
Qed.
End ProtocolProperties.

(** ** Witnesses: a node with one peer, and a chain of three blocks *)

Definition demo_settings : net_settings :=
  {| s_node := orphan_settings; nBanScore := 100; nBanTime := 86400; fImporting := false; fReindex := false; fNoListen := false; nLocalServices := 1;
     FormatSubVersion := []; hashSalt := 5; trickleSalt := 6; buffer_full l := bool_decide (100 < length l)%nat; own_tx _ := false |}.
Definition demo_net (p : peer) : net memory_view :=
  {| n_chain := orphan_chain; n_blocks := no_orphans; n_txs := no_orphan_txs; n_asks := demo_asks; mapRelay := {[(MSG_TX, 77) := sample_tx]}; vRelayExpiration := [];
     n_manager := new_manager []; n_clock := new_clock; cPeerBlockCounts := new_median 5 0; setBanned := ∅; n_local := no_local_hosts; nLocalHostNonce := 0;
     nLastRebroadcast := 0; ibd_last := (None, 0); wallet_calls := []; vNodes := {[40 := p]} |}.
Definition demo_unread : Z -> storage -> CBlock := fun _ _ => null_block.
Definition asking_peer : peer := with_getdata [(MSG_TX, 78); (MSG_TX, 77); (MSG_BLOCK, 2); (MSG_TX, 79)] demo_peer_state.

Lemma demo_peer_ok : peer_ok demo_peer_state.
Proof. split; [apply Mru.new_mruset_ok|constructor|by left]. Qed.
Lemma demo_net_ok p : peer_ok p -> net_ok (K := ToyCrypto) (fun _ => 0%nat) {[40]} (demo_net p).
Proof.
  intros Hp. split; cbn [demo_net vNodes n_asks n_manager n_clock n_txs n_blocks].
  - apply dom_singleton_L.
  - by apply map_Forall_singleton.
  - apply demo_asks_ok.
  - apply new_manager_ok.
  - apply new_clock_ok.
  - apply no_orphan_txs_ok.
  - vm_compute. discriminate.
  - intros h b Hb. change (mapOrphanBlocks no_orphans) with (∅ : gmap Z CBlock) in Hb. by rewrite lookup_empty in Hb.
Qed.

(** the message with a payment *)
Lemma best_known : bool_decide (is_Some (Vt (pcoinsTip (n_chain (demo_net demo_peer_state))))) = true.
Proof. vm_compute. reflexivity. Qed.
Lemma ProcessMessage_safe_witness : exists r n',
  ProcessMessage (B := ZBN) (K := ToyCrypto) demo_settings (fun _ => 0) demo_unread 2 (fun _ => 0) 40 1400000000 9 (cmd "tx") (Serialize ser_CTransaction spend_tx) (demo_net demo_peer_state) = Some (r, n') /\
  net_ok (K := ToyCrypto) (fun _ => 0%nat) {[40]} n'.
Proof.
  apply (ProcessMessage_safe (V := memory_view) (B := ZBN) (K := ToyCrypto) demo_settings (fun _ => 0) demo_unread 2 (fun _ => 0) (fun _ => 0%nat) {[40]} 40 1400000000 9 (cmd "tx")
    (Serialize ser_CTransaction spend_tx) (demo_net demo_peer_state)).
  - exact (le_n 2).
  - apply demo_net_ok, demo_peer_ok.
  - by apply elem_of_singleton.
  - split; [|split].
    + intros _. exact (bool_decide_eq_true_1 _ best_known).
    + intros Hc. exfalso. revert Hc. apply (bool_decide_unpack _). vm_compute. exact I.
    + intros Hc. exfalso. revert Hc. apply (bool_decide_unpack _). vm_compute. exact I.
Defined.
Lemma ProcessGetData_answers_witness : exists n' p', ProcessGetData (B := ZBN) (K := ToyCrypto) demo_settings demo_unread 40 (demo_net asking_peer) = Some n' /\
  vNodes n' !! 40 = Some p' /\ exists done, done <> [] /\ vRecvGetData (p_sync asking_peer) = done ++ vRecvGetData (p_sync p') /\ Forall (fun inv => is_block_request inv = false) (removelast done).
Proof.
  destruct (ProcessGetData_answers (V := memory_view) (B := ZBN) (K := ToyCrypto) demo_settings demo_unread (fun _ => 0%nat) {[40]} 40 (demo_net asking_peer) asking_peer)
    as (n' & p' & done & rest & H1 & _ & H2 & H3 & H4 & _ & _ & H5 & _ & H6).
  - apply demo_net_ok. unfold asking_peer, with_getdata. apply sync_ok, demo_peer_ok.
  - by apply elem_of_singleton.
  - apply lookup_singleton_eq.
  - repeat constructor; discriminate.
  - exists n', p'. split; [exact H1|]. split; [rewrite H2; apply lookup_insert_eq|]. exists done. split; [by apply H6|]. split; [by rewrite H4|exact H5].
Defined.

Definition linked_index : gmap Z CBlockIndex :=
  <[1 := sample_entry None (Some 2) 0 1000]> (<[2 := sample_entry (Some 1) (Some 3) 1 1060]> {[3 := sample_entry (Some 2) None 2 1050]}).
Lemma linked_index_ok : main_links linked_index.
Proof.
  intros h b h' Hb Hn. unfold linked_index in *.
  apply lookup_insert_Some in Hb as [[<- <-]|[_ Hb]]; [injection Hn as <-; by eexists|].
  apply lookup_insert_Some in Hb as [[<- <-]|[_ Hb]]; [injection Hn as <-; by eexists|]. apply lookup_singleton_Some in Hb as [<- <-]. done.
Qed.
Lemma getblocks_serves_witness : exists l, linked linked_index 1 l /\ 0 ∉ l /\
  vInventoryToSend (p_invs (getblocks linked_index (Some 3) (Some 1) [1] 0 demo_peer_state)) = vInventoryToSend demo_invs ++ map (fun h => (MSG_BLOCK, h)) l.
Proof.
  destruct (getblocks_serves linked_index (Some 3) (Some 1) [1] 0 1 demo_peer_state linked_index_ok eq_refl) as (l & H1 & H2 & H3 & _).
  exists l. split; [exact H1|]. split; [exact H2|]. rewrite H3. f_equal. clear. induction l as [|h l IH]; [done|]. cbn [map List.filter]. by rewrite IH.
Defined.
Example getblocks_three : vInventoryToSend (p_invs (getblocks linked_index (Some 3) (Some 1) [1] 0 demo_peer_state)) = vInventoryToSend demo_invs ++ [(MSG_BLOCK, 2); (MSG_BLOCK, 3)].
Proof. vm_compute. reflexivity. Qed.
Lemma getheaders_serves_witness : exists l, p_out (getheaders linked_index (Some 3) (Some 1) [1] 0 demo_peer_state) =
  [MHeaders (omap (fun h => block_of_header <$> (index_GetBlockHeader linked_index <$> linked_index !! h)) l)] /\ linked linked_index 1 l.
Proof.
  destruct (getheaders_serves linked_index (Some 3) (Some 1) [1] 0 demo_peer_state linked_index_ok) as [_ H].
  destruct (H 1) as (l & H1 & H2 & _); [discriminate|reflexivity|]. exists l. split; [exact H1|exact H2].
Defined.
