(* ===== verification/Filtered.v ===== *)
(** * Blocks through a filter, and greetings cut short (main.cpp)

    What a peer with a filter gets of a block ([CMerkleBlock]), and what a "version" message that ends too early leaves behind.  The
    properties: the partial tree that is sent proves exactly the transactions that matched, and no relevant one is missed; the header that goes
    with it is not that of the block; and a greeting of four bytes is taken for a greeting. *)

From stdpp Require Import gmap.
From Stdlib Require Import Strings.String.
From S2P Require Import Prelude OpenSSL BigNum Target PrimeChain Serialize Crypto Script Transaction ScriptEval ScriptStd Coins View Merkle Block BlockFile Chain Supply Connect Mempool Text Bloom NetAddr Limited Local Peer AddrMan Clock Best Accept OrphanTx Net Handlers Protocol.
Local Open Scope Z_scope.

(** the message "merkleblock"; the matches are not sent *)
Definition ser_CMerkleBlock {B : OpenSSLBN} : codec CMerkleBlock :=
  ser_iso (ser_pair ser_CBlockHeader ser_CPartialMerkleTree) (fun m => (mb_header m, mb_txn m)) (fun '(h, t) => {| mb_header := h; mb_txn := t; vMatchedTxn := [] |}).
(** a "version" message that ends after the version *)
Definition cut_short (v : Z) : bytes := Serialize (ser_sint 4) v.

(** the marks and the list of the matches agree *)
Lemma match_txs_spec l : forall hs i f, usable f -> length hs = length l -> exists m matched f', match_txs l hs i f = Some (m, matched, f') /\ usable f' /\
  (forall k, answers f k -> answers f' k) /\ length m = length l /\
  matched = map (fun j => ((i + j)%nat, nth j hs 0)) (filter (fun j => nth j m false = true) (seq 0 (length l))) /\
  (forall j tx, l !! j = Some tx -> relevant f tx (nth j hs 0) -> nth j m false = true).
Proof.
  induction l as [|tx l IH]; intros [|h hs] i f Hu Hl; try done; [by exists [], [], f|]. cbn [match_txs]. injection Hl as Hl.
  destruct (IsRelevantAndUpdate_spec tx h f Hu) as (r & f1 & -> & H1 & _ & Hs & Hk & _). cbn [option_bind mbind].
  destruct (IH hs (S i) f1 (usable_shape _ _ Hs Hu) Hl) as (m & matched & f2 & -> & Hu2 & Hk2 & Hm & -> & Hall). cbn [option_bind mbind].
  eexists (r :: m), _, f2. split; [done|]. split; [done|]. split; [auto|]. split; [cbn; by rewrite Hm|]. split.
  - cbn [length seq]. rewrite <- seq_shift. rewrite filter_cons.
    assert (Hrest : filter (fun j => nth j (r :: m) false = true) (map S (seq 0 (length l))) = map S (filter (fun j => nth j m false = true) (seq 0 (length l)))).
    { generalize (seq 0 (length l)) as q. intros q. induction q as [|j q IHq]; [done|]. cbn [map]. rewrite !filter_cons. rewrite IHq. change (nth (S j) (r :: m) false) with (nth j m false). by case_decide. }
    rewrite Hrest. assert (Hmap : map (fun j => ((i + j)%nat, nth j (h :: hs) 0)) (map S (filter (fun j => nth j m false = true) (seq 0 (length l)))) =
      map (fun j => ((S i + j)%nat, nth j hs 0)) (filter (fun j => nth j m false = true) (seq 0 (length l)))).
    { rewrite map_map. apply map_ext. intros j. cbn. f_equal. lia. }
    change (nth 0 (r :: m) false) with r. destruct r; [rewrite decide_True by done; cbn [map]; rewrite Hmap, Nat.add_0_r; reflexivity|rewrite decide_False by done; by rewrite Hmap].
  - intros [|j] t Ht Hr; cbn [nth] in *; [injection Ht as ->; auto|]. apply (Hall j t Ht). destruct Hr as [Hr|[(o & Ho & Hr)|(x & Hx & Hr)]].
    + left. auto.
    + right. left. exists o. split; [done|]. by apply (knows_mono f).
    + right. right. exists x. split; [done|]. destruct Hr as [Hr|Hr]; [left; auto|right; by apply (knows_mono f)].
Qed.

(** ** Properties *)

Section FilteredProperties.
Context {B : OpenSSLBN} {L : OpenSSLBNLaws B} {K : Crypto} {KL : CryptoLaws K}.

(** the header without its certificate can be sent *)
Lemma GetBlockHeader_valid b : valid_header (blk_header b) -> valid_header (GetBlockHeader b) /\ Z.of_nat (length (getvch (bnPrimeChainMultiplier (GetBlockHeader b)))) <= MAX_SIZE.
Proof. intros Hv. split; [exact Hv|]. rewrite getvch_eq. vm_compute. discriminate. Qed.

(** C30: A light client misses nothing.  A block of up to 16666 transactions, shown through a filter that can be used: every transaction that is relevant to the filter is
    among the matches, which are transactions of the block in the order of the block; and the message, once read from the
    bytes, proves to the client the Merkle root of the block and exactly the hashes of the matches. *)
Theorem filtered_block b f s : usable f -> 0 < Z.of_nat (length (vtx b)) <= MAX_BLOCK_SIZE / 60 -> valid_header (blk_header b) ->
  exists mb f', new_CMerkleBlock b f = Some (mb, f') /\ usable f' /\
    (forall tx, tx ∈ vtx b -> relevant f tx (GetHash tx) -> GetHash tx ∈ map snd (vMatchedTxn mb)) /\
    (forall j h, (j, h) ∈ vMatchedTxn mb -> exists tx, vtx b !! j = Some tx /\ h = GetHash tx) /\
    map fst (vMatchedTxn mb) `sublist_of` seq 0 (length (vtx b)) /\
    exists mb', Unserialize ser_CMerkleBlock (Serialize ser_CMerkleBlock mb ++ s) = Some (mb', s) /\ mb_header mb' = GetBlockHeader b /\
      ExtractMatches (mb_txn mb') = (BuildMerkleTree (txids b), map snd (vMatchedTxn mb)).
Proof.
  intros Hu Hn Hv. assert (Hl : length (txids b) = length (vtx b)) by apply length_map. unfold new_CMerkleBlock.
  destruct (match_txs_spec (vtx b) (txids b) 0 f Hu Hl) as (m & matched & f' & -> & Hu' & _ & Hm & Hmatched & Hall). cbn [option_bind mbind].
  destruct (partial_tree_read (txids b) m s) as (t & Hnew & _ & t' & Ht & He); [by rewrite Hl|by rewrite Hl| |].
  { apply Forall_map, Forall_forall. intros x _. apply Hash_range. }
  rewrite Hnew. cbn [option_bind mbind]. eexists _, f'. split; [done|]. split; [done|]. cbn [vMatchedTxn mb_header mb_txn].
  assert (Hfst : map fst matched = filter (fun j => nth j m false = true) (seq 0 (length (vtx b)))) by (rewrite Hmatched, map_map; apply map_id).
  assert (Hsnd : map snd matched = map (fun j => nth j (txids b) 0) (filter (fun j => nth j m false = true) (seq 0 (length (vtx b))))) by (by rewrite Hmatched, map_map).
  assert (Hid : forall j tx, vtx b !! j = Some tx -> nth j (txids b) 0 = GetHash tx).
  { intros j tx Hj. unfold txids. rewrite nth_lookup. change (map GetHash (vtx b)) with (GetHash <$> vtx b). by rewrite list_lookup_fmap, Hj. }
  split_and!.
  - intros tx Hin Hr. apply list_elem_of_lookup in Hin as [j Hj]. rewrite Hsnd. apply list_elem_of_fmap. exists j. split; [by rewrite (Hid j tx)|].
    apply list_elem_of_filter. split; [apply (Hall j tx Hj); by rewrite (Hid j tx)|]. apply elem_of_seq. apply lookup_lt_Some in Hj. lia.
  - intros j h Hj. rewrite Hmatched in Hj. apply list_elem_of_fmap in Hj as (k & [= -> ->] & Hk). apply list_elem_of_filter in Hk as [_ Hk]. apply elem_of_seq in Hk.
    destruct (lookup_lt_is_Some_2 (vtx b) k) as [tx Htx]; [lia|]. exists tx. split; [done|by apply Hid].
  - rewrite Hfst. apply sublist_filter.
  - rewrite Hsnd. eexists. unfold ser_CMerkleBlock. cbn [ser_iso ser_pair Serialize Unserialize mb_header mb_txn]. rewrite <- app_assoc.
    rewrite (ser_roundtrip (c := ser_CBlockHeader)) by by apply GetBlockHeader_valid. cbn [option_bind mbind]. rewrite Ht. cbn [option_bind mbind]. split; [done|]. split; [done|].
    cbn [mb_txn]. rewrite He, Hl. done.
Qed.

(** The header that a light client gets is not the header of the block: the certificate is left out, so that whenever the block has one (its multiplier is not zero), the header hashes to something else than the
    block, unless double SHA-256 collides. *)
Theorem filtered_header_differs b f mb f' : new_CMerkleBlock b f = Some (mb, f') -> valid_header (blk_header b) ->
  Z.of_nat (length (getvch (bnPrimeChainMultiplier (blk_header b)))) <= MAX_SIZE -> bnPrimeChainMultiplier (blk_header b) <> 0 ->
  header_GetHash (mb_header mb) <> block_GetHash b \/ collision.
Proof.
  intros Hmb Hv Hs Hne. destruct (decide (header_GetHash (mb_header mb) = block_GetHash b)) as [Hh|]; [right|by left]. unfold new_CMerkleBlock in Hmb. destruct (match_txs _ _ _ _) as [[[m matched] g]|]; [|done]. cbn [option_bind mbind] in Hmb.
  destruct (new_partial_tree _ _) as [t|]; [|done]. cbn [option_bind mbind] in Hmb. injection Hmb as <- <-.
  cbn [mb_header] in Hh. unfold block_GetHash, header_GetHash, SerializeHash in Hh. apply (f_equal uint256_bytes) in Hh. rewrite !Hash_uint256 in Hh.
  eexists _, _. split; [|exact Hh]. intros He.
  pose proof (ser_roundtrip (c := ser_CBlockHeader) (GetBlockHeader b) []) as R1. pose proof (ser_roundtrip (c := ser_CBlockHeader) (blk_header b) []) as R2.
  rewrite He, R2 in R1 by done. assert (Hx : blk_header b = GetBlockHeader b) by (assert (Hy : Some (blk_header b, ([] : bytes)) = Some (GetBlockHeader b, [])) by (by apply R1, GetBlockHeader_valid); congruence).
  apply Hne. rewrite Hx. done.
Qed.
End FilteredProperties.

(** ** A block that cannot be read *)

Section Unread.
Context {V : Type} {B : OpenSSLBN} {K : Crypto} (unread : Z -> storage -> CBlock).
(** [ProcessGetData] does not look at the result of [ReadFromDisk]: when a block that is asked for through a filter cannot be read and is left empty, the building of its partial tree
    reads the first of no hashes. *)
Lemma unread_block_undefined inv (n : net V) p s pi : inv.1 = MSG_FILTERED_BLOCK -> idx_of n !! inv.2 = Some pi -> vtx (read_index unread inv.2 pi s).1 = [] ->
  get_one unread inv n p s = None.
Proof.
  intros Hi Hp Hb. unfold get_one, is_block_request. rewrite Hi, Hp. change (MSG_FILTERED_BLOCK =? MSG_FILTERED_BLOCK) with true. rewrite orb_true_r. destruct (read_index _ _ _ _) as [b s']. cbn [fst] in Hb.
  unfold push_block. rewrite Hi. change (MSG_FILTERED_BLOCK =? MSG_BLOCK) with false. cbv iota. unfold new_CMerkleBlock, txids. rewrite Hb. reflexivity.
Qed.
End Unread.

(** ** A greeting of four bytes *)

Section Greeting.
Context {V : Type} {CV : CoinsView V} {B : OpenSSLBN} {K : Crypto} {E : CacheEnv} (st : net_settings) (rand : nat -> Z).
Context (unread : Z -> storage -> CBlock) (fuel : nat) (rnd : nat -> Z).

(** C31: A greeting that is cut short counts as one.  When the first message of a peer is a "version" of four bytes, reading it throws, nothing is answered, and the connection is not
    complete; but the version is set.  From then on the peer is served as if it had greeted the node (its "ping", say, is answered), and a complete
    greeting that follows is refused and punished, whatever it says. *)
Theorem short_greeting self now nonce v (n : net V) p : vNodes n !! self = Some p -> nVersion (p_greeting p) = 0 -> - 2 ^ 31 <= v < 2 ^ 31 -> v <> 0 ->
  exists n', ProcessMessage st rand unread fuel rnd self now nonce (cmd "version") (cut_short v) n = Some (Throw, n') /\
    n' = put_nodes (<[self := with_greeting (put_version v) p]> (vNodes n)) n /\
    (forall vRecv, ProcessMessage st rand unread fuel rnd self now nonce (cmd "version") vRecv n' =
       (let? w := punish st self now 1 n' in Some (Ret false, w))) /\
    (forall k, BIP0031_VERSION < v -> 0 <= k < 2 ^ 64 -> fNetworkNode (p_greeting p) = false ->
       ProcessMessage st rand unread fuel rnd self now nonce (cmd "ping") (Serialize (ser_uint 8) k) n' = Some (Ret true, on_peer self (PushMessage (MPong k)) n')).
Proof.
  intros Hp H0 Hv Hne.
  pose proof (ser_roundtrip (c := ser_sint 4) v [] Hv) as Hr. rewrite app_nil_r in Hr. fold (cut_short v) in Hr.
  set (n' := put_nodes (<[self := with_greeting (put_version v) p]> (vNodes n)) n).
  assert (Hp' : vNodes n' !! self = Some (with_greeting (put_version v) p)) by (cbn; by rewrite lookup_insert_eq).
  exists n'. split_and!.
  - unfold ProcessMessage, handle. rewrite Hp. cbn [option_bind mbind]. change (is_cmd (cmd "version") "version") with true. rewrite H0. change (negb (0 =? 0)) with false.
    cbv iota. unfold on_version, read_version. rewrite Hp, Hr. cbn [option_bind mbind]. change (Unserialize (ser_uint 8) []) with (@None (Z * bytes)).
    cbn [option_bind mbind]. do 2 f_equal. unfold n', on_peer. do 2 f_equal. apply map_eq. intros k. destruct (decide (k = self)) as [->|Hk].
    + rewrite lookup_alter_eq, lookup_insert_eq, Hp. done.
    + by rewrite lookup_alter_ne, lookup_insert_ne.
  - done.
  - intros vRecv. unfold ProcessMessage, handle. rewrite Hp'. cbn [option_bind mbind]. change (is_cmd (cmd "version") "version") with true. cbn [with_greeting p_greeting put_version nVersion].
    rewrite (proj2 (Z.eqb_neq v 0) Hne). cbn [negb]. cbv iota. destruct (punish st self now 1 n'); done.
  - intros k Hb Hk Hf. pose proof (ser_roundtrip (c := ser_uint 8) k [] Hk) as Hr8. rewrite app_nil_r in Hr8. unfold ProcessMessage, handle. rewrite Hp'.
    cbn [option_bind mbind with_greeting p_greeting put_version nVersion]. rewrite (proj2 (Z.eqb_neq v 0) Hne).
    repeat match goal with |- context [is_cmd (cmd ?a) ?b] => let t := eval vm_compute in (is_cmd (cmd a) b) in change (is_cmd (cmd a) b) with t end.
    cbn [andb]. cbv iota. unfold on_ping. rewrite Hp'. cbn [option_bind mbind with_greeting p_greeting put_version nVersion].
    rewrite (proj2 (Z.ltb_lt _ _) Hb), Hr8. cbn [ok option_bind mbind]. unfold currently_connected. cbn [on_peer put_nodes vNodes]. rewrite lookup_alter_eq, Hp'.
    cbn [option_bind mbind option_map fmap option_fmap PushMessage p_greeting with_greeting put_version fNetworkNode]. rewrite Hf. done.
Qed.
End Greeting.

(** ** Witnesses *)

Definition certified_block : CBlock := sample_block [sample_coinbase; sample_tx].
Lemma certified_header_valid : valid_header (blk_header certified_block).
Proof. exact (proj1 (proj1 sample_block_valid)). Qed.

Lemma filtered_block_witness : exists mb f', new_CMerkleBlock (K := ToyCrypto) certified_block full_filter = Some (mb, f') /\
  GetHash (K := ToyCrypto) sample_tx ∈ map snd (vMatchedTxn mb) /\
  exists mb', Unserialize (ser_CMerkleBlock (B := ZBN)) (Serialize (ser_CMerkleBlock (B := ZBN)) mb ++ [7]) = Some (mb', [7]) /\
    ExtractMatches (K := ToyCrypto) (mb_txn mb') = (BuildMerkleTree (K := ToyCrypto) (txids (K := ToyCrypto) certified_block), map snd (vMatchedTxn mb)).
Proof.
  destruct (filtered_block (B := ZBN) (K := ToyCrypto) certified_block full_filter [7]) as (mb & f' & H1 & _ & H2 & _ & _ & mb' & H3 & _ & H4).
  - apply full_usable.
  - vm_compute. split; [reflexivity|discriminate].
  - exact certified_header_valid.
  - exists mb, f'. split; [exact H1|]. split; [|exists mb'; split; [exact H3|exact H4]]. apply H2; [right; left|]. left. reflexivity.
Defined.
Lemma filtered_header_differs_witness : exists mb f', new_CMerkleBlock (K := ToyCrypto) certified_block full_filter = Some (mb, f') /\
  (header_GetHash (B := ZBN) (K := ToyCrypto) (mb_header mb) <> block_GetHash (B := ZBN) (K := ToyCrypto) certified_block \/ collision (K := ToyCrypto)).
Proof.
  destruct (match_txs_spec (vtx certified_block) (txids (K := ToyCrypto) certified_block) 0 full_filter full_usable eq_refl) as (m & matched & f' & Hm & _).
  assert (Hn : new_CMerkleBlock (K := ToyCrypto) certified_block full_filter =
    Some ({| mb_header := GetBlockHeader certified_block; mb_txn := partial_tree (K := ToyCrypto) (txids (K := ToyCrypto) certified_block) m; vMatchedTxn := matched |}, f'))
    by (unfold new_CMerkleBlock; rewrite Hm; cbn [option_bind mbind]; rewrite new_partial_tree_reads by (cbn; lia); reflexivity).
  eexists _, f'. split; [exact Hn|].
  apply (filtered_header_differs (B := ZBN) (K := ToyCrypto) certified_block full_filter _ f' Hn certified_header_valid).
  - vm_compute. discriminate.
  - discriminate.
Defined.

Definition new_peer : peer :=
  with_greeting (fun g => {| g_addr := g_addr g; nVersion := 0; nServices := 0; addrLocal := service_Init; strSubVer := []; cleanSubVer := []; nStartingHeight := -1;
    fOneShot := false; fClient := false; fInbound := true; fNetworkNode := false; fSuccessfullyConnected := false; fRelayTxes := false; nSendVersion := 209; nRecvVersion := 209 |}) demo_peer_state.
Lemma short_greeting_witness : exists n',
  ProcessMessage (B := ZBN) (K := ToyCrypto) demo_settings (fun _ => 0) demo_unread 2 (fun _ => 0) 40 1400000000 9 (cmd "version") (cut_short 70001) (demo_net new_peer) = Some (Throw, n') /\
  ProcessMessage (B := ZBN) (K := ToyCrypto) demo_settings (fun _ => 0) demo_unread 2 (fun _ => 0) 40 1400000000 9 (cmd "ping") (Serialize (ser_uint 8) 5) n' =
    Some (Ret true, on_peer 40 (PushMessage (MPong 5)) n').
Proof.
  destruct (short_greeting (V := memory_view) (B := ZBN) (K := ToyCrypto) demo_settings (fun _ => 0) demo_unread 2 (fun _ => 0) 40 1400000000 9 70001 (demo_net new_peer) new_peer)
    as (n' & H1 & _ & _ & H2).
  - apply lookup_singleton_eq.
  - reflexivity.
  - split; [discriminate|reflexivity].
  - discriminate.
  - exists n'. split; [exact H1|]. apply H2; [reflexivity|split; [discriminate|reflexivity]|reflexivity].
Defined.
