(* ===== verification/Reorg.v ===== *)
(** * The coins always belong to the chain (main.cpp)

    What [SetBestChain] promises: the coins it leaves are those of the chain that ends at its best block, whatever
    branch was disconnected on the way.  The specification [coins_at] replays a chain from its first block on abstract
    sets of unspent outputs.  The invariant [files_ok] ties the block index to the block and undo files. *)

From stdpp Require Import gmap.
From S2P Require Import Prelude OpenSSL BigNum Target PrimeChain Serialize Crypto Script Transaction ScriptEval ScriptStd Coins View Merkle Block BlockFile Chain Supply Connect Reads Progress Mempool Utxo Best.
Local Open Scope Z_scope.

Abbreviation utxo := (gmap Z CCoins) (only parsing).
Abbreviation index_map := (gmap Z CBlockIndex) (only parsing).

(** the transactions of a block with their ids *)
Definition with_ids {K : Crypto} (b : CBlock) : list (CTransaction * Z) := zip (vtx b) (txids b).
Definition utxo_ok (u : utxo) : Prop := map_Forall (fun _ c => coins_ok c) u.

(** ** Replaying a chain *)

Section Replay.
Context {K : Crypto} (genesis : Z) (blocks : Z -> CBlock).

(** the coins after a block: the first block leaves none *)
Inductive coins_at (idx : index_map) : option Z -> utxo -> Prop :=
| at_none : coins_at idx None ∅
| at_genesis pi : idx !! genesis = Some pi -> pprev pi = None -> coins_at idx (Some genesis) ∅
| at_block h pi q u u' : idx !! h = Some pi -> h <> genesis -> pprev pi = Some q -> coins_at idx (Some q) u ->
    apply_txs (nHeight pi) (with_ids (blocks h)) u = Some u' -> coins_at idx (Some h) u'.

(** they are determined by the block *)
Lemma coins_at_fun idx p u1 u2 : coins_at idx p u1 -> coins_at idx p u2 -> u1 = u2.
Proof.
  intros H1. revert u2. induction H1 as [|pi Hi Hp|h pi q u u' Hi Hh Hp H1 IH Ha]; intros u2 H2; inversion H2; simplify_eq; try done.
  match goal with H : coins_at idx (Some q) _ |- _ => apply IH in H; subst end. congruence.
Qed.

(** what of an index never changes *)
Definition place (b : CBlockIndex) : option Z * Z := (pprev b, nHeight b).
Definition same_tree (i1 i2 : index_map) : Prop := forall h, place <$> i2 !! h = place <$> i1 !! h.

#[export] Instance same_tree_equivalence : Equivalence same_tree.
Proof. split; [by intros i h|by intros i j H h|]. intros i j k H1 H2 h. by rewrite H2. Qed.

Lemma same_tree_lookup i1 i2 h b : same_tree i1 i2 -> i1 !! h = Some b -> exists b', i2 !! h = Some b' /\ pprev b' = pprev b /\ nHeight b' = nHeight b.
Proof. intros H Hb. specialize (H h). rewrite Hb in H. destruct (i2 !! h) as [b'|]; [|done]. exists b'. cbn in H. by injection H as -> ->. Qed.

Lemma coins_at_tree i1 i2 p u : same_tree i1 i2 -> coins_at i1 p u -> coins_at i2 p u.
Proof.
  intros Ht. induction 1 as [|pi Hi Hp|h pi q u u' Hi Hh Hp H1 IH Ha]; [constructor| |].
  - destruct (same_tree_lookup _ _ _ _ Ht Hi) as (b & Hb & Hq & _). apply (at_genesis _ b); congruence.
  - destruct (same_tree_lookup _ _ _ _ Ht Hi) as (b & Hb & Hq & Hn). apply (at_block _ _ b q u); congruence.
Qed.

Lemma height_of_tree i1 i2 p : same_tree i1 i2 -> height_of i2 p = height_of i1 p.
Proof.
  intros Ht. destruct p as [h|]; [|done]. cbn. specialize (Ht h). destruct (i1 !! h), (i2 !! h); try done. cbn in Ht. by injection Ht.
Qed.
Lemma prev_of_tree i1 i2 p : same_tree i1 i2 -> prev_of i2 p = prev_of i1 p.
Proof.
  intros Ht. destruct p as [h|]; [|done]. unfold prev_of. cbn. specialize (Ht h). destruct (i1 !! h), (i2 !! h); try done. cbn in Ht. by injection Ht.
Qed.
Lemma ref_of_tree i1 i2 p : same_tree i1 i2 -> ref_of i2 p = ref_of i1 p.
Proof. intros Ht. destruct p as [h|]; [|done]. unfold ref_of. cbn -[height_of]. by rewrite (height_of_tree i1). Qed.
End Replay.

(** ** The index and the files *)

(** assignments that do not move the data of a block *)
Definition similar (b b' : CBlockIndex) : Prop :=
  place b' = place b /\ nFile b' = nFile b /\ nDataPos b' = nDataPos b /\ nUndoPos b' = nUndoPos b /\
  Z.land (nStatus b') BLOCK_HAVE_DATA = Z.land (nStatus b) BLOCK_HAVE_DATA /\ Z.land (nStatus b') BLOCK_HAVE_UNDO = Z.land (nStatus b) BLOCK_HAVE_UNDO.

#[export] Instance similar_equivalence : Equivalence similar.
Proof.
  unfold similar. split; [by intros b; split_and!|by intros b c; intros (? & ? & ? & ? & ? & ?); split_and!|].
  intros a b c (? & ? & ? & ? & ? & ?) (? & ? & ? & ? & ? & ?). split_and!; congruence.
Qed.

Lemma similar_pos b b' : similar b b' -> GetBlockPos b' = GetBlockPos b /\ GetUndoPos b' = GetUndoPos b.
Proof. intros (_ & H1 & H2 & H3 & H4 & H5). unfold GetBlockPos, GetUndoPos. by rewrite H1, H2, H3, H4, H5. Qed.

(** a bit that an assignment to the status leaves alone *)
Lemma keep_bit s m m' k : Z.land m k = 0 -> Z.land m' k = k -> Z.land (Z.lor (Z.land s m') m) k = Z.land s k.
Proof. intros H1 H2. by rewrite Z.land_lor_distr_l, H1, Z.lor_0_r, <- Z.land_assoc, H2. Qed.

Lemma similar_status b k : Z.land k BLOCK_HAVE_MASK = 0 -> similar b (set_nStatus (Z.lor (nStatus b) k) b).
Proof.
  intros H. unfold similar. split_and!; try done.
  - cbn [set_nStatus set_undo_status nStatus]. rewrite <- (Z.land_m1_r (nStatus b)) at 1. apply keep_bit; [|done].
    change BLOCK_HAVE_DATA with (Z.land BLOCK_HAVE_MASK BLOCK_HAVE_DATA). by rewrite Z.land_assoc, H.
  - cbn [set_nStatus set_undo_status nStatus]. rewrite <- (Z.land_m1_r (nStatus b)) at 1. apply keep_bit; [|done].
    change BLOCK_HAVE_UNDO with (Z.land BLOCK_HAVE_MASK BLOCK_HAVE_UNDO). by rewrite Z.land_assoc, H.
Qed.

Lemma similar_scripts b : similar b (set_nStatus (Z.lor (Z.land (nStatus b) (Z.lnot BLOCK_VALID_MASK)) BLOCK_VALID_SCRIPTS) b).
Proof. unfold similar. split_and!; try done; by apply keep_bit. Qed.

Definition similar_index (i1 i2 : index_map) : Prop := forall h, option_Forall2 similar (i1 !! h) (i2 !! h).

#[export] Instance similar_index_equivalence : Equivalence similar_index.
Proof.
  split; [by intros i h|by intros i j H h; symmetry|]. intros i j k H1 H2 h. etrans; [apply H1|apply H2].
Qed.

Lemma similar_tree i1 i2 : similar_index i1 i2 -> same_tree i1 i2.
Proof. intros H h. destruct (H h) as [b b' Hb|]; [|done]. cbn. f_equal. apply Hb. Qed.

Lemma similar_insert idx h b b' : idx !! h = Some b -> similar b b' -> similar_index idx (<[h := b']> idx).
Proof.
  intros Hb Hs k. destruct (decide (k = h)) as [->|Hk]; [rewrite lookup_insert_eq, Hb; by constructor|by rewrite lookup_insert_ne].
Qed.

Lemma similar_alter idx h f : (forall b, similar b (f b)) -> similar_index idx (alter f h idx).
Proof.
  intros Hf k. destruct (decide (k = h)) as [->|Hk]; [|by rewrite lookup_alter_ne]. rewrite lookup_alter_eq.
  destruct (idx !! h); cbn; by constructor.
Qed.

Lemma similar_link idx h : similar_index idx (link idx h) /\ similar_index idx (unlink idx h).
Proof. unfold link, unlink. destruct (prev_of idx (Some h)); [|done]. split; by apply similar_alter. Qed.

Lemma similar_foldl (f : index_map -> Z -> index_map) l idx : (forall i h, similar_index i (f i h)) -> similar_index idx (foldl f idx l).
Proof. intros Hf. revert idx. induction l as [|h l IH]; intros idx; [done|]. cbn. etrans; [apply Hf|apply IH]. Qed.

(** ** The invariant of the files *)

Section Files.
Context {V : Type} {CV : CoinsView V} {CS : CoinsViewSpec V} {B : OpenSSLBN} {L : OpenSSLBNLaws B} {K : Crypto} {KL : CryptoLaws K} {E : CacheEnv}.
Context (genesis : Z) (blocks : Z -> CBlock).
Abbreviation view := (CCoinsViewCache V).

(** undo data takes any view with the coins after a block back to the coins before *)
Definition reverts (nHeight : Z) (l : list (CTransaction * Z)) (undo : CBlockUndo) (u' u : utxo) : Prop :=
  S (length undo) = length l /\
  forall w : view, represents w u' -> exists w', disconnect_txs nHeight (rev l) (rev undo) true w = Some (true, w') /\ represents w' u.

Definition block_at (s : storage) (h : Z) (pi : CBlockIndex) : Prop :=
  valid_block (blocks h) /\ intact s Blk (GetBlockPos pi) (Serialize ser_CBlock (blocks h)).
Definition undo_at (idx : index_map) (s : storage) (h : Z) (pi : CBlockIndex) : Prop :=
  exists q u undo u', pprev pi = Some q /\ h <> genesis /\ coins_at genesis blocks idx (Some q) u /\ utxo_ok u /\
    apply_txs (nHeight pi) (with_ids (blocks h)) u = Some u' /\ reverts (nHeight pi) (with_ids (blocks h)) undo u' u /\
    sized (sized valid_undo) undo /\ intact s Rev (GetUndoPos pi) (undo_bytes undo q).

(** what the status says is there is there; heights are in range, the rule against overwriting applies, and only the first
    block has no predecessor *)
Record entry_ok (idx : index_map) (s : storage) (h : Z) (pi : CBlockIndex) : Prop := {
  eo_block : Z.land (nStatus pi) BLOCK_HAVE_DATA <> 0 -> block_at s h pi;
  eo_undo : Z.land (nStatus pi) BLOCK_HAVE_UNDO <> 0 -> undo_at idx s h pi;
  eo_height : h <> genesis -> 0 < nHeight pi < 2 ^ 31;
  eo_unique : h <> genesis -> fEnforceBIP30 (Some h) (nHeight pi) = true;
  eo_genesis : pprev pi = None <-> h = genesis;
}.
Definition files_ok (idx : index_map) (s : storage) : Prop := storage_inv s /\ map_Forall (entry_ok idx s) idx.

Lemma entry_ok_mono i1 i2 s s' h b b' : same_tree i1 i2 -> grows s s' -> similar b b' -> entry_ok i1 s h b -> entry_ok i2 s' h b'.
Proof.
  intros Ht Hg Hb [H1 H2 H3 H4 H5]. pose proof (similar_pos _ _ Hb) as [Hp1 Hp2]. destruct Hb as (Hpl & _ & _ & _ & Hd & Hu).
  injection Hpl as Hpp Hhh. split; rewrite ?Hd, ?Hu, ?Hhh, ?Hpp; try done.
  - intros Hx. destruct (H1 Hx) as [Hv Hi]. split; [done|]. rewrite Hp1. by eapply intact_grows.
  - intros Hx. destruct (H2 Hx) as (q & u & un & u' & Hq & Hn & Hc & Huo & Ha & Hr & Hs & Hi). exists q, u, un, u'. rewrite Hp2, Hpp, Hhh.
    split_and!; try done; [by eapply coins_at_tree|by eapply intact_grows].
Qed.

Lemma files_ok_mono i1 i2 s s' : similar_index i1 i2 -> grows s s' -> storage_inv s' -> files_ok i1 s -> files_ok i2 s'.
Proof.
  intros Hi Hg Hs [_ Hf]. split; [done|]. intros h b' Hb'. pose proof (Hi h) as Hh. rewrite Hb' in Hh. inversion Hh as [b ? Hbb Hb|]; subst.
  eapply (entry_ok_mono i1 i2 s s' h b b'); [by apply similar_tree|done|done|]. apply Hf. done.
Qed.

Lemma files_ok_disk i s s' : grows s s' /\ same_records s s' -> files_ok i s -> files_ok i s'.
Proof. intros [Hg Hr] [Hs Hf]. apply (files_ok_mono i i s s'); [done|done|by eapply same_records_inv|done]. Qed.

(** new undo data *)
Lemma files_ok_undo idx s s' h pi pos st : files_ok idx s -> grows s s' -> storage_inv s' -> idx !! h = Some pi ->
  let pi' := set_undo_status pos st pi in
  Z.land st BLOCK_HAVE_DATA = Z.land (nStatus pi) BLOCK_HAVE_DATA -> undo_at idx s' h pi' -> files_ok (<[h := pi']> idx) s'.
Proof.
  intros [_ Hf] Hg Hs Hh pi' Hst Hu. assert (Ht : same_tree idx (<[h := pi']> idx)).
  { intros k. destruct (decide (k = h)) as [->|Hk]; [by rewrite lookup_insert_eq, Hh|by rewrite lookup_insert_ne]. }
  split; [done|]. intros k b Hb. apply lookup_insert_Some in Hb as [[<- <-]|[Hk Hb]].
  - destruct (Hf h pi Hh) as [H1 H2 H3 H4 H5]. split; try done.
    + cbn [pi' set_undo_status nStatus]. rewrite Hst. intros Hx. destruct (H1 Hx) as [Hv Hi]. split; [done|].
      assert (GetBlockPos pi' = GetBlockPos pi) as -> by (unfold GetBlockPos; cbn; by rewrite Hst). by eapply intact_grows.
    + intros _. destruct Hu as (q & u & un & u' & Hq & Hn & Hc & Hr). exists q, u, un, u'. split_and!; try apply Hr; [done|done|by eapply coins_at_tree].
  - by eapply entry_ok_mono; [done| |done|apply Hf].
Qed.

(** what reading gives: the right data or nothing *)
Lemma open_read x pos s : let '(ok, s') := OpenDiskFile x pos true s in grows s s' /\ same_records s s' /\
  (ok = true -> pos_IsNull pos = false /\ (io s).1 = true).
Proof.
  pose proof (OpenDiskFile_grows x pos true s (or_intror eq_refl)) as H. unfold OpenDiskFile in *. destruct (pos_IsNull pos); [by destruct H as (? & ? & _)|].
  destruct (io s) as [ok s1]. cbn [fst orb] in *. destruct (files x s1 !! d_nFile pos), ok; by destruct H as (? & ? & _).
Qed.

Lemma read_block_ok idx h pi s : files_ok idx s -> idx !! h = Some pi ->
  let '(r, s') := ReadFromDisk_index h (GetBlockPos pi) s in files_ok idx s' /\ grows s s' /\ same_records s s' /\
  forall b, r = Some b -> b = stored (blocks h) /\ block_GetHash b = h.
Proof.
  intros Hf Hh. pose proof (open_read Blk (GetBlockPos pi) s) as Ho. unfold ReadFromDisk_index, block_ReadFromDisk.
  pose proof (block_read_back s (GetBlockPos pi) (blocks h)) as Hb. unfold block_ReadFromDisk in Hb.
  destruct (OpenDiskFile _ _ _ _) as [ok s']. destruct Ho as (Hg & Hr & Ho). assert (Hf' : files_ok idx s') by by eapply files_ok_disk.
  destruct ok; cbn [negb] in *; [|split_and!; done]. split_and!; [done|done|done|]. destruct (Ho eq_refl) as [Hn Hio].
  destruct (proj2 Hf h pi Hh) as [H1 _ _ _ _]. destruct H1 as [Hv Hi].
  { intros Hz. unfold GetBlockPos in Hn. by rewrite (proj2 (Z.eqb_eq _ _) Hz) in Hn. }
  cbn [fst] in Hb. rewrite (Hb Hv Hi Hio). intros b. case_if; [|done]. intros [= <-]. split; [done|]. by b2p.
Qed.

Lemma read_undo_ok idx h pi s : files_ok idx s -> idx !! h = Some pi -> pos_IsNull (GetUndoPos pi) = false -> forall q, pprev pi = Some q ->
  let '(r, s') := undo_ReadFromDisk (GetUndoPos pi) q s in files_ok idx s' /\ grows s s' /\ same_records s s' /\
  forall un, r = Some un -> exists u u', coins_at genesis blocks idx (Some q) u /\ utxo_ok u /\ h <> genesis /\
    apply_txs (nHeight pi) (with_ids (blocks h)) u = Some u' /\ reverts (nHeight pi) (with_ids (blocks h)) un u' u.
Proof.
  intros Hf Hh Hn q Hq. pose proof (open_read Rev (GetUndoPos pi) s) as Ho. pose proof (undo_read_back s (GetUndoPos pi)) as Hb.
  unfold undo_ReadFromDisk in *. destruct (OpenDiskFile _ _ _ _) as [ok s']. destruct Ho as (Hg & Hr & Ho).
  assert (Hf' : files_ok idx s') by by eapply files_ok_disk. destruct ok; cbn [negb] in *; [|split_and!; done].
  split_and!; [done|done|done|]. destruct (Ho eq_refl) as [_ Hio]. destruct (proj2 Hf h pi Hh) as [_ H2 _ _ _]. destruct H2 as (q' & u & un & u' & Hq' & Hx).
  { intros Hz. unfold GetUndoPos in Hn. by rewrite (proj2 (Z.eqb_eq _ _) Hz) in Hn. }
  destruct Hx as (Hne & Hc & Huo & Ha & Hre & Hs & Hi). assert (q' = q) as -> by congruence. cbn [fst] in Hb. rewrite (Hb un q Hs Hi Hio).
  intros un' [= <-]. by exists u, u'.
Qed.

(** ** Connecting *)

(** a view is at a block: its best block, and its coins *)
Definition tip_ok (idx : index_map) (v : view) (p : option Z) : Prop :=
  Vt v = ref_of idx p /\ exists u, represents v u /\ coins_at genesis blocks idx p u /\ utxo_ok u.

Lemma tip_ok_same idx v w p : same_view v w -> tip_ok idx v p -> tip_ok idx w p.
Proof.
  intros Hs [Ht (u & Hu & Hr)]. split; [destruct Hs as [_ Hs]; congruence|]. exists u. split; [|done]. by eapply represents_live; [apply same_live|].
Qed.
Lemma tip_ok_tree i1 i2 v p : same_tree i1 i2 -> tip_ok i1 v p -> tip_ok i2 v p.
Proof.
  intros Ht [Hv (u & Hu & Hc & Ho)]. split; [by rewrite (ref_of_tree i1)|]. exists u. split_and!; [done|by eapply coins_at_tree|done].
Qed.
Lemma tip_ok_hash idx v p : tip_ok idx v p -> b_hash <$> Vt v = p.
Proof. intros [-> _]. by destruct p. Qed.

(** and it holds the best block itself *)
Definition tip_at (idx : index_map) (v : view) (p : option Z) : Prop := pindexTip v = ref_of idx p /\ tip_ok idx v p.

Lemma represents_ok v u : represents v u -> utxo_ok u <-> view_ok v.
Proof. intros Hr. split; [intros Hu k c; rewrite (Hr k); apply Hu|intros Hv k c Hk; apply (Hv k); by rewrite (Hr k)]. Qed.

Lemma with_ids_cons b : with_ids b = zip (vtx b) (map GetHash (vtx b)).
Proof. done. Qed.

(** the loop over the transactions applies the block, and its undo data takes the block back *)
Lemma connected_undo t b f1 f2 th strict fl hh u (s s' : connecting) : block_rules t true b -> 0 < hh < 2 ^ 31 ->
  n_vtxundo s = [] -> represents (n_view s) u -> utxo_ok u -> Forall (fun h => live (Vm (n_view s) h) = None) (txids b) ->
  connect_txs f1 f2 th strict fl hh (with_ids b) s = Some (inl s') ->
  exists u', apply_txs hh (with_ids b) u = Some u' /\ represents (n_view s') u' /\ utxo_ok u' /\ reverts hh (with_ids b) (n_vtxundo s') u' u.
Proof.
  intros Hrules Hh Hun Hu Hok Hfresh Hc. destruct (connect_txs_applies _ _ _ _ _ _ _ _ _ _ Hc Hu) as (u' & Ha & Hu').
  destruct (block_txs b t (block_ids b) Hrules ltac:(done)) as (Htxs & Hids & _). fold (with_ids b) in *.
  destruct Hrules as [_ _ _ (cb & rest & Hv & Hcb & Hrest) _ Hnd _ _].
  assert (Hw : with_ids b = (cb, GetHash cb) :: zip rest (map GetHash rest)) by by rewrite with_ids_cons, Hv.
  assert (Hall : Forall (fun x => outputs_ok x.1 /\ live (Vm (n_view s) x.2) = None) (with_ids b)).
  { apply Forall_forall. intros x Hx. rewrite Forall_forall in Htxs. rewrite Forall_forall in Hfresh. split; [by apply Htxs|]. apply Hfresh.
    rewrite <- Hids. apply list_elem_of_In, in_map, list_elem_of_In, Hx. }
  assert (Hncb : Forall (fun x => IsCoinBase x.1 = false) (zip rest (map GetHash rest))).
  { clear -Hrest. induction rest as [|y l IH]; [constructor|]. apply Forall_cons in Hrest as [? ?]. constructor; [done|by apply IH]. }
  rewrite <- Hids in Hnd. rewrite Hw in Hc, Hall, Hnd.
  destruct (disconnect_connect _ _ _ _ _ _ _ _ _ _ Hc Hun (proj1 (represents_ok _ _ Hu) Hok) Hh Hcb Hncb Hall Hnd) as (Hok' & _ & Hlen & Hd).
  exists u'. split_and!; [done|done|by apply (represents_ok _ _ Hu')|]. split; [by rewrite Hlen, Hw|]. intros w Hw'.
  destruct (Hd w) as (w' & Hr & Hl); [by eapply represents_eq|]. exists w'. split; [by rewrite Hw|by eapply represents_live].
Qed.

(** room for more undo data in every file *)
Definition room (s : storage) (k : Z) : Prop := forall n, size_in Rev (dbinfo s n) + k < 2 ^ 32.
Definition node_ok (k : Z) (n : node) : Prop := files_ok (mapBlockIndex n) (disk n) /\ room (disk n) k.

Lemma node_ok_disk k n n' : mapBlockIndex n' = mapBlockIndex n -> grows (disk n) (disk n') /\ same_records (disk n) (disk n') -> node_ok k n -> node_ok k n'.
Proof.
  intros Hi Hg [Hf Hr]. split; [rewrite Hi; by eapply files_ok_disk|]. destruct Hg as [_ (Hd & _)]. intros x. specialize (Hr x).
  unfold dbinfo in *. by rewrite Hd.
Qed.
Lemma node_ok_index k n i : similar_index (mapBlockIndex n) i -> node_ok k n -> node_ok k (set_index i n).
Proof. intros Hs [Hf Hr]. split; [|done]. by eapply files_ok_mono; [| |apply Hf|]. Qed.
Lemma node_ok_less k k' n : k' <= k -> node_ok k n -> node_ok k' n.
Proof. intros Hk [Hf Hr]. split; [done|]. intros x. specialize (Hr x). lia. Qed.

Lemma io_disk (n : node) : let '(_, s) := io (disk n) in grows (disk n) s /\ same_records (disk n) s.
Proof. apply io_grows. Qed.
Lemma WriteBlockIndex_disk d n : let '(_, n') := WriteBlockIndex d n in
  mapBlockIndex n' = mapBlockIndex n /\ grows (disk n) (disk n') /\ same_records (disk n) (disk n').
Proof. unfold WriteBlockIndex. pose proof (io_grows (disk n)) as H. destruct (io (disk n)) as [[] s]; by destruct H. Qed.
Lemma WriteTxIndex_disk l n : let '(_, n') := WriteTxIndex l n in
  mapBlockIndex n' = mapBlockIndex n /\ grows (disk n) (disk n') /\ same_records (disk n) (disk n').
Proof. unfold WriteTxIndex. pose proof (io_grows (disk n)) as H. destruct (io (disk n)) as [[] s]; by destruct H. Qed.

(** the outcome of an operation on the node: it failed with an error, or the invariant still holds *)
Definition fails (o : outcome) (st : CValidationState) : Prop := o <> Ret true /\ state_IsError st = true.
Definition still_ok (i0 : index_map) (k : Z) (n : node) : Prop := node_ok k n /\ same_tree i0 (mapBlockIndex n).

Context (p : params) (Hmagic : length (p_pchMessageStart p) = 4%nat).

Lemma abort_fails st n (v : view) o st' n' v' : abort st n v = Some (o, st', n', v') -> fails o st' /\ v' = v.
Proof. unfold abort, state_Error. by intros [= <- <- <- <-]. Qed.

Lemma finish_connect_files i0 k vPos h pi st n (v : view) o st' n' v' : finish_connect p vPos h pi st n v = Some (o, st', n', v') ->
  still_ok i0 k n -> fails o st' \/ still_ok i0 k n'.
Proof.
  unfold finish_connect. intros H [Hn Ht]. destruct (p_fTxIndex p).
  - pose proof (WriteTxIndex_disk vPos n) as Hw. destruct (WriteTxIndex vPos n) as [ok n1]. destruct Hw as (Hi & Hg & Hr). destruct ok; cbn [negb] in H;
      (injection H as <- <- <- <-; right; split; [by eapply node_ok_disk|by rewrite Hi]).
  - injection H as <- <- <- <-. by right.
Qed.

(** undo data that was just made: it takes the block back, and it is not too long *)
Definition new_undo (idx : index_map) (h : Z) (pi : CBlockIndex) (undo : CBlockUndo) (U : Z) : Prop :=
  exists q u u', pprev pi = Some q /\ h <> genesis /\ coins_at genesis blocks idx (Some q) u /\ utxo_ok u /\
    apply_txs (nHeight pi) (with_ids (blocks h)) u = Some u' /\ reverts (nHeight pi) (with_ids (blocks h)) undo u' u /\
    sized (sized valid_undo) undo /\ Z.of_nat (length (Serialize ser_CBlockUndo undo)) + 40 <= U.

Lemma write_undo_files U k undo h pi st n r st' pi' n' : write_undo p undo h pi st n = Some (r, st', pi', n') ->
  0 <= U -> 0 <= k -> node_ok (U + k) n -> mapBlockIndex n !! h = Some pi -> new_undo (mapBlockIndex n) h pi undo U ->
  state_IsError st' = true \/ (still_ok (mapBlockIndex n) k n' /\ mapBlockIndex n' !! h = Some pi' /\ nHeight pi' = nHeight pi).
Proof.
  intros H HU Hk Hn Hh (q & u & u' & Hq & Hne & Hc & Hok & Ha & Hr & Hs & Hlen). unfold write_undo in H. case_if_in H.
  2:{ injection H as <- <- <- <-. right. split_and!; [|done|done]. split; [|done]. by apply (node_ok_less (U + k)); [lia|]. }
  rewrite Hq in H. destruct Hn as [Hf Hro]. pose proof (Hro (nFile pi)) as Hroom. cbn [size_in] in Hroom.
  pose proof (store_undo_spec (p_pchMessageStart p) Hmagic undo (nFile pi) q st (disk n) (proj1 Hf) ltac:(split; [done|lia])) as Hst.
  destruct (store_undo _ _ _ _ _ _) as [[r1 st1] s1]. destruct Hst as [He|(Hg & Hi & Hsz & Hpos)].
  { left. destruct r1; by injection H as <- <- <- <-. }
  assert (Hro' : room s1 k) by (intros x; specialize (Hro x); specialize (Hsz x); lia).
  assert (Hf1 : files_ok (mapBlockIndex n) s1) by by eapply files_ok_mono.
  right. destruct r1 as [pos| |]; injection H as <- <- <- <-; [|by split_and!..]. destruct (Hpos pos eq_refl) as [Hn Hin].
  cbn [write_index set_disk set_index mapBlockIndex]. set (pi' := set_undo_status _ _ pi). split; [split; [split; [|done]|]|].
  - apply (files_ok_undo (mapBlockIndex n) (disk n) s1 h pi); try done.
    + cbn. rewrite Z.land_lor_distr_l. change (Z.land BLOCK_HAVE_UNDO BLOCK_HAVE_DATA) with 0. apply Z.lor_0_r.
    + exists q, u, undo, u'. split_and!; try done. match goal with |- intact _ _ ?x _ => assert (x = pos) as ->; [|exact Hin] end. unfold GetUndoPos. cbn [pi' set_undo_status nStatus nFile nUndoPos].
      rewrite Z.land_lor_distr_l, (proj2 (Z.eqb_neq _ _)); [rewrite <- Hn; by destruct pos|]. change (Z.land BLOCK_HAVE_UNDO BLOCK_HAVE_UNDO) with 16.
      intros Hz. apply Z.lor_eq_0_iff in Hz as [_ Hz]. done.
  - intros x. cbn. destruct (decide (x = h)) as [->|Hx]; [by rewrite lookup_insert_eq, Hh|by rewrite lookup_insert_ne].
  - cbn. by rewrite lookup_insert_eq.
Qed.

Lemma write_undo_state undo h pi st n r st' pi' n' : write_undo p undo h pi st n = Some (r, st', pi', n') -> r <> IoError -> st' = st.
Proof.
  unfold write_undo. case_if; [|by intros [= <- <- <- <-]]. destruct (pprev pi) as [q|]; [|done].
  pose proof (store_undo_state p undo (nFile pi) q st (disk n)) as H. destruct (store_undo _ _ _ _ _ _) as [[r1 st1] s1].
  destruct r1; intros [= <- <- <- <-]; [by intros; apply H|done|by intros; apply H].
Qed.

Lemma write_connected_files U k undo vPos h pi st n (v : view) o st' n' v' : write_connected p undo vPos h pi st n v = Some (o, st', n', v') ->
  state_IsError st = false -> 0 <= U -> 0 <= k -> node_ok (U + k) n -> mapBlockIndex n !! h = Some pi -> new_undo (mapBlockIndex n) h pi undo U ->
  fails o st' \/ still_ok (mapBlockIndex n) k n'.
Proof.
  intros H Hst HU Hk Hn Hh Hnew. unfold write_connected in H.
  assert (Hsame : still_ok (mapBlockIndex n) k n) by (split; [by apply (node_ok_less (U + k)); [lia|]|done]).
  case_if_in H; [|by eapply finish_connect_files].
  destruct (write_undo _ _ _ _ _ _) as [[[[r st1] pi1] n1]|] eqn:Eu; [|done]. pose proof (write_undo_state _ _ _ _ _ _ _ _ _ Eu) as Hst1.
  apply (write_undo_files U k) in Eu; [|done..]. destruct r as [pos| |].
  - destruct Eu as [He|([Hn1 Ht1] & Hh1 & _)]; [rewrite Hst1 in He by done; congruence|].
    match type of H with context [WriteBlockIndex ?d ?m] => pose proof (WriteBlockIndex_disk d m) as Hw; assert (Hm : node_ok k m) end.
    { apply node_ok_index; [|done]. eapply similar_insert; [done|apply similar_scripts]. }
    destruct (WriteBlockIndex _ _) as [ok n2]. destruct Hw as (Hi & Hd). assert (Hn2 : still_ok (mapBlockIndex n) k n2).
    { split; [by eapply node_ok_disk|]. rewrite Hi. etrans; [exact Ht1|]. cbn. apply similar_tree.
      eapply similar_insert; [done|apply similar_scripts]. }
    destruct ok; cbn [negb] in H; [by eapply finish_connect_files|]. injection H as <- <- <- <-. by right.
  - apply abort_fails in H as [Hf ->]. by left.
  - injection H as <- <- <- <-. right. rewrite Hst1 in Eu by done. destruct Eu as [He|[Hx _]]; [congruence|done].
Qed.

(** the undo data of a block is never longer than [U] bytes *)
Definition undo_within (U : Z) (idx : index_map) (h : Z) (pi : CBlockIndex) : Prop :=
  forall q u f1 f2 th strict fl (s s' : connecting), pprev pi = Some q -> coins_at genesis blocks idx (Some q) u -> represents (n_view s) u ->
    n_vtxundo s = [] -> connect_txs f1 f2 th strict fl (nHeight pi) (with_ids (blocks h)) s = Some (inl s') ->
    sized (sized valid_undo) (n_vtxundo s') /\ Z.of_nat (length (Serialize ser_CBlockUndo (n_vtxundo s'))) + 40 <= U.

Context (Hgen : p_hashGenesisBlock p = genesis).

Lemma undo_within_tree U i1 i2 h b b' : same_tree i1 i2 -> place b' = place b -> undo_within U i1 h b -> undo_within U i2 h b'.
Proof.
  intros Ht Hb Hu q u f1 f2 th strict fl s s' Hq Hc. injection Hb as Hp Hh. rewrite Hp in Hq. rewrite Hh.
  apply (Hu q u); [done|]. by eapply coins_at_tree; [symmetry|].
Qed.

Lemma same_money idx h pi x : idx !! h = Some pi -> similar_index idx (<[h := set_nMoneySupply x pi]> idx).
Proof. intros Hh. by eapply similar_insert. Qed.

Lemma DoS_end level c st (n : node) (v : view) o st' n' v' :
  (let '(r, state) := state_DoS level false c st in Some (Ret r, state, n, v)) = Some (o, st', n', v') -> o = Ret false /\ n' = n /\ v' = v.
Proof. unfold state_DoS. destruct (mode st); by intros [= <- <- <- <-]. Qed.
Lemma verdict_end e st (n : node) (v : view) o st' n' v' : e <> Accepted ->
  (let '(r, state) := verdict_state e st in Some (Ret r, state, n, v)) = Some (o, st', n', v') -> o = Ret false /\ n' = n /\ v' = v.
Proof. intros He. destruct e; [done|apply DoS_end|apply DoS_end]. Qed.

Lemma ConnectBlock_files U k h pi st n (v : view) q o st' n' v' :
  ConnectBlock p (stored (blocks h)) (Some h) pi false st n v = Some (o, st', n', v') -> block_GetHash (stored (blocks h)) = h ->
  state_IsError st = false -> 0 <= U -> 0 <= k -> node_ok (U + k) n -> mapBlockIndex n !! h = Some pi ->
  tip_ok (mapBlockIndex n) v q -> undo_within U (mapBlockIndex n) h pi ->
  fails o st' \/ still_ok (mapBlockIndex n) k n' /\ (o = Ret true -> st' = st /\ pprev pi = q /\ tip_at (mapBlockIndex n') v' (Some h)).
Proof.
  intros H Hhash Hst HU Hk Hn Hh Htip Hwithin. set (b := stored (blocks h)) in *.
  assert (Hsame : forall c, still_ok (mapBlockIndex n) k (set_cache c n)) by (intros c; split; [by apply (node_ok_less (U + k)); [lia|]|done]).
  assert (Hsame0 : still_ok (mapBlockIndex n) k n) by exact (Hsame (signatureCache n)).
  destruct (proj2 (proj1 Hn) h pi Hh) as [_ _ Hheight Huniq Hgenp].
  unfold ConnectBlock in H. cbn [negb] in H. destruct (CheckBlock _ _ _ _ _) as [ok st1] eqn:Eck. destruct ok; cbn [negb] in H.
  2:{ injection H as <- <- <- <-. by right. }
  destruct (CheckBlock_rules _ _ _ _ _ _ Eck) as [-> Hrules]. rewrite <- (tip_ok_hash _ _ _ Htip).
  pose proof (GetBestBlock_spec v) as Hg. destruct (GetBestBlock v) as [t v0]. destruct Hg as [-> Hs0].
  destruct (bool_decide _) eqn:Eb; cbn [negb] in H; [|done]. apply bool_decide_eq_true in Eb.
  destruct (block_GetHash b =? _) eqn:Eh; b2p.
  { injection H as <- <- <- <-. right. split; [done|]. intros _. split_and!; [done|done|]. assert (h = genesis) as -> by congruence.
    destruct Htip as [Ht (u & Hu & Hc & Ho)]. cbn [set_genesis mapBlockIndex]. rewrite (proj2 Hgenp) in Eb by done.
    destruct (Vt v) as [r|] eqn:Ev; [done|]. destruct q as [q|]; [done|]. inversion Hc; subst.
    split; [cbn; by rewrite Hh|]. split; [cbn; unfold Vt; cbn; by rewrite Hh|].
    exists ∅. split_and!; [|by eapply at_genesis; [|apply Hgenp]|done]. intros x. rewrite <- (Hu x). by apply (same_live _ _ Hs0). }
  assert (Hne : h <> genesis) by congruence. rewrite (Huniq Hne) in H.
  destruct (bip30_loop_spec (txids b) v0) as (fresh & v1 & Hbip & Hs1 & Hfresh). rewrite Hbip in H.
  destruct fresh; cbn [negb] in H; [|apply DoS_end in H as (-> & -> & ->); by right]. specialize (proj1 Hfresh eq_refl) as Hnew. clear Hfresh.
  destruct Htip as [Ht (u & Hu & Hc & Ho)]. assert (Hu1 : represents v1 u).
  { eapply represents_live; [apply same_live; etrans; [exact Hs0|exact Hs1]|done]. }
  assert (Hq : exists q', pprev pi = Some q' /\ q = Some q').
  { destruct (pprev pi) as [q'|] eqn:Ep; [|by destruct Hne; apply Hgenp]. exists q'. split; [done|]. rewrite Ht in Eb. by destruct q. }
  destruct Hq as (q' & Hq & ->).
  assert (Hnew1 : Forall (fun h => live (Vm v1 h) = None) (txids b)).
  { eapply Forall_impl; [exact Hnew|]. intros x; cbn. destruct Hs1 as [Hm _]. by rewrite Hm. }
  destruct (connect_txs _ _ _ _ _ _ _ _) as [[s|e]|] eqn:Ec; [| |done].
  2:{ apply connect_txs_inr in Ec. apply verdict_end in H as (-> & -> & ->); [|done]. by right. }
  assert (Hun := Hwithin q' u _ _ _ _ _ (start_connecting n v1) _ Hq Hc Hu1 eq_refl Ec).
  destruct (connected_undo _ b _ _ _ _ _ _ u (start_connecting n v1) _ Hrules (Hheight Hne) eq_refl Hu1 Ho Hnew1 Ec) as (u' & Ha & Hu' & Ho' & Hr).
  match type of H with context [WriteBlockIndex (disk_index _ ?x) ?m] => pose proof (WriteBlockIndex_disk (disk_index h x) m) as Hw; set (m1 := m) in *; set (pi1 := x) in * end.
  change (default 0 (Some h)) with h in H. assert (Hm1 : node_ok (U + k) m1 /\ same_tree (mapBlockIndex n) (mapBlockIndex m1) /\ mapBlockIndex m1 !! h = Some pi1).
  { split_and!; [apply (node_ok_index _ (set_cache (n_cache s) n)); [by apply same_money|done]|apply similar_tree; by apply same_money|cbn; apply lookup_insert_eq]. }
  clearbody m1. destruct (WriteBlockIndex _ _) as [ok n1]. destruct Hw as (Hi & Hd).
  destruct Hm1 as (Hm1 & Ht1 & Hh1). assert (Hn1 : node_ok (U + k) n1) by (by apply (node_ok_disk _ m1)). rewrite <- Hi in Ht1, Hh1. clear Hm1 Hi Hd m1.
  assert (Hstill : forall c, still_ok (mapBlockIndex n) k (set_cache c n1)) by (intros c; split; [by apply (node_ok_less (U + k)); [lia|]|done]).
  destruct ok; cbn [negb] in H; [|injection H as <- <- <- <-; right; split; [exact (Hstill (signatureCache n1))|done]].
  destruct (vtx b !! 0%nat) as [cb|]; [|done]. destruct (GetValueOut cb) as [vo|]; [|done]. destruct (coinbase_limit _ _ _ _) as [limit|]; [|done].
  case_if_in H; [apply DoS_end in H as (-> & -> & ->); right; split; [exact (Hstill (signatureCache n1))|done]|].
  destruct (control_Wait _ _) as [[ok|] cache]; [|done]. destruct ok; cbn [negb] in H; [|apply DoS_end in H as (-> & -> & ->); right; split; [apply Hstill|done]].
  pose proof H as Hfile. apply (write_connected_files U k) in Hfile; [|done|done|done|exact Hn1|exact Hh1|].
  2:{ exists q', u, u'. split_and!; try done; [by eapply coins_at_tree|apply Hun|apply Hun]. }
  destruct Hfile as [Hf|[Hn' Ht']]; [by left|]. right. cbn [set_cache mapBlockIndex] in Ht'.
  assert (Ht2 : same_tree (mapBlockIndex n) (mapBlockIndex n')) by by rewrite Ht1. split; [done|]. intros ->.
  assert (st' = st) as ->.
  { match type of H with write_connected _ ?a ?c ?d ?e ?f ?g ?i = _ => destruct (write_connected_wrote p a c d e f g i) as (o & s1 & n2 & w & Hw & Hm); [by exists q'|] end.
    rewrite H in Hw. by simplify_eq. }
  split_and!; [done|done|].
  apply write_connected_inv in H as [-> _]; [|exact Hh1].
  assert (Hrf : ref_of (mapBlockIndex n') (Some h) = Some {| b_hash := h; b_height := nHeight pi1 |}).
  { rewrite (ref_of_tree (mapBlockIndex n)) by done. cbn. by rewrite Hh. }
  split; [by rewrite Hrf|]. split.
  - unfold Vt. cbn [SetBestBlock pindexTip]. by rewrite Hrf.
  - exists u'. split_and!; [|by eapply coins_at_tree; [|eapply at_block]|done]. intros x. exact (Hu' x).
Qed.

Lemma write_connected_base undo vPos h pi st n (v : view) o st' n' v' : write_connected p undo vPos h pi st n v = Some (o, st', n', v') -> base v' = base v.
Proof.
  assert (Hfin : forall pi st n, finish_connect p vPos h pi st n v = Some (o, st', n', v') -> base v' = base v).
  { intros pi0 st0 n0. unfold finish_connect. destruct (if p_fTxIndex p then _ else _) as [[] m]; by intros [= <- <- <- <-]. }
  unfold write_connected. intros H. case_if_in H; [|by eapply Hfin]. destruct (write_undo _ _ _ _ _ _) as [[[[r st1] pi1] n1]|]; [|done].
  destruct r; [|by apply abort_fails in H as [_ ->]|by injection H as <- <- <- <-].
  destruct (WriteBlockIndex _ _) as [ok n2]. destruct ok; cbn [negb] in H; [by eapply Hfin|by injection H as <- <- <- <-].
Qed.

Lemma ConnectBlock_reads (R : relation V) {RS : ReadStable R} b h pi st n (v : view) o st' n' v' :
  ConnectBlock p b (Some h) pi false st n v = Some (o, st', n', v') -> reads R v v'.
Proof.
  unfold ConnectBlock. intros H. cbn [negb] in H. destruct (CheckBlock _ _ _ _ _) as [ok st1]. destruct ok; cbn [negb] in H; [|by simplify_eq].
  destruct (GetBestBlock v) as [t v0] eqn:E0. apply (GetBestBlock_reads R) in E0. case_if_in H; [done|]. case_if_in H; [by simplify_eq|].
  assert (Hb : forall x w, (if fEnforceBIP30 (Some h) (nHeight pi) then bip30_loop (txids b) v0 else Some (true, v0)) = Some (x, w) -> reads R v w).
  { intros x w. destruct (fEnforceBIP30 _ _); [|by intros [= <- <-]]. intros Hw. apply (bip30_loop_reads R) in Hw. by etrans. }
  destruct (if fEnforceBIP30 _ _ then _ else _) as [[x v1]|]; [|done]. specialize (Hb x v1 eq_refl). destruct x; cbn [negb] in H.
  2:{ apply DoS_end in H as (_ & _ & ->). done. }
  destruct (connect_txs _ _ _ _ _ _ _ _) as [r|] eqn:Ec; [|done]. assert (He := Ec). apply (connect_txs_reads R) in Ec.
  enough (Hv : base v' = base (end_view r)) by (unfold reads; rewrite Hv; etrans; [exact Hb|exact Ec]).
  destruct r as [s|e]; [|apply connect_txs_inr in He; by apply verdict_end in H as (_ & _ & ->)]. cbn [end_view].
  destruct (WriteBlockIndex _ _) as [ok n1]. destruct ok; cbn [negb] in H; [|by injection H as <- <- <- <-].
  destruct (vtx b !! 0%nat) as [cb|]; [|done]. destruct (GetValueOut cb) as [vo|]; [|done]. destruct (coinbase_limit _ _ _ _) as [limit|]; [|done].
  case_if_in H; [by apply DoS_end in H as (_ & _ & ->)|]. destruct (control_Wait _ _) as [[ok|] cache]; [|done].
  destruct ok; cbn [negb] in H; [by eapply write_connected_base|by apply DoS_end in H as (_ & _ & ->)].
Qed.
End Files.

(** ** Switching *)

#[export] Instance same_view_stable {V} {CV : CoinsView V} {CS : CoinsViewSpec V} : ReadStable (V := CCoinsViewCache V) same_view.
Proof.
  split; [split; typeclasses eauto| |].
  - intros b h. cbn. pose proof (FetchCoins_spec b h) as H. unfold GetCoins. destruct (FetchCoins b h). by destruct H as (_ & H & _).
  - intros b. cbn. pose proof (GetBestBlock_spec b) as H. destruct (GetBestBlock b). by destruct H as (_ & H).
Qed.

(** the blocks that lead from one to another *)
Fixpoint path (idx : index_map) (from : option Z) (hs : list Z) (to : option Z) : Prop :=
  match hs with [] => from = to | h :: r => prev_of idx (Some h) = from /\ path idx (Some h) r to end.

Lemma path_snoc idx from hs mid h : path idx from hs mid -> prev_of idx (Some h) = mid -> path idx from (hs ++ [h]) (Some h).
Proof. revert from. induction hs as [|x hs IH]; intros from; cbn; [by intros -> ->|]. intros [H1 H2] Hp. split; [done|by apply IH]. Qed.

Lemma branch_path fuel idx p stop hs : branch fuel idx p stop = Some hs -> path idx stop (rev hs) p.
Proof.
  revert p hs. induction fuel as [|f IH]; intros p hs; cbn [branch]; (case_bool_decide as E; [by intros [= <-]; subst|]); [done|].
  destruct p as [h|]; [|done]. cbn [option_bind mbind]. destruct (branch f idx (prev_of idx (Some h)) stop) as [r|] eqn:Er; [|done].
  intros [= <-]. cbn. eapply path_snoc; [by apply IH|done].
Qed.

Section Switch.
Context {V : Type} {CV : CoinsView V} {CS : CoinsViewSpec V} {B : OpenSSLBN} {L : OpenSSLBNLaws B} {K : Crypto} {KL : CryptoLaws K} {E : CacheEnv}.
Context (st : settings) (genesis : Z) (blocks : Z -> CBlock).
Context (Hmagic : length (p_pchMessageStart (b_params st)) = 4%nat) (Hgen : p_hashGenesisBlock (b_params st) = genesis).
Abbreviation tip := (CCoinsViewCache V).
Abbreviation view := (CCoinsViewCache (CCoinsViewCache V)).
Abbreviation node_ok := (node_ok (V := tip) genesis blocks).
Abbreviation tip_ok := (tip_ok genesis blocks).
Abbreviation tip_at := (tip_at genesis blocks).
Abbreviation reads := (reads same_view).

Lemma disconnect_block_ok k h pi n (v : view) ok n' v' : disconnect_block (stored (blocks h)) h pi n v = Some (ok, n', v') ->
  node_ok k n -> mapBlockIndex n !! h = Some pi -> tip_ok (mapBlockIndex n) v (Some h) ->
  reads v v' /\ node_ok k n' /\ mapBlockIndex n' = mapBlockIndex n /\ (ok = true -> tip_at (mapBlockIndex n) v' (pprev pi)).
Proof.
  intros H Hn Hh [Ht (u' & Hu & Hc & Ho)]. unfold disconnect_block in H. pose proof (GetBestBlock_spec v) as Hs.
  destruct (GetBestBlock v) as [t v1] eqn:Eg. apply (GetBestBlock_reads same_view) in Eg. destruct Hs as [-> Hs]. case_if_in H; [done|].
  case_if_in H; [injection H as <- <- <-; by split_and!|]. destruct (pprev pi) as [q|] eqn:Hq; [|done]. cbn [option_bind mbind] in H.
  pose proof (read_undo_ok genesis blocks (mapBlockIndex n) h pi (disk n) (proj1 Hn) Hh E1 q Hq) as Hr.
  destruct (undo_ReadFromDisk _ q (disk n)) as [r s]. destruct Hr as (Hf & Hg & Hrec & Hr).
  assert (Hn1 : node_ok k (set_disk s n)) by (by apply (node_ok_disk _ _ _ n)).
  destruct r as [un|]; [|injection H as <- <- <-; by split_and!]. destruct (Hr un eq_refl) as (u & u2 & Hcq & Huo & Hne & Ha & Hlen & Hrev).
  assert (u2 = u') as ->.
  { inversion Hc as [|? ? ? |? pi' q' u0 ? Hi' _ Hq' Hc' Ha']; simplify_eq. by rewrite (coins_at_fun _ _ _ _ _ _ Hc' Hcq) in Ha'; simplify_eq. }
  pose proof (DisconnectBlock_reads same_view {| b_hash := h; b_height := nHeight pi |} (ref_of (mapBlockIndex (set_disk s n)) (Some q)) (with_ids (blocks h)) un v1) as Hrd.
  change (zip (vtx (stored (blocks h))) (txids (stored (blocks h)))) with (with_ids (blocks h)) in H.
  unfold DisconnectBlock in H, Hrd. pose proof (GetBestBlock_spec v1) as Hs1. destruct (GetBestBlock v1) as [t1 v2]. destruct Hs1 as [-> Hs1].
  destruct (negb (bool_decide (Vt v1 = _))); [injection H as <- <- <-; by split_and!|]. rewrite (bool_decide_eq_true_2 _ Hlen) in H, Hrd. cbn [negb] in H, Hrd.
  destruct (Hrev v2) as (w' & Hd & Hw'). { eapply represents_live; [apply same_live; etrans; [exact Hs|exact Hs1]|done]. }
  cbn [b_height] in H, Hrd. rewrite Hd in H, Hrd. injection H as <- <- <-. split_and!; [etrans; [exact Eg|by eapply Hrd]|done|done|].
  intros _. split; [done|]. split; [done|]. exists u. split_and!; [intros x; exact (Hw' x)|done|done].
Qed.

Lemma disconnect_loop_ok k fuel stop hs rs state n (v : view) q e state' n' v' : disconnect_loop hs rs state n v = Some (e, state', n', v') ->
  branch fuel (mapBlockIndex n) q stop = Some hs -> node_ok k n -> tip_at (mapBlockIndex n) v q ->
  reads v v' /\ node_ok k n' /\ mapBlockIndex n' = mapBlockIndex n /\ (forall l, e = Through l -> state' = state /\ tip_at (mapBlockIndex n) v' stop).
Proof.
  revert fuel rs n v q. induction hs as [|h hs IH]; intros fuel rs n v q H Hb Hn Ht.
  - cbn [disconnect_loop] in H. injection H as <- <- <- <-. split_and!; [done|done|done|]. intros _ _. split; [done|].
    destruct fuel; cbn [branch] in Hb; case_bool_decide; subst; try done. destruct q; [|done]. cbn in Hb. by destruct (branch _ _ _ _).
  - assert (Hx : exists f, q = Some h /\ branch f (mapBlockIndex n) (prev_of (mapBlockIndex n) (Some h)) stop = Some hs).
    { destruct fuel; cbn [branch] in Hb; case_bool_decide; try done. destruct q as [x|]; [|done]. cbn [option_bind mbind] in Hb.
      destruct (branch fuel _ _ stop) as [r|] eqn:Er; [|done]. injection Hb as -> ->. by exists fuel. }
    destruct Hx as (f & -> & Hb'). cbn [disconnect_loop] in H. destruct (mapBlockIndex n !! h) as [pi|] eqn:Hh; [|done]. cbn [option_bind mbind] in H.
    pose proof (read_block_ok genesis blocks (mapBlockIndex n) h pi (disk n) (proj1 Hn) Hh) as Hr.
    destruct (ReadFromDisk_index _ _ _) as [b s]. destruct Hr as (Hf & Hg & Hrec & Hr).
    assert (Hn1 : node_ok k (set_disk s n)) by (by apply (node_ok_disk _ _ _ n)).
    destruct b as [b|]; [|by injection H as <- <- <- <-]. destruct (Hr b eq_refl) as [-> _].
    destruct (disconnect_block _ _ _ _ _) as [[[ok n1] v1]|] eqn:Ed; [|done]. cbn [option_bind mbind] in H.
    apply (disconnect_block_ok k) in Ed as (R1 & Hn2 & Hi & Ht1); [|done|done|apply Ht]. destruct ok; cbn [negb] in H.
    + specialize (Ht1 eq_refl). cbn [set_disk mapBlockIndex] in Hi, Ht1. rewrite <- Hi in *.
      destruct (IH f _ n1 v1 (pprev pi) H) as (R2 & Hn3 & Hi3 & Ht3); [|done|done|].
      { rewrite <- Hb'. f_equal. unfold prev_of. cbn. by rewrite Hh. }
      split_and!; [by etrans|done|done|done].
    + injection H as <- <- <- <-. by split_and!.
Qed.

Definition all_within (U : Z) (idx : index_map) (hs : list Z) : Prop := forall h pi, h ∈ hs -> idx !! h = Some pi -> undo_within (V := tip) genesis blocks U idx h pi.

Lemma connect_loop_ok U k idx hs vs state n (v : view) q new e state' n' v' : connect_loop st hs vs state n v = Some (e, state', n', v') ->
  path idx q hs new -> same_tree idx (mapBlockIndex n) -> node_ok (Z.of_nat (length hs) * U + k) n -> 0 <= U -> 0 <= k -> state_IsError state = false ->
  tip_at (mapBlockIndex n) v q -> all_within U idx hs ->
  reads v v' /\ match e with
  | Through _ => state' = state /\ node_ok k n' /\ same_tree idx (mapBlockIndex n') /\ tip_at (mapBlockIndex n') v' new
  | _ => state_IsError state' = true \/ node_ok k n' /\ same_tree idx (mapBlockIndex n')
  end.
Proof.
  revert vs n v q. induction hs as [|h hs IH]; intros vs n v q H Hp Htree Hn HU Hk Hst Ht Hw; cbn [connect_loop] in H.
  { injection H as <- <- <- <-. cbn in Hp. subst q. by split_and!. }
  destruct Hp as [Hprev Hp]. destruct (mapBlockIndex n !! h) as [pi|] eqn:Hh; [|done]. cbn [option_bind mbind] in H.
  assert (HN : 0 <= Z.of_nat (length hs) * U + k) by nia.
  assert (HN2 : Z.of_nat (length (h :: hs)) * U + k = U + (Z.of_nat (length hs) * U + k)) by (cbn [length]; lia). rewrite HN2 in Hn.
  pose proof (read_block_ok genesis blocks (mapBlockIndex n) h pi (disk n) (proj1 Hn) Hh) as Hr.
  destruct (ReadFromDisk_index _ _ _) as [b s]. destruct Hr as (Hf & Hg & Hrec & Hr).
  assert (Hn1 : node_ok (U + (Z.of_nat (length hs) * U + k)) (set_disk s n)) by (by apply (node_ok_disk _ _ _ n)).
  destruct b as [b|]; [|injection H as <- <- <- <-; split; [done|by left]]. destruct (Hr b eq_refl) as [-> Hhash].
  destruct (ConnectBlock _ _ _ _ _ _ _ _) as [[[[o s1] n1] v1]|] eqn:Ec; [|done]. cbn [option_bind mbind] in H.
  pose proof (ConnectBlock_reads _ same_view _ _ _ _ _ _ _ _ _ _ Ec) as R1.
  assert (Hwh : undo_within (V := tip) genesis blocks U (mapBlockIndex n) h pi).
  { destruct (same_tree_lookup _ _ h pi (symmetry Htree) Hh) as (pi0 & Hpi0 & Hpp & Hhh). eapply undo_within_tree; [exact Htree| |apply Hw; [by left|done]].
    unfold place. by rewrite Hpp, Hhh. }
  pose proof (ConnectBlock_files genesis blocks (b_params st) Hmagic Hgen U _ h pi state (set_disk s n) v q _ _ _ _ Ec Hhash Hst HU HN Hn1 Hh (proj2 Ht) Hwh) as Hc.
  cbn [set_disk mapBlockIndex] in Hc. destruct o as [[]|].
  - destruct Hc as [[? _]|[[Hn2 Ht2] Hc]]; [done|]. destruct (Hc eq_refl) as (-> & Hq & Ht3).
    destruct (IH _ n1 v1 (Some h) H Hp) as (R2 & He); try done; [by rewrite Htree|by intros x pi' Hx; apply Hw; right|]. split; [by etrans|done].
  - injection H as <- <- <- <-. split; [done|]. destruct Hc as [[_ Hc]|[[Hn2 Ht2] _]]; [by left|]. right. split; [by apply (node_ok_less _ _ (Z.of_nat (length hs) * U + k)); [nia|]|by rewrite Htree].
  - injection H as <- <- <- <-. split; [done|]. destruct Hc as [[_ Hc]|[[Hn2 Ht2] _]]; [by left|]. right. split; [by apply (node_ok_less _ _ (Z.of_nat (length hs) * U + k)); [nia|]|by rewrite Htree].
Qed.

(** ** After the loops *)

Lemma InvalidChainFound_ok k h n n' : InvalidChainFound h n = Some n' -> node_ok k n -> node_ok k n' /\ mapBlockIndex n' = mapBlockIndex n.
Proof.
  unfold InvalidChainFound. intros H Hn. set (m := if nBestInvalidWork n <? _ then _ else n) in *. destruct (pindexBest m); [|done]. injection H as <-.
  unfold m. case_if; [|done]. unfold WriteBestInvalidWork.
  pose proof (io_grows (disk (set_best_invalid (work_of (mapBlockIndex n) h) n))) as Hg. destruct (io _) as [ok s].
  destruct ok; (split; [by apply (node_ok_disk _ _ _ n)|done]).
Qed.

(** marking a block that could not be connected: only a reorganisation can follow *)
Lemma InvalidBlockFound_ok reorganise k h (c c' : chainstate V) : InvalidBlockFound reorganise h c = Some c' -> node_ok k (nd c) ->
  exists c1, node_ok k (nd c1) /\ same_tree (mapBlockIndex (nd c)) (mapBlockIndex (nd c1)) /\ pcoinsTip c1 = pcoinsTip c /\ (c' = c1 \/ reorganise c1 = Some c').
Proof.
  unfold InvalidBlockFound. intros H Hn. destruct (mapBlockIndex (nd c) !! h) as [pi|] eqn:Hh; [|done]. cbn [option_bind mbind] in H.
  set (pi1 := set_nStatus _ pi) in *. assert (Hsim : similar pi pi1) by (by apply similar_status).
  pose proof (WriteBlockIndex_disk (disk_index h pi1) (write_index (Some h) pi1 (nd c))) as Hw.
  assert (Hn1 : node_ok k (write_index (Some h) pi1 (nd c))) by (apply node_ok_index; [by eapply similar_insert|done]).
  destruct (WriteBlockIndex _ _) as [ok n1]. destruct Hw as [Hi Hd]. destruct (InvalidChainFound _ _) as [n2|] eqn:Ei; [|done]. cbn [option_bind mbind] in H.
  apply (InvalidChainFound_ok k) in Ei as [Hn2 Hi2]; [|by apply (node_ok_disk _ _ _ (write_index (Some h) pi1 (nd c)))].
  exists (set_nd n2 c). split_and!; [done| |done|by case_if_in H; [right|left; injection H as <-]].
  cbn [set_nd nd]. rewrite Hi2. cbn [set_valid mapBlockIndex]. rewrite Hi. apply similar_tree. by eapply similar_insert.
Qed.

Lemma resurrect_ok txs (c c' : chainstate V) : resurrect st txs c = Some c' ->
  same_view (pcoinsTip c) (pcoinsTip c') /\ mapBlockIndex (nd c') = mapBlockIndex (nd c) /\ disk (nd c') = disk (nd c).
Proof.
  revert c. induction txs as [|tx r IH]; intros c H; cbn [resurrect] in H; [by injection H as <-|].
  destruct (accept _ _ _ _ _ _ _ _) as [a|] eqn:Ea; [|done]. apply accept_inv in Ea as [Ha _]. cbn [option_bind mbind] in H.
  destruct (if a_ok a then _ else _) as [pool|]; [|done]. cbn [option_bind mbind] in H. apply IH in H as (H1 & H2 & H3). cbn [pcoinsTip nd set_cache mapBlockIndex disk] in *.
  split_and!; [by etrans|done|done].
Qed.

Context {CW : CoinsViewWrite V} (Hwritable : forall k c, IsPruned c = true \/ coins_ok c -> writable k c).

Lemma flush_tip_ok k state n (t : tip) p ok state' n' t' : flush_tip st state n t = (ok, state', n', t') -> node_ok k n -> tip_at (mapBlockIndex n) t p -> is_Some p ->
  (forall r, ref_of (mapBlockIndex n) p = Some r -> writable_tip r) ->
  if ok then state' = state /\ node_ok k n' /\ mapBlockIndex n' = mapBlockIndex n /\ tip_ok (mapBlockIndex n) t' p else state_IsError state' = true.
Proof.
  unfold flush_tip, state_Error. intros H Hn [Hpt [Ht (u & Hu & Hc & Ho)]] [x ->] Hwt. case_if_in H; [|injection H as <- <- <- <-; split_and!; [done|done|done|by split; [|exists u]]].
  case_if_in H; [by injection H as <- <- <- <-|]. pose proof (view_BatchWrite_spec (base t) (cacheCoins t) (pindexTip t)) as Hb. unfold Flush in H.
  destruct (view_BatchWrite _ _ _) as [b v]. destruct b; [|by injection H as <- <- <- <-]. injection H as <- <- <- <-.
  destruct Hb as [Hl _]; [|intros r Hr; apply Hwt; congruence|done|].
  { intros h c Hc'. apply Hwritable. destruct (IsPruned c) eqn:Ep; [by left|]. right. apply (Ho h). rewrite <- (Hu h). unfold Vm. rewrite Hc'. cbn. by rewrite Ep. }
  split; [done|]. split; [apply (node_ok_disk _ _ _ n); [done| |done]; apply FlushBlockFile_grows, Hn|]. split; [done|].
  split.
  - unfold Vt; cbn [pindexTip base]; by rewrite Hpt.
  - exists u. split_and!; [|done|done]. intros h. rewrite <- (Hu h). unfold Vm at 1. cbn [cacheCoins base].
    rewrite lookup_empty. exact (Hl h).
Qed.

(** a view written to the tip *)
Lemma Flush_tip idx (v : view) p : tip_at idx v p -> is_Some p -> let '(ok, v') := Flush v in ok = true /\ tip_at idx (base v') p.
Proof.
  intros [Hpt [Ht (u & Hu & Hc & Ho)]]. intros [x ->]. cbn. split; [done|]. split; [done|]. split.
  - unfold Vt. cbn. by rewrite Hpt.
  - exists u. split_and!; [|done|done]. intros h. rewrite <- (Hu h). unfold Vm; cbn. unfold Vm. rewrite lookup_union.
    destruct (cacheCoins v !! h) as [c|]; [by rewrite union_Some_l|]. by rewrite (left_id_L None _).
Qed.

(** the conclusion of a switch that went through *)
Definition moved (i0 : index_map) (pindexNew : Z) (c' : chainstate V) : Prop :=
  node_ok 0 (nd c') /\ same_tree i0 (mapBlockIndex (nd c')) /\ tip_ok (mapBlockIndex (nd c')) (pcoinsTip c') (Some pindexNew) /\
  pindexBest (nd c') = Some pindexNew /\ hashBestChain (nd c') = pindexNew /\ nBestHeight (nd c') = height_of i0 (Some pindexNew).

Lemma finish_switch_ok i0 pindexNew vd vc vr vdel state n (v : view) pool o state' c' :
  finish_switch st pindexNew vd vc vr vdel state n v pool = Some (o, state', c') -> node_ok 0 n -> same_tree i0 (mapBlockIndex n) ->
  tip_at (mapBlockIndex n) v (Some pindexNew) ->
  writable_tip {| b_hash := pindexNew; b_height := height_of i0 (Some pindexNew) |} -> match o with Ret true => moved i0 pindexNew c' | _ => state_IsError state' = true end.
Proof.
  intros H Hn Ht Hta Hwt. unfold finish_switch in H. pose proof (Flush_tip _ _ _ Hta ltac:(eauto)) as Hfl. destruct (Flush v) as [ok v3].
  destruct Hfl as [-> Hta3]. cbn [negb] in H. destruct (flush_tip _ _ _ _) as [[[ok s3] n3] t3] eqn:Ef.
  apply (flush_tip_ok 0 _ _ _ (Some pindexNew)) in Ef; [|done|done|eauto|intros r Hr; rewrite <- (height_of_tree _ _ _ Ht) in Hwt; by injection Hr as <-]. destruct ok; cbn [negb] in H; [|by injection H as <- <- <-].
  destruct Ef as (-> & Hn3 & Hi3 & Ht3). set (i4 := foldl link (foldl unlink (mapBlockIndex n3) vd) vc) in *.
  assert (Hsim : similar_index (mapBlockIndex n3) i4) by (etrans; apply similar_foldl; intros; apply similar_link).
  destruct (resurrect _ _ _) as [c4|] eqn:Er; [|done]. apply resurrect_ok in Er as (V4 & I4 & D4). cbn [option_bind mbind] in H.
  destruct (delete_redundant _ _) as [pool'|]; [|done]. cbn [option_bind mbind] in H. destruct (mapBlockIndex (nd c4) !! pindexNew) as [pi|] eqn:Epi; [|done].
  cbn [option_bind mbind] in H. injection H as <- <- <-. unfold moved. cbn [pcoinsTip nd mapBlockIndex disk set_index set_best pindexBest hashBestChain nBestHeight] in *.
  assert (Htree : same_tree i0 i4) by (rewrite Ht, <- Hi3; by apply similar_tree). rewrite I4 in *.
  split; [|split_and!; try done].
  - apply (node_ok_disk _ _ _ (set_index i4 n3)); [exact I4| |by apply node_ok_index]. cbn [set_best disk set_index]. by rewrite D4.
  - apply (tip_ok_same _ _ _ t3); [exact V4|]. eapply tip_ok_tree; [|exact Ht3]. rewrite <- Hi3. by apply similar_tree.
  - rewrite <- (height_of_tree _ _ _ Htree). cbn. by rewrite Epi.
Qed.

(** what [SetBestChain] has to connect *)
Definition to_connect (idx : index_map) (best : option Z) (pindexNew : Z) : option (list Z) :=
  let? pfork := find_fork (Z.to_nat (height_of idx best)) idx best (Some pindexNew) in
  let? l := branch_of idx (Some pindexNew) pfork in
  Some (rev l).

(** the chain state after a switch that failed: the coins are as before, but for a reorganisation away from the failed block *)
Definition unmoved (reorganise : chainstate V -> option (chainstate V)) (c c' : chainstate V) : Prop :=
  exists c1, node_ok 0 (nd c1) /\ same_tree (mapBlockIndex (nd c)) (mapBlockIndex (nd c1)) /\ same_view (pcoinsTip c) (pcoinsTip c1) /\
    (c' = c1 \/ reorganise c1 = Some c').

Lemma SetBestChain_moves U reorganise pindexNew state (c : chainstate V) q hs o state' c' :
  SetBestChain st reorganise pindexNew state c = Some (o, state', c') -> state_IsError state = false -> 0 <= U ->
  to_connect (mapBlockIndex (nd c)) q pindexNew = Some hs -> all_within U (mapBlockIndex (nd c)) hs -> node_ok (Z.of_nat (length hs) * U) (nd c) ->
  tip_ok (mapBlockIndex (nd c)) (pcoinsTip c) q -> writable_tip {| b_hash := pindexNew; b_height := height_of (mapBlockIndex (nd c)) (Some pindexNew) |} ->
  match o with
  | Ret true => moved (mapBlockIndex (nd c)) pindexNew c'
  | _ => state_IsError state' = true \/ unmoved reorganise c c'
  end.
Proof.
  intros H Hst HU Hplan Hw Hn Ht Hwt. unfold SetBestChain in H.
  assert (Ht0 : tip_ok (mapBlockIndex (nd c)) (new_cache (pcoinsTip c)) q).
  { destruct Ht as [Ht (u & Hu & Hc & Ho)]. split; [exact Ht|]. exists u. split_and!; [intros h; exact (Hu h)|done|done]. }
  pose proof (GetBestBlock_spec (new_cache (pcoinsTip c))) as Hg. destruct (GetBestBlock _) as [t v0] eqn:Eg.
  pose proof (GetBestBlock_reads same_view _ _ _ Eg) as R0. destruct Hg as [-> Hs]. rewrite (tip_ok_hash _ _ _ _ _ Ht0) in H.
  assert (Hta : tip_at (mapBlockIndex (nd c)) v0 q).
  { assert (Hp : pindexTip v0 = Vt (new_cache (pcoinsTip c))).
    { unfold GetBestBlock in Eg. cbn [new_cache pindexTip base] in Eg. destruct (view_GetBestBlock (pcoinsTip c)) as [t b]. by injection Eg as <- <-. }
    pose proof (tip_ok_same _ _ _ _ _ _ Hs Ht0) as Ht1. split; [|done]. rewrite Hp. apply Ht0. }
  unfold to_connect in Hplan. destruct (find_fork _ _ q (Some pindexNew)) as [pfork|]; [|done]. cbn [option_bind mbind] in H, Hplan.
  destruct (branch_of _ q pfork) as [vd|] eqn:Ed; [|done]. cbn [option_bind mbind] in H. destruct (branch_of _ (Some pindexNew) pfork) as [vc|] eqn:Ec; [|done].
  cbn [option_bind mbind] in H, Hplan. injection Hplan as <-.
  assert (Hmid : forall n v p, node_ok 0 n -> same_tree (mapBlockIndex (nd c)) (mapBlockIndex n) -> reads v0 v ->
    unmoved reorganise c {| nd := n; pcoinsTip := base v; c_pool := p |}).
  { intros n v p Hn1 Ht1 Hr. exists {| nd := n; pcoinsTip := base v; c_pool := p |}. split; [exact Hn1|]. split; [exact Ht1|]. split; [|by left]. etrans; [exact R0|exact Hr]. }
  destruct (disconnect_loop vd [] state (nd c) v0) as [[[[e s1] n1] v1]|] eqn:Edis; [|done]. cbn [option_bind mbind] in H.
  destruct (disconnect_loop_ok _ _ _ _ _ _ _ _ _ _ _ _ _ Edis Ed Hn Hta) as (R1 & Hn1 & Hi1 & Hthrough).
  assert (Hn10 : node_ok 0 n1) by (apply (node_ok_less _ _ (Z.of_nat (length (rev vc)) * U)); [nia|done]).
  assert (Hm1 : forall p, unmoved reorganise c {| nd := n1; pcoinsTip := base v1; c_pool := p |}) by (intros p; apply Hmid; [done|by rewrite Hi1|done]).
  destruct e as [vr| | |]; [|by injection H as <- <- <-; right..|done].
  destruct (Hthrough vr eq_refl) as [-> Ht1]. rewrite <- Hi1 in Ht1.
  destruct (connect_loop st (rev vc) [] state n1 v1) as [[[[e s2] n2] v2]|] eqn:Econ; [|done]. cbn [option_bind mbind] in H.
  assert (Hp : path (mapBlockIndex (nd c)) pfork (rev vc) (Some pindexNew)) by (by eapply branch_path).
  assert (HU0 : Z.of_nat (length (rev vc)) * U + 0 = Z.of_nat (length (rev vc)) * U) by lia.
  destruct (connect_loop_ok U 0 _ _ _ _ _ _ _ _ _ _ _ _ Econ Hp ltac:(by rewrite Hi1) ltac:(by rewrite HU0) HU ltac:(done) Hst Ht1 Hw) as [R2 Hend].
  assert (Hm2 : node_ok 0 n2 -> same_tree (mapBlockIndex (nd c)) (mapBlockIndex n2) -> forall p, unmoved reorganise c {| nd := n2; pcoinsTip := base v2; c_pool := p |}).
  { intros Hn2 Ht2 p. apply Hmid; [done|done|by etrans]. }
  destruct e as [vdel| | |h].
  - destruct Hend as (-> & Hn2 & Ht2 & Hta2). apply (finish_switch_ok (mapBlockIndex (nd c))) in H; [|done..]. destruct o as [[]|]; [done|by left..].
  - injection H as <- <- <-. destruct Hend as [He|[Hn2 Ht2]]; [by left|right; by apply Hm2].
  - injection H as <- <- <-. destruct Hend as [He|[Hn2 Ht2]]; [by left|right; by apply Hm2].
  - destruct Hend as [He|[Hn2 Ht2]].
    { destruct (state_IsInvalid s2) eqn:Ei; [unfold state_IsInvalid, state_IsError in *; by destruct (mode s2)|injection H as <- <- <-; by left]. }
    destruct (state_IsInvalid s2); [|injection H as <- <- <-; right; by apply Hm2].
    destruct (InvalidChainFound pindexNew n2) as [n3|] eqn:E3; [|done]. cbn [option_bind mbind] in H. apply (InvalidChainFound_ok 0) in E3 as [Hn3 Hi3]; [|done].
    destruct (InvalidBlockFound _ _ _) as [c4|] eqn:E4; [|done]. cbn [option_bind mbind] in H. injection H as <- <- <-. right.
    apply (InvalidBlockFound_ok _ 0) in E4 as (c1 & Hn4 & Ht4 & Hp4 & Hc4); [|done]. exists c1. split; [done|]. cbn [set_nd nd pcoinsTip] in *.
    split; [by rewrite Ht2, <- Hi3|]. split; [|done]. rewrite Hp4. etrans; [exact R0|]. by etrans.
Qed.
End Switch.

(** ** Property *)

Section ReorgProperties.
Context {V : Type} {CV : CoinsView V} {CS : CoinsViewSpec V} {CW : CoinsViewWrite V} {B : OpenSSLBN} {L : OpenSSLBNLaws B} {K : Crypto} {KL : CryptoLaws K} {E : CacheEnv}.

(** C3: The coins follow the chain: let the block and undo files hold what the index says (no file that is there and cannot
    be opened for update being created anew, which would empty it), and the tip hold the coins of the
    chain to its best block, replayed from the first block.  If [SetBestChain] succeeds, over any fork, the tip holds exactly
    the coins of the chain to the new block, so they do not depend on the way there, and the best block, its hash and its height
    are the new block's.  If it fails without a database error, the coins and the best block of the tip are as before, but for the
    reorganisation a failed block of the main chain starts.  In both cases the files still hold what the index says. *)
Theorem SetBestChain_coins (st : settings) blocks U reorganise pindexNew state (c : chainstate V) q hs o state' c'
    (Hmagic : length (p_pchMessageStart (b_params st)) = 4%nat) (Hwritable : forall k c, IsPruned c = true \/ coins_ok c -> writable k c)
    (Htipw : writable_tip {| b_hash := pindexNew; b_height := height_of (mapBlockIndex (nd c)) (Some pindexNew) |})
    (H : SetBestChain st reorganise pindexNew state c = Some (o, state', c')) (Hstate : state_IsError state = false) (HU : 0 <= U)
    (Hplan : to_connect (mapBlockIndex (nd c)) q pindexNew = Some hs)
    (Hundo : all_within (p_hashGenesisBlock (b_params st)) blocks U (mapBlockIndex (nd c)) hs)
    (Hfiles : node_ok (V := CCoinsViewCache V) (p_hashGenesisBlock (b_params st)) blocks (Z.of_nat (length hs) * U) (nd c))
    (Htip : tip_ok (p_hashGenesisBlock (b_params st)) blocks (mapBlockIndex (nd c)) (pcoinsTip c) q) :
  match o with
  | Ret true =>
    moved (p_hashGenesisBlock (b_params st)) blocks (mapBlockIndex (nd c)) pindexNew c' /\
    forall u, coins_at (p_hashGenesisBlock (b_params st)) blocks (mapBlockIndex (nd c)) (Some pindexNew) u -> represents (pcoinsTip c') u
  | _ => state_IsError state' = true \/ unmoved (p_hashGenesisBlock (b_params st)) blocks reorganise c c'
  end.
Proof.
  pose proof (SetBestChain_moves st _ blocks Hmagic eq_refl Hwritable U reorganise pindexNew state c q hs o state' c' H Hstate HU Hplan Hundo Hfiles Htip Htipw) as Hm.
  destruct o as [[]|]; [|done|done]. split; [done|]. intros u Hu. destruct Hm as (_ & Ht & (_ & u' & Hr & Hc & _) & _).
  rewrite (coins_at_fun _ _ _ _ _ _ Hu (coins_at_tree _ _ _ _ _ _ (symmetry Ht) Hc)). exact Hr.
Qed.
End ReorgProperties.

(** ** Witness *)

(** two blocks on the first one, with only a coinbase each *)
Definition fork_coinbase (v : Z) : CTransaction :=
  {| nVersion := v; vin := [{| prevout := null_outpoint; scriptSig := [0x51; 0x51]; nSequence := uint_max |}];
     vout := [{| nValue := 10 * COIN; scriptPubKey := [0x51] |}]; nLockTime := 0 |}.
Definition fork_block (v : Z) : CBlock :=
  {| blk_header := {| h_nVersion := v; hashPrevBlock := 1; hashMerkleRoot := BuildMerkleTree (K := ToyCrypto) [GetHash (K := ToyCrypto) (fork_coinbase v)];
                      h_nTime := 1400000000; h_nBits := 0x07000000; h_nNonce := 5; bnPrimeChainMultiplier := 210 |};
     vtx := [fork_coinbase v]; nPrimeChainType := 0; nPrimeChainLength := 0 |}.
Definition fork_a : Z := Eval vm_compute in block_GetHash (B := ZBN) (K := ToyCrypto) (fork_block 2).
Definition fork_b : Z := Eval vm_compute in block_GetHash (B := ZBN) (K := ToyCrypto) (fork_block 3).
Definition fork_blocks (h : Z) : CBlock := if h =? fork_a then fork_block 2 else fork_block 3.
Definition fork_entry (prev : option Z) (height data status : Z) : CBlockIndex :=
  {| pprev := prev; pnext := None; nHeight := height; nFile := 0; nDataPos := data; nUndoPos := 0;
     nChainWork := height; nWorkTransition := 0; i_nPrimeChainType := 0; i_nPrimeChainLength := 0; nMoneySupply := 0;
     nTx := 1; nChainTx := 1; nStatus := status;
     i_nVersion := 2; i_hashMerkleRoot := 0; i_nTime := 1400000000; i_nBits := 0x07000000; i_nNonce := 0 |}.
Definition fork_index : gmap Z CBlockIndex :=
  <[1 := fork_entry None 0 0 BLOCK_VALID_TRANSACTIONS]> (<[fork_a := fork_entry (Some 1) 1 0 (BLOCK_VALID_SCRIPTS + BLOCK_HAVE_DATA + BLOCK_HAVE_UNDO)]>
    {[fork_b := fork_entry (Some 1) 1 147 (BLOCK_VALID_TRANSACTIONS + BLOCK_HAVE_DATA)]}).
Definition fork_info : CBlockFileInfo :=
  {| f_nBlocks := 2; f_nSize := 294; f_nUndoSize := 33; f_nHeightFirst := 1; f_nHeightLast := 1; f_nTimeFirst := 1; f_nTimeLast := 2 |}.
Definition fork_storage : storage :=
  {| blk_files := {[0 := Serialize (ser_CBlock (B := ZBN)) (fork_block 2) ++ Serialize (ser_CBlock (B := ZBN)) (fork_block 3)]};
     rev_files := {[0 := undo_bytes (K := ToyCrypto) [] 1]}; t_fileinfo := {[0 := fork_info]}; t_lastfile := Some 0; nLastBlockFile := 0;
     infoLastBlockFile := fork_info; free_space := 2 ^ 40; faults := []; reopens := [] |}.
Definition fork_coins (v : Z) : CCoins := coins_of (fork_coinbase v) 1.
Definition fork_node : node :=
  {| mapBlockIndex := fork_index; setBlockIndexValid := ∅; pindexGenesisBlock := Some 1; pindexBest := Some fork_a; hashBestChain := fork_a; nBestHeight := 1;
     nBestChainWork := 1; nBestInvalidWork := 0; disk := fork_storage; t_blockindex := ∅; t_txindex := ∅; t_bestinvalid := 0;
     signatureCache := SigCache.empty_cache |}.
(** the tip is at the first of the two *)
Definition fork_utxo (v : Z) : gmap Z CCoins := {[GetHash (K := ToyCrypto) (fork_coinbase v) := fork_coins v]}.
Definition fork_state : chainstate memory_view :=
  {| nd := fork_node; c_pool := empty_pool;
     pcoinsTip := new_cache (fork_utxo 2, Some {| b_hash := fork_a; b_height := 1 |}) |}.
Definition fork_settings : settings :=
  {| b_params := sample_params; b_fInitialDownload := false; b_nCoinCacheSize := 5000; b_fTestNet := false; b_v2compatible := false; b_prime_fuel := 0 |}.
Definition fork_switch : option (outcome * CValidationState * chainstate memory_view) :=
  SetBestChain (B := ZBN) (K := ToyCrypto) fork_settings (fun _ => None) fork_b new_state fork_state.

Lemma fork_block_valid v : v = 2 \/ v = 3 -> valid_block (B := ZBN) (fork_block v).
Proof.
  intros Hv. assert (Hr : 0 <= hashMerkleRoot (blk_header (fork_block v)) < 256 ^ 32) by (destruct Hv as [-> | ->]; vm_compute; split; discriminate || reflexivity).
  split; [split|].
  - unfold valid_header. cbn [blk_header fork_block h_nVersion hashPrevBlock h_nTime h_nBits h_nNonce] in *. split_and!; lia.
  - destruct Hv as [-> | ->]; vm_compute; discriminate.
  - split; [|cbn; unfold MAX_SIZE; lia]. constructor; [|constructor].
    unfold valid_tx, sized, valid_txin, valid_txout, valid_outpoint, sized, MAX_SIZE, COIN, uint_max; cbn.
    repeat split; try lia; repeat constructor; cbn; unfold is_byte, uint_max, COIN; try lia.
Qed.

(** connecting a block with only a coinbase makes no undo data *)
Lemma coinbase_undo {V} {CV : CoinsView V} {CS : CoinsViewSpec V} f1 f2 th strict fl hh v (s s' : connecting (V := V)) :
  connect_txs (B := ZBN) (K := ToyCrypto) f1 f2 th strict fl hh (with_ids (K := ToyCrypto) (fork_block v)) s = Some (inl s') -> n_vtxundo s' = n_vtxundo s.
Proof.
  change (with_ids (K := ToyCrypto) (fork_block v)) with [(fork_coinbase v, GetHash (K := ToyCrypto) (fork_coinbase v))]. cbn [connect_txs].
  destruct (connect_tx _ _ _ _ _ _ _ _ s) as [[s1|]|] eqn:Ec; [|done|done]. intros [= <-].
  destruct (connect_tx_inv _ _ _ _ _ _ _ _ _ _ Ec) as (? & ? & ? & _ & _ & Hx). cbn in Hx. apply Hx.
Qed.

Lemma fork_reverts : reverts (V := CCoinsViewCache memory_view) 1 (with_ids (K := ToyCrypto) (fork_block 2)) [] (fork_utxo 2) ∅.
Proof.
  set (s0 := {| n_nSigOps := 0; n_nFees := 0; n_nValueIn := 0; n_nValueOut := 0; n_vtxundo := []; n_checks := [];
                n_view := new_cache (new_cache ((∅, None) : memory_view)); n_cache := SigCache.empty_cache |}).
  assert (Hc : exists s1, connect_txs (B := ZBN) (K := ToyCrypto) 0 0 true false 0 1 (with_ids (K := ToyCrypto) (fork_block 2)) s0 = Some (inl s1)) by (eexists; vm_compute; reflexivity).
  destruct Hc as [s1 Hc]. pose proof (coinbase_undo _ _ _ _ _ _ _ _ _ Hc) as Hu.
  assert (Hr : block_rules (B := ZBN) (K := ToyCrypto) 1400000000 true (fork_block 2)).
  { apply (CheckBlock_rules _ _ true true new_state new_state). vm_compute. reflexivity. }
  destruct (connected_undo (B := ZBN) (K := ToyCrypto) 1400000000 (fork_block 2) 0 0 true false 0 1 ∅ s0 s1 Hr) as (u & Ha & _ & _ & Hrev);
    [lia|done|done|done|repeat constructor|exact Hc|].
  rewrite Hu in Hrev. assert (u = fork_utxo 2) as <-; [|exact Hrev].
  assert (Hq : apply_txs 1 (with_ids (K := ToyCrypto) (fork_block 2)) ∅ = Some (fork_utxo 2)) by (vm_compute; reflexivity). congruence.
Qed.

Abbreviation fork_node_ok k := (node_ok (V := CCoinsViewCache memory_view) (B := ZBN) (K := ToyCrypto) 1 fork_blocks k fork_node).

Lemma fork_genesis : coins_at (K := ToyCrypto) 1 fork_blocks fork_index (Some 1) ∅.
Proof. by apply (at_genesis _ _ _ (fork_entry None 0 0 BLOCK_VALID_TRANSACTIONS)). Qed.

Lemma fork_coins_at : coins_at (K := ToyCrypto) 1 fork_blocks fork_index (Some fork_a) (fork_utxo 2).
Proof. eapply (at_block _ _ _ _ _ 1 ∅); [reflexivity|done|reflexivity|apply fork_genesis|]. vm_compute. reflexivity. Qed.

Lemma intact_slice (s : storage) x n off d f : files x s !! n = Some f -> 0 <= n -> take (length d) (drop (Z.to_nat off) f) = d -> 0 <= off ->
  off + Z.of_nat (length d) <= size_in x (dbinfo s n) -> intact s x {| d_nFile := n; d_nPos := off |} d.
Proof.
  intros Hf Hn Hd H0 Hs. split_and!; cbn [d_nFile d_nPos]; [done|apply Z.eqb_neq; cbn; lia|by eexists|done|]. intros j b Hj. unfold file_at. rewrite Hf. cbn.
  rewrite <- Hd in Hj. rewrite lookup_take_Some, lookup_drop in Hj. by destruct Hj.
Qed.

Lemma fork_block_at v off : v = 2 /\ off = 0 \/ v = 3 /\ off = 147 ->
  intact fork_storage Blk {| d_nFile := 0; d_nPos := off |} (Serialize (ser_CBlock (B := ZBN)) (fork_block v)).
Proof.
  intros Hv. eapply intact_slice; [reflexivity|lia| | |]; destruct Hv as [[-> ->]|[-> ->]]; try lia; vm_compute; done.
Qed.

Lemma fork_files : fork_node_ok 41.
Proof.
  split; [split|].
  - unfold storage_inv, dbinfo. cbn. split_and!; [by intros []| | |by constructor]; intros n; (destruct (decide (n = 0)) as [->|Hn];
      [rewrite lookup_singleton_eq|rewrite lookup_singleton_ne by done]); cbn; unfold MAX_BLOCKFILE_SIZE; lia.
  - intros h pi Hh. cbn in Hh. unfold fork_index in Hh.
    apply lookup_insert_Some in Hh as [[<- <-]|[_ Hh]]; [|apply lookup_insert_Some in Hh as [[<- <-]|[_ Hh]]; [|apply lookup_singleton_Some in Hh as [<- <-]]].
    + split; [by intros []|by intros []|by intros []|by intros []|done].
    + split; [intros _|intros _|intros _; cbn [nHeight fork_entry]; lia|reflexivity|split; discriminate].
      * split; [apply (fork_block_valid 2); by left|]. apply (fork_block_at 2 0). by left.
      * exists 1, ∅, [], (fork_utxo 2). split; [done|]. split; [done|]. split; [apply fork_genesis|]. split; [done|].
        split; [vm_compute; reflexivity|]. split; [apply fork_reverts|]. split; [split; [constructor|cbn; unfold MAX_SIZE; lia]|].
        change (intact fork_storage Rev {| d_nFile := 0; d_nPos := 0 |} (undo_bytes (K := ToyCrypto) [] 1)).
        eapply intact_slice; [reflexivity|lia|vm_compute; done|lia|vm_compute; done].
    + split; [intros _|by intros []|intros _; cbn [nHeight fork_entry]; lia|reflexivity|split; discriminate].
      split; [apply (fork_block_valid 3); by right|]. apply (fork_block_at 3 147). by right.
  - intros n. unfold dbinfo. cbn. destruct (decide (n = 0)) as [->|Hn]; [rewrite lookup_singleton_eq|rewrite lookup_singleton_ne by done]; cbn; lia.
Qed.

Lemma memory_represents (u : gmap Z CCoins) t : map_Forall (fun _ c => IsPruned c = false) u -> represents (V := memory_view) (new_cache (u, t)) u.
Proof. intros Hu k. unfold Vm. cbn. rewrite lookup_empty. destruct (u !! k) as [c|] eqn:Ek; [|done]. cbn. by rewrite (Hu k c Ek). Qed.

Lemma SetBestChain_coins_witness : exists c', represents (V := memory_view) (pcoinsTip c') (fork_utxo 3) /\ hashBestChain (nd c') = fork_b.
Proof.
  assert (Hc : match fork_switch with Some (Ret true, _, _) => true | _ => false end = true) by (vm_compute; reflexivity).
  destruct fork_switch as [[[[[]|] s] c']|] eqn:Er; [|discriminate Hc..]. exists c'. unfold fork_switch in Er.
  pose proof (SetBestChain_coins (V := memory_view) (B := ZBN) (K := ToyCrypto) fork_settings fork_blocks 41 (fun _ => None) fork_b new_state fork_state
    (Some fork_a) [fork_b] (Ret true) s c') as H. cbv beta iota in H.
  destruct H as [Hm Hu].
  - reflexivity.
  - intros k c _. exact I.
  - exact I.
  - exact Er.
  - reflexivity.
  - lia.
  - vm_compute. reflexivity.
  - intros h pi Hin Hpi. apply list_elem_of_singleton in Hin as ->. intros q u f1 f2 th strict fl s0 s1 _ _ _ Hs0 Hrun.
    rewrite (coinbase_undo _ _ _ _ _ _ _ _ _ Hrun), Hs0. split; [split; [constructor|cbn; unfold MAX_SIZE; lia]|vm_compute; discriminate].
  - exact fork_files.
  - split; [reflexivity|]. exists (fork_utxo 2). split; [|split; [apply fork_coins_at|]].
    + apply memory_represents. unfold fork_utxo. apply map_Forall_singleton. reflexivity.
    + unfold fork_utxo. apply map_Forall_singleton. apply coins_of_ok; [split; [done|repeat constructor; cbn; unfold COIN; lia]|lia].
  - split; [|apply Hm]. apply Hu. eapply (at_block _ _ _ _ _ 1 ∅); [reflexivity|done|reflexivity|apply fork_genesis|vm_compute; reflexivity].
Defined.
