(* ===== verification/Choice.v ===== *)
(** * The choice of the best chain (main.cpp)

    What the outer loop of [ConnectBestBlock] decides.  The property: the loop ends, drops only candidates that descend
    from a failed block, and leads to the valid candidate with the most work. *)

From stdpp Require Import gmap.
From S2P Require Import Prelude OpenSSL BigNum Target PrimeChain Serialize Crypto Script Transaction ScriptEval ScriptStd Coins View Merkle Block BlockFile Chain Supply Connect Progress Mempool Best.
Local Open Scope Z_scope.

Abbreviation index_map := (gmap Z CBlockIndex) (only parsing).

(** ** The last candidate *)

Lemma best_candidate_spec idx s : match best_candidate idx s with
  | None => s = ∅
  | Some b => b ∈ s /\ forall x, x ∈ s -> work_of idx x <= work_of idx b
  end.
Proof.
  unfold best_candidate.
  assert (Hl : forall l, match foldr (fun h r => match r with None => Some h | Some m => if work_less idx m h then Some h else Some m end) None l with
    | None => l = [] | Some b => b ∈ l /\ forall x, x ∈ l -> work_of idx x <= work_of idx b end).
  { induction l as [|h l IH]; [done|]. cbn [foldr]. destruct (foldr _ None l) as [m|].
    - destruct IH as [Hm Hx]. destruct (work_less idx m h) eqn:E.
      + split; [by left|]. intros x Hin. apply elem_of_cons in Hin as [->|Hin]; [done|]. specialize (Hx x Hin). unfold work_less in E.
        apply orb_true_iff in E as [E|E]; [lia|]. apply andb_true_iff in E as [E _]. lia.
      + split; [by right|]. intros x Hin. apply elem_of_cons in Hin as [->|Hin]; [|by apply Hx]. unfold work_less in E. apply orb_false_iff in E as [E _]. lia.
    - subst l. split; [by left|]. intros x Hin. apply list_elem_of_singleton in Hin as ->. done. }
  specialize (Hl (elements s)). destruct (foldr _ None _) as [b|].
  - destruct Hl as [H1 H2]. split; [by apply elem_of_elements|]. intros x Hx. by apply H2, elem_of_elements.
  - by apply elements_empty_iff, leibniz_equiv in Hl.
Qed.

(** ** What marking changes *)

Definition rank (b : CBlockIndex) : option Z * Z * Z := (pprev b, nHeight b, nChainWork b).
Definition same_ranks (i1 i2 : index_map) : Prop := forall h, rank <$> i2 !! h = rank <$> i1 !! h.
#[export] Instance same_ranks_equivalence : Equivalence same_ranks.
Proof. split; [by intros i h|by intros i j H h|]. intros i j k H1 H2 h. by rewrite H2. Qed.

Section Ranks.
Context (i1 i2 : index_map) (Hr : same_ranks i1 i2).

Lemma same_ranks_lookup h b : i1 !! h = Some b -> exists b', i2 !! h = Some b' /\ rank b' = rank b.
Proof. intros H. specialize (Hr h). rewrite H in Hr. destruct (i2 !! h) as [b'|]; [|done]. exists b'. split; [done|]. exact (inj Some _ _ Hr). Qed.
Lemma work_of_ranks h : work_of i2 h = work_of i1 h.
Proof. unfold work_of. specialize (Hr h). destruct (i1 !! h), (i2 !! h); try done. apply (inj Some) in Hr. unfold rank in Hr. by injection Hr. Qed.
Lemma prev_of_ranks p : prev_of i2 p = prev_of i1 p.
Proof. destruct p as [h|]; [|done]. unfold prev_of. cbn. specialize (Hr h). destruct (i1 !! h), (i2 !! h); try done. apply (inj Some) in Hr. unfold rank in Hr. by injection Hr. Qed.
Lemma step_back_ranks k p : step_back i2 k p = step_back i1 k p.
Proof. revert p. induction k as [|k IH]; intros p; [done|]. cbn. destruct p as [h|]; [|done]. rewrite prev_of_ranks. apply IH. Qed.
Lemma index_ok_ranks g : index_ok i1 g -> index_ok i2 g.
Proof.
  intros [H1 H2]. split.
  - intros h b Hb. pose proof (Hr h) as Hh. rewrite Hb in Hh. destruct (i1 !! h) as [b1|] eqn:E1; [|done]. apply (inj Some) in Hh. injection Hh as Hp Hn _. specialize (H1 h b1 E1).
    rewrite Hp, Hn. destruct (pprev b1) as [q|]; [|done]. destruct H1 as (bq & Hq & Hqn). destruct (same_ranks_lookup q bq Hq) as (b' & Hb' & Hrk).
    exists b'. injection Hrk as _ Hn' _. by rewrite Hn'.
  - intros h b Hb. pose proof (Hr h) as Hh. rewrite Hb in Hh. destruct (i1 !! h) as [b1|] eqn:E1; [|done]. apply (inj Some) in Hh. injection Hh as _ Hn _. rewrite Hn. by eapply H2.
Qed.
End Ranks.

(** ** The walk back *)

Definition is_failed (b : CBlockIndex) : Prop := Z.land (nStatus b) BLOCK_FAILED_MASK <> 0.
(** [t] is [k] blocks before [h], and marked as failed *)
Definition failed_at (idx : index_map) (h : Z) (k : nat) (t : Z) : Prop :=
  step_back idx k (Some h) = Some t /\ exists b, idx !! t = Some b /\ is_failed b.
(** work does not get less along a chain: it never reaches [2 ^ 256] *)
Definition work_grows (idx : index_map) : Prop := forall h b q, idx !! h = Some b -> pprev b = Some q -> work_of idx q <= nChainWork b.
(** what is attached: blocks not marked and with more work than the best block, among them the one the walk starts from if it has *)
Definition to_attach (idx : index_map) (best : option Z) (h x : Z) : Prop :=
  exists b, idx !! x = Some b /\ ~ is_failed b /\ match best with None => True | Some q => work_of idx q < nChainWork b end /\ nChainWork b <= work_of idx h.
Definition attachable (idx : index_map) (best : option Z) (h : Z) (acc l : list Z) : Prop :=
  (forall x, x ∈ l -> x ∈ acc \/ to_attach idx best h x) /\
  exists l0, l = l0 ++ (if match best with None => true | Some q => work_of idx q <? work_of idx h end then h :: acc else acc).

Lemma check_ancestry_spec genesis idx best f h b acc : index_ok idx genesis -> work_grows idx -> idx !! h = Some b -> nHeight b < Z.of_nat f ->
  exists w, check_ancestry f idx best h acc = Some w /\
  match w with FailedAt t => exists k, (k < f)%nat /\ failed_at idx h k t | Attach l => attachable idx best h acc l end.
Proof.
  intros Hok Hgrow. revert h b acc. induction f as [|f IH]; intros h b acc Hh Hf; pose proof (ok_height _ _ Hok h b Hh) as H0; [lia|].
  cbn [check_ancestry]. rewrite Hh. cbn [option_bind mbind].
  destruct (Z.eqb_spec (Z.land (nStatus b) BLOCK_FAILED_MASK) 0) as [Hz|Hz]; cbn [negb].
  2:{ eexists. split; [done|]. exists 0%nat. split; [lia|]. split; [done|]. by exists b. }
  set (acc' := if match best with None => true | Some q => work_of idx q <? nChainWork b end then h :: acc else acc).
  assert (Hwk : work_of idx h = nChainWork b) by (unfold work_of; by rewrite Hh).
  assert (Hacc : acc' = if match best with None => true | Some q => work_of idx q <? work_of idx h end then h :: acc else acc) by (unfold acc'; by rewrite Hwk).
  assert (Hin : forall x, x ∈ acc' -> x ∈ acc \/ to_attach idx best h x).
  { intros x Hx. unfold acc' in Hx. destruct (match best with None => true | Some q => _ end) eqn:Eb; [|by left].
    apply elem_of_cons in Hx as [->|Hx]; [|by left]. right. exists b. split_and!; [done|by intros []| |lia]. destruct best; [lia|done]. }
  assert (Hend : attachable idx best h acc acc') by (split; [done|]; by exists []).
  destruct (pprev b) as [q|] eqn:Hq; [|by eexists]. destruct (pnext b); [by eexists|]. pose proof (ok_prev _ _ Hok h b Hh) as Hpv. rewrite Hq in Hpv.
  destruct Hpv as (bq & Hbq & Hn). destruct (IH q bq acc' Hbq ltac:(lia)) as (w & -> & Hw). exists w. split; [done|]. destruct w as [t|l].
  - destruct Hw as (k & Hk & Hs & Ht). exists (S k). split; [lia|]. split; [|done]. cbn [step_back]. by rewrite (prev_of_Some idx h b Hh), Hq.
  - destruct Hw as [H1 (l0 & ->)]. split.
    + intros x Hx. destruct (H1 x Hx) as [Hx'|(e & He & Hne & Hb & Hle)]; [by apply Hin|right]. exists e. split_and!; [done|done|done|].
      specialize (Hgrow h b q Hh Hq). lia.
    + rewrite <- Hacc. case_match; [exists (l0 ++ [q]); by rewrite <- app_assoc|by exists l0].
Qed.

Lemma work_grows_ranks i1 i2 : same_ranks i1 i2 -> work_grows i1 -> work_grows i2.
Proof.
  intros Hr Hg h b q Hb Hq. rewrite (work_of_ranks i1 i2 Hr). destruct (same_ranks_lookup i2 i1 (symmetry Hr) h b Hb) as (b1 & Hb1 & Hrk).
  injection Hrk as Hp _ Hw. rewrite <- Hw. apply (Hg h b1); [done|congruence].
Qed.

(** ** Marking *)

Lemma mark_failed_spec genesis f t h k n : index_ok (mapBlockIndex n) genesis -> step_back (mapBlockIndex n) k (Some h) = Some t -> (k <= f)%nat ->
  is_Some (mapBlockIndex n !! h) ->
  exists n', mark_failed f t h n = Some n' /\ same_ranks (mapBlockIndex n) (mapBlockIndex n') /\ pindexBest n' = pindexBest n /\
    setBlockIndexValid n' ⊆ setBlockIndexValid n /\ (t <> h -> h ∉ setBlockIndexValid n') /\
    (forall x, mapBlockIndex n' !! x = mapBlockIndex n !! x \/
       (x ∉ setBlockIndexValid n') /\ exists j, (j <= k)%nat /\ step_back (mapBlockIndex n) j (Some x) = Some t) /\
    (forall x, x ∈ setBlockIndexValid n -> x ∈ setBlockIndexValid n' \/ exists j, step_back (mapBlockIndex n) j (Some x) = Some t).
Proof.
  revert h k n. induction f as [|f IH]; intros h k n Hok Hst Hk [b Hb]; cbn [mark_failed].
  { assert (k = 0%nat) as -> by lia. cbn in Hst. injection Hst as ->. rewrite Z.eqb_refl. exists n. split_and!; try done; intros x; by left. }
  destruct (Z.eqb_spec t h) as [->|Hne]; [exists n; split_and!; try done; intros x; by left|].
  destruct k as [|k]; [cbn in Hst; congruence|]. cbn [step_back] in Hst. rewrite (prev_of_Some _ _ _ Hb) in Hst. rewrite Hb. cbn [option_bind mbind].
  destruct (pprev b) as [q|] eqn:Hq; [|by rewrite step_back_None in Hst].
  set (b' := set_nStatus _ b). set (n1 := set_valid _ _). pose proof (WriteBlockIndex_index (disk_index h b') n1) as Hw.
  assert (Hv : setBlockIndexValid (WriteBlockIndex (disk_index h b') n1).2 = setBlockIndexValid n ∖ {[h]} /\ pindexBest (WriteBlockIndex (disk_index h b') n1).2 = pindexBest n).
  { unfold WriteBlockIndex. by destruct (io _) as [[] s]. }
  destruct (WriteBlockIndex _ n1) as [ok n2]. cbn [snd] in *. destruct Hv as [Hv Hbest]. cbn [n1 set_valid write_index set_index mapBlockIndex] in Hw.
  assert (Hr : same_ranks (mapBlockIndex n) (mapBlockIndex n2)).
  { intros x. rewrite Hw. destruct (decide (x = h)) as [->|Hx]; [by rewrite lookup_insert_eq, Hb|by rewrite lookup_insert_ne]. }
  change (pprev b') with (pprev b). rewrite Hq. cbn [option_bind mbind].
  pose proof (ok_prev _ _ Hok h b Hb) as Hpv. rewrite Hq in Hpv. destruct Hpv as (bq & Hbq & _).
  destruct (IH q k n2) as (n' & -> & Hr' & Hb' & Hsub & Hqs & Hidx & Hall).
  { by eapply index_ok_ranks. } { by rewrite (step_back_ranks (mapBlockIndex n)). } { lia. }
  { destruct (same_ranks_lookup _ _ Hr q bq Hbq) as (x & Hx & _). by exists x. }
  assert (Hsubh : h ∉ setBlockIndexValid n') by (intros Hin; apply Hsub in Hin; rewrite Hv in Hin; set_solver).
  assert (Hpath : step_back (mapBlockIndex n) (S k) (Some h) = Some t) by (cbn [step_back]; by rewrite (prev_of_Some _ _ _ Hb), Hq).
  exists n'. split_and!; [done|by etrans|congruence|set_solver|done| |].
  - intros x. destruct (Hidx x) as [Hx|(Hx & j & Hj & Hs)].
    + destruct (decide (x = h)) as [->|Hxh]; [right; split; [done|by exists (S k)]|]. left. by rewrite Hx, Hw, lookup_insert_ne.
    + right. split; [done|]. exists j. split; [lia|]. by rewrite <- (step_back_ranks (mapBlockIndex n) (mapBlockIndex n2)).
  - intros x Hx. destruct (decide (x = h)) as [->|Hxh]; [right; by exists (S k)|]. destruct (Hall x) as [H|(j & Hj)]; [set_solver|by left|].
    right. exists j. by rewrite <- (step_back_ranks (mapBlockIndex n) (mapBlockIndex n2)).
Qed.

(** ** Property *)

(** the candidates are in the index and not marked themselves *)
Definition candidates_ok (n : node) : Prop := forall h, h ∈ setBlockIndexValid n -> exists b, mapBlockIndex n !! h = Some b /\ ~ is_failed b.

(** a block that descends from one that is marked *)
Definition condemned (idx : index_map) (h : Z) : Prop := exists k t, failed_at idx h k t.

(** what is chosen: nothing, when no candidate has more work than the best block, or a way to the candidate with the most work *)
Definition chosen (n' : node) (best : Z) (hs : list Z) : Prop :=
  let idx := mapBlockIndex n' in
  hs = [] /\ (forall x, x ∈ setBlockIndexValid n' -> work_of idx x <= work_of idx best) \/
  exists b, last hs = Some b /\ b ∈ setBlockIndexValid n' /\ work_of idx best < work_of idx b /\
    (forall x, x ∈ setBlockIndexValid n' -> work_of idx x <= work_of idx b) /\ forall x, x ∈ hs -> exists e, idx !! x = Some e /\ ~ is_failed e.

Lemma condemned_after genesis n n' t : index_ok (mapBlockIndex n) genesis -> same_ranks (mapBlockIndex n) (mapBlockIndex n') ->
  (exists b, mapBlockIndex n !! t = Some b /\ is_failed b) ->
  (forall x, mapBlockIndex n' !! x = mapBlockIndex n !! x \/ exists j, step_back (mapBlockIndex n) j (Some x) = Some t) ->
  forall x, condemned (mapBlockIndex n') x -> condemned (mapBlockIndex n) x.
Proof.
  intros Hok Hr Ht Hx x (k & y & Hs & b & Hb & Hf). rewrite (step_back_ranks _ _ Hr) in Hs. destruct (Hx y) as [Hy|(j & Hj)].
  - exists k, y. split; [done|]. exists b. by rewrite <- Hy.
  - exists (k + j)%nat, t. split; [|done]. by rewrite step_back_add, Hs.
Qed.

(** one failed candidate is dealt with: fewer candidates are left *)
Lemma drop_candidate genesis n b t k best : index_ok (mapBlockIndex n) genesis -> candidates_ok n -> pindexBest n = Some best ->
  b ∈ setBlockIndexValid n -> (Z.of_nat k <= height_of (mapBlockIndex n) (Some b)) -> failed_at (mapBlockIndex n) b k t ->
  exists n1 n2, mark_failed (Z.to_nat (height_of (mapBlockIndex n) (Some b) + 1)) t b n = Some n1 /\ InvalidChainFound b n1 = Some n2 /\
    index_ok (mapBlockIndex n2) genesis /\ candidates_ok n2 /\ pindexBest n2 = Some best /\ same_ranks (mapBlockIndex n) (mapBlockIndex n2) /\
    setBlockIndexValid n2 ⊂ setBlockIndexValid n /\
    (forall x, x ∈ setBlockIndexValid n -> x ∈ setBlockIndexValid n2 \/ condemned (mapBlockIndex n) x) /\
    (forall x, condemned (mapBlockIndex n2) x -> condemned (mapBlockIndex n) x).
Proof.
  intros Hok Hc Hbest Hb Hk [Hst Hft]. destruct (Hc b Hb) as (e & He & Hne).
  destruct (mark_failed_spec genesis (Z.to_nat (height_of (mapBlockIndex n) (Some b) + 1)) t b k n Hok Hst ltac:(lia) ltac:(eauto))
    as (n1 & Hm & Hr & Hb1 & Hsub & Hdrop & Hidx & Hall).
  assert (Htb : t <> b) by (intros ->; destruct Hft as (e' & He' & Hf'); rewrite He in He'; injection He' as <-; done). specialize (Hdrop Htb).
  assert (Hi : exists n2, InvalidChainFound b n1 = Some n2 /\ mapBlockIndex n2 = mapBlockIndex n1 /\ setBlockIndexValid n2 = setBlockIndexValid n1 /\ pindexBest n2 = pindexBest n1).
  { unfold InvalidChainFound, WriteBestInvalidWork. set (m := if nBestInvalidWork n1 <? _ then _ else n1).
    assert (Hm1 : mapBlockIndex m = mapBlockIndex n1 /\ setBlockIndexValid m = setBlockIndexValid n1 /\ pindexBest m = pindexBest n1).
    { unfold m. case_if; [|done]. by destruct (io _) as [[] s]. }
    destruct Hm1 as (H1 & H2 & H3). exists m. by rewrite H3, Hb1, Hbest. }
  destruct Hi as (n2 & Hi & Hmi & Hvi & Hbi). exists n1, n2. rewrite Hmi, Hvi, Hbi, Hb1.
  split_and!; [done|done|by eapply index_ok_ranks| |done|done| | |].
  - intros x Hx. rewrite Hvi in Hx. rewrite Hmi. destruct (Hidx x) as [->|[Hx' _]]; [|done]. apply Hc. by apply Hsub.
  - split; [done|]. intros Hx. by apply Hdrop, Hx.
  - intros x Hx. destruct (Hall x Hx) as [H|(j & Hj)]; [by left|]. right. by exists j, t.
  - apply (condemned_after genesis n n1 t Hok Hr Hft). intros x. destruct (Hidx x) as [H|(_ & j & _ & Hj)]; [by left|right; by exists j].
Qed.

(** C4: The choice of the best chain ends and is right: in an index where every block but the first has its predecessor one
    below with no more work, and no candidate is marked as failed itself, the outer loop of [ConnectBestBlock] ends within one round more than
    there are candidates; it drops only candidates that descend from a block marked as failed; and either no candidate left
    has more work than the best block, or what is to be attached ends with a candidate with the most work, and none of it is marked. *)
Theorem choose_best_ends genesis n best (Hok : index_ok (mapBlockIndex n) genesis) (Hgrow : work_grows (mapBlockIndex n)) (Hc : candidates_ok n)
    (Hbest : pindexBest n = Some best) :
  exists hs n', choose_best (S (size (setBlockIndexValid n))) n = Some (hs, n') /\ chosen n' best hs /\
    same_ranks (mapBlockIndex n) (mapBlockIndex n') /\ setBlockIndexValid n' ⊆ setBlockIndexValid n /\
    forall x, x ∈ setBlockIndexValid n -> x ∈ setBlockIndexValid n' \/ condemned (mapBlockIndex n) x.
Proof.
  remember (S (size (setBlockIndexValid n))) as f eqn:Ef. assert (Hf : (size (setBlockIndexValid n) < f)%nat) by lia. clear Ef.
  revert n Hok Hgrow Hc Hbest Hf. induction f as [|f IH]; intros n Hok Hgrow Hc Hbest Hf; [lia|]. cbn [choose_best].
  pose proof (best_candidate_spec (mapBlockIndex n) (setBlockIndexValid n)) as Hcand. destruct (best_candidate _ _) as [b|].
  2:{ exists [], n. split_and!; [done| |done|done|by left]. left. split; [done|]. intros x Hx. rewrite Hcand in Hx. set_solver. }
  destruct Hcand as [Hb Hmax]. rewrite Hbest. destruct (bool_decide _ || _) eqn:Estop.
  { exists [], n. split_and!; [done| |done|done|by left]. left. split; [done|]. intros x Hx. specialize (Hmax x Hx).
    apply orb_true_iff in Estop as [E|E]; [apply bool_decide_eq_true in E; by injection E as ->|lia]. }
  destruct (Hc b Hb) as (e & He & Hne). assert (Hh : height_of (mapBlockIndex n) (Some b) = nHeight e) by (cbn; by rewrite He).
  destruct (check_ancestry_spec genesis _ (Some best) (Z.to_nat (height_of (mapBlockIndex n) (Some b) + 1)) b e [] Hok Hgrow He ltac:(pose proof (ok_height _ _ Hok b e He); lia)) as (w & -> & Hw).
  cbn [option_bind mbind]. destruct w as [t|l].
  - destruct Hw as (k & Hk & Hft). destruct (drop_candidate genesis n b t k best Hok Hc Hbest Hb ltac:(lia) Hft) as (n1 & n2 & -> & Hn2 & Hok2 & Hc2 & Hb2 & Hr2 & Hsub & Hall & Hcon).
    cbn [option_bind mbind]. rewrite Hn2. cbn [option_bind mbind].
    destruct (IH n2 Hok2 (work_grows_ranks _ _ Hr2 Hgrow) Hc2 Hb2) as (hs & n' & Hrun & Hch & Hr' & Hs' & Hall').
    { pose proof (subset_size _ _ Hsub). lia. }
    exists hs, n'. split_and!; [done|done|by etrans|set_solver|]. intros x Hx. destruct (Hall x Hx) as [Hx2|Hx2]; [|by right].
    destruct (Hall' x Hx2) as [H|H]; [by left|right; by apply Hcon].
  - exists l, n. destruct Hw as [Hin (l0 & Hl)]. split_and!; [done| |done|done|by left]. destruct (Z.ltb_spec (work_of (mapBlockIndex n) best) (work_of (mapBlockIndex n) b)) as [Hlt|Hge].
    + right. exists b. split_and!; [by rewrite Hl, last_snoc|done|done|done|]. intros x Hx.
      destruct (Hin x Hx) as [H|(e' & He' & Hf' & _)]; [by apply not_elem_of_nil in H|by exists e'].
    + left. split; [|intros x Hx; specialize (Hmax x Hx); lia]. destruct l as [|y l]; [done|]. exfalso.
      destruct (Hin y ltac:(by left)) as [H|(e' & _ & _ & H1 & H2)]; [by apply not_elem_of_nil in H|lia].
Qed.

(** ** Witness *)

(** block 2 is marked; its successor 3 has the most work, block 4 is the best valid one *)
Definition choice_entry (prev : option Z) (height work status : Z) : CBlockIndex :=
  {| pprev := prev; pnext := None; nHeight := height; nFile := 0; nDataPos := 0; nUndoPos := 0;
     nChainWork := work; nWorkTransition := 0; i_nPrimeChainType := 0; i_nPrimeChainLength := 0; nMoneySupply := 0;
     nTx := 1; nChainTx := 1; nStatus := status;
     i_nVersion := 2; i_hashMerkleRoot := 0; i_nTime := 1400000000; i_nBits := 0x07000000; i_nNonce := 0 |}.
Definition choice_index : gmap Z CBlockIndex :=
  <[1 := choice_entry None 0 10 BLOCK_VALID_SCRIPTS]> (<[2 := choice_entry (Some 1) 1 20 (BLOCK_VALID_TRANSACTIONS + BLOCK_FAILED_VALID)]>
    (<[3 := choice_entry (Some 2) 2 30 BLOCK_VALID_TRANSACTIONS]> {[4 := choice_entry (Some 1) 1 15 BLOCK_VALID_TRANSACTIONS]})).
Definition choice_node : node :=
  {| mapBlockIndex := choice_index; setBlockIndexValid := {[3; 4]}; pindexGenesisBlock := Some 1; pindexBest := Some 1; hashBestChain := 1;
     nBestHeight := 0; nBestChainWork := 10; nBestInvalidWork := 0; disk := sample_storage; t_blockindex := ∅; t_txindex := ∅; t_bestinvalid := 0;
     signatureCache := SigCache.empty_cache |}.

Lemma choose_best_ends_witness : exists n', choose_best 3 choice_node = Some ([4], n') /\ chosen n' 1 [4].
Proof.
  assert (Hrun : fst <$> choose_best 3 choice_node = Some [4]) by (vm_compute; reflexivity).
  destruct (choose_best_ends 1 choice_node 1) as (hs & n' & H & Hch & _).
  - split; intros h b H; cbn [mapBlockIndex choice_node] in H; unfold choice_index in H;
      repeat (apply lookup_insert_Some in H as [[<- <-]|[_ H]]; [cbn; first [lia|split; reflexivity|eexists; split; reflexivity]|]);
      apply lookup_singleton_Some in H as [<- <-]; cbn; first [lia|eexists; split; reflexivity].
  - intros h b q H Hq. cbn [mapBlockIndex choice_node] in H. unfold choice_index in H.
    repeat (apply lookup_insert_Some in H as [[<- <-]|[_ H]]; [cbn in Hq; simplify_eq; vm_compute; discriminate|]);
      apply lookup_singleton_Some in H as [<- <-]; cbn in Hq; simplify_eq; vm_compute; discriminate.
  - intros h Hh. cbn in Hh. apply elem_of_union in Hh as [Hh|Hh]; apply elem_of_singleton in Hh as ->;
      (eexists; split; [vm_compute; reflexivity|intros Hf; apply Hf; reflexivity]).
  - reflexivity.
  - change (S (size (setBlockIndexValid choice_node))) with 3%nat in H. rewrite H in Hrun. cbn in Hrun. injection Hrun as ->. exists n'. split; [exact H|exact Hch].
Defined.
